(* ===== verification/_CoqProject ===== *)
-Q . S2P
Prelude.v
BytesConv.v
Consts.v
Args.v
Uri.v
Cookie.v
PathStore.v
HeaderScan.v
RequestHeader.v
ResponseHeader.v
Bufio.v
Body.v
HeaderRead.v
Http.v
Machine.v
ConnPool.v
WorkerPool.v
Client.v
Deadline.v
ClientMap.v
LbClient.v
UserData.v
PerIP.v
Streaming.v
RequestCtx.v
Server.v
ServerSafety.v
ServerHazards.v
ServerPipeline.v
Fs.v
FsRange.v
FsPaths.v
FsServe.v
FsCache.v
FsHazards.v
Pipeline.v
PipelineSafety.v
PipelineOrder.v
ServerLife.v
Timeouts.v
PipeConns.v
InmemoryListener.v
Stackless.v
Compress.v
Dialer.v
Proxy.v
Prefork.v
Hijack.v
GetURL.v
Timers.v
Messages.v
ClientTLS.v
ServerStart.v
StreamReader.v
ArgsMore.v
Reuse.v
Pools.v
