(* ===== verification/Prelude.v ===== *)
(** * Verification library for the HTTP toolkit under [src/]

    [src/] is fasthttp: an HTTP/1.x server and client for Go that reuse every
    object and buffer they can.  This library models the code that decides what
    is sent, what is understood, and who may use a connection, and proves what
    makes it correct.  It is written like the code: one definition per function
    or method, under the name it has in Go ([RequestHeader_parse] is the method
    [RequestHeader.parse]), with its branches in the code's order.

    ** Conventions

    - Bytes are [Byte.byte]; strings and byte slices are lists of bytes.  Where
      the backing store of a slice matters it is there: [kvs] in Args (the
      reused elements), [slice] in Body (the capacity), the buffer in HeaderScan
      (the scanner writes into it).
    - [int] is [Z]; where the code can overflow the wrap-around is written out
      ([int64], [uint32], [uint64]).
    - [option] is a Go panic ([None]); errors are values of [error].  Recursion
      without a structural measure takes fuel, and [None] is then also fuel that
      has run out: the theorems named [_total], [_safe] and [_ends] show that
      both cannot happen with the fuel the definitions pass, which is the
      length of the input (every turn of the loop takes a byte), the number of
      redirects, or, for serveConn, one more than the number of bytes the
      connection will deliver.
    - Goroutines are step functions over a shared state (Machine): a step is one
      critical section, atomic operation or channel operation of the code, a
      schedule says whose turn it is, and the environment chooses what it
      decides (a dial that fails, a timer that fires).
    - What is not in the repository is an argument: classes [HttpLib]
      (bytebufferpool, mime/multipart; laws in [HttpLaws]) and [ServerLib] (user
      values, hijack handlers, forms), the time format in [TimeLib], and the
      records [exchange] and [Env] for what a connection answers; [OsLib] (the file
      system, MIME types; laws in [OsLaws]) and [CompressLib] (the compressors; laws
      in [CompressLaws]).  Each class has an instance ([plainLib],
      [plainServerLib], [plainOs], [plainCompress]) on which the witnesses run.
    - What the code uses of Go's standard library (bufio, net.SplitHostPort,
      strconv, mime/multipart's writer, base64, time.Timer) is written out where it
      is used.

    ** Files

    - Prelude: bytes, integers, list and option lemmas, hints, tactics.
    - BytesConv (bytesconv.go and its tables), Consts (strings.go, headers.go,
      methods.go, status.go), Args (args.go), ArgsMore (its fractions and sorting), Uri
      (uri.go), Cookie (cookie.go), PathStore (the arrays behind the paths of URIs and
      cookies), Reuse (when two objects cannot be told apart by any call), Pools
      (Acquire and Release of objects).
    - HeaderScan (the scanner of header.go), RequestHeader and ResponseHeader
      (their types: accessors, multimap, parser, printer), Bufio (bufio.Reader
      over a connection that delivers pieces), HeaderRead (the read loop of both
      header types, written once against the class [HeadParser]), Body (bodies
      of http.go: known length, chunked, until the end), Http (Request and
      Response), Streaming (streaming.go: request bodies as streams).
    - Machine (interleaving), ConnPool (client.go: the pool of connections),
      WorkerPool (workerpool.go), Deadline (client.go: clientDoDeadline),
      ClientMap (client.go: Client and its map), LbClient (lbclient.go), PerIP
      (peripconn.go), UserData (userdata.go).
    - Client (client.go: one request through a HostClient, retries, redirects,
      host addresses).
    - GetURL (client.go: GET with a deadline), ClientTLS (client.go: TLS
      configurations, dialAddr, tlsClientHandshake), Dialer (tcpdialer.go), Proxy
      (fasthttpproxy), Pipeline (client.go: PipelineClient) with its theorems in
      PipelineSafety and PipelineOrder, Timers (timer.go, coarseTime.go).
    - RequestCtx (server.go: what a handler gets), Server (server.go: serveConn),
      ServerSafety, ServerHazards and ServerPipeline (its theorems).
    - ServerLife (server.go: Serve, ServeConn, Shutdown), Timeouts (server.go:
      TimeoutHandler), Hijack (server.go: hijacked connections), ServerStart
      (server.go: ListenAndServe and its variants, certificates), Prefork (prefork).
    - Fs (fs.go: the file server), with FsRange, FsPaths, FsServe (its theorems),
      FsCache (open files under concurrent requests) and FsHazards.
    - Compress (compress.go, brotli.go, stackless/writer.go, the compressing parts
      of http.go and server.go), Stackless (stackless/func.go), Messages (http.go:
      multipart forms, messages to other writers).
    - PipeConns and InmemoryListener (fasthttputil), StreamReader (stream.go, over
      the machine of PipeConns).

    ** How the parts fit together

    serveConn (Server) reads a head through [RequestHeader_Read] (HeaderRead), the
    body through [Request_readLimitBody] or [Request_readBodyStream] (Http, Body,
    Streaming), calls the handler with a [RequestCtx] and prints with
    [Response_Write].  The client prints with [Request_Write] and reads with
    [Response_ReadLimitBody] over a connection of ConnPool.  The theorems follow
    the same lines: a component's theorem is stated about all ways the input can
    be cut into pieces ([stream] of Bufio), the parser's printing lemmas are laws
    of [HeadParser], the message round trips of Http rest on them, and the round
    trips of Client and the conversation of ServerPipeline rest on those.

    Serve (ServerLife) hands connections to WorkerPool and counts them; its workers
    run serveConn.  A handler may be the file server (Fs, over Http and Cookie's
    times), TimeoutHandler (Timeouts) or CompressHandler (Compress, over Http), and
    may hijack its connection (Hijack).  A HostClient gets its connections from
    dialAddr (ClientTLS), which calls a dial function such as those of Dialer or
    Proxy.  StreamReader runs bufio.Writers into the pipes of PipeConns, step by step
    of that machine.  Pools is proved against the class [Reusable] (an equivalence that
    Reset establishes and every call respects); Reuse has what its instances need.  The machines share Machine: reachability, the lemmas on what
    threads hold and exchange with a pool, and sums over threads.

    ** What the theorems show

    - Refinement: serveConn on a keep-alive connection is a sequence of exchanges
      (ServerPipeline); normalizePath is the removal of dot segments; ParseByteRange
      is the three forms of a byte range; the cookie parser is its grammar.
    - Round trips: what Write sends, ReadLimitBody reads, for requests and
      responses, whole exchanges, chunked bodies, streams, compressed bodies,
      multipart forms, URIs, cookies.
    - Safety and termination: no input panics or loops the readers, the header
      scanner or serveConn; redirects end; dialing ends; TLS handshakes end; Stop of
      the worker pool ends; Shutdown waits for the connections and can return.
    - The file server answers with the bytes of the file or of the range, and opens
      nothing outside its root; with Compress it also opens the compressed copy of the
      root that lies beside the root.
    - An object from a pool works as a new one for every sequence of calls but Read,
      whose error texts can differ; paths behave as values unless normalizePath
      returns strSlash.
    - Invariants of the machines: connections are never lost or used twice, the
      limits hold (a HostClient counts a connection until it starts to close it), a
      deadline is decided once, one cleaner per map, the counters
      per address and per server are exact, the life of a connection is the
      documented one; pooled things (contexts that have timed out, hijacked
      connections, readers, channels, timers, buffers, open files) are never used by
      two; responses on a pipelined connection go to their requests; what goes into
      a pipe or a stream comes out in order; prefork leaves no child behind.
    - Errors: runs that break a promise of the code or its comments; they are
      the findings of the manifest.

    ** Not modelled

    header.go's updateServerDate (a goroutine that stores the time; the printer
    takes the date as an argument); what crypto/tls, the network, the operating
    system and the compressors do inside (they answer); loggers and what is logged;
    accessors that return a field; reuseport, SOCKS5, pprofhandler and the fuzzing
    entry points, which call other packages and nothing else; the 32-bit and
    Windows variants; what a hijack handler does with its connection; time is a
    number. *)
From Stdlib Require Export ZArith Lia Bool.
From Stdlib Require Export Strings.Byte.
From Stdlib Require Import Strings.String.
From stdpp Require Export base option list.
From stdpp Require Import countable.

(** ** Bytes and byte strings

    Go's [byte] is the 256-constructor type [Byte.byte] and both [[]byte] and
    [string] are lists of bytes, so the casts [b2s] and [s2b] of
    bytesconv.go are the identity.  The arithmetic view of a byte is [bz]. *)

Abbreviation bytes := (list byte).

Declare Scope go_scope.
Delimit Scope go_scope with go.
Open Scope go_scope.
Open Scope Z_scope.

Definition bs (s : string) : bytes := list_byte_of_string s.
Arguments bs s%_string.

#[export] Instance byte_eq_dec : EqDecision byte := Byte.byte_eq_dec.
#[export] Instance byte_countable : Countable byte := inj_countable Byte.to_N Byte.of_N Byte.of_to_N.
Arguments byte_eq_dec : simpl never.

Definition bz (c : byte) : Z := Z.of_N (Byte.to_N c).

(** Conversion to a byte wraps around modulo 256, as Go's [byte(x)] does. *)
Definition zb (z : Z) : byte :=
  match Byte.of_N (Z.to_N (z mod 256)) with Some c => c | None => x00 end.

(** 64-bit two's complement [int] (and [int64]). *)
Definition int64 (z : Z) : Z := (z + 2 ^ 63) mod 2 ^ 64 - 2 ^ 63.
Definition maxInt : Z := 2 ^ 63 - 1.

(** Unsigned machine words. *)
Definition uint32 (z : Z) : Z := z mod 2 ^ 32.
Definition uint64 (z : Z) : Z := z mod 2 ^ 64.

(** The length of a slice as a Go [int]. *)
Abbreviation zlen l := (Z.of_nat (length l)).

Lemma bz_range c : 0 <= bz c < 256.
Proof.
  unfold bz. pose proof (Byte.to_N_bounded c).
  change 256 with (Z.of_N 256). lia.
Qed.

Lemma zb_bz c : zb (bz c) = c.
Proof.
  unfold zb. rewrite Z.mod_small by apply bz_range.
  unfold bz. rewrite N2Z.id, Byte.of_to_N. done.
Qed.

Lemma bz_zb z : bz (zb z) = z mod 256.
Proof.
  unfold zb, bz.
  pose proof (Z.mod_pos_bound z 256 eq_refl).
  destruct (Byte.of_N (Z.to_N (z mod 256))) as [c|] eqn:E.
  - apply Byte.to_of_N in E. rewrite E. lia.
  - apply Byte.of_N_None_iff in E. lia.
Qed.

Lemma bz_inj c d : bz c = bz d -> c = d.
Proof. intros E. rewrite <- (zb_bz c), <- (zb_bz d), E. done. Qed.

#[export] Instance bz_Inj : Inj (=) (=) bz := bz_inj.

(** *** Exhaustive reasoning over the 256 bytes *)

Definition all_bytes : bytes := map (fun n => zb (Z.of_nat n)) (seq 0 256).

Lemma elem_of_all_bytes c : In c all_bytes.
Proof.
  unfold all_bytes. apply in_map_iff. exists (Z.to_nat (bz c)).
  pose proof (bz_range c). split.
  - rewrite Z2Nat.id by lia. apply zb_bz.
  - apply in_seq. lia.
Qed.

Lemma byte_all (P : byte -> bool) : forallb P all_bytes = true -> forall c, P c = true.
Proof. intros H c. rewrite forallb_forall in H. apply H, elem_of_all_bytes. Qed.

(** Proves a decidable statement about one byte by evaluating all 256 cases. *)
Ltac all_bytes_tac c :=
  revert c;
  match goal with
  | |- forall c : byte, @?P c =>
      let H := fresh in
      assert (H : forall c : byte, bool_decide (P c) = true)
        by (apply byte_all; vm_compute; reflexivity);
      intros c; exact (bool_decide_eq_true_1 _ (H c))
  end.

(** ** Go's [bytes] package: the search functions the program calls

    A result [-1] is [None] and a found index [n] is [Some n]. *)

Fixpoint IndexByte (b : bytes) (c : byte) : option nat :=
  match b with
  | [] => None
  | x :: b' => if decide (x = c) then Some O else S <$> IndexByte b' c
  end.

Fixpoint HasPrefix (b pre : bytes) : bool :=
  match pre, b with
  | [], _ => true
  | p :: pre', x :: b' => if decide (x = p) then HasPrefix b' pre' else false
  | _ :: _, [] => false
  end.

Fixpoint Index (b sub : bytes) : option nat :=
  if HasPrefix b sub then Some O else
  match b with
  | [] => None
  | _ :: b' => S <$> Index b' sub
  end.

Fixpoint LastIndexByte (b : bytes) (c : byte) : option nat :=
  match b with
  | [] => None
  | x :: b' =>
      match LastIndexByte b' c with
      | Some n => Some (S n)
      | None => if decide (x = c) then Some O else None
      end
  end.

Fixpoint LastIndex (b sub : bytes) : option nat :=
  match b with
  | [] => if HasPrefix [] sub then Some O else None
  | x :: b' =>
      match LastIndex b' sub with
      | Some n => Some (S n)
      | None => if HasPrefix (x :: b') sub then Some O else None
      end
  end.

Definition Contains (b sub : bytes) : bool :=
  match Index b sub with Some _ => true | None => false end.

(** *** Laws of the search functions *)

Lemma IndexByte_None b c : IndexByte b c = None <-> c ∉ b.
Proof.
  induction b as [|x b IH]; simpl.
  - split; [intros _; apply not_elem_of_nil | done].
  - rewrite not_elem_of_cons. case_decide; [naive_solver|].
    rewrite fmap_None, IH. naive_solver.
Qed.

Lemma IndexByte_Some b c n :
  IndexByte b c = Some n <->
  exists l1 l2, b = l1 ++ c :: l2 /\ length l1 = n /\ c ∉ l1.
Proof.
  revert n; induction b as [|x b IH]; intros n; simpl.
  - split; [done|]. intros ([|? ?] & ? & ? & ?); done.
  - case_decide as D.
    + subst. split.
      * intros [= <-]. exists [], b. split_and!; [done..|apply not_elem_of_nil].
      * intros ([|y l1] & l2 & E & L & N); simplify_eq/=; [done|].
        apply not_elem_of_cons in N; naive_solver.
    + rewrite fmap_Some. split.
      * intros (m & Hm & ->). apply IH in Hm as (l1 & l2 & -> & <- & N).
        exists (x :: l1), l2. split_and!; [done..|]. apply not_elem_of_cons. naive_solver.
      * intros ([|y l1] & l2 & E & L & N); simplify_eq/=.
        apply not_elem_of_cons in N as [? ?].
        exists (length l1). split; [|done]. apply IH. eauto.
Qed.

(** The form the rest of the development rewrites with: the first occurrence
    in a concatenation whose left part does not hold the byte. *)
Lemma IndexByte_app l1 l2 c : c ∉ l1 -> IndexByte (l1 ++ c :: l2) c = Some (length l1).
Proof. intros N. apply IndexByte_Some. eauto. Qed.

Lemma IndexByte_app_l l1 l2 c :
  c ∉ l1 -> IndexByte (l1 ++ l2) c = (Nat.add (length l1)) <$> IndexByte l2 c.
Proof.
  induction l1 as [|x l1 IH]; intros N; simpl.
  - by destruct (IndexByte l2 c).
  - apply not_elem_of_cons in N as [Hx N]. rewrite decide_False by congruence.
    rewrite IH by done. by destruct (IndexByte l2 c).
Qed.

Lemma HasPrefix_true b pre : HasPrefix b pre = true <-> exists l, b = pre ++ l.
Proof.
  revert b; induction pre as [|p pre IH]; intros b; simpl.
  - split; [eauto|]. by destruct b.
  - destruct b as [|x b].
    + split; [done|]. intros [l ?]; done.
    + simpl. case_decide; subst; [rewrite IH|]; naive_solver.
Qed.

Lemma HasPrefix_app pre l : HasPrefix (pre ++ l) pre = true.
Proof. apply HasPrefix_true. eauto. Qed.

Lemma Index_None b sub : Index b sub = None <-> forall l1 l2, b <> l1 ++ sub ++ l2.
Proof.
  induction b as [|x b IH]; cbn [Index].
  - destruct (HasPrefix [] sub) eqn:E.
    + split; [done|]. intros H. apply HasPrefix_true in E as [l E].
      destruct (H [] l). done.
    + split; [|done]. intros _ l1 l2 F. symmetry in F.
      apply app_eq_nil in F as [-> F]. apply app_eq_nil in F as [-> ->]. done.
  - destruct (HasPrefix (x :: b) sub) eqn:E.
    + split; [done|]. intros H. apply HasPrefix_true in E as [l E].
      destruct (H [] l). done.
    + rewrite fmap_None, IH. split.
      * intros H [|y l1] l2 F.
        -- assert (HasPrefix (x :: b) sub = true) by (apply HasPrefix_true; eauto). congruence.
        -- simplify_eq/=. by destruct (H l1 l2).
      * intros H l1 l2 F. destruct (H (x :: l1) l2). by rewrite F.
Qed.

Lemma Index_Some_split b sub n :
  Index b sub = Some n -> exists l1 l2, b = l1 ++ sub ++ l2 /\ length l1 = n.
Proof.
  revert n; induction b as [|x b IH]; intros n; cbn [Index].
  - destruct (HasPrefix [] sub) eqn:E; [|done]. intros [= <-].
    apply HasPrefix_true in E as [l E]. by exists [], l.
  - destruct (HasPrefix (x :: b) sub) eqn:E.
    + intros [= <-]. apply HasPrefix_true in E as [l E]. by exists [], l.
    + rewrite fmap_Some. intros (m & Hm & ->). apply IH in Hm as (l1 & l2 & -> & <-).
      by exists (x :: l1), l2.
Qed.

Lemma LastIndexByte_None b c : LastIndexByte b c = None <-> c ∉ b.
Proof.
  induction b as [|x b IH]; simpl.
  - split; [intros _; apply not_elem_of_nil | done].
  - rewrite not_elem_of_cons. destruct (LastIndexByte b c) eqn:E.
    + split; [done|]. intros [_ N]. apply IH in N. done.
    + case_decide; split; try done; naive_solver.
Qed.

Lemma LastIndexByte_Some b c n :
  LastIndexByte b c = Some n ->
  exists l1 l2, b = l1 ++ c :: l2 /\ length l1 = n /\ c ∉ l2.
Proof.
  revert n; induction b as [|x b IH]; intros n; simpl; [done|].
  destruct (LastIndexByte b c) as [m|] eqn:E.
  - intros [= <-]. destruct (IH _ eq_refl) as (l1 & l2 & -> & <- & N).
    by exists (x :: l1), l2.
  - case_decide; [|done]. intros [= <-]. subst.
    exists [], b. split_and!; [done..|]. by apply LastIndexByte_None.
Qed.

Lemma LastIndexByte_app l1 l2 c :
  c ∉ l2 -> LastIndexByte (l1 ++ c :: l2) c = Some (length l1).
Proof.
  intros N. induction l1 as [|x l1 IH]; simpl.
  - apply LastIndexByte_None in N. rewrite N. by rewrite decide_True.
  - by rewrite IH.
Qed.

(** ** Errors

    One constructor per error variable of the source; [Errorf] stands for an
    error built with [fmt.Errorf] from the given format string (its operands
    are only read by humans and are left out). *)
Inductive error :=
| EOF | ErrUnexpectedEOF | ErrBufferFull
| errEmptyInt | errUnexpectedFirstChar | errUnexpectedTrailingChar | errTooLongInt
| errEmptyHexNum | errTooLargeHexNum
| errEmptyIPStr
| ErrNoArgValue
| ErrorInvalidURI
| errNoCookies
| errNeedMore | errInvalidName
| ErrNothingRead (cause : error)
| ErrSmallBuffer (msg : string)
| ErrTimeout
| ErrBodyTooLarge | errChunkedStream
| ErrBrokenChunk (msg : string)
| ErrGetOnly
| Errorf (format : string)
| NetTimeout
| ErrNoFreeConns | ErrConnectionClosed | ErrHostClientRedirectToDifferentScheme
| ErrMissingLocation | ErrTooManyRedirects | ErrPipelineOverflow | ErrNoMultipartForm
| errHijacked
| IOError (code : nat).

#[local] Instance string_dec : EqDecision string := String.string_dec.
#[export] Instance error_eq_dec : EqDecision error.
Proof. solve_decision. Defined.

(** ** Automation shared by the components *)

Create HintDb gobytes.
Create Rewrite HintDb golen.
Create Rewrite HintDb goslice.
#[export] Hint Resolve bz_range not_elem_of_nil HasPrefix_app : gobytes.
#[export] Hint Rewrite @length_app @length_drop @length_take @length_cons @length_nil : golen.

(** Normalises list lengths and calls [lia]. *)
Ltac len_lia := autorewrite with golen in *; simpl in *; lia.

Lemma take_app_exact {A} (l1 l2 : list A) : take (length l1) (l1 ++ l2) = l1.
Proof. by rewrite take_app_length. Qed.

Lemma drop_app_exact {A} (l1 l2 : list A) : drop (length l1) (l1 ++ l2) = l2.
Proof. by rewrite drop_app_length. Qed.

Lemma drop_app_S {A} (l1 l2 : list A) x : drop (S (length l1)) (l1 ++ x :: l2) = l2.
Proof. induction l1; done. Qed.

Lemma take_app_S {A} (l1 l2 : list A) x : take (S (length l1)) (l1 ++ x :: l2) = l1 ++ [x].
Proof. induction l1; simpl; f_equal; done. Qed.

#[export] Hint Rewrite @take_app_exact @drop_app_exact @drop_app_S @take_app_S : goslice.

Lemma exists_last_or_nil {A} (l : list A) : l = [] \/ exists l' x, l = l' ++ [x].
Proof. destruct l as [|x l] using rev_ind; [by left|right; eauto]. Qed.
