(* ===== verification/BytesConv.v ===== *)
(** * bytesconv.go, bytesconv_table.go, bytesconv_table_gen.go

    Integer, IPv4 and URL-escape conversions over byte slices.  A function
    that may panic returns [option], [None] being the panic. *)
From Stdlib Require Import Strings.Ascii Strings.String.
From S2P Require Import Prelude.

(** ** The lookup tables

    [*Table] are the literals of bytesconv_table.go, [gen_*] the closures of
    the generator; [tables_match_generator] proves them equal on every byte. *)

Definition hexval (c : ascii) : Z :=
  let n := Z.of_N (N_of_ascii c) in
  if 97 <=? n then n - 87 else n - 48.

Fixpoint unhex (s : string) : bytes :=
  match s with
  | String a (String b s') => zb (16 * hexval a + hexval b) :: unhex s'
  | _ => []
  end.

Definition hex2intTable : bytes := Eval vm_compute in unhex (    "1010101010101010101010101010101010101010101010101010101010101010" ++
    "1010101010101010101010101010101000010203040506070809101010101010" ++
    "100a0b0c0d0e0f10101010101010101010101010101010101010101010101010" ++
    "100a0b0c0d0e0f10101010101010101010101010101010101010101010101010" ++
    "1010101010101010101010101010101010101010101010101010101010101010" ++
    "1010101010101010101010101010101010101010101010101010101010101010" ++
    "1010101010101010101010101010101010101010101010101010101010101010" ++
    "1010101010101010101010101010101010101010101010101010101010101010")%string.

Definition toLowerTable : bytes := Eval vm_compute in unhex (    "000102030405060708090a0b0c0d0e0f101112131415161718191a1b1c1d1e1f" ++
    "202122232425262728292a2b2c2d2e2f303132333435363738393a3b3c3d3e3f" ++
    "406162636465666768696a6b6c6d6e6f707172737475767778797a5b5c5d5e5f" ++
    "606162636465666768696a6b6c6d6e6f707172737475767778797a7b7c7d7e7f" ++
    "808182838485868788898a8b8c8d8e8f909192939495969798999a9b9c9d9e9f" ++
    "a0a1a2a3a4a5a6a7a8a9aaabacadaeafb0b1b2b3b4b5b6b7b8b9babbbcbdbebf" ++
    "c0c1c2c3c4c5c6c7c8c9cacbcccdcecfd0d1d2d3d4d5d6d7d8d9dadbdcdddedf" ++
    "e0e1e2e3e4e5e6e7e8e9eaebecedeeeff0f1f2f3f4f5f6f7f8f9fafbfcfdfeff")%string.

Definition toUpperTable : bytes := Eval vm_compute in unhex (    "000102030405060708090a0b0c0d0e0f101112131415161718191a1b1c1d1e1f" ++
    "202122232425262728292a2b2c2d2e2f303132333435363738393a3b3c3d3e3f" ++
    "404142434445464748494a4b4c4d4e4f505152535455565758595a5b5c5d5e5f" ++
    "604142434445464748494a4b4c4d4e4f505152535455565758595a7b7c7d7e7f" ++
    "808182838485868788898a8b8c8d8e8f909192939495969798999a9b9c9d9e9f" ++
    "a0a1a2a3a4a5a6a7a8a9aaabacadaeafb0b1b2b3b4b5b6b7b8b9babbbcbdbebf" ++
    "c0c1c2c3c4c5c6c7c8c9cacbcccdcecfd0d1d2d3d4d5d6d7d8d9dadbdcdddedf" ++
    "e0e1e2e3e4e5e6e7e8e9eaebecedeeeff0f1f2f3f4f5f6f7f8f9fafbfcfdfeff")%string.

Definition quotedArgShouldEscapeTable : bytes := Eval vm_compute in unhex (    "0101010101010101010101010101010101010101010101010101010101010101" ++
    "0101010101010101010101010100000100000000000000000000010101010101" ++
    "0100000000000000000000000000000000000000000000000000000101010100" ++
    "0100000000000000000000000000000000000000000000000000000101010001" ++
    "0101010101010101010101010101010101010101010101010101010101010101" ++
    "0101010101010101010101010101010101010101010101010101010101010101" ++
    "0101010101010101010101010101010101010101010101010101010101010101" ++
    "0101010101010101010101010101010101010101010101010101010101010101")%string.

Definition quotedPathShouldEscapeTable : bytes := Eval vm_compute in unhex (    "0101010101010101010101010101010101010101010101010101010101010101" ++
    "0101010100010001010101000000000000000000000000000000000001000101" ++
    "0000000000000000000000000000000000000000000000000000000101010100" ++
    "0100000000000000000000000000000000000000000000000000000101010001" ++
    "0101010101010101010101010101010101010101010101010101010101010101" ++
    "0101010101010101010101010101010101010101010101010101010101010101" ++
    "0101010101010101010101010101010101010101010101010101010101010101" ++
    "0101010101010101010101010101010101010101010101010101010101010101")%string.

(** Indexing a table by a byte: [table[c]]. *)
Definition tbl (t : bytes) (c : byte) : byte := nth (Z.to_nat (bz c)) t x00.

(** [in_range lo hi c] is Go's [c >= lo && c <= hi]. *)
Definition in_range (lo hi c : byte) : bool := (bz lo <=? bz c) && (bz c <=? bz hi).

Definition toLower : Z := bz "a"%byte - bz "A"%byte.

Definition gen_hex2int (i : byte) : byte :=
  if in_range "0" "9" i then zb (bz i - bz "0"%byte)
  else if in_range "a" "f" i then zb (bz i - bz "a"%byte + 10)
  else if in_range "A" "F" i then zb (bz i - bz "A"%byte + 10)
  else zb 16.

Definition gen_toLower (i : byte) : byte :=
  if in_range "A" "Z" i then zb (bz i + toLower) else i.

Definition gen_toUpper (i : byte) : byte :=
  if in_range "a" "z" i then zb (bz i - toLower) else i.

Definition gen_quotedArgShouldEscape (i : byte) : byte :=
  if in_range "a" "z" i || in_range "A" "Z" i || in_range "0" "9" i
     || bool_decide (i ∈ bs "-_.~")
  then zb 0 else zb 1.

Definition gen_quotedPathShouldEscape (i : byte) : byte :=
  if bool_decide (i ∈ bs "$&+,/:;=@") then zb 0 else gen_quotedArgShouldEscape i.

(** ** Small byte-level functions *)

Definition upperhex : bytes := Eval cbv in bs "0123456789ABCDEF".
Definition lowerhex : bytes := Eval cbv in bs "0123456789abcdef".

(** [upperhex[n]] for a 4-bit [n]. *)
Definition hexchar (t : bytes) (n : Z) : byte := nth (Z.to_nat n) t x00.

Definition lowercaseBytes (b : bytes) : bytes := map (tbl toLowerTable) b.

Definition htmlSub (c : byte) : bytes :=
  if decide (c = "<"%byte) then bs "&lt;"
  else if decide (c = ">"%byte) then bs "&gt;"
  else if decide (c = x22) then bs "&quot;"
  else if decide (c = "'"%byte) then bs "&#39;"
  else [].

(** The slow path's loop: [rest] is [s[i:]]; [dst] grows by [s[prev:i]] and
    the replacement whenever one is needed. *)
Fixpoint htmlEscapeLoop (s rest : bytes) (i prev : nat) (dst : bytes) : bytes :=
  match rest with
  | [] => dst ++ drop prev s
  | c :: rest' =>
      let sub := htmlSub c in
      if Nat.ltb 0 (length sub)
      then htmlEscapeLoop s rest' (S i) (i + 1) (dst ++ drop prev (take i s) ++ sub)
      else htmlEscapeLoop s rest' (S i) prev dst
  end.

Definition AppendHTMLEscape (dst s : bytes) : bytes :=
  match IndexByte s "<", IndexByte s ">", IndexByte s x22, IndexByte s "'" with
  | None, None, None, None => dst ++ s
  | _, _, _, _ => htmlEscapeLoop s s 0 0 dst
  end.

Definition AppendHTMLEscapeBytes (dst s : bytes) : bytes := AppendHTMLEscape dst s.

(** ** Decimal integers *)

(** [appendUintLoop i n buf]: the loop of AppendUint with [buf = buf[i:]] of
    the 20-byte array; index [-1] would be the bounds-check panic. *)
Fixpoint appendUintLoop (i : nat) (n : Z) (buf : bytes) : option bytes :=
  match i with
  | O => None
  | S i' =>
      if 10 <=? n then
        let q := Z.quot n 10 in
        appendUintLoop i' q (zb (bz "0"%byte + bz (zb (n - q * 10))) :: buf)
      else Some (zb (bz "0"%byte + bz (zb n)) :: buf)
  end.

Definition AppendUint (dst : bytes) (n : Z) : option bytes :=
  if n <? 0 then None
  else buf ← appendUintLoop 20 n []; Some (dst ++ buf).

(** [parseUintLoop b i v]: the loop of parseUintBuf with [b = b[i:]].
    [c - '0'] is byte subtraction, [10*v + int(k)] wraps at 64 bits. *)
Fixpoint parseUintLoop (b : bytes) (i : nat) (v : Z) : Z * nat * option error :=
  match b with
  | [] => (v, i, None)
  | c :: b' =>
      let k := zb (bz c - bz "0"%byte) in
      if 9 <? bz k then
        (if decide (i = O) then (-1, i, Some errUnexpectedFirstChar) else (v, i, None))
      else
        let vNew := int64 (10 * v + bz k) in
        if vNew <? v then (-1, i, Some errTooLongInt)
        else parseUintLoop b' (S i) vNew
  end.

Definition parseUintBuf (b : bytes) : Z * nat * option error :=
  if decide (length b = O) then (-1, O, Some errEmptyInt) else parseUintLoop b 0 0.

Definition ParseUint (buf : bytes) : Z * option error :=
  let '(v, n, err) := parseUintBuf buf in
  if decide (n = length buf) then (v, err) else (-1, Some errUnexpectedTrailingChar).

(** ** IPv4 *)

Definition IPv4len : nat := 4.
Definition IPv4zero : bytes := replicate 10 x00 ++ [xff; xff; x00; x00; x00; x00].

(** [net.IP.To4]: [None] is the nil slice. *)
Definition To4 (ip : bytes) : option bytes :=
  if decide (length ip = 4%nat) then Some ip
  else if decide (length ip = 16%nat /\ take 12 ip = take 12 IPv4zero) then Some (drop 12 ip)
  else None.

Definition AppendIPv4 (dst ip : bytes) : option bytes :=
  match To4 ip with
  | None => Some (dst ++ bs "non-v4 ip passed to AppendIPv4")
  | Some ip =>
      foldl (fun acc i =>
               dst ← acc;
               let dst := if decide (i = O) then dst else dst ++ ["."%byte] in
               c ← ip !! i;
               AppendUint dst (bz c))
            (Some dst) (seq 0 4)
  end.

(** Go's [copy(dst, src)]: overwrites a prefix of [dst]. *)
Definition copy_into (dst src : bytes) : bytes := take (length dst) src ++ drop (length src) dst.

(** [parseIPv4Loop n i b dst]: iterations [i .. i+n-1] of the three-dot loop,
    then the last part. *)
Fixpoint parseIPv4Loop (n i : nat) (b dst : bytes) : bytes * option error :=
  let part (b : bytes) (k : Z -> bytes * option error) :=
    match ParseUint b with
    | (_, Some _) => (dst, Some (Errorf "cannot parse ipStr %q: %s"))
    | (v, None) =>
        if 255 <? v
        then (dst, Some (Errorf "cannot parse ipStr %q: ip part cannot exceed 255: parsed %d"))
        else k v
    end in
  match n with
  | O => part b (fun v => (<[i := zb v]> dst, None))
  | S n' =>
      match IndexByte b "." with
      | None => (dst, Some (Errorf "cannot find dot in ipStr %q"))
      | Some m =>
          part (take m b) (fun v => parseIPv4Loop n' (S i) (drop (m + 1) b) (<[i := zb v]> dst))
      end
  end.

(** The outer [option] is the panic on a [dst] that is neither 4 nor 16
    bytes long. *)
Definition ParseIPv4 (dst ipStr : bytes) : option (bytes * option error) :=
  if decide (length ipStr = O) then Some (dst, Some errEmptyIPStr)
  else
    let dst := if Nat.ltb (length dst) IPv4len then replicate IPv4len x00 else dst in
    dst ← To4 (copy_into dst IPv4zero);
    Some (parseIPv4Loop 3 0 ipStr dst).

(** ** URL escapes *)

Definition quoteByte (c : byte) : bytes :=
  ["%"%byte; hexchar upperhex (Z.shiftr (bz c) 4); hexchar upperhex (Z.land (bz c) 15)].

Definition AppendQuotedArg (dst src : bytes) : bytes :=
  foldl (fun dst c =>
           if decide (c = " "%byte) then dst ++ ["+"%byte]
           else if decide (tbl quotedArgShouldEscapeTable c <> x00) then dst ++ quoteByte c
           else dst ++ [c]) dst src.

Definition appendQuotedPath (dst src : bytes) : bytes :=
  if decide (length src = 1%nat /\ src !! O = Some "*"%byte) then dst ++ ["*"%byte]
  else foldl (fun dst c =>
                if decide (tbl quotedPathShouldEscapeTable c <> x00) then dst ++ quoteByte c
                else dst ++ [c]) dst src.

(** ** Facts about the tables and single bytes *)

(** What C2 states, in the form the other components rewrite with. *)
Lemma tbl_hex2int c : tbl hex2intTable c = gen_hex2int c.
Proof. all_bytes_tac c. Qed.

Lemma tbl_toLower c : tbl toLowerTable c = gen_toLower c.
Proof. all_bytes_tac c. Qed.

Lemma tbl_toUpper c : tbl toUpperTable c = gen_toUpper c.
Proof. all_bytes_tac c. Qed.

Lemma tbl_quotedArg c : tbl quotedArgShouldEscapeTable c = gen_quotedArgShouldEscape c.
Proof. all_bytes_tac c. Qed.

Lemma tbl_quotedPath c : tbl quotedPathShouldEscapeTable c = gen_quotedPathShouldEscape c.
Proof. all_bytes_tac c. Qed.

Lemma lowercase_idem c : tbl toLowerTable (tbl toLowerTable c) = tbl toLowerTable c.
Proof. all_bytes_tac c. Qed.

Lemma lowercaseBytes_idem b : lowercaseBytes (lowercaseBytes b) = lowercaseBytes b.
Proof.
  unfold lowercaseBytes. rewrite map_map. apply map_ext. apply lowercase_idem.
Qed.

(** The two hex digits of a quoted byte decode to that byte. *)
Lemma hex_digits_decode c :
  let h1 := hexchar upperhex (Z.shiftr (bz c) 4) in
  let h2 := hexchar upperhex (Z.land (bz c) 15) in
  bz (tbl hex2intTable h1) < 16 /\ bz (tbl hex2intTable h2) < 16 /\
  zb (Z.lor (bz (zb (Z.shiftl (bz (tbl hex2intTable h1)) 4))) (bz (tbl hex2intTable h2))) = c.
Proof. all_bytes_tac c. Qed.

(** ** Decimal integers: value, round trip, range *)

Definition is_digit (c : byte) : bool := in_range "0" "9" c.
Definition digit_val (c : byte) : Z := bz c - 48.

(** The number a digit string denotes, without any width. *)
Definition dec_from (v : Z) (b : bytes) : Z := foldl (fun v c => 10 * v + digit_val c) v b.
Definition dec_value (b : bytes) : Z := dec_from 0 b.

Lemma digit_check c : (9 <? bz (zb (bz c - bz "0"%byte))) = negb (is_digit c).
Proof. all_bytes_tac c. Qed.

Lemma digit_sub c : is_digit c = true -> bz (zb (bz c - bz "0"%byte)) = digit_val c.
Proof. all_bytes_tac c. Qed.

Lemma digit_range c : is_digit c = true -> 0 <= digit_val c <= 9.
Proof. all_bytes_tac c. Qed.

Lemma digit_of_Z n :
  0 <= n < 10 ->
  let c := zb (bz "0"%byte + bz (zb n)) in is_digit c = true /\ digit_val c = n.
Proof.
  intros H. cbv zeta.
  set (c k := zb (bz "0"%byte + bz (zb k))).
  assert (Forall (fun k => is_digit (c (Z.of_nat k)) = true /\ digit_val (c (Z.of_nat k)) = Z.of_nat k)
            (seq 0 10)) as F by (repeat constructor).

  rewrite Forall_forall in F. specialize (F (Z.to_nat n)). rewrite Z2Nat.id in F by lia.
  apply F, elem_of_seq. lia.
Qed.

Lemma dec_from_app v a b : dec_from v (a ++ b) = dec_from (dec_from v a) b.
Proof. apply foldl_app. Qed.

Lemma dec_from_ge v b :
  0 <= v -> Forall (fun c => is_digit c = true) b -> v <= dec_from v b.
Proof.
  intros Hv Hb. revert v Hv. induction Hb as [|c b Hc Hb IH]; intros v Hv; simpl; [lia|].
  pose proof (digit_range c Hc). pose proof (IH (10 * v + digit_val c)). unfold dec_from in *. lia.
Qed.

Lemma int64_small z : 0 <= z <= maxInt -> int64 z = z.
Proof. unfold int64, maxInt. intros H. rewrite Z.mod_small; lia. Qed.

Lemma parseUintLoop_digits b i v :
  Forall (fun c => is_digit c = true) b -> 0 <= v -> dec_from v b <= maxInt ->
  parseUintLoop b i v = (dec_from v b, (i + length b)%nat, None).
Proof.
  intros Hb. revert i v. induction Hb as [|c b Hc Hb IH]; intros i v Hv Hmax; simpl.
  - by rewrite Nat.add_0_r.
  - rewrite digit_check, Hc. simpl. rewrite digit_sub by done.
    pose proof (digit_range c Hc).
    pose proof (dec_from_ge (10 * v + digit_val c) b ltac:(lia) Hb).
    simpl in Hmax. unfold dec_from in *.
    rewrite int64_small by lia.
    destruct (Z.ltb_spec (10 * v + digit_val c) v); [lia|].
    rewrite IH by lia. do 2 f_equal. lia.
Qed.

Lemma parseUintLoop_stop b i v :
  ~ Forall (fun c => is_digit c = true) b ->
  (snd (fst (parseUintLoop b i v)) < i + length b)%nat.
Proof.
  revert i v. induction b as [|c b IH]; intros i v H; simpl.
  - destruct H. constructor.
  - rewrite digit_check. destruct (is_digit c) eqn:Hc; simpl.
    + destruct (_ <? _); simpl; [lia|].
      assert (~ Forall (fun c => is_digit c = true) b) as N by (intros F; apply H; by constructor).
      specialize (IH (S i) (int64 (10 * v + bz (zb (bz c - bz "0"%byte)))) N). lia.
    + destruct (decide (i = O)); simpl; lia.
Qed.

Lemma ParseUint_digits b :
  b <> [] -> Forall (fun c => is_digit c = true) b -> dec_value b <= maxInt ->
  ParseUint b = (dec_value b, None).
Proof.
  intros Hne Hb Hmax. unfold ParseUint, parseUintBuf.
  rewrite decide_False by (destruct b; simpl; congruence).
  rewrite parseUintLoop_digits by (done || lia). by rewrite decide_True.
Qed.

Lemma ParseUint_nondigit b :
  b = [] \/ ~ Forall (fun c => is_digit c = true) b -> exists e, ParseUint b = (-1, Some e).
Proof.
  intros H. unfold ParseUint, parseUintBuf. case_decide as L; simpl.
  - rewrite decide_True by done. eauto.
  - destruct H as [->|H]; [done|]. pose proof (parseUintLoop_stop b 0 0 H).
    destruct (parseUintLoop b 0 0) as [[v n] e]; simpl in *.
    rewrite decide_False by lia. eauto.
Qed.

Lemma appendUintLoop_spec j i n buf :
  (1 <= j <= i)%nat -> 0 <= n < 10 ^ Z.of_nat j ->
  exists d, appendUintLoop i n buf = Some (d ++ buf) /\ d <> [] /\ (length d <= j)%nat /\
            Forall (fun c => is_digit c = true) d /\ dec_value d = n.
Proof.
  revert i n buf. induction j as [|j IH]; intros i n buf Hi Hn; [lia|].
  destruct i as [|i]; [lia|]. simpl appendUintLoop.
  destruct (Z.leb_spec 10 n) as [L|L].
  - assert (1 <= j)%nat by (destruct j; [simpl in Hn; lia|lia]).
    assert (0 <= n ÷ 10 < 10 ^ Z.of_nat j) as Hq.
    { rewrite Nat2Z.inj_succ, Z.pow_succ_r in Hn by lia.
      rewrite Z.quot_div_nonneg by lia. split; [apply Z.div_pos; lia|].
      apply Z.div_lt_upper_bound; lia. }
    assert (0 <= n - n ÷ 10 * 10 < 10) as Hr.
    { rewrite Z.quot_div_nonneg by lia. pose proof (Z.div_mod n 10). pose proof (Z.mod_pos_bound n 10). lia. }
    destruct (digit_of_Z _ Hr) as [Hd Hv].
    destruct (IH i _ (zb (bz "0"%byte + bz (zb (n - n ÷ 10 * 10))) :: buf) ltac:(lia) Hq)
      as (d & -> & Hne & Hl & HF & Hval).
    exists (d ++ [zb (bz "0"%byte + bz (zb (n - n ÷ 10 * 10)))]).
    split_and!.
    + by rewrite <- app_assoc.
    + by destruct d.
    + rewrite length_app. simpl. lia.
    + apply Forall_app. split; [done|]. by constructor.
    + unfold dec_value in *. rewrite dec_from_app, Hval. simpl. rewrite Hv. lia.
  - destruct (digit_of_Z n ltac:(lia)) as [Hd Hv].
    exists [zb (bz "0"%byte + bz (zb n))]. split_and!; [done|done|simpl; lia| |].
    + by constructor.
    + unfold dec_value, dec_from. simpl. rewrite Hv. lia.
Qed.

(** The decimal representation AppendUint produces, as one lemma. *)
Lemma AppendUint_spec dst n :
  0 <= n <= maxInt ->
  exists d, AppendUint dst n = Some (dst ++ d) /\ d <> [] /\ (length d <= 19)%nat /\
            Forall (fun c => is_digit c = true) d /\ dec_value d = n.
Proof.
  intros H. unfold AppendUint. destruct (Z.ltb_spec n 0); [lia|].
  destruct (appendUintLoop_spec 19 20 n [] ltac:(lia)) as (d & -> & ? & ? & ? & ?).
  { unfold maxInt in H. simpl Z.of_nat. lia. }
  exists d. by rewrite app_nil_r.
Qed.

#[export] Hint Resolve tbl_hex2int lowercaseBytes_idem digit_range : gobytes.

Lemma digit_not_dot d : Forall (fun c => is_digit c = true) d -> "."%byte ∉ d.
Proof. intros F E. rewrite Forall_forall in F. apply F in E. done. Qed.

(** Decimal rendering of one byte, shared by the IPv4 proofs. *)
Lemma AppendUint_byte dst c :
  exists d, AppendUint dst (bz c) = Some (dst ++ d) /\ ("."%byte ∉ d) /\
            ParseUint d = (bz c, None).
Proof.
  pose proof (bz_range c).
  destruct (AppendUint_spec dst (bz c)) as (d & E & Hne & _ & F & V); [unfold maxInt; lia|].
  exists d. split_and!; [done|by apply digit_not_dot|].
  rewrite ParseUint_digits, V; unfold maxInt; try done; lia.
Qed.

Lemma parseIPv4_part d rest n i dst c :
  "."%byte ∉ d -> ParseUint d = (bz c, None) ->
  parseIPv4Loop (S n) i (d ++ "."%byte :: rest) dst = parseIPv4Loop n (S i) rest (<[i := c]> dst).
Proof.
  intros N P. simpl. rewrite IndexByte_app by done. rewrite take_app_exact, P.
  pose proof (bz_range c). destruct (Z.ltb_spec 255 (bz c)); [lia|].
  by rewrite Nat.add_1_r, drop_app_S, zb_bz.
Qed.

Lemma parseIPv4_last d i dst c :
  ParseUint d = (bz c, None) -> parseIPv4Loop 0 i d dst = (<[i := c]> dst, None).
Proof.
  intros P. simpl. rewrite P. pose proof (bz_range c).
  destruct (Z.ltb_spec 255 (bz c)); [lia|]. by rewrite zb_bz.
Qed.

(** ** HTML escaping against its reference definition *)

Definition htmlRef (c : byte) : bytes :=
  match htmlSub c with [] => [c] | sub => sub end.

Lemma htmlEscapeLoop_spec p rest prev dst :
  (prev <= length p)%nat -> Forall (fun c => htmlSub c = []) (drop prev p) ->
  htmlEscapeLoop (p ++ rest) rest (length p) prev dst =
  dst ++ drop prev p ++ concat (map htmlRef rest).
Proof.
  revert p prev dst. induction rest as [|c rest IH]; intros p prev dst Hp Hc; cbn [htmlEscapeLoop].
  - by rewrite !app_nil_r.
  - assert (p ++ c :: rest = (p ++ [c]) ++ rest) as E by (by rewrite <- app_assoc).
    assert (S (length p) = length (p ++ [c])) as L by (rewrite length_app; simpl; lia).
    destruct (Nat.ltb_spec 0 (length (htmlSub c))) as [H|H].
    + rewrite take_app_exact, E, L, IH.
      * rewrite (drop_ge (p ++ [c])) by (rewrite length_app; simpl; lia).
        simpl. unfold htmlRef at 2. destruct (htmlSub c) eqn:Es; [simpl in H; lia|].
        by rewrite <- !app_assoc.
      * rewrite length_app. simpl. lia.
      * rewrite drop_ge; [done|]. rewrite length_app. simpl. lia.
    + assert (htmlSub c = []) as Ec by (destruct (htmlSub c); [done|simpl in H; lia]).
      rewrite E, L, IH.
      * simpl. unfold htmlRef at 2. rewrite Ec. rewrite drop_app_le by lia.
        by rewrite <- app_assoc.
      * rewrite length_app. simpl. lia.
      * rewrite drop_app_le by lia. apply Forall_app. by repeat constructor.
Qed.

Lemma htmlSub_nil c :
  c <> "<"%byte -> c <> ">"%byte -> c <> x22 -> c <> "'"%byte -> htmlSub c = [].
Proof. intros. unfold htmlSub. by repeat rewrite decide_False by done. Qed.

(** * Properties *)

(** ParseUint inverts AppendUint on every non-negative 64-bit int: the
    loop of AppendUint never leaves its 20-byte buffer, at most 19 digits are
    appended, and parsing them returns the number without an error. *)
Lemma ParseUint_AppendUint (dst : bytes) (n : Z) (Hn : 0 <= n <= maxInt) :
  exists d, AppendUint dst n = Some (dst ++ d) /\ (length d <= 19)%nat /\
            ParseUint d = (n, None).
Proof.
  destruct (AppendUint_spec dst n Hn) as (d & E & Hne & L & F & V).
  exists d. split_and!; [done..|]. rewrite ParseUint_digits, V; unfold maxInt in *; done || lia.
Qed.

Lemma ParseUint_AppendUint_witness :
  0 <= maxInt <= maxInt /\ exists d, AppendUint [] maxInt = Some ([] ++ d) /\ (length d <= 19)%nat /\
            ParseUint d = (maxInt, None).
Proof.
  split; [unfold maxInt; lia|]. apply (ParseUint_AppendUint [] maxInt). unfold maxInt. lia.
Defined.

(** ParseUint accepts exactly the digit strings: a non-empty string of
    digits whose value fits an int gives that value, and a string that is
    empty or holds any other byte is rejected with -1 and an error. *)
Lemma ParseUint_correct (b : bytes) :
  (b <> [] /\ Forall (fun c => is_digit c = true) b /\ dec_value b <= maxInt ->
   ParseUint b = (dec_value b, None)) /\
  (b = [] \/ ~ Forall (fun c => is_digit c = true) b -> exists e, ParseUint b = (-1, Some e)).
Proof.
  split; [intros (? & ? & ?); by apply ParseUint_digits | apply ParseUint_nondigit].
Qed.

Lemma ParseUint_correct_witness :
  (bs "4294967296" <> [] /\ Forall (fun c => is_digit c = true) (bs "4294967296") /\
   dec_value (bs "4294967296") <= maxInt) /\
  ParseUint (bs "4294967296") = (4294967296, None).
Proof.
  assert (bs "4294967296" <> [] /\ Forall (fun c => is_digit c = true) (bs "4294967296") /\
   dec_value (bs "4294967296") <= maxInt) as H.
  { split_and!; [done| |vm_compute; congruence].
    apply (bool_decide_unpack _). vm_compute. exact I. }
  split; [exact H|]. apply (proj1 (ParseUint_correct _) H).
Defined.

(** The overflow test [vNew < v] of parseUintBuf misses wrap-arounds that
    land above [v]: a 20-digit number above 2^64 is accepted as another
    number, with no error. *)
Lemma ParseUint_overflow_accepted :
  dec_value (bs "21000000000000000000") > 2 ^ 64 /\
  ParseUint (bs "21000000000000000000") = (2553255926290448384, None).
Proof. split; vm_compute; reflexivity. Qed.

(** Every IPv4 address survives rendering and parsing. *)
Lemma ParseIPv4_AppendIPv4 (dst : bytes) (a b c d : byte) (Hdst : (length dst <= 4)%nat) :
  exists s, AppendIPv4 [] [a; b; c; d] = Some s /\
            ParseIPv4 dst s = Some ([a; b; c; d], None).
Proof.
  unfold AppendIPv4. simpl.
  destruct (AppendUint_byte [] a) as (da & -> & Na & Pa). simpl.
  destruct (AppendUint_byte (da ++ ["."%byte]) b) as (db & -> & Nb & Pb). simpl.
  destruct (AppendUint_byte (((da ++ ["."%byte]) ++ db) ++ ["."%byte]) c) as (dc & -> & Nc & Pc). simpl.
  destruct (AppendUint_byte (((((da ++ ["."%byte]) ++ db) ++ ["."%byte]) ++ dc) ++ ["."%byte]) d)
    as (dd & -> & Nd & Pd).
  eexists. split; [done|]. unfold ParseIPv4. rewrite decide_False.
  2:{ rewrite !length_app. simpl. lia. }
  assert (exists w x y z, (if Nat.ltb (length dst) IPv4len then replicate IPv4len x00 else dst)
                          = [w; x; y; z]) as (w & x & y & z & ->).
  { destruct (Nat.ltb_spec (length dst) IPv4len) as [L|L]; unfold IPv4len in *.
    - by exists x00, x00, x00, x00.
    - destruct dst as [|? [|? [|? [|? [|]]]]]; simpl in *; try lia. eauto. }
  replace (To4 (copy_into [w; x; y; z] IPv4zero)) with (Some (replicate 4 x00)) by done.
  cbn [mbind option_bind]. rewrite <- !app_assoc. cbn [app].
  rewrite (parseIPv4_part da _ 2 0 _ a), (parseIPv4_part db _ 1 1 _ b),
    (parseIPv4_part dc _ 0 2 _ c), (parseIPv4_last dd 3 _ d) by done.
  done.
Qed.

Lemma ParseIPv4_AppendIPv4_witness :
  (length (@nil byte) <= 4)%nat /\
  exists s, AppendIPv4 [] [xc0; xa8; x00; x01] = Some s /\
            ParseIPv4 [] s = Some ([xc0; xa8; x00; x01], None).
Proof. split; [simpl; lia|]. apply (ParseIPv4_AppendIPv4 []). simpl. lia. Defined.

(** AppendHTMLEscape (fast path and slow path alike) is the byte-wise
    substitution of the four characters it escapes. *)
Lemma AppendHTMLEscape_ref (dst s : bytes) :
  AppendHTMLEscape dst s = dst ++ concat (map htmlRef s).
Proof.
  assert (htmlEscapeLoop s s 0 0 dst = dst ++ concat (map htmlRef s)) as Hslow.
  { apply (htmlEscapeLoop_spec [] s 0 dst); simpl; [lia|constructor]. }
  unfold AppendHTMLEscape.
  destruct (IndexByte s "<") eqn:E1; [done|]. destruct (IndexByte s ">") eqn:E2; [done|].
  destruct (IndexByte s x22) eqn:E3; [done|]. destruct (IndexByte s "'") eqn:E4; [done|].
  clear Hslow. f_equal.
  apply IndexByte_None in E1, E2, E3, E4.
  induction s as [|c s IH]; [done|]. rewrite not_elem_of_cons in *. simpl.
  unfold htmlRef at 1. rewrite htmlSub_nil by naive_solver. simpl. f_equal. naive_solver.
Qed.

(** The five tables compiled into the package agree, on each of the 256
    bytes, with the functions that generate them. *)
Lemma tables_match_generator (c : byte) :
  tbl hex2intTable c = gen_hex2int c /\
  tbl toLowerTable c = gen_toLower c /\
  tbl toUpperTable c = gen_toUpper c /\
  tbl quotedArgShouldEscapeTable c = gen_quotedArgShouldEscape c /\
  tbl quotedPathShouldEscapeTable c = gen_quotedPathShouldEscape c.
Proof.
  split_and!; [apply tbl_hex2int|apply tbl_toLower|apply tbl_toUpper|apply tbl_quotedArg
              |apply tbl_quotedPath].
Qed.
