(* ===== verification/Consts.v ===== *)
(** * strings.go, headers.go, methods.go and status.go: the constants

    The byte strings the parsers and printers compare with and emit, the
    status codes with their messages, and the status line. *)
From Stdlib Require Import Strings.String.
From S2P Require Import Prelude BytesConv.

(** ** headers.go and methods.go: the names strings.go refers to *)

Definition HeaderAuthorization : bytes := Eval cbv in bs "Authorization".
Definition HeaderIfModifiedSince : bytes := Eval cbv in bs "If-Modified-Since".
Definition HeaderLastModified : bytes := Eval cbv in bs "Last-Modified".
Definition HeaderConnection : bytes := Eval cbv in bs "Connection".
Definition HeaderAcceptEncoding : bytes := Eval cbv in bs "Accept-Encoding".
Definition HeaderCookie : bytes := Eval cbv in bs "Cookie".
Definition HeaderExpect : bytes := Eval cbv in bs "Expect".
Definition HeaderSetCookie : bytes := Eval cbv in bs "Set-Cookie".
Definition HeaderContentEncoding : bytes := Eval cbv in bs "Content-Encoding".
Definition HeaderContentLength : bytes := Eval cbv in bs "Content-Length".
Definition HeaderContentType : bytes := Eval cbv in bs "Content-Type".
Definition HeaderLocation : bytes := Eval cbv in bs "Location".
Definition HeaderHost : bytes := Eval cbv in bs "Host".
Definition HeaderReferer : bytes := Eval cbv in bs "Referer".
Definition HeaderUserAgent : bytes := Eval cbv in bs "User-Agent".
Definition HeaderServer : bytes := Eval cbv in bs "Server".
Definition HeaderAcceptRanges : bytes := Eval cbv in bs "Accept-Ranges".
Definition HeaderContentRange : bytes := Eval cbv in bs "Content-Range".
Definition HeaderRange : bytes := Eval cbv in bs "Range".
Definition HeaderTransferEncoding : bytes := Eval cbv in bs "Transfer-Encoding".
Definition HeaderDate : bytes := Eval cbv in bs "Date".
Definition MethodGet : bytes := Eval cbv in bs "GET".
Definition MethodHead : bytes := Eval cbv in bs "HEAD".
Definition MethodPost : bytes := Eval cbv in bs "POST".
Definition MethodPut : bytes := Eval cbv in bs "PUT".
Definition MethodPatch : bytes := Eval cbv in bs "PATCH".
Definition MethodDelete : bytes := Eval cbv in bs "DELETE".
Definition MethodConnect : bytes := Eval cbv in bs "CONNECT".
Definition MethodOptions : bytes := Eval cbv in bs "OPTIONS".
Definition MethodTrace : bytes := Eval cbv in bs "TRACE".

(** ** strings.go *)

Definition defaultServerName : bytes := Eval cbv in bs "fasthttp".
Definition defaultUserAgent : bytes := Eval cbv in bs "fasthttp".
Definition defaultContentType : bytes := Eval cbv in bs "text/plain; charset=utf-8".
Definition strSlash : bytes := Eval cbv in bs "/".
Definition strSlashSlash : bytes := Eval cbv in bs "//".
Definition strSlashDotDot : bytes := Eval cbv in bs "/..".
Definition strSlashDotSlash : bytes := Eval cbv in bs "/./".
Definition strSlashDotDotSlash : bytes := Eval cbv in bs "/../".
Definition strCRLF : bytes := Eval cbv in [x0d; x0a].
Definition strHTTP : bytes := Eval cbv in bs "http".
Definition strHTTPS : bytes := Eval cbv in bs "https".
Definition strHTTP10 : bytes := Eval cbv in bs "HTTP/1.0".
Definition strHTTP11 : bytes := Eval cbv in bs "HTTP/1.1".
Definition strColon : bytes := Eval cbv in bs ":".
Definition strColonSlashSlash : bytes := Eval cbv in bs "://".
Definition strColonSpace : bytes := Eval cbv in bs ": ".
Definition strGMT : bytes := Eval cbv in bs "GMT".
Definition strResponseContinue : bytes := Eval cbv in bs "HTTP/1.1 100 Continue" ++ [x0d; x0a; x0d; x0a].
Definition strGet : bytes := MethodGet.
Definition strHead : bytes := MethodHead.
Definition strPost : bytes := MethodPost.
Definition strPut : bytes := MethodPut.
Definition strDelete : bytes := MethodDelete.
Definition strConnect : bytes := MethodConnect.
Definition strOptions : bytes := MethodOptions.
Definition strTrace : bytes := MethodTrace.
Definition strPatch : bytes := MethodPatch.
Definition strExpect : bytes := HeaderExpect.
Definition strConnection : bytes := HeaderConnection.
Definition strContentLength : bytes := HeaderContentLength.
Definition strContentType : bytes := HeaderContentType.
Definition strDate : bytes := HeaderDate.
Definition strHost : bytes := HeaderHost.
Definition strReferer : bytes := HeaderReferer.
Definition strServer : bytes := HeaderServer.
Definition strTransferEncoding : bytes := HeaderTransferEncoding.
Definition strContentEncoding : bytes := HeaderContentEncoding.
Definition strAcceptEncoding : bytes := HeaderAcceptEncoding.
Definition strUserAgent : bytes := HeaderUserAgent.
Definition strCookie : bytes := HeaderCookie.
Definition strSetCookie : bytes := HeaderSetCookie.
Definition strLocation : bytes := HeaderLocation.
Definition strIfModifiedSince : bytes := HeaderIfModifiedSince.
Definition strLastModified : bytes := HeaderLastModified.
Definition strAcceptRanges : bytes := HeaderAcceptRanges.
Definition strRange : bytes := HeaderRange.
Definition strContentRange : bytes := HeaderContentRange.
Definition strAuthorization : bytes := HeaderAuthorization.
Definition strCookieExpires : bytes := Eval cbv in bs "expires".
Definition strCookieDomain : bytes := Eval cbv in bs "domain".
Definition strCookiePath : bytes := Eval cbv in bs "path".
Definition strCookieHTTPOnly : bytes := Eval cbv in bs "HttpOnly".
Definition strCookieSecure : bytes := Eval cbv in bs "secure".
Definition strCookieMaxAge : bytes := Eval cbv in bs "max-age".
Definition strCookieSameSite : bytes := Eval cbv in bs "SameSite".
Definition strCookieSameSiteLax : bytes := Eval cbv in bs "Lax".
Definition strCookieSameSiteStrict : bytes := Eval cbv in bs "Strict".
Definition strCookieSameSiteNone : bytes := Eval cbv in bs "None".
Definition strClose : bytes := Eval cbv in bs "close".
Definition strGzip : bytes := Eval cbv in bs "gzip".
Definition strBr : bytes := Eval cbv in bs "br".
Definition strDeflate : bytes := Eval cbv in bs "deflate".
Definition strKeepAlive : bytes := Eval cbv in bs "keep-alive".
Definition strUpgrade : bytes := Eval cbv in bs "Upgrade".
Definition strChunked : bytes := Eval cbv in bs "chunked".
Definition strIdentity : bytes := Eval cbv in bs "identity".
Definition str100Continue : bytes := Eval cbv in bs "100-continue".
Definition strPostArgsContentType : bytes := Eval cbv in bs "application/x-www-form-urlencoded".
Definition strDefaultContentType : bytes := Eval cbv in bs "application/octet-stream".
Definition strMultipartFormData : bytes := Eval cbv in bs "multipart/form-data".
Definition strBoundary : bytes := Eval cbv in bs "boundary".
Definition strBytes : bytes := Eval cbv in bs "bytes".
Definition strTextSlash : bytes := Eval cbv in bs "text/".
Definition strApplicationSlash : bytes := Eval cbv in bs "application/".
Definition strBasicSpace : bytes := Eval cbv in bs "Basic ".

(** ** status.go *)

Definition statusMessageMin : Z := 100.
Definition statusMessageMax : Z := 511.
Definition StatusContinue : Z := 100.
Definition StatusSwitchingProtocols : Z := 101.
Definition StatusProcessing : Z := 102.
Definition StatusEarlyHints : Z := 103.
Definition StatusOK : Z := 200.
Definition StatusCreated : Z := 201.
Definition StatusAccepted : Z := 202.
Definition StatusNonAuthoritativeInfo : Z := 203.
Definition StatusNoContent : Z := 204.
Definition StatusResetContent : Z := 205.
Definition StatusPartialContent : Z := 206.
Definition StatusMultiStatus : Z := 207.
Definition StatusAlreadyReported : Z := 208.
Definition StatusIMUsed : Z := 226.
Definition StatusMultipleChoices : Z := 300.
Definition StatusMovedPermanently : Z := 301.
Definition StatusFound : Z := 302.
Definition StatusSeeOther : Z := 303.
Definition StatusNotModified : Z := 304.
Definition StatusUseProxy : Z := 305.
Definition StatusTemporaryRedirect : Z := 307.
Definition StatusPermanentRedirect : Z := 308.
Definition StatusBadRequest : Z := 400.
Definition StatusUnauthorized : Z := 401.
Definition StatusPaymentRequired : Z := 402.
Definition StatusForbidden : Z := 403.
Definition StatusNotFound : Z := 404.
Definition StatusMethodNotAllowed : Z := 405.
Definition StatusNotAcceptable : Z := 406.
Definition StatusProxyAuthRequired : Z := 407.
Definition StatusRequestTimeout : Z := 408.
Definition StatusConflict : Z := 409.
Definition StatusGone : Z := 410.
Definition StatusLengthRequired : Z := 411.
Definition StatusPreconditionFailed : Z := 412.
Definition StatusRequestEntityTooLarge : Z := 413.
Definition StatusRequestURITooLong : Z := 414.
Definition StatusUnsupportedMediaType : Z := 415.
Definition StatusRequestedRangeNotSatisfiable : Z := 416.
Definition StatusExpectationFailed : Z := 417.
Definition StatusTeapot : Z := 418.
Definition StatusMisdirectedRequest : Z := 421.
Definition StatusUnprocessableEntity : Z := 422.
Definition StatusLocked : Z := 423.
Definition StatusFailedDependency : Z := 424.
Definition StatusUpgradeRequired : Z := 426.
Definition StatusPreconditionRequired : Z := 428.
Definition StatusTooManyRequests : Z := 429.
Definition StatusRequestHeaderFieldsTooLarge : Z := 431.
Definition StatusUnavailableForLegalReasons : Z := 451.
Definition StatusInternalServerError : Z := 500.
Definition StatusNotImplemented : Z := 501.
Definition StatusBadGateway : Z := 502.
Definition StatusServiceUnavailable : Z := 503.
Definition StatusGatewayTimeout : Z := 504.
Definition StatusHTTPVersionNotSupported : Z := 505.
Definition StatusVariantAlsoNegotiates : Z := 506.
Definition StatusInsufficientStorage : Z := 507.
Definition StatusLoopDetected : Z := 508.
Definition StatusNotExtended : Z := 510.
Definition StatusNetworkAuthenticationRequired : Z := 511.

(** The composite literal [statusMessages] as its (index, text) entries. *)
Definition statusMessageEntries : list (Z * bytes) :=
  [ (StatusContinue, bs "Continue");
    (StatusSwitchingProtocols, bs "Switching Protocols");
    (StatusProcessing, bs "Processing");
    (StatusEarlyHints, bs "Early Hints");
    (StatusOK, bs "OK");
    (StatusCreated, bs "Created");
    (StatusAccepted, bs "Accepted");
    (StatusNonAuthoritativeInfo, bs "Non-Authoritative Information");
    (StatusNoContent, bs "No Content");
    (StatusResetContent, bs "Reset Content");
    (StatusPartialContent, bs "Partial Content");
    (StatusMultiStatus, bs "Multi-Status");
    (StatusAlreadyReported, bs "Already Reported");
    (StatusIMUsed, bs "IM Used");
    (StatusMultipleChoices, bs "Multiple Choices");
    (StatusMovedPermanently, bs "Moved Permanently");
    (StatusFound, bs "Found");
    (StatusSeeOther, bs "See Other");
    (StatusNotModified, bs "Not Modified");
    (StatusUseProxy, bs "Use Proxy");
    (StatusTemporaryRedirect, bs "Temporary Redirect");
    (StatusPermanentRedirect, bs "Permanent Redirect");
    (StatusBadRequest, bs "Bad Request");
    (StatusUnauthorized, bs "Unauthorized");
    (StatusPaymentRequired, bs "Payment Required");
    (StatusForbidden, bs "Forbidden");
    (StatusNotFound, bs "Not Found");
    (StatusMethodNotAllowed, bs "Method Not Allowed");
    (StatusNotAcceptable, bs "Not Acceptable");
    (StatusProxyAuthRequired, bs "Proxy Authentication Required");
    (StatusRequestTimeout, bs "Request Timeout");
    (StatusConflict, bs "Conflict");
    (StatusGone, bs "Gone");
    (StatusLengthRequired, bs "Length Required");
    (StatusPreconditionFailed, bs "Precondition Failed");
    (StatusRequestEntityTooLarge, bs "Request Entity Too Large");
    (StatusRequestURITooLong, bs "Request URI Too Long");
    (StatusUnsupportedMediaType, bs "Unsupported Media Type");
    (StatusRequestedRangeNotSatisfiable, bs "Requested Range Not Satisfiable");
    (StatusExpectationFailed, bs "Expectation Failed");
    (StatusTeapot, bs "I'm a teapot");
    (StatusMisdirectedRequest, bs "Misdirected Request");
    (StatusUnprocessableEntity, bs "Unprocessable Entity");
    (StatusLocked, bs "Locked");
    (StatusFailedDependency, bs "Failed Dependency");
    (StatusUpgradeRequired, bs "Upgrade Required");
    (StatusPreconditionRequired, bs "Precondition Required");
    (StatusTooManyRequests, bs "Too Many Requests");
    (StatusRequestHeaderFieldsTooLarge, bs "Request Header Fields Too Large");
    (StatusUnavailableForLegalReasons, bs "Unavailable For Legal Reasons");
    (StatusInternalServerError, bs "Internal Server Error");
    (StatusNotImplemented, bs "Not Implemented");
    (StatusBadGateway, bs "Bad Gateway");
    (StatusServiceUnavailable, bs "Service Unavailable");
    (StatusGatewayTimeout, bs "Gateway Timeout");
    (StatusHTTPVersionNotSupported, bs "HTTP Version Not Supported");
    (StatusVariantAlsoNegotiates, bs "Variant Also Negotiates");
    (StatusInsufficientStorage, bs "Insufficient Storage");
    (StatusLoopDetected, bs "Loop Detected");
    (StatusNotExtended, bs "Not Extended");
    (StatusNetworkAuthenticationRequired, bs "Network Authentication Required") ].

(** A composite literal with explicit indices: as long as its largest index
    requires, with empty strings in the gaps. *)
Fixpoint entryAt (es : list (Z * bytes)) (i : Z) : bytes :=
  match es with
  | [] => []
  | (k, s) :: es' => if i =? k then s else entryAt es' i
  end.

Definition statusMessages : list bytes :=
  Eval vm_compute in
  map (fun i => entryAt statusMessageEntries (Z.of_nat i)) (seq 0 512).

(** Indexing a slice; [None] is the out-of-range panic. *)
Definition indexZ {A} (l : list A) (i : Z) : option A := if i <? 0 then None else l !! Z.to_nat i.

Definition unknownStatus : bytes := Eval cbv in bs "Unknown Status Code".

Definition StatusMessage (statusCode : Z) : option bytes :=
  if (statusCode <? statusMessageMin) || (statusMessageMax <? statusCode) then Some unknownStatus
  else
    s ← indexZ statusMessages statusCode;
    Some (if decide (s = []) then unknownStatus else s).

(** [fmt]'s [%d] verb. *)
Definition fmtInt (n : Z) : bytes :=
  if n <? 0 then "-"%byte :: default [] (AppendUint [] (- n)) else default [] (AppendUint [] n).

Definition sprintfStatusLine (statusCode : Z) (statusText : bytes) : bytes :=
  strHTTP11 ++ bs " " ++ fmtInt statusCode ++ bs " " ++ statusText ++ strCRLF.

(** The table the init function fills. *)
Definition statusLines : list bytes :=
  Eval vm_compute in
  map (fun i => sprintfStatusLine (Z.of_nat i) (default [] (StatusMessage (Z.of_nat i)))) (seq 0 512).

Definition invalidStatusLine (statusCode : Z) : option bytes :=
  statusText ← StatusMessage statusCode; Some (sprintfStatusLine statusCode statusText).

Definition statusLine (statusCode : Z) : option bytes :=
  if (statusCode <? 0) || (statusMessageMax <? statusCode) then invalidStatusLine statusCode
  else indexZ statusLines statusCode.

(** ** Lemmas *)

(** A statement about every code of the tables, checked by evaluation. *)
Lemma table_all (P : Z -> bool) :
  forallb (fun i => P (Z.of_nat i)) (seq 0 512) = true -> forall c, 0 <= c <= statusMessageMax -> P c = true.
Proof.
  intros H c Hc. unfold statusMessageMax in Hc. rewrite forallb_forall in H.
  specialize (H (Z.to_nat c)). rewrite Z2Nat.id in H by lia. apply H, in_seq. lia.
Qed.

(** The reason phrases have no line break, so a status line is one line. *)
Definition oneLine (s : bytes) : bool := forallb (fun c => negb (bool_decide (c = x0d \/ c = x0a))) s.

Definition statusMessageOk (c : Z) : bool :=
  match StatusMessage c with Some s => bool_decide (s <> []) && oneLine s | None => false end.

Lemma StatusMessage_ok c : exists s, StatusMessage c = Some s /\ s <> [] /\ oneLine s = true.
Proof.
  destruct (decide (0 <= c <= statusMessageMax)) as [H|H].
  - assert (statusMessageOk c = true) as E.
    { revert c H. apply table_all. vm_compute. reflexivity. }
    unfold statusMessageOk in E. destruct (StatusMessage c) as [s|]; [|done].
    apply andb_true_iff in E as [E1%bool_decide_eq_true_1 E2]. eauto.
  - exists unknownStatus. unfold StatusMessage.
    destruct (Z.ltb_spec c statusMessageMin), (Z.ltb_spec statusMessageMax c);
      unfold statusMessageMin, statusMessageMax in *; try lia; simpl; by split_and!.
Qed.

Lemma statusLine_table c :
  0 <= c <= statusMessageMax -> statusLine c = invalidStatusLine c.
Proof.
  intros H. apply (bool_decide_eq_true_1 _). revert c H. apply table_all. vm_compute. reflexivity.
Qed.

Lemma statusLine_spec c : statusLine c = invalidStatusLine c.
Proof.
  destruct (decide (0 <= c <= statusMessageMax)); [by apply statusLine_table|].
  unfold statusLine. destruct (Z.ltb_spec c 0), (Z.ltb_spec statusMessageMax c); done || lia.
Qed.

Lemma fmtInt_nonneg c :
  0 <= c <= maxInt ->
  Forall (fun x => is_digit x = true) (fmtInt c) /\ fmtInt c <> [] /\ dec_value (fmtInt c) = c.
Proof.
  intros H. unfold fmtInt. destruct (Z.ltb_spec c 0); [lia|].
  destruct (AppendUint_spec [] c H) as (d & -> & ? & _ & ? & ?). simpl. done.
Qed.

(** * Properties *)

(** The status line of every non-negative code, from the table or built on
    the fly, is one well-formed line: the protocol, a number the response
    parser reads back as that code, a non-empty reason without line breaks,
    CRLF; the indexing of the two tables never panics. *)
Lemma statusLine_wf (c : Z) (H : 0 <= c <= maxInt) :
  exists d s, statusLine c = Some (strHTTP11 ++ bs " " ++ d ++ bs " " ++ s ++ strCRLF) /\
    ParseUint d = (c, None) /\ s <> [] /\ oneLine s = true.
Proof.
  rewrite statusLine_spec. unfold invalidStatusLine.
  destruct (StatusMessage_ok c) as (s & -> & Hs & Ho). destruct (fmtInt_nonneg c H) as (F & Hne & V).
  exists (fmtInt c), s. split_and!; try done. rewrite ParseUint_digits, V; [done..|].
  rewrite V. lia.
Qed.

Lemma statusLine_wf_witness :
  0 <= 777 <= maxInt /\
  exists d s, statusLine 777 = Some (strHTTP11 ++ bs " " ++ d ++ bs " " ++ s ++ strCRLF) /\
    ParseUint d = (777, None) /\ s <> [] /\ oneLine s = true.
Proof. split; [unfold maxInt; lia|]. apply (statusLine_wf 777). unfold maxInt. lia. Defined.
