(* ===== verification/Args.v ===== *)
(** * args.go: the key/value slices and the Args object

    A Go slice [[]argsKV] is modelled with its backing store: [live] are the
    elements up to [len], [spare] the elements between [len] and [cap].  The
    code reuses the spare elements with whatever they hold ([allocArg]), moves
    deleted elements there ([delAllArgs]) and keeps everything on [Reset], so
    stale data stays reachable; the theorems of this file show it is never
    observable. *)
From Stdlib Require Import Strings.String.
From S2P Require Import Prelude BytesConv.

Definition argsNoValue : bool := true.
Definition argsHasValue : bool := false.

Record argsKV := ArgsKV { key : bytes; value : bytes; noValue : bool }.

#[export] Instance argsKV_eq_dec : EqDecision argsKV.
Proof. solve_decision. Defined.

(** The zero element [append] puts in a fresh slot. *)
Definition zeroKV : argsKV := ArgsKV [] [] false.

Record kvs := Kvs { live : list argsKV; spare : list argsKV }.

(** The nil slice. *)
Definition nilKvs : kvs := Kvs [] [].

(** [h[:0]]. *)
Definition truncKvs (h : kvs) : kvs := Kvs [] (live h ++ spare h).

Definition capKvs (h : kvs) : nat := length (live h) + length (spare h).

(** ** Slice primitives *)

(** allocArg returns the extended slice and a pointer to its last element;
    the pointer is modelled by that element's index. *)
Definition allocArg (h : kvs) : kvs * nat :=
  let n := length (live h) in
  match spare h with
  | kv :: spare' => (Kvs (live h ++ [kv]) spare', n)
  | [] => (Kvs (live h ++ [zeroKV]) [], n)
  end.

(** Reading and writing through the pointer allocArg returned. *)
Definition loadKV (h : kvs) (p : nat) : argsKV := default zeroKV (live h !! p).
Definition storeKV (h : kvs) (p : nat) (kv : argsKV) : kvs := Kvs (<[p := kv]> (live h)) (spare h).

(** [h[:len(h)-1]]; [None] is the panic on an empty slice. *)
Definition releaseArg (h : kvs) : option kvs :=
  match last (live h) with
  | None => None
  | Some kv => Some (Kvs (removelast (live h)) (kv :: spare h))
  end.

Definition appendArg (args : kvs) (k v : bytes) (nov : bool) : kvs :=
  let '(args, p) := allocArg args in
  storeKV args p (ArgsKV k (if nov then [] else v) nov).

Definition appendArgBytes (h : kvs) (k v : bytes) (nov : bool) : kvs := appendArg h k v nov.

(** setArg: the loop over [h[i:]]; [None] when no key matches. *)
Fixpoint setArgLoop (h : list argsKV) (k v : bytes) (nov : bool) : option (list argsKV) :=
  match h with
  | [] => None
  | kv :: h' =>
      if decide (k = key kv)
      then Some (ArgsKV (key kv) (if nov then [] else v) nov :: h')
      else cons kv <$> setArgLoop h' k v nov
  end.

Definition setArg (h : kvs) (k v : bytes) (nov : bool) : kvs :=
  match setArgLoop (live h) k v nov with
  | Some l => Kvs l (spare h)
  | None => appendArg h k v nov
  end.

Definition setArgBytes (h : kvs) (k v : bytes) (nov : bool) : kvs := setArg h k v nov.

(** delAllArgs: [pre] is [args[:i]], the list argument [args[i:n]] and [sp]
    everything beyond [n]; a match is rotated behind the end. *)
Fixpoint delAllArgsLoop (pre rest sp : list argsKV) (k : bytes) : kvs :=
  match rest with
  | [] => Kvs pre sp
  | kv :: rest' =>
      if decide (k = key kv) then delAllArgsLoop pre rest' (kv :: sp) k
      else delAllArgsLoop (pre ++ [kv]) rest' sp k
  end.

Definition delAllArgs (args : kvs) (k : bytes) : kvs :=
  delAllArgsLoop [] (live args) (spare args) k.

Definition delAllArgsBytes (args : kvs) (k : bytes) : kvs := delAllArgs args k.

Fixpoint hasArg (h : list argsKV) (k : bytes) : bool :=
  match h with
  | [] => false
  | kv :: h' => if decide (k = key kv) then true else hasArg h' k
  end.

(** [None] is the nil slice the code returns for a missing key. *)
Fixpoint peekArgStr (h : list argsKV) (k : bytes) : option bytes :=
  match h with
  | [] => None
  | kv :: h' => if decide (key kv = k) then Some (value kv) else peekArgStr h' k
  end.

Fixpoint peekArgBytes (h : list argsKV) (k : bytes) : option bytes :=
  match h with
  | [] => None
  | kv :: h' => if decide (key kv = k) then Some (value kv) else peekArgBytes h' k
  end.

(** visitArgs calls [f] on each pair in order; the calls are returned as the
    list of their arguments. *)
Definition visitArgs (h : list argsKV) : list (bytes * bytes) :=
  map (fun kv => (key kv, value kv)) h.

Definition copyKV (src : argsKV) : argsKV :=
  ArgsKV (key src) (if noValue src then [] else value src) (noValue src).

(** copyArgs grows [dst] to a fresh array when its capacity is too small,
    then overwrites its first [len(src)] elements. *)
Definition copyArgs (dst src : kvs) : kvs :=
  let n := length (live src) in
  let all := live dst ++ spare dst in
  let base := if Nat.ltb (capKvs dst) n then all ++ replicate (n - capKvs dst) zeroKV else all in
  Kvs (map copyKV (live src)) (drop n base).

(** ** Decoding *)

(** The slow path over [src[i:]]; [plus] tells the two copies of the function
    apart (only decodeArgAppend turns '+' into a space). *)
Fixpoint decodeLoop (plus : bool) (s : bytes) : bytes :=
  match s with
  | [] => []
  | c :: s' =>
      if decide (c = "%"%byte) then
        match s' with
        | c1 :: c2 :: s'' =>
            let x2 := tbl hex2intTable c2 in
            let x1 := tbl hex2intTable c1 in
            if decide (bz x1 = 16 \/ bz x2 = 16) then "%"%byte :: decodeLoop plus s'
            else zb (Z.lor (bz (zb (Z.shiftl (bz x1) 4))) (bz x2)) :: decodeLoop plus s''
        | _ => s
        end
      else if plus && bool_decide (c = "+"%byte) then " "%byte :: decodeLoop plus s'
      else c :: decodeLoop plus s'
  end.

Definition decodeArgAppend (dst src : bytes) : bytes :=
  match IndexByte src "%", IndexByte src "+" with
  | None, None => dst ++ src
  | _, _ => dst ++ decodeLoop true src
  end.

Definition decodeArgAppendNoPlus (dst src : bytes) : bytes :=
  match IndexByte src "%" with
  | None => dst ++ src
  | _ => dst ++ decodeLoop false src
  end.

Definition AppendUnquotedArg (dst src : bytes) : bytes := decodeArgAppend dst src.

(** ** The argument scanner *)

(** The loop of argsScanner.next: [b] is [s.b], [rest] is [s.b[i:]].  The
    result is the filled element and the new [s.b]. *)
Fixpoint argsNextLoop (b rest : bytes) (i : nat) (isKey : bool) (k : nat) (kv : argsKV)
  : argsKV * bytes :=
  match rest with
  | [] =>
      (if isKey then ArgsKV (decodeArgAppend [] b) [] argsNoValue
       else ArgsKV (key kv) (decodeArgAppend [] (drop k b)) (noValue kv), [])
  | c :: rest' =>
      if decide (c = "="%byte) then
        if isKey
        then argsNextLoop b rest' (S i) false (i + 1)
               (ArgsKV (decodeArgAppend [] (take i b)) (value kv) (noValue kv))
        else argsNextLoop b rest' (S i) isKey k kv
      else if decide (c = "&"%byte) then
        (if isKey then ArgsKV (decodeArgAppend [] (take i b)) [] argsNoValue
         else ArgsKV (key kv) (decodeArgAppend [] (drop k (take i b))) (noValue kv),
         drop (i + 1) b)
      else argsNextLoop b rest' (S i) isKey k kv
  end.

(** [None] when the scanner is exhausted; otherwise the element written
    through [kv] and the remaining input. *)
Definition argsScanner_next (b : bytes) (kv : argsKV) : option (argsKV * bytes) :=
  if decide (length b = O) then None
  else Some (argsNextLoop b b 0 true 0 (ArgsKV (key kv) (value kv) argsHasValue)).

(** ** The Args object *)

Record Args := MkArgs { args : kvs; buf : bytes }.

Definition emptyArgs : Args := MkArgs nilKvs [].

Definition Args_Reset (a : Args) : Args := MkArgs (truncKvs (args a)) (buf a).

Definition Args_CopyTo (a dst : Args) : Args :=
  let dst := Args_Reset dst in MkArgs (copyArgs (args dst) (args a)) (buf dst).

Definition Args_VisitAll (a : Args) : list (bytes * bytes) := visitArgs (live (args a)).

Definition Args_Len (a : Args) : nat := length (live (args a)).

(** The loop of ParseBytes, with the pointer [p] to the element being filled.
    Each call consumes at least one byte, so [S (length b)] rounds suffice. *)
Fixpoint parseArgsLoop (fuel : nat) (b : bytes) (h : kvs) (p : nat) : kvs :=
  match fuel with
  | O => h
  | S fuel' =>
      match argsScanner_next b (loadKV h p) with
      | None => h
      | Some (kv, b') =>
          let h := storeKV h p kv in
          if decide (key kv <> [] \/ value kv <> [])
          then let '(h, p) := allocArg h in parseArgsLoop fuel' b' h p
          else parseArgsLoop fuel' b' h p
      end
  end.

Definition Args_ParseBytes (a : Args) (b : bytes) : option Args :=
  let a := Args_Reset a in
  let '(h, p) := allocArg (args a) in
  h ← releaseArg (parseArgsLoop (S (length b)) b h p);
  Some (MkArgs h (buf a)).

Definition Args_Parse (a : Args) (s : bytes) : option Args :=
  Args_ParseBytes (MkArgs (args a) s) s.

(** AppendBytes: the loop over [a.args[i:]]. *)
Fixpoint appendArgsLoop (h : list argsKV) (dst : bytes) : bytes :=
  match h with
  | [] => dst
  | kv :: h' =>
      let dst := AppendQuotedArg dst (key kv) in
      let dst :=
        if noValue kv then dst
        else
          let dst := dst ++ ["="%byte] in
          if Nat.ltb 0 (length (value kv)) then AppendQuotedArg dst (value kv) else dst in
      let dst := match h' with [] => dst | _ => dst ++ ["&"%byte] end in
      appendArgsLoop h' dst
  end.

Definition Args_AppendBytes (a : Args) (dst : bytes) : bytes :=
  appendArgsLoop (live (args a)) dst.

Definition Args_QueryString (a : Args) : Args * bytes :=
  let b := Args_AppendBytes a [] in (MkArgs (args a) b, b).

Definition Args_String (a : Args) : Args * bytes := Args_QueryString a.

Definition Args_Del (a : Args) (k : bytes) : Args := MkArgs (delAllArgs (args a) k) (buf a).

Definition Args_Add (a : Args) (k v : bytes) : Args :=
  MkArgs (appendArg (args a) k v argsHasValue) (buf a).

Definition Args_AddNoValue (a : Args) (k : bytes) : Args :=
  MkArgs (appendArg (args a) k [] argsNoValue) (buf a).

Definition Args_Set (a : Args) (k v : bytes) : Args :=
  MkArgs (setArg (args a) k v argsHasValue) (buf a).

Definition Args_SetNoValue (a : Args) (k : bytes) : Args :=
  MkArgs (setArg (args a) k [] argsNoValue) (buf a).

Definition Args_Peek (a : Args) (k : bytes) : option bytes := peekArgStr (live (args a)) k.

Definition Args_PeekMulti (a : Args) (k : bytes) : list bytes :=
  omap (fun '(k', v) => if decide (k' = k) then Some v else None) (Args_VisitAll a).

Definition Args_Has (a : Args) (k : bytes) : bool := hasArg (live (args a)) k.

Definition Args_GetUint (a : Args) (k : bytes) : Z * option error :=
  let v := default [] (Args_Peek a k) in
  if decide (length v = O) then (-1, Some ErrNoArgValue) else ParseUint v.

(** [None]: the panic of AppendUint on a negative value. *)
Definition Args_SetUint (a : Args) (k : bytes) (n : Z) : option Args :=
  b ← AppendUint [] n; Some (Args_Set a k b).

Definition Args_GetUintOrZero (a : Args) (k : bytes) : Z :=
  match Args_GetUint a k with (_, Some _) => 0 | (n, None) => n end.

Definition trueStrings : list bytes :=
  map (fun s => bs s)
    ["1"; "t"; "T"; "true"; "TRUE"; "True"; "y"; "yes"; "Y"; "YES"; "Yes"]%string.

Definition Args_GetBool (a : Args) (k : bytes) : bool :=
  bool_decide (default [] (Args_Peek a k) ∈ trueStrings).

(** ** Reference definitions: what the scanner and the printer compute *)

Fixpoint splitOn (c : byte) (b : bytes) : list bytes :=
  match b with
  | [] => [[]]
  | x :: b' =>
      if decide (x = c) then [] :: splitOn c b'
      else match splitOn c b' with [] => [[x]] | s :: ss => (x :: s) :: ss end
  end.

(** One [&]-separated segment, cut at its first [=]. *)
Definition parsePair (seg : bytes) : argsKV :=
  match IndexByte seg "=" with
  | None => ArgsKV (decodeArgAppend [] seg) [] argsNoValue
  | Some n => ArgsKV (decodeArgAppend [] (take n seg)) (decodeArgAppend [] (drop (n + 1) seg)) argsHasValue
  end.

Definition nonEmptyKV (kv : argsKV) : Prop := key kv <> [] \/ value kv <> [].
#[export] Instance nonEmptyKV_dec kv : Decision (nonEmptyKV kv).
Proof. unfold nonEmptyKV. apply _. Defined.

Definition parsedArgs (b : bytes) : list argsKV :=
  filter nonEmptyKV (map parsePair (splitOn "&" b)).

Definition quoteArgByte (c : byte) : bytes :=
  if decide (c = " "%byte) then ["+"%byte]
  else if decide (tbl quotedArgShouldEscapeTable c <> x00) then quoteByte c
  else [c].

Definition quotedArg (s : bytes) : bytes := concat (map quoteArgByte s).

Definition encodeKV (kv : argsKV) : bytes :=
  quotedArg (key kv) ++ (if noValue kv then [] else "="%byte :: quotedArg (value kv)).

Fixpoint joinAmp (l : list bytes) : bytes :=
  match l with
  | [] => []
  | [s] => s
  | s :: l' => s ++ "&"%byte :: joinAmp l'
  end.

(** The elements a query string can carry: not entirely empty, and without
    a value when there is no [=]. *)
Definition printableKV (kv : argsKV) : Prop :=
  nonEmptyKV kv /\ (noValue kv = true -> value kv = []).

(** ** Lemmas on splitting *)

Lemma splitOn_none c b : c ∉ b -> splitOn c b = [b].
Proof.
  induction b as [|x b IH]; intros N; simpl; [done|].
  apply not_elem_of_cons in N as [? ?]. rewrite decide_False by congruence. by rewrite IH.
Qed.

Lemma splitOn_app c s r : c ∉ s -> splitOn c (s ++ c :: r) = s :: splitOn c r.
Proof.
  induction s as [|x s IH]; intros N; simpl.
  - by rewrite decide_True.
  - apply not_elem_of_cons in N as [? ?]. rewrite decide_False by congruence. by rewrite IH.
Qed.

Lemma joinAmp_cons s l : l <> [] -> joinAmp (s :: l) = s ++ "&"%byte :: joinAmp l.
Proof. by destruct l. Qed.

Lemma splitOn_join l : l <> [] -> Forall (fun s => "&"%byte ∉ s) l -> splitOn "&" (joinAmp l) = l.
Proof.
  intros Hne Hl. induction Hl as [|s l Hs Hl IH]; [done|]. destruct l as [|s' l].
  - by apply splitOn_none.
  - rewrite joinAmp_cons, splitOn_app by done. by rewrite IH.
Qed.

(** ** Quoting and decoding *)

Lemma quoteArgByte_clean c d :
  d ∈ quoteArgByte c -> d <> "&"%byte /\ d <> "="%byte.
Proof.
  assert (H : forallb (fun d => bool_decide (d <> "&"%byte /\ d <> "="%byte)) (quoteArgByte c) = true).
  { all_bytes_tac c. }
  rewrite forallb_forall in H. intros E. apply list_elem_of_In, H in E.
  by apply bool_decide_eq_true in E.
Qed.

Lemma quotedArg_clean s d : d ∈ quotedArg s -> d <> "&"%byte /\ d <> "="%byte.
Proof.
  unfold quotedArg. intros E. apply list_elem_of_In, in_concat in E as (q & Hq & E).
  apply in_map_iff in Hq as (c & <- & _). apply list_elem_of_In in E.
  by apply quoteArgByte_clean in E.
Qed.

Lemma AppendQuotedArg_spec dst s : AppendQuotedArg dst s = dst ++ quotedArg s.
Proof.
  unfold AppendQuotedArg, quotedArg. revert dst.
  induction s as [|c s IH]; intros dst; simpl; [by rewrite app_nil_r|].
  rewrite IH. unfold quoteArgByte.
  repeat case_decide; by rewrite <- app_assoc.
Qed.

Lemma decodeLoop_plain plus c s :
  c <> "%"%byte ->
  decodeLoop plus (c :: s) =
  (if plus && bool_decide (c = "+"%byte) then " "%byte else c) :: decodeLoop plus s.
Proof. intros H. simpl. rewrite decide_False by done. by destruct (plus && _). Qed.

Lemma decodeLoop_quote plus c s : decodeLoop plus (quoteByte c ++ s) = c :: decodeLoop plus s.
Proof.
  destruct (hex_digits_decode c) as (H1 & H2 & H3).
  unfold quoteByte. simpl. rewrite decide_False by lia. by rewrite H3.
Qed.

(** The slow path does not change a string without escapes, so the fast paths
    agree with it. *)
Lemma decodeLoop_id plus s :
  "%"%byte ∉ s -> (plus = true -> "+"%byte ∉ s) -> decodeLoop plus s = s.
Proof.
  induction s as [|c s IH]; intros N P; [done|].
  apply not_elem_of_cons in N as [? ?]. rewrite decodeLoop_plain by congruence.
  assert (plus && bool_decide (c = "+"%byte) = false) as ->.
  { destruct plus; [|done]. simpl. apply bool_decide_eq_false_2. intros ->.
    destruct (P eq_refl). left. }
  rewrite IH; [done|done|]. intros Hp. specialize (P Hp).
  apply not_elem_of_cons in P. naive_solver.
Qed.

Lemma decodeArgAppend_spec dst src : decodeArgAppend dst src = dst ++ decodeLoop true src.
Proof.
  unfold decodeArgAppend.
  destruct (IndexByte src "%") eqn:E1; [done|]. destruct (IndexByte src "+") eqn:E2; [done|].
  apply IndexByte_None in E1, E2. by rewrite decodeLoop_id.
Qed.

Lemma decodeArgAppendNoPlus_spec dst src :
  decodeArgAppendNoPlus dst src = dst ++ decodeLoop false src.
Proof.
  unfold decodeArgAppendNoPlus. destruct (IndexByte src "%") eqn:E1; [done|].
  apply IndexByte_None in E1. by rewrite decodeLoop_id.
Qed.

Lemma decodeLoop_length plus s : (length (decodeLoop plus s) <= length s)%nat.
Proof.
  remember (length s) as n eqn:E. assert (length s <= n)%nat as L by lia. clear E.
  revert s L. induction n as [|n IH]; intros s L; destruct s as [|c s]; simpl in *; try lia.
  case_decide.
  - destruct s as [|c1 [|c2 s]]; simpl in *; try lia.
    case_decide; simpl.
    + pose proof (IH (c1 :: c2 :: s)). simpl in *. lia.
    + pose proof (IH s). lia.
  - pose proof (IH s). destruct (plus && _); simpl; lia.
Qed.

Lemma unescaped_arg_byte c :
  tbl quotedArgShouldEscapeTable c = x00 -> c <> "%"%byte /\ c <> "+"%byte.
Proof. all_bytes_tac c. Qed.

Lemma decodeLoop_quoteArgByte c s :
  decodeLoop true (quoteArgByte c ++ s) = c :: decodeLoop true s.
Proof.
  unfold quoteArgByte. case_decide; [by subst|]. case_decide as D.
  - apply decodeLoop_quote.
  - apply unescaped_arg_byte in D as [? ?]. cbn [app].
    rewrite decodeLoop_plain by done. simpl. by rewrite bool_decide_eq_false_2.
Qed.

Lemma decodeArg_quotedArg s : decodeArgAppend [] (quotedArg s) = s.
Proof.
  rewrite decodeArgAppend_spec. simpl. unfold quotedArg.
  induction s as [|c s IH]; [done|]. cbn [map concat].
  by rewrite decodeLoop_quoteArgByte, IH.
Qed.

Create Rewrite HintDb goquote.
#[export] Hint Rewrite AppendQuotedArg_spec decodeArgAppend_spec decodeArgAppendNoPlus_spec
  decodeArg_quotedArg : goquote.

(** ** The scanner against the reference

    [tail] is what follows the segment: nothing, or [&] and the next ones. *)
Definition segEnd (tail : bytes) : Prop := tail = [] \/ exists r, tail = "&"%byte :: r.

Lemma argsNextLoop_value p v tail k kv :
  "&"%byte ∉ v -> segEnd tail ->
  argsNextLoop (p ++ v ++ tail) (v ++ tail) (length p) false k kv =
  (ArgsKV (key kv) (decodeArgAppend [] (drop k (p ++ v))) (noValue kv), tl tail).
Proof.
  revert p. induction v as [|c v IH]; intros p Hv Ht.
  - rewrite app_nil_r. destruct Ht as [->|[r ->]]; simpl.
    + by rewrite app_nil_r.
    + by rewrite take_app_exact, Nat.add_1_r, drop_app_S.
  - apply not_elem_of_cons in Hv as [Hc Hv]. cbn [app argsNextLoop].
    rewrite (decide_False (P := c = "&"%byte)) by congruence.
    specialize (IH (p ++ [c]) Hv Ht). rewrite length_app, Nat.add_1_r in IH.
    rewrite <- !app_assoc in IH. cbn [app] in IH. rewrite IH. by case_decide.
Qed.

Lemma argsNextLoop_key p v tail k kv :
  "="%byte ∉ p -> "&"%byte ∉ v -> segEnd tail -> noValue kv = argsHasValue ->
  argsNextLoop (p ++ v ++ tail) (v ++ tail) (length p) true k kv = (parsePair (p ++ v), tl tail).
Proof.
  revert p. induction v as [|c v IH]; intros p Hp Hv Ht Hk.
  - rewrite app_nil_r. unfold parsePair. rewrite (proj2 (IndexByte_None p _) Hp).
    destruct Ht as [->|[r ->]]; simpl.
    + by rewrite app_nil_r.
    + by rewrite take_app_exact, Nat.add_1_r, drop_app_S.
  - apply not_elem_of_cons in Hv as [Hc Hv]. cbn [app argsNextLoop]. case_decide as E.
    + subst c. rewrite take_app_exact. unfold parsePair. rewrite IndexByte_app by done.
      rewrite take_app_exact.
      pose proof (argsNextLoop_value (p ++ ["="%byte]) v tail (S (length p))
                    (ArgsKV (decodeArgAppend [] p) (value kv) (noValue kv)) Hv Ht) as H.
      rewrite length_app, Nat.add_1_r, <- !app_assoc in H. cbn [app length] in H.
      rewrite Nat.add_1_r. rewrite H. by rewrite drop_app_S, Hk.
    + rewrite decide_False by congruence.
      specialize (IH (p ++ [c])). rewrite length_app, Nat.add_1_r, <- !app_assoc in IH.
      apply IH; try done. rewrite not_elem_of_app, list_elem_of_singleton. naive_solver.
Qed.

(** One call of [next] takes one segment. *)
Lemma argsScanner_next_spec seg tail kv :
  "&"%byte ∉ seg -> segEnd tail -> seg ++ tail <> [] ->
  argsScanner_next (seg ++ tail) kv = Some (parsePair seg, tl tail).
Proof.
  intros Hs Ht Hne. unfold argsScanner_next. rewrite decide_False by (by destruct (seg ++ tail)).
  f_equal. apply (argsNextLoop_key [] seg tail 0); try done. apply not_elem_of_nil.
Qed.

Lemma split_segment b :
  exists seg tail, b = seg ++ tail /\ ("&"%byte ∉ seg) /\ segEnd tail /\
                   (tail = [] -> splitOn "&" b = [seg]) /\
                   (tail <> [] -> splitOn "&" b = seg :: splitOn "&" (tl tail)).
Proof.
  destruct (IndexByte b "&") as [n|] eqn:E.
  - apply IndexByte_Some in E as (l1 & l2 & -> & _ & N). exists l1, ("&"%byte :: l2).
    split_and!; try done; [right; eauto|]. intros _. by apply splitOn_app.
  - apply IndexByte_None in E. exists b, []. rewrite app_nil_r.
    split_and!; try done; [by left|]. intros _. by apply splitOn_none.
Qed.

Lemma parsedArgs_nil : parsedArgs [] = [].
Proof. done. Qed.

Lemma parsedArgs_segment seg tail :
  "&"%byte ∉ seg -> segEnd tail ->
  parsedArgs (seg ++ tail) =
  (if decide (nonEmptyKV (parsePair seg)) then [parsePair seg] else []) ++ parsedArgs (tl tail).
Proof.
  intros Hs Ht. unfold parsedArgs.
  destruct Ht as [->|[r ->]].
  - rewrite app_nil_r, splitOn_none by done. simpl. rewrite filter_cons. by case_decide.
  - rewrite splitOn_app by done. cbn [map tl]. rewrite filter_cons. by case_decide.
Qed.

(** The pointer to a freshly allocated element stays at the end. *)
Lemma allocArg_spec h :
  exists kv sp, allocArg h = (Kvs (live h ++ [kv]) sp, length (live h)).
Proof. unfold allocArg. destruct (spare h) as [|kv sp]; eauto. Qed.

Lemma storeKV_last l kv sp kv' : storeKV (Kvs (l ++ [kv]) sp) (length l) kv' = Kvs (l ++ [kv']) sp.
Proof.
  unfold storeKV; simpl. f_equal.
  replace (length l) with (length l + 0)%nat by lia. by rewrite insert_app_r.
Qed.

Lemma releaseArg_last l kv sp : releaseArg (Kvs (l ++ [kv]) sp) = Some (Kvs l (kv :: sp)).
Proof. unfold releaseArg; simpl. by rewrite last_snoc, removelast_last. Qed.

Lemma parseArgsLoop_spec fuel b l kv sp :
  (length b < fuel)%nat ->
  exists kv' sp', parseArgsLoop fuel b (Kvs (l ++ [kv]) sp) (length l) =
                  Kvs ((l ++ parsedArgs b) ++ [kv']) sp'.
Proof.
  revert b l kv sp. induction fuel as [|fuel IH]; intros b l kv sp Hf; [lia|]. cbn [parseArgsLoop].
  destruct (decide (b = [])) as [->|Hne].
  { rewrite parsedArgs_nil, app_nil_r. simpl. eauto. }
  destruct (split_segment b) as (seg & tail & -> & Hs & Ht & _).
  rewrite argsScanner_next_spec by done. rewrite storeKV_last, parsedArgs_segment by done.
  assert (length (tl tail) < fuel)%nat as Hlt.
  { rewrite length_app in Hf. destruct Ht as [->|[r ->]]; simpl in *; [|lia].
    destruct seg; simpl in *; [done|lia]. }
  change (decide (key (parsePair seg) <> [] \/ value (parsePair seg) <> []))
    with (decide (nonEmptyKV (parsePair seg))).
  case_decide.
  - destruct (allocArg_spec (Kvs (l ++ [parsePair seg]) sp)) as (kv2 & sp2 & ->). simpl live.
    destruct (IH (tl tail) (l ++ [parsePair seg]) kv2 sp2 Hlt) as (kv3 & sp3 & ->).
    exists kv3, sp3. by rewrite <- !app_assoc.
  - apply IH. done.
Qed.

(** ParseBytes never panics and computes the reference list, whatever the
    object held before. *)
Lemma Args_ParseBytes_spec a b :
  exists sp, Args_ParseBytes a b = Some (MkArgs (Kvs (parsedArgs b) sp) (buf a)).
Proof.
  unfold Args_ParseBytes.
  destruct (allocArg_spec (args (Args_Reset a))) as (kv & sp & E).
  rewrite E. simpl live. cbn [app].
  destruct (parseArgsLoop_spec (S (length b)) b [] kv sp ltac:(lia)) as (kv' & sp' & E').
  cbn [app length] in E'. simpl in E' |- *. rewrite E', releaseArg_last. simpl. eauto.
Qed.

(** ** The printer against the reference *)

Lemma encodeKV_clean kv : "&"%byte ∉ encodeKV kv.
Proof.
  unfold encodeKV. rewrite not_elem_of_app. split.
  - intros E. by apply quotedArg_clean in E as [? _].
  - destruct (noValue kv); [apply not_elem_of_nil|]. rewrite not_elem_of_cons. split; [done|].
    intros E. by apply quotedArg_clean in E as [? _].
Qed.

Lemma parsePair_encodeKV kv : (noValue kv = true -> value kv = []) -> parsePair (encodeKV kv) = kv.
Proof.
  intros H. unfold parsePair, encodeKV.
  assert ("="%byte ∉ quotedArg (key kv)) as N.
  { intros E. by apply quotedArg_clean in E as [_ ?]. }
  destruct kv as [k v [|]]; simpl in *.
  - rewrite app_nil_r, (proj2 (IndexByte_None _ _) N), decodeArg_quotedArg, H by done. done.
  - rewrite IndexByte_app by done.
    by rewrite take_app_exact, Nat.add_1_r, drop_app_S, !decodeArg_quotedArg.
Qed.

Lemma appendArgsLoop_spec h dst : appendArgsLoop h dst = dst ++ joinAmp (map encodeKV h).
Proof.
  revert dst. induction h as [|kv h IH]; intros dst; cbn [appendArgsLoop map].
  - by rewrite app_nil_r.
  - assert ((if noValue kv then AppendQuotedArg dst (key kv)
             else if Nat.ltb 0 (length (value kv))
                  then AppendQuotedArg (AppendQuotedArg dst (key kv) ++ ["="%byte]) (value kv)
                  else AppendQuotedArg dst (key kv) ++ ["="%byte]) = dst ++ encodeKV kv) as E.
    { unfold encodeKV. destruct (noValue kv).
      - by rewrite AppendQuotedArg_spec, app_nil_r.
      - destruct (value kv) as [|c v]; cbn [length Nat.ltb Nat.leb].
        + rewrite AppendQuotedArg_spec, <- app_assoc. done.
        + rewrite !AppendQuotedArg_spec. by rewrite <- !app_assoc. }
    rewrite IH, E. destruct h as [|kv' h]; [by rewrite app_nil_r|].
    change (joinAmp (encodeKV kv :: map encodeKV (kv' :: h)))
      with (encodeKV kv ++ "&"%byte :: joinAmp (map encodeKV (kv' :: h))).
    by rewrite <- !app_assoc.
Qed.

Lemma parsedArgs_join h :
  Forall printableKV h -> parsedArgs (joinAmp (map encodeKV h)) = h.
Proof.
  intros Hh. destruct (decide (h = [])) as [->|Hne]; [done|].
  unfold parsedArgs. rewrite splitOn_join.
  - rewrite map_map. induction Hh as [|kv h [Hn Hv] Hh IH]; [done|].
    cbn [map]. rewrite filter_cons, parsePair_encodeKV by done.
    rewrite decide_True by done. destruct (decide (h = [])) as [->|]; [done|]. by rewrite IH.
  - by destruct h.
  - apply Forall_map, Forall_true. intros kv. apply encodeKV_clean.
Qed.

(** ** Lookup, update and deletion *)

Lemma live_appendArg h k v nov :
  live (appendArg h k v nov) = live h ++ [ArgsKV k (if nov then [] else v) nov].
Proof.
  unfold appendArg. destruct (allocArg_spec h) as (kv & sp & ->). by rewrite storeKV_last.
Qed.

Lemma setArgLoop_spec h k v nov :
  setArgLoop h k v nov =
  match list_find (fun kv => k = key kv) h with
  | None => None
  | Some (i, kv) => Some (<[i := ArgsKV (key kv) (if nov then [] else v) nov]> h)
  end.
Proof.
  induction h as [|kv h IH]; simpl; [done|]. case_decide; [done|].
  rewrite IH. by destruct (list_find _ h) as [[i kv']|].
Qed.

Lemma peekArgStr_app h1 h2 k :
  peekArgStr (h1 ++ h2) k =
  match peekArgStr h1 k with Some v => Some v | None => peekArgStr h2 k end.
Proof. induction h1 as [|kv h1 IH]; simpl; [done|]. by case_decide. Qed.

Lemma peekArgStr_None h k : peekArgStr h k = None <-> k ∉ map key h.
Proof.
  induction h as [|kv h IH]; simpl.
  - split; [intros _; apply not_elem_of_nil|done].
  - rewrite not_elem_of_cons. case_decide; [naive_solver|]. rewrite IH. naive_solver.
Qed.

Lemma setArgLoop_None h k v nov : setArgLoop h k v nov = None -> peekArgStr h k = None.
Proof.
  induction h as [|kv h IH]; simpl; [done|]. case_decide as D; [done|].
  rewrite decide_False by congruence. intros E%fmap_None. auto.
Qed.

Lemma setArgLoop_peek h k v nov h' k' :
  setArgLoop h k v nov = Some h' ->
  peekArgStr h' k' = if decide (k' = k) then Some (if nov then [] else v) else peekArgStr h k'.
Proof.
  revert h'. induction h as [|kv h IH]; intros h'; cbn [setArgLoop peekArgStr]; [done|].
  destruct (decide (k = key kv)) as [Ek|Ek].
  - intros Eh. simplify_eq/=. repeat case_decide; naive_solver.
  - intros (h2 & Hh2 & Eh)%fmap_Some. simplify_eq/=. rewrite (IH h2 Hh2).
    repeat case_decide; naive_solver.
Qed.

Lemma delAllArgsLoop_live pre rest sp k :
  live (delAllArgsLoop pre rest sp k) = pre ++ filter (fun kv => key kv <> k) rest.
Proof.
  revert pre sp. induction rest as [|kv rest IH]; intros pre sp; simpl; [by rewrite app_nil_r|].
  rewrite filter_cons. case_decide; [rewrite decide_False by congruence; apply IH|].
  rewrite decide_True by congruence. rewrite IH. by rewrite <- app_assoc.
Qed.

Lemma delAllArgsLoop_perm pre rest sp k :
  let h := delAllArgsLoop pre rest sp k in live h ++ spare h ≡ₚ pre ++ rest ++ sp.
Proof.
  revert pre sp. induction rest as [|kv rest IH]; intros pre sp; simpl; [done|].
  case_decide; rewrite IH.
  - by rewrite <- Permutation_middle.
  - by rewrite <- app_assoc.
Qed.

Lemma live_delAllArgs h k : live (delAllArgs h k) = filter (fun kv => key kv <> k) (live h).
Proof. apply delAllArgsLoop_live. Qed.

Lemma hasArg_spec h k : hasArg h k = bool_decide (k ∈ map key h).
Proof.
  induction h as [|kv h IH]; simpl; [done|]. destruct (decide (k = key kv)).
  - subst. symmetry. apply bool_decide_eq_true_2. left.
  - rewrite IH. apply bool_decide_ext. rewrite elem_of_cons. naive_solver.
Qed.

Lemma live_setArg h k v nov :
  live (setArg h k v nov) =
  match setArgLoop (live h) k v nov with
  | Some l => l
  | None => live h ++ [ArgsKV k (if nov then [] else v) nov]
  end.
Proof. unfold setArg. destruct (setArgLoop _ _ _ _); [done|]. apply live_appendArg. Qed.

Lemma copyKV_id kv : (noValue kv = true -> value kv = []) -> copyKV kv = kv.
Proof. intros H. destruct kv as [k v [|]]; unfold copyKV; simpl in *; [by rewrite H|done]. Qed.

Create Rewrite HintDb golive.
#[export] Hint Rewrite live_appendArg live_delAllArgs live_setArg : golive.

(** * Properties *)

(** ParseBytes computes the reference list for every input and never
    panics: split at [&], cut each segment at its first [=], url-decode both
    halves, drop the segments with neither key nor value.  The object's
    previous contents and stale storage have no influence. *)
Lemma Args_ParseBytes_correct (a : Args) (b : bytes) :
  exists a', Args_ParseBytes a b = Some a' /\ live (args a') = parsedArgs b.
Proof. destruct (Args_ParseBytes_spec a b) as (sp & ->). eauto. Qed.

(** A query string written by AppendBytes is parsed back to the same
    list, by any Args object. *)
Lemma Args_parse_print (a a0 : Args) (H : Forall printableKV (live (args a))) :
  exists a', Args_ParseBytes a0 (Args_AppendBytes a []) = Some a' /\
             live (args a') = live (args a).
Proof.
  destruct (Args_ParseBytes_spec a0 (Args_AppendBytes a [])) as (sp & ->).
  eexists. split; [done|]. simpl. unfold Args_AppendBytes.
  rewrite appendArgsLoop_spec. by apply parsedArgs_join.
Qed.

Lemma Args_parse_print_witness :
  let a := MkArgs (Kvs [ArgsKV (bs "a b") (bs "1&2") false; ArgsKV (bs "flag") [] true] []) [] in
  Forall printableKV (live (args a)) /\
  exists a', Args_ParseBytes emptyArgs (Args_AppendBytes a []) = Some a' /\
             live (args a') = live (args a).
Proof.
  intros a. assert (Forall printableKV (live (args a))) as H.
  { repeat constructor; simpl; done || (left; done) || discriminate. }
  split; [exact H|]. apply (Args_parse_print a emptyArgs H).
Defined.

(** Url-decoding inverts url-encoding on every byte string. *)
Lemma AppendUnquotedArg_AppendQuotedArg (dst s : bytes) :
  AppendUnquotedArg dst (AppendQuotedArg [] s) = dst ++ s.
Proof.
  unfold AppendUnquotedArg. rewrite AppendQuotedArg_spec, decodeArgAppend_spec. simpl.
  pose proof (decodeArg_quotedArg s) as E. rewrite decodeArgAppend_spec in E. simpl in E. by rewrite E.
Qed.

(** setArg then peek: the key set reads back the new value, every other
    key is unchanged. *)
Lemma setArg_peek (h : kvs) (k v k' : bytes) (nov : bool) :
  peekArgStr (live (setArg h k v nov)) k' =
  if decide (k' = k) then Some (if nov then [] else v) else peekArgStr (live h) k'.
Proof.
  rewrite live_setArg. destruct (setArgLoop (live h) k v nov) as [h'|] eqn:E.
  - by apply setArgLoop_peek.
  - apply setArgLoop_None in E. rewrite peekArgStr_app. simpl.
    repeat case_decide; subst; rewrite ?E; try done. by destruct (peekArgStr (live h) k').
Qed.

(** delAllArgs removes exactly the elements with the given key, in order,
    and loses no element of the backing array: deleted ones are kept behind
    the end for reuse. *)
Lemma delAllArgs_correct (h : kvs) (k : bytes) :
  live (delAllArgs h k) = filter (fun kv => key kv <> k) (live h) /\
  hasArg (live (delAllArgs h k)) k = false /\
  live (delAllArgs h k) ++ spare (delAllArgs h k) ≡ₚ live h ++ spare h.
Proof.
  split_and!.
  - apply live_delAllArgs.
  - rewrite hasArg_spec, live_delAllArgs. apply bool_decide_eq_false_2.
    intros (kv & -> & E)%list_elem_of_fmap. apply list_elem_of_filter in E as [? _]. done.
  - apply (delAllArgsLoop_perm []).
Qed.

(** Reused storage never shows: on two slices with the same elements and
    any stale storage behind them, every operation gives the same elements. *)
Lemma stale_storage_unobservable (h1 h2 src : kvs) (k v : bytes) (nov : bool)
    (H : live h1 = live h2) :
  live (appendArg h1 k v nov) = live (appendArg h2 k v nov) /\
  live (setArg h1 k v nov) = live (setArg h2 k v nov) /\
  live (delAllArgs h1 k) = live (delAllArgs h2 k) /\
  live (copyArgs h1 src) = live (copyArgs h2 src).
Proof. autorewrite with golive. by rewrite H. Qed.

Lemma stale_storage_unobservable_witness :
  let h1 := Kvs [ArgsKV (bs "a") (bs "1") false] [] in
  let h2 := Kvs [ArgsKV (bs "a") (bs "1") false] [ArgsKV (bs "secret") (bs "x") true] in
  live h1 = live h2 /\
  (live (appendArg h1 (bs "k") (bs "v") false) = live (appendArg h2 (bs "k") (bs "v") false) /\
   live (setArg h1 (bs "k") (bs "v") false) = live (setArg h2 (bs "k") (bs "v") false) /\
   live (delAllArgs h1 (bs "k")) = live (delAllArgs h2 (bs "k")) /\
   live (copyArgs h1 h2) = live (copyArgs h2 h2)).
Proof.
  intros h1 h2. split; [reflexivity|].
  apply (stale_storage_unobservable h1 h2 h2 (bs "k") (bs "v") false). reflexivity.
Defined.
