(* ===== verification/Uri.v ===== *)
(** * uri.go: the URI type

    Parsing, path normalisation and rendering.  [normalizePath] is the only
    barrier between a request path and the file system (fs.go relies on it),
    so it is modelled loop by loop and related to a segment-level
    specification.  Paths are values here; PathStore has the arrays behind them and
    the one case in which that matters. *)
From Stdlib Require Import Strings.String.
From S2P Require Import Prelude BytesConv Consts Args.

(** ** Path normalisation *)

Definition addLeadingSlash (dst src : bytes) : bytes :=
  if decide (length src = O \/ src !! O <> Some "/"%byte) then dst ++ ["/"%byte] else dst.

(** The duplicate-slash loop: [pre] is what [b] has moved past. *)
Fixpoint dedupLoop (fuel : nat) (pre b : bytes) : bytes :=
  match fuel with
  | O => pre ++ b
  | S fuel' =>
      match Index b strSlashSlash with
      | None => pre ++ b
      | Some n => dedupLoop fuel' (pre ++ take n b) (drop 1 (drop n b))
      end
  end.

Fixpoint dotLoop (fuel : nat) (b : bytes) : bytes :=
  match fuel with
  | O => b
  | S fuel' =>
      match Index b strSlashDotSlash with
      | None => b
      | Some n =>
          let nn := (n + length strSlashDotSlash - 1)%nat in
          dotLoop fuel' (take n b ++ drop nn b)
      end
  end.

Fixpoint dotDotLoop (fuel : nat) (b : bytes) : bytes :=
  match fuel with
  | O => b
  | S fuel' =>
      match Index b strSlashDotDotSlash with
      | None => b
      | Some n =>
          let nn := default O (LastIndexByte (take n b) "/") in
          let n := (n + length strSlashDotDotSlash - 1)%nat in
          dotDotLoop fuel' (take nn b ++ drop n b)
      end
  end.

Definition trailingDotDot (b : bytes) : bytes :=
  match LastIndex b strSlashDotDot with
  | Some n =>
      if decide (n + length strSlashDotDot = length b)%nat then
        match LastIndexByte (take n b) "/" with
        | None => strSlash
        | Some nn => take (nn + 1) b
        end
      else b
  | None => b
  end.

(** normalizePath(dst, src): [dst] only donates its storage.  Every round of
    a loop shortens the buffer, so its length is enough fuel. *)
Definition normalizePath (src : bytes) : bytes :=
  let dst := addLeadingSlash [] src in
  let dst := decodeArgAppendNoPlus dst src in
  let dst := dedupLoop (length dst) [] dst in
  let b := dotLoop (length dst) dst in
  let b := dotDotLoop (length b) b in
  trailingDotDot b.

(** ** The URI object *)

Record URI := MkURI {
  u_pathOriginal : bytes;
  u_scheme : bytes;
  u_path : bytes;
  u_queryString : bytes;
  u_hash : bytes;
  u_host : bytes;
  u_queryArgs : Args;
  u_parsedQueryArgs : bool;
  u_DisablePathNormalizing : bool;
  u_fullURI : bytes;
  u_requestURI : bytes;
  u_username : bytes;
  u_password : bytes
}.

Definition set_u_pathOriginal (v : bytes) (u : URI) : URI :=
  MkURI v (u_scheme u) (u_path u) (u_queryString u) (u_hash u) (u_host u) (u_queryArgs u) (u_parsedQueryArgs u) (u_DisablePathNormalizing u) (u_fullURI u) (u_requestURI u) (u_username u) (u_password u).
Definition set_u_scheme (v : bytes) (u : URI) : URI :=
  MkURI (u_pathOriginal u) v (u_path u) (u_queryString u) (u_hash u) (u_host u) (u_queryArgs u) (u_parsedQueryArgs u) (u_DisablePathNormalizing u) (u_fullURI u) (u_requestURI u) (u_username u) (u_password u).
Definition set_u_path (v : bytes) (u : URI) : URI :=
  MkURI (u_pathOriginal u) (u_scheme u) v (u_queryString u) (u_hash u) (u_host u) (u_queryArgs u) (u_parsedQueryArgs u) (u_DisablePathNormalizing u) (u_fullURI u) (u_requestURI u) (u_username u) (u_password u).
Definition set_u_queryString (v : bytes) (u : URI) : URI :=
  MkURI (u_pathOriginal u) (u_scheme u) (u_path u) v (u_hash u) (u_host u) (u_queryArgs u) (u_parsedQueryArgs u) (u_DisablePathNormalizing u) (u_fullURI u) (u_requestURI u) (u_username u) (u_password u).
Definition set_u_hash (v : bytes) (u : URI) : URI :=
  MkURI (u_pathOriginal u) (u_scheme u) (u_path u) (u_queryString u) v (u_host u) (u_queryArgs u) (u_parsedQueryArgs u) (u_DisablePathNormalizing u) (u_fullURI u) (u_requestURI u) (u_username u) (u_password u).
Definition set_u_host (v : bytes) (u : URI) : URI :=
  MkURI (u_pathOriginal u) (u_scheme u) (u_path u) (u_queryString u) (u_hash u) v (u_queryArgs u) (u_parsedQueryArgs u) (u_DisablePathNormalizing u) (u_fullURI u) (u_requestURI u) (u_username u) (u_password u).
Definition set_u_queryArgs (v : Args) (u : URI) : URI :=
  MkURI (u_pathOriginal u) (u_scheme u) (u_path u) (u_queryString u) (u_hash u) (u_host u) v (u_parsedQueryArgs u) (u_DisablePathNormalizing u) (u_fullURI u) (u_requestURI u) (u_username u) (u_password u).
Definition set_u_parsedQueryArgs (v : bool) (u : URI) : URI :=
  MkURI (u_pathOriginal u) (u_scheme u) (u_path u) (u_queryString u) (u_hash u) (u_host u) (u_queryArgs u) v (u_DisablePathNormalizing u) (u_fullURI u) (u_requestURI u) (u_username u) (u_password u).
Definition set_u_DisablePathNormalizing (v : bool) (u : URI) : URI :=
  MkURI (u_pathOriginal u) (u_scheme u) (u_path u) (u_queryString u) (u_hash u) (u_host u) (u_queryArgs u) (u_parsedQueryArgs u) v (u_fullURI u) (u_requestURI u) (u_username u) (u_password u).
Definition set_u_fullURI (v : bytes) (u : URI) : URI :=
  MkURI (u_pathOriginal u) (u_scheme u) (u_path u) (u_queryString u) (u_hash u) (u_host u) (u_queryArgs u) (u_parsedQueryArgs u) (u_DisablePathNormalizing u) v (u_requestURI u) (u_username u) (u_password u).
Definition set_u_requestURI (v : bytes) (u : URI) : URI :=
  MkURI (u_pathOriginal u) (u_scheme u) (u_path u) (u_queryString u) (u_hash u) (u_host u) (u_queryArgs u) (u_parsedQueryArgs u) (u_DisablePathNormalizing u) (u_fullURI u) v (u_username u) (u_password u).
Definition set_u_username (v : bytes) (u : URI) : URI :=
  MkURI (u_pathOriginal u) (u_scheme u) (u_path u) (u_queryString u) (u_hash u) (u_host u) (u_queryArgs u) (u_parsedQueryArgs u) (u_DisablePathNormalizing u) (u_fullURI u) (u_requestURI u) v (u_password u).
Definition set_u_password (v : bytes) (u : URI) : URI :=
  MkURI (u_pathOriginal u) (u_scheme u) (u_path u) (u_queryString u) (u_hash u) (u_host u) (u_queryArgs u) (u_parsedQueryArgs u) (u_DisablePathNormalizing u) (u_fullURI u) (u_requestURI u) (u_username u) v.

Definition emptyURI : URI :=
  MkURI [] [] [] [] [] [] emptyArgs false false [] [] [] [].

(** Reset keeps [fullURI] and [requestURI], which are scratch buffers. *)
Definition URI_Reset (u : URI) : URI :=
  MkURI [] [] [] [] [] [] (Args_Reset (u_queryArgs u)) false false (u_fullURI u) (u_requestURI u) [] [].

Definition URI_CopyTo (u dst : URI) : URI :=
  let dst := URI_Reset dst in
  MkURI (u_pathOriginal u) (u_scheme u) (u_path u) (u_queryString u) (u_hash u) (u_host u)
    (Args_CopyTo (u_queryArgs u) (u_queryArgs dst)) (u_parsedQueryArgs u)
    (u_DisablePathNormalizing u) (u_fullURI dst) (u_requestURI dst) (u_username u) (u_password u).

Definition URI_SetHash (u : URI) (s : bytes) : URI := set_u_hash s u.
Definition URI_SetUsername (u : URI) (s : bytes) : URI := set_u_username s u.
Definition URI_SetPassword (u : URI) (s : bytes) : URI := set_u_password s u.

Definition URI_SetQueryString (u : URI) (s : bytes) : URI :=
  set_u_parsedQueryArgs false (set_u_queryString s u).

Definition URI_Path (u : URI) : bytes :=
  if decide (length (u_path u) = O) then strSlash else u_path u.

Definition URI_SetPath (u : URI) (p : bytes) : URI :=
  set_u_path (normalizePath p) (set_u_pathOriginal p u).

Definition URI_Scheme (u : URI) : bytes :=
  if decide (length (u_scheme u) = O) then strHTTP else u_scheme u.

Definition URI_SetScheme (u : URI) (s : bytes) : URI := set_u_scheme (lowercaseBytes s) u.

Definition URI_SetHost (u : URI) (s : bytes) : URI := set_u_host (lowercaseBytes s) u.

(** ** Parsing *)

Definition isCTL (b : byte) : bool := (bz b <? bz " "%byte) || bool_decide (b = x7f).

Definition stringContainsCTLByte (s : bytes) : bool := existsb isCTL s.

(** (scheme, host, uri). *)
Definition splitHostURI (host uri : bytes) : bytes * bytes * bytes :=
  match Index uri strSlashSlash with
  | None => (strHTTP, host, uri)
  | Some n =>
      let scheme := take n uri in
      match IndexByte scheme "/" with
      | Some _ => (strHTTP, host, uri)
      | None =>
          let scheme :=
            if decide (last scheme = Some ":"%byte) then take (length scheme - 1) scheme else scheme in
          let uri := drop (n + length strSlashSlash) uri in
          match IndexByte uri "/", IndexByte uri "?" with
          | None, Some nq => (scheme, take nq uri, drop nq uri)
          | None, None => (scheme, uri, strSlash)
          | Some n, Some nq =>
              let n := if Nat.ltb nq n then nq else n in
              (scheme, take n uri, drop n uri)
          | Some n, None => (scheme, take n uri, drop n uri)
          end
      end
  end.

(** [user:password] before the first [@] of the host. *)
Definition parseAuth (u : URI) (host : bytes) : URI * bytes :=
  match IndexByte host "@" with
  | None => (u, host)
  | Some n =>
      let auth := take n host in
      let host := drop (n + 1) host in
      match IndexByte auth ":" with
      | Some m => (set_u_password (drop (m + 1) auth) (set_u_username (take m auth) u), host)
      | None => (set_u_password [] (set_u_username auth u), host)
      end
  end.

(** The path, query and fragment of [b]. *)
Definition parsePathQueryHash (u : URI) (b : bytes) : URI :=
  let fragmentIndex := IndexByte b "#" in
  let queryIndex :=
    match IndexByte b "?", fragmentIndex with
    | Some q, Some f => if Nat.ltb f q then None else Some q
    | q, _ => q
    end in
  match queryIndex, fragmentIndex with
  | None, None => URI_SetPath u b
  | Some q, None => set_u_queryString (drop (q + 1) b) (URI_SetPath u (take q b))
  | Some q, Some f =>
      set_u_hash (drop (f + 1) b)
        (set_u_queryString (drop (q + 1) (take f b)) (URI_SetPath u (take q b)))
  | None, Some f => set_u_hash (drop (f + 1) b) (URI_SetPath u (take f b))
  end.

Definition URI_parse (u : URI) (host uri : bytes) (isTLS : bool) : URI * option error :=
  let u := URI_Reset u in
  if stringContainsCTLByte uri then (u, Some ErrorInvalidURI)
  else
    let '(u, host, uri) :=
      if bool_decide (length host = O) || Contains uri strColonSlashSlash then
        let '(scheme, newHost, newURI) := splitHostURI host uri in
        (set_u_scheme (lowercaseBytes scheme) u, newHost, newURI)
      else (u, host, uri) in
    let u := if isTLS then set_u_scheme strHTTPS u else u in
    let '(u, host) := parseAuth u host in
    let u := set_u_host (lowercaseBytes host) u in
    (parsePathQueryHash u uri, None).

Definition URI_Parse (u : URI) (host uri : bytes) : URI * option error := URI_parse u host uri false.

(** ** Rendering *)

(** The query part RequestURI appends. *)
Definition printedQuery (u : URI) : bytes :=
  if u_parsedQueryArgs u && Nat.ltb 0 (Args_Len (u_queryArgs u))
  then Args_AppendBytes (u_queryArgs u) ["?"%byte]
  else if Nat.ltb 0 (length (u_queryString u)) then "?"%byte :: u_queryString u
  else [].

Definition URI_RequestURI (u : URI) : URI * bytes :=
  let dst :=
    if u_DisablePathNormalizing u then u_pathOriginal u
    else appendQuotedPath [] (URI_Path u) in
  let dst := dst ++ printedQuery u in
  (set_u_requestURI dst u, dst).

Definition URI_LastPathSegment (u : URI) : bytes :=
  let path := URI_Path u in
  match LastIndexByte path "/" with
  | None => path
  | Some n => drop (n + 1) path
  end.

Definition URI_appendSchemeHost (u : URI) (dst : bytes) : bytes :=
  dst ++ URI_Scheme u ++ strColonSlashSlash ++ u_host u.

Definition URI_AppendBytes (u : URI) (dst : bytes) : URI * bytes :=
  let dst := URI_appendSchemeHost u dst in
  let '(u, r) := URI_RequestURI u in
  let dst := dst ++ r in
  (u, if Nat.ltb 0 (length (u_hash u)) then dst ++ "#"%byte :: u_hash u else dst).

Definition URI_FullURI (u : URI) : URI * bytes :=
  let '(u, b) := URI_AppendBytes u [] in (set_u_fullURI b u, b).

Definition URI_String (u : URI) : URI * bytes := URI_FullURI u.

(** ** Relative updates *)

(** The result is the new URI and the new [requestURI] buffer; a failed
    Parse returns the nil buffer.  The outer [None] is the explicit panic. *)
Definition URI_updateBytes (u : URI) (newURI buf : bytes) : option (URI * bytes) :=
  match newURI with
  | [] => Some (u, buf)
  | c :: newURI' =>
      match Index newURI strSlashSlash with
      | Some _ =>
          let schemeOriginal := u_scheme u in
          match URI_Parse u [] newURI with
          | (u, Some _) => Some (u, [])
          | (u, None) =>
              if decide (length schemeOriginal <> O /\ length (u_scheme u) = O)
              then Some (set_u_scheme schemeOriginal u, buf)
              else Some (u, buf)
          end
      | None =>
          if decide (c = "/"%byte) then
            let buf := URI_appendSchemeHost u [] ++ newURI in
            match URI_Parse u [] buf with
            | (u, Some _) => Some (u, [])
            | (u, None) => Some (u, buf)
            end
          else if decide (c = "?"%byte) then
            let '(u, b) := URI_FullURI (URI_SetQueryString u newURI') in Some (u, b)
          else if decide (c = "#"%byte) then
            let '(u, b) := URI_FullURI (URI_SetHash u newURI') in Some (u, b)
          else
            let path := URI_Path u in
            match LastIndexByte path "/" with
            | None => None
            | Some n =>
                let buf := URI_appendSchemeHost u [] in
                let buf := appendQuotedPath buf (take (n + 1) path) in
                let buf := buf ++ newURI in
                match URI_Parse u [] buf with
                | (u, Some _) => Some (u, [])
                | (u, None) => Some (u, buf)
                end
            end
      end
  end.

Definition URI_UpdateBytes (u : URI) (newURI : bytes) : option URI :=
  '(u, b) ← URI_updateBytes u newURI (u_requestURI u); Some (set_u_requestURI b u).

Definition URI_Update (u : URI) (newURI : bytes) : option URI := URI_UpdateBytes u newURI.

(** [None] would be a panic of ParseBytes; [URI_parseQueryArgs_spec] excludes it. *)
Definition URI_parseQueryArgs (u : URI) : option URI :=
  if u_parsedQueryArgs u then Some u
  else
    a ← Args_ParseBytes (u_queryArgs u) (u_queryString u);
    Some (set_u_parsedQueryArgs true (set_u_queryArgs a u)).

Definition URI_QueryArgs (u : URI) : option (URI * Args) :=
  u ← URI_parseQueryArgs u; Some (u, u_queryArgs u).

(** ** Segment-level specification of normalizePath

    A path is the list of its [/]-separated segments; [render] prints one. *)
Definition render (segs : list bytes) : bytes := concat (map (cons "/"%byte) segs).

Definition segments (p : bytes) : list bytes := splitOn "/" (tl p).

Definition noSlash (s : bytes) : Prop := "/"%byte ∉ s.

(** Drops the segments equal to [w], except in last position. *)
Fixpoint dropInner (w : bytes) (segs : list bytes) : list bytes :=
  match segs with
  | [] => []
  | [s] => [s]
  | s :: segs' => if decide (s = w) then dropInner w segs' else s :: dropInner w segs'
  end.

(** [..] in inner position pops the stack [stk] (kept reversed). *)
Fixpoint resolve (stk segs : list bytes) : list bytes :=
  match segs with
  | [] => rev stk
  | [s] => rev (s :: stk)
  | s :: segs' => if decide (s = bs "..") then resolve (tl stk) segs' else resolve (s :: stk) segs'
  end.

(** A final [..] removes its parent and leaves a trailing slash. *)
Definition finish (segs : list bytes) : list bytes :=
  if decide (last segs = Some (bs "..")) then removelast (removelast segs) ++ [[]] else segs.

Definition normSegs (segs : list bytes) : list bytes :=
  finish (resolve [] (dropInner (bs ".") (dropInner [] segs))).

(** ** Rendering and searching *)

Lemma render_cons s segs : render (s :: segs) = "/"%byte :: s ++ render segs.
Proof. done. Qed.

Lemma render_app a b : render (a ++ b) = render a ++ render b.
Proof. unfold render. by rewrite map_app, concat_app. Qed.

Lemma splitOn_nonnil c b : splitOn c b <> [].
Proof. destruct b as [|x b]; simpl; [done|]. case_decide; [done|]. by destruct (splitOn c b). Qed.

Lemma render_splitOn b : render (splitOn "/" b) = "/"%byte :: b.
Proof.
  induction b as [|x b IH]; [done|]. simpl. case_decide as E.
  - subst. by rewrite render_cons, IH.
  - destruct (splitOn "/" b) as [|s ss] eqn:Es; [by apply splitOn_nonnil in Es|].
    rewrite render_cons in IH |- *. injection IH as IH. cbn [app]. by rewrite IH.
Qed.

Lemma splitOn_noSlash b : Forall noSlash (splitOn "/" b).
Proof.
  unfold noSlash. induction b as [|x b IH]; simpl.
  - repeat constructor. apply not_elem_of_nil.
  - case_decide; [constructor; [apply not_elem_of_nil|done]|].
    destruct (splitOn "/" b) as [|s ss].
    + repeat constructor. rewrite list_elem_of_singleton. congruence.
    + inversion_clear IH. constructor; [|done]. rewrite not_elem_of_cons. split; [congruence|done].
Qed.

Lemma splitOn_render s segs :
  Forall noSlash (s :: segs) -> splitOn "/" (s ++ render segs) = s :: segs.
Proof.
  revert s. induction segs as [|s' segs IH]; intros s H.
  - rewrite app_nil_r. apply splitOn_none. by inversion H.
  - rewrite render_cons, splitOn_app by (by inversion H). by rewrite IH by (by inversion H).
Qed.

Lemma segments_render segs : segs <> [] -> Forall noSlash segs -> segments (render segs) = segs.
Proof. destruct segs as [|s segs]; [done|]. intros _ H. by apply splitOn_render. Qed.

Lemma render_segments p : head p = Some "/"%byte -> render (segments p) = p.
Proof. destruct p as [|c p]; [done|]. intros [= ->]. apply render_splitOn. Qed.

(** A slash-free stretch cannot start a match of a pattern that begins with
    a slash. *)
Lemma Index_skip s t pat :
  noSlash s -> Index (s ++ t) ("/"%byte :: pat) = Nat.add (length s) <$> Index t ("/"%byte :: pat).
Proof.
  unfold noSlash. induction s as [|x s IH]; intros N.
  - simpl. by destruct (Index t _).
  - apply not_elem_of_cons in N as [? ?]. cbn [app Index HasPrefix].
    rewrite decide_False by congruence. rewrite IH by done.
    by destruct (Index t ("/"%byte :: pat)).
Qed.

Lemma HasPrefix_seg s w segs :
  noSlash s -> noSlash w ->
  HasPrefix (s ++ render segs) (w ++ strSlash) = bool_decide (s = w /\ segs <> []).
Proof.
  unfold noSlash. revert w. induction s as [|x s IH]; intros [|y w] Hs Hw; cbn [app].
  - destruct segs as [|s' segs].
    + rewrite bool_decide_eq_false_2 by naive_solver. done.
    + rewrite bool_decide_eq_true_2 by done. apply HasPrefix_true. by exists (s' ++ render segs).
  - apply not_elem_of_cons in Hw as [? _]. rewrite bool_decide_eq_false_2 by naive_solver.
    destruct segs as [|s' segs]; simpl; [done|]. by rewrite decide_False.
  - apply not_elem_of_cons in Hs as [? _]. rewrite bool_decide_eq_false_2 by naive_solver.
    simpl. by rewrite decide_False by congruence.
  - apply not_elem_of_cons in Hs as [? Hs], Hw as [? Hw]. cbn [HasPrefix].
    case_decide as E.
    + rewrite IH by done. apply bool_decide_ext. naive_solver.
    + symmetry. apply bool_decide_eq_false_2. naive_solver.
Qed.

(** Where a pattern [/w/] first occurs in a rendered path. *)
Lemma Index_render w segs :
  noSlash w -> Forall noSlash segs ->
  (Index (render segs) ("/"%byte :: w ++ strSlash) = None /\ dropInner w segs = segs /\
   w ∉ removelast segs) \/
  (exists l r, segs = l ++ w :: r /\ (w ∉ l) /\ r <> [] /\
     Index (render segs) ("/"%byte :: w ++ strSlash) = Some (length (render l))).
Proof.
  intros Hw. induction 1 as [|s segs Hs Hsegs IH].
  - left. split_and!; [done|done|apply not_elem_of_nil].
  - rewrite render_cons. cbn [Index HasPrefix]. rewrite decide_True by done.
    rewrite HasPrefix_seg by done. case_bool_decide as D.
    + destruct D as [-> Hne]. right. exists [], segs. split_and!; [done|apply not_elem_of_nil|done|done].
    + rewrite Index_skip by done. destruct IH as [(-> & E & N)|(l & r & -> & N & Hr & ->)].
      * left. split_and!; [done| |].
        -- destruct segs as [|s' segs]; [done|]. cbn [dropInner]. rewrite decide_False by naive_solver.
           f_equal. exact E.
        -- destruct segs as [|s' segs]; [apply not_elem_of_nil|].
           change (removelast (s :: s' :: segs)) with (s :: removelast (s' :: segs)).
           rewrite not_elem_of_cons. naive_solver.
      * right. exists (s :: l), r. split_and!; [done| |done|].
        -- rewrite not_elem_of_cons. split; [|done]. intros ->. destruct D. split; [done|]. by destruct l.
        -- cbn [fmap option_fmap option_map]. rewrite render_cons. cbn [length]. by rewrite length_app.
Qed.

Lemma dropInner_found w l r :
  w ∉ l -> r <> [] -> dropInner w (l ++ w :: r) = l ++ dropInner w r.
Proof.
  intros N Hr. induction l as [|s l IH]; cbn [app].
  - destruct r; [done|]. cbn [dropInner]. by rewrite decide_True.
  - apply not_elem_of_cons in N as [? N].
    assert (dropInner w (s :: l ++ w :: r) = s :: dropInner w (l ++ w :: r)) as ->.
    { destruct (l ++ w :: r) eqn:E; [by destruct l|]. cbn [dropInner]. by rewrite decide_False. }
    by rewrite IH.
Qed.

Lemma dropInner_app w l r :
  w ∉ l -> r <> [] -> dropInner w (l ++ r) = l ++ dropInner w r.
Proof.
  intros N Hr. induction l as [|s l IH]; [done|]. apply not_elem_of_cons in N as [? N]. cbn [app].
  assert (dropInner w (s :: l ++ r) = s :: dropInner w (l ++ r)) as ->.
  { destruct (l ++ r) eqn:E; [by destruct l, r|]. cbn [dropInner]. by rewrite decide_False. }
  by rewrite IH.
Qed.

Lemma Forall_noSlash_mid l (w : bytes) r :
  Forall noSlash (l ++ w :: r) -> Forall noSlash l /\ Forall noSlash r.
Proof. rewrite Forall_app, Forall_cons. naive_solver. Qed.

(** ** Each loop against its segment-level counterpart *)

Lemma drop_add_app {A} (l1 l2 : list A) n : drop (length l1 + n) (l1 ++ l2) = drop n l2.
Proof. by rewrite drop_app_add. Qed.

Lemma noSlash_dots : noSlash [] /\ noSlash (bs ".") /\ noSlash (bs "..").
Proof. unfold noSlash. split_and!; apply (bool_decide_unpack _); vm_compute; exact I. Qed.

Lemma dedupLoop_spec fuel pre segs :
  (length segs <= fuel)%nat -> Forall noSlash segs ->
  dedupLoop fuel pre (render segs) = pre ++ render (dropInner [] segs).
Proof.
  revert pre segs. induction fuel as [|fuel IH]; intros pre segs L F; cbn [dedupLoop].
  { by destruct segs; [|simpl in L; lia]. }
  destruct (Index_render [] segs) as [(E & D & _)|(l & r & -> & N & Hr & E)];
    [apply noSlash_dots|done|..].
  - change strSlashSlash with ("/"%byte :: [] ++ strSlash). by rewrite E, D.
  - change strSlashSlash with ("/"%byte :: [] ++ strSlash). rewrite E.
    apply Forall_noSlash_mid in F as [Fl Fr].
    rewrite render_app, take_app_exact, drop_app_exact.
    change (drop 1 (render ([] :: r))) with (render r).
    rewrite IH, dropInner_found, render_app by (done || len_lia). by rewrite app_assoc.
Qed.

Lemma dotLoop_spec fuel segs :
  (length segs <= fuel)%nat -> Forall noSlash segs ->
  dotLoop fuel (render segs) = render (dropInner (bs ".") segs).
Proof.
  revert segs. induction fuel as [|fuel IH]; intros segs L F; cbn [dotLoop].
  { by destruct segs; [|simpl in L; lia]. }
  destruct (Index_render (bs ".") segs) as [(E & D & _)|(l & r & -> & N & Hr & E)];
    [apply noSlash_dots|done|..];
    change strSlashDotSlash with ("/"%byte :: bs "." ++ strSlash); rewrite E; [by rewrite D|].
  apply Forall_noSlash_mid in F as [Fl Fr].
  rewrite render_app, take_app_exact.
  replace (length (render l) + length ("/"%byte :: bs "." ++ strSlash) - 1)%nat
    with (length (render l) + 2)%nat by (simpl; lia).
  rewrite drop_add_app. change (drop 2 (render (bs "." :: r))) with (render r). rewrite <- render_app, IH.
  - by rewrite dropInner_found, dropInner_app.
  - len_lia.
  - by apply Forall_app.
Qed.

Lemma resolve_app stk l r :
  bs ".." ∉ l -> r <> [] -> resolve stk (l ++ r) = resolve (rev l ++ stk) r.
Proof.
  intros N Hr. revert stk. induction l as [|s l IH]; intros stk; [done|].
  apply not_elem_of_cons in N as [? N]. cbn [app].
  assert (resolve stk (s :: l ++ r) = resolve (s :: stk) (l ++ r)) as ->.
  { destruct (l ++ r) eqn:E; [by destruct l, r|]. cbn [resolve]. by rewrite decide_False. }
  rewrite IH by done. cbn [rev]. by rewrite <- app_assoc.
Qed.

Lemma resolve_id segs : bs ".." ∉ removelast segs -> resolve [] segs = segs.
Proof.
  destruct (decide (segs = [])) as [->|Hne]; [done|]. intros N.
  rewrite (app_removelast_last [] Hne) at 1. rewrite resolve_app by done.
  cbn [resolve]. rewrite app_nil_r. cbn [rev]. by rewrite rev_involutive, <- app_removelast_last.
Qed.

Lemma resolve_found l r :
  bs ".." ∉ l -> r <> [] -> resolve [] (l ++ bs ".." :: r) = resolve (tl (rev l)) r.
Proof.
  intros N Hr. rewrite resolve_app, app_nil_r by done.
  destruct r as [|s r]; [done|]. cbn [resolve]. by rewrite decide_True.
Qed.

Lemma dotDotLoop_spec fuel segs :
  (length segs <= fuel)%nat -> Forall noSlash segs ->
  dotDotLoop fuel (render segs) = render (resolve [] segs).
Proof.
  revert segs. induction fuel as [|fuel IH]; intros segs L F; cbn [dotDotLoop].
  { by destruct segs; [|simpl in L; lia]. }
  destruct (Index_render (bs "..") segs) as [(E & _ & N)|(l & r & -> & N & Hr & E)];
    [apply noSlash_dots|done|..];
    change strSlashDotDotSlash with ("/"%byte :: bs ".." ++ strSlash); rewrite E;
    [by rewrite resolve_id|].
  apply Forall_noSlash_mid in F as [Fl Fr].
  rewrite resolve_found by done. rewrite render_app, take_app_exact.
  replace (length (render l) + length ("/"%byte :: bs ".." ++ strSlash) - 1)%nat
    with (length (render l) + 3)%nat by (simpl; lia).
  rewrite drop_add_app. change (drop 3 (render (bs ".." :: r))) with (render r).
  destruct (exists_last_or_nil l) as [->|(l' & s & ->)].
  - cbn. rewrite IH by (done || len_lia). done.
  - rewrite render_app, render_cons, app_nil_r, <- app_assoc.
    apply Forall_app in Fl as [Fl Fs]. apply Forall_cons_1 in Fs as [Fs _].
    rewrite LastIndexByte_app by done. cbn [default from_option id].
    rewrite take_app_exact, <- render_app, IH.
    + rewrite rev_app_distr. cbn [rev app tl]. rewrite not_elem_of_app in N.
      rewrite resolve_app, app_nil_r by naive_solver. done.
    + len_lia.
    + by apply Forall_app.
Qed.

(** ** The trailing [/..] *)

Lemma LastIndex_after b l1 sub l2 :
  b = l1 ++ sub ++ l2 -> exists n, LastIndex b sub = Some n /\ (length l1 <= n)%nat.
Proof.
  revert l1. induction b as [|x b IH]; intros l1 E; cbn [LastIndex].
  - symmetry in E. apply app_eq_nil in E as [-> E]. apply app_eq_nil in E as [-> ->].
    exists O. done.
  - destruct l1 as [|y l1].
    + destruct (LastIndex b sub) as [n|]; [exists (S n); simpl; split; [done|lia]|].
      exists O. rewrite E. cbn [app]. by rewrite HasPrefix_app.
    + injection E as -> E. destruct (IH l1 E) as (n & -> & L).
      exists (S n). simpl. split; [done|lia].
Qed.

Lemma LastIndex_Some b sub n :
  LastIndex b sub = Some n -> exists l1 l2, b = l1 ++ sub ++ l2 /\ length l1 = n.
Proof.
  revert n. induction b as [|x b IH]; intros n; cbn [LastIndex].
  - destruct (HasPrefix [] sub) eqn:E; [|done]. intros [= <-].
    apply HasPrefix_true in E as [l E]. by exists [], l.
  - destruct (LastIndex b sub) as [m|] eqn:E.
    + intros [= <-]. destruct (IH m eq_refl) as (l1 & l2 & -> & <-). by exists (x :: l1), l2.
    + destruct (HasPrefix (x :: b) sub) eqn:P; [|done]. intros [= <-].
      apply HasPrefix_true in P as [l P]. by exists [], l.
Qed.

Lemma render_ends init s :
  noSlash s ->
  (exists l, render (init ++ [s]) = l ++ strSlashDotDot) -> s = bs "..".
Proof.
  intros Hs [l E]. rewrite render_app, render_cons, app_nil_r in E.
  pose proof (LastIndexByte_app (render init) s "/" Hs) as E1.
  assert ("/"%byte ∉ bs "..") as N by apply noSlash_dots.
  pose proof (LastIndexByte_app l (bs "..") "/" N) as E2.
  change strSlashDotDot with ("/"%byte :: bs "..") in E.
  rewrite E, E2 in E1. injection E1 as E1. apply app_inj_1 in E as [_ E]; [|done]. by injection E.
Qed.

Lemma trailingDotDot_spec segs :
  segs <> [] -> Forall noSlash segs -> trailingDotDot (render segs) = render (finish segs).
Proof.
  intros Hne F. destruct (exists_last_or_nil segs) as [->|(init & s & ->)]; [done|].
  apply Forall_app in F as [Fi Fs]. apply Forall_cons_1 in Fs as [Fs _].
  unfold trailingDotDot, finish. rewrite last_snoc. case_decide as D.
  - injection D as ->.
    assert (render (init ++ [bs ".."]) = render init ++ strSlashDotDot) as E.
    { by rewrite render_app. }
    destruct (LastIndex_after (render init ++ strSlashDotDot) (render init) strSlashDotDot [])
      as (n & En & L); [by rewrite app_nil_r|].
    destruct (LastIndex_Some _ _ _ En) as (l1 & l2 & E1 & E2).
    apply (f_equal length) in E1. rewrite !length_app in E1. simpl in E1.
    assert (n = length (render init)) as -> by lia.
    rewrite E, En, decide_True by (by rewrite length_app).
    rewrite take_app_exact, removelast_last.
    destruct (exists_last_or_nil init) as [->|(init' & s' & ->)]; [done|].
    apply Forall_app in Fi as [_ Fs']. apply Forall_cons_1 in Fs' as [Fs' _].
    rewrite removelast_last, !render_app, render_cons, app_nil_r, <- app_assoc.
    rewrite LastIndexByte_app by done. cbn [app].
    rewrite Nat.add_1_r, take_app_S. done.
  - destruct (LastIndex _ strSlashDotDot) as [n|] eqn:En; [|done].
    case_decide as Ln; [|done]. exfalso. apply D. f_equal.
    apply (render_ends init); [done|].
    apply LastIndex_Some in En as (l1 & l2 & E & <-). rewrite E in Ln.
    rewrite !length_app in Ln. assert (l2 = []) as -> by (apply length_zero_iff_nil; lia).
    rewrite app_nil_r in E. eauto.
Qed.

(** ** Invariants of the segment-level functions *)

Lemma dropInner_cons w s segs :
  segs <> [] ->
  dropInner w (s :: segs) = if decide (s = w) then dropInner w segs else s :: dropInner w segs.
Proof. by destruct segs. Qed.

Lemma resolve_cons stk s segs :
  segs <> [] ->
  resolve stk (s :: segs) =
  if decide (s = bs "..") then resolve (tl stk) segs else resolve (s :: stk) segs.
Proof. by destruct segs. Qed.

Lemma dropInner_incl w segs P : Forall P segs -> Forall P (dropInner w segs).
Proof.
  induction 1 as [|s segs Hs F IH]; [done|].
  destruct (decide (segs = [])) as [->|Hne]; [by constructor|].
  rewrite dropInner_cons by done. case_decide; [done|by constructor].
Qed.

Lemma dropInner_nonnil w segs : segs <> [] -> dropInner w segs <> [].
Proof.
  induction segs as [|s segs IH]; [done|]. intros _.
  destruct (decide (segs = [])) as [->|Hne]; [done|].
  rewrite dropInner_cons by done. case_decide; [by apply IH|done].
Qed.

Lemma resolve_incl P stk segs : Forall P stk -> Forall P segs -> Forall P (resolve stk segs).
Proof.
  intros Hs F. revert stk Hs. induction F as [|s segs Hsg F IH]; intros stk Hs.
  - by apply Forall_rev.
  - destruct (decide (segs = [])) as [->|Hne].
    + cbn [resolve]. apply Forall_rev. by constructor.
    + rewrite resolve_cons by done. case_decide; apply IH; [|by constructor].
      destruct stk; [done|]. by inversion Hs.
Qed.

Lemma resolve_nonnil stk segs : segs <> [] -> resolve stk segs <> [].
Proof.
  revert stk. induction segs as [|s segs IH]; [done|]. intros stk _.
  destruct (decide (segs = [])) as [->|Hne].
  - cbn [resolve rev]. by destruct (rev stk).
  - rewrite resolve_cons by done. case_decide; by apply IH.
Qed.

Lemma removelast_cons {A} (x : A) l : l <> [] -> removelast (x :: l) = x :: removelast l.
Proof. by destruct l. Qed.

Lemma dropInner_inner_incl w P segs :
  Forall P (removelast segs) -> Forall P (removelast (dropInner w segs)).
Proof.
  induction segs as [|s segs IH]; intros F; [done|].
  destruct (decide (segs = [])) as [->|Hne]; [done|].
  rewrite removelast_cons in F by done. apply Forall_cons_1 in F as [Hs F].
  rewrite dropInner_cons by done. case_decide; [by apply IH|].
  rewrite removelast_cons by (by apply dropInner_nonnil). constructor; [done|by apply IH].
Qed.

Lemma dropInner_inner w segs : w ∉ removelast (dropInner w segs).
Proof.
  induction segs as [|s segs IH]; [apply not_elem_of_nil|].
  destruct (decide (segs = [])) as [->|Hne]; [apply not_elem_of_nil|].
  rewrite dropInner_cons by done. case_decide; [done|].
  rewrite removelast_cons by (by apply dropInner_nonnil). rewrite not_elem_of_cons. naive_solver.
Qed.

Lemma dropInner_id w segs : w ∉ removelast segs -> dropInner w segs = segs.
Proof.
  induction segs as [|s segs IH]; intros N; [done|].
  destruct (decide (segs = [])) as [->|Hne]; [done|].
  rewrite removelast_cons, not_elem_of_cons in N by done.
  rewrite dropInner_cons, decide_False by naive_solver. by rewrite IH by naive_solver.
Qed.

Lemma resolve_inner_incl P stk segs :
  Forall P stk -> Forall P (removelast segs) -> segs <> [] ->
  Forall P (removelast (resolve stk segs)).
Proof.
  revert stk. induction segs as [|s segs IH]; intros stk Hs F Hn; [done|].
  destruct (decide (segs = [])) as [->|Hne].
  - cbn [resolve rev]. rewrite removelast_last. by apply Forall_rev.
  - rewrite removelast_cons in F by done. apply Forall_cons_1 in F as [H F].
    rewrite resolve_cons by done. case_decide; apply IH; try done; [|by constructor].
    destruct stk; [done|]. by inversion Hs.
Qed.

Lemma resolve_no_dotdot stk segs :
  Forall (fun s => s <> bs "..") stk -> Forall (fun s => s <> bs "..") (removelast (resolve stk segs)).
Proof.
  revert stk. induction segs as [|s segs IH]; intros stk Hs.
  - cbn [resolve]. destruct (exists_last_or_nil (rev stk)) as [E|(l & x & E)]; rewrite E; [done|].
    apply Forall_rev in Hs. rewrite E in Hs. rewrite removelast_last. by apply Forall_app in Hs as [? _].
  - destruct (decide (segs = [])) as [->|Hne].
    + cbn [resolve rev]. rewrite removelast_last. by apply Forall_rev.
    + rewrite resolve_cons by done. case_decide; apply IH; [|by constructor].
      destruct stk; [done|]. by inversion Hs.
Qed.

(** What normSegs guarantees. *)
Definition innerOK (s : bytes) : Prop := s <> [] /\ s <> bs "." /\ s <> bs "..".

Definition normalSegs (segs : list bytes) : Prop :=
  segs <> [] /\ (bs ".." ∉ segs) /\ Forall innerOK (removelast segs) /\ Forall noSlash segs.

Lemma Forall_neq (w : bytes) segs : Forall (fun s => s <> w) segs <-> w ∉ segs.
Proof.
  rewrite Forall_forall. split; [intros H E; by apply (H _ E)|intros H x E ->; done].
Qed.

Lemma finish_normal segs :
  segs <> [] -> Forall innerOK (removelast segs) -> Forall noSlash segs -> normalSegs (finish segs).
Proof.
  intros Hne Hi Hs. destruct (exists_last_or_nil segs) as [->|(l & x & ->)]; [done|].
  rewrite removelast_last in Hi. unfold finish. rewrite last_snoc, removelast_last.
  apply Forall_app in Hs as [Hs Hx].
  assert (bs ".." ∉ l) as N.
  { apply Forall_neq. eapply Forall_impl; [exact Hi|]. by intros s (_ & _ & ?). }
  case_decide as D.
  - unfold normalSegs. rewrite removelast_last.
    destruct (exists_last_or_nil l) as [->|(l' & y & ->)].
    + split_and!; [done| |done|repeat constructor; apply noSlash_dots].
      apply (bool_decide_unpack _). vm_compute. exact I.
    + rewrite removelast_last. apply Forall_app in Hi as [Hi _], Hs as [Hs _].
      rewrite not_elem_of_app in N.
      split_and!; [by destruct l'| |done|].
      * rewrite not_elem_of_app. split; [naive_solver|].
        apply (bool_decide_unpack _). vm_compute. exact I.
      * apply Forall_app. split; [done|]. repeat constructor. apply noSlash_dots.
  - unfold normalSegs. rewrite removelast_last. split_and!; [by destruct l| |done|by apply Forall_app].
    rewrite not_elem_of_app, list_elem_of_singleton. split; [done|]. congruence.
Qed.

Lemma normSegs_normal segs : segs <> [] -> Forall noSlash segs -> normalSegs (normSegs segs).
Proof.
  intros Hne Hs. unfold normSegs. apply finish_normal.
  - by apply resolve_nonnil, dropInner_nonnil, dropInner_nonnil.
  - assert (Forall (fun s => s <> [] /\ s <> bs ".")
              (removelast (resolve [] (dropInner (bs ".") (dropInner [] segs))))) as H1.
    { apply resolve_inner_incl; [done| |by apply dropInner_nonnil, dropInner_nonnil].
      apply Forall_and. split.
      - apply dropInner_inner_incl, Forall_neq, dropInner_inner.
      - apply Forall_neq, dropInner_inner. }
    pose proof (resolve_no_dotdot [] (dropInner (bs ".") (dropInner [] segs)) (List.Forall_nil _)) as H2.
    pose proof (conj H1 H2) as H. rewrite <- Forall_and in H.
    eapply Forall_impl; [exact H|]. unfold innerOK. naive_solver.
  - by apply resolve_incl, dropInner_incl, dropInner_incl.
Qed.

Lemma normSegs_id segs : normalSegs segs -> normSegs segs = segs.
Proof.
  intros (Hne & N & Hi & Hs). unfold normSegs.
  assert (forall w, ~ innerOK w -> w ∉ removelast segs) as H.
  { intros w Hw E. rewrite Forall_forall in Hi. by apply Hw, Hi. }
  rewrite (dropInner_id []), dropInner_id, resolve_id by (apply H; unfold innerOK; naive_solver).
  unfold finish. rewrite decide_False; [done|]. intros E.
  apply last_Some in E as [l ->]. apply N. rewrite elem_of_app. right. left.
Qed.

(** ** The whole function *)

Definition decodedPath (src : bytes) : bytes := decodeArgAppendNoPlus (addLeadingSlash [] src) src.

Lemma decodedPath_slash src : head (decodedPath src) = Some "/"%byte.
Proof.
  unfold decodedPath. rewrite decodeArgAppendNoPlus_spec. unfold addLeadingSlash.
  case_decide as D; [done|]. destruct src as [|c src]; simpl in D; [naive_solver|].
  assert (c = "/"%byte) as -> by (apply dec_stable; naive_solver).
  rewrite decodeLoop_plain by done. done.
Qed.

Lemma length_render segs : (length segs <= length (render segs))%nat.
Proof. induction segs; [done|]. rewrite render_cons. simpl. rewrite length_app. lia. Qed.

Lemma normalizePath_segments src :
  normalizePath src = render (normSegs (segments (decodedPath src))).
Proof.
  unfold normalizePath. change (decodeArgAppendNoPlus (addLeadingSlash [] src) src) with (decodedPath src).
  pose proof (render_segments _ (decodedPath_slash src)) as E.
  set (l := segments (decodedPath src)) in *.
  assert (l <> []) as Hne by apply splitOn_nonnil.
  assert (Forall noSlash l) as Hs by apply splitOn_noSlash.
  rewrite <- E. clearbody l. clear E.
  rewrite dedupLoop_spec by (done || apply length_render). cbn [app].
  rewrite dotLoop_spec by (apply length_render || by apply dropInner_incl).
  rewrite dotDotLoop_spec by (apply length_render || by apply dropInner_incl, dropInner_incl).
  rewrite trailingDotDot_spec; [done| |].
  - by apply resolve_nonnil, dropInner_nonnil, dropInner_nonnil.
  - by apply resolve_incl, dropInner_incl, dropInner_incl.
Qed.

Lemma normalizePath_normal src : normalSegs (segments (normalizePath src)).
Proof.
  rewrite normalizePath_segments.
  pose proof (normSegs_normal (segments (decodedPath src)) (splitOn_nonnil _ _) (splitOn_noSlash _)) as H.
  pose proof H as (Hne & _ & _ & Hs). by rewrite segments_render.
Qed.

Lemma normalizePath_render src : normalizePath src = render (segments (normalizePath src)).
Proof.
  rewrite normalizePath_segments.
  pose proof (normSegs_normal (segments (decodedPath src)) (splitOn_nonnil _ _) (splitOn_noSlash _))
    as (Hne & _ & _ & Hs). by rewrite segments_render.
Qed.

Lemma normalizePath_head src : head (normalizePath src) = Some "/"%byte.
Proof.
  rewrite normalizePath_render. pose proof (normalizePath_normal src) as (Hne & _).
  by destruct (segments (normalizePath src)).
Qed.

(** ** Quoting a path *)

Definition quotePathByte (c : byte) : bytes :=
  if decide (tbl quotedPathShouldEscapeTable c <> x00) then quoteByte c else [c].

Definition quotedPath (p : bytes) : bytes := concat (map quotePathByte p).

Lemma appendQuotedPath_spec dst p :
  p <> ["*"%byte] -> appendQuotedPath dst p = dst ++ quotedPath p.
Proof.
  intros Hp. unfold appendQuotedPath. rewrite decide_False.
  2:{ intros [L E]. destruct p as [|c [|]]; simplify_eq/=. }
  clear Hp. revert dst. unfold quotedPath.
  induction p as [|c p IH]; intros dst; simpl; [by rewrite app_nil_r|].
  rewrite IH. unfold quotePathByte. case_decide; by rewrite <- app_assoc.
Qed.

Lemma unescaped_path_byte c :
  tbl quotedPathShouldEscapeTable c = x00 -> c <> "%"%byte.
Proof. all_bytes_tac c. Qed.

Lemma decodeLoop_quotedPath p s : decodeLoop false (quotedPath p ++ s) = p ++ decodeLoop false s.
Proof.
  unfold quotedPath. induction p as [|c p IH]; [done|]. cbn [map concat].
  rewrite <- app_assoc. unfold quotePathByte at 1. case_decide as D.
  - by rewrite decodeLoop_quote, IH.
  - apply unescaped_path_byte in D. cbn [app]. rewrite decodeLoop_plain by done. simpl. by rewrite IH.
Qed.

(** The bytes a quoted path can hold. *)
Definition pathByte (c : byte) : bool :=
  negb (isCTL c) && bool_decide (c <> "?"%byte) && bool_decide (c <> "#"%byte).

Lemma quotedPath_clean p : Forall (fun c => pathByte c = true) (quotedPath p).
Proof.
  unfold quotedPath. induction p as [|c p IH]; [constructor|]. cbn [map concat].
  apply Forall_app. split; [|done].
  assert (H : forallb pathByte (quotePathByte c) = true) by all_bytes_tac c.
  apply Forall_forall. intros d Hd. rewrite forallb_forall in H.
  by apply H, list_elem_of_In.
Qed.

Lemma normalizePath_quotedPath src :
  normalizePath (quotedPath (normalizePath src)) = normalizePath src.
Proof.
  rewrite (normalizePath_segments (quotedPath _)).
  assert (decodedPath (quotedPath (normalizePath src)) = normalizePath src) as ->.
  { unfold decodedPath. rewrite decodeArgAppendNoPlus_spec.
    pose proof (decodeLoop_quotedPath (normalizePath src) []) as E. simpl in E.
    rewrite !app_nil_r in E. rewrite E. unfold addLeadingSlash.
    pose proof (normalizePath_head src) as Hh. destruct (normalizePath src) as [|c p]; [done|].
    injection Hh as ->. rewrite decide_False; [done|].
    intros [H|H]; [done|]. by apply H. }
  rewrite normSegs_id by apply normalizePath_normal. symmetry. apply normalizePath_render.
Qed.

(** ** Parsing a rendered URI *)

Lemma stringContainsCTLByte_false s :
  stringContainsCTLByte s = false <-> Forall (fun c => isCTL c = false) s.
Proof.
  unfold stringContainsCTLByte. induction s as [|c s IH]; simpl; [by split|].
  rewrite orb_false_iff, IH, Forall_cons. done.
Qed.

(** [scheme://rest]: the first [//] is the one after the scheme. *)
Lemma Index_scheme s rest :
  "/"%byte ∉ s -> Index (s ++ strColonSlashSlash ++ rest) strSlashSlash = Some (S (length s)).
Proof.
  intros N. rewrite app_assoc. change strColonSlashSlash with ([":"%byte] ++ strSlashSlash).
  rewrite app_assoc, <- app_assoc. change strSlashSlash with ("/"%byte :: strSlash) at 2.
  assert (noSlash (s ++ [":"%byte])) as Hs.
  { unfold noSlash. rewrite not_elem_of_app, list_elem_of_singleton. naive_solver. }
  rewrite Index_skip by done. change ("/"%byte :: strSlash) with strSlashSlash.
  assert (Index (strSlashSlash ++ rest) strSlashSlash = Some O) as ->.
  { pose proof (HasPrefix_app strSlashSlash rest) as P.
    cbn [app strSlashSlash Index] in P |- *. by rewrite P. }
  simpl. rewrite length_app. simpl. f_equal. lia.
Qed.

Lemma splitHostURI_full s h p :
  "/"%byte ∉ s -> "/"%byte ∉ h -> "?"%byte ∉ h -> head p = Some "/"%byte ->
  splitHostURI [] (s ++ strColonSlashSlash ++ h ++ p) = (s, h, p).
Proof.
  intros Ns Nh Nq Hp. unfold splitHostURI. rewrite Index_scheme by done.
  assert (take (S (length s)) (s ++ strColonSlashSlash ++ h ++ p) = s ++ [":"%byte]) as ->.
  { change (strColonSlashSlash ++ h ++ p) with (":"%byte :: (strSlashSlash ++ h ++ p)).
    by rewrite take_app_S. }
  assert (IndexByte (s ++ [":"%byte]) "/" = None) as ->.
  { apply IndexByte_None. rewrite not_elem_of_app, list_elem_of_singleton. naive_solver. }
  rewrite last_snoc, decide_True by done. rewrite length_app. cbn [length].
  replace (length s + 1 - 1)%nat with (length s) by lia. rewrite take_app_exact.
  assert (drop (S (length s) + length strSlashSlash) (s ++ strColonSlashSlash ++ h ++ p) = h ++ p) as ->.
  { replace (S (length s) + length strSlashSlash)%nat with (length s + 3)%nat by (simpl; lia).
    by rewrite drop_add_app. }
  destruct p as [|c p]; [done|]. injection Hp as ->.
  rewrite IndexByte_app by done. rewrite IndexByte_app_l by done.
  rewrite take_app_exact, drop_app_exact.
  destruct (IndexByte ("/"%byte :: p) "?") as [n|]; simpl; [|done].
  destruct (Nat.ltb_spec (length h + n) (length h)); [lia|].
  by rewrite take_app_exact, drop_app_exact.
Qed.

Lemma parsePathQueryHash_full u p q h :
  "?"%byte ∉ p -> "#"%byte ∉ p -> "#"%byte ∉ q -> u_queryString u = [] -> u_hash u = [] ->
  parsePathQueryHash u
    (p ++ (if decide (q = []) then [] else "?"%byte :: q) ++
     (if decide (h = []) then [] else "#"%byte :: h)) =
  set_u_hash h (set_u_queryString q (URI_SetPath u p)).
Proof.
  intros Np1 Np2 Nq Eq Eh.
  assert (forall v, set_u_hash [] (set_u_queryString q (URI_SetPath u v)) =
                    set_u_queryString q (URI_SetPath u v)) as Hh.
  { intros v. destruct u; simpl in *. by subst. }
  assert (forall v, set_u_queryString [] (URI_SetPath u v) = URI_SetPath u v) as Hq.
  { intros v. destruct u; simpl in *. by subst. }
  unfold parsePathQueryHash. case_decide as D1; case_decide as D2; subst; cbn [app].
  - rewrite app_nil_r. rewrite (proj2 (IndexByte_None p "?") Np1), (proj2 (IndexByte_None p "#") Np2).
    by rewrite Hh, Hq.
  - rewrite IndexByte_app by done.
    replace (match IndexByte (p ++ "#"%byte :: h) "?" with
             | Some q0 => if Nat.ltb (length p) q0 then None else Some q0 | None => None end)
      with (@None nat).
    2:{ rewrite IndexByte_app_l by done. cbn [IndexByte]. rewrite decide_False by done.
        destruct (IndexByte h "?"); simpl; [|done].
        destruct (Nat.ltb_spec (length p) (length p + S n)); [done|lia]. }
    by rewrite Nat.add_1_r, drop_app_S, take_app_exact, Hq.
  - rewrite app_nil_r, IndexByte_app by done. rewrite IndexByte_app_l by done.
    cbn [IndexByte]. rewrite decide_False by done. rewrite (proj2 (IndexByte_None q "#") Nq). simpl.
    by rewrite Nat.add_1_r, drop_app_S, take_app_exact, Hh.
  - assert (IndexByte (p ++ "?"%byte :: q ++ "#"%byte :: h) "#" = Some (length (p ++ "?"%byte :: q))) as ->.
    { change (p ++ "?"%byte :: q ++ "#"%byte :: h) with (p ++ ("?"%byte :: q) ++ "#"%byte :: h).
      rewrite app_assoc. apply IndexByte_app. rewrite not_elem_of_app, not_elem_of_cons. done. }
    rewrite IndexByte_app by done.
    destruct (Nat.ltb_spec (length (p ++ "?"%byte :: q)) (length p)); [len_lia|].
    rewrite take_app_exact. f_equal; [|f_equal].
    + change (p ++ "?"%byte :: q ++ "#"%byte :: h) with (p ++ ("?"%byte :: q) ++ "#"%byte :: h).
      by rewrite app_assoc, Nat.add_1_r, drop_app_S.
    + change (p ++ "?"%byte :: q ++ "#"%byte :: h) with (p ++ ("?"%byte :: q) ++ "#"%byte :: h).
      by rewrite app_assoc, take_app_exact, Nat.add_1_r, drop_app_S.
Qed.

(** The URIs a program can print and read back: a lower-case scheme and host
    without delimiters, a normalised path, and no control bytes. *)
Record printableURI (u : URI) : Prop := {
  pu_scheme : lowercaseBytes (URI_Scheme u) = URI_Scheme u /\ "/"%byte ∉ URI_Scheme u;
  pu_host : lowercaseBytes (u_host u) = u_host u;
  pu_host_sep : Forall (fun c => c <> "/"%byte /\ c <> "?"%byte /\ c <> "@"%byte) (u_host u);
  pu_path : exists src, URI_Path u = normalizePath src;
  pu_norm : u_DisablePathNormalizing u = false;
  pu_query : ("#"%byte ∉ printedQuery u) /\ printedQuery u <> ["?"%byte];
  pu_ctl : Forall (fun c => isCTL c = false)
             (URI_Scheme u ++ u_host u ++ printedQuery u ++ u_hash u);
}.

Lemma printedQuery_shape u :
  printedQuery u = (if decide (tl (printedQuery u) = []) then [] else "?"%byte :: tl (printedQuery u)) \/
  printedQuery u = ["?"%byte].
Proof.
  assert (printedQuery u = [] \/ exists q, printedQuery u = "?"%byte :: q) as [E|[q E]].
  { unfold printedQuery. destruct (_ && _).
    - right. unfold Args_AppendBytes. rewrite appendArgsLoop_spec. eauto.
    - destruct (Nat.ltb _ _); eauto. }
  - left. by rewrite E.
  - destruct q as [|c q]; [by right|]. left. by rewrite E.
Qed.

Lemma FullURI_shape u :
  printableURI u ->
  snd (URI_FullURI u) =
  URI_Scheme u ++ strColonSlashSlash ++ u_host u ++ quotedPath (URI_Path u) ++ printedQuery u ++
  (if decide (u_hash u = []) then [] else "#"%byte :: u_hash u).
Proof.
  intros H. unfold URI_FullURI, URI_AppendBytes, URI_RequestURI, URI_appendSchemeHost.
  rewrite (pu_norm _ H). cbn [fst snd app]. destruct (pu_path _ H) as [src E].
  rewrite appendQuotedPath_spec.
  2:{ rewrite E. pose proof (normalizePath_head src) as Hh. intros E'. by rewrite E' in Hh. }
  cbn [app]. destruct (u_hash u) as [|c h] eqn:Eh.
  - change (u_hash (set_u_requestURI _ u)) with (u_hash u). rewrite Eh. cbn [length Nat.ltb Nat.leb].
    rewrite decide_True by done. by rewrite app_nil_r, <- !app_assoc.
  - change (u_hash (set_u_requestURI _ u)) with (u_hash u). rewrite Eh. cbn [length Nat.ltb Nat.leb].
    rewrite decide_False by done. by rewrite <- !app_assoc.
Qed.

Lemma URI_parseQueryArgs_spec u :
  u_parsedQueryArgs u = false ->
  exists a, URI_parseQueryArgs u = Some (set_u_parsedQueryArgs true (set_u_queryArgs a u)) /\
    live (args a) = parsedArgs (u_queryString u).
Proof.
  intros E. unfold URI_parseQueryArgs. rewrite E.
  destruct (Args_ParseBytes_spec (u_queryArgs u) (u_queryString u)) as (sp & ->). simpl. eauto.
Qed.

Lemma URI_Path_slash u :
  u_path u = [] \/ (exists p, u_path u = normalizePath p) -> "/"%byte ∈ URI_Path u.
Proof.
  unfold URI_Path. intros [->|[p ->]].
  - rewrite decide_True by done. apply list_elem_of_here.
  - pose proof (normalizePath_head p) as E. destruct (normalizePath p) as [|c r]; [done|].
    injection E as ->. rewrite decide_False by done. apply list_elem_of_here.
Qed.

(** The states a URI object can reach: its path is empty (fresh or Reset) or
    was produced by normalizePath. *)
Definition URI_wf (u : URI) : Prop := u_path u = [] \/ exists p, u_path u = normalizePath p.

Lemma URI_wf_SetPath u p : URI_wf (URI_SetPath u p).
Proof. right. by exists p. Qed.

Lemma parsePathQueryHash_wf u b : URI_wf (parsePathQueryHash u b).
Proof.
  unfold parsePathQueryHash.
  destruct (match IndexByte b "?" with Some _ => _ | None => _ end), (IndexByte b "#");
    right; eexists; reflexivity.
Qed.

Lemma URI_parse_wf u host uri tls : URI_wf (fst (URI_parse u host uri tls)).
Proof.
  unfold URI_parse. destruct (stringContainsCTLByte uri); [by left|].
  destruct (if _ || _ then _ else _) as [[v h] w]. destruct (parseAuth _ h) as [v' h'].
  apply parsePathQueryHash_wf.
Qed.

Lemma URI_Parse_pair u host uri v e : URI_Parse u host uri = (v, e) -> URI_wf v.
Proof. intros E. pose proof (URI_parse_wf u host uri false) as H. unfold URI_Parse in E. by rewrite E in H. Qed.

(** * Properties *)

(** C34. normalizePath is the segment algorithm: decode, drop empty and [.]
    inner segments, resolve inner [..] with a stack that cannot underflow
    past the root, then replace a trailing [..] by its parent directory. *)
Theorem normalizePath_refines (src : bytes) :
  normalizePath src = render (normSegs (segments (decodedPath src))).
Proof. apply normalizePath_segments. Qed.

(** C35. No request path escapes the root: whatever bytes and percent-escapes
    the client sends, the normalised path starts with a slash, has no [..]
    segment anywhere, no empty or [.] segment except the last, and so does
    not contain [/../] or [//]. *)
Theorem normalizePath_safe (src : bytes) :
  head (normalizePath src) = Some "/"%byte /\
  (bs ".." ∉ segments (normalizePath src)) /\
  Forall (fun s => s <> [] /\ s <> bs "." /\ s <> bs "..") (removelast (segments (normalizePath src))) /\
  Index (normalizePath src) strSlashDotDotSlash = None /\
  Index (normalizePath src) strSlashSlash = None.
Proof.
  pose proof (normalizePath_normal src) as (Hne & N & Hi & Hs).
  split_and!; [apply normalizePath_head|done|exact Hi|..]; rewrite normalizePath_render.
  - destruct (Index_render (bs "..") _ (proj2 (proj2 noSlash_dots)) Hs) as [(E & _)|(l & r & E & _)];
      [exact E|]. destruct N. rewrite E. apply elem_of_app. right. left.
  - destruct (Index_render [] _ (proj1 noSlash_dots) Hs) as [(E & _)|(l & r & E & _ & Hr & _)];
      [exact E|]. exfalso. rewrite E in Hi. rewrite removelast_app in Hi by done.
    apply Forall_app in Hi as [_ Hi]. rewrite removelast_cons in Hi by done.
    apply Forall_cons_1 in Hi as [[? _] _]. done.
Qed.

(** Re-encoding a normalised path and normalising again changes nothing:
    what RequestURI sends is what the peer's Path returns. *)
Lemma normalizePath_appendQuotedPath (src : bytes) :
  normalizePath (appendQuotedPath [] (normalizePath src)) = normalizePath src.
Proof.
  rewrite appendQuotedPath_spec; [apply normalizePath_quotedPath|].
  pose proof (normalizePath_head src) as Hh. intros E. by rewrite E in Hh.
Qed.

(** C36. FullURI and Parse are inverse: a printable URI is read back with the
    same scheme, host, path, query and fragment, by any URI object. *)
Theorem URI_Parse_FullURI (u u0 : URI) (H : printableURI u) :
  exists u', URI_Parse u0 [] (snd (URI_FullURI u)) = (u', None) /\
    u_scheme u' = URI_Scheme u /\ u_host u' = u_host u /\ u_path u' = URI_Path u /\
    u_queryString u' = tl (printedQuery u) /\ u_hash u' = u_hash u.
Proof.
  rewrite FullURI_shape by done. destruct H as [[Hs Ns] Hh Hsep [src Ep] Hn Hq Hctl].
  rewrite !Forall_app in Hctl. destruct Hctl as (C1 & C2 & C3 & C4).
  pose proof (quotedPath_clean (URI_Path u)) as Hpath.
  unfold URI_Parse, URI_parse.
  set (full := URI_Scheme u ++ strColonSlashSlash ++ u_host u ++ _).
  assert (stringContainsCTLByte full = false) as ->.
  { apply stringContainsCTLByte_false. subst full. rewrite !Forall_app. split_and!; try done.
    - repeat constructor.
    - eapply Forall_impl; [exact Hpath|]. intros c. unfold pathByte. by destruct (isCTL c).
    - case_decide; [constructor|]. by constructor. }
  cbn [length]. rewrite bool_decide_eq_true_2 by done. cbn [orb]. subst full.
  assert (head (quotedPath (URI_Path u)) = Some "/"%byte) as Hqh.
  { rewrite Ep. pose proof (normalizePath_head src) as E. by destruct (normalizePath src); simplify_eq/=. }
  destruct (quotedPath (URI_Path u)) as [|c qp] eqn:Eqp; [done|]. injection Hqh as ->.
  rewrite splitHostURI_full.
  2: done.
  2,3: intros E; rewrite Forall_forall in Hsep; apply Hsep in E; naive_solver.
  2: done.
  unfold parseAuth. rewrite (proj2 (IndexByte_None (u_host u) "@")).
  2:{ intros E. rewrite Forall_forall in Hsep. apply Hsep in E. naive_solver. }
  rewrite Hs, Hh.
  assert (("?"%byte ∉ "/"%byte :: qp) /\ ("#"%byte ∉ "/"%byte :: qp)) as [N1 N2].
  { rewrite Forall_forall in Hpath. split; intros E; by apply Hpath in E. }
  set (v := set_u_host _ _). eexists. split; [reflexivity|].
  assert (forall q h, u_scheme (set_u_hash h (set_u_queryString q (URI_SetPath v ("/"%byte :: qp)))) = URI_Scheme u
     /\ u_host (set_u_hash h (set_u_queryString q (URI_SetPath v ("/"%byte :: qp)))) = u_host u
     /\ u_path (set_u_hash h (set_u_queryString q (URI_SetPath v ("/"%byte :: qp)))) = URI_Path u) as F.
  { intros q h. split_and!; [done|done|]. simpl. rewrite <- Eqp, Ep. apply normalizePath_quotedPath. }
  destruct (printedQuery_shape u) as [E|E]; [|by destruct Hq].
  set (q := tl (printedQuery u)) in *. rewrite E.
  assert ("#"%byte ∉ q) as Nq.
  { destruct Hq as [Hq _]. rewrite E in Hq. case_decide as D; [rewrite D; apply not_elem_of_nil|].
    by apply not_elem_of_cons in Hq as [_ ?]. }
  rewrite parsePathQueryHash_full by done.
  destruct (F q (u_hash u)) as (-> & -> & ->). done.
Qed.

Lemma URI_Parse_FullURI_witness :
  let u := fst (URI_Parse emptyURI [] (bs "http://foo.com/a/../b%20c?x=1#top")) in
  printableURI u /\
  exists u', URI_Parse emptyURI [] (snd (URI_FullURI u)) = (u', None) /\
    u_scheme u' = URI_Scheme u /\ u_host u' = u_host u /\ u_path u' = URI_Path u /\
    u_queryString u' = tl (printedQuery u) /\ u_hash u' = u_hash u.
Proof.
  assert (printableURI (fst (URI_Parse emptyURI [] (bs "http://foo.com/a/../b%20c?x=1#top")))) as H.
  { split; try (vm_compute; reflexivity).
    - split; [vm_compute; reflexivity|]. apply IndexByte_None. vm_compute. reflexivity.
    - vm_compute. repeat constructor; done.
    - exists (bs "/b c"). vm_compute. done.
    - split; [|vm_compute; done]. apply IndexByte_None. vm_compute. reflexivity.
    - vm_compute. repeat constructor. }
  split; [exact H|]. apply (URI_Parse_FullURI _ emptyURI H).
Defined.

(** Update never reaches its panic: from any URI the object can hold, a
    relative, host-less or absolute update returns, and the new URI is again
    one the object can hold. *)
Lemma URI_Update_total (u : URI) (newURI : bytes) (H : URI_wf u) :
  exists u', URI_Update u newURI = Some u' /\ URI_wf u'.
Proof.
  assert (exists u' b, URI_updateBytes u newURI (u_requestURI u) = Some (u', b) /\ URI_wf u')
    as (u' & b & E & W).
  2:{ exists (set_u_requestURI b u'). unfold URI_Update, URI_UpdateBytes. rewrite E. split; [done|].
      destruct W as [W|[p W]]; [left|right; exists p]; exact W. }
  unfold URI_updateBytes. destruct newURI as [|c r]; [eauto|].
  destruct (Index (c :: r) strSlashSlash) as [n|].
  { destruct (URI_Parse u [] (c :: r)) as [v err] eqn:E. apply URI_Parse_pair in E as Wf.
    destruct err; [eauto|]. case_decide; [|eauto]. do 2 eexists. split; [done|].
    destruct Wf as [W|[p W]]; [left|right; exists p]; exact W. }
  destruct (decide (c = "/"%byte)); [|destruct (decide (c = "?"%byte)); [|destruct (decide (c = "#"%byte))]].
  - destruct (URI_Parse u [] _) as [v err] eqn:E. apply URI_Parse_pair in E as Wf. destruct err; eauto.
  - do 2 eexists. split; [done|]. destruct H as [W|[p W]]; [left|right; exists p]; exact W.
  - do 2 eexists. split; [done|]. destruct H as [W|[p W]]; [left|right; exists p]; exact W.
  - destruct (LastIndexByte (URI_Path u) "/") as [k|] eqn:En.
    + destruct (URI_Parse u [] _) as [v err] eqn:E. apply URI_Parse_pair in E as Wf. destruct err; eauto.
    + apply LastIndexByte_None in En. destruct En. by apply URI_Path_slash.
Qed.

Lemma URI_Update_total_witness :
  URI_wf emptyURI /\ exists u', URI_Update emptyURI (bs "../x?y") = Some u' /\ URI_wf u'.
Proof. split; [by left|]. apply (URI_Update_total emptyURI (bs "../x?y")). by left. Defined.

(** A host-less update whose query or path holds [//] is taken for an
    absolute URI: [Update "/login?next=//a"] on [http://foo.com/] forgets the
    host, although the comment says only the RequestURI part is replaced. *)
Lemma URI_Update_loses_host :
  exists u u', URI_Parse emptyURI [] (bs "http://foo.com/") = (u, None) /\
    u_host u = bs "foo.com" /\
    URI_Update u (bs "/login?next=//a") = Some u' /\
    u_host u' = [] /\ snd (URI_FullURI u') = bs "http:///login?next=//a".
Proof. do 2 eexists. split_and!; vm_compute; reflexivity. Qed.

(** QueryArgs parses the query string once: the first call after Parse
    or SetQueryString never panics and yields the reference list of that query
    string, and a second call returns the same list without parsing. *)
Lemma URI_QueryArgs_lazy (u : URI) (qs : bytes) :
  exists u1 a, URI_QueryArgs (URI_SetQueryString u qs) = Some (u1, a) /\
    live (args a) = parsedArgs qs /\ URI_QueryArgs u1 = Some (u1, a).
Proof.
  unfold URI_QueryArgs.
  destruct (URI_parseQueryArgs_spec (URI_SetQueryString u qs) eq_refl) as (a & -> & E).
  do 2 eexists. split; [done|]. split; [exact E|]. done.
Qed.
