(* ===== verification/Cookie.v ===== *)
(** * cookie.go: the Cookie type and the cookie scanner

    A response cookie is a record of attributes printed by AppendBytes and
    read back by ParseBytes; request cookies are a key/value slice (Args.v)
    filled by parseRequestCookies.  Both parsers use cookieScanner. *)
From Stdlib Require Import Strings.String.
From S2P Require Import Prelude BytesConv Consts Args Uri.

(** ** Package time, as far as the program uses it

    Formatting and parsing of dates is not part of the repository: a time is
    an element of an abstract type. *)
Class TimeLib := {
  Time : Type;
  zeroTime : Time;
  IsZero : Time -> bool;
  (** [time.Date(y, m, d, h, min, s, 0, time.UTC)] *)
  timeDate : Z -> Z -> Z -> Z -> Z -> Z -> Time;
  (** [t.In(time.UTC).AppendFormat(nil, time.RFC1123)] *)
  formatRFC1123 : Time -> bytes;
  (** [time.ParseInLocation(time.RFC1123, s, time.UTC)] *)
  parseRFC1123 : bytes -> Time * option error;
  (** [time.Parse("Mon, 02-Jan-2006 15:04:05 MST", s)] *)
  parseRFC1123Dashes : bytes -> Time * option error
}.

(** [AppendHTTPDate]: the zone name is overwritten by [GMT]. *)
Definition AppendHTTPDate `{TimeLib} (dst : bytes) (date : Time) : bytes :=
  let dst := dst ++ formatRFC1123 date in
  take (length dst - 3) dst ++ copy_into (drop (length dst - 3) dst) strGMT.

(** What the printer and the parser rely on: a date text is non-empty, has no
    separator or outer blank or quote, and is parsed back to the same time. *)
Definition dateText (b : bytes) : Prop :=
  (";"%byte ∉ b) /\ head b <> None /\ head b <> Some " "%byte /\ head b <> Some x22 /\ last b <> Some " "%byte.

Class TimeLaws `{TimeLib} := {
  (** the times a date header can carry: whole seconds in years 1 to 9999 *)
  printableTime : Time -> Prop;
  IsZero_true : forall t, IsZero t = true <-> t = zeroTime;
  httpDate_text : forall t, printableTime t -> dateText (AppendHTTPDate [] t);
  parse_httpDate : forall t, printableTime t -> parseRFC1123 (AppendHTTPDate [] t) = (t, None)
}.

(** ** The cookie record *)

Inductive CookieSameSite :=
| CookieSameSiteDisabled
| CookieSameSiteDefaultMode
| CookieSameSiteLaxMode
| CookieSameSiteStrictMode
| CookieSameSiteNoneMode.

#[export] Instance CookieSameSite_eq_dec : EqDecision CookieSameSite.
Proof. solve_decision. Defined.

(** ** Helpers without state *)

(** [c | 0x20]. *)
Definition or20 (c : byte) : byte := zb (Z.lor (bz c) 32).

Fixpoint caseInsensitiveLoop (a b : bytes) : bool :=
  match a, b with
  | x :: a', y :: b' => if decide (or20 x <> or20 y) then false else caseInsensitiveLoop a' b'
  | _, _ => true
  end.

Definition caseInsensitiveCompare (a b : bytes) : bool :=
  if decide (length a <> length b) then false else caseInsensitiveLoop a b.

Fixpoint trimLeft (src : bytes) : bytes :=
  match src with
  | c :: src' => if decide (c = " "%byte) then trimLeft src' else src
  | [] => []
  end.

Fixpoint trimRightLoop (fuel : nat) (src : bytes) : bytes :=
  match fuel with
  | O => src
  | S fuel' =>
      if decide (last src = Some " "%byte) then trimRightLoop fuel' (take (length src - 1) src) else src
  end.

Definition trimRight (src : bytes) : bytes := trimRightLoop (length src) src.

Definition decodeCookieArg (src : bytes) (skipQuotes : bool) : bytes :=
  let src := trimRight (trimLeft src) in
  if skipQuotes then
    if decide ((1 < length src)%nat /\ head src = Some x22 /\ last src = Some x22)
    then take (length src - 2) (drop 1 src)
    else src
  else src.

(** ** The scanner *)

(** The loop of cookieScanner.next, as argsNextLoop in Args.v. *)
Fixpoint cookieNextLoop (b rest : bytes) (i : nat) (isKey : bool) (k : nat) (kv : argsKV)
  : argsKV * bytes :=
  match rest with
  | [] =>
      let kv := if isKey then ArgsKV [] (value kv) (noValue kv) else kv in
      (ArgsKV (key kv) (decodeCookieArg (drop k b) true) (noValue kv), [])
  | c :: rest' =>
      if decide (c = "="%byte) then
        if isKey
        then cookieNextLoop b rest' (S i) false (i + 1)
               (ArgsKV (decodeCookieArg (take i b) false) (value kv) (noValue kv))
        else cookieNextLoop b rest' (S i) isKey k kv
      else if decide (c = ";"%byte) then
        let kv := if isKey then ArgsKV [] (value kv) (noValue kv) else kv in
        (ArgsKV (key kv) (decodeCookieArg (drop k (take i b)) true) (noValue kv), drop (i + 1) b)
      else cookieNextLoop b rest' (S i) isKey k kv
  end.

Definition cookieScanner_next (b : bytes) (kv : argsKV) : option (argsKV * bytes) :=
  if decide (length b = O) then None else Some (cookieNextLoop b b 0 true 0 kv).

Definition getCookieKey (src : bytes) : bytes :=
  let src := match IndexByte src "=" with Some n => take n src | None => src end in
  decodeCookieArg src false.

(** ** Request cookies *)

Fixpoint appendRequestCookieBytes (dst : bytes) (cookies : list argsKV) : bytes :=
  match cookies with
  | [] => dst
  | kv :: cookies' =>
      let dst := if Nat.ltb 0 (length (key kv)) then dst ++ key kv ++ ["="%byte] else dst in
      let dst := dst ++ value kv in
      appendRequestCookieBytes (match cookies' with [] => dst | _ => dst ++ [";"%byte; " "%byte] end) cookies'
  end.

Fixpoint appendResponseCookieBytes (dst : bytes) (cookies : list argsKV) : bytes :=
  match cookies with
  | [] => dst
  | kv :: cookies' =>
      let dst := dst ++ value kv in
      appendResponseCookieBytes (match cookies' with [] => dst | _ => dst ++ [";"%byte; " "%byte] end) cookies'
  end.

(** The loop of parseRequestCookies; each call of [next] consumes a byte. *)
Fixpoint parseCookiesLoop (fuel : nat) (b : bytes) (h : kvs) (p : nat) : kvs :=
  match fuel with
  | O => h
  | S fuel' =>
      match cookieScanner_next b (loadKV h p) with
      | None => h
      | Some (kv, b') =>
          let h := storeKV h p kv in
          if decide (key kv <> [] \/ value kv <> [])
          then let '(h, p) := allocArg h in parseCookiesLoop fuel' b' h p
          else parseCookiesLoop fuel' b' h p
      end
  end.

Definition parseRequestCookies (cookies : kvs) (src : bytes) : option kvs :=
  let '(cookies, p) := allocArg cookies in
  releaseArg (parseCookiesLoop (S (length src)) src cookies p).

(** ** Response cookies *)

Section Cookie.
Context `{TimeLib}.

Record Cookie := MkCookie {
  ck_key : bytes;
  ck_value : bytes;
  ck_expire : Time;
  ck_maxAge : Z;
  ck_domain : bytes;
  ck_path : bytes;
  ck_httpOnly : bool;
  ck_secure : bool;
  ck_sameSite : CookieSameSite;
  ck_bufKV : argsKV;
  ck_buf : bytes
}.

Definition emptyCookie : Cookie :=
  MkCookie [] [] zeroTime 0 [] [] false false CookieSameSiteDisabled zeroKV [].

Definition set_ck_key (v : bytes) (c : Cookie) : Cookie :=
  MkCookie v (ck_value c) (ck_expire c) (ck_maxAge c) (ck_domain c) (ck_path c) (ck_httpOnly c) (ck_secure c) (ck_sameSite c) (ck_bufKV c) (ck_buf c).
Definition set_ck_value (v : bytes) (c : Cookie) : Cookie :=
  MkCookie (ck_key c) v (ck_expire c) (ck_maxAge c) (ck_domain c) (ck_path c) (ck_httpOnly c) (ck_secure c) (ck_sameSite c) (ck_bufKV c) (ck_buf c).
Definition set_ck_expire (v : Time) (c : Cookie) : Cookie :=
  MkCookie (ck_key c) (ck_value c) v (ck_maxAge c) (ck_domain c) (ck_path c) (ck_httpOnly c) (ck_secure c) (ck_sameSite c) (ck_bufKV c) (ck_buf c).
Definition set_ck_maxAge (v : Z) (c : Cookie) : Cookie :=
  MkCookie (ck_key c) (ck_value c) (ck_expire c) v (ck_domain c) (ck_path c) (ck_httpOnly c) (ck_secure c) (ck_sameSite c) (ck_bufKV c) (ck_buf c).
Definition set_ck_domain (v : bytes) (c : Cookie) : Cookie :=
  MkCookie (ck_key c) (ck_value c) (ck_expire c) (ck_maxAge c) v (ck_path c) (ck_httpOnly c) (ck_secure c) (ck_sameSite c) (ck_bufKV c) (ck_buf c).
Definition set_ck_path (v : bytes) (c : Cookie) : Cookie :=
  MkCookie (ck_key c) (ck_value c) (ck_expire c) (ck_maxAge c) (ck_domain c) v (ck_httpOnly c) (ck_secure c) (ck_sameSite c) (ck_bufKV c) (ck_buf c).
Definition set_ck_httpOnly (v : bool) (c : Cookie) : Cookie :=
  MkCookie (ck_key c) (ck_value c) (ck_expire c) (ck_maxAge c) (ck_domain c) (ck_path c) v (ck_secure c) (ck_sameSite c) (ck_bufKV c) (ck_buf c).
Definition set_ck_secure (v : bool) (c : Cookie) : Cookie :=
  MkCookie (ck_key c) (ck_value c) (ck_expire c) (ck_maxAge c) (ck_domain c) (ck_path c) (ck_httpOnly c) v (ck_sameSite c) (ck_bufKV c) (ck_buf c).
Definition set_ck_sameSite (v : CookieSameSite) (c : Cookie) : Cookie :=
  MkCookie (ck_key c) (ck_value c) (ck_expire c) (ck_maxAge c) (ck_domain c) (ck_path c) (ck_httpOnly c) (ck_secure c) v (ck_bufKV c) (ck_buf c).
Definition set_ck_bufKV (v : argsKV) (c : Cookie) : Cookie :=
  MkCookie (ck_key c) (ck_value c) (ck_expire c) (ck_maxAge c) (ck_domain c) (ck_path c) (ck_httpOnly c) (ck_secure c) (ck_sameSite c) v (ck_buf c).
Definition set_ck_buf (v : bytes) (c : Cookie) : Cookie :=
  MkCookie (ck_key c) (ck_value c) (ck_expire c) (ck_maxAge c) (ck_domain c) (ck_path c) (ck_httpOnly c) (ck_secure c) (ck_sameSite c) (ck_bufKV c) v.

(** ** Accessors, setters, Reset and CopyTo *)

(** Reset keeps the scratch buffers [bufKV] and [buf]. *)
Definition Cookie_Reset (c : Cookie) : Cookie :=
  MkCookie [] [] zeroTime 0 [] [] false false CookieSameSiteDisabled (ck_bufKV c) (ck_buf c).

(** [c.CopyTo(src)] copies [src] to [c]. *)
Definition Cookie_CopyTo (c src : Cookie) : Cookie :=
  let c := Cookie_Reset c in
  MkCookie (ck_key src) (ck_value src) (ck_expire src) (ck_maxAge src) (ck_domain src) (ck_path src)
    (ck_httpOnly src) (ck_secure src) (ck_sameSite src) (ck_bufKV c) (ck_buf c).

Definition Cookie_SetHTTPOnly (c : Cookie) (httpOnly : bool) : Cookie := set_ck_httpOnly httpOnly c.
Definition Cookie_SetSecure (c : Cookie) (secure : bool) : Cookie := set_ck_secure secure c.

Definition Cookie_SetSameSite (c : Cookie) (mode : CookieSameSite) : Cookie :=
  let c := set_ck_sameSite mode c in
  if decide (mode = CookieSameSiteNoneMode) then Cookie_SetSecure c true else c.

Definition Cookie_SetPath (c : Cookie) (path : bytes) : Cookie :=
  let c := set_ck_buf path c in set_ck_path (normalizePath (ck_buf c)) c.

Definition Cookie_SetDomain (c : Cookie) (domain : bytes) : Cookie := set_ck_domain domain c.
Definition Cookie_SetMaxAge (c : Cookie) (seconds : Z) : Cookie := set_ck_maxAge seconds c.

Definition CookieExpireUnlimited : Time := zeroTime.
Definition CookieExpireDelete : Time := timeDate 2009 11 10 23 0 0.

Definition Cookie_Expire (c : Cookie) : Time :=
  let expire := ck_expire c in if IsZero expire then CookieExpireUnlimited else expire.

Definition Cookie_SetExpire (c : Cookie) (expire : Time) : Cookie := set_ck_expire expire c.
Definition Cookie_SetValue (c : Cookie) (value : bytes) : Cookie := set_ck_value value c.
Definition Cookie_SetKey (c : Cookie) (key : bytes) : Cookie := set_ck_key key c.

(** ** Printing *)

Definition semi : bytes := [";"%byte; " "%byte].

Definition appendCookiePart (dst key value : bytes) : bytes :=
  dst ++ semi ++ key ++ ["="%byte] ++ value.

Definition appendSameSite (dst : bytes) (mode : CookieSameSite) : bytes :=
  match mode with
  | CookieSameSiteDisabled => dst
  | CookieSameSiteDefaultMode => dst ++ semi ++ strCookieSameSite
  | CookieSameSiteLaxMode => dst ++ semi ++ strCookieSameSite ++ ["="%byte] ++ strCookieSameSiteLax
  | CookieSameSiteStrictMode => dst ++ semi ++ strCookieSameSite ++ ["="%byte] ++ strCookieSameSiteStrict
  | CookieSameSiteNoneMode => dst ++ semi ++ strCookieSameSite ++ ["="%byte] ++ strCookieSameSiteNone
  end.

(** The result holds the cookie because the date is formatted in [bufKV];
    [None] would be a panic of AppendUint. *)
Definition Cookie_AppendBytes (c : Cookie) (dst : bytes) : option (Cookie * bytes) :=
  let dst := if Nat.ltb 0 (length (ck_key c)) then dst ++ ck_key c ++ ["="%byte] else dst in
  let dst := dst ++ ck_value c in
  '(c, dst) ←
    (if 0 <? ck_maxAge c then
       dst ← AppendUint (dst ++ semi ++ strCookieMaxAge ++ ["="%byte]) (ck_maxAge c);
       Some (c, dst)
     else if negb (IsZero (ck_expire c)) then
       let kv := ArgsKV (key (ck_bufKV c)) (AppendHTTPDate [] (ck_expire c)) (noValue (ck_bufKV c)) in
       Some (set_ck_bufKV kv c, dst ++ semi ++ strCookieExpires ++ ["="%byte] ++ value kv)
     else Some (c, dst));
  let dst := if Nat.ltb 0 (length (ck_domain c)) then appendCookiePart dst strCookieDomain (ck_domain c) else dst in
  let dst := if Nat.ltb 0 (length (ck_path c)) then appendCookiePart dst strCookiePath (ck_path c) else dst in
  let dst := if ck_httpOnly c then dst ++ semi ++ strCookieHTTPOnly else dst in
  let dst := if ck_secure c then dst ++ semi ++ strCookieSecure else dst in
  Some (c, appendSameSite dst (ck_sameSite c)).

Definition Cookie_Cookie (c : Cookie) : option (Cookie * bytes) :=
  '(c, b) ← Cookie_AppendBytes c []; Some (set_ck_buf b c, b).

Definition Cookie_String (c : Cookie) : option (Cookie * bytes) := Cookie_Cookie c.

(** ** Parsing *)

(** The body of the loop of ParseBytes for one attribute [kv]: the switch on
    the first character of the key, or of the value when there is no key. *)
Definition parseCookieAttr (c : Cookie) (kv : argsKV) : Cookie * option error :=
  match key kv with
  | k0 :: _ =>
      let sw := or20 k0 in
      if decide (sw = "m"%byte) then
        if caseInsensitiveCompare strCookieMaxAge (key kv) then
          match ParseUint (value kv) with
          | (_, Some err) => (c, Some err)
          | (maxAge, None) => (set_ck_maxAge maxAge c, None)
          end
        else (c, None)
      else if decide (sw = "e"%byte) then
        if caseInsensitiveCompare strCookieExpires (key kv) then
          match parseRFC1123 (value kv) with
          | (exptime, None) => (set_ck_expire exptime c, None)
          | (_, Some _) =>
              match parseRFC1123Dashes (value kv) with
              | (exptime, None) => (set_ck_expire exptime c, None)
              | (_, Some err) => (c, Some err)
              end
          end
        else (c, None)
      else if decide (sw = "d"%byte) then
        if caseInsensitiveCompare strCookieDomain (key kv)
        then (set_ck_domain (value kv) c, None) else (c, None)
      else if decide (sw = "p"%byte) then
        if caseInsensitiveCompare strCookiePath (key kv)
        then (set_ck_path (value kv) c, None) else (c, None)
      else if decide (sw = "s"%byte) then
        if caseInsensitiveCompare strCookieSameSite (key kv) then
          match value kv with
          | v0 :: _ =>
              if decide (or20 v0 = "l"%byte) then
                if caseInsensitiveCompare strCookieSameSiteLax (value kv)
                then (set_ck_sameSite CookieSameSiteLaxMode c, None) else (c, None)
              else if decide (or20 v0 = "s"%byte) then
                if caseInsensitiveCompare strCookieSameSiteStrict (value kv)
                then (set_ck_sameSite CookieSameSiteStrictMode c, None) else (c, None)
              else if decide (or20 v0 = "n"%byte) then
                if caseInsensitiveCompare strCookieSameSiteNone (value kv)
                then (set_ck_sameSite CookieSameSiteNoneMode c, None) else (c, None)
              else (c, None)
          | [] => (c, None)
          end
        else (c, None)
      else (c, None)
  | [] =>
      match value kv with
      | v0 :: _ =>
          let sw := or20 v0 in
          if decide (sw = "h"%byte) then
            if caseInsensitiveCompare strCookieHTTPOnly (value kv)
            then (set_ck_httpOnly true c, None) else (c, None)
          else if decide (sw = "s"%byte) then
            if caseInsensitiveCompare strCookieSecure (value kv) then (set_ck_secure true c, None)
            else if caseInsensitiveCompare strCookieSameSite (value kv)
            then (set_ck_sameSite CookieSameSiteDefaultMode c, None) else (c, None)
          else (c, None)
      | [] => (c, None)
      end
  end.

(** The attribute loop; [kv] is [&c.bufKV]. *)
Fixpoint parseCookieLoop (fuel : nat) (b : bytes) (c : Cookie) : Cookie * option error :=
  match fuel with
  | O => (c, None)
  | S fuel' =>
      match cookieScanner_next b (ck_bufKV c) with
      | None => (c, None)
      | Some (kv, b') =>
          match parseCookieAttr (set_ck_bufKV kv c) kv with
          | (c, Some err) => (c, Some err)
          | (c, None) => parseCookieLoop fuel' b' c
          end
      end
  end.

Definition Cookie_ParseBytes (c : Cookie) (src : bytes) : Cookie * option error :=
  let c := Cookie_Reset c in
  match cookieScanner_next src (ck_bufKV c) with
  | None => (c, Some errNoCookies)
  | Some (kv, b) =>
      let c := set_ck_value (value kv) (set_ck_key (key kv) (set_ck_bufKV kv c)) in
      parseCookieLoop (length src) b c
  end.

Definition Cookie_Parse (c : Cookie) (src : bytes) : Cookie * option error :=
  Cookie_ParseBytes (set_ck_buf src c) src.

End Cookie.

(** ** Trimming *)

(** Texts decodeCookieArg leaves alone. *)
Definition trimmed (s : bytes) : Prop := head s <> Some " "%byte /\ last s <> Some " "%byte.

Definition unquoted (s : bytes) : Prop := ~ ((1 < length s)%nat /\ head s = Some x22 /\ last s = Some x22).

#[export] Instance trimmed_dec s : Decision (trimmed s).
Proof. unfold trimmed. apply _. Defined.
#[export] Instance unquoted_dec s : Decision (unquoted s).
Proof. unfold unquoted. apply _. Defined.

Lemma trimLeft_id s : head s <> Some " "%byte -> trimLeft s = s.
Proof. destruct s as [|c s]; simpl; [done|]. intros Hc. rewrite decide_False by congruence. done. Qed.

Lemma trimRight_id s : last s <> Some " "%byte -> trimRight s = s.
Proof.
  unfold trimRight. destruct (length s) as [|n]; simpl; [done|]. intros Hl. by rewrite decide_False.
Qed.

Lemma decodeCookieArg_trimmed s q : trimmed s -> (q = true -> unquoted s) -> decodeCookieArg s q = s.
Proof.
  intros [H1 H2] Hq. unfold decodeCookieArg. rewrite trimLeft_id, trimRight_id by done.
  destruct q; [|done]. rewrite decide_False; [done|]. by apply Hq.
Qed.

Lemma decodeCookieArg_space s q : decodeCookieArg (" "%byte :: s) q = decodeCookieArg s q.
Proof. done. Qed.

(** ** The scanner against a reference *)

Definition parseCookiePair (nov : bool) (seg : bytes) : argsKV :=
  match IndexByte seg "=" with
  | None => ArgsKV [] (decodeCookieArg seg true) nov
  | Some n => ArgsKV (decodeCookieArg (take n seg) false) (decodeCookieArg (drop (n + 1) seg) true) nov
  end.

Definition semiEnd (tail : bytes) : Prop := tail = [] \/ exists r, tail = ";"%byte :: r.

Lemma cookieNextLoop_value p v tail k kv :
  ";"%byte ∉ v -> semiEnd tail ->
  cookieNextLoop (p ++ v ++ tail) (v ++ tail) (length p) false k kv =
  (ArgsKV (key kv) (decodeCookieArg (drop k (p ++ v)) true) (noValue kv), tl tail).
Proof.
  revert p. induction v as [|c v IH]; intros p Hv Ht.
  - rewrite app_nil_r. destruct Ht as [->|[r ->]]; simpl.
    + by rewrite app_nil_r.
    + by rewrite take_app_exact, Nat.add_1_r, drop_app_S.
  - apply not_elem_of_cons in Hv as [Hc Hv]. cbn [app cookieNextLoop].
    rewrite (decide_False (P := c = ";"%byte)) by congruence.
    specialize (IH (p ++ [c]) Hv Ht). rewrite length_app, Nat.add_1_r in IH.
    rewrite <- !app_assoc in IH. cbn [app] in IH. rewrite IH. by case_decide.
Qed.

Lemma cookieNextLoop_key p v tail kv :
  "="%byte ∉ p -> ";"%byte ∉ v -> semiEnd tail ->
  cookieNextLoop (p ++ v ++ tail) (v ++ tail) (length p) true 0 kv =
  (parseCookiePair (noValue kv) (p ++ v), tl tail).
Proof.
  revert p. induction v as [|c v IH]; intros p Hp Hv Ht.
  - rewrite app_nil_r. unfold parseCookiePair. rewrite (proj2 (IndexByte_None p _) Hp).
    destruct Ht as [->|[r ->]]; simpl.
    + by rewrite app_nil_r.
    + by rewrite take_app_exact, Nat.add_1_r, drop_app_S.
  - apply not_elem_of_cons in Hv as [Hc Hv]. cbn [app cookieNextLoop]. case_decide as E.
    + subst c. rewrite take_app_exact. unfold parseCookiePair. rewrite IndexByte_app by done.
      rewrite take_app_exact.
      pose proof (cookieNextLoop_value (p ++ ["="%byte]) v tail (S (length p))
                    (ArgsKV (decodeCookieArg p false) (value kv) (noValue kv)) Hv Ht) as Hn.
      rewrite length_app, Nat.add_1_r, <- !app_assoc in Hn. cbn [app length] in Hn.
      rewrite Nat.add_1_r. rewrite Hn. by rewrite drop_app_S.
    + rewrite decide_False by congruence.
      specialize (IH (p ++ [c])). rewrite length_app, Nat.add_1_r, <- !app_assoc in IH.
      apply IH; try done. rewrite not_elem_of_app, list_elem_of_singleton. naive_solver.
Qed.

Lemma cookieScanner_next_spec seg tail kv :
  ";"%byte ∉ seg -> semiEnd tail -> seg ++ tail <> [] ->
  cookieScanner_next (seg ++ tail) kv = Some (parseCookiePair (noValue kv) seg, tl tail).
Proof.
  intros Hs Ht Hne. unfold cookieScanner_next. rewrite decide_False by (by destruct (seg ++ tail)).
  f_equal. apply (cookieNextLoop_key [] seg tail kv); try done. apply not_elem_of_nil.
Qed.

(** The segments the scanner visits: those between semicolons, without the
    empty one after a final semicolon. *)
Fixpoint scanSegs (fuel : nat) (b : bytes) : list bytes :=
  match fuel with
  | O => []
  | S fuel' =>
      match b with
      | [] => []
      | _ =>
          match IndexByte b ";" with
          | None => [b]
          | Some n => take n b :: scanSegs fuel' (drop (n + 1) b)
          end
      end
  end.

Definition cookieSegs (b : bytes) : list bytes := scanSegs (length b) b.

Lemma scanSegs_fuel f1 f2 b : (length b <= f1)%nat -> (length b <= f2)%nat -> scanSegs f1 b = scanSegs f2 b.
Proof.
  revert f2 b. induction f1 as [|f1 IH]; intros f2 b H1 H2.
  - destruct b; [by destruct f2|simpl in *; lia].
  - destruct f2 as [|f2]; [destruct b; [done|simpl in *; lia]|]. simpl.
    destruct b as [|c b]; [done|]. destruct (IndexByte (c :: b) ";") as [n|]; [|done].
    f_equal. apply IH; rewrite length_drop; simpl in *; lia.
Qed.

Lemma cookieSegs_nil : cookieSegs [] = [].
Proof. done. Qed.

Lemma cookieSegs_cons seg tail :
  ";"%byte ∉ seg -> semiEnd tail -> seg ++ tail <> [] ->
  cookieSegs (seg ++ tail) = seg :: cookieSegs (tl tail).
Proof.
  intros Hs Ht Hne. unfold cookieSegs. destruct (length (seg ++ tail)) as [|n] eqn:E.
  { apply nil_length_inv in E. done. }
  cbn [scanSegs]. destruct (seg ++ tail) as [|c r] eqn:Er; [done|]. rewrite <- Er in *. clear c r Er.
  destruct Ht as [->|[r ->]]; simpl tl.
  - rewrite app_nil_r, (proj2 (IndexByte_None _ _) Hs). done.
  - rewrite IndexByte_app by done. rewrite take_app_exact, Nat.add_1_r, drop_app_S. f_equal.
    apply scanSegs_fuel; [|lia]. rewrite length_app in E. simpl in E. lia.
Qed.

(** Every non-empty text is one segment and a rest. *)
Lemma cookie_segment b :
  exists seg tail, b = seg ++ tail /\ (";"%byte ∉ seg) /\ semiEnd tail.
Proof.
  destruct (IndexByte b ";") as [n|] eqn:E.
  - apply IndexByte_Some in E as (l1 & l2 & -> & _ & N). exists l1, (";"%byte :: l2).
    split_and!; try done. right; eauto.
  - apply IndexByte_None in E. exists b, []. rewrite app_nil_r. split_and!; try done. by left.
Qed.

Lemma tail_shorter seg tail : semiEnd tail -> seg ++ tail <> [] ->
  (length (tl tail) < length (seg ++ tail))%nat.
Proof.
  intros [->|[r ->]] Hne; rewrite length_app; simpl; [|lia]. destruct seg; [done|simpl; lia].
Qed.

(** ** Request cookies: the reference list *)

Definition cookiePair (seg : bytes) : bytes * bytes :=
  let kv := parseCookiePair false seg in (key kv, value kv).

Definition nonEmptyPair (kv : bytes * bytes) : Prop := fst kv <> [] \/ snd kv <> [].
#[export] Instance nonEmptyPair_dec kv : Decision (nonEmptyPair kv).
Proof. unfold nonEmptyPair. apply _. Defined.

(** What a Cookie header value denotes. *)
Definition parsedCookies (src : bytes) : list (bytes * bytes) :=
  filter nonEmptyPair (map cookiePair (cookieSegs src)).

Lemma parseCookiePair_nov nov seg :
  key (parseCookiePair nov seg) = fst (cookiePair seg) /\
  value (parseCookiePair nov seg) = snd (cookiePair seg).
Proof. unfold cookiePair, parseCookiePair. by destruct (IndexByte seg "="). Qed.

Lemma parsedCookies_cons seg tail :
  ";"%byte ∉ seg -> semiEnd tail -> seg ++ tail <> [] ->
  parsedCookies (seg ++ tail) =
  (if decide (nonEmptyPair (cookiePair seg)) then [cookiePair seg] else []) ++ parsedCookies (tl tail).
Proof.
  intros Hs Ht Hne. unfold parsedCookies. rewrite cookieSegs_cons by done.
  cbn [map]. rewrite filter_cons. by case_decide.
Qed.

Lemma visitArgs_app l1 l2 : visitArgs (l1 ++ l2) = visitArgs l1 ++ visitArgs l2.
Proof. apply map_app. Qed.

Lemma parseCookiesLoop_spec fuel b l kv sp :
  (length b < fuel)%nat ->
  exists l' kv' sp', parseCookiesLoop fuel b (Kvs (l ++ [kv]) sp) (length l) = Kvs ((l ++ l') ++ [kv']) sp'
    /\ visitArgs l' = parsedCookies b.
Proof.
  revert b l kv sp. induction fuel as [|fuel IH]; intros b l kv sp Hf; [lia|]. cbn [parseCookiesLoop].
  destruct (decide (b = [])) as [->|Hne].
  { exists [], kv, sp. by rewrite app_nil_r. }
  destruct (cookie_segment b) as (seg & tail & -> & Hs & Ht).
  rewrite cookieScanner_next_spec, storeKV_last, parsedCookies_cons by done.
  pose proof (tail_shorter seg tail Ht Hne) as Hlt.
  destruct (parseCookiePair_nov (noValue (loadKV (Kvs (l ++ [kv]) sp) (length l))) seg) as [Ek Ev].
  set (kv2 := parseCookiePair _ seg) in *.
  assert ((key kv2 <> [] \/ value kv2 <> []) <-> nonEmptyPair (cookiePair seg)) as Hiff.
  { unfold nonEmptyPair. by rewrite Ek, Ev. }
  destruct (decide (nonEmptyPair (cookiePair seg))) as [D|D].
  - rewrite decide_True by tauto.
    destruct (allocArg_spec (Kvs (l ++ [kv2]) sp)) as (kv3 & sp3 & ->). simpl live.
    destruct (IH (tl tail) (l ++ [kv2]) kv3 sp3 ltac:(lia)) as (l' & kv4 & sp4 & -> & Hl).
    exists (kv2 :: l'), kv4, sp4. split; [by rewrite <- !app_assoc|]. simpl. rewrite Hl, Ek, Ev.
    by destruct (cookiePair seg).
  - rewrite decide_False by tauto. apply IH. lia.
Qed.

(** parseRequestCookies never panics and appends the reference list. *)
Lemma parseRequestCookies_spec h src :
  exists l sp, parseRequestCookies h src = Some (Kvs (live h ++ l) sp) /\ visitArgs l = parsedCookies src.
Proof.
  unfold parseRequestCookies. destruct (allocArg_spec h) as (kv & sp & ->).
  destruct (parseCookiesLoop_spec (S (length src)) src (live h) kv sp ltac:(lia)) as (l & kv' & sp' & -> & E).
  rewrite releaseArg_last. eauto.
Qed.

(** ** Printing one pair and reading it back *)

Definition encodePair (kv : bytes * bytes) : bytes :=
  (if Nat.ltb 0 (length (fst kv)) then fst kv ++ ["="%byte] else []) ++ snd kv.

(** Texts that can stand as a cookie value. *)
Definition valueText (v : bytes) : Prop := (";"%byte ∉ v) /\ trimmed v /\ unquoted v.
#[export] Instance valueText_dec v : Decision (valueText v).
Proof. unfold valueText. apply _. Defined.

(** Pairs a Cookie header can carry. *)
Definition printablePair (kv : bytes * bytes) : Prop :=
  nonEmptyPair kv /\ ("="%byte ∉ fst kv) /\ (";"%byte ∉ fst kv) /\ trimmed (fst kv) /\ valueText (snd kv) /\
  (fst kv = [] -> "="%byte ∉ snd kv).

#[export] Instance printablePair_dec kv : Decision (printablePair kv).
Proof. unfold printablePair. apply _. Defined.

Lemma encodePair_clean kv : printablePair kv -> ";"%byte ∉ encodePair kv.
Proof.
  intros (_ & _ & Nk & _ & (Nv & _) & _). unfold encodePair. destruct (Nat.ltb _ _); [|done].
  rewrite !not_elem_of_app, list_elem_of_singleton. naive_solver.
Qed.

(** The blank written after a semicolon does not matter. *)
Lemma cookiePair_space seg : cookiePair (" "%byte :: seg) = cookiePair seg.
Proof.
  unfold cookiePair, parseCookiePair. cbn [IndexByte]. rewrite decide_False by done.
  destruct (IndexByte seg "=") as [n|]; reflexivity.
Qed.

Lemma cookiePair_encode k v :
  "="%byte ∉ k -> trimmed k -> trimmed v -> unquoted v -> (k = [] -> "="%byte ∉ v) ->
  cookiePair (encodePair (k, v)) = (k, v).
Proof.
  intros Nk Tk Tv Uv Hk. unfold cookiePair, parseCookiePair, encodePair. cbn [fst snd].
  destruct k as [|c k].
  - cbn [length Nat.ltb Nat.leb app]. rewrite (proj2 (IndexByte_None v "=") (Hk eq_refl)).
    cbn [key value]. by rewrite decodeCookieArg_trimmed.
  - cbn [length Nat.ltb Nat.leb]. rewrite <- app_assoc. cbn [app]. rewrite app_comm_cons.
    rewrite IndexByte_app by done. rewrite take_app_exact, Nat.add_1_r, drop_app_S. cbn [key value].
    by rewrite !decodeCookieArg_trimmed.
Qed.

Lemma encodePair_ne kv : nonEmptyPair kv -> encodePair kv <> [].
Proof. destruct kv as [[|c k] [|d v]]; unfold nonEmptyPair, encodePair; simpl; naive_solver. Qed.

Lemma appendRequestCookieBytes_spec l dst :
  appendRequestCookieBytes dst l =
  dst ++ match visitArgs l with
         | [] => []
         | kv :: r => encodePair kv ++ concat (map (fun kv => ";"%byte :: " "%byte :: encodePair kv) r)
         end.
Proof.
  revert dst. induction l as [|kv l IH]; intros dst; [by rewrite app_nil_r|].
  cbn [appendRequestCookieBytes visitArgs map].
  assert ((if Nat.ltb 0 (length (key kv)) then dst ++ key kv ++ ["="%byte] else dst) ++ value kv =
          dst ++ encodePair (key kv, value kv)) as ->.
  { unfold encodePair. cbn [fst snd]. destruct (Nat.ltb _ _); by rewrite <- ?app_assoc. }
  rewrite IH. destruct l as [|kv2 l]; cbn [visitArgs map concat].
  - by rewrite !app_nil_r.
  - by rewrite <- !app_assoc.
Qed.

Lemma parsedCookies_rest r :
  Forall printablePair r ->
  parsedCookies (tl (concat (map (fun kv => ";"%byte :: " "%byte :: encodePair kv) r))) = r.
Proof.
  induction 1 as [|kv r Hkv Hr IH]; [done|].
  cbn [map concat app tl]. rewrite app_comm_cons.
  rewrite parsedCookies_cons; [|..|done].
  - rewrite IH, cookiePair_space. pose proof (encodePair_ne kv (proj1 Hkv)).
    destruct Hkv as (Hne & ? & ? & ? & (? & ? & ?) & ?). destruct kv as [k v].
    rewrite cookiePair_encode by done. by rewrite decide_True.
  - rewrite not_elem_of_cons. split; [done|]. by apply encodePair_clean.
  - destruct r as [|kv2 r]; [by left|right]. simpl. eauto.
Qed.

Lemma parsedCookies_print l :
  Forall printablePair (visitArgs l) -> parsedCookies (appendRequestCookieBytes [] l) = visitArgs l.
Proof.
  rewrite appendRequestCookieBytes_spec. cbn [app]. intros F. destruct F as [|kv r Hkv Hr]; [done|].
  rewrite parsedCookies_cons.
  - rewrite parsedCookies_rest by done.
    destruct Hkv as (Hne & ? & ? & ? & (? & ? & ?) & ?). destruct kv as [k v].
    rewrite cookiePair_encode by done. by rewrite decide_True.
  - by apply encodePair_clean.
  - destruct r as [|kv2 r]; [by left|right]. simpl. eauto.
  - pose proof (encodePair_ne kv (proj1 Hkv)). by destruct (encodePair kv).
Qed.

(** ** Response cookies: the attribute list *)

Section CookieLemmas.
Context `{TimeLib}.

(** ParseBytes after the first pair: the attributes in order, stopping at the
    first bad one. *)
Fixpoint runAttrs (segs : list bytes) (c : Cookie) : Cookie * option error :=
  match segs with
  | [] => (c, None)
  | seg :: segs' =>
      let kv := parseCookiePair (noValue (ck_bufKV c)) seg in
      match parseCookieAttr (set_ck_bufKV kv c) kv with
      | (c, Some err) => (c, Some err)
      | (c, None) => runAttrs segs' c
      end
  end.

Lemma parseCookieLoop_spec fuel b c :
  (length b <= fuel)%nat -> parseCookieLoop fuel b c = runAttrs (cookieSegs b) c.
Proof.
  revert b c. induction fuel as [|fuel IH]; intros b c Hf.
  { destruct b; [done|simpl in *; lia]. }
  destruct (decide (b = [])) as [->|Hne]; [done|]. cbn [parseCookieLoop].
  destruct (cookie_segment b) as (seg & tail & -> & Hs & Ht).
  rewrite cookieScanner_next_spec, cookieSegs_cons by done. cbn [runAttrs].
  pose proof (tail_shorter seg tail Ht Hne).
  destruct (parseCookieAttr _ _) as [c' [e|]]; [done|]. apply IH. lia.
Qed.

Lemma Cookie_ParseBytes_spec c src :
  Cookie_ParseBytes c src =
  match cookieSegs src with
  | [] => (Cookie_Reset c, Some errNoCookies)
  | seg :: segs =>
      let kv := parseCookiePair (noValue (ck_bufKV c)) seg in
      runAttrs segs (set_ck_value (value kv) (set_ck_key (key kv) (set_ck_bufKV kv (Cookie_Reset c))))
  end.
Proof.
  unfold Cookie_ParseBytes. destruct (decide (src = [])) as [->|Hne]; [done|].
  destruct (cookie_segment src) as (seg & tail & -> & Hs & Ht).
  rewrite cookieScanner_next_spec, cookieSegs_cons by done.
  apply parseCookieLoop_spec. pose proof (tail_shorter seg tail Ht Hne). lia.
Qed.

(** *** Cookies up to their scratch buffers *)

Definition sameCookie (c d : Cookie) : Prop :=
  set_ck_buf [] (set_ck_bufKV zeroKV c) = set_ck_buf [] (set_ck_bufKV zeroKV d).

#[local] Instance sameCookie_equiv : Equivalence sameCookie.
Proof. split; unfold sameCookie; repeat intro; congruence. Qed.

Lemma sameCookie_bufKV c kv : sameCookie (set_ck_bufKV kv c) c.
Proof. done. Qed.

Lemma runAttrs_app s1 s2 c c' :
  runAttrs s1 c = (c', None) -> runAttrs (s1 ++ s2) c = runAttrs s2 c'.
Proof.
  revert c. induction s1 as [|seg s1 IH]; intros c; simpl; [by intros [= ->]|].
  destruct (parseCookieAttr _ _) as [c2 [e|]]; [done|]. apply IH.
Qed.

(** Running an optional attribute that sets a field by [f]. *)
Lemma runAttrs_opt (b : bool) seg k v (f : Cookie -> Cookie) c d :
  (forall x y, sameCookie x y -> sameCookie (f x) (f y)) ->
  (b = true -> cookiePair seg = (k, v)) ->
  (b = true -> forall x nov, parseCookieAttr x (ArgsKV k v nov) = (f x, None)) ->
  sameCookie c d ->
  exists c', runAttrs (if b then [seg] else []) c = (c', None) /\ sameCookie c' (if b then f d else d).
Proof.
  intros Hf Hp Ha S. destruct b; [|by exists c]. specialize (Hp eq_refl). cbn [runAttrs].
  assert (forall nov, parseCookiePair nov seg = ArgsKV k v nov) as E.
  { intros nov. destruct (parseCookiePair_nov nov seg) as [E1 E2]. rewrite Hp in *. simpl in *.
    assert (noValue (parseCookiePair nov seg) = nov) as E3.
    { unfold parseCookiePair. by destruct (IndexByte seg "="). }
    destruct (parseCookiePair nov seg); simpl in *. by subst. }
  rewrite E, Ha by done. eexists. split; [done|]. apply Hf. by rewrite sameCookie_bufKV.
Qed.

Ltac same_cookie :=
  let x := fresh in let y := fresh in
  intros x y; destruct x, y; unfold sameCookie; simpl; intros ?; simplify_eq/=; done.

(** The printed attributes, one segment each. *)
Definition keyedSeg (k v : bytes) : bytes := " "%byte :: k ++ "="%byte :: v.

Definition sameSiteSeg (m : CookieSameSite) : bytes :=
  match m with
  | CookieSameSiteDisabled => []
  | CookieSameSiteDefaultMode => " "%byte :: strCookieSameSite
  | CookieSameSiteLaxMode => keyedSeg strCookieSameSite strCookieSameSiteLax
  | CookieSameSiteStrictMode => keyedSeg strCookieSameSite strCookieSameSiteStrict
  | CookieSameSiteNoneMode => keyedSeg strCookieSameSite strCookieSameSiteNone
  end.

Definition isDisabled (m : CookieSameSite) : bool :=
  match m with CookieSameSiteDisabled => true | _ => false end.

Definition joinSegs (segs : list bytes) : bytes := concat (map (cons ";"%byte) segs).

Lemma joinSegs_app s1 s2 : joinSegs (s1 ++ s2) = joinSegs s1 ++ joinSegs s2.
Proof. unfold joinSegs. by rewrite map_app, concat_app. Qed.

Lemma joinSegs_one s : joinSegs [s] = ";"%byte :: s.
Proof. unfold joinSegs. simpl. by rewrite app_nil_r. Qed.

Lemma append_part_opt (b : bool) dst k v :
  (if b then appendCookiePart dst k v else dst) = dst ++ joinSegs (if b then [keyedSeg k v] else []).
Proof. unfold joinSegs. destruct b; simpl; by rewrite ?app_nil_r. Qed.

Lemma append_flag_opt (b : bool) dst k :
  (if b then dst ++ semi ++ k else dst) = dst ++ joinSegs (if b then [" "%byte :: k] else []).
Proof. unfold joinSegs. destruct b; simpl; by rewrite ?app_nil_r. Qed.

Lemma appendSameSite_spec dst m :
  appendSameSite dst m = dst ++ joinSegs (if negb (isDisabled m) then [sameSiteSeg m] else []).
Proof. destruct m; unfold joinSegs; simpl; rewrite ?app_nil_r; done. Qed.

(** The attributes after the expiry. *)
Definition tailSegs (c : Cookie) : list bytes :=
  (if Nat.ltb 0 (length (ck_domain c)) then [keyedSeg strCookieDomain (ck_domain c)] else []) ++
  (if Nat.ltb 0 (length (ck_path c)) then [keyedSeg strCookiePath (ck_path c)] else []) ++
  (if ck_httpOnly c then [" "%byte :: strCookieHTTPOnly] else []) ++
  (if ck_secure c then [" "%byte :: strCookieSecure] else []) ++
  (if negb (isDisabled (ck_sameSite c)) then [sameSiteSeg (ck_sameSite c)] else []).

Definition appendTail (c : Cookie) (dst : bytes) : bytes :=
  let dst := if Nat.ltb 0 (length (ck_domain c)) then appendCookiePart dst strCookieDomain (ck_domain c) else dst in
  let dst := if Nat.ltb 0 (length (ck_path c)) then appendCookiePart dst strCookiePath (ck_path c) else dst in
  let dst := if ck_httpOnly c then dst ++ semi ++ strCookieHTTPOnly else dst in
  let dst := if ck_secure c then dst ++ semi ++ strCookieSecure else dst in
  appendSameSite dst (ck_sameSite c).

Lemma appendTail_spec c dst : appendTail c dst = dst ++ joinSegs (tailSegs c).
Proof.
  unfold appendTail, tailSegs. cbv zeta.
  by rewrite appendSameSite_spec, !append_flag_opt, !append_part_opt, !joinSegs_app, !app_assoc.
Qed.

Definition attrSegs (c : Cookie) (age : bytes) : list bytes :=
  (if 0 <? ck_maxAge c then [keyedSeg strCookieMaxAge age] else []) ++
  (if negb (0 <? ck_maxAge c) && negb (IsZero (ck_expire c))
   then [keyedSeg strCookieExpires (AppendHTTPDate [] (ck_expire c))] else []) ++
  tailSegs c.

Lemma Cookie_AppendBytes_spec c dst :
  ck_maxAge c <= maxInt ->
  exists age c', Cookie_AppendBytes c dst =
      Some (c', dst ++ encodePair (ck_key c, ck_value c) ++ joinSegs (attrSegs c age)) /\
    sameCookie c' c /\
    (0 < ck_maxAge c -> age <> [] /\ Forall (fun x => is_digit x = true) age /\ ParseUint age = (ck_maxAge c, None)).
Proof.
  intros Hm. unfold Cookie_AppendBytes. cbv zeta.
  assert ((if Nat.ltb 0 (length (ck_key c)) then dst ++ ck_key c ++ ["="%byte] else dst) ++ ck_value c =
          dst ++ encodePair (ck_key c, ck_value c)) as ->.
  { unfold encodePair. cbn [fst snd]. destruct (Nat.ltb _ _); by rewrite <- ?app_assoc. }
  setoid_rewrite (app_assoc dst (encodePair (ck_key c, ck_value c))).
  set (dst1 := dst ++ encodePair _). clearbody dst1. unfold attrSegs.
  destruct (Z.ltb_spec 0 (ck_maxAge c)) as [Hp|Hp].
  - destruct (AppendUint_spec (dst1 ++ semi ++ strCookieMaxAge ++ ["="%byte]) (ck_maxAge c)) as (d & -> & Hd & _ & Fd & V); [lia|].
    exists d, c. split_and!; [|done|].
    + cbn [mbind option_bind]. do 2 f_equal. change (appendTail c ((dst1 ++ semi ++ strCookieMaxAge ++ ["="%byte]) ++ d) = dst1 ++ joinSegs ([keyedSeg strCookieMaxAge d] ++ tailSegs c)).
      rewrite appendTail_spec, joinSegs_app, joinSegs_one. by rewrite <- !app_assoc.
    + intros _. split_and!; try done. rewrite <- V. apply ParseUint_digits; try done. lia.
  - destruct (IsZero (ck_expire c)); cbn [negb andb].
    + exists [], c. split_and!; [|done|lia]. cbn [mbind option_bind]. do 2 f_equal. apply (appendTail_spec c).
    + eexists [], _. split_and!; [|apply sameCookie_bufKV|lia]. cbn [mbind option_bind]. do 2 f_equal.
      match goal with |- _ = dst1 ++ joinSegs (_ ++ [?s] ++ _) => change (appendTail c (dst1 ++ ";"%byte :: s) = dst1 ++ joinSegs ([s] ++ tailSegs c)) end.
      rewrite appendTail_spec, joinSegs_app, joinSegs_one. by rewrite <- !app_assoc.
Qed.

(** *** Reading the attributes back *)

Definition cleanSeg (seg : bytes) : Prop := (";"%byte ∉ seg) /\ seg <> [].

Lemma cookieSegs_join first segs :
  cleanSeg first -> Forall cleanSeg segs -> cookieSegs (first ++ joinSegs segs) = first :: segs.
Proof.
  intros Hf Hs. revert first Hf. induction Hs as [|seg segs Hseg Hs IH]; intros first [Nf Hne].
  - rewrite cookieSegs_cons; [done|done|by left|]. by destruct first.
  - change (joinSegs (seg :: segs)) with (";"%byte :: (seg ++ joinSegs segs)).
    rewrite cookieSegs_cons; [|done|right; eauto|by destruct first]. simpl tl. by rewrite IH.
Qed.

Lemma valueText_digits d : Forall (fun x => is_digit x = true) d -> valueText d.
Proof.
  intros F. assert (forall c, c ∈ d -> is_digit c = true) as Hd by (by apply Forall_forall).
  split_and!.
  - intros E. by apply Hd in E.
  - split; [destruct d as [|x r]|destruct (exists_last_or_nil d) as [->|(r & x & ->)]]; simpl; try done.
    + intros [= ->]. assert (is_digit " " = true) by (apply Hd; left). done.
    + rewrite last_snoc. intros [= ->]. specialize (Hd " "%byte).
      assert (is_digit " " = true) by (apply Hd; apply elem_of_app; right; by left). done.
  - intros (_ & E & _). destruct d as [|x r]; [done|]. injection E as ->.
    assert (is_digit x22 = true) by (apply Hd; left). done.
Qed.

Lemma valueText_date b : dateText b -> valueText b.
Proof. intros (N & _ & H1 & H2 & H3). split_and!; try done. intros (_ & ? & _). done. Qed.

Lemma cookiePair_keyed k v :
  k <> [] -> "="%byte ∉ k -> trimmed k -> valueText v -> cookiePair (keyedSeg k v) = (k, v).
Proof.
  intros Hk Nk Tk (_ & Tv & Uv). unfold keyedSeg. rewrite cookiePair_space.
  pose proof (cookiePair_encode k v Nk Tk Tv Uv ltac:(done)) as E. unfold encodePair in E. cbn [fst snd] in E.
  destruct k as [|c k]; [done|]. cbn [length Nat.ltb Nat.leb] in E. by rewrite <- app_assoc in E.
Qed.

Lemma cleanSeg_keyed k v : ";"%byte ∉ k -> ";"%byte ∉ v -> cleanSeg (keyedSeg k v).
Proof.
  intros Nk Nv. split; [|done]. unfold keyedSeg.
  rewrite not_elem_of_cons, not_elem_of_app, not_elem_of_cons. naive_solver.
Qed.

(** The cookies whose printed form carries all their attributes. *)
Record wfCookie `{!TimeLaws} (c : Cookie) : Prop := {
  wf_pair : printablePair (ck_key c, ck_value c);
  wf_age : 0 <= ck_maxAge c <= maxInt;
  wf_expire : ck_expire c = zeroTime \/ (ck_maxAge c = 0 /\ printableTime (ck_expire c));
  wf_domain : valueText (ck_domain c);
  wf_path : valueText (ck_path c)
}.

(** Membership in a closed byte string, by search. *)
Ltac not_in := apply IndexByte_None; vm_compute; reflexivity.
Ltac is_trimmed := split; vm_compute; congruence.

Lemma attrSegs_clean `{!TimeLaws} c age :
  wfCookie c -> (0 < ck_maxAge c -> Forall (fun x => is_digit x = true) age) -> Forall cleanSeg (attrSegs c age).
Proof.
  intros W Ha. unfold attrSegs, tailSegs. rewrite !Forall_app. split_and!.
  - destruct (Z.ltb_spec 0 (ck_maxAge c)); [|constructor]. constructor; [|constructor].
    apply cleanSeg_keyed; [not_in|]. apply valueText_digits. auto.
  - destruct (Z.ltb_spec 0 (ck_maxAge c)), (IsZero (ck_expire c)) eqn:Ez; try constructor; [|constructor].
    apply cleanSeg_keyed; [not_in|]. destruct (wf_expire _ W) as [E|[_ P]].
    + rewrite E, (proj2 (IsZero_true _) eq_refl) in Ez. done.
    + by apply httpDate_text.
  - destruct (Nat.ltb _ _); constructor; [|constructor]. apply cleanSeg_keyed; [not_in|]. apply (wf_domain _ W).
  - destruct (Nat.ltb _ _); constructor; [|constructor]. apply cleanSeg_keyed; [not_in|]. apply (wf_path _ W).
  - destruct (ck_httpOnly c); constructor; [|constructor]. split; [not_in|done].
  - destruct (ck_secure c); constructor; [|constructor]. split; [not_in|done].
  - destruct (ck_sameSite c); constructor; try constructor; first [not_in|done].
Qed.

(** One step of the chain below. *)
Ltac opt_step S :=
  eapply runAttrs_opt; [same_cookie| | |exact S].

Lemma runAttrs_tail `{!TimeLaws} c c0 d :
  wfCookie c -> sameCookie c0 d -> ck_domain d = [] -> ck_path d = [] -> ck_httpOnly d = false ->
  ck_secure d = false -> ck_sameSite d = CookieSameSiteDisabled ->
  exists c', runAttrs (tailSegs c) c0 = (c', None) /\
    sameCookie c' (MkCookie (ck_key d) (ck_value d) (ck_expire d) (ck_maxAge d) (ck_domain c) (ck_path c)
                     (ck_httpOnly c) (ck_secure c) (ck_sameSite c) zeroKV []).
Proof.
  intros W S0 Ed Ep Eh Es Em. unfold tailSegs.
  edestruct (runAttrs_opt (Nat.ltb 0 (length (ck_domain c))) (keyedSeg strCookieDomain (ck_domain c)) strCookieDomain (ck_domain c)
               (set_ck_domain (ck_domain c))) as (c1 & R1 & S1); [same_cookie| |done|exact S0|].
  { intros _. apply cookiePair_keyed; [done|not_in|is_trimmed|apply (wf_domain _ W)]. }
  edestruct (runAttrs_opt (Nat.ltb 0 (length (ck_path c))) (keyedSeg strCookiePath (ck_path c)) strCookiePath (ck_path c)
               (set_ck_path (ck_path c))) as (c2 & R2 & S2); [same_cookie| |done|exact S1|].
  { intros _. apply cookiePair_keyed; [done|not_in|is_trimmed|apply (wf_path _ W)]. }
  edestruct (runAttrs_opt (ck_httpOnly c) (" "%byte :: strCookieHTTPOnly) [] strCookieHTTPOnly
               (set_ck_httpOnly true)) as (c3 & R3 & S3); [same_cookie|done|done|exact S2|].
  edestruct (runAttrs_opt (ck_secure c) (" "%byte :: strCookieSecure) [] strCookieSecure
               (set_ck_secure true)) as (c4 & R4 & S4); [same_cookie|done|done|exact S3|].
  edestruct (runAttrs_opt (negb (isDisabled (ck_sameSite c))) (sameSiteSeg (ck_sameSite c))
               (fst (cookiePair (sameSiteSeg (ck_sameSite c)))) (snd (cookiePair (sameSiteSeg (ck_sameSite c))))
               (set_ck_sameSite (ck_sameSite c))) as (c5 & R5 & S5); [same_cookie| | |exact S4|].
  { by destruct (cookiePair _). }
  { intros Eb x nov. by destruct (ck_sameSite c). }
  exists c5. split.
  - rewrite (runAttrs_app _ _ _ _ R1), (runAttrs_app _ _ _ _ R2), (runAttrs_app _ _ _ _ R3), (runAttrs_app _ _ _ _ R4). done.
  - rewrite S5. clear -Ed Ep Eh Es Em. destruct c as [? ? ? ? dom pa ho se ss ? ?], d; simpl in *. subst.
    destruct dom, pa, ho, se, ss; done.
Qed.

Lemma runAttrs_attrSegs `{!TimeLaws} c age c0 :
  wfCookie c -> (0 < ck_maxAge c -> valueText age /\ ParseUint age = (ck_maxAge c, None)) ->
  sameCookie c0 (set_ck_value (ck_value c) (set_ck_key (ck_key c) (Cookie_Reset c))) ->
  exists c', runAttrs (attrSegs c age) c0 = (c', None) /\ sameCookie c' c.
Proof.
  intros W Hage S0. unfold attrSegs.
  edestruct (runAttrs_opt (0 <? ck_maxAge c) (keyedSeg strCookieMaxAge age) strCookieMaxAge age
               (set_ck_maxAge (ck_maxAge c))) as (c1 & R1 & S1); [same_cookie| | |exact S0|].
  { intros E%Z.ltb_lt. apply cookiePair_keyed; [done|not_in|is_trimmed|by apply Hage]. }
  { intros E%Z.ltb_lt x nov. destruct (Hage E) as [_ P]. unfold parseCookieAttr. simpl. by rewrite P. }
  assert (negb (0 <? ck_maxAge c) && negb (IsZero (ck_expire c)) = true -> printableTime (ck_expire c)) as Hpt.
  { intros [_ E%negb_true_iff]%andb_true_iff. destruct (wf_expire _ W) as [Ez|[_ P]]; [|done].
    by rewrite Ez, (proj2 (IsZero_true _) eq_refl) in E. }
  edestruct (runAttrs_opt (negb (0 <? ck_maxAge c) && negb (IsZero (ck_expire c)))
               (keyedSeg strCookieExpires (AppendHTTPDate [] (ck_expire c))) strCookieExpires
               (AppendHTTPDate [] (ck_expire c)) (set_ck_expire (ck_expire c))) as (c2 & R2 & S2);
    [same_cookie| | |exact S1|].
  { intros E. apply cookiePair_keyed; [done|not_in|is_trimmed|]. apply valueText_date, httpDate_text. auto. }
  { intros E x nov. unfold parseCookieAttr. simpl. by rewrite (parse_httpDate _ (Hpt E)). }
  edestruct (runAttrs_tail c c2 _ W S2) as (c3 & R3 & S3).
  1-5: destruct (0 <? ck_maxAge c), (IsZero (ck_expire c)); reflexivity.
  exists c3. split; [by rewrite (runAttrs_app _ _ _ _ R1), (runAttrs_app _ _ _ _ R2)|].
  rewrite S3. pose proof (wf_age _ W) as Wa. pose proof (wf_expire _ W) as We. clear -We Wa H0.
  assert (IsZero (ck_expire c) = true -> ck_expire c = zeroTime) as Hz by apply IsZero_true.
  destruct c as [? ? ex ma ? ? ? ? ? ? ?]; simpl in *. unfold sameCookie. simpl.
  destruct (Z.ltb_spec 0 ma); simpl.
  - destruct We as [->|[? _]]; [done|lia].
  - assert (ma = 0) as -> by lia. destruct (IsZero ex); simpl; [by rewrite Hz|done].
Qed.

End CookieLemmas.

(** ** A concrete package time

    Times as Unix seconds written in decimal: an instance of the interface
    for which its laws hold, used by the witnesses. *)

Definition daysFromCivil (y m d : Z) : Z :=
  let y := if m <=? 2 then y - 1 else y in
  let era := y / 400 in
  let yoe := y mod 400 in
  let doy := (153 * ((m + 9) mod 12) + 2) / 5 + d - 1 in
  era * 146097 + (yoe * 365 + yoe / 4 - yoe / 100 + doy) - 719468.

Definition parseSeconds (b : bytes) : Z * option error := ParseUint (take (length b - 4) b).

#[export] Instance unixTime : TimeLib := {
  Time := Z;
  zeroTime := 0;
  IsZero t := t =? 0;
  timeDate y m d h mi s := daysFromCivil y m d * 86400 + h * 3600 + mi * 60 + s;
  formatRFC1123 t := fmtInt t ++ bs " UTC";
  parseRFC1123 := parseSeconds;
  parseRFC1123Dashes := parseSeconds
}.

Lemma AppendHTTPDate_unix (t : @Time unixTime) : AppendHTTPDate [] t = fmtInt t ++ bs " GMT".
Proof.
  unfold AppendHTTPDate. cbv zeta. cbn [app].
  assert (formatRFC1123 t = (fmtInt t ++ bs " ") ++ bs "UTC") as -> by (by rewrite <- app_assoc).
  set (l := fmtInt t ++ bs " ").
  assert (length (l ++ bs "UTC") - 3 = length l)%nat as -> by (rewrite length_app; simpl; lia).
  rewrite take_app_exact, drop_app_exact. subst l. by rewrite <- app_assoc.
Qed.

#[export] Instance unixTime_laws : TimeLaws.
Proof.
  refine {| printableTime := fun t : @Time unixTime => 0 <= t <= maxInt |}.
  - intros t. apply Z.eqb_eq.
  - intros t Ht. rewrite AppendHTTPDate_unix. destruct (fmtInt_nonneg t Ht) as (F & Hne & _).
    assert (forall c, c ∈ fmtInt t -> is_digit c = true) as Hd by (by apply Forall_forall).
    split_and!.
    + rewrite not_elem_of_app. split; [intros E; by apply Hd in E|].
      apply IndexByte_None. vm_compute. reflexivity.
    + by destruct (fmtInt t).
    + destruct (fmtInt t) as [|c r]; [done|]. intros [= ->]. assert (is_digit " " = true) by (apply Hd; left). done.
    + destruct (fmtInt t) as [|c r]; [done|]. intros [= ->]. assert (is_digit x22 = true) by (apply Hd; left). done.
    + rewrite last_app. done.
  - intros t Ht. rewrite AppendHTTPDate_unix. simpl. unfold parseSeconds.
    assert (length (fmtInt t ++ bs " GMT") - 4 = length (fmtInt t))%nat as -> by (rewrite length_app; simpl; lia).
    rewrite take_app_exact. destruct (fmtInt_nonneg t Ht) as (F & Hne & V).
    rewrite ParseUint_digits, V; [done..|]. rewrite V. lia.
Defined.

(** * Properties *)

(** parseRequestCookies never panics and appends exactly the pairs of the
    header value: cut at each semicolon, each piece cut at its first [=],
    blanks and the value's surrounding quotes removed, empty pieces dropped.
    Neither the elements already there nor stale storage influence it. *)
Lemma parseRequestCookies_correct (cookies : kvs) (src : bytes) :
  exists h', parseRequestCookies cookies src = Some h' /\
    visitArgs (live h') = visitArgs (live cookies) ++ parsedCookies src.
Proof.
  destruct (parseRequestCookies_spec cookies src) as (l & sp & -> & E).
  eexists. split; [done|]. simpl. by rewrite visitArgs_app, E.
Qed.

(** A Cookie header written by appendRequestCookieBytes is read back as
    the same pairs in the same order. *)
Lemma parseRequestCookies_append (cookies : list argsKV)
    (H : Forall printablePair (visitArgs cookies)) :
  exists h', parseRequestCookies nilKvs (appendRequestCookieBytes [] cookies) = Some h' /\
    visitArgs (live h') = visitArgs cookies.
Proof.
  destruct (parseRequestCookies_spec nilKvs (appendRequestCookieBytes [] cookies)) as (l & sp & -> & E).
  eexists. split; [done|]. simpl. by rewrite E, parsedCookies_print.
Qed.

Lemma parseRequestCookies_append_witness :
  let cookies := [ArgsKV (bs "sid") (bs "a=b c") false; ArgsKV [] (bs "flag") false] in
  Forall printablePair (visitArgs cookies) /\
  exists h', parseRequestCookies nilKvs (appendRequestCookieBytes [] cookies) = Some h' /\
    visitArgs (live h') = visitArgs cookies.
Proof.
  assert (Forall printablePair (visitArgs [ArgsKV (bs "sid") (bs "a=b c") false; ArgsKV [] (bs "flag") false])) as F.
  { apply (bool_decide_unpack _). vm_compute. exact I. }
  split; [exact F|]. apply (parseRequestCookies_append _ F).
Defined.

(** ParseBytes is the left-to-right interpretation of the semicolon
    separated attributes: the first piece is the pair, each other piece is
    applied once, the first invalid Max-Age or Expires stops it with its
    error, and a text without any piece is [errNoCookies]. *)
Lemma Cookie_ParseBytes_correct `{TimeLib} (c : Cookie) (src : bytes) :
  Cookie_ParseBytes c src =
  match cookieSegs src with
  | [] => (Cookie_Reset c, Some errNoCookies)
  | seg :: segs =>
      let kv := parseCookiePair (noValue (ck_bufKV c)) seg in
      runAttrs segs (set_ck_value (value kv) (set_ck_key (key kv) (set_ck_bufKV kv (Cookie_Reset c))))
  end.
Proof. apply Cookie_ParseBytes_spec. Qed.

(** C37. A cookie with printable parts survives printing and parsing: every
    attribute is read back, whatever the receiving object held before. *)
Theorem Cookie_Parse_AppendBytes `{TimeLib, !TimeLaws} (c c0 : Cookie) (W : wfCookie c) :
  exists c1 b c2, Cookie_AppendBytes c [] = Some (c1, b) /\ Cookie_ParseBytes c0 b = (c2, None) /\
    sameCookie c1 c /\ sameCookie c2 c.
Proof.
  destruct (Cookie_AppendBytes_spec c []) as (age & c1 & E & S1 & Ha); [apply (wf_age _ W)|].
  cbn [app] in E.
  pose proof (encodePair_clean _ (wf_pair _ W)) as Hc.
  pose proof (encodePair_ne _ (proj1 (wf_pair _ W))) as Hn.
  destruct (runAttrs_attrSegs c age (set_ck_value (ck_value c) (set_ck_key (ck_key c)
    (set_ck_bufKV (parseCookiePair (noValue (ck_bufKV c0)) (encodePair (ck_key c, ck_value c))) (Cookie_Reset c0)))) W)
    as (c2 & R & S2).
  - intros Hp. destruct (Ha Hp) as (_ & F & P). split; [by apply valueText_digits|done].
  - done.
  - exists c1, (encodePair (ck_key c, ck_value c) ++ joinSegs (attrSegs c age)), c2.
    split_and!; try done. rewrite Cookie_ParseBytes_spec, cookieSegs_join; [|done|].
    + cbv zeta. destruct (parseCookiePair_nov (noValue (ck_bufKV c0)) (encodePair (ck_key c, ck_value c))) as [-> ->].
      destruct (wf_pair _ W) as (_ & ? & ? & ? & (? & ? & ?) & ?).
      rewrite cookiePair_encode by done. exact R.
    + apply attrSegs_clean; [done|]. intros Hp. by destruct (Ha Hp) as (_ & F & _).
Qed.

Lemma Cookie_Parse_AppendBytes_witness :
  let c := MkCookie (bs "sid") (bs "x=1") (zeroTime : Time) 3600 (bs "foo.com") (bs "/a") true true
             CookieSameSiteStrictMode zeroKV [] in
  wfCookie c /\
  exists c1 b c2, Cookie_AppendBytes c [] = Some (c1, b) /\ Cookie_ParseBytes emptyCookie b = (c2, None) /\
    sameCookie c1 c /\ sameCookie c2 c.
Proof.
  assert (wfCookie (MkCookie (bs "sid") (bs "x=1") (zeroTime : Time) 3600 (bs "foo.com") (bs "/a") true true
             CookieSameSiteStrictMode zeroKV [])) as W.
  { split; simpl.
    - apply (bool_decide_unpack _). vm_compute. exact I.
    - unfold maxInt. lia.
    - by left.
    - apply (bool_decide_unpack (valueText (bs "foo.com"))). vm_compute. exact I.
    - apply (bool_decide_unpack (valueText (bs "/a"))). vm_compute. exact I. }
  split; [exact W|]. apply (Cookie_Parse_AppendBytes _ emptyCookie W).
Defined.

(** SetSameSite(None) also sets Secure, as its comment promises; ParseBytes
    accepts [SameSite=None] without it, so a parsed cookie can be one the
    setters never build and browsers reject. *)
Lemma Cookie_Parse_SameSite_None `{TimeLib} (c : Cookie) :
  ck_secure (Cookie_SetSameSite c CookieSameSiteNoneMode) = true /\
  exists c', Cookie_ParseBytes c (bs "a=b; SameSite=None") = (c', None) /\
    ck_sameSite c' = CookieSameSiteNoneMode /\ ck_secure c' = false.
Proof. split; [done|]. eexists. split; [reflexivity|]. done. Qed.
