(* ===== verification/PathStore.v ===== *)
(** * The storage of paths

    A path of a URI or of a cookie is a slice: normalizePath and append write into
    the array it has (uri.go, cookie.go).  Uri and Cookie treat paths as values.  Here
    they are slices over a store of arrays.  Treating them as values is right as long
    as no path is a [/..] with nothing before it (see [paths_are_values]): for
    such a path normalizePath returns the package's own strSlash, and later writes
    to the path go to the array of strSlash. *)
From Stdlib Require Import Strings.String.
From stdpp Require Import list_tactics.
From S2P Require Import Prelude BytesConv Consts Args Uri Cookie.
#[local] Open Scope nat_scope.

(** ** Slices *)

(** A store is a list of arrays; a slice of a path starts at the head of its array,
    whose length is the slice's capacity.  The array of strSlash is the first; its
    capacity is the choice of the compiler. *)
Record pathSlice := MkPath { pt_arr : nat; pt_len : nat }.

Definition strSlashPath : pathSlice := MkPath 0 (length strSlash).
Definition readPath (st : list bytes) (p : pathSlice) : bytes := take (pt_len p) (st !!! pt_arr p).

(** [append(p, v...)]: in place when there is room, else in a new array with some
    more room. *)
Definition appendTo (room : nat) (st : list bytes) (p : pathSlice) (v : bytes) : list bytes * pathSlice :=
  let a := st !!! pt_arr p in
  let n := pt_len p + length v in
  if decide (n <= length a) then (<[pt_arr p := take (pt_len p) a ++ v ++ drop n a]> st, MkPath (pt_arr p) n)
  else (st ++ [take (pt_len p) a ++ v ++ replicate room x00], MkPath (length st) n).

Definition emptied (p : pathSlice) : pathSlice := MkPath (pt_arr p) 0.

(** ** normalizePath *)

(** What decodeArgAppendNoPlus appends at a time when there is something to decode. *)
Fixpoint decodePieces (s : bytes) : list bytes :=
  match s with
  | [] => []
  | c :: s' =>
      if decide (c = "%"%byte) then
        match s' with
        | c1 :: c2 :: s'' =>
            let x2 := tbl hex2intTable c2 in
            let x1 := tbl hex2intTable c1 in
            if decide (bz x1 = 16 \/ bz x2 = 16)%Z then ["%"%byte] :: decodePieces s'
            else [zb (Z.lor (bz (zb (Z.shiftl (bz x1) 4))) (bz x2))] :: decodePieces s''
        | _ => [s]
        end
      else [c] :: decodePieces s'
  end.

(** What normalizePath appends to [dst[:0]]: the leading slash, and the decoded source. *)
Definition pathPieces (src : bytes) : list bytes :=
  addLeadingSlash [] src :: match IndexByte src "%" with None => [src] | Some _ => decodePieces src end.

(** The three loops, which move bytes down in the array. *)
Definition pathLoops (b : bytes) : bytes :=
  let b := dedupLoop (length b) [] b in
  let b := dotLoop (length b) b in
  dotDotLoop (length b) b.

(** The [return strSlash]. *)
Definition returnsStrSlash (b : bytes) : bool :=
  match LastIndex b strSlashDotDot with
  | Some n => if decide (n + length strSlashDotDot = length b) then bool_decide (LastIndexByte (take n b) "/" = None) else false
  | None => false
  end.

(** normalizePath(dst, src) on slices.  What the loops leave in the array behind the
    result is not read. *)
Definition normalizePathIn (room : nat) (st : list bytes) (dst : pathSlice) (src : bytes) : list bytes * pathSlice :=
  let '(st, p) := foldl (fun '(st, p) v => appendTo room st p v) (st, emptied dst) (pathPieces src) in
  let b := pathLoops (readPath st p) in
  let st := <[pt_arr p := b ++ drop (length b) (st !!! pt_arr p)]> st in
  if returnsStrSlash b then (st, strSlashPath) else (st, MkPath (pt_arr p) (length (trailingDotDot b))).

(** ** Objects with a path *)

(** SetPath of a URI or of a cookie (and the end of URI.parse); a path copied or
    parsed into the object ([append(path[:0], v...)] in CopyTo and Cookie.ParseBytes);
    Reset. *)
Inductive pathOp := SetPath (i : nat) (src : bytes) | StorePath (i : nat) (v : bytes) | ResetPath (i : nat).

Record pathWorld := MkPathWorld { pw_store : list bytes; pw_paths : list pathSlice }.

Definition onPath (i : nat) (s : pathWorld) (f : list bytes -> pathSlice -> list bytes * pathSlice) : pathWorld :=
  match pw_paths s !! i with
  | Some p => let '(st, p) := f (pw_store s) p in MkPathWorld st (<[i := p]> (pw_paths s))
  | None => s
  end.

Definition pathStep (room : nat) (s : pathWorld) (op : pathOp) : pathWorld :=
  match op with
  | SetPath i src => onPath i s (fun st p => normalizePathIn room st p src)
  | StorePath i v => onPath i s (fun st p => appendTo room st (emptied p) v)
  | ResetPath i => onPath i s (fun st p => (st, emptied p))
  end.

(** [n] objects whose paths are nil, and strSlash. *)
Definition newPaths (spare : bytes) (n : nat) : pathWorld :=
  MkPathWorld ((strSlash ++ spare) :: replicate n []) (map (fun i => MkPath (S i) 0) (seq 0 n)).

(** The same operations on paths as values. *)
Definition valueStep (vs : list bytes) (op : pathOp) : list bytes :=
  match op with
  | SetPath i src => <[i := normalizePath src]> vs
  | StorePath i v => <[i := v]> vs
  | ResetPath i => <[i := []]> vs
  end.

(** A source whose normalisation returns strSlash. *)
Definition slashSource (src : bytes) : bool := returnsStrSlash (pathLoops (decodeArgAppendNoPlus (addLeadingSlash [] src) src)).
Definition keepsApart (op : pathOp) : Prop := match op with SetPath _ src => slashSource src = false | _ => True end.

(** ** What an append changes *)

(** From store [st] to [st'], of the arrays there were only [a] may have changed, and
    [p] is in [a] or in a new array, which holds it. *)
Record writes (st : list bytes) (a : nat) (st' : list bytes) (p : pathSlice) : Prop := {
  wr_grows : length st <= length st';
  wr_frame : forall k, k < length st -> k <> a -> st' !!! k = st !!! k;
  wr_in : pt_arr p < length st';
  wr_where : pt_arr p = a \/ length st <= pt_arr p;
  wr_fits : pt_len p <= length (st' !!! pt_arr p)
}.

Lemma writes_refl st p : pt_arr p < length st -> pt_len p <= length (st !!! pt_arr p) -> writes st (pt_arr p) st p.
Proof. intros. split; auto. Qed.

Lemma writes_trans st a st1 p1 st2 p2 : writes st a st1 p1 -> writes st1 (pt_arr p1) st2 p2 -> writes st a st2 p2.
Proof.
  intros [G1 F1 I1 W1 B1] [G2 F2 I2 W2 B2]. split; [lia| |done|lia|done]. intros k Hk Hn. rewrite F2 by lia. by apply F1.
Qed.

Lemma writes_insert st p a : pt_arr p < length st -> pt_len p <= length a -> writes st (pt_arr p) (<[pt_arr p := a]> st) p.
Proof.
  intros Hp Hl. split; rewrite ?length_insert; [done| |done|by left|by rewrite list_lookup_total_insert_eq by done].
  intros k _ Hk. by rewrite list_lookup_total_insert_ne by done.
Qed.

Lemma appendTo_spec room st p v :
  pt_arr p < length st -> pt_len p <= length (st !!! pt_arr p) ->
  let '(st', p') := appendTo room st p v in writes st (pt_arr p) st' p' /\ readPath st' p' = readPath st p ++ v.
Proof.
  intros Hp Hl. unfold appendTo, readPath. case_decide as Hn; cbn [pt_arr pt_len].
  - split; [|rewrite list_lookup_total_insert_eq, app_assoc by done; apply take_app_length'; rewrite length_app, length_take; lia].
    apply (writes_insert st (MkPath (pt_arr p) (pt_len p + length v))); cbn; [done|]. rewrite !length_app, length_take. lia.
  - assert ((st ++ [take (pt_len p) (st !!! pt_arr p) ++ v ++ replicate room x00]) !!! length st = take (pt_len p) (st !!! pt_arr p) ++ v ++ replicate room x00) as E
      by (by rewrite lookup_total_app_r, Nat.sub_diag by done).
    split; [|rewrite E, app_assoc; apply take_app_length'; rewrite length_app, length_take; lia].
    split; cbn [pt_arr pt_len]; rewrite ?length_app; cbn [length]; [lia| |lia|by right|rewrite E, !length_app, length_take; lia].
    intros k Hk _. by rewrite lookup_total_app_l by done.
Qed.

Lemma appendPieces_spec room pieces st p :
  pt_arr p < length st -> pt_len p <= length (st !!! pt_arr p) ->
  let '(st', p') := foldl (fun '(st, p) v => appendTo room st p v) (st, p) pieces in
  writes st (pt_arr p) st' p' /\ readPath st' p' = readPath st p ++ concat pieces.
Proof.
  revert st p. induction pieces as [|v pieces IH]; intros st p Hp Hl; cbn [foldl concat].
  - rewrite app_nil_r. split; [by apply writes_refl|done].
  - pose proof (appendTo_spec room st p v Hp Hl) as A. destruct (appendTo room st p v) as [st1 p1], A as [W1 E1].
    pose proof (IH st1 p1 (wr_in _ _ _ _ W1) (wr_fits _ _ _ _ W1)) as B. destruct (foldl _ _ _) as [st2 p2], B as [W2 E2].
    split; [by eapply writes_trans|]. by rewrite E2, E1, app_assoc.
Qed.

(** ** normalizePath on slices and on values *)

Lemma decodePieces_concat s : concat (decodePieces s) = decodeLoop false s.
Proof.
  remember (length s) as n eqn:E. assert (length s <= n) as L by lia. clear E. revert s L.
  induction n as [|n IH]; intros [|c s] L; cbn [length] in L; try done; [lia|]. cbn [decodePieces decodeLoop andb]. case_decide.
  - destruct s as [|c1 [|c2 s]]; [by subst..|]. cbn [length] in L. case_decide; cbn [concat app]; f_equal; apply IH; cbn [length]; lia.
  - cbn [concat app]. f_equal. apply IH. lia.
Qed.

Lemma pathPieces_concat src : concat (pathPieces src) = decodeArgAppendNoPlus (addLeadingSlash [] src) src.
Proof.
  unfold pathPieces, decodeArgAppendNoPlus. cbn [concat]. destruct (IndexByte src "%"); [by rewrite decodePieces_concat|cbn; by rewrite app_nil_r].
Qed.

Lemma normalizePath_loops src : normalizePath src = trailingDotDot (pathLoops (decodeArgAppendNoPlus (addLeadingSlash [] src) src)).
Proof. done. Qed.

(** Unless it is strSlash, the result is the beginning of what is in the array. *)
Lemma trailingDotDot_prefix b : returnsStrSlash b = false -> trailingDotDot b = take (length (trailingDotDot b)) b /\ length (trailingDotDot b) <= length b.
Proof.
  unfold returnsStrSlash, trailingDotDot. destruct (LastIndex b strSlashDotDot) as [n|]; [|intros _; by rewrite firstn_all].
  case_decide; [|intros _; by rewrite firstn_all]. destruct (LastIndexByte (take n b) "/") as [nn|]; [intros _|done].
  rewrite length_take. split; [|lia]. by destruct (Nat.min_spec (nn + 1) (length b)) as [[? ->]|[? ->]]; rewrite ?(take_ge b (nn + 1)), ?firstn_all by lia.
Qed.

Lemma normalizePathIn_spec room st dst src :
  pt_arr dst < length st -> slashSource src = false ->
  let '(st', p) := normalizePathIn room st dst src in writes st (pt_arr dst) st' p /\ readPath st' p = normalizePath src.
Proof.
  intros Hd Hs. unfold normalizePathIn. pose proof (appendPieces_spec room (pathPieces src) st (emptied dst) Hd (Nat.le_0_l _)) as A.
  destruct (foldl _ _ _) as [st1 p1], A as [W1 E1]. cbn [emptied pt_arr] in W1. change (readPath st (emptied dst)) with (@nil byte) in E1.
  rewrite E1, app_nil_l, pathPieces_concat, normalizePath_loops. unfold slashSource in Hs.
  set (b := pathLoops (decodeArgAppendNoPlus (addLeadingSlash [] src) src)) in *. rewrite Hs. destruct (trailingDotDot_prefix b Hs) as [Eb Hl].
  pose proof (wr_in _ _ _ _ W1) as Hi. split.
  - eapply writes_trans; [exact W1|]. apply (writes_insert st1 (MkPath (pt_arr p1) (length (trailingDotDot b)))); cbn; [done|]. rewrite length_app. lia.
  - unfold readPath. cbn [pt_arr pt_len]. rewrite list_lookup_total_insert_eq by done. rewrite take_app_le by done. by symmetry.
Qed.

(** ** Paths that keep apart *)

(** The paths are slices of different arrays, none of them that of strSlash, and
    read as [vs]. *)
Record apart (s : pathWorld) (vs : list bytes) : Prop := {
  ap_slash : 0 < length (pw_store s) /\ readPath (pw_store s) strSlashPath = strSlash;
  ap_in : forall i p, pw_paths s !! i = Some p -> pt_arr p <> 0 /\ pt_arr p < length (pw_store s) /\ pt_len p <= length (pw_store s !!! pt_arr p);
  ap_distinct : forall i j p q, pw_paths s !! i = Some p -> pw_paths s !! j = Some q -> pt_arr p = pt_arr q -> i = j;
  ap_reads : map (readPath (pw_store s)) (pw_paths s) = vs
}.

Lemma readPath_frame st a st' p q : writes st a st' p -> pt_arr q < length st -> pt_arr q <> a -> readPath st' q = readPath st q.
Proof. intros W Hq Hn. unfold readPath. by rewrite (wr_frame _ _ _ _ W). Qed.

(** An operation on one path that writes to its own array or to a new one. *)
Lemma onPath_apart s vs i f v :
  apart s vs ->
  (forall p, pw_paths s !! i = Some p -> let '(st', p') := f (pw_store s) p in writes (pw_store s) (pt_arr p) st' p' /\ readPath st' p' = v) ->
  apart (onPath i s f) (<[i := v]> vs).
Proof.
  intros [[S1 S2] I D R] Hf. unfold onPath. destruct (pw_paths s !! i) as [p|] eqn:L.
  2:{ rewrite list_insert_ge; [done|]. rewrite <- R, length_map. by apply lookup_ge_None. }
  specialize (Hf p eq_refl). destruct (f (pw_store s) p) as [st' p'], Hf as [W E]. destruct (I i p L) as (N0 & Hin & _).
  assert (forall q, pt_arr q <> 0 -> pt_arr q < length (pw_store s) -> pt_arr q <> pt_arr p -> pt_arr p' <> pt_arr q) as New
    by (intros q ???; destruct (wr_where _ _ _ _ W); lia).
  assert (i < length (pw_paths s)) as Li by (by eapply lookup_lt_Some).
  split; cbn [pw_store pw_paths].
  - pose proof (wr_grows _ _ _ _ W). split; [lia|]. by rewrite (readPath_frame _ _ _ _ _ W) by (cbn; lia).
  - intros j q Hj. destruct (decide (j = i)) as [->|Hn].
    + rewrite list_lookup_insert_eq in Hj by done. injection Hj as <-. split_and!; [|apply (wr_in _ _ _ _ W)|apply (wr_fits _ _ _ _ W)].
      destruct (wr_where _ _ _ _ W); lia.
    + rewrite list_lookup_insert_ne in Hj by done. destruct (I j q Hj) as (A1 & A2 & A3). pose proof (wr_grows _ _ _ _ W).
      split_and!; [done|lia|]. rewrite (wr_frame _ _ _ _ W); [done..|]. intros Ea. apply Hn. by eapply D.
  - intros j k q r Hj Hk Ea. destruct (decide (j = i)) as [->|Hn], (decide (k = i)) as [->|Hm]; [done|..].
    + rewrite list_lookup_insert_eq in Hj by done. rewrite list_lookup_insert_ne in Hk by done. injection Hj as <-. destruct (I k r Hk) as (A1 & A2 & _).
      exfalso. apply (New r); [done..| |done]. intros E2. apply Hm. by eapply D.
    + rewrite list_lookup_insert_eq in Hk by done. rewrite list_lookup_insert_ne in Hj by done. injection Hk as <-. destruct (I j q Hj) as (A1 & A2 & _).
      exfalso. apply (New q); [done..| |done]. intros E2. apply Hn. by eapply D.
    + rewrite list_lookup_insert_ne in Hj, Hk by done. by eapply D.
  - rewrite <- R. apply list_eq. intros j. rewrite list_lookup_fmap. destruct (decide (j = i)) as [->|Hn].
    + rewrite !list_lookup_insert_eq by (rewrite ?length_map; done). cbn. by rewrite E.
    + rewrite !list_lookup_insert_ne by done. rewrite list_lookup_fmap. destruct (pw_paths s !! j) as [q|] eqn:Lj; [|done]. cbn. f_equal.
      destruct (I j q Lj) as (A1 & A2 & _). apply (readPath_frame _ _ _ _ _ W); [done|]. intros Ea. apply Hn. by eapply D.
Qed.

Lemma pathStep_apart room s vs op : apart s vs -> keepsApart op -> apart (pathStep room s op) (valueStep vs op).
Proof.
  intros A K. destruct op as [i src|i v|i]; cbn [pathStep valueStep]; apply onPath_apart; try done; intros p L; destruct (ap_in _ _ A i p L) as (_ & Hp & _).
  - by apply normalizePathIn_spec.
  - apply (appendTo_spec room (pw_store s) (emptied p) v Hp). cbn. lia.
  - split; [|done]. apply (writes_refl (pw_store s) (emptied p) Hp). cbn. lia.
Qed.

Lemma newPaths_apart spare n : apart (newPaths spare n) (replicate n []).
Proof.
  assert (forall i p, map (fun i => MkPath (S i) 0) (seq 0 n) !! i = Some p -> p = MkPath (S i) 0 /\ i < n) as L.
  { intros i p. rewrite list_lookup_fmap. destruct (seq 0 n !! i) as [k|] eqn:E; [|done]. apply lookup_seq in E as [-> Hi]. by intros [= <-]. }
  split; cbn [newPaths pw_store pw_paths].
  - split; [cbn; lia|done].
  - intros i p Hp. apply L in Hp as [-> Hi]. cbn. rewrite length_replicate. split_and!; lia.
  - intros i j p q Hp Hq E. apply L in Hp as [-> _], Hq as [-> _]. by injection E.
  - rewrite map_map. apply list_eq. intros i. rewrite list_lookup_fmap. destruct (decide (i < n)).
    + rewrite lookup_seq_lt, lookup_replicate_2 by done. done.
    + rewrite lookup_seq_ge by lia. symmetry. apply lookup_replicate_None. lia.
Qed.

(** As long as no path that is set is a [/..] with nothing before it, every path
    reads as the value that Uri and Cookie give it, and strSlash stays as it is:
    whatever has been set, copied or parsed into the objects, and reset, before. *)
Lemma paths_are_values room spare n ops :
  Forall keepsApart ops ->
  let s := foldl (pathStep room) (newPaths spare n) ops in
  map (readPath (pw_store s)) (pw_paths s) = foldl valueStep (replicate n []) ops /\ readPath (pw_store s) strSlashPath = strSlash.
Proof.
  intros K. cbv zeta. assert (apart (foldl (pathStep room) (newPaths spare n) ops) (foldl valueStep (replicate n []) ops)) as A.
  { generalize (newPaths_apart spare n). generalize (newPaths spare n), (replicate n (@nil byte)).
    induction K as [|op ops Ho K IH]; intros s vs A; [done|]. apply IH. by apply pathStep_apart. }
  split; [apply (ap_reads _ _ A)|apply (ap_slash _ _ A)].
Qed.

(** ** Paths that do not *)

(** Where normalizePath returns strSlash, its value is still right. *)
Lemma slashSource_value src : slashSource src = true -> normalizePath src = strSlash.
Proof.
  rewrite normalizePath_loops. unfold slashSource. generalize (pathLoops (decodeArgAppendNoPlus (addLeadingSlash [] src) src)). intros b.
  unfold returnsStrSlash, trailingDotDot. destruct (LastIndex b strSlashDotDot) as [n|]; [|done]. case_decide; [|done].
  by destruct (LastIndexByte (take n b) "/").
Qed.

(** A cookie whose path was set to [/..] and which then parses one with a path of
    a byte changes strSlash, for any capacity of it: what every URI without a path
    then returns as its path. *)
Lemma strSlash_is_overwritten spare c :
  readPath (pw_store (foldl (pathStep 0) (newPaths spare 1) [SetPath 0 (bs "/.."); StorePath 0 [c]])) strSlashPath = [c].
Proof. reflexivity. Qed.

(** With a capacity of eight, the least that Go's allocator gives, two URIs that had the path [/..] share their paths from then on. *)
Lemma two_paths_are_one :
  let s := foldl (pathStep 0) (newPaths (replicate 7 x00) 2) [SetPath 0 (bs "/.."); SetPath 1 (bs "/.."); SetPath 0 (bs "/a"); SetPath 1 (bs "/b")] in
  map (readPath (pw_store s)) (pw_paths s) = [bs "/b"; bs "/b"].
Proof. vm_compute. reflexivity. Qed.

(** The path [/..] is the only kind that does it: [/a/..] and [/../a] do not. *)
Example slashSources : map slashSource [bs "/.."; bs "/%2e%2e"; bs "/../.."; bs "/a/.."; bs "/../a"; bs "/"; bs ".."] = [true; true; true; false; false; false; true].
Proof. vm_compute. reflexivity. Qed.
