(* ===== verification/HeaderScan.v ===== *)
(** * header.go: the header scanner and the key/value normalisation

    The scanner walks over the read buffer and rewrites it in place: header
    names are normalised where they stand, and a folded value is compacted by
    moving the rest of the buffer towards the front.  The state therefore
    keeps the whole buffer, as the bytes before [s.b] ([s_done]), [s.b]
    itself and the bytes behind its end ([s_tail]). *)
From Stdlib Require Import Strings.String.
From S2P Require Import Prelude BytesConv Consts Args Uri Cookie.

Definition rChar : byte := x0d.
Definition nChar : byte := x0a.
Definition tabChar : byte := x09.

(** ** Lines *)

(** (line, rest); [None] is errNeedMore. *)
Definition nextLine (b : bytes) : option (bytes * bytes) :=
  match IndexByte b nChar with
  | None => None
  | Some nNext =>
      let n := if decide ((0 < nNext)%nat /\ b !! (nNext - 1)%nat = Some rChar) then (nNext - 1)%nat else nNext in
      Some (take n b, drop (nNext + 1) b)
  end.

(** ** Comma-separated header values *)

Definition stripSpace (b : bytes) : bytes := trimRight (trimLeft b).

(** (value, rest). *)
Definition headerValueScanner_next (b : bytes) : option (bytes * bytes) :=
  if decide (length b = O) then None
  else match IndexByte b "," with
       | None => Some (stripSpace b, [])
       | Some n => Some (stripSpace (take n b), drop (n + 1) b)
       end.

(** Each call consumes a byte, so [S (length s)] rounds suffice. *)
Fixpoint hasHeaderValueLoop (fuel : nat) (s v : bytes) : bool :=
  match fuel with
  | O => false
  | S fuel' =>
      match headerValueScanner_next s with
      | None => false
      | Some (x, s') => if caseInsensitiveCompare x v then true else hasHeaderValueLoop fuel' s' v
      end
  end.

Definition hasHeaderValue (s v : bytes) : bool := hasHeaderValueLoop (S (length s)) s v.

(** ** Header keys *)

(** The loop of normalizeHeaderKey from index 1 on. *)
Fixpoint normalizeKeyLoop (b : bytes) : bytes :=
  match b with
  | [] => []
  | c :: b' =>
      if decide (c = "-"%byte) then
        match b' with
        | [] => [c]
        | d :: b'' => c :: tbl toUpperTable d :: normalizeKeyLoop b''
        end
      else tbl toLowerTable c :: normalizeKeyLoop b'
  end.

Definition normalizeHeaderKey (b : bytes) (disableNormalizing : bool) : bytes :=
  if disableNormalizing then b
  else match b with
       | [] => []
       | c :: b' => tbl toUpperTable c :: normalizeKeyLoop b'
       end.

Definition AppendNormalizedHeaderKey (dst key : bytes) : bytes := dst ++ normalizeHeaderKey key false.

(** ** Header values *)

(** removeNewLines starts at the first line break it found. *)
Definition removeNewLines (raw : bytes) : bytes :=
  let clean := map (fun c => if decide (c = rChar \/ c = nChar) then " "%byte else c) in
  let from start := take start raw ++ clean (drop start raw) in
  match IndexByte raw rChar, IndexByte raw nChar with
  | foundR, Some n =>
      match foundR with
      | Some r => if Nat.ltb n r then from n else from r
      | None => from O
      end
  | Some r, None => from r
  | None, None => raw
  end.

(** getHeaderKeyBytes and initHeaderKV fill the scratch pair [kv]. *)
Definition getHeaderKeyBytes (kv : argsKV) (k : bytes) (disableNormalizing : bool) : argsKV :=
  ArgsKV (normalizeHeaderKey k disableNormalizing) (value kv) (noValue kv).

Definition initHeaderKV (kv : argsKV) (k v : bytes) (disableNormalizing : bool) : argsKV :=
  let kv := getHeaderKeyBytes kv k disableNormalizing in
  ArgsKV (key kv) (removeNewLines v) (noValue kv).

(** The loop of normalizeHeaderValue: the bytes written and [shrunk]. *)
Fixpoint foldValueLoop (ov : bytes) (lineStart : bool) : bytes * nat :=
  match ov with
  | [] => ([], O)
  | c :: ov' =>
      if decide (c = rChar \/ c = nChar) then
        let '(nv, shrunk) := foldValueLoop ov' (if decide (c = nChar) then true else lineStart) in
        (nv, S shrunk)
      else if lineStart && bool_decide (c = tabChar) then
        let '(nv, shrunk) := foldValueLoop ov' lineStart in (" "%byte :: nv, shrunk)
      else
        let '(nv, shrunk) := foldValueLoop ov' false in (c :: nv, shrunk)
  end.

(** normalizeHeaderValue(ov, ob, headerLength), where [ov] is a prefix of the
    buffer [ob].  The result is (nv, new contents of [ob], start and end of
    [nb] in it, nhl); [None] is an index panic. *)
Definition normalizeHeaderValue (ov ob : bytes) (headerLength : Z) : option (bytes * bytes * nat * nat * Z) :=
  if decide (length ov = O) then Some (ov, ob, O, O, 0)
  else
    let '(nv, shrunk) := foldValueLoop ov false in
    let write := length nv in
    let ob' := nv ++ drop (length ov) ob ++ drop (length ob - shrunk) ob in
    c ← ob' !! write;
    skip ← (if decide (c = rChar) then
              d ← ob' !! (write + 1)%nat; Some (if decide (d = nChar) then 2 else 1)%nat
            else if decide (c = nChar) then Some 1%nat else Some O);
    if decide (write + skip <= length ob - shrunk)%nat
    then Some (nv, ob', (write + skip)%nat, (length ob - shrunk)%nat, headerLength - Z.of_nat shrunk)
    else None.

(** ** The scanner *)

Record headerScanner := MkScanner {
  s_done : bytes;
  s_b : bytes;
  s_tail : bytes;
  s_key : bytes;
  s_value : bytes;
  s_err : option error;
  s_hLen : Z;
  s_disableNormalizing : bool;
  s_nextColon : option nat;   (** [-1] is [None] *)
  s_nextNewLine : Z;
  s_initialized : bool
}.

(** The scanner over a fresh buffer. *)
Definition newHeaderScanner (buf : bytes) (disableNormalizing : bool) : headerScanner :=
  MkScanner [] buf [] [] [] None 0 disableNormalizing (Some O) 0 false.

(** The contents of the whole buffer. *)
Definition s_buffer (s : headerScanner) : bytes := s_done s ++ s_b s ++ s_tail s.

Definition failScanner (s : headerScanner) (e : error) : headerScanner :=
  MkScanner (s_done s) (s_b s) (s_tail s) (s_key s) (s_value s) (Some e) (s_hLen s)
    (s_disableNormalizing s) (s_nextColon s) (s_nextNewLine s) (s_initialized s).

Fixpoint countSpaces (b : bytes) : nat :=
  match b with
  | c :: b' => if decide (c = " "%byte) then S (countSpaces b') else O
  | [] => O
  end.

(** The loop that extends the value over continuation lines, with the colon
    and newline it found in the first line that is not one. *)
Fixpoint foldLines (fuel : nat) (b : bytes) (n : nat) (multi : bool) : nat * bool * option (nat * nat) :=
  match fuel with
  | O => (n, multi, None)
  | S fuel' =>
      match b !! (n + 1)%nat with
      | None => (n, multi, None)
      | Some c =>
          if decide (c <> " "%byte /\ c <> tabChar) then (n, multi, None)
          else
            match IndexByte (drop (n + 1) b) nChar with
            | None | Some O => (n, multi, None)
            | Some d =>
                if decide (d = 1%nat /\ c = rChar) then (n, multi, None)
                else
                  let e := (n + d + 1)%nat in
                  match IndexByte (drop (n + 1) (take e b)) ":" with
                  | Some col => (n, multi, Some (col, d - col - 1)%nat)
                  | None => foldLines fuel' b e true
                  end
            end
      end
  end.

(** The end of the value: one [\r] and the trailing blanks are cut. *)
Definition cutValue (value : bytes) : bytes :=
  let value := if decide (last value = Some rChar) then take (length value - 1) value else value in
  trimRight value.

(** The part of [next] that reads the value, once [s.b] stands behind the
    colon and its blanks. *)
Definition scanValue (s : headerScanner) : option (bool * headerScanner) :=
  let b := s_b s in
  let '(n, nnl) :=
    if decide (0 <= s_nextNewLine s) then (Some (Z.to_nat (s_nextNewLine s)), -1)
    else (IndexByte b nChar, s_nextNewLine s) in
  let s := MkScanner (s_done s) b (s_tail s) (s_key s) (s_value s) (s_err s) (s_hLen s)
             (s_disableNormalizing s) (s_nextColon s) nnl (s_initialized s) in
  match n with
  | None => Some (false, failScanner s errNeedMore)
  | Some n =>
      let '(n, multi, found) := foldLines (length b) b n false in
      let '(ncolon, nnl) :=
        match found with Some (c, x) => (Some c, Z.of_nat x) | None => (s_nextColon s, s_nextNewLine s) end in
      let s := MkScanner (s_done s) b (s_tail s) (s_key s) (s_value s) (s_err s) (s_hLen s)
                 (s_disableNormalizing s) ncolon nnl (s_initialized s) in
      if decide (length b <= n)%nat then Some (false, failScanner s errNeedMore)
      else
        let hLen := s_hLen s + Z.of_nat n + 1 in
        let value := cutValue (take n b) in
        if multi then
          '(nv, ob, st, en, hLen) ← normalizeHeaderValue value b hLen;
          Some (true, MkScanner (s_done s ++ take st ob) (drop st (take en ob)) (drop en ob ++ s_tail s)
                        (s_key s) nv (s_err s) hLen (s_disableNormalizing s) ncolon nnl (s_initialized s))
        else
          Some (true, MkScanner (s_done s ++ take (n + 1) b) (drop (n + 1) b) (s_tail s)
                        (s_key s) value (s_err s) hLen (s_disableNormalizing s) ncolon nnl (s_initialized s))
  end.

(** headerScanner.next; [None] is a panic. *)
Definition headerScanner_next (s : headerScanner) : option (bool * headerScanner) :=
  let s := if s_initialized s then s
           else MkScanner (s_done s) (s_b s) (s_tail s) (s_key s) (s_value s) (s_err s) (s_hLen s)
                  (s_disableNormalizing s) None (-1) true in
  let b := s_b s in
  let skip k :=
    Some (false, MkScanner (s_done s ++ take k b) (drop k b) (s_tail s) (s_key s) (s_value s) (s_err s)
                   (s_hLen s + Z.of_nat k) (s_disableNormalizing s) (s_nextColon s) (s_nextNewLine s) true) in
  if decide (b !! O = Some rChar /\ b !! 1%nat = Some nChar) then skip 2%nat
  else if decide (b !! O = Some nChar) then skip 1%nat
  else
    let found : option nat + error :=
      match s_nextColon s with
      | Some n => inl (Some n)
      | None =>
          match IndexByte b nChar, IndexByte b ":" with
          | None, _ => inr errNeedMore
          | Some x, Some n => if Nat.ltb x n then inr errInvalidName else inl (Some n)
          | Some x, None => inl None
          end
      end in
    let s := MkScanner (s_done s) b (s_tail s) (s_key s) (s_value s) (s_err s) (s_hLen s)
               (s_disableNormalizing s) None (s_nextNewLine s) true in
    match found with
    | inr e => Some (false, failScanner s e)
    | inl None => Some (false, failScanner s errNeedMore)
    | inl (Some n) =>
        if decide (length b < n)%nat then None
        else
          let k := normalizeHeaderKey (take n b) (s_disableNormalizing s) in
          let sp := countSpaces (drop (n + 1) b) in
          let m := (n + 1 + sp)%nat in
          if decide (length b < m)%nat then None
          else
          scanValue (MkScanner (s_done s ++ k ++ drop n (take m b)) (drop m b) (s_tail s) k (s_value s) (s_err s)
                       (s_hLen s + Z.of_nat m) (s_disableNormalizing s) None
                       (s_nextNewLine s - Z.of_nat sp) true)
    end.

Definition parseContentLength (b : bytes) : Z * option error :=
  match parseUintBuf b with
  | (_, _, Some err) => (-1, Some err)
  | (v, n, None) =>
      if decide (n <> length b) then (-1, Some (Errorf "non-numeric chars at the end of Content-Length"))
      else (v, None)
  end.

Definition appendHeaderLine (dst key value : bytes) : bytes :=
  dst ++ key ++ strColonSpace ++ value ++ strCRLF.

(** readRawHeaders: the loop over lines; [b] is [buf[n:]].  (dst, n, error). *)
Fixpoint readRawLoop (fuel : nat) (buf b : bytes) (n : nat) (dst : bytes) : bytes * nat * option error :=
  match fuel with
  | O => (dst, O, Some errNeedMore)
  | S fuel' =>
      match IndexByte b nChar with
      | None => (dst, O, Some errNeedMore)
      | Some m0 =>
          let m := (m0 + 1)%nat in
          let n := (n + m)%nat in
          if decide ((m = 2%nat /\ head b = Some rChar) \/ m = 1%nat)
          then (dst ++ take n buf, n, None)
          else readRawLoop fuel' buf (drop m b) n dst
      end
  end.

Definition readRawHeaders (dst buf : bytes) : bytes * nat * option error :=
  match IndexByte buf nChar with
  | None => ([], O, Some errNeedMore)
  | Some n =>
      if decide ((n = 1%nat /\ head buf = Some rChar) \/ n = O) then (dst, (n + 1)%nat, None)
      else readRawLoop (length buf) buf (drop (n + 1) buf) (n + 1) dst
  end.

Definition isOnlyCRLF (b : bytes) : bool := forallb (fun ch => bool_decide (ch = rChar \/ ch = nChar)) b.

(** ** Scanning unfolded lines *)

(** Header names and values that can stand on one line. *)
Definition keyText (k : bytes) : Prop := (":"%byte ∉ k) /\ (nChar ∉ k).
Definition lineText (v : bytes) : Prop := (nChar ∉ v) /\ trimmed v.

#[export] Instance keyText_dec k : Decision (keyText k).
Proof. unfold keyText. apply _. Defined.
#[export] Instance lineText_dec v : Decision (lineText v).
Proof. unfold lineText. apply _. Defined.

(** The next line does not continue this one. *)
Definition noFold (rest : bytes) : Prop := head rest <> Some " "%byte /\ head rest <> Some tabChar.

(** No colon or newline position is cached. *)
Definition ready (s : headerScanner) : Prop :=
  s_initialized s = false \/ (s_nextColon s = None /\ s_nextNewLine s < 0).

Definition headerLine (kv : bytes * bytes) : bytes := fst kv ++ strColonSpace ++ snd kv ++ strCRLF.

Lemma cutValue_cr v : last v <> Some " "%byte -> cutValue (v ++ [rChar]) = v.
Proof.
  intros H. unfold cutValue. rewrite last_snoc, decide_True by done.
  rewrite length_app. cbn [length]. replace (length v + 1 - 1)%nat with (length v) by lia.
  rewrite take_app_exact. by apply trimRight_id.
Qed.

Lemma foldLines_none fuel b n m : noFold (drop (n + 1) b) -> foldLines fuel b n m = (n, m, None).
Proof.
  intros [H1 H2]. destruct fuel; [done|]. cbn [foldLines].
  destruct (b !! (n + 1)%nat) as [c|] eqn:E; [|done].
  assert (head (drop (n + 1) b) = Some c) as Eh.
  { by rewrite (drop_S _ _ _ E). }
  rewrite decide_True; [done|]. split; congruence.
Qed.

Lemma scanValue_line s v rest :
  s_b s = v ++ strCRLF ++ rest -> s_nextNewLine s < 0 -> lineText v -> noFold rest ->
  exists nnl, scanValue s =
    Some (true, MkScanner (s_done s ++ v ++ strCRLF) rest (s_tail s) (s_key s) v (s_err s)
                  (s_hLen s + Z.of_nat (length (v ++ strCRLF))) (s_disableNormalizing s) (s_nextColon s) nnl
                  (s_initialized s)) /\ nnl < 0.
Proof.
  intros Eb Hn [Nv [_ Hl]] Hr. unfold scanValue. cbv zeta. rewrite Eb.
  rewrite decide_False by lia.
  assert (v ++ strCRLF ++ rest = (v ++ [rChar]) ++ nChar :: rest) as E by (by rewrite <- app_assoc).
  rewrite E. rewrite IndexByte_app.
  2:{ rewrite not_elem_of_app, list_elem_of_singleton. naive_solver. }
  rewrite foldLines_none; [|by rewrite Nat.add_1_r, drop_app_S].
  rewrite decide_False by (rewrite length_app; simpl; lia).
  rewrite take_app_exact, cutValue_cr by done.
  eexists. split; [|exact Hn]. do 2 f_equal.
  cbn [s_done s_b s_tail s_key s_value s_err s_hLen s_disableNormalizing s_nextColon s_nextNewLine s_initialized].
  f_equal.
  - rewrite Nat.add_1_r, take_app_S. by rewrite <- !app_assoc.
  - by rewrite Nat.add_1_r, drop_app_S.
  - rewrite !length_app. simpl. lia.
Qed.

(** [next] on a line [key: value]. *)
Lemma headerScanner_next_line s k v rest :
  s_b s = headerLine (k, v) ++ rest -> ready s -> keyText k -> lineText v -> noFold rest ->
  exists nnl, headerScanner_next s =
    Some (true, MkScanner (s_done s ++ normalizeHeaderKey k (s_disableNormalizing s) ++ strColonSpace ++ v ++ strCRLF)
                  rest (s_tail s) (normalizeHeaderKey k (s_disableNormalizing s)) v (s_err s)
                  (s_hLen s + Z.of_nat (length (headerLine (k, v)))) (s_disableNormalizing s) None nnl true)
    /\ nnl < 0.
Proof.
  intros Eb Hs [Nk1 Nk2] Hv Hr. unfold headerScanner_next.
  set (s0 := if s_initialized s then s else _).
  assert (s_done s0 = s_done s /\ s_b s0 = s_b s /\ s_tail s0 = s_tail s /\ s_err s0 = s_err s /\
          s_hLen s0 = s_hLen s /\ s_disableNormalizing s0 = s_disableNormalizing s /\
          s_nextColon s0 = None /\ s_nextNewLine s0 < 0) as (E1 & E2 & E3 & E4 & E5 & E6 & E7 & E8).
  { subst s0. destruct (s_initialized s) eqn:Ei; [|simpl; split_and!; try done; lia].
    destruct Hs as [Hs|[? ?]]; [congruence|]. split_and!; done. }
  clearbody s0. cbv zeta. rewrite E2, Eb. unfold headerLine. cbn [fst snd].
  assert ((k ++ strColonSpace ++ v ++ strCRLF) ++ rest = k ++ ":"%byte :: " "%byte :: v ++ strCRLF ++ rest) as E.
  { by rewrite <- !app_assoc. }
  rewrite E.
  assert (forall c, (k ++ ":"%byte :: " "%byte :: v ++ strCRLF ++ rest) !! O = Some c -> c <> nChar) as Hh.
  { intros c Hc ->. destruct k as [|x k]; simpl in Hc; [done|]. injection Hc as ->. destruct Nk2. left. }
  rewrite decide_False.
  2:{ intros [_ H2]. destruct k as [|x [|y k]]; simpl in H2; simplify_eq. destruct Nk2. right. left. }
  rewrite decide_False by (intros H2; by eapply Hh).
  rewrite E7, IndexByte_app by done.
  assert (IndexByte (k ++ ":"%byte :: " "%byte :: v ++ strCRLF ++ rest) nChar =
          Some (length k + (2 + (length v + 1)))%nat) as ->.
  { rewrite IndexByte_app_l by done. cbn [IndexByte]. rewrite !decide_False by done.
    change (v ++ strCRLF ++ rest) with (v ++ [rChar] ++ nChar :: rest). rewrite app_assoc, IndexByte_app.
    - rewrite length_app. done.
    - destruct Hv as [Nv _]. rewrite not_elem_of_app, list_elem_of_singleton. naive_solver. }
  assert (Nat.ltb (length k + (2 + (length v + 1))) (length k) = false) as -> by (apply Nat.ltb_ge; lia).
  rewrite decide_False by (rewrite length_app; lia).
  rewrite take_app_exact, Nat.add_1_r, drop_app_S.
  assert (countSpaces (" "%byte :: v ++ strCRLF ++ rest) = 1%nat) as ->.
  { cbn [countSpaces]. rewrite decide_True by done. f_equal. destruct Hv as [_ [Hh2 _]].
    destruct v as [|c v]; [done|]. simpl in Hh2 |- *. rewrite decide_False by congruence. done. }
  replace (S (length k) + 1)%nat with (length (k ++ [":"%byte; " "%byte])) by (rewrite length_app; simpl; lia).
  assert (k ++ ":"%byte :: " "%byte :: v ++ strCRLF ++ rest = (k ++ [":"%byte; " "%byte]) ++ v ++ strCRLF ++ rest) as E'.
  { by rewrite <- app_assoc. }
  rewrite decide_False by (rewrite E', (length_app (k ++ _)); lia).
  rewrite E', take_app_exact, drop_app_exact, drop_app_exact. clear E'.
  match goal with |- context [scanValue ?x] => destruct (scanValue_line x v rest) as (nnl & -> & Hn) end; [done|simpl; lia|done|done|].
  exists nnl. split; [|done]. do 2 f_equal.
  cbn [s_done s_b s_tail s_key s_value s_err s_hLen s_disableNormalizing s_nextColon s_nextNewLine s_initialized].
  rewrite E1, E3, E4, E5, E6. f_equal.
  - by rewrite <- !app_assoc.
  - rewrite !length_app. simpl. lia.
Qed.

(** [next] on the empty line that ends the headers. *)
Lemma headerScanner_next_end s rest :
  s_b s = strCRLF ++ rest -> ready s ->
  exists s', headerScanner_next s = Some (false, s') /\ s_done s' = s_done s ++ strCRLF /\ s_b s' = rest /\
    s_tail s' = s_tail s /\ s_err s' = s_err s /\ s_hLen s' = s_hLen s + 2.
Proof.
  intros Eb _. unfold headerScanner_next.
  set (s0 := if s_initialized s then s else _).
  assert (s_done s0 = s_done s /\ s_b s0 = s_b s /\ s_tail s0 = s_tail s /\ s_err s0 = s_err s /\
          s_hLen s0 = s_hLen s) as (E1 & E2 & E3 & E4 & E5).
  { subst s0. destruct (s_initialized s); split_and!; done. }
  clearbody s0. cbv zeta. rewrite E2, Eb. rewrite decide_True by done.
  eexists. split; [reflexivity|]. simpl. rewrite E1, E3, E4, E5. by split_and!.
Qed.

(** ** Key and value normalisation *)

Definition lower (c : byte) : byte := tbl toLowerTable c.
Definition upper (c : byte) : byte := tbl toUpperTable c.

Lemma upper_lower c : upper (lower c) = upper c.
Proof. all_bytes_tac c. Qed.
Lemma lower_upper c : lower (upper c) = lower c.
Proof. all_bytes_tac c. Qed.
Lemma lower_lower c : lower (lower c) = lower c.
Proof. all_bytes_tac c. Qed.
Lemma upper_upper c : upper (upper c) = upper c.
Proof. all_bytes_tac c. Qed.
Lemma lower_dash c : (lower c = "-"%byte) <-> (c = "-"%byte).
Proof.
  assert (bool_decide (lower c = "-"%byte) = bool_decide (c = "-"%byte)) as E by all_bytes_tac c.
  split; intros D; apply (bool_decide_eq_true_1 _); [rewrite <- E|rewrite E]; by apply bool_decide_eq_true_2.
Qed.
Lemma upper_dash c : (upper c = "-"%byte) <-> (c = "-"%byte).
Proof.
  assert (bool_decide (upper c = "-"%byte) = bool_decide (c = "-"%byte)) as E by all_bytes_tac c.
  split; intros D; apply (bool_decide_eq_true_1 _); [rewrite <- E|rewrite E]; by apply bool_decide_eq_true_2.
Qed.

(** Induction in steps of one or two bytes, as the loop of normalizeHeaderKey
    advances. *)
Lemma list_ind2 {A} (P : list A -> Prop) :
  P [] -> (forall x, P [x]) -> (forall x y l, P l -> P (y :: l) -> P (x :: y :: l)) -> forall l, P l.
Proof.
  intros H0 H1 H2 l. assert (P l /\ forall x, P (x :: l)) as [? _]; [|done].
  induction l as [|y l [IH1 IH2]]; [done|]. split; [apply IH2|]. intros x. apply H2; [done|apply IH2].
Qed.

Lemma normalizeKeyLoop_lower b : map lower (normalizeKeyLoop b) = map lower b.
Proof.
  induction b as [|x|x y b IH1 IH2] using list_ind2; cbn [normalizeKeyLoop]; [done|..].
  - case_decide; simpl; [done|]. f_equal. apply lower_lower.
  - case_decide.
    + cbn [map]. rewrite IH1. do 2 f_equal. apply lower_upper.
    + cbn [map]. f_equal; [apply lower_lower|]. exact IH2.
Qed.

Lemma normalizeHeaderKey_lower k d : map lower (normalizeHeaderKey k d) = map lower k.
Proof.
  destruct d; [done|]. destruct k as [|c k]; [done|]. simpl.
  rewrite normalizeKeyLoop_lower. f_equal. apply lower_upper.
Qed.

Lemma normalizeKeyLoop_cons2 x y b :
  normalizeKeyLoop (x :: y :: b) =
  if decide (x = "-"%byte) then x :: upper y :: normalizeKeyLoop b else lower x :: normalizeKeyLoop (y :: b).
Proof. reflexivity. Qed.

Lemma normalizeKeyLoop_map_lower b : normalizeKeyLoop (map lower b) = normalizeKeyLoop b.
Proof.
  induction b as [|x|x y b IH1 IH2] using list_ind2; cbn [map].
  - done.
  - cbn [normalizeKeyLoop]. pose proof (lower_dash x). change (tbl toLowerTable ?z) with (lower z).
    repeat case_decide; try tauto; f_equal; try apply lower_lower. by subst.
  - rewrite !normalizeKeyLoop_cons2. pose proof (lower_dash x).
    destruct (decide (lower x = "-"%byte)), (decide (x = "-"%byte)); try tauto.
    + rewrite IH1, upper_lower. by subst.
    + rewrite lower_lower. f_equal. exact IH2.
Qed.

Lemma normalizeHeaderKey_map_lower k : normalizeHeaderKey (map lower k) false = normalizeHeaderKey k false.
Proof.
  destruct k as [|c k]; [done|]. simpl. rewrite normalizeKeyLoop_map_lower. f_equal. apply upper_lower.
Qed.

Lemma normalizeHeaderKey_length k d : length (normalizeHeaderKey k d) = length k.
Proof. by rewrite <- (length_map lower), normalizeHeaderKey_lower, length_map. Qed.

Lemma normalizeHeaderKey_idem k d : normalizeHeaderKey (normalizeHeaderKey k d) d = normalizeHeaderKey k d.
Proof.
  destruct d; [done|].
  by rewrite <- normalizeHeaderKey_map_lower, normalizeHeaderKey_lower, normalizeHeaderKey_map_lower.
Qed.

Definition blankBreak (c : byte) : byte := if decide (c = rChar \/ c = nChar) then " "%byte else c.

Lemma blankBreak_id b : rChar ∉ b -> nChar ∉ b -> map blankBreak b = b.
Proof.
  induction b as [|c b IH]; [done|]. rewrite !not_elem_of_cons. intros [? ?] [? ?]. simpl.
  rewrite IH by done. f_equal. unfold blankBreak. rewrite decide_False; naive_solver.
Qed.

Lemma IndexByte_take b c n : IndexByte b c = Some n -> c ∉ take n b.
Proof. intros (l1 & l2 & -> & <- & N)%IndexByte_Some. by rewrite take_app_exact. Qed.

Lemma not_elem_of_take (b : bytes) c n : c ∉ b -> c ∉ take n b.
Proof. intros N E. apply N. rewrite <- (take_drop n b). apply elem_of_app. by left. Qed.

Lemma not_elem_of_take_le (b : bytes) c n m : (n <= m)%nat -> c ∉ take m b -> c ∉ take n b.
Proof.
  intros L N. replace (take n b) with (take n (take m b)) by (rewrite take_take; f_equal; lia).
  by apply not_elem_of_take.
Qed.

(** removeNewLines replaces every line break, wherever it starts. *)
Lemma removeNewLines_spec raw : removeNewLines raw = map blankBreak raw.
Proof.
  unfold removeNewLines. cbv zeta.
  assert (forall n, rChar ∉ take n raw -> nChar ∉ take n raw ->
            take n raw ++ map blankBreak (drop n raw) = map blankBreak raw) as F.
  { intros n H1 H2. rewrite <- (blankBreak_id (take n raw)) by done. by rewrite <- map_app, take_drop. }
  destruct (IndexByte raw nChar) as [n|] eqn:En; destruct (IndexByte raw rChar) as [r|] eqn:Er.
  - pose proof (IndexByte_take _ _ _ En). pose proof (IndexByte_take _ _ _ Er).
    destruct (Nat.ltb_spec n r); apply F; try done.
    + by apply (not_elem_of_take_le raw _ n r); [lia|].
    + by apply (not_elem_of_take_le raw _ r n).
  - apply F; apply not_elem_of_nil.
  - pose proof (IndexByte_take _ _ _ Er). apply IndexByte_None in En. apply F; [done|].
    by apply not_elem_of_take.
  - apply IndexByte_None in En, Er. by rewrite blankBreak_id.
Qed.

Lemma blankBreak_clean b : (rChar ∉ map blankBreak b) /\ (nChar ∉ map blankBreak b).
Proof.
  split; intros (c & E & _)%list_elem_of_fmap; unfold blankBreak in E; case_decide; naive_solver.
Qed.

(** ** The scanner on arbitrary input

    No input makes the scanner panic, the buffer keeps its length, and the
    byte count [s_hLen] agrees with the position in the buffer except in a
    state where the next name starts with a blank. *)

Lemma trimRightLoop_split fuel v : exists sp, v = trimRightLoop fuel v ++ replicate sp " "%byte.
Proof.
  revert v. induction fuel as [|fuel IH]; intros v; cbn [trimRightLoop]; [exists O; by rewrite app_nil_r|].
  case_decide as E; [|exists O; by rewrite app_nil_r].
  destruct (exists_last_or_nil v) as [->|(v' & x & ->)]; [done|].
  rewrite last_snoc in E. injection E as ->. rewrite length_app. cbn [length].
  replace (length v' + 1 - 1)%nat with (length v') by lia. rewrite take_app_exact.
  destruct (IH v') as [sp Hsp]. exists (S sp). rewrite Hsp at 1. rewrite replicate_S_end. by rewrite app_assoc.
Qed.

Lemma cutValue_split v :
  exists sp cr, v = cutValue v ++ replicate sp " "%byte ++ cr /\ (cr = [] \/ cr = [rChar]).
Proof.
  unfold cutValue, trimRight. case_decide as E.
  - destruct (exists_last_or_nil v) as [->|(v' & x & ->)]; [done|].
    rewrite last_snoc in E. injection E as ->. rewrite length_app. cbn [length].
    replace (length v' + 1 - 1)%nat with (length v') by lia. rewrite take_app_exact.
    destruct (trimRightLoop_split (length v') v') as [sp Hsp]. exists sp, [rChar].
    split; [|by right]. rewrite Hsp at 1. by rewrite app_assoc.
  - destruct (trimRightLoop_split (length v) v) as [sp Hsp]. exists sp, [].
    split; [|by left]. by rewrite app_nil_r.
Qed.

Lemma IndexByte_lt b c n : IndexByte b c = Some n -> (n < length b)%nat /\ b !! n = Some c.
Proof.
  intros (l1 & l2 & -> & <- & _)%IndexByte_Some. rewrite length_app. split; [simpl; lia|].
  by rewrite list_lookup_middle.
Qed.

Definition isBlank (c : byte) : Prop := c = " "%byte \/ c = tabChar.

(** A line that starts with a blank and holds a colon: its first colon is at
    [c] and its newline [x] bytes behind it. *)
Definition colonLine (c x : nat) (line : bytes) : Prop :=
  exists c0 l1 l2 r, line = (c0 :: l1) ++ ":"%byte :: l2 ++ nChar :: r /\ isBlank c0 /\
    length (c0 :: l1) = c /\ length l2 = x /\ (nChar ∉ c0 :: l1) /\ (nChar ∉ l2).

Definition foldLinesPost (b : bytes) (n : nat) (m : bool) (n' : nat) (m' : bool) (f : option (nat * nat)) : Prop :=
  (n <= n' < length b)%nat /\ (m = true -> m' = true) /\ (m' = false -> n' = n) /\
  (m' = true -> (m = true /\ n' = n) \/
     ((n < n')%nat /\ b !! n' = Some nChar /\ exists c, b !! (n + 1)%nat = Some c /\ isBlank c)) /\
  (forall c x, f = Some (c, x) -> colonLine c x (drop (n' + 1) b)).

Lemma foldLines_spec fuel b n m n' m' f :
  foldLines fuel b n m = (n', m', f) -> (n < length b)%nat -> foldLinesPost b n m n' m' f.
Proof.
  revert n m. induction fuel as [|fuel IH]; intros n m E Hn; cbn [foldLines] in E.
  { simplify_eq. split_and!; [lia..|auto|auto|auto|done]. }
  assert ((n, m, @None (nat * nat)) = (n', m', f) -> foldLinesPost b n m n' m' f) as Hstop.
  { intros ?. simplify_eq. split_and!; [lia..|auto|auto|auto|done]. }
  destruct (b !! (n + 1)%nat) as [c0|] eqn:Ec; [|by apply Hstop].
  case_decide as D; [by apply Hstop|].
  assert (isBlank c0) as Hb.
  { unfold isBlank. destruct (decide (c0 = " "%byte)); [by left|]. destruct (decide (c0 = tabChar)); [by right|]. by destruct D. }
  destruct (IndexByte (drop (n + 1) b) nChar) as [d|] eqn:Ed; [|by apply Hstop].
  pose proof (IndexByte_lt _ _ _ Ed) as [Hd Hdn]. rewrite length_drop in Hd. rewrite lookup_drop in Hdn.
  destruct d as [|d]; [by apply Hstop|].
  case_decide; [by apply Hstop|].
  replace (drop (n + 1) (take (n + S d + 1) b)) with (take (S d) (drop (n + 1) b)) in E
    by (rewrite take_drop_commute; do 2 f_equal; lia).
  destruct (IndexByte (take (S d) (drop (n + 1) b)) ":") as [col|] eqn:Ecol.
  - simplify_eq. split_and!; [lia..|auto|auto|auto|]. intros c x ?. simplify_eq.
    apply IndexByte_Some in Ed as (a1 & a2 & Ea & La & Na). rewrite Ea, <- La, take_app_exact in Ecol.
    apply IndexByte_Some in Ecol as (l1 & l2 & -> & <- & _).
    rewrite not_elem_of_app, not_elem_of_cons in Na. destruct Na as (N1 & _ & N2).
    assert ((drop (n' + 1) b) !! O = Some c0) as E0 by (by rewrite lookup_drop, Nat.add_0_r).
    rewrite Ea in E0. destruct l1 as [|y l1]; [simpl in E0; simplify_eq; destruct Hb; done|].
    simpl in E0. simplify_eq. exists c0, l1, l2, a2. rewrite length_app in La. simpl in La.
    split_and!; [by rewrite Ea, <- app_assoc|done|done|simpl; lia|done|done].
  - apply IH in E as (H1 & H2 & H3 & H4 & H5); [|lia]. split_and!; [lia..|auto| | |exact H5].
    + intros Hm. specialize (H2 eq_refl). congruence.
    + intros Hm. right. destruct (H4 Hm) as [[_ ->]|(? & ? & _)]; split_and!; try lia; eauto.
      rewrite <- Hdn. f_equal. lia.
Qed.

Lemma foldValueLoop_length ov ls nv k : foldValueLoop ov ls = (nv, k) -> (length nv + k = length ov)%nat.
Proof.
  revert ls nv k. induction ov as [|c ov IH]; intros ls nv k; cbn [foldValueLoop]; [by intros [= <- <-]|].
  repeat case_match; intros; simplify_eq; simpl;
    match goal with E : foldValueLoop ov _ = _ |- _ => apply IH in E end; lia.
Qed.

(** What a value with trailing blanks leaves in front of the next line. *)
Definition junk (j : bytes) : Prop :=
  exists sp cr, j = " "%byte :: replicate sp " "%byte ++ cr ++ [nChar] /\ (cr = [] \/ cr = [rChar]).

(** normalizeHeaderValue on a value cut from the buffer: it does not panic,
    keeps the buffer's length, and either stays in step or leaves junk. *)
Lemma normalizeHeaderValue_spec b n hLen :
  (n < length b)%nat -> b !! n = Some nChar -> cutValue (take n b) <> [] ->
  exists nv ob st en h' j, normalizeHeaderValue (cutValue (take n b)) b hLen = Some (nv, ob, st, en, h') /\
    length ob = length b /\ (st <= en <= length b)%nat /\ (en - st < length b)%nat /\
    drop st (take en ob) = j ++ drop (n + 1) b /\
    ((j = [] /\ h' = hLen - Z.of_nat (n + 1) + Z.of_nat st) \/ junk j).
Proof.
  intros Hn Hb Hne. destruct (cutValue_split (take n b)) as (sp & cr & Hs & Hcr).
  set (ov := cutValue (take n b)) in *. unfold normalizeHeaderValue.
  assert (length (take n b) = n) as Ln by (rewrite length_take; lia).
  assert (length ov + sp + length cr = n)%nat as Lo.
  { rewrite <- Ln, Hs, !length_app, length_replicate. lia. }
  assert (0 < length ov)%nat as Lp by (destruct ov; simpl in *; [done|lia]).
  rewrite decide_False by lia. destruct (foldValueLoop ov false) as [nv k] eqn:Ef.
  apply foldValueLoop_length in Ef. cbv zeta.
  set (dup := drop (length b - k) b). set (rest := drop (n + 1) b).
  assert (length dup = k) as Ld by (subst dup; rewrite length_drop; lia).
  assert (b = ov ++ replicate sp " "%byte ++ cr ++ nChar :: rest) as Eb.
  { rewrite <- (take_drop n b) at 1. rewrite Hs, (drop_S _ _ _ Hb), <- !app_assoc. subst rest. by rewrite Nat.add_1_r. }
  assert (drop (length ov) b = replicate sp " "%byte ++ cr ++ nChar :: rest) as Er.
  { rewrite Eb at 1. by rewrite drop_app_exact. }
  assert (length b = length ov + sp + length cr + 1 + length rest)%nat as Lb.
  { rewrite Eb, !length_app, length_replicate. simpl. lia. }
  rewrite Er. set (w := nv ++ (replicate sp " "%byte ++ cr ++ nChar :: rest) ++ dup).
  assert (length w = length b) as Lw.
  { subst w. rewrite !length_app, length_replicate, Ld. simpl. lia. }
  assert (forall i, w !! (length nv + i)%nat = ((replicate sp " "%byte ++ cr ++ nChar :: rest) ++ dup) !! i) as Hat.
  { intros i. subst w. rewrite lookup_app_r by lia. f_equal. lia. }
  assert (forall i, drop (length nv + i) (take (length b - k) w) = drop i (replicate sp " "%byte ++ cr ++ nChar :: rest)) as Hdr.
  { intros i. subst w. rewrite app_assoc, take_app_le.
    - rewrite take_ge; [by rewrite <- drop_drop, drop_app_exact|].
      rewrite !length_app, length_replicate. simpl. lia.
    - rewrite !length_app, length_replicate. simpl. lia. }
  pose proof (Hat O) as H0. rewrite Nat.add_0_r in H0. rewrite H0.
  destruct (decide (sp = O)) as [->|Hsp]; [destruct Hcr as [->| ->]|].
  - cbn [replicate app lookup list_lookup mbind option_bind] in *.
    rewrite (decide_False (P := nChar = rChar)), (decide_True (P := nChar = nChar)) by done.
    cbn [mbind option_bind]. rewrite decide_True by (simpl in *; lia).
    do 5 eexists. exists []. split; [reflexivity|]. split_and!; [exact Lw|simpl in *; lia..| |left].
    + rewrite Hdr. done.
    + split; [done|]. simpl in *. lia.
  - cbn [replicate app lookup list_lookup mbind option_bind] in *.
    rewrite (decide_True (P := rChar = rChar)) by done. rewrite (Hat 1%nat).
    cbn [replicate app lookup list_lookup mbind option_bind].
    rewrite (decide_True (P := nChar = nChar)) by done.
    cbn [mbind option_bind]. rewrite decide_True by (simpl in *; lia).
    do 5 eexists. exists []. split; [reflexivity|]. split_and!; [exact Lw|simpl in *; lia..| |left].
    + rewrite Hdr. done.
    + split; [done|]. simpl in *. lia.
  - destruct sp as [|sp]; [done|]. cbn [replicate app lookup list_lookup mbind option_bind] in *.
    rewrite (decide_False (P := " "%byte = rChar)), (decide_False (P := " "%byte = nChar)) by done.
    cbn [mbind option_bind]. rewrite decide_True by (simpl in *; lia).
    do 5 eexists. exists (" "%byte :: replicate sp " "%byte ++ cr ++ [nChar]).
    split; [reflexivity|]. split_and!; [exact Lw|simpl in *; lia..| |right].
    + rewrite Hdr. cbn [drop app]. by rewrite <- !app_assoc.
    + exists sp, cr. done.
Qed.

(** The invariant of the scanner: a cached colon and newline describe the line
    that follows, up to junk in front of it. *)
Definition wfScanner (s : headerScanner) : Prop :=
  s_initialized s = false \/
  (s_initialized s = true /\
   ((s_nextColon s = None /\ s_nextNewLine s < 0) \/
    exists c x j line, s_nextColon s = Some c /\ s_nextNewLine s = Z.of_nat x /\ s_b s = j ++ line /\
      colonLine c x line /\ (j = [] \/ junk j))).

Lemma cutValue_nil v : cutValue v = [] -> forall c, c ∈ v -> c = " "%byte \/ c = rChar.
Proof.
  intros E c Hc. destruct (cutValue_split v) as (sp & cr & Hs & Hcr). rewrite E in Hs. rewrite Hs in Hc.
  simpl in Hc. apply elem_of_app in Hc as [Hc|Hc].
  - apply elem_of_replicate in Hc as [-> _]. by left.
  - destruct Hcr as [->| ->]; [by apply not_elem_of_nil in Hc|]. apply list_elem_of_singleton in Hc. by right.
Qed.

Lemma lookup_take_elem (b : bytes) i n c : b !! i = Some c -> (i < n)%nat -> c ∈ take n b.
Proof. intros E L. apply (list_elem_of_lookup_2 _ i). by rewrite lookup_take_lt. Qed.

(** The distance between the byte count and the position. *)
Definition drift (s : headerScanner) : Z := s_hLen s - zlen (s_done s).

Definition valueStart (s : headerScanner) : option nat :=
  if decide (0 <= s_nextNewLine s) then Some (Z.to_nat (s_nextNewLine s)) else IndexByte (s_b s) nChar.

(** A value that spans lines is not blank. *)
Definition foldsVisible (s : headerScanner) : Prop :=
  forall n n' f, valueStart s = Some n -> foldLines (length (s_b s)) (s_b s) n false = (n', true, f) ->
    (n < length (s_b s))%nat -> cutValue (take n' (s_b s)) <> [].

Lemma scanValue_total s :
  s_nextColon s = None -> s_initialized s = true -> foldsVisible s ->
  exists r s', scanValue s = Some (r, s') /\ length (s_buffer s') = length (s_buffer s) /\
    s_disableNormalizing s' = s_disableNormalizing s /\ s_key s' = s_key s /\
    (r = false -> s_err s' <> None) /\
    (r = true -> s_err s' = s_err s /\ (length (s_b s') < length (s_b s))%nat /\ wfScanner s' /\
       (drift s' = drift s \/ head (s_b s') = Some " "%byte)).
Proof.
  intros Hc Hi Hv. unfold scanValue. cbv zeta.
  unfold foldsVisible, valueStart in Hv.
  set (nnl' := snd (if decide (0 <= s_nextNewLine s) then (Some (Z.to_nat (s_nextNewLine s)), -1)
                    else (IndexByte (s_b s) nChar, s_nextNewLine s))).
  assert (nnl' < 0) as Hnn by (subst nnl'; case_decide; simpl; lia).
  replace (if decide (0 <= s_nextNewLine s) then (Some (Z.to_nat (s_nextNewLine s)), -1)
           else (IndexByte (s_b s) nChar, s_nextNewLine s))
    with (if decide (0 <= s_nextNewLine s) then Some (Z.to_nat (s_nextNewLine s)) else IndexByte (s_b s) nChar, nnl')
    by (subst nnl'; by case_decide).
  clearbody nnl'.
  destruct (if decide (0 <= s_nextNewLine s) then _ else _) as [n|].
  2:{ do 2 eexists. split; [reflexivity|]. split_and!; done. }
  destruct (foldLines (length (s_b s)) (s_b s) n false) as [[n' multi] f] eqn:Ef.
  destruct (match f with Some (c, x) => _ | None => _ end) as [ncolon nnl] eqn:En.
  case_decide as Hle.
  { do 2 eexists. split; [reflexivity|]. split_and!; done. }
  assert (n < length (s_b s))%nat as Hn.
  { destruct (decide (n < length (s_b s))%nat); [done|]. exfalso. apply Hle.
    destruct (length (s_b s)) as [|k] eqn:Ek; cbn [foldLines] in Ef; [simplify_eq; lia|].
    rewrite lookup_ge_None_2 in Ef by lia. simplify_eq. lia. }
  destruct (foldLines_spec _ _ _ _ _ _ _ Ef Hn) as (H1 & H2 & H3 & H4 & H5).
  assert (forall dn tl k v e h d j, j = [] \/ junk j ->
    wfScanner (MkScanner dn (j ++ drop (n' + 1) (s_b s)) tl k v e h d ncolon nnl true)) as Hwf.
  { intros dn tl k v e h d j Hj. right. split; [done|]. destruct f as [[c x]|].
    - right. simplify_eq. exists c, x, j, (drop (n' + 1) (s_b s)). split_and!; auto.
    - left. simplify_eq/=. done. }
  rewrite Hi. cbn [s_hLen s_key s_value s_err s_disableNormalizing s_done s_tail s_b]. destruct multi.
  - destruct (H4 eq_refl) as [[? _]|(_ & Hb & _)]; [done|].
    destruct (normalizeHeaderValue_spec (s_b s) n' (s_hLen s + Z.of_nat n' + 1)) as
      (nv & ob & st & en & h' & j & -> & Lo & Hse & Hlt & Hd & Hj); [lia|done|by eapply Hv|].
    cbn [mbind option_bind]. do 2 eexists. split; [reflexivity|].
    unfold s_buffer. cbn [s_done s_b s_tail s_disableNormalizing s_key s_err]. split_and!; try done.
    + rewrite !length_app, !length_drop, !length_take. lia.
    + intros _. split_and!; [done| | |].
      * rewrite length_drop, length_take. lia.
      * rewrite Hd. apply Hwf. destruct Hj as [[-> _]|?]; auto.
      * rewrite Hd. unfold drift. cbn [s_hLen s_done]. destruct Hj as [[-> ->]|(sp & cr & -> & _)]; [left|by right].
        rewrite length_app, length_take. lia.
  - do 2 eexists. split; [reflexivity|].
    unfold s_buffer. cbn [s_done s_b s_tail s_disableNormalizing s_key s_err]. split_and!; try done.
    + rewrite !length_app, !length_drop, !length_take. lia.
    + intros _. split_and!; [done| | |].
      * rewrite length_drop. lia.
      * apply (Hwf _ _ _ _ _ _ _ []). by left.
      * left. unfold drift. cbn [s_hLen s_done]. rewrite length_app, length_take. lia.
Qed.

Lemma countSpaces_spec b :
  (forall i, (i < countSpaces b)%nat -> b !! i = Some " "%byte) /\ b !! countSpaces b <> Some " "%byte /\
  (countSpaces b <= length b)%nat.
Proof.
  induction b as [|c b (IH1 & IH2 & IH3)]; cbn [countSpaces]; [split_and!; [lia|done|done]|].
  case_decide as D.
  - subst. split_and!; [|done|simpl; lia]. intros [|i] Hi; [done|]. simpl. apply IH1. lia.
  - split_and!; [lia| |simpl; lia]. simpl. congruence.
Qed.

Lemma colonLine_facts c x line :
  colonLine c x line ->
  (1 <= c)%nat /\ line !! c = Some ":"%byte /\ (forall k, (k < c + 1 + x)%nat -> line !! k <> Some nChar) /\
  line !! (c + 1 + x)%nat = Some nChar /\ (c + 1 + x < length line)%nat.
Proof.
  intros (c0 & l1 & l2 & r & -> & _ & <- & <- & N1 & N2).
  assert (((c0 :: l1) ++ ":"%byte :: l2) ++ nChar :: r = (c0 :: l1) ++ ":"%byte :: l2 ++ nChar :: r) as E.
  { by rewrite <- app_assoc. }
  assert (length ((c0 :: l1) ++ ":"%byte :: l2) = length (c0 :: l1) + 1 + length l2)%nat as L.
  { rewrite length_app. simpl. lia. }
  split_and!; [simpl; lia|by apply list_lookup_middle| | |].
  - intros k Hk Ek. rewrite <- E, lookup_app_l in Ek by lia. apply list_elem_of_lookup_2 in Ek.
    apply elem_of_app in Ek as [?|[?|?]%elem_of_cons]; done.
  - rewrite <- E, <- L. by apply list_lookup_middle.
  - rewrite <- E, length_app, L. simpl. lia.
Qed.

Lemma junk_facts j :
  junk j ->
  (2 <= length j)%nat /\ j !! (length j - 1)%nat = Some nChar /\
  (forall k, (k < length j - 1)%nat -> j !! k = Some " "%byte \/ (k + 2 = length j)%nat) /\
  (forall k, (k < length j - 1)%nat -> j !! k <> Some nChar).
Proof.
  intros (sp & cr & -> & Hcr).
  set (pre := " "%byte :: replicate sp " "%byte).
  assert (" "%byte :: replicate sp " "%byte ++ cr ++ [nChar] = (pre ++ cr) ++ [nChar]) as -> by (by rewrite <- app_assoc).
  assert (length pre = S sp) as Lp by (subst pre; simpl; by rewrite length_replicate).
  assert (forall k, (k < S sp)%nat -> pre !! k = Some " "%byte) as Hp.
  { intros k Hk. change pre with (replicate (S sp) " "%byte). by apply lookup_replicate_2. }
  clearbody pre. rewrite !length_app. cbn [length]. replace (length pre + length cr + 1 - 1)%nat with (length (pre ++ cr)) by len_lia.
  rewrite length_app, Lp.
  split_and!; [lia|rewrite <- Lp, <- length_app; by apply list_lookup_middle|..].
  - intros k Hk. destruct (decide (k < S sp)%nat).
    + left. rewrite <- app_assoc, lookup_app_l by lia. by apply Hp.
    + right. destruct Hcr as [->| ->]; simpl in *; lia.
  - intros k Hk Ek. destruct (decide (k < S sp)%nat).
    + rewrite <- app_assoc, lookup_app_l, Hp in Ek by lia. done.
    + destruct Hcr as [->| ->]; simpl in Hk; [lia|].
      rewrite lookup_app_l, lookup_app_r in Ek by (rewrite ?length_app; simpl; lia).
      replace (k - length pre)%nat with O in Ek by lia. done.
Qed.

Lemma foldsVisible_none s : s_nextNewLine s < 0 -> foldsVisible s.
Proof.
  intros Hn n n' f Hs Ef Hlt E. unfold valueStart in Hs. rewrite decide_False in Hs by lia.
  apply IndexByte_lt in Hs as [_ Hb].
  destruct (foldLines_spec _ _ _ _ _ _ _ Ef Hlt) as (_ & _ & _ & H4 & _).
  destruct (H4 eq_refl) as [[? _]|(Hnn & _)]; [done|].
  destruct (cutValue_nil _ E nChar) as [?|?]; [by eapply lookup_take_elem|done|done].
Qed.

Lemma foldsVisible_cached s j line c x :
  colonLine c x line -> (j = [] \/ junk j) ->
  let b := j ++ line in
  let sp := countSpaces (drop (c + 1) b) in
  s_b s = drop (c + 1 + sp) b -> s_nextNewLine s = Z.of_nat x - Z.of_nat sp -> foldsVisible s.
Proof.
  intros Hl Hj b sp Eb En. destruct (decide (s_nextNewLine s < 0)) as [|Hpos]; [by apply foldsVisible_none|].
  intros n n' f Hs Ef Hlt E. unfold valueStart in Hs. rewrite decide_True in Hs by lia. simplify_eq.
  destruct (foldLines_spec _ _ _ _ _ _ _ Ef Hlt) as (_ & _ & _ & H4 & _).
  destruct (H4 eq_refl) as [[? _]|(Hnn & Hn' & c1 & Hc1 & Hb1)]; [done|]. clear H4 Ef.
  set (n := Z.to_nat (s_nextNewLine s)) in *.
  assert (n + sp = x)%nat as Hx by lia.
  destruct (countSpaces_spec (drop (c + 1) b)) as (S1 & S2 & _). fold sp in S1, S2.
  rewrite lookup_drop in S2.
  assert (forall i, (i < sp)%nat -> b !! (c + 1 + i)%nat = Some " "%byte) as S1'.
  { intros i Hi. rewrite <- lookup_drop. by apply S1. }
  destruct (colonLine_facts _ _ _ Hl) as (C1 & C2 & C3 & C4 & C5).
  rewrite Eb, lookup_drop in Hn', Hc1.
  (* a visible byte before n' contradicts the blank value *)
  assert (forall k d, b !! (c + 1 + sp + k)%nat = Some d -> (k < n')%nat -> d <> " "%byte -> d <> rChar -> False) as Hvis.
  { intros k d Hk Hkn H1 H2. destruct (cutValue_nil _ E d); [|done|done].
    apply (lookup_take_elem _ k); [|done]. by rewrite Eb, lookup_drop. }
  destruct Hj as [->|Hj].
  - apply (Hvis n nChar); [|done|done|done]. simpl in *. rewrite <- C4. f_equal. lia.
  - destruct (junk_facts _ Hj) as (J1 & J2 & J3 & J4).
    assert (forall k, (k < length j)%nat -> b !! k = j !! k) as Bj by (intros; by apply lookup_app_l).
    assert (forall k, b !! (length j + k)%nat = line !! k) as Bl.
    { intros k. unfold b. rewrite lookup_app_r by lia. f_equal. lia. }
    destruct (decide (c + 1 + sp <= length j - 1)%nat) as [Hm|Hm].
    + destruct (decide (length j - 1 - (c + 1 + sp) < n')%nat) as [Hi|Hi].
      { apply (Hvis (length j - 1 - (c + 1 + sp))%nat nChar); try done.
        rewrite Bj by lia. rewrite <- J2. f_equal. lia. }
      assert (c + 1 + sp + n' = length j - 1)%nat as Heq.
      { destruct (decide (c + 1 + sp + n' < length j - 1)%nat); [|lia].
        exfalso. apply (J4 (c + 1 + sp + n')%nat); [done|]. rewrite <- Bj by lia. done. }
      assert (n + 1 <> n')%nat.
      { intros F. rewrite F, Hn' in Hc1. simplify_eq. destruct Hb1; done. }
      destruct (J3 (c + 1 + sp)%nat) as [F|F]; [lia| |lia].
      apply S2. by rewrite Bj by lia.
    + assert (c + 1 + sp <= length j + c)%nat as Hle.
      { destruct (decide (c + 1 + sp <= length j + c)%nat); [done|]. exfalso.
        assert (b !! (length j + c)%nat = Some " "%byte) as F.
        { replace (length j + c)%nat with (c + 1 + (length j - 1))%nat by lia. apply S1'. lia. }
        rewrite Bl, C2 in F. done. }
      apply (Hvis (length j + c - (c + 1 + sp))%nat ":"%byte); try done.
      * rewrite <- C2, <- Bl. f_equal. lia.
      * destruct (decide (length j + c - (c + 1 + sp) < n')%nat) as [|Hge]; [done|]. exfalso.
        apply (C3 (c + 1 + sp + n' - length j)%nat); [lia|rewrite <- Bl, <- Hn'; f_equal; lia].
Qed.

(** The state behind the name: what [next] hands to the value part. *)
Definition afterKey (s : headerScanner) (n : nat) : headerScanner :=
  let b := s_b s in
  let sp := countSpaces (drop (n + 1) b) in
  let m := (n + 1 + sp)%nat in
  let k := normalizeHeaderKey (take n b) (s_disableNormalizing s) in
  MkScanner (s_done s ++ k ++ drop n (take m b)) (drop m b) (s_tail s) k (s_value s) (s_err s)
    (s_hLen s + Z.of_nat m) (s_disableNormalizing s) None (s_nextNewLine s - Z.of_nat sp) true.

Lemma normalizeHeaderKey_blank n b d :
  (1 <= n)%nat -> head b = Some " "%byte -> " "%byte ∈ normalizeHeaderKey (take n b) d.
Proof.
  destruct b as [|c b]; [done|]. intros Hn [= ->]. destruct n as [|n]; [lia|]. destruct d; left.
Qed.

Definition nextPost (s : headerScanner) (r : bool) (s' : headerScanner) : Prop :=
  length (s_buffer s') = length (s_buffer s) /\ s_disableNormalizing s' = s_disableNormalizing s /\
  (r = true -> s_err s' = s_err s /\ (length (s_b s') < length (s_b s))%nat /\ wfScanner s' /\
     (drift s' = drift s \/ head (s_b s') = Some " "%byte) /\
     (head (s_b s) = Some " "%byte -> " "%byte ∈ s_key s')) /\
  (r = false -> s_err s' <> None \/ (drift s' = drift s /\ head (s_b s) <> Some " "%byte)).

Lemma afterKey_total s n :
  (n < length (s_b s))%nat -> (head (s_b s) = Some " "%byte -> (1 <= n)%nat) -> foldsVisible (afterKey s n) ->
  exists r s', scanValue (afterKey s n) = Some (r, s') /\ nextPost s r s'.
Proof.
  intros Hn Hh Hv.
  destruct (countSpaces_spec (drop (n + 1) (s_b s))) as (_ & _ & Hsp). rewrite length_drop in Hsp.
  destruct (scanValue_total (afterKey s n)) as (r & s' & E & Hb & Hd & Hk & Hf & Ht); [done..|].
  exists r, s'. split; [done|]. unfold afterKey in *. cbn [s_done s_b s_tail s_key s_err s_disableNormalizing] in *.
  split_and!; [|done| |].
  - rewrite Hb. unfold s_buffer. cbn [s_done s_b s_tail].
    rewrite !length_app, normalizeHeaderKey_length, !length_drop, !length_take. lia.
  - intros ->. destruct (Ht eq_refl) as (H1 & H2 & H3 & H4). rewrite length_drop in H2.
    split_and!; [done|lia|done| |].
    + destruct H4 as [H4|H4]; [left|by right]. rewrite H4. unfold drift. cbn [s_hLen s_done].
      rewrite !length_app, normalizeHeaderKey_length, !length_drop, !length_take. lia.
    + intros Hb'. rewrite Hk. apply normalizeHeaderKey_blank; auto.
  - intros ->. left. by apply Hf.
Qed.

Definition initScanner (s : headerScanner) : headerScanner :=
  if s_initialized s then s
  else MkScanner (s_done s) (s_b s) (s_tail s) (s_key s) (s_value s) (s_err s) (s_hLen s)
         (s_disableNormalizing s) None (-1) true.

Lemma headerScanner_next_init s : headerScanner_next s = headerScanner_next (initScanner s).
Proof. destruct s as [? ? ? ? ? ? ? ? ? ? []]; reflexivity. Qed.

Lemma headerScanner_next_total_init s :
  s_initialized s = true -> wfScanner s -> exists r s', headerScanner_next s = Some (r, s') /\ nextPost s r s'.
Proof.
  intros Hi Hw0. unfold headerScanner_next. rewrite Hi. cbv zeta.
  assert (forall k s', (k <= length (s_b s))%nat -> (k = 2%nat \/ k = 1%nat) ->
    (s_b s !! O = Some rChar \/ s_b s !! O = Some nChar) ->
    s' = MkScanner (s_done s ++ take k (s_b s)) (drop k (s_b s)) (s_tail s) (s_key s) (s_value s) (s_err s)
           (s_hLen s + Z.of_nat k) (s_disableNormalizing s) (s_nextColon s) (s_nextNewLine s) true ->
    nextPost s false s') as Hskip.
  { intros k s' Hk _ Hh ->. unfold nextPost, s_buffer, drift. cbn. split_and!; [|done|done|].
    - rewrite !length_app, length_drop, length_take. lia.
    - intros _. right. split; [rewrite length_app, length_take; lia|].
      destruct (s_b s); [by destruct Hh|]. destruct Hh as [[= ->]|[= ->]]; done. }
  case_decide as D1.
  { destruct D1 as [D1 D2]. do 2 eexists. split; [reflexivity|]. eapply Hskip; [|by left| |done]; [|by left].
    apply lookup_lt_Some in D2. lia. }
  case_decide as D2.
  { do 2 eexists. split; [reflexivity|]. eapply Hskip; [|by right| |done]; [|by right].
    apply lookup_lt_Some in D2. lia. }
  assert (forall e, nextPost s false (failScanner
     (MkScanner (s_done s) (s_b s) (s_tail s) (s_key s) (s_value s) (s_err s) (s_hLen s)
        (s_disableNormalizing s) None (s_nextNewLine s) true) e)) as Hfail.
  { intros e. unfold nextPost. cbn. split_and!; [done|done|done|]. by left. }
  destruct Hw0 as [Hw0|[_ [[Hc Hn]|(c & x & j & line & Hc & Hn & Hb & Hl & Hj)]]]; [congruence|..]; rewrite Hc.
  - destruct (IndexByte (s_b s) nChar) as [x|] eqn:Ex; [|by eauto].
    destruct (IndexByte (s_b s) ":") as [n|] eqn:En; [|by eauto].
    destruct (Nat.ltb_spec x n); [by eauto|].
    apply IndexByte_lt in En as [Hlt Hcol].
    destruct (countSpaces_spec (drop (n + 1) (s_b s))) as (_ & _ & Hsp). rewrite length_drop in Hsp.
    rewrite !decide_False by (cbn; lia).
    apply (afterKey_total s n); [done| |].
    + intros Hh. destruct n as [|n]; [|lia]. destruct (s_b s); simplify_eq/=.
    + apply foldsVisible_none. cbn. lia.
  - destruct (colonLine_facts _ _ _ Hl) as (C1 & C2 & C3 & C4 & C5).
    assert (c < length (s_b s))%nat as Hlt by (rewrite Hb, length_app; lia).
    destruct (countSpaces_spec (drop (c + 1) (s_b s))) as (_ & _ & Hsp). rewrite length_drop in Hsp.
    rewrite !decide_False by (cbn; lia).
    apply (afterKey_total s c); [done|done|].
    eapply foldsVisible_cached; [exact Hl|exact Hj|cbn; by rewrite <- Hb|]. cbn. rewrite <- Hb. lia.
Qed.

(** One call of [next] from any state the program can be in. *)
Lemma headerScanner_next_total s :
  wfScanner s -> exists r s', headerScanner_next s = Some (r, s') /\ nextPost s r s'.
Proof.
  intros Hw. rewrite headerScanner_next_init.
  destruct (headerScanner_next_total_init (initScanner s)) as (r & s' & E & P).
  - unfold initScanner. by destruct (s_initialized s) eqn:Ei.
  - unfold initScanner. destruct (s_initialized s) eqn:Ei; [done|]. right. split; [done|]. by left.
  - exists r, s'. split; [done|]. revert P. unfold initScanner. destruct (s_initialized s); done.
Qed.

(** ** Blocks of header lines *)

Definition linesText (kvs : list (bytes * bytes)) : bytes := concat (map headerLine kvs).

(** The lines a printer can emit so that the scanner sees them one by one. *)
Definition plainLine (kv : bytes * bytes) : Prop :=
  keyText (fst kv) /\ lineText (snd kv) /\ noFold (fst kv).

#[export] Instance plainLine_dec kv : Decision (plainLine kv).
Proof. unfold plainLine, noFold. apply _. Defined.

Lemma noFold_lines kvs rest : Forall plainLine kvs -> noFold (linesText kvs ++ strCRLF ++ rest).
Proof.
  intros [|[k v] l (_ & _ & H1 & H2) _]; [done|]. unfold noFold, linesText in *. simpl in *.
  destruct k as [|c k]; [done|]. simpl in *. done.
Qed.

Lemma linesText_app l1 l2 : linesText (l1 ++ l2) = linesText l1 ++ linesText l2.
Proof. unfold linesText. by rewrite map_app, concat_app. Qed.

Lemma linesText_cons kv l : linesText (kv :: l) = headerLine kv ++ linesText l.
Proof. done. Qed.

Lemma plainLine_newline kv rest :
  plainLine kv -> exists n, IndexByte (headerLine kv ++ rest) nChar = Some n /\
    (n + 1 = length (headerLine kv))%nat /\ (1 < n)%nat.
Proof.
  intros ((N1 & N2) & (N3 & _) & _). unfold headerLine.
  set (l := (fst kv ++ strColonSpace ++ snd kv) ++ [rChar]).
  assert ((fst kv ++ strColonSpace ++ snd kv ++ strCRLF) ++ rest = l ++ nChar :: rest) as ->.
  { subst l. by rewrite <- !app_assoc. }
  exists (length l). rewrite IndexByte_app.
  - split; [done|]. subst l. rewrite !length_app. simpl. lia.
  - subst l. rewrite !not_elem_of_app, list_elem_of_singleton. split_and!; try done.
    apply IndexByte_None. reflexivity.
Qed.

(** A prefix of a text with one line split off ends within the line or after it. *)
Lemma line_prefix x t q s :
  (nChar ∉ x) -> (x ++ [nChar]) ++ t = q ++ s ->
  (nChar ∉ q) \/ exists q', q = (x ++ [nChar]) ++ q' /\ t = q' ++ s.
Proof.
  intros Nx E. destruct (decide (length q <= length x)%nat) as [L|L].
  - left. intros Hin. apply Nx. assert (q = take (length q) x) as Eq.
    { apply (f_equal (take (length q))) in E. rewrite take_app_exact in E. rewrite <- app_assoc, take_app_le in E by done. done. }
    rewrite Eq in Hin. rewrite <- (take_drop (length q) x). apply elem_of_app. by left.
  - right. assert (exists q', q = (x ++ [nChar]) ++ q') as [q' Eq].
    { exists (drop (length (x ++ [nChar])) q). rewrite <- (take_drop (length (x ++ [nChar])) q) at 1. f_equal.
      apply (f_equal (take (length (x ++ [nChar])))) in E. rewrite take_app_exact in E.
      rewrite take_app_le in E by (rewrite length_app; simpl; lia). done. }
    subst q. rewrite <- (app_assoc _ q' s) in E. apply app_inv_head in E. eauto.
Qed.

Lemma plainLine_shape kv : plainLine kv -> exists x, headerLine kv = x ++ [nChar] /\ (nChar ∉ x).
Proof.
  intros ((N1 & N2) & (N3 & _) & _). exists (fst kv ++ strColonSpace ++ snd kv ++ [rChar]). split.
  - unfold headerLine. by rewrite <- !app_assoc.
  - rewrite !not_elem_of_app. split_and!; try done; apply IndexByte_None; reflexivity.
Qed.

(** A strict prefix of a printed block: either it has no line break yet, or it
    starts with the first line. *)
Lemma linesText_prefix kvs q s :
  Forall plainLine kvs -> linesText kvs ++ strCRLF = q ++ s -> s <> [] ->
  (nChar ∉ q) \/ exists kv kvs' q', kvs = kv :: kvs' /\ q = headerLine kv ++ q' /\ linesText kvs' ++ strCRLF = q' ++ s.
Proof.
  intros F E Hs. destruct F as [|kv kvs Hk F].
  - destruct (line_prefix [rChar] [] q s) as [N|(q' & _ & E')]; [apply IndexByte_None; reflexivity|exact E|by left|].
    symmetry in E'. by apply app_eq_nil in E' as [_ ->].
  - destruct (plainLine_shape kv Hk) as (x & Ex & Nx). rewrite linesText_cons, Ex, <- app_assoc in E.
    destruct (line_prefix x _ q s Nx E) as [N|(q' & -> & E')]; [by left|]. right. exists kv, kvs, q'. by rewrite Ex.
Qed.

Lemma noFold_prefix kvs q s : Forall plainLine kvs -> linesText kvs ++ strCRLF = q ++ s -> noFold q.
Proof.
  intros F E. pose proof (noFold_lines kvs [] F) as N. rewrite app_nil_r, E in N. by destruct q.
Qed.

(** readRawHeaders on a printed block: the block itself, with its end. *)
Lemma readRawLoop_lines fuel buf kvs rest n dst :
  Forall plainLine kvs -> (length kvs < fuel)%nat ->
  readRawLoop fuel buf (linesText kvs ++ strCRLF ++ rest) n dst =
  (dst ++ take (n + length (linesText kvs) + 2) buf, (n + length (linesText kvs) + 2)%nat, None).
Proof.
  intros H. revert fuel n. induction H as [|kv kvs Hkv H IH]; intros fuel n Hf.
  - destruct fuel as [|fuel]; [simpl in *; lia|]. cbn [readRawLoop linesText map concat app].
    assert (IndexByte (strCRLF ++ rest) nChar = Some 1%nat) as -> by done.
    rewrite decide_True by (left; done). simpl. by rewrite Nat.add_0_r.
  - destruct fuel as [|fuel]; [simpl in *; lia|]. cbn [readRawLoop].
    rewrite linesText_cons, <- app_assoc.
    destruct (plainLine_newline kv (linesText kvs ++ strCRLF ++ rest) Hkv) as (m & -> & Hm & Hm1).
    rewrite decide_False by lia. rewrite Hm, drop_app_exact.
    rewrite IH by (simpl in *; lia).
    assert (n + length (headerLine kv) + length (linesText kvs) + 2 =
            n + length (headerLine kv ++ linesText kvs) + 2)%nat as -> by (rewrite length_app; lia).
    done.
Qed.

Definition rawBlock (kvs : list (bytes * bytes)) : bytes :=
  match kvs with [] => [] | _ => linesText kvs ++ strCRLF end.

Lemma readRawHeaders_lines kvs rest :
  Forall plainLine kvs ->
  readRawHeaders [] (linesText kvs ++ strCRLF ++ rest) =
  (rawBlock kvs, (length (linesText kvs) + 2)%nat, None).
Proof.
  intros H. unfold readRawHeaders. destruct H as [|kv kvs Hkv H]; [done|].
  rewrite linesText_cons, <- app_assoc.
  destruct (plainLine_newline kv (linesText kvs ++ strCRLF ++ rest) Hkv) as (m & -> & Hm & Hm1).
  rewrite decide_False by lia. rewrite Hm, drop_app_exact.
  rewrite readRawLoop_lines; [|done|].
  - unfold rawBlock. rewrite linesText_cons.
    assert (length (headerLine kv) + length (linesText kvs) + 2 =
            length ((headerLine kv ++ linesText kvs) ++ strCRLF))%nat as -> by (rewrite !length_app; simpl; lia).
    assert (length (headerLine kv ++ linesText kvs) + 2 =
            length ((headerLine kv ++ linesText kvs) ++ strCRLF))%nat as -> by (rewrite !length_app; simpl; lia).
    assert (headerLine kv ++ linesText kvs ++ strCRLF ++ rest =
            ((headerLine kv ++ linesText kvs) ++ strCRLF) ++ rest) as -> by (by rewrite <- !app_assoc).
    cbn [app]. by rewrite take_app_exact.
  - rewrite !length_app. clear. induction kvs as [|kv' kvs IH]; simpl; [lia|].
    unfold linesText in *. simpl. unfold headerLine at 2. rewrite !length_app in *. simpl in *. lia.
Qed.

(** ... and on a strict prefix of one, nothing but the wish for more. *)
Lemma readRawLoop_prefix fuel buf kvs q s n dst :
  Forall plainLine kvs -> linesText kvs ++ strCRLF = q ++ s -> s <> [] ->
  exists dst', readRawLoop fuel buf q n dst = (dst', O, Some errNeedMore).
Proof.
  revert kvs q n. induction fuel as [|fuel IH]; intros kvs q n F E Hs; [eexists; reflexivity|]. cbn [readRawLoop].
  destruct (linesText_prefix kvs q s F E Hs) as [N|(kv & kvs' & q' & -> & -> & E')].
  - apply IndexByte_None in N. rewrite N. eauto.
  - apply Forall_cons in F as [Fk F]. destruct (plainLine_newline kv q' Fk) as (m & -> & Hm & Hm1).
    rewrite decide_False by lia. rewrite Hm, drop_app_exact. by apply (IH kvs').
Qed.

Lemma readRawHeaders_prefix kvs q s :
  Forall plainLine kvs -> linesText kvs ++ strCRLF = q ++ s -> s <> [] ->
  exists dst, readRawHeaders [] q = (dst, O, Some errNeedMore).
Proof.
  intros F E Hs. unfold readRawHeaders. destruct (linesText_prefix kvs q s F E Hs) as [N|(kv & kvs' & q' & -> & -> & E')].
  - apply IndexByte_None in N. rewrite N. eauto.
  - apply Forall_cons in F as [Fk F]. destruct (plainLine_newline kv q' Fk) as (m & -> & Hm & Hm1).
    rewrite decide_False by lia. rewrite Hm, drop_app_exact. by apply (readRawLoop_prefix _ _ kvs' q' s).
Qed.

(** [next] on input without a line break wants more and leaves it alone. *)
Lemma headerScanner_next_need s :
  (nChar ∉ s_b s) -> ready s ->
  exists s', headerScanner_next s = Some (false, s') /\ s_err s' = Some errNeedMore /\ s_buffer s' = s_buffer s.
Proof.
  intros N Hr. unfold headerScanner_next.
  set (s0 := if s_initialized s then s else _).
  assert (s_done s0 = s_done s /\ s_b s0 = s_b s /\ s_tail s0 = s_tail s /\ s_nextColon s0 = None) as (E1 & E2 & E3 & E4).
  { subst s0. destruct Hr as [->|[Hr _]]; [done|]. destruct (s_initialized s); by split_and!. }
  clearbody s0. cbv zeta. rewrite E2, E4.
  rewrite decide_False by (intros [_ H]; apply N; by apply list_elem_of_lookup_2 in H).
  rewrite decide_False by (intros H; apply N; by apply list_elem_of_lookup_2 in H).
  apply IndexByte_None in N. rewrite N. eexists. split; [reflexivity|]. split; [done|].
  unfold s_buffer. simpl. by rewrite E1, E3.
Qed.

(** ** Comma-separated values against splitting *)

Lemma hasHeaderValueLoop_spec fuel s v :
  v <> [] -> (length s < fuel)%nat ->
  hasHeaderValueLoop fuel s v = existsb (fun x => caseInsensitiveCompare (stripSpace x) v) (splitOn "," s).
Proof.
  intros Hv. revert s. induction fuel as [|fuel IH]; intros s Hf; [lia|]. cbn [hasHeaderValueLoop].
  unfold headerValueScanner_next.
  destruct (decide (s = [])) as [->|Hne].
  { simpl. unfold caseInsensitiveCompare. rewrite decide_True; [done|]. destruct v; simpl; congruence. }
  rewrite decide_False by (by destruct s).
  destruct (IndexByte s ",") as [n|] eqn:E.
  - apply IndexByte_Some in E as (l1 & l2 & -> & <- & N).
    rewrite take_app_exact, Nat.add_1_r, drop_app_S, splitOn_app by done. cbn [existsb].
    destruct (caseInsensitiveCompare (stripSpace l1) v); [done|]. apply IH.
    rewrite length_app in Hf. simpl in Hf. lia.
  - apply IndexByte_None in E. rewrite splitOn_none by done. cbn [existsb].
    destruct (caseInsensitiveCompare (stripSpace s) v); [done|]. destruct fuel; done.
Qed.

(** * Properties *)

(** The scanner is memory safe on every input: from any state it can be in,
    [next] returns without an index panic, never writes outside the buffer it
    was given (whose length it keeps), reports an error or makes progress, and
    the state it leaves is again a valid one. *)
Lemma headerScanner_next_safe (s : headerScanner) (H : wfScanner s) :
  exists more s', headerScanner_next s = Some (more, s') /\
    length (s_buffer s') = length (s_buffer s) /\
    (more = true -> wfScanner s' /\ (length (s_b s') < length (s_b s))%nat) /\
    (more = false -> s_err s' = None -> drift s' = drift s).
Proof.
  destruct (headerScanner_next_total s H) as (r & s' & E & Hl & _ & Ht & Hf).
  exists r, s'. split_and!; try done.
  - intros Hr. by destruct (Ht Hr) as (_ & ? & ? & _).
  - intros Hr He. destruct (Hf Hr) as [?|[? _]]; done.
Qed.

Lemma headerScanner_next_safe_witness :
  let s := newHeaderScanner (bs "X: a" ++ strCRLF ++ bs " b " ++ strCRLF ++ bs " c:d" ++ strCRLF ++ strCRLF) false in
  wfScanner s /\
  exists more s', headerScanner_next s = Some (more, s') /\
    length (s_buffer s') = length (s_buffer s) /\
    (more = true -> wfScanner s' /\ (length (s_b s') < length (s_b s))%nat) /\
    (more = false -> s_err s' = None -> drift s' = drift s).
Proof. split; [by left|]. apply headerScanner_next_safe. by left. Defined.

(** Header names are compared modulo case by normalising them: two names
    have the same normal form exactly when they differ only in letter case,
    and normalising twice changes nothing. *)
Lemma normalizeHeaderKey_canonical (k1 k2 : bytes) :
  (normalizeHeaderKey k1 false = normalizeHeaderKey k2 false <-> map lower k1 = map lower k2) /\
  normalizeHeaderKey (normalizeHeaderKey k1 false) false = normalizeHeaderKey k1 false /\
  length (normalizeHeaderKey k1 false) = length k1.
Proof.
  split_and!; [split|apply normalizeHeaderKey_idem|apply normalizeHeaderKey_length].
  - intros E. by rewrite <- (normalizeHeaderKey_lower k1 false), E, normalizeHeaderKey_lower.
  - intros E. by rewrite <- normalizeHeaderKey_map_lower, E, normalizeHeaderKey_map_lower.
Qed.

(** removeNewLines leaves no line break, whichever comes first, keeps the
    length, and touches nothing else; so a value set through Set cannot start
    another header line. *)
Lemma removeNewLines_safe (raw : bytes) :
  (rChar ∉ removeNewLines raw) /\ (nChar ∉ removeNewLines raw) /\
  length (removeNewLines raw) = length raw /\
  (rChar ∉ raw -> nChar ∉ raw -> removeNewLines raw = raw).
Proof.
  rewrite removeNewLines_spec. pose proof (blankBreak_clean raw) as [H1 H2].
  split_and!; [done|done|apply length_map|apply blankBreak_id].
Qed.

(** Compacting a folded value moves the rest of the buffer to the front and
    leaves a copy of its last bytes at the end, one for each byte removed: the
    buffer does not shrink, so these stale bytes stay readable. *)
Lemma normalizeHeaderValue_shift (ov ob : bytes) (hLen : Z) nv ob' st en h'
    (H : normalizeHeaderValue ov ob hLen = Some (nv, ob', st, en, h')) (Hov : ov <> []) (Hpre : HasPrefix ob ov = true) :
  exists shrunk, (length nv + shrunk = length ov)%nat /\
    ob' = nv ++ drop (length ov) ob ++ drop (length ob - shrunk) ob /\
    length ob' = length ob /\ en = (length ob - shrunk)%nat /\ h' = hLen - Z.of_nat shrunk.
Proof.
  apply HasPrefix_true in Hpre as [r Hr]. unfold normalizeHeaderValue in H.
  rewrite decide_False in H by (by destruct ov). destruct (foldValueLoop ov false) as [v k] eqn:Ef.
  apply foldValueLoop_length in Ef. cbv zeta in H.
  destruct (_ !! length v); [|done]. simpl in H.
  destruct (if decide _ then _ else _) as [skip|]; [|done]. simpl in H. case_decide; [|done]. simplify_eq.
  exists k. split_and!; try done. rewrite !length_app, !length_drop, length_app. lia.
Qed.

Lemma normalizeHeaderValue_shift_witness :
  let ov := bs "b" ++ strCRLF ++ bs " c" in
  let ob := ov ++ strCRLF ++ strCRLF ++ bs "BODY" in
  (normalizeHeaderValue ov ob 20 =
     Some (bs "b c", bs "b c" ++ strCRLF ++ strCRLF ++ bs "BODYDY", 5%nat, 11%nat, 18) /\ ov <> [] /\ HasPrefix ob ov = true) /\
  exists shrunk, (length (bs "b c") + shrunk = length ov)%nat /\
    bs "b c" ++ strCRLF ++ strCRLF ++ bs "BODYDY" = bs "b c" ++ drop (length ov) ob ++ drop (length ob - shrunk) ob /\
    length (bs "b c" ++ strCRLF ++ strCRLF ++ bs "BODYDY") = length ob /\ 11%nat = (length ob - shrunk)%nat /\ 18 = 20 - Z.of_nat shrunk.
Proof.
  split; [vm_compute; split_and!; (reflexivity || congruence)|].
  apply (normalizeHeaderValue_shift (bs "b" ++ strCRLF ++ bs " c") _ 20 _ _ 5%nat 11%nat); vm_compute; (reflexivity || congruence).
Defined.

(** hasHeaderValue looks for the token among the comma-separated items,
    blanks trimmed, letter case ignored. *)
Lemma hasHeaderValue_correct (s v : bytes) (H : v <> []) :
  hasHeaderValue s v = existsb (fun x => caseInsensitiveCompare (stripSpace x) v) (splitOn "," s).
Proof. apply hasHeaderValueLoop_spec; [done|lia]. Qed.

Lemma hasHeaderValue_correct_witness :
  strUpgrade <> [] /\
  hasHeaderValue (bs "keep-alive, upgrade") strUpgrade =
  existsb (fun x => caseInsensitiveCompare (stripSpace x) strUpgrade) (splitOn "," (bs "keep-alive, upgrade")).
Proof. split; [done|]. apply (hasHeaderValue_correct (bs "keep-alive, upgrade") strUpgrade). done. Defined.
