(* ===== verification/RequestHeader.v ===== *)
(** * header.go: RequestHeader

    The record, its accessors, the header multimap with its special keys,
    parsing of a request head and printing. *)
From Stdlib Require Import Strings.String.
From S2P Require Import Prelude BytesConv Consts Args Uri Cookie HeaderScan.

Record RequestHeader := MkRequestHeader {
  rq_disableNormalizing : bool;
  rq_noHTTP11 : bool;
  rq_connectionClose : bool;
  rq_cookiesCollected : bool;
  rq_contentLength : Z;
  rq_contentLengthBytes : bytes;
  rq_secureErrorLogMessage : bool;
  rq_method : bytes;
  rq_requestURI : bytes;
  rq_proto : bytes;
  rq_host : bytes;
  rq_contentType : bytes;
  rq_userAgent : bytes;
  rq_h : kvs;
  rq_bufKV : argsKV;
  rq_cookies : kvs;
  rq_rawHeaders : bytes
}.

Definition set_rq_disableNormalizing (v : bool) (h : RequestHeader) : RequestHeader :=
  MkRequestHeader v (rq_noHTTP11 h) (rq_connectionClose h) (rq_cookiesCollected h) (rq_contentLength h) (rq_contentLengthBytes h) (rq_secureErrorLogMessage h) (rq_method h) (rq_requestURI h) (rq_proto h) (rq_host h) (rq_contentType h) (rq_userAgent h) (rq_h h) (rq_bufKV h) (rq_cookies h) (rq_rawHeaders h).
Definition set_rq_noHTTP11 (v : bool) (h : RequestHeader) : RequestHeader :=
  MkRequestHeader (rq_disableNormalizing h) v (rq_connectionClose h) (rq_cookiesCollected h) (rq_contentLength h) (rq_contentLengthBytes h) (rq_secureErrorLogMessage h) (rq_method h) (rq_requestURI h) (rq_proto h) (rq_host h) (rq_contentType h) (rq_userAgent h) (rq_h h) (rq_bufKV h) (rq_cookies h) (rq_rawHeaders h).
Definition set_rq_connectionClose (v : bool) (h : RequestHeader) : RequestHeader :=
  MkRequestHeader (rq_disableNormalizing h) (rq_noHTTP11 h) v (rq_cookiesCollected h) (rq_contentLength h) (rq_contentLengthBytes h) (rq_secureErrorLogMessage h) (rq_method h) (rq_requestURI h) (rq_proto h) (rq_host h) (rq_contentType h) (rq_userAgent h) (rq_h h) (rq_bufKV h) (rq_cookies h) (rq_rawHeaders h).
Definition set_rq_cookiesCollected (v : bool) (h : RequestHeader) : RequestHeader :=
  MkRequestHeader (rq_disableNormalizing h) (rq_noHTTP11 h) (rq_connectionClose h) v (rq_contentLength h) (rq_contentLengthBytes h) (rq_secureErrorLogMessage h) (rq_method h) (rq_requestURI h) (rq_proto h) (rq_host h) (rq_contentType h) (rq_userAgent h) (rq_h h) (rq_bufKV h) (rq_cookies h) (rq_rawHeaders h).
Definition set_rq_contentLength (v : Z) (h : RequestHeader) : RequestHeader :=
  MkRequestHeader (rq_disableNormalizing h) (rq_noHTTP11 h) (rq_connectionClose h) (rq_cookiesCollected h) v (rq_contentLengthBytes h) (rq_secureErrorLogMessage h) (rq_method h) (rq_requestURI h) (rq_proto h) (rq_host h) (rq_contentType h) (rq_userAgent h) (rq_h h) (rq_bufKV h) (rq_cookies h) (rq_rawHeaders h).
Definition set_rq_contentLengthBytes (v : bytes) (h : RequestHeader) : RequestHeader :=
  MkRequestHeader (rq_disableNormalizing h) (rq_noHTTP11 h) (rq_connectionClose h) (rq_cookiesCollected h) (rq_contentLength h) v (rq_secureErrorLogMessage h) (rq_method h) (rq_requestURI h) (rq_proto h) (rq_host h) (rq_contentType h) (rq_userAgent h) (rq_h h) (rq_bufKV h) (rq_cookies h) (rq_rawHeaders h).
Definition set_rq_secureErrorLogMessage (v : bool) (h : RequestHeader) : RequestHeader :=
  MkRequestHeader (rq_disableNormalizing h) (rq_noHTTP11 h) (rq_connectionClose h) (rq_cookiesCollected h) (rq_contentLength h) (rq_contentLengthBytes h) v (rq_method h) (rq_requestURI h) (rq_proto h) (rq_host h) (rq_contentType h) (rq_userAgent h) (rq_h h) (rq_bufKV h) (rq_cookies h) (rq_rawHeaders h).
Definition set_rq_method (v : bytes) (h : RequestHeader) : RequestHeader :=
  MkRequestHeader (rq_disableNormalizing h) (rq_noHTTP11 h) (rq_connectionClose h) (rq_cookiesCollected h) (rq_contentLength h) (rq_contentLengthBytes h) (rq_secureErrorLogMessage h) v (rq_requestURI h) (rq_proto h) (rq_host h) (rq_contentType h) (rq_userAgent h) (rq_h h) (rq_bufKV h) (rq_cookies h) (rq_rawHeaders h).
Definition set_rq_requestURI (v : bytes) (h : RequestHeader) : RequestHeader :=
  MkRequestHeader (rq_disableNormalizing h) (rq_noHTTP11 h) (rq_connectionClose h) (rq_cookiesCollected h) (rq_contentLength h) (rq_contentLengthBytes h) (rq_secureErrorLogMessage h) (rq_method h) v (rq_proto h) (rq_host h) (rq_contentType h) (rq_userAgent h) (rq_h h) (rq_bufKV h) (rq_cookies h) (rq_rawHeaders h).
Definition set_rq_proto (v : bytes) (h : RequestHeader) : RequestHeader :=
  MkRequestHeader (rq_disableNormalizing h) (rq_noHTTP11 h) (rq_connectionClose h) (rq_cookiesCollected h) (rq_contentLength h) (rq_contentLengthBytes h) (rq_secureErrorLogMessage h) (rq_method h) (rq_requestURI h) v (rq_host h) (rq_contentType h) (rq_userAgent h) (rq_h h) (rq_bufKV h) (rq_cookies h) (rq_rawHeaders h).
Definition set_rq_host (v : bytes) (h : RequestHeader) : RequestHeader :=
  MkRequestHeader (rq_disableNormalizing h) (rq_noHTTP11 h) (rq_connectionClose h) (rq_cookiesCollected h) (rq_contentLength h) (rq_contentLengthBytes h) (rq_secureErrorLogMessage h) (rq_method h) (rq_requestURI h) (rq_proto h) v (rq_contentType h) (rq_userAgent h) (rq_h h) (rq_bufKV h) (rq_cookies h) (rq_rawHeaders h).
Definition set_rq_contentType (v : bytes) (h : RequestHeader) : RequestHeader :=
  MkRequestHeader (rq_disableNormalizing h) (rq_noHTTP11 h) (rq_connectionClose h) (rq_cookiesCollected h) (rq_contentLength h) (rq_contentLengthBytes h) (rq_secureErrorLogMessage h) (rq_method h) (rq_requestURI h) (rq_proto h) (rq_host h) v (rq_userAgent h) (rq_h h) (rq_bufKV h) (rq_cookies h) (rq_rawHeaders h).
Definition set_rq_userAgent (v : bytes) (h : RequestHeader) : RequestHeader :=
  MkRequestHeader (rq_disableNormalizing h) (rq_noHTTP11 h) (rq_connectionClose h) (rq_cookiesCollected h) (rq_contentLength h) (rq_contentLengthBytes h) (rq_secureErrorLogMessage h) (rq_method h) (rq_requestURI h) (rq_proto h) (rq_host h) (rq_contentType h) v (rq_h h) (rq_bufKV h) (rq_cookies h) (rq_rawHeaders h).
Definition set_rq_h (v : kvs) (h : RequestHeader) : RequestHeader :=
  MkRequestHeader (rq_disableNormalizing h) (rq_noHTTP11 h) (rq_connectionClose h) (rq_cookiesCollected h) (rq_contentLength h) (rq_contentLengthBytes h) (rq_secureErrorLogMessage h) (rq_method h) (rq_requestURI h) (rq_proto h) (rq_host h) (rq_contentType h) (rq_userAgent h) v (rq_bufKV h) (rq_cookies h) (rq_rawHeaders h).
Definition set_rq_bufKV (v : argsKV) (h : RequestHeader) : RequestHeader :=
  MkRequestHeader (rq_disableNormalizing h) (rq_noHTTP11 h) (rq_connectionClose h) (rq_cookiesCollected h) (rq_contentLength h) (rq_contentLengthBytes h) (rq_secureErrorLogMessage h) (rq_method h) (rq_requestURI h) (rq_proto h) (rq_host h) (rq_contentType h) (rq_userAgent h) (rq_h h) v (rq_cookies h) (rq_rawHeaders h).
Definition set_rq_cookies (v : kvs) (h : RequestHeader) : RequestHeader :=
  MkRequestHeader (rq_disableNormalizing h) (rq_noHTTP11 h) (rq_connectionClose h) (rq_cookiesCollected h) (rq_contentLength h) (rq_contentLengthBytes h) (rq_secureErrorLogMessage h) (rq_method h) (rq_requestURI h) (rq_proto h) (rq_host h) (rq_contentType h) (rq_userAgent h) (rq_h h) (rq_bufKV h) v (rq_rawHeaders h).
Definition set_rq_rawHeaders (v : bytes) (h : RequestHeader) : RequestHeader :=
  MkRequestHeader (rq_disableNormalizing h) (rq_noHTTP11 h) (rq_connectionClose h) (rq_cookiesCollected h) (rq_contentLength h) (rq_contentLengthBytes h) (rq_secureErrorLogMessage h) (rq_method h) (rq_requestURI h) (rq_proto h) (rq_host h) (rq_contentType h) (rq_userAgent h) (rq_h h) (rq_bufKV h) (rq_cookies h) v.

Definition emptyRequestHeader : RequestHeader :=
  MkRequestHeader false false false false 0 [] false [] [] [] [] [] [] nilKvs zeroKV nilKvs [].

(** Writing [bufKV.value] or [bufKV.key], the scratch pair. *)
Definition set_rq_bufValue (v : bytes) (h : RequestHeader) : RequestHeader :=
  set_rq_bufKV (ArgsKV (key (rq_bufKV h)) v (noValue (rq_bufKV h))) h.
Definition set_rq_bufKey (k : bytes) (h : RequestHeader) : RequestHeader :=
  set_rq_bufKV (ArgsKV k (value (rq_bufKV h)) (noValue (rq_bufKV h))) h.

(** ** Reset and CopyTo *)

Definition RequestHeader_resetSkipNormalize (h : RequestHeader) : RequestHeader :=
  MkRequestHeader (rq_disableNormalizing h) false false false 0 [] (rq_secureErrorLogMessage h) [] [] [] [] [] []
    (truncKvs (rq_h h)) (rq_bufKV h) (truncKvs (rq_cookies h)) [].

Definition RequestHeader_Reset (h : RequestHeader) : RequestHeader :=
  RequestHeader_resetSkipNormalize (set_rq_disableNormalizing false h).

(** [secureErrorLogMessage] is not copied. *)
Definition RequestHeader_CopyTo (h dst : RequestHeader) : RequestHeader :=
  let dst := RequestHeader_Reset dst in
  MkRequestHeader (rq_disableNormalizing h) (rq_noHTTP11 h) (rq_connectionClose h) (rq_cookiesCollected h)
    (rq_contentLength h) (rq_contentLengthBytes h) (rq_secureErrorLogMessage dst) (rq_method h)
    (rq_requestURI h) (rq_proto h) (rq_host h) (rq_contentType h) (rq_userAgent h)
    (copyArgs (rq_h dst) (rq_h h)) (rq_bufKV dst) (copyArgs (rq_cookies dst) (rq_cookies h)) (rq_rawHeaders h).

(** ** Fields with an accessor of their own *)

Definition RequestHeader_DisableNormalizing (h : RequestHeader) : RequestHeader := set_rq_disableNormalizing true h.
Definition RequestHeader_EnableNormalizing (h : RequestHeader) : RequestHeader := set_rq_disableNormalizing false h.

Definition RequestHeader_ConnectionClose (h : RequestHeader) : bool := rq_connectionClose h.
Definition RequestHeader_SetConnectionClose (h : RequestHeader) : RequestHeader := set_rq_connectionClose true h.
Definition RequestHeader_ResetConnectionClose (h : RequestHeader) : RequestHeader :=
  if rq_connectionClose h then
    set_rq_h (delAllArgsBytes (rq_h h) strConnection) (set_rq_connectionClose false h)
  else h.

Definition RequestHeader_realContentLength (h : RequestHeader) : Z := rq_contentLength h.
Definition RequestHeader_ContentLength (h : RequestHeader) : Z := RequestHeader_realContentLength h.

(** [None] would be a panic of AppendUint. *)
Definition RequestHeader_SetContentLength (h : RequestHeader) (contentLength : Z) : option RequestHeader :=
  let h := set_rq_contentLength contentLength h in
  if 0 <=? contentLength then
    b ← AppendUint [] contentLength;
    Some (set_rq_h (delAllArgsBytes (rq_h h) strTransferEncoding) (set_rq_contentLengthBytes b h))
  else
    Some (set_rq_h (setArgBytes (rq_h h) strTransferEncoding strChunked argsHasValue)
            (set_rq_contentLengthBytes [] h)).

Definition RequestHeader_ContentType (h : RequestHeader) : bytes := rq_contentType h.
Definition RequestHeader_SetContentType (h : RequestHeader) (v : bytes) : RequestHeader := set_rq_contentType v h.
Definition RequestHeader_Host (h : RequestHeader) : bytes := rq_host h.
Definition RequestHeader_SetHost (h : RequestHeader) (v : bytes) : RequestHeader := set_rq_host v h.
Definition RequestHeader_UserAgent (h : RequestHeader) : bytes := rq_userAgent h.
Definition RequestHeader_SetUserAgent (h : RequestHeader) (v : bytes) : RequestHeader := set_rq_userAgent v h.

Definition RequestHeader_Method (h : RequestHeader) : bytes :=
  if decide (length (rq_method h) = O) then strGet else rq_method h.
Definition RequestHeader_SetMethod (h : RequestHeader) (v : bytes) : RequestHeader := set_rq_method v h.

Definition RequestHeader_Protocol (h : RequestHeader) : bytes :=
  if decide (length (rq_proto h) = O) then strHTTP11 else rq_proto h.
Definition RequestHeader_SetProtocol (h : RequestHeader) (v : bytes) : RequestHeader :=
  set_rq_noHTTP11 (negb (bool_decide (v = strHTTP11))) (set_rq_proto v h).

Definition RequestHeader_RequestURI (h : RequestHeader) : bytes :=
  if decide (length (rq_requestURI h) = O) then strSlash else rq_requestURI h.
Definition RequestHeader_SetRequestURI (h : RequestHeader) (v : bytes) : RequestHeader := set_rq_requestURI v h.

Definition RequestHeader_IsGet (h : RequestHeader) : bool := bool_decide (RequestHeader_Method h = strGet).
Definition RequestHeader_IsPost (h : RequestHeader) : bool := bool_decide (RequestHeader_Method h = strPost).
Definition RequestHeader_IsPut (h : RequestHeader) : bool := bool_decide (RequestHeader_Method h = strPut).
Definition RequestHeader_IsHead (h : RequestHeader) : bool := bool_decide (RequestHeader_Method h = strHead).
Definition RequestHeader_IsDelete (h : RequestHeader) : bool := bool_decide (RequestHeader_Method h = strDelete).
Definition RequestHeader_IsConnect (h : RequestHeader) : bool := bool_decide (RequestHeader_Method h = strConnect).
Definition RequestHeader_IsOptions (h : RequestHeader) : bool := bool_decide (RequestHeader_Method h = strOptions).
Definition RequestHeader_IsTrace (h : RequestHeader) : bool := bool_decide (RequestHeader_Method h = strTrace).
Definition RequestHeader_IsPatch (h : RequestHeader) : bool := bool_decide (RequestHeader_Method h = strPatch).
Definition RequestHeader_IsHTTP11 (h : RequestHeader) : bool := negb (rq_noHTTP11 h).
Definition RequestHeader_ignoreBody (h : RequestHeader) : bool := RequestHeader_IsGet h || RequestHeader_IsHead h.

(** ** multipart/form-data boundary *)

Definition RequestHeader_SetMultipartFormBoundary (h : RequestHeader) (boundary : bytes) : RequestHeader :=
  let b := strMultipartFormData ++ [";"%byte; " "%byte] ++ strBoundary ++ ["="%byte] ++ boundary in
  let h := set_rq_bufValue b h in
  RequestHeader_SetContentType h (value (rq_bufKV h)).

(** The parameter loop; [n] is the offset of the next parameter's semicolon
    and each round drops at least one byte.  [None] is nil. *)
Fixpoint boundaryLoop (fuel : nat) (b : bytes) (n : nat) : option bytes :=
  match fuel with
  | O => None
  | S fuel' =>
      if decide (length b = O) then None
      else
        let n := (n + 1)%nat in
        let n := (n + countSpaces (drop n b))%nat in
        let b := drop n b in
        if negb (HasPrefix b strBoundary) then
          match IndexByte b ";" with
          | None => None
          | Some n => boundaryLoop fuel' b n
          end
        else
          let b := drop (length strBoundary) b in
          if decide (head b <> Some "="%byte) then None
          else
            let b := drop 1 b in
            let b := match IndexByte b ";" with Some n => take n b | None => b end in
            if decide ((1 < length b)%nat /\ head b = Some x22 /\ last b = Some x22)
            then Some (take (length b - 2) (drop 1 b))
            else Some b
  end.

Definition RequestHeader_MultipartFormBoundary (h : RequestHeader) : option bytes :=
  let b := RequestHeader_ContentType h in
  if negb (HasPrefix b strMultipartFormData) then None
  else
    let b := drop (length strMultipartFormData) b in
    if decide (head b <> Some ";"%byte) then None
    else boundaryLoop (S (length b)) b 0.

(** ** Cookies *)

(** The loop of collectCookies over [h.h]: as delAllArgs, with the cookie
    lists of the removed elements parsed. *)
Fixpoint collectLoop (pre rest sp : list argsKV) (cookies : kvs) : option (kvs * kvs) :=
  match rest with
  | [] => Some (Kvs pre sp, cookies)
  | kv :: rest' =>
      if caseInsensitiveCompare (key kv) strCookie then
        cookies ← parseRequestCookies cookies (value kv);
        collectLoop pre rest' (kv :: sp) cookies
      else collectLoop (pre ++ [kv]) rest' sp cookies
  end.

(** [None] would be a panic of parseRequestCookies. *)
Definition RequestHeader_collectCookies (h : RequestHeader) : option RequestHeader :=
  if rq_cookiesCollected h then Some h
  else
    '(hs, cookies) ← collectLoop [] (live (rq_h h)) (spare (rq_h h)) (rq_cookies h);
    Some (set_rq_cookiesCollected true (set_rq_cookies cookies (set_rq_h hs h))).

Definition RequestHeader_SetCookie (h : RequestHeader) (k v : bytes) : option RequestHeader :=
  h ← RequestHeader_collectCookies h; Some (set_rq_cookies (setArg (rq_cookies h) k v argsHasValue) h).

Definition RequestHeader_DelCookie (h : RequestHeader) (k : bytes) : option RequestHeader :=
  h ← RequestHeader_collectCookies h; Some (set_rq_cookies (delAllArgs (rq_cookies h) k) h).

Definition RequestHeader_DelAllCookies (h : RequestHeader) : option RequestHeader :=
  h ← RequestHeader_collectCookies h; Some (set_rq_cookies (truncKvs (rq_cookies h)) h).

Definition RequestHeader_Cookie (h : RequestHeader) (k : bytes) : option (RequestHeader * option bytes) :=
  h ← RequestHeader_collectCookies h; Some (h, peekArgStr (live (rq_cookies h)) k).

Definition RequestHeader_CookieBytes (h : RequestHeader) (k : bytes) : option (RequestHeader * option bytes) :=
  h ← RequestHeader_collectCookies h; Some (h, peekArgBytes (live (rq_cookies h)) k).

Definition RequestHeader_VisitAllCookie (h : RequestHeader) : option (RequestHeader * list (bytes * bytes)) :=
  h ← RequestHeader_collectCookies h; Some (h, visitArgs (live (rq_cookies h))).

(** ** The header multimap *)

(** [switch key[0] | 0x20] with its character. *)
Definition firstIs (c : byte) (k : bytes) : bool :=
  match k with x :: _ => bool_decide (or20 x = c) | [] => false end.

(** The new header, and whether the key was a special one. *)
Definition RequestHeader_setSpecialHeader (h : RequestHeader) (k v : bytes) : option (RequestHeader * bool) :=
  if decide (length k = O) then Some (h, false)
  else if firstIs "c" k then
    if caseInsensitiveCompare strContentType k then Some (RequestHeader_SetContentType h v, true)
    else if caseInsensitiveCompare strContentLength k then
      match parseContentLength v with
      | (contentLength, None) => Some (set_rq_contentLengthBytes v (set_rq_contentLength contentLength h), true)
      | (_, Some _) => Some (h, true)
      end
    else if caseInsensitiveCompare strConnection k then
      if decide (strClose = v) then Some (RequestHeader_SetConnectionClose h, true)
      else
        let h := RequestHeader_ResetConnectionClose h in
        Some (set_rq_h (setArgBytes (rq_h h) k v argsHasValue) h, true)
    else if caseInsensitiveCompare strCookie k then
      h ← RequestHeader_collectCookies h;
      cookies ← parseRequestCookies (rq_cookies h) v;
      Some (set_rq_cookies cookies h, true)
    else Some (h, false)
  else if firstIs "t" k then
    Some (h, caseInsensitiveCompare strTransferEncoding k)
  else if firstIs "h" k then
    if caseInsensitiveCompare strHost k then Some (RequestHeader_SetHost h v, true) else Some (h, false)
  else if firstIs "u" k then
    if caseInsensitiveCompare strUserAgent k then Some (RequestHeader_SetUserAgent h v, true) else Some (h, false)
  else Some (h, false).

Definition RequestHeader_AddBytesKV (h : RequestHeader) (k v : bytes) : option RequestHeader :=
  '(h, special) ← RequestHeader_setSpecialHeader h k v;
  if special : bool then Some h
  else
    let h := set_rq_bufKV (getHeaderKeyBytes (rq_bufKV h) k (rq_disableNormalizing h)) h in
    Some (set_rq_h (appendArgBytes (rq_h h) (key (rq_bufKV h)) v argsHasValue) h).

Definition RequestHeader_Add (h : RequestHeader) (k v : bytes) : option RequestHeader := RequestHeader_AddBytesKV h k v.

Definition RequestHeader_SetCanonical (h : RequestHeader) (k v : bytes) : option RequestHeader :=
  '(h, special) ← RequestHeader_setSpecialHeader h k v;
  if special : bool then Some h
  else Some (set_rq_h (setArgBytes (rq_h h) k v argsHasValue) h).

Definition RequestHeader_Set (h : RequestHeader) (k v : bytes) : option RequestHeader :=
  let h := set_rq_bufKV (initHeaderKV (rq_bufKV h) k v (rq_disableNormalizing h)) h in
  RequestHeader_SetCanonical h (key (rq_bufKV h)) (value (rq_bufKV h)).

Definition RequestHeader_SetBytesKV (h : RequestHeader) (k v : bytes) : option RequestHeader :=
  let h := set_rq_bufKey (normalizeHeaderKey k (rq_disableNormalizing h)) h in
  RequestHeader_SetCanonical h (key (rq_bufKV h)) v.

Definition RequestHeader_SetBytesK (h : RequestHeader) (k v : bytes) : option RequestHeader :=
  let h := set_rq_bufValue v h in RequestHeader_SetBytesKV h k (value (rq_bufKV h)).

Definition RequestHeader_SetBytesV (h : RequestHeader) (k v : bytes) : option RequestHeader :=
  let h := set_rq_bufKV (getHeaderKeyBytes (rq_bufKV h) k (rq_disableNormalizing h)) h in
  RequestHeader_SetCanonical h (key (rq_bufKV h)) v.

Definition RequestHeader_del (h : RequestHeader) (k : bytes) : RequestHeader :=
  let h :=
    if decide (k = HeaderHost) then set_rq_host [] h
    else if decide (k = HeaderContentType) then set_rq_contentType [] h
    else if decide (k = HeaderUserAgent) then set_rq_userAgent [] h
    else if decide (k = HeaderCookie) then set_rq_cookies (truncKvs (rq_cookies h)) h
    else if decide (k = HeaderContentLength) then set_rq_contentLengthBytes [] (set_rq_contentLength 0 h)
    else if decide (k = HeaderConnection) then set_rq_connectionClose false h
    else h in
  set_rq_h (delAllArgsBytes (rq_h h) k) h.

Definition RequestHeader_Del (h : RequestHeader) (k : bytes) : RequestHeader :=
  let h := set_rq_bufKV (getHeaderKeyBytes (rq_bufKV h) k (rq_disableNormalizing h)) h in
  RequestHeader_del h (key (rq_bufKV h)).

Definition RequestHeader_peek (h : RequestHeader) (k : bytes) : option bytes :=
  if decide (k = HeaderHost) then Some (RequestHeader_Host h)
  else if decide (k = HeaderContentType) then Some (RequestHeader_ContentType h)
  else if decide (k = HeaderUserAgent) then Some (RequestHeader_UserAgent h)
  else if decide (k = HeaderConnection) then
    if RequestHeader_ConnectionClose h then Some strClose else peekArgBytes (live (rq_h h)) k
  else if decide (k = HeaderContentLength) then Some (rq_contentLengthBytes h)
  else if decide (k = HeaderCookie) then
    if rq_cookiesCollected h then Some (appendRequestCookieBytes [] (live (rq_cookies h)))
    else peekArgBytes (live (rq_h h)) k
  else peekArgBytes (live (rq_h h)) k.

Definition RequestHeader_Peek (h : RequestHeader) (k : bytes) : RequestHeader * option bytes :=
  let h := set_rq_bufKV (getHeaderKeyBytes (rq_bufKV h) k (rq_disableNormalizing h)) h in
  (h, RequestHeader_peek h (key (rq_bufKV h))).

Definition RequestHeader_Referer (h : RequestHeader) : RequestHeader * option bytes := RequestHeader_Peek h strReferer.
Definition RequestHeader_SetReferer (h : RequestHeader) (v : bytes) : option RequestHeader :=
  RequestHeader_SetBytesK h strReferer v.

Definition RequestHeader_ConnectionUpgrade (h : RequestHeader) : RequestHeader * bool :=
  let '(h, v) := RequestHeader_Peek h HeaderConnection in (h, hasHeaderValue (default [] v) strUpgrade).

Definition RequestHeader_HasAcceptEncodingBytes (h : RequestHeader) (acceptEncoding : bytes) : bool :=
  let ae := default [] (RequestHeader_peek h strAcceptEncoding) in
  match Index ae acceptEncoding with
  | None => false
  | Some n =>
      let b := drop (n + length acceptEncoding) ae in
      if decide (b <> [] /\ head b <> Some ","%byte) then false
      else if decide (n = O) then true
      else bool_decide (ae !! (n - 1)%nat = Some " "%byte)
  end.

Definition RequestHeader_HasAcceptEncoding (h : RequestHeader) (acceptEncoding : bytes) : RequestHeader * bool :=
  let h := set_rq_bufValue acceptEncoding h in
  (h, RequestHeader_HasAcceptEncodingBytes h (value (rq_bufKV h))).

(** SetByteRange; [None] would be a panic of AppendUint. *)
Definition RequestHeader_SetByteRange (h : RequestHeader) (startPos endPos : Z) : option RequestHeader :=
  let b := strBytes ++ ["="%byte] in
  '(b, endPos) ←
    (if 0 <=? startPos then b ← AppendUint b startPos; Some (b, endPos)
     else Some (b, int64 (- startPos)));
  let b := b ++ ["-"%byte] in
  b ← (if 0 <=? endPos then AppendUint b endPos else Some b);
  let h := set_rq_bufValue b h in
  RequestHeader_SetCanonical h strRange (value (rq_bufKV h)).

(** VisitAll: the calls of [f] in order. *)
Definition RequestHeader_VisitAll (h : RequestHeader) : option (RequestHeader * list (bytes * bytes)) :=
  let ifSet k v := if Nat.ltb 0 (length v) then [(k, v)] else [] in
  let visited :=
    ifSet strHost (RequestHeader_Host h) ++ ifSet strContentLength (rq_contentLengthBytes h) ++
    ifSet strContentType (RequestHeader_ContentType h) ++ ifSet strUserAgent (RequestHeader_UserAgent h) in
  h ← RequestHeader_collectCookies h;
  let '(h, cookies) :=
    if Nat.ltb 0 (length (live (rq_cookies h))) then
      let v := appendRequestCookieBytes [] (live (rq_cookies h)) in (set_rq_bufValue v h, [(strCookie, v)])
    else (h, []) in
  Some (h, visited ++ cookies ++ visitArgs (live (rq_h h)) ++
           (if RequestHeader_ConnectionClose h then [(strConnection, strClose)] else [])).

Definition RequestHeader_Len (h : RequestHeader) : option (RequestHeader * nat) :=
  '(h, l) ← RequestHeader_VisitAll h; Some (h, length l).

(** ** Printing *)

Definition appendHeaderLines (dst : bytes) (l : list argsKV) : bytes :=
  fold_left (fun dst kv => appendHeaderLine dst (key kv) (value kv)) l dst.

Definition RequestHeader_AppendBytes (h : RequestHeader) (dst : bytes) : bytes :=
  let dst := dst ++ RequestHeader_Method h ++ [" "%byte] ++ RequestHeader_RequestURI h ++ [" "%byte] ++
             RequestHeader_Protocol h ++ strCRLF in
  let userAgent := RequestHeader_UserAgent h in
  let dst := if Nat.ltb 0 (length userAgent) then appendHeaderLine dst strUserAgent userAgent else dst in
  let host := RequestHeader_Host h in
  let dst := if Nat.ltb 0 (length host) then appendHeaderLine dst strHost host else dst in
  let contentType := RequestHeader_ContentType h in
  let contentType :=
    if decide (length contentType = O /\ RequestHeader_ignoreBody h = false) then strDefaultContentType else contentType in
  let dst := if Nat.ltb 0 (length contentType) then appendHeaderLine dst strContentType contentType else dst in
  let dst := if Nat.ltb 0 (length (rq_contentLengthBytes h))
             then appendHeaderLine dst strContentLength (rq_contentLengthBytes h) else dst in
  let dst := appendHeaderLines dst (live (rq_h h)) in
  let dst := if Nat.ltb 0 (length (live (rq_cookies h)))
             then appendRequestCookieBytes (dst ++ strCookie ++ strColonSpace) (live (rq_cookies h)) ++ strCRLF
             else dst in
  let dst := if RequestHeader_ConnectionClose h then appendHeaderLine dst strConnection strClose else dst in
  dst ++ strCRLF.

Definition RequestHeader_Header (h : RequestHeader) : RequestHeader * bytes :=
  let h := set_rq_bufValue (RequestHeader_AppendBytes h []) h in (h, value (rq_bufKV h)).

Definition RequestHeader_String (h : RequestHeader) : RequestHeader * bytes := RequestHeader_Header h.

(** ** Parsing *)

(** Skips empty lines; each round drops a byte.  [None] is errNeedMore. *)
Fixpoint firstLineLoop (fuel : nat) (bNext : bytes) : option (bytes * bytes) :=
  match fuel with
  | O => None
  | S fuel' =>
      match nextLine bNext with
      | None => None
      | Some (b, bNext) => if decide (length b = O) then firstLineLoop fuel' bNext else Some (b, bNext)
      end
  end.

(** (header, bytes consumed, error). *)
Definition RequestHeader_parseFirstLine (h : RequestHeader) (buf : bytes) : RequestHeader * nat * option error :=
  match firstLineLoop (S (length buf)) buf with
  | None => (h, O, Some errNeedMore)
  | Some (b, bNext) =>
      match IndexByte b " " with
      | None | Some O => (h, O, Some (Errorf "cannot find http request method"))
      | Some n =>
          let h := set_rq_method (take n b) h in
          let b := drop (n + 1) b in
          let finish h n protoStr :=
            (set_rq_requestURI (take n b) (set_rq_proto protoStr h), (length buf - length bNext)%nat, None) in
          match LastIndexByte b " " with
          | None => finish (set_rq_noHTTP11 true h) (length b) strHTTP10
          | Some O => (h, O, Some (Errorf "requestURI cannot be empty"))
          | Some n =>
              if decide (drop (n + 1) b <> strHTTP11)
              then finish (set_rq_noHTTP11 true h) n (drop (n + 1) b)
              else finish h n strHTTP11
          end
      end
  end.

(** The body of the loop of parseHeaders for one scanned pair. *)
Definition RequestHeader_parseHeader (h : RequestHeader) (err : option error) (k v : bytes)
  : RequestHeader * option error :=
  let appended := set_rq_h (appendArgBytes (rq_h h) k v argsHasValue) h in
  if decide (length k = O) then (appended, err)
  else if decide (IndexByte k " " <> None \/ IndexByte k tabChar <> None)
  then (h, Some (Errorf "invalid header key %q"))
  else if firstIs "h" k then
    if caseInsensitiveCompare k strHost then (set_rq_host v h, err) else (appended, err)
  else if firstIs "u" k then
    if caseInsensitiveCompare k strUserAgent then (set_rq_userAgent v h, err) else (appended, err)
  else if firstIs "c" k then
    if caseInsensitiveCompare k strContentType then (set_rq_contentType v h, err)
    else if caseInsensitiveCompare k strContentLength then
      if decide (rq_contentLength h <> -1) then
        match parseContentLength v with
        | (_, Some nerr) => (set_rq_contentLength (-2) h, match err with None => Some nerr | _ => err end)
        | (contentLength, None) => (set_rq_contentLengthBytes v (set_rq_contentLength contentLength h), err)
        end
      else (h, err)
    else if caseInsensitiveCompare k strConnection then
      if decide (v = strClose) then (set_rq_connectionClose true h, err)
      else (set_rq_h (appendArgBytes (rq_h h) k v argsHasValue) (set_rq_connectionClose false h), err)
    else (appended, err)
  else if firstIs "t" k then
    if caseInsensitiveCompare k strTransferEncoding then
      if decide (v <> strIdentity) then
        (set_rq_h (setArgBytes (rq_h h) strTransferEncoding strChunked argsHasValue) (set_rq_contentLength (-1) h), err)
      else (h, err)
    else (appended, err)
  else (appended, err).

(** The loop; [next] consumes a byte each time it returns true.  [None] is a
    panic (or exhausted fuel). *)
Fixpoint RequestHeader_parseLoop (fuel : nat) (s : headerScanner) (h : RequestHeader) (err : option error)
  : option (headerScanner * RequestHeader * option error) :=
  match fuel with
  | O => None
  | S fuel' =>
      '(more, s) ← headerScanner_next s;
      if more : bool then
        let '(h, err) := RequestHeader_parseHeader h err (s_key s) (s_value s) in
        RequestHeader_parseLoop fuel' s h err
      else Some (s, h, err)
  end.

(** (header, bytes consumed, error, buffer as left by the scanner). *)
Definition RequestHeader_parseHeaders (h : RequestHeader) (buf : bytes)
  : option (RequestHeader * Z * option error * bytes) :=
  let h := set_rq_contentLength (-2) h in
  '(s, h, err) ← RequestHeader_parseLoop (S (length buf)) (newHeaderScanner buf (rq_disableNormalizing h)) h None;
  let err := match s_err s, err with Some e, None => Some e | _, _ => err end in
  match err with
  | Some err => Some (set_rq_connectionClose true h, 0, Some err, s_buffer s)
  | None =>
      let h := if rq_contentLength h <? 0 then set_rq_contentLengthBytes [] h else h in
      let h :=
        if rq_noHTTP11 h && negb (rq_connectionClose h) then
          let v := default [] (peekArgBytes (live (rq_h h)) strConnection) in
          set_rq_connectionClose (negb (hasHeaderValue v strKeepAlive)) h
        else h in
      Some (h, s_hLen s, None, s_buffer s)
  end.

(** parse works on [buf] in place: the last component is its new contents. *)
Definition RequestHeader_parse (h : RequestHeader) (buf : bytes)
  : option (RequestHeader * Z * option error * bytes) :=
  match RequestHeader_parseFirstLine h buf with
  | (h, _, Some err) => Some (h, 0, Some err, buf)
  | (h, m, None) =>
      match readRawHeaders [] (drop m buf) with
      | (raw, _, Some err) => Some (set_rq_rawHeaders raw h, 0, Some err, buf)
      | (raw, _, None) =>
          '(h, n, err, buf') ← RequestHeader_parseHeaders (set_rq_rawHeaders raw h) (drop m buf);
          match err with
          | Some err => Some (h, 0, Some err, take m buf ++ buf')
          | None => Some (h, Z.of_nat m + n, None, take m buf ++ buf')
          end
      end
  end.

(** VisitAllInOrder scans [rawHeaders] in place. *)
Fixpoint visitInOrderLoop (fuel : nat) (s : headerScanner) : option (headerScanner * list (bytes * bytes)) :=
  match fuel with
  | O => None
  | S fuel' =>
      '(more, s) ← headerScanner_next s;
      if more : bool then
        '(s', l) ← visitInOrderLoop fuel' s;
        Some (s', (if Nat.ltb 0 (length (s_key s)) then [(s_key s, s_value s)] else []) ++ l)
      else Some (s, [])
  end.

Definition RequestHeader_VisitAllInOrder (h : RequestHeader) : option (RequestHeader * list (bytes * bytes)) :=
  '(s, l) ← visitInOrderLoop (S (length (rq_rawHeaders h))) (newHeaderScanner (rq_rawHeaders h) (rq_disableNormalizing h));
  Some (set_rq_rawHeaders (s_buffer s) h, l).

(** ** Parsing is total *)

Lemma parseHeader_err_keeps h e k v : snd (RequestHeader_parseHeader h (Some e) k v) <> None.
Proof.
  unfold RequestHeader_parseHeader. cbv zeta. repeat case_decide; try done; repeat case_match; done.
Qed.

Lemma parseHeader_blank h err k v : " "%byte ∈ k -> snd (RequestHeader_parseHeader h err k v) <> None.
Proof.
  intros Hk. unfold RequestHeader_parseHeader. cbv zeta.
  destruct (decide (length k = O)) as [E|_]; [apply nil_length_inv in E; subst; by apply not_elem_of_nil in Hk|].
  rewrite decide_True; [done|]. left. intros E. by apply IndexByte_None in E.
Qed.

(** In step with the buffer, or bound to fail. *)
Definition inStep (s : headerScanner) (err : option error) : Prop :=
  err <> None \/ drift s = 0 \/ head (s_b s) = Some " "%byte.

Lemma parseLoop_total fuel s h err :
  wfScanner s -> (length (s_b s) < fuel)%nat -> inStep s err ->
  exists s' h' err', RequestHeader_parseLoop fuel s h err = Some (s', h', err') /\
    length (s_buffer s') = length (s_buffer s) /\
    (err' = None -> s_err s' = None -> drift s' = 0).
Proof.
  revert s h err. induction fuel as [|fuel IH]; intros s h err Hw Hf Hs; [lia|]. cbn [RequestHeader_parseLoop].
  destruct (headerScanner_next_total s Hw) as (r & s' & -> & Hl & _ & Ht & Hn). cbn [mbind option_bind].
  destruct r.
  - destruct (Ht eq_refl) as (_ & Hlt & Hw' & Hd & Hk).
    destruct (RequestHeader_parseHeader h err (s_key s') (s_value s')) as [h2 err2] eqn:E.
    assert (inStep s' err2) as Hs2.
    { change err2 with (snd (h2, err2)). rewrite <- E. destruct err as [e|].
      - left. apply parseHeader_err_keeps.
      - destruct Hs as [Hs|[Hs|Hs]]; [done| |].
        + destruct Hd as [Hd|Hd]; [right; left; lia|by right; right].
        + left. apply parseHeader_blank. auto. }
    destruct (IH s' h2 err2 Hw' ltac:(lia) Hs2) as (s3 & h3 & err3 & -> & Hl3 & He).
    do 3 eexists. split; [reflexivity|]. split; [congruence|done].
  - do 3 eexists. split; [reflexivity|]. split; [done|]. intros -> He.
    destruct (Hn eq_refl) as [?|[Hd Hb]]; [done|]. destruct Hs as [?|[?|?]]; [done|lia|done].
Qed.

Lemma newHeaderScanner_drift buf d : drift (newHeaderScanner buf d) = 0.
Proof. done. Qed.

Lemma parseHeaders_total h buf :
  exists h' n err buf', RequestHeader_parseHeaders h buf = Some (h', n, err, buf') /\
    length buf' = length buf /\ 0 <= n <= zlen buf.
Proof.
  unfold RequestHeader_parseHeaders. cbv zeta.
  destruct (parseLoop_total (S (length buf)) (newHeaderScanner buf (rq_disableNormalizing (set_rq_contentLength (-2) h)))
              (set_rq_contentLength (-2) h) None) as (s & h' & err & -> & Hl & Hd).
  { by left. } { simpl. lia. } { by right; left. }
  assert (length (s_buffer s) = length buf) as Hb.
  { rewrite Hl. unfold s_buffer. simpl. by rewrite app_nil_r. }
  cbn [mbind option_bind].
  destruct (match s_err s with Some e => _ | None => err end) as [e|] eqn:Ee.
  - do 4 eexists. split; [reflexivity|]. split; [done|lia].
  - do 4 eexists. split; [reflexivity|]. split; [done|].
    destruct (s_err s) eqn:Es, err; try done. specialize (Hd eq_refl eq_refl). unfold drift in Hd.
    rewrite <- Hb. unfold s_buffer. rewrite !length_app. lia.
Qed.

Lemma parseFirstLine_bound h buf : (snd (fst (RequestHeader_parseFirstLine h buf)) <= length buf)%nat.
Proof.
  unfold RequestHeader_parseFirstLine. destruct (firstLineLoop _ _) as [[b bNext]|]; [|simpl; lia].
  cbv zeta. destruct (IndexByte b " ") as [[|n]|]; simpl; try lia.
  destruct (LastIndexByte _ " ") as [[|k]|]; simpl; try lia. case_decide; simpl; lia.
Qed.

(** A first line takes at least its line feed. *)
Lemma firstLineLoop_shorter fuel buf b rest : firstLineLoop fuel buf = Some (b, rest) -> (length rest < length buf)%nat.
Proof.
  revert buf. induction fuel as [|fuel IH]; intros buf; cbn [firstLineLoop]; [done|]. unfold nextLine.
  destruct (IndexByte buf nChar) as [n|] eqn:E; [|done].
  assert (0 < length buf)%nat by (destruct buf; [done|simpl; lia]).
  case_decide; intros E'; [apply IH in E'|injection E' as _ <-]; rewrite length_drop in *; lia.
Qed.

Lemma parseFirstLine_pos h buf h' m : RequestHeader_parseFirstLine h buf = (h', m, None) -> (0 < m)%nat.
Proof.
  unfold RequestHeader_parseFirstLine. destruct (firstLineLoop _ _) as [[b bNext]|] eqn:E; [|done].
  apply firstLineLoop_shorter in E. cbv zeta.
  destruct (IndexByte b " ") as [[|n]|]; [done| |done]. destruct (LastIndexByte _ " ") as [[|k]|]; [done| |]; [case_decide|]; intros [= _ <-]; lia.
Qed.

(** ** The printed form as lines *)

Definition optLine (k v : bytes) : list (bytes * bytes) := if Nat.ltb 0 (length v) then [(k, v)] else [].

Definition printedContentType (h : RequestHeader) : bytes :=
  if decide (length (rq_contentType h) = O /\ RequestHeader_ignoreBody h = false)
  then strDefaultContentType else rq_contentType h.

Definition cookieLine (h : RequestHeader) : list (bytes * bytes) :=
  if Nat.ltb 0 (length (live (rq_cookies h)))
  then [(strCookie, appendRequestCookieBytes [] (live (rq_cookies h)))] else [].

Definition headLines (h : RequestHeader) : list (bytes * bytes) :=
  optLine strUserAgent (rq_userAgent h) ++ optLine strHost (rq_host h) ++
  optLine strContentType (printedContentType h) ++ optLine strContentLength (rq_contentLengthBytes h).

Definition closeLine (h : RequestHeader) : list (bytes * bytes) :=
  if rq_connectionClose h then [(strConnection, strClose)] else [].

Definition requestLines (h : RequestHeader) : list (bytes * bytes) :=
  headLines h ++ visitArgs (live (rq_h h)) ++ cookieLine h ++ closeLine h.

Definition requestLine (h : RequestHeader) : bytes :=
  RequestHeader_Method h ++ " "%byte :: RequestHeader_RequestURI h ++ " "%byte :: RequestHeader_Protocol h.

Lemma appendHeaderLine_spec dst k v : appendHeaderLine dst k v = dst ++ headerLine (k, v).
Proof. done. Qed.

Lemma appendHeaderLine_opt dst k v :
  (if Nat.ltb 0 (length v) then appendHeaderLine dst k v else dst) = dst ++ linesText (optLine k v).
Proof.
  unfold optLine, linesText. destruct (Nat.ltb _ _); simpl; rewrite ?app_nil_r; done.
Qed.

Lemma appendHeaderLines_spec l dst : appendHeaderLines dst l = dst ++ linesText (visitArgs l).
Proof.
  unfold appendHeaderLines. revert dst. induction l as [|kv l IH]; intros dst; simpl.
  - by rewrite app_nil_r.
  - rewrite IH, appendHeaderLine_spec, linesText_cons. by rewrite <- app_assoc.
Qed.

Lemma appendRequestCookieBytes_dst dst l : appendRequestCookieBytes dst l = dst ++ appendRequestCookieBytes [] l.
Proof. by rewrite appendRequestCookieBytes_spec, (appendRequestCookieBytes_spec l []). Qed.

Lemma RequestHeader_AppendBytes_lines h dst :
  RequestHeader_AppendBytes h dst = dst ++ requestLine h ++ strCRLF ++ linesText (requestLines h) ++ strCRLF.
Proof.
  unfold RequestHeader_AppendBytes, requestLines, headLines. cbv zeta.
  unfold RequestHeader_UserAgent, RequestHeader_Host, RequestHeader_ContentType, RequestHeader_ConnectionClose.
  fold (printedContentType h). rewrite !appendHeaderLine_opt, appendHeaderLines_spec.
  set (d := (((((_ ++ linesText (optLine strUserAgent _)) ++ _) ++ _) ++ _) ++ _)).
  assert ((if Nat.ltb 0 (length (live (rq_cookies h)))
           then appendRequestCookieBytes (d ++ strCookie ++ strColonSpace) (live (rq_cookies h)) ++ strCRLF else d) =
          d ++ linesText (cookieLine h)) as ->.
  { unfold cookieLine, linesText. destruct (Nat.ltb _ _); simpl; [|by rewrite app_nil_r].
    rewrite appendRequestCookieBytes_dst. unfold headerLine. cbn [fst snd]. by rewrite app_nil_r, <- !app_assoc. }
  assert (forall x, (if rq_connectionClose h then appendHeaderLine x strConnection strClose else x) =
                    x ++ linesText (closeLine h)) as ->.
  { intros x. unfold closeLine, linesText. destruct (rq_connectionClose h); simpl; by rewrite ?app_nil_r. }
  subst d. unfold requestLine. rewrite !linesText_app. rewrite <- !app_assoc. cbn [app]. by rewrite <- !app_assoc.
Qed.

(** ** Reading lines back *)

(** The loop of parseHeaders on plain lines is a fold. *)
Definition parseLines (d : bool) (kvs : list (bytes * bytes)) (st : RequestHeader * option error)
  : RequestHeader * option error :=
  fold_left (fun st kv => RequestHeader_parseHeader (fst st) (snd st) (normalizeHeaderKey (fst kv) d) (snd kv)) kvs st.

Definition normLine (d : bool) (kv : bytes * bytes) : bytes * bytes := (normalizeHeaderKey (fst kv) d, snd kv).

Lemma parseLoop_lines fuel s h err kvs rest :
  s_b s = linesText kvs ++ strCRLF ++ rest -> ready s -> Forall plainLine kvs -> (length kvs < fuel)%nat ->
  exists s' h' err', RequestHeader_parseLoop fuel s h err = Some (s', h', err') /\
    (h', err') = parseLines (s_disableNormalizing s) kvs (h, err) /\
    s_b s' = rest /\ s_tail s' = s_tail s /\ s_err s' = s_err s /\
    s_hLen s' = s_hLen s + Z.of_nat (length (linesText kvs)) + 2 /\
    s_done s' = s_done s ++ linesText (map (normLine (s_disableNormalizing s)) kvs) ++ strCRLF.
Proof.
  intros Eb Hr Hp. revert fuel s h err Eb Hr. induction Hp as [|[k v] kvs Hkv Hp IH]; intros fuel s h err Eb Hr Hf;
    (destruct fuel as [|fuel]; [simpl in *; lia|]); cbn [RequestHeader_parseLoop].
  - destruct (headerScanner_next_end s rest Eb Hr) as (s' & -> & H1 & H2 & H3 & H4 & H5).
    cbn [mbind option_bind]. do 3 eexists. split; [reflexivity|]. split_and!; try done. rewrite H5. simpl. lia.
  - rewrite linesText_cons, <- app_assoc in Eb. pose proof Hkv as (H1 & H2 & _).
    destruct (headerScanner_next_line s k v _ Eb Hr H1 H2 (noFold_lines kvs rest Hp)) as (nnl & -> & Hn).
    cbn [mbind option_bind s_key s_value].
    destruct (RequestHeader_parseHeader h err (normalizeHeaderKey k (s_disableNormalizing s)) v) as [h2 err2] eqn:E.
    match goal with |- context [RequestHeader_parseLoop fuel ?x] =>
      destruct (IH fuel x h2 err2) as (s' & h' & err' & -> & H3 & H4 & H5 & H6 & H7 & H8) end.
    { done. } { by right. } { simpl in *; lia. }
    simpl in H3, H5, H6, H7, H8.
    do 3 eexists. split; [reflexivity|]. unfold parseLines. simpl. rewrite E. split_and!; try done.
    + rewrite H7, linesText_cons, length_app. lia.
    + rewrite H8. rewrite linesText_cons. unfold headerLine. simpl. by rewrite <- !app_assoc.
Qed.

(** ** One line at a time *)

(** Names parseHeaders has a case for. *)
Definition specialRequestKeys : list bytes :=
  [strHost; strUserAgent; strContentType; strContentLength; strConnection; strTransferEncoding].

Definition isSpecial (keys : list bytes) (k : bytes) : bool := existsb (caseInsensitiveCompare k) keys.

(** Names without a meaning of their own. *)
Definition genericKey (keys : list bytes) (d : bool) (k : bytes) : Prop :=
  k <> [] /\ (" "%byte ∉ k) /\ (tabChar ∉ k) /\ isSpecial keys k = false /\ normalizeHeaderKey k d = k.

Lemma parseHeader_generic h err k v d :
  genericKey specialRequestKeys d k ->
  RequestHeader_parseHeader h err k v = (set_rq_h (appendArg (rq_h h) k v argsHasValue) h, err).
Proof.
  intros (Hne & Hs & Ht & Hk & _). unfold RequestHeader_parseHeader. cbv zeta.
  rewrite decide_False by (by destruct k).
  rewrite (proj2 (IndexByte_None k " ") Hs), (proj2 (IndexByte_None k tabChar) Ht).
  rewrite decide_False by (intros [?|?]; done).
  unfold isSpecial, specialRequestKeys in Hk. cbn [existsb] in Hk.
  rewrite !orb_false_iff in Hk. destruct Hk as (K1 & K2 & K3 & K4 & K5 & K6 & _).
  rewrite K1, K2, K3, K4, K5, K6.
  destruct (firstIs "h" k), (firstIs "u" k), (firstIs "c" k), (firstIs "t" k); done.
Qed.

Lemma parseLines_app d l1 l2 st : parseLines d (l1 ++ l2) st = parseLines d l2 (parseLines d l1 st).
Proof. apply fold_left_app. Qed.

(** Generic lines are appended in order; nothing else changes. *)
Lemma parseLines_generic d kvs h :
  Forall (fun kv => genericKey specialRequestKeys d (fst kv)) kvs ->
  exists hs, parseLines d kvs (h, None) = (set_rq_h hs h, None) /\
    live hs = live (rq_h h) ++ map (fun kv => ArgsKV (fst kv) (snd kv) argsHasValue) kvs.
Proof.
  intros Hg. revert h. induction Hg as [|[k v] kvs Hk Hg IH]; intros h.
  - exists (rq_h h). split; [by destruct h|]. by rewrite app_nil_r.
  - unfold parseLines. cbn [fold_left fst snd]. pose proof Hk as (_ & _ & _ & _ & Hn). cbn [fst] in Hn. rewrite Hn.
    rewrite (parseHeader_generic h None k v d Hk).
    destruct (IH (set_rq_h (appendArg (rq_h h) k v argsHasValue) h)) as (hs & E & Hl).
    exists hs. split; [exact E|]. rewrite Hl. cbn [rq_h set_rq_h]. rewrite live_appendArg.
    by rewrite <- app_assoc.
Qed.

Lemma nextLine_crlf l rest : nChar ∉ l -> nextLine (l ++ strCRLF ++ rest) = Some (l, rest).
Proof.
  intros N. unfold nextLine.
  assert (l ++ strCRLF ++ rest = (l ++ [rChar]) ++ nChar :: rest) as -> by (by rewrite <- app_assoc).
  rewrite IndexByte_app by (rewrite not_elem_of_app, list_elem_of_singleton; naive_solver).
  rewrite length_app. cbn [length]. rewrite decide_True.
  - rewrite Nat.add_sub. rewrite <- app_assoc, take_app_exact. do 2 f_equal.
    rewrite app_assoc. replace (length l + 1 + 1)%nat with (S (length (l ++ [rChar]))) by (rewrite length_app; simpl; lia).
    apply drop_app_S.
  - split; [lia|]. rewrite Nat.add_sub, <- app_assoc. by apply list_lookup_middle.
Qed.

(** The requests that a head can carry. *)
Record wfRequest (d : bool) (g : RequestHeader) : Prop := {
  wq_method : (" "%byte ∉ RequestHeader_Method g) /\ (nChar ∉ RequestHeader_Method g);
  wq_uri : nChar ∉ RequestHeader_RequestURI g;
  wq_proto : (" "%byte ∉ RequestHeader_Protocol g) /\ (nChar ∉ RequestHeader_Protocol g);
  wq_fields : Forall lineText [rq_userAgent g; rq_host g; rq_contentType g; rq_contentLengthBytes g];
  wq_length : rq_contentLengthBytes g = [] \/
    (0 <= rq_contentLength g /\ parseContentLength (rq_contentLengthBytes g) = (rq_contentLength g, None));
  wq_headers : Forall (fun kv => plainLine kv /\ genericKey specialRequestKeys d (fst kv)) (visitArgs (live (rq_h g)));
  wq_cookies : lineText (appendRequestCookieBytes [] (live (rq_cookies g)))
}.

Lemma requestLine_text d g : wfRequest d g -> nChar ∉ requestLine g.
Proof.
  intros W. destruct (wq_method _ _ W) as [M1 M2], (wq_proto _ _ W) as [P1 P2]. pose proof (wq_uri _ _ W) as U.
  unfold requestLine. rewrite not_elem_of_app, not_elem_of_cons, not_elem_of_app, not_elem_of_cons. done.
Qed.

Lemma parseFirstLine_print h d g rest :
  wfRequest d g ->
  RequestHeader_parseFirstLine h (requestLine g ++ strCRLF ++ rest) =
  (set_rq_requestURI (RequestHeader_RequestURI g) (set_rq_proto (RequestHeader_Protocol g)
     (let h := set_rq_method (RequestHeader_Method g) h in
      if decide (RequestHeader_Protocol g = strHTTP11) then h else set_rq_noHTTP11 true h)),
   length (requestLine g ++ strCRLF), None).
Proof.
  intros W. destruct (wq_method _ _ W) as [M1 M2], (wq_proto _ _ W) as [P1 P2]. pose proof (wq_uri _ _ W) as U.
  assert (RequestHeader_Method g <> []) as Mne.
  { unfold RequestHeader_Method. case_decide as D; [done|]. intros E. by rewrite E in D. }
  assert (RequestHeader_RequestURI g <> []) as Une.
  { unfold RequestHeader_RequestURI. case_decide as D; [done|]. intros E. by rewrite E in D. }
  unfold RequestHeader_parseFirstLine. cbn [firstLineLoop]. rewrite nextLine_crlf by (by eapply requestLine_text).
  unfold requestLine. set (m := RequestHeader_Method g) in *. set (u := RequestHeader_RequestURI g) in *.
  set (p := RequestHeader_Protocol g) in *.
  rewrite decide_False by (rewrite length_app; simpl; lia).
  rewrite IndexByte_app by done. destruct (length m) as [|k] eqn:Ek; [by apply nil_length_inv in Ek|].
  rewrite <- Ek. cbv zeta. rewrite take_app_exact, Nat.add_1_r, drop_app_S.
  rewrite LastIndexByte_app by done. destruct (length u) as [|j] eqn:Ej; [by apply nil_length_inv in Ej|].
  rewrite <- Ej. rewrite Nat.add_1_r, drop_app_S, take_app_exact.
  assert (length ((m ++ " "%byte :: u ++ " "%byte :: p) ++ strCRLF ++ rest) - length rest =
          length ((m ++ " "%byte :: u ++ " "%byte :: p) ++ strCRLF))%nat as ->.
  { rewrite (app_assoc _ strCRLF), (length_app _ rest). lia. }
  destruct (decide (p <> strHTTP11)) as [D|D].
  - by destruct (decide (p = strHTTP11)).
  - destruct (decide (p = strHTTP11)) as [->|]; [done|]. by destruct D.
Qed.

Lemma optLine_plain k v : plainLine (k, v) -> Forall plainLine (optLine k v).
Proof. unfold optLine. intros H. destruct (Nat.ltb _ _); [by apply Forall_singleton|constructor]. Qed.

Ltac closed_dec := apply (bool_decide_unpack _); vm_compute; exact I.

Lemma plainLine_std k v :
  bool_decide (keyText k /\ head k <> Some " "%byte /\ head k <> Some tabChar) = true -> lineText v -> plainLine (k, v).
Proof. intros (H1 & H2 & H3)%bool_decide_eq_true_1 Hv. done. Qed.

Lemma printedContentType_line g : lineText (rq_contentType g) -> lineText (printedContentType g).
Proof. intros H. unfold printedContentType. case_decide; [closed_dec|done]. Qed.

Lemma requestLines_plain d g : wfRequest d g -> Forall plainLine (requestLines g).
Proof.
  intros W. pose proof (wq_fields _ _ W) as F. rewrite !Forall_cons in F. destruct F as (F1 & F2 & F3 & F4 & _).
  unfold requestLines, headLines. rewrite !Forall_app. split_and!.
  - apply optLine_plain, plainLine_std; [done|exact F1].
  - apply optLine_plain, plainLine_std; [done|exact F2].
  - apply optLine_plain, plainLine_std; [done|by apply printedContentType_line].
  - apply optLine_plain, plainLine_std; [done|exact F4].
  - eapply Forall_impl; [exact (wq_headers _ _ W)|]. by intros ? [? _].
  - unfold cookieLine. destruct (Nat.ltb _ _); constructor; [|constructor].
    apply plainLine_std; [done|exact (wq_cookies _ _ W)].
  - unfold closeLine. destruct (rq_connectionClose g); constructor; [|constructor].
    apply plainLine_std; [done|closed_dec].
Qed.

(** Names that are their own normal form. *)
Lemma requestLines_normal d g : wfRequest d g -> map (normLine d) (requestLines g) = requestLines g.
Proof.
  intros W. transitivity (map id (requestLines g)); [|apply map_id]. apply map_ext_Forall.
  assert (forall k v, normalizeHeaderKey k true = k -> normalizeHeaderKey k false = k -> normLine d (k, v) = id (k, v)) as N.
  { intros k v H1 H2. unfold normLine. cbn [fst snd]. destruct d; by rewrite ?H1, ?H2. }
  unfold requestLines, headLines, optLine, cookieLine, closeLine. rewrite !Forall_app. split_and!.
  1-4,6: (destruct (Nat.ltb _ _); constructor; [apply N; reflexivity|constructor]).
  - eapply Forall_impl; [exact (wq_headers _ _ W)|]. intros [k v] [_ (_ & _ & _ & _ & Hn)]. cbn [fst] in Hn.
    unfold normLine. cbn [fst snd]. by rewrite Hn.
  - destruct (rq_connectionClose g); constructor; [apply N; reflexivity|constructor].
Qed.

Lemma parseLines_opt d k v (f : RequestHeader -> RequestHeader) h :
  (v <> [] -> forall h, rq_contentLength h = -2 -> RequestHeader_parseHeader h None (normalizeHeaderKey k d) v = (f h, None)) ->
  rq_contentLength h = -2 ->
  parseLines d (optLine k v) (h, None) = (if decide (v = []) then h else f h, None).
Proof.
  intros Hf Hc. unfold optLine. destruct v as [|c v]; [done|].
  cbn [length Nat.ltb Nat.leb]. unfold parseLines. cbn [fold_left fst snd]. by rewrite Hf.
Qed.

(** What the lines with a field of their own leave in the header. *)
Definition readHead (g h : RequestHeader) : RequestHeader :=
  let h := if decide (rq_userAgent g = []) then h else set_rq_userAgent (rq_userAgent g) h in
  let h := if decide (rq_host g = []) then h else set_rq_host (rq_host g) h in
  let h := if decide (printedContentType g = []) then h else set_rq_contentType (printedContentType g) h in
  if decide (rq_contentLengthBytes g = []) then h
  else set_rq_contentLengthBytes (rq_contentLengthBytes g) (set_rq_contentLength (rq_contentLength g) h).

Lemma parseLines_head d g h :
  wfRequest d g -> rq_contentLength h = -2 -> parseLines d (headLines g) (h, None) = (readHead g h, None).
Proof.
  intros W Hc. unfold headLines, readHead. rewrite !parseLines_app. cbv zeta.
  rewrite (parseLines_opt d strUserAgent _ (set_rq_userAgent (rq_userAgent g))); [|by destruct d|done].
  set (h1 := if decide (rq_userAgent g = []) then _ else _).
  assert (rq_contentLength h1 = -2) as H1 by (subst h1; by case_decide). clearbody h1.
  rewrite (parseLines_opt d strHost _ (set_rq_host (rq_host g))); [|by destruct d|done].
  set (h2 := if decide (rq_host g = []) then _ else _).
  assert (rq_contentLength h2 = -2) as H2 by (subst h2; by case_decide). clearbody h2.
  rewrite (parseLines_opt d strContentType _ (set_rq_contentType (printedContentType g))); [|by destruct d|done].
  set (h3 := if decide (printedContentType g = []) then _ else _).
  assert (rq_contentLength h3 = -2) as H3 by (subst h3; by case_decide). clearbody h3.
  apply (parseLines_opt d strContentLength _ (fun h => set_rq_contentLengthBytes (rq_contentLengthBytes g)
           (set_rq_contentLength (rq_contentLength g) h))); [|done]. intros Hne x Hx.
  destruct (wq_length _ _ W) as [?|[Hp E]]; [done|].
  assert (normalizeHeaderKey strContentLength d = strContentLength) as -> by (by destruct d).
  unfold RequestHeader_parseHeader. cbv zeta.
  rewrite E, (decide_True (P := rq_contentLength x <> -1)) by lia. reflexivity.
Qed.

Lemma peekArgBytes_absent l k : Forall (fun kv => key kv <> k) l -> peekArgBytes l k = None.
Proof. induction 1 as [|kv l H F IH]; simpl; [done|]. by rewrite decide_False. Qed.

Lemma caseInsensitiveLoop_refl k : caseInsensitiveLoop k k = true.
Proof. induction k as [|c k IH]; simpl; [done|]. rewrite decide_False; [done|]. intros H. by apply H. Qed.

Lemma caseInsensitiveCompare_refl k : caseInsensitiveCompare k k = true.
Proof. unfold caseInsensitiveCompare. rewrite decide_False by (intros H; by apply H). apply caseInsensitiveLoop_refl. Qed.

Lemma isSpecial_elem keys k : k ∈ keys -> isSpecial keys k = true.
Proof.
  intros H. unfold isSpecial. apply existsb_exists. exists k.
  split; [by apply list_elem_of_In|apply caseInsensitiveCompare_refl].
Qed.

Lemma visitArgs_map (kvs : list (bytes * bytes)) :
  visitArgs (map (fun kv => ArgsKV (fst kv) (snd kv) argsHasValue) kvs) = kvs.
Proof. unfold visitArgs. rewrite map_map. transitivity (map id kvs); [|apply map_id]. apply map_ext. by intros []. Qed.

Lemma wq_generic d g :
  wfRequest d g -> Forall (fun kv => genericKey specialRequestKeys d (fst kv)) (visitArgs (live (rq_h g)) ++ cookieLine g).
Proof.
  intros W. apply Forall_app. split.
  - eapply Forall_impl; [exact (wq_headers _ _ W)|]. by intros ? [_ ?].
  - unfold cookieLine. destruct (Nat.ltb _ _); constructor; [|constructor]. cbn [fst].
    split_and!; [done|apply IndexByte_None; reflexivity|apply IndexByte_None; reflexivity|reflexivity|by destruct d].
Qed.

(** All the lines of a printed request, read into an empty header. *)
Lemma parseLines_request d g h :
  wfRequest d g -> rq_contentLength h = -2 -> live (rq_h h) = [] ->
  exists hs, live hs = map (fun kv => ArgsKV (fst kv) (snd kv) argsHasValue) (visitArgs (live (rq_h g)) ++ cookieLine g) /\
    parseLines d (requestLines g) (h, None) =
    (let h' := set_rq_h hs (readHead g h) in if rq_connectionClose g then set_rq_connectionClose true h' else h', None).
Proof.
  intros W Hc Hl. unfold requestLines. rewrite parseLines_app, (parseLines_head d g h W Hc).
  rewrite app_assoc, parseLines_app.
  destruct (parseLines_generic d _ (readHead g h) (wq_generic d g W)) as (hs & -> & Hs).
  assert (rq_h (readHead g h) = rq_h h) as E by (unfold readHead; cbv zeta; by repeat case_decide).
  rewrite E, Hl in Hs. exists hs. split; [exact Hs|].
  unfold closeLine. destruct (rq_connectionClose g); [|done]. unfold parseLines. cbn [fold_left fst snd].
  by destruct d.
Qed.

(** The header value a request leaves, once read. *)
Record sameRequest (g h : RequestHeader) : Prop := {
  sq_method : rq_method h = RequestHeader_Method g;
  sq_uri : rq_requestURI h = RequestHeader_RequestURI g;
  sq_proto : rq_proto h = RequestHeader_Protocol g;
  sq_http11 : rq_noHTTP11 h = negb (bool_decide (RequestHeader_Protocol g = strHTTP11));
  sq_host : rq_host h = rq_host g;
  sq_userAgent : rq_userAgent h = rq_userAgent g;
  sq_contentType : rq_contentType h = printedContentType g;
  sq_lengthBytes : rq_contentLengthBytes h = rq_contentLengthBytes g;
  sq_length : rq_contentLength h = (if decide (rq_contentLengthBytes g = []) then -2 else rq_contentLength g);
  sq_headers : visitArgs (live (rq_h h)) = visitArgs (live (rq_h g)) ++ cookieLine g;
  sq_close : rq_connectionClose h = rq_connectionClose g || rq_noHTTP11 h;
  sq_raw : rq_rawHeaders h = rawBlock (requestLines g)
}.

(** The state the parser starts from. *)
Definition freshHeader (h : RequestHeader) : Prop := RequestHeader_resetSkipNormalize h = h.

Lemma linesText_length kvs : (length kvs <= length (linesText kvs))%nat.
Proof.
  induction kvs as [|kv kvs IH]; [done|]. rewrite linesText_cons, length_app. unfold headerLine.
  rewrite !length_app. simpl. lia.
Qed.

Lemma parseHeaders_print g h rest :
  wfRequest (rq_disableNormalizing h) g -> live (rq_h h) = [] -> rq_contentLengthBytes h = [] ->
  rq_connectionClose h = false ->
  exists hs, visitArgs (live hs) = visitArgs (live (rq_h g)) ++ cookieLine g /\
    RequestHeader_parseHeaders h (linesText (requestLines g) ++ strCRLF ++ rest) =
    Some (set_rq_connectionClose (rq_connectionClose g || rq_noHTTP11 h)
            (set_rq_h hs (readHead g (set_rq_contentLength (-2) h))),
          Z.of_nat (length (linesText (requestLines g))) + 2, None,
          linesText (requestLines g) ++ strCRLF ++ rest).
Proof.
  intros W Hl Hb Hcl. unfold RequestHeader_parseHeaders. cbv zeta.
  set (h2 := set_rq_contentLength (-2) h). set (d := rq_disableNormalizing h2).
  pose proof (requestLines_plain d g W) as Hp.
  destruct (parseLoop_lines (S (length (linesText (requestLines g) ++ strCRLF ++ rest)))
              (newHeaderScanner (linesText (requestLines g) ++ strCRLF ++ rest) d) h2 None (requestLines g) rest)
    as (s' & h' & err' & -> & E & H1 & H2 & H3 & H4 & H5); [done|by left|done| |].
  { rewrite length_app. pose proof (linesText_length (requestLines g)). lia. }
  destruct (parseLines_request d g h2 W eq_refl Hl) as (hs & Hhs & Ep).
  cbn [s_disableNormalizing newHeaderScanner s_err s_done s_hLen s_tail] in *.
  rewrite Ep in E. apply pair_equal_spec in E as [-> ->]. cbn [mbind option_bind]. rewrite H3. cbv zeta.
  assert (visitArgs (live hs) = visitArgs (live (rq_h g)) ++ cookieLine g) as Hv by (by rewrite Hhs, visitArgs_map).
  assert (peekArgBytes (live hs) strConnection = None) as Hpeek.
  { apply peekArgBytes_absent. rewrite Hhs, Forall_map. eapply Forall_impl; [exact (wq_generic _ g W)|].
    intros [k v] (_ & _ & _ & Hs & _) E. cbn [key fst] in *. subst k.
    rewrite isSpecial_elem in Hs; [done|]. apply list_elem_of_In. simpl. tauto. }
  exists hs. split; [done|].
  assert (s_buffer s' = linesText (requestLines g) ++ strCRLF ++ rest) as ->.
  { unfold s_buffer. rewrite H5, H1, H2, (requestLines_normal d g W). simpl. by rewrite app_nil_r, <- app_assoc. }
  rewrite H4. rewrite Z.add_0_l. do 4 f_equal.
  set (r := readHead g h2).
  assert (rq_noHTTP11 r = rq_noHTTP11 h /\ rq_connectionClose r = false) as [R1 R2].
  { subst r. unfold readHead. cbv zeta. repeat case_decide; done. }
  assert ((rq_contentLength r <? 0) = true -> rq_contentLengthBytes r = []) as R3.
  { subst r. unfold readHead. cbv zeta. intros Hneg%Z.ltb_lt. revert Hneg.
    destruct (wq_length _ _ W) as [->|[? _]]; repeat case_decide; simpl; try done; lia. }
  clearbody r. clear -R1 R2 R3 Hpeek. destruct r as [? nh cc ? cl clb ? ? ? ? ? ? ? ? ? ? ?]. simpl in *. subst nh cc.
  destruct (rq_connectionClose g) eqn:Ec; simpl;
    destruct (cl <? 0); simpl; rewrite ?(R3 eq_refl); destruct (rq_noHTTP11 h); simpl; rewrite ?Hpeek; done.
Qed.

(** The header after the first line and the raw block. *)
Definition readFirst (g : RequestHeader) (raw : bytes) (h : RequestHeader) : RequestHeader :=
  set_rq_rawHeaders raw
    (set_rq_requestURI (RequestHeader_RequestURI g) (set_rq_proto (RequestHeader_Protocol g)
       (let h := set_rq_method (RequestHeader_Method g) h in
        if decide (RequestHeader_Protocol g = strHTTP11) then h else set_rq_noHTTP11 true h))).

Lemma readFirst_noHTTP11 g raw h :
  rq_noHTTP11 h = false ->
  rq_noHTTP11 (readFirst g raw h) = negb (bool_decide (RequestHeader_Protocol g = strHTTP11)).
Proof.
  intros H. unfold readFirst. cbv zeta. destruct (decide (RequestHeader_Protocol g = strHTTP11)) as [D|D].
  - rewrite bool_decide_eq_true_2 by done. exact H.
  - by rewrite bool_decide_eq_false_2.
Qed.

(** A predicate on headers that the first line does not touch. *)
Lemma readFirst_other {A} (f : RequestHeader -> A) g raw h :
  (forall v h, f (set_rq_rawHeaders v h) = f h) -> (forall v h, f (set_rq_requestURI v h) = f h) ->
  (forall v h, f (set_rq_proto v h) = f h) -> (forall v h, f (set_rq_method v h) = f h) ->
  (forall v h, f (set_rq_noHTTP11 v h) = f h) -> f (readFirst g raw h) = f h.
Proof.
  intros H1 H2 H3 H4 H5. unfold readFirst. cbv zeta. rewrite H1, H2, H3. case_decide; by rewrite ?H5, H4.
Qed.

Lemma sameRequest_intro g h hs raw close :
  rq_noHTTP11 h = false -> rq_host h = [] -> rq_userAgent h = [] -> rq_contentType h = [] ->
  rq_contentLengthBytes h = [] -> raw = rawBlock (requestLines g) ->
  visitArgs (live hs) = visitArgs (live (rq_h g)) ++ cookieLine g ->
  close = rq_connectionClose g || rq_noHTTP11 (readFirst g raw h) ->
  sameRequest g (set_rq_connectionClose close (set_rq_h hs (readHead g (set_rq_contentLength (-2) (readFirst g raw h))))).
Proof.
  intros H1 H2 H3 H4 H5 -> H6 ->. rewrite (readFirst_noHTTP11 _ _ _ H1).
  unfold readHead, readFirst. cbv zeta.
  destruct (decide (RequestHeader_Protocol g = strHTTP11)) as [D|D];
    [rewrite bool_decide_eq_true_2 by done|rewrite bool_decide_eq_false_2 by done];
    destruct h; simpl in *; subst; split; repeat case_decide; simpl; rewrite ?bool_decide_eq_true_2 by done;
    rewrite ?bool_decide_eq_false_2 by done; try done; congruence.
Qed.

(** ** Set, Add and Peek *)

(** The keys peek, del and setSpecialHeader treat apart. *)
Definition ownRequestKeys : list bytes :=
  [strHost; strContentType; strUserAgent; strConnection; strContentLength; strCookie; strTransferEncoding].

Lemma isSpecial_false keys k x : isSpecial keys k = false -> x ∈ keys -> k <> x.
Proof. intros Hs Hx ->. by rewrite isSpecial_elem in Hs. Qed.

Lemma isSpecial_compare keys k x : isSpecial keys k = false -> x ∈ keys -> caseInsensitiveCompare x k = false.
Proof.
  intros Hs Hx. destruct (caseInsensitiveCompare x k) eqn:E; [|done]. exfalso.
  assert (isSpecial keys k = true); [|congruence]. apply existsb_exists. exists x. split; [by apply list_elem_of_In|].
  revert E. unfold caseInsensitiveCompare. repeat case_decide; try congruence. intros E.
  clear -E. revert k E. induction x as [|c x IH]; intros [|d k]; simpl; try done.
  repeat case_decide; try congruence. apply IH.
Qed.

Lemma setSpecialHeader_generic h k v :
  isSpecial ownRequestKeys k = false -> RequestHeader_setSpecialHeader h k v = Some (h, false).
Proof.
  intros Hs. unfold RequestHeader_setSpecialHeader. case_decide; [done|].
  rewrite !(isSpecial_compare ownRequestKeys k) by (done || (apply list_elem_of_In; simpl; tauto)).
  by destruct (firstIs "c" k), (firstIs "t" k), (firstIs "h" k), (firstIs "u" k).
Qed.

Lemma peek_generic h k :
  isSpecial ownRequestKeys k = false -> RequestHeader_peek h k = peekArgBytes (live (rq_h h)) k.
Proof.
  intros Hs. unfold RequestHeader_peek.
  repeat (rewrite decide_False by (apply (isSpecial_false ownRequestKeys k); [done|apply list_elem_of_In; simpl; tauto])).
  done.
Qed.

Lemma peekArgBytes_Str l k : peekArgBytes l k = peekArgStr l k.
Proof. induction l as [|kv l IH]; simpl; [done|]. by rewrite IH. Qed.

Lemma peek_setArg h k k' v :
  peekArgStr (live (setArg h k v argsHasValue)) k' = if decide (k' = k) then Some v else peekArgStr (live h) k'.
Proof.
  rewrite live_setArg. destruct (setArgLoop (live h) k v argsHasValue) as [l|] eqn:E.
  - by apply (setArgLoop_peek _ _ _ _ _ k' E).
  - apply setArgLoop_None in E. rewrite peekArgStr_app. simpl.
    repeat case_decide; subst; rewrite ?E; try done. by destruct (peekArgStr (live h) k').
Qed.

(** ** collectCookies *)

Definition isCookieKV (kv : argsKV) : bool := caseInsensitiveCompare (key kv) strCookie.

Lemma collectLoop_spec pre rest sp cookies :
  exists hs cs, collectLoop pre rest sp cookies = Some (hs, cs) /\
    live hs = pre ++ filter (fun kv => isCookieKV kv = false) rest /\
    visitArgs (live cs) = visitArgs (live cookies) ++
      concat (map (fun kv => parsedCookies (value kv)) (filter (fun kv => isCookieKV kv = true) rest)).
Proof.
  revert pre sp cookies. induction rest as [|kv rest IH]; intros pre sp cookies; cbn [collectLoop].
  - do 2 eexists. split; [done|]. simpl. by rewrite !app_nil_r.
  - rewrite !filter_cons. change (caseInsensitiveCompare (key kv) strCookie) with (isCookieKV kv).
    destruct (isCookieKV kv) eqn:E.
    + destruct (parseRequestCookies_spec cookies (value kv)) as (l & sp' & -> & El). cbn [mbind option_bind].
      destruct (IH pre (kv :: sp) (Kvs (live cookies ++ l) sp')) as (hs & cs & -> & H1 & H2).
      do 2 eexists. split; [done|]. split; [done|].
      rewrite H2. simpl. rewrite visitArgs_app, El. by rewrite <- app_assoc.
    + destruct (IH (pre ++ [kv]) sp cookies) as (hs & cs & -> & H1 & H2).
      do 2 eexists. split; [done|].
      rewrite H1, H2. simpl. by rewrite <- app_assoc.
Qed.

(** ** Transfer-Encoding against Content-Length *)

(** A line that announces a chunked body. *)
Definition isChunkedLine (d : bool) (kv : bytes * bytes) : Prop :=
  caseInsensitiveCompare (normalizeHeaderKey (fst kv) d) strTransferEncoding = true /\ snd kv <> strIdentity.

Lemma compare_firstIs k x c : caseInsensitiveCompare k (c :: x) = true -> firstIs (or20 c) k = true.
Proof.
  unfold caseInsensitiveCompare. destruct k as [|d k]; [done|]. repeat case_decide; try done. simpl.
  case_decide as E; [done|]. intros _. apply bool_decide_eq_true_2.
  destruct (decide (or20 d = or20 c)); [done|]. by destruct E.
Qed.

Lemma parseHeader_keeps_chunked h err k v :
  rq_contentLength h = -1 -> rq_contentLength (fst (RequestHeader_parseHeader h err k v)) = -1.
Proof.
  intros H. unfold RequestHeader_parseHeader. cbv zeta. rewrite (decide_False (P := rq_contentLength h <> -1)) by lia.
  repeat case_decide; simpl; try done; repeat case_match; done.
Qed.

Lemma parseHeader_chunked h err k v :
  caseInsensitiveCompare k strTransferEncoding = true -> v <> strIdentity ->
  snd (RequestHeader_parseHeader h err k v) = None ->
  rq_contentLength (fst (RequestHeader_parseHeader h err k v)) = -1.
Proof.
  intros Hc Hv. pose proof (compare_firstIs _ _ _ Hc) as Hf. change (or20 "T"%byte) with "t"%byte in Hf.
  destruct k as [|c k]; [done|]. unfold firstIs in Hf. apply bool_decide_eq_true_1 in Hf.
  unfold RequestHeader_parseHeader. cbv zeta. rewrite (decide_False (P := length (c :: k) = O)) by done.
  case_decide as D; [done|]. unfold firstIs. rewrite !Hf, Hc. cbn [bool_decide].
  rewrite (decide_True (P := v <> strIdentity)) by done. done.
Qed.

Lemma parseLines_err d kvs h e : snd (parseLines d kvs (h, Some e)) <> None.
Proof.
  revert h e. induction kvs as [|kv kvs IH]; intros h e; [done|]. unfold parseLines. cbn [fold_left fst snd].
  pose proof (parseHeader_err_keeps h e (normalizeHeaderKey (fst kv) d) (snd kv)) as H.
  destruct (RequestHeader_parseHeader h (Some e) _ _) as [h2 [e2|]]; [|done]. apply IH.
Qed.

Lemma parseLines_keeps_chunked d kvs h err :
  rq_contentLength h = -1 -> rq_contentLength (fst (parseLines d kvs (h, err))) = -1.
Proof.
  revert h err. induction kvs as [|kv kvs IH]; intros h err H; [done|]. unfold parseLines. cbn [fold_left fst snd].
  pose proof (parseHeader_keeps_chunked h err (normalizeHeaderKey (fst kv) d) (snd kv) H) as H2.
  destruct (RequestHeader_parseHeader h err _ _) as [h2 err2]. by apply IH.
Qed.

Lemma parseLines_chunked d kvs h err :
  Exists (isChunkedLine d) kvs -> snd (parseLines d kvs (h, err)) = None ->
  rq_contentLength (fst (parseLines d kvs (h, err))) = -1.
Proof.
  intros He. revert h err. induction He as [kv kvs [Hc Hv]|kv kvs He IH]; intros h err;
    unfold parseLines; cbn [fold_left fst snd].
  - pose proof (parseHeader_chunked h err _ _ Hc Hv) as H.
    destruct (RequestHeader_parseHeader h err _ _) as [h2 [e|]].
    + intros Hn. by apply parseLines_err in Hn.
    + intros _. apply parseLines_keeps_chunked. by apply H.
  - destruct (RequestHeader_parseHeader h err _ _) as [h2 err2]. apply IH.
Qed.

(** ** Whole heads *)

(** No request head can crash the server: on every buffer parse returns,
    keeps the buffer's length, and the byte count it returns lies inside the
    buffer, so that mustDiscard cannot panic either. *)
Lemma RequestHeader_parse_total (h : RequestHeader) (buf : bytes) :
  exists h' n err buf', RequestHeader_parse h buf = Some (h', n, err, buf') /\
    length buf' = length buf /\ 0 <= n <= zlen buf.
Proof.
  unfold RequestHeader_parse. pose proof (parseFirstLine_bound h buf) as Hm.
  destruct (RequestHeader_parseFirstLine h buf) as [[h1 m] [e|]]; simpl in Hm.
  { do 4 eexists. split; [reflexivity|]. split; [done|lia]. }
  destruct (readRawHeaders [] (drop m buf)) as [[raw k] [e|]].
  { do 4 eexists. split; [reflexivity|]. split; [done|lia]. }
  destruct (parseHeaders_total (set_rq_rawHeaders raw h1) (drop m buf)) as (h' & n & err & buf' & -> & Hl & Hn).
  rewrite length_drop in Hl, Hn. cbn [mbind option_bind].
  destruct err; do 4 eexists; (split; [reflexivity|]); rewrite length_app, length_take; split; lia.
Qed.

Lemma RequestHeader_parse_pos h buf h' n buf' : RequestHeader_parse h buf = Some (h', n, None, buf') -> 0 < n.
Proof.
  unfold RequestHeader_parse. destruct (RequestHeader_parseFirstLine h buf) as [[h1 m] [e|]] eqn:E; [done|].
  apply parseFirstLine_pos in E. destruct (readRawHeaders [] (drop m buf)) as [[raw k] [e|]]; [done|].
  destruct (parseHeaders_total (set_rq_rawHeaders raw h1) (drop m buf)) as (h2 & n2 & err & b2 & -> & _ & Hn).
  cbn [mbind option_bind]. destruct err; [done|]. intros [= _ <- _]. lia.
Qed.

(** A printed request head is read back: parse consumes exactly the bytes
    AppendBytes wrote, leaves the following bytes alone, and every field, every
    header in order and the raw block come out as they went in. *)
Lemma RequestHeader_parse_print (g h0 : RequestHeader) (rest : bytes)
    (W : wfRequest (rq_disableNormalizing h0) g) :
  exists h', RequestHeader_parse (RequestHeader_resetSkipNormalize h0) (RequestHeader_AppendBytes g [] ++ rest) =
      Some (h', zlen (RequestHeader_AppendBytes g []), None, RequestHeader_AppendBytes g [] ++ rest) /\
    sameRequest g h'.
Proof.
  change (rq_disableNormalizing h0) with (rq_disableNormalizing (RequestHeader_resetSkipNormalize h0)) in W.
  assert (live (rq_h (RequestHeader_resetSkipNormalize h0)) = []) as F by done.
  remember (RequestHeader_resetSkipNormalize h0) as h eqn:Eh.
  assert (rq_noHTTP11 h = false /\ rq_connectionClose h = false /\ rq_host h = [] /\ rq_userAgent h = [] /\
          rq_contentType h = [] /\ rq_contentLengthBytes h = []) as (F1 & F2 & F3 & F4 & F5 & F6) by (by subst).
  clear Eh. rewrite RequestHeader_AppendBytes_lines. cbn [app]. set (hd := requestLine g ++ strCRLF).
  set (bl := linesText (requestLines g) ++ strCRLF).
  assert ((requestLine g ++ strCRLF ++ bl) ++ rest = hd ++ bl ++ rest) as Er by (subst hd; by rewrite <- !app_assoc).
  assert (requestLine g ++ strCRLF ++ bl = hd ++ bl) as Er' by (subst hd; by rewrite <- !app_assoc).
  rewrite Er, Er'. unfold RequestHeader_parse.
  assert (hd ++ bl ++ rest = requestLine g ++ strCRLF ++ bl ++ rest) as Ef by (subst hd; by rewrite <- !app_assoc).
  pose proof (parseFirstLine_print h _ g (bl ++ rest) W) as E1. rewrite <- Ef in E1. rewrite E1. clear E1.
  cbv zeta. fold hd. rewrite drop_app_exact.
  subst bl. rewrite <- app_assoc. rewrite (readRawHeaders_lines _ _ (requestLines_plain _ g W)).
  change (set_rq_rawHeaders ?r (set_rq_requestURI _ _)) with (readFirst g r h).
  destruct (parseHeaders_print g (readFirst g (rawBlock (requestLines g)) h) rest) as (hs & Hv & ->);
    [by rewrite (readFirst_other rq_disableNormalizing)|by rewrite (readFirst_other rq_h)|
     by rewrite (readFirst_other rq_contentLengthBytes)|by rewrite (readFirst_other rq_connectionClose)|].
  cbn [mbind option_bind]. rewrite take_app_exact. eexists. split.
  - assert (Z.of_nat (length hd) + (Z.of_nat (length (linesText (requestLines g))) + 2) =
            zlen (hd ++ linesText (requestLines g) ++ strCRLF)) as -> by (rewrite !length_app; simpl; lia).
    reflexivity.
  - by apply sameRequest_intro.
Qed.

(** A strict prefix of a printed head makes the parser ask for more, before it
    has written anything to the buffer. *)
Lemma RequestHeader_parse_prefix g h p s :
  wfRequest (rq_disableNormalizing h) g -> RequestHeader_AppendBytes g [] = p ++ s -> s <> [] ->
  exists h', RequestHeader_parse h p = Some (h', 0, Some errNeedMore, p) /\
    rq_disableNormalizing h' = rq_disableNormalizing h.
Proof.
  intros W E Hs. rewrite RequestHeader_AppendBytes_lines in E. cbn [app] in E.
  assert ((requestLine g ++ [rChar]) ++ [nChar] = requestLine g ++ strCRLF) as Eh by (by rewrite <- app_assoc).
  rewrite (app_assoc (requestLine g) strCRLF), <- Eh in E.
  destruct (line_prefix (requestLine g ++ [rChar]) (linesText (requestLines g) ++ strCRLF) p s) as [N|(q & -> & E')]; [|exact E| |].
  - pose proof (requestLine_text _ g W). rewrite not_elem_of_app. split; [done|]. apply IndexByte_None; reflexivity.
  - unfold RequestHeader_parse, RequestHeader_parseFirstLine. cbn [firstLineLoop]. unfold nextLine.
    apply IndexByte_None in N. rewrite N. eauto.
  - rewrite Eh, <- app_assoc. unfold RequestHeader_parse. rewrite (parseFirstLine_print h _ g q W). cbv zeta.
    rewrite app_assoc, drop_app_exact.
    destruct (readRawHeaders_prefix _ _ _ (requestLines_plain _ g W) E' Hs) as (dst & ->).
    eexists. split; [reflexivity|]. cbn. by case_decide.
Qed.

Definition sampleRequest : RequestHeader :=
  MkRequestHeader false false true false 5 (bs "5") false strPost (bs "/a?b=c") strHTTP11 (bs "foo.com")
    (bs "text/html") (bs "agent") (Kvs [ArgsKV (bs "X-Id") (bs "1, 2") false] []) zeroKV
    (Kvs [ArgsKV (bs "sid") (bs "42") false] []) [].

Lemma sampleRequest_wf : wfRequest false sampleRequest.
Proof.
  split.
  - split; apply IndexByte_None; vm_compute; reflexivity.
  - apply IndexByte_None. vm_compute. reflexivity.
  - split; apply IndexByte_None; vm_compute; reflexivity.
  - closed_dec.
  - right. split; vm_compute; congruence.
  - apply Forall_singleton. split; [closed_dec|]. split_and!; try (vm_compute; congruence);
      apply IndexByte_None; vm_compute; reflexivity.
  - closed_dec.
Qed.

(** * Properties *)

(** Set then Peek: for a name without a field of its own, the value read
    back under any spelling of the name is the value set, line breaks replaced
    by blanks; every other name, special or not, reads as before. *)
Lemma RequestHeader_Set_Peek (h : RequestHeader) (k v k' : bytes)
    (H : isSpecial ownRequestKeys (normalizeHeaderKey k (rq_disableNormalizing h)) = false) :
  exists h', RequestHeader_Set h k v = Some h' /\
    snd (RequestHeader_Peek h' k') =
    if decide (normalizeHeaderKey k' (rq_disableNormalizing h) = normalizeHeaderKey k (rq_disableNormalizing h))
    then Some (removeNewLines v) else snd (RequestHeader_Peek h k').
Proof.
  unfold RequestHeader_Set, RequestHeader_SetCanonical. cbv zeta. cbn [rq_bufKV set_rq_bufKV initHeaderKV getHeaderKeyBytes key value].
  rewrite setSpecialHeader_generic by done. cbn [mbind option_bind]. eexists. split; [reflexivity|].
  unfold RequestHeader_Peek. cbv zeta. cbn [snd rq_bufKV set_rq_bufKV set_rq_h getHeaderKeyBytes key rq_disableNormalizing].
  set (nk := normalizeHeaderKey k _) in *. set (nk' := normalizeHeaderKey k' _).
  destruct (decide (nk' = nk)) as [->|D].
  - rewrite peek_generic by done. cbn [rq_h set_rq_bufKV set_rq_h]. unfold setArgBytes.
    by rewrite peekArgBytes_Str, peek_setArg, decide_True.
  - unfold RequestHeader_peek. cbn [rq_h set_rq_bufKV set_rq_h rq_cookiesCollected rq_cookies]. unfold setArgBytes.
    rewrite !peekArgBytes_Str, !peek_setArg, !(decide_False (P := nk' = nk)) by done. done.
Qed.

Lemma RequestHeader_Set_Peek_witness :
  isSpecial ownRequestKeys (normalizeHeaderKey (bs "x-id") false) = false /\
  exists h', RequestHeader_Set emptyRequestHeader (bs "x-id") (bs "7") = Some h' /\
    snd (RequestHeader_Peek h' (bs "X-ID")) =
    if decide (normalizeHeaderKey (bs "X-ID") false = normalizeHeaderKey (bs "x-id") false)
    then Some (removeNewLines (bs "7")) else snd (RequestHeader_Peek emptyRequestHeader (bs "X-ID")).
Proof.
  split; [reflexivity|]. apply (RequestHeader_Set_Peek emptyRequestHeader (bs "x-id") (bs "7") (bs "X-ID")). reflexivity.
Defined.

(** Collecting the cookies never panics, moves exactly the Cookie headers
    out of the header list, and yields all their pairs in order of arrival. *)
Lemma RequestHeader_collectCookies_correct (h : RequestHeader) (H : rq_cookiesCollected h = false) :
  exists h', RequestHeader_collectCookies h = Some h' /\ rq_cookiesCollected h' = true /\
    live (rq_h h') = filter (fun kv => isCookieKV kv = false) (live (rq_h h)) /\
    visitArgs (live (rq_cookies h')) = visitArgs (live (rq_cookies h)) ++
      concat (map (fun kv => parsedCookies (value kv)) (filter (fun kv => isCookieKV kv = true) (live (rq_h h)))).
Proof.
  unfold RequestHeader_collectCookies. rewrite H.
  destruct (collectLoop_spec [] (live (rq_h h)) (spare (rq_h h)) (rq_cookies h)) as (hs & cs & -> & H1 & H2).
  cbn [mbind option_bind]. eexists. split; [reflexivity|]. split_and!; done.
Qed.

Lemma RequestHeader_collectCookies_correct_witness :
  let h := set_rq_h (Kvs [ArgsKV strCookie (bs "a=1; b=2") false; ArgsKV (bs "X") (bs "y") false] []) emptyRequestHeader in
  rq_cookiesCollected h = false /\
  exists h', RequestHeader_collectCookies h = Some h' /\ rq_cookiesCollected h' = true /\
    live (rq_h h') = filter (fun kv => isCookieKV kv = false) (live (rq_h h)) /\
    visitArgs (live (rq_cookies h')) = visitArgs (live (rq_cookies h)) ++
      concat (map (fun kv => parsedCookies (value kv)) (filter (fun kv => isCookieKV kv = true) (live (rq_h h)))).
Proof. split; [reflexivity|]. apply RequestHeader_collectCookies_correct. reflexivity. Defined.

(** Transfer-Encoding wins over Content-Length wherever they stand: when an
    accepted head has a Transfer-Encoding line other than identity, the body
    is chunked and no Content-Length is kept, whatever the other lines say. *)
Lemma RequestHeader_chunked_wins (h : RequestHeader) (kvs : list (bytes * bytes)) (rest : bytes) h' n buf'
    (Hp : Forall plainLine kvs) (He : Exists (isChunkedLine (rq_disableNormalizing h)) kvs)
    (H : RequestHeader_parseHeaders h (linesText kvs ++ strCRLF ++ rest) = Some (h', n, None, buf')) :
  RequestHeader_ContentLength h' = -1 /\ rq_contentLengthBytes h' = [].
Proof.
  unfold RequestHeader_parseHeaders in H. cbv zeta in H.
  destruct (parseLoop_lines (S (length (linesText kvs ++ strCRLF ++ rest)))
              (newHeaderScanner (linesText kvs ++ strCRLF ++ rest) (rq_disableNormalizing (set_rq_contentLength (-2) h)))
              (set_rq_contentLength (-2) h) None kvs rest)
    as (s' & h2 & err & E & Ep & _ & _ & Hs & _); [done|by left|done| |].
  { rewrite length_app. pose proof (linesText_length kvs). lia. }
  rewrite E in H. cbn [mbind option_bind] in H. simpl in Hs. rewrite Hs in H.
  destruct err as [e|]; [done|].
  assert (rq_contentLength h2 = -1) as Hc.
  { change h2 with (fst (h2, @None error)). rewrite Ep. apply parseLines_chunked; [exact He|]. by rewrite <- Ep. }
  rewrite Hc in H. simplify_eq. unfold RequestHeader_ContentLength, RequestHeader_realContentLength. simpl.
  by destruct (rq_noHTTP11 h2 && negb (rq_connectionClose h2)).
Qed.

Lemma RequestHeader_chunked_wins_witness :
  let h := set_rq_disableNormalizing false emptyRequestHeader in
  let kvs := [(strTransferEncoding, strChunked); (strContentLength, bs "5")] in
  exists h' n buf', (Forall plainLine kvs /\ Exists (isChunkedLine false) kvs /\
    RequestHeader_parseHeaders h (linesText kvs ++ strCRLF ++ []) = Some (h', n, None, buf')) /\
    (RequestHeader_ContentLength h' = -1 /\ rq_contentLengthBytes h' = []).
Proof.
  assert (Forall plainLine [(strTransferEncoding, strChunked); (strContentLength, bs "5")]) as P by closed_dec.
  assert (Exists (isChunkedLine false) [(strTransferEncoding, strChunked); (strContentLength, bs "5")]) as X.
  { left. split; vm_compute; congruence. }
  do 3 eexists. split; [split_and!; [exact P|exact X|vm_compute; reflexivity]|].
  eapply (RequestHeader_chunked_wins emptyRequestHeader _ [] _ _ _ P X). vm_compute. reflexivity.
Defined.

(** Set sanitises the value (RFC 7230, 3.2.4) but Add does not: a value
    with a line break given to Add is printed as a header of its own. *)
Lemma RequestHeader_Add_injects :
  let v := bs "a" ++ strCRLF ++ bs "Evil: 1" in
  exists h1 h2 h3 n buf, RequestHeader_Set emptyRequestHeader (bs "X") v = Some h1 /\
    (nChar ∉ default [] (snd (RequestHeader_Peek h1 (bs "X")))) /\
    RequestHeader_Add emptyRequestHeader (bs "X") v = Some h2 /\
    RequestHeader_parse emptyRequestHeader (RequestHeader_AppendBytes h2 []) = Some (h3, n, None, buf) /\
    snd (RequestHeader_Peek h3 (bs "Evil")) = Some (bs "1").
Proof.
  do 5 eexists. split_and!; [vm_compute; reflexivity|..|vm_compute; reflexivity|vm_compute; reflexivity|vm_compute; reflexivity].
  apply IndexByte_None. vm_compute. reflexivity.
Qed.

(** A folded header value shifts the unread input: after a head with one
    two-line value, parse has taken as many bytes as it should, but the buffer
    behind the body ends with a copy of its last two bytes, which the server
    reads as the start of the next request. *)
Lemma RequestHeader_fold_leaves_stale_bytes :
  let head := bs "POST / HTTP/1.1" ++ strCRLF ++ bs "Content-Length: 4" ++ strCRLF ++
              bs "X: b" ++ strCRLF ++ bs " c" ++ strCRLF ++ strCRLF in
  exists h n buf, RequestHeader_parse emptyRequestHeader (head ++ bs "BODY") = Some (h, n, None, buf) /\
    snd (RequestHeader_Peek h (bs "X")) = Some (bs "b c") /\
    drop (Z.to_nat n) buf = bs "BODYDY".
Proof. do 3 eexists. split_and!; vm_compute; reflexivity. Qed.
