(* ===== verification/ResponseHeader.v ===== *)
(** * header.go: ResponseHeader

    The record, its accessors, the header multimap with its special keys,
    parsing of a response head and printing.  The Date line is taken from the
    process-wide [serverDate], an argument of the printer. *)
From Stdlib Require Import Strings.String.
From S2P Require Import Prelude BytesConv Consts Args Uri Cookie HeaderScan RequestHeader.

Record ResponseHeader := MkResponseHeader {
  rs_disableNormalizing : bool;
  rs_noHTTP11 : bool;
  rs_connectionClose : bool;
  rs_noDefaultContentType : bool;
  rs_noDefaultDate : bool;
  rs_statusCode : Z;
  rs_contentLength : Z;
  rs_contentLengthBytes : bytes;
  rs_secureErrorLogMessage : bool;
  rs_contentType : bytes;
  rs_server : bytes;
  rs_h : kvs;
  rs_bufKV : argsKV;
  rs_cookies : kvs
}.

Definition set_rs_disableNormalizing (v : bool) (h : ResponseHeader) : ResponseHeader :=
  MkResponseHeader v (rs_noHTTP11 h) (rs_connectionClose h) (rs_noDefaultContentType h) (rs_noDefaultDate h) (rs_statusCode h) (rs_contentLength h) (rs_contentLengthBytes h) (rs_secureErrorLogMessage h) (rs_contentType h) (rs_server h) (rs_h h) (rs_bufKV h) (rs_cookies h).
Definition set_rs_noHTTP11 (v : bool) (h : ResponseHeader) : ResponseHeader :=
  MkResponseHeader (rs_disableNormalizing h) v (rs_connectionClose h) (rs_noDefaultContentType h) (rs_noDefaultDate h) (rs_statusCode h) (rs_contentLength h) (rs_contentLengthBytes h) (rs_secureErrorLogMessage h) (rs_contentType h) (rs_server h) (rs_h h) (rs_bufKV h) (rs_cookies h).
Definition set_rs_connectionClose (v : bool) (h : ResponseHeader) : ResponseHeader :=
  MkResponseHeader (rs_disableNormalizing h) (rs_noHTTP11 h) v (rs_noDefaultContentType h) (rs_noDefaultDate h) (rs_statusCode h) (rs_contentLength h) (rs_contentLengthBytes h) (rs_secureErrorLogMessage h) (rs_contentType h) (rs_server h) (rs_h h) (rs_bufKV h) (rs_cookies h).
Definition set_rs_noDefaultContentType (v : bool) (h : ResponseHeader) : ResponseHeader :=
  MkResponseHeader (rs_disableNormalizing h) (rs_noHTTP11 h) (rs_connectionClose h) v (rs_noDefaultDate h) (rs_statusCode h) (rs_contentLength h) (rs_contentLengthBytes h) (rs_secureErrorLogMessage h) (rs_contentType h) (rs_server h) (rs_h h) (rs_bufKV h) (rs_cookies h).
Definition set_rs_noDefaultDate (v : bool) (h : ResponseHeader) : ResponseHeader :=
  MkResponseHeader (rs_disableNormalizing h) (rs_noHTTP11 h) (rs_connectionClose h) (rs_noDefaultContentType h) v (rs_statusCode h) (rs_contentLength h) (rs_contentLengthBytes h) (rs_secureErrorLogMessage h) (rs_contentType h) (rs_server h) (rs_h h) (rs_bufKV h) (rs_cookies h).
Definition set_rs_statusCode (v : Z) (h : ResponseHeader) : ResponseHeader :=
  MkResponseHeader (rs_disableNormalizing h) (rs_noHTTP11 h) (rs_connectionClose h) (rs_noDefaultContentType h) (rs_noDefaultDate h) v (rs_contentLength h) (rs_contentLengthBytes h) (rs_secureErrorLogMessage h) (rs_contentType h) (rs_server h) (rs_h h) (rs_bufKV h) (rs_cookies h).
Definition set_rs_contentLength (v : Z) (h : ResponseHeader) : ResponseHeader :=
  MkResponseHeader (rs_disableNormalizing h) (rs_noHTTP11 h) (rs_connectionClose h) (rs_noDefaultContentType h) (rs_noDefaultDate h) (rs_statusCode h) v (rs_contentLengthBytes h) (rs_secureErrorLogMessage h) (rs_contentType h) (rs_server h) (rs_h h) (rs_bufKV h) (rs_cookies h).
Definition set_rs_contentLengthBytes (v : bytes) (h : ResponseHeader) : ResponseHeader :=
  MkResponseHeader (rs_disableNormalizing h) (rs_noHTTP11 h) (rs_connectionClose h) (rs_noDefaultContentType h) (rs_noDefaultDate h) (rs_statusCode h) (rs_contentLength h) v (rs_secureErrorLogMessage h) (rs_contentType h) (rs_server h) (rs_h h) (rs_bufKV h) (rs_cookies h).
Definition set_rs_secureErrorLogMessage (v : bool) (h : ResponseHeader) : ResponseHeader :=
  MkResponseHeader (rs_disableNormalizing h) (rs_noHTTP11 h) (rs_connectionClose h) (rs_noDefaultContentType h) (rs_noDefaultDate h) (rs_statusCode h) (rs_contentLength h) (rs_contentLengthBytes h) v (rs_contentType h) (rs_server h) (rs_h h) (rs_bufKV h) (rs_cookies h).
Definition set_rs_contentType (v : bytes) (h : ResponseHeader) : ResponseHeader :=
  MkResponseHeader (rs_disableNormalizing h) (rs_noHTTP11 h) (rs_connectionClose h) (rs_noDefaultContentType h) (rs_noDefaultDate h) (rs_statusCode h) (rs_contentLength h) (rs_contentLengthBytes h) (rs_secureErrorLogMessage h) v (rs_server h) (rs_h h) (rs_bufKV h) (rs_cookies h).
Definition set_rs_server (v : bytes) (h : ResponseHeader) : ResponseHeader :=
  MkResponseHeader (rs_disableNormalizing h) (rs_noHTTP11 h) (rs_connectionClose h) (rs_noDefaultContentType h) (rs_noDefaultDate h) (rs_statusCode h) (rs_contentLength h) (rs_contentLengthBytes h) (rs_secureErrorLogMessage h) (rs_contentType h) v (rs_h h) (rs_bufKV h) (rs_cookies h).
Definition set_rs_h (v : kvs) (h : ResponseHeader) : ResponseHeader :=
  MkResponseHeader (rs_disableNormalizing h) (rs_noHTTP11 h) (rs_connectionClose h) (rs_noDefaultContentType h) (rs_noDefaultDate h) (rs_statusCode h) (rs_contentLength h) (rs_contentLengthBytes h) (rs_secureErrorLogMessage h) (rs_contentType h) (rs_server h) v (rs_bufKV h) (rs_cookies h).
Definition set_rs_bufKV (v : argsKV) (h : ResponseHeader) : ResponseHeader :=
  MkResponseHeader (rs_disableNormalizing h) (rs_noHTTP11 h) (rs_connectionClose h) (rs_noDefaultContentType h) (rs_noDefaultDate h) (rs_statusCode h) (rs_contentLength h) (rs_contentLengthBytes h) (rs_secureErrorLogMessage h) (rs_contentType h) (rs_server h) (rs_h h) v (rs_cookies h).
Definition set_rs_cookies (v : kvs) (h : ResponseHeader) : ResponseHeader :=
  MkResponseHeader (rs_disableNormalizing h) (rs_noHTTP11 h) (rs_connectionClose h) (rs_noDefaultContentType h) (rs_noDefaultDate h) (rs_statusCode h) (rs_contentLength h) (rs_contentLengthBytes h) (rs_secureErrorLogMessage h) (rs_contentType h) (rs_server h) (rs_h h) (rs_bufKV h) v.

Definition emptyResponseHeader : ResponseHeader :=
  MkResponseHeader false false false false false 0 0 [] false [] [] nilKvs zeroKV nilKvs.

Definition set_rs_bufValue (v : bytes) (h : ResponseHeader) : ResponseHeader :=
  set_rs_bufKV (ArgsKV (key (rs_bufKV h)) v (noValue (rs_bufKV h))) h.
Definition set_rs_bufKey (k : bytes) (h : ResponseHeader) : ResponseHeader :=
  set_rs_bufKV (ArgsKV k (value (rs_bufKV h)) (noValue (rs_bufKV h))) h.

(** ** Reset and CopyTo *)

Definition ResponseHeader_SetNoDefaultContentType (h : ResponseHeader) (v : bool) : ResponseHeader :=
  set_rs_noDefaultContentType v h.

Definition ResponseHeader_resetSkipNormalize (h : ResponseHeader) : ResponseHeader :=
  MkResponseHeader (rs_disableNormalizing h) false false (rs_noDefaultContentType h) (rs_noDefaultDate h) 0 0 []
    (rs_secureErrorLogMessage h) [] [] (truncKvs (rs_h h)) (rs_bufKV h) (truncKvs (rs_cookies h)).

Definition ResponseHeader_Reset (h : ResponseHeader) : ResponseHeader :=
  let h := set_rs_disableNormalizing false h in
  let h := ResponseHeader_SetNoDefaultContentType h false in
  ResponseHeader_resetSkipNormalize (set_rs_noDefaultDate false h).

Definition ResponseHeader_CopyTo (h dst : ResponseHeader) : ResponseHeader :=
  let dst := ResponseHeader_Reset dst in
  MkResponseHeader (rs_disableNormalizing h) (rs_noHTTP11 h) (rs_connectionClose h) (rs_noDefaultContentType h)
    (rs_noDefaultDate h) (rs_statusCode h) (rs_contentLength h) (rs_contentLengthBytes h)
    (rs_secureErrorLogMessage dst) (rs_contentType h) (rs_server h) (copyArgs (rs_h dst) (rs_h h)) (rs_bufKV dst)
    (copyArgs (rs_cookies dst) (rs_cookies h)).

(** ** Fields with an accessor of their own *)

Definition ResponseHeader_DisableNormalizing (h : ResponseHeader) : ResponseHeader := set_rs_disableNormalizing true h.
Definition ResponseHeader_EnableNormalizing (h : ResponseHeader) : ResponseHeader := set_rs_disableNormalizing false h.

Definition ResponseHeader_ConnectionClose (h : ResponseHeader) : bool := rs_connectionClose h.
Definition ResponseHeader_SetConnectionClose (h : ResponseHeader) : ResponseHeader := set_rs_connectionClose true h.
Definition ResponseHeader_ResetConnectionClose (h : ResponseHeader) : ResponseHeader :=
  if rs_connectionClose h then
    set_rs_h (delAllArgsBytes (rs_h h) strConnection) (set_rs_connectionClose false h)
  else h.

Definition ResponseHeader_StatusCode (h : ResponseHeader) : Z :=
  if rs_statusCode h =? 0 then StatusOK else rs_statusCode h.
Definition ResponseHeader_SetStatusCode (h : ResponseHeader) (v : Z) : ResponseHeader := set_rs_statusCode v h.

Definition ResponseHeader_mustSkipContentLength (h : ResponseHeader) : bool :=
  let statusCode := ResponseHeader_StatusCode h in
  if (statusCode <? 100) || (statusCode =? StatusOK) then false
  else (statusCode =? StatusNotModified) || (statusCode =? StatusNoContent) || (statusCode <? 200).

Definition ResponseHeader_ContentLength (h : ResponseHeader) : Z := rs_contentLength h.

(** [None] would be a panic of AppendUint. *)
Definition ResponseHeader_SetContentLength (h : ResponseHeader) (contentLength : Z) : option ResponseHeader :=
  if ResponseHeader_mustSkipContentLength h then Some h
  else
    let h := set_rs_contentLength contentLength h in
    if 0 <=? contentLength then
      b ← AppendUint [] contentLength;
      Some (set_rs_h (delAllArgsBytes (rs_h h) strTransferEncoding) (set_rs_contentLengthBytes b h))
    else
      let h := set_rs_contentLengthBytes [] h in
      let '(h, v) :=
        if contentLength =? -2 then (ResponseHeader_SetConnectionClose h, strIdentity) else (h, strChunked) in
      Some (set_rs_h (setArgBytes (rs_h h) strTransferEncoding v argsHasValue) h).

Definition ResponseHeader_ContentType (h : ResponseHeader) : bytes :=
  if negb (rs_noDefaultContentType h) && bool_decide (length (rs_contentType h) = O)
  then defaultContentType else rs_contentType h.
Definition ResponseHeader_SetContentType (h : ResponseHeader) (v : bytes) : ResponseHeader := set_rs_contentType v h.

Definition ResponseHeader_isCompressibleContentType (h : ResponseHeader) : bool :=
  let contentType := ResponseHeader_ContentType h in
  HasPrefix contentType strTextSlash || HasPrefix contentType strApplicationSlash.

Definition ResponseHeader_Server (h : ResponseHeader) : bytes := rs_server h.
Definition ResponseHeader_SetServer (h : ResponseHeader) (v : bytes) : ResponseHeader := set_rs_server v h.
Definition ResponseHeader_IsHTTP11 (h : ResponseHeader) : bool := negb (rs_noHTTP11 h).

(** ** The header multimap *)

(** setSpecialHeader appends a cookie through the element allocArg returns. *)
Definition appendCookieKV (cookies : kvs) (v : bytes) : kvs :=
  let '(cookies, p) := allocArg cookies in
  storeKV cookies p (ArgsKV (getCookieKey v) v (noValue (loadKV cookies p))).

Definition ResponseHeader_setSpecialHeader (h : ResponseHeader) (k v : bytes) : ResponseHeader * bool :=
  if decide (length k = O) then (h, false)
  else if firstIs "c" k then
    if caseInsensitiveCompare strContentType k then (ResponseHeader_SetContentType h v, true)
    else if caseInsensitiveCompare strContentLength k then
      match parseContentLength v with
      | (contentLength, None) => (set_rs_contentLengthBytes v (set_rs_contentLength contentLength h), true)
      | (_, Some _) => (h, true)
      end
    else if caseInsensitiveCompare strConnection k then
      if decide (strClose = v) then (ResponseHeader_SetConnectionClose h, true)
      else
        let h := ResponseHeader_ResetConnectionClose h in
        (set_rs_h (setArgBytes (rs_h h) k v argsHasValue) h, true)
    else (h, false)
  else if firstIs "s" k then
    if caseInsensitiveCompare strServer k then (ResponseHeader_SetServer h v, true)
    else if caseInsensitiveCompare strSetCookie k then (set_rs_cookies (appendCookieKV (rs_cookies h) v) h, true)
    else (h, false)
  else if firstIs "t" k then (h, caseInsensitiveCompare strTransferEncoding k)
  else if firstIs "d" k then (h, caseInsensitiveCompare strDate k)
  else (h, false).

Definition ResponseHeader_AddBytesKV (h : ResponseHeader) (k v : bytes) : ResponseHeader :=
  let '(h, special) := ResponseHeader_setSpecialHeader h k v in
  if special : bool then h
  else
    let h := set_rs_bufKV (getHeaderKeyBytes (rs_bufKV h) k (rs_disableNormalizing h)) h in
    set_rs_h (appendArgBytes (rs_h h) (key (rs_bufKV h)) v argsHasValue) h.

Definition ResponseHeader_Add (h : ResponseHeader) (k v : bytes) : ResponseHeader := ResponseHeader_AddBytesKV h k v.

Definition ResponseHeader_SetCanonical (h : ResponseHeader) (k v : bytes) : ResponseHeader :=
  let '(h, special) := ResponseHeader_setSpecialHeader h k v in
  if special : bool then h else set_rs_h (setArgBytes (rs_h h) k v argsHasValue) h.

Definition ResponseHeader_Set (h : ResponseHeader) (k v : bytes) : ResponseHeader :=
  let h := set_rs_bufKV (initHeaderKV (rs_bufKV h) k v (rs_disableNormalizing h)) h in
  ResponseHeader_SetCanonical h (key (rs_bufKV h)) (value (rs_bufKV h)).

Definition ResponseHeader_SetBytesKV (h : ResponseHeader) (k v : bytes) : ResponseHeader :=
  let h := set_rs_bufKey (normalizeHeaderKey k (rs_disableNormalizing h)) h in
  ResponseHeader_SetCanonical h (key (rs_bufKV h)) v.

Definition ResponseHeader_SetBytesK (h : ResponseHeader) (k v : bytes) : ResponseHeader :=
  let h := set_rs_bufValue v h in ResponseHeader_SetBytesKV h k (value (rs_bufKV h)).

Definition ResponseHeader_SetBytesV (h : ResponseHeader) (k v : bytes) : ResponseHeader :=
  let h := set_rs_bufKV (getHeaderKeyBytes (rs_bufKV h) k (rs_disableNormalizing h)) h in
  ResponseHeader_SetCanonical h (key (rs_bufKV h)) v.

Definition ResponseHeader_del (h : ResponseHeader) (k : bytes) : ResponseHeader :=
  let h :=
    if decide (k = HeaderContentType) then set_rs_contentType [] h
    else if decide (k = HeaderServer) then set_rs_server [] h
    else if decide (k = HeaderSetCookie) then set_rs_cookies (truncKvs (rs_cookies h)) h
    else if decide (k = HeaderContentLength) then set_rs_contentLengthBytes [] (set_rs_contentLength 0 h)
    else if decide (k = HeaderConnection) then set_rs_connectionClose false h
    else h in
  set_rs_h (delAllArgsBytes (rs_h h) k) h.

Definition ResponseHeader_Del (h : ResponseHeader) (k : bytes) : ResponseHeader :=
  let h := set_rs_bufKV (getHeaderKeyBytes (rs_bufKV h) k (rs_disableNormalizing h)) h in
  ResponseHeader_del h (key (rs_bufKV h)).

Definition ResponseHeader_peek (h : ResponseHeader) (k : bytes) : option bytes :=
  if decide (k = HeaderContentType) then Some (ResponseHeader_ContentType h)
  else if decide (k = HeaderServer) then Some (ResponseHeader_Server h)
  else if decide (k = HeaderConnection) then
    if ResponseHeader_ConnectionClose h then Some strClose else peekArgBytes (live (rs_h h)) k
  else if decide (k = HeaderContentLength) then Some (rs_contentLengthBytes h)
  else if decide (k = HeaderSetCookie) then Some (appendResponseCookieBytes [] (live (rs_cookies h)))
  else peekArgBytes (live (rs_h h)) k.

Definition ResponseHeader_Peek (h : ResponseHeader) (k : bytes) : ResponseHeader * option bytes :=
  let h := set_rs_bufKV (getHeaderKeyBytes (rs_bufKV h) k (rs_disableNormalizing h)) h in
  (h, ResponseHeader_peek h (key (rs_bufKV h))).

Definition ResponseHeader_ConnectionUpgrade (h : ResponseHeader) : ResponseHeader * bool :=
  let '(h, v) := ResponseHeader_Peek h HeaderConnection in (h, hasHeaderValue (default [] v) strUpgrade).

(** SetContentRange: [None] is the panic of AppendUint on a negative number. *)
Definition ResponseHeader_SetContentRange (h : ResponseHeader) (startPos endPos contentLength : Z)
  : option ResponseHeader :=
  b ← AppendUint (strBytes ++ [" "%byte]) startPos;
  b ← AppendUint (b ++ ["-"%byte]) endPos;
  b ← AppendUint (b ++ ["/"%byte]) contentLength;
  let h := set_rs_bufValue b h in
  Some (ResponseHeader_SetCanonical h strContentRange (value (rs_bufKV h))).

(** VisitAll: the calls of [f] in order. *)
Definition ResponseHeader_VisitAll (h : ResponseHeader) : list (bytes * bytes) :=
  optLine strContentLength (rs_contentLengthBytes h) ++
  optLine strContentType (ResponseHeader_ContentType h) ++
  optLine strServer (ResponseHeader_Server h) ++
  map (fun kv => (strSetCookie, snd kv)) (visitArgs (live (rs_cookies h))) ++
  visitArgs (live (rs_h h)) ++
  (if ResponseHeader_ConnectionClose h then [(strConnection, strClose)] else []).

Definition ResponseHeader_Len (h : ResponseHeader) : nat := length (ResponseHeader_VisitAll h).
Definition ResponseHeader_VisitAllCookie (h : ResponseHeader) : list (bytes * bytes) := visitArgs (live (rs_cookies h)).
Definition ResponseHeader_PeekCookie (h : ResponseHeader) (k : bytes) : option bytes := peekArgStr (live (rs_cookies h)) k.
Definition ResponseHeader_DelCookie (h : ResponseHeader) (k : bytes) : ResponseHeader :=
  set_rs_cookies (delAllArgs (rs_cookies h) k) h.
Definition ResponseHeader_DelAllCookies (h : ResponseHeader) : ResponseHeader :=
  set_rs_cookies (truncKvs (rs_cookies h)) h.

Section ResponseCookies.
Context `{TimeLib}.

Definition ResponseHeader_SetLastModified (h : ResponseHeader) (t : Time) : ResponseHeader :=
  let h := set_rs_bufValue (AppendHTTPDate [] t) h in
  ResponseHeader_SetCanonical h strLastModified (value (rs_bufKV h)).

(** The cookie object is returned as well: Cookie() formats into its buffer. *)
Definition ResponseHeader_SetCookie (h : ResponseHeader) (cookie : Cookie) : option (ResponseHeader * Cookie) :=
  '(cookie, b) ← Cookie_Cookie cookie;
  Some (set_rs_cookies (setArgBytes (rs_cookies h) (ck_key cookie) b argsHasValue) h, cookie).

(** The pooled cookie AcquireCookie returns is a Reset one. *)
Definition ResponseHeader_DelClientCookie (h : ResponseHeader) (k : bytes) (pooled : Cookie) : option (ResponseHeader * Cookie) :=
  let h := ResponseHeader_DelCookie h k in
  let c := Cookie_SetExpire (Cookie_SetKey pooled k) CookieExpireDelete in
  '(h, c) ← ResponseHeader_SetCookie h c;
  Some (h, Cookie_Reset c).

Definition ResponseHeader_Cookie (h : ResponseHeader) (cookie : Cookie) : Cookie * bool :=
  match peekArgBytes (live (rs_cookies h)) (ck_key cookie) with
  | None => (cookie, false)
  | Some v => (fst (Cookie_ParseBytes cookie v), true)
  end.

End ResponseCookies.

(** ** Printing *)

(** [None] would be a panic of the status table. *)
Definition ResponseHeader_AppendBytes (serverDate : bytes) (h : ResponseHeader) (dst : bytes) : option bytes :=
  let statusCode := ResponseHeader_StatusCode h in
  let statusCode := if statusCode <? 0 then StatusOK else statusCode in
  line ← statusLine statusCode;
  let dst := dst ++ line in
  let server := ResponseHeader_Server h in
  let dst := if decide (length server <> O) then appendHeaderLine dst strServer server else dst in
  let dst := if negb (rs_noDefaultDate h) then appendHeaderLine dst strDate serverDate else dst in
  let dst :=
    if decide (ResponseHeader_ContentLength h <> 0 \/ (0 < length (rs_contentType h))%nat) then
      let contentType := ResponseHeader_ContentType h in
      if Nat.ltb 0 (length contentType) then appendHeaderLine dst strContentType contentType else dst
    else dst in
  let dst := if Nat.ltb 0 (length (rs_contentLengthBytes h))
             then appendHeaderLine dst strContentLength (rs_contentLengthBytes h) else dst in
  let dst := fold_left (fun dst kv =>
               if rs_noDefaultDate h || negb (bool_decide (key kv = strDate))
               then appendHeaderLine dst (key kv) (value kv) else dst) (live (rs_h h)) dst in
  let dst := fold_left (fun dst kv => appendHeaderLine dst strSetCookie (value kv)) (live (rs_cookies h)) dst in
  let dst := if ResponseHeader_ConnectionClose h then appendHeaderLine dst strConnection strClose else dst in
  Some (dst ++ strCRLF).

Definition ResponseHeader_Header (serverDate : bytes) (h : ResponseHeader) : option (ResponseHeader * bytes) :=
  b ← ResponseHeader_AppendBytes serverDate h [];
  let h := set_rs_bufValue b h in Some (h, value (rs_bufKV h)).

Definition ResponseHeader_String (serverDate : bytes) (h : ResponseHeader) : option (ResponseHeader * bytes) :=
  ResponseHeader_Header serverDate h.

(** ** Parsing *)

Definition ResponseHeader_parseFirstLine (h : ResponseHeader) (buf : bytes) : ResponseHeader * nat * option error :=
  match firstLineLoop (S (length buf)) buf with
  | None => (h, O, Some errNeedMore)
  | Some (b, bNext) =>
      match IndexByte b " " with
      | None => (h, O, Some (Errorf "cannot find whitespace in the first line of response"))
      | Some n =>
          let h := set_rs_noHTTP11 (negb (bool_decide (take n b = strHTTP11))) h in
          let b := drop (n + 1) b in
          match parseUintBuf b with
          | (statusCode, _, Some _) =>
              (set_rs_statusCode statusCode h, O, Some (Errorf "cannot parse response status code: %s"))
          | (statusCode, n, None) =>
              let h := set_rs_statusCode statusCode h in
              if decide ((n < length b)%nat /\ b !! n <> Some " "%byte)
              then (h, O, Some (Errorf "unexpected char at the end of status code"))
              else (h, (length buf - length bNext)%nat, None)
          end
      end
  end.

(** The body of the loop of parseHeaders for one scanned pair. *)
Definition ResponseHeader_parseHeader (h : ResponseHeader) (k v : bytes) : ResponseHeader :=
  let appended := set_rs_h (appendArgBytes (rs_h h) k v argsHasValue) h in
  if decide (length k = O) then h
  else if firstIs "c" k then
    if caseInsensitiveCompare k strContentType then set_rs_contentType v h
    else if caseInsensitiveCompare k strContentLength then
      if decide (rs_contentLength h <> -1) then
        match parseContentLength v with
        | (_, Some _) => set_rs_contentLength (-2) h
        | (contentLength, None) => set_rs_contentLengthBytes v (set_rs_contentLength contentLength h)
        end
      else h
    else if caseInsensitiveCompare k strConnection then
      if decide (v = strClose) then set_rs_connectionClose true h
      else set_rs_h (appendArgBytes (rs_h h) k v argsHasValue) (set_rs_connectionClose false h)
    else appended
  else if firstIs "s" k then
    if caseInsensitiveCompare k strServer then set_rs_server v h
    else if caseInsensitiveCompare k strSetCookie then set_rs_cookies (appendCookieKV (rs_cookies h) v) h
    else appended
  else if firstIs "t" k then
    if caseInsensitiveCompare k strTransferEncoding then
      if decide (v <> [] /\ v <> strIdentity) then
        set_rs_h (setArgBytes (rs_h h) strTransferEncoding strChunked argsHasValue) (set_rs_contentLength (-1) h)
      else h
    else appended
  else appended.

Fixpoint ResponseHeader_parseLoop (fuel : nat) (s : headerScanner) (h : ResponseHeader)
  : option (headerScanner * ResponseHeader) :=
  match fuel with
  | O => None
  | S fuel' =>
      '(more, s) ← headerScanner_next s;
      if more : bool then ResponseHeader_parseLoop fuel' s (ResponseHeader_parseHeader h (s_key s) (s_value s))
      else Some (s, h)
  end.

Definition ResponseHeader_parseHeaders (h : ResponseHeader) (buf : bytes)
  : option (ResponseHeader * nat * option error * bytes) :=
  let h := set_rs_contentLength (-2) h in
  '(s, h) ← ResponseHeader_parseLoop (S (length buf)) (newHeaderScanner buf (rs_disableNormalizing h)) h;
  match s_err s with
  | Some err => Some (set_rs_connectionClose true h, O, Some err, s_buffer s)
  | None =>
      let h := if rs_contentLength h <? 0 then set_rs_contentLengthBytes [] h else h in
      let h :=
        if rs_contentLength h =? -2 then
          let '(h, upgrade) := ResponseHeader_ConnectionUpgrade h in
          if negb upgrade && negb (ResponseHeader_mustSkipContentLength h) then
            set_rs_connectionClose true
              (set_rs_h (setArgBytes (rs_h h) strTransferEncoding strIdentity argsHasValue) h)
          else h
        else h in
      let h :=
        if rs_noHTTP11 h && negb (rs_connectionClose h) then
          let v := default [] (peekArgBytes (live (rs_h h)) strConnection) in
          set_rs_connectionClose (negb (hasHeaderValue v strKeepAlive)) h
        else h in
      Some (h, (length buf - length (s_b s))%nat, None, s_buffer s)
  end.

Definition ResponseHeader_parse (h : ResponseHeader) (buf : bytes)
  : option (ResponseHeader * nat * option error * bytes) :=
  match ResponseHeader_parseFirstLine h buf with
  | (h, _, Some err) => Some (h, O, Some err, buf)
  | (h, m, None) =>
      '(h, n, err, buf') ← ResponseHeader_parseHeaders h (drop m buf);
      match err with
      | Some err => Some (h, O, Some err, take m buf ++ buf')
      | None => Some (h, (m + n)%nat, None, take m buf ++ buf')
      end
  end.

(** ** Parsing is total *)

Lemma ResponseHeader_parseLoop_total fuel s h :
  wfScanner s -> (length (s_b s) < fuel)%nat ->
  exists s' h', ResponseHeader_parseLoop fuel s h = Some (s', h') /\ length (s_buffer s') = length (s_buffer s).
Proof.
  revert s h. induction fuel as [|fuel IH]; intros s h Hw Hf; [lia|]. cbn [ResponseHeader_parseLoop].
  destruct (headerScanner_next_total s Hw) as (r & s' & -> & Hl & _ & Ht & _). cbn [mbind option_bind].
  destruct r; [|eauto]. destruct (Ht eq_refl) as (_ & Hlt & Hw' & _).
  destruct (IH s' (ResponseHeader_parseHeader h (s_key s') (s_value s')) Hw' ltac:(lia)) as (s3 & h3 & -> & Hl3).
  do 2 eexists. split; [reflexivity|]. congruence.
Qed.

Lemma ResponseHeader_parseHeaders_total h buf :
  exists h' n err buf', ResponseHeader_parseHeaders h buf = Some (h', n, err, buf') /\
    length buf' = length buf /\ (n <= length buf)%nat.
Proof.
  unfold ResponseHeader_parseHeaders. cbv zeta.
  destruct (ResponseHeader_parseLoop_total (S (length buf))
              (newHeaderScanner buf (rs_disableNormalizing (set_rs_contentLength (-2) h)))
              (set_rs_contentLength (-2) h)) as (s & h' & -> & Hl); [by left|simpl; lia|].
  assert (length (s_buffer s) = length buf) as Hb.
  { rewrite Hl. unfold s_buffer. simpl. by rewrite app_nil_r. }
  cbn [mbind option_bind]. destruct (s_err s); do 4 eexists; (split; [reflexivity|]); split; lia.
Qed.

Lemma ResponseHeader_parseFirstLine_bound h buf :
  (snd (fst (ResponseHeader_parseFirstLine h buf)) <= length buf)%nat.
Proof.
  unfold ResponseHeader_parseFirstLine. destruct (firstLineLoop _ _) as [[b bNext]|]; [|simpl; lia].
  destruct (IndexByte b " ") as [n|]; [|simpl; lia]. cbv zeta.
  destruct (parseUintBuf _) as [[v k] [e|]]; [simpl; lia|]. case_decide; simpl; lia.
Qed.

(** ** The printed form as lines *)

Definition responseDateLine (serverDate : bytes) (h : ResponseHeader) : list (bytes * bytes) :=
  if rs_noDefaultDate h then [] else [(strDate, serverDate)].

Definition responseContentType (h : ResponseHeader) : bytes :=
  if decide (rs_contentLength h <> 0 \/ (0 < length (rs_contentType h))%nat) then ResponseHeader_ContentType h else [].

(** The generic headers that are printed: all but a Date the server replaces. *)
Definition printedHeaders (h : ResponseHeader) : list argsKV :=
  filter (fun kv => rs_noDefaultDate h || negb (bool_decide (key kv = strDate)) = true) (live (rs_h h)).

Definition cookieLines (h : ResponseHeader) : list (bytes * bytes) :=
  map (fun kv => (strSetCookie, value kv)) (live (rs_cookies h)).

Definition responseCloseLine (h : ResponseHeader) : list (bytes * bytes) :=
  if rs_connectionClose h then [(strConnection, strClose)] else [].

Definition responseLines (serverDate : bytes) (h : ResponseHeader) : list (bytes * bytes) :=
  optLine strServer (rs_server h) ++ responseDateLine serverDate h ++ optLine strContentType (responseContentType h) ++
  optLine strContentLength (rs_contentLengthBytes h) ++ visitArgs (printedHeaders h) ++ cookieLines h ++ responseCloseLine h.

Definition printedStatus (h : ResponseHeader) : Z :=
  if ResponseHeader_StatusCode h <? 0 then StatusOK else ResponseHeader_StatusCode h.

Lemma fold_cookie_lines l dst :
  fold_left (fun dst kv => appendHeaderLine dst strSetCookie (value kv)) l dst =
  dst ++ linesText (map (fun kv => (strSetCookie, value kv)) l).
Proof.
  revert dst. induction l as [|kv l IH]; intros dst; [by rewrite app_nil_r|]. cbn [fold_left map].
  rewrite IH, appendHeaderLine_spec, linesText_cons. by rewrite <- app_assoc.
Qed.

Lemma fold_filtered_lines (p : argsKV -> bool) l dst :
  fold_left (fun dst kv => if p kv then appendHeaderLine dst (key kv) (value kv) else dst) l dst =
  dst ++ linesText (visitArgs (filter (fun kv => p kv = true) l)).
Proof.
  revert dst. induction l as [|kv l IH]; intros dst; [by rewrite app_nil_r|]. cbn [fold_left].
  rewrite IH, filter_cons. destruct (p kv); cbn [visitArgs map]; [|by rewrite decide_False].
  rewrite decide_True by done. cbn [visitArgs map]. rewrite appendHeaderLine_spec, linesText_cons. by rewrite <- app_assoc.
Qed.

Lemma ResponseHeader_AppendBytes_lines serverDate h dst :
  ResponseHeader_AppendBytes serverDate h dst =
  (fun line => dst ++ line ++ linesText (responseLines serverDate h) ++ strCRLF) <$> statusLine (printedStatus h).
Proof.
  unfold ResponseHeader_AppendBytes. cbv zeta. fold (printedStatus h).
  destruct (statusLine (printedStatus h)) as [line|]; [|done]. cbn [mbind option_bind fmap option_fmap option_map].
  f_equal. rewrite fold_filtered_lines, fold_cookie_lines. fold (printedHeaders h) (cookieLines h).
  unfold ResponseHeader_Server, ResponseHeader_ConnectionClose, ResponseHeader_ContentLength.
  assert (forall d, (if decide (length (rs_server h) <> O) then appendHeaderLine d strServer (rs_server h) else d) =
                    d ++ linesText (optLine strServer (rs_server h))) as ->.
  { intros d. rewrite <- appendHeaderLine_opt. by destruct (rs_server h). }
  assert (forall d, (if negb (rs_noDefaultDate h) then appendHeaderLine d strDate serverDate else d) =
                    d ++ linesText (responseDateLine serverDate h)) as ->.
  { intros d. unfold responseDateLine, linesText. destruct (rs_noDefaultDate h); simpl; by rewrite ?app_nil_r. }
  assert (forall d, (if decide (rs_contentLength h <> 0 \/ (0 < length (rs_contentType h))%nat) then
             if Nat.ltb 0 (length (ResponseHeader_ContentType h))
             then appendHeaderLine d strContentType (ResponseHeader_ContentType h) else d else d) =
             d ++ linesText (optLine strContentType (responseContentType h))) as ->.
  { intros d. rewrite <- appendHeaderLine_opt. unfold responseContentType. by case_decide. }
  rewrite appendHeaderLine_opt.
  assert (forall d, (if rs_connectionClose h then appendHeaderLine d strConnection strClose else d) =
                    d ++ linesText (responseCloseLine h)) as ->.
  { intros d. unfold responseCloseLine, linesText. destruct (rs_connectionClose h); simpl; by rewrite ?app_nil_r. }
  unfold responseLines. rewrite !linesText_app. by rewrite <- !app_assoc.
Qed.

(** ** Reading lines back *)

Definition parseResponseLines (d : bool) (kvs : list (bytes * bytes)) (h : ResponseHeader) : ResponseHeader :=
  fold_left (fun h kv => ResponseHeader_parseHeader h (normalizeHeaderKey (fst kv) d) (snd kv)) kvs h.

Lemma ResponseHeader_parseLoop_lines fuel s h kvs rest :
  s_b s = linesText kvs ++ strCRLF ++ rest -> ready s -> Forall plainLine kvs -> (length kvs < fuel)%nat ->
  exists s', ResponseHeader_parseLoop fuel s h = Some (s', parseResponseLines (s_disableNormalizing s) kvs h) /\
    s_b s' = rest /\ s_tail s' = s_tail s /\ s_err s' = s_err s /\
    s_done s' = s_done s ++ linesText (map (normLine (s_disableNormalizing s)) kvs) ++ strCRLF.
Proof.
  intros Eb Hr Hp. revert fuel s h Eb Hr. induction Hp as [|[k v] kvs Hkv Hp IH]; intros fuel s h Eb Hr Hf;
    (destruct fuel as [|fuel]; [simpl in *; lia|]); cbn [ResponseHeader_parseLoop].
  - destruct (headerScanner_next_end s rest Eb Hr) as (s' & -> & H1 & H2 & H3 & H4 & _).
    cbn [mbind option_bind]. eexists. split; [reflexivity|]. split_and!; done.
  - rewrite linesText_cons, <- app_assoc in Eb. pose proof Hkv as (H1 & H2 & _).
    destruct (headerScanner_next_line s k v _ Eb Hr H1 H2 (noFold_lines kvs rest Hp)) as (nnl & -> & Hn).
    cbn [mbind option_bind s_key s_value].
    match goal with |- context [ResponseHeader_parseLoop fuel ?x ?y] =>
      destruct (IH fuel x y) as (s' & -> & H4 & H5 & H6 & H8) end.
    { done. } { by right. } { simpl in *; lia. }
    simpl in H4, H5, H6, H8. eexists. split; [reflexivity|]. split_and!; try done.
    rewrite H8. cbn [map]. rewrite linesText_cons. unfold headerLine. simpl. by rewrite <- !app_assoc.
Qed.

Definition specialResponseKeys : list bytes :=
  [strContentType; strContentLength; strConnection; strServer; strSetCookie; strTransferEncoding].

Definition genericResponseKey (d : bool) (k : bytes) : Prop :=
  k <> [] /\ isSpecial specialResponseKeys k = false /\ normalizeHeaderKey k d = k.

Lemma ResponseHeader_parseHeader_generic h k v d :
  genericResponseKey d k -> ResponseHeader_parseHeader h k v = set_rs_h (appendArg (rs_h h) k v argsHasValue) h.
Proof.
  intros (Hne & Hk & _). unfold ResponseHeader_parseHeader. cbv zeta.
  rewrite decide_False by (by destruct k).
  unfold isSpecial, specialResponseKeys in Hk. cbn [existsb] in Hk.
  rewrite !orb_false_iff in Hk. destruct Hk as (K1 & K2 & K3 & K4 & K5 & K6 & _).
  rewrite K1, K2, K3, K4, K5, K6. destruct (firstIs "c" k), (firstIs "s" k), (firstIs "t" k); done.
Qed.

Lemma parseResponseLines_app d l1 l2 h :
  parseResponseLines d (l1 ++ l2) h = parseResponseLines d l2 (parseResponseLines d l1 h).
Proof. apply fold_left_app. Qed.

Lemma parseResponseLines_generic d kvs h :
  Forall (fun kv => genericResponseKey d (fst kv)) kvs ->
  exists hs, parseResponseLines d kvs h = set_rs_h hs h /\
    live hs = live (rs_h h) ++ map (fun kv => ArgsKV (fst kv) (snd kv) argsHasValue) kvs.
Proof.
  intros Hg. revert h. induction Hg as [|[k v] kvs Hk Hg IH]; intros h.
  - exists (rs_h h). split; [by destruct h|]. by rewrite app_nil_r.
  - unfold parseResponseLines. cbn [fold_left fst snd]. pose proof Hk as (_ & _ & Hn). cbn [fst] in Hn. rewrite Hn.
    rewrite (ResponseHeader_parseHeader_generic h k v d Hk).
    destruct (IH (set_rs_h (appendArg (rs_h h) k v argsHasValue) h)) as (hs & E & Hl).
    exists hs. split; [exact E|]. rewrite Hl. cbn [rs_h set_rs_h]. rewrite live_appendArg. by rewrite <- app_assoc.
Qed.

Lemma live_appendCookieKV c v : exists nov, live (appendCookieKV c v) = live c ++ [ArgsKV (getCookieKey v) v nov].
Proof.
  unfold appendCookieKV. destruct (allocArg_spec c) as (kv & sp & ->). rewrite storeKV_last. simpl. eauto.
Qed.

Lemma parseResponseLines_cookies d (vs : list bytes) h :
  exists cs, parseResponseLines d (map (pair strSetCookie) vs) h = set_rs_cookies cs h /\
    visitArgs (live cs) = visitArgs (live (rs_cookies h)) ++ map (fun v => (getCookieKey v, v)) vs.
Proof.
  revert h. induction vs as [|v vs IH]; intros h.
  - exists (rs_cookies h). split; [by destruct h|]. by rewrite app_nil_r.
  - unfold parseResponseLines. cbn [fold_left fst snd map].
    assert (ResponseHeader_parseHeader h (normalizeHeaderKey strSetCookie d) v =
            set_rs_cookies (appendCookieKV (rs_cookies h) v) h) as -> by (by destruct d).
    destruct (IH (set_rs_cookies (appendCookieKV (rs_cookies h) v) h)) as (cs & E & Hv).
    exists cs. split; [exact E|]. rewrite Hv. cbn [rs_cookies set_rs_cookies].
    destruct (live_appendCookieKV (rs_cookies h) v) as (nov & ->). rewrite visitArgs_app. by rewrite <- app_assoc.
Qed.

Lemma parseResponseLines_opt d k v (f : ResponseHeader -> ResponseHeader) h :
  (v <> [] -> ResponseHeader_parseHeader h (normalizeHeaderKey k d) v = f h) ->
  parseResponseLines d (optLine k v) h = (if decide (v = []) then h else f h).
Proof.
  intros Hf. unfold optLine. destruct v as [|c v]; [done|].
  cbn [length Nat.ltb Nat.leb]. unfold parseResponseLines. cbn [fold_left fst snd]. by rewrite Hf.
Qed.

(** The responses with a body length that a head can carry. *)
Record wfResponse (d : bool) (serverDate : bytes) (g : ResponseHeader) : Prop := {
  wr_status : 0 <= ResponseHeader_StatusCode g <= maxInt;
  wr_fields : Forall lineText [rs_server g; serverDate; rs_contentType g; rs_contentLengthBytes g];
  wr_length : rs_contentLengthBytes g <> [] /\ 0 <= rs_contentLength g /\
              parseContentLength (rs_contentLengthBytes g) = (rs_contentLength g, None);
  wr_headers : Forall (fun kv => plainLine kv /\ genericResponseKey d (fst kv)) (visitArgs (live (rs_h g)));
  wr_cookies : Forall (fun kv => lineText (value kv)) (live (rs_cookies g))
}.

Lemma wr_printed d sd g :
  wfResponse d sd g ->
  Forall (fun kv => plainLine kv /\ genericResponseKey d (fst kv)) (visitArgs (printedHeaders g)).
Proof.
  intros W. pose proof (wr_headers _ _ _ W) as F. unfold visitArgs, printedHeaders in *.
  rewrite Forall_map in *. rewrite Forall_forall in *. intros kv Hkv. apply F.
  by apply list_elem_of_filter in Hkv as [_ ?].
Qed.

Lemma responseContentType_line g : lineText (rs_contentType g) -> lineText (responseContentType g).
Proof.
  intros H. unfold responseContentType, ResponseHeader_ContentType. case_decide; [|closed_dec].
  destruct (_ && _); [closed_dec|done].
Qed.

Lemma responseLines_plain d sd g : wfResponse d sd g -> Forall plainLine (responseLines sd g).
Proof.
  intros W. pose proof (wr_fields _ _ _ W) as F. rewrite !Forall_cons in F. destruct F as (F1 & F2 & F3 & F4 & _).
  unfold responseLines. rewrite !Forall_app. split_and!.
  - apply optLine_plain, plainLine_std; [done|exact F1].
  - unfold responseDateLine. destruct (rs_noDefaultDate g); constructor; [|constructor]. by apply plainLine_std.
  - apply optLine_plain, plainLine_std; [done|by apply responseContentType_line].
  - apply optLine_plain, plainLine_std; [done|exact F4].
  - eapply Forall_impl; [exact (wr_printed _ _ _ W)|]. by intros ? [? _].
  - unfold cookieLines. rewrite Forall_map. eapply Forall_impl; [exact (wr_cookies _ _ _ W)|].
    intros kv Hkv. cbn beta in Hkv |- *. by apply plainLine_std.
  - unfold responseCloseLine. destruct (rs_connectionClose g); constructor; [|constructor].
    apply plainLine_std; [done|closed_dec].
Qed.

Lemma responseLines_normal d sd g : wfResponse d sd g -> map (normLine d) (responseLines sd g) = responseLines sd g.
Proof.
  intros W. transitivity (map id (responseLines sd g)); [|apply map_id]. apply map_ext_Forall.
  assert (forall k v, normalizeHeaderKey k true = k -> normalizeHeaderKey k false = k -> normLine d (k, v) = id (k, v)) as N.
  { intros k v H1 H2. unfold normLine. cbn [fst snd]. destruct d; by rewrite ?H1, ?H2. }
  unfold responseLines, optLine, responseDateLine, responseCloseLine, cookieLines. rewrite !Forall_app. split_and!.
  1,3,4: (destruct (Nat.ltb _ _); constructor; [apply N; reflexivity|constructor]).
  - destruct (rs_noDefaultDate g); constructor; [apply N; reflexivity|constructor].
  - eapply Forall_impl; [exact (wr_printed _ _ _ W)|]. intros [k v] [_ (_ & _ & Hn)]. cbn [fst] in Hn.
    unfold normLine. cbn [fst snd]. by rewrite Hn.
  - rewrite Forall_map. apply Forall_true. intros kv. apply N; reflexivity.
  - destruct (rs_connectionClose g); constructor; [apply N; reflexivity|constructor].
Qed.

(** The header a printed response leaves in an empty one. *)
Record sameResponse (sd : bytes) (g h : ResponseHeader) : Prop := {
  sr_status : ResponseHeader_StatusCode h = ResponseHeader_StatusCode g;
  sr_http11 : rs_noHTTP11 h = false;
  sr_server : rs_server h = rs_server g;
  sr_contentType : rs_contentType h = responseContentType g;
  sr_lengthBytes : rs_contentLengthBytes h = rs_contentLengthBytes g;
  sr_length : rs_contentLength h = rs_contentLength g;
  sr_headers : visitArgs (live (rs_h h)) = responseDateLine sd g ++ visitArgs (printedHeaders g);
  sr_cookies : visitArgs (live (rs_cookies h)) =
               map (fun kv => (getCookieKey (value kv), value kv)) (live (rs_cookies g));
  sr_close : rs_connectionClose h = rs_connectionClose g
}.

(** The state after the first line: everything but the status is empty. *)
Definition emptyBut (h : ResponseHeader) : Prop :=
  rs_noHTTP11 h = false /\ rs_connectionClose h = false /\ rs_server h = [] /\ rs_contentType h = [] /\
  rs_contentLength h = -2 /\ live (rs_h h) = [] /\ live (rs_cookies h) = [].

Lemma parseResponseLines_all d sd g h :
  wfResponse d sd g -> emptyBut h -> ResponseHeader_StatusCode h = ResponseHeader_StatusCode g ->
  sameResponse sd g (parseResponseLines d (responseLines sd g) h).
Proof.
  intros W (E1 & E2 & E3 & E4 & E5 & E6 & E7) Es. unfold responseLines. rewrite !parseResponseLines_app.
  rewrite (parseResponseLines_opt d strServer _ (set_rs_server (rs_server g))); [|by destruct d].
  set (h1 := if decide (rs_server g = []) then h else _).
  assert (emptyBut (set_rs_server [] h1) /\ rs_server h1 = rs_server g /\ ResponseHeader_StatusCode h1 = ResponseHeader_StatusCode g)
    as (B1 & S1 & T1).
  { subst h1. case_decide as D; unfold emptyBut; rewrite ?D; split_and!; try done; congruence. }
  clearbody h1. clear E1 E2 E3 E4 E5 E6 E7 Es h.
  assert (Forall (fun kv => genericResponseKey d (fst kv)) (responseDateLine sd g)) as Gd.
  { unfold responseDateLine. destruct (rs_noDefaultDate g); constructor; [|constructor]. cbn [fst].
    split_and!; [done|reflexivity|by destruct d]. }
  destruct (parseResponseLines_generic d _ h1 Gd) as (hs1 & -> & L1).
  rewrite (parseResponseLines_opt d strContentType _ (set_rs_contentType (responseContentType g))); [|by destruct d].
  destruct B1 as (E1 & E2 & _ & E4 & E5 & E6 & E7). cbn in E1, E2, E4, E5, E6, E7.
  destruct (wr_length _ _ _ W) as (Hne & Hp & Hcl).
  rewrite (parseResponseLines_opt d strContentLength _
    (fun h => set_rs_contentLengthBytes (rs_contentLengthBytes g) (set_rs_contentLength (rs_contentLength g) h))).
  2:{ intros _. assert (normalizeHeaderKey strContentLength d = strContentLength) as -> by (by destruct d).
      unfold ResponseHeader_parseHeader. cbv zeta. rewrite Hcl.
      match goal with |- context [decide (rs_contentLength ?x <> -1)] =>
        rewrite (decide_True (P := rs_contentLength x <> -1)) end; [reflexivity|].
      case_decide; simpl; rewrite E5; lia. }
  rewrite decide_False by done.
  assert (Forall (fun kv => genericResponseKey d (fst kv)) (visitArgs (printedHeaders g))) as Gh.
  { eapply Forall_impl; [exact (wr_printed _ _ _ W)|]. by intros ? [_ ?]. }
  match goal with |- context [parseResponseLines d (visitArgs _) ?x] =>
    destruct (parseResponseLines_generic d _ x Gh) as (hs2 & -> & L2) end.
  assert (cookieLines g = map (pair strSetCookie) (map value (live (rs_cookies g)))) as ->.
  { unfold cookieLines. by rewrite map_map. }
  match goal with |- context [parseResponseLines d (map _ _) ?x] =>
    destruct (parseResponseLines_cookies d (map value (live (rs_cookies g))) x) as (cs & -> & L3) end.
  assert (live hs2 = map (fun kv => ArgsKV (fst kv) (snd kv) argsHasValue) (responseDateLine sd g ++ visitArgs (printedHeaders g))) as L4.
  { rewrite L2, map_app. f_equal. rewrite E6 in L1. etransitivity; [|exact L1]. by case_decide. }
  assert (visitArgs (live cs) = map (fun kv => (getCookieKey (value kv), value kv)) (live (rs_cookies g))) as L5.
  { rewrite L3, map_map. assert (rs_cookies h1 = rs_cookies h1) as _ by done.
    case_decide; simpl; by rewrite E7. }
  clear L1 L2 L3. unfold responseCloseLine.
  destruct h1. simpl in *. subst. destruct (rs_connectionClose g) eqn:Ec;
    unfold parseResponseLines; cbn [fold_left fst snd]; [destruct d|]; 
    (split; [case_decide; exact T1| | | | | | | |]; case_decide; simpl;
       rewrite ?L4, ?visitArgs_map, ?L5; congruence).
Qed.

(** ** The status line *)

Lemma parseUintLoop_app d t i v :
  Forall (fun c => is_digit c = true) d -> 0 <= v -> dec_from v d <= maxInt -> (0 < i + length d)%nat ->
  parseUintLoop (d ++ " "%byte :: t) i v = (dec_from v d, (i + length d)%nat, None).
Proof.
  intros Hd. revert i v. induction Hd as [|c d Hc Hd IH]; intros i v Hv Hm Hi; cbn [app parseUintLoop].
  - change (9 <? bz (zb (bz " "%byte - bz "0"%byte))) with true. cbv iota zeta.
    simpl in Hi. rewrite decide_False by lia. by rewrite Nat.add_0_r.
  - cbv zeta. rewrite digit_check, Hc. cbn [negb]. rewrite digit_sub by done.
    pose proof (digit_range c Hc). pose proof (dec_from_ge (10 * v + digit_val c) d ltac:(lia) Hd).
    change (dec_from v (c :: d)) with (dec_from (10 * v + digit_val c) d) in *.
    rewrite int64_small by lia. destruct (Z.ltb_spec (10 * v + digit_val c) v); [lia|].
    rewrite IH by (done || lia). simpl. do 2 f_equal. lia.
Qed.

Lemma statusLine_shape c :
  0 <= c <= maxInt ->
  exists d s, statusLine c = Some (strHTTP11 ++ (" "%byte :: d ++ (" "%byte :: s ++ strCRLF))) /\
    Forall (fun x => is_digit x = true) d /\ d <> [] /\ dec_value d = c /\ (nChar ∉ s) /\ (rChar ∉ s).
Proof.
  intros H. rewrite statusLine_spec. unfold invalidStatusLine.
  destruct (StatusMessage_ok c) as (s & -> & _ & Ho). destruct (fmtInt_nonneg c H) as (F & Hne & V).
  exists (fmtInt c), s. split_and!; try done; unfold oneLine in Ho; rewrite forallb_forall in Ho;
    intros Hin%list_elem_of_In; by apply Ho in Hin.
Qed.

Lemma digits_oneLine d : Forall (fun x => is_digit x = true) d -> (nChar ∉ d) /\ (rChar ∉ d).
Proof. rewrite Forall_forall. intros F. split; intros H%F; done. Qed.

Lemma parseFirstLine_status h g line rest :
  0 <= ResponseHeader_StatusCode g <= maxInt -> statusLine (printedStatus g) = Some line ->
  ResponseHeader_parseFirstLine h (line ++ rest) =
  (set_rs_statusCode (ResponseHeader_StatusCode g) (set_rs_noHTTP11 false h), length line, None).
Proof.
  intros Hs. unfold printedStatus. destruct (Z.ltb_spec (ResponseHeader_StatusCode g) 0); [lia|].
  destruct (statusLine_shape _ Hs) as (d & s & -> & Fd & Hne & V & Ns & Rs). intros [= <-].
  destruct (digits_oneLine d Fd) as [Nd Rd]. unfold ResponseHeader_parseFirstLine.
  set (l := strHTTP11 ++ (" "%byte :: d ++ (" "%byte :: s))).
  assert (forall t, (strHTTP11 ++ (" "%byte :: d ++ (" "%byte :: s ++ strCRLF))) ++ t = l ++ strCRLF ++ t) as El.
  { intros t. subst l. by rewrite <- !app_assoc, <- !app_comm_cons, <- !app_assoc, <- !app_comm_cons, <- !app_assoc. }
  rewrite El. cbn [firstLineLoop]. rewrite nextLine_crlf.
  2:{ subst l. rewrite not_elem_of_app, not_elem_of_cons, not_elem_of_app, not_elem_of_cons.
      split_and!; [apply IndexByte_None; reflexivity|done..]. }
  rewrite decide_False by done. subst l.
  rewrite IndexByte_app by (apply IndexByte_None; reflexivity). cbv zeta. rewrite take_app_exact, Nat.add_1_r, drop_app_S.
  rewrite bool_decide_eq_true_2 by done. unfold parseUintBuf. rewrite decide_False by (by destruct d).
  rewrite parseUintLoop_app; [|done|lia|by fold (dec_value d); lia|destruct d; [done|simpl; lia]].
  fold (dec_value d). rewrite V. cbn [Nat.add]. rewrite decide_False.
  2:{ rewrite list_lookup_middle by done. tauto. }
  do 2 f_equal. rewrite !length_app, !length_cons, !length_app, !length_cons, !length_app. simpl. lia.
Qed.

Lemma ResponseHeader_parseHeaders_print sd g h rest :
  wfResponse (rs_disableNormalizing h) sd g -> emptyBut (set_rs_contentLength (-2) h) ->
  ResponseHeader_StatusCode h = ResponseHeader_StatusCode g ->
  exists h', sameResponse sd g h' /\
    ResponseHeader_parseHeaders h (linesText (responseLines sd g) ++ strCRLF ++ rest) =
    Some (h', length (linesText (responseLines sd g) ++ strCRLF), None,
          linesText (responseLines sd g) ++ strCRLF ++ rest).
Proof.
  intros W He Hst. unfold ResponseHeader_parseHeaders. cbv zeta.
  set (h2 := set_rs_contentLength (-2) h). set (d := rs_disableNormalizing h2).
  pose proof (responseLines_plain d sd g W) as Hp.
  destruct (ResponseHeader_parseLoop_lines (S (length (linesText (responseLines sd g) ++ strCRLF ++ rest)))
              (newHeaderScanner (linesText (responseLines sd g) ++ strCRLF ++ rest) d) h2 (responseLines sd g) rest)
    as (s' & -> & H1 & H2 & H3 & H4); [done|by left|done| |].
  { rewrite length_app. pose proof (linesText_length (responseLines sd g)). lia. }
  cbn [s_disableNormalizing newHeaderScanner s_err s_done s_tail mbind option_bind] in *.
  pose proof (parseResponseLines_all d sd g h2 W He Hst) as S. set (h3 := parseResponseLines d _ h2) in *.
  exists h3. split; [done|]. rewrite H3. destruct (wr_length _ _ _ W) as (_ & Hpos & _).
  pose proof (sr_length _ _ _ S) as Sl. pose proof (sr_http11 _ _ _ S) as S11.
  destruct (Z.ltb_spec (rs_contentLength h3) 0); [lia|]. destruct (Z.eqb_spec (rs_contentLength h3) (-2)); [lia|].
  rewrite S11. cbn [andb]. unfold s_buffer. rewrite H1, H2, H4, app_nil_r, (responseLines_normal d sd g W).
  cbn [app]. rewrite <- app_assoc. do 4 f_equal. rewrite !length_app. lia.
Qed.

(** ** Whole heads *)

(** No response head can crash the client: on every buffer parse returns,
    keeps the length of the buffer, and the byte count lies inside it. *)
Lemma ResponseHeader_parse_total (h : ResponseHeader) (buf : bytes) :
  exists h' n err buf', ResponseHeader_parse h buf = Some (h', n, err, buf') /\
    length buf' = length buf /\ (n <= length buf)%nat.
Proof.
  unfold ResponseHeader_parse. pose proof (ResponseHeader_parseFirstLine_bound h buf) as Hm.
  destruct (ResponseHeader_parseFirstLine h buf) as [[h1 m] [e|]]; simpl in Hm.
  { do 4 eexists. split; [reflexivity|]. split; [done|lia]. }
  destruct (ResponseHeader_parseHeaders_total h1 (drop m buf)) as (h' & n & err & buf' & -> & Hl & Hn).
  rewrite length_drop in Hl, Hn. cbn [mbind option_bind].
  destruct err; do 4 eexists; (split; [reflexivity|]); rewrite length_app, length_take; split; lia.
Qed.

Lemma ResponseHeader_parse_pos h buf h' n buf' : ResponseHeader_parse h buf = Some (h', n, None, buf') -> (0 < n)%nat.
Proof.
  unfold ResponseHeader_parse. destruct (ResponseHeader_parseFirstLine h buf) as [[h1 m] [e|]] eqn:E; [done|].
  assert (0 < m)%nat.
  { revert E. unfold ResponseHeader_parseFirstLine. destruct (firstLineLoop _ _) as [[b bNext]|] eqn:F; [|done].
    apply firstLineLoop_shorter in F. destruct (IndexByte b " ") as [k|]; [|done]. cbv zeta.
    destruct (parseUintBuf _) as [[v j] [e|]]; [done|]. case_decide; [done|]. intros [= _ <-]. lia. }
  destruct (ResponseHeader_parseHeaders_total h1 (drop m buf)) as (h2 & n2 & err & b2 & -> & _ & Hn).
  cbn [mbind option_bind]. destruct err; [done|]. intros [= _ <- _]. lia.
Qed.

(** A printed response head is read back by the client: parse consumes
    exactly the bytes AppendBytes wrote and yields the status, the server, the
    content type, the length, every printed header in order, every cookie under
    its name, and the connection flag. *)
Lemma ResponseHeader_parse_print (serverDate : bytes) (g h0 : ResponseHeader) (rest : bytes)
    (W : wfResponse (rs_disableNormalizing h0) serverDate g) :
  exists text h', ResponseHeader_AppendBytes serverDate g [] = Some text /\
    ResponseHeader_parse (ResponseHeader_resetSkipNormalize h0) (text ++ rest) =
      Some (h', length text, None, text ++ rest) /\
    sameResponse serverDate g h'.
Proof.
  pose proof (wr_status _ _ _ W) as Hs. rewrite ResponseHeader_AppendBytes_lines.
  assert (exists line, statusLine (printedStatus g) = Some line) as [line Hline].
  { unfold printedStatus. destruct (Z.ltb_spec (ResponseHeader_StatusCode g) 0); [lia|].
    destruct (statusLine_shape _ Hs) as (d & s & -> & _). eauto. }
  rewrite Hline. cbn [fmap option_fmap option_map app]. set (block := linesText (responseLines serverDate g)).
  exists (line ++ block ++ strCRLF). unfold ResponseHeader_parse.
  assert ((line ++ block ++ strCRLF) ++ rest = line ++ block ++ strCRLF ++ rest) as -> by (by rewrite <- !app_assoc).
  rewrite (parseFirstLine_status _ g line _ Hs Hline), drop_app_exact, take_app_exact. subst block.
  match goal with |- context [ResponseHeader_parseHeaders ?h _] =>
    destruct (ResponseHeader_parseHeaders_print serverDate g h rest) as (h' & S & ->) end; [exact W|done| |].
  { unfold ResponseHeader_StatusCode at 1. cbn [rs_statusCode set_rs_statusCode]. unfold ResponseHeader_StatusCode.
    destruct (Z.eqb_spec (rs_statusCode g) 0); [done|]. by destruct (Z.eqb_spec (rs_statusCode g) 0). }
  cbn [mbind option_bind]. exists h'. split_and!; [done| |done]. by rewrite <- length_app.
Qed.

Lemma ResponseHeader_parseHeader_normalizing h k v :
  rs_disableNormalizing (ResponseHeader_parseHeader h k v) = rs_disableNormalizing h.
Proof.
  unfold ResponseHeader_parseHeader. cbv zeta. repeat case_decide; repeat case_match; done.
Qed.

Lemma ResponseHeader_parseLoop_prefix kvs fuel s h t :
  Forall plainLine kvs -> map (normLine (s_disableNormalizing s)) kvs = kvs ->
  linesText kvs ++ strCRLF = s_b s ++ t -> t <> [] -> ready s -> (length (s_b s) < fuel)%nat ->
  exists s' h', ResponseHeader_parseLoop fuel s h = Some (s', h') /\ s_err s' = Some errNeedMore /\
    s_buffer s' = s_buffer s /\ rs_disableNormalizing h' = rs_disableNormalizing h.
Proof.
  revert fuel s h. induction kvs as [|kv kvs IH]; intros [|fuel] s h F Hn E Ht Hr Hf; try lia;
    cbn [ResponseHeader_parseLoop];
    destruct (linesText_prefix _ _ _ F E Ht) as [N|(kv2 & kvs2 & q & Ek & Eb & E')]; try done.
  1,2: destruct (headerScanner_next_need s N Hr) as (s' & -> & He & Hb); cbn [mbind option_bind]; eauto 10.
  injection Ek as <- <-. apply Forall_cons in F as [Hk F]. destruct kv as [k v].
  pose proof Hk as (Hk1 & Hk2 & _). cbn [map] in Hn. injection Hn as Hn1 Hn2.
  destruct (headerScanner_next_line s k v q Eb Hr Hk1 Hk2 (noFold_prefix _ _ _ F E')) as (nnl & -> & Hnnl).
  cbn [mbind option_bind].
  match goal with |- context [ResponseHeader_parseLoop fuel ?x ?y] =>
    destruct (IH fuel x y F) as (s' & h' & -> & He & Hb & Hd) end; try done; [by right| |].
  { cbn [s_b]. rewrite Eb, length_app in Hf. unfold headerLine in Hf. rewrite !length_app in Hf. simpl in Hf. lia. }
  do 2 eexists. split; [reflexivity|]. split; [done|]. split.
  - rewrite Hb. unfold s_buffer. cbn [s_done s_b s_tail]. rewrite Eb. unfold headerLine. cbn [fst snd].
    unfold normLine in Hn1. cbn [fst snd] in Hn1. rewrite Hn1. by rewrite <- !app_assoc.
  - by rewrite Hd, ResponseHeader_parseHeader_normalizing.
Qed.

(** A strict prefix of a printed head makes the parser ask for more and leaves
    the buffer as it is (the names are in normal form already). *)
Lemma ResponseHeader_parse_prefix sd g h text p s :
  wfResponse (rs_disableNormalizing h) sd g -> ResponseHeader_AppendBytes sd g [] = Some text ->
  text = p ++ s -> s <> [] ->
  exists h', ResponseHeader_parse h p = Some (h', O, Some errNeedMore, p) /\
    rs_disableNormalizing h' = rs_disableNormalizing h.
Proof.
  intros W E Ep Hs. pose proof (wr_status _ _ _ W) as Hst. rewrite ResponseHeader_AppendBytes_lines in E.
  apply fmap_Some in E as (line & Hline & ->). cbn [app] in Ep.
  assert (exists x, line = x ++ [nChar] /\ (nChar ∉ x)) as (x & -> & Nx).
  { unfold printedStatus in Hline. destruct (Z.ltb_spec (ResponseHeader_StatusCode g) 0); [lia|].
    destruct (statusLine_shape _ Hst) as (d & st & E & Fd & _ & _ & Ns & _). rewrite E in Hline.
    injection Hline as <-. destruct (digits_oneLine d Fd) as [Nd _].
    exists (strHTTP11 ++ (" "%byte :: d ++ (" "%byte :: st ++ [rChar]))). split.
    - rewrite <- !app_assoc, <- !app_comm_cons, <- !app_assoc, <- !app_comm_cons, <- !app_assoc. done.
    - rewrite not_elem_of_app, not_elem_of_cons, not_elem_of_app, not_elem_of_cons, not_elem_of_app.
      split_and!; try done; apply IndexByte_None; reflexivity. }
  destruct (line_prefix x _ p s Nx Ep) as [N|(q & -> & E')].
  - unfold ResponseHeader_parse, ResponseHeader_parseFirstLine. cbn [firstLineLoop]. unfold nextLine.
    apply IndexByte_None in N. rewrite N. eauto.
  - unfold ResponseHeader_parse. rewrite (parseFirstLine_status h g _ q Hst Hline), drop_app_exact, take_app_exact.
    set (h1 := set_rs_statusCode _ _). unfold ResponseHeader_parseHeaders. cbv zeta.
    destruct (ResponseHeader_parseLoop_prefix (responseLines sd g) (S (length q))
                (newHeaderScanner q (rs_disableNormalizing (set_rs_contentLength (-2) h1))) (set_rs_contentLength (-2) h1) s)
      as (s' & h' & -> & He & Hb & Hd); [by eapply responseLines_plain|by eapply responseLines_normal|done|done|by left|cbn; lia|].
    cbn [mbind option_bind]. rewrite He, Hb. unfold s_buffer. simpl. rewrite app_nil_r. eauto.
Qed.

Definition sampleResponse : ResponseHeader :=
  MkResponseHeader false false true false false 404 5 (bs "5") false (bs "text/html") (bs "srv")
    (Kvs [ArgsKV (bs "X-Id") (bs "1, 2") false; ArgsKV strDate (bs "old") false] []) zeroKV
    (Kvs [ArgsKV (bs "sid") (bs "sid=42; path=/") false] []).

Lemma sampleResponse_wf : wfResponse false (bs "Thu, 01 Jan 1970 00:00:00 GMT") sampleResponse.
Proof.
  split.
  - split; vm_compute; congruence.
  - closed_dec.
  - split_and!; [done|vm_compute; congruence|vm_compute; reflexivity].
  - closed_dec.
  - closed_dec.
Qed.

(** * Properties *)

(** A folded header value in a response corrupts the body: parse reports
    the length of the head as it came in, but folding has moved the bytes
    behind it to the left, so the reader takes the body from two bytes too far
    on and finishes it with stale bytes. *)
Lemma ResponseHeader_fold_corrupts_body :
  let head := bs "HTTP/1.1 200 OK" ++ strCRLF ++ bs "Content-Length: 4" ++ strCRLF ++
              bs "X: b" ++ strCRLF ++ bs " c" ++ strCRLF ++ strCRLF in
  exists h n buf, ResponseHeader_parse emptyResponseHeader (head ++ bs "BODY") = Some (h, n, None, buf) /\
    rs_contentLength h = 4 /\ visitArgs (live (rs_h h)) = [(bs "X", bs "b c")] /\
    take 4 (drop n buf) = bs "DYDY".
Proof. do 3 eexists. split_and!; vm_compute; reflexivity. Qed.
