(* ===== verification/Bufio.v ===== *)
(** * The standard library's bufio.Reader and io.Reader, as the source uses them

    A [source] is an underlying io.Reader: the pieces its Read calls will
    return, each given at most as many bytes as are asked for, and the error
    that follows them.  A [reader] is a bufio.Reader on it: the buffered bytes,
    the size of the buffer and the last byte read.  The theorems are stated
    about [stream], all the bytes still to come, so that they hold for every
    way the input is cut into pieces. *)
From Stdlib Require Import Strings.String.
From S2P Require Import Prelude.

Record source := MkSource { src_chunks : list bytes; src_end : error }.

Record reader := MkReader {
  r_buf : bytes;
  r_size : nat;
  r_last : option byte;
  r_src : source
}.

Definition stream (r : reader) : bytes := r_buf r ++ concat (src_chunks (r_src r)).

Definition r_end (r : reader) : error := src_end (r_src r).

(** One Read of the source with room for [k] bytes. *)
Definition srcRead (k : nat) (s : source) : option bytes * source :=
  match src_chunks s with
  | [] => (None, s)
  | c :: cs =>
      if decide (length c <= k)%nat then (Some c, MkSource cs (src_end s))
      else (Some (take k c), MkSource (drop k c :: cs) (src_end s))
  end.

(** ReadByte; an error that the source keeps returning is not stored. *)
Definition ReadByte (r : reader) : (byte + error) * reader :=
  match r_buf r with
  | c :: b => (inl c, MkReader b (r_size r) (Some c) (r_src r))
  | [] =>
      match srcRead (r_size r) (r_src r) with
      | (None, s) => (inr (src_end s), MkReader [] (r_size r) (r_last r) s)
      | (Some [], s) => (inr (Errorf "multiple Read calls return no data or error"), MkReader [] (r_size r) (r_last r) s)
      | (Some (c :: b), s) => (inl c, MkReader b (r_size r) (Some c) s)
      end
  end.

Definition UnreadByte (r : reader) : option error * reader :=
  match r_last r with
  | None => (Some (Errorf "bufio: invalid use of UnreadByte"), r)
  | Some c => (None, MkReader (c :: r_buf r) (r_size r) None (r_src r))
  end.

(** [k > 0] bytes at most: from the buffer, else by one Read of the source,
    straight into the caller's slice if that is larger than the buffer. *)
Definition bufRead (r : reader) (k : nat) : (bytes + error) * reader :=
  match r_buf r with
  | [] =>
      if Nat.leb (r_size r) k then
        match srcRead k (r_src r) with
        | (None, s) => (inr (src_end s), MkReader [] (r_size r) (r_last r) s)
        | (Some p, s) => (inl p, MkReader [] (r_size r) (last p) s)
        end
      else
        match srcRead (r_size r) (r_src r) with
        | (None, s) => (inr (src_end s), MkReader [] (r_size r) (r_last r) s)
        | (Some b, s) => (inl (take k b), MkReader (drop k b) (r_size r) (last (take k b)) s)
        end
  | b => (inl (take k b), MkReader (drop k b) (r_size r) (last (take k b)) (r_src r))
  end.

(** The loop of Peek: reads while fewer than [n] bytes are buffered and the
    buffer has room. *)
Fixpoint peekFill (n size : nat) (buf : bytes) (src : list bytes) : bytes * list bytes :=
  match src with
  | [] => (buf, [])
  | c :: cs =>
      if decide (length buf < n /\ length buf < size)%nat then
        let k := (size - length buf)%nat in
        if decide (length c <= k)%nat then peekFill n size (buf ++ c) cs
        else (buf ++ take k c, drop k c :: cs)
      else (buf, c :: cs)
  end.

Definition Peek (r : reader) (n : nat) : bytes * option error * reader :=
  let '(buf, src) := peekFill n (r_size r) (r_buf r) (src_chunks (r_src r)) in
  let r' := MkReader buf (r_size r) None (MkSource src (r_end r)) in
  if Nat.ltb (r_size r) n then (buf, Some ErrBufferFull, r')
  else if Nat.ltb (length buf) n then (buf, Some (r_end r), r')
  else (take n buf, None, r').

Definition Buffered (r : reader) : nat := length (r_buf r).

(** The loop of Discard; a read of the source that returns something shortens
    it, so its length is enough fuel.  [None] in the end is an error. *)
Fixpoint discardLoop (fuel : nat) (n : Z) (size : nat) (buf : bytes) (s : source) : bytes * source * bool :=
  if n <=? zlen buf then (drop (Z.to_nat n) buf, s, true)
  else
    match fuel with
    | O => ([], s, false)
    | S fuel' =>
        match srcRead size s with
        | (None, s) => ([], s, false)
        | (Some p, s) => discardLoop fuel' (n - zlen buf) size p s
        end
    end.

Definition Discard (r : reader) (n : Z) : option error * reader :=
  if n <? 0 then (Some (Errorf "bufio: negative count"), r)
  else
    let '(buf, s, ok) := discardLoop (S (length (concat (src_chunks (r_src r))))) n (r_size r) (r_buf r) (r_src r) in
    (if ok : bool then None else Some (r_end r), MkReader buf (r_size r) None s).

(** ** Laws *)

(** Every Read of the source makes progress, and the buffer has room. *)
Record wfReader (r : reader) : Prop := {
  wfr_src : Forall (fun c => c <> []) (src_chunks (r_src r));
  wfr_size : (0 < r_size r)%nat;
  wfr_buf : (length (r_buf r) <= r_size r)%nat
}.

(** What all operations keep. *)
Definition sameSource (r r' : reader) : Prop := r_end r' = r_end r /\ r_size r' = r_size r /\ wfReader r'.

Lemma srcRead_spec k s :
  Forall (fun c => c <> []) (src_chunks s) -> (0 < k)%nat ->
  match concat (src_chunks s) with
  | [] => srcRead k s = (None, s)
  | _ => exists p s', srcRead k s = (Some p, s') /\ p <> [] /\ (length p <= k)%nat /\
           concat (src_chunks s) = p ++ concat (src_chunks s') /\ src_end s' = src_end s /\
           Forall (fun c => c <> []) (src_chunks s')
  end.
Proof.
  intros F Hk. unfold srcRead. destruct s as [[|c cs] e]; simpl in *; [done|].
  apply Forall_cons in F as [Hc F]. destruct (c ++ concat cs) eqn:E; [by apply app_eq_nil in E as [-> _]|].
  rewrite <- E. clear E. case_decide as D; simpl.
  - exists c, (MkSource cs e). by split_and!.
  - exists (take k c), (MkSource (drop k c :: cs) e). simpl. rewrite length_take, app_assoc, take_drop.
    split_and!; try done; [destruct c, k; simpl in *; try done; lia|lia|].
    constructor; [|done]. intros E. apply (f_equal length) in E. rewrite length_drop in E. simpl in E. lia.
Qed.

Lemma wfReader_src r buf last s :
  wfReader r -> Forall (fun c => c <> []) (src_chunks s) -> src_end s = r_end r -> (length buf <= r_size r)%nat ->
  sameSource r (MkReader buf (r_size r) last s).
Proof. intros [F Hz Hb] Fs He Hl. split_and!; [done|done|]. by split. Qed.

Lemma ReadByte_spec r :
  wfReader r ->
  match stream r with
  | [] => exists r', ReadByte r = (inr (r_end r), r') /\ stream r' = [] /\ sameSource r r'
  | c :: s => exists r', ReadByte r = (inl c, r') /\ stream r' = s /\ sameSource r r' /\
      exists r2, UnreadByte r' = (None, r2) /\ stream r2 = c :: s /\ sameSource r r2
  end.
Proof.
  intros W. pose proof W as [F Hz Hb]. unfold stream, ReadByte. destruct (r_buf r) as [|c b] eqn:Eb; simpl.
  - pose proof (srcRead_spec (r_size r) (r_src r) F Hz) as S.
    destruct (concat (src_chunks (r_src r))) as [|c s] eqn:Es.
    + rewrite S. eexists. split; [reflexivity|]. split; [exact Es|]. apply wfReader_src; simpl; [done..|lia].
    + destruct S as (p & s' & -> & Hp & Hl & E & He & F'). destruct p as [|c' p]; [done|].
      simpl in E. injection E as <- ->. simpl in Hl.
      eexists. split; [reflexivity|]. split; [done|]. split; [apply wfReader_src; simpl; [done..|lia]|].
      eexists. split; [reflexivity|]. split; [done|]. cbn. apply (wfReader_src r); simpl; [done..|lia].
  - simpl in Hb. eexists. split; [reflexivity|]. split; [done|]. split; [apply wfReader_src; simpl; [done..|lia]|].
    eexists. split; [reflexivity|]. split; [done|]. cbn. apply (wfReader_src r); simpl; [done..|lia].
Qed.

Lemma bufRead_spec r k :
  wfReader r -> (0 < k)%nat ->
  match stream r with
  | [] => exists r', bufRead r k = (inr (r_end r), r') /\ stream r' = [] /\ sameSource r r'
  | _ => exists p r', bufRead r k = (inl p, r') /\ p <> [] /\ (length p <= k)%nat /\
      stream r = p ++ stream r' /\ sameSource r r'
  end.
Proof.
  intros W Hk. pose proof W as [F Hz Hb]. unfold stream, bufRead. destruct (r_buf r) as [|c b] eqn:Eb; cbn [app].
  - destruct (Nat.leb_spec (r_size r) k) as [L|L].
    + pose proof (srcRead_spec k (r_src r) F Hk) as S.
      destruct (concat (src_chunks (r_src r))) as [|c s] eqn:Es.
      * rewrite S. eexists. split; [reflexivity|]. split; [exact Es|]. apply wfReader_src; simpl; [done..|lia].
      * destruct S as (p & s' & -> & Hp & Hl & -> & He & F').
        do 2 eexists. split; [reflexivity|]. split_and!; [done..|]. apply wfReader_src; simpl; [done..|lia].
    + pose proof (srcRead_spec (r_size r) (r_src r) F Hz) as S.
      destruct (concat (src_chunks (r_src r))) as [|c s] eqn:Es.
      * rewrite S. eexists. split; [reflexivity|]. split; [exact Es|]. apply wfReader_src; simpl; [done..|lia].
      * destruct S as (p & s' & -> & Hp & Hl & -> & He & F').
        do 2 eexists. split; [reflexivity|]. simpl. rewrite app_assoc, take_drop. split_and!; try done.
        -- by destruct p, k; try done; lia.
        -- rewrite length_take. lia.
        -- apply wfReader_src; simpl; [done..|]. rewrite length_drop. lia.
  - do 2 eexists. split; [reflexivity|]. simpl r_buf. simpl r_src. rewrite app_assoc, take_drop. split_and!; try done.
    + by destruct k; try done; lia.
    + rewrite length_take. lia.
    + apply wfReader_src; [done..|]. rewrite length_drop. lia.
Qed.

Lemma peekFill_spec n size buf src buf' src' :
  Forall (fun c => c <> []) src -> (length buf <= size)%nat -> peekFill n size buf src = (buf', src') ->
  (exists l, buf' = buf ++ l) /\ buf' ++ concat src' = buf ++ concat src /\ (length buf' <= size)%nat /\
  Forall (fun c => c <> []) src' /\ ((n <= length buf')%nat \/ length buf' = size \/ src' = []).
Proof.
  revert buf. induction src as [|c cs IH]; intros buf F Hb; cbn [peekFill].
  - intros [= <- <-]. split_and!; try done; [exists []; by rewrite app_nil_r|tauto].
  - pose proof F as F0. apply Forall_cons in F as [Hc F]. case_decide as D; [cbv zeta; case_decide as L|].
    + intros E. destruct (IH (buf ++ c) F ltac:(rewrite length_app; lia) E) as ((l & ->) & E2 & H).
      split; [exists (c ++ l); by rewrite app_assoc|]. split; [|done]. rewrite E2. simpl. by rewrite <- app_assoc.
    + intros [= <- <-]. split; [eauto|]. simpl. rewrite <- app_assoc, (app_assoc (take _ _)), take_drop.
      rewrite length_app, length_take. split_and!; [done|lia| |right; left; lia].
      constructor; [|done]. intros E. apply (f_equal length) in E. rewrite length_drop in E. simpl in E. lia.
    + intros [= <- <-]. split_and!; try done; [exists []; by rewrite app_nil_r|lia].
Qed.

(** Peek only moves bytes into the buffer; it succeeds when the bytes are
    there and fit. *)
Lemma Peek_spec r n :
  wfReader r ->
  exists b err r', Peek r n = (b, err, r') /\ stream r' = stream r /\ sameSource r r' /\
    (exists l, r_buf r' = r_buf r ++ l) /\ r_last r' = None /\ (exists l, r_buf r' = b ++ l) /\
    match err with
    | None => b = take n (stream r) /\ (n <= length (r_buf r'))%nat
    | Some e => b = r_buf r' /\ ((r_size r < n)%nat /\ e = ErrBufferFull \/
                  (n <= r_size r)%nat /\ b = stream r /\ e = r_end r /\ (length b < n)%nat)
    end.
Proof.
  intros W. pose proof W as [F Hz Hb]. unfold Peek.
  destruct (peekFill n (r_size r) (r_buf r) (src_chunks (r_src r))) as [buf src] eqn:E.
  destruct (peekFill_spec _ _ _ _ _ _ F Hb E) as (Hx & Hs & Hl & F' & Hd).
  assert (sameSource r (MkReader buf (r_size r) None (MkSource src (r_end r)))) as S by (apply wfReader_src; done).
  assert (stream (MkReader buf (r_size r) None (MkSource src (r_end r))) = stream r) as St by done.
  destruct (Nat.ltb_spec (r_size r) n) as [L|L]; [|destruct (Nat.ltb_spec (length buf) n) as [L2|L2]].
  - do 3 eexists. split; [reflexivity|]. split_and!; try done; [exists []; by rewrite app_nil_r|]. tauto.
  - do 3 eexists. split; [reflexivity|]. split_and!; try done; [exists []; by rewrite app_nil_r|].
    right. split_and!; try done. destruct Hd as [?|[?| ->]]; [lia|lia|]. rewrite <- St. unfold stream. simpl.
    by rewrite app_nil_r.
  - do 3 eexists. split; [reflexivity|]. split_and!; try done.
    + exists (drop n buf). simpl. by rewrite take_drop.
    + unfold stream. rewrite <- Hs, take_app_le by lia. done.
Qed.

Lemma Discard_buffered r n :
  wfReader r -> 0 <= n <= zlen (r_buf r) ->
  exists r', Discard r n = (None, r') /\ stream r' = drop (Z.to_nat n) (stream r) /\ sameSource r r'.
Proof.
  intros W Hn. pose proof W as [F Hz Hb]. unfold Discard. destruct (Z.ltb_spec n 0); [lia|]. cbn [discardLoop].
  destruct (Z.leb_spec n (zlen (r_buf r))); [|lia]. eexists. split; [reflexivity|].
  split; [unfold stream; simpl; rewrite drop_app_le by lia; done|].
  apply wfReader_src; [done..|]. rewrite length_drop. lia.
Qed.

(** A reader on which nothing has been read yet (bufio.NewReaderSize). *)
Definition newReader (size : nat) (s : source) : reader := MkReader [] size None s.

Lemma newReader_wf size s : (0 < size)%nat -> Forall (fun c => c <> []) (src_chunks s) -> wfReader (newReader size s).
Proof. intros. split; simpl; [done|done|lia]. Qed.

(** ** Progress *)

Lemma sameSource_trans r1 r2 r3 : sameSource r1 r2 -> sameSource r2 r3 -> sameSource r1 r3.
Proof. intros (? & ? & ?) (? & ? & ?). split_and!; [congruence..|done]. Qed.

Lemma sameSource_wf r r' : sameSource r r' -> wfReader r'.
Proof. by intros (_ & _ & ?). Qed.

Lemma sameSource_end r r' : sameSource r r' -> r_end r' = r_end r.
Proof. by intros (? & _ & _). Qed.

#[export] Hint Resolve sameSource_trans sameSource_wf sameSource_end : gobytes.

(** The reader moved forward (strictly when [strict]). *)
Definition advanced (strict : bool) (r r' : reader) : Prop :=
  sameSource r r' /\ (length (stream r') + (if strict then 1 else 0) <= length (stream r))%nat.

Lemma advanced_trans b r1 r2 r3 : advanced b r1 r2 -> advanced false r2 r3 -> advanced b r1 r3.
Proof. intros [S1 L1] [S2 L2]. split; [eauto with gobytes|destruct b; lia]. Qed.

Lemma advanced_weaken b r1 r2 : advanced b r1 r2 -> advanced false r1 r2.
Proof. intros [S1 L1]. split; [done|destruct b; lia]. Qed.

Lemma advanced_wf b r1 r2 : advanced b r1 r2 -> wfReader r2.
Proof. intros [S _]. eauto with gobytes. Qed.

#[export] Hint Resolve advanced_trans advanced_weaken advanced_wf : gobytes.

Lemma ReadByte_total r :
  wfReader r ->
  (exists r', ReadByte r = (inr (r_end r), r') /\ advanced false r r') \/
  (exists c r' r2, ReadByte r = (inl c, r') /\ advanced true r r' /\ UnreadByte r' = (None, r2) /\ advanced false r r2).
Proof.
  intros W. pose proof (ReadByte_spec r W) as S. destruct (stream r) as [|c s] eqn:E.
  - left. destruct S as (r' & -> & E' & S). exists r'. split; [done|]. split; [done|]. rewrite E'. simpl. lia.
  - right. destruct S as (r' & -> & E' & S & r2 & Eu & E2 & S2). exists c, r', r2.
    split_and!; [done|split; [done|rewrite E, E'; simpl; lia]|done|split; [done|rewrite E, E2; simpl; lia]].
Qed.
