(* ===== verification/Body.v ===== *)
(** * http.go: message bodies

    Reading a body of known length, a chunked body and a body that ends with
    the connection, from a [reader]; writing chunks.  A [slice] carries its
    capacity, because the growth of the buffer (round2, 32-bit arithmetic)
    decides whether reslicing panics.  A bufio.Writer is the bytes written so
    far: its errors are those of the connection and are not modelled. *)
From Stdlib Require Import Strings.String.
From S2P Require Import Prelude BytesConv Consts HeaderScan Bufio.

Record slice := MkSlice { sl : bytes; sl_cap : Z }.

(** ** Hexadecimal chunk sizes (bytesconv.go) *)

Definition maxHexIntChars : nat := 15.

(** The loop of readHexInt; [more] is [maxHexIntChars - i]. *)
Fixpoint readHexLoop (more : nat) (r : reader) (n : Z) : Z * option error * reader :=
  match ReadByte r with
  | (inr err, r) =>
      if decide (err = EOF /\ (more < maxHexIntChars)%nat) then (n, None, r) else (-1, Some err, r)
  | (inl c, r) =>
      let k := bz (tbl hex2intTable c) in
      if k =? 16 then
        if decide (more = maxHexIntChars) then (-1, Some errEmptyHexNum, r)
        else
          match UnreadByte r with
          | (Some err, r) => (-1, Some err, r)
          | (None, r) => (n, None, r)
          end
      else
        match more with
        | O => (-1, Some errTooLargeHexNum, r)
        | S more => readHexLoop more r (int64 (Z.lor (int64 (Z.shiftl n 4)) k))
        end
  end.

Definition readHexInt (r : reader) : Z * option error * reader := readHexLoop maxHexIntChars r 0.

(** The loop of writeHexInt; [i] places are left in the 16-byte buffer.  The
    digits are put in front of [buf]; [None] is an index panic. *)
Fixpoint writeHexLoop (i : nat) (n : Z) (buf : bytes) : option bytes :=
  match i with
  | O => None
  | S i =>
      let buf := hexchar lowerhex (Z.land n 15) :: buf in
      let n := Z.shiftr n 4 in
      if n =? 0 then Some buf else writeHexLoop i n buf
  end.

Definition writeHexInt (w : bytes) (n : Z) : option bytes :=
  if n <? 0 then None else d ← writeHexLoop (maxHexIntChars + 1) n []; Some (w ++ d).

(** ** Growing the buffer *)

Definition round2 (n : Z) : Z :=
  if n <=? 0 then 0
  else
    let x := uint32 (n - 1) in
    let x := Z.lor x (Z.shiftr x 1) in
    let x := Z.lor x (Z.shiftr x 2) in
    let x := Z.lor x (Z.shiftr x 4) in
    let x := Z.lor x (Z.shiftr x 8) in
    let x := Z.lor x (Z.shiftr x 16) in
    uint32 (x + 1).

(** ** Bodies of known length *)

(** The loop of appendBodyFixedSize: [got] is [dst[:offset]].  Every round
    takes a byte of the stream, so its length is enough fuel; [None] is a
    panic. *)
Fixpoint fixedLoop (fuel : nat) (r : reader) (got : bytes) (dstLen : Z) : option (reader * bytes * option error) :=
  match fuel with
  | O => None
  | S fuel' =>
      match bufRead r (Z.to_nat (dstLen - zlen got)) with
      | (inr err, r) => Some (r, got, Some (if decide (err = EOF) then ErrUnexpectedEOF else err))
      | (inl p, r) =>
          if decide (p = []) then None
          else
            let got := got ++ p in
            if zlen got =? dstLen then Some (r, got, None) else fixedLoop fuel' r got dstLen
      end
  end.

Definition appendBodyFixedSize (r : reader) (dst : slice) (n : Z) : option (reader * slice * option error) :=
  if n =? 0 then Some (r, dst, None)
  else
    let dstLen := int64 (zlen (sl dst) + n) in
    let cap := if sl_cap dst <? dstLen then round2 dstLen else sl_cap dst in
    if (dstLen <? zlen (sl dst)) || (cap <? dstLen) then None
    else
      '(r, got, err) ← fixedLoop (S (length (stream r))) r (sl dst) dstLen;
      Some (r, MkSlice got cap, err).

(** ** Bodies that end with the connection *)

(** The loop of readBodyIdentity: [got] is [dst[:offset]] and [size] is
    [len(dst)]. *)
Fixpoint identityLoop (fuel : nat) (r : reader) (maxBodySize : Z) (got : bytes) (size : Z)
  : option (reader * slice * option error) :=
  match fuel with
  | O => None
  | S fuel' =>
      if size <? zlen got then None
      else
        match bufRead r (Z.to_nat (size - zlen got)) with
        | (inr err, r) => Some (r, MkSlice got size, if decide (err = EOF) then None else Some err)
        | (inl p, r) =>
            if decide (p = []) then None
            else
              let got := got ++ p in
              let offset := zlen got in
              if (0 <? maxBodySize) && (maxBodySize <? offset) then Some (r, MkSlice got size, Some ErrBodyTooLarge)
              else if size =? offset then
                let n := round2 (int64 (2 * offset)) in
                let n := if (0 <? maxBodySize) && (maxBodySize <? n) then maxBodySize + 1 else n in
                identityLoop fuel' r maxBodySize got n
              else identityLoop fuel' r maxBodySize got size
        end
  end.

Definition readBodyIdentity (r : reader) (maxBodySize : Z) (dst : slice) : option (reader * slice * option error) :=
  let size := if sl_cap dst =? 0 then 1024 else sl_cap dst in
  identityLoop (S (length (stream r))) r maxBodySize [] size.

(** ** Chunked bodies *)

Fixpoint readCrLfLoop (exps : bytes) (r : reader) : option error * reader :=
  match exps with
  | [] => (None, r)
  | exp :: exps =>
      match ReadByte r with
      | (inr _, r) => (Some (ErrBrokenChunk "cannot read %q char at the end of chunk size: %s"), r)
      | (inl c, r) =>
          if decide (c <> exp) then (Some (ErrBrokenChunk "unexpected char %q at the end of chunk size. Expected %q"), r)
          else readCrLfLoop exps r
      end
  end.

Definition readCrLf (r : reader) : option error * reader := readCrLfLoop [rChar; nChar] r.

(** The loop of parseChunkSize over the blanks; a round takes a byte. *)
Fixpoint skipBlanks (fuel : nat) (r : reader) : option error * reader :=
  match fuel with
  | O => (Some errNeedMore, r)
  | S fuel' =>
      match ReadByte r with
      | (inr _, r) => (Some (ErrBrokenChunk "cannot read '\r' char at the end of chunk size: %s"), r)
      | (inl c, r) =>
          if decide (c = " "%byte) then skipBlanks fuel' r
          else
            match UnreadByte r with
            | (Some _, r) => (Some (ErrBrokenChunk "cannot unread '\r' char at the end of chunk size: %s"), r)
            | (None, r) => (None, r)
            end
      end
  end.

Definition parseChunkSize (r : reader) : Z * option error * reader :=
  match readHexInt r with
  | (_, Some err, r) => (-1, Some err, r)
  | (n, None, r) =>
      match skipBlanks (S (length (stream r))) r with
      | (Some err, r) => (-1, Some err, r)
      | (None, r) =>
          match readCrLf r with
          | (Some err, r) => (-1, Some err, r)
          | (None, r) => (n, None, r)
          end
      end
  end.

(** The loop of readBodyChunked; a chunk takes at least its size digit. *)
Fixpoint chunkedLoop (fuel : nat) (r : reader) (maxBodySize : Z) (dst : slice)
  : option (reader * slice * option error) :=
  match fuel with
  | O => None
  | S fuel' =>
      match parseChunkSize r with
      | (_, Some err, r) => Some (r, dst, Some err)
      | (chunkSize, None, r) =>
          if (0 <? maxBodySize) && (maxBodySize <? int64 (zlen (sl dst) + chunkSize))
          then Some (r, dst, Some ErrBodyTooLarge)
          else
            '(r, dst, err) ← appendBodyFixedSize r dst (chunkSize + zlen strCRLF);
            match err with
            | Some err => Some (r, dst, Some err)
            | None =>
                let n := (length (sl dst) - length strCRLF)%nat in
                if decide (drop n (sl dst) <> strCRLF)
                then Some (r, dst, Some (ErrBrokenChunk "cannot find crlf at the end of chunk"))
                else
                  let dst := MkSlice (take n (sl dst)) (sl_cap dst) in
                  if chunkSize =? 0 then Some (r, dst, None) else chunkedLoop fuel' r maxBodySize dst
            end
      end
  end.

Definition readBodyChunked (r : reader) (maxBodySize : Z) (dst : slice) : option (reader * slice * option error) :=
  if decide (sl dst <> []) then None else chunkedLoop (S (length (stream r))) r maxBodySize dst.

(** ** Any body *)

Definition readBody (r : reader) (contentLength maxBodySize : Z) (dst : slice) : option (reader * slice * option error) :=
  let dst := MkSlice [] (sl_cap dst) in
  if 0 <=? contentLength then
    if (0 <? maxBodySize) && (maxBodySize <? contentLength) then Some (r, dst, Some ErrBodyTooLarge)
    else appendBodyFixedSize r dst contentLength
  else if contentLength =? -1 then readBodyChunked r maxBodySize dst
  else readBodyIdentity r maxBodySize dst.

(** The prefix of the body that is read before the handler of a streaming
    server starts. *)
Definition readBodyWithStreaming (r : reader) (contentLength maxBodySize : Z) (dst : slice)
  : option (reader * slice * option error) :=
  if contentLength =? -1 then Some (r, MkSlice [] 0, Some errChunkedStream)
  else
    let dst := MkSlice [] (sl_cap dst) in
    let readN := if contentLength <? maxBodySize then contentLength else maxBodySize in
    let readN := if 8 * 1024 <? readN then 8 * 1024 else readN in
    '(r, b, err) ←
      (if (0 <=? contentLength) && (contentLength <=? maxBodySize) then appendBodyFixedSize r dst readN
       else readBodyIdentity r readN dst);
    match err with
    | Some err => Some (r, b, Some err)
    | None => if maxBodySize <? contentLength then Some (r, b, Some ErrBodyTooLarge) else Some (r, b, None)
    end.

(** ** Writing *)

Definition writeChunk (w b : bytes) : option bytes :=
  w ← writeHexInt w (zlen b); Some (w ++ strCRLF ++ b ++ strCRLF).

(** writeBodyChunked from the stream [r] given by what its Read calls return:
    what is written and the error, or [None] for a panic, which a Read that
    returns no bytes and no error causes. *)
Fixpoint writeChunksLoop (w : bytes) (chunks : list bytes) (err : error) : bytes * option (option error) :=
  match chunks with
  | [] =>
      if decide (err = EOF) then
        match writeChunk w [] with None => (w, None) | Some w => (w, Some None) end
      else (w, Some (Some err))
  | [] :: _ => (w, None)
  | b :: chunks => match writeChunk w b with None => (w, None) | Some w => writeChunksLoop w chunks err end
  end.

Definition writeBodyChunked (w : bytes) (r : source) : bytes * option (option error) :=
  writeChunksLoop w (src_chunks r) (src_end r).

(** ** round2 *)

Lemma Zland_le a b : 0 <= a -> 0 <= b -> Z.land a b <= b.
Proof.
  intros Ha Hb. rewrite <- (Z2N.id a), <- (Z2N.id b), <- N2Z.inj_land by done. apply N2Z.inj_le, N.land_le_r.
Qed.

Lemma lor_lt_pow2 a b n : 0 <= n -> 0 <= a < 2 ^ n -> 0 <= b < 2 ^ n -> Z.lor a b < 2 ^ n.
Proof.
  intros Hn Ha Hb. rewrite <- (Z.mod_small a (2 ^ n)), <- (Z.mod_small b (2 ^ n)) by done.
  rewrite <- !Z.land_ones, <- Z.land_lor_distr_l, Z.land_ones by lia.
  apply Z.mod_pos_bound. lia.
Qed.

Lemma shiftr_le x k : 0 <= x -> 0 <= k -> 0 <= Z.shiftr x k <= x.
Proof.
  intros Hx Hk. rewrite Z.shiftr_div_pow2 by lia. pose proof (Z.pow_pos_nonneg 2 k).
  split; [apply Z.div_pos; lia|]. apply Z.div_le_upper_bound; nia.
Qed.

Lemma lor_bounds x k n : 0 <= n -> 0 <= x < 2 ^ n -> 0 <= k -> x <= Z.lor x (Z.shiftr x k) < 2 ^ n.
Proof.
  intros Hn Hx Hk. pose proof (shiftr_le x k ltac:(lia) Hk). split; [|apply lor_lt_pow2; lia].
  assert (x = Z.land x (Z.lor x (Z.shiftr x k))) as E.
  { apply Z.bits_inj'. intros i Hi. rewrite Z.land_spec, Z.lor_spec. by destruct (Z.testbit x i). }
  rewrite E at 1. apply Zland_le; [|apply Z.lor_nonneg]; lia.
Qed.

Lemma round2_ge n : 0 <= n <= 2 ^ 31 -> n <= round2 n.
Proof.
  intros Hn. unfold round2. destruct (Z.leb_spec n 0); [lia|]. assert (uint32 (n - 1) = n - 1) as -> by (apply Z.mod_small; lia). cbv zeta.
  set (x0 := n - 1). assert (n - 1 <= x0 < 2 ^ 31) as H0 by lia. clearbody x0.
  assert (forall x k, n - 1 <= x < 2 ^ 31 -> 0 <= k -> n - 1 <= Z.lor x (Z.shiftr x k) < 2 ^ 31) as S.
  { intros x k Hx Hk. pose proof (lor_bounds x k 31 ltac:(lia) ltac:(lia) Hk). lia. }
  match goal with |- _ <= uint32 (?y + 1) => assert (n - 1 <= y < 2 ^ 31) as Hy end.
  { do 5 (apply S; [|lia]). done. }
  unfold uint32. rewrite Z.mod_small by lia. lia.
Qed.

(** A run of ones at the top doubles. *)
Lemma smear x k :
  (forall i, 32 - k <= i < 32 -> Z.testbit x i = true) -> 0 < k ->
  forall i, 0 <= i -> 32 - 2 * k <= i < 32 -> Z.testbit (Z.lor x (Z.shiftr x k)) i = true.
Proof.
  intros H Hk i Hi Hr. rewrite Z.lor_spec, Z.shiftr_spec by done. apply orb_true_iff.
  destruct (decide (32 - k <= i)); [left; apply H; lia|right; apply H; lia].
Qed.

(** 32-bit arithmetic: above 2^31 the rounded size is smaller than the size. *)
Lemma round2_small n : 2 ^ 31 < n -> round2 n < n.
Proof.
  intros Hn. unfold round2. destruct (Z.leb_spec n 0); [lia|].
  destruct (decide (2 ^ 32 <= n)).
  { cbv zeta. unfold uint32 at 1. match goal with |- ?y mod _ < _ => pose proof (Z.mod_pos_bound y (2 ^ 32)) end. lia. }
  assert (uint32 (n - 1) = n - 1) as -> by (apply Z.mod_small; lia). cbv zeta. set (x0 := n - 1).
  assert (2 ^ 31 <= x0 < 2 ^ 32) as H0 by lia. clearbody x0.
  assert (forall i, 32 - 1 <= i < 32 -> Z.testbit x0 i = true) as T0.
  { intros i Hi. assert (i = 31) as -> by lia. apply Z.testbit_true; [lia|].
    assert (x0 / 2 ^ 31 = 1) as ->; [|done]. symmetry. apply Z.div_unique with (x0 - 2 ^ 31); lia. }
  set (x1 := Z.lor x0 (Z.shiftr x0 1)). pose proof (lor_bounds x0 1 32 ltac:(lia) ltac:(lia) ltac:(lia)) as B1. fold x1 in B1.
  assert (forall i, 32 - 2 <= i < 32 -> Z.testbit x1 i = true) as T1 by (intros; apply smear; [done|lia..]). clearbody x1.
  set (x2 := Z.lor x1 (Z.shiftr x1 2)). pose proof (lor_bounds x1 2 32 ltac:(lia) ltac:(lia) ltac:(lia)) as B2. fold x2 in B2.
  assert (forall i, 32 - 4 <= i < 32 -> Z.testbit x2 i = true) as T2 by (intros; apply smear; [done|lia..]). clearbody x2.
  set (x3 := Z.lor x2 (Z.shiftr x2 4)). pose proof (lor_bounds x2 4 32 ltac:(lia) ltac:(lia) ltac:(lia)) as B3. fold x3 in B3.
  assert (forall i, 32 - 8 <= i < 32 -> Z.testbit x3 i = true) as T3 by (intros; apply smear; [done|lia..]). clearbody x3.
  set (x4 := Z.lor x3 (Z.shiftr x3 8)). pose proof (lor_bounds x3 8 32 ltac:(lia) ltac:(lia) ltac:(lia)) as B4. fold x4 in B4.
  assert (forall i, 32 - 16 <= i < 32 -> Z.testbit x4 i = true) as T4 by (intros; apply smear; [done|lia..]). clearbody x4.
  set (x5 := Z.lor x4 (Z.shiftr x4 16)). pose proof (lor_bounds x4 16 32 ltac:(lia) ltac:(lia) ltac:(lia)) as B5. fold x5 in B5.
  assert (forall i, 32 - 32 <= i < 32 -> Z.testbit x5 i = true) as T5 by (intros; apply smear; [done|lia..]). clearbody x5.
  assert (x5 = Z.ones 32) as ->; [|unfold uint32; change ((Z.ones 32 + 1) mod 2 ^ 32) with 0; lia].
  assert (x5 = x5 mod 2 ^ 32) as -> by (symmetry; apply Z.mod_small; lia). rewrite <- Z.land_ones by lia.
  apply Z.bits_inj'. intros i Hi. rewrite Z.land_spec. destruct (decide (i < 32)).
  - rewrite Z.ones_spec_low by lia. rewrite T5 by lia. done.
  - rewrite Z.ones_spec_high by lia. apply andb_false_r.
Qed.

(** ** Fixed size *)

Definition eofError (e : error) : error := if decide (e = EOF) then ErrUnexpectedEOF else e.

Lemma fixedLoop_spec fuel r got m :
  wfReader r -> (0 < m)%nat -> (length (stream r) < fuel)%nat ->
  exists r', fixedLoop fuel r got (zlen got + Z.of_nat m) =
      Some (r', got ++ take m (stream r),
            if decide (m <= length (stream r))%nat then None else Some (eofError (r_end r))) /\
    stream r' = drop m (stream r) /\ sameSource r r'.
Proof.
  revert r got m. induction fuel as [|fuel IH]; intros r got m W Hm Hf; [lia|]. cbn [fixedLoop].
  assert (Z.to_nat (zlen got + Z.of_nat m - zlen got) = m) as -> by lia.
  pose proof (bufRead_spec r m W Hm) as S. destruct (stream r) as [|c s] eqn:Es.
  - destruct S as (r' & -> & E & Hs). exists r'. rewrite (decide_False (P := (m <= length [])%nat)) by (simpl; lia).
    rewrite take_nil, drop_nil, app_nil_r. done.
  - destruct S as (p & r' & -> & Hp & Hl & E & Hs). rewrite E in *. rewrite decide_False by done. cbv zeta.
    assert (0 < length p)%nat by (destruct p; [done|simpl; lia]). rewrite !length_app in *.
    destruct (Z.eqb_spec (Z.of_nat (length got + length p)) (zlen got + Z.of_nat m)) as [D|D].
    + assert (length p = m) as <- by lia. exists r'. rewrite decide_True by lia.
      rewrite take_app_exact, drop_app_exact. done.
    + destruct (IH r' (got ++ p) (m - length p)%nat) as (r3 & E3 & H3 & S3); [eauto with gobytes|lia|lia|].
      exists r3. assert (zlen (got ++ p) + Z.of_nat (m - length p) = zlen got + Z.of_nat m) as F
        by (rewrite length_app; lia). rewrite F in E3. rewrite E3, (sameSource_end _ _ Hs). split_and!; [|..|by eauto with gobytes].
      * rewrite take_app_ge, app_assoc by lia. repeat case_decide; done || lia.
      * by rewrite H3, drop_app_ge by lia.
Qed.

Lemma appendBodyFixedSize_spec r dst m :
  wfReader r -> zlen (sl dst) + Z.of_nat m <= 2 ^ 31 ->
  exists r' cap, appendBodyFixedSize r dst (Z.of_nat m) =
      Some (r', MkSlice (sl dst ++ take m (stream r)) cap,
            if decide (m <= length (stream r))%nat then None else Some (eofError (r_end r))) /\
    stream r' = drop m (stream r) /\ sameSource r r'.
Proof.
  intros W Hn. unfold appendBodyFixedSize. destruct (Z.eqb_spec (Z.of_nat m) 0) as [E|E].
  { assert (m = O) as -> by lia. exists r, (sl_cap dst). rewrite decide_True by lia. rewrite take_0, app_nil_r.
    split_and!; [by destruct dst|done..]. }
  rewrite int64_small by (unfold maxInt; lia). cbv zeta.
  destruct (Z.ltb_spec (zlen (sl dst) + Z.of_nat m) (zlen (sl dst))); [lia|].
  assert (((if sl_cap dst <? zlen (sl dst) + Z.of_nat m then round2 (zlen (sl dst) + Z.of_nat m) else sl_cap dst) <?
          zlen (sl dst) + Z.of_nat m) = false) as ->.
  { destruct (Z.ltb_spec (sl_cap dst) (zlen (sl dst) + Z.of_nat m)); apply Z.ltb_ge; [apply round2_ge; lia|lia]. }
  cbn [orb]. destruct (fixedLoop_spec (S (length (stream r))) r (sl dst) m W) as (r' & -> & H1 & H2); [lia..|].
  cbn [mbind option_bind]. eauto.
Qed.

(** ** Hexadecimal sizes *)

Definition isHex (c : byte) : bool := negb (bz (tbl hex2intTable c) =? 16).
Definition hex_from (v : Z) (d : bytes) : Z := foldl (fun v c => 16 * v + bz (tbl hex2intTable c)) v d.

Lemma isHex_range c : isHex c = true -> 0 <= bz (tbl hex2intTable c) < 16.
Proof. all_bytes_tac c. Qed.

Lemma hexchar_spec n : 0 <= n < 16 -> isHex (hexchar lowerhex n) = true /\ bz (tbl hex2intTable (hexchar lowerhex n)) = n.
Proof.
  intros Hn. assert (Forall (fun i => isHex (hexchar lowerhex (Z.of_nat i)) = true /\
    bz (tbl hex2intTable (hexchar lowerhex (Z.of_nat i))) = Z.of_nat i) (seq 0 16)) as F
    by (apply (bool_decide_unpack _); vm_compute; exact I).
  rewrite Forall_forall in F. specialize (F (Z.to_nat n)). rewrite Z2Nat.id in F by lia. apply F, elem_of_seq. lia.
Qed.

Lemma shift_digit v k : 0 <= k < 16 -> Z.lor (Z.shiftl v 4) k = 16 * v + k.
Proof.
  intros Hk. assert (Z.land (Z.shiftl v 4) k = 0) as L.
  { apply Z.bits_inj'. intros i Hi. rewrite Z.land_spec, Z.bits_0. destruct (decide (i < 4)).
    - by rewrite Z.shiftl_spec_low.
    - rewrite <- (Z.mod_small k (2 ^ 4)), Z.mod_pow2_bits_high by lia. apply andb_false_r. }
  rewrite <- Z.lxor_lor, <- Z.add_nocarry_lxor by done. rewrite Z.shiftl_mul_pow2 by lia. lia.
Qed.

Lemma hex_from_bound v d : 0 <= v -> Forall (fun c => isHex c = true) d ->
  v <= hex_from v d /\ hex_from v d < (v + 1) * 16 ^ zlen d.
Proof.
  intros Hv F. revert v Hv. induction F as [|c d Hc F IH]; intros v Hv; simpl length; [simpl; lia|].
  pose proof (isHex_range c Hc). destruct (IH (16 * v + bz (tbl hex2intTable c)) ltac:(lia)) as [H1 H2].
  simpl hex_from in *. rewrite Nat2Z.inj_succ, Z.pow_succ_r by lia. split; [lia|].
  pose proof (Z.pow_pos_nonneg 16 (zlen d)). nia.
Qed.

Lemma readHexLoop_spec more r v d c s :
  wfReader r -> stream r = d ++ c :: s -> Forall (fun x => isHex x = true) d -> isHex c = false ->
  (length d <= more)%nat -> (more <= maxHexIntChars)%nat -> (more = maxHexIntChars -> d <> []) ->
  0 <= v -> (v + 1) * 16 ^ zlen d <= 2 ^ 60 ->
  exists r', readHexLoop more r v = (hex_from v d, None, r') /\ stream r' = c :: s /\ sameSource r r'.
Proof.
  intros W E F Hc. revert more r v W E. induction F as [|x d Hx F IH]; intros more r v W E Hm Hm2 Hne Hv Hb;
    pose proof (ReadByte_spec r W) as S; rewrite E in S; cbn [app] in S.
  - destruct S as (r' & Er & _ & _ & r2 & Eu & E2 & S2). destruct more as [|more]; cbn [readHexLoop]; rewrite Er;
      unfold isHex in Hc; apply negb_false_iff in Hc; cbv zeta; rewrite Hc.
    + rewrite decide_False by (unfold maxHexIntChars; lia). rewrite Eu. eauto.
    + rewrite decide_False by (intros Hq; by destruct (Hne Hq)). rewrite Eu. eauto.
  - destruct S as (r' & Er & E' & S & _). destruct more as [|more]; [simpl in Hm; lia|]. cbn [readHexLoop]. rewrite Er.
    pose proof (isHex_range x Hx) as Hr. unfold isHex in Hx. apply negb_true_iff in Hx. cbv zeta. rewrite Hx.
    simpl length in *. rewrite Nat2Z.inj_succ, Z.pow_succ_r in Hb by lia. pose proof (Z.pow_pos_nonneg 16 (zlen d)).
    assert (v < 2 ^ 56) by nia.
    assert (int64 (Z.shiftl v 4) = Z.shiftl v 4) as -> by (apply int64_small; rewrite Z.shiftl_mul_pow2 by lia; unfold maxInt; lia).
    rewrite shift_digit by done. rewrite int64_small by (unfold maxInt; lia).
    destruct (IH more r' (16 * v + bz (tbl hex2intTable x))) as (r3 & E3 & H3 & S3);
      [eauto with gobytes|done|lia|lia|lia|lia|nia|].
    exists r3. split; [exact E3|]. eauto with gobytes.
Qed.

Lemma writeHexLoop_spec j i n buf :
  0 <= n < 16 ^ Z.of_nat j -> (0 < j <= i)%nat ->
  exists d, writeHexLoop i n buf = Some (d ++ buf) /\ d <> [] /\ (length d <= j)%nat /\
    Forall (fun c => isHex c = true) d /\ hex_from 0 d = n.
Proof.
  revert i n buf. induction j as [|j IH]; intros i n buf Hn Hi; [lia|]. destruct i as [|i]; [lia|].
  cbn [writeHexLoop]. cbv zeta. rewrite Nat2Z.inj_succ, Z.pow_succ_r in Hn by lia.
  assert (Z.land n 15 = n mod 16) as -> by (change 15 with (Z.ones 4); by rewrite Z.land_ones).
  rewrite Z.shiftr_div_pow2 by lia. change (2 ^ 4) with 16.
  pose proof (Z.mod_pos_bound n 16 ltac:(lia)) as Hm. destruct (hexchar_spec _ Hm) as [Hh Hv].
  pose proof (Z.div_mod n 16 ltac:(lia)) as Hd. destruct (Z.eqb_spec (n / 16) 0) as [D|D].
  - exists [hexchar lowerhex (n mod 16)]. split_and!; [done|done|simpl; lia|by constructor|].
    unfold hex_from. cbn [foldl]. lia.
  - assert (0 < j)%nat.
    { destruct j; [|lia]. simpl in Hn. destruct D. apply Z.div_small. lia. }
    destruct (IH i (n / 16) (hexchar lowerhex (n mod 16) :: buf)) as (d & -> & Hne & Hl & F & V); [|lia|].
    { split; [apply Z.div_pos; lia|]. apply Z.div_lt_upper_bound; lia. }
    exists (d ++ [hexchar lowerhex (n mod 16)]). split_and!; [by rewrite <- app_assoc|by destruct d| | |].
    + rewrite length_app. simpl. lia.
    + apply Forall_app. split; [done|]. by constructor.
    + unfold hex_from in *. rewrite foldl_app. cbn [foldl]. lia.
Qed.

(** The digits a chunk size is written with. *)
Definition chunkDigits (n : Z) (d : bytes) : Prop :=
  d <> [] /\ (length d <= maxHexIntChars)%nat /\ Forall (fun c => isHex c = true) d /\ hex_from 0 d = n.

Lemma writeHexInt_spec w n : 0 <= n < 2 ^ 60 -> exists d, writeHexInt w n = Some (w ++ d) /\ chunkDigits n d.
Proof.
  intros Hn. unfold writeHexInt. destruct (Z.ltb_spec n 0); [lia|].
  destruct (writeHexLoop_spec maxHexIntChars (maxHexIntChars + 1) n []) as (d & -> & H1 & H2 & H3 & H4);
    [done|unfold maxHexIntChars; lia|].
  exists d. by rewrite app_nil_r.
Qed.

Lemma readHexInt_spec r n d c s :
  wfReader r -> stream r = d ++ c :: s -> chunkDigits n d -> isHex c = false ->
  exists r', readHexInt r = (n, None, r') /\ stream r' = c :: s /\ sameSource r r'.
Proof.
  intros W E (Hne & Hl & F & <-) Hc. apply readHexLoop_spec; try done; try lia.
  rewrite Z.mul_1_l. change (2 ^ 60) with (16 ^ 15). apply Z.pow_le_mono_r; unfold maxHexIntChars in Hl; lia.
Qed.

(** ** Chunk headers *)

Lemma ReadByte_cons r c s :
  wfReader r -> stream r = c :: s ->
  exists r', ReadByte r = (inl c, r') /\ stream r' = s /\ sameSource r r' /\
    exists r2, UnreadByte r' = (None, r2) /\ stream r2 = c :: s /\ sameSource r r2.
Proof. intros W E. pose proof (ReadByte_spec r W) as S. by rewrite E in S. Qed.

Lemma readCrLf_spec r s :
  wfReader r -> stream r = strCRLF ++ s ->
  exists r', readCrLf r = (None, r') /\ stream r' = s /\ sameSource r r'.
Proof.
  intros W E. destruct (ReadByte_cons r rChar _ W E) as (r1 & E1 & S1 & W1 & _).
  destruct (ReadByte_cons r1 nChar s (sameSource_wf _ _ W1) S1) as (r2 & E2 & S2 & W2 & _).
  exists r2. unfold readCrLf. cbn [readCrLfLoop]. rewrite E1, (decide_False (P := rChar <> rChar)) by (intros H; by apply H).
  rewrite E2, decide_False by (intros H; by apply H). eauto with gobytes.
Qed.

Lemma parseChunkSize_spec r n d s :
  wfReader r -> stream r = d ++ strCRLF ++ s -> chunkDigits n d ->
  exists r', parseChunkSize r = (n, None, r') /\ stream r' = s /\ sameSource r r'.
Proof.
  intros W E Hd. destruct (readHexInt_spec r n d rChar (nChar :: s) W E Hd eq_refl) as (r1 & E1 & S1 & W1).
  destruct (ReadByte_cons r1 rChar _ (sameSource_wf _ _ W1) S1) as (r2 & E2 & _ & _ & r3 & E3 & S3 & W3).
  destruct (readCrLf_spec r3 s (sameSource_wf _ _ W3) S3) as (r4 & E4 & S4 & W4).
  exists r4. unfold parseChunkSize. rewrite E1. cbn [skipBlanks]. rewrite E2, decide_False by done. rewrite E3, E4.
  eauto with gobytes.
Qed.

(** ** What any input does to the chunk parser *)

Lemma readHexLoop_total more r v :
  wfReader r -> (more <= maxHexIntChars)%nat -> 0 <= v < 16 ^ (15 - Z.of_nat more) ->
  exists n err r', readHexLoop more r v = (n, err, r') /\ advanced false r r' /\
    (err = None -> 0 <= n < 2 ^ 60 /\ advanced (bool_decide (more = maxHexIntChars)) r r').
Proof.
  unfold maxHexIntChars. revert r v. induction more as [|more IH]; intros r v W Hm Hv;
    (assert (0 <= v < 2 ^ 60) as Hv2 by
       (change (2 ^ 60) with (16 ^ 15); split; [lia|]; eapply Z.lt_le_trans; [apply Hv|]; apply Z.pow_le_mono_r; lia));
    destruct (ReadByte_total r W) as [(r' & E & A)|(c & r' & r2 & E & A & Eu & A2)]; cbn [readHexLoop];
    unfold maxHexIntChars; rewrite E; cbv zeta.
  - destruct (decide (r_end r = EOF /\ (0 < 15)%nat)) as [D|D].
    + do 3 eexists. split; [reflexivity|]. split; [done|]. intros _. split; [done|exact A].
    + do 3 eexists. split; [reflexivity|]. split; done.
  - destruct (Z.eqb_spec (bz (tbl hex2intTable c)) 16) as [K|K].
    + rewrite decide_False by lia. rewrite Eu. do 3 eexists. split; [reflexivity|]. split; [done|]. by intros _.
    + do 3 eexists. split; [reflexivity|]. split; [eauto with gobytes|done].
  - destruct (decide (r_end r = EOF /\ (S more < 15)%nat)) as [D|D].
    + do 3 eexists. split; [reflexivity|]. split; [done|]. intros _. split; [done|].
      rewrite bool_decide_eq_false_2 by lia. exact A.
    + do 3 eexists. split; [reflexivity|]. split; done.
  - destruct (Z.eqb_spec (bz (tbl hex2intTable c)) 16) as [K|K].
    + destruct (decide (S more = 15%nat)) as [D|D].
      * do 3 eexists. split; [reflexivity|]. split; [eauto with gobytes|done].
      * rewrite Eu. do 3 eexists. split; [reflexivity|]. split; [done|]. intros _. split; [done|].
        by rewrite bool_decide_eq_false_2.
    + assert (isHex c = true) as Hx by (unfold isHex; apply negb_true_iff; by apply Z.eqb_neq).
      pose proof (isHex_range c Hx) as Hr.
      rewrite Nat2Z.inj_succ in Hv.
      assert (16 ^ (15 - Z.of_nat more) = 16 * 16 ^ (15 - Z.succ (Z.of_nat more))) as Ep.
      { rewrite <- Z.pow_succ_r by lia. f_equal. lia. }
      assert (v < 2 ^ 56) as Hs.
      { eapply Z.lt_le_trans; [apply Hv|]. change (2 ^ 56) with (16 ^ 14). apply Z.pow_le_mono_r; lia. }
      assert (int64 (Z.shiftl v 4) = Z.shiftl v 4) as -> by (apply int64_small; rewrite Z.shiftl_mul_pow2 by lia; unfold maxInt; lia).
      rewrite shift_digit by done. rewrite int64_small by (unfold maxInt; lia).
      destruct (IH r' (16 * v + bz (tbl hex2intTable c))) as (n & err & r3 & E3 & A3 & H3); [eauto with gobytes|lia|lia|].
      exists n, err, r3. split; [exact E3|].
      split; [exact (advanced_weaken true _ _ (advanced_trans true _ _ _ A A3))|]. intros He. split; [destruct (H3 He) as [? _]; done|].
      pose proof (advanced_trans true r r' r3 A A3) as A4. destruct (bool_decide (S more = 15%nat)); [done|by apply (advanced_weaken true)].
Qed.

Lemma readCrLf_total r : wfReader r -> exists err r', readCrLf r = (err, r') /\ advanced false r r'.
Proof.
  intros W. unfold readCrLf. assert (forall exps r, wfReader r ->
    exists err r', readCrLfLoop exps r = (err, r') /\ advanced false r r') as L; [|by apply L]. clear r W.
  induction exps as [|x exps IH]; intros r W; cbn [readCrLfLoop].
  - do 2 eexists. split; [reflexivity|]. split; [by split_and!|lia].
  - destruct (ReadByte_total r W) as [(r' & -> & A)|(c & r' & r2 & -> & A & _)]; [eauto|].
    case_decide; [eauto with gobytes|]. destruct (IH r' ltac:(eauto with gobytes)) as (err & r3 & -> & A3).
    do 2 eexists. split; [reflexivity|]. exact (advanced_weaken true _ _ (advanced_trans true _ _ _ A A3)).
Qed.

(** Enough fuel: the fallback of skipBlanks is never taken. *)
Lemma skipBlanks_total fuel r :
  wfReader r -> (length (stream r) < fuel)%nat ->
  exists err r', skipBlanks fuel r = (err, r') /\ advanced false r r' /\ err <> Some errNeedMore.
Proof.
  revert r. induction fuel as [|fuel IH]; intros r W Hf; [lia|]. cbn [skipBlanks].
  destruct (ReadByte_total r W) as [(r' & -> & A)|(c & r' & r2 & -> & A & Eu & A2)]; [eauto|].
  case_decide; [|rewrite Eu; eauto].
  destruct (IH r' ltac:(eauto with gobytes)) as (err & r3 & -> & A3 & H3); [destruct A; simpl in *; lia|].
  do 2 eexists. split; [reflexivity|]. split; [|done]. exact (advanced_weaken true _ _ (advanced_trans true _ _ _ A A3)).
Qed.

(** A branch that stops with an error. *)
Ltac err_case := do 3 eexists; split; [reflexivity|]; split; [eauto with gobytes|done].

Lemma parseChunkSize_total r :
  wfReader r ->
  exists n err r', parseChunkSize r = (n, err, r') /\ advanced false r r' /\
    (err = None -> 0 <= n < 2 ^ 60 /\ advanced true r r').
Proof.
  intros W. unfold parseChunkSize, readHexInt.
  destruct (readHexLoop_total maxHexIntChars r 0 W) as (n & err & r1 & -> & A1 & H1); [lia|done|].
  destruct err as [e|]; [err_case|]. destruct (H1 eq_refl) as [Hn A]. rewrite bool_decide_eq_true_2 in A by done.
  destruct (skipBlanks_total (S (length (stream r1))) r1 ltac:(eauto with gobytes)) as (err & r2 & -> & A2 & _); [lia|].
  pose proof (advanced_trans _ _ _ _ A A2) as A12.
  destruct err as [e|]; [err_case|].
  destruct (readCrLf_total r2 ltac:(eauto with gobytes)) as (err & r3 & -> & A3).
  pose proof (advanced_trans _ _ _ _ A12 A3) as A13.
  destruct err as [e|]; [err_case|]. do 3 eexists. split; [reflexivity|]. split; [by eapply advanced_weaken|]. by intros _.
Qed.

(** ** Bodies on any input *)

Lemma appendBodyFixedSize_total r dst n :
  wfReader r -> 0 <= n -> zlen (sl dst) + n <= 2 ^ 31 ->
  exists r' dst' err, appendBodyFixedSize r dst n = Some (r', dst', err) /\ advanced false r r' /\
    (err = None -> zlen (sl dst') = zlen (sl dst) + n /\ exists l, sl dst' = sl dst ++ l).
Proof.
  intros W Hn Hl. destruct (appendBodyFixedSize_spec r dst (Z.to_nat n) W ltac:(lia)) as (r' & cap & E & Es & S).
  rewrite Z2Nat.id in E by done. rewrite E. do 3 eexists. split; [reflexivity|]. split.
  - split; [done|]. rewrite Es, length_drop. lia.
  - case_decide; [|done]. intros _. cbn [sl]. rewrite length_app, length_take. split; [lia|eauto].
Qed.

Lemma chunkedLoop_total fuel r maxBodySize dst :
  wfReader r -> 0 < maxBodySize <= 2 ^ 30 -> zlen (sl dst) <= maxBodySize -> (length (stream r) < fuel)%nat ->
  exists r' dst' err, chunkedLoop fuel r maxBodySize dst = Some (r', dst', err) /\ advanced false r r' /\
    (err = None -> zlen (sl dst') <= maxBodySize).
Proof.
  revert r dst. induction fuel as [|fuel IH]; intros r dst W Hm Hd Hf; [lia|]. cbn [chunkedLoop].
  destruct (parseChunkSize_total r W) as (n & err & r1 & -> & A1 & H1).
  destruct err as [e|]; [err_case|]. destruct (H1 eq_refl) as [Hn A].
  rewrite int64_small by (unfold maxInt; lia). destruct (Z.ltb_spec 0 maxBodySize); [|lia].
  destruct (Z.ltb_spec maxBodySize (zlen (sl dst) + n)); cbn [andb]; [err_case|].
  destruct (appendBodyFixedSize_total r1 dst (n + zlen strCRLF) ltac:(eauto with gobytes)) as (r2 & d2 & err & -> & A2 & H2);
    [simpl; lia|simpl; lia|].
  pose proof (advanced_trans _ _ _ _ A A2) as A12. cbn [mbind option_bind].
  destruct err as [e|]; [err_case|]. destruct (H2 eq_refl) as [Hl _]. cbv zeta.
  destruct (decide (drop (length (sl d2) - length strCRLF) (sl d2) <> strCRLF)); [err_case|].
  assert (zlen (take (length (sl d2) - length strCRLF) (sl d2)) <= maxBodySize) as Hl2.
  { rewrite length_take. simpl in *. lia. }
  destruct (n =? 0); [do 3 eexists; split; [reflexivity|]; split; [by eapply advanced_weaken|done]|].
  destruct (IH r2 (MkSlice (take (length (sl d2) - length strCRLF) (sl d2)) (sl_cap d2))) as (r3 & d3 & err & -> & A3 & H3);
    [eauto with gobytes|lia|done|destruct A12; lia|].
  do 3 eexists. split; [reflexivity|]. split; [|done]. exact (advanced_weaken true _ _ (advanced_trans true _ _ _ A12 A3)).
Qed.

(** ** Bodies that end with the connection *)

Lemma identityLoop_spec fuel r maxBodySize got size :
  wfReader r -> zlen got < size -> maxBodySize <= 2 ^ 30 -> (0 < maxBodySize \/ zlen got + zlen (stream r) <= 2 ^ 30) ->
  (0 < maxBodySize -> zlen got <= maxBodySize) -> (length (stream r) < fuel)%nat ->
  exists r' got' cap err, identityLoop fuel r maxBodySize got size = Some (r', MkSlice got' cap, err) /\
    advanced false r r' /\
    if (0 <? maxBodySize) && (maxBodySize <? zlen got + zlen (stream r)) then err = Some ErrBodyTooLarge
    else got' = got ++ stream r /\ stream r' = [] /\ err = if decide (r_end r = EOF) then None else Some (r_end r).
Proof.
  revert r got size. induction fuel as [|fuel IH]; intros r got size W Hs Hm Ht Hg Hf; [lia|]. cbn [identityLoop].
  destruct (Z.ltb_spec size (zlen got)); [lia|].
  pose proof (bufRead_spec r (Z.to_nat (size - zlen got)) W ltac:(lia)) as S. destruct (stream r) as [|c s] eqn:Es.
  - destruct S as (r' & -> & E & S). do 4 eexists. split; [reflexivity|]. split; [split; [done|rewrite E; simpl; lia]|].
    rewrite app_nil_r. simpl length. rewrite Z.add_0_r.
    destruct (Z.ltb_spec 0 maxBodySize), (Z.ltb_spec maxBodySize (zlen got)); simpl; try done; lia.
  - destruct S as (p & r' & -> & Hp & Hl & E & S). rewrite decide_False by done. cbv zeta. rewrite E in *. clear E c s.
    assert (0 < length p)%nat by (destruct p; [done|simpl; lia]).
    assert (advanced false r r') as A by (split; [done|rewrite Es, length_app; lia]).
    assert (zlen got + zlen (p ++ stream r') = zlen (got ++ p) + zlen (stream r')) as ET
      by (rewrite !length_app; lia). rewrite ET in *. rewrite length_app in Hf. set (off := zlen (got ++ p)) in *.
    destruct ((0 <? maxBodySize) && (maxBodySize <? off)) eqn:Ebig.
    { apply andb_true_iff in Ebig as [B1%Z.ltb_lt B2%Z.ltb_lt]. do 4 eexists. split; [reflexivity|]. split; [done|].
      destruct (Z.ltb_spec 0 maxBodySize), (Z.ltb_spec maxBodySize (off + zlen (stream r'))); simpl; try done; lia. }
    apply andb_false_iff in Ebig. rewrite !Z.ltb_ge in Ebig.
    assert (off <= size) as Hoff by (subst off; rewrite length_app; lia).
    assert (forall size', off < size' -> exists r'' got' cap err,
      identityLoop fuel r' maxBodySize (got ++ p) size' = Some (r'', MkSlice got' cap, err) /\ advanced false r r'' /\
      if (0 <? maxBodySize) && (maxBodySize <? off + zlen (stream r')) then err = Some ErrBodyTooLarge
      else got' = got ++ p ++ stream r' /\ stream r'' = [] /\ err = if decide (r_end r = EOF) then None else Some (r_end r))
      as Next.
    { intros size' Hs'. destruct (IH r' (got ++ p) size') as (r2 & g2 & cap & err & -> & A2 & H2);
        [eauto with gobytes|done|done|destruct Ht; [by left|right; lia]|lia|lia|].
      do 4 eexists. split; [reflexivity|]. split; [by eapply advanced_trans|]. fold off in H2.
      rewrite (sameSource_end _ _ S), <- app_assoc in H2. exact H2. }
    destruct (Z.eqb_spec size off) as [D|D]; [|apply Next; lia]. apply Next.
    assert (0 < off) by (subst off; rewrite length_app; lia).
    assert (off <= 2 ^ 30) by (destruct Ebig, Ht; lia).
    rewrite int64_small by (unfold maxInt; lia). pose proof (round2_ge (2 * off) ltac:(lia)).
    destruct ((0 <? maxBodySize) && (maxBodySize <? round2 (2 * off))) eqn:Eb; [|lia].
    apply andb_true_iff in Eb as [?%Z.ltb_lt ?%Z.ltb_lt]. lia.
Qed.

(** ** Written chunks are read back *)

(** One round of the chunk loop on a written chunk. *)
Lemma chunkedLoop_chunk fuel r maxBodySize dst d b s :
  wfReader r -> stream r = d ++ strCRLF ++ b ++ strCRLF ++ s -> chunkDigits (zlen b) d ->
  zlen (sl dst) + zlen b + 2 <= 2 ^ 31 -> (0 < maxBodySize -> zlen (sl dst) + zlen b <= maxBodySize) ->
  exists r' cap, sameSource r r' /\ stream r' = s /\
    chunkedLoop (S fuel) r maxBodySize dst =
    if decide (b = []) then Some (r', MkSlice (sl dst ++ b) cap, None)
    else chunkedLoop fuel r' maxBodySize (MkSlice (sl dst ++ b) cap).
Proof.
  intros W E Hd Hl Hm. destruct (parseChunkSize_spec r (zlen b) d _ W E Hd) as (r1 & E1 & S1 & W1).
  cbn [chunkedLoop]. rewrite E1. rewrite int64_small by (unfold maxInt; lia).
  assert ((0 <? maxBodySize) && (maxBodySize <? zlen (sl dst) + zlen b) = false) as ->.
  { destruct (Z.ltb_spec 0 maxBodySize); [|done]. apply Z.ltb_ge. lia. }
  destruct (appendBodyFixedSize_spec r1 dst (length b + 2)) as (r2 & cap & E2 & S2 & W2);
    [eauto with gobytes|lia|]. rewrite Nat2Z.inj_add in E2. change (zlen strCRLF) with (Z.of_nat 2). rewrite E2.
  assert (b ++ strCRLF ++ s = (b ++ strCRLF) ++ s) as Ea by apply app_assoc. rewrite S1, Ea in *.
  assert (length b + 2 = length (b ++ strCRLF))%nat as El by (rewrite length_app; done). rewrite El in *.
  rewrite take_app_exact, drop_app_exact in *. rewrite decide_True by (rewrite (length_app _ s); lia).
  cbn [mbind option_bind sl sl_cap]. cbv zeta.
  assert (length (sl dst ++ b ++ strCRLF) - length strCRLF = length (sl dst ++ b))%nat as ->
    by (rewrite !length_app; simpl; lia).
  rewrite app_assoc, drop_app_exact, take_app_exact. rewrite decide_False by (intros H; by apply H).
  exists r2, cap. split; [by eapply sameSource_trans|]. split; [done|].
  destruct (Z.eqb_spec (zlen b) 0) as [D|D].
  - rewrite decide_True by (apply nil_length_inv; lia). done.
  - rewrite decide_False; [done|]. intros ->. done.
Qed.

Lemma writeChunksLoop_read chunks :
  Forall (fun b => b <> []) chunks -> zlen (concat chunks) + 2 <= 2 ^ 31 ->
  exists t, (forall w, writeChunksLoop w chunks EOF = (w ++ t, Some None)) /\ (length chunks < length t)%nat /\
    forall fuel r maxBodySize dst rest, wfReader r -> stream r = t ++ rest -> (length chunks < fuel)%nat ->
      zlen (sl dst) + zlen (concat chunks) + 2 <= 2 ^ 31 ->
      (0 < maxBodySize -> zlen (sl dst) + zlen (concat chunks) <= maxBodySize) ->
      exists r' cap, chunkedLoop fuel r maxBodySize dst = Some (r', MkSlice (sl dst ++ concat chunks) cap, None) /\
        stream r' = rest /\ sameSource r r'.
Proof.
  induction 1 as [|b chunks Hb F IH]; intros Hl.
  - destruct (writeHexInt_spec [] 0 ltac:(lia)) as (d & Ew & Hd).
    exists (d ++ strCRLF ++ [] ++ strCRLF). split; [|split].
    + intros w. cbn [writeChunksLoop]. rewrite decide_True by done.
      unfold writeChunk. unfold writeHexInt in *. simpl in Ew |- *. injection Ew as <-. by rewrite <- app_assoc.
    + rewrite length_app. simpl. lia.
    + intros [|fuel] r m dst rest W E Hf Hl2 Hm; [simpl in Hf; lia|]. simpl concat in *. simpl length in *.
      destruct (chunkedLoop_chunk fuel r m dst d [] rest W) as (r' & cap & S & Es & ->);
        [by rewrite E, <- !app_assoc|done|simpl; lia|simpl; lia|].
      rewrite decide_True by done. eauto.
  - simpl concat in *. rewrite length_app in Hl. destruct IH as (t & Ht & Hlt & IH); [lia|].
    destruct (writeHexInt_spec [] (zlen b) ltac:(lia)) as (d & Ew & Hd).
    exists ((d ++ strCRLF ++ b ++ strCRLF) ++ t). split; [|split].
    + intros w. cbn [writeChunksLoop]. destruct b as [|c b]; [done|].
      assert (writeChunk w (c :: b) = Some (w ++ d ++ strCRLF ++ (c :: b) ++ strCRLF)) as ->.
      { unfold writeChunk, writeHexInt in *. destruct (_ <? 0); [done|].
        destruct (writeHexLoop _ _ _); [|done]. simpl in Ew |- *. injection Ew as ->. by rewrite <- app_assoc. }
      rewrite Ht. by rewrite <- app_assoc.
    + rewrite !length_app. simpl. lia.
    + intros [|fuel] r m dst rest W E Hf Hl2 Hm; [simpl in Hf; lia|]. rewrite length_app in *.
      destruct (chunkedLoop_chunk fuel r m dst d b (t ++ rest) W) as (r1 & cap & S & Es & ->);
        [by rewrite E, <- !app_assoc|done|lia|lia|].
      rewrite decide_False by done.
      destruct (IH fuel r1 m (MkSlice (sl dst ++ b) cap) rest) as (r2 & cap2 & -> & E2 & S2);
        [eauto with gobytes|done|simpl in Hf; lia|simpl; rewrite length_app; lia|simpl; rewrite length_app; lia|].
      cbn [sl]. rewrite <- app_assoc. do 2 eexists. split; [reflexivity|]. split; [done|]. by eapply sameSource_trans.
Qed.

(** Within a limit every body is read without a panic. *)
Lemma readBody_limited_spec r contentLength maxBodySize dst :
  wfReader r -> 0 < maxBodySize <= 2 ^ 30 -> 0 <= sl_cap dst ->
  exists r' b err, readBody r contentLength maxBodySize dst = Some (r', b, err) /\
    advanced false r r' /\ (err = None -> zlen (sl b) <= maxBodySize).
Proof.
  intros W Hm Hcap. unfold readBody. destruct (Z.leb_spec 0 contentLength); [|destruct (Z.eqb_spec contentLength (-1))].
  - assert ((0 <? maxBodySize) = true) as -> by (apply Z.ltb_lt; lia). cbn [andb].
    destruct (Z.ltb_spec maxBodySize contentLength).
    { do 3 eexists. split; [reflexivity|]. split; [split; [by split_and!|lia]|done]. }
    destruct (appendBodyFixedSize_total r (MkSlice [] (sl_cap dst)) contentLength W) as (r' & b & err & -> & A & Hb);
      [done|simpl; lia|].
    do 3 eexists. split; [reflexivity|]. split; [done|]. intros He. destruct (Hb He) as [-> _]. simpl. lia.
  - unfold readBodyChunked. rewrite decide_False by (intros H'; by apply H').
    destruct (chunkedLoop_total (S (length (stream r))) r maxBodySize (MkSlice [] (sl_cap dst)) W Hm)
      as (r' & b & err & -> & A & Hb); [simpl; lia|lia|]. eauto 10.
  - unfold readBodyIdentity. cbn [sl_cap].
    destruct (identityLoop_spec (S (length (stream r))) r maxBodySize [] (if sl_cap dst =? 0 then 1024 else sl_cap dst))
      as (r' & b & cap & err & -> & A & Hb); [done| |lia|left; lia|simpl; lia|lia|].
    { simpl. destruct (Z.eqb_spec (sl_cap dst) 0); lia. }
    do 3 eexists. split; [reflexivity|]. split; [done|]. intros ->. cbn [sl].
    cbn [length] in Hb. rewrite Z.add_0_l in Hb.
    destruct (Z.ltb_spec 0 maxBodySize); [|lia]. destruct (Z.ltb_spec maxBodySize (zlen (stream r))); [done|].
    destruct Hb as (-> & _). done.
Qed.

(** ** Capacities *)

Lemma appendBodyFixedSize_cap r dst n r' b err :
  appendBodyFixedSize r dst n = Some (r', b, err) -> 0 <= sl_cap dst -> 0 <= sl_cap b.
Proof.
  unfold appendBodyFixedSize. destruct (n =? 0); [by intros [= _ <- _]|]. cbv zeta.
  destruct ((_ <? zlen (sl dst)) || _) eqn:E; [done|]. apply orb_false_iff in E as [?%Z.ltb_ge ?%Z.ltb_ge].
  destruct (fixedLoop _ _ _ _) as [[[r1 got] e]|]; [|done]. cbn [mbind option_bind]. intros [= _ <- _] _. cbn [sl_cap]. lia.
Qed.

Lemma identityLoop_cap fuel r maxBodySize got size r' b err :
  identityLoop fuel r maxBodySize got size = Some (r', b, err) -> 0 <= sl_cap b.
Proof.
  revert r got size. induction fuel as [|fuel IH]; intros r got size; cbn [identityLoop]; [done|].
  destruct (Z.ltb_spec size (zlen got)); [done|]. destruct (bufRead _ _) as [[p|e] r1]; [|intros [= _ <- _]; simpl; lia].
  case_decide; [done|]. cbv zeta. destruct (_ && (maxBodySize <? zlen (got ++ p))); [intros [= _ <- _]; simpl; lia|].
  destruct (size =? _); eapply IH.
Qed.

Lemma chunkedLoop_cap fuel r maxBodySize dst r' b err :
  chunkedLoop fuel r maxBodySize dst = Some (r', b, err) -> 0 <= sl_cap dst -> 0 <= sl_cap b.
Proof.
  revert r dst. induction fuel as [|fuel IH]; intros r dst; cbn [chunkedLoop]; [done|].
  destruct (parseChunkSize r) as [[n [e|]] r1]; [by intros [= _ <- _]|].
  destruct (_ && _); [by intros [= _ <- _]|].
  destruct (appendBodyFixedSize r1 dst _) as [[[r2 d2] e2]|] eqn:E; [|done]. cbn [mbind option_bind]. intros H Hd.
  apply appendBodyFixedSize_cap in E; [|done]. destruct e2; [by injection H as _ <- _|]. cbv zeta in H.
  case_decide; [by injection H as _ <- _|]. destruct (n =? 0); [by injection H as _ <- _|]. by apply IH in H.
Qed.

Lemma readBody_cap r contentLength maxBodySize dst r' b err :
  readBody r contentLength maxBodySize dst = Some (r', b, err) -> 0 <= sl_cap dst -> 0 <= sl_cap b.
Proof.
  unfold readBody. destruct (0 <=? contentLength).
  - destruct (_ && _); [by intros [= _ <- _]|]. intros H Hc. by apply appendBodyFixedSize_cap in H.
  - destruct (contentLength =? -1); [|intros H _; by eapply identityLoop_cap].
    unfold readBodyChunked. case_decide; [done|]. intros Q Hc. by apply chunkedLoop_cap in Q.
Qed.

(** * Properties *)

(** C32. A stream written in chunks is read back: whatever pieces the writer got
    its input in and whatever pieces the reader gets the text in, the body is
    the concatenation, the bytes after it stay unread, and the limit does not
    stop a body that is within it. *)
Theorem writeBodyChunked_read (chunks : list bytes) (r : reader) (maxBodySize : Z) (dst : slice) (rest : bytes)
    (Hc : Forall (fun b => b <> []) chunks) (Hl : zlen (concat chunks) + 2 <= 2 ^ 31)
    (Hm : 0 < maxBodySize -> zlen (concat chunks) <= maxBodySize) (W : wfReader r) :
  exists t, writeBodyChunked [] (MkSource chunks EOF) = (t, Some None) /\
    (stream r = t ++ rest -> exists r' cap,
      readBody r (-1) maxBodySize dst = Some (r', MkSlice (concat chunks) cap, None) /\ stream r' = rest).
Proof.
  destruct (writeChunksLoop_read chunks Hc Hl) as (t & Ht & Hlt & HR). exists t. split; [apply Ht|]. intros E.
  unfold readBody. cbn [Z.leb Z.compare Z.eqb]. unfold readBodyChunked. rewrite decide_False by (intros H; by apply H).
  destruct (HR (S (length (stream r))) r maxBodySize (MkSlice [] (sl_cap dst)) rest) as (r' & cap & -> & E' & _);
    [done|done|rewrite E, length_app; lia|simpl; lia|simpl; lia|]. eauto.
Qed.

Lemma writeBodyChunked_read_witness :
  let chunks := [bs "hello"; bs " chunked world"] in
  let r := newReader 16 (MkSource [bs "5"; x0d :: x0a :: bs "hel"; bs "lo" ++ strCRLF ++ bs "e" ++ strCRLF;
                                   bs " chunked world" ++ strCRLF ++ bs "0" ++ strCRLF ++ strCRLF ++ bs "GET"] EOF) in
  (Forall (fun b => b <> []) chunks /\ zlen (concat chunks) + 2 <= 2 ^ 31 /\ (0 < 20 -> zlen (concat chunks) <= 20) /\ wfReader r) /\
  exists t, writeBodyChunked [] (MkSource chunks EOF) = (t, Some None) /\
    (stream r = t ++ bs "GET" -> exists r' cap,
      readBody r (-1) 20 (MkSlice [] 0) = Some (r', MkSlice (concat chunks) cap, None) /\ stream r' = bs "GET").
Proof.
  assert (Forall (fun b => b <> []) [bs "hello"; bs " chunked world"]) as F by (repeat constructor; done).
  match goal with |- let _ := _ in let r := ?x in _ => assert (wfReader x) as W end.
  { apply newReader_wf; [lia|]. repeat constructor; done. }
  split; [split_and!; [exact F|vm_compute; congruence|vm_compute; congruence|exact W]|].
  apply (writeBodyChunked_read _ _ 20 (MkSlice [] 0) (bs "GET") F); [vm_compute; congruence|vm_compute; congruence|exact W].
Defined.

(** With a body limit the reader never panics and never returns more than
    the limit, for every input, every declared length and every kind of body. *)
Lemma readBody_limited (r : reader) (contentLength maxBodySize : Z) (dst : slice)
    (W : wfReader r) (Hm : 0 < maxBodySize <= 2 ^ 30) (Hcap : 0 <= sl_cap dst) :
  exists r' b err, readBody r contentLength maxBodySize dst = Some (r', b, err) /\
    advanced false r r' /\ (err = None -> zlen (sl b) <= maxBodySize).
Proof. by apply readBody_limited_spec. Qed.

Lemma readBody_limited_witness :
  let r := newReader 16 (MkSource [bs "7fffffffffffff"; strCRLF; bs "abc"] EOF) in
  (wfReader r /\ 0 < 100 <= 2 ^ 30 /\ 0 <= 0) /\
  exists r' b err, readBody r (-1) 100 (MkSlice [] 0) = Some (r', b, err) /\
    advanced false r r' /\ (err = None -> zlen (sl b) <= 100).
Proof.
  match goal with |- let r := ?x in _ => assert (wfReader x) as W end.
  { apply newReader_wf; [lia|]. repeat constructor; done. }
  split; [split_and!; [exact W|lia|vm_compute; congruence|lia]|].
  apply (readBody_limited _ (-1) 100 (MkSlice [] 0) W); [lia|simpl; lia].
Defined.

(** A body of declared length is exactly the next bytes of the connection,
    however they arrive, and the rest stays unread; if the connection ends
    before, what came is returned with an error (ErrUnexpectedEOF for EOF). *)
Lemma readBody_fixed (r : reader) (n : nat) (maxBodySize : Z) (dst : slice)
    (W : wfReader r) (Hn : Z.of_nat n <= 2 ^ 31) (Hm : 0 < maxBodySize -> Z.of_nat n <= maxBodySize) :
  exists r' cap, readBody r (Z.of_nat n) maxBodySize dst =
      Some (r', MkSlice (take n (stream r)) cap,
            if decide (n <= length (stream r))%nat then None
            else Some (if decide (r_end r = EOF) then ErrUnexpectedEOF else r_end r)) /\
    stream r' = drop n (stream r).
Proof.
  unfold readBody. destruct (Z.leb_spec 0 (Z.of_nat n)); [|lia].
  assert ((0 <? maxBodySize) && (maxBodySize <? Z.of_nat n) = false) as ->.
  { destruct (Z.ltb_spec 0 maxBodySize); [|done]. apply Z.ltb_ge. lia. }
  destruct (appendBodyFixedSize_spec r (MkSlice [] (sl_cap dst)) n W) as (r' & cap & -> & H1 & H2); [simpl; lia|].
  eauto.
Qed.

Lemma readBody_fixed_witness :
  let r := newReader 16 (MkSource [bs "ab"; bs "c"] EOF) in
  (wfReader r /\ Z.of_nat 5 <= 2 ^ 31 /\ (0 < 0 -> Z.of_nat 5 <= 0)) /\
  exists r' cap, readBody r (Z.of_nat 5) 0 (MkSlice [] 0) =
      Some (r', MkSlice (take 5 (stream r)) cap,
            if decide (5 <= length (stream r))%nat then None
            else Some (if decide (r_end r = EOF) then ErrUnexpectedEOF else r_end r)) /\
    stream r' = drop 5 (stream r).
Proof.
  match goal with |- let r := ?x in _ => assert (wfReader x) as W end.
  { apply newReader_wf; [lia|]. repeat constructor; done. }
  split; [split_and!; [exact W|simpl; lia|lia]|].
  apply (readBody_fixed _ 5 0 (MkSlice [] 0) W); simpl; lia.
Defined.

(** Without a limit (the default of the client) a declared length above
    2^31 makes the reader panic before a byte of the body is read: round2
    computes in 32 bits, so the buffer it sizes is too small to be resliced. *)
Lemma readBody_huge_panics (r : reader) (contentLength maxBodySize : Z) (dst : slice)
    (Hc : 2 ^ 31 < contentLength <= maxInt) (Hm : maxBodySize <= 0) (Hcap : sl_cap dst < contentLength) :
  readBody r contentLength maxBodySize dst = None.
Proof.
  unfold readBody. destruct (Z.leb_spec 0 contentLength); [|lia].
  destruct (Z.ltb_spec 0 maxBodySize); [lia|]. cbn [andb]. unfold appendBodyFixedSize.
  destruct (Z.eqb_spec contentLength 0); [lia|]. cbn [sl sl_cap]. cbv zeta. simpl length. rewrite Z.add_0_l, int64_small by lia.
  destruct (Z.ltb_spec (sl_cap dst) contentLength); [|lia].
  pose proof (round2_small contentLength ltac:(lia)).
  destruct (Z.ltb_spec (round2 contentLength) contentLength); [|lia]. by rewrite orb_true_r.
Qed.

Lemma readBody_huge_panics_witness :
  let r := newReader 4096 (MkSource [bs "x"] EOF) in
  (2 ^ 31 < 2147483649 <= maxInt /\ 0 <= 0 /\ 64 < 2147483649) /\ readBody r 2147483649 0 (MkSlice [] 64) = None.
Proof.
  split; [unfold maxInt; lia|]. apply (readBody_huge_panics _ 2147483649 0 (MkSlice [] 64)); unfold maxInt; simpl; lia.
Defined.
