(* ===== verification/HeaderRead.v ===== *)
(** * header.go: reading heads through a bufio.Reader

    Read and tryRead of both header types are the same loop around different
    parsers, so it is written once, against the interface [HeadParser]; the
    instances are at the end.  A parser works in place on the reader's buffer. *)
From Stdlib Require Import Strings.String.
From S2P Require Import Prelude BytesConv Consts Args Cookie HeaderScan RequestHeader ResponseHeader Bufio.

(** ** Errors *)

Definition headerErrorMsg (typ : string) (secureErrorLogMessage : bool) : error :=
  if secureErrorLogMessage
  then Errorf ("error when reading " ++ typ ++ " headers: %s. Buffer size=%d")
  else Errorf ("error when reading " ++ typ ++ " headers: %s. Buffer size=%d, contents: %s").

Definition headerError (typ : string) (err : option error) (errParse : error) (b : bytes)
    (secureErrorLogMessage : bool) : error :=
  if decide (errParse <> errNeedMore) then headerErrorMsg typ secureErrorLogMessage
  else
    match err with
    | None => errNeedMore
    | Some err =>
        if isOnlyCRLF b then EOF
        else if decide (err <> ErrBufferFull) then headerErrorMsg typ secureErrorLogMessage
        else ErrSmallBuffer ("error when reading " ++ typ ++ " headers")
    end.

(** Values with a method Timeout that returns true. *)
Definition isTimeout (err : error) : bool :=
  match err with NetTimeout | ErrTimeout => true | _ => false end.

(** ** The interface *)

(** [hp_parse] returns the header, the bytes consumed, the error and the new
    contents of the buffer; [hp_emptyErr h n err] is the error when nothing
    could be peeked at. *)
Class HeadParser (H : Type) := {
  hp_reset : H -> H;
  hp_parse : H -> bytes -> option (H * Z * option error * bytes);
  hp_emptyErr : H -> nat -> error -> error;
  hp_secure : H -> bool;
  hp_typ : string
}.

(** What the loop needs: the parser never panics, never grows the buffer, never
    claims more bytes than there are, and takes some when it succeeds. *)
Class HeadParserLaws (H : Type) `{HeadParser H} : Prop := {
  hp_parse_total : forall h b, exists h' n err b', hp_parse h b = Some (h', n, err, b') /\
    length b' = length b /\ 0 <= n <= zlen b /\ (err = None -> 0 < n);
  hp_emptyErr_final : forall h n err, hp_emptyErr h n err <> errNeedMore
}.

(** mustPeekBuffered and mustDiscard; [None] is their panic. *)
Definition mustPeekBuffered (r : reader) : option (bytes * reader) :=
  match Peek r (Buffered r) with
  | (buf, None, r) => if decide (buf = []) then None else Some (buf, r)
  | (_, Some _, _) => None
  end.

Definition mustDiscard (r : reader) (n : Z) : option reader :=
  match Discard r n with
  | (Some _, _) => None
  | (None, r) => Some r
  end.

Section Read.
Context {H : Type} `{HeadParser H}.

Definition tryRead (h : H) (r : reader) (n : nat) : option (H * reader * option error) :=
  let h := hp_reset h in
  let '(b, err, r) := Peek r n in
  if decide (length b = O) then
    match err with
    | None => None
    | Some err => Some (h, r, Some (hp_emptyErr h n err))
    end
  else
    '(b, r) ← mustPeekBuffered r;
    '(h, headersLen, errParse, b) ← hp_parse h b;
    let r := MkReader b (r_size r) (r_last r) (r_src r) in
    match errParse with
    | Some errParse => Some (h, r, Some (headerError hp_typ err errParse b (hp_secure h)))
    | None => r ← mustDiscard r headersLen; Some (h, r, None)
    end.

(** The loop of Read: [n] grows in every round that asks for more, and is at
    most the number of bytes to come, so fuel cannot run out. *)
Fixpoint readLoop (fuel : nat) (h : H) (r : reader) (n : nat) : option (H * reader * option error) :=
  match fuel with
  | O => None
  | S fuel' =>
      '(h, r, err) ← tryRead h r n;
      match err with
      | None => Some (h, r, None)
      | Some err =>
          if decide (err <> errNeedMore) then Some (hp_reset h, r, Some err)
          else readLoop fuel' h r (Buffered r + 1)
      end
  end.

Definition readHead (h : H) (r : reader) : option (H * reader * option error) :=
  readLoop (S (length (stream r))) h r 1.

(** ** Laws *)

Lemma mustPeekBuffered_spec r :
  wfReader r -> r_buf r <> [] ->
  mustPeekBuffered r = Some (r_buf r, MkReader (r_buf r) (r_size r) None (r_src r)).
Proof.
  intros [F Hz Hb] Hne. unfold mustPeekBuffered, Peek, Buffered.
  assert (peekFill (length (r_buf r)) (r_size r) (r_buf r) (src_chunks (r_src r)) = (r_buf r, src_chunks (r_src r))) as ->.
  { destruct (src_chunks (r_src r)); cbn [peekFill]; [done|]. rewrite decide_False by lia. done. }
  destruct (Nat.ltb_spec (r_size r) (length (r_buf r))); [lia|].
  destruct (Nat.ltb_spec (length (r_buf r)) (length (r_buf r))); [lia|].
  rewrite take_ge by lia. rewrite decide_False by done. unfold r_end. by destruct (r_src r).
Qed.

Lemma headerError_final typ err e b s : (err <> None \/ e <> errNeedMore) -> headerError typ err e b s <> errNeedMore.
Proof.
  unfold headerError, headerErrorMsg. intros Hd. case_decide; [by destruct s|].
  destruct err as [err|]; [|tauto]. destruct (isOnlyCRLF b); [done|]. case_decide; [by destruct s|done].
Qed.

(** tryRead in terms of the parser: [None] of Peek's error means that at least
    [n] bytes are buffered. *)
Lemma tryRead_spec h r n :
  wfReader r -> (0 < n)%nat ->
  exists err r1, sameSource r r1 /\ stream r1 = stream r /\ (exists l, r_buf r1 = r_buf r ++ l) /\
    (err = None -> (n <= length (r_buf r1))%nat) /\
    (r_buf r1 = [] -> err <> None) /\
    (err = None -> (n <= r_size r)%nat -> (n <= length (stream r))%nat) /\
    ((n <= r_size r)%nat -> (n <= length (stream r))%nat -> err = None) /\
    tryRead h r n =
      match r_buf r1, err with
      | [], Some e => Some (hp_reset h, r1, Some (hp_emptyErr (hp_reset h) n e))
      | [], None => None
      | _, _ =>
          '(h', headersLen, errParse, b') ← hp_parse (hp_reset h) (r_buf r1);
          let r2 := MkReader b' (r_size r1) None (r_src r1) in
          match errParse with
          | Some e => Some (h', r2, Some (headerError hp_typ err e b' (hp_secure h')))
          | None => r3 ← mustDiscard r2 headersLen; Some (h', r3, None)
          end
      end.
Proof.
  intros W Hn. unfold tryRead. destruct (Peek_spec r n W) as (b & err & r1 & -> & St & S & Hx & Hlast & Hpre & He).
  exists err, r1. split; [done|]. split; [done|]. split; [done|].
  assert (err = None -> (n <= length (r_buf r1))%nat) as P1.
  { intros ->. by destruct He. }
  assert (length (r_buf r1) <= length (stream r))%nat as Ls.
  { rewrite <- St. unfold stream. rewrite length_app. lia. }
  assert (length b = O <-> r_buf r1 = []) as Eb.
  { destruct err as [e|]; [destruct He as [-> _]; by split; [apply nil_length_inv|intros ->]|].
    destruct He as [-> Hl]. rewrite length_take. split; intros Q; [lia|]. rewrite Q in Hl. simpl in Hl. lia. }
  split; [done|]. split; [intros E He0; specialize (P1 He0); rewrite E in P1; simpl in P1; lia|].
  split; [intros E _; specialize (P1 E); lia|]. split.
  { intros L1 L2. destruct err as [e|]; [|done]. destruct He as [_ [[? _]|(_ & -> & _ & ?)]]; lia. }
  destruct (decide (length b = O)) as [D|D].
  - apply Eb in D. rewrite D. by destruct err.
  - assert (r_buf r1 <> []) as Hne by (by rewrite <- Eb).
    rewrite (mustPeekBuffered_spec r1 (sameSource_wf _ _ S) Hne). cbn [mbind option_bind r_size r_last r_src].
    destruct (r_buf r1) as [|c l]; [done|]. destruct err; reflexivity.
Qed.

(** Putting bytes of the same number back into the buffer. *)
Lemma rebuffer r b last :
  wfReader r -> length b = length (r_buf r) ->
  sameSource r (MkReader b (r_size r) last (r_src r)) /\
  length (stream (MkReader b (r_size r) last (r_src r))) = length (stream r).
Proof.
  intros [F Hz Hb] E. split; [apply wfReader_src; [by split|done|done|lia]|]. unfold stream. cbn [r_buf r_src].
  rewrite !length_app. lia.
Qed.

Lemma mustDiscard_spec r n :
  wfReader r -> 0 <= n <= zlen (r_buf r) ->
  exists r', mustDiscard r n = Some r' /\ stream r' = drop (Z.to_nat n) (stream r) /\ sameSource r r'.
Proof.
  intros W Hn. destruct (Discard_buffered r n W Hn) as (r' & E & H1 & H2). unfold mustDiscard. rewrite E. eauto.
Qed.

Lemma tryRead_total `{!HeadParserLaws H} h r n :
  wfReader r -> (0 < n)%nat ->
  exists h' r' err, tryRead h r n = Some (h', r', err) /\ advanced false r r' /\
    (err = None -> advanced true r r') /\
    (err = Some errNeedMore -> (n <= length (r_buf r'))%nat /\ (n <= length (stream r))%nat /\
                               length (stream r') = length (stream r)).
Proof.
  intros W Hn. destruct (tryRead_spec h r n W Hn) as (err & r1 & S1 & St & _ & P1 & P2 & _ & _ & ->).
  pose proof (sameSource_wf _ _ S1) as W1.
  assert (advanced false r r1) as A1 by (split; [done|rewrite St; lia]).
  destruct (hp_parse_total (hp_reset h) (r_buf r1)) as (h' & m & errParse & b' & Ep & Hl & Hm & Hpos).
  destruct (rebuffer r1 b' None W1 Hl) as [S2 L2].
  assert (advanced false r1 (MkReader b' (r_size r1) None (r_src r1))) as A2 by (split; [done|lia]).
  assert (exists h' r' err', ('(h', headersLen, errParse, b') ← hp_parse (hp_reset h) (r_buf r1);
          let r2 := MkReader b' (r_size r1) None (r_src r1) in
          match errParse with
          | Some e => Some (h', r2, Some (headerError hp_typ err e b' (hp_secure h')))
          | None => r3 ← mustDiscard r2 headersLen; Some (h', r3, None)
          end) = Some (h', r', err') /\ advanced false r r' /\
    (err' = None -> advanced true r r') /\
    (err' = Some errNeedMore -> (n <= length (r_buf r'))%nat /\ (n <= length (stream r))%nat /\
                               length (stream r') = length (stream r))) as Main.
  { rewrite Ep. cbn [mbind option_bind]. cbv zeta. destruct errParse as [e|].
    - do 3 eexists. split; [reflexivity|]. split; [by eapply advanced_trans|]. split; [done|]. intros [= He]. cbn [r_buf].
      assert (err = None) as He0.
      { destruct err as [x|]; [|done]. exfalso. revert He. apply headerError_final. by left. }
      specialize (P1 He0). rewrite L2, St. split_and!; [lia| |lia]. rewrite <- St. unfold stream. rewrite length_app. lia.
    - destruct (mustDiscard_spec _ m (sameSource_wf _ _ S2)) as (r3 & -> & E3 & S3); [cbn [r_buf]; lia|].
      cbn [mbind option_bind]. do 3 eexists. split; [reflexivity|]. split_and!; [| |done].
      + eapply advanced_trans; [exact A1|]. eapply advanced_trans; [exact A2|]. split; [done|]. rewrite E3, length_drop. lia.
      + intros _. split; [eauto using sameSource_trans with gobytes|].
        assert (length (r_buf r1) <= length (stream r1))%nat by (unfold stream; rewrite length_app; lia).
        specialize (Hpos eq_refl). rewrite E3, length_drop, L2, <- St. lia. }
  destruct (r_buf r1) as [|c l] eqn:Eb; [|destruct err; exact Main].
  destruct err as [e|]; [|by destruct (P2 eq_refl)].
  do 3 eexists. split; [reflexivity|]. split; [done|]. split; [done|]. intros [= He]. by apply hp_emptyErr_final in He.
Qed.

Lemma readLoop_total `{!HeadParserLaws H} fuel h r n :
  wfReader r -> (0 < n <= length (stream r) + 1)%nat -> (length (stream r) + 1 < fuel + n)%nat ->
  exists h' r' err, readLoop fuel h r n = Some (h', r', err) /\ advanced false r r' /\ err <> Some errNeedMore /\
    (err = None -> advanced true r r').
Proof.
  revert h r n. induction fuel as [|fuel IH]; intros h r n W Hn Hf; [lia|]. cbn [readLoop].
  destruct (tryRead_total h r n W) as (h1 & r1 & err & -> & A & At & Hm); [lia|]. cbn [mbind option_bind].
  destruct err as [e|]; [|eauto 10]. case_decide as D; [do 3 eexists; split; [reflexivity|]; split_and!; [done|congruence|done]|].
  destruct (decide (e = errNeedMore)) as [->|]; [|done]. destruct (Hm eq_refl) as (H1 & H2 & H3).
  assert (length (r_buf r1) <= length (stream r1))%nat by (unfold stream; rewrite length_app; lia).
  destruct (IH h1 r1 (Buffered r1 + 1)%nat) as (h3 & r3 & err & -> & A3 & Hfin & Ht);
    [eauto with gobytes|unfold Buffered; lia|unfold Buffered; lia|].
  do 3 eexists. split; [reflexivity|]. split_and!; [by eapply advanced_trans|done|].
  intros He. destruct (Ht He) as [S3 L3]. split; [destruct A as [? _]; eauto with gobytes|]. destruct A. lia.
Qed.

Lemma readHead_total `{!HeadParserLaws H} h r :
  wfReader r ->
  exists h' r' err, readHead h r = Some (h', r', err) /\ advanced false r r' /\ err <> Some errNeedMore /\
    (err = None -> advanced true r r').
Proof. intros W. apply readLoop_total; [done|lia|lia]. Qed.

(** A head [text] that the parser accepts when it is complete and asks for more
    on, leaving the buffer as it is, while it is not: it is read however it
    arrives.  [inv] is what the parser keeps of the header between attempts. *)
Section ReadText.
Context (text rest : bytes) (inv good : H -> Prop).
Context (Hneed : forall h p s, inv h -> text = p ++ s -> p <> [] -> s <> [] ->
  exists h' n, hp_parse (hp_reset h) p = Some (h', n, Some errNeedMore, p) /\ inv h').
Context (Hdone : forall h t, inv h -> exists h', hp_parse (hp_reset h) (text ++ t) = Some (h', zlen text, None, text ++ t) /\ good h').

(** One attempt reads the head or leaves everything in place. *)
Lemma tryRead_text h r n :
  inv h -> wfReader r -> stream r = text ++ rest -> (length text <= r_size r)%nat -> (0 < n <= length text)%nat ->
  (exists h' r', tryRead h r n = Some (h', r', None) /\ good h' /\ stream r' = rest /\ sameSource r r') \/
  (exists h' r', tryRead h r n = Some (h', r', Some errNeedMore) /\ inv h' /\ stream r' = text ++ rest /\ sameSource r r' /\
     (n <= length (r_buf r') < length text)%nat).
Proof.
  intros Hi W E Hz Hn.
  destruct (tryRead_spec h r n W) as (err & r1 & S1 & St & _ & P1 & P2 & _ & P4 & ->); [lia|].
  assert (err = None) as -> by (apply P4; [lia|rewrite E, length_app; lia]).
  specialize (P1 eq_refl). pose proof (sameSource_wf _ _ S1) as W1.
  assert (r_buf r1 <> []) as Hne by (intros Q; rewrite Q in P1; simpl in P1; lia).
  assert (r_buf r1 ++ concat (src_chunks (r_src r1)) = text ++ rest) as Eb by (rewrite <- E, <- St; done).
  destruct (r_buf r1) as [|c l] eqn:Q; [done|]. rewrite <- Q in *. clear c l Q.
  destruct (decide (length text <= length (r_buf r1))%nat) as [L|L]; [left|right].
  - assert (exists t, r_buf r1 = text ++ t) as [t Et].
    { exists (drop (length text) (r_buf r1)). rewrite <- (take_drop (length text) (r_buf r1)) at 1. f_equal.
      apply (f_equal (take (length text))) in Eb. rewrite take_app_exact in Eb.
      rewrite take_app_le in Eb by lia. exact Eb. }
    destruct (Hdone h t Hi) as (h' & Ep & Hg). rewrite Et, Ep. cbn [mbind option_bind].
    destruct (rebuffer r1 (text ++ t) None W1 ltac:(by rewrite Et)) as [S2 _].
    destruct (mustDiscard_spec _ (zlen text) (sameSource_wf _ _ S2)) as (r3 & -> & E3 & S3);
      [cbn [r_buf]; rewrite length_app; lia|].
    cbn [mbind option_bind]. do 2 eexists. split; [reflexivity|]. split; [done|]. split.
    + rewrite E3, Nat2Z.id. unfold stream. cbn [r_buf r_src]. rewrite <- Et, Eb. apply drop_app_exact.
    + exact (sameSource_trans _ _ _ S1 (sameSource_trans _ _ _ S2 S3)).
  - assert (exists s, text = r_buf r1 ++ s) as [s Es].
    { exists (drop (length (r_buf r1)) text). rewrite <- (take_drop (length (r_buf r1)) text) at 1. f_equal.
      apply (f_equal (take (length (r_buf r1)))) in Eb. rewrite take_app_exact in Eb.
      rewrite take_app_le in Eb by lia. symmetry; exact Eb. }
    destruct (Hneed h (r_buf r1) s Hi Es Hne) as (h' & m & Ep & Hi').
    { intros ->. rewrite app_nil_r in Es. rewrite Es in L. lia. }
    rewrite Ep. cbn [mbind option_bind]. unfold headerError. rewrite (decide_False (P := errNeedMore <> errNeedMore)) by (intros Q; by apply Q).
    destruct (rebuffer r1 (r_buf r1) None W1 eq_refl) as [S2 _].
    do 2 eexists. split; [reflexivity|]. split; [done|]. split; [by rewrite <- Eb|].
    split; [exact (sameSource_trans _ _ _ S1 S2)|]. cbn [r_buf]. lia.
Qed.

Lemma readLoop_text fuel h r n :
  inv h -> wfReader r -> stream r = text ++ rest -> (length text <= r_size r)%nat ->
  (0 < n <= length text)%nat -> (length text < fuel + n)%nat ->
  exists h' r', readLoop fuel h r n = Some (h', r', None) /\ good h' /\ stream r' = rest /\ sameSource r r'.
Proof.
  revert h r n. induction fuel as [|fuel IH]; intros h r n Hi W E Hz Hn Hf; [lia|]. cbn [readLoop].
  destruct (tryRead_text h r n Hi W E Hz Hn) as [(h' & r' & -> & Hg & E' & S)|(h' & r' & -> & Hi' & E' & S & L)];
    cbn [mbind option_bind]; [by exists h', r'|].
  rewrite (decide_False (P := errNeedMore <> errNeedMore)) by (intros Q; by apply Q).
  destruct (IH h' r' (Buffered r' + 1)%nat) as (h3 & r3 & -> & Hg & E3 & S3);
    [done|eauto with gobytes|done|by destruct S as (_ & -> & _)|unfold Buffered; lia|unfold Buffered; lia|].
  do 2 eexists. split; [reflexivity|]. split_and!; [done|done|]. by eapply sameSource_trans.
Qed.

Lemma readHead_text h r :
  inv h -> wfReader r -> stream r = text ++ rest -> (0 < length text <= r_size r)%nat ->
  exists h' r', readHead h r = Some (h', r', None) /\ good h' /\ stream r' = rest /\ sameSource r r'.
Proof. intros Hi W E Hl. apply readLoop_text; try done; try lia. rewrite E, length_app. lia. Qed.

End ReadText.

End Read.

(** ** The two header types *)

Definition requestEmptyErr (h : RequestHeader) (n : nat) (err : error) : error :=
  if decide (err = EOF) then EOF
  else if decide (err = ErrBufferFull) then ErrSmallBuffer "error when reading request headers: %s"
  else if decide (n = 1%nat) then ErrNothingRead err
  else Errorf "error when reading request headers: %s".

#[export] Instance RequestHeader_parser : HeadParser RequestHeader := {
  hp_reset := RequestHeader_resetSkipNormalize;
  hp_parse := RequestHeader_parse;
  hp_emptyErr := requestEmptyErr;
  hp_secure := rq_secureErrorLogMessage;
  hp_typ := "request"
}.

#[export] Instance RequestHeader_parser_laws : HeadParserLaws RequestHeader.
Proof.
  split.
  - intros h b. destruct (RequestHeader_parse_total h b) as (h' & n & err & b' & E & Hl & Hn).
    do 4 eexists. split; [exact E|]. split_and!; [done|lia..|]. intros ->. by eapply RequestHeader_parse_pos.
  - intros h n err. cbn. unfold requestEmptyErr. repeat case_decide; done.
Qed.

Definition responseEmptyErr (h : ResponseHeader) (n : nat) (err : error) : error :=
  if isTimeout err then ErrTimeout
  else if decide (n = 1%nat \/ err = EOF) then EOF
  else if decide (err = ErrBufferFull) then
    if rs_secureErrorLogMessage h then ErrSmallBuffer "error when reading response headers"
    else ErrSmallBuffer "error when reading response headers: %s"
  else Errorf "error when reading response headers: %s".

#[export] Instance ResponseHeader_parser : HeadParser ResponseHeader := {
  hp_reset := ResponseHeader_resetSkipNormalize;
  hp_parse := fun h b => '(h, n, err, b) ← ResponseHeader_parse h b; Some (h, Z.of_nat n, err, b);
  hp_emptyErr := responseEmptyErr;
  hp_secure := rs_secureErrorLogMessage;
  hp_typ := "response"
}.

#[export] Instance ResponseHeader_parser_laws : HeadParserLaws ResponseHeader.
Proof.
  split.
  - intros h b. cbn. destruct (ResponseHeader_parse_total h b) as (h' & n & err & b' & E & Hl & Hn). rewrite E.
    do 4 eexists. split; [reflexivity|]. split_and!; [done|lia..|]. intros ->. apply ResponseHeader_parse_pos in E. lia.
  - intros h n err. cbn. unfold responseEmptyErr. destruct (isTimeout err); [done|].
    repeat case_decide; try done. by destruct (rs_secureErrorLogMessage h).
Qed.

Definition RequestHeader_tryRead (h : RequestHeader) (r : reader) (n : nat) : option (RequestHeader * reader * option error) :=
  tryRead h r n.
Definition RequestHeader_Read (h : RequestHeader) (r : reader) : option (RequestHeader * reader * option error) :=
  readHead h r.
Definition ResponseHeader_tryRead (h : ResponseHeader) (r : reader) (n : nat) : option (ResponseHeader * reader * option error) :=
  tryRead h r n.
Definition ResponseHeader_Read (h : ResponseHeader) (r : reader) : option (ResponseHeader * reader * option error) :=
  readHead h r.

(** What the parser does with a printed head and its prefixes. *)
Lemma RequestHeader_parse_more g d h p s :
  wfRequest d g -> rq_disableNormalizing h = d -> RequestHeader_AppendBytes g [] = p ++ s -> p <> [] -> s <> [] ->
  exists h' n, hp_parse (hp_reset h) p = Some (h', n, Some errNeedMore, p) /\ rq_disableNormalizing h' = d.
Proof.
  intros W <- Ep _ Hs.
  destruct (RequestHeader_parse_prefix g (RequestHeader_resetSkipNormalize h) p s W Ep Hs) as (h' & Eh & Hd).
  exists h', 0. split; [exact Eh|]. by rewrite Hd.
Qed.

Lemma RequestHeader_parse_all g d h t :
  wfRequest d g -> rq_disableNormalizing h = d ->
  exists h', hp_parse (hp_reset h) (RequestHeader_AppendBytes g [] ++ t) =
    Some (h', zlen (RequestHeader_AppendBytes g []), None, RequestHeader_AppendBytes g [] ++ t) /\ sameRequest g h'.
Proof. intros W <-. destruct (RequestHeader_parse_print g h t W) as (h' & Eh & Hs). eauto. Qed.

Lemma RequestHeader_AppendBytes_pos g : (0 < length (RequestHeader_AppendBytes g []))%nat.
Proof. rewrite RequestHeader_AppendBytes_lines, !length_app. simpl. lia. Qed.

Lemma RequestHeader_Read_print g h r rest :
  wfRequest (rq_disableNormalizing h) g -> wfReader r -> stream r = RequestHeader_AppendBytes g [] ++ rest ->
  (length (RequestHeader_AppendBytes g []) <= r_size r)%nat ->
  exists h' r', RequestHeader_Read h r = Some (h', r', None) /\ sameRequest g h' /\ stream r' = rest /\ sameSource r r'.
Proof.
  intros W Wr E Hl. unfold RequestHeader_Read. pose proof (RequestHeader_AppendBytes_pos g).
  apply (readHead_text (RequestHeader_AppendBytes g []) rest
           (fun x => rq_disableNormalizing x = rq_disableNormalizing h) (sameRequest g)); try done.
  - intros x p s. by apply RequestHeader_parse_more.
  - intros x t. by apply RequestHeader_parse_all.
Qed.

Lemma RequestHeader_tryRead_print g h r rest :
  wfRequest (rq_disableNormalizing h) g -> wfReader r -> stream r = RequestHeader_AppendBytes g [] ++ rest ->
  (length (RequestHeader_AppendBytes g []) <= r_size r)%nat ->
  (exists h' r', RequestHeader_tryRead h r 1 = Some (h', r', None) /\ sameRequest g h' /\ stream r' = rest /\ sameSource r r') \/
  (exists h' r', RequestHeader_tryRead h r 1 = Some (h', r', Some errNeedMore) /\ rq_disableNormalizing h' = rq_disableNormalizing h /\
     stream r' = RequestHeader_AppendBytes g [] ++ rest /\ sameSource r r').
Proof.
  intros W Wr E Hl. unfold RequestHeader_tryRead. pose proof (RequestHeader_AppendBytes_pos g).
  destruct (tryRead_text (RequestHeader_AppendBytes g []) rest
           (fun x => rq_disableNormalizing x = rq_disableNormalizing h) (sameRequest g)) with (h := h) (r := r) (n := 1%nat)
    as [?|(h' & r' & ? & ? & ? & ? & _)]; try done; try lia; [..|by left|right; eauto 10].
  - intros x p s. by apply RequestHeader_parse_more.
  - intros x t. by apply RequestHeader_parse_all.
Qed.

Lemma ResponseHeader_Read_print sd g h r text rest :
  wfResponse (rs_disableNormalizing h) sd g -> ResponseHeader_AppendBytes sd g [] = Some text ->
  wfReader r -> stream r = text ++ rest -> (length text <= r_size r)%nat ->
  exists h' r', ResponseHeader_Read h r = Some (h', r', None) /\ sameResponse sd g h' /\ stream r' = rest /\ sameSource r r'.
Proof.
  intros W Et Wr E Hl. unfold ResponseHeader_Read.
  apply (readHead_text text rest (fun x => rs_disableNormalizing x = rs_disableNormalizing h) (sameResponse sd g)); try done.
  - intros x p s Hx Ep _ Hs. rewrite <- Hx in W. cbn [hp_reset hp_parse ResponseHeader_parser].
    destruct (ResponseHeader_parse_prefix sd g (ResponseHeader_resetSkipNormalize x) text p s W Et Ep Hs) as (h' & Eh & Hd).
    exists h', 0. rewrite Eh. split; [done|]. rewrite Hd. exact Hx.
  - intros x t Hx. rewrite <- Hx in W. destruct (ResponseHeader_parse_print sd g x t W) as (text' & h' & Et' & Eh & Hs).
    rewrite Et in Et'. injection Et' as <-. cbn [hp_reset hp_parse ResponseHeader_parser]. rewrite Eh. eauto.
  - split; [|done]. rewrite ResponseHeader_AppendBytes_lines in Et. apply fmap_Some in Et as (line & _ & ->).
    rewrite !length_app. simpl. lia.
Qed.

(** * Properties *)

(** A printed request head is read back, in whatever pieces it arrives and
    however the reader's buffer cuts them: Read takes exactly the bytes
    AppendBytes wrote, the bytes behind them stay unread, and every field, every
    header in order and the raw block come out as they went in. *)
Lemma RequestHeader_Read_AppendBytes (g h : RequestHeader) (r : reader) (rest : bytes)
    (W : wfRequest (rq_disableNormalizing h) g) (Wr : wfReader r)
    (E : stream r = RequestHeader_AppendBytes g [] ++ rest)
    (Hl : (length (RequestHeader_AppendBytes g []) <= r_size r)%nat) :
  exists h' r', RequestHeader_Read h r = Some (h', r', None) /\ sameRequest g h' /\ stream r' = rest.
Proof. destruct (RequestHeader_Read_print g h r rest W Wr E Hl) as (h' & r' & ? & ? & ? & _). eauto. Qed.

Definition pieces (text : bytes) : source := MkSource [take 7 text; take 30 (drop 7 text); drop 37 text] EOF.

Lemma RequestHeader_Read_AppendBytes_witness :
  let r := newReader 256 (pieces (RequestHeader_AppendBytes sampleRequest [] ++ bs "hello")) in
  (wfRequest false sampleRequest /\ wfReader r /\ stream r = RequestHeader_AppendBytes sampleRequest [] ++ bs "hello" /\
   (length (RequestHeader_AppendBytes sampleRequest []) <= 256)%nat) /\
  exists h' r', RequestHeader_Read emptyRequestHeader r = Some (h', r', None) /\ sameRequest sampleRequest h' /\
    stream r' = bs "hello".
Proof.
  match goal with |- let r := ?x in _ => assert (wfReader x) as Wr; [|assert (stream x = RequestHeader_AppendBytes sampleRequest [] ++ bs "hello") as E] end.
  { apply newReader_wf; [lia|]. vm_compute. repeat constructor; done. }
  { vm_compute. reflexivity. }
  assert (length (RequestHeader_AppendBytes sampleRequest []) <= 256)%nat as L.
  { vm_compute. lia. }
  split; [split_and!; [exact sampleRequest_wf|exact Wr|exact E|exact L]|].
  apply (RequestHeader_Read_AppendBytes sampleRequest emptyRequestHeader _ (bs "hello") sampleRequest_wf Wr E L).
Defined.

(** A printed response head is read back by the client in the same way: the
    status, the server, the content type, the length, every printed header in
    order, every cookie under its name, and the connection flag. *)
Lemma ResponseHeader_Read_AppendBytes (sd : bytes) (g h : ResponseHeader) (r : reader) (rest : bytes)
    (W : wfResponse (rs_disableNormalizing h) sd g) (Wr : wfReader r) :
  exists text, ResponseHeader_AppendBytes sd g [] = Some text /\
    (stream r = text ++ rest -> (length text <= r_size r)%nat ->
     exists h' r', ResponseHeader_Read h r = Some (h', r', None) /\ sameResponse sd g h' /\ stream r' = rest).
Proof.
  destruct (ResponseHeader_parse_print sd g h [] W) as (text & _ & Et & _). exists text. split; [done|]. intros E Hl.
  destruct (ResponseHeader_Read_print sd g h r text rest W Et Wr E Hl) as (h' & r' & ? & ? & ? & _). eauto.
Qed.

Lemma ResponseHeader_Read_AppendBytes_witness :
  let sd := bs "Thu, 01 Jan 1970 00:00:00 GMT" in
  let r := newReader 256 (pieces (default [] (ResponseHeader_AppendBytes sd sampleResponse []) ++ bs "hello")) in
  (wfResponse false sd sampleResponse /\ wfReader r) /\
  exists text, ResponseHeader_AppendBytes sd sampleResponse [] = Some text /\
    (stream r = text ++ bs "hello" -> (length text <= 256)%nat ->
     exists h' r', ResponseHeader_Read emptyResponseHeader r = Some (h', r', None) /\ sameResponse sd sampleResponse h' /\
       stream r' = bs "hello").
Proof.
  intros sd r. assert (wfReader r) as Wr.
  { apply newReader_wf; [lia|]. vm_compute. repeat constructor; done. }
  split; [split; [exact sampleResponse_wf|exact Wr]|].
  apply (ResponseHeader_Read_AppendBytes _ sampleResponse emptyResponseHeader _ (bs "hello") sampleResponse_wf Wr).
Defined.

(** No input can crash or hang the reader of request heads: Read always
    returns, never panics (mustPeekBuffered and mustDiscard included) and never
    grows the unread input. *)
Lemma RequestHeader_Read_total (h : RequestHeader) (r : reader) (W : wfReader r) :
  exists h' r' err, RequestHeader_Read h r = Some (h', r', err) /\ advanced false r r' /\ err <> Some errNeedMore.
Proof. destruct (readHead_total h r W) as (h' & r' & err & E & A & N & _). exists h', r', err. exact (conj E (conj A N)). Qed.

Lemma RequestHeader_Read_total_witness :
  let r := newReader 16 (MkSource [bs "GET"; bs " /"] NetTimeout) in
  wfReader r /\ exists h' r' err, RequestHeader_Read emptyRequestHeader r = Some (h', r', err) /\ advanced false r r' /\
    err <> Some errNeedMore.
Proof.
  match goal with |- let r := ?x in _ => assert (wfReader x) as W end.
  { apply newReader_wf; [lia|]. repeat constructor; done. }
  split; [exact W|]. apply (RequestHeader_Read_total emptyRequestHeader _ W).
Defined.

(** Nor the reader of response heads. *)
Lemma ResponseHeader_Read_total (h : ResponseHeader) (r : reader) (W : wfReader r) :
  exists h' r' err, ResponseHeader_Read h r = Some (h', r', err) /\ advanced false r r' /\ err <> Some errNeedMore.
Proof. destruct (readHead_total h r W) as (h' & r' & err & E & A & N & _). exists h', r', err. exact (conj E (conj A N)). Qed.

Lemma ResponseHeader_Read_total_witness :
  let r := newReader 16 (MkSource [bs "HTTP/1.1"; bs " 200 OK"] NetTimeout) in
  wfReader r /\ exists h' r' err, ResponseHeader_Read emptyResponseHeader r = Some (h', r', err) /\ advanced false r r' /\
    err <> Some errNeedMore.
Proof.
  match goal with |- let r := ?x in _ => assert (wfReader x) as W end.
  { apply newReader_wf; [lia|]. repeat constructor; done. }
  split; [exact W|]. apply (ResponseHeader_Read_total emptyResponseHeader _ W).
Defined.

(** A response head with a folded value is not read the same in one piece and
    in two: the attempt on the first piece has compacted the value in place, so
    the second piece is appended behind stale bytes, here inside the name of the
    Content-Length header, and the framing of the body is lost. *)
Lemma ResponseHeader_Read_fold_fragments :
  let a := bs "HTTP/1.1 200 OK" ++ strCRLF ++ bs "X: b" ++ strCRLF ++ bs " c" ++ strCRLF ++ bs "Content-" in
  let b := bs "Length: 4" ++ strCRLF ++ strCRLF ++ bs "BODY" in
  exists h1 r1 h2 r2,
    ResponseHeader_Read emptyResponseHeader (newReader 256 (MkSource [a ++ b] EOF)) = Some (h1, r1, None) /\
    ResponseHeader_Read emptyResponseHeader (newReader 256 (MkSource [a; b] EOF)) = Some (h2, r2, None) /\
    rs_contentLength h1 = 4 /\ rs_contentLength h2 = -2 /\
    snd (ResponseHeader_Peek h2 (bs "Content-T-Length")) = Some (bs "4").
Proof. do 4 eexists. split_and!; vm_compute; reflexivity. Qed.
