(* ===== verification/Http.v ===== *)
(** * http.go: requests and responses

    The Request and Response objects: body, lazily parsed URI and form
    arguments, reading and writing of whole messages.  The buffer pool and
    mime/multipart come from elsewhere and are the class [HttpLib]; a body
    stream is what its Read calls return.  Compression is in Compress, SendFile and
    the other writers in Messages, request bodies as streams in Streaming. *)
From Stdlib Require Import Strings.String.
From S2P Require Import Prelude BytesConv Consts Args Uri Cookie HeaderScan RequestHeader ResponseHeader Bufio Body HeaderRead.

(** What is not in the repository: the buffer the pool hands out, multipart
    forms read from a reader and written to a byte string, the text of an
    error. *)
Class HttpLib := {
  Form : Type;
  pool_Get : slice;
  multipart_Read : reader -> bytes -> Z -> Z -> (Form + error) * reader;
  multipart_Write : Form -> bytes -> bytes + error;
  errorText : error -> bytes
}.

(** bytebufferpool hands out empty buffers; a multipart reader only reads. *)
Class HttpLaws `{HttpLib} : Prop := {
  pool_empty : sl pool_Get = [];
  pool_cap : 0 <= sl_cap pool_Get;
  multipart_advances : forall r boundary size maxMem, wfReader r -> advanced false r (snd (multipart_Read r boundary size maxMem))
}.

(** ** Body streams *)

(** An io.Reader given as a body: a [source], or an io.LimitedReader on one. *)
Record bodyStream := MkStream { bst_source : source; bst_limit : option Z }.

(** io.CopyBuffer from the stream: the bytes and the error. *)
Definition copyZeroAlloc (st : bodyStream) : bytes * option error :=
  let all := concat (src_chunks (bst_source st)) in
  let err := src_end (bst_source st) in
  let err := if decide (err = EOF) then None else Some err in
  match bst_limit st with
  | Some n => if n <=? zlen all then (take (Z.to_nat n) all, None) else (all, err)
  | None => (all, err)
  end.

Definition limitedReaderSize (st : bodyStream) : Z := default (-1) (bst_limit st).

(** The results of the Read calls of writeBodyChunked, with its 4096-byte
    buffer.  A LimitedReader gets there only with a negative limit. *)
Fixpoint pieces4096 (fuel : nat) (c : bytes) : list bytes :=
  match fuel with
  | O => []
  | S fuel' =>
      if decide (length c <= 4096)%nat then [c] else take 4096 c :: pieces4096 fuel' (drop 4096 c)
  end.

Definition streamReads (st : bodyStream) : source :=
  match bst_limit st with
  | Some _ => MkSource [] EOF
  | None =>
      MkSource (concat (map (fun c => pieces4096 (S (length c)) c) (src_chunks (bst_source st))))
        (src_end (bst_source st))
  end.

Definition writeBodyFixedSize (w : bytes) (st : bodyStream) (size : Z) : bytes * option error :=
  let '(b, err) := copyZeroAlloc st in
  (w ++ b,
   match err with
   | Some _ => err
   | None => if zlen b =? size then None else Some (Errorf "copied %d bytes from body stream instead of %d bytes")
   end).

(** ** Byte buffers *)

(** append into a buffer; the capacity it grows to is taken as the least. *)
Definition bufSet (b : slice) (p : bytes) : slice := MkSlice p (Z.max (sl_cap b) (zlen p)).
Definition bufWrite (b : slice) (p : bytes) : slice := bufSet b (sl b ++ p).
Definition bufReset (b : slice) : slice := MkSlice [] (sl_cap b).

(** base64.StdEncoding *)
Definition base64Chars : bytes :=
  Eval vm_compute in bs "ABCDEFGHIJKLMNOPQRSTUVWXYZabcdefghijklmnopqrstuvwxyz0123456789+/".

Definition base64Char (n : Z) : byte := hexchar base64Chars (Z.land n 63).

Fixpoint base64Encode (b : bytes) : bytes :=
  match b with
  | c1 :: c2 :: c3 :: b =>
      let n := Z.lor (Z.shiftl (bz c1) 16) (Z.lor (Z.shiftl (bz c2) 8) (bz c3)) in
      base64Char (Z.shiftr n 18) :: base64Char (Z.shiftr n 12) :: base64Char (Z.shiftr n 6) :: base64Char n ::
      base64Encode b
  | [c1; c2] =>
      let n := Z.lor (Z.shiftl (bz c1) 16) (Z.shiftl (bz c2) 8) in
      [base64Char (Z.shiftr n 18); base64Char (Z.shiftr n 12); base64Char (Z.shiftr n 6); "="%byte]
  | [c1] =>
      let n := Z.shiftl (bz c1) 16 in
      [base64Char (Z.shiftr n 18); base64Char (Z.shiftr n 12); "="%byte; "="%byte]
  | [] => []
  end.

Section Http.
Context `{HttpLib}.

Record Request := MkRequest {
  req_Header : RequestHeader;
  req_uri : URI;
  req_postArgs : Args;
  req_bodyStream : option bodyStream;
  req_body : option slice;
  req_bodyRaw : option bytes;
  req_multipartForm : option Form;
  req_multipartFormBoundary : bytes;
  req_secureErrorLogMessage : bool;
  req_parsedURI : bool;
  req_parsedPostArgs : bool;
  req_keepBodyBuffer : bool;
  req_isTLS : bool;
  req_timeout : Z
}.

Definition set_req_Header (v : RequestHeader) (x : Request) : Request :=
  MkRequest v (req_uri x) (req_postArgs x) (req_bodyStream x) (req_body x) (req_bodyRaw x) (req_multipartForm x) (req_multipartFormBoundary x) (req_secureErrorLogMessage x) (req_parsedURI x) (req_parsedPostArgs x) (req_keepBodyBuffer x) (req_isTLS x) (req_timeout x).
Definition set_req_uri (v : URI) (x : Request) : Request :=
  MkRequest (req_Header x) v (req_postArgs x) (req_bodyStream x) (req_body x) (req_bodyRaw x) (req_multipartForm x) (req_multipartFormBoundary x) (req_secureErrorLogMessage x) (req_parsedURI x) (req_parsedPostArgs x) (req_keepBodyBuffer x) (req_isTLS x) (req_timeout x).
Definition set_req_postArgs (v : Args) (x : Request) : Request :=
  MkRequest (req_Header x) (req_uri x) v (req_bodyStream x) (req_body x) (req_bodyRaw x) (req_multipartForm x) (req_multipartFormBoundary x) (req_secureErrorLogMessage x) (req_parsedURI x) (req_parsedPostArgs x) (req_keepBodyBuffer x) (req_isTLS x) (req_timeout x).
Definition set_req_bodyStream (v : option bodyStream) (x : Request) : Request :=
  MkRequest (req_Header x) (req_uri x) (req_postArgs x) v (req_body x) (req_bodyRaw x) (req_multipartForm x) (req_multipartFormBoundary x) (req_secureErrorLogMessage x) (req_parsedURI x) (req_parsedPostArgs x) (req_keepBodyBuffer x) (req_isTLS x) (req_timeout x).
Definition set_req_body (v : option slice) (x : Request) : Request :=
  MkRequest (req_Header x) (req_uri x) (req_postArgs x) (req_bodyStream x) v (req_bodyRaw x) (req_multipartForm x) (req_multipartFormBoundary x) (req_secureErrorLogMessage x) (req_parsedURI x) (req_parsedPostArgs x) (req_keepBodyBuffer x) (req_isTLS x) (req_timeout x).
Definition set_req_bodyRaw (v : option bytes) (x : Request) : Request :=
  MkRequest (req_Header x) (req_uri x) (req_postArgs x) (req_bodyStream x) (req_body x) v (req_multipartForm x) (req_multipartFormBoundary x) (req_secureErrorLogMessage x) (req_parsedURI x) (req_parsedPostArgs x) (req_keepBodyBuffer x) (req_isTLS x) (req_timeout x).
Definition set_req_multipartForm (v : option Form) (x : Request) : Request :=
  MkRequest (req_Header x) (req_uri x) (req_postArgs x) (req_bodyStream x) (req_body x) (req_bodyRaw x) v (req_multipartFormBoundary x) (req_secureErrorLogMessage x) (req_parsedURI x) (req_parsedPostArgs x) (req_keepBodyBuffer x) (req_isTLS x) (req_timeout x).
Definition set_req_multipartFormBoundary (v : bytes) (x : Request) : Request :=
  MkRequest (req_Header x) (req_uri x) (req_postArgs x) (req_bodyStream x) (req_body x) (req_bodyRaw x) (req_multipartForm x) v (req_secureErrorLogMessage x) (req_parsedURI x) (req_parsedPostArgs x) (req_keepBodyBuffer x) (req_isTLS x) (req_timeout x).
Definition set_req_secureErrorLogMessage (v : bool) (x : Request) : Request :=
  MkRequest (req_Header x) (req_uri x) (req_postArgs x) (req_bodyStream x) (req_body x) (req_bodyRaw x) (req_multipartForm x) (req_multipartFormBoundary x) v (req_parsedURI x) (req_parsedPostArgs x) (req_keepBodyBuffer x) (req_isTLS x) (req_timeout x).
Definition set_req_parsedURI (v : bool) (x : Request) : Request :=
  MkRequest (req_Header x) (req_uri x) (req_postArgs x) (req_bodyStream x) (req_body x) (req_bodyRaw x) (req_multipartForm x) (req_multipartFormBoundary x) (req_secureErrorLogMessage x) v (req_parsedPostArgs x) (req_keepBodyBuffer x) (req_isTLS x) (req_timeout x).
Definition set_req_parsedPostArgs (v : bool) (x : Request) : Request :=
  MkRequest (req_Header x) (req_uri x) (req_postArgs x) (req_bodyStream x) (req_body x) (req_bodyRaw x) (req_multipartForm x) (req_multipartFormBoundary x) (req_secureErrorLogMessage x) (req_parsedURI x) v (req_keepBodyBuffer x) (req_isTLS x) (req_timeout x).
Definition set_req_keepBodyBuffer (v : bool) (x : Request) : Request :=
  MkRequest (req_Header x) (req_uri x) (req_postArgs x) (req_bodyStream x) (req_body x) (req_bodyRaw x) (req_multipartForm x) (req_multipartFormBoundary x) (req_secureErrorLogMessage x) (req_parsedURI x) (req_parsedPostArgs x) v (req_isTLS x) (req_timeout x).
Definition set_req_isTLS (v : bool) (x : Request) : Request :=
  MkRequest (req_Header x) (req_uri x) (req_postArgs x) (req_bodyStream x) (req_body x) (req_bodyRaw x) (req_multipartForm x) (req_multipartFormBoundary x) (req_secureErrorLogMessage x) (req_parsedURI x) (req_parsedPostArgs x) (req_keepBodyBuffer x) v (req_timeout x).
Definition set_req_timeout (v : Z) (x : Request) : Request :=
  MkRequest (req_Header x) (req_uri x) (req_postArgs x) (req_bodyStream x) (req_body x) (req_bodyRaw x) (req_multipartForm x) (req_multipartFormBoundary x) (req_secureErrorLogMessage x) (req_parsedURI x) (req_parsedPostArgs x) (req_keepBodyBuffer x) (req_isTLS x) v.

(** An address is given by its text. *)
Record Response := MkResponse {
  resp_Header : ResponseHeader;
  resp_ImmediateHeaderFlush : bool;
  resp_bodyStream : option bodyStream;
  resp_body : option slice;
  resp_bodyRaw : option bytes;
  resp_SkipBody : bool;
  resp_keepBodyBuffer : bool;
  resp_secureErrorLogMessage : bool;
  resp_raddr : option bytes;
  resp_laddr : option bytes
}.

Definition set_resp_Header (v : ResponseHeader) (x : Response) : Response :=
  MkResponse v (resp_ImmediateHeaderFlush x) (resp_bodyStream x) (resp_body x) (resp_bodyRaw x) (resp_SkipBody x) (resp_keepBodyBuffer x) (resp_secureErrorLogMessage x) (resp_raddr x) (resp_laddr x).
Definition set_resp_ImmediateHeaderFlush (v : bool) (x : Response) : Response :=
  MkResponse (resp_Header x) v (resp_bodyStream x) (resp_body x) (resp_bodyRaw x) (resp_SkipBody x) (resp_keepBodyBuffer x) (resp_secureErrorLogMessage x) (resp_raddr x) (resp_laddr x).
Definition set_resp_bodyStream (v : option bodyStream) (x : Response) : Response :=
  MkResponse (resp_Header x) (resp_ImmediateHeaderFlush x) v (resp_body x) (resp_bodyRaw x) (resp_SkipBody x) (resp_keepBodyBuffer x) (resp_secureErrorLogMessage x) (resp_raddr x) (resp_laddr x).
Definition set_resp_body (v : option slice) (x : Response) : Response :=
  MkResponse (resp_Header x) (resp_ImmediateHeaderFlush x) (resp_bodyStream x) v (resp_bodyRaw x) (resp_SkipBody x) (resp_keepBodyBuffer x) (resp_secureErrorLogMessage x) (resp_raddr x) (resp_laddr x).
Definition set_resp_bodyRaw (v : option bytes) (x : Response) : Response :=
  MkResponse (resp_Header x) (resp_ImmediateHeaderFlush x) (resp_bodyStream x) (resp_body x) v (resp_SkipBody x) (resp_keepBodyBuffer x) (resp_secureErrorLogMessage x) (resp_raddr x) (resp_laddr x).
Definition set_resp_SkipBody (v : bool) (x : Response) : Response :=
  MkResponse (resp_Header x) (resp_ImmediateHeaderFlush x) (resp_bodyStream x) (resp_body x) (resp_bodyRaw x) v (resp_keepBodyBuffer x) (resp_secureErrorLogMessage x) (resp_raddr x) (resp_laddr x).
Definition set_resp_keepBodyBuffer (v : bool) (x : Response) : Response :=
  MkResponse (resp_Header x) (resp_ImmediateHeaderFlush x) (resp_bodyStream x) (resp_body x) (resp_bodyRaw x) (resp_SkipBody x) v (resp_secureErrorLogMessage x) (resp_raddr x) (resp_laddr x).
Definition set_resp_secureErrorLogMessage (v : bool) (x : Response) : Response :=
  MkResponse (resp_Header x) (resp_ImmediateHeaderFlush x) (resp_bodyStream x) (resp_body x) (resp_bodyRaw x) (resp_SkipBody x) (resp_keepBodyBuffer x) v (resp_raddr x) (resp_laddr x).
Definition set_resp_raddr (v : option bytes) (x : Response) : Response :=
  MkResponse (resp_Header x) (resp_ImmediateHeaderFlush x) (resp_bodyStream x) (resp_body x) (resp_bodyRaw x) (resp_SkipBody x) (resp_keepBodyBuffer x) (resp_secureErrorLogMessage x) v (resp_laddr x).
Definition set_resp_laddr (v : option bytes) (x : Response) : Response :=
  MkResponse (resp_Header x) (resp_ImmediateHeaderFlush x) (resp_bodyStream x) (resp_body x) (resp_bodyRaw x) (resp_SkipBody x) (resp_keepBodyBuffer x) (resp_secureErrorLogMessage x) (resp_raddr x) v.


Definition emptyRequest : Request :=
  MkRequest emptyRequestHeader emptyURI emptyArgs None None None None [] false false false false false 0.
Definition emptyResponse : Response := MkResponse emptyResponseHeader false None None None false false false None None.

(** ** Request: body *)

Definition Request_closeBodyStream (x : Request) : Request := set_req_bodyStream None x.

Definition Request_RemoveMultipartFormFiles (x : Request) : Request :=
  set_req_multipartFormBoundary [] (set_req_multipartForm None x).

(** The pool takes the buffer back. *)
Definition Request_ResetBody (x : Request) : Request :=
  let x := Request_RemoveMultipartFormFiles (set_req_bodyRaw None x) in
  let x := Request_closeBodyStream x in
  match req_body x with
  | None => x
  | Some b => if req_keepBodyBuffer x then set_req_body (Some (bufReset b)) x else set_req_body None x
  end.

Definition Request_bodyBuffer (x : Request) : Request * slice :=
  let b := default pool_Get (req_body x) in (set_req_bodyRaw None (set_req_body (Some b) x), b).

(** A stream is read into the buffer; an error leaves its text there. *)
Definition Request_bodyBytes (x : Request) : Request * bytes :=
  match req_bodyRaw x with
  | Some raw => (x, raw)
  | None =>
      let x :=
        match req_bodyStream x with
        | None => x
        | Some st =>
            let '(x, b) := Request_bodyBuffer x in
            let '(p, err) := copyZeroAlloc st in
            let p := match err with Some e => errorText e | None => p end in
            set_req_body (Some (bufSet b p)) (Request_closeBodyStream x)
        end in
      (x, match req_body x with None => [] | Some b => sl b end)
  end.

Definition Request_SetBodyStream (x : Request) (st : bodyStream) (bodySize : Z) : option Request :=
  let x := set_req_bodyStream (Some st) (Request_ResetBody x) in
  h ← RequestHeader_SetContentLength (req_Header x) bodySize; Some (set_req_Header h x).
Definition Request_IsBodyStream (x : Request) : bool := bool_decide (req_bodyStream x <> None).

Definition Request_SetBodyRaw (x : Request) (body : bytes) : Request := set_req_bodyRaw (Some body) (Request_ResetBody x).

(** [None] is the nil dereference when there is no buffer. *)
Definition Request_ReleaseBody (x : Request) (size : Z) : option Request :=
  let x := set_req_bodyRaw None x in
  b ← req_body x;
  Some (if size <? sl_cap b then set_req_body None (Request_closeBodyStream x) else x).

Definition Request_SwapBody (x : Request) (body : slice) : Request * slice :=
  let '(x, bb) := Request_bodyBuffer x in
  let '(x, bb) :=
    match req_bodyStream x with
    | None => (x, bb)
    | Some st =>
        let '(p, err) := copyZeroAlloc st in
        let p := match err with Some e => errorText e | None => p end in
        (Request_closeBodyStream x, bufSet bb p)
    end in
  (set_req_body (Some body) (set_req_bodyRaw None x), bb).

Definition Request_AppendBody (x : Request) (p : bytes) : Request :=
  let x := Request_closeBodyStream (Request_RemoveMultipartFormFiles x) in
  let '(x, b) := Request_bodyBuffer x in set_req_body (Some (bufWrite b p)) x.

Definition Request_SetBody (x : Request) (body : bytes) : Request :=
  let x := Request_closeBodyStream (Request_RemoveMultipartFormFiles x) in
  let '(x, b) := Request_bodyBuffer x in set_req_body (Some (bufSet b body)) x.

Definition Request_onlyMultipartForm (x : Request) : bool :=
  match req_multipartForm x with
  | None => false
  | Some _ => match req_body x with None => true | Some b => bool_decide (length (sl b) = O) end
  end.

Definition Request_Body (x : Request) : Request * bytes :=
  match req_bodyRaw x, req_multipartForm x with
  | None, Some f =>
      if Request_onlyMultipartForm x then
        match multipart_Write f (req_multipartFormBoundary x) with
        | inl body => (x, body)
        | inr err => (x, errorText err)
        end
      else Request_bodyBytes x
  | _, _ => Request_bodyBytes x
  end.

(** ** Request: resetting and copying *)

Definition Request_resetSkipHeader (x : Request) : Request :=
  let x := Request_ResetBody x in
  let x := set_req_parsedURI false (set_req_uri (URI_Reset (req_uri x)) x) in
  let x := set_req_parsedPostArgs false (set_req_postArgs (Args_Reset (req_postArgs x)) x) in
  set_req_isTLS false x.

Definition Request_Reset (x : Request) : Request :=
  let x := Request_resetSkipHeader (set_req_Header (RequestHeader_Reset (req_Header x)) x) in
  set_req_timeout 0 x.

Definition Request_copyToSkipBody (x dst : Request) : Request :=
  let dst := Request_Reset dst in
  let dst := set_req_Header (RequestHeader_CopyTo (req_Header x) (req_Header dst)) dst in
  let dst := set_req_parsedURI (req_parsedURI x) (set_req_uri (URI_CopyTo (req_uri x) (req_uri dst)) dst) in
  let dst := set_req_parsedPostArgs (req_parsedPostArgs x)
               (set_req_postArgs (Args_CopyTo (req_postArgs x) (req_postArgs dst)) dst) in
  set_req_isTLS (req_isTLS x) dst.

Definition Request_CopyTo (x dst : Request) : Request :=
  let dst := Request_copyToSkipBody x dst in
  match req_bodyRaw x, req_body x with
  | Some raw, _ => set_req_body (bufReset <$> req_body dst) (set_req_bodyRaw (Some raw) dst)
  | None, Some b => let '(dst, bb) := Request_bodyBuffer dst in set_req_body (Some (bufSet bb (sl b))) dst
  | None, None => set_req_body (bufReset <$> req_body dst) dst
  end.

(** ** Request: URI and form arguments *)

Definition Request_parseURI (x : Request) : Request * option error :=
  if req_parsedURI x then (x, None)
  else
    let x := set_req_parsedURI true x in
    let '(u, err) := URI_parse (req_uri x) (RequestHeader_Host (req_Header x))
                       (RequestHeader_RequestURI (req_Header x)) (req_isTLS x) in
    (set_req_uri u x, err).

Definition Request_URI (x : Request) : Request * URI :=
  let '(x, _) := Request_parseURI x in (x, req_uri x).

Definition Request_SetHost (x : Request) (host : bytes) : Request :=
  let '(x, u) := Request_URI x in set_req_uri (URI_SetHost u host) x.
Definition Request_Host (x : Request) : Request * bytes := let '(x, u) := Request_URI x in (x, u_host u).

Definition Request_SetRequestURI (x : Request) (requestURI : bytes) : Request :=
  set_req_parsedURI false (set_req_Header (RequestHeader_SetRequestURI (req_Header x) requestURI) x).

Definition Request_RequestURI (x : Request) : Request * bytes :=
  let x :=
    if req_parsedURI x then
      let '(u, requestURI) := URI_RequestURI (req_uri x) in Request_SetRequestURI (set_req_uri u x) requestURI
    else x in
  (x, RequestHeader_RequestURI (req_Header x)).

Definition Request_ConnectionClose (x : Request) : bool := RequestHeader_ConnectionClose (req_Header x).
Definition Request_SetConnectionClose (x : Request) : Request :=
  set_req_Header (RequestHeader_SetConnectionClose (req_Header x)) x.

(** [None] would be a panic of ParseBytes. *)
Definition Request_parsePostArgs (x : Request) : option Request :=
  if req_parsedPostArgs x then Some x
  else
    let x := set_req_parsedPostArgs true x in
    if HasPrefix (RequestHeader_ContentType (req_Header x)) strPostArgsContentType then
      let '(x, b) := Request_bodyBytes x in
      a ← Args_ParseBytes (req_postArgs x) b; Some (set_req_postArgs a x)
    else Some x.

Definition Request_PostArgs (x : Request) : option (Request * Args) :=
  x ← Request_parsePostArgs x; Some (x, req_postArgs x).

(** ** Request: reading *)

Definition Request_MayContinue (x : Request) : bool :=
  bool_decide (default [] (RequestHeader_peek (req_Header x) strExpect) = str100Continue).

Definition defaultMaxInMemoryFileSize : Z := 16 * 1024 * 1024.

Definition readMultipartForm (r : reader) (boundary : bytes) (size maxInMemoryFileSize : Z) : (Form + error) * reader :=
  if size <=? 0 then (inr (Errorf "form size must be greater than 0. Given %d"), r)
  else
    match multipart_Read r boundary size maxInMemoryFileSize with
    | (inl f, r) => (inl f, r)
    | (inr _, r) => (inr (Errorf "cannot read multipart/form-data body: %s"), r)
    end.

(** [preParse] is the optional last argument.  [None] is a panic. *)
Definition Request_ContinueReadBody (x : Request) (r : reader) (maxBodySize : Z) (preParse : option bool)
  : option (Request * reader * option error) :=
  let contentLength := RequestHeader_realContentLength (req_Header x) in
  let boundary := default [] (RequestHeader_MultipartFormBoundary (req_Header x)) in
  let parses := (0 <? contentLength) && default true preParse in
  if (0 <? contentLength) && (0 <? maxBodySize) && (maxBodySize <? contentLength)
  then Some (x, r, Some ErrBodyTooLarge)
  else
    let x := if parses then set_req_multipartFormBoundary boundary x else x in
    if parses && bool_decide (boundary <> []) &&
       bool_decide (default [] (RequestHeader_peek (req_Header x) strContentEncoding) = [])
    then
      match readMultipartForm r boundary contentLength defaultMaxInMemoryFileSize with
      | (inl f, r) => Some (set_req_multipartForm (Some f) x, r, None)
      | (inr err, r) => Some (Request_Reset x, r, Some err)
      end
    else if contentLength =? -2 then
      if negb (RequestHeader_ignoreBody (req_Header x)) then
        h ← RequestHeader_SetContentLength (req_Header x) 0; Some (set_req_Header h x, r, None)
      else Some (x, r, None)
    else
      let '(x, bodyBuf) := Request_bodyBuffer x in
      '(r, b, err) ← readBody r contentLength maxBodySize (bufReset bodyBuf);
      let x := set_req_body (Some b) x in
      match err with
      | Some err => Some (Request_Reset x, r, Some err)
      | None => h ← RequestHeader_SetContentLength (req_Header x) (zlen (sl b)); Some (set_req_Header h x, r, None)
      end.

Definition Request_readLimitBody (x : Request) (r : reader) (maxBodySize : Z) (getOnly preParse : bool)
  : option (Request * reader * option error) :=
  if getOnly && negb (RequestHeader_IsGet (req_Header x)) then Some (x, r, Some ErrGetOnly)
  else if Request_MayContinue x then Some (x, r, None)
  else Request_ContinueReadBody x r maxBodySize (Some preParse).

Definition Request_ReadLimitBody (x : Request) (r : reader) (maxBodySize : Z)
  : option (Request * reader * option error) :=
  let x := Request_resetSkipHeader x in
  '(h, r, err) ← RequestHeader_Read (req_Header x) r;
  let x := set_req_Header h x in
  match err with
  | Some err => Some (x, r, Some err)
  | None => Request_readLimitBody x r maxBodySize false true
  end.

Definition Request_Read (x : Request) (r : reader) : option (Request * reader * option error) :=
  Request_ReadLimitBody x r 0.

(** ** Request: writing *)

Definition Request_Header_Write (x : Request) (w : bytes) : Request * bytes :=
  let '(h, b) := RequestHeader_Header (req_Header x) in (set_req_Header h x, w ++ b).

Definition Request_writeBodyStream (x : Request) (st : bodyStream) (w : bytes)
  : option (Request * bytes * option error) :=
  let contentLength := RequestHeader_ContentLength (req_Header x) in
  '(x, contentLength) ←
    (if (contentLength <? 0) && (0 <=? limitedReaderSize st) then
       h ← RequestHeader_SetContentLength (req_Header x) (limitedReaderSize st);
       Some (set_req_Header h x, limitedReaderSize st)
     else Some (x, contentLength));
  if 0 <=? contentLength then
    let '(x, w) := Request_Header_Write x w in
    let '(w, err) := writeBodyFixedSize w st contentLength in
    Some (Request_closeBodyStream x, w, err)
  else
    h ← RequestHeader_SetContentLength (req_Header x) (-1);
    let '(x, w) := Request_Header_Write (set_req_Header h x) w in
    let '(w, outcome) := writeBodyChunked w (streamReads st) in
    err ← outcome;
    Some (Request_closeBodyStream x, w, err).

Definition errRequestHostRequired : error := Errorf "missing required Host header in request".

(** The header that Write sends when the URI object is the authority. *)
Definition Request_writeURI (x : Request) : option (Request * option error) :=
  if bool_decide (length (RequestHeader_Host (req_Header x)) = O) || req_parsedURI x then
    let '(x, u) := Request_URI x in
    let host := u_host u in
    if decide (length host = O) then Some (x, Some errRequestHostRequired)
    else
      let '(u, requestURI) := URI_RequestURI u in
      let h := RequestHeader_SetRequestURI (RequestHeader_SetHost (req_Header x) host) requestURI in
      let x := set_req_Header h (set_req_uri u x) in
      if decide (length (u_username u) = O) then Some (x, None)
      else
        let auth := strBasicSpace ++ base64Encode (u_username u ++ strColon ++ u_password u) in
        h ← RequestHeader_SetBytesKV (req_Header x) strAuthorization auth;
        Some (set_req_Header h x, None)
  else Some (x, None).

(** (request, everything written to [w], error); [None] is a panic. *)
Definition Request_Write (x : Request) (w : bytes) : option (Request * bytes * option error) :=
  '(x, err) ← Request_writeURI x;
  match err with
  | Some err => Some (x, w, Some err)
  | None =>
      match req_bodyStream x with
      | Some st => Request_writeBodyStream x st w
      | None =>
          let '(x, body) := Request_bodyBytes x in
          let form : option (Request * bytes + error) :=
            match req_multipartForm x with
            | Some f =>
                if Request_onlyMultipartForm x then
                  match multipart_Write f (req_multipartFormBoundary x) with
                  | inl body =>
                      Some (inl (set_req_Header (RequestHeader_SetMultipartFormBoundary (req_Header x)
                                                   (req_multipartFormBoundary x)) x, body))
                  | inr _ => Some (inr (Errorf "error when marshaling multipart form: %s"))
                  end
                else None
            | None => None
            end in
          match default (inl (x, body)) form with
          | inr err => Some (x, w, Some err)
          | inl (x, body) =>
              let '(x, body) :=
                if decide (length body = O) then
                  let '(a, q) := Args_QueryString (req_postArgs x) in (set_req_postArgs a x, q)
                else (x, body) in
              let hasBody := bool_decide (length body <> O) || negb (RequestHeader_ignoreBody (req_Header x)) in
              x ← (if hasBody then h ← RequestHeader_SetContentLength (req_Header x) (zlen body); Some (set_req_Header h x)
                   else Some x);
              let '(x, w) := Request_Header_Write x w in
              Some (x, if hasBody then w ++ body else w, None)
          end
      end
  end.

(** ** Response *)

Definition Response_StatusCode (x : Response) : Z := ResponseHeader_StatusCode (resp_Header x).
Definition Response_SetStatusCode (x : Response) (v : Z) : Response :=
  set_resp_Header (ResponseHeader_SetStatusCode (resp_Header x) v) x.
Definition Response_ConnectionClose (x : Response) : bool := ResponseHeader_ConnectionClose (resp_Header x).
Definition Response_SetConnectionClose (x : Response) : Response :=
  set_resp_Header (ResponseHeader_SetConnectionClose (resp_Header x)) x.

Definition Response_parseNetConn (x : Response) (remoteAddr localAddr : option bytes) : Response :=
  set_resp_laddr localAddr (set_resp_raddr remoteAddr x).
Definition Response_RemoteAddr (x : Response) : option bytes := resp_raddr x.
Definition Response_LocalAddr (x : Response) : option bytes := resp_laddr x.

Definition Response_closeBodyStream (x : Response) : Response := set_resp_bodyStream None x.

Definition Response_ResetBody (x : Response) : Response :=
  let x := Response_closeBodyStream (set_resp_bodyRaw None x) in
  match resp_body x with
  | None => x
  | Some b => if resp_keepBodyBuffer x then set_resp_body (Some (bufReset b)) x else set_resp_body None x
  end.

Definition Response_bodyBuffer (x : Response) : Response * slice :=
  let b := default pool_Get (resp_body x) in (set_resp_bodyRaw None (set_resp_body (Some b) x), b).

Definition Response_bodyBytes (x : Response) : bytes :=
  match resp_bodyRaw x with
  | Some raw => raw
  | None => match resp_body x with None => [] | Some b => sl b end
  end.

Definition Response_Body (x : Response) : Response * bytes :=
  let x :=
    match resp_bodyStream x with
    | None => x
    | Some st =>
        let '(x, b) := Response_bodyBuffer x in
        let '(p, err) := copyZeroAlloc st in
        let p := match err with Some e => errorText e | None => p end in
        set_resp_body (Some (bufSet b p)) (Response_closeBodyStream x)
    end in
  (x, Response_bodyBytes x).

Definition Response_SetBodyStream (x : Response) (st : bodyStream) (bodySize : Z) : option Response :=
  let x := set_resp_bodyStream (Some st) (Response_ResetBody x) in
  h ← ResponseHeader_SetContentLength (resp_Header x) bodySize; Some (set_resp_Header h x).
Definition Response_IsBodyStream (x : Response) : bool := bool_decide (resp_bodyStream x <> None).

Definition Response_SetBodyRaw (x : Response) (body : bytes) : Response :=
  set_resp_bodyRaw (Some body) (Response_ResetBody x).

Definition Response_ReleaseBody (x : Response) (size : Z) : option Response :=
  let x := set_resp_bodyRaw None x in
  b ← resp_body x;
  Some (if size <? sl_cap b then set_resp_body None (Response_closeBodyStream x) else x).

Definition Response_SwapBody (x : Response) (body : slice) : Response * slice :=
  let '(x, bb) := Response_bodyBuffer x in
  let '(x, bb) :=
    match resp_bodyStream x with
    | None => (x, bb)
    | Some st =>
        let '(p, err) := copyZeroAlloc st in
        let p := match err with Some e => errorText e | None => p end in
        (Response_closeBodyStream x, bufSet bb p)
    end in
  (set_resp_body (Some body) (set_resp_bodyRaw None x), bb).

Definition Response_AppendBody (x : Response) (p : bytes) : Response :=
  let '(x, b) := Response_bodyBuffer (Response_closeBodyStream x) in set_resp_body (Some (bufWrite b p)) x.
Definition Response_SetBody (x : Response) (body : bytes) : Response :=
  let '(x, b) := Response_bodyBuffer (Response_closeBodyStream x) in set_resp_body (Some (bufSet b body)) x.

Definition Response_resetSkipHeader (x : Response) : Response := Response_ResetBody x.
Definition Response_Reset (x : Response) : Response :=
  let x := Response_resetSkipHeader (set_resp_Header (ResponseHeader_Reset (resp_Header x)) x) in
  let x := set_resp_laddr None (set_resp_raddr None (set_resp_SkipBody false x)) in
  set_resp_ImmediateHeaderFlush false x.

Definition Response_copyToSkipBody (x dst : Response) : Response :=
  let dst := Response_Reset dst in
  let dst := set_resp_Header (ResponseHeader_CopyTo (resp_Header x) (resp_Header dst)) dst in
  set_resp_laddr (resp_laddr x) (set_resp_raddr (resp_raddr x) (set_resp_SkipBody (resp_SkipBody x) dst)).

Definition Response_CopyTo (x dst : Response) : Response :=
  let dst := Response_copyToSkipBody x dst in
  match resp_bodyRaw x, resp_body x with
  | Some raw, _ => set_resp_body (bufReset <$> resp_body dst) (set_resp_bodyRaw (Some raw) dst)
  | None, Some b => let '(dst, bb) := Response_bodyBuffer dst in set_resp_body (Some (bufSet bb (sl b))) dst
  | None, None => set_resp_body (bufReset <$> resp_body dst) dst
  end.

Definition swapRequestBody (a b : Request) : Request * Request :=
  (set_req_bodyStream (req_bodyStream b) (set_req_bodyRaw (req_bodyRaw b) (set_req_body (req_body b) a)),
   set_req_bodyStream (req_bodyStream a) (set_req_bodyRaw (req_bodyRaw a) (set_req_body (req_body a) b))).
Definition swapResponseBody (a b : Response) : Response * Response :=
  (set_resp_bodyStream (resp_bodyStream b) (set_resp_bodyRaw (resp_bodyRaw b) (set_resp_body (resp_body b) a)),
   set_resp_bodyStream (resp_bodyStream a) (set_resp_bodyRaw (resp_bodyRaw a) (set_resp_body (resp_body a) b))).

Definition Response_mustSkipBody (x : Response) : bool :=
  resp_SkipBody x || ResponseHeader_mustSkipContentLength (resp_Header x).

(** The second head after an answer 100. *)
Definition Response_skipContinue (x : Response) (r : reader) : option (Response * reader * option error) :=
  if ResponseHeader_StatusCode (resp_Header x) =? StatusContinue then
    '(h, r, err) ← ResponseHeader_Read (resp_Header x) r; Some (set_resp_Header h x, r, err)
  else Some (x, r, None).

Definition Response_readBody (x : Response) (r : reader) (maxBodySize : Z)
  : option (Response * reader * option error) :=
  if negb (Response_mustSkipBody x) then
    let '(x, bodyBuf) := Response_bodyBuffer x in
    '(r, b, err) ← readBody r (ResponseHeader_ContentLength (resp_Header x)) maxBodySize (bufReset bodyBuf);
    let x := set_resp_body (Some b) x in
    match err with
    | Some err => Some (x, r, Some err)
    | None => h ← ResponseHeader_SetContentLength (resp_Header x) (zlen (sl b)); Some (set_resp_Header h x, r, None)
    end
  else Some (x, r, None).

Definition Response_ReadLimitBody (x : Response) (r : reader) (maxBodySize : Z)
  : option (Response * reader * option error) :=
  let x := Response_resetSkipHeader x in
  '(h, r, err) ← ResponseHeader_Read (resp_Header x) r;
  let x := set_resp_Header h x in
  match err with
  | Some err => Some (x, r, Some err)
  | None =>
      '(x, r, err) ← Response_skipContinue x r;
      match err with
      | Some err => Some (x, r, Some err)
      | None => Response_readBody x r maxBodySize
      end
  end.

Definition Response_Read (x : Response) (r : reader) : option (Response * reader * option error) :=
  Response_ReadLimitBody x r 0.

Definition Response_Header_Write (serverDate : bytes) (x : Response) (w : bytes) : option (Response * bytes) :=
  '(h, b) ← ResponseHeader_Header serverDate (resp_Header x); Some (set_resp_Header h x, w ++ b).

(** A panic of the stream is recovered as an error. *)
Definition Response_writeBodyStream (serverDate : bytes) (x : Response) (st : bodyStream) (w : bytes) (sendBody : bool)
  : option (Response * bytes * option error) :=
  let contentLength := ResponseHeader_ContentLength (resp_Header x) in
  '(x, contentLength) ←
    (if (contentLength <? 0) && (0 <=? limitedReaderSize st) then
       h ← ResponseHeader_SetContentLength (resp_Header x) (limitedReaderSize st);
       Some (set_resp_Header h x, limitedReaderSize st)
     else Some (x, contentLength));
  if 0 <=? contentLength then
    '(x, w) ← Response_Header_Write serverDate x w;
    let '(w, err) := if sendBody then writeBodyFixedSize w st contentLength else (w, None) in
    Some (Response_closeBodyStream x, w, err)
  else
    h ← ResponseHeader_SetContentLength (resp_Header x) (-1);
    '(x, w) ← Response_Header_Write serverDate (set_resp_Header h x) w;
    if sendBody then
      match writeBodyChunked w (streamReads st) with
      | (w, None) => Some (x, w, Some (Errorf "panic while writing body stream: %+v"))
      | (w, Some err) => Some (Response_closeBodyStream x, w, err)
      end
    else Some (Response_closeBodyStream x, w, None).

Definition Response_Write (serverDate : bytes) (x : Response) (w : bytes) : option (Response * bytes * option error) :=
  let sendBody := negb (Response_mustSkipBody x) in
  match resp_bodyStream x with
  | Some st => Response_writeBodyStream serverDate x st w sendBody
  | None =>
      let body := Response_bodyBytes x in
      x ← (if sendBody || bool_decide (0 < length body)%nat then
             h ← ResponseHeader_SetContentLength (resp_Header x) (zlen body); Some (set_resp_Header h x)
           else Some x);
      '(x, w) ← Response_Header_Write serverDate x w;
      Some (x, if sendBody then w ++ body else w, None)
  end.

End Http.

(** ** The Content-Length of a message *)

Lemma filter_absent (l : list argsKV) k :
  Forall (fun kv => fst kv <> k) (visitArgs l) -> filter (fun kv => key kv <> k) l = l.
Proof.
  unfold visitArgs. rewrite Forall_map. induction 1 as [|kv l Hk F IH]; [done|]. by rewrite filter_cons_True, IH.
Qed.

Lemma generic_not_chunked keys (l : list (bytes * bytes)) :
  strTransferEncoding ∈ keys -> Forall (fun kv => isSpecial keys (fst kv) = false) l ->
  Forall (fun kv => fst kv <> strTransferEncoding) l.
Proof. intros Hk F. eapply Forall_impl; [exact F|]. intros kv Hs. by apply (isSpecial_false keys). Qed.

Lemma RequestHeader_SetContentLength_total h n :
  0 <= n <= maxInt ->
  exists d, AppendUint [] n = Some d /\ d <> [] /\
    RequestHeader_SetContentLength h n =
    Some (set_rq_h (delAllArgsBytes (rq_h h) strTransferEncoding)
            (set_rq_contentLengthBytes d (set_rq_contentLength n h))).
Proof.
  intros Hn. destruct (AppendUint_spec [] n Hn) as (d & E & Hd & _). exists d. split; [done|]. split; [done|].
  unfold RequestHeader_SetContentLength. destruct (Z.leb_spec 0 n); [|lia]. by rewrite E.
Qed.

(** Setting the length that was read changes nothing. *)
Lemma RequestHeader_SetContentLength_same d x g h n :
  0 <= n <= maxInt -> RequestHeader_SetContentLength x n = Some g -> wfRequest d g -> sameRequest g h ->
  exists h', RequestHeader_SetContentLength h n = Some h' /\ sameRequest g h'.
Proof.
  intros Hn E W S. destruct (RequestHeader_SetContentLength_total x n Hn) as (b & Eb & Hb & E'). rewrite E in E'.
  destruct (RequestHeader_SetContentLength_total h n Hn) as (b' & Eb' & _ & ->). rewrite Eb in Eb'. injection Eb' as <-.
  eexists. split; [reflexivity|].
  assert (rq_contentLengthBytes g = b /\ rq_contentLength g = n) as [G1 G2] by (injection E' as E2; by rewrite E2).
  split; cbn; rewrite ?G1, ?G2; try apply S; [done|by rewrite decide_False|].
  unfold delAllArgsBytes. rewrite live_delAllArgs, filter_absent; [apply S|]. rewrite (sq_headers _ _ S).
  apply (generic_not_chunked specialRequestKeys); [apply list_elem_of_In; simpl; tauto|].
  eapply Forall_impl; [by eapply wq_generic|]. by intros ? (_ & _ & _ & ? & _).
Qed.

Lemma ResponseHeader_SetContentLength_total h n :
  0 <= n <= maxInt ->
  exists d, AppendUint [] n = Some d /\ d <> [] /\
    ResponseHeader_SetContentLength h n =
    Some (if ResponseHeader_mustSkipContentLength h then h
          else set_rs_h (delAllArgsBytes (rs_h h) strTransferEncoding)
                 (set_rs_contentLengthBytes d (set_rs_contentLength n h))).
Proof.
  intros Hn. destruct (AppendUint_spec [] n Hn) as (d & E & Hd & _). exists d. split; [done|]. split; [done|].
  unfold ResponseHeader_SetContentLength. destruct (ResponseHeader_mustSkipContentLength h); [done|].
  destruct (Z.leb_spec 0 n); [|lia]. by rewrite E.
Qed.

Lemma ResponseHeader_SetContentLength_same d sd x g h n :
  0 <= n <= maxInt -> ResponseHeader_mustSkipContentLength x = false ->
  ResponseHeader_SetContentLength x n = Some g -> wfResponse d sd g -> sameResponse sd g h ->
  rs_contentLength g = n /\
  exists h', ResponseHeader_SetContentLength h n = Some h' /\ sameResponse sd g h'.
Proof.
  intros Hn Hx E W S. destruct (ResponseHeader_SetContentLength_total x n Hn) as (b & Eb & Hb & E'). rewrite E, Hx in E'.
  assert (rs_contentLengthBytes g = b /\ rs_contentLength g = n) as [G1 G2] by (injection E' as E2; by rewrite E2). split; [done|].
  destruct (ResponseHeader_SetContentLength_total h n Hn) as (b' & Eb' & _ & ->). rewrite Eb in Eb'. injection Eb' as <-.
  eexists. split; [reflexivity|]. destruct (ResponseHeader_mustSkipContentLength h); [done|].
  pose proof (wr_printed _ _ _ W) as F. split; cbn; rewrite ?G1, ?G2; try apply S; [done|done|].
  unfold delAllArgsBytes. rewrite live_delAllArgs, filter_absent; [apply S|]. rewrite (sr_headers _ _ _ S). apply Forall_app. split.
  - unfold responseDateLine. destruct (rs_noDefaultDate g); by constructor.
  - apply (generic_not_chunked specialResponseKeys); [apply list_elem_of_In; simpl; tauto|].
    eapply Forall_impl; [exact F|]. by intros ? [_ (_ & ? & _)].
Qed.

(** ** What a header read back shares with the one printed *)

Lemma peekArgBytes_ext l1 l2 k : visitArgs l1 = visitArgs l2 -> peekArgBytes l1 k = peekArgBytes l2 k.
Proof.
  unfold visitArgs. revert l2. induction l1 as [|kv1 l1 IH]; intros [|kv2 l2]; cbn [map]; try done.
  intros [= E1 E2 E3]. cbn [peekArgBytes]. rewrite E1, E2. by rewrite (IH l2 E3).
Qed.

Lemma peek_same g h k :
  isSpecial ownRequestKeys k = false -> sameRequest g h -> RequestHeader_peek h k = RequestHeader_peek g k.
Proof.
  intros Hk S. rewrite !peek_generic by done.
  rewrite (peekArgBytes_ext _ (live (rq_h g) ++ map (fun kv => ArgsKV (fst kv) (snd kv) argsHasValue) (cookieLine g)))
    by (rewrite visitArgs_app, visitArgs_map; apply S).
  rewrite (peekArgBytes_Str (_ ++ _)), (peekArgBytes_Str (live (rq_h g))), peekArgStr_app. destruct (peekArgStr (live (rq_h g)) k); [done|].
  unfold cookieLine. destruct (Nat.ltb _ _); [|done]. cbn. rewrite decide_False; [done|].
  apply not_eq_sym, (isSpecial_false ownRequestKeys k strCookie); [done|]. apply list_elem_of_In; simpl; tauto.
Qed.

Lemma Method_same g h : sameRequest g h -> RequestHeader_Method h = RequestHeader_Method g.
Proof.
  intros S. unfold RequestHeader_Method at 1. rewrite (sq_method _ _ S). case_decide as D; [|done].
  apply nil_length_inv in D. unfold RequestHeader_Method in D. case_decide; [done|]. by rewrite D in *.
Qed.

Lemma ignoreBody_same g h : sameRequest g h -> RequestHeader_ignoreBody h = RequestHeader_ignoreBody g.
Proof. intros S. unfold RequestHeader_ignoreBody, RequestHeader_IsGet, RequestHeader_IsHead. by rewrite !(Method_same g h S). Qed.

Lemma MultipartFormBoundary_same g h :
  sameRequest g h -> RequestHeader_MultipartFormBoundary g = None -> RequestHeader_MultipartFormBoundary h = None.
Proof.
  intros S. unfold RequestHeader_MultipartFormBoundary, RequestHeader_ContentType.
  rewrite (sq_contentType _ _ S). intros Hb. unfold printedContentType.
  destruct (decide (length (rq_contentType g) = O /\ RequestHeader_ignoreBody g = false)); [reflexivity|exact Hb].
Qed.

Section Messages.
Context `{HttpLib}.

(** ** Whole requests *)

(** What Write sends behind the head, once the URI is in the header. *)
Definition requestPayload (x : Request) : bytes :=
  let b := snd (Request_bodyBytes x) in
  if decide (length b = O) then snd (Args_QueryString (req_postArgs x)) else b.

Definition requestHasBody (x : Request) : bool :=
  bool_decide (length (requestPayload x) <> O) || negb (RequestHeader_ignoreBody (req_Header x)).

Definition sentHeader (x : Request) : option RequestHeader :=
  if requestHasBody x then RequestHeader_SetContentLength (req_Header x) (zlen (requestPayload x))
  else Some (req_Header x).

(** Requests a message can carry; [h] is the header that is printed. *)
Record sendable (d : bool) (x : Request) (h : RequestHeader) : Prop := {
  sd_stream : req_bodyStream x = None;
  sd_form : req_multipartForm x = None;
  sd_header : sentHeader x = Some h;
  sd_length : requestHasBody x = false -> rq_contentLengthBytes h = [];
  sd_wf : wfRequest d h;
  sd_expect : RequestHeader_peek h strExpect <> Some str100Continue;
  sd_boundary : RequestHeader_MultipartFormBoundary h = None
}.

Lemma Request_bodyBytes_plain (x : Request) : req_bodyStream x = None -> fst (Request_bodyBytes x) = x.
Proof. intros E. unfold Request_bodyBytes. rewrite E. by destruct (req_bodyRaw x). Qed.

Lemma Request_Write_text d x x1 h w :
  Request_writeURI x = Some (x1, None) -> sendable d x1 h ->
  exists x2, Request_Write x w = Some (x2, w ++ RequestHeader_AppendBytes h [] ++ (if requestHasBody x1 then requestPayload x1 else []), None).
Proof.
  intros Eu [S F Eh _ _ _ _]. unfold Request_Write. rewrite Eu. cbn [mbind option_bind]. rewrite S.
  pose proof (Request_bodyBytes_plain x1 S) as Eb.
  unfold sentHeader, requestHasBody, requestPayload in *.
  destruct (Request_bodyBytes x1) as [xb body]. cbn [fst snd] in *. subst xb. rewrite F. cbn [default].
  destruct (decide (length body = O)) as [D|D].
  - destruct (Args_QueryString (req_postArgs x1)) as [a q]. cbn [snd] in *. cbn [set_req_postArgs req_Header] in *.
    destruct (_ || _); [rewrite Eh|injection Eh as <-]; cbn [mbind option_bind]; unfold Request_Header_Write, RequestHeader_Header; cbn;
      eexists; by rewrite <- ?app_assoc, ?app_nil_r.
  - destruct (_ || _); [rewrite Eh|injection Eh as <-]; cbn [mbind option_bind]; unfold Request_Header_Write, RequestHeader_Header; cbn;
      eexists; by rewrite <- ?app_assoc, ?app_nil_r.
Qed.

(** What ReadLimitBody starts from. *)
Record freshBody (x : Request) : Prop := {
  fb_raw : req_bodyRaw x = None;
  fb_stream : req_bodyStream x = None;
  fb_form : req_multipartForm x = None;
  fb_body : match req_body x with None => True | Some b => sl b = [] end
}.

Lemma resetSkipHeader_fresh x : freshBody (Request_resetSkipHeader x).
Proof.
  unfold Request_resetSkipHeader, Request_ResetBody. cbv zeta.
  destruct x as [? ? ? ? [b|] ? ? ? ? ? ? [] ? ?]; by split.
Qed.

Lemma freshBody_header x h : freshBody x -> freshBody (set_req_Header h x).
Proof. by intros []; split. Qed.

Lemma Request_Body_fresh x : freshBody x -> snd (Request_Body x) = [].
Proof.
  intros [R S F B]. unfold Request_Body, Request_bodyBytes. rewrite R, S, F. cbn. by destruct (req_body x).
Qed.

Lemma Request_Body_plain x b :
  req_bodyRaw x = None -> req_bodyStream x = None -> req_multipartForm x = None -> req_body x = Some b ->
  snd (Request_Body x) = sl b.
Proof. intros R S F E. unfold Request_Body, Request_bodyBytes. by rewrite R, S, F, E. Qed.


Lemma Request_MayContinue_peek (x : Request) :
  RequestHeader_peek (req_Header x) strExpect <> Some str100Continue -> Request_MayContinue x = false.
Proof.
  intros Hp. unfold Request_MayContinue. apply bool_decide_eq_false_2. intros E. apply Hp.
  destruct (RequestHeader_peek _ _); cbn in E; [by rewrite E|done].
Qed.

Lemma Request_readLimitBody_plain d x h h1 (dst : Request) r maxBodySize rest getOnly :
  sendable d x h -> sameRequest h h1 -> freshBody dst -> req_Header dst = h1 -> wfReader r ->
  stream r = (if requestHasBody x then requestPayload x else []) ++ rest ->
  zlen (requestPayload x) <= 2 ^ 31 -> (0 < maxBodySize -> zlen (requestPayload x) <= maxBodySize) ->
  (getOnly = true -> RequestHeader_IsGet h1 = true) ->
  exists y r', Request_readLimitBody dst r maxBodySize getOnly true = Some (y, r', None) /\
    sameRequest h (req_Header y) /\ snd (Request_Body y) = requestPayload x /\ stream r' = rest /\
    sameSource r r' /\ req_parsedURI y = req_parsedURI dst.
Proof.
  intros [Ss Sf Sh Sl Sw Se Sb] S Fr Eh W E Hl Hm Hg. unfold Request_readLimitBody. rewrite Eh.
  assert (getOnly && negb (RequestHeader_IsGet h1) = false) as -> by (destruct getOnly; [rewrite Hg by done|]; done).
  rewrite Request_MayContinue_peek by (rewrite Eh, (peek_same h) by done; exact Se).
  unfold Request_ContinueReadBody. cbv zeta. unfold RequestHeader_realContentLength.
  rewrite Eh, (MultipartFormBoundary_same h h1 S Sb), (sq_length _ _ S). cbn [default].
  unfold sentHeader in Sh. destruct (requestHasBody x) eqn:Hb.
  - destruct (RequestHeader_SetContentLength_same d (req_Header x) h h1 (zlen (requestPayload x))) as (h2 & E2 & S2);
      [unfold maxInt; lia|done|done|done|].
    assert (rq_contentLength h = zlen (requestPayload x) /\ rq_contentLengthBytes h <> []) as [L1 L2].
    { destruct (RequestHeader_SetContentLength_total (req_Header x) (zlen (requestPayload x))) as (b & _ & Hn & E3);
        [unfold maxInt; lia|]. rewrite Sh in E3. injection E3 as ->. done. }
    rewrite (decide_False (P := rq_contentLengthBytes h = [])), L1 by done.
    assert ((0 <? zlen (requestPayload x)) && (0 <? maxBodySize) && (maxBodySize <? zlen (requestPayload x)) = false) as ->.
    { destruct (Z.ltb_spec 0 maxBodySize); [|by rewrite andb_false_r]. rewrite (proj2 (Z.ltb_ge maxBodySize _)) by lia.
      by rewrite andb_false_r. }
    rewrite andb_false_r. cbn [andb]. destruct (Z.eqb_spec (zlen (requestPayload x)) (-2)); [lia|].
    unfold readBody, Request_bodyBuffer. destruct (Z.leb_spec 0 (zlen (requestPayload x))); [|lia].
    assert ((0 <? maxBodySize) && (maxBodySize <? zlen (requestPayload x)) = false) as ->.
    { destruct (Z.ltb_spec 0 maxBodySize); [|done]. apply Z.ltb_ge. lia. }
    match goal with |- context [appendBodyFixedSize r ?s _] =>
      destruct (appendBodyFixedSize_spec r s (length (requestPayload x)) W) as (r' & cap & -> & E4 & Es); [simpl; lia|] end.
    rewrite E, take_app_exact, drop_app_exact in *. rewrite decide_True by (rewrite length_app; lia).
    cbn [mbind option_bind sl]. cbn [app].
    destruct Fr as [Fr1 Fr2 Fr3 _].
    match goal with |- context [RequestHeader_SetContentLength (req_Header ?y) _] => assert (req_Header y = h1) as -> end.
    { by destruct (_ && _). }
    rewrite E2. cbn [mbind option_bind]. do 2 eexists. split; [reflexivity|].
    split; [exact S2|]. split; [|split; [done|split; [done|by destruct (_ && _)]]].
    rewrite (Request_Body_plain _ (MkSlice (requestPayload x) cap)); [done|..]; by destruct (_ && _).
  - rewrite (decide_True (P := rq_contentLengthBytes h = [])) by auto. cbn [Z.ltb Z.compare andb Z.eqb Z.opp].
    rewrite Eh, (ignoreBody_same h h1 S).
    unfold requestHasBody in Hb. apply orb_false_iff in Hb as [Hb1 Hb2].
    apply bool_decide_eq_false in Hb1. injection Sh as <-. rewrite Hb2.
    do 2 eexists. split; [reflexivity|]. split; [by rewrite Eh|]. split; [|by split_and!].
    rewrite Request_Body_fresh by done. symmetry. apply nil_length_inv.
    destruct (decide (length (requestPayload x) = O)); [done|exfalso; by apply Hb1].
Qed.

(** ** Whole responses *)

(** Responses with a body of known length; [h] is the header that is printed. *)
Record answerable (d : bool) (serverDate : bytes) (x : Response) (h : ResponseHeader) : Prop := {
  an_stream : resp_bodyStream x = None;
  an_body : Response_mustSkipBody x = false;
  an_header : ResponseHeader_SetContentLength (resp_Header x) (zlen (Response_bodyBytes x)) = Some h;
  an_wf : wfResponse d serverDate h
}.

Lemma Response_Write_text d sd x h w :
  answerable d sd x h ->
  exists x' head, ResponseHeader_AppendBytes sd h [] = Some head /\
    Response_Write sd x w = Some (x', w ++ head ++ Response_bodyBytes x, None).
Proof.
  intros [S B E W]. destruct (ResponseHeader_parse_print sd h (set_rs_disableNormalizing d h) [] W) as (head & _ & Eh & _).
  unfold Response_Write. rewrite S, B. cbn [negb orb]. rewrite E. cbn [mbind option_bind].
  unfold Response_Header_Write, ResponseHeader_Header. cbn [resp_Header set_resp_Header]. rewrite Eh. cbn.
  do 2 eexists. split; [reflexivity|]. by rewrite <- app_assoc.
Qed.

Lemma SetContentLength_status h n h' :
  ResponseHeader_SetContentLength h n = Some h' -> ResponseHeader_StatusCode h' = ResponseHeader_StatusCode h.
Proof.
  unfold ResponseHeader_SetContentLength. destruct (ResponseHeader_mustSkipContentLength h); [by intros [= <-]|].
  destruct (0 <=? n).
  - destruct (AppendUint [] n); [|done]. by intros [= <-].
  - destruct (n =? -2); by intros [= <-].
Qed.

Lemma mustSkip_status h h' :
  ResponseHeader_StatusCode h' = ResponseHeader_StatusCode h ->
  ResponseHeader_mustSkipContentLength h' = ResponseHeader_mustSkipContentLength h.
Proof. unfold ResponseHeader_mustSkipContentLength. by intros ->. Qed.

Lemma mustSkip_continue h : ResponseHeader_mustSkipContentLength h = false -> ResponseHeader_StatusCode h <> StatusContinue.
Proof. unfold ResponseHeader_mustSkipContentLength. by intros Hs E; rewrite E in Hs. Qed.

Lemma Response_resetSkipHeader_fields (x : Response) :
  let y := Response_resetSkipHeader x in
  resp_Header y = resp_Header x /\ resp_SkipBody y = resp_SkipBody x /\ resp_bodyRaw y = None /\ resp_bodyStream y = None /\
  (forall P : slice -> Prop, (forall b, resp_body x = Some b -> P (bufReset b)) -> match resp_body y with None => True | Some b => P b end).
Proof.
  unfold Response_resetSkipHeader, Response_ResetBody. cbv zeta.
  destruct x as [? ? ? [b|] ? ? [] ? ? ?]; cbn; split_and!; try done; intros P HP; try done; by apply HP.
Qed.

Lemma Response_Body_plain (x : Response) b :
  resp_bodyRaw x = None -> resp_bodyStream x = None -> resp_body x = Some b -> snd (Response_Body x) = sl b.
Proof. intros R S E. unfold Response_Body, Response_bodyBytes. by rewrite S; cbn; rewrite R, E. Qed.

Lemma Response_readBody_plain d sd x h (y0 : Response) r maxBodySize rest :
  answerable d sd x h -> sameResponse sd h (resp_Header y0) -> wfReader r -> resp_SkipBody y0 = false ->
  resp_bodyStream y0 = None -> stream r = Response_bodyBytes x ++ rest ->
  zlen (Response_bodyBytes x) <= 2 ^ 31 -> (0 < maxBodySize -> zlen (Response_bodyBytes x) <= maxBodySize) ->
  exists y r', Response_readBody y0 r maxBodySize = Some (y, r', None) /\
    sameResponse sd h (resp_Header y) /\ snd (Response_Body y) = Response_bodyBytes x /\ stream r' = rest.
Proof.
  intros [Ss Sb Sh Sw] S W Sk Bs E Hl Hm. apply orb_false_iff in Sb as [_ Sb].
  destruct (ResponseHeader_SetContentLength_same d sd (resp_Header x) h (resp_Header y0) (zlen (Response_bodyBytes x)))
    as (L & h2 & E2 & S2); [unfold maxInt; lia|done|done|done|done|].
  assert (Response_mustSkipBody y0 = false) as B0.
  { unfold Response_mustSkipBody. rewrite Sk. cbn [orb]. rewrite <- Sb. apply mustSkip_status.
    by rewrite (sr_status _ _ _ S), (SetContentLength_status _ _ _ Sh). }
  unfold Response_readBody, Response_bodyBuffer. rewrite B0. cbn [negb].
  cbn [resp_Header set_resp_bodyRaw set_resp_body].
  unfold ResponseHeader_ContentLength. rewrite (sr_length _ _ _ S), L.
  unfold readBody. destruct (Z.leb_spec 0 (zlen (Response_bodyBytes x))); [|lia].
  assert ((0 <? maxBodySize) && (maxBodySize <? zlen (Response_bodyBytes x)) = false) as ->.
  { destruct (Z.ltb_spec 0 maxBodySize); [|done]. apply Z.ltb_ge. lia. }
  match goal with |- context [appendBodyFixedSize r ?s _] =>
    destruct (appendBodyFixedSize_spec r s (length (Response_bodyBytes x)) W) as (r' & cap & -> & E4 & _); [simpl; lia|] end.
  rewrite E, take_app_exact, drop_app_exact in *. rewrite decide_True by (rewrite length_app; lia).
  cbn [mbind option_bind sl app]. cbn [resp_Header set_resp_bodyRaw set_resp_body]. rewrite E2. cbn [mbind option_bind].
  do 2 eexists. split; [reflexivity|]. split; [exact S2|]. split; [|done].
  by rewrite (Response_Body_plain _ (MkSlice (Response_bodyBytes x) cap)).
Qed.

(** ** No panic within a limit *)

Definition wfBuffer (b : option slice) : Prop := match b with None => True | Some b => 0 <= sl_cap b end.

Lemma resetSkipHeader_buffer (x : Request) : wfBuffer (req_body x) -> wfBuffer (req_body (Request_resetSkipHeader x)).
Proof.
  unfold Request_resetSkipHeader, Request_ResetBody. cbv zeta.
  by destruct x as [? ? ? ? [b|] ? ? ? ? ? ? [] ? ?].
Qed.

Lemma Request_Reset_buffer (x : Request) : wfBuffer (req_body x) -> wfBuffer (req_body (Request_Reset x)).
Proof.
  unfold Request_Reset, Request_resetSkipHeader, Request_ResetBody. cbv zeta.
  by destruct x as [? ? ? ? [b|] ? ? ? ? ? ? [] ? ?].
Qed.

Lemma bufferCap `{!HttpLaws} b : wfBuffer b -> 0 <= sl_cap (default pool_Get b).
Proof. destruct b; cbn; [done|]. intros _. apply pool_cap. Qed.

Lemma Request_ContinueReadBody_total `{!HttpLaws} x r maxBodySize preParse :
  freshBody x -> wfBuffer (req_body x) -> wfReader r -> 0 < maxBodySize <= 2 ^ 30 ->
  exists y r' err, Request_ContinueReadBody x r maxBodySize preParse = Some (y, r', err) /\
    (err = None -> req_multipartForm y = None -> zlen (snd (Request_Body y)) <= maxBodySize).
Proof.
  intros Fr Wb W Hm.
  assert (forall y, freshBody y -> zlen (snd (Request_Body y)) <= maxBodySize) as B0.
  { intros y Fy. rewrite Request_Body_fresh by done. simpl. lia. }
  unfold Request_ContinueReadBody. generalize (RequestHeader_realContentLength (req_Header x)). intros n. cbv zeta.
  destruct (_ && (maxBodySize <? n)); [do 3 eexists; split; [reflexivity|done]|].
  generalize ((0 <? n) && default true preParse). intros parses.
  set (x1 := if parses then _ else x).
  assert (freshBody x1 /\ req_body x1 = req_body x) as [F1 B1].
  { subst x1. destruct parses; [|done]. destruct Fr; by split. }
  clearbody x1. destruct (parses && _ && _).
  { destruct (readMultipartForm _ _ _ _) as [[f|e] r1]; (do 3 eexists; split; [reflexivity|done]). }
  destruct (n =? -2).
  { destruct (negb _); [|eauto 10].
    destruct (RequestHeader_SetContentLength_total (req_Header x1) 0) as (b & _ & _ & ->); [unfold maxInt; lia|].
    cbn [mbind option_bind]. do 3 eexists. split; [reflexivity|]. intros _ _. by apply B0, freshBody_header. }
  unfold Request_bodyBuffer.
  destruct (readBody_limited_spec r n maxBodySize (bufReset (default pool_Get (req_body x1))) W Hm)
    as (r' & b & err & -> & _ & Hb); [rewrite B1; by apply bufferCap|].
  cbn [mbind option_bind]. destruct err as [e|]; [do 3 eexists; split; [reflexivity|done]|].
  specialize (Hb eq_refl).
  match goal with |- context [RequestHeader_SetContentLength ?h (zlen (sl b))] =>
    destruct (RequestHeader_SetContentLength_total h (zlen (sl b))) as (d & _ & _ & ->); [unfold maxInt; lia|] end.
  cbn [mbind option_bind]. do 3 eexists. split; [reflexivity|]. intros _ _. destruct F1 as [? F12 F13 _].
  rewrite (Request_Body_plain _ b); done.
Qed.

(** Whatever is left in the request, reading a body does not panic. *)
Lemma Request_ContinueReadBody_safe `{!HttpLaws} x r maxBodySize preParse :
  wfBuffer (req_body x) -> wfReader r -> 0 < maxBodySize <= 2 ^ 30 ->
  exists y r' err, Request_ContinueReadBody x r maxBodySize preParse = Some (y, r', err) /\
    advanced false r r' /\ wfBuffer (req_body y).
Proof.
  intros Wb W Hm. assert (advanced false r r) as A0 by (split; [by split_and!|lia]).
  unfold Request_ContinueReadBody. generalize (RequestHeader_realContentLength (req_Header x)). intros n. cbv zeta.
  destruct (_ && (maxBodySize <? n)); [by do 3 eexists|].
  generalize ((0 <? n) && default true preParse). intros parses.
  set (x1 := if parses then _ else x). assert (req_body x1 = req_body x) as B1 by (subst x1; by destruct parses).
  clearbody x1. rewrite <- B1 in Wb. destruct (parses && _ && _).
  { assert (forall b n m, advanced false r (snd (readMultipartForm r b n m))) as Am.
    { intros b k m. unfold readMultipartForm. destruct (k <=? 0); [done|]. pose proof (multipart_advances r b k m W) as A.
      destruct (multipart_Read _ _ _ _) as [[f|e] r1]; exact A. }
    specialize (Am (default [] (RequestHeader_MultipartFormBoundary (req_Header x))) n defaultMaxInMemoryFileSize).
    destruct (readMultipartForm _ _ _ _) as [[f|e] r1]; (do 3 eexists; split; [reflexivity|]); (split; [done|]); [done|].
    by apply Request_Reset_buffer. }
  destruct (n =? -2).
  { destruct (negb _); [|by do 3 eexists].
    destruct (RequestHeader_SetContentLength_total (req_Header x1) 0) as (b & _ & _ & ->); [unfold maxInt; lia|].
    cbn [mbind option_bind]. by do 3 eexists. }
  unfold Request_bodyBuffer. pose proof (bufferCap _ Wb) as Hc.
  destruct (readBody_limited_spec r n maxBodySize (bufReset (default pool_Get (req_body x1))) W Hm) as (r' & b & err & E & A & Hb); [done|].
  rewrite E. apply readBody_cap in E; [|done]. cbn [mbind option_bind].
  destruct err as [e|]; [do 3 eexists; split; [reflexivity|]; split; [done|by apply Request_Reset_buffer]|].
  specialize (Hb eq_refl).
  match goal with |- context [RequestHeader_SetContentLength ?h (zlen (sl b))] =>
    destruct (RequestHeader_SetContentLength_total h (zlen (sl b))) as (d & _ & _ & ->); [unfold maxInt; lia|] end.
  cbn [mbind option_bind]. by do 3 eexists.
Qed.

Lemma Request_readLimitBody_safe `{!HttpLaws} x r maxBodySize getOnly preParse :
  wfBuffer (req_body x) -> wfReader r -> 0 < maxBodySize <= 2 ^ 30 ->
  exists y r' err, Request_readLimitBody x r maxBodySize getOnly preParse = Some (y, r', err) /\
    advanced false r r' /\ wfBuffer (req_body y).
Proof.
  intros Wb W Hm. assert (advanced false r r) as A0 by (split; [by split_and!|lia]).
  unfold Request_readLimitBody. destruct (_ && negb _); [by do 3 eexists|].
  destruct (Request_MayContinue x); [by do 3 eexists|]. by apply Request_ContinueReadBody_safe.
Qed.

Lemma Request_readLimitBody_total `{!HttpLaws} x r maxBodySize getOnly preParse :
  freshBody x -> wfBuffer (req_body x) -> wfReader r -> 0 < maxBodySize <= 2 ^ 30 ->
  exists y r' err, Request_readLimitBody x r maxBodySize getOnly preParse = Some (y, r', err) /\
    (err = None -> req_multipartForm y = None -> zlen (snd (Request_Body y)) <= maxBodySize).
Proof.
  intros Fr Wb W Hm. unfold Request_readLimitBody. destruct (_ && negb _); [do 3 eexists; split; [reflexivity|done]|].
  destruct (Request_MayContinue x); [|by apply Request_ContinueReadBody_total].
  do 3 eexists. split; [reflexivity|]. intros _ _. rewrite Request_Body_fresh by done. simpl. lia.
Qed.

Lemma RequestHeader_Read_safe h r :
  wfReader r -> exists h' r' err, RequestHeader_Read h r = Some (h', r', err) /\ advanced false r r'.
Proof. intros W. destruct (readHead_total h r W) as (h' & r' & err & E & A & _). exists h', r', err. exact (conj E A). Qed.

Lemma ResponseHeader_Read_safe h r :
  wfReader r -> exists h' r' err, ResponseHeader_Read h r = Some (h', r', err) /\ advanced false r r'.
Proof. intros W. destruct (readHead_total h r W) as (h' & r' & err & E & A & _). exists h', r', err. exact (conj E A). Qed.

Lemma Request_ReadLimitBody_safe `{!HttpLaws} x r maxBodySize :
  wfBuffer (req_body x) -> wfReader r -> 0 < maxBodySize <= 2 ^ 30 ->
  exists y r' err, Request_ReadLimitBody x r maxBodySize = Some (y, r', err) /\
    (err = None -> req_multipartForm y = None -> zlen (snd (Request_Body y)) <= maxBodySize).
Proof.
  intros Wb W Hm. unfold Request_ReadLimitBody.
  pose proof (resetSkipHeader_fresh x) as Fr. apply resetSkipHeader_buffer in Wb.
  revert Fr Wb. generalize (Request_resetSkipHeader x). intros x0 Fr Wb. cbv zeta.
  destruct (RequestHeader_Read_safe (req_Header x0) r W) as (h & r1 & err & -> & A).
  cbn [mbind option_bind]. destruct err as [e|]; [do 3 eexists; split; [reflexivity|done]|].
  apply Request_readLimitBody_total; [by apply freshBody_header|exact Wb|exact (advanced_wf _ _ _ A)|done].
Qed.

Lemma Response_readBody_total `{!HttpLaws} x r maxBodySize :
  resp_bodyRaw x = None -> resp_bodyStream x = None -> wfBuffer (resp_body x) ->
  (forall b, resp_body x = Some b -> sl b = []) -> wfReader r -> 0 < maxBodySize <= 2 ^ 30 ->
  exists y r' err, Response_readBody x r maxBodySize = Some (y, r', err) /\ advanced false r r' /\
    (err = None -> zlen (snd (Response_Body y)) <= maxBodySize).
Proof.
  intros R S Wb Be W Hm. unfold Response_readBody. destruct (negb _).
  - unfold Response_bodyBuffer. cbn [resp_Header set_resp_bodyRaw set_resp_body].
    destruct (readBody_limited_spec r (ResponseHeader_ContentLength (resp_Header x)) maxBodySize
                (bufReset (default pool_Get (resp_body x))) W Hm) as (r3 & b & err3 & -> & A3 & Hb); [by apply bufferCap|].
    cbn [mbind option_bind]. destruct err3 as [e|]; [do 3 eexists; split; [reflexivity|done]|]. specialize (Hb eq_refl).
    cbn [resp_Header set_resp_bodyRaw set_resp_body].
    destruct (ResponseHeader_SetContentLength_total (resp_Header x) (zlen (sl b))) as (d & _ & _ & ->); [unfold maxInt; lia|].
    cbn [mbind option_bind]. do 3 eexists. split; [reflexivity|]. split; [done|]. intros _.
    by rewrite (Response_Body_plain _ b).
  - do 3 eexists. split; [reflexivity|]. split; [split; [by split_and!|lia]|]. intros _.
    unfold Response_Body, Response_bodyBytes. rewrite S. cbn. rewrite R.
    destruct (resp_body x) as [b|]; [rewrite (Be b eq_refl)|]; simpl; lia.
Qed.

Lemma Response_skipContinue_total x r :
  wfReader r ->
  exists h r' err, Response_skipContinue x r = Some (set_resp_Header h x, r', err) /\ advanced false r r'.
Proof.
  intros W. unfold Response_skipContinue. destruct (_ =? _).
  - destruct (ResponseHeader_Read_safe (resp_Header x) r W) as (h & r1 & err & -> & A). cbn [mbind option_bind]. eauto 10.
  - exists (resp_Header x), r, None. split; [by destruct x|]. split; [by split_and!|lia].
Qed.

Lemma Response_ReadLimitBody_safe `{!HttpLaws} x r maxBodySize :
  wfBuffer (resp_body x) -> wfReader r -> 0 < maxBodySize <= 2 ^ 30 ->
  exists y r' err, Response_ReadLimitBody x r maxBodySize = Some (y, r', err) /\ advanced false r r' /\
    (err = None -> zlen (snd (Response_Body y)) <= maxBodySize).
Proof.
  intros Wb W Hm. unfold Response_ReadLimitBody.
  destruct (Response_resetSkipHeader_fields x) as (_ & _ & R & S & B).
  pose proof (B (fun b => 0 <= sl_cap b)) as B1. pose proof (B (fun b => sl b = [])) as B2. clear B.
  revert R S B1 B2. generalize (Response_resetSkipHeader x). intros x0 R S B1 B2. cbv zeta.
  destruct (ResponseHeader_Read_safe (resp_Header x0) r W) as (h & r1 & err & -> & A).
  cbn [mbind option_bind]. destruct err as [e|]; [do 3 eexists; split; [reflexivity|done]|].
  destruct (Response_skipContinue_total (set_resp_Header h x0) r1 (advanced_wf _ _ _ A)) as (h2 & r2 & err2 & -> & A2).
  cbn [mbind option_bind]. assert (advanced false r r2) as A3 by exact (advanced_trans _ _ _ _ A A2).
  destruct err2 as [e|]; [do 3 eexists; split; [reflexivity|done]|].
  destruct (Response_readBody_total (set_resp_Header h2 (set_resp_Header h x0)) r2 maxBodySize)
    as (y & r3 & err3 & -> & A4 & Hb); [done|done| | |exact (advanced_wf _ _ _ A3)|done|].
  - apply B1. intros b E. unfold wfBuffer in Wb. by rewrite E in Wb.
  - cbn. intros b E. rewrite E in B2. by apply B2.
  - do 3 eexists. split; [reflexivity|]. split; [exact (advanced_trans _ _ _ _ A3 A4)|done].
Qed.


(** ** Body buffers *)

Lemma Request_Body_nonraw (x : Request) :
  req_bodyRaw x = None -> req_bodyStream x = None -> req_multipartForm x = None ->
  snd (Request_Body x) = match req_body x with Some b => sl b | None => [] end.
Proof. intros R S F. unfold Request_Body, Request_bodyBytes. rewrite R, S, F. by destruct (req_body x). Qed.

Lemma Request_AppendBody_plain `{!HttpLaws} (x : Request) p :
  snd (Request_Body (Request_AppendBody x p)) = (match req_body x with Some b => sl b | None => [] end) ++ p.
Proof.
  unfold Request_AppendBody, Request_bodyBuffer. rewrite Request_Body_nonraw by done. cbn.
  destruct (req_body x); cbn; [done|]. by rewrite pool_empty.
Qed.

End Messages.

(** A library without multipart forms, to run the model. *)
Definition plainLib : HttpLib := {|
  Form := bytes;
  pool_Get := MkSlice [] 64;
  multipart_Read := fun r _ _ _ => (inr ErrUnexpectedEOF, r);
  multipart_Write := fun f _ => inl f;
  errorText := fun _ => bs "error"
|}.

Lemma plainLib_laws : @HttpLaws plainLib.
Proof. split; [done|done|]. intros. split; [by split_and!|cbn; lia]. Qed.

(** ** Writing, then reading *)

Lemma Request_Write_read {L : HttpLib} (x x1 dst : Request) (h : RequestHeader) (maxBodySize : Z)
    (Hu : Request_writeURI x = Some (x1, None)) (S : sendable (rq_disableNormalizing (req_Header dst)) x1 h)
    (Hl : zlen (requestPayload x1) <= 2 ^ 31) (Hm : 0 < maxBodySize -> zlen (requestPayload x1) <= maxBodySize) :
  exists x2 text, Request_Write x [] = Some (x2, text, None) /\
    forall r rest, wfReader r -> stream r = text ++ rest ->
      (length (RequestHeader_AppendBytes h []) <= r_size r)%nat ->
      exists y r', Request_ReadLimitBody dst r maxBodySize = Some (y, r', None) /\
        sameRequest h (req_Header y) /\ snd (Request_Body y) = requestPayload x1 /\ stream r' = rest.
Proof.
  destruct (Request_Write_text _ x x1 h [] Hu S) as (x2 & E). do 2 eexists. split; [exact E|].
  intros r rest W Es Hb. cbn [app] in Es. rewrite <- app_assoc in Es. unfold Request_ReadLimitBody.
  pose proof (resetSkipHeader_fresh dst) as Fr.
  assert (req_Header (Request_resetSkipHeader dst) = req_Header dst) as Eh.
  { unfold Request_resetSkipHeader, Request_ResetBody. cbv zeta. by destruct dst as [? ? ? ? [] ? ? ? ? ? ? [] ? ?]. }
  revert Fr Eh. generalize (Request_resetSkipHeader dst). intros x0 Fr Eh. cbv zeta. rewrite Eh.
  destruct (RequestHeader_Read_print h (req_Header dst) r _ (sd_wf _ _ _ S) W Es Hb) as (h1 & r1 & -> & S1 & E1 & W1).
  cbn [mbind option_bind].
  destruct (Request_readLimitBody_plain _ x1 h h1 (set_req_Header h1 x0) r1 maxBodySize rest false S S1)
    as (y & r' & Er & Sy & By & Sr & _); try done; [by apply freshBody_header|by eapply sameSource_wf|].
  by exists y, r'.
Qed.

Lemma Response_Write_read {L : HttpLib} (serverDate : bytes) (x dst : Response) (h : ResponseHeader)
    (maxBodySize : Z) (S : answerable (rs_disableNormalizing (resp_Header dst)) serverDate x h)
    (Sk : resp_SkipBody dst = false) (Hl : zlen (Response_bodyBytes x) <= 2 ^ 31)
    (Hm : 0 < maxBodySize -> zlen (Response_bodyBytes x) <= maxBodySize) :
  exists x2 head, ResponseHeader_AppendBytes serverDate h [] = Some head /\
    Response_Write serverDate x [] = Some (x2, head ++ Response_bodyBytes x, None) /\
    forall r rest, wfReader r -> stream r = head ++ Response_bodyBytes x ++ rest -> (length head <= r_size r)%nat ->
      exists y r', Response_ReadLimitBody dst r maxBodySize = Some (y, r', None) /\
        sameResponse serverDate h (resp_Header y) /\ snd (Response_Body y) = Response_bodyBytes x /\ stream r' = rest.
Proof.
  destruct (Response_Write_text _ serverDate x h [] S) as (x2 & head & Eh & E). exists x2, head. split; [done|].
  split; [exact E|]. intros r rest W Es Hb. unfold Response_ReadLimitBody.
  destruct (Response_resetSkipHeader_fields dst) as (F1 & F2 & F3 & F4 & _). rewrite Sk in F2.
  revert F1 F2 F3 F4. generalize (Response_resetSkipHeader dst). intros x0 F1 F2 F3 F4. cbv zeta. rewrite F1.
  destruct (ResponseHeader_Read_print serverDate h (resp_Header dst) r head _ (an_wf _ _ _ _ S) Eh W Es Hb)
    as (h1 & r1 & -> & S1 & E1 & W1).
  cbn [mbind option_bind]. unfold Response_skipContinue. cbn [resp_Header set_resp_Header].
  assert (ResponseHeader_StatusCode h1 <> StatusContinue) as N.
  { rewrite (sr_status _ _ _ S1), (SetContentLength_status _ _ _ (an_header _ _ _ _ S)).
    apply mustSkip_continue. pose proof (an_body _ _ _ _ S) as B. by apply orb_false_iff in B as [_ ?]. }
  rewrite (proj2 (Z.eqb_neq _ _) N). cbn [mbind option_bind].
  apply (Response_readBody_plain _ serverDate x h (set_resp_Header h1 x0) r1 maxBodySize rest S S1); try done.
  by eapply sameSource_wf.
Qed.

(** * Properties *)

(** C2. A request that is written is the request that is read: after Write, on
    any reader that gets the text in any pieces, ReadLimitBody into any (reused)
    request returns without error, leaves the following bytes unread, and finds
    every header field and the body as they were sent. *)
Theorem Request_Write_ReadLimitBody {L : HttpLib} (x x1 dst : Request) (h : RequestHeader) (maxBodySize : Z)
    (Hu : Request_writeURI x = Some (x1, None)) (S : sendable (rq_disableNormalizing (req_Header dst)) x1 h)
    (Hl : zlen (requestPayload x1) <= 2 ^ 31) (Hm : 0 < maxBodySize -> zlen (requestPayload x1) <= maxBodySize) :
  exists x2 text, Request_Write x [] = Some (x2, text, None) /\
    forall r rest, wfReader r -> stream r = text ++ rest ->
      (length (RequestHeader_AppendBytes h []) <= r_size r)%nat ->
      exists y r', Request_ReadLimitBody dst r maxBodySize = Some (y, r', None) /\
        sameRequest h (req_Header y) /\ snd (Request_Body y) = requestPayload x1 /\ stream r' = rest.
Proof. exact (Request_Write_read x x1 dst h maxBodySize Hu S Hl Hm). Qed.

Definition sampleSend : @Request plainLib :=
  @Request_SetBody plainLib
    (set_req_Header (RequestHeader_SetMethod (RequestHeader_SetUserAgent emptyRequestHeader (bs "agent")) strPost)
       (fst (@Request_URI plainLib (Request_SetRequestURI emptyRequest (bs "http://u:p@foo.com/a/../b?c=d")))))
    (bs "hello").

Lemma sampleSend_sendable :
  match Request_writeURI sampleSend with
  | Some (x1, None) => match sentHeader x1 with Some h => sendable false x1 h | None => False end
  | _ => False
  end.
Proof.
  vm_compute Request_writeURI. cbv iota beta. vm_compute sentHeader. cbv iota.
  split; try reflexivity; try done; try (vm_compute; congruence).
  split.
  - split; apply IndexByte_None; vm_compute; reflexivity.
  - apply IndexByte_None. vm_compute. reflexivity.
  - split; apply IndexByte_None; vm_compute; reflexivity.
  - closed_dec.
  - right. split; vm_compute; congruence.
  - closed_dec.
  - closed_dec.
Qed.

Lemma Request_Write_ReadLimitBody_witness :
  match Request_writeURI sampleSend with
  | Some (x1, None) =>
      match sentHeader x1 with
      | Some h =>
          (Request_writeURI sampleSend = Some (x1, None) /\ sendable false x1 h /\ zlen (requestPayload x1) <= 2 ^ 31) /\
          exists x2 text, Request_Write sampleSend [] = Some (x2, text, None) /\
            forall r rest, wfReader r -> stream r = text ++ rest ->
              (length (RequestHeader_AppendBytes h []) <= r_size r)%nat ->
              exists y r', @Request_ReadLimitBody plainLib emptyRequest r 10 = Some (y, r', None) /\
                sameRequest h (req_Header y) /\ snd (Request_Body y) = requestPayload x1 /\ stream r' = rest
      | None => False
      end
  | _ => False
  end.
Proof.
  pose proof sampleSend_sendable as S. destruct (Request_writeURI sampleSend) as [[x1 [e|]]|] eqn:E; [done| |done].
  destruct (sentHeader x1) as [h|]; [|done].
  assert (zlen (requestPayload x1) = 5) as El by (vm_compute in E; injection E as <-; vm_compute; reflexivity).
  split; [split_and!; [done|exact S|lia]|].
  apply (Request_Write_ReadLimitBody sampleSend x1 emptyRequest h 10 E S); lia.
Defined.

(** C3. A response that is written is the response that is read: status,
    headers, cookies and body come back through any reader, into any (reused)
    response, and the bytes behind it stay unread. *)
Theorem Response_Write_ReadLimitBody {L : HttpLib} (serverDate : bytes) (x dst : Response) (h : ResponseHeader)
    (maxBodySize : Z) (S : answerable (rs_disableNormalizing (resp_Header dst)) serverDate x h)
    (Sk : resp_SkipBody dst = false) (Hl : zlen (Response_bodyBytes x) <= 2 ^ 31)
    (Hm : 0 < maxBodySize -> zlen (Response_bodyBytes x) <= maxBodySize) :
  exists x2 head, ResponseHeader_AppendBytes serverDate h [] = Some head /\
    Response_Write serverDate x [] = Some (x2, head ++ Response_bodyBytes x, None) /\
    forall r rest, wfReader r -> stream r = head ++ Response_bodyBytes x ++ rest -> (length head <= r_size r)%nat ->
      exists y r', Response_ReadLimitBody dst r maxBodySize = Some (y, r', None) /\
        sameResponse serverDate h (resp_Header y) /\ snd (Response_Body y) = Response_bodyBytes x /\ stream r' = rest.
Proof. exact (Response_Write_read serverDate x dst h maxBodySize S Sk Hl Hm). Qed.

Definition sampleAnswer : Response :=
  @Response_SetBody plainLib (set_resp_Header (ResponseHeader_Set sampleResponse (bs "X-Y") (bs "z")) emptyResponse)
    (bs "not found").

Lemma sampleAnswer_answerable :
  match ResponseHeader_SetContentLength (resp_Header sampleAnswer) 9 with
  | Some h => answerable false (bs "Thu, 01 Jan 1970 00:00:00 GMT") sampleAnswer h
  | None => False
  end.
Proof.
  vm_compute ResponseHeader_SetContentLength. cbv iota.
  split; try reflexivity. split.
  - split; vm_compute; congruence.
  - closed_dec.
  - split_and!; [done|vm_compute; congruence|vm_compute; reflexivity].
  - closed_dec.
  - closed_dec.
Qed.

Lemma Response_Write_ReadLimitBody_witness :
  let serverDate := bs "Thu, 01 Jan 1970 00:00:00 GMT" in
  match ResponseHeader_SetContentLength (resp_Header sampleAnswer) 9 with
  | Some h =>
      (answerable false serverDate sampleAnswer h /\ resp_SkipBody emptyResponse = false /\
       zlen (Response_bodyBytes sampleAnswer) <= 2 ^ 31) /\
      exists x2 head, ResponseHeader_AppendBytes serverDate h [] = Some head /\
        Response_Write serverDate sampleAnswer [] = Some (x2, head ++ Response_bodyBytes sampleAnswer, None) /\
        forall r rest, wfReader r -> stream r = head ++ Response_bodyBytes sampleAnswer ++ rest -> (length head <= r_size r)%nat ->
          exists y r', @Response_ReadLimitBody plainLib emptyResponse r 0 = Some (y, r', None) /\
            sameResponse serverDate h (resp_Header y) /\ snd (@Response_Body plainLib y) = Response_bodyBytes sampleAnswer /\ stream r' = rest
  | None => False
  end.
Proof.
  pose proof sampleAnswer_answerable as S.
  destruct (ResponseHeader_SetContentLength (resp_Header sampleAnswer) 9) as [h|]; [|done].
  assert (zlen (Response_bodyBytes sampleAnswer) = 9) as El by (vm_compute; reflexivity).
  split; [split_and!; [exact S|done|lia]|].
  apply (Response_Write_ReadLimitBody _ sampleAnswer emptyResponse h 0 S); [done|lia|lia].
Defined.





(** Body after an update: SetBody and SetBodyRaw replace the body; AppendBody
    adds to the buffer, so what SetBodyRaw or a stream had set is dropped and
    not, as its comment says, appended to. *)
Lemma Request_body_updates {L : HttpLib} (HL : HttpLaws) (x : Request) (b p : bytes) :
  snd (Request_Body (Request_SetBody x b)) = b /\
  snd (Request_Body (Request_SetBodyRaw x b)) = b /\
  snd (Request_Body (Request_AppendBody (Request_SetBody x b) p)) = b ++ p /\
  snd (Request_Body (Request_AppendBody (Request_SetBodyRaw x b) p)) = p.
Proof.
  rewrite !Request_AppendBody_plain. unfold Request_SetBodyRaw, Request_ResetBody. cbv zeta.
  destruct x as [? ? ? ? [] ? ? ? ? ? ? [] ? ?]; by split_and!.
Qed.

Lemma Request_body_updates_witness :
  @HttpLaws plainLib /\
  snd (@Request_Body plainLib (Request_SetBody emptyRequest (bs "a"))) = bs "a" /\
  snd (@Request_Body plainLib (Request_SetBodyRaw emptyRequest (bs "a"))) = bs "a" /\
  snd (@Request_Body plainLib (Request_AppendBody (Request_SetBody emptyRequest (bs "a")) (bs "b"))) = bs "a" ++ bs "b" /\
  snd (@Request_Body plainLib (Request_AppendBody (Request_SetBodyRaw emptyRequest (bs "a")) (bs "b"))) = bs "b".
Proof. split; [exact plainLib_laws|]. apply (Request_body_updates plainLib_laws). Defined.

Definition reusedPost : @Request plainLib :=
  set_req_Header (RequestHeader_SetHost (RequestHeader_SetMethod emptyRequestHeader strPost) (bs "foo.com"))
    (@Request_SetBody plainLib emptyRequest (bs "hello")).

Definition staleHead : bytes :=
  Eval vm_compute in bs "GET / HTTP/1.1" ++ strCRLF ++ bs "Host: foo.com" ++ strCRLF ++ bs "Content-Length: 5" ++ strCRLF ++ strCRLF.

(** A request that carried a body and is reused as a GET without one still
    declares the old Content-Length: Write updates the field only when it sends
    a body.  The peer waits for bytes that never come. *)
Lemma Request_Write_stale_length :
  ('(x, _, _) ← Request_Write reusedPost [];
   '(_, text, err) ← Request_Write (set_req_Header (RequestHeader_SetMethod (req_Header x) strGet) (Request_ResetBody x)) [];
   Some (text, err)) = Some (staleHead, None) /\
  snd <$> @Request_Read plainLib emptyRequest (newReader 256 (MkSource [staleHead] EOF)) = Some (Some ErrUnexpectedEOF).
Proof. split; vm_compute; reflexivity. Qed.
