(* ===== verification/Machine.v ===== *)
(** * Interleaved state machines

    The components that run in several goroutines are step functions: thread
    [t] does its next atomic step, an action choosing between the outcomes the
    environment decides (a dial that fails, a timer that fires).  An atomic step
    is a critical section or a channel operation of the source.  This file has
    what they share: outcomes, reachability, schedules, and the lemmas that
    account for resources held by the threads of a list. *)
From S2P Require Import Prelude.
From stdpp Require Import relations list_tactics.

(** A step is not possible now, it panics, or it leads to a new state. *)
Inductive outcome (S : Type) :=
| Blocked
| Panics
| To (s : S).
Arguments Blocked {S}.
Arguments Panics {S}.
Arguments To {S} s.

Definition obind {S T} (f : S -> outcome T) (o : outcome S) : outcome T :=
  match o with Blocked => Blocked | Panics => Panics | To s => f s end.

(** A machine: its states, the actions of the environment and the next step of
    the thread with a given number. *)
Class Machine (S A : Type) := step : nat -> A -> S -> outcome S.

Section Machine.
Context {S A : Type} `{Machine S A}.

Inductive steps (s s' : S) : Prop :=
| steps_intro t a : step t a s = To s' -> steps s s'.

Definition reachable (s s' : S) : Prop := rtc steps s s'.

(** A schedule: which thread moves and how. *)
Fixpoint run (sched : list (nat * A)) (s : S) : outcome S :=
  match sched with
  | [] => To s
  | (t, a) :: sched => obind (run sched) (step t a s)
  end.

Lemma run_reachable sched s s' : run sched s = To s' -> reachable s s'.
Proof.
  revert s. induction sched as [|[t a] sched IH]; intros s; cbn [run].
  - intros [= ->]. apply rtc_refl.
  - destruct (step t a s) as [| |s1] eqn:E; cbn [obind]; try done. intros E1.
    eapply rtc_l; [by econstructor|]. by apply IH.
Qed.

Lemma run_app sched1 sched2 s : run (sched1 ++ sched2) s = obind (run sched2) (run sched1 s).
Proof.
  revert s. induction sched1 as [|[t a] sched1 IH]; intros s; cbn [run app]; [done|].
  destruct (step t a s); cbn [obind]; [done|done|apply IH].
Qed.

Lemma reachable_invariant (I : S -> Prop) s s' :
  I s -> (forall t a s1 s2, I s1 -> step t a s1 = To s2 -> I s2) -> reachable s s' -> I s'.
Proof. intros Hi Hs R. induction R as [|s1 s2 s3 [t a E] _ IH]; [done|]. apply IH. by eapply Hs. Qed.

End Machine.

(** ** Resources held by the entries of a list *)

Section Held.
Context {A B : Type} (f : A -> list B).

Definition held (l : list A) : list B := concat (map f l).

Lemma held_nil : held [] = [].
Proof. done. Qed.

Lemma held_app l1 l2 : held (l1 ++ l2) = held l1 ++ held l2.
Proof. unfold held. by rewrite map_app, concat_app. Qed.

Lemma held_snoc l x : held (l ++ [x]) = held l ++ f x.
Proof. rewrite held_app. unfold held. simpl. by rewrite app_nil_r. Qed.

(** Replacing one entry changes its share only. *)
Lemma held_insert l i x y :
  l !! i = Some x -> exists r, held l ≡ₚ f x ++ r /\ held (<[i := y]> l) ≡ₚ f y ++ r.
Proof.
  intros E. exists (held (take i l) ++ held (drop (S i) l)).
  pose proof (lookup_lt_Some _ _ _ E) as Hl. split.
  - rewrite <- (take_drop_middle l i x E) at 1. rewrite held_app. unfold held. simpl.
    rewrite app_assoc, (Permutation_app_comm _ (f x)). by rewrite <- app_assoc.
  - rewrite insert_take_drop by done. rewrite held_app. unfold held. simpl.
    rewrite app_assoc, (Permutation_app_comm _ (f y)). by rewrite <- app_assoc.
Qed.

Lemma held_insert_same l i x y : l !! i = Some x -> f y ≡ₚ f x -> held (<[i := y]> l) ≡ₚ held l.
Proof. intros E F. destruct (held_insert l i x y E) as (r & -> & ->). by rewrite F. Qed.

Lemma held_lookup l i x : l !! i = Some x -> exists r, held l ≡ₚ f x ++ r.
Proof. intros E. destruct (held_insert l i x x E) as (r & ? & _). eauto. Qed.

Lemma elem_of_held l b : b ∈ held l <-> exists i x, l !! i = Some x /\ b ∈ f x.
Proof.
  unfold held. split.
  - intros Hb. apply list_elem_of_In, in_concat in Hb as (y & Hy & Hb). apply in_map_iff in Hy as (x & <- & Hx).
    apply list_elem_of_In, list_elem_of_lookup in Hx as [i Hi]. apply list_elem_of_In in Hb. eauto.
  - intros (i & x & E & Hb). apply list_elem_of_In, in_concat. exists (f x). split; [|by apply list_elem_of_In].
    apply in_map_iff. exists x. split; [done|]. apply list_elem_of_In. by eapply list_elem_of_lookup_2.
Qed.

End Held.

Arguments held {A B} f l : simpl never.

(** Two entries hold their shares apart. *)
Lemma held_lookup2 {A B} (f : A -> list B) l i j x y :
  l !! i = Some x -> l !! j = Some y -> i <> j -> exists r, held f l ≡ₚ f x ++ f y ++ r.
Proof.
  intros Ei Ej D. pose proof (lookup_lt_Some _ _ _ Ei) as Hi.
  assert (held f l ≡ₚ f x ++ held f (delete i l)) as E.
  { rewrite delete_take_drop, <- (take_drop_middle l i x Ei) at 1. rewrite !held_app.
    change (held f (x :: drop (S i) l)) with (f x ++ held f (drop (S i) l)). solve_Permutation. }
  assert (exists k, delete i l !! k = Some y) as [k Ek].
  { apply list_elem_of_lookup. destruct (decide (j < i)%nat).
    - apply list_elem_of_lookup. exists j. by rewrite list_lookup_delete_lt.
    - apply list_elem_of_lookup. exists (j - 1)%nat. rewrite list_lookup_delete_ge by lia. by replace (S (j - 1)) with j by lia. }
  destruct (held_lookup f _ _ _ Ek) as [r Er]. exists r. by rewrite E, Er.
Qed.

(** An entry exchanges some of its share with a pool. *)
Lemma held_exchange {A B} (f : A -> list B) l t x y p p' :
  l !! t = Some x -> f y ++ p' ≡ₚ f x ++ p -> held f (<[t := y]> l) ++ p' ≡ₚ held f l ++ p.
Proof.
  intros L E. destruct (held_insert f l t x y L) as (r & -> & ->). rewrite <- !app_assoc, (Permutation_app_comm r p'), (Permutation_app_comm r p).
  by rewrite !app_assoc, E.
Qed.

(** What an entry holds is not in the pool, and not held by another one. *)
Lemma held_not_pool {A B} (f : A -> list B) l t x o p : NoDup (held f l ++ p) -> l !! t = Some x -> o ∈ f x -> o ∉ p.
Proof. intros N L Ho Hp. apply NoDup_app in N as (_ & N & _). apply (N o); [|done]. apply elem_of_held. by exists t, x. Qed.

Lemma held_apart {A B} (f : A -> list B) l t u x y o p : NoDup (held f l ++ p) -> l !! t = Some x -> l !! u = Some y -> t <> u -> o ∈ f x -> o ∉ f y.
Proof.
  intros N L K D Hx Hy. apply NoDup_app in N as (N & _ & _). destruct (held_lookup2 f l t u x y L K D) as [r E]. rewrite E in N.
  apply NoDup_app in N as (_ & N & _). apply (N o Hx). apply elem_of_app. by left.
Qed.

(** ** Counts: the sum of what the entries of a list contribute *)

#[local] Open Scope Z_scope.

Fixpoint total {A} (f : A -> Z) (l : list A) : Z := match l with [] => 0 | th :: l => f th + total f l end.

Lemma total_app {A} (f : A -> Z) l1 l2 : total f (l1 ++ l2) = total f l1 + total f l2.
Proof. induction l1 as [|x l IH]; cbn; lia. Qed.

Lemma total_insert {A} (f : A -> Z) l t x y : l !! t = Some x -> total f (<[t := y]> l) = total f l - f x + f y.
Proof.
  revert t. induction l as [|z l IH]; intros [|t] E; [done..| |].
  - cbn in E. injection E as ->. cbn. lia.
  - change (<[S t := y]> (z :: l)) with (z :: <[t := y]> l). cbn [total]. rewrite (IH t E). lia.
Qed.

Lemma total_nonneg {A} (f : A -> Z) l : (forall x, 0 <= f x) -> 0 <= total f l.
Proof. intros H. induction l as [|x l IH]; cbn; [lia|]. specialize (H x). lia. Qed.

Lemma total_zero {A} (f : A -> Z) l t x : (forall x, 0 <= f x) -> total f l = 0 -> l !! t = Some x -> f x = 0.
Proof.
  intros H. revert t. induction l as [|z l IH]; intros [|t] E L; cbn in *; [done..| |].
  - injection L as ->. pose proof (total_nonneg f l H). specialize (H x). lia.
  - apply (IH t); [|done]. pose proof (total_nonneg f l H). specialize (H z). lia.
Qed.

Lemma total_pos {A} (f : A -> Z) l : 0 < total f l -> exists t x, l !! t = Some x /\ 0 < f x.
Proof.
  induction l as [|x l IH]; cbn; [lia|]. intros H. destruct (Z_lt_le_dec 0 (f x)); [by exists O, x|].
  destruct IH as (t & y & L & Hy); [lia|]. by exists (S t), y.
Qed.
