(* ===== verification/ConnPool.v ===== *)
(** * client.go: the connection pool of a HostClient

    The queue of callers that wait for a connection, the one-shot cell a waiter
    receives its connection through (wantConn), and the goroutines around
    them: acquireConn, releaseConn, closeConn, dialConnFor, the cleaner.  A step
    of the machine is one critical section of connsLock, one of a wantConn's
    mutex, or a select; the loops of releaseConn and decConnsCount hold
    connsLock over several steps, because wantConn is not under it.  closeConn
    gives up its place in the count first and closes the connection in a later
    step, as the code does.  Connections are numbers, in the order they are
    dialed; time is the choice of when a timer fires and of how many idle
    connections are old. *)
From Stdlib Require Import Strings.String.
From stdpp Require Import list_tactics sets.
From S2P Require Import Prelude Machine.

(** ** wantConnQueue *)

Record wantConnQueue := MkQueue {
  q_head : list (option nat);
  q_headPos : nat;
  q_tail : list (option nat)
}.

Definition wantConnQueue_len (q : wantConnQueue) : Z := zlen (q_head q) - Z.of_nat (q_headPos q) + zlen (q_tail q).

Definition wantConnQueue_pushBack (q : wantConnQueue) (w : nat) : wantConnQueue :=
  MkQueue (q_head q) (q_headPos q) (q_tail q ++ [Some w]).

(** The element is nil when the queue is empty; [None] is an index panic. *)
Definition wantConnQueue_popFront (q : wantConnQueue) : option (option nat * wantConnQueue) :=
  if (length (q_head q) <=? q_headPos q)%nat && bool_decide (q_tail q = []) then Some (None, q)
  else
    let q := if (length (q_head q) <=? q_headPos q)%nat then MkQueue (q_tail q) 0 [] else q in
    w ← q_head q !! q_headPos q;
    Some (w, MkQueue (<[q_headPos q := None]> (q_head q)) (q_headPos q + 1) (q_tail q)).

Definition wantConnQueue_peekFront (q : wantConnQueue) : option nat :=
  if (q_headPos q <? length (q_head q))%nat then mjoin (q_head q !! q_headPos q)
  else mjoin (head (q_tail q)).

(** The loop of clearFront; a round pops one element. *)
Fixpoint clearFrontLoop (fuel : nat) (waiting : nat -> bool) (q : wantConnQueue) (cleaned : bool)
  : option (wantConnQueue * bool) :=
  match fuel with
  | O => None
  | S fuel' =>
      match wantConnQueue_peekFront q with
      | None => Some (q, cleaned)
      | Some w =>
          if waiting w then Some (q, cleaned)
          else '(_, q) ← wantConnQueue_popFront q; clearFrontLoop fuel' waiting q true
      end
  end.

Definition wantConnQueue_clearFront (waiting : nat -> bool) (q : wantConnQueue) : option (wantConnQueue * bool) :=
  clearFrontLoop (S (length (q_head q) + length (q_tail q))) waiting q false.

(** The list a queue stands for. *)
Definition represents (q : wantConnQueue) (l : list nat) : Prop :=
  (q_headPos q <= length (q_head q))%nat /\ drop (q_headPos q) (q_head q) ++ q_tail q = Some <$> l.

(** ** wantConn *)

(** [w_ready] is the channel, closed or not.  [w_taken] is not in the source:
    it records that the waiter has returned with the connection. *)
Record wantConn := MkWant { w_conn : option nat; w_err : option error; w_ready : bool; w_taken : bool }.

Definition newWant : wantConn := MkWant None None false false.

Definition wantConn_waiting (w : wantConn) : bool := negb (w_ready w).

(** [None]: closing a closed channel panics. *)
Definition closeReady (w : wantConn) : option wantConn :=
  if w_ready w then None else Some (MkWant (w_conn w) (w_err w) true (w_taken w)).

Definition wantConn_tryDeliver (w : wantConn) (conn : option nat) (err : option error) : option (wantConn * bool) :=
  if decide (w_conn w <> None \/ w_err w <> None) then Some (w, false)
  else if decide (conn = None /\ err = None) then None
  else w ← closeReady (MkWant conn err (w_ready w) (w_taken w)); Some (w, true).

(** The part of cancel under the mutex: the connection to release is returned. *)
Definition wantConn_cancel (w : wantConn) (err : error) : option (wantConn * option nat) :=
  w1 ← (if decide (w_conn w = None /\ w_err w = None) then closeReady w else Some w);
  Some (MkWant None (Some err) (w_ready w1) (w_taken w1), w_conn w).

(** ** HostClient *)

Definition DefaultMaxConnsPerHost : Z := 512.

(** [hc_waits]: MaxConnWaitTimeout is positive. *)
Record HostClient := MkHostClient {
  hc_MaxConns : Z;
  hc_waits : bool;
  hc_connsCount : Z;
  hc_conns : list nat;
  hc_connsWait : wantConnQueue;
  hc_connsCleanerRun : bool
}.

Definition set_connsCount (n : Z) (c : HostClient) : HostClient :=
  MkHostClient (hc_MaxConns c) (hc_waits c) n (hc_conns c) (hc_connsWait c) (hc_connsCleanerRun c).
Definition set_conns (l : list nat) (c : HostClient) : HostClient :=
  MkHostClient (hc_MaxConns c) (hc_waits c) (hc_connsCount c) l (hc_connsWait c) (hc_connsCleanerRun c).
Definition set_connsWait (q : wantConnQueue) (c : HostClient) : HostClient :=
  MkHostClient (hc_MaxConns c) (hc_waits c) (hc_connsCount c) (hc_conns c) q (hc_connsCleanerRun c).
Definition set_connsCleanerRun (b : bool) (c : HostClient) : HostClient :=
  MkHostClient (hc_MaxConns c) (hc_waits c) (hc_connsCount c) (hc_conns c) (hc_connsWait c) b.

Definition maxConns (c : HostClient) : Z := if hc_MaxConns c <=? 0 then DefaultMaxConnsPerHost else hc_MaxConns c.

Inductive acquired := GotConn (cc : nat) | CreateConn (startCleaner : bool) | NoConn.

(** The first critical section of acquireConn. *)
Definition acquireSection (c : HostClient) (connectionClose : bool) : HostClient * acquired :=
  match last (hc_conns c) with
  | Some cc => (set_conns (take (length (hc_conns c) - 1) (hc_conns c)) c, GotConn cc)
  | None =>
      if hc_connsCount c <? maxConns c then
        let startCleaner := negb (hc_connsCleanerRun c) && negb connectionClose in
        let c := set_connsCount (hc_connsCount c + 1) c in
        (if startCleaner then set_connsCleanerRun true c else c, CreateConn startCleaner)
      else (c, NoConn)
  end.

(** ** Goroutines *)

(** What follows the closing of a list of connections. *)
Inductive after := Finish (err : option error) | ThenCheck.

(** Where a goroutine is.  [Closing]: before the next decConnsCount, for a
    connection or, [None], for a dial that failed; [DecLoop]: in it; [CloseConn]:
    between it and the Close of the connection. *)
Inductive pc :=
| Calling (connectionClose timeoutOverridden : bool)
| Queueing (w : nat) (timeoutOverridden : bool)
| Waiting (w : nat) (timeoutOverridden : bool)
| Cancelling (w : nat) (err : error)
| Dialing
| DialFor (w : nat)
| Delivering (w cc : nat)
| DialFailed (w : nat) (err : error)
| Using (cc : nat)
| Releasing (cc : nat) (err : option error)
| RelLoop (cc : nat) (err : option error)
| RelTry (cc w : nat) (err : option error)
| Closing (ccs : list (option nat)) (k : after)
| DecLoop (c : option nat) (ccs : list (option nat)) (k : after)
| CloseConn (cc : nat) (ccs : list (option nat)) (k : after)
| Cleaner
| Check
| CloseIdle
| Done (err : option error).

(** What the environment decides. *)
Inductive action :=
| Go
| Call (connectionClose timeoutOverridden : bool)
| CallCloseIdle
| TimerFired
| DialOk
| DialErr (err : error)
| CloseIt
| Clean (n : nat).

(** [fresh]: how many connections have been dialed; [closed]: those of which Close
    has been called. *)
Record world := MkWorld {
  hc : HostClient;
  wants : list wantConn;
  lock : option nat;
  threads : list pc;
  fresh : nat;
  closed : list nat
}.

Definition set_hc (c : HostClient) (s : world) : world := MkWorld c (wants s) (lock s) (threads s) (fresh s) (closed s).
Definition set_wants (l : list wantConn) (s : world) : world := MkWorld (hc s) l (lock s) (threads s) (fresh s) (closed s).
Definition set_lock (l : option nat) (s : world) : world := MkWorld (hc s) (wants s) l (threads s) (fresh s) (closed s).
Definition set_threads (l : list pc) (s : world) : world := MkWorld (hc s) (wants s) (lock s) l (fresh s) (closed s).
Definition set_fresh (n : nat) (s : world) : world := MkWorld (hc s) (wants s) (lock s) (threads s) n (closed s).
Definition set_closed (l : list nat) (s : world) : world := MkWorld (hc s) (wants s) (lock s) (threads s) (fresh s) l.

Definition goto (t : nat) (p : pc) (s : world) : world := set_threads (<[t := p]> (threads s)) s.
Definition spawn (p : pc) (s : world) : world := set_threads (threads s ++ [p]) s.

Definition initWorld (MaxConns : Z) (waits : bool) : world :=
  MkWorld (MkHostClient MaxConns waits 0 [] (MkQueue [] 0 []) false) [] None [] 0 [].

(** A critical section needs the lock to be free. *)
Definition section (s : world) (o : outcome world) : outcome world :=
  match lock s with None => o | Some _ => Blocked end.

Definition waitingIn (s : world) (w : nat) : bool :=
  match wants s !! w with Some x => wantConn_waiting x | None => false end.

Definition must {A} (o : option A) (f : A -> outcome world) : outcome world :=
  match o with Some x => f x | None => Panics end.

(** The end of releaseConn when nobody took the connection. *)
Definition putIdle (t cc : nat) (err : option error) (s : world) : world :=
  goto t (Done err) (set_lock None (set_hc (set_conns (hc_conns (hc s) ++ [cc]) (hc s)) s)).

Definition stepCall (t : nat) (connectionClose overridden : bool) (s : world) : outcome world :=
  section s
    match acquireSection (hc s) connectionClose with
    | (c, GotConn cc) => To (goto t (Using cc) (set_hc c s))
    | (c, CreateConn startCleaner) =>
        let s := goto t Dialing (set_hc c s) in
        To (if startCleaner then spawn Cleaner s else s)
    | (c, NoConn) =>
        if negb (hc_waits c) then To (goto t (Done (Some ErrNoFreeConns)) s)
        else To (goto t (Queueing (length (wants s)) overridden) (set_wants (wants s ++ [newWant]) s))
    end.

(** queueForIdle *)
Definition stepQueue (t w : nat) (overridden : bool) (s : world) : outcome world :=
  section s
    (must (wantConnQueue_clearFront (waitingIn s) (hc_connsWait (hc s))) (fun '(q, _) =>
     To (goto t (Waiting w overridden) (set_hc (set_connsWait (wantConnQueue_pushBack q w) (hc s)) s)))).

(** The select of acquireConn, [ready] case. *)
Definition stepReady (t w : nat) (s : world) : outcome world :=
  must (wants s !! w) (fun x =>
  if w_ready x then
    match w_conn x, w_err x with
    | Some cc, None =>
        To (goto t (Using cc) (set_wants (<[w := MkWant (w_conn x) (w_err x) (w_ready x) true]> (wants s)) s))
    | _, Some err => To (goto t (Cancelling w err) s)
    | None, None => Panics
    end
  else Blocked).

Definition stepCancel (t w : nat) (err : error) (s : world) : outcome world :=
  must (wants s !! w) (fun x => must (wantConn_cancel x err) (fun '(x, conn) =>
  let s := set_wants (<[w := x]> (wants s)) s in
  To (goto t (match conn with Some cc => Releasing cc (Some err) | None => Done (Some err) end) s))).

(** dialConnFor after the dial. *)
Definition stepDeliver (t w : nat) (conn : option nat) (err : option error) (yes no : pc) (s : world) : outcome world :=
  must (wants s !! w) (fun x => must (wantConn_tryDeliver x conn err) (fun '(x, delivered) =>
  To (goto t (if delivered : bool then yes else no) (set_wants (<[w := x]> (wants s)) s)))).

Definition stepRelease (t cc : nat) (err : option error) (s : world) : outcome world :=
  section s
    (if negb (hc_waits (hc s)) then To (putIdle t cc err s)
     else To (goto t (RelLoop cc err) (set_lock (Some t) s))).

(** Does the thread hold the lock? *)
Definition holding (t : nat) (s : world) (o : outcome world) : outcome world :=
  if decide (lock s = Some t) then o else Blocked.

Definition stepRelLoop (t cc : nat) (err : option error) (s : world) : outcome world :=
  if 0 <? wantConnQueue_len (hc_connsWait (hc s)) then
    must (wantConnQueue_popFront (hc_connsWait (hc s))) (fun '(w, q) =>
    let s := set_hc (set_connsWait q (hc s)) s in
    must w (fun w => if waitingIn s w then To (goto t (RelTry cc w err) s) else To s))
  else To (putIdle t cc err s).

Definition stepRelTry (t cc w : nat) (err : option error) (s : world) : outcome world :=
  must (wants s !! w) (fun x => must (wantConn_tryDeliver x (Some cc) None) (fun '(x, delivered) =>
  let s := set_wants (<[w := x]> (wants s)) s in
  To (if delivered : bool then goto t (Done err) (set_lock None s) else putIdle t cc err s))).

(** After decConnsCount: closeConn goes on to close its connection. *)
Definition afterDec (c : option nat) (ccs : list (option nat)) (k : after) : pc :=
  match c with Some cc => CloseConn cc ccs k | None => Closing ccs k end.

(** decConnsCount, called by closeConn and after a failed dial. *)
Definition stepClose (t : nat) (ccs : list (option nat)) (k : after) (s : world) : outcome world :=
  match ccs with
  | [] => To (goto t (match k with Finish err => Done err | ThenCheck => Check end) s)
  | c :: ccs =>
      section s
        (if negb (hc_waits (hc s)) then
           To (goto t (afterDec c ccs k) (set_hc (set_connsCount (hc_connsCount (hc s) - 1) (hc s)) s))
         else To (goto t (DecLoop c ccs k) (set_lock (Some t) s)))
  end.

Definition stepDecLoop (t : nat) (c : option nat) (ccs : list (option nat)) (k : after) (s : world) : outcome world :=
  if 0 <? wantConnQueue_len (hc_connsWait (hc s)) then
    must (wantConnQueue_popFront (hc_connsWait (hc s))) (fun '(w, q) =>
    let s := set_hc (set_connsWait q (hc s)) s in
    must w (fun w =>
    if waitingIn s w then To (spawn (DialFor w) (goto t (afterDec c ccs k) (set_lock None s))) else To s))
  else To (goto t (afterDec c ccs k) (set_lock None (set_hc (set_connsCount (hc_connsCount (hc s) - 1) (hc s)) s))).

(** The rest of closeConn: cc.c.Close and releaseClientConn. *)
Definition stepCloseConn (t cc : nat) (ccs : list (option nat)) (k : after) (s : world) : outcome world :=
  To (goto t (Closing ccs k) (set_closed (cc :: closed s) s)).

(** The first section of connsCleaner, [n] idle connections being old, and
    CloseIdleConnections, for which all are. *)
Definition stepClean (t n : nat) (k : after) (s : world) : outcome world :=
  section s
    (To (goto t (Closing (Some <$> take n (hc_conns (hc s))) k) (set_hc (set_conns (drop n (hc_conns (hc s))) (hc s)) s))).

Definition stepCheck (t : nat) (s : world) : outcome world :=
  section s
    (if hc_connsCount (hc s) =? 0 then To (goto t (Done None) (set_hc (set_connsCleanerRun false (hc s)) s))
     else To (goto t Cleaner s)).

#[export] Instance pool_machine : Machine world action := fun t a s =>
  match threads s !! t with
  | None =>
      match a with
      | Call connectionClose overridden =>
          if decide (t = length (threads s)) then To (spawn (Calling connectionClose overridden) s) else Blocked
      | CallCloseIdle => if decide (t = length (threads s)) then To (spawn CloseIdle s) else Blocked
      | _ => Blocked
      end
  | Some p =>
      match p, a with
      | Calling connectionClose overridden, Go => stepCall t connectionClose overridden s
      | Queueing w overridden, Go => stepQueue t w overridden s
      | Waiting w _, Go => stepReady t w s
      | Waiting w overridden, TimerFired =>
          To (goto t (Cancelling w (if overridden then ErrTimeout else ErrNoFreeConns)) s)
      | Cancelling w err, Go => stepCancel t w err s
      | Dialing, DialOk => To (goto t (Using (fresh s)) (set_fresh (S (fresh s)) s))
      | Dialing, DialErr err => To (goto t (Closing [None] (Finish (Some err))) s)
      | DialFor w, DialOk => To (goto t (Delivering w (fresh s)) (set_fresh (S (fresh s)) s))
      | DialFor w, DialErr err => To (goto t (DialFailed w err) s)
      | Delivering w cc, Go => stepDeliver t w (Some cc) None (Done None) (Releasing cc None) s
      | DialFailed w err, Go =>
          let p := Closing [None] (Finish None) in stepDeliver t w None (Some err) p p s
      | Using cc, Go => To (goto t (Releasing cc None) s)
      | Using cc, CloseIt => To (goto t (Closing [Some cc] (Finish None)) s)
      | Releasing cc err, Go => stepRelease t cc err s
      | RelLoop cc err, Go => holding t s (stepRelLoop t cc err s)
      | RelTry cc w err, Go => holding t s (stepRelTry t cc w err s)
      | Closing ccs k, Go => stepClose t ccs k s
      | DecLoop c ccs k, Go => holding t s (stepDecLoop t c ccs k s)
      | CloseConn cc ccs k, Go => stepCloseConn t cc ccs k s
      | Cleaner, Clean n => stepClean t n ThenCheck s
      | Check, Go => stepCheck t s
      | CloseIdle, Go => stepClean t (length (hc_conns (hc s))) (Finish None) s
      | _, _ => Blocked
      end
  end.

(** ** The queue is a list *)

Lemma represents_empty : represents (MkQueue [] 0 []) [].
Proof. by split. Qed.

Lemma represents_len q l : represents q l -> wantConnQueue_len q = zlen l.
Proof.
  intros [Hp E]. apply (f_equal length) in E. rewrite length_app, length_drop, length_fmap in E.
  unfold wantConnQueue_len. lia.
Qed.

Lemma represents_push q l w : represents q l -> represents (wantConnQueue_pushBack q w) (l ++ [w]).
Proof. intros [Hp E]. split; [done|]. cbn. by rewrite app_assoc, E, fmap_app. Qed.

Lemma represents_pop q w l :
  represents q (w :: l) -> exists q', wantConnQueue_popFront q = Some (Some w, q') /\ represents q' l.
Proof.
  intros [Hp E]. unfold wantConnQueue_popFront. rewrite fmap_cons in E.
  destruct (Nat.leb_spec (length (q_head q)) (q_headPos q)) as [L|L].
  - rewrite drop_ge in E by done. cbn [app] in E. rewrite bool_decide_eq_false_2 by (by rewrite E). cbn [andb].
    rewrite E. cbn. eexists. split; [reflexivity|]. split; cbn; [lia|]. by rewrite app_nil_r.
  - cbn [andb].
    assert (q_head q !! q_headPos q = Some (Some w)) as Ew.
    { destruct (lookup_lt_is_Some_2 _ _ L) as [x Ex]. rewrite Ex. f_equal.
      rewrite (drop_S _ _ _ Ex) in E. by injection E. }
    rewrite Ew. cbn [mbind option_bind]. eexists. split; [reflexivity|]. split; cbn.
    + rewrite length_insert. lia.
    + rewrite drop_insert_lt by lia. rewrite (drop_S _ _ _ Ew) in E. injection E as E.
      by rewrite Nat.add_1_r.
Qed.

Lemma represents_pop_nil q : represents q [] -> wantConnQueue_popFront q = Some (None, q).
Proof.
  intros [Hp E]. apply app_eq_nil in E as [E1 E2]. apply (f_equal length) in E1. rewrite length_drop in E1. simpl in E1.
  unfold wantConnQueue_popFront. rewrite E2, bool_decide_eq_true_2, (proj2 (Nat.leb_le _ _)) by (done || lia). done.
Qed.

Lemma represents_peek q l : represents q l -> wantConnQueue_peekFront q = head l.
Proof.
  intros [Hp E]. unfold wantConnQueue_peekFront. destruct (Nat.ltb_spec (q_headPos q) (length (q_head q))) as [L|L].
  - destruct (lookup_lt_is_Some_2 _ _ L) as [x Ex]. rewrite Ex. rewrite (drop_S _ _ _ Ex) in E. destruct l; [done|]. by injection E as ->.
  - rewrite drop_ge in E by done. cbn [app] in E. rewrite E. by destruct l.
Qed.

(** What clearFront leaves. *)
Fixpoint skipDone (waiting : nat -> bool) (l : list nat) : list nat :=
  match l with
  | [] => []
  | w :: l' => if waiting w then l else skipDone waiting l'
  end.

Lemma represents_clear waiting q l :
  represents q l ->
  exists q' b, wantConnQueue_clearFront waiting q = Some (q', b) /\ represents q' (skipDone waiting l).
Proof.
  intros R. unfold wantConnQueue_clearFront.
  assert (length l < S (length (q_head q) + length (q_tail q)))%nat as Hf.
  { pose proof (represents_len q l R) as E. destruct R as [Hp _]. unfold wantConnQueue_len in E. lia. }
  revert Hf. generalize (S (length (q_head q) + length (q_tail q))). generalize false.
  revert q R. induction l as [|w l IH]; intros q R b fuel Hf; (destruct fuel as [|fuel]; [simpl in Hf; lia|]); cbn [clearFrontLoop];
    rewrite (represents_peek _ _ R); cbn [head skipDone]; [by eauto|].
  destruct (waiting w); [by eauto|]. destruct (represents_pop q w l R) as (q' & -> & R'). cbn [mbind option_bind].
  apply IH; [done|simpl in Hf; lia].
Qed.

Lemma skipDone_sub waiting l : exists l0, l = l0 ++ skipDone waiting l.
Proof.
  induction l as [|w l [l0 E]]; [by exists []|]. cbn [skipDone]. destruct (waiting w); [by exists []|].
  exists (w :: l0). simpl. by rewrite <- E.
Qed.

(** ** wantConn *)

(** The channel is closed exactly when there is an answer. *)
Record wfWant (w : wantConn) : Prop := {
  ww_ready : w_ready w = true <-> (w_conn w <> None \/ w_err w <> None);
  ww_taken : w_taken w = true -> w_ready w = true
}.

Lemma newWant_wf : wfWant newWant.
Proof. split; cbn; [|done]. split; [done|]. by intros [?|?]. Qed.

Lemma wfWant_ready conn err taken : (conn <> None \/ err <> None) -> wfWant (MkWant conn err true taken).
Proof. intros H. by split. Qed.

Lemma tryDeliver_spec w conn err :
  wfWant w -> (conn <> None \/ err <> None) ->
  wantConn_tryDeliver w conn err =
    Some (if wantConn_waiting w then (MkWant conn err true (w_taken w), true) else (w, false)).
Proof.
  intros W Hne. unfold wantConn_tryDeliver, wantConn_waiting. destruct (w_ready w) eqn:E; cbn [negb].
  - by rewrite decide_True by (by apply (ww_ready _ W)).
  - rewrite decide_False by (intros D; apply (ww_ready _ W) in D; congruence).
    rewrite decide_False by (intros [-> ->]; by destruct Hne). unfold closeReady. cbn. by rewrite ?E.
Qed.

Lemma cancel_spec w err :
  wfWant w -> wantConn_cancel w err = Some (MkWant None (Some err) true (w_taken w), w_conn w).
Proof.
  intros W. unfold wantConn_cancel. case_decide as D.
  - unfold closeReady. destruct (w_ready w) eqn:E; [|done]. apply (ww_ready _ W) in E as [E|E]; tauto.
  - cbn [mbind option_bind]. assert (w_ready w = true) as ->; [|done]. apply (ww_ready _ W).
    destruct (w_conn w), (w_err w); try (by left); try (by right). exfalso. by apply D.
Qed.

(** ** Places

    Every connection is somewhere: in a place of connsCount, as an idle
    connection, as one delivered to a waiter that has not woken up yet or as one
    in the hands of a goroutine; or it has left its place, with the goroutine that
    is about to close it, or closed.  A place is without a connection ([None])
    while one is being dialed. *)
Inductive place := Counted (c : option nat) | Left (c : nat).

Definition leaving (c : option nat) : list place := match c with Some cc => [Left cc] | None => [] end.

Definition pcSlots (p : pc) : list place :=
  match p with
  | Dialing | DialFor _ | DialFailed _ _ => [Counted None]
  | Delivering _ cc | Using cc | Releasing cc _ | RelLoop cc _ | RelTry cc _ _ => [Counted (Some cc)]
  | Closing ccs _ => Counted <$> ccs
  | DecLoop c ccs _ => Counted c :: (Counted <$> ccs)
  | CloseConn cc ccs _ => Left cc :: (Counted <$> ccs)
  | _ => []
  end.

Definition wantSlots (w : wantConn) : list place :=
  match w_conn w with
  | Some cc => if w_taken w then [] else [Counted (Some cc)]
  | None => []
  end.

Definition slots (s : world) : list place :=
  ((fun cc => Counted (Some cc)) <$> hc_conns (hc s)) ++ (Left <$> closed s) ++ held wantSlots (wants s) ++ held pcSlots (threads s).

(** The places that count, their connections, the connections without a place. *)
Definition counted (l : list place) : list (option nat) := omap (fun x => match x with Counted c => Some c | Left _ => None end) l.
Definition open (l : list place) : list nat := omap id (counted l).
Definition gone (l : list place) : list nat := omap (fun x => match x with Counted _ => None | Left c => Some c end) l.

Record slotsOk (limit count : Z) (fresh : nat) (l : list place) : Prop := {
  so_count : count = zlen (counted l);
  so_limit : count <= limit;
  so_known : open l ++ gone l ≡ₚ seq 0 fresh
}.

#[export] Instance slotsOk_proper limit count fresh : Proper ((≡ₚ) ==> iff) (slotsOk limit count fresh).
Proof.
  assert (forall l l', l ≡ₚ l' -> slotsOk limit count fresh l -> slotsOk limit count fresh l') as H.
  { intros l l' E []. assert (counted l ≡ₚ counted l') as Ec by (unfold counted; by rewrite E).
    assert (open l ≡ₚ open l') as Eo by (unfold open; by rewrite Ec). assert (gone l ≡ₚ gone l') as Eg by (unfold gone; by rewrite E). split.
    - by rewrite <- Ec. - done. - by rewrite <- Eo, <- Eg. }
  intros l l' E. split; apply H; [done|by symmetry].
Qed.

Lemma counted_cons c l : counted (Counted c :: l) = c :: counted l.
Proof. done. Qed.
Lemma counted_leaving c l : counted (leaving c ++ l) = counted l.
Proof. by destruct c. Qed.
Lemma known_leaving c l : open (leaving c ++ l) ++ gone (leaving c ++ l) ≡ₚ option_list c ++ open l ++ gone l.
Proof. destruct c as [c|]; [|done]. change (open l ++ c :: gone l ≡ₚ c :: open l ++ gone l). solve_Permutation. Qed.
Lemma known_counted c l : open (Counted c :: l) ++ gone (Counted c :: l) = option_list c ++ open l ++ gone l.
Proof. by destruct c. Qed.

Lemma slotsOk_reserve limit n f l : slotsOk limit n f l -> n < limit -> slotsOk limit (n + 1) f (Counted None :: l).
Proof. intros [H1 H2 H3] Hn. split; [rewrite counted_cons; cbn [length]; lia|lia|done]. Qed.

Lemma slotsOk_dial limit n f l : slotsOk limit n f (Counted None :: l) -> slotsOk limit n (S f) (Counted (Some f) :: l).
Proof.
  intros [H1 H2 H3]. split; [done..|]. rewrite known_counted in *. cbn in H3. rewrite seq_S, <- H3. cbn. solve_Permutation.
Qed.

(** A connection gives up its place, and the place is no more. *)
Lemma slotsOk_drop limit n f c l : slotsOk limit n f (Counted c :: l) -> slotsOk limit (n - 1) f (leaving c ++ l).
Proof.
  intros [H1 H2 H3]. rewrite counted_cons in H1. cbn [length] in H1. rewrite known_counted in H3.
  split; [rewrite counted_leaving; lia|lia|]. by rewrite known_leaving.
Qed.

(** Or the place goes to a dial. *)
Lemma slotsOk_pass limit n f c l : slotsOk limit n f (Counted c :: l) -> slotsOk limit n f (leaving c ++ Counted None :: l).
Proof.
  intros [H1 H2 H3]. rewrite counted_cons in H1. rewrite known_counted in H3.
  split; [rewrite counted_leaving, counted_cons; exact H1|done|]. by rewrite known_leaving, known_counted.
Qed.

(** ** The invariant *)

(** The waiter whose cell this is, and the cells a goroutine points to. *)
Definition pcOwner (p : pc) : list nat :=
  match p with Queueing w _ | Waiting w _ | Cancelling w _ => [w] | _ => [] end.

Definition pcRefs (p : pc) : list nat :=
  match p with DialFor w | Delivering w _ | DialFailed w _ | RelTry _ w _ => [w] | _ => [] end.

Definition knows (n : nat) (l : list nat) : Prop := Forall (fun w => (w < n)%nat) l.

Lemma knows_weaken n n' l : knows n l -> (n <= n')%nat -> knows n' l.
Proof. intros H Hn. eapply Forall_impl; [exact H|]. cbn. lia. Qed.

Record Inv (s : world) : Prop := {
  iv_slots : slotsOk (maxConns (hc s)) (hc_connsCount (hc s)) (fresh s) (slots s);
  iv_wants : Forall wfWant (wants s);
  iv_owned : NoDup (held pcOwner (threads s));
  iv_owner : forall w, w ∈ held pcOwner (threads s) -> exists x, wants s !! w = Some x /\ w_taken x = false;
  iv_refs : knows (length (wants s)) (held pcRefs (threads s));
  iv_queue : exists l, represents (hc_connsWait (hc s)) l /\ knows (length (wants s)) l
}.

(** No panic, and the invariant afterwards. *)
Definition good (o : outcome world) : Prop :=
  match o with Blocked => True | Panics => False | To s => Inv s end.

(** A goroutine moves from [p] to [p'] and starts others ([new]); [d] are the
    cells it stops waiting on. *)
Lemma pool_Inv_goto s t p p' d c' wants' lock' fresh' closed' new :
  Inv s -> threads s !! t = Some p ->
  (forall r, slotsOk (maxConns (hc s)) (hc_connsCount (hc s)) (fresh s)
               (((fun cc => Counted (Some cc)) <$> hc_conns (hc s)) ++ (Left <$> closed s) ++ held wantSlots (wants s) ++ pcSlots p ++ r) ->
             slotsOk (maxConns c') (hc_connsCount c') fresh'
               (((fun cc => Counted (Some cc)) <$> hc_conns c') ++ (Left <$> closed') ++ held wantSlots wants' ++ (pcSlots p' ++ r) ++ held pcSlots new)) ->
  Forall wfWant wants' -> (length (wants s) <= length wants')%nat ->
  pcOwner p = d ++ pcOwner p' -> held pcOwner new = [] ->
  (forall w x, wants s !! w = Some x -> w_taken x = false -> w ∉ d -> exists x', wants' !! w = Some x' /\ w_taken x' = false) ->
  knows (length wants') (pcRefs p' ++ held pcRefs new) ->
  (exists l, represents (hc_connsWait c') l /\ knows (length wants') l) ->
  Inv (MkWorld c' wants' lock' (<[t := p']> (threads s) ++ new) fresh' closed').
Proof.
  intros [I1 I2 I3 I4 I5 I6] Et Hs Hw Hl Ho Hn Ht Hr Hq.
  destruct (held_insert pcSlots (threads s) t p p' Et) as (r1 & S1 & S2).
  destruct (held_insert pcOwner (threads s) t p p' Et) as (r2 & O1 & O2).
  destruct (held_insert pcRefs (threads s) t p p' Et) as (r3 & R1 & R2).
  unfold slots in I1. rewrite S1 in I1. rewrite O1, Ho in I3.
  apply NoDup_app in I3 as (D1 & D2 & D3).
  assert (held pcOwner (<[t:=p']> (threads s) ++ new) ≡ₚ pcOwner p' ++ r2) as Eo by (by rewrite held_app, Hn, app_nil_r, O2).
  split; cbn; try done.
  - unfold slots. cbn. rewrite held_app, S2. by apply Hs.
  - rewrite Eo. assert (d ++ pcOwner p' ++ r2 ≡ₚ d ++ (pcOwner p' ++ r2)) by done.
    destruct (NoDup_app (d ++ pcOwner p') r2) as [_ N]. specialize (N (conj D1 (conj D2 D3))).
    rewrite <- app_assoc in N. by apply NoDup_app in N as (_ & _ & ?).
  - intros w. rewrite Eo. intros Hx.
    assert (w ∈ held pcOwner (threads s)) as Hin by (rewrite O1, Ho; set_solver).
    destruct (I4 w Hin) as (x & Ex & Tx). apply (Ht w x Ex Tx). intros Hd.
    apply elem_of_app in Hx as [Hx|Hx].
    + apply NoDup_app in D1 as (_ & D1 & _). by apply (D1 w).
    + apply (D2 w); [set_solver|done].
  - unfold knows in *. rewrite held_app, R2. rewrite R1 in I5. rewrite !Forall_app in *. destruct Hr, I5 as [_ I5].
    split_and!; try done. by eapply knows_weaken.
Qed.

Lemma Inv_owner s t p w : Inv s -> threads s !! t = Some p -> pcOwner p = [w] ->
  exists x, wants s !! w = Some x /\ wfWant x /\ w_taken x = false.
Proof.
  intros I E Ho. destruct (iv_owner _ I w) as (x & Ex & Tx).
  - apply elem_of_held. exists t, p. split; [done|]. rewrite Ho. set_solver.
  - exists x. split_and!; try done. pose proof (iv_wants _ I) as F. rewrite Forall_lookup in F. by eapply F.
Qed.

Lemma Inv_ref s t p w : Inv s -> threads s !! t = Some p -> pcRefs p = [w] ->
  exists x, wants s !! w = Some x /\ wfWant x.
Proof.
  intros I E Ho. pose proof (iv_refs _ I) as F. unfold knows in F. rewrite Forall_forall in F.
  assert (w < length (wants s))%nat as Hw.
  { apply F, elem_of_held. exists t, p. split; [done|]. rewrite Ho. set_solver. }
  destruct (lookup_lt_is_Some_2 _ _ Hw) as [x Ex]. exists x. split; [done|].
  pose proof (iv_wants _ I) as G. rewrite Forall_lookup in G. by eapply G.
Qed.

Lemma Inv_move s t p p' d c' wants' lock' fresh' closed' :
  Inv s -> threads s !! t = Some p ->
  (forall r, slotsOk (maxConns (hc s)) (hc_connsCount (hc s)) (fresh s)
               (((fun cc => Counted (Some cc)) <$> hc_conns (hc s)) ++ (Left <$> closed s) ++ held wantSlots (wants s) ++ pcSlots p ++ r) ->
             slotsOk (maxConns c') (hc_connsCount c') fresh'
               (((fun cc => Counted (Some cc)) <$> hc_conns c') ++ (Left <$> closed') ++ held wantSlots wants' ++ pcSlots p' ++ r)) ->
  Forall wfWant wants' -> (length (wants s) <= length wants')%nat ->
  pcOwner p = d ++ pcOwner p' ->
  (forall w x, wants s !! w = Some x -> w_taken x = false -> w ∉ d -> exists x', wants' !! w = Some x' /\ w_taken x' = false) ->
  knows (length wants') (pcRefs p') ->
  (exists l, represents (hc_connsWait c') l /\ knows (length wants') l) ->
  Inv (MkWorld c' wants' lock' (<[t := p']> (threads s)) fresh' closed').
Proof.
  intros I E Hs Hw Hl Ho Ht Hr Hq. rewrite <- (app_nil_r (<[t := p']> (threads s))).
  apply (pool_Inv_goto s t p p' d); try done.
  - intros r Hr'. rewrite app_nil_r. by apply Hs.
  - by rewrite app_nil_r.
Qed.

(** Storing at [w] a cell with the same ghost. *)
Lemma taken_insert (l : list wantConn) w y (d : list nat) :
  (forall x, l !! w = Some x -> w_taken y = w_taken x) ->
  forall w' x, l !! w' = Some x -> w_taken x = false -> w' ∉ d -> exists x', <[w := y]> l !! w' = Some x' /\ w_taken x' = false.
Proof.
  intros Hy w' x Ex Tx _. destruct (decide (w = w')) as [<-|D].
  - exists y. rewrite list_lookup_insert_eq by (by eapply lookup_lt_Some). split; [done|]. by rewrite (Hy x).
  - exists x. by rewrite list_lookup_insert_ne.
Qed.

Ltac inv_same I :=
  try first [exact (iv_wants _ I) | exact (iv_queue _ I) | reflexivity | solve [unfold knows; cbn; apply Forall_nil; done]
            | solve [cbn; rewrite ?length_insert, ?length_app; lia] | solve [cbn; intros; eauto]].

(** The places of a move that changes no cell. *)
Ltac slots_move :=
  let r := fresh "r" in let H := fresh "H" in
  intros r H; cbn; cbn in H;
  first [exact H | apply slotsOk_dial; revert H; apply slotsOk_proper; solve_Permutation
        | revert H; apply slotsOk_proper; rewrite ?fmap_app; solve_Permutation].

Section Steps.
Variables (s : world) (t : nat) (p : pc).
Hypothesis I : Inv s.
Hypothesis Et : threads s !! t = Some p.

Lemma pool_good_section o : (lock s = None -> good o) -> good (section s o).
Proof. unfold section. destruct (lock s); cbn; auto. Qed.

Lemma good_holding o : good o -> good (holding t s o).
Proof. unfold holding. by case_decide. Qed.

Lemma pool_good_call close overridden : p = Calling close overridden -> good (stepCall t close overridden s).
Proof.
  intros ->. apply pool_good_section. intros _. unfold acquireSection.
  destruct (last (hc_conns (hc s))) as [cc|] eqn:El.
  - apply last_Some in El as [l' El]. cbn. apply (Inv_move s t _ _ [] _ _ _ _ _ I Et); inv_same I.
    rewrite El, length_app, Nat.add_sub, take_app_exact. slots_move.
  - destruct (Z.ltb_spec (hc_connsCount (hc s)) (maxConns (hc s))) as [L|L].
    + destruct (_ && _); cbn.
      * apply (pool_Inv_goto s t _ Dialing [] _ _ _ _ _ [Cleaner] I Et); inv_same I.
        intros r H. cbn in *. rewrite app_nil_r. apply (slotsOk_reserve _ _ _ _ H) in L. revert L. apply slotsOk_proper.
        solve_Permutation.
      * apply (Inv_move s t _ Dialing [] _ _ _ _ _ I Et); inv_same I.
        intros r H. cbn in *. apply (slotsOk_reserve _ _ _ _ H) in L. revert L. apply slotsOk_proper. solve_Permutation.
    + destruct (hc_waits (hc s)); cbn; [|apply (Inv_move s t _ _ [] _ _ _ _ _ I Et); inv_same I].
      destruct I as [I1 I2 I3 I4 I5 I6].
      destruct (held_insert pcOwner (threads s) t _ (Queueing (length (wants s)) overridden) Et) as (r2 & O1 & O2).
      cbn in O1, O2. unfold goto, set_threads, set_wants. split; cbn.
      * unfold slots in *. cbn. rewrite held_snoc. cbn. rewrite app_nil_r. revert I1. apply slotsOk_proper.
        by rewrite (held_insert_same pcSlots _ _ _ _ Et).
      * rewrite Forall_app. split; [done|]. constructor; [apply newWant_wf|done].
      * rewrite O2. cbn. apply NoDup_cons. split; [|by rewrite <- O1]. rewrite <- O1. intros Hw.
        destruct (I4 _ Hw) as (x & Ex & _). apply lookup_lt_Some in Ex. lia.
      * intros w. rewrite O2. cbn. rewrite elem_of_cons, <- O1. intros [->|Hw].
        -- exists newWant. by rewrite lookup_app_r, Nat.sub_diag by lia.
        -- destruct (I4 _ Hw) as (x & Ex & Tx). exists x. by rewrite (lookup_app_l_Some _ _ _ _ Ex).
      * unfold knows in *. rewrite (held_insert_same pcRefs _ _ _ _ Et) by done. eapply knows_weaken; [exact I5|].
        rewrite length_app. lia.
      * destruct I6 as (l & R & K). exists l. split; [done|]. eapply knows_weaken; [exact K|]. rewrite length_app. lia.
Qed.

Lemma good_queue w overridden : p = Queueing w overridden -> good (stepQueue t w overridden s).
Proof.
  intros ->. apply pool_good_section. intros _. destruct (iv_queue _ I) as (l & R & K).
  destruct (represents_clear (waitingIn s) _ _ R) as (q & b & -> & R'). cbn.
  apply (Inv_move s t _ (Waiting w overridden) [] _ _ _ _ _ I Et); inv_same I.
  exists (skipDone (waitingIn s) l ++ [w]). split; [by apply represents_push|].
  unfold knows in *. rewrite Forall_app. split.
  - destruct (skipDone_sub (waitingIn s) l) as [l0 E]. rewrite E, Forall_app in K. by destruct K.
  - constructor; [|done]. destruct (Inv_owner _ _ _ w I Et eq_refl) as (x & Ex & _). by eapply lookup_lt_Some.
Qed.

Lemma good_ready w overridden : p = Waiting w overridden -> good (stepReady t w s).
Proof.
  intros ->. destruct (Inv_owner _ _ _ w I Et eq_refl) as (x & Ex & Wx & Tx). unfold stepReady. rewrite Ex. cbn [must].
  destruct (w_ready x) eqn:Er; [|done].
  assert (forall err, good (To (goto t (Cancelling w err) s))) as Hc.
  { intros err. cbn. apply (Inv_move s t _ (Cancelling w err) [] _ _ _ _ _ I Et); inv_same I. }
  destruct (w_conn x) as [cc|] eqn:Ec, (w_err x) as [err|] eqn:Ee; try apply Hc.
  - cbn. apply (Inv_move s t _ (Using cc) [w] _ _ _ _ _ I Et); inv_same I.
    + intros r H. destruct (held_insert wantSlots (wants s) w x (MkWant (Some cc) None true true) Ex) as (r' & S1 & S2).
      cbn in *. rewrite S2. rewrite S1 in H. unfold wantSlots in H. rewrite Ec, Tx in H. revert H. apply slotsOk_proper.
      solve_Permutation.
    + apply Forall_insert; [exact (iv_wants _ I)|]. apply wfWant_ready. by left.
    + cbn. intros w' x' E' T' N. exists x'. rewrite list_lookup_insert_ne; [done|]. set_solver.
    + cbn. rewrite length_insert. exact (iv_queue _ I).
  - cbn. apply (ww_ready _ Wx) in Er as [?|?]; congruence.
Qed.

Lemma good_timer w overridden err : p = Waiting w overridden -> good (To (goto t (Cancelling w err) s)).
Proof. intros ->. cbn. apply (Inv_move s t _ (Cancelling w err) [] _ _ _ _ _ I Et); inv_same I. Qed.


(** Storing an answer in a waiter's cell: the place moves there. *)
Lemma want_slots w x y r l :
  wants s !! w = Some x -> wantSlots x = [] ->
  l ++ held wantSlots (<[w := y]> (wants s)) ++ r ≡ₚ l ++ held wantSlots (wants s) ++ wantSlots y ++ r.
Proof.
  intros Ex Hx. destruct (held_insert wantSlots (wants s) w x y Ex) as (r' & S1 & S2). rewrite S2, S1, Hx.
  solve_Permutation.
Qed.

Lemma waiting_empty x : wfWant x -> w_ready x = false -> wantSlots x = [].
Proof.
  intros W E. unfold wantSlots. destruct (w_conn x) eqn:Ec; [|done]. exfalso.
  assert (w_ready x = true) as E'; [|congruence]. apply (ww_ready _ W). left. by rewrite Ec.
Qed.

Lemma good_cancel w err : p = Cancelling w err -> good (stepCancel t w err s).
Proof.
  intros ->. destruct (Inv_owner _ _ _ w I Et eq_refl) as (x & Ex & Wx & Tx). unfold stepCancel. rewrite Ex. cbn [must].
  rewrite (cancel_spec x err Wx). cbn [must]. set (y := MkWant None (Some err) true (w_taken x)).
  assert (wfWant y) as Wy by (apply wfWant_ready; by right).
  destruct (held_insert wantSlots (wants s) w x y Ex) as (r' & S1 & S2).
  assert (forall p', pcOwner p' = [] -> pcRefs p' = [] -> pcSlots p' = wantSlots x ->
          good (To (goto t p' (set_wants (<[w:=y]> (wants s)) s)))) as H.
  { intros p' O R S. cbn. apply (Inv_move s t _ p' [w] _ _ _ _ _ I Et).
    - intros r H. cbn in *. rewrite S2, S. rewrite S1 in H. revert H. apply slotsOk_proper. solve_Permutation.
    - apply Forall_insert; [exact (iv_wants _ I)|exact Wy].
    - cbn. by rewrite length_insert.
    - by rewrite O.
    - cbn. intros w' x' E' T' N. exists x'. rewrite list_lookup_insert_ne; [done|]. set_solver.
    - rewrite R. by apply Forall_nil.
    - cbn. rewrite length_insert. exact (iv_queue _ I). }
  destruct (w_conn x) as [cc|] eqn:Ec; apply H; try done; cbn; unfold wantSlots; by rewrite Ec, ?Tx.
Qed.

(** A delivery of [conn] by a goroutine at [p]. *)
Lemma good_deliver w conn err yes no :
  pcRefs p = [w] -> pcOwner p = [] -> (conn <> None \/ err <> None) ->
  (forall p', p' = yes \/ p' = no -> pcOwner p' = [] /\ pcRefs p' = []) ->
  pcSlots p ≡ₚ match conn with Some cc => [Counted (Some cc)] | None => [] end ++ pcSlots yes -> pcSlots no ≡ₚ pcSlots p ->
  good (stepDeliver t w conn err yes no s).
Proof.
  intros Hr Ho Hne Hp Hy Hn. destruct (Inv_ref _ _ _ w I Et Hr) as (x & Ex & Wx). unfold stepDeliver.
  rewrite Ex. cbn [must]. rewrite (tryDeliver_spec x conn err Wx Hne). unfold wantConn_waiting.
  destruct (w_ready x) eqn:Er; cbn [negb must].
  - destruct (Hp no (or_intror eq_refl)) as [O R]. cbn. rewrite (list_insert_id _ _ _ Ex).
    apply (Inv_move s t _ no [] _ _ _ _ _ I Et); rewrite ?O, ?R; inv_same I.
    intros r H. cbn in *. by rewrite Hn.
  - destruct (Hp yes (or_introl eq_refl)) as [O R]. cbn.
    apply (Inv_move s t _ yes [] _ _ _ _ _ I Et); rewrite ?O, ?R; inv_same I.
    + intros r H. cbn in *. rewrite (want_slots w x _ _ _ Ex (waiting_empty x Wx Er)).
      assert (w_taken x = false) as Tx by (destruct (w_taken x) eqn:Tx; [apply (ww_taken _ Wx) in Tx; congruence|done]).
      unfold wantSlots at 2. cbn. rewrite Tx. revert H. rewrite Hy. apply slotsOk_proper. solve_Permutation.
    + apply Forall_insert; [exact (iv_wants _ I)|]. by apply wfWant_ready.
    + apply taken_insert. intros x' E'. rewrite Ex in E'. by injection E' as <-.
    + cbn. rewrite length_insert. exact (iv_queue _ I).
Qed.

Lemma good_putIdle cc err : pcSlots p = [Counted (Some cc)] -> pcOwner p = [] -> good (To (putIdle t cc err s)).
Proof.
  intros Hs Ho. cbn. apply (Inv_move s t _ (Done err) [] _ _ _ _ _ I Et); rewrite ?Ho; inv_same I.
  intros r H. cbn. rewrite Hs in H. revert H. apply slotsOk_proper. rewrite fmap_app. solve_Permutation.
Qed.

Lemma Inv_queue_pop w q l :
  represents (hc_connsWait (hc s)) (w :: l) -> knows (length (wants s)) (w :: l) -> represents q l ->
  Inv (set_hc (set_connsWait q (hc s)) s) /\ (w < length (wants s))%nat.
Proof.
  intros R K R'. apply Forall_cons in K as [Kw K]. split; [|done].
  destruct I as [I1 I2 I3 I4 I5 _]. split; try done. cbn. eauto.
Qed.

Lemma good_dial p' : pcOwner p = [] -> pcOwner p' = [] -> pcRefs p' = pcRefs p -> pcSlots p = [Counted None] ->
  pcSlots p' = [Counted (Some (fresh s))] -> good (To (goto t p' (set_fresh (S (fresh s)) s))).
Proof.
  intros O O' R S S'. cbn. apply (Inv_move s t _ p' [] _ _ _ _ _ I Et); rewrite ?O, ?O'; inv_same I.
  - intros r H. rewrite S' at 1. rewrite S in H. cbn in *.
    assert (slotsOk (maxConns (hc s)) (hc_connsCount (hc s)) (fresh s)
      (Counted None :: ((fun cc => Counted (Some cc)) <$> hc_conns (hc s)) ++ (Left <$> closed s) ++ held wantSlots (wants s) ++ r)) as H'
      by (revert H; apply slotsOk_proper; solve_Permutation).
    apply slotsOk_dial in H'. revert H'. apply slotsOk_proper. solve_Permutation.
  - rewrite R. pose proof (iv_refs _ I) as F. unfold knows in *. rewrite Forall_forall in *. intros w Hw. apply F.
    apply elem_of_held. eauto.
Qed.

(** A move that keeps places, cells and references. *)
Lemma good_goto p' : pcOwner p' = pcOwner p -> pcRefs p' = pcRefs p -> pcSlots p' = pcSlots p -> good (To (goto t p' s)).
Proof.
  intros O R S. cbn. apply (Inv_move s t _ p' [] _ _ _ _ _ I Et); rewrite ?O; inv_same I.
  - intros r H. by rewrite S.
  - rewrite R. pose proof (iv_refs _ I) as F. unfold knows in *. rewrite Forall_forall in *. intros w Hw. apply F.
    apply elem_of_held. eauto.
Qed.

End Steps.

Section Steps2.
Variables (s : world) (t : nat) (p : pc).
Hypothesis I : Inv s.
Hypothesis Et : threads s !! t = Some p.

Lemma good_release cc err : p = Releasing cc err -> good (stepRelease t cc err s).
Proof.
  intros ->. apply pool_good_section. intros _. destruct (hc_waits (hc s)); cbn [negb]; [|by apply (good_putIdle s t _ I Et)].
  cbn. apply (Inv_move s t _ (RelLoop cc err) [] _ _ _ _ _ I Et); inv_same I.
Qed.

Lemma good_relLoop cc err : p = RelLoop cc err -> good (stepRelLoop t cc err s).
Proof.
  intros ->. unfold stepRelLoop. destruct (iv_queue _ I) as (l & R & K). rewrite (represents_len _ _ R).
  destruct l as [|w l]; [by apply (good_putIdle s t _ I Et)|]. cbn [length Z.of_nat Z.ltb Z.compare].
  destruct (represents_pop _ _ _ R) as (q & -> & R'). cbn [must].
  destruct (Inv_queue_pop s I w q l R K R') as [I' Hw].
  destruct (waitingIn _ w); [|exact I']. cbn.
  apply (Inv_move s t _ (RelTry cc w err) [] _ _ _ _ _ I Et); inv_same I.
  - by apply Forall_singleton.
  - cbn. apply Forall_cons in K as [_ K]. eauto.
Qed.

Lemma good_relTry cc w err : p = RelTry cc w err -> good (stepRelTry t cc w err s).
Proof.
  intros ->. destruct (Inv_ref _ _ _ w I Et eq_refl) as (x & Ex & Wx). unfold stepRelTry.
  rewrite Ex. cbn [must]. rewrite (tryDeliver_spec x _ _ Wx) by (by left). unfold wantConn_waiting.
  destruct (w_ready x) eqn:Er; cbn [negb must].
  - cbn. rewrite (list_insert_id _ _ _ Ex). by apply (good_putIdle s t _ I Et).
  - cbn.
    apply (Inv_move s t _ (Done err) [] _ _ _ _ _ I Et); inv_same I.
    + intros r H. cbn in *. rewrite (want_slots s w x _ _ _ Ex (waiting_empty x Wx Er)).
      assert (w_taken x = false) as Tx by (destruct (w_taken x) eqn:Tx; [apply (ww_taken _ Wx) in Tx; congruence|done]).
      unfold wantSlots at 2. cbn. by rewrite Tx.
    + apply Forall_insert; [exact (iv_wants _ I)|]. apply wfWant_ready. by left.
    + apply taken_insert. intros x' E'. rewrite Ex in E'. by injection E' as <-.
    + cbn. rewrite length_insert. exact (iv_queue _ I).
Qed.

(** The place of [c] in front. *)
Lemma slots_front {limit n f} A B C c r :
  slotsOk limit n f (A ++ B ++ C ++ (Counted c :: r)) -> slotsOk limit n f (Counted c :: A ++ B ++ C ++ r).
Proof. apply slotsOk_proper. solve_Permutation. Qed.

Lemma slots_afterDec c ccs k : pcSlots (afterDec c ccs k) = leaving c ++ (Counted <$> ccs).
Proof. by destruct c. Qed.
Lemma owner_afterDec c ccs k : pcOwner (afterDec c ccs k) = [] /\ pcRefs (afterDec c ccs k) = [].
Proof. by destruct c. Qed.

(** decConnsCount gives up a place. *)
Lemma good_leave c ccs k lock' : pcSlots p = Counted c :: (Counted <$> ccs) -> pcOwner p = [] ->
  good (To (goto t (afterDec c ccs k) (set_lock lock' (set_hc (set_connsCount (hc_connsCount (hc s) - 1) (hc s)) s)))).
Proof.
  intros S O. destruct (owner_afterDec c ccs k) as [O' R']. cbn.
  apply (Inv_move s t _ (afterDec c ccs k) [] _ _ _ _ _ I Et); rewrite ?O, ?O', ?R'; inv_same I.
  intros r H. rewrite S in H. rewrite slots_afterDec. apply slots_front, slotsOk_drop in H. revert H. apply slotsOk_proper. solve_Permutation.
Qed.

Lemma good_close ccs k : p = Closing ccs k -> good (stepClose t ccs k s).
Proof.
  intros Ep. unfold stepClose. destruct ccs as [|c ccs].
  - pose proof Et as Et'. rewrite Ep in Et'.
    destruct k; cbn; [apply (Inv_move s t _ (Done err) [] _ _ _ _ _ I Et')|apply (Inv_move s t _ Check [] _ _ _ _ _ I Et')]; inv_same I.
  - apply pool_good_section. intros El. destruct (hc_waits (hc s)); cbn [negb].
    + pose proof Et as Et'. rewrite Ep in Et'. cbn. apply (Inv_move s t _ (DecLoop c ccs k) [] _ _ _ _ _ I Et'); inv_same I.
    + by apply (good_leave c ccs k (lock s)); rewrite Ep.
Qed.

Lemma good_closeConn cc ccs k : p = CloseConn cc ccs k -> good (stepCloseConn t cc ccs k s).
Proof.
  intros ->. cbn. apply (Inv_move s t _ (Closing ccs k) [] _ _ _ _ _ I Et); inv_same I.
  intros r H. cbn in *. revert H. apply slotsOk_proper. solve_Permutation.
Qed.

Lemma good_decLoop c ccs k : p = DecLoop c ccs k -> good (stepDecLoop t c ccs k s).
Proof.
  intros Ep. unfold stepDecLoop. destruct (iv_queue _ I) as (l & R & K). rewrite (represents_len _ _ R).
  destruct l as [|w l].
  - by apply good_leave; rewrite Ep.
  - cbn [length Z.of_nat Z.ltb Z.compare]. destruct (represents_pop _ _ _ R) as (q & -> & R'). cbn [must].
    destruct (Inv_queue_pop s I w q l R K R') as [I' Hw]. destruct (waitingIn _ w); [|exact I']. cbn.
    destruct (owner_afterDec c ccs k) as [O' R0]. pose proof Et as Et'. rewrite Ep in Et'.
    apply (pool_Inv_goto s t _ (afterDec c ccs k) [] _ _ _ _ _ [DialFor w] I Et'); rewrite ?O', ?R0; inv_same I.
    + intros r H. rewrite slots_afterDec. cbn [pcSlots app] in H. apply slots_front, slotsOk_pass in H.
      cbn. revert H. apply slotsOk_proper. solve_Permutation.
    + by apply Forall_singleton.
    + cbn. apply Forall_cons in K as [_ K]. eauto.
Qed.

Lemma pool_good_clean n k : p = Cleaner \/ p = CloseIdle -> good (stepClean t n k s).
Proof.
  intros Hp. assert (pcSlots p = [] /\ pcOwner p = []) as [S O] by (by destruct Hp as [-> | ->]).
  apply pool_good_section. intros _. cbn.
  apply (Inv_move s t _ (Closing (Some <$> take n (hc_conns (hc s))) k) [] _ _ _ _ _ I Et); rewrite ?O; inv_same I.
  intros r H. cbn in *. rewrite S in H. rewrite <- (take_drop n (hc_conns (hc s))), fmap_app in H at 1. rewrite <- list_fmap_compose.
  revert H. apply slotsOk_proper. solve_Permutation.
Qed.

Lemma good_check : p = Check -> good (stepCheck t s).
Proof.
  intros ->. apply pool_good_section. intros _. destruct (_ =? _); cbn.
  - apply (Inv_move s t _ (Done None) [] _ _ _ _ _ I Et); inv_same I.
  - apply (Inv_move s t _ Cleaner [] _ _ _ _ _ I Et); inv_same I.
Qed.

End Steps2.

Lemma Inv_spawn s p : Inv s -> pcSlots p = [] -> pcOwner p = [] -> pcRefs p = [] -> Inv (spawn p s).
Proof.
  intros [I1 I2 I3 I4 I5 I6] S O R. split; cbn; try done; unfold slots; cbn; by rewrite held_snoc, ?S, ?O, ?R, app_nil_r.
Qed.

(** Every step of every goroutine keeps the invariant and does not panic. *)
Lemma pool_step_good s t a : Inv s -> good (step t a s).
Proof.
  intros I. unfold step, pool_machine. destruct (threads s !! t) as [p|] eqn:Et.
  - destruct p, a; try exact Logic.I;
      first [by eapply pool_good_call|by eapply good_queue|by eapply good_ready|by eapply good_timer|by eapply good_cancel
            |by eapply good_dial|by eapply good_goto|by eapply good_release|by eapply good_holding, good_relLoop
            |by eapply good_holding, good_relTry|by eapply good_close|by eapply good_holding, good_decLoop|by eapply good_closeConn
            |by eapply pool_good_clean; [..|by left]|by eapply good_check|by eapply pool_good_clean; [..|by right]|idtac].
    + eapply good_deliver; try done; [by left|by intros ? [-> | ->]].
    + eapply good_deliver; try done; [by right|by intros ? [-> | ->]].
  - destruct a; try exact Logic.I; case_decide; try exact Logic.I; by apply Inv_spawn.
Qed.


Lemma pool_Inv_init MaxConns waits : Inv (initWorld MaxConns waits).
Proof.
  split; cbn; try done; try (by constructor).
  - split; [done| |done]. unfold maxConns. cbn [hc hc_MaxConns hc_connsCount initWorld].
    destruct (Z.leb_spec MaxConns 0); unfold DefaultMaxConnsPerHost; lia.
  - intros w Hw. by apply not_elem_of_nil in Hw.
  - exists []. split; [apply represents_empty|by constructor].
Qed.

Lemma open_length l : zlen (open l) <= zlen (counted l).
Proof. unfold open. induction (counted l) as [|[c|] m IH]; cbn [omap list_omap id option_map length] in *; lia. Qed.

(** ** Connections that exist

    A connection exists from its dial to its Close. *)

Definition closingConn (p : pc) : list nat := match p with CloseConn cc _ _ => [cc] | _ => [] end.

(** In the count, and on their way to their Close. *)
Definition inCount (s : world) : list nat := open (slots s).
Definition atClose (s : world) : list nat := held closingConn (threads s).

Definition existing (s : world) : list nat := filter (fun cc => cc ∉ closed s) (seq 0 (fresh s)).

Lemma gone_app l1 l2 : gone (l1 ++ l2) = gone l1 ++ gone l2.
Proof. apply omap_app. Qed.

Lemma gone_counted (l : list (option nat)) : gone (Counted <$> l) = [].
Proof. induction l; done. Qed.

Lemma gone_slots s : gone (slots s) = closed s ++ atClose s.
Proof.
  unfold slots. rewrite !gone_app.
  assert (gone ((fun cc => Counted (Some cc)) <$> hc_conns (hc s)) = []) as -> by (induction (hc_conns (hc s)); done).
  assert (gone (Left <$> closed s) = closed s) as -> by (induction (closed s) as [|c l IH]; [done|]; cbn; by f_equal).
  assert (forall l, gone (held wantSlots l) = []) as ->.
  { intros l. unfold held. induction l as [|w l IH]; [done|]. cbn [map concat]. rewrite gone_app, IH. unfold wantSlots.
    destruct (w_conn w); [|done]. by destruct (w_taken w). }
  cbn [app]. f_equal. unfold atClose, held. induction (threads s) as [|p l IH]; [done|]. cbn [map concat]. rewrite gone_app, IH. f_equal.
  assert (forall c l, gone (Left c :: l) = c :: gone l) as Gl by done. assert (forall c l, gone (Counted c :: l) = gone l) as Gc by done.
  destruct p; cbn [pcSlots closingConn]; rewrite ?Gl, ?Gc, ?gone_counted; done.
Qed.

(** Each connection that was dialed is at exactly one place. *)
Lemma places s : Inv s -> inCount s ++ atClose s ++ closed s ≡ₚ seq 0 (fresh s).
Proof.
  intros I. destruct (iv_slots _ I) as [_ _ K]. rewrite gone_slots in K. unfold inCount. rewrite <- K. solve_Permutation.
Qed.

Lemma existing_places s : Inv s -> existing s ≡ₚ inCount s ++ atClose s.
Proof.
  intros I. pose proof (places s I) as K. assert (NoDup (inCount s ++ atClose s ++ closed s)) as N by (rewrite K; apply NoDup_seq).
  rewrite app_assoc in N. apply NoDup_app in N as (N1 & N2 & _). apply NoDup_Permutation; [apply NoDup_filter, NoDup_seq|done|].
  intros c. unfold existing. rewrite list_elem_of_filter, <- K, (app_assoc (inCount s)), elem_of_app. specialize (N2 c). tauto.
Qed.

Lemma MaxConns_kept s t a s' : step t a s = To s' -> hc_MaxConns (hc s') = hc_MaxConns (hc s).
Proof.
  assert (forall c cl, hc_MaxConns (fst (acquireSection c cl)) = hc_MaxConns c) as Ha.
  { intros c cl. unfold acquireSection. destruct (last _); [done|]. destruct (_ <? _); [|done]. by destruct (_ && _). }
  unfold step, pool_machine, section, holding.
  destruct (threads s !! t) as [p|]; [|destruct a; try done; case_decide; try done; by intros [= <-]].
  destruct p, a; try done;
    unfold stepCall, stepQueue, stepReady, stepCancel, stepDeliver, stepRelease, stepRelLoop, stepRelTry, stepClose, stepCloseConn,
      stepDecLoop, stepClean, stepCheck, putIdle, section, holding, must;
    try (pose proof (Ha (hc s) connectionClose) as Hac; destruct (acquireSection (hc s) connectionClose) as [c acq]; cbn in Hac);
    repeat case_match; intros E; try discriminate E; injection E as <-; cbn; try done.
Qed.

Lemma reachable_Inv MaxConns waits s :
  reachable (initWorld MaxConns waits) s -> Inv s /\ hc_MaxConns (hc s) = MaxConns.
Proof.
  apply (reachable_invariant (fun s => Inv s /\ hc_MaxConns (hc s) = MaxConns)).
  - split; [apply pool_Inv_init|done].
  - intros t a s1 s2 [I <-] E. split; [|by eapply MaxConns_kept].
    pose proof (pool_step_good s1 t a I) as G. by rewrite E in G.
Qed.

(** ** releaseConn, undisturbed *)

Lemma run_S n t s : run (replicate (S n) (t, Go)) s = obind (run (replicate n (t, Go))) (step t Go s).
Proof. done. Qed.

(** The longest waiting caller has the connection, or it is idle. *)
Definition released (s s' : world) (cc : nat) (l : list nat) : Prop :=
  match skipDone (waitingIn s) l with
  | [] => hc_conns (hc s') = hc_conns (hc s) ++ [cc] /\ wants s' = wants s
  | w :: l' =>
      (exists x, wants s' !! w = Some x /\ w_conn x = Some cc /\ w_ready x = true) /\
      hc_conns (hc s') = hc_conns (hc s) /\ represents (hc_connsWait (hc s')) l'
  end.

Lemma relLoop_runs l s t cc err :
  Inv s -> threads s !! t = Some (RelLoop cc err) -> lock s = Some t -> represents (hc_connsWait (hc s)) l ->
  exists n s', run (replicate n (t, Go)) s = To s' /\ threads s' !! t = Some (Done err) /\ lock s' = None /\
    released s s' cc l.
Proof.
  revert s. induction l as [|w l IH]; intros s I Et El R; pose proof (lookup_lt_Some _ _ _ Et) as Ht.
  - exists 1%nat. cbn. unfold step, pool_machine. rewrite Et. unfold holding. rewrite decide_True by done.
    unfold stepRelLoop. rewrite (represents_len _ _ R). cbn. eexists. split; [reflexivity|]. cbn.
    by rewrite list_lookup_insert_eq.
  - destruct (represents_pop _ _ _ R) as (q & Eq & R').
    assert (step t Go s = (let s1 := set_hc (set_connsWait q (hc s)) s in
      if waitingIn s w then To (goto t (RelTry cc w err) s1) else To s1)) as E1.
    { unfold step, pool_machine. rewrite Et. unfold holding. rewrite decide_True by done.
      unfold stepRelLoop. rewrite (represents_len _ _ R), Eq. done. }
    pose proof (pool_step_good s t Go I) as G. rewrite E1 in G. unfold released. cbn [skipDone].
    cbv zeta in E1, G. destruct (waitingIn s w) eqn:Ew.
    + exists 2%nat. rewrite run_S, E1. cbn [obind replicate run]. unfold waitingIn in Ew.
      destruct (wants s !! w) as [x|] eqn:Ex; [|done].
      pose proof (iv_wants _ I) as F. rewrite Forall_lookup in F. specialize (F _ _ Ex).
      unfold step, pool_machine. cbn. rewrite list_lookup_insert_eq by done. unfold holding. cbn.
      rewrite decide_True by done. unfold stepRelTry. cbn. rewrite Ex. cbn [must].
      rewrite (tryDeliver_spec x _ _ F), Ew by (by left). cbn. eexists. split; [reflexivity|]. cbn.
      rewrite list_lookup_insert_eq by (by rewrite length_insert). split_and!; try done.
      eexists. rewrite list_lookup_insert_eq by (by eapply lookup_lt_Some). done.
    + destruct (IH (set_hc (set_connsWait q (hc s)) s) G Et El R') as (n & s' & E & H).
      exists (S n), s'. rewrite run_S, E1. cbn [obind]. split; [exact E|]. exact H.
Qed.

(** * Properties *)

(** C11. The pool under every interleaving of callers, timers, dials and cleaners.
    connsCount is the number of its places and never above MaxConns.  Every
    connection that has been dialed is at exactly one place: in the count (idle,
    delivered to one waiter or in the hands of one goroutine: never with two
    callers, never lost), with a goroutine of closeConn that has given up its
    place in the count and will close it, or closed, once.  So the connections
    that exist are at most MaxConns and those that closeConn is about to close,
    which the code counts no more.  None of the internal panics (misuse of
    tryDeliver, a channel closed twice, the queue) can happen. *)
Theorem pool_safe (MaxConns : Z) (waits : bool) (s : world) (R : reachable (initWorld MaxConns waits) s) :
  let limit := if MaxConns <=? 0 then DefaultMaxConnsPerHost else MaxConns in
  hc_connsCount (hc s) = zlen (counted (slots s)) /\ zlen (inCount s) <= hc_connsCount (hc s) <= limit /\
  inCount s ++ atClose s ++ closed s ≡ₚ seq 0 (fresh s) /\
  existing s ≡ₚ inCount s ++ atClose s /\ zlen (existing s) <= limit + zlen (atClose s) /\
  forall t a, step t a s <> Panics.
Proof.
  destruct (reachable_Inv _ _ _ R) as [I E]. pose proof (iv_slots _ I) as [S1 S2 _]. unfold maxConns in S2. rewrite E in S2.
  pose proof (open_length (slots s)) as Ho. fold (inCount s) in Ho. cbv zeta. split; [exact S1|]. split; [lia|]. split; [by apply places|].
  pose proof (existing_places s I) as X. split; [exact X|]. split; [rewrite X, length_app; lia|].
  intros t a Ea. pose proof (pool_step_good s t a I) as G. by rewrite Ea in G.
Qed.

(** Two callers, one connection: the second waits and gets it. *)
Definition handover : list (nat * action) :=
  [(0, Call false false); (0, Go); (0, DialOk); (2, Call false true); (2, Go); (2, Go);
   (0, Go); (0, Go); (0, Go); (0, Go); (2, Go)]%nat.

Lemma pool_safe_witness :
  exists s, run handover (initWorld 1 true) = To s /\ reachable (initWorld 1 true) s /\
    (let limit := if 1 <=? 0 then DefaultMaxConnsPerHost else 1 in
     hc_connsCount (hc s) = zlen (counted (slots s)) /\ zlen (inCount s) <= hc_connsCount (hc s) <= limit /\
     inCount s ++ atClose s ++ closed s ≡ₚ seq 0 (fresh s) /\
     existing s ≡ₚ inCount s ++ atClose s /\ zlen (existing s) <= limit + zlen (atClose s) /\
     forall t a, step t a s <> Panics).
Proof.
  destruct (run handover (initWorld 1 true)) as [| |s] eqn:E; [vm_compute in E; done|vm_compute in E; done|].
  exists s. split; [done|]. pose proof (run_reachable _ _ _ E) as R. split; [exact R|]. exact (pool_safe 1 true s R).
Defined.

(** closeConn gives up the place in the count before it closes the connection: the
    place can be used for another dial in between, and there are then more than
    MaxConns connections to the hosts, here two with a limit of one. *)
Definition closingRun : list (nat * action) :=
  [(0, Call false false); (0, Go); (0, DialOk); (0, CloseIt); (0, Go); (2, Call false false); (2, Go); (2, DialOk)]%nat.

Lemma closeConn_exceeds_MaxConns :
  exists s, run closingRun (initWorld 1 false) = To s /\ hc_connsCount (hc s) = 1 /\ existing s = [0; 1]%nat /\ closed s = [] /\
    threads s !! 0%nat = Some (CloseConn 0 [] (Finish None)) /\ threads s !! 2%nat = Some (Using 1).
Proof. eexists. split; [vm_compute; reflexivity|]. split_and!; reflexivity. Qed.

(** The two-stage queue is a first-in first-out list: the length, pushBack,
    popFront (also when the stages are swapped), peekFront and clearFront are
    those of the list it represents, and popFront never indexes out of range. *)
Lemma wantConnQueue_refines (q : wantConnQueue) (l : list nat) (waiting : nat -> bool) (w : nat) (R : represents q l) :
  wantConnQueue_len q = zlen l /\ wantConnQueue_peekFront q = head l /\
  represents (wantConnQueue_pushBack q w) (l ++ [w]) /\
  (exists q', wantConnQueue_popFront q = Some (head l, q') /\ represents q' (tail l)) /\
  (exists q' b, wantConnQueue_clearFront waiting q = Some (q', b) /\ represents q' (skipDone waiting l)).
Proof.
  split_and!; [by apply represents_len|by apply represents_peek|by apply represents_push| |by apply represents_clear].
  destruct l as [|x l]; [exists q; split; [by apply represents_pop_nil|done]|by apply represents_pop].
Qed.

Lemma wantConnQueue_refines_witness :
  let q := MkQueue [None; Some 5%nat] 1 [Some 7%nat] in
  represents q [5; 7]%nat /\
  (wantConnQueue_len q = zlen [5; 7]%nat /\ wantConnQueue_peekFront q = head [5; 7]%nat /\
   represents (wantConnQueue_pushBack q 9) ([5; 7] ++ [9])%nat /\
   (exists q', wantConnQueue_popFront q = Some (head [5; 7]%nat, q') /\ represents q' (tail [5; 7]%nat)) /\
   (exists q' b, wantConnQueue_clearFront Nat.even q = Some (q', b) /\ represents q' (skipDone Nat.even [5; 7]%nat))).
Proof.
  assert (represents (MkQueue [None; Some 5%nat] 1 [Some 7%nat]) [5; 7]%nat) as R by (split; [cbn; lia|reflexivity]).
  split; [exact R|]. exact (wantConnQueue_refines _ _ Nat.even 9 R).
Defined.

(** C12. A released connection reaches the caller that has waited longest: left
    undisturbed, releaseConn ends after finitely many steps with the lock free,
    has passed over the callers that gave up, and has put the connection into
    the cell of the first one still waiting, or among the idle ones. *)
Theorem releaseConn_serves_first (s : world) (t cc : nat) (err : option error) (l : list nat)
    (R : exists MaxConns waits, reachable (initWorld MaxConns waits) s) (Et : threads s !! t = Some (Releasing cc err))
    (Hl : lock s = None) (Hw : hc_waits (hc s) = true) (Hq : represents (hc_connsWait (hc s)) l) :
  exists n s', run (replicate n (t, Go)) s = To s' /\ threads s' !! t = Some (Done err) /\ lock s' = None /\
    released s s' cc l.
Proof.
  destruct R as (M & b & R). destruct (reachable_Inv _ _ _ R) as [I _].
  assert (step t Go s = To (goto t (RelLoop cc err) (set_lock (Some t) s))) as E1.
  { unfold step, pool_machine. rewrite Et. unfold stepRelease, section. by rewrite Hl, Hw. }
  pose proof (pool_step_good s t Go I) as G. rewrite E1 in G.
  destruct (relLoop_runs l _ t cc err G) as (n & s' & E & H); try done.
  { cbn. apply list_lookup_insert_eq. by eapply lookup_lt_Some. }
  exists (S n), s'. rewrite run_S, E1. split; [exact E|exact H].
Qed.

Definition twoWaiters : list (nat * action) :=
  [(0, Call false false); (0, Go); (0, DialOk); (2, Call false true); (2, Go); (2, Go);
   (3, Call false true); (3, Go); (3, Go); (0, Go)]%nat.

Lemma releaseConn_serves_first_witness :
  exists s, run twoWaiters (initWorld 1 true) = To s /\
    (threads s !! 0%nat = Some (Releasing 0 None) /\ lock s = None /\ hc_waits (hc s) = true /\
     represents (hc_connsWait (hc s)) [0; 1]%nat) /\
    exists n s', run (replicate n (0%nat, Go)) s = To s' /\ threads s' !! 0%nat = Some (Done None) /\ lock s' = None /\
      released s s' 0 [0; 1]%nat.
Proof.
  destruct (run twoWaiters (initWorld 1 true)) as [| |s] eqn:E; [vm_compute in E; done|vm_compute in E; done|].
  exists s. split; [done|]. pose proof (run_reachable _ _ _ E) as R.
  assert (threads s !! 0%nat = Some (Releasing 0 None) /\ lock s = None /\ hc_waits (hc s) = true /\
     represents (hc_connsWait (hc s)) [0; 1]%nat) as H.
  { vm_compute in E. injection E as <-. split_and!; try reflexivity. split; [cbn; lia|reflexivity]. }
  split; [exact H|]. destruct H as (H1 & H2 & H3 & H4).
  apply (releaseConn_serves_first s 0 0 None [0; 1]%nat); [by exists 1, true|done..].
Defined.

(** A caller waits although a connection is idle; what it can do is give up. *)
Definition stranded (s : world) (t w : nat) : Prop :=
  hc_conns (hc s) <> [] /\ lock s = None /\ waitingIn s w = true /\
  exists overridden, threads s !! t = Some (Waiting w overridden) /\
    forall a, step t a s <> Blocked -> a = TimerFired.

(** A release between the two critical sections of acquireConn. *)
Definition lostBetweenSections : list (nat * action) :=
  [(0, Call false false); (0, Go); (0, DialOk); (2, Call false false); (2, Go);
   (0, Go); (0, Go); (0, Go); (2, Go)]%nat.

(** The first caller in the queue gives up while releaseConn hands over to it. *)
Definition lostToCancel : list (nat * action) :=
  [(0, Call false false); (0, Go); (0, DialOk); (2, Call false false); (2, Go); (2, Go);
   (3, Call false false); (3, Go); (3, Go);
   (0, Go); (0, Go); (0, Go); (2, TimerFired); (2, Go); (0, Go)]%nat.

(** Lost wake-ups: acquireConn looks for an idle connection and enters the
    queue in two separate critical sections, and releaseConn stops at the first
    waiter even if it has just given up.  In both cases a caller ends up waiting
    beside an idle connection, with no goroutine left that would hand it over,
    until its timer fires: with ErrNoFreeConns, while a connection is free. *)
Lemma acquireConn_lost_wakeups :
  (exists s s', run lostBetweenSections (initWorld 1 true) = To s /\ stranded s 2 0 /\
     run [(2, TimerFired); (2, Go)]%nat s = To s' /\ threads s' = [Done None; Cleaner; Done (Some ErrNoFreeConns)] /\
     hc_conns (hc s') = [0]%nat) /\
  (exists s, run lostToCancel (initWorld 1 true) = To s /\ stranded s 3 1 /\
     threads s = [Done None; Cleaner; Done (Some ErrNoFreeConns); Waiting 1 false]).
Proof.
  split.
  - do 2 eexists. split_and!; [vm_compute; reflexivity| |vm_compute; reflexivity|reflexivity|reflexivity].
    split_and!; [done|reflexivity|reflexivity|]. eexists. split; [reflexivity|]. intros a. by destruct a.
  - eexists. split_and!; [vm_compute; reflexivity| |reflexivity].
    split_and!; [done|reflexivity|reflexivity|]. eexists. split; [reflexivity|]. intros a. by destruct a.
Qed.
