(* ===== verification/WorkerPool.v ===== *)
(** * workerpool.go: the goroutines that serve connections

    Serve hands a connection to the worker that became idle last, or starts one
    while there are fewer than MaxWorkersCount; clean dismisses the workers that
    have been idle for long; Stop dismisses all that are idle.  A step of the
    machine is a critical section of wp.lock, a channel operation, or the work of
    WorkerFunc as a whole; Stop holds the lock while it sends.  Channels and
    connections are numbers.  The capacity of the channels, 0 or 1 in the
    source, is a parameter; times are chosen by the environment. *)
From stdpp Require Import list_tactics sets sorting.
From S2P Require Import Prelude Machine.

(** ** The index clean computes *)

(** The binary search; [None] is an index out of range (or no fuel left). *)
Fixpoint cleanLoop (fuel : nat) (criticalTime : Z) (lastUseTime : list Z) (l r : Z) : option Z :=
  if l <=? r then
    match fuel with
    | O => None
    | S fuel' =>
        let mid := Z.quot (l + r) 2 in
        if mid <? 0 then None
        else
          t ← lastUseTime !! Z.to_nat mid;
          if t <? criticalTime then cleanLoop fuel' criticalTime lastUseTime (mid + 1) r
          else cleanLoop fuel' criticalTime lastUseTime l (mid - 1)
    end
  else Some r.

Definition cleanIndex (criticalTime : Z) (lastUseTime : list Z) : option Z :=
  cleanLoop (S (length lastUseTime)) criticalTime lastUseTime 0 (zlen lastUseTime - 1).

(** ** The pool *)

(** [wc_no] identifies the channel; [wc_ch] is what its buffer holds: a
    connection, or nil for the order to stop. *)
Record workerChan := MkChan { wc_no : nat; wc_lastUseTime : Z; wc_ch : option (option nat) }.

(** Where a goroutine is. *)
Inductive pc :=
| Serving (c : nat)
| Creating (c : nat)
| Sending (ch c : nat)
| Served
| Refused (c : nat)
| Receiving (ch : nat)
| Working (ch c : nat)
| Released (ch : nat)
| Stamped (ch : nat)
| Exiting (ch : nat)
| Putting (ch : nat)
| Cleaning (stop : nat)
| Notifying (chs : list nat) (stop : nat)
| Sleeping (stop : nat)
| Stopping
| StopLoop (chs : list nat)
| Ended.

(** What the environment decides: a new connection, the end of its service, the
    time, which channel workerChanPool hands out, who receives on an unbuffered
    channel. *)
Inductive action :=
| Go
| CallServe
| CallStart
| CallStop
| Finish (hijacked : bool)
| Now (time : Z)
| Get (i : option nat)
| Meet (receiver : nat).

Record workerPool := MkPool {
  wp_MaxWorkersCount : Z;
  wp_buffered : bool;
  wp_lock : option nat;
  wp_workersCount : Z;
  wp_mustStop : bool;
  wp_ready : list nat;
  wp_stopCh : option nat;
  wp_stops : list bool;
  wp_workerChanPool : list nat;
  wp_chans : list workerChan;
  wp_threads : list pc;
  wp_conns : nat;
  wp_finished : list (nat * bool)
}.

Definition set_lock (o : option nat) (s : workerPool) : workerPool :=
  MkPool (wp_MaxWorkersCount s) (wp_buffered s) o (wp_workersCount s) (wp_mustStop s) (wp_ready s) (wp_stopCh s) (wp_stops s)
    (wp_workerChanPool s) (wp_chans s) (wp_threads s) (wp_conns s) (wp_finished s).
Definition set_workersCount (n : Z) (s : workerPool) : workerPool :=
  MkPool (wp_MaxWorkersCount s) (wp_buffered s) (wp_lock s) n (wp_mustStop s) (wp_ready s) (wp_stopCh s) (wp_stops s)
    (wp_workerChanPool s) (wp_chans s) (wp_threads s) (wp_conns s) (wp_finished s).
Definition set_mustStop (b : bool) (s : workerPool) : workerPool :=
  MkPool (wp_MaxWorkersCount s) (wp_buffered s) (wp_lock s) (wp_workersCount s) b (wp_ready s) (wp_stopCh s) (wp_stops s)
    (wp_workerChanPool s) (wp_chans s) (wp_threads s) (wp_conns s) (wp_finished s).
Definition set_ready (l : list nat) (s : workerPool) : workerPool :=
  MkPool (wp_MaxWorkersCount s) (wp_buffered s) (wp_lock s) (wp_workersCount s) (wp_mustStop s) l (wp_stopCh s) (wp_stops s)
    (wp_workerChanPool s) (wp_chans s) (wp_threads s) (wp_conns s) (wp_finished s).
Definition set_stopCh (o : option nat) (l : list bool) (s : workerPool) : workerPool :=
  MkPool (wp_MaxWorkersCount s) (wp_buffered s) (wp_lock s) (wp_workersCount s) (wp_mustStop s) (wp_ready s) o l
    (wp_workerChanPool s) (wp_chans s) (wp_threads s) (wp_conns s) (wp_finished s).
Definition set_pool (l : list nat) (s : workerPool) : workerPool :=
  MkPool (wp_MaxWorkersCount s) (wp_buffered s) (wp_lock s) (wp_workersCount s) (wp_mustStop s) (wp_ready s) (wp_stopCh s)
    (wp_stops s) l (wp_chans s) (wp_threads s) (wp_conns s) (wp_finished s).
Definition set_chans (l : list workerChan) (s : workerPool) : workerPool :=
  MkPool (wp_MaxWorkersCount s) (wp_buffered s) (wp_lock s) (wp_workersCount s) (wp_mustStop s) (wp_ready s) (wp_stopCh s)
    (wp_stops s) (wp_workerChanPool s) l (wp_threads s) (wp_conns s) (wp_finished s).
Definition set_threads (l : list pc) (s : workerPool) : workerPool :=
  MkPool (wp_MaxWorkersCount s) (wp_buffered s) (wp_lock s) (wp_workersCount s) (wp_mustStop s) (wp_ready s) (wp_stopCh s)
    (wp_stops s) (wp_workerChanPool s) (wp_chans s) l (wp_conns s) (wp_finished s).
Definition set_conns (n : nat) (s : workerPool) : workerPool :=
  MkPool (wp_MaxWorkersCount s) (wp_buffered s) (wp_lock s) (wp_workersCount s) (wp_mustStop s) (wp_ready s) (wp_stopCh s)
    (wp_stops s) (wp_workerChanPool s) (wp_chans s) (wp_threads s) n (wp_finished s).
Definition set_finished (l : list (nat * bool)) (s : workerPool) : workerPool :=
  MkPool (wp_MaxWorkersCount s) (wp_buffered s) (wp_lock s) (wp_workersCount s) (wp_mustStop s) (wp_ready s) (wp_stopCh s)
    (wp_stops s) (wp_workerChanPool s) (wp_chans s) (wp_threads s) (wp_conns s) l.

Definition goto (t : nat) (p : pc) (s : workerPool) : workerPool := set_threads (<[t := p]> (wp_threads s)) s.
Definition spawn (p : pc) (s : workerPool) : workerPool := set_threads (wp_threads s ++ [p]) s.

Definition initPool (MaxWorkersCount : Z) (buffered : bool) : workerPool :=
  MkPool MaxWorkersCount buffered None 0 false [] None [] [] [] [] 0 [].

Definition section (s : workerPool) (o : outcome workerPool) : outcome workerPool :=
  match wp_lock s with None => o | Some _ => Blocked end.

Definition must {A} (o : option A) (f : A -> outcome workerPool) : outcome workerPool :=
  match o with Some x => f x | None => Panics end.

(** The critical section of getCh. *)
Definition stepGetCh (t c : nat) (s : workerPool) : outcome workerPool :=
  section s
    match last (wp_ready s) with
    | Some ch => To (goto t (Sending ch c) (set_ready (take (length (wp_ready s) - 1) (wp_ready s)) s))
    | None =>
        if wp_workersCount s <? wp_MaxWorkersCount s
        then To (goto t (Creating c) (set_workersCount (wp_workersCount s + 1) s))
        else To (goto t (Refused c) s)
    end.

(** The rest of getCh: the pool gives back any channel put into it, or a new
    one, and the goroutine of the worker starts. *)
Definition stepCreate (t c : nat) (i : option nat) (s : workerPool) : outcome workerPool :=
  match i with
  | Some i =>
      match wp_workerChanPool s !! i with
      | Some ch => To (spawn (Receiving ch) (goto t (Sending ch c) (set_pool (delete i (wp_workerChanPool s)) s)))
      | None => Blocked
      end
  | None =>
      let ch := length (wp_chans s) in
      To (spawn (Receiving ch) (goto t (Sending ch c) (set_chans (wp_chans s ++ [MkChan ch 0 None]) s)))
  end.

(** What a goroutine sends, where, and how it goes on. *)
Definition sends (p : pc) : option (nat * option nat * pc) :=
  match p with
  | Sending ch c => Some (ch, Some c, Served)
  | Notifying (ch :: chs) stop => Some (ch, None, Notifying chs stop)
  | StopLoop (ch :: chs) => Some (ch, None, StopLoop chs)
  | _ => None
  end.

(** How a worker goes on with what it has received. *)
Definition received (ch : nat) (m : option nat) : pc :=
  match m with None => Exiting ch | Some c => Working ch c end.

Definition setChan (ch : nat) (m : option (option nat)) (x : workerChan) (s : workerPool) : workerPool :=
  set_chans (<[ch := MkChan (wc_no x) (wc_lastUseTime x) m]> (wp_chans s)) s.

Definition stepSend (t ch : nat) (m : option nat) (k : pc) (s : workerPool) : outcome workerPool :=
  if wp_buffered s then
    must (wp_chans s !! ch) (fun x =>
    match wc_ch x with
    | Some _ => Blocked
    | None => To (goto t k (setChan ch (Some m) x s))
    end)
  else Blocked.

(** An unbuffered channel: sender and receiver go on together. *)
Definition stepMeet (t r ch : nat) (m : option nat) (k : pc) (s : workerPool) : outcome workerPool :=
  if wp_buffered s then Blocked
  else match wp_threads s !! r with
       | Some (Receiving ch') => if decide (ch' = ch) then To (goto r (received ch m) (goto t k s)) else Blocked
       | _ => Blocked
       end.

Definition stepReceive (t ch : nat) (s : workerPool) : outcome workerPool :=
  must (wp_chans s !! ch) (fun x =>
  match wc_ch x with
  | Some m => To (goto t (received ch m) (setChan ch None x s))
  | None => Blocked
  end).

(** release, in two steps: the time of the last use, then the critical section. *)
Definition stepStamp (t ch : nat) (now : Z) (s : workerPool) : outcome workerPool :=
  must (wp_chans s !! ch) (fun x =>
  To (goto t (Stamped ch) (set_chans (<[ch := MkChan (wc_no x) now (wc_ch x)]> (wp_chans s)) s))).

Definition stepReleaseCh (t ch : nat) (s : workerPool) : outcome workerPool :=
  section s
    (if wp_mustStop s then To (goto t (Exiting ch) s)
     else To (goto t (Receiving ch) (set_ready (wp_ready s ++ [ch]) s))).

Definition stepExit (t ch : nat) (s : workerPool) : outcome workerPool :=
  section s (To (goto t (Putting ch) (set_workersCount (wp_workersCount s - 1) s))).

(** The critical section of clean. *)
Definition stepCleanReady (t stop : nat) (criticalTime : Z) (s : workerPool) : outcome workerPool :=
  section s
    (must (mapM (fun ch => x ← wp_chans s !! ch; Some (wc_lastUseTime x)) (wp_ready s)) (fun times =>
     must (cleanIndex criticalTime times) (fun i =>
     if i =? -1 then To (goto t (Sleeping stop) s)
     else To (goto t (Notifying (take (Z.to_nat (i + 1)) (wp_ready s)) stop)
                (set_ready (drop (Z.to_nat (i + 1)) (wp_ready s)) s))))).

(** Stop takes the lock; nobody reads [ready] before it gives it back. *)
Definition stepStopping (t : nat) (s : workerPool) : outcome workerPool :=
  section s (To (goto t (StopLoop (wp_ready s)) (set_lock (Some t) (set_ready [] s)))).

Definition stepStopped (t : nat) (s : workerPool) : outcome workerPool :=
  if decide (wp_lock s = Some t) then To (goto t Ended (set_lock None (set_mustStop true s))) else Blocked.

Definition stepStart (s : workerPool) : outcome workerPool :=
  match wp_stopCh s with
  | Some _ => Panics
  | None => To (spawn (Cleaning (length (wp_stops s))) (set_stopCh (Some (length (wp_stops s))) (wp_stops s ++ [false]) s))
  end.

Definition stepStop (s : workerPool) : outcome workerPool :=
  match wp_stopCh s with
  | None => Panics
  | Some i => To (spawn Stopping (set_stopCh None (<[i := true]> (wp_stops s)) s))
  end.

Definition wpCall (t : nat) (a : action) (s : workerPool) : outcome workerPool :=
  if decide (t = length (wp_threads s)) then
    match a with
    | CallServe => To (spawn (Serving (wp_conns s)) (set_conns (S (wp_conns s)) s))
    | CallStart => stepStart s
    | CallStop => stepStop s
    | _ => Blocked
    end
  else Blocked.

Definition wpThread (t : nat) (p : pc) (a : action) (s : workerPool) : outcome workerPool :=
  match sends p, a with
  | Some (ch, m, k), Go => stepSend t ch m k s
  | Some (ch, m, k), Meet r => stepMeet t r ch m k s
  | Some _, _ => Blocked
  | None, _ =>
      match p, a with
      | Serving c, Go => stepGetCh t c s
      | Creating c, Get i => stepCreate t c i s
      | Receiving ch, Go => stepReceive t ch s
      | Working ch c, Finish hijacked => To (goto t (Released ch) (set_finished ((c, hijacked) :: wp_finished s) s))
      | Released ch, Now time => stepStamp t ch time s
      | Stamped ch, Go => stepReleaseCh t ch s
      | Exiting ch, Go => stepExit t ch s
      | Putting ch, Go => To (goto t Ended (set_pool (ch :: wp_workerChanPool s) s))
      | Cleaning stop, Now criticalTime => stepCleanReady t stop criticalTime s
      | Notifying [] stop, Go => To (goto t (Sleeping stop) s)
      | Sleeping stop, Go =>
          must (wp_stops s !! stop) (fun closed => To (goto t (if closed : bool then Ended else Cleaning stop) s))
      | Stopping, Go => stepStopping t s
      | StopLoop [], Go => stepStopped t s
      | _, _ => Blocked
      end
  end.

#[export] Instance worker_machine : Machine workerPool action := fun t a s =>
  match wp_threads s !! t with
  | None => wpCall t a s
  | Some p => wpThread t p a s
  end.

(** ** The binary search *)

(** Where it ends: at an obsolete worker that is last or followed by one that is not. *)
Definition boundary (criticalTime : Z) (ts : list Z) (i : Z) : Prop :=
  -1 <= i < zlen ts /\
  (forall t, 0 <= i -> ts !! Z.to_nat i = Some t -> t < criticalTime) /\
  (forall t, ts !! Z.to_nat (i + 1) = Some t -> criticalTime <= t).

Lemma cleanLoop_boundary fuel criticalTime ts l r :
  0 <= l -> r < zlen ts -> l <= r + 1 -> r - l + 1 < Z.of_nat fuel ->
  (forall t, 0 <= l - 1 -> ts !! Z.to_nat (l - 1) = Some t -> t < criticalTime) ->
  (forall t, ts !! Z.to_nat (r + 1) = Some t -> criticalTime <= t) ->
  exists i, cleanLoop fuel criticalTime ts l r = Some i /\ boundary criticalTime ts i.
Proof.
  revert l r. induction fuel as [|fuel IH]; intros l r Hl Hr Hlr Hf Bl Br; [lia|]. cbn [cleanLoop].
  destruct (Z.leb_spec l r) as [L|L].
  2:{ exists r. split; [done|]. assert (l - 1 = r) as E by lia. rewrite E in Bl. split_and!; try lia; done. }
  assert (l <= Z.quot (l + r) 2 <= r) as Hm by (rewrite Z.quot_div_nonneg by lia; split; [apply Z.div_le_lower_bound|apply Z.div_le_upper_bound]; lia).
  generalize dependent (Z.quot (l + r) 2). intros mid Hm. rewrite (proj2 (Z.ltb_ge mid 0)) by lia.
  destruct (lookup_lt_is_Some_2 ts (Z.to_nat mid)) as [t Et]; [lia|]. rewrite Et. cbn [mbind option_bind].
  destruct (Z.ltb_spec t criticalTime) as [Lt|Lt].
  - apply IH; try lia; [|done]. intros t' _. rewrite Z.add_simpl_r, Et. by intros [= <-].
  - apply IH; try lia; [done|]. intros t'. rewrite Z.sub_add, Et. by intros [= <-].
Qed.

Lemma cleanIndex_boundary criticalTime ts :
  exists i, cleanIndex criticalTime ts = Some i /\ boundary criticalTime ts i.
Proof.
  apply cleanLoop_boundary; try lia. intros t. rewrite Z.sub_add, lookup_ge_None_2 by lia. done.
Qed.

Lemma Forall_filter_all {A} (P : A -> Prop) `{!forall x, Decision (P x)} l : Forall P l -> filter P l = l.
Proof. induction 1 as [|x l Hx _ IH]; [done|]. by rewrite filter_cons_True, IH. Qed.

Lemma Forall_filter_none {A} (P : A -> Prop) `{!forall x, Decision (P x)} l : Forall (fun x => ~ P x) l -> filter P l = [].
Proof. induction 1 as [|x l Hx _ IH]; [done|]. by rewrite filter_cons_False. Qed.

Lemma StronglySorted_le (ts : list Z) j k t u :
  StronglySorted Z.le ts -> ts !! j = Some t -> ts !! k = Some u -> (j <= k)%nat -> t <= u.
Proof.
  intros S. revert j k. induction S as [|x l S IH F]; intros j k Et Eu Hjk; [done|].
  destruct j as [|j], k as [|k]; simpl in Et, Eu; simplify_eq; try lia; [|eapply IH; [done..|lia]].
  rewrite Forall_lookup in F. by eapply F.
Qed.

(** On a list sorted by time the two sides of a boundary are the obsolete and the others. *)
Lemma boundary_sorted criticalTime ts i :
  StronglySorted Z.le ts -> boundary criticalTime ts i ->
  take (Z.to_nat (i + 1)) ts = filter (fun t => t < criticalTime) ts /\
  drop (Z.to_nat (i + 1)) ts = filter (fun t => ~ t < criticalTime) ts.
Proof.
  intros S (Hi & Ho & Hy). remember (Z.to_nat (i + 1)) as n eqn:En.
  assert (Forall (fun t => t < criticalTime) (take n ts) /\ Forall (fun t => ~ t < criticalTime) (drop n ts)) as [F1 F2].
  { split; apply Forall_lookup; intros j t Et.
    - apply lookup_take_Some in Et as [Et Hj].
      destruct (lookup_lt_is_Some_2 ts (n - 1)) as [u Eu]; [lia|].
      assert (u < criticalTime) by (apply Ho; [lia|]; by replace (Z.to_nat i) with (n - 1)%nat by lia).
      enough (t <= u) by lia. eapply StronglySorted_le; [exact S|exact Et|exact Eu|lia].
    - rewrite lookup_drop in Et.
      destruct (ts !! n) as [u|] eqn:Eu; [|apply lookup_ge_None in Eu; apply lookup_lt_Some in Et; lia].
      specialize (Hy u eq_refl). enough (u <= t) by lia. eapply StronglySorted_le; [exact S|exact Eu|exact Et|lia]. }
  rewrite <- (take_drop n ts) at 2 4. rewrite !filter_app.
  rewrite (Forall_filter_all _ _ F1), (Forall_filter_all _ _ F2), !Forall_filter_none, app_nil_r; [done| |].
  - eapply Forall_impl; [exact F1|]. cbn. lia.
  - done.
Qed.

(** ** Accounts

    [Tok ch]: the right to send on [ch]; who may send on a channel is the ready
    list, a sender that has taken it from there, or else the worker itself.
    [Wrk ch]: the goroutine that serves [ch].  [Idle ch]: [ch] rests in
    workerChanPool.  [New]: a worker that is counted and not started yet.
    [Conn c]: a connection. *)

Inductive item := Tok (ch : nat) | Wrk (ch : nat) | Idle (ch : nat) | New | Conn (c : nat).

Definition pcItems (p : pc) : list item :=
  match p with
  | Serving c | Refused c => [Conn c]
  | Creating c => [New; Conn c]
  | Sending ch c => [Tok ch; Conn c]
  | Receiving ch => [Wrk ch]
  | Working ch c => [Wrk ch; Tok ch; Conn c]
  | Released ch | Stamped ch | Exiting ch => [Wrk ch; Tok ch]
  | Putting ch => [Idle ch]
  | Notifying chs _ | StopLoop chs => Tok <$> chs
  | _ => []
  end.

Definition chanItems (x : workerChan) : list item :=
  match wc_ch x with
  | None => []
  | Some None => [Tok (wc_no x)]
  | Some (Some c) => [Tok (wc_no x); Conn c]
  end.

Definition finishedItem (x : nat * bool) : item := Conn (fst x).

Definition others (s : workerPool) : list item :=
  (Tok <$> wp_ready s) ++ (Idle <$> wp_workerChanPool s) ++ (finishedItem <$> wp_finished s) ++
  held chanItems (wp_chans s).

Definition items (s : workerPool) : list item := others s ++ held pcItems (wp_threads s).

Definition toks : list item -> list nat := omap (fun x => match x with Tok ch => Some ch | _ => None end).
Definition wrks : list item -> list nat := omap (fun x => match x with Wrk ch => Some ch | _ => None end).
Definition idles : list item -> list nat := omap (fun x => match x with Idle ch => Some ch | _ => None end).
Definition news : list item -> list unit := omap (fun x => match x with New => Some () | _ => None end).
Definition conns : list item -> list nat := omap (fun x => match x with Conn c => Some c | _ => None end).

(** [n] channels exist, [m] connections were given to Serve. *)
Record itemsOk (Max count : Z) (n m : nat) (l : list item) : Prop := {
  io_toks : toks l ≡ₚ wrks l;
  io_nodup : NoDup (wrks l ++ idles l);
  io_known : Forall (fun ch => (ch < n)%nat) (wrks l ++ idles l);
  io_count : count = zlen (wrks l) + zlen (news l);
  io_limit : count <= Z.max 0 Max;
  io_conns : conns l ≡ₚ seq 0 m
}.

#[export] Instance itemsOk_proper Max count n m : Proper ((≡ₚ) ==> iff) (itemsOk Max count n m).
Proof.
  assert (forall l l', l ≡ₚ l' -> itemsOk Max count n m l -> itemsOk Max count n m l') as H.
  { intros l l' E [].
    assert (toks l ≡ₚ toks l') as E1 by (unfold toks; by rewrite E).
    assert (wrks l ≡ₚ wrks l') as E2 by (unfold wrks; by rewrite E).
    assert (idles l ≡ₚ idles l') as E3 by (unfold idles; by rewrite E).
    assert (news l ≡ₚ news l') as E4 by (unfold news; by rewrite E).
    assert (conns l ≡ₚ conns l') as E5 by (unfold conns; by rewrite E).
    split; rewrite <- ?E1, <- ?E2, <- ?E3, <- ?E4, <- ?E5; done. }
  intros l l' E. split; apply H; [done|by symmetry].
Qed.

(** The moves that change the counters. *)

Lemma itemsOk_accept Max k n m l : itemsOk Max k n m l -> itemsOk Max k n (S m) (Conn m :: l).
Proof.
  intros []. split; try done. change (m :: conns l ≡ₚ seq 0 (S m)). rewrite seq_S, io_conns0. apply Permutation_cons_append.
Qed.

Lemma itemsOk_count Max k n m l : itemsOk Max k n m l -> k < Max -> itemsOk Max (k + 1) n m (New :: l).
Proof. intros [] L. split; cbn; try done; cbn in *; lia. Qed.

Lemma itemsOk_start Max k n m ch l :
  itemsOk Max k n m (New :: Idle ch :: l) -> itemsOk Max k n m (Tok ch :: Wrk ch :: l).
Proof.
  intros [H1 H2 H3 H4 H5 H6]. cbn in *. fold (toks l) (wrks l) (idles l) (news l) (conns l) in *.
  split; cbn; fold (toks l) (wrks l) (idles l) (news l) (conns l); try done; [by rewrite H1| | |lia].
  - by rewrite Permutation_middle.
  - by rewrite Permutation_middle.
Qed.

Lemma itemsOk_exit Max k n m ch l :
  itemsOk Max k n m (Wrk ch :: Tok ch :: l) -> itemsOk Max (k - 1) n m (Idle ch :: l).
Proof.
  intros [H1 H2 H3 H4 H5 H6]. cbn in *. fold (toks l) (wrks l) (idles l) (news l) (conns l) in *.
  split; cbn; fold (toks l) (wrks l) (idles l) (news l) (conns l); try done; [|by rewrite <- Permutation_middle..|lia|lia].
  by apply Permutation.Permutation_cons_inv in H1.
Qed.

Lemma itemsOk_newChan Max k n m l : itemsOk Max k n m l -> itemsOk Max k (S n) m (Idle n :: l).
Proof.
  intros [H1 H2 H3 H4 H5 H6]. split; cbn; fold (toks l) (wrks l) (idles l) (news l) (conns l); try done.
  - rewrite <- Permutation_middle. apply NoDup_cons. split; [|done]. intros Hn. rewrite Forall_forall in H3. apply H3 in Hn. lia.
  - rewrite <- Permutation_middle. constructor; [lia|]. eapply Forall_impl; [exact H3|]. cbn. lia.
Qed.

(** ** The invariant *)

Definition itemsOkIn (s : workerPool) (l : list item) : Prop :=
  itemsOk (wp_MaxWorkersCount s) (wp_workersCount s) (length (wp_chans s)) (wp_conns s) (others s ++ l).

Definition stopKnown (n : nat) (p : pc) : Prop :=
  match p with Cleaning i | Notifying _ i | Sleeping i => (i < n)%nat | _ => True end.

Record wpInv (s : workerPool) : Prop := {
  wi_items : itemsOkIn s (held pcItems (wp_threads s));
  wi_chans : forall i x, wp_chans s !! i = Some x -> wc_no x = i;
  wi_stops : Forall (stopKnown (length (wp_stops s))) (wp_threads s);
  wi_stopCh : forall i, wp_stopCh s = Some i -> (i < length (wp_stops s))%nat;
  wi_ready : (wp_mustStop s = true \/ wp_lock s <> None) -> wp_ready s = []
}.

Definition good (o : outcome workerPool) : Prop :=
  match o with Blocked => True | Panics => False | To s => wpInv s end.

Lemma wp_Inv_init Max b : wpInv (initPool Max b).
Proof.
  split; [|done|by constructor|done|done].
  split; cbn; try done; try constructor. lia.
Qed.

(** The thread [t] goes on at [p'] and starts [new]; the rest stays. *)
Lemma wp_Inv_goto s s' t p p' new :
  wpInv s -> wp_threads s !! t = Some p -> wp_threads s' = <[t := p']> (wp_threads s) ++ new ->
  (forall r, itemsOkIn s (pcItems p ++ r) -> itemsOkIn s' (pcItems p' ++ held pcItems new ++ r)) ->
  (forall i x, wp_chans s' !! i = Some x -> wc_no x = i) ->
  wp_stops s' = wp_stops s -> wp_stopCh s' = wp_stopCh s -> Forall (stopKnown (length (wp_stops s))) (p' :: new) ->
  ((wp_mustStop s' = true \/ wp_lock s' <> None) -> wp_ready s' = []) ->
  wpInv s'.
Proof.
  intros [I1 I2 I3 I4 I5] Et Es Hi Hc Hs Hs' Hk Hr.
  destruct (held_insert pcItems (wp_threads s) t p p' Et) as (r & E1 & E2).
  apply Forall_cons in Hk as [Hk Hn]. split; try done.
  - unfold itemsOkIn in *. rewrite E1 in I1. apply Hi in I1. rewrite Es, held_app, E2. revert I1.
    apply itemsOk_proper. solve_Permutation.
  - rewrite Es, Hs. apply Forall_app. split; [|done]. by apply Forall_insert.
  - rewrite Hs, Hs'. done.
Qed.

(** A sender and a receiver meet. *)
Lemma Inv_meet s t u p p' q q' :
  wpInv s -> wp_threads s !! t = Some p -> wp_threads s !! u = Some q -> t <> u ->
  pcItems p' ++ pcItems q' ≡ₚ pcItems p ++ pcItems q ->
  stopKnown (length (wp_stops s)) p' -> stopKnown (length (wp_stops s)) q' ->
  wpInv (goto u q' (goto t p' s)).
Proof.
  intros [I1 I2 I3 I4 I5] Et Eu Htu Hi Hp Hq. split; try done.
  - destruct (held_insert pcItems (wp_threads s) t p p' Et) as (r & E1 & E2).
    assert (<[t:=p']> (wp_threads s) !! u = Some q) as Eu' by (by rewrite list_lookup_insert_ne).
    destruct (held_insert pcItems _ u q q' Eu') as (r' & E3 & E4).
    unfold itemsOkIn in *. cbn. revert I1. apply itemsOk_proper, Permutation_app_head. rewrite E1, E4.
    rewrite E2 in E3. clear - Hi E3.
    apply (Permutation_app_inv_l (pcItems p')). transitivity (pcItems p ++ (pcItems q ++ r')).
    + rewrite app_assoc, (app_assoc (pcItems p)). by rewrite Hi.
    + rewrite <- E3. solve_Permutation.
  - cbn. by apply Forall_insert; [apply Forall_insert|].
Qed.

(** Who may send on a channel has a worker to send to. *)
Lemma tok_worker s ch : wpInv s -> Tok ch ∈ others s ++ held pcItems (wp_threads s) ->
  (ch < length (wp_chans s))%nat /\ Wrk ch ∈ others s ++ held pcItems (wp_threads s).
Proof.
  intros I Ht. pose proof (wi_items _ I) as [H1 H2 H3 _ _ _].
  assert (ch ∈ wrks (others s ++ held pcItems (wp_threads s))) as Hw.
  { rewrite <- H1. apply list_elem_of_omap. by exists (Tok ch). }
  split.
  - rewrite Forall_forall in H3. apply H3. set_solver.
  - apply list_elem_of_omap in Hw as (x & Hx & E). destruct x; simplify_eq. done.
Qed.

(** ** Every step keeps the invariant *)

(** The accounts of a move without change of a counter. *)
Ltac wp_items :=
  let r := fresh "r" in let H := fresh "H" in
  intros r H; unfold itemsOkIn, others in *; cbn in *;
  first [exact H | revert H; apply itemsOk_proper; rewrite ?fmap_app; cbn; solve_Permutation].

Ltac wp_goto I Et new :=
  eapply (wp_Inv_goto _ _ _ _ _ new I Et);
  [cbn; by rewrite ?app_nil_r
  |try solve [wp_items]
  |try exact (wi_chans _ I)
  |try reflexivity
  |try reflexivity
  |try solve [repeat (apply Forall_cons; split); try apply Forall_nil; done]
  |try exact (wi_ready _ I)].

Section Steps.
Variables (s : workerPool) (t : nat) (p : pc).
Hypothesis I : wpInv s.
Hypothesis Et : wp_threads s !! t = Some p.

Lemma wp_good_section o : (wp_lock s = None -> good o) -> good (section s o).
Proof. unfold section. destruct (wp_lock s); cbn; auto. Qed.

Lemma thread_tok ch : Tok ch ∈ pcItems p -> (ch < length (wp_chans s))%nat.
Proof.
  intros H. apply (tok_worker s ch I). rewrite elem_of_app. right. apply elem_of_held. by exists t, p.
Qed.

Lemma thread_wrk ch : Wrk ch ∈ pcItems p -> (ch < length (wp_chans s))%nat.
Proof.
  intros H. pose proof (wi_items _ I) as [_ _ H3 _ _ _]. rewrite Forall_forall in H3. apply H3, elem_of_app. left.
  apply list_elem_of_omap. exists (Wrk ch). split; [|done]. rewrite elem_of_app. right. apply elem_of_held. by exists t, p.
Qed.

Lemma thread_stop : stopKnown (length (wp_stops s)) p.
Proof. pose proof (wi_stops _ I) as F. rewrite Forall_lookup in F. by eapply F. Qed.

(** Storing in a channel. *)
Lemma chans_insert ch x time m :
  wp_chans s !! ch = Some x ->
  forall i y, <[ch := MkChan (wc_no x) time m]> (wp_chans s) !! i = Some y -> wc_no y = i.
Proof.
  intros Ex i y. destruct (decide (i = ch)) as [->|D].
  - rewrite list_lookup_insert_eq by (by eapply lookup_lt_Some). intros [= <-]. exact (wi_chans _ I _ _ Ex).
  - rewrite list_lookup_insert_ne by done. apply (wi_chans _ I).
Qed.

Lemma good_getCh c : p = Serving c -> good (stepGetCh t c s).
Proof.
  intros ->. apply wp_good_section. intros _. destruct (last (wp_ready s)) as [ch|] eqn:El.
  - apply last_Some in El as [l El]. rewrite El, length_app, Nat.add_sub, take_app_exact. cbn.
    wp_goto I Et (@nil pc).
    + intros r. unfold itemsOkIn, others. cbn. rewrite El. apply itemsOk_proper. rewrite fmap_app. cbn. solve_Permutation.
    + intros Hm. apply (wi_ready _ I) in Hm. rewrite El in Hm. by destruct l.
  - destruct (Z.ltb_spec (wp_workersCount s) (wp_MaxWorkersCount s)) as [L|L]; cbn; wp_goto I Et (@nil pc).
    intros r H. apply (itemsOk_count _ _ _ _ _ H) in L. revert L. apply itemsOk_proper. unfold others. cbn. solve_Permutation.
Qed.

Lemma good_create c i : p = Creating c -> good (stepCreate t c i s).
Proof.
  intros ->. destruct i as [i|]; cbn [stepCreate].
  - destruct (wp_workerChanPool s !! i) as [ch|] eqn:Ei; [|done]. cbn.
    wp_goto I Et [Receiving ch]. intros r H. unfold itemsOkIn, others in *. cbn in *.
    apply itemsOk_proper with (y := Tok ch :: Wrk ch :: (Tok <$> wp_ready s) ++ (Idle <$> delete i (wp_workerChanPool s)) ++
      (finishedItem <$> wp_finished s) ++ held chanItems (wp_chans s) ++ Conn c :: r); [solve_Permutation|].
    apply itemsOk_start. revert H. apply itemsOk_proper. 
    assert (Idle <$> wp_workerChanPool s ≡ₚ Idle ch :: (Idle <$> delete i (wp_workerChanPool s))) as ->
      by exact (fmap_Permutation Idle _ _ (delete_Permutation _ _ _ Ei)). solve_Permutation.
  - cbn. wp_goto I Et [Receiving (length (wp_chans s))].
    + intros r H. unfold itemsOkIn, others in *. cbn in *. rewrite held_snoc, length_app. cbn. rewrite Nat.add_1_r.
      apply itemsOk_newChan in H.
      apply itemsOk_proper with (y := Tok (length (wp_chans s)) :: Wrk (length (wp_chans s)) :: (Tok <$> wp_ready s) ++
        (Idle <$> wp_workerChanPool s) ++
        (finishedItem <$> wp_finished s) ++ held chanItems (wp_chans s) ++ Conn c :: r); [solve_Permutation|].
      apply itemsOk_start. revert H. apply itemsOk_proper. solve_Permutation.
    + cbn. intros j x Ej. apply lookup_snoc_Some in Ej as [[_ Ej]|[-> <-]]; [by apply (wi_chans _ I)|done].
Qed.

Lemma sends_items ch m k : sends p = Some (ch, m, k) ->
  pcItems p ≡ₚ Tok ch :: match m with Some c => [Conn c] | None => [] end ++ pcItems k /\
  stopKnown (length (wp_stops s)) k.
Proof.
  pose proof thread_stop as Hs. clear Et I. intros E.
  destruct p as [| |ch' c| | | | | | | | | |[|ch' l] i| | |[|ch' l]|]; cbn in E; try done; injection E as <- <- <-; cbn; try done.
Qed.

Lemma good_send ch m k : sends p = Some (ch, m, k) -> good (stepSend t ch m k s).
Proof.
  intros E. destruct (sends_items _ _ _ E) as [Ei Hk]. unfold stepSend. destruct (wp_buffered s); [|done].
  destruct (lookup_lt_is_Some_2 (wp_chans s) ch) as [x Ex]; [apply thread_tok; rewrite Ei; set_solver|].
  rewrite Ex. cbn [must]. destruct (wc_ch x) eqn:Em; [done|]. cbn. wp_goto I Et (@nil pc).
  - intros r. unfold itemsOkIn, others. cbn. rewrite length_insert. apply itemsOk_proper.
    destruct (held_insert chanItems (wp_chans s) ch x (MkChan (wc_no x) (wc_lastUseTime x) (Some m)) Ex) as (r' & S1 & S2).
    rewrite S1, S2, Ei. unfold chanItems. rewrite Em. cbn. rewrite (wi_chans _ I _ _ Ex). destruct m; cbn; solve_Permutation.
  - by apply chans_insert.
Qed.

Lemma good_meet r ch m k : sends p = Some (ch, m, k) -> good (stepMeet t r ch m k s).
Proof.
  intros E. destruct (sends_items _ _ _ E) as [Ei Hk]. unfold stepMeet. destruct (wp_buffered s); [done|].
  destruct (wp_threads s !! r) as [q|] eqn:Er; [|done]. destruct q as [| | | | |ch'| | | | | | | | | | |]; try done. case_decide as D; [|done]. subst ch'.
  apply (Inv_meet s t r p _ (Receiving ch) _ I Et Er); try done.
  - intros <-. rewrite Et in Er. injection Er as ->. done.
  - rewrite Ei. destruct m; cbn; solve_Permutation.
  - by destruct m.
Qed.

Lemma good_receive ch : p = Receiving ch -> good (stepReceive t ch s).
Proof.
  intros Ep. destruct (lookup_lt_is_Some_2 (wp_chans s) ch) as [x Ex]; [apply thread_wrk; rewrite Ep; cbn; set_solver|].
  subst p. unfold stepReceive.
  rewrite Ex. cbn [must]. destruct (wc_ch x) as [m|] eqn:Em; [|done]. cbn. wp_goto I Et (@nil pc).
  - intros r. unfold itemsOkIn, others. cbn. rewrite length_insert. apply itemsOk_proper.
    destruct (held_insert chanItems (wp_chans s) ch x (MkChan (wc_no x) (wc_lastUseTime x) None) Ex) as (r' & S1 & S2).
    rewrite S1, S2. unfold chanItems. rewrite Em. cbn. rewrite (wi_chans _ I _ _ Ex). destruct m; cbn; solve_Permutation.
  - by apply chans_insert.
  - repeat constructor. by destruct m.
Qed.

Lemma good_stamp ch now : p = Released ch -> good (stepStamp t ch now s).
Proof.
  intros Ep. destruct (lookup_lt_is_Some_2 (wp_chans s) ch) as [x Ex]; [apply thread_wrk; rewrite Ep; cbn; set_solver|].
  subst p. unfold stepStamp. rewrite Ex. cbn [must good]. wp_goto I Et (@nil pc).
  - intros r. unfold itemsOkIn, others. cbn. rewrite length_insert. apply itemsOk_proper.
    rewrite (held_insert_same chanItems (wp_chans s) ch x (MkChan (wc_no x) now (wc_ch x)) Ex) by done. solve_Permutation.
  - by apply chans_insert.
Qed.

Lemma good_releaseCh ch : p = Stamped ch -> good (stepReleaseCh t ch s).
Proof.
  intros ->. apply wp_good_section. intros Hl. destruct (wp_mustStop s) eqn:Em; cbn; wp_goto I Et (@nil pc).
  cbn. rewrite Em. by intros [?|?].
Qed.

Lemma good_exit ch : p = Exiting ch -> good (stepExit t ch s).
Proof.
  intros ->. apply wp_good_section. intros Hl. cbn. wp_goto I Et (@nil pc). intros r H.
  unfold itemsOkIn, others in *. cbn in *.
  apply itemsOk_proper with (y := Idle ch :: (Tok <$> wp_ready s) ++ (Idle <$> wp_workerChanPool s) ++
    (finishedItem <$> wp_finished s) ++ held chanItems (wp_chans s) ++ r); [solve_Permutation|].
  apply itemsOk_exit. revert H. apply itemsOk_proper. solve_Permutation.
Qed.

Lemma ready_times : exists times,
  mapM (fun ch => x ← wp_chans s !! ch; Some (wc_lastUseTime x)) (wp_ready s) = Some times /\
  Forall2 (fun ch time => exists x, wp_chans s !! ch = Some x /\ wc_lastUseTime x = time) (wp_ready s) times.
Proof.
  assert (Forall (fun ch => (ch < length (wp_chans s))%nat) (wp_ready s)) as F.
  { apply Forall_forall. intros ch Hc. apply (tok_worker s ch I). rewrite elem_of_app. left. unfold others.
    rewrite elem_of_app. left. by apply list_elem_of_fmap_2. }
  induction (wp_ready s) as [|ch l IH]; [by exists []|]. apply Forall_cons in F as [Hc F].
  destruct (IH F) as (times & E & F2). destruct (lookup_lt_is_Some_2 _ _ Hc) as [x Ex].
  exists (wc_lastUseTime x :: times). split; [|constructor; eauto]. cbn [mapM]. rewrite Ex. cbn [mbind option_bind].
  by rewrite E.
Qed.

Lemma wp_good_clean i criticalTime : p = Cleaning i -> good (stepCleanReady t i criticalTime s).
Proof.
  pose proof thread_stop as Hs. intros ->. apply wp_good_section. intros Hl.
  destruct ready_times as (times & -> & _). cbn [must].
  destruct (cleanIndex_boundary criticalTime times) as (k & -> & _). cbn [must].
  destruct (k =? -1); cbn; wp_goto I Et (@nil pc).
  - intros r. unfold itemsOkIn, others. cbn. apply itemsOk_proper.
    rewrite <- (take_drop (Z.to_nat (k + 1)) (wp_ready s)) at 3. rewrite fmap_app. solve_Permutation.
  - cbn. intros Hm. apply (wi_ready _ I) in Hm. by rewrite Hm, drop_nil.
Qed.

Lemma good_stopping : p = Stopping -> good (stepStopping t s).
Proof. intros ->. apply wp_good_section. intros Hl. cbn. wp_goto I Et (@nil pc). done. Qed.

Lemma good_stopped : p = StopLoop [] -> good (stepStopped t s).
Proof.
  intros ->. unfold stepStopped. case_decide as D; [|done]. cbn. wp_goto I Et (@nil pc).
  cbn. intros _. apply (wi_ready _ I). right. by rewrite D.
Qed.

Lemma good_sleeping i : p = Sleeping i ->
  good (must (wp_stops s !! i) (fun closed => To (goto t (if closed : bool then Ended else Cleaning i) s))).
Proof.
  pose proof thread_stop as Hs. intros ->. destruct (lookup_lt_is_Some_2 _ _ Hs) as [b ->]. cbn [must good].
  destruct b; wp_goto I Et (@nil pc).
Qed.

End Steps.

#[local] Hint Resolve good_getCh good_create good_receive good_stamp good_releaseCh good_exit wp_good_clean good_stopping
  good_stopped : core.

Lemma good_thread s t p a : wpInv s -> wp_threads s !! t = Some p -> good (wpThread t p a s).
Proof.
  intros I Et. unfold wpThread. destruct (sends p) as [[[ch m] k]|] eqn:Es.
  { destruct a; try done; [by eapply good_send|by eapply good_meet]. }
  pose proof (thread_stop s t p I Et) as Hs. destruct p, a; try done; eauto;
    try (cbn; by wp_goto I Et (@nil pc)); try by eapply good_sleeping.
  all: destruct chs as [|ch chs]; try done; eauto; cbn; by wp_goto I Et (@nil pc).
Qed.

Lemma wp_good_call s t a : wpInv s -> (forall s', wpCall t a s = To s' -> wpInv s').
Proof.
  intros I s'. unfold wpCall. case_decide; [|done].
  destruct a; try done; unfold stepStart, stepStop;
    [intros [= <-]|destruct (wp_stopCh s) as [i|] eqn:E; [done|]; intros [= <-]
    |destruct (wp_stopCh s) as [i|] eqn:E; [|done]; intros [= <-]]; destruct I as [I1 I2 I3 I4 I5]; split; try done; cbn.
  - unfold itemsOkIn, others in *. cbn. apply itemsOk_accept in I1. revert I1. apply itemsOk_proper.
    rewrite held_snoc. cbn. solve_Permutation.
  - apply Forall_app. by split; [|constructor].
  - unfold itemsOkIn, others in *. cbn. rewrite held_snoc. cbn. by rewrite app_nil_r.
  - apply Forall_app. split; [|constructor; [|done]]; cbn; rewrite length_app; [|simpl; lia].
    eapply Forall_impl; [exact I3|]. intros []; simpl; try done; lia.
  - intros i [= <-]. rewrite length_app. simpl. lia.
  - unfold itemsOkIn, others in *. cbn. rewrite held_snoc. cbn. by rewrite app_nil_r.
  - rewrite length_insert. apply Forall_app. by split; [|constructor].
Qed.

Lemma wp_step_inv s t a s' : wpInv s -> step t a s = To s' -> wpInv s'.
Proof.
  intros I. unfold step, worker_machine. destruct (wp_threads s !! t) as [p|] eqn:Et; [|by apply wp_good_call].
  pose proof (good_thread s t p a I Et) as G. intros E. by rewrite E in G.
Qed.

Lemma wp_reachable_inv Max b s : reachable (initPool Max b) s -> wpInv s.
Proof. apply (reachable_invariant wpInv); [apply wp_Inv_init|]. intros t a s1 s2. apply wp_step_inv. Qed.

Lemma Max_kept s t a s' : step t a s = To s' -> wp_MaxWorkersCount s' = wp_MaxWorkersCount s /\ wp_buffered s' = wp_buffered s.
Proof.
  unfold step, worker_machine, wpCall, wpThread, section, must.
  repeat (case_match || case_decide); try done;
    unfold stepCreate, stepSend, stepMeet, stepReceive, stepStamp, stepReleaseCh, stepExit, stepCleanReady, stepStopping,
      stepStopped, stepStart, stepStop, stepGetCh, section, must in *;
    repeat (case_match || case_decide); intros E; try discriminate E; injection E as <-; by cbn.
Qed.

Lemma reachable_Max Max b s : reachable (initPool Max b) s -> wp_MaxWorkersCount s = Max /\ wp_buffered s = b.
Proof.
  apply (reachable_invariant (fun s => wp_MaxWorkersCount s = Max /\ wp_buffered s = b)); [done|].
  intros t a s1 s2 [<- <-]. apply Max_kept.
Qed.

(** ** Sending *)

Lemma one_tok s ch l1 l2 l3 : wpInv s -> others s ++ held pcItems (wp_threads s) ≡ₚ l1 ++ (Tok ch :: l2) ++ Tok ch :: l3 -> False.
Proof.
  intros I E0. assert (others s ++ held pcItems (wp_threads s) ≡ₚ Tok ch :: Tok ch :: l1 ++ l2 ++ l3) as E
    by (rewrite E0; solve_Permutation). clear E0. pose proof (wi_items _ I) as [H1 H2 _ _ _ _]. rewrite <- H1 in H2.
  assert (toks (others s ++ held pcItems (wp_threads s)) ≡ₚ toks (Tok ch :: Tok ch :: l1 ++ l2 ++ l3)) as E2 by (unfold toks; by rewrite E).
  rewrite E2 in H2. apply NoDup_app in H2 as (N & _). cbn in N. apply NoDup_cons in N as [N _]. apply N. set_solver.
Qed.

Lemma no_worker_elsewhere s ch : Wrk ch ∈ others s -> False.
Proof.
  unfold others. rewrite !elem_of_app, !list_elem_of_fmap, elem_of_held.
  intros [(? & ? & _)|[(? & ? & _)|[([c b] & ? & _)|(i & x & _ & Hx)]]]; try done.
  unfold chanItems in Hx. destruct (wc_ch x) as [[c|]|]; set_solver.
Qed.

Lemma send_possible s t p ch m k : wpInv s -> wp_threads s !! t = Some p -> sends p = Some (ch, m, k) ->
  exists a s', step t a s = To s' /\ wp_threads s' !! t = Some k /\
    wp_lock s' = wp_lock s /\ wp_ready s' = wp_ready s /\ wp_mustStop s' = wp_mustStop s.
Proof.
  intros I Et Es. pose proof (lookup_lt_Some _ _ _ Et) as Ht. destruct (sends_items _ _ _ I Et _ _ _ Es) as [Ei _].
  assert (Tok ch ∈ others s ++ held pcItems (wp_threads s)) as Hin.
  { rewrite elem_of_app. right. apply elem_of_held. exists t, p. split; [done|]. rewrite Ei. set_solver. }
  destruct (tok_worker s ch I Hin) as [Hc Hw]. destruct (lookup_lt_is_Some_2 _ _ Hc) as [x Ex].
  unfold step, worker_machine. rewrite Et. destruct (wp_buffered s) eqn:Eb.
  - exists Go. eexists. unfold wpThread. rewrite Es. unfold stepSend. rewrite Eb, Ex. cbn [must].
    destruct (wc_ch x) as [m'|] eqn:Em.
    + exfalso. destruct (held_lookup chanItems _ _ _ Ex) as [r1 E1], (held_lookup pcItems _ _ _ Et) as [r2 E2].
      rewrite Ei in E2. unfold chanItems in E1. rewrite Em, (wi_chans _ I _ _ Ex) in E1.
      apply (one_tok s ch ((Tok <$> wp_ready s) ++ (Idle <$> wp_workerChanPool s) ++ (finishedItem <$> wp_finished s))
        (match m' with Some c => [Conn c] | None => [] end ++ r1)
        ((match m with Some c => [Conn c] | None => [] end ++ pcItems k) ++ r2) I).
      unfold others. rewrite E1, E2. destruct m'; cbn; solve_Permutation.
    + split; [reflexivity|]. cbn. by rewrite list_lookup_insert_eq.
  - rewrite elem_of_app in Hw. destruct Hw as [Hw|Hw]; [by apply no_worker_elsewhere in Hw|].
    apply elem_of_held in Hw as (r & q & Er & Hq).
    assert (r <> t) as D. { intros ->. rewrite Et in Er. injection Er as <-. clear - Hq Es. destruct p; cbn in *; try done; set_solver. }
    assert (q = Receiving ch) as ->.
    { destruct (held_lookup2 pcItems _ _ _ _ _ Er Et D) as [r' E']. rewrite Ei in E'.
      remember q as q0 eqn:Eq. destruct q; rewrite Eq in Hq; cbn in Hq; try (exfalso; clear - Hq; set_solver); try (rewrite Eq; f_equal; clear - Hq; set_solver).
      all: exfalso; assert (ch0 = ch) as -> by (clear - Hq; set_solver);
        apply (one_tok s ch (others s ++ [Wrk ch])
          match q0 with Working _ c => [Conn c] | _ => [] end
          ((match m with Some c => [Conn c] | None => [] end ++ pcItems k) ++ r') I); rewrite E'; subst q0; cbn; solve_Permutation. }
    exists (Meet r). eexists. unfold wpThread. rewrite Es. unfold stepMeet. rewrite Eb, Er, decide_True by done.
    split; [reflexivity|]. cbn. rewrite list_lookup_insert_ne by done. by rewrite list_lookup_insert_eq.
Qed.

(** ** Stopping *)

Lemma mustStop_kept s t a s' : step t a s = To s' -> wp_mustStop s = true -> wp_mustStop s' = true.
Proof.
  unfold step, worker_machine, wpCall, wpThread, section, must.
  repeat (case_match || case_decide); try done;
    unfold stepCreate, stepSend, stepMeet, stepReceive, stepStamp, stepReleaseCh, stepExit, stepCleanReady, stepStopping,
      stepStopped, stepStart, stepStop, stepGetCh, section, must in *;
    repeat (case_match || case_decide); intros E; try discriminate E; injection E as <-; by cbn.
Qed.

Lemma run_one t a s sched : run ((t, a) :: sched) s = obind (run sched) (step t a s).
Proof. done. Qed.

Lemma stopLoop_ends l s t :
  wpInv s -> wp_threads s !! t = Some (StopLoop l) -> wp_lock s = Some t ->
  exists sched s', run sched s = To s' /\ Forall (fun x => fst x = t) sched /\
    wp_threads s' !! t = Some Ended /\ wp_lock s' = None /\ wp_mustStop s' = true /\ wp_ready s' = [].
Proof.
  revert s. induction l as [|ch l IH]; intros s I Et El; pose proof (lookup_lt_Some _ _ _ Et) as Ht.
  - exists [(t, Go)]. eexists. unfold run, step, worker_machine. rewrite Et. cbn. unfold stepStopped. rewrite decide_True by done.
    split; [reflexivity|]. split; [by repeat constructor|]. cbn. rewrite list_lookup_insert_eq by done.
    split_and!; try done. apply (wi_ready _ I). right. by rewrite El.
  - destruct (send_possible s t _ ch None (StopLoop l) I Et eq_refl) as (a & s1 & E & Et1 & El1 & _ & _).
    destruct (IH s1 (wp_step_inv _ _ _ _ I E) Et1) as (sched & s' & E' & F & H); [by rewrite El1|].
    exists ((t, a) :: sched), s'. rewrite run_one, E. split; [exact E'|]. split; [by constructor|exact H].
Qed.

(** ** Cleaning *)

(** The time a worker of the ready list was last used is before [criticalTime]. *)
Definition obsolete (s : workerPool) (criticalTime : Z) (ch : nat) : Prop :=
  exists x, wp_chans s !! ch = Some x /\ wc_lastUseTime x < criticalTime.

Definition useTimes (s : workerPool) : list Z :=
  omap (fun ch => wc_lastUseTime <$> wp_chans s !! ch) (wp_ready s).

Lemma useTimes_spec s times :
  Forall2 (fun ch time => exists x, wp_chans s !! ch = Some x /\ wc_lastUseTime x = time) (wp_ready s) times -> useTimes s = times.
Proof.
  unfold useTimes. induction 1 as [|ch time l times (x & Ex & Et) _ IH]; [done|]. cbn [omap list_omap]. rewrite Ex. cbn.
  by rewrite Et, IH.
Qed.

Lemma obsolete_time s criticalTime ch time :
  (exists x, wp_chans s !! ch = Some x /\ wc_lastUseTime x = time) -> obsolete s criticalTime ch <-> time < criticalTime.
Proof.
  intros (x & Ex & Et). split; [intros (y & Ey & L)|intros L; by exists x; subst time]. rewrite Ex in Ey. by injection Ey as ->; subst time.
Qed.

Lemma Forall2_Forall {A B} (R : A -> B -> Prop) (P : A -> Prop) (Q : B -> Prop) l l' :
  Forall2 R l l' -> (forall x y, R x y -> Q y -> P x) -> Forall Q l' -> Forall P l.
Proof. intros F H. induction F; intros G; [done|]. apply Forall_cons in G as [? ?]. constructor; eauto. Qed.

Lemma clean_spec s t stop criticalTime :
  wpInv s -> wp_threads s !! t = Some (Cleaning stop) -> wp_lock s = None ->
  exists n s', step t (Now criticalTime) s = To s' /\ wp_ready s' = drop n (wp_ready s) /\
    wp_threads s' !! t = Some (match n with O => Sleeping stop | _ => Notifying (take n (wp_ready s)) stop end) /\
    (forall ch, last (take n (wp_ready s)) = Some ch -> obsolete s criticalTime ch) /\
    (forall ch, head (drop n (wp_ready s)) = Some ch -> ~ obsolete s criticalTime ch) /\
    (StronglySorted Z.le (useTimes s) ->
     Forall (obsolete s criticalTime) (take n (wp_ready s)) /\
     Forall (fun ch => ~ obsolete s criticalTime ch) (drop n (wp_ready s))).
Proof.
  intros I Et El. pose proof (lookup_lt_Some _ _ _ Et) as Ht. destruct (ready_times s I) as (times & Em & F).
  destruct (cleanIndex_boundary criticalTime times) as (k & Ek & Hk). pose proof Hk as ([K1 K2] & K3 & K4).
  rewrite (useTimes_spec _ _ F). pose proof (Forall2_length _ _ _ F) as Hlen.
  exists (Z.to_nat (k + 1)). unfold step, worker_machine. rewrite Et. cbn [wpThread sends]. unfold stepCleanReady, section.
  rewrite El, Em. cbn [must]. rewrite Ek. cbn [must].
  assert (forall P : workerPool -> Prop,
    P (if k =? -1 then goto t (Sleeping stop) s else goto t (Notifying (take (Z.to_nat (k + 1)) (wp_ready s)) stop)
         (set_ready (drop (Z.to_nat (k + 1)) (wp_ready s)) s)) ->
    exists s', (if k =? -1 then To (goto t (Sleeping stop) s)
      else To (goto t (Notifying (take (Z.to_nat (k + 1)) (wp_ready s)) stop)
         (set_ready (drop (Z.to_nat (k + 1)) (wp_ready s)) s))) = To s' /\ P s') as Hex
    by (intros P HP; eexists; split; [|exact HP]; by destruct (k =? -1)).
  apply Hex. clear Hex. split_and!.
  - destruct (Z.eqb_spec k (-1)) as [->|D]; [by rewrite drop_0|done].
  - destruct (Z.eqb_spec k (-1)) as [->|D]; cbn; rewrite list_lookup_insert_eq by done; [done|].
    by destruct (Z.to_nat (k + 1)) eqn:E0; [lia|].
  - intros ch Ec. rewrite last_lookup in Ec. apply lookup_take_Some in Ec as [Ec Hc].
    rewrite length_take in Ec, Hc. destruct (Forall2_lookup_l _ _ _ _ _ F Ec) as (time & Ey & Hr).
    apply (obsolete_time _ _ _ _ Hr), K3; [lia|]. rewrite <- Ey. f_equal. lia.
  - intros ch Ec. rewrite head_lookup, lookup_drop, Nat.add_0_r in Ec.
    destruct (Forall2_lookup_l _ _ _ _ _ F Ec) as (time & Ey & Hr). apply K4 in Ey.
    intros Ho. apply (obsolete_time _ _ _ _ Hr) in Ho. lia.
  - intros S. destruct (boundary_sorted _ _ _ S Hk) as [S1 S2]. split.
    + apply (Forall2_Forall _ _ (fun time => time < criticalTime) _ _ (Forall2_take _ _ _ (Z.to_nat (k + 1)) F));
        [intros x y Hr Hy; by apply (obsolete_time _ _ _ _ Hr)|].
      rewrite S1. apply Forall_forall. intros y Hy. by apply list_elem_of_filter in Hy as [? _].
    + apply (Forall2_Forall _ _ (fun time => ~ time < criticalTime) _ _ (Forall2_drop _ _ _ (Z.to_nat (k + 1)) F));
        [intros x y Hr Hy Ho; by apply Hy, (obsolete_time _ _ _ _ Hr)|].
      rewrite S2. apply Forall_forall. intros y Hy. by apply list_elem_of_filter in Hy as [? _].
Qed.

(** * Properties *)


(** Two connections, one worker: the second is refused; the worker is reused for the third. *)
Definition oneWorker : list (nat * action) :=
  [(0, CallServe); (0, Go); (0, Get None); (0, Go); (1, Go); (2, CallServe); (2, Go); (1, Finish false); (1, Now 5);
   (1, Go); (3, CallServe); (3, Go); (3, Go); (1, Go)]%nat.


(** Sending to a worker never waits for one that is busy: a goroutine that
    has taken a channel from the ready list (Serve, clean, or Stop, which sends
    with the lock held) can complete its send at once, into the empty buffer or
    to a worker that is receiving. *)
Lemma send_never_waits (Max : Z) (buffered : bool) (s : workerPool) (t : nat) (p : pc) (ch : nat) (m : option nat) (k : pc)
    (R : reachable (initPool Max buffered) s) (Et : wp_threads s !! t = Some p) (Es : sends p = Some (ch, m, k)) :
  exists a s', step t a s = To s' /\ wp_threads s' !! t = Some k.
Proof.
  destruct (send_possible s t p ch m k (wp_reachable_inv _ _ _ R) Et Es) as (a & s' & E & Et' & _). eauto.
Qed.

(** Stop terminates: once it has the lock, its own steps and the receives of
    idle workers are enough to finish it; it gives the lock back with no worker
    left in the ready list. *)
Lemma Stop_terminates (Max : Z) (buffered : bool) (s : workerPool) (t : nat)
    (R : reachable (initPool Max buffered) s) (Et : wp_threads s !! t = Some Stopping) (El : wp_lock s = None) :
  exists sched s', run sched s = To s' /\ Forall (fun x => fst x = t) sched /\
    wp_threads s' !! t = Some Ended /\ wp_lock s' = None /\ wp_mustStop s' = true /\ wp_ready s' = [].
Proof.
  pose proof (wp_reachable_inv _ _ _ R) as I. pose proof (lookup_lt_Some _ _ _ Et) as Ht.
  assert (step t Go s = To (goto t (StopLoop (wp_ready s)) (set_lock (Some t) (set_ready [] s)))) as E.
  { unfold step, worker_machine. rewrite Et. cbn. unfold stepStopping, section. by rewrite El. }
  destruct (stopLoop_ends (wp_ready s) _ t (wp_step_inv _ _ _ _ I E)) as (sched & s' & E' & F & H); [|done|].
  { cbn. by rewrite list_lookup_insert_eq. }
  exists ((t, Go) :: sched), s'. rewrite run_one, E. split; [exact E'|]. split; [by constructor|exact H].
Qed.

(** Two idle workers and a call of Stop. *)
Definition twoIdle : list (nat * action) :=
  [(0, CallStart); (1, CallServe); (1, Go); (1, Get None); (3, CallServe); (3, Go); (3, Get None); (1, Meet 2); (3, Meet 4);
   (2, Finish false); (4, Finish true); (2, Now 1); (4, Now 2); (2, Go); (4, Go); (5, CallStop)]%nat.

Lemma send_never_waits_witness :
  exists s, run (twoIdle ++ [(5%nat, Go)]) (initPool 2 false) = To s /\
    wp_threads s !! 5%nat = Some (StopLoop [0; 1]%nat) /\
    exists a s', step 5%nat a s = To s' /\ wp_threads s' !! 5%nat = Some (StopLoop [1]%nat).
Proof.
  destruct (run (twoIdle ++ [(5%nat, Go)]) (initPool 2 false)) as [| |s] eqn:E; [vm_compute in E; done|vm_compute in E; done|].
  exists s. split; [done|]. assert (wp_threads s !! 5%nat = Some (StopLoop [0; 1]%nat)) as Et by (by vm_compute in E; injection E as <-).
  split; [exact Et|]. exact (send_never_waits 2 false s 5 _ 0 None _ (run_reachable _ _ _ E) Et eq_refl).
Defined.

Lemma Stop_terminates_witness :
  exists s, run twoIdle (initPool 2 false) = To s /\ wp_ready s = [0; 1]%nat /\
    exists sched s', run sched s = To s' /\ Forall (fun x => fst x = 5%nat) sched /\
      wp_threads s' !! 5%nat = Some Ended /\ wp_lock s' = None /\ wp_mustStop s' = true /\ wp_ready s' = [].
Proof.
  destruct (run twoIdle (initPool 2 false)) as [| |s] eqn:E; [vm_compute in E; done|vm_compute in E; done|].
  exists s. split; [done|].
  assert (wp_ready s = [0; 1]%nat /\ wp_threads s !! 5%nat = Some Stopping /\ wp_lock s = None) as (E1 & E2 & E3)
    by (by vm_compute in E; injection E as <-).
  split; [exact E1|]. exact (Stop_terminates 2 false s 5 (run_reachable _ _ _ E) E2 E3).
Defined.

(** What clean dismisses: a prefix of the ready list, whose last worker is
    obsolete and whose successor is not; if the ready list is in the order of
    last use, exactly the obsolete workers. *)
Lemma clean_dismisses (Max : Z) (buffered : bool) (s : workerPool) (t stop : nat) (criticalTime : Z)
    (R : reachable (initPool Max buffered) s) (Et : wp_threads s !! t = Some (Cleaning stop)) (El : wp_lock s = None) :
  exists n s', step t (Now criticalTime) s = To s' /\ wp_ready s' = drop n (wp_ready s) /\
    wp_threads s' !! t = Some (match n with O => Sleeping stop | _ => Notifying (take n (wp_ready s)) stop end) /\
    (forall ch, last (take n (wp_ready s)) = Some ch -> obsolete s criticalTime ch) /\
    (forall ch, head (drop n (wp_ready s)) = Some ch -> ~ obsolete s criticalTime ch) /\
    (StronglySorted Z.le (useTimes s) ->
     Forall (obsolete s criticalTime) (take n (wp_ready s)) /\
     Forall (fun ch => ~ obsolete s criticalTime ch) (drop n (wp_ready s))).
Proof.
  exact (clean_spec s t stop criticalTime (wp_reachable_inv _ _ _ R) Et El).
Qed.

(** Two workers were used at times 1 and 2; what was used before 2 is dismissed. *)
Lemma clean_dismisses_witness :
  exists s, run (take 15 twoIdle) (initPool 2 false) = To s /\ useTimes s = [1; 2] /\
    exists n s', step 0%nat (Now 2) s = To s' /\ wp_ready s' = drop n (wp_ready s) /\
    wp_threads s' !! 0%nat = Some (match n with O => Sleeping 0 | _ => Notifying (take n (wp_ready s)) 0 end) /\
    (forall ch, last (take n (wp_ready s)) = Some ch -> obsolete s 2 ch) /\
    (forall ch, head (drop n (wp_ready s)) = Some ch -> ~ obsolete s 2 ch) /\
    (StronglySorted Z.le (useTimes s) ->
     Forall (obsolete s 2) (take n (wp_ready s)) /\ Forall (fun ch => ~ obsolete s 2 ch) (drop n (wp_ready s))).
Proof.
  destruct (run (take 15 twoIdle) (initPool 2 false)) as [| |s] eqn:E; [vm_compute in E; done|vm_compute in E; done|].
  exists s. split; [done|].
  assert (useTimes s = [1; 2] /\ wp_threads s !! 0%nat = Some (Cleaning 0) /\ wp_lock s = None) as (E1 & E2 & E3)
    by (by vm_compute in E; injection E as <-).
  split; [exact E1|]. exact (clean_dismisses 2 false s 0 0 2 (run_reachable _ _ _ E) E2 E3).
Defined.

(** Start does not undo Stop: mustStop stays set, so in a pool that was
    stopped and started again no worker is ever idle, each one serves a single
    connection. *)
Lemma restarted_pool_reuses_nothing :
  (forall Max buffered s s', reachable (initPool Max buffered) s -> wp_mustStop s = true -> reachable s s' ->
     wp_mustStop s' = true /\ wp_ready s' = []) /\
  exists s, run [(0, CallStart); (1, CallStop); (1, Go); (1, Go); (2, CallStart)]%nat (initPool 8 true) = To s /\
    wp_stopCh s = Some 1%nat /\ wp_mustStop s = true.
Proof.
  split; [|eexists; split; [vm_compute; reflexivity|by split]].
  intros Max buffered s s' R E R'.
  assert (wp_mustStop s' = true) as E'.
  { refine (reachable_invariant (fun s => wp_mustStop s = true) s s' E _ R'). intros t a s1 s2 E1 E2. by eapply mustStop_kept. }
  split; [done|]. apply (wi_ready s'); [|by left].
  refine (reachable_invariant wpInv s s' (wp_reachable_inv _ _ _ R) _ R'). intros t a s1 s2. apply wp_step_inv.
Qed.
