(* ===== verification/Client.v ===== *)
(** * client.go: requests

    What a HostClient does with one request: the preparation of the request and
    the response, one exchange over a connection of the pool (doNonNilReqResp),
    the attempts of Do, and the redirects of Get and Post.  The pool itself is in
    ConnPool; here an [exchange] says what the environment answers during one
    attempt.  The addresses of a host are at the end. *)
From Stdlib Require Import Strings.String.
From S2P Require Import Prelude BytesConv Consts Args Uri Cookie HeaderScan RequestHeader ResponseHeader Bufio Body HeaderRead Http.

Definition DefaultMaxIdemponentCallAttempts : Z := 5.
Definition defaultMaxRedirectsCount : Z := 16.
Definition defaultReadBufferSize : Z := 4096.

Section Client.
Context `{HttpLib}.

(** The fields of a HostClient that Do reads. *)
Record HostClient := MkHostClient {
  cl_Name : bytes;
  cl_NoDefaultUserAgentHeader : bool;
  cl_IsTLS : bool;
  cl_MaxConnDuration : Z;
  cl_MaxIdemponentCallAttempts : Z;
  cl_ReadBufferSize : Z;
  cl_ReadTimeout : Z;
  cl_WriteTimeout : Z;
  cl_MaxResponseBodySize : Z;
  cl_DisableHeaderNamesNormalizing : bool;
  cl_DisablePathNormalizing : bool;
  cl_SecureErrorLogMessage : bool;
  cl_RetryIf : option (Request -> bool);
  cl_Transport : option (Request -> Response -> Request * Response * option error)
}.

Definition getClientName (c : HostClient) : bytes :=
  if bool_decide (length (cl_Name c) = O) && negb (cl_NoDefaultUserAgentHeader c) then defaultUserAgent else cl_Name c.

(** What happens around one attempt: the error of acquireConn, the addresses of
    the connection, the errors of its deadlines, its age, the error of writing,
    and what the peer sends, given all it was sent. *)
Record exchange := MkExchange {
  ex_acquireConn : option error;
  ex_remoteAddr : option bytes;
  ex_localAddr : option bytes;
  ex_SetWriteDeadline : option error;
  ex_age : Z;
  ex_write : option error;
  ex_SetReadDeadline : option error;
  ex_peer : bytes -> source
}.

(** What became of the connection. *)
Inductive fate := NoConnection | ClosedConn | ReleasedConn.

#[export] Instance fate_eq_dec : EqDecision fate.
Proof. solve_decision. Defined.

Record attempt := MkAttempt {
  at_req : Request;
  at_resp : Response;
  at_fate : fate;
  at_sent : bytes;
  at_retry : bool;
  at_err : option error
}.

(** The head of doNonNilReqResp, up to the connection. *)
Definition prepareRequest (c : HostClient) (x : Request) : Request :=
  let '(x, u) := Request_URI x in
  let x := set_req_uri (set_u_DisablePathNormalizing (cl_DisablePathNormalizing c) u) x in
  if decide (length (RequestHeader_UserAgent (req_Header x)) = O)
  then set_req_Header (set_rq_userAgent (getClientName c) (req_Header x)) x
  else x.

Definition secureRequest (c : HostClient) (x : Request) : Request :=
  set_req_Header (set_rq_secureErrorLogMessage (cl_SecureErrorLogMessage c) (req_Header x))
    (set_req_secureErrorLogMessage (cl_SecureErrorLogMessage c) x).

Definition secureResponse (c : HostClient) (y : Response) : Response :=
  set_resp_Header (set_rs_secureErrorLogMessage (cl_SecureErrorLogMessage c) (resp_Header y))
    (set_resp_secureErrorLogMessage (cl_SecureErrorLogMessage c) y).

Definition Request_ResetConnectionClose (x : Request) : Request :=
  set_req_Header (RequestHeader_ResetConnectionClose (req_Header x)) x.

(** The reader on the connection. *)
Definition acquireReader (c : HostClient) (s : source) : reader :=
  newReader (Z.to_nat (if cl_ReadBufferSize c <=? 0 then defaultReadBufferSize else cl_ReadBufferSize c)) s.

(** Reading the response, and the connection afterwards. *)
Definition readResponse (c : HostClient) (e : exchange) (x : Request) (y : Response) (customSkipBody resetConnection : bool)
    (sent : bytes) : option attempt :=
  match (if 0 <? cl_ReadTimeout c then ex_SetReadDeadline e else None) with
  | Some err => Some (MkAttempt x y ClosedConn sent true (Some err))
  | None =>
      let y := if customSkipBody || RequestHeader_IsHead (req_Header x) then set_resp_SkipBody true y else y in
      let y := if cl_DisableHeaderNamesNormalizing c
               then set_resp_Header (ResponseHeader_DisableNormalizing (resp_Header y)) y else y in
      '(y, _, err) ← Response_ReadLimitBody y (acquireReader c (ex_peer e sent)) (cl_MaxResponseBodySize c);
      Some match err with
      | Some err => MkAttempt x y ClosedConn sent (bool_decide (err <> ErrBodyTooLarge)) (Some err)
      | None =>
          MkAttempt x y
            (if resetConnection || Request_ConnectionClose x || Response_ConnectionClose y then ClosedConn else ReleasedConn)
            sent false None
      end
  end.

(** With a connection: the request is written, then the response is read. *)
Definition sendRequest (c : HostClient) (e : exchange) (x : Request) (y : Response) (customSkipBody : bool) : option attempt :=
  let y := Response_parseNetConn y (ex_remoteAddr e) (ex_localAddr e) in
  match (if 0 <? cl_WriteTimeout c then ex_SetWriteDeadline e else None) with
  | Some err => Some (MkAttempt x y ClosedConn [] true (Some err))
  | None =>
      let resetConnection :=
        (0 <? cl_MaxConnDuration c) && (cl_MaxConnDuration c <? ex_age e) && negb (Request_ConnectionClose x) in
      let x := if resetConnection then Request_SetConnectionClose x else x in
      '(x, sent, err) ← Request_Write x [];
      let x := if resetConnection then Request_ResetConnectionClose x else x in
      match (match err with None => ex_write e | Some _ => err end) with
      | Some err => Some (MkAttempt x y ClosedConn sent true (Some err))
      | None => readResponse c e x y customSkipBody resetConnection sent
      end
  end.

Definition doNonNilReqResp (c : HostClient) (e : exchange) (x : Request) (y : Response) : option attempt :=
  let y := secureResponse c y in
  let x := secureRequest c x in
  if negb (Bool.eqb (cl_IsTLS c) (bool_decide (URI_Scheme (req_uri x) = strHTTPS)))
  then Some (MkAttempt x y NoConnection [] false (Some ErrHostClientRedirectToDifferentScheme))
  else
    let customSkipBody := resp_SkipBody y in
    let y := set_resp_SkipBody customSkipBody (Response_Reset y) in
    let x := prepareRequest c x in
    match cl_Transport c with
    | Some transport =>
        let '(x, y, err) := transport x y in Some (MkAttempt x y NoConnection [] (bool_decide (err = None)) err)
    | None =>
        match ex_acquireConn e with
        | Some err => Some (MkAttempt x y NoConnection [] false (Some err))
        | None => sendRequest c e x y customSkipBody
        end
    end.

Definition isIdempotent (x : Request) : bool :=
  RequestHeader_IsGet (req_Header x) || RequestHeader_IsHead (req_Header x) || RequestHeader_IsPut (req_Header x).

(** ** Do: the attempts

    [St] is the state of the environment, [next] its next answer; the response
    is nil or not. *)
Section Do.
Context {St : Type} (next : St -> exchange * St).

Definition HostClient_do (c : HostClient) (x : Request) (y : option Response) (s : St)
  : option (attempt * option Response * St) :=
  let '(e, s) := next s in
  a ← doNonNilReqResp c e x (default emptyResponse y);
  Some (a, (fun _ => at_resp a) <$> y, s).

Definition maxAttempts (c : HostClient) : Z :=
  if cl_MaxIdemponentCallAttempts c <=? 0 then DefaultMaxIdemponentCallAttempts else cl_MaxIdemponentCallAttempts c.

Fixpoint doLoop (fuel : nat) (c : HostClient) (hasBodyStream : bool) (attempts : Z) (x : Request) (y : option Response) (s : St)
  : option (Request * option Response * St * option error) :=
  match fuel with
  | O => None
  | S fuel' =>
      '(a, y, s) ← HostClient_do c x y s;
      let x := at_req a in
      match at_err a with
      | None => Some (x, y, s, None)
      | Some err =>
          let stop := Some (x, y, s, Some err) in
          if negb (at_retry a) then stop
          else if hasBodyStream then stop
          else if negb (default isIdempotent (cl_RetryIf c) x) && bool_decide (err <> EOF) then stop
          else
            let attempts := attempts + 1 in
            if maxAttempts c <=? attempts then stop else doLoop fuel' c hasBodyStream attempts x y s
      end
  end.

Definition HostClient_Do (c : HostClient) (x : Request) (y : option Response) (s : St)
  : option (Request * option Response * St * option error) :=
  '(x, y, s, err) ← doLoop (Z.to_nat (maxAttempts c)) c (Request_IsBodyStream x) 0 x y s;
  Some (x, y, s, if decide (err = Some EOF) then Some ErrConnectionClosed else err).

End Do.

(** ** Redirects *)

Definition StatusCodeIsRedirect (statusCode : Z) : bool :=
  (statusCode =? StatusMovedPermanently) || (statusCode =? StatusFound) || (statusCode =? StatusSeeOther) ||
  (statusCode =? StatusTemporaryRedirect) || (statusCode =? StatusPermanentRedirect).

(** Updates of a fresh URI object. *)
Definition getRedirectURL (baseURL location : bytes) : option bytes :=
  u ← URI_Update emptyURI baseURL;
  u ← URI_UpdateBytes u location;
  Some (snd (URI_String u)).

(** clientDoer: Client and HostClient. *)
Class clientDoer (St : Type) := Do : Request -> Response -> St -> option (Request * Response * St * option error).

Section Redirects.
Context {St : Type} {doer : clientDoer St}.

(** The status code and error returned, with the objects as they are left. *)
Fixpoint redirectLoop (fuel : nat) (x : Request) (y : Response) (s : St) (url : bytes) (statusCode redirectsCount maxRedirectsCount : Z)
  : option (Request * Response * St * Z * option error) :=
  match fuel with
  | O => None
  | S fuel' =>
      let '(x, err) := Request_parseURI (Request_SetRequestURI x url) in
      match err with
      | Some err => Some (x, y, s, 0, Some err)
      | None =>
          '(x, y, s, err) ← Do x y s;
          match err with
          | Some err => Some (x, y, s, statusCode, Some err)
          | None =>
              let statusCode := ResponseHeader_StatusCode (resp_Header y) in
              if negb (StatusCodeIsRedirect statusCode) then Some (x, y, s, statusCode, None)
              else
                let redirectsCount := redirectsCount + 1 in
                if maxRedirectsCount <? redirectsCount then Some (x, y, s, statusCode, Some ErrTooManyRedirects)
                else
                  let location := default [] (ResponseHeader_peek (resp_Header y) strLocation) in
                  if decide (length location = O) then Some (x, y, s, statusCode, Some ErrMissingLocation)
                  else url ← getRedirectURL url location;
                       redirectLoop fuel' x y s url statusCode redirectsCount maxRedirectsCount
          end
      end
  end.

Definition doRequestFollowRedirects (x : Request) (y : Response) (s : St) (url : bytes) (maxRedirectsCount : Z)
  : option (Request * Response * St * Z * option error) :=
  redirectLoop (S (Z.to_nat maxRedirectsCount)) x y s url 0 0 maxRedirectsCount.

(** DoRedirects of Client and HostClient. *)
Definition DoRedirects (x : Request) (y : Response) (s : St) (maxRedirectsCount : Z)
  : option (Request * Response * St * option error) :=
  let '(x, u) := Request_URI x in
  let '(u, url) := URI_String u in
  '(x, y, s, _, err) ← doRequestFollowRedirects (set_req_uri u x) y s url maxRedirectsCount;
  Some (x, y, s, err).

(** The body is read into the storage of [dst]. *)
Definition doRequestFollowRedirectsBuffer (x : Request) (dst : slice) (s : St) (url : bytes)
  : option (Request * St * Z * bytes * option error) :=
  let y := set_resp_keepBodyBuffer true (set_resp_body (Some dst) emptyResponse) in
  '(x, y, s, statusCode, err) ← doRequestFollowRedirects x y s url defaultMaxRedirectsCount;
  Some (x, s, statusCode, match resp_body y with Some b => sl b | None => [] end, err).

Definition clientGetURL (dst : slice) (s : St) (url : bytes) : option (St * Z * bytes * option error) :=
  '(_, s, statusCode, body, err) ← doRequestFollowRedirectsBuffer emptyRequest dst s url;
  Some (s, statusCode, body, err).

Definition clientPostURL (dst : slice) (s : St) (url : bytes) (postArgs : option Args) : option (St * Z * bytes * option error) :=
  let h := RequestHeader_SetContentType (RequestHeader_SetMethod emptyRequestHeader strPost) strPostArgsContentType in
  let x := set_req_Header h emptyRequest in
  let x := match postArgs with Some a => Request_AppendBody x (snd (Args_QueryString a)) | None => x end in
  '(_, s, statusCode, body, err) ← doRequestFollowRedirectsBuffer x dst s url;
  Some (s, statusCode, body, err).

End Redirects.

End Client.

(** ** Addresses *)

(** net.JoinHostPort puts a host with a colon or a percent sign in brackets. *)
Definition JoinHostPort (host port : bytes) : bytes :=
  if Contains host (bs ":") || Contains host (bs "%") then bs "[" ++ host ++ bs "]:" ++ port else host ++ bs ":" ++ port.

Definition addMissingPort (addr : bytes) (isTLS : bool) : bytes :=
  match Index addr (bs ":") with
  | Some _ => addr
  | None => JoinHostPort addr (if isTLS then bs "443" else bs "80")
  end.

(** The addresses of a host, nil until they are first used. *)
Record hostAddrs := MkHostAddrs { ha_Addr : bytes; ha_addrs : list bytes; ha_addrIdx : Z }.

(** [None] is an index out of range. *)
Definition nextAddr (h : hostAddrs) : option (hostAddrs * bytes) :=
  let addrs := if decide (ha_addrs h = []) then splitOn "," (ha_Addr h) else ha_addrs h in
  addr ← head addrs;
  if (1 <? length addrs)%nat then
    addr ← addrs !! Z.to_nat (ha_addrIdx h mod (zlen addrs mod 2 ^ 32));
    Some (MkHostAddrs (ha_Addr h) addrs ((ha_addrIdx h + 1) mod 2 ^ 32), addr)
  else Some (MkHostAddrs (ha_Addr h) addrs (ha_addrIdx h), addr).

(** [dial] is dialAddr, with the time that has passed since the deadline. *)
Fixpoint dialLoop {Conn} (n : nat) (dial : bytes -> (Conn + error) * Z) (h : hostAddrs) (err : option error)
  : option (hostAddrs * option Conn * option error) :=
  match n with
  | O => Some (h, None, err)
  | S n' =>
      '(h, addr) ← nextAddr h;
      match dial addr with
      | (inl conn, _) => Some (h, Some conn, None)
      | (inr err, since) => if 0 <=? since then Some (h, None, Some err) else dialLoop n' dial h (Some err)
      end
  end.

Definition dialHostHard {Conn} (dial : bytes -> (Conn + error) * Z) (h : hostAddrs) : option (hostAddrs * option Conn * option error) :=
  let n := length (ha_addrs h) in
  dialLoop (if decide (n = O) then 1%nat else n) dial h None.

(** ** The attempts of Do *)

Section Attempts.
Context `{HttpLib} {St : Type} (next : St -> exchange * St) (c : HostClient).

(** The attempts made one after the other, each on the request and the
    response the one before it left. *)
Inductive attempted : Request -> option Response -> St -> list attempt -> option Response -> St -> Prop :=
| attempted_one x y s a y' s' : HostClient_do next c x y s = Some (a, y', s') -> attempted x y s [a] y' s'
| attempted_more x y s a y' s' l y'' s'' :
    HostClient_do next c x y s = Some (a, y', s') -> attempted (at_req a) y' s' l y'' s'' -> attempted x y s (a :: l) y'' s''.

(** The condition for another attempt. *)
Definition again (hasBodyStream : bool) (a : attempt) : Prop :=
  hasBodyStream = false /\ at_retry a = true /\
  exists err, at_err a = Some err /\ (default isIdempotent (cl_RetryIf c) (at_req a) = true \/ err = EOF).

Lemma doLoop_attempts hasBodyStream fuel attempts x y s :
  (forall x y s, HostClient_do next c x y s <> None) ->
  0 <= attempts -> Z.to_nat (maxAttempts c - attempts) = fuel -> attempts < maxAttempts c ->
  exists l a y' s', doLoop next fuel c hasBodyStream attempts x y s = Some (at_req a, y', s', at_err a) /\
    attempted x y s (l ++ [a]) y' s' /\ zlen (l ++ [a]) <= maxAttempts c - attempts /\
    Forall (again hasBodyStream) l /\ (again hasBodyStream a -> zlen (l ++ [a]) = maxAttempts c - attempts).
Proof.
  intros Hd. revert attempts x y s. induction fuel as [|fuel IH]; intros attempts x y s Ha Hf Hm; [lia|].
  cbn [doLoop]. destruct (HostClient_do next c x y s) as [[[a y1] s1]|] eqn:E; [|by apply Hd in E].
  cbn [mbind option_bind].
  assert (forall err, at_err a = err -> ~ again hasBodyStream a \/ maxAttempts c <= attempts + 1 ->
    exists l a0 y' s', Some (at_req a, y1, s1, err) = Some (at_req a0, y', s', at_err a0) /\
    attempted x y s (l ++ [a0]) y' s' /\ zlen (l ++ [a0]) <= maxAttempts c - attempts /\
    Forall (again hasBodyStream) l /\ (again hasBodyStream a0 -> zlen (l ++ [a0]) = maxAttempts c - attempts)) as Stop.
  { intros err Ee Hs. exists [], a, y1, s1. split; [by rewrite Ee|]. split; [by constructor|]. cbn. split; [lia|].
    split; [done|]. intros Hg. destruct Hs as [Hs|Hs]; [by destruct Hs|lia]. }
  destruct (at_err a) as [err|] eqn:Ee.
  2:{ apply Stop; [done|]. left. intros (_ & _ & err & E1 & _). by rewrite Ee in E1. }
  destruct (at_retry a) eqn:Er; cbn [negb].
  2:{ apply Stop; [done|]. left. intros (_ & E1 & _). by rewrite Er in E1. }
  destruct hasBodyStream eqn:Es.
  { apply Stop; [done|]. left. by intros (E1 & _). }
  destruct (negb (default isIdempotent (cl_RetryIf c) (at_req a)) && bool_decide (err <> EOF)) eqn:Ei.
  { apply Stop; [done|]. left. intros (_ & _ & err' & E1 & E2). rewrite Ee in E1. injection E1 as <-.
    apply andb_true_iff in Ei as [Ei1 Ei2]. apply bool_decide_eq_true in Ei2. apply negb_true_iff in Ei1.
    destruct E2; [congruence|done]. }
  destruct (Z.leb_spec (maxAttempts c) (attempts + 1)) as [L|L]; [apply Stop; auto|].
  destruct (IH (attempts + 1) (at_req a) y1 s1) as (l & b & y' & s' & E1 & E2 & E3 & E4 & E5); [lia..|].
  exists (a :: l), b, y', s'. split; [exact E1|]. split; [by econstructor|]. cbn [app length] in *. split; [lia|]. split.
  - constructor; [|done]. split; [done|]. split; [done|]. exists err. split; [done|].
    apply andb_false_iff in Ei as [Ei|Ei]; [left; by apply negb_false_iff|right].
    apply bool_decide_eq_false in Ei. by destruct (decide (err = EOF)).
  - intros Hg. specialize (E5 Hg). lia.
Qed.

End Attempts.

(** ** One exchange *)

Section Exchange.
Context `{HttpLib}.

Lemma readResponse_fate c e x y skip reset sent a :
  readResponse c e x y skip reset sent = Some a ->
  at_fate a <> NoConnection /\ (at_retry a = true -> at_fate a = ClosedConn /\ at_err a <> None) /\
  (at_fate a = ReleasedConn -> at_err a = None /\ reset = false /\
     Request_ConnectionClose (at_req a) = false /\ Response_ConnectionClose (at_resp a) = false).
Proof.
  unfold readResponse. destruct (if 0 <? cl_ReadTimeout c then ex_SetReadDeadline e else None) as [err|];
    [intros [= <-]; by cbn|].
  generalize (if skip || RequestHeader_IsHead (req_Header x) then set_resp_SkipBody true y else y). intros y1.
  cbv zeta. generalize (if cl_DisableHeaderNamesNormalizing c
    then set_resp_Header (ResponseHeader_DisableNormalizing (resp_Header y1)) y1 else y1). intros y2.
  destruct (Response_ReadLimitBody y2 _ _) as [[[y3 r] [err|]]|]; [| |done]; cbn [mbind option_bind]; intros [= <-]; cbn.
  - done.
  - destruct (reset || Request_ConnectionClose x || Response_ConnectionClose y3) eqn:E; cbn; [done|].
    apply orb_false_iff in E as [E E3]. apply orb_false_iff in E as [E1 E2]. done.
Qed.

Lemma doNonNilReqResp_fates c e x y a :
  doNonNilReqResp c e x y = Some a ->
  (at_fate a = NoConnection <->
     cl_IsTLS c <> bool_decide (URI_Scheme (req_uri x) = strHTTPS) \/ cl_Transport c <> None \/ ex_acquireConn e <> None) /\
  (cl_Transport c = None -> at_retry a = true -> at_fate a = ClosedConn /\ at_err a <> None) /\
  (at_fate a = ReleasedConn -> at_err a = None /\
     Request_ConnectionClose (at_req a) = false /\ Response_ConnectionClose (at_resp a) = false).
Proof.
  unfold doNonNilReqResp. cbn [req_uri secureRequest set_req_Header set_req_secureErrorLogMessage].
  destruct (Bool.eqb_spec (cl_IsTLS c) (bool_decide (URI_Scheme (req_uri x) = strHTTPS))) as [Es|Es]; cbn [negb].
  2:{ intros [= <-]. cbn. split; [by split; [auto|]|done]. }
  destruct (cl_Transport c) as [tr|] eqn:Et.
  { destruct (tr _ _) as [[x1 y1] err]. intros [= <-]. cbn. split; [by split; [auto|]|done]. }
  destruct (ex_acquireConn e) as [err|] eqn:Ea.
  { intros [= <-]. cbn. split; [by split; [auto|]|done]. }
  assert (forall (P : Prop), (at_fate a <> NoConnection /\ P) ->
    (at_fate a = NoConnection <-> cl_IsTLS c <> bool_decide (URI_Scheme (req_uri x) = strHTTPS) \/
       @None (Request -> Response -> Request * Response * option error) <> None \/ @None error <> None) /\ P) as Hp.
  { intros P [N HP]. split; [|done]. split; [done|]. by intros [?|[?|?]]. }
  intros E. apply Hp. clear Hp. revert E. unfold sendRequest.
  destruct (if 0 <? cl_WriteTimeout c then ex_SetWriteDeadline e else None) as [err|]; [intros [= <-]; by cbn|].
  set (reset := (0 <? cl_MaxConnDuration c) && _ && _). clearbody reset. cbv zeta.
  generalize (if reset then Request_SetConnectionClose (prepareRequest c (secureRequest c x)) else prepareRequest c (secureRequest c x)).
  intros x1. destruct (Request_Write x1 []) as [[[x2 sent] err]|]; [|done]. cbn [mbind option_bind].
  generalize (if reset then Request_ResetConnectionClose x2 else x2). intros x3.
  destruct (match err with None => ex_write e | Some _ => err end) as [err'|]; [intros [= <-]; by cbn|].
  intros E. apply readResponse_fate in E as (E1 & E2 & E3). split; [done|]. split; [done|]. intros Ef.
  destruct (E3 Ef) as (? & _ & ? & ?). done.
Qed.

(** *** An exchange with a server *)

Definition textSource (text : bytes) : source := MkSource (if decide (text = []) then [] else [text]) EOF.

Lemma textReader_wf size text : (0 < size)%nat -> wfReader (newReader size (textSource text)) /\ stream (newReader size (textSource text)) = text.
Proof.
  intros Hs. unfold textSource. split.
  - apply newReader_wf; [done|]. case_decide; by repeat constructor.
  - case_decide; cbn; [by subst|by rewrite app_nil_r].
Qed.

(** A peer that reads the request, into a reused object, and answers with what
    [handler] makes of it. *)
Definition serve (dst : Request) (size : nat) (maxBodySize : Z) (serverDate : bytes) (handler : Request -> Response) (sent : bytes) : source :=
  match Request_ReadLimitBody dst (newReader size (textSource sent)) maxBodySize with
  | Some (seen, _, None) =>
      match Response_Write serverDate (handler seen) [] with
      | Some (_, text, None) => textSource text
      | _ => textSource []
      end
  | _ => textSource []
  end.

(** No network error, and no connection too old. *)
Record quiet (c : HostClient) (e : exchange) : Prop := {
  qt_acquireConn : ex_acquireConn e = None;
  qt_SetWriteDeadline : ex_SetWriteDeadline e = None;
  qt_write : ex_write e = None;
  qt_SetReadDeadline : ex_SetReadDeadline e = None;
  qt_age : cl_MaxConnDuration c <= 0 \/ ex_age e <= cl_MaxConnDuration c
}.

Definition readBufferSize (c : HostClient) : nat := r_size (acquireReader c (textSource [])).

Lemma readBufferSize_pos c : (0 < readBufferSize c)%nat.
Proof. unfold readBufferSize, acquireReader, defaultReadBufferSize. cbn. destruct (Z.leb_spec (cl_ReadBufferSize c) 0); lia. Qed.

(** The answer of a handler fits the client. *)
Record answers (c : HostClient) (serverDate : bytes) (ans : Response) (h : ResponseHeader) : Prop := {
  aw_answer : answerable (cl_DisableHeaderNamesNormalizing c) serverDate ans h;
  aw_head : forall head, ResponseHeader_AppendBytes serverDate h [] = Some head -> (length head <= readBufferSize c)%nat;
  aw_size : zlen (Response_bodyBytes ans) <= 2 ^ 31;
  aw_limit : 0 < cl_MaxResponseBodySize c -> zlen (Response_bodyBytes ans) <= cl_MaxResponseBodySize c
}.

Lemma ResponseHeader_Reset_normalizes h : rs_disableNormalizing (ResponseHeader_Reset h) = false.
Proof. done. Qed.

(** The response as it is read into. *)
Lemma response_ready (c : HostClient) (y : Response) ra la :
  resp_SkipBody y = false ->
  let y1 := Response_parseNetConn (set_resp_SkipBody (resp_SkipBody (secureResponse c y)) (Response_Reset (secureResponse c y))) ra la in
  let y2 := if cl_DisableHeaderNamesNormalizing c then set_resp_Header (ResponseHeader_DisableNormalizing (resp_Header y1)) y1 else y1 in
  resp_SkipBody y2 = false /\ rs_disableNormalizing (resp_Header y2) = cl_DisableHeaderNamesNormalizing c.
Proof.
  intros Hs. cbv zeta. destruct (cl_DisableHeaderNamesNormalizing c); cbn.
  - done.
  - split; [done|]. unfold Response_Reset. cbn.
    match goal with |- rs_disableNormalizing (resp_Header (Response_resetSkipHeader ?z)) = _ =>
      destruct (Response_resetSkipHeader_fields z) as (-> & _) end. done.
Qed.

Lemma readResponse_reads c e x y sd ans h sent :
  quiet c e -> answers c sd ans h -> RequestHeader_IsHead (req_Header x) = false ->
  let y2 := if cl_DisableHeaderNamesNormalizing c then set_resp_Header (ResponseHeader_DisableNormalizing (resp_Header y)) y else y in
  resp_SkipBody y2 = false -> rs_disableNormalizing (resp_Header y2) = cl_DisableHeaderNamesNormalizing c ->
  (exists x2 text, Response_Write sd ans [] = Some (x2, text, None) /\ ex_peer e sent = textSource text) ->
  exists a, readResponse c e x y false false sent = Some a /\ at_err a = None /\ at_retry a = false /\ at_sent a = sent /\
    sameResponse sd h (resp_Header (at_resp a)) /\ snd (Response_Body (at_resp a)) = Response_bodyBytes ans.
Proof.
  intros Q [A Ah As Al] Hh y2 S2 D2 (x2 & text & Ew & Ep). rewrite <- D2 in A.
  destruct (Response_Write_read sd ans y2 h (cl_MaxResponseBodySize c) A S2 As Al) as (x3 & head & Eh & Ew' & R).
  rewrite Ew in Ew'. injection Ew' as _ Et.
  destruct (textReader_wf (readBufferSize c) text (readBufferSize_pos c)) as [W Es].
  destruct (R (newReader (readBufferSize c) (textSource text)) [] W) as (y' & r' & E & S & B & _).
  { by rewrite Es, Et, app_nil_r. } { by apply Ah. }
  unfold readResponse. rewrite (qt_SetReadDeadline _ _ Q). assert ((if 0 <? cl_ReadTimeout c then None else None) = @None error) as -> by (by destruct (_ <? _)).
  rewrite Hh. cbn [orb]. fold y2. rewrite Ep. change (acquireReader c (textSource text)) with (newReader (readBufferSize c) (textSource text)).
  rewrite E. cbn [mbind option_bind]. eexists. split; [reflexivity|]. by cbn.
Qed.

Lemma exchange_reads c e x x1 x2 y h sent dst size maxBodySize sd handler :
  cl_IsTLS c = bool_decide (URI_Scheme (req_uri x) = strHTTPS) -> cl_Transport c = None -> quiet c e -> resp_SkipBody y = false ->
  Request_writeURI (prepareRequest c (secureRequest c x)) = Some (x1, None) ->
  sendable (rq_disableNormalizing (req_Header dst)) x1 h ->
  zlen (requestPayload x1) <= 2 ^ 31 -> (0 < maxBodySize -> zlen (requestPayload x1) <= maxBodySize) ->
  (0 < size)%nat -> (length (RequestHeader_AppendBytes h []) <= size)%nat ->
  Request_Write (prepareRequest c (secureRequest c x)) [] = Some (x2, sent, None) -> RequestHeader_IsHead (req_Header x2) = false ->
  ex_peer e = serve dst size maxBodySize sd handler ->
  (forall seen, sameRequest h (req_Header seen) -> snd (Request_Body seen) = requestPayload x1 -> exists hr, answers c sd (handler seen) hr) ->
  exists seen hr a, (sameRequest h (req_Header seen) /\ snd (Request_Body seen) = requestPayload x1) /\
    answers c sd (handler seen) hr /\ doNonNilReqResp c e x y = Some a /\
    at_err a = None /\ at_retry a = false /\ at_sent a = sent /\
    sameResponse sd hr (resp_Header (at_resp a)) /\ snd (Response_Body (at_resp a)) = Response_bodyBytes (handler seen).
Proof.
  intros Ht Hr Q Sk Hu S Hl Hm Hz Hb Hw Hh Hp Ha.
  destruct (Request_Write_read _ x1 dst h maxBodySize Hu S Hl Hm) as (x3 & text & Ew & R).
  rewrite Hw in Ew. injection Ew as <- <-.
  destruct (textReader_wf size sent Hz) as [W Es].
  destruct (R (newReader size (textSource sent)) [] W) as (seen & r' & E & S1 & B1 & _); [by rewrite Es, app_nil_r|exact Hb|].
  destruct (Ha seen S1 B1) as [hr A]. exists seen, hr.
  assert (exists x2 text, Response_Write sd (handler seen) [] = Some (x2, text, None) /\ ex_peer e sent = textSource text) as P.
  { destruct (Response_Write_text _ sd (handler seen) hr [] (aw_answer _ _ _ _ A)) as (z & head & _ & Ez).
    do 2 eexists. split; [exact Ez|]. rewrite Hp. unfold serve. by rewrite E, Ez. }
  unfold doNonNilReqResp. cbn [req_uri secureRequest set_req_Header set_req_secureErrorLogMessage].
  rewrite Ht, eqb_reflx, Hr, (qt_acquireConn _ _ Q). cbn [negb].
  fold (secureRequest c x). unfold sendRequest. rewrite (qt_SetWriteDeadline _ _ Q).
  assert ((if 0 <? cl_WriteTimeout c then None else None) = @None error) as -> by (by destruct (_ <? _)).
  assert ((0 <? cl_MaxConnDuration c) && (cl_MaxConnDuration c <? ex_age e) = false) as ->.
  { destruct (qt_age _ _ Q); [rewrite (proj2 (Z.ltb_ge 0 _)) by done; done|].
    rewrite (proj2 (Z.ltb_ge (cl_MaxConnDuration c) _)) by done. by rewrite andb_false_r. }
  cbn [andb]. change (set_req_Header
        (set_rq_secureErrorLogMessage (cl_SecureErrorLogMessage c) (req_Header x))
        (set_req_secureErrorLogMessage (cl_SecureErrorLogMessage c) x)) with (secureRequest c x).
  rewrite Hw. cbn [mbind option_bind]. rewrite (qt_write _ _ Q).
  destruct (response_ready c y (ex_remoteAddr e) (ex_localAddr e) Sk) as [Y1 Y2].
  assert (resp_SkipBody (secureResponse c y) = false) as Sk' by done. rewrite Sk' in *.
  destruct (readResponse_reads c e x2 _ sd (handler seen) hr sent Q A Hh Y1 Y2 P) as (a & E1 & E2).
  exists a. split; [done|]. split; [exact A|]. split; [exact E1|]. exact E2.
Qed.

End Exchange.

(** ** Redirects *)

Section RedirectLemmas.
Context `{HttpLib} {St : Type} {doer : clientDoer St}.

(** Counts the requests that are sent. *)
Definition counted : clientDoer (St * nat) := fun x y '(s, n) =>
  '(x, y, s, err) ← Do x y s; Some (x, y, (s, S n), err).

Lemma getRedirectURL_total baseURL location : exists url, getRedirectURL baseURL location = Some url.
Proof.
  unfold getRedirectURL. destruct (URI_Update_total emptyURI baseURL) as (u & -> & W); [by left|]. cbn [mbind option_bind].
  destruct (URI_Update_total u location W) as (u' & E & _). unfold URI_Update in E. rewrite E. cbn [mbind option_bind]. eauto.
Qed.

Lemma redirectLoop_counted fuel x y s n url code k Max :
  (forall x y s, exists r, Do x y s = Some r) -> 0 <= k <= Z.max 0 Max -> Z.of_nat fuel = Z.max 0 Max - k + 1 ->
  exists x' y' s' n' code' err,
    redirectLoop (doer := counted) fuel x y (s, n) url code k Max = Some (x', y', (s', n'), code', err) /\
    (n <= n' <= n + fuel)%nat /\
    (err = None -> (n < n')%nat /\ StatusCodeIsRedirect code' = false) /\
    (err = Some ErrTooManyRedirects -> (n' = n + fuel)%nat \/ exists x y s r, Do x y s = Some (r, err) \/
        snd (Request_parseURI x) = err).
Proof.
  intros Hd. revert x y s n url code k. induction fuel as [|fuel IH]; intros x y s n url code k Hk Hf; [lia|].
  cbn [redirectLoop]. destruct (Request_parseURI (Request_SetRequestURI x url)) as [x1 [err|]] eqn:Eu.
  { do 6 eexists. split; [reflexivity|]. split; [lia|]. split; [done|]. intros [= ->]. right.
    exists (Request_SetRequestURI x url), y, s, (x1, y, s). right. by rewrite Eu. }
  destruct (Hd x1 y s) as [[[[x2 y2] s2] err] Ed]. pose proof Ed as Ed0. unfold Do in Ed0. unfold Do, counted, Do. rewrite Ed0. clear Ed0. cbn [mbind option_bind].
  destruct err as [err|].
  { do 6 eexists. split; [reflexivity|]. split; [lia|]. split; [done|]. intros [= ->]. right.
    exists x1, y, s, (x2, y2, s2). left. done. }
  destruct (StatusCodeIsRedirect _) eqn:Er; cbn [negb].
  2:{ do 6 eexists. split; [reflexivity|]. split; [lia|]. split; [|done]. intros _. split; [lia|done]. }
  destruct (Z.ltb_spec Max (k + 1)) as [L|L].
  { do 6 eexists. split; [reflexivity|]. split; [lia|]. split; [done|]. intros _. left. lia. }
  case_decide as Dl.
  { do 6 eexists. split; [reflexivity|]. split; [lia|]. by split. }
  destruct (getRedirectURL_total url (default [] (ResponseHeader_peek (resp_Header y2) strLocation))) as [url' ->].
  cbn [mbind option_bind].
  destruct (IH x2 y2 s2 (S n) url' (ResponseHeader_StatusCode (resp_Header y2)) (k + 1)) as (x' & y' & s' & n' & code' & err' & E & B & N & T); [lia..|].
  do 6 eexists. split; [exact E|]. split; [lia|]. split.
  - intros He. destruct (N He). split; [lia|done].
  - intros He. destruct (T He) as [T'|T']; [left; lia|by right].
Qed.

End RedirectLemmas.

(** ** Addresses *)

(** A bracketed IPv6 address without a port does not get one. *)
Lemma addMissingPort_IPv6 : addMissingPort (bs "[::1]") true = bs "[::1]".
Proof. vm_compute. reflexivity. Qed.

Lemma addMissingPort_plain addr isTLS :
  ":"%byte ∉ addr -> "%"%byte ∉ addr -> addMissingPort addr isTLS = addr ++ (if isTLS then bs ":443" else bs ":80").
Proof.
  intros Hc Hp. unfold addMissingPort, JoinHostPort, Contains.
  assert (forall c, c ∉ addr -> Index addr [c] = None) as Hi.
  { intros c Hn. apply Index_None. intros l1 l2 E. apply Hn. rewrite E, !elem_of_app. right. left. by apply list_elem_of_singleton. }
  change (bs ":") with [":"%byte]. change (bs "%") with ["%"%byte]. rewrite !Hi by done. cbn [orb]. by destruct isTLS.
Qed.

(** The first call, before the addresses are known, tries a single one, although
    it means to try them all; a later call tries the other. *)
Definition dialSecond (addr : bytes) : (unit + error) * Z :=
  if decide (addr = bs "b:80") then (inl tt, -1) else (inr NetTimeout, -1).

Lemma dialHostHard_first_call :
  dialHostHard dialSecond (MkHostAddrs (bs "a:80,b:80") [] 0) =
    Some (MkHostAddrs (bs "a:80,b:80") [bs "a:80"; bs "b:80"] 1, None, Some NetTimeout) /\
  dialHostHard dialSecond (MkHostAddrs (bs "a:80,b:80") [bs "a:80"; bs "b:80"] 0) =
    Some (MkHostAddrs (bs "a:80,b:80") [bs "a:80"; bs "b:80"] 2, Some tt, None).
Proof. split; vm_compute; reflexivity. Qed.

(** * Properties *)

(** C4. One request through a client and back: when the peer is a server that
    reads with this library and answers with whatever its handler makes of the
    request it has read, that request has the headers and the body the client
    sent, and the client's response has the status, the headers and the body of
    the handler's; no error is reported and no other attempt asked for. *)
Theorem exchange_roundtrip {L : HttpLib} (c : HostClient) (e : exchange) (x x1 x2 dst : Request) (y : Response)
    (h : RequestHeader) (sent serverDate : bytes) (size : nat) (maxBodySize : Z) (handler : Request -> Response)
    (Ht : cl_IsTLS c = bool_decide (URI_Scheme (req_uri x) = strHTTPS)) (Hr : cl_Transport c = None) (Q : quiet c e)
    (Sk : resp_SkipBody y = false)
    (Hu : Request_writeURI (prepareRequest c (secureRequest c x)) = Some (x1, None))
    (S : sendable (rq_disableNormalizing (req_Header dst)) x1 h)
    (Hl : zlen (requestPayload x1) <= 2 ^ 31) (Hm : 0 < maxBodySize -> zlen (requestPayload x1) <= maxBodySize)
    (Hz : (0 < size)%nat) (Hb : (length (RequestHeader_AppendBytes h []) <= size)%nat)
    (Hw : Request_Write (prepareRequest c (secureRequest c x)) [] = Some (x2, sent, None))
    (Hh : RequestHeader_IsHead (req_Header x2) = false)
    (Hp : ex_peer e = serve dst size maxBodySize serverDate handler)
    (Ha : forall seen, sameRequest h (req_Header seen) -> snd (Request_Body seen) = requestPayload x1 ->
          exists hr, answers c serverDate (handler seen) hr) :
  exists seen hr a, (sameRequest h (req_Header seen) /\ snd (Request_Body seen) = requestPayload x1) /\
    answers c serverDate (handler seen) hr /\ doNonNilReqResp c e x y = Some a /\
    at_err a = None /\ at_retry a = false /\ at_sent a = sent /\
    sameResponse serverDate hr (resp_Header (at_resp a)) /\ snd (Response_Body (at_resp a)) = Response_bodyBytes (handler seen).
Proof. exact (exchange_reads c e x x1 x2 y h sent dst size maxBodySize serverDate handler Ht Hr Q Sk Hu S Hl Hm Hz Hb Hw Hh Hp Ha). Qed.

Definition sampleClient : @HostClient plainLib :=
  @MkHostClient plainLib (bs "me") false false 0 0 0 0 0 100 false false false None None.

Definition sampleDate : bytes := bs "Thu, 01 Jan 1970 00:00:00 GMT".

Definition sampleExchange : exchange :=
  MkExchange None None None None 0 None None (@serve plainLib emptyRequest 4096 10 sampleDate (fun _ => sampleAnswer)).

Lemma sampleAnswer_answers : exists hr, @answers plainLib sampleClient sampleDate sampleAnswer hr.
Proof.
  pose proof sampleAnswer_answerable as A. fold sampleDate in A.
  destruct (ResponseHeader_SetContentLength (resp_Header sampleAnswer) 9) as [h|] eqn:E; [|done].
  exists h. split; [exact A| |vm_compute; congruence|intros _; vm_compute; congruence].
  intros head Eh. vm_compute in E. injection E as <-. vm_compute in Eh. injection Eh as <-. vm_compute. lia.
Qed.

Lemma sampleSend_prepared :
  prepareRequest sampleClient (secureRequest sampleClient sampleSend) = sampleSend.
Proof. vm_compute. reflexivity. Qed.

Lemma exchange_roundtrip_witness :
  match Request_writeURI sampleSend, Request_Write sampleSend [] with
  | Some (x1, None), Some (x2, sent, None) =>
      exists h (seen : @Request plainLib) hr (a : @attempt plainLib), sentHeader x1 = Some h /\
        (sameRequest h (req_Header seen) /\ snd (Request_Body seen) = requestPayload x1) /\
        answers sampleClient sampleDate sampleAnswer hr /\
        doNonNilReqResp sampleClient sampleExchange sampleSend emptyResponse = Some a /\
        at_err a = None /\ at_retry a = false /\ at_sent a = sent /\
        sameResponse sampleDate hr (resp_Header (at_resp a)) /\
        snd (@Response_Body plainLib (at_resp a)) = Response_bodyBytes sampleAnswer
  | _, _ => False
  end.
Proof.
  pose proof sampleSend_sendable as S. pose proof sampleSend_prepared as Ep.
  destruct (Request_writeURI sampleSend) as [[x1 [err|]]|] eqn:E; [done| |done].
  destruct (sentHeader x1) as [h|] eqn:Es; [|done].
  destruct (Request_Write sampleSend []) as [[[x2 sent] [err|]]|] eqn:Ew; [vm_compute in Ew; done| |vm_compute in Ew; done].
  exists h.
  assert (zlen (requestPayload x1) = 5) as El by (vm_compute in E; injection E as <-; vm_compute; reflexivity).
  assert ((length (RequestHeader_AppendBytes h []) <= 4096)%nat) as Eb.
  { vm_compute in E. injection E as <-. vm_compute in Es. injection Es as <-. vm_compute. lia. }
  assert (RequestHeader_IsHead (req_Header x2) = false) as Eh by (vm_compute in Ew; injection Ew as <- _; vm_compute; reflexivity).
  destruct (exchange_roundtrip sampleClient sampleExchange sampleSend x1 x2 emptyRequest emptyResponse h sent sampleDate 4096 10
    (fun _ => sampleAnswer)) as (seen & hr & a & R);
    [vm_compute; reflexivity|done|by split; try left|done|by rewrite Ep|exact S|lia|lia|lia|exact Eb|by rewrite Ep|exact Eh|done
    |intros _ _ _; exact sampleAnswer_answers|].
  exists seen, hr, a. split; [done|exact R].
Defined.

(** C25. Do makes at least one and at most MaxIdemponentCallAttempts attempts (5 if
    that is not positive).  It makes another one exactly when the last failed in
    a way that can be retried, the body is not a stream, and the request may be
    repeated (RetryIf, or a GET, HEAD or PUT) or the server closed the
    connection without an answer; it returns the error of the last, where the
    end of the stream becomes ErrConnectionClosed. *)
Theorem HostClient_Do_attempts {L : HttpLib} {St : Type} (next : St -> exchange * St) (c : HostClient) (x : Request)
    (y : option Response) (s : St) (Hd : forall x y s, HostClient_do next c x y s <> None) :
  exists l a y' s',
    HostClient_Do next c x y s =
      Some (at_req a, y', s', if decide (at_err a = Some EOF) then Some ErrConnectionClosed else at_err a) /\
    attempted next c x y s (l ++ [a]) y' s' /\ zlen (l ++ [a]) <= maxAttempts c /\
    Forall (again c (Request_IsBodyStream x)) l /\
    (again c (Request_IsBodyStream x) a -> zlen (l ++ [a]) = maxAttempts c).
Proof.
  assert (0 < maxAttempts c) as Hm.
  { unfold maxAttempts, DefaultMaxIdemponentCallAttempts. destruct (Z.leb_spec (cl_MaxIdemponentCallAttempts c) 0); lia. }
  destruct (doLoop_attempts next c (Request_IsBodyStream x) (Z.to_nat (maxAttempts c)) 0 x y s Hd)
    as (l & a & y' & s' & E & A); [lia|by rewrite Z.sub_0_r|done|].
  exists l, a, y', s'. unfold HostClient_Do. rewrite E. rewrite Z.sub_0_r in A. split; [done|exact A].
Qed.

(** Connections that cannot be written to; the state counts them. *)
Definition broken (n : nat) : exchange * nat :=
  (MkExchange None None None (Some NetTimeout) 0 None None (fun _ => MkSource [] EOF), S n).

Definition brokenClient : @HostClient plainLib :=
  @MkHostClient plainLib [] true false 0 3 0 0 1 0 false false false None None.

Lemma brokenClient_do (x : @Request plainLib) y n : HostClient_do broken brokenClient x y n <> None.
Proof. unfold HostClient_do, broken, doNonNilReqResp, brokenClient. cbn [cl_Transport cl_IsTLS]. by destruct (negb _). Qed.

Definition sampleGet : @Request plainLib := Request_SetRequestURI emptyRequest (bs "http://foo.com/").

Lemma HostClient_Do_attempts_witness :
  (fun '(_, _, n, err) => (n, err)) <$> HostClient_Do broken brokenClient sampleGet None 0%nat = Some (3%nat, Some NetTimeout) /\
  (fun '(_, _, n, err) => (n, err)) <$> HostClient_Do broken brokenClient sampleSend None 0%nat = Some (1%nat, Some NetTimeout) /\
  exists l (a : @attempt plainLib) y' s',
    HostClient_Do broken brokenClient sampleGet None 0%nat =
      Some (at_req a, y', s', if decide (at_err a = Some EOF) then Some ErrConnectionClosed else at_err a) /\
    attempted broken brokenClient sampleGet None 0%nat (l ++ [a]) y' s' /\ zlen (l ++ [a]) <= maxAttempts brokenClient /\
    Forall (again brokenClient (Request_IsBodyStream sampleGet)) l /\
    (again brokenClient (Request_IsBodyStream sampleGet) a -> zlen (l ++ [a]) = maxAttempts brokenClient).
Proof.
  split; [vm_compute; reflexivity|]. split; [vm_compute; reflexivity|].
  exact (HostClient_Do_attempts broken brokenClient sampleGet None 0%nat brokenClient_do).
Defined.

(** A connection of the pool is given back or closed in every outcome, and
    given back only after a response was read without an error and neither side
    has asked to close; an attempt that asks for another one has failed and
    closed its connection. *)
Lemma doNonNilReqResp_fate {L : HttpLib} (c : HostClient) (e : exchange) (x : Request) (y : Response) (a : attempt)
    (E : doNonNilReqResp c e x y = Some a) :
  (at_fate a = NoConnection <->
     cl_IsTLS c <> bool_decide (URI_Scheme (req_uri x) = strHTTPS) \/ cl_Transport c <> None \/ ex_acquireConn e <> None) /\
  (cl_Transport c = None -> at_retry a = true -> at_fate a = ClosedConn /\ at_err a <> None) /\
  (at_fate a = ReleasedConn -> at_err a = None /\
     Request_ConnectionClose (at_req a) = false /\ Response_ConnectionClose (at_resp a) = false).
Proof. by apply (doNonNilReqResp_fates c e x y). Qed.

Definition keepAlive : exchange :=
  MkExchange None None None None 0 None None
    (fun _ => textSource (bs "HTTP/1.1 200 OK" ++ strCRLF ++ bs "Content-Length: 2" ++ strCRLF ++ strCRLF ++ bs "ok")).

Lemma doNonNilReqResp_fate_witness :
  exists a : @attempt plainLib, doNonNilReqResp sampleClient keepAlive sampleSend emptyResponse = Some a /\ at_fate a = ReleasedConn /\
    (at_fate a = NoConnection <->
       cl_IsTLS sampleClient <> bool_decide (URI_Scheme (req_uri sampleSend) = strHTTPS) \/ cl_Transport sampleClient <> None \/
       ex_acquireConn keepAlive <> None) /\
    (cl_Transport sampleClient = None -> at_retry a = true -> at_fate a = ClosedConn /\ at_err a <> None) /\
    (at_fate a = ReleasedConn -> at_err a = None /\
       Request_ConnectionClose (at_req a) = false /\ Response_ConnectionClose (at_resp a) = false).
Proof.
  destruct (doNonNilReqResp sampleClient keepAlive sampleSend emptyResponse) as [a|] eqn:E; [|vm_compute in E; done].
  exists a. split; [done|]. split; [vm_compute in E; by injection E as <-|].
  exact (doNonNilReqResp_fate sampleClient keepAlive sampleSend emptyResponse a E).
Defined.

(** Following redirects ends: with any client whose Do returns, at most
    maxRedirectsCount + 1 requests are sent; without an error the status is not
    a redirect; and ErrTooManyRedirects means that all of them were sent (unless
    the client itself reports it). *)
Lemma doRequestFollowRedirects_ends {L : HttpLib} {St : Type} {C : clientDoer St} (x : Request) (y : Response) (s : St) (url : bytes)
    (Max : Z) (Hd : forall x y s, exists r, Do x y s = Some r) :
  exists x' y' s' n code err,
    doRequestFollowRedirects (doer := counted) x y (s, O) url Max = Some (x', y', (s', n), code, err) /\
    Z.of_nat n <= Z.max 0 Max + 1 /\
    (err = None -> (0 < n)%nat /\ StatusCodeIsRedirect code = false) /\
    (err = Some ErrTooManyRedirects -> Z.of_nat n = Z.max 0 Max + 1 \/
       exists x y s r, Do x y s = Some (r, err) \/ snd (Request_parseURI x) = err).
Proof.
  destruct (redirectLoop_counted (S (Z.to_nat Max)) x y s O url 0 0 Max Hd)
    as (x' & y' & s' & n & code & err & E & B & N & T); [lia..|].
  do 6 eexists. split; [exact E|]. split; [lia|]. split; [exact N|]. intros He. destruct (T He); [left; lia|by right].
Qed.

(** A client that answers every request with a redirect to itself, and at the
    fourth request with 200. *)
Definition redirecting : @clientDoer plainLib nat := fun x y n =>
  Some (x, set_resp_Header
    (ResponseHeader_Set (set_rs_statusCode (if decide (n = 3%nat) then 200 else 302) emptyResponseHeader) strLocation (bs "/next")) y, S n, None).

Lemma doRequestFollowRedirects_ends_witness :
  (exists x' y' s' code,
    doRequestFollowRedirects (doer := counted (doer := redirecting)) emptyRequest emptyResponse (O, O) (bs "http://foo.com/") 3 =
      Some (x', y', (s', 4%nat), code, None) /\ code = 200) /\
  exists x' y' s' n code err,
    doRequestFollowRedirects (doer := counted (doer := redirecting)) emptyRequest emptyResponse (O, O) (bs "http://foo.com/") 2 =
      Some (x', y', (s', n), code, err) /\
    Z.of_nat n <= Z.max 0 2 + 1 /\
    (err = None -> (0 < n)%nat /\ StatusCodeIsRedirect code = false) /\
    (err = Some ErrTooManyRedirects -> Z.of_nat n = Z.max 0 2 + 1 \/
       exists x y s r, Do (clientDoer := redirecting) x y s = Some (r, err) \/ snd (Request_parseURI x) = err).
Proof.
  split; [do 4 eexists; split; [vm_compute; reflexivity|done]|].
  apply (doRequestFollowRedirects_ends (C := redirecting)). intros x y s. eexists. reflexivity.
Defined.

(** A HostClient looks at the scheme of a URI it has not parsed yet: for a
    request made with SetRequestURI it sees http.  With IsTLS it refuses an https
    request, and without it sends an https request in clear text. *)
Lemma HostClient_unparsed_scheme :
  let x := @Request_SetRequestURI plainLib emptyRequest (bs "https://foo.com/") in
  let tlsClient := @MkHostClient plainLib (bs "me") false true 0 0 0 0 0 100 false false false None None in
  at_err <$> doNonNilReqResp tlsClient sampleExchange x emptyResponse = Some (Some ErrHostClientRedirectToDifferentScheme) /\
  (fun a => (take 16 (at_sent a), at_err a)) <$> doNonNilReqResp sampleClient sampleExchange x emptyResponse =
    Some (bs "GET / HTTP/1.1" ++ strCRLF, None) /\
  at_err <$> doNonNilReqResp sampleClient sampleExchange (fst (Request_URI x)) emptyResponse =
    Some (Some ErrHostClientRedirectToDifferentScheme).
Proof. split_and!; vm_compute; reflexivity. Qed.
