(* ===== verification/Deadline.v ===== *)
(** * client.go: requests with a deadline

    clientDoDeadline runs the request in a goroutine of its own, on copies of the
    request and the response, and waits for its answer or for a timer.  A mutex and
    two flags decide who was first; the channel for the answer comes from a pool
    and goes back to it.  The machine has any number of calls, each with its
    caller's request and response and its goroutine's copies; thread [2 i] is the
    caller of call [i] and thread [2 i + 1] its goroutine.  The copy of the request
    takes the body out of the caller's request and only an answer in time puts it
    back.  The objects that AcquireRequest and AcquireResponse hand out and what Do
    makes of the copies are arbitrary.  A caller does not pass a request to two
    calls at a time.  clientGetURLDeadline is in GetURL. *)
From Stdlib Require Import Strings.String.
From stdpp Require Import list_tactics.
From S2P Require Import Prelude BytesConv Args Uri Cookie RequestHeader Body Http Machine.

(** The caller: in the select; the timer has fired and it wants the mutex; it has
    the mutex and takes the answer that is there; it puts the channel back. *)
Inductive caller := Selecting | TimedOut | Receiving | Putting (err : option error) | Returned (err : option error).

(** The goroutine: never started, as the deadline had passed; before it sets the
    timeout of the copy; in Do; Do has returned; it has the mutex and has copied its
    results to the caller's objects; it has sent the answer; it has unlocked the
    mutex and holds its copies; it has released them. *)
Inductive worker := NotStarted | Starting | Doing | Delivering (err : option error) | Sending (err : option error) | Responding | Releasing | Done.

#[export] Instance worker_eq_dec : EqDecision worker.
Proof. solve_decision. Defined.

Section Deadline.
Context `{HttpLib}.

(** The request and the response of the caller, the latter nil or not, and the
    copies of the goroutine. *)
Record objects := MkObjects { ob_req : Request; ob_resp : option Response; ob_reqCopy : Request; ob_respCopy : Response }.

(** [cl_given], [cl_done] and [cl_left] are not in the source: they record the
    request and the response the call was given, the error Do has returned and how
    it left the copies. *)
Record call := MkCall {
  cl_caller : caller;
  cl_worker : worker;
  cl_mu : bool;
  cl_timedout : bool;
  cl_responded : bool;
  cl_timeout : Z;
  cl_obj : objects;
  cl_given : Request * option Response;
  cl_done : option (option error);
  cl_left : Request * Response;
  cl_ch : nat
}.

(** [dl_chans]: the buffer of every channel made, of capacity one. *)
Record world := MkWorld { dl_calls : list call; dl_chans : list (option (option error)); dl_pool : list nat }.

(** A call of clientDoDeadline says how much time is left, which channel its pool
    gives, if any, and which objects the pools of requests and responses give. *)
Inductive action :=
| Go
| CallDo (timeout : Z) (get : option nat) (req : Request) (resp : option Response) (reqPool : Request) (respPool : Response)
| DoReturns (err : option error) (reqCopy : Request) (respCopy : Response)
| TimerFired.

Definition set_caller (p : caller) (c : call) : call :=
  MkCall p (cl_worker c) (cl_mu c) (cl_timedout c) (cl_responded c) (cl_timeout c) (cl_obj c) (cl_given c) (cl_done c) (cl_left c) (cl_ch c).
Definition set_worker (p : worker) (c : call) : call :=
  MkCall (cl_caller c) p (cl_mu c) (cl_timedout c) (cl_responded c) (cl_timeout c) (cl_obj c) (cl_given c) (cl_done c) (cl_left c) (cl_ch c).
Definition set_mu (b : bool) (c : call) : call :=
  MkCall (cl_caller c) (cl_worker c) b (cl_timedout c) (cl_responded c) (cl_timeout c) (cl_obj c) (cl_given c) (cl_done c) (cl_left c) (cl_ch c).
Definition set_timedout (b : bool) (c : call) : call :=
  MkCall (cl_caller c) (cl_worker c) (cl_mu c) b (cl_responded c) (cl_timeout c) (cl_obj c) (cl_given c) (cl_done c) (cl_left c) (cl_ch c).
Definition set_responded (b : bool) (c : call) : call :=
  MkCall (cl_caller c) (cl_worker c) (cl_mu c) (cl_timedout c) b (cl_timeout c) (cl_obj c) (cl_given c) (cl_done c) (cl_left c) (cl_ch c).
Definition set_obj (o : objects) (c : call) : call :=
  MkCall (cl_caller c) (cl_worker c) (cl_mu c) (cl_timedout c) (cl_responded c) (cl_timeout c) o (cl_given c) (cl_done c) (cl_left c) (cl_ch c).
Definition set_done (r : option (option error)) (c : call) : call :=
  MkCall (cl_caller c) (cl_worker c) (cl_mu c) (cl_timedout c) (cl_responded c) (cl_timeout c) (cl_obj c) (cl_given c) r (cl_left c) (cl_ch c).
Definition set_left (l : Request * Response) (c : call) : call :=
  MkCall (cl_caller c) (cl_worker c) (cl_mu c) (cl_timedout c) (cl_responded c) (cl_timeout c) (cl_obj c) (cl_given c) (cl_done c) l (cl_ch c).

(** A step of call [i] that leaves the channels alone, and one that stores in its channel. *)
Definition updCall (i : nat) (c : call) (s : world) : world := MkWorld (<[i := c]> (dl_calls s)) (dl_chans s) (dl_pool s).
Definition updChan (i : nat) (m : option (option error)) (s : world) : world :=
  MkWorld (dl_calls s) (<[i := m]> (dl_chans s)) (dl_pool s).

(** The buffer of a channel; every channel of a call exists. *)
Definition buffer (s : world) (ch : nat) : option (option error) := mjoin (dl_chans s !! ch).

(** The entry of clientDoDeadline, up to the select: the copy of the request gets
    its head by copyToSkipBody and its body from the caller's request, in exchange
    for its own. *)
Definition stepCallDo (timeout : Z) (get : option nat) (req : Request) (resp : option Response) (reqPool : Request) (respPool : Response)
    (s : world) : outcome world :=
  if timeout <=? 0 then
    To (MkWorld (dl_calls s ++ [MkCall (Returned (Some ErrTimeout)) NotStarted false false false timeout
          (MkObjects req resp reqPool respPool) (req, resp) None (reqPool, respPool) 0]) (dl_chans s) (dl_pool s))
  else
    let reqCopy := Request_copyToSkipBody req reqPool in
    let '(req', reqCopy) := swapRequestBody req reqCopy in
    let respCopy := match resp with Some resp => set_resp_SkipBody (resp_SkipBody resp) respPool | None => respPool end in
    let start ch chans pool :=
      To (MkWorld (dl_calls s ++ [MkCall Selecting Starting false false false timeout
            (MkObjects req' resp reqCopy respCopy) (req, resp) None (reqCopy, respCopy) ch]) chans pool) in
    match get with
    | Some j => match dl_pool s !! j with Some ch => start ch (dl_chans s) (delete j (dl_pool s)) | None => Blocked end
    | None => start (length (dl_chans s)) (dl_chans s ++ [None]) (dl_pool s)
    end.

Definition stepCaller (i : nat) (c : call) (a : action) (s : world) : outcome world :=
  match cl_caller c, a with
  | Selecting, Go =>
      match buffer s (cl_ch c) with
      | Some err => To (updChan (cl_ch c) None (updCall i (set_caller (Putting err) c) s))
      | None => Blocked
      end
  | Selecting, TimerFired => To (updCall i (set_caller TimedOut c) s)
  | TimedOut, Go =>
      if cl_mu c then Blocked
      else if cl_responded c then To (updCall i (set_caller Receiving (set_mu true c)) s)
      else To (updCall i (set_caller (Putting (Some ErrTimeout)) (set_timedout true c)) s)
  | Receiving, Go =>
      match buffer s (cl_ch c) with
      | Some err => To (updChan (cl_ch c) None (updCall i (set_caller (Putting err) (set_mu false c)) s))
      | None => Blocked
      end
  | Putting err, Go =>
      To (MkWorld (<[i := set_caller (Returned err) c]> (dl_calls s)) (dl_chans s) (cl_ch c :: dl_pool s))
  | _, _ => Blocked
  end.

(** The results go to the caller's objects: the response, when there is one, by
    copyToSkipBody and an exchange of bodies; the body of the request goes back. *)
Definition handOver (o : objects) : objects :=
  let '(resp, respCopy) :=
    match ob_resp o with
    | Some resp =>
        let resp := Response_copyToSkipBody (ob_respCopy o) resp in
        let '(resp, respCopy) := swapResponseBody resp (ob_respCopy o) in (Some resp, respCopy)
    | None => (None, ob_respCopy o)
    end in
  let '(reqCopy, req) := swapRequestBody (ob_reqCopy o) (ob_req o) in
  MkObjects req resp reqCopy respCopy.

Definition stepWorker (i : nat) (c : call) (a : action) (s : world) : outcome world :=
  let o := cl_obj c in
  match cl_worker c, a with
  | Starting, Go => To (updCall i (set_worker Doing (set_obj (MkObjects (ob_req o) (ob_resp o) (set_req_timeout (cl_timeout c) (ob_reqCopy o)) (ob_respCopy o)) c)) s)
  | Doing, DoReturns err reqCopy respCopy =>
      To (updCall i (set_worker (Delivering err) (set_obj (MkObjects (ob_req o) (ob_resp o) reqCopy respCopy)
                      (set_left (reqCopy, respCopy) (set_done (Some err) c)))) s)
  | Delivering err, Go =>
      if cl_mu c then Blocked
      else if cl_timedout c then To (updCall i (set_worker Releasing c) s)
      else To (updCall i (set_worker (Sending err) (set_mu true (set_obj (handOver o) c))) s)
  | Sending err, Go =>
      match buffer s (cl_ch c) with
      | None => To (updChan (cl_ch c) (Some err) (updCall i (set_worker Responding c) s))
      | Some _ => Blocked
      end
  | Responding, Go => To (updCall i (set_worker Releasing (set_mu false (set_responded true c))) s)
  | Releasing, Go =>
      To (updCall i (set_worker Done (set_obj (MkObjects (ob_req o) (ob_resp o) (Request_Reset (ob_reqCopy o)) (Response_Reset (ob_respCopy o))) c)) s)
  | _, _ => Blocked
  end.

#[export] Instance deadline_machine : Machine world action := fun t a s =>
  match dl_calls s !! (t / 2)%nat with
  | Some c => if Nat.even t then stepCaller (t / 2) c a s else stepWorker (t / 2) c a s
  | None =>
      match a with
      | CallDo timeout get req resp reqPool respPool =>
          if decide (t = 2 * length (dl_calls s))%nat then stepCallDo timeout get req resp reqPool respPool s else Blocked
      | _ => Blocked
      end
  end.

Definition initWorld : world := MkWorld [] [] [].

(** ** The invariant *)

(** [x] with the body of [y], whatever form it has. *)
Definition withBodyOf (y x : Request) : Request :=
  set_req_bodyStream (req_bodyStream y) (set_req_bodyRaw (req_bodyRaw y) (set_req_body (req_body y) x)).

Definition noBody (x : Request) : Prop :=
  req_bodyStream x = None /\ req_bodyRaw x = None /\ match req_body x with Some b => sl b = [] | None => True end.

(** The caller's objects without an answer: the response as it was given, the
    request without its body. *)
Definition keptBack (given : Request * option Response) (o : objects) : Prop :=
  ob_resp o = given.2 /\ noBody (ob_req o) /\ ob_req o = withBodyOf (ob_req o) given.1.

(** The caller's objects with the answer: the request with the body that Do left in
    its copy, the response, if there is one, with head and body of its copy. *)
Definition answered (given : Request * option Response) (left : Request * Response) (o : objects) : Prop :=
  ob_req o = withBodyOf left.1 given.1 /\
  ob_resp o = (fun resp => fst (swapResponseBody (Response_copyToSkipBody left.2 resp) left.2)) <$> given.2.

(** What Do is given. *)
Definition asked (given : Request * option Response) (timeout : Z) (x : Request) : Prop :=
  exists old, x = set_req_timeout timeout (withBodyOf given.1 (Request_copyToSkipBody given.1 old)).

(** What the two goroutines of a call may be doing, given the flags and the
    buffer [m] of its channel. *)
Definition callOk (c : call) (m : option (option error)) : Prop :=
  match cl_worker c with
  | NotStarted =>
      cl_caller c = Returned (Some ErrTimeout) /\ cl_timedout c = false /\ (ob_req (cl_obj c), ob_resp (cl_obj c)) = cl_given c
  | Starting | Doing | Delivering _ =>
      cl_mu c = false /\ cl_responded c = false /\ keptBack (cl_given c) (cl_obj c) /\
      match cl_worker c with
      | Starting => asked (cl_given c) (cl_timeout c) (set_req_timeout (cl_timeout c) (ob_reqCopy (cl_obj c)))
      | Doing => asked (cl_given c) (cl_timeout c) (ob_reqCopy (cl_obj c))
      | Delivering err => cl_done c = Some err /\ (ob_reqCopy (cl_obj c), ob_respCopy (cl_obj c)) = cl_left c
      | _ => True
      end /\
      match cl_caller c with
      | Selecting | TimedOut => cl_timedout c = false /\ m = None
      | Receiving => False
      | Putting err => cl_timedout c = true /\ err = Some ErrTimeout /\ m = None
      | Returned err => cl_timedout c = true /\ err = Some ErrTimeout
      end
  | Sending err =>
      cl_mu c = true /\ cl_responded c = false /\ answered (cl_given c) (cl_left c) (cl_obj c) /\ cl_timedout c = false /\ m = None /\
      cl_done c = Some err /\ (cl_caller c = Selecting \/ cl_caller c = TimedOut)
  | Responding =>
      cl_mu c = true /\ cl_responded c = false /\ answered (cl_given c) (cl_left c) (cl_obj c) /\ cl_timedout c = false /\
      match cl_caller c with
      | Selecting | TimedOut => m <> None /\ m = cl_done c
      | Receiving => False
      | Putting err => m = None /\ cl_done c = Some err
      | Returned err => cl_done c = Some err
      end
  | Releasing | Done =>
      if cl_timedout c then
        cl_mu c = false /\ keptBack (cl_given c) (cl_obj c) /\
        (cl_caller c = Returned (Some ErrTimeout) \/ (cl_caller c = Putting (Some ErrTimeout) /\ m = None))
      else
        cl_responded c = true /\ answered (cl_given c) (cl_left c) (cl_obj c) /\
        match cl_caller c with
        | Selecting | TimedOut => cl_mu c = false /\ m <> None /\ m = cl_done c
        | Receiving => cl_mu c = true /\ m <> None /\ m = cl_done c
        | Putting err => cl_mu c = false /\ m = None /\ cl_done c = Some err
        | Returned err => cl_mu c = false /\ cl_done c = Some err
        end
  end.

Lemma asked_new req resp old timeout :
  asked (req, resp) timeout (set_req_timeout timeout (snd (swapRequestBody req (Request_copyToSkipBody req old)))).
Proof. by exists old. Qed.

(** The copy has no body of its own to give. *)
Lemma copy_noBody req old : noBody (Request_copyToSkipBody req old).
Proof.
  unfold noBody, Request_copyToSkipBody, Request_Reset, Request_resetSkipHeader. destruct (req_body old) as [b|] eqn:B, (req_keepBodyBuffer old) eqn:E;
    destruct old; cbn in B, E; subst; split_and!; reflexivity.
Qed.

Lemma keptBack_new req resp old reqCopy respCopy :
  keptBack (req, resp) (MkObjects (fst (swapRequestBody req (Request_copyToSkipBody req old))) resp reqCopy respCopy).
Proof.
  pose proof (copy_noBody req old) as N. revert N. generalize (Request_copyToSkipBody req old). intros x (E1 & E2 & E3). unfold keptBack, noBody. cbn.
  by rewrite E1, E2.
Qed.

Lemma answered_handOver given o :
  keptBack given o -> answered given (ob_reqCopy o, ob_respCopy o) (handOver o).
Proof.
  destruct o as [req resp reqCopy respCopy], given as [req0 resp0]. intros (E0 & _ & E). cbn in E0, E. subst resp.
  unfold answered, handOver. cbn [ob_req ob_resp ob_reqCopy ob_respCopy]. rewrite E. destruct resp0 as [resp0|]; by split.
Qed.

(** The channel a call still uses. *)
Definition owns (c : call) : list nat := match cl_caller c with Returned _ => [] | _ => [cl_ch c] end.

Record Inv (s : world) : Prop := {
  iv_calls : forall i c, dl_calls s !! i = Some c -> callOk c (buffer s (cl_ch c));
  iv_owned : NoDup (held owns (dl_calls s) ++ dl_pool s);
  iv_known : Forall (fun ch => (ch < length (dl_chans s))%nat) (held owns (dl_calls s) ++ dl_pool s);
  iv_empty : forall ch, ch ∈ dl_pool s -> buffer s ch = None
}.

Lemma dl_Inv_init : Inv initWorld.
Proof. split; cbn; try done; constructor. Qed.

Lemma callOk_returned c m m' : owns c = [] -> callOk c m -> callOk c m'.
Proof.
  unfold owns, callOk. destruct (cl_caller c) eqn:E; try done. intros _.
  destruct (cl_worker c); try done; try naive_solver; (destruct (cl_timedout c); [naive_solver|done]).
Qed.

(** A step of call [i] that changes no channel. *)
Lemma Inv_upd s i c c' :
  Inv s -> dl_calls s !! i = Some c -> owns c' = owns c -> cl_ch c' = cl_ch c ->
  callOk c' (buffer s (cl_ch c)) -> Inv (updCall i c' s).
Proof.
  intros [I1 I2 I3 I4] Ec Eo Eh Hc. pose proof (lookup_lt_Some _ _ _ Ec) as Hi.
  assert (held owns (<[i:=c']> (dl_calls s)) ≡ₚ held owns (dl_calls s)) as E by (apply (held_insert_same owns _ _ c); [done|by rewrite Eo]).
  split; cbn.
  - intros j x. destruct (decide (i = j)) as [<-|D].
    + rewrite list_lookup_insert_eq by done. intros [= <-]. by rewrite Eh.
    + rewrite list_lookup_insert_ne by done. apply I1.
  - by rewrite E.
  - by rewrite E.
  - exact I4.
Qed.

(** A call that uses its channel is alone on it. *)
Lemma owner_alone s i j c c' :
  Inv s -> dl_calls s !! i = Some c -> dl_calls s !! j = Some c' -> i <> j -> owns c = [cl_ch c] ->
  cl_ch c' = cl_ch c -> owns c' = [].
Proof.
  intros I Ei Ej D Eo Eh. destruct (held_lookup2 owns _ _ _ _ _ Ei Ej D) as [r E].
  pose proof (iv_owned _ I) as N. rewrite E, Eo in N. unfold owns in *. destruct (cl_caller c'); try done;
    rewrite Eh in N; apply NoDup_app in N as (N & _); apply NoDup_cons in N as [N _]; destruct N; by left.
Qed.

Lemma owner_known s i c : Inv s -> dl_calls s !! i = Some c -> owns c = [cl_ch c] ->
  (cl_ch c < length (dl_chans s))%nat /\ cl_ch c ∉ dl_pool s.
Proof.
  intros I Ei Eo. destruct (held_lookup owns _ _ _ Ei) as [r E]. rewrite Eo in E.
  pose proof (iv_owned _ I) as N. pose proof (iv_known _ I) as K. rewrite E in N, K.
  apply Forall_cons in K as [K _]. split; [done|]. apply NoDup_cons in N as [N _]. intros Hp. apply N.
  apply elem_of_app. by right.
Qed.

Lemma buffer_upd s ch ch' m : (ch < length (dl_chans s))%nat ->
  buffer (updChan ch m s) ch' = if decide (ch' = ch) then m else buffer s ch'.
Proof.
  intros Hc. unfold buffer, updChan. cbn. case_decide as D.
  - subst. by rewrite list_lookup_insert_eq.
  - by rewrite list_lookup_insert_ne.
Qed.

(** A step of call [i] that stores in its channel. *)
Lemma Inv_updChan s i c c' m :
  Inv s -> dl_calls s !! i = Some c -> owns c = [cl_ch c] -> owns c' = [cl_ch c] -> cl_ch c' = cl_ch c ->
  callOk c' m -> Inv (updChan (cl_ch c) m (updCall i c' s)).
Proof.
  intros I Ec Eo Eo' Eh Hc. pose proof (lookup_lt_Some _ _ _ Ec) as Hi.
  destruct (owner_known s i c I Ec Eo) as [Hk Hp].
  assert (held owns (<[i:=c']> (dl_calls s)) ≡ₚ held owns (dl_calls s)) as E by (apply (held_insert_same owns _ _ c); [done|by rewrite Eo, Eo']).
  split; cbn.
  - intros j x. rewrite buffer_upd by done. destruct (decide (i = j)) as [<-|D].
    + rewrite list_lookup_insert_eq by done. intros [= <-]. rewrite Eh, decide_True by done. exact Hc.
    + rewrite list_lookup_insert_ne by done. intros Ej. pose proof (iv_calls _ I _ _ Ej) as Hx.
      case_decide as Dc; [|exact Hx]. eapply callOk_returned; [|exact Hx]. exact (owner_alone s i j c x I Ec Ej D Eo Dc).
  - rewrite E. exact (iv_owned _ I).
  - rewrite E, length_insert. exact (iv_known _ I).
  - intros ch Hch. rewrite buffer_upd by done. case_decide as D; [by subst|]. exact (iv_empty _ I ch Hch).
Qed.

(** The caller puts the channel back and returns. *)
Lemma Inv_put s i c err :
  Inv s -> dl_calls s !! i = Some c -> cl_caller c = Putting err ->
  Inv (MkWorld (<[i := set_caller (Returned err) c]> (dl_calls s)) (dl_chans s) (cl_ch c :: dl_pool s)).
Proof.
  intros I Ec Ep. pose proof (lookup_lt_Some _ _ _ Ec) as Hi. pose proof (iv_calls _ I _ _ Ec) as Hc.
  assert (owns c = [cl_ch c]) as Eo by (unfold owns; by rewrite Ep).
  assert (held owns (<[i:=set_caller (Returned err) c]> (dl_calls s)) ++ cl_ch c :: dl_pool s ≡ₚ held owns (dl_calls s) ++ dl_pool s) as E.
  { destruct (held_insert owns (dl_calls s) i c (set_caller (Returned err) c) Ec) as (r & E1 & E2). rewrite E1, E2, Eo. cbn. solve_Permutation. }
  assert (buffer s (cl_ch c) = None) as Eb.
  { unfold callOk in Hc. rewrite Ep in Hc. destruct (cl_worker c); try naive_solver; destruct (cl_timedout c); naive_solver. }
  split; cbn.
  - intros j x. unfold buffer in *. cbn. destruct (decide (i = j)) as [<-|D].
    + rewrite list_lookup_insert_eq by done. intros [= <-]. revert Hc. unfold callOk. cbn. rewrite Ep.
      destruct (cl_worker c); try naive_solver; destruct (cl_timedout c); naive_solver.
    + rewrite list_lookup_insert_ne by done. apply (iv_calls _ I).
  - rewrite E. exact (iv_owned _ I).
  - rewrite E. exact (iv_known _ I).
  - intros ch. rewrite elem_of_cons. intros [->|Hch]; [exact Eb|]. exact (iv_empty _ I ch Hch).
Qed.

Definition good (o : outcome world) : Prop := match o with Blocked => True | Panics => False | To s => Inv s end.

(** The cases of [callOk] for a call whose fields are variables. *)
Ltac call_solve Hc w td :=
  revert Hc; unfold callOk; cbn; destruct w; try naive_solver; destruct td; naive_solver.

Ltac call_upd I Ec := cbn; apply (Inv_upd _ _ _ _ I Ec); [reflexivity|reflexivity|].

Lemma good_caller s i c a : Inv s -> dl_calls s !! i = Some c -> good (stepCaller i c a s).
Proof.
  intros I Ec. pose proof (iv_calls _ I _ _ Ec) as Hc. unfold stepCaller.
  destruct c as [p w mu td rs tm ob gv dn lf ch]. cbn [cl_caller cl_ch cl_mu cl_responded] in *.
  destruct p as [| | |err|err]; destruct a; try done.
  - destruct (buffer s ch) as [err|]; [|done]. cbn.
    apply (Inv_updChan _ _ _ _ _ I Ec); try reflexivity. call_solve Hc w td.
  - call_upd I Ec. call_solve Hc w td.
  - destruct mu; [done|]. destruct rs; call_upd I Ec; call_solve Hc w td.
  - destruct (buffer s ch) as [err|]; [|done]. cbn.
    apply (Inv_updChan _ _ _ _ _ I Ec); try reflexivity. call_solve Hc w td.
  - cbn. by apply (Inv_put s i _ err I Ec).
Qed.

Lemma good_worker s i c a : Inv s -> dl_calls s !! i = Some c -> good (stepWorker i c a s).
Proof.
  intros I Ec. pose proof (iv_calls _ I _ _ Ec) as Hc. unfold stepWorker.
  destruct c as [p w mu td rs tm ob gv dn lf ch]. cbn [cl_worker cl_ch cl_mu cl_timedout cl_obj cl_timeout] in *.
  destruct w as [| | |err|err| | |]; destruct a as [| |err' reqC respC|]; try done.
  - call_upd I Ec. revert Hc. unfold callOk, keptBack. cbn. destruct p; naive_solver.
  - call_upd I Ec. revert Hc. unfold callOk, keptBack. cbn. destruct p; naive_solver.
  - destruct mu; [done|]. destruct td; call_upd I Ec; revert Hc; unfold callOk; cbn; [destruct p; naive_solver|].
    intros (_ & -> & K & [Ed El] & Hx). apply answered_handOver in K. rewrite El in K. destruct p; naive_solver.
  - destruct (buffer s ch) as [m|] eqn:Eb; [done|]. cbn.
    assert (p = Selecting \/ p = TimedOut) as Hp by (revert Hc; unfold callOk; cbn; naive_solver).
    apply (Inv_updChan _ _ _ _ _ I Ec); try reflexivity; try (unfold owns; by destruct Hp as [->| ->]).
    revert Hc. unfold callOk. cbn. destruct Hp as [->| ->]; naive_solver.
  - call_upd I Ec. revert Hc. unfold callOk. cbn. intros (_ & _ & ? & -> & H'). destruct p; naive_solver.
  - call_upd I Ec. revert Hc. unfold callOk, keptBack, answered. cbn. destruct td; naive_solver.
Qed.

Lemma good_callDo timeout get req resp reqPool respPool s s' : Inv s -> stepCallDo timeout get req resp reqPool respPool s = To s' -> Inv s'.
Proof.
  intros [I1 I2 I3 I4]. unfold stepCallDo. destruct (timeout <=? 0).
  { intros [= <-]. split; cbn; try done.
    - intros i c Ec. apply lookup_snoc_Some in Ec as [[_ Ec]|[_ <-]]; [by apply (I1 i)|]. done.
    - rewrite held_snoc. cbn. by rewrite app_nil_r.
    - rewrite held_snoc. cbn. by rewrite app_nil_r. }
  pose proof (keptBack_new req resp reqPool) as K. pose proof (asked_new req resp reqPool timeout) as A.
  destruct (swapRequestBody req (Request_copyToSkipBody req reqPool)) as [req' reqCopy]. cbn [fst snd] in K, A. cbv zeta.
  set (respCopy := match resp with Some _ => _ | None => _ end). specialize (K reqCopy respCopy).
  set (c0 ch := MkCall Selecting Starting false false false timeout (MkObjects req' resp reqCopy respCopy) (req, resp) None (reqCopy, respCopy) ch).
  destruct get as [j|].
  - destruct (dl_pool s !! j) as [ch|] eqn:Ej; [|done]. intros [= <-].
    assert (held owns (dl_calls s ++ [c0 ch]) ++ delete j (dl_pool s) ≡ₚ
      held owns (dl_calls s) ++ dl_pool s) as E.
    { rewrite held_snoc. cbn. rewrite <- app_assoc. apply Permutation_app_head. symmetry. by apply delete_Permutation. }
    assert (buffer s ch = None) as Eb by (apply I4; by eapply list_elem_of_lookup_2).
    split; cbn; [|by rewrite E|by rewrite E|].
    + intros i c Ec. apply lookup_snoc_Some in Ec as [[_ Ec]|[_ <-]]; [by apply (I1 i)|]. cbn. by split_and!.
    + intros ch' Hc. apply I4. rewrite (delete_Permutation _ _ _ Ej). by right.
  - intros [= <-].
    assert (forall ch, ch < length (dl_chans s) -> mjoin ((dl_chans s ++ [None]) !! ch) = buffer s ch)%nat as Eb
      by (intros ch Hch; unfold buffer; by rewrite lookup_app_l).
    assert (forall i c, dl_calls s !! i = Some c -> callOk c (mjoin ((dl_chans s ++ [None]) !! cl_ch c))) as I1'.
    { intros i c Ec. pose proof (I1 i c Ec) as Hc. destruct (decide (cl_ch c < length (dl_chans s))%nat) as [D|D]; [by rewrite Eb|].
      eapply callOk_returned; [|exact Hc]. unfold owns. destruct (cl_caller c) eqn:Ep; try done.
      all: exfalso; apply D; rewrite Forall_forall in I3; apply I3, elem_of_app; left; apply elem_of_held; exists i, c;
        split; [done|]; unfold owns; rewrite Ep; by left. }
    assert (held owns (dl_calls s ++ [c0 (length (dl_chans s))]) ++ dl_pool s ≡ₚ
      length (dl_chans s) :: held owns (dl_calls s) ++ dl_pool s) as E by (rewrite held_snoc; cbn; solve_Permutation).
    split; cbn.
    + intros i c Ec. apply lookup_snoc_Some in Ec as [[_ Ec]|[_ <-]]; [by apply (I1' i)|]. unfold buffer. cbn.
      rewrite lookup_app_r, Nat.sub_diag by done. by split_and!.
    + rewrite E. apply NoDup_cons. split; [|done]. intros Hn. rewrite Forall_forall in I3. apply I3 in Hn. lia.
    + rewrite E, length_app. constructor; [simpl; lia|]. eapply Forall_impl; [exact I3|]. cbn. lia.
    + intros ch Hch. unfold buffer at 1. cbn. rewrite Eb; [by apply I4|]. rewrite Forall_forall in I3. apply I3, elem_of_app. by right.
Qed.

Lemma dl_step_inv s t a s' : Inv s -> step t a s = To s' -> Inv s'.
Proof.
  intros I. unfold step, deadline_machine. destruct (dl_calls s !! (t / 2)%nat) as [c|] eqn:Ec.
  - destruct (Nat.even t).
    + intros E. pose proof (good_caller s _ c a I Ec) as G. by rewrite E in G.
    + intros E. pose proof (good_worker s _ c a I Ec) as G. by rewrite E in G.
  - destruct a; try done. case_decide; [|done]. by apply good_callDo.
Qed.

Lemma dl_reachable_inv s : reachable initWorld s -> Inv s.
Proof. apply (reachable_invariant Inv); [apply dl_Inv_init|]. intros t a s1 s2. apply dl_step_inv. Qed.

(** ** After the return *)

(** The objects of the caller. *)
Definition callersObjects (c : call) : Request * option Response := (ob_req (cl_obj c), ob_resp (cl_obj c)).

Lemma returned_kept s t a s' i c err :
  Inv s -> dl_calls s !! i = Some c -> cl_caller c = Returned err -> step t a s = To s' ->
  exists c', dl_calls s' !! i = Some c' /\ cl_caller c' = Returned err /\ callersObjects c' = callersObjects c.
Proof.
  intros I Ec Er. pose proof (iv_calls _ I _ _ Ec) as Hc. pose proof (lookup_lt_Some _ _ _ Ec) as Hi.
  unfold step, deadline_machine. destruct (dl_calls s !! (t / 2)%nat) as [c0|] eqn:E0.
  - assert (forall j c1 chans pool, MkWorld (<[j:=c1]> (dl_calls s)) chans pool = s' ->
      j <> i \/ (cl_caller c1 = Returned err /\ callersObjects c1 = callersObjects c) ->
      exists c', dl_calls s' !! i = Some c' /\ cl_caller c' = Returned err /\ callersObjects c' = callersObjects c) as Upd.
    { intros j c1 chans pool <- Hx. cbn. destruct (decide (j = i)) as [->|D].
      - exists c1. rewrite list_lookup_insert_eq by done. by destruct Hx as [Hx|Hx].
      - exists c. by rewrite list_lookup_insert_ne. }
    assert (t / 2 = i -> c0 = c)%nat as Ei by (intros E; rewrite E, Ec in E0; by injection E0).
    destruct (Nat.even t); unfold stepCaller, stepWorker, updChan, updCall;
      repeat case_match; try done; intros [= E]; eapply Upd; try exact E; destruct (decide (t / 2 = i)%nat) as [D|D]; auto; right;
      pose proof (Ei D) as ->; cbn; try congruence; try (by split).
    all: revert Hc; unfold callOk; repeat match goal with Hx : cl_worker _ = _ |- _ => rewrite Hx end; rewrite ?Er; try naive_solver.
    intros (_ & _ & _ & _ & Ht & _). congruence.
  - destruct a; try done. case_decide; [|done]. unfold stepCallDo. cbv zeta.
    destruct (timeout <=? 0); [|destruct (swapRequestBody _ _), get as [j|]; [destruct (dl_pool s !! j); [|done]|]]; intros [= <-]; exists c; cbn;
      by rewrite (lookup_app_l_Some _ _ _ _ Ec).
Qed.

(** ** Progress *)

Definition rank (c : call) : nat :=
  match cl_caller c with Selecting => 4 | TimedOut => 3 | Receiving => 2 | Putting _ => 1 | Returned _ => 0 end +
  match cl_worker c with Sending _ => 2 | Responding => 1 | _ => 0 end.

Definition isReturned (c : call) : Prop := exists err, cl_caller c = Returned err.

Lemma even_thread i : Nat.even (2 * i) = true /\ (2 * i / 2 = i)%nat.
Proof. split; [by rewrite Nat.even_mul|]. rewrite Nat.mul_comm. by apply Nat.div_mul. Qed.

Lemma odd_thread i : Nat.even (2 * i + 1) = false /\ ((2 * i + 1) / 2 = i)%nat.
Proof.
  split; [rewrite Nat.add_1_r, Nat.even_succ, <- Nat.negb_even; by rewrite (proj1 (even_thread i))|].
  rewrite Nat.add_comm, Nat.mul_comm, Nat.div_add by done. done.
Qed.

(** Unless the call has returned, it has a step that brings it closer, even if
    Do never returns. *)
Lemma call_progress s i c :
  Inv s -> dl_calls s !! i = Some c -> ~ isReturned c ->
  exists t a s' c', (t / 2 = i)%nat /\ (a = Go \/ a = TimerFired) /\
    step t a s = To s' /\ dl_calls s' !! i = Some c' /\ (rank c' < rank c)%nat.
Proof.
  intros I Ec Nr. pose proof (iv_calls _ I _ _ Ec) as Hc. pose proof (lookup_lt_Some _ _ _ Ec) as Hi.
  destruct (even_thread i) as [T1 T2], (odd_thread i) as [U1 U2].
  assert (forall a s' c', (a = Go \/ a = TimerFired) -> stepCaller i c a s = To s' -> dl_calls s' !! i = Some c' -> (rank c' < rank c)%nat ->
    exists t a s' c', (t / 2 = i)%nat /\ (a = Go \/ a = TimerFired) /\
    step t a s = To s' /\ dl_calls s' !! i = Some c' /\ (rank c' < rank c)%nat) as Caller.
  { intros a s' c' Ha E E' R. exists (2 * i)%nat, a, s', c'. split_and!; try done.
    unfold step, deadline_machine. by rewrite T2, Ec, T1. }
  assert (forall s' c', stepWorker i c Go s = To s' -> dl_calls s' !! i = Some c' -> (rank c' < rank c)%nat ->
    exists t a s' c', (t / 2 = i)%nat /\ (a = Go \/ a = TimerFired) /\
    step t a s = To s' /\ dl_calls s' !! i = Some c' /\ (rank c' < rank c)%nat) as Worker.
  { intros s' c' E E' R. exists (2 * i + 1)%nat, Go, s', c'. split_and!; try done; [by left|].
    unfold step, deadline_machine. by rewrite U2, Ec, U1. }
  clear T1 T2 U1 U2. destruct c as [p w mu td rs tm ob gv dn lf ch].
  destruct p as [| | |err|err].
  - eapply Caller; [by right|reflexivity|cbn; by rewrite list_lookup_insert_eq|]. unfold rank. cbn. lia.
  - destruct mu.
    + destruct w as [| | |err|err| | |]; unfold callOk in Hc; cbn in Hc; try naive_solver.
      * eapply Worker; [unfold stepWorker; cbn; cbn in Hc; destruct Hc as (_ & _ & _ & _ & -> & _); reflexivity|cbn; by rewrite list_lookup_insert_eq|].
        unfold rank. cbn. lia.
      * eapply Worker; [reflexivity|cbn; by rewrite list_lookup_insert_eq|]. unfold rank. cbn. lia.
      * destruct td; naive_solver.
      * destruct td; naive_solver.
    + destruct rs; (eapply Caller; [by left|reflexivity|cbn; by rewrite list_lookup_insert_eq|]; unfold rank; cbn; lia).
  - assert (exists err, buffer s ch = Some err) as [err Eb].
    { revert Hc. unfold callOk. cbn. destruct w; try naive_solver; (destruct td; [naive_solver|]); intros (_ & _ & _ & Hm & _);
      (destruct (buffer s ch); [eauto|done]). }
    eapply Caller; [by left|unfold stepCaller; cbn; rewrite Eb; reflexivity|cbn; by rewrite list_lookup_insert_eq|].
    unfold rank. cbn. lia.
  - eapply Caller; [by left|reflexivity|cbn; by rewrite list_lookup_insert_eq|]. unfold rank. cbn. lia.
  - destruct Nr. by exists err.
Qed.

(** What Do is given: the caller's head, address, form arguments and body, and the
    time that is left; nothing of the object that the copy was made in. *)
Lemma Do_is_given (s : world) (i : nat) (c : call) (R : reachable initWorld s) (Ec : dl_calls s !! i = Some c) (Ew : cl_worker c = Doing) :
  let x := ob_reqCopy (cl_obj c) in let given := fst (cl_given c) in
  (req_bodyStream x, req_bodyRaw x, req_body x) = (req_bodyStream given, req_bodyRaw given, req_body given) /\
  (req_parsedURI x, req_parsedPostArgs x, req_isTLS x, req_timeout x) = (req_parsedURI given, req_parsedPostArgs given, req_isTLS given, cl_timeout c) /\
  exists old, req_Header x = RequestHeader_CopyTo (req_Header given) (req_Header (Request_Reset old)) /\
    req_uri x = URI_CopyTo (req_uri given) (req_uri (Request_Reset old)) /\ req_postArgs x = Args_CopyTo (req_postArgs given) (req_postArgs (Request_Reset old)).
Proof.
  pose proof (iv_calls _ (dl_reachable_inv s R) _ _ Ec) as Hc. unfold callOk in Hc. rewrite Ew in Hc. destruct Hc as (_ & _ & _ & [old E] & _).
  cbv zeta. rewrite E. clear E Ec. destruct (cl_given c) as [given resp]. unfold withBodyOf, Request_copyToSkipBody. cbn [fst].
  split; [|split; [|exists old]]; generalize (Request_Reset old); intros [] ; by split_and?.
Qed.

(** A call with a deadline always comes back: from every reachable state some
    steps of its own two goroutines, with the timer but without Do returning,
    end with the caller's return; no mutex is held for ever, and no send or
    receive under it blocks. *)
Lemma clientDoDeadline_returns (s : world) (i : nat) (c : call) (R : reachable initWorld s) (Ec : dl_calls s !! i = Some c) :
  exists sched s' c', run sched s = To s' /\ Forall (fun x => (fst x / 2 = i)%nat /\ (snd x = Go \/ snd x = TimerFired)) sched /\
    dl_calls s' !! i = Some c' /\ isReturned c'.
Proof.
  apply dl_reachable_inv in R. revert s R c Ec.
  assert (forall n s, Inv s -> forall c, dl_calls s !! i = Some c -> (rank c < n)%nat ->
    exists sched s' c', run sched s = To s' /\ Forall (fun x => (fst x / 2 = i)%nat /\ (snd x = Go \/ snd x = TimerFired)) sched /\
      dl_calls s' !! i = Some c' /\ isReturned c') as Hrun.
  { induction n as [|n IH]; intros s I c Ec Hn; [lia|].
    assert (isReturned c \/ ~ isReturned c) as [Hr|Hr]
      by (unfold isReturned; destruct (cl_caller c); try (left; by eexists); right; by intros [? ?]).
    - exists [], s, c. by split_and!.
    - destruct (call_progress s i c I Ec Hr) as (t & a & s1 & c1 & Ht & Ha & E & E1 & Hk).
      destruct (IH s1 (dl_step_inv _ _ _ _ I E) c1 E1) as (sched & s' & c' & E' & F & Hx); [lia|].
      exists ((t, a) :: sched), s', c'. cbn [run]. rewrite E. split; [exact E'|]. split; [by constructor|exact Hx]. }
  intros s I c Ec. apply (Hrun (S (rank c)) s I c Ec). lia.
Qed.

(** * Properties *)

(** C26. Who was first decides once and for all, in every interleaving of any
    number of calls.  A call whose deadline had passed returns ErrTimeout with the
    caller's objects as they were given.  A call that times out returns ErrTimeout
    with the caller's response, if any, as it was given, but with the caller's
    request changed: its body is gone, whether buffer, raw bytes or stream, and
    everything else of it is as it was given.  Any other call returns the error of
    Do, the response has the head and the body that Do left in its copy, and the
    request has its body back, as Do left it.  No step, of Do or anything else,
    changes these objects after the return, and a channel goes back to the pool
    empty. *)
Theorem clientDoDeadline_decides (s : world) (i : nat) (c : call) (err : option error) (R : reachable initWorld s)
    (Ec : dl_calls s !! i = Some c) (Er : cl_caller c = Returned err) :
  let req := ob_req (cl_obj c) in let resp := ob_resp (cl_obj c) in let '(req0, resp0) := cl_given c in
  (if decide (cl_worker c = NotStarted) then err = Some ErrTimeout /\ req = req0 /\ resp = resp0
   else if cl_timedout c then err = Some ErrTimeout /\ resp = resp0 /\ noBody req /\ req = withBodyOf req req0
   else
     let '(reqCopy, respCopy) := cl_left c in
     cl_done c = Some err /\ req = withBodyOf reqCopy req0 /\
     resp = (fun resp => fst (swapResponseBody (Response_copyToSkipBody respCopy resp) respCopy)) <$> resp0) /\
  (forall t a s', step t a s = To s' ->
     exists c', dl_calls s' !! i = Some c' /\ cl_caller c' = Returned err /\ callersObjects c' = callersObjects c) /\
  (forall ch, ch ∈ dl_pool s -> buffer s ch = None).
Proof.
  pose proof (dl_reachable_inv s R) as I. cbv zeta. destruct (cl_given c) as [req0 resp0] eqn:Eg.
  split_and!; [|intros t a s' E; by eapply returned_kept|exact (iv_empty _ I)].
  pose proof (iv_calls _ I _ _ Ec) as Hc. unfold callOk, keptBack, answered in Hc. rewrite Er, Eg in Hc.
  destruct (cl_left c) as [reqCopy respCopy]. case_decide as D; [rewrite D in Hc; naive_solver|].
  destruct (cl_worker c), (cl_timedout c); naive_solver.
Qed.
End Deadline.

#[local] Existing Instance plainLib.

(** Two calls on one channel: the first is answered, the second times out while
    its answer is on the way. *)
Definition postReq : Request := Request_SetBody emptyRequest (bs "important").
Definition okResp : Response := Response_SetBody emptyResponse (bs "done").
Definition twoCalls : list (nat * action) :=
  [(0, CallDo 1 None postReq (Some emptyResponse) emptyRequest emptyResponse); (1, Go); (1, DoReturns (Some EOF) postReq okResp);
   (1, Go); (1, Go); (0, Go); (1, Go); (0, Go);
   (2, CallDo 1 (Some 0) postReq (Some emptyResponse) emptyRequest emptyResponse); (2, TimerFired); (3, Go); (3, DoReturns None postReq okResp);
   (2, Go); (3, Go); (2, Go)]%nat.

Definition afterTwo : world := match run twoCalls initWorld with To s => s | _ => initWorld end.

Lemma afterTwo_reachable : reachable initWorld afterTwo.
Proof. apply (run_reachable twoCalls). vm_compute. reflexivity. Qed.

(** The error of the [i]-th call and the bodies of its caller's objects. *)
Definition outcomeOf (i : nat) : option (caller * bytes * option bytes) :=
  c ← dl_calls afterTwo !! i;
  Some (cl_caller c, snd (Request_Body (ob_req (cl_obj c))), (fun r => snd (Response_Body r)) <$> ob_resp (cl_obj c)).

(** The request of the second call has lost its body with the timeout: sent once
    more, it goes out without. *)
Lemma timed_out_request_loses_its_body :
  snd (Request_Body postReq) = bs "important" /\
  outcomeOf 0 = Some (Returned (Some EOF), bs "important", Some (bs "done")) /\
  outcomeOf 1 = Some (Returned (Some ErrTimeout), [], Some []).
Proof. split_and!; vm_compute; reflexivity. Qed.

Lemma clientDoDeadline_decides_witness :
  exists c1, dl_calls afterTwo !! 1%nat = Some c1 /\ cl_caller c1 = Returned (Some ErrTimeout) /\ cl_given c1 = (postReq, Some emptyResponse) /\
    (forall t a s', step t a afterTwo = To s' ->
       exists c', dl_calls s' !! 1%nat = Some c' /\ cl_caller c' = Returned (Some ErrTimeout) /\ callersObjects c' = callersObjects c1) /\
    (forall ch, ch ∈ dl_pool afterTwo -> buffer afterTwo ch = None).
Proof.
  destruct (dl_calls afterTwo !! 1%nat) as [c1|] eqn:Ec; [|exfalso; vm_compute in Ec; discriminate]. exists c1.
  assert (cl_caller c1 = Returned (Some ErrTimeout) /\ cl_given c1 = (postReq, Some emptyResponse)) as [E1 Eg]
    by (vm_compute in Ec; injection Ec as <-; split; vm_compute; reflexivity).
  split; [reflexivity|]. split; [exact E1|]. split; [exact Eg|].
  pose proof (clientDoDeadline_decides afterTwo 1 c1 (Some ErrTimeout) afterTwo_reachable Ec E1) as T. cbv zeta in T. rewrite Eg in T.
  exact (proj2 T).
Defined.

Lemma clientDoDeadline_returns_witness :
  exists s, run (take 6 twoCalls) initWorld = To s /\
    exists sched s' c', run sched s = To s' /\ Forall (fun x => (fst x / 2 = 0)%nat /\ (snd x = Go \/ snd x = TimerFired)) sched /\
      dl_calls s' !! 0%nat = Some c' /\ isReturned c'.
Proof.
  destruct (run (take 6 twoCalls) initWorld) as [| |s] eqn:E; [vm_compute in E; done|vm_compute in E; done|].
  exists s. split; [done|]. pose proof (run_reachable _ _ _ E) as R.
  assert (exists c, dl_calls s !! 0%nat = Some c) as [c Ec] by (vm_compute in E; injection E as <-; by eexists).
  exact (clientDoDeadline_returns s 0 c R Ec).
Defined.
