(* ===== verification/ClientMap.v ===== *)
(** * client.go: the Client and its HostClients

    Client.Do picks the HostClient of the scheme and host of the URI from a map,
    makes it when it is missing, and mCleaner removes those without connections.
    First the routing of a request, then the map as a machine: the goroutines
    of Do and the cleaner, one of the two maps of a Client (http or https), hosts
    and HostClients being numbers.  Of a HostClient the machine has connsCount
    only: a request takes a connection while the count is below the limit and
    closes it at its end. *)
From Stdlib Require Import Strings.String.
From stdpp Require Import gmap fin_maps.
From S2P Require Import Prelude BytesConv Consts Args Uri Cookie HeaderScan RequestHeader ResponseHeader Bufio Body HeaderRead Http Client Machine.

(** ** Routing *)

Section Route.
Context `{HttpLib}.

(** The settings of a Client that it hands to its HostClients. *)
Record ClientConf := MkClientConf {
  cc_Name : bytes;
  cc_NoDefaultUserAgentHeader : bool;
  cc_MaxConnsPerHost : Z;
  cc_MaxConnDuration : Z;
  cc_MaxIdemponentCallAttempts : Z;
  cc_ReadBufferSize : Z;
  cc_ReadTimeout : Z;
  cc_WriteTimeout : Z;
  cc_MaxResponseBodySize : Z;
  cc_DisableHeaderNamesNormalizing : bool;
  cc_DisablePathNormalizing : bool;
  cc_RetryIf : option (Request -> bool)
}.

(** The address and the HostClient made for a host; SecureErrorLogMessage and
    Transport are not handed on. *)
Definition newHostClient (c : ClientConf) (host : bytes) (isTLS : bool) : bytes * HostClient :=
  (addMissingPort host isTLS,
   MkHostClient (cc_Name c) (cc_NoDefaultUserAgentHeader c) isTLS (cc_MaxConnDuration c) (cc_MaxIdemponentCallAttempts c)
     (cc_ReadBufferSize c) (cc_ReadTimeout c) (cc_WriteTimeout c) (cc_MaxResponseBodySize c)
     (cc_DisableHeaderNamesNormalizing c) (cc_DisablePathNormalizing c) false (cc_RetryIf c) None).

Definition errUnsupportedProtocol : error := Errorf "unsupported protocol %q. http and https are supported".

(** The key of the HostClient: which map, and the host in it. *)
Definition Client_route (x : Request) : Request * ((bool * bytes) + error) :=
  let '(x, u) := Request_URI x in
  (x, if decide (URI_Scheme u = strHTTPS) then inl (true, u_host u)
      else if decide (URI_Scheme u = strHTTP) then inl (false, u_host u)
      else inr errUnsupportedProtocol).

(** The request of Client.Do reaches a HostClient whose scheme is its own. *)
Lemma Client_route_scheme c x x' isTLS host :
  Client_route x = (x', inl (isTLS, host)) ->
  cl_IsTLS (snd (newHostClient c host isTLS)) = bool_decide (URI_Scheme (req_uri x') = strHTTPS).
Proof.
  unfold Client_route. destruct (Request_URI x) as [x1 u] eqn:E.
  assert (req_uri x1 = u) as Eu by (unfold Request_URI in E; destruct (Request_parseURI x); by injection E as <- <-).
  clear E. subst u. repeat case_decide; intros E; simplify_eq; symmetry;
    [by apply bool_decide_eq_true_2|by apply bool_decide_eq_false_2].
Qed.

End Route.

(** ** The map *)

Inductive pc :=
| Doing (host : nat)
| Chosen (hc : nat) (startCleaner : bool)
| Connected (hc : nat)
| Finished (err : option error)
| Cleaner
| CleanLoop (hosts : list nat)
| Sleeping
| Ended.

Inductive action := Go | CallDo (host : nat) | Close.

(** [cm_hcs]: the host and the connsCount of every HostClient ever made. *)
Record world := MkWorld {
  cm_MaxConnsPerHost : Z;
  cm_m : gmap nat nat;
  cm_hcs : list (nat * Z);
  cm_lock : option nat;
  cm_threads : list pc
}.

Definition set_m (m : gmap nat nat) (s : world) : world := MkWorld (cm_MaxConnsPerHost s) m (cm_hcs s) (cm_lock s) (cm_threads s).
Definition set_hcs (l : list (nat * Z)) (s : world) : world := MkWorld (cm_MaxConnsPerHost s) (cm_m s) l (cm_lock s) (cm_threads s).
Definition set_lock (o : option nat) (s : world) : world := MkWorld (cm_MaxConnsPerHost s) (cm_m s) (cm_hcs s) o (cm_threads s).
Definition set_threads (l : list pc) (s : world) : world := MkWorld (cm_MaxConnsPerHost s) (cm_m s) (cm_hcs s) (cm_lock s) l.
Definition goto (t : nat) (p : pc) (s : world) : world := set_threads (<[t := p]> (cm_threads s)) s.
Definition spawn (p : pc) (s : world) : world := set_threads (cm_threads s ++ [p]) s.

Definition section (s : world) (o : outcome world) : outcome world :=
  match cm_lock s with None => o | Some _ => Blocked end.

(** The section of Client.Do under mLock. *)
Definition stepChoose (t host : nat) (s : world) : outcome world :=
  section s
    match cm_m s !! host with
    | Some hc => To (goto t (Chosen hc false) s)
    | None =>
        let m := <[host := length (cm_hcs s)]> (cm_m s) in
        To (goto t (Chosen (length (cm_hcs s)) (bool_decide (size m = 1%nat))) (set_m m (set_hcs (cm_hcs s ++ [(host, 0)]) s)))
    end.

Definition stepAcquire (t hc : nat) (s : world) : outcome world :=
  match cm_hcs s !! hc with
  | Some (host, n) =>
      if n <? cm_MaxConnsPerHost s then To (goto t (Connected hc) (set_hcs (<[hc := (host, n + 1)]> (cm_hcs s)) s))
      else To (goto t (Finished (Some ErrNoFreeConns)) s)
  | None => Panics
  end.

Definition stepClose (t hc : nat) (s : world) : outcome world :=
  match cm_hcs s !! hc with
  | Some (host, n) => To (goto t (Finished None) (set_hcs (<[hc := (host, n - 1)]> (cm_hcs s)) s))
  | None => Panics
  end.

(** One round of the loop of mCleaner over the map. *)
Definition stepCleanLoop (t : nat) (hosts : list nat) (s : world) : outcome world :=
  if decide (cm_lock s = Some t) then
    match hosts with
    | [] => To (goto t (if decide (cm_m s = ∅) then Ended else Sleeping) (set_lock None s))
    | host :: hosts =>
        match cm_m s !! host with
        | None => To (goto t (CleanLoop hosts) s)
        | Some hc =>
            match cm_hcs s !! hc with
            | None => Panics
            | Some (_, n) => To (goto t (CleanLoop hosts) (if n =? 0 then set_m (delete host (cm_m s)) s else s))
            end
        end
    end
  else Blocked.

#[export] Instance client_machine : Machine world action := fun t a s =>
  match cm_threads s !! t with
  | None =>
      match a with
      | CallDo host => if decide (t = length (cm_threads s)) then To (spawn (Doing host) s) else Blocked
      | _ => Blocked
      end
  | Some p =>
      match p, a with
      | Doing host, Go => stepChoose t host s
      | Chosen hc true, Go => To (spawn Cleaner (goto t (Chosen hc false) s))
      | Chosen hc false, Go => stepAcquire t hc s
      | Connected hc, Close => stepClose t hc s
      | Cleaner, Go => section s (To (goto t (CleanLoop (fst <$> map_to_list (cm_m s))) (set_lock (Some t) s)))
      | CleanLoop hosts, Go => stepCleanLoop t hosts s
      | Sleeping, Go => To (goto t Cleaner s)
      | _, _ => Blocked
      end
  end.

Definition initClient (MaxConnsPerHost : Z) : world := MkWorld MaxConnsPerHost ∅ [] None [].

(** The connections to a host. *)
Definition connsTo (s : world) (host : nat) : Z :=
  foldr Z.add 0 ((fun x : nat * Z => if decide (fst x = host) then snd x else 0) <$> cm_hcs s).

(** ** One cleaner *)

(** A cleaner that runs or is about to be started. *)
Definition cleaners (p : pc) : list unit :=
  match p with Chosen _ true | Cleaner | CleanLoop _ | Sleeping => [()] | _ => [] end.

Definition refs (p : pc) : list nat := match p with Chosen hc _ | Connected hc => [hc] | _ => [] end.

Definition nclean (s : world) : nat := length (held cleaners (cm_threads s)).

Record Inv (s : world) : Prop := {
  iv_cleaners : nclean s = if bool_decide (cm_m s = ∅) && bool_decide (cm_lock s = None) then 0%nat else 1%nat;
  iv_loop : forall t hosts, cm_threads s !! t = Some (CleanLoop hosts) -> cm_lock s = Some t;
  iv_map : forall host hc, cm_m s !! host = Some hc -> (hc < length (cm_hcs s))%nat;
  iv_refs : Forall (fun hc => (hc < length (cm_hcs s))%nat) (held refs (cm_threads s))
}.

Lemma cm_Inv_init Max : Inv (initClient Max).
Proof. split; cbn; try done; constructor. Qed.

(** Thread [t] goes on at [p'] and starts [new]. *)
Lemma cm_Inv_goto s s' t p p' new :
  Inv s -> cm_threads s !! t = Some p -> cm_threads s' = <[t := p']> (cm_threads s) ++ new ->
  (nclean s + length (cleaners p') + length (held cleaners new) =
     length (cleaners p) + if bool_decide (cm_m s' = ∅) && bool_decide (cm_lock s' = None) then 0 else 1)%nat ->
  (match p' with CleanLoop _ => cm_lock s' = Some t | _ => True end) ->
  Forall (fun q => match q with CleanLoop _ => False | _ => True end) new ->
  (cm_lock s' = cm_lock s \/ cm_lock s = None \/ cm_lock s = Some t /\ (forall hosts, p' <> CleanLoop hosts)) ->
  (length (cm_hcs s) <= length (cm_hcs s'))%nat ->
  (forall host hc, cm_m s' !! host = Some hc -> (hc < length (cm_hcs s'))%nat) ->
  Forall (fun hc => (hc < length (cm_hcs s'))%nat) (refs p' ++ held refs new) ->
  Inv s'.
Proof.
  intros [I1 I2 I3 I4] Et Es Hc Hp Hn Hl Hlen Hm Hr. pose proof (lookup_lt_Some _ _ _ Et) as Ht.
  destruct (held_insert cleaners (cm_threads s) t p p' Et) as (r & E1 & E2).
  destruct (held_insert refs (cm_threads s) t p p' Et) as (r' & F1 & F2).
  split; [| |done|].
  - unfold nclean in *. rewrite Es, held_app, length_app, (Permutation_length E2), length_app.
    rewrite (Permutation_length E1), length_app in Hc. lia.
  - intros u hosts. rewrite Es. intros Eu. apply lookup_app_Some in Eu as [Eu|[_ Eu]].
    + destruct (decide (u = t)) as [->|D].
      * rewrite list_lookup_insert_eq in Eu by done. injection Eu as ->. done.
      * rewrite list_lookup_insert_ne in Eu by done. apply I2 in Eu. destruct Hl as [->|[Hl|[Hl _]]]; [done|congruence|congruence].
    + rewrite Forall_lookup in Hn. by apply Hn in Eu.
  - rewrite Es, held_app, F2. rewrite F1 in I4. rewrite !Forall_app in *. destruct I4 as [_ I4], Hr as [Hr1 Hr2]. split_and!; try done.
    eapply Forall_impl; [exact I4|]. cbn. lia.
Qed.

Definition good (o : outcome world) : Prop := match o with Blocked => True | Panics => False | To s => Inv s end.

Lemma thread_ref s t p hc : Inv s -> cm_threads s !! t = Some p -> refs p = [hc] -> (hc < length (cm_hcs s))%nat.
Proof.
  intros I Et E. pose proof (iv_refs _ I) as F. rewrite Forall_forall in F. apply F, elem_of_held.
  exists t, p. split; [done|]. rewrite E. by left.
Qed.

Lemma cm_good_section s o : (cm_lock s = None -> good o) -> good (section s o).
Proof. unfold section. destruct (cm_lock s); cbn; auto. Qed.

Ltac cm_goto I Et new :=
  cbn; eapply (cm_Inv_goto _ _ _ _ _ new I Et);
  [cbn; by rewrite ?app_nil_r|cbn; rewrite ?held_nil; try (rewrite (iv_cleaners _ I); simpl; lia)|cbn; try done|try (by repeat constructor)
  |cbn; try (by left)|cbn; rewrite ?length_insert; try done|cbn; try exact (iv_map _ I)|cbn; try (by repeat constructor)].

Lemma good_step s t p a : Inv s -> cm_threads s !! t = Some p -> good (step t a s).
Proof.
  intros I Et. pose proof (thread_ref s t p) as Hr. unfold step, client_machine. rewrite Et.
  destruct p as [host|hc []|hc|err| |hosts| |]; destruct a; try done.
  - apply cm_good_section. intros Hl. destruct (cm_m s !! host) as [hc|] eqn:Em.
    + cm_goto I Et (@nil pc). constructor; [|done]. by apply (iv_map _ I host).
    + cm_goto I Et (@nil pc).
      * rewrite (iv_cleaners _ I), map_size_insert_None, Hl by done. rewrite (bool_decide_eq_true_2 (None = None)) by done.
        rewrite (bool_decide_eq_false_2 (<[host:=length (cm_hcs s)]> (cm_m s) = ∅)) by apply insert_non_empty.
        rewrite !andb_true_r. case_bool_decide as D; case_bool_decide as D'; cbn; try lia.
        -- rewrite D, map_size_empty in D'. lia.
        -- exfalso. apply D. apply map_size_empty_iff. lia.
      * rewrite length_app. lia.
      * intros h c. rewrite length_app. destruct (decide (h = host)) as [->|D].
        -- rewrite lookup_insert_eq. intros [= <-]. simpl. lia.
        -- rewrite lookup_insert_ne by done. intros E. apply (iv_map _ I) in E. lia.
      * rewrite length_app. constructor; [simpl; lia|done].
  - cm_goto I Et [Cleaner]. constructor; [|done]. by apply Hr.
  - unfold stepAcquire. destruct (lookup_lt_is_Some_2 (cm_hcs s) hc) as [[host n] ->]; [by apply Hr|].
    destruct (_ <? _); cm_goto I Et (@nil pc).
    + intros h c. rewrite length_insert. apply (iv_map _ I).
    + rewrite length_insert. constructor; [|done]. by apply Hr.
  - unfold stepClose. destruct (lookup_lt_is_Some_2 (cm_hcs s) hc) as [[host n] ->]; [by apply Hr|]. cm_goto I Et (@nil pc).
    intros h c. rewrite length_insert. apply (iv_map _ I).
  - apply cm_good_section. intros Hl. cm_goto I Et (@nil pc); [|by right; left].
    pose proof (iv_cleaners _ I) as E. rewrite andb_false_r. destruct (held_lookup cleaners _ _ _ Et) as [r Er]. unfold nclean in E. apply Permutation_length in Er. cbn in Er.
    rewrite E in Er. unfold nclean. rewrite E. simpl. destruct (_ && _); lia.
  - unfold stepCleanLoop. case_decide as D; [|done].
    assert (nclean s = 1%nat) as E1.
    { rewrite (iv_cleaners _ I), D. rewrite (bool_decide_eq_false_2 (Some t = None)) by done. by rewrite andb_false_r. }
    destruct hosts as [|host hosts].
    + case_decide as Dm; cm_goto I Et (@nil pc); try (right; right; by split).
      * rewrite E1, !bool_decide_eq_true_2 by done. cbn. lia.
      * rewrite E1, (bool_decide_eq_false_2 (cm_m s = ∅)) by done. cbn. lia.
    + destruct (cm_m s !! host) as [hc|] eqn:Em.
      * pose proof (iv_map _ I _ _ Em) as Hh. destruct (lookup_lt_is_Some_2 (cm_hcs s) hc Hh) as [[h n] ->].
        destruct (n =? 0); cm_goto I Et (@nil pc).
        -- rewrite E1, D, (bool_decide_eq_false_2 (Some t = None)), andb_false_r by done. done.
        -- intros h' c. rewrite lookup_delete_Some. intros [_ E]. by apply (iv_map _ I h').
      * cm_goto I Et (@nil pc).
  - cm_goto I Et (@nil pc).
Qed.

Lemma cm_step_inv s t a s' : Inv s -> step t a s = To s' -> Inv s'.
Proof.
  intros I E. destruct (cm_threads s !! t) as [p|] eqn:Et.
  - pose proof (good_step s t p a I Et) as G. by rewrite E in G.
  - revert E. unfold step, client_machine. rewrite Et. destruct a as [|host|]; try done. case_decide; [|done]. intros [= <-].
    destruct I as [I1 I2 I3 I4]. split; try done.
    + unfold nclean in *. cbn. rewrite held_snoc. cbn. by rewrite app_nil_r.
    + intros u hosts. cbn. intros Eu. apply lookup_snoc_Some in Eu as [[_ Eu]|[_ ?]]; [|done]. by eapply I2.
    + cbn. rewrite held_snoc. cbn. by rewrite app_nil_r.
Qed.

Lemma cm_reachable_inv Max s : reachable (initClient Max) s -> Inv s.
Proof. apply (reachable_invariant Inv); [apply cm_Inv_init|]. intros t a s1 s2. apply cm_step_inv. Qed.

(** * Properties *)

(** In every interleaving of requests a Client has one mCleaner goroutine,
    running or about to be started, while its map holds a HostClient, and none
    when it is empty (nobody being inside the section of mLock); and no step
    uses a HostClient that does not exist. *)
Lemma Client_one_cleaner (Max : Z) (s : world) (R : reachable (initClient Max) s) (Hl : cm_lock s = None) :
  length (held cleaners (cm_threads s)) = (if bool_decide (cm_m s = ∅) then 0 else 1)%nat /\
  forall t a, step t a s <> Panics.
Proof.
  apply cm_reachable_inv in R as I. split.
  - pose proof (iv_cleaners _ I) as E. unfold nclean in E. rewrite E, Hl. by rewrite (bool_decide_eq_true_2 (None = None)), andb_true_r.
  - intros t a E. destruct (cm_threads s !! t) as [p|] eqn:Et.
    + pose proof (good_step s t p a I Et) as G. by rewrite E in G.
    + unfold step, client_machine in E. rewrite Et in E. destruct a; try done. by case_decide.
Qed.

(** The cleaner runs between the choice of a HostClient and its first
    connection; the second request makes another HostClient. *)
Definition removedTooEarly : list (nat * action) :=
  [(0, CallDo 7); (0, Go); (0, Go); (1, Go); (1, Go); (1, Go); (0, Go);
   (2, CallDo 7); (2, Go); (2, Go); (2, Go)]%nat.

Lemma Client_one_cleaner_witness :
  exists s, run removedTooEarly (initClient 1) = To s /\ cm_lock s = None /\
    length (held cleaners (cm_threads s)) = (if bool_decide (cm_m s = ∅) then 0 else 1)%nat /\
    forall t a, step t a s <> Panics.
Proof.
  destruct (run removedTooEarly (initClient 1)) as [| |s] eqn:E; [vm_compute in E; done|vm_compute in E; done|].
  exists s. split; [done|]. pose proof (run_reachable _ _ _ E) as R.
  assert (cm_lock s = None) as El by (vm_compute in E; by injection E as <-).
  split; [exact El|]. exact (Client_one_cleaner 1 s R El).
Defined.

(** MaxConnsPerHost is not a limit: mCleaner removes a HostClient that has no
    connection yet although a request has already chosen it; the next request
    for the host makes a new HostClient, and both connect. *)
Lemma Client_exceeds_MaxConnsPerHost :
  match run removedTooEarly (initClient 1) with
  | To s => connsTo s 7 = 2 /\ cm_threads s !! 0%nat = Some (Connected 0) /\ cm_threads s !! 2%nat = Some (Connected 1)
  | _ => False
  end.
Proof. vm_compute. done. Qed.
