(* ===== verification/LbClient.v ===== *)
(** * lbclient.go: the load balancing client

    The choice of the least loaded client, and the penalties of the unhealthy
    ones: a machine in which the requests of one client interleave at the atomic
    additions to its counters.  A request may be anywhere between the end of its
    DoDeadline and the timer that takes its penalty back. *)
From stdpp Require Import list_tactics.
From S2P Require Import Prelude Machine.

Definition maxPenalty : Z := 300.

(** ** get *)

(** What get reads of a client: PendingRequests and total. *)
Definition load : Type := Z * Z.

Definition lighter (a b : load) : bool := (fst a <? fst b) || ((fst a =? fst b) && (snd a <? snd b)).

(** The loop of get; [i] is the place of the next client. *)
Fixpoint getLoop (i minC : nat) (min : load) (cs : list load) : nat :=
  match cs with
  | [] => minC
  | c :: cs => if lighter c min then getLoop (S i) i c cs else getLoop (S i) minC min cs
  end.

(** [None] is the panic of init: no clients. *)
Definition LBClient_get (cs : list load) : option nat :=
  match cs with
  | [] => None
  | c :: cs => Some (getLoop 1 0 c cs)
  end.

(** ** lbClient *)

Inductive pc :=
| Requesting
| Unhealthy
| Added (m : Z)
| Penalized
| TakingBack
| Counting
| Ended.

Inductive action := Go | Request | Answer (healthy : bool) | Timer.

Record lbClient := MkLb { lb_penalty : Z; lb_total : Z; lb_threads : list pc }.

Definition goto (t : nat) (p : pc) (s : lbClient) : lbClient := MkLb (lb_penalty s) (lb_total s) (<[t := p]> (lb_threads s)).

(** atomic.AddUint32 and AddUint64. *)
Definition addPenalty (d : Z) (s : lbClient) : lbClient := MkLb ((lb_penalty s + d) mod 2 ^ 32) (lb_total s) (lb_threads s).
Definition addTotal (s : lbClient) : lbClient := MkLb (lb_penalty s) ((lb_total s + 1) mod 2 ^ 64) (lb_threads s).

(** DoDeadline after the answer; incPenalty adds one, and takes it back at once
    when the limit is passed (the request then counts as handled). *)
#[export] Instance lb_machine : Machine lbClient action := fun t a s =>
  match lb_threads s !! t, a with
  | None, Request =>
      if decide (t = length (lb_threads s)) then To (MkLb (lb_penalty s) (lb_total s) (lb_threads s ++ [Requesting])) else Blocked
  | Some Requesting, Answer healthy => To (goto t (if healthy then Counting else Unhealthy) s)
  | Some Unhealthy, Go => let s := addPenalty 1 s in To (goto t (Added (lb_penalty s)) s)
  | Some (Added m), Go => To (goto t (if maxPenalty <? m then TakingBack else Penalized) s)
  | Some TakingBack, Go => To (goto t Counting (addPenalty (2 ^ 32 - 1) s))
  | Some Counting, Go => To (goto t Ended (addTotal s))
  | Some Penalized, Timer => To (goto t Ended (addPenalty (2 ^ 32 - 1) s))
  | _, _ => Blocked
  end.

Definition lbClient_PendingRequests (pending : Z) (s : lbClient) : Z := pending + lb_penalty s.

Definition initLb : lbClient := MkLb 0 0 [].

(** ** Proofs *)

Definition lexLe (a b : load) : Prop := fst a < fst b \/ (fst a = fst b /\ snd a <= snd b).

Lemma lighter_spec a b : lighter a b = false <-> lexLe b a.
Proof. unfold lighter, lexLe. destruct a as [a1 a2], b as [b1 b2]; cbn. destruct (Z.ltb_spec a1 b1), (Z.eqb_spec a1 b1), (Z.ltb_spec a2 b2); cbn; split; intros; try done; lia. Qed.

(** The first of the lightest among those seen so far. *)
Lemma getLoop_spec all i minC min cs :
  drop i all = cs -> all !! minC = Some min -> (minC < i)%nat ->
  (forall j x, (j < i)%nat -> all !! j = Some x -> lexLe min x /\ ((j < minC)%nat -> lighter min x = true)) ->
  exists x, all !! getLoop i minC min cs = Some x /\
    forall j y, all !! j = Some y -> lexLe x y /\ ((j < getLoop i minC min cs)%nat -> lighter x y = true).
Proof.
  revert i minC min. induction cs as [|c cs IH]; intros i minC min Ed Em Hi Hs; cbn [getLoop].
  - exists min. split; [done|]. intros j y Ej. apply Hs; [|done]. apply lookup_lt_Some in Ej.
    apply (f_equal length) in Ed. rewrite length_drop in Ed. simpl in Ed. lia.
  - assert (all !! i = Some c) as Ec by (rewrite <- (Nat.add_0_r i), <- lookup_drop, Ed; done).
    assert (drop (S i) all = cs) as Ed' by (rewrite <- Nat.add_1_r, <- drop_drop, Ed; done).
    destruct (lighter c min) eqn:El.
    + apply IH; [done|done|lia|]. intros j x Hj Ej. destruct (decide (j = i)) as [->|D].
      * simplify_eq. split; [right; lia|lia].
      * destruct (Hs j x) as [Hle _]; [lia|done|]. unfold lighter, lexLe in *. destruct c as [c1 c2], min as [m1 m2], x as [x1 x2]; cbn in *.
        destruct (Z.ltb_spec c1 m1), (Z.eqb_spec c1 m1), (Z.ltb_spec c2 m2), (Z.ltb_spec c1 x1), (Z.eqb_spec c1 x1), (Z.ltb_spec c2 x2);
          cbn in *; try done; (split; [lia|]; intros _; try done; lia).
    + apply IH; [done|done|lia|]. intros j x Hj Ej. destruct (decide (j = i)) as [->|D].
      * simplify_eq. split; [by apply lighter_spec|lia].
      * apply Hs; [lia|done].
Qed.

Lemma LBClient_get_first cs :
  cs <> [] -> exists i x, LBClient_get cs = Some i /\ cs !! i = Some x /\
    forall j y, cs !! j = Some y -> lexLe x y /\ ((j < i)%nat -> lighter x y = true).
Proof.
  destruct cs as [|c cs]; [done|]. intros _. destruct (getLoop_spec (c :: cs) 1 0 c cs) as (x & E & H); [done|done|lia| |eauto].
  intros [|j] x Hj Ej; [|lia]. simplify_eq/=. split; [right; lia|lia].
Qed.

(** *** The counters *)

Definition adds (p : pc) : list unit := match p with Added _ | Penalized | TakingBack => [()] | _ => [] end.
Definition penalties (p : pc) : list unit :=
  match p with Added m => if m <=? maxPenalty then [()] else [] | Penalized => [()] | _ => [] end.

Lemma held_le (f : pc -> list unit) l : (forall p, (length (f p) <= 1)%nat) -> zlen (held f l) <= zlen l.
Proof.
  intros Hf. induction l as [|p l IH]; [done|]. change (held f (p :: l)) with (f p ++ held f l). rewrite length_app.
  specialize (Hf p). simpl. lia.
Qed.

Lemma adds_le p : (length (adds p) <= 1)%nat.
Proof. destruct p; simpl; lia. Qed.

(** The limit is kept as long as fewer than 2^32 requests were made, so that the
    counter does not wrap. *)
Record Inv (s : lbClient) : Prop := {
  iv_penalty : lb_penalty s = zlen (held adds (lb_threads s)) mod 2 ^ 32;
  iv_penalties : zlen (lb_threads s) < 2 ^ 32 -> zlen (held penalties (lb_threads s)) <= maxPenalty
}.

(** A thread goes on: what happens to the two counts. *)
Lemma held_goto s t p p' :
  lb_threads s !! t = Some p ->
  zlen (held adds (<[t:=p']> (lb_threads s))) = zlen (held adds (lb_threads s)) - zlen (adds p) + zlen (adds p') /\
  zlen (held penalties (<[t:=p']> (lb_threads s))) = zlen (held penalties (lb_threads s)) - zlen (penalties p) + zlen (penalties p') /\
  zlen (adds p) <= zlen (held adds (lb_threads s)).
Proof.
  intros Et. destruct (held_insert adds _ _ _ p' Et) as (r & E1 & E2), (held_insert penalties _ _ _ p' Et) as (r' & F1 & F2).
  apply Permutation_length in E1, E2, F1, F2. rewrite length_app in *. lia.
Qed.

Lemma lb_Inv_goto s t p p' d :
  Inv s -> lb_threads s !! t = Some p -> lb_penalty s = zlen (held adds (lb_threads s)) mod 2 ^ 32 ->
  (d mod 2 ^ 32 = (zlen (adds p') - zlen (adds p)) mod 2 ^ 32) ->
  (zlen (lb_threads s) < 2 ^ 32 -> zlen (held penalties (lb_threads s)) - zlen (penalties p) + zlen (penalties p') <= maxPenalty) ->
  Inv (goto t p' (addPenalty d s)) /\ lb_penalty (addPenalty d s) = zlen (held adds (<[t:=p']> (lb_threads s))) mod 2 ^ 32.
Proof.
  intros I Et Ep Hd Hl. destruct (held_goto s t p p' Et) as (E1 & E2 & _).
  assert (lb_penalty (addPenalty d s) = zlen (held adds (<[t:=p']> (lb_threads s))) mod 2 ^ 32) as E.
  { cbn. rewrite Ep, E1, Z.add_mod_idemp_l by done. rewrite <- Z.add_mod_idemp_r, Hd, Z.add_mod_idemp_r by done. f_equal. lia. }
  split; [|exact E]. split; [exact E|]. cbn. rewrite length_insert, E2. exact Hl.
Qed.

Lemma lb_Inv_still s t p p' total :
  Inv s -> lb_threads s !! t = Some p -> zlen (adds p') = zlen (adds p) -> (length (penalties p') <= length (penalties p))%nat ->
  Inv (MkLb (lb_penalty s) total (<[t:=p']> (lb_threads s))).
Proof.
  intros [I1 I2] Et Ha Hp. destruct (held_goto s t p p' Et) as (E1 & E2 & _).
  split; cbn; [rewrite E1, I1; f_equal; lia|]. rewrite length_insert, E2. intros H. specialize (I2 H). lia.
Qed.

Lemma lb_step_inv s t a s' : Inv s -> step t a s = To s' -> Inv s'.
Proof.
  intros I. unfold step, lb_machine. destruct (lb_threads s !! t) as [p|] eqn:Et.
  2:{ destruct a; try done. case_decide; [|done]. intros [= <-]. destruct I as [I1 I2].
      split; cbn; rewrite held_snoc, app_nil_r; [done|]. rewrite length_app. intros Hj. apply I2. lia. }
  destruct p, a; try done; intros [= <-].
  - apply (lb_Inv_still s t _ _ _ I Et); by destruct healthy.
  - apply (lb_Inv_goto s t _ _ 1 I Et (iv_penalty _ I)); [done|]. intros H. cbn [addPenalty lb_penalty penalties length].
    destruct (Z.leb_spec ((lb_penalty s + 1) mod 2 ^ 32) maxPenalty) as [L|L]; [|pose proof (iv_penalties _ I H); simpl; lia].
    rewrite (iv_penalty _ I), Z.add_mod_idemp_l in L by done.
    pose proof (held_le adds (lb_threads s) adds_le) as Hb.
    destruct (held_goto s t _ (Added 0) Et) as (E1 & _). cbn [adds length] in E1.
    pose proof (held_le adds (<[t:=Added 0]> (lb_threads s)) adds_le) as Hb'. rewrite length_insert in Hb'.
    assert (zlen (held adds (lb_threads s)) + 1 <= maxPenalty) as Hm.
    { destruct (decide (zlen (held adds (lb_threads s)) + 1 < 2 ^ 32)) as [D|D]; [rewrite Z.mod_small in L; lia|lia]. }
    assert (zlen (held penalties (lb_threads s)) <= zlen (held adds (lb_threads s))) as Hp; [|simpl; lia].
    clear. induction (lb_threads s) as [|p l IH]; [done|].
    change (held penalties (p :: l)) with (penalties p ++ held penalties l). change (held adds (p :: l)) with (adds p ++ held adds l).
    rewrite !length_app. assert (length (penalties p) <= length (adds p))%nat by (destruct p; cbn; try case_match; simpl; lia). lia.
  - apply (lb_Inv_still s t _ _ _ I Et); cbn [penalties]; destruct (Z.ltb_spec maxPenalty m), (Z.leb_spec m maxPenalty); simpl; lia.
  - apply (lb_Inv_goto s t _ _ _ I Et (iv_penalty _ I)); [done|]. cbn. intros H. pose proof (iv_penalties _ I H). lia.
  - apply (lb_Inv_goto s t _ _ _ I Et (iv_penalty _ I)); [done|]. cbn. intros H. pose proof (iv_penalties _ I H). lia.
  - apply (lb_Inv_still s t _ _ _ I Et); done.
Qed.

Lemma lb_reachable_inv s : reachable initLb s -> Inv s.
Proof. apply (reachable_invariant Inv); [by split|]. intros t a s1 s2. apply lb_step_inv. Qed.

(** * Properties *)

(** get picks the first of the least loaded clients: none has fewer pending
    requests, none with as many has handled fewer, and the clients before it are
    strictly worse. *)
Lemma LBClient_get_least (cs : list load) (Hcs : cs <> []) :
  exists i x, LBClient_get cs = Some i /\ cs !! i = Some x /\
    forall j y, cs !! j = Some y -> lexLe x y /\ ((j < i)%nat -> lighter x y = true).
Proof. by apply LBClient_get_first. Qed.

Lemma LBClient_get_least_witness :
  LBClient_get [(2, 0); (1, 7); (1, 5); (1, 5)] = Some 2%nat /\
  exists i x, LBClient_get [(2, 0); (1, 7); (1, 5); (1, 5)] = Some i /\ [(2, 0); (1, 7); (1, 5); (1, 5)] !! i = Some x /\
    forall j y, [(2, 0); (1, 7); (1, 5); (1, 5)] !! j = Some y -> lexLe x y /\ ((j < i)%nat -> lighter x y = true).
Proof. split; [reflexivity|]. by apply LBClient_get_least. Defined.

(** However the requests of a client interleave, its penalty counter is the
    number of those that have added to it and not yet taken it back (so it
    never goes below zero), and at most maxPenalty of them hold a penalty that
    stays until its timer. *)
Lemma lbClient_penalty_bounded (s : lbClient) (R : reachable initLb s) (Hn : zlen (lb_threads s) < 2 ^ 32) :
  lb_penalty s = zlen (held adds (lb_threads s)) /\ zlen (held penalties (lb_threads s)) <= maxPenalty.
Proof.
  pose proof (lb_reachable_inv s R) as I. split; [|by apply iv_penalties].
  rewrite (iv_penalty _ I), Z.mod_small; [done|]. pose proof (held_le adds (lb_threads s) adds_le). lia.
Qed.

Definition twoFailures : list (nat * action) :=
  [(0, Request); (1, Request); (0, Answer false); (1, Answer false); (1, Go); (0, Go); (0, Go); (1, Go); (1, Timer)]%nat.

Lemma lbClient_penalty_bounded_witness :
  exists s, run twoFailures initLb = To s /\ lb_penalty s = 1 /\
    lb_penalty s = zlen (held adds (lb_threads s)) /\ zlen (held penalties (lb_threads s)) <= maxPenalty.
Proof.
  destruct (run twoFailures initLb) as [| |s] eqn:E; [vm_compute in E; done|vm_compute in E; done|].
  exists s. split; [done|]. assert (lb_penalty s = 1 /\ zlen (lb_threads s) < 2 ^ 32) as [E1 E2]
    by (vm_compute in E; injection E as <-; split; vm_compute; reflexivity).
  split; [exact E1|]. exact (lbClient_penalty_bounded s (run_reachable _ _ _ E) E2).
Defined.
