(* ===== verification/UserData.v ===== *)
(** * userdata.go: the values of a request context

    A list of keys and values that is reused between requests: Reset keeps the
    storage, Set takes it up again.  A value is anything; those that are
    io.Closers are closed by Reset. *)
From Stdlib Require Import Strings.String.
From S2P Require Import Prelude.

Section UserData.
Context {V : Type}.

(** [ud_spare] is the capacity behind the live entries, with what is left in it. *)
Record userData := MkUserData { ud_live : list (bytes * V); ud_spare : list (bytes * V) }.

Fixpoint setLoop (key : bytes) (value : V) (l : list (bytes * V)) : option (list (bytes * V)) :=
  match l with
  | [] => None
  | kv :: l =>
      if decide (fst kv = key) then Some ((fst kv, value) :: l)
      else l ← setLoop key value l; Some (kv :: l)
  end.

(** [grown] is the capacity that append adds. *)
Definition userData_Set (grown : list (bytes * V)) (d : userData) (key : bytes) (value : V) : userData :=
  match setLoop key value (ud_live d) with
  | Some l => MkUserData l (ud_spare d)
  | None =>
      match ud_spare d with
      | _ :: spare => MkUserData (ud_live d ++ [(key, value)]) spare
      | [] => MkUserData (ud_live d ++ [(key, value)]) grown
      end
  end.

(** The value, or nil. *)
Fixpoint getLoop (key : bytes) (l : list (bytes * V)) : option V :=
  match l with
  | [] => None
  | kv :: l => if decide (fst kv = key) then Some (snd kv) else getLoop key l
  end.

Definition userData_Get (d : userData) (key : bytes) : option V := getLoop key (ud_live d).

(** The values that are closed, in order. *)
Definition userData_Reset (isCloser : V -> bool) (d : userData) : userData * list V :=
  (MkUserData [] (ud_live d ++ ud_spare d), filter (fun v => isCloser v = true) (snd <$> ud_live d)).

(** ** A map *)

Lemma setLoop_get key value l k :
  match setLoop key value l with
  | Some l' => getLoop k l' = (if decide (k = key) then Some value else getLoop k l) /\ fst <$> l' = fst <$> l
  | None => getLoop key l = None /\ key ∉ fst <$> l
  end.
Proof.
  induction l as [|[k0 v0] l IH]; cbn [setLoop getLoop fst]; [split; [done|apply not_elem_of_nil]|].
  destruct (decide (k0 = key)) as [->|D].
  { cbn. split; [repeat case_decide; congruence|done]. }
  destruct (setLoop key value l) as [l'|]; cbn [mbind option_bind].
  - destruct IH as [IH IH']. cbn. rewrite IH, IH'. split; [|done]. repeat case_decide; congruence.
  - destruct IH as [IH IH']. cbn. split; [done|]. rewrite elem_of_cons. naive_solver.
Qed.

Lemma getLoop_app l l' k : getLoop k (l ++ l') = match getLoop k l with Some v => Some v | None => getLoop k l' end.
Proof. induction l as [|kv l IH]; cbn; [done|]. by case_decide. Qed.

Lemma userData_Set_get grown d key value k :
  userData_Get (userData_Set grown d key value) k = if decide (k = key) then Some value else userData_Get d k.
Proof.
  unfold userData_Get, userData_Set. pose proof (setLoop_get key value (ud_live d) k) as H.
  destruct (setLoop key value (ud_live d)) as [l|]; cbn; [by destruct H|]. destruct H as [H _].
  destruct (ud_spare d); cbn; rewrite getLoop_app; cbn;
    (destruct (decide (k = key)) as [->|D]; [by rewrite H, decide_True|rewrite decide_False by done; by destruct (getLoop k (ud_live d))]).
Qed.

(** No key is stored twice. *)
Lemma userData_Set_keys grown d key value :
  NoDup (fst <$> ud_live d) -> NoDup (fst <$> ud_live (userData_Set grown d key value)).
Proof.
  intros N. unfold userData_Set. pose proof (setLoop_get key value (ud_live d) key) as H.
  destruct (setLoop key value (ud_live d)) as [l|]; cbn; [by destruct H as [_ ->]|]. destruct H as [_ H].
  destruct (ud_spare d); cbn; rewrite fmap_app; apply NoDup_app; (split; [done|]);
    (split; [|apply NoDup_singleton]); intros x Hx Hk; apply list_elem_of_singleton in Hk as ->; done.
Qed.

(** Reset forgets every key and closes every closer once. *)
Lemma userData_Reset_get isCloser d key : userData_Get (fst (userData_Reset isCloser d)) key = None.
Proof. done. Qed.

End UserData.

Arguments userData V : clear implicits.

(** * Properties *)

(** The user values are a map: from any state, whatever storage is reused,
    Get after Set gives the value just set for that key and what was there for
    every other; no key is ever stored twice; after Reset no key has a value,
    and the values that are closers have been closed, each entry once. *)
Lemma userData_map {V : Type} (isCloser : V -> bool) (grown : list (bytes * V)) (d : userData V) (key k : bytes) (value : V)
    (N : NoDup (fst <$> ud_live d)) :
  userData_Get (userData_Set grown d key value) k = (if decide (k = key) then Some value else userData_Get d k) /\
  NoDup (fst <$> ud_live (userData_Set grown d key value)) /\
  userData_Get (fst (userData_Reset isCloser d)) k = None /\
  snd (userData_Reset isCloser d) = filter (fun v => isCloser v = true) (snd <$> ud_live d).
Proof. split_and!; [apply userData_Set_get|by apply userData_Set_keys|done|done]. Qed.

Lemma userData_map_witness :
  let d := MkUserData [(bs "a", 1%nat)] [(bs "old", 7%nat)] in
  NoDup (fst <$> ud_live d) /\
  (userData_Get (userData_Set [] d (bs "b") 2%nat) (bs "a") = (if decide (bs "a" = bs "b") then Some 2%nat else userData_Get d (bs "a")) /\
   NoDup (fst <$> ud_live (userData_Set [] d (bs "b") 2%nat)) /\
   userData_Get (fst (userData_Reset Nat.odd d)) (bs "a") = None /\
   snd (userData_Reset Nat.odd d) = filter (fun v => Nat.odd v = true) (snd <$> ud_live d)).
Proof.
  assert (NoDup (fst <$> [(bs "a", 1%nat)])) as N by apply NoDup_singleton.
  split; [exact N|]. exact (userData_map Nat.odd [] (MkUserData [(bs "a", 1%nat)] [(bs "old", 7%nat)]) (bs "b") (bs "a") 2%nat N).
Defined.
