(* ===== verification/PerIP.v ===== *)
(** * peripconn.go: connections per address

    The counter behind MaxConnsPerIP: a map from addresses, as 32-bit numbers,
    to counts, the conversion of addresses, and wrapPerIPConn of server.go with
    the Close of its connections, as a machine: a step is a critical section of
    the counter. *)
From stdpp Require Import gmap list_tactics.
From S2P Require Import Prelude Machine.

(** [None]: the map has not been made yet. *)
Definition perIPConnCounter : Type := option (gmap Z Z).

Definition counterGet (m : gmap Z Z) (ip : Z) : Z := default 0 (m !! ip).

Definition perIPConnCounter_Register (cc : perIPConnCounter) (ip : Z) : perIPConnCounter * Z :=
  let m := default ∅ cc in
  let n := counterGet m ip + 1 in
  (Some (<[ip := n]> m), n).

(** [None] is a panic. *)
Definition perIPConnCounter_Unregister (cc : perIPConnCounter) (ip : Z) : option perIPConnCounter :=
  m ← cc;
  let n := counterGet m ip - 1 in
  if n <? 0 then None else Some (Some (<[ip := n]> m)).

(** net.IP: a slice of bytes, 4 of them for IPv4. *)
Definition ip2uint32 (ip : list Z) : Z :=
  match ip with
  | [a; b; c; d] => Z.lor (Z.lor (Z.lor (Z.shiftl a 24) (Z.shiftl b 16)) (Z.shiftl c 8)) d
  | _ => 0
  end.

Definition byteOf (n : Z) : Z := n mod 2 ^ 8.

Definition uint322ip (ip : Z) : list Z :=
  [byteOf (Z.shiftr ip 24); byteOf (Z.shiftr ip 16); byteOf (Z.shiftr ip 8); byteOf ip].

(** ** Connections *)

Inductive pc :=
| Accepted (ip : Z)
| Registered (ip n : Z)
| Refusing (ip : Z)
| Refused
| Plain
| Open (ip : Z)
| Closed.

Inductive action := Go | Accept (ip : Z) | Close.

#[export] Instance pc_eq_dec : EqDecision pc.
Proof. solve_decision. Defined.

Record world := MkWorld { pw_counter : perIPConnCounter; pw_conns : list pc }.

Section Server.
Context (MaxConnsPerIP : Z).

Definition goto (t : nat) (p : pc) (s : world) : world := MkWorld (pw_counter s) (<[t := p]> (pw_conns s)).

(** wrapPerIPConn; a connection of the address 0 is handed on as it is. *)
Definition wrapRegister (t : nat) (ip : Z) (s : world) : outcome world :=
  if ip =? 0 then To (goto t Plain s)
  else let '(cc, n) := perIPConnCounter_Register (pw_counter s) ip in To (goto t (Registered ip n) (MkWorld cc (pw_conns s))).

Definition wrapCheck (t : nat) (ip n : Z) (s : world) : outcome world :=
  To (goto t (if MaxConnsPerIP <? n then Refusing ip else Open ip) s).

Definition unregister (t : nat) (ip : Z) (p : pc) (s : world) : outcome world :=
  match perIPConnCounter_Unregister (pw_counter s) ip with
  | None => Panics
  | Some cc => To (goto t p (MkWorld cc (pw_conns s)))
  end.

#[export] Instance perIP_machine : Machine world action := fun t a s =>
  match pw_conns s !! t, a with
  | None, Accept ip =>
      if decide (t = length (pw_conns s)) then To (MkWorld (pw_counter s) (pw_conns s ++ [Accepted ip])) else Blocked
  | Some (Accepted ip), Go => wrapRegister t ip s
  | Some (Registered ip n), Go => wrapCheck t ip n s
  | Some (Refusing ip), Go => unregister t ip Refused s
  | Some Plain, Close => To (goto t Closed s)
  | Some (Open ip), Close => unregister t ip Closed s
  | _, _ => Blocked
  end.

End Server.

Definition initWorld : world := MkWorld None [].

(** ** Addresses there and back *)

Lemma byteOf_bits n i : 0 <= i -> Z.testbit (byteOf n) i = (i <? 8) && Z.testbit n i.
Proof.
  intros Hi. unfold byteOf. destruct (Z.ltb_spec i 8); [by rewrite Z.mod_pow2_bits_low|].
  by rewrite Z.mod_pow2_bits_high by lia.
Qed.

Lemma byte_place n k i : 0 <= k -> 0 <= i ->
  Z.testbit (Z.shiftl (byteOf (Z.shiftr n k)) k) i = (k <=? i) && (i <? k + 8) && Z.testbit n i.
Proof.
  intros Hk Hi. rewrite Z.shiftl_spec by done. destruct (Z.leb_spec k i); cbn [andb].
  - rewrite byteOf_bits, Z.shiftr_spec by lia. f_equal; [|f_equal; lia].
    destruct (Z.ltb_spec (i - k) 8), (Z.ltb_spec i (k + 8)); lia.
  - by rewrite Z.testbit_neg_r by lia.
Qed.

Lemma high_bits n k i : 0 <= k -> 0 <= n < 2 ^ k -> k <= i -> Z.testbit n i = false.
Proof. intros Hk Hn Hi. rewrite <- (Z.mod_small n (2 ^ k)) by done. by apply Z.mod_pow2_bits_high. Qed.

Lemma uint322ip_ip2uint32 n : 0 <= n < 2 ^ 32 -> ip2uint32 (uint322ip n) = n.
Proof.
  intros Hn. unfold ip2uint32, uint322ip. apply Z.bits_inj'. intros i Hi.
  rewrite !Z.lor_spec, !byte_place, byteOf_bits by lia.
  destruct (Z.leb_spec 32 i); [rewrite (high_bits n 32) by lia; by rewrite !andb_false_r|].
  destruct (Z.leb_spec 24 i), (Z.leb_spec 16 i), (Z.leb_spec 8 i), (Z.ltb_spec i (24 + 8)), (Z.ltb_spec i (16 + 8)),
    (Z.ltb_spec i (8 + 8)), (Z.ltb_spec i 8); try lia; cbn [andb orb]; by destruct (Z.testbit n i).
Qed.

Lemma lor_place v k x : 0 <= k -> 0 <= x < 2 ^ k -> Z.lor (Z.shiftl v k) x = 2 ^ k * v + x.
Proof.
  intros Hk Hx. assert (Z.land (Z.shiftl v k) x = 0) as L.
  { apply Z.bits_inj'. intros i Hi. rewrite Z.land_spec, Z.bits_0. destruct (decide (i < k)).
    - by rewrite Z.shiftl_spec_low.
    - rewrite (high_bits x k) by lia. apply andb_false_r. }
  rewrite <- Z.lxor_lor, <- Z.add_nocarry_lxor by done. rewrite Z.shiftl_mul_pow2 by lia. lia.
Qed.

Lemma ip2uint32_sum a b c d :
  0 <= b < 256 -> 0 <= c < 256 -> 0 <= d < 256 -> ip2uint32 [a; b; c; d] = ((a * 256 + b) * 256 + c) * 256 + d.
Proof.
  intros Hb Hc Hd. unfold ip2uint32. rewrite !Z.shiftl_mul_pow2 by done.
  replace (a * 2 ^ 24) with (Z.shiftl a 24) by (by rewrite Z.shiftl_mul_pow2). rewrite (lor_place a 24 (b * 2 ^ 16)) by lia.
  replace (2 ^ 24 * a + b * 2 ^ 16) with (Z.shiftl (a * 256 + b) 16) by (rewrite Z.shiftl_mul_pow2 by done; lia).
  rewrite (lor_place _ 16 (c * 2 ^ 8)) by lia.
  replace (2 ^ 16 * (a * 256 + b) + c * 2 ^ 8) with (Z.shiftl ((a * 256 + b) * 256 + c) 8) by (rewrite Z.shiftl_mul_pow2 by done; lia).
  rewrite (lor_place _ 8 d) by lia. lia.
Qed.

Lemma ip2uint32_uint322ip a b c d :
  0 <= a < 256 -> 0 <= b < 256 -> 0 <= c < 256 -> 0 <= d < 256 -> uint322ip (ip2uint32 [a; b; c; d]) = [a; b; c; d].
Proof.
  intros Ha Hb Hc Hd. rewrite ip2uint32_sum by done. unfold uint322ip, byteOf. rewrite !Z.shiftr_div_pow2 by done.
  repeat f_equal; Z.to_euclidean_division_equations; lia.
Qed.

(** ** The counts *)

Definition counted (p : pc) : list Z :=
  match p with Registered ip _ | Refusing ip | Open ip => [ip] | _ => [] end.

Section Bound.
Context (MaxConnsPerIP : Z).

(** The connections that are, or will be, served. *)
Definition admitted (p : pc) : list Z :=
  match p with
  | Registered ip n => if n <=? MaxConnsPerIP then [ip] else []
  | Open ip => [ip]
  | _ => []
  end.

Definition occurs (ip : Z) (l : list Z) : Z := zlen (filter (fun x => x = ip) l).

Lemma occurs_app ip l l' : occurs ip (l ++ l') = occurs ip l + occurs ip l'.
Proof. unfold occurs. rewrite filter_app, length_app. lia. Qed.

Lemma occurs_perm ip l l' : l ≡ₚ l' -> occurs ip l = occurs ip l'.
Proof. intros E. unfold occurs. by rewrite (Permutation_length (filter_Permutation _ _ _ E)). Qed.

Lemma occurs_one ip x : occurs ip [x] = if decide (x = ip) then 1 else 0.
Proof. unfold occurs. rewrite filter_cons. by case_decide. Qed.

Lemma occurs_nil ip : occurs ip [] = 0.
Proof. done. Qed.

Lemma occurs_nonneg ip l : 0 <= occurs ip l.
Proof. unfold occurs. lia. Qed.

Record Inv (s : world) : Prop := {
  iv_count : forall ip, counterGet (default ∅ (pw_counter s)) ip = occurs ip (held counted (pw_conns s));
  iv_nil : pw_counter s = None -> held counted (pw_conns s) = [];
  iv_limit : forall ip, occurs ip (held admitted (pw_conns s)) <= Z.max 0 MaxConnsPerIP
}.

Lemma admitted_le ip l : occurs ip (held admitted l) <= occurs ip (held counted l).
Proof.
  induction l as [|p l IH]; [done|]. change (held admitted (p :: l)) with (admitted p ++ held admitted l).
  change (held counted (p :: l)) with (counted p ++ held counted l). rewrite !occurs_app.
  assert (occurs ip (admitted p) <= occurs ip (counted p)); [|lia].
  destruct p as [i|i n|i| | |i|]; cbn [admitted counted]; try lia; [destruct (n <=? MaxConnsPerIP); [lia|]|]; apply occurs_nonneg.
Qed.

Lemma served_le ip l : zlen (filter (fun p => p = Open ip) l) <= occurs ip (held admitted l).
Proof.
  induction l as [|p l IH]; [done|]. change (held admitted (p :: l)) with (admitted p ++ held admitted l). rewrite occurs_app, filter_cons.
  pose proof (occurs_nonneg ip (admitted p)). case_decide as D; [subst|simpl in *; lia].
  cbn [admitted]. rewrite occurs_one, decide_True by done. simpl in *. lia.
Qed.

Lemma occurs_goto s t p p' ip :
  pw_conns s !! t = Some p ->
  occurs ip (held counted (<[t:=p']> (pw_conns s))) = occurs ip (held counted (pw_conns s)) - occurs ip (counted p) + occurs ip (counted p') /\
  occurs ip (held admitted (<[t:=p']> (pw_conns s))) = occurs ip (held admitted (pw_conns s)) - occurs ip (admitted p) + occurs ip (admitted p').
Proof.
  intros Et. destruct (held_insert counted _ _ _ p' Et) as (r & E1 & E2), (held_insert admitted _ _ _ p' Et) as (r' & F1 & F2).
  rewrite (occurs_perm _ _ _ E1), (occurs_perm _ _ _ E2), (occurs_perm _ _ _ F1), (occurs_perm _ _ _ F2), !occurs_app. lia.
Qed.

Lemma counterGet_insert m ip n k : counterGet (<[ip := n]> m) k = if decide (ip = k) then n else counterGet m k.
Proof. unfold counterGet. case_decide; [subst; by rewrite lookup_insert_eq|by rewrite lookup_insert_ne]. Qed.

(** A step that leaves the counter. *)
Lemma ip_Inv_still s t p p' :
  Inv s -> pw_conns s !! t = Some p -> counted p' = counted p -> (forall ip, occurs ip (admitted p') <= occurs ip (admitted p)) ->
  Inv (goto t p' s).
Proof.
  intros [I1 I2 I3] Et Ec Ea. split; cbn.
  - intros ip. rewrite I1. destruct (occurs_goto s t p p' ip Et) as [-> _]. rewrite Ec. lia.
  - intros E. destruct (held_insert counted _ _ _ p' Et) as (r & E1 & E2). rewrite Ec, <- E1, (I2 E) in E2.
    by apply Permutation_nil_r in E2.
  - intros ip. destruct (occurs_goto s t p p' ip Et) as [_ ->]. specialize (I3 ip). specialize (Ea ip). lia.
Qed.

Lemma Inv_register s t ip :
  Inv s -> pw_conns s !! t = Some (Accepted ip) ->
  let '(cc, n) := perIPConnCounter_Register (pw_counter s) ip in Inv (goto t (Registered ip n) (MkWorld cc (pw_conns s))).
Proof.
  intros [I1 I2 I3] Et. cbn. pose proof (I1 ip) as Hn. rewrite Hn. split; cbn; [|done|].
  - intros k. rewrite counterGet_insert, I1. destruct (occurs_goto s t _ (Registered ip (occurs ip (held counted (pw_conns s)) + 1)) k Et) as [-> _].
    cbn [counted]. rewrite occurs_one, occurs_nil. case_decide; [subst|]; lia.
  - intros k. destruct (occurs_goto s t _ (Registered ip (occurs ip (held counted (pw_conns s)) + 1)) k Et) as [_ ->].
    cbn [admitted]. pose proof (admitted_le k (pw_conns s)) as L. specialize (I3 k).
    destruct (Z.leb_spec (occurs ip (held counted (pw_conns s)) + 1) MaxConnsPerIP) as [Lm|Lm]; rewrite occurs_nil; [|lia].
    rewrite occurs_one. case_decide; [subst|]; lia.
Qed.

Lemma Inv_unregister s t ip p p' :
  Inv s -> pw_conns s !! t = Some p -> counted p = [ip] -> counted p' = [] -> admitted p' = [] ->
  match unregister t ip p' s with Blocked => False | Panics => False | To s' => Inv s' end.
Proof.
  intros [I1 I2 I3] Et Ec Ec' Ea'. unfold unregister, perIPConnCounter_Unregister.
  destruct (held_lookup counted _ _ _ Et) as [r Er]. rewrite Ec in Er.
  destruct (pw_counter s) as [m|] eqn:Em; [|rewrite (I2 eq_refl) in Er; by apply Permutation_nil_cons in Er].
  cbn [mbind option_bind]. pose proof (I1 ip) as Hn. cbn [default] in *. unfold default in *. cbn in Hn.
  assert (1 <= occurs ip (held counted (pw_conns s))) as H1.
  { rewrite (occurs_perm _ _ _ Er). change (ip :: r) with ([ip] ++ r). rewrite occurs_app, occurs_one, decide_True by done.
    pose proof (occurs_nonneg ip r). lia. }
  rewrite Hn. destruct (Z.ltb_spec (occurs ip (held counted (pw_conns s)) - 1) 0); [lia|]. split; cbn; [|done|].
  - intros k. rewrite counterGet_insert. destruct (occurs_goto s t p p' k Et) as [-> _]. rewrite Ec, Ec', occurs_one, occurs_nil.
    specialize (I1 k). cbn in I1. rewrite I1. case_decide; [subst|]; lia.
  - intros k. destruct (occurs_goto s t p p' k Et) as [_ ->]. rewrite Ea'. pose proof (occurs_nonneg k (admitted p)).
    specialize (I3 k). rewrite occurs_nil. lia.
Qed.

Lemma ip_step_good s t a : Inv s ->
  match step (Machine := perIP_machine MaxConnsPerIP) t a s with Blocked => True | Panics => False | To s' => Inv s' end.
Proof.
  intros I. unfold step, perIP_machine. destruct (pw_conns s !! t) as [p|] eqn:Et.
  2:{ destruct a as [|ip|]; try done. case_decide; [|done]. destruct I as [I1 I2 I3].
      split; cbn; rewrite ?held_snoc, ?app_nil_r; done. }
  destruct p as [ip|ip n|ip| | |ip|], a as [|ip'|]; try done.
  - unfold wrapRegister. destruct (Z.eqb_spec ip 0); [by apply (ip_Inv_still s t _ _ I Et)|].
    apply (Inv_register s t ip I Et).
  - unfold wrapCheck. apply (ip_Inv_still s t _ _ I Et); [by destruct (MaxConnsPerIP <? n)|].
    intros k. cbn [admitted]; destruct (Z.ltb_spec MaxConnsPerIP n), (Z.leb_spec n MaxConnsPerIP); cbn [admitted]; lia.
  - pose proof (Inv_unregister s t ip _ Refused I Et) as U. destruct (unregister t ip Refused s); auto.
  - by apply (ip_Inv_still s t _ _ I Et).
  - pose proof (Inv_unregister s t ip _ Closed I Et) as U. destruct (unregister t ip Closed s); auto.
Qed.

Lemma ip_reachable_inv s : reachable (H := perIP_machine MaxConnsPerIP) initWorld s -> Inv s.
Proof.
  apply (reachable_invariant (H := perIP_machine MaxConnsPerIP) Inv).
  - split; [done|done|]. intros ip. change (occurs ip [] <= Z.max 0 MaxConnsPerIP). rewrite occurs_nil. lia.
  - intros t a s1 s2 I E. pose proof (ip_step_good s1 t a I) as G. by rewrite E in G.
Qed.

End Bound.

(** * Properties *)

(** C28. However connections come and go, the counter of an address is the number
    of its connections that were registered and not yet unregistered, at most
    MaxConnsPerIP of them are served, and Unregister never panics. *)
Theorem perIP_bounded (MaxConnsPerIP : Z) (s : world) (ip : Z) (R : reachable (H := perIP_machine MaxConnsPerIP) initWorld s) :
  counterGet (default ∅ (pw_counter s)) ip = occurs ip (held counted (pw_conns s)) /\
  zlen (filter (fun p => p = Open ip) (pw_conns s)) <= Z.max 0 MaxConnsPerIP /\
  forall t a, step (Machine := perIP_machine MaxConnsPerIP) t a s <> Panics.
Proof.
  apply ip_reachable_inv in R as I. split_and!; [apply (iv_count _ _ I)| |].
  - etransitivity; [|apply (iv_limit _ _ I ip)]. apply served_le.
  - intros t a E. pose proof (ip_step_good MaxConnsPerIP s t a I) as G. by rewrite E in G.
Qed.

(** Two connections of one address with a limit of one. *)
Definition twoConns : list (nat * action) :=
  [(0, Accept 7); (1, Accept 7); (0, Go); (1, Go); (1, Go); (0, Go)]%nat.

Lemma perIP_bounded_witness :
  exists s, run (H := perIP_machine 1) twoConns initWorld = To s /\ pw_conns s = [Open 7; Refusing 7] /\
    counterGet (default ∅ (pw_counter s)) 7 = occurs 7 (held counted (pw_conns s)) /\
    zlen (filter (fun p => p = Open 7) (pw_conns s)) <= Z.max 0 1 /\
    forall t a, step (Machine := perIP_machine 1) t a s <> Panics.
Proof.
  destruct (run (H := perIP_machine 1) twoConns initWorld) as [| |s] eqn:E; [vm_compute in E; done|vm_compute in E; done|].
  exists s. split; [done|]. pose proof (run_reachable (H := perIP_machine 1) _ _ _ E) as R.
  split; [by vm_compute in E; injection E as <-|]. exact (perIP_bounded 1 s 7 R).
Defined.

(** Addresses survive the conversion to a number and back, both ways. *)
Lemma ip2uint32_roundtrip (n a b c d : Z) (Hn : 0 <= n < 2 ^ 32)
    (Ha : 0 <= a < 256) (Hb : 0 <= b < 256) (Hc : 0 <= c < 256) (Hd : 0 <= d < 256) :
  ip2uint32 (uint322ip n) = n /\ uint322ip (ip2uint32 [a; b; c; d]) = [a; b; c; d].
Proof. split; [by apply uint322ip_ip2uint32|by apply ip2uint32_uint322ip]. Qed.

Lemma ip2uint32_roundtrip_witness :
  (0 <= 3232235777 < 2 ^ 32 /\ ip2uint32 [192; 168; 1; 1] = 3232235777) /\
  ip2uint32 (uint322ip 3232235777) = 3232235777 /\ uint322ip (ip2uint32 [192; 168; 1; 1]) = [192; 168; 1; 1].
Proof. split; [split; [lia|reflexivity]|]. apply (ip2uint32_roundtrip 3232235777 192 168 1 1); lia. Defined.
