(* ===== verification/Streaming.v ===== *)
(** * streaming.go and http.go: request bodies handed to the handler as a stream

    With StreamRequestBody the server calls the handler when the head and at
    most 8 KB of the body have been read; the rest is read through a
    requestStream, from the connection's bufio.Reader.  That reader is shared
    with the server's loop: while a stream exists the model keeps it inside the
    stream, and the loop takes it back from there. *)
From Stdlib Require Import Strings.String.
From S2P Require Import Prelude BytesConv Consts Args Uri Cookie HeaderScan RequestHeader ResponseHeader Bufio Body HeaderRead Http.

(** [qs_prefetched] and [qs_index] are the bytes.Reader with its position. *)
Record requestStream := MkRequestStream {
  qs_prefetched : bytes;
  qs_index : nat;
  qs_reader : reader;
  qs_totalBytesRead : Z;
  qs_contentLength : Z;
  qs_chunkLeft : Z
}.

Definition set_qs_reader (r : reader) (x : requestStream) : requestStream :=
  MkRequestStream (qs_prefetched x) (qs_index x) r (qs_totalBytesRead x) (qs_contentLength x) (qs_chunkLeft x).
Definition set_qs_chunkLeft (n : Z) (x : requestStream) : requestStream :=
  MkRequestStream (qs_prefetched x) (qs_index x) (qs_reader x) (qs_totalBytesRead x) (qs_contentLength x) n.

(** [p] has been read by the bufio.Reader, which is now [r]. *)
Definition qs_readBytes (p : bytes) (r : reader) (x : requestStream) : requestStream :=
  MkRequestStream (qs_prefetched x) (qs_index x) r (int64 (qs_totalBytesRead x + zlen p)) (qs_contentLength x)
    (qs_chunkLeft x).

(** bytes.Reader.Read with room for [k] bytes. *)
Definition prefetchedRead (x : requestStream) (k : nat) : requestStream * bytes * option error :=
  if decide (length (qs_prefetched x) <= qs_index x)%nat then (x, [], Some EOF)
  else
    let p := take k (drop (qs_index x) (qs_prefetched x)) in
    (MkRequestStream (qs_prefetched x) (qs_index x + length p) (qs_reader x) (int64 (qs_totalBytesRead x + zlen p))
       (qs_contentLength x) (qs_chunkLeft x), p, None).

(** bufio.Reader.Read into [p[:k]]; nothing is read into an empty slice, and a
    negative bound panics. *)
Definition sliceRead (r : reader) (k : Z) : option ((bytes + error) * reader) :=
  if k <? 0 then None
  else if k =? 0 then Some (inl [], r)
  else Some (bufRead r (Z.to_nat k)).

(** The chunked body: the size of the next chunk, when none is left over. *)
Definition requestStream_nextChunk (x : requestStream) : requestStream * option error :=
  if qs_chunkLeft x =? 0 then
    match parseChunkSize (qs_reader x) with
    | (_, Some err, r) => (set_qs_reader r x, Some err)
    | (chunkSize, None, r) =>
        if chunkSize =? 0 then
          let '(err, r) := readCrLf r in
          (set_qs_reader r x, Some (default EOF err))
        else (set_qs_chunkLeft chunkSize (set_qs_reader r x), None)
    end
  else (x, None).

Definition requestStream_readChunk (x : requestStream) (k : Z) : option (requestStream * bytes * option error) :=
  let bytesToRead := if qs_chunkLeft x <? k then qs_chunkLeft x else k in
  '(res, r) ← sliceRead (qs_reader x) bytesToRead;
  match res with
  | inr err => Some (set_qs_reader r x, [], Some (if decide (err = EOF) then ErrUnexpectedEOF else err))
  | inl p =>
      let x := set_qs_chunkLeft (qs_chunkLeft x - zlen p) (qs_readBytes p r x) in
      if qs_chunkLeft x =? 0 then
        let '(err, r) := readCrLf (qs_reader x) in Some (set_qs_reader r x, p, err)
      else Some (x, p, None)
  end.

(** The body of known length: the prefetched bytes, then the reader's. *)
Definition requestStream_readFixed (x : requestStream) (k : Z) : option (requestStream * bytes * option error) :=
  if qs_totalBytesRead x =? qs_contentLength x then Some (x, [], Some EOF)
  else
    let prefetchedSize := zlen (qs_prefetched x) in
    if qs_totalBytesRead x <? prefetchedSize then
      let left := prefetchedSize - qs_totalBytesRead x in
      let k := if left <? k then left else k in
      let '(x, p, err) := prefetchedRead x (Z.to_nat k) in
      Some (x, p, if zlen p =? qs_contentLength x then Some EOF else err)
    else
      let left := qs_contentLength x - qs_totalBytesRead x in
      let k := if left <? k then left else k in
      '(res, r) ← sliceRead (qs_reader x) k;
      match res with
      | inr err => Some (set_qs_reader r x, [], Some err)
      | inl p =>
          let x := qs_readBytes p r x in
          Some (x, p, if qs_totalBytesRead x =? qs_contentLength x then Some EOF else None)
      end.

(** Read into a slice of [k] bytes; [None] is a panic. *)
Definition requestStream_Read (x : requestStream) (k : Z) : option (requestStream * bytes * option error) :=
  if qs_contentLength x =? -1 then
    match requestStream_nextChunk x with
    | (x, Some err) => Some (x, [], Some err)
    | (x, None) => requestStream_readChunk x k
    end
  else requestStream_readFixed x k.

(** [pooled] is what requestStreamPool hands out. *)
Definition acquireRequestStream (pooled : requestStream) (b : bytes) (r : reader) (contentLength : Z) : requestStream :=
  MkRequestStream b 0 r (qs_totalBytesRead pooled) contentLength (qs_chunkLeft pooled).

Definition emptyRequestStream (r : reader) : requestStream := MkRequestStream [] 0 r 0 0 0.

(** What goes back to the pool, with nil instead of the reader. *)
Definition releaseRequestStream (x : requestStream) : requestStream :=
  MkRequestStream [] 0 (newReader 0 (MkSource [] EOF)) 0 (qs_contentLength x) 0.

(** ** http.go *)

Section Streaming.
Context `{HttpLib}.

(** The result carries the reader or the stream that has taken it. *)
Definition Request_ContinueReadBodyStream (pooled : requestStream) (x : Request) (r : reader) (maxBodySize : Z)
    (preParse : option bool) : option (Request * (reader + requestStream) * option error) :=
  let contentLength := RequestHeader_realContentLength (req_Header x) in
  let boundary := default [] (RequestHeader_MultipartFormBoundary (req_Header x)) in
  let parses := (0 <? contentLength) && default true preParse in
  let x := if parses then set_req_multipartFormBoundary boundary x else x in
  if parses && bool_decide (boundary <> []) &&
     bool_decide (default [] (RequestHeader_peek (req_Header x) strContentEncoding) = [])
  then
    match readMultipartForm r boundary contentLength defaultMaxInMemoryFileSize with
    | (inl f, r) => Some (set_req_multipartForm (Some f) x, inl r, None)
    | (inr err, r) => Some (Request_Reset x, inl r, Some err)
    end
  else if contentLength =? -2 then
    h ← RequestHeader_SetContentLength (req_Header x) 0; Some (set_req_Header h x, inl r, None)
  else
    let '(x, bodyBuf) := Request_bodyBuffer x in
    '(r, b, err) ← readBodyWithStreaming r contentLength maxBodySize (bufReset bodyBuf);
    let x := set_req_body (Some b) x in
    match err with
    | Some err =>
        if decide (err = ErrBodyTooLarge) then
          h ← RequestHeader_SetContentLength (req_Header x) contentLength;
          Some (set_req_Header h x, inr (acquireRequestStream pooled (sl b) r contentLength), None)
        else if decide (err = errChunkedStream) then Some (x, inr (acquireRequestStream pooled (sl b) r (-1)), None)
        else Some (Request_Reset x, inl r, Some err)
    | None =>
        h ← RequestHeader_SetContentLength (req_Header x) contentLength;
        Some (set_req_Header h x, inr (acquireRequestStream pooled (sl b) r contentLength), None)
    end.

Definition Request_readBodyStream (pooled : requestStream) (x : Request) (r : reader) (maxBodySize : Z)
    (getOnly preParse : bool) : option (Request * (reader + requestStream) * option error) :=
  if getOnly && negb (RequestHeader_IsGet (req_Header x)) then Some (x, inl r, Some ErrGetOnly)
  else if Request_MayContinue x then Some (x, inl r, None)
  else Request_ContinueReadBodyStream pooled x r maxBodySize (Some preParse).

End Streaming.

(** ** Reading a stream to its end *)

(** A handler's Read calls into slices of the given sizes, until one returns an
    error. *)
Fixpoint readSizes (ks : list Z) (x : requestStream) (got : bytes) : option (requestStream * bytes * option error) :=
  match ks with
  | [] => Some (x, got, None)
  | k :: ks =>
      '(x, p, err) ← requestStream_Read x k;
      match err with
      | Some err => Some (x, got ++ p, Some err)
      | None => readSizes ks x (got ++ p)
      end
  end.

(** A stream to which every Read gives the next bytes of [todo], and io.EOF with
    or after the last of them: [I todo x] is what one Read keeps. *)
Section ReadToEnd.
Context (I : bytes -> requestStream -> Prop).
Context (Iread : forall todo x k, I todo x -> 0 < k ->
  exists x' p todo' err, requestStream_Read x k = Some (x', p, err) /\ todo = p ++ todo' /\ I todo' x' /\
    (err = None /\ p <> [] \/ err = Some EOF /\ todo' = [])).

Lemma readSizes_spec ks todo x got :
  I todo x -> Forall (fun k => 0 < k) ks -> (length todo < length ks)%nat ->
  exists x', readSizes ks x got = Some (x', got ++ todo, Some EOF) /\ I [] x'.
Proof.
  revert todo x got. induction ks as [|k ks IH]; intros todo x got Hi F Hl; [simpl in Hl; lia|].
  apply Forall_cons in F as [Hk F]. cbn [readSizes].
  destruct (Iread todo x k Hi Hk) as (x1 & p & todo1 & err & -> & -> & H1 & [[-> Hp]|[-> ->]]); cbn [mbind option_bind].
  - rewrite app_assoc. apply IH; [done..|]. rewrite length_app in Hl. destruct p; [done|]. simpl in Hl. lia.
  - exists x1. by rewrite app_nil_r.
Qed.
End ReadToEnd.

(** Of a body of known length [todo] is still to come, then [rest]. *)
Record fixedStream (rest todo : bytes) (x : requestStream) : Prop := {
  fs_left : qs_contentLength x = qs_totalBytesRead x + zlen todo;
  fs_total : 0 <= qs_totalBytesRead x;
  fs_max : qs_contentLength x <= maxInt;
  fs_index : Z.of_nat (qs_index x) = Z.min (qs_totalBytesRead x) (zlen (qs_prefetched x));
  fs_prefetched : zlen (qs_prefetched x) <= qs_contentLength x;
  fs_bytes : drop (qs_index x) (qs_prefetched x) ++ stream (qs_reader x) = todo ++ rest;
  fs_wf : wfReader (qs_reader x)
}.

Lemma readFixed_prefetched rest todo x k :
  fixedStream rest todo x -> 0 < k -> qs_totalBytesRead x < zlen (qs_prefetched x) ->
  exists p todo', let k' := Z.min k (zlen (qs_prefetched x) - qs_totalBytesRead x) in
    prefetchedRead x (Z.to_nat k') = (MkRequestStream (qs_prefetched x) (qs_index x + length p) (qs_reader x)
      (qs_totalBytesRead x + zlen p) (qs_contentLength x) (qs_chunkLeft x), p, None) /\
    p <> [] /\ todo = p ++ todo' /\
    fixedStream rest todo' (MkRequestStream (qs_prefetched x) (qs_index x + length p) (qs_reader x)
      (qs_totalBytesRead x + zlen p) (qs_contentLength x) (qs_chunkLeft x)).
Proof.
  intros [Hl Ht Hm Hi Hp Hb Hw] Hk Hlt. cbv zeta. unfold prefetchedRead. rewrite decide_False by lia.
  set (p := take _ _).
  assert (zlen p = Z.min k (zlen (qs_prefetched x) - qs_totalBytesRead x)) as Lp.
  { subst p. rewrite length_take, length_drop. lia. }
  assert (length p <= length todo)%nat by lia.
  assert (todo = p ++ drop (length p) todo) as Ed.
  { rewrite <- (take_drop (length p) todo) at 1. f_equal. apply (f_equal (take (length p))) in Hb.
    rewrite take_app_le in Hb by (subst p; rewrite length_take; lia). rewrite take_app_le in Hb by lia.
    rewrite <- Hb. subst p. rewrite length_take, length_drop. f_equal. lia. }
  exists p, (drop (length p) todo). rewrite int64_small by (unfold maxInt in *; lia).
  split; [done|]. split; [intros E; rewrite E in Lp; simpl in Lp; lia|]. split; [done|].
  apply (f_equal (@length _)) in Ed as El. rewrite length_app in El.
  split; cbn; try lia; [|done].
  apply (f_equal (drop (length p))) in Hb. rewrite drop_app_le in Hb by (subst p; rewrite length_take; lia).
  rewrite drop_app_le in Hb by lia. rewrite <- Hb, drop_drop. done.
Qed.

Lemma requestStream_readFixed_spec rest todo x k :
  fixedStream rest todo x -> 0 < k ->
  exists x' p todo' err, requestStream_Read x k = Some (x', p, err) /\ todo = p ++ todo' /\ fixedStream rest todo' x' /\
    (err = None /\ p <> [] \/ err = Some EOF /\ todo' = []).
Proof.
  intros F Hk. pose proof F as [Hl Ht Hm Hi Hp Hb Hw]. unfold requestStream_Read, requestStream_readFixed.
  destruct (Z.eqb_spec (qs_contentLength x) (-1)); [lia|].
  destruct (Z.eqb_spec (qs_totalBytesRead x) (qs_contentLength x)) as [D|D].
  { assert (todo = []) as -> by (destruct todo; [done|simpl in Hl; lia]).
    exists x, [], [], (Some EOF). split_and!; try done. by right. }
  assert (todo <> []) as Hne by (intros ->; simpl in Hl; lia).
  destruct (Z.ltb_spec (qs_totalBytesRead x) (zlen (qs_prefetched x))) as [L|L].
  - destruct (readFixed_prefetched rest todo x k F Hk L) as (p & todo' & E & Hpne & -> & F'). cbv zeta in E.
    set (left := zlen (qs_prefetched x) - qs_totalBytesRead x) in *.
    assert ((if left <? k then left else k) = Z.min k left) as -> by (destruct (Z.ltb_spec left k); lia).
    cbv zeta. rewrite E. rewrite length_app in Hl. do 4 eexists. split; [reflexivity|]. split; [done|]. split; [exact F'|].
    cbn [qs_contentLength]. destruct (Z.eqb_spec (zlen p) (qs_contentLength x)); [right|left; done]. split; [done|]. apply nil_length_inv. lia.
  - cbv zeta. set (left := qs_contentLength x - qs_totalBytesRead x).
    assert ((if left <? k then left else k) = Z.min k left) as -> by (destruct (Z.ltb_spec left k); lia).
    assert (zlen todo = left) as Hleft by lia. assert (0 < left) by lia.
    unfold sliceRead. destruct (Z.ltb_spec (Z.min k left) 0); [lia|]. destruct (Z.eqb_spec (Z.min k left) 0); [lia|].
    rewrite drop_ge in Hb by lia. cbn [app] in Hb.
    pose proof (bufRead_spec (qs_reader x) (Z.to_nat (Z.min k left)) Hw ltac:(lia)) as S. rewrite Hb in S.
    destruct todo as [|c todo]; [done|]. cbn [app] in S. destruct S as (p & r' & -> & Hpne & Lp & E & S).
    cbn [mbind option_bind]. rewrite (app_comm_cons todo rest c) in E.
    assert (exists todo', c :: todo = p ++ todo' /\ stream r' = todo' ++ rest) as (todo' & Et & Er).
    { exists (drop (length p) (c :: todo)). split.
      - rewrite <- (take_drop (length p) (c :: todo)) at 1. f_equal. apply (f_equal (take (length p))) in E.
        rewrite take_app_exact, take_app_le in E by lia. done.
      - apply (f_equal (drop (length p))) in E. rewrite drop_app_exact, drop_app_le in E by lia. done. }
    rewrite Et in *. rewrite length_app in Hl. unfold qs_readBytes. rewrite int64_small by (unfold maxInt in *; lia).
    assert (fixedStream rest todo' (MkRequestStream (qs_prefetched x) (qs_index x) r' (qs_totalBytesRead x + zlen p)
      (qs_contentLength x) (qs_chunkLeft x))) as F'.
    { split; cbn; try lia; [|by eapply sameSource_wf]. by rewrite drop_ge by lia. }
    do 4 eexists. split; [reflexivity|]. split; [done|]. split; [exact F'|]. cbn [qs_totalBytesRead qs_contentLength].
    destruct (Z.eqb_spec (qs_totalBytesRead x + zlen p) (qs_contentLength x)); [right|left; done].
    split; [done|]. apply nil_length_inv. lia.
Qed.

(** What writeBodyChunked writes for [chunks]. *)
Inductive chunkText : list bytes -> bytes -> Prop :=
| chunkText_nil d : chunkDigits 0 d -> chunkText [] (d ++ strCRLF ++ strCRLF)
| chunkText_cons b chunks d t :
    b <> [] -> chunkDigits (zlen b) d -> chunkText chunks t -> chunkText (b :: chunks) (d ++ strCRLF ++ b ++ strCRLF ++ t).

Lemma writeChunk_text w b : zlen b < 2 ^ 60 -> exists d, chunkDigits (zlen b) d /\ writeChunk w b = Some (w ++ d ++ strCRLF ++ b ++ strCRLF).
Proof.
  intros Hl. destruct (writeHexInt_spec w (zlen b) ltac:(lia)) as (d & Ew & Hd). exists d. split; [done|].
  unfold writeChunk. rewrite Ew. cbn [mbind option_bind]. by rewrite <- app_assoc.
Qed.

Lemma writeBodyChunked_text chunks w :
  Forall (fun b => b <> []) chunks -> zlen (concat chunks) < 2 ^ 60 ->
  exists t, chunkText chunks t /\ writeChunksLoop w chunks EOF = (w ++ t, Some None).
Proof.
  intros F. revert w. induction F as [|b chunks Hb F IH]; intros w Hl.
  - destruct (writeChunk_text w []) as (d & Hd & E); [simpl; lia|]. eexists. split; [by constructor|].
    cbn [writeChunksLoop]. rewrite decide_True by done. by rewrite E.
  - simpl in Hl. rewrite length_app in Hl. destruct (writeChunk_text w b) as (d & Hd & E); [lia|].
    destruct (IH (w ++ d ++ strCRLF ++ b ++ strCRLF)) as (t & Ht & Et); [lia|].
    eexists. split; [by eapply chunkText_cons|]. cbn [writeChunksLoop]. rewrite E, Et. destruct b; [done|].
    by rewrite <- !app_assoc.
Qed.

(** Of a chunked body [todo] is still to come, then [rest]. *)
Definition chunkedStream (rest todo : bytes) (x : requestStream) : Prop :=
  qs_contentLength x = -1 /\ wfReader (qs_reader x) /\
  ((exists chunks t, todo = concat chunks /\ qs_chunkLeft x = 0 /\ chunkText chunks t /\ stream (qs_reader x) = t ++ rest) \/
   (exists b chunks t, todo = b ++ concat chunks /\ b <> [] /\ qs_chunkLeft x = zlen b /\ chunkText chunks t /\
      stream (qs_reader x) = b ++ strCRLF ++ t ++ rest)).

Lemma parseChunkSize_text x n d s :
  wfReader (qs_reader x) -> stream (qs_reader x) = d ++ strCRLF ++ s -> chunkDigits n d -> qs_chunkLeft x = 0 ->
  exists r, wfReader r /\ stream r = s /\
    requestStream_nextChunk x =
      if n =? 0 then let '(err, r) := readCrLf r in (set_qs_reader r x, Some (default EOF err))
      else (set_qs_chunkLeft n (set_qs_reader r x), None).
Proof.
  intros W E Hd H0. destruct (parseChunkSize_spec (qs_reader x) n d s W E Hd) as (r & Er & Es & S). exists r.
  split; [by eapply sameSource_wf|]. split; [done|]. unfold requestStream_nextChunk. by rewrite H0, Er.
Qed.

(** Reading from the current chunk. *)
Lemma readChunk_spec rest b chunks t x k :
  qs_contentLength x = -1 -> wfReader (qs_reader x) -> b <> [] -> qs_chunkLeft x = zlen b -> chunkText chunks t ->
  stream (qs_reader x) = b ++ strCRLF ++ t ++ rest -> 0 < k ->
  exists x' p todo', requestStream_readChunk x k = Some (x', p, None) /\ b ++ concat chunks = p ++ todo' /\ p <> [] /\
    chunkedStream rest todo' x'.
Proof.
  intros Hc Hw Hb Hl Ht E Hk. unfold requestStream_readChunk. assert (0 < zlen b) by (destruct b; [done|simpl; lia]).
  assert ((if qs_chunkLeft x <? k then qs_chunkLeft x else k) = Z.min k (zlen b)) as ->
    by (destruct (Z.ltb_spec (qs_chunkLeft x) k); lia).
  unfold sliceRead. destruct (Z.ltb_spec (Z.min k (zlen b)) 0); [lia|]. destruct (Z.eqb_spec (Z.min k (zlen b)) 0); [lia|].
  pose proof (bufRead_spec (qs_reader x) (Z.to_nat (Z.min k (zlen b))) Hw ltac:(lia)) as S. rewrite E in S.
  destruct b as [|c b0]; [done|]. cbn [app] in S. destruct S as (p & r' & -> & Hpne & Lp & E2 & S).
  rewrite (app_comm_cons b0) in E2. set (b := c :: b0) in *. cbn [mbind option_bind qs_chunkLeft qs_readBytes]. cbv zeta.
  assert (exists b', b = p ++ b' /\ stream r' = b' ++ strCRLF ++ t ++ rest) as (b' & Eb & Er).
  { exists (drop (length p) b). split.
    - rewrite <- (take_drop (length p) b) at 1. f_equal. apply (f_equal (take (length p))) in E2.
      rewrite take_app_exact, take_app_le in E2 by lia. done.
    - apply (f_equal (drop (length p))) in E2. rewrite drop_app_exact, drop_app_le in E2 by lia. done. }
  clearbody b. subst b. rewrite Hl, length_app. cbn [set_qs_chunkLeft qs_readBytes qs_chunkLeft qs_reader].
  apply sameSource_wf in S as W'.
  destruct (Z.eqb_spec (Z.of_nat (length p + length b') - zlen p) 0) as [D|D].
  - assert (b' = []) as -> by (apply nil_length_inv; lia).
    destruct (readCrLf_spec r' (t ++ rest) W' Er) as (r2 & -> & E3 & S3).
    do 3 eexists. split; [reflexivity|]. rewrite app_nil_r. split; [reflexivity|]. split; [done|].
    split; [done|]. split; [by eapply sameSource_wf|]. left. exists chunks, t. split_and!; [done|cbn; lia|done|done].
  - do 3 eexists. split; [reflexivity|]. rewrite <- app_assoc. split; [reflexivity|]. split; [done|].
    split; [done|]. split; [done|]. right. exists b', chunks, t. split_and!; [done| |cbn; lia|done|done].
    intros ->. simpl in D. lia.
Qed.

Lemma requestStream_readChunked_spec rest todo x k :
  chunkedStream rest todo x -> 0 < k ->
  exists x' p todo' err, requestStream_Read x k = Some (x', p, err) /\ todo = p ++ todo' /\
    (err = None /\ p <> [] /\ chunkedStream rest todo' x' \/ err = Some EOF /\ todo' = [] /\ stream (qs_reader x') = rest).
Proof.
  intros (Hc & Hw & [(chunks & t & -> & H0 & Ht & E)|(b & chunks & t & -> & Hb & Hl & Ht & E)]) Hk; unfold requestStream_Read;
    rewrite Hc, Z.eqb_refl.
  - destruct Ht as [d Hd|b chunks d t Hb Hd Ht].
    + destruct (parseChunkSize_text x 0 d (strCRLF ++ rest) Hw ltac:(by rewrite E, <- !app_assoc) Hd H0) as (r & W & Es & ->).
      destruct (readCrLf_spec r rest W Es) as (r2 & E2 & E3 & _). rewrite Z.eqb_refl, E2.
      do 4 eexists. split; [reflexivity|]. split; [done|]. by right.
    + destruct (parseChunkSize_text x (zlen b) d (b ++ strCRLF ++ t ++ rest) Hw ltac:(by rewrite E, <- !app_assoc) Hd H0) as (r & W & Es & ->).
      destruct (Z.eqb_spec (zlen b) 0); [destruct b; [done|simpl in *; lia]|].
      destruct (readChunk_spec rest b chunks t (set_qs_chunkLeft (zlen b) (set_qs_reader r x)) k) as (x' & p & todo' & -> & E2 & Hp & C);
        try done.
      do 4 eexists. split; [reflexivity|]. split; [exact E2|]. by left.
  - assert (requestStream_nextChunk x = (x, None)) as ->.
    { unfold requestStream_nextChunk. destruct (Z.eqb_spec (qs_chunkLeft x) 0); [destruct b; [done|simpl in *; lia]|done]. }
    destruct (readChunk_spec rest b chunks t x k) as (x' & p & todo' & -> & E2 & Hp & C); try done.
    do 4 eexists. split; [reflexivity|]. split; [exact E2|]. by left.
Qed.

(** The bytes taken ahead never go beyond a body that is longer than the buffer
    they go into. *)
Lemma identityLoop_ahead fuel r maxBodySize got size bound :
  wfReader r -> zlen got < size -> size <= bound -> 0 < maxBodySize -> maxBodySize + 1 <= bound -> maxBodySize <= 2 ^ 30 ->
  zlen got <= maxBodySize -> (length (stream r) < fuel)%nat -> maxBodySize < zlen got + zlen (stream r) ->
  exists r' got' cap, identityLoop fuel r maxBodySize got size = Some (r', MkSlice got' cap, Some ErrBodyTooLarge) /\
    zlen got' <= bound /\ wfReader r' /\ got' ++ stream r' = got ++ stream r.
Proof.
  revert r got size. induction fuel as [|fuel IH]; intros r got size W Hs Hb Hm0 Hm Hm2 Hg Hf Ht; [lia|]. cbn [identityLoop].
  destruct (Z.ltb_spec size (zlen got)); [lia|].
  pose proof (bufRead_spec r (Z.to_nat (size - zlen got)) W ltac:(lia)) as S. destruct (stream r) as [|c s] eqn:Es; [simpl in Ht; lia|].
  destruct S as (p & r' & -> & Hp & Hl & E & S). rewrite decide_False by done. cbv zeta. rewrite E in *. clear E c s.
  assert (0 < length p)%nat by (destruct p; [done|simpl; lia]). apply sameSource_wf in S as W'.
  rewrite (length_app p) in *. set (off := zlen (got ++ p)). assert (off = zlen got + zlen p) as Eo by (unfold off; rewrite length_app; lia).
  destruct (Z.ltb_spec 0 maxBodySize); [|lia]. cbn [andb]. destruct (Z.ltb_spec maxBodySize off) as [L|L].
  - do 3 eexists. split; [reflexivity|]. split_and!; [unfold off in *; lia|done|by rewrite app_assoc].
  - assert (int64 (2 * off) = 2 * off) as -> by (apply int64_small; unfold maxInt; lia).
    pose proof (round2_ge (2 * off) ltac:(lia)).
    assert (zlen (got ++ p) = off) as Eoff by done.
    destruct (Z.eqb_spec size off) as [->|D].
    + destruct (IH r' (got ++ p) (if maxBodySize <? round2 (2 * off) then maxBodySize + 1 else round2 (2 * off)))
        as (r2 & got' & cap & -> & L2 & W2 & E2); try done; try lia.
      * destruct (Z.ltb_spec maxBodySize (round2 (2 * off))); lia.
      * destruct (Z.ltb_spec maxBodySize (round2 (2 * off))); lia.
      * do 3 eexists. split; [reflexivity|]. split_and!; [done|done|]. by rewrite E2, app_assoc.
    + destruct (IH r' (got ++ p) size) as (r2 & got' & cap & -> & L2 & W2 & E2); try done; try lia.
      do 3 eexists. split; [reflexivity|]. split_and!; [done|done|]. by rewrite E2, app_assoc.
Qed.

Lemma fixedStream_end rest x : fixedStream rest [] x -> stream (qs_reader x) = rest.
Proof. intros [Hl _ _ Hi Hp Hb _]. simpl in Hl. by rewrite drop_ge in Hb by lia. Qed.

Lemma fixedStream_readAll rest body x ks :
  fixedStream rest body x -> Forall (fun k => 0 < k) ks -> (length body < length ks)%nat ->
  exists x', readSizes ks x [] = Some (x', body, Some EOF) /\ stream (qs_reader x') = rest.
Proof.
  intros F Fk Hl. destruct (readSizes_spec (fixedStream rest) (requestStream_readFixed_spec rest) ks body x [] F Fk Hl)
    as (x' & E & F'). exists x'. split; [exact E|]. by apply fixedStream_end.
Qed.

Lemma chunkedStream_readAll rest body x ks got :
  chunkedStream rest body x -> Forall (fun k => 0 < k) ks -> (length body < length ks)%nat ->
  exists x', readSizes ks x got = Some (x', got ++ body, Some EOF) /\ stream (qs_reader x') = rest.
Proof.
  intros C Fk. revert got body x C. induction Fk as [|k ks Hk Fk IH]; intros got body x C Hl; [simpl in Hl; lia|]. cbn [readSizes].
  destruct (requestStream_readChunked_spec rest body x k C Hk) as (x' & p & todo' & err & -> & -> & [(-> & Hp & C')|(-> & -> & E)]);
    cbn [mbind option_bind]; [|rewrite app_nil_r; eauto].
  rewrite app_assoc. apply IH; [done|]. rewrite length_app in Hl. simpl in Hl. destruct p; [done|simpl in Hl; lia].
Qed.

Section Start.
Context `{HttpLib}.

(** The size of the buffer readBodyIdentity starts with. *)
Definition startSize (x : Request) : Z :=
  let b := snd (Request_bodyBuffer x) in if sl_cap b =? 0 then 1024 else sl_cap b.

(** How a body is framed in a request: by its length, or in chunks. *)
Inductive framed (x : Request) (maxBodySize : Z) (body text : bytes) : Prop :=
| framed_length :
    RequestHeader_realContentLength (req_Header x) = zlen body -> text = body -> zlen body <= maxInt ->
    zlen body <= maxBodySize \/ startSize x <= zlen body -> framed x maxBodySize body text
| framed_chunks chunks :
    RequestHeader_realContentLength (req_Header x) = -1 -> Forall (fun b => b <> []) chunks ->
    zlen (concat chunks) < 2 ^ 60 -> body = concat chunks ->
    writeBodyChunked [] (MkSource chunks EOF) = (text, Some None) -> framed x maxBodySize body text.

Lemma readBodyWithStreaming_fixed r body rest maxBodySize dst :
  wfReader r -> stream r = body ++ rest -> 0 < maxBodySize ->
  zlen body <= maxBodySize \/ 0 < (if sl_cap dst =? 0 then 1024 else sl_cap dst) <= zlen body ->
  exists r' b err, readBodyWithStreaming r (zlen body) maxBodySize dst = Some (r', b, err) /\ wfReader r' /\
    zlen (sl b) <= zlen body /\ sl b ++ stream r' = body ++ rest /\ (err = None \/ err = Some ErrBodyTooLarge).
Proof.
  intros W E Hm Hc. unfold readBodyWithStreaming. destruct (Z.eqb_spec (zlen body) (-1)); [lia|]. cbv zeta.
  assert ((if zlen body <? maxBodySize then zlen body else maxBodySize) = Z.min (zlen body) maxBodySize) as ->
    by (destruct (Z.ltb_spec (zlen body) maxBodySize); lia).
  set (readN := if 8 * 1024 <? _ then _ else _).
  assert (readN = Z.min (Z.min (zlen body) maxBodySize) 8192) as Er by (unfold readN; destruct (Z.ltb_spec (8 * 1024) (Z.min (zlen body) maxBodySize)); lia).
  clearbody readN. destruct (Z.leb_spec 0 (zlen body)); [|lia]. cbn [andb sl_cap].
  destruct (Z.leb_spec (zlen body) maxBodySize) as [L|L].
  - destruct (appendBodyFixedSize_spec r (MkSlice [] (sl_cap dst)) (Z.to_nat readN) W) as (r' & cap & Ea & Es & S); [simpl; lia|].
    rewrite Z2Nat.id in Ea by lia. rewrite Ea. rewrite E in *. rewrite decide_True by (rewrite length_app; lia).
    cbn [mbind option_bind sl app]. destruct (Z.ltb_spec maxBodySize (zlen body)); [lia|].
    do 3 eexists. split; [reflexivity|]. cbn [sl]. rewrite Es, take_drop. split_and!; [by eapply sameSource_wf| |done|by left].
    rewrite length_take, length_app. lia.
  - unfold readBodyIdentity. cbn [sl_cap]. set (size := if sl_cap dst =? 0 then 1024 else sl_cap dst) in *.
    destruct (identityLoop_ahead (S (length (stream r))) r readN [] size (zlen body)) as (r' & got & cap & -> & L2 & W' & E');
      try done; try (simpl; lia). { rewrite E, length_app. simpl. lia. }
    cbn [mbind option_bind]. do 3 eexists. split; [reflexivity|]. cbn [sl].
    split_and!; [done|done|by rewrite E', E|by right].
Qed.

Lemma Request_ContinueReadBodyStream_spec pooled x r maxBodySize preParse body text rest :
  framed x maxBodySize body text -> RequestHeader_MultipartFormBoundary (req_Header x) = None ->
  0 < startSize x -> qs_totalBytesRead pooled = 0 -> qs_chunkLeft pooled = 0 ->
  wfReader r -> stream r = text ++ rest -> 0 < maxBodySize ->
  exists y s, Request_ContinueReadBodyStream pooled x r maxBodySize preParse = Some (y, inr s, None) /\
    (fixedStream rest body s \/ chunkedStream rest body s).
Proof.
  intros Fr Hb Hs Ht Hc W E Hm. unfold Request_ContinueReadBodyStream. rewrite Hb. cbn [default]. cbv zeta.
  set (x1 := if _ && _ then _ else x).
  assert (req_Header x1 = req_Header x /\ req_body x1 = req_body x) as [Eh Eb] by (unfold x1; by destruct (_ && _)). clearbody x1.
  rewrite (bool_decide_eq_false_2 ([] <> [])) by (intros Q; by apply Q). rewrite andb_false_r. cbn [andb].
  unfold Request_bodyBuffer. rewrite Eb.
  destruct Fr as [El -> Hl Hz|chunks El F Hl -> Ew]; rewrite El.
  - destruct (Z.eqb_spec (zlen body) (-2)); [lia|].
    destruct (readBodyWithStreaming_fixed r body rest maxBodySize (bufReset (default pool_Get (req_body x))) W E Hm)
      as (r' & b & err & -> & W' & Lb & E' & He); [destruct Hz as [?|Hz]; [by left|right; unfold startSize, Request_bodyBuffer in *; cbn in Hs, Hz |- *; lia]|].
    cbn [mbind option_bind].
    assert (fixedStream rest body (acquireRequestStream pooled (sl b) r' (zlen body))) as F.
    { unfold acquireRequestStream. rewrite Ht. split; cbn; try done; lia. }
    match goal with |- context [RequestHeader_SetContentLength ?h (zlen body)] =>
      destruct (RequestHeader_SetContentLength_total h (zlen body)) as (d & _ & _ & ->); [lia|] end.
    cbn [mbind option_bind]. destruct He as [-> | ->]; [|rewrite decide_True by done]; do 2 eexists; (split; [reflexivity|by left]).
  - cbn [Z.eqb Z.opp Pos.eqb]. unfold readBodyWithStreaming. cbn [Z.eqb Z.opp Pos.eqb mbind option_bind].
    rewrite decide_False, decide_True by done. do 2 eexists. split; [reflexivity|]. right.
    destruct (writeBodyChunked_text chunks [] F Hl) as (t & Hct & Et). unfold writeBodyChunked in Ew. cbn [src_chunks src_end] in Ew.
    rewrite Et in Ew. injection Ew as <-. split; [done|]. split; [done|]. left. exists chunks, t. by split_and!.
Qed.

End Start.

(** * Properties *)

(** C31. A request body given to the handler as a stream is the body that was
    sent: whether it is framed by its length or in chunks, however it arrives and
    whatever the sizes of the handler's Read calls, they return its bytes in
    order and then io.EOF, never panic, and leave the bytes of the next request in
    the reader.  A body over the limit must be at least as long as the buffer its
    first bytes are read into. *)
Theorem requestStream_delivers {L : HttpLib} (pooled : requestStream) (x : Request) (r : reader) (maxBodySize : Z)
    (preParse : option bool) (body text rest : bytes) (Fr : framed x maxBodySize body text)
    (Hb : RequestHeader_MultipartFormBoundary (req_Header x) = None) (Hs : 0 < startSize x)
    (Ht : qs_totalBytesRead pooled = 0) (Hc : qs_chunkLeft pooled = 0)
    (W : wfReader r) (E : stream r = text ++ rest) (Hm : 0 < maxBodySize) :
  exists y s, Request_ContinueReadBodyStream pooled x r maxBodySize preParse = Some (y, inr s, None) /\
    forall ks, Forall (fun k => 0 < k) ks -> (length body < length ks)%nat ->
      exists s', readSizes ks s [] = Some (s', body, Some EOF) /\ stream (qs_reader s') = rest.
Proof.
  destruct (Request_ContinueReadBodyStream_spec pooled x r maxBodySize preParse body text rest Fr Hb Hs Ht Hc W E Hm)
    as (y & s & -> & [F|C]); do 2 eexists; (split; [reflexivity|]); intros ks Fk Hk.
  - by apply fixedStream_readAll.
  - by apply (chunkedStream_readAll rest body s ks []).
Qed.

Definition streamedPost (n : Z) : @Request plainLib :=
  set_req_Header (set_rq_contentLength n (RequestHeader_SetMethod emptyRequestHeader strPost)) emptyRequest.

Lemma requestStream_delivers_witness :
  let r := newReader 16 (MkSource [bs "hel"; bs "lo world, hello"; bs " moon!GET /"] EOF) in
  let pooled := emptyRequestStream r in
  (@framed plainLib (streamedPost 24) 100 (bs "hello world, hello moon!") (bs "hello world, hello moon!") /\
   0 < @startSize plainLib (streamedPost 24) /\ wfReader r /\ stream r = bs "hello world, hello moon!" ++ bs "GET /") /\
  exists y s, @Request_ContinueReadBodyStream plainLib pooled (streamedPost 24) r 100 None = Some (y, inr s, None) /\
    forall ks, Forall (fun k => 0 < k) ks -> (length (bs "hello world, hello moon!") < length ks)%nat ->
      exists s', readSizes ks s [] = Some (s', bs "hello world, hello moon!", Some EOF) /\ stream (qs_reader s') = bs "GET /".
Proof.
  match goal with |- let r := ?x in _ => assert (wfReader x) as W end.
  { apply newReader_wf; [lia|]. repeat constructor; done. }
  cbv zeta. assert (@framed plainLib (streamedPost 24) 100 (bs "hello world, hello moon!") (bs "hello world, hello moon!")) as Fr.
  { apply framed_length; [reflexivity|done|vm_compute; congruence|left; vm_compute; congruence]. }
  split; [split_and!; [exact Fr|done|exact W|reflexivity]|].
  apply (requestStream_delivers _ (streamedPost 24) _ 100 None _ _ (bs "GET /") Fr); try done.
Defined.

(** When the limit is smaller than the buffer, the first read takes bytes
    behind the body: a request with a Content-Length over MaxRequestBodySize that
    is followed by a second one gives the handler the bytes of the second request
    as its body, and the next Read slices with a negative bound: a panic that
    nothing recovers. *)
Lemma requestStream_overrun_panics :
  let r := newReader 64 (MkSource [bs "helloGET / HTTP/1.1"] EOF) in
  exists y s, @Request_ContinueReadBodyStream plainLib (emptyRequestStream r) (streamedPost 5) r 4 None = Some (y, inr s, None) /\
    readSizes [64] s [] = Some (MkRequestStream (bs "helloGET / HTTP/1.1") 19 (qs_reader s) 19 5 0, bs "helloGET / HTTP/1.1", None) /\
    readSizes [64; 64] s [] = None.
Proof. do 2 eexists. split; [vm_compute; reflexivity|]. split; vm_compute; reflexivity. Qed.

(** A body that ends too early looks complete: io.EOF comes back as it is, while
    readBody and the chunked stream make io.ErrUnexpectedEOF of it. *)
Lemma requestStream_truncated :
  let r := newReader 64 (MkSource [bs "hel"] EOF) in
  (fun '(_, got, err) => (got, err)) <$> readSizes [64; 64] (acquireRequestStream (emptyRequestStream r) [] r 5) [] =
  Some (bs "hel", Some EOF).
Proof. vm_compute. reflexivity. Qed.

(** After the end of a chunked body Read takes the next request for a chunk. *)
Lemma requestStream_read_after_end :
  let r := newReader 64 (MkSource [bs "0" ++ strCRLF ++ strCRLF ++ bs "5" ++ strCRLF ++ bs "hello" ++ strCRLF] EOF) in
  match readSizes [64] (acquireRequestStream (emptyRequestStream r) [] r (-1)) [] with
  | Some (s1, got, err) => got = [] /\ err = Some EOF /\ (fun '(_, got, err) => (got, err)) <$> readSizes [64] s1 [] = Some (bs "hello", None)
  | None => False
  end.
Proof. vm_compute. done. Qed.
