(* ===== verification/RequestCtx.v ===== *)
(** * server.go: RequestCtx

    What a handler gets: the request, the response it fills in, the user values,
    the connection's data, and the marks it leaves for the server's loop (a
    response that replaces the own one after a timeout, a handler that takes
    over the connection).  Times are numbers. *)
From Stdlib Require Import Strings.String.
From S2P Require Import Prelude BytesConv Consts Args Uri Cookie HeaderScan RequestHeader ResponseHeader Bufio Body HeaderRead Http UserData Streaming.

(** A net.Addr: a *net.TCPAddr, or something else. *)
Inductive Addr :=
| TCPAddr (IP : list Z) (port : Z)
| OtherAddr (text : bytes).

Definition IPv4zero : list Z := [0; 0; 0; 0].
Definition zeroTCPAddr : Addr := TCPAddr IPv4zero 0.

(** What a connection says about itself. *)
Record ConnInfo := MkConnInfo {
  ci_RemoteAddr : option Addr;
  ci_LocalAddr : option Addr;
  ci_isTLS : bool
}.

(** User values and their Close methods, functions that take over a connection,
    and the contents of a multipart form. *)
Class ServerLib `{HttpLib} := {
  UserValue : Type;
  isCloser : UserValue -> bool;
  HijackHandler : Type;
  FileHeader : Type;
  form_Value : Form -> bytes -> list bytes;
  form_File : Form -> option (bytes -> option (list FileHeader));
  gunzip : bytes -> bytes + error
}.

(** ** The Request's multipart form (http.go) *)

Section Form.
Context `{ServerLib}.

(** The form, or an error; for a request without a body stream.  The form is
    read from a reader on the body. *)
Definition Request_MultipartForm (x : Request) : Request * (Form + error) :=
  match req_multipartForm x with
  | Some f => (x, inl f)
  | None =>
      let boundary := default [] (RequestHeader_MultipartFormBoundary (req_Header x)) in
      let x := set_req_multipartFormBoundary boundary x in
      if decide (length boundary = O) then (x, inr ErrNoMultipartForm)
      else
        let ce := default [] (RequestHeader_peek (req_Header x) strContentEncoding) in
        let '(x, body) := Request_bodyBytes x in
        match (if decide (ce = strGzip) then
                 match gunzip body with inl b => inl b | inr _ => inr (Errorf "cannot gunzip request body: %s") end
               else if decide (0 < length ce)%nat then inr (Errorf "unsupported Content-Encoding: %q")
               else inl body) with
        | inr err => (x, inr err)
        | inl body =>
            match readMultipartForm (newReader 4096 (MkSource (if decide (body = []) then [] else [body]) EOF)) boundary (zlen body) (zlen body) with
            | (inl f, _) => (set_req_multipartForm (Some f) x, inl f)
            | (inr err, _) => (x, inr err)
            end
        end
  end.

End Form.

Section RequestCtx.
Context `{ServerLib}.

Record RequestCtx := MkRequestCtx {
  cx_Request : Request;
  cx_Response : Response;
  cx_stream : option requestStream;
  cx_userValues : @userData UserValue;
  cx_connID : Z;
  cx_connRequestNum : Z;
  cx_connTime : Z;
  cx_remoteAddr : option Addr;
  cx_time : Z;
  cx_c : option ConnInfo;
  cx_timeoutResponse : option Response;
  cx_hijackHandler : option HijackHandler;
  cx_hijackNoResponse : bool
}.

Definition set_cx_Request (v : Request) (x : RequestCtx) : RequestCtx :=
  MkRequestCtx v (cx_Response x) (cx_stream x) (cx_userValues x) (cx_connID x) (cx_connRequestNum x) (cx_connTime x) (cx_remoteAddr x) (cx_time x) (cx_c x) (cx_timeoutResponse x) (cx_hijackHandler x) (cx_hijackNoResponse x).
Definition set_cx_Response (v : Response) (x : RequestCtx) : RequestCtx :=
  MkRequestCtx (cx_Request x) v (cx_stream x) (cx_userValues x) (cx_connID x) (cx_connRequestNum x) (cx_connTime x) (cx_remoteAddr x) (cx_time x) (cx_c x) (cx_timeoutResponse x) (cx_hijackHandler x) (cx_hijackNoResponse x).
Definition set_cx_stream (v : option requestStream) (x : RequestCtx) : RequestCtx :=
  MkRequestCtx (cx_Request x) (cx_Response x) v (cx_userValues x) (cx_connID x) (cx_connRequestNum x) (cx_connTime x) (cx_remoteAddr x) (cx_time x) (cx_c x) (cx_timeoutResponse x) (cx_hijackHandler x) (cx_hijackNoResponse x).
Definition set_cx_userValues (v : @userData UserValue) (x : RequestCtx) : RequestCtx :=
  MkRequestCtx (cx_Request x) (cx_Response x) (cx_stream x) v (cx_connID x) (cx_connRequestNum x) (cx_connTime x) (cx_remoteAddr x) (cx_time x) (cx_c x) (cx_timeoutResponse x) (cx_hijackHandler x) (cx_hijackNoResponse x).
Definition set_cx_connID (v : Z) (x : RequestCtx) : RequestCtx :=
  MkRequestCtx (cx_Request x) (cx_Response x) (cx_stream x) (cx_userValues x) v (cx_connRequestNum x) (cx_connTime x) (cx_remoteAddr x) (cx_time x) (cx_c x) (cx_timeoutResponse x) (cx_hijackHandler x) (cx_hijackNoResponse x).
Definition set_cx_connRequestNum (v : Z) (x : RequestCtx) : RequestCtx :=
  MkRequestCtx (cx_Request x) (cx_Response x) (cx_stream x) (cx_userValues x) (cx_connID x) v (cx_connTime x) (cx_remoteAddr x) (cx_time x) (cx_c x) (cx_timeoutResponse x) (cx_hijackHandler x) (cx_hijackNoResponse x).
Definition set_cx_connTime (v : Z) (x : RequestCtx) : RequestCtx :=
  MkRequestCtx (cx_Request x) (cx_Response x) (cx_stream x) (cx_userValues x) (cx_connID x) (cx_connRequestNum x) v (cx_remoteAddr x) (cx_time x) (cx_c x) (cx_timeoutResponse x) (cx_hijackHandler x) (cx_hijackNoResponse x).
Definition set_cx_remoteAddr (v : option Addr) (x : RequestCtx) : RequestCtx :=
  MkRequestCtx (cx_Request x) (cx_Response x) (cx_stream x) (cx_userValues x) (cx_connID x) (cx_connRequestNum x) (cx_connTime x) v (cx_time x) (cx_c x) (cx_timeoutResponse x) (cx_hijackHandler x) (cx_hijackNoResponse x).
Definition set_cx_time (v : Z) (x : RequestCtx) : RequestCtx :=
  MkRequestCtx (cx_Request x) (cx_Response x) (cx_stream x) (cx_userValues x) (cx_connID x) (cx_connRequestNum x) (cx_connTime x) (cx_remoteAddr x) v (cx_c x) (cx_timeoutResponse x) (cx_hijackHandler x) (cx_hijackNoResponse x).
Definition set_cx_c (v : option ConnInfo) (x : RequestCtx) : RequestCtx :=
  MkRequestCtx (cx_Request x) (cx_Response x) (cx_stream x) (cx_userValues x) (cx_connID x) (cx_connRequestNum x) (cx_connTime x) (cx_remoteAddr x) (cx_time x) v (cx_timeoutResponse x) (cx_hijackHandler x) (cx_hijackNoResponse x).
Definition set_cx_timeoutResponse (v : option Response) (x : RequestCtx) : RequestCtx :=
  MkRequestCtx (cx_Request x) (cx_Response x) (cx_stream x) (cx_userValues x) (cx_connID x) (cx_connRequestNum x) (cx_connTime x) (cx_remoteAddr x) (cx_time x) (cx_c x) v (cx_hijackHandler x) (cx_hijackNoResponse x).
Definition set_cx_hijackHandler (v : option HijackHandler) (x : RequestCtx) : RequestCtx :=
  MkRequestCtx (cx_Request x) (cx_Response x) (cx_stream x) (cx_userValues x) (cx_connID x) (cx_connRequestNum x) (cx_connTime x) (cx_remoteAddr x) (cx_time x) (cx_c x) (cx_timeoutResponse x) v (cx_hijackNoResponse x).
Definition set_cx_hijackNoResponse (v : bool) (x : RequestCtx) : RequestCtx :=
  MkRequestCtx (cx_Request x) (cx_Response x) (cx_stream x) (cx_userValues x) (cx_connID x) (cx_connRequestNum x) (cx_connTime x) (cx_remoteAddr x) (cx_time x) (cx_c x) (cx_timeoutResponse x) (cx_hijackHandler x) v.

Definition emptyRequestCtx : RequestCtx :=
  MkRequestCtx emptyRequest emptyResponse None (MkUserData [] []) 0 0 0 None 0 None None None false.

(** ** Hijacking and user values *)

Definition RequestCtx_Hijack (x : RequestCtx) (h : HijackHandler) : RequestCtx := set_cx_hijackHandler (Some h) x.
Definition RequestCtx_HijackSetNoResponse (x : RequestCtx) (noResponse : bool) : RequestCtx :=
  set_cx_hijackNoResponse noResponse x.
Definition RequestCtx_Hijacked (x : RequestCtx) : bool := match cx_hijackHandler x with Some _ => true | None => false end.

(** [grown] is the capacity append adds. *)
Definition RequestCtx_SetUserValue (grown : list (bytes * UserValue)) (x : RequestCtx) (key : bytes) (v : UserValue) : RequestCtx :=
  set_cx_userValues (userData_Set grown (cx_userValues x) key v) x.
Definition RequestCtx_SetUserValueBytes (grown : list (bytes * UserValue)) (x : RequestCtx) (key : bytes) (v : UserValue) : RequestCtx :=
  set_cx_userValues (userData_Set grown (cx_userValues x) key v) x.
Definition RequestCtx_UserValue (x : RequestCtx) (key : bytes) : option UserValue := userData_Get (cx_userValues x) key.
Definition RequestCtx_UserValueBytes (x : RequestCtx) (key : bytes) : option UserValue := userData_Get (cx_userValues x) key.
Definition RequestCtx_VisitUserValues (x : RequestCtx) : list (bytes * UserValue) := ud_live (cx_userValues x).
Definition RequestCtx_ResetUserValues (x : RequestCtx) : RequestCtx :=
  set_cx_userValues (fst (userData_Reset isCloser (cx_userValues x))) x.
(** Value of the context interface, for a key that is a string. *)
Definition RequestCtx_Value (x : RequestCtx) (key : option bytes) : option UserValue :=
  match key with Some keyString => RequestCtx_UserValue x keyString | None => None end.

(** ** The connection *)

Definition RequestCtx_IsTLS (x : RequestCtx) : bool := match cx_c x with Some c => ci_isTLS c | None => false end.
Definition RequestCtx_ID (x : RequestCtx) : Z := Z.lor (uint64 (Z.shiftl (cx_connID x) 32)) (cx_connRequestNum x).
Definition RequestCtx_ConnID (x : RequestCtx) : Z := cx_connID x.
Definition RequestCtx_Time (x : RequestCtx) : Z := cx_time x.
Definition RequestCtx_ConnTime (x : RequestCtx) : Z := cx_connTime x.
Definition RequestCtx_ConnRequestNum (x : RequestCtx) : Z := cx_connRequestNum x.

Definition RequestCtx_RemoteAddr (x : RequestCtx) : Addr :=
  match cx_remoteAddr x with
  | Some a => a
  | None => match cx_c x with None => zeroTCPAddr | Some c => default zeroTCPAddr (ci_RemoteAddr c) end
  end.
Definition RequestCtx_SetRemoteAddr (x : RequestCtx) (a : option Addr) : RequestCtx := set_cx_remoteAddr a x.
Definition RequestCtx_LocalAddr (x : RequestCtx) : Addr :=
  match cx_c x with None => zeroTCPAddr | Some c => default zeroTCPAddr (ci_LocalAddr c) end.
Definition addrToIP (a : Addr) : list Z := match a with TCPAddr ip _ => ip | OtherAddr _ => IPv4zero end.
Definition RequestCtx_RemoteIP (x : RequestCtx) : list Z := addrToIP (RequestCtx_RemoteAddr x).
Definition RequestCtx_LocalIP (x : RequestCtx) : list Z := addrToIP (RequestCtx_LocalAddr x).

(** ** The request *)

Definition on_Request (f : Request -> Request) (x : RequestCtx) : RequestCtx := set_cx_Request (f (cx_Request x)) x.
Definition on_Response (f : Response -> Response) (x : RequestCtx) : RequestCtx := set_cx_Response (f (cx_Response x)) x.
Definition on_rqHeader (f : RequestHeader -> RequestHeader) : RequestCtx -> RequestCtx :=
  on_Request (fun r => set_req_Header (f (req_Header r)) r).
Definition on_rsHeader (f : ResponseHeader -> ResponseHeader) : RequestCtx -> RequestCtx :=
  on_Response (fun r => set_resp_Header (f (resp_Header r)) r).

Definition RequestCtx_RequestURI (x : RequestCtx) : bytes := RequestHeader_RequestURI (req_Header (cx_Request x)).
Definition RequestCtx_URI (x : RequestCtx) : RequestCtx * URI :=
  let '(r, u) := Request_URI (cx_Request x) in (set_cx_Request r x, u).
Definition RequestCtx_Referer (x : RequestCtx) : RequestCtx * option bytes :=
  let '(h, v) := RequestHeader_Referer (req_Header (cx_Request x)) in (on_rqHeader (fun _ => h) x, v).
Definition RequestCtx_UserAgent (x : RequestCtx) : bytes := RequestHeader_UserAgent (req_Header (cx_Request x)).
Definition RequestCtx_Path (x : RequestCtx) : RequestCtx * bytes :=
  let '(x, u) := RequestCtx_URI x in (x, URI_Path u).
Definition RequestCtx_Host (x : RequestCtx) : RequestCtx * bytes :=
  let '(x, u) := RequestCtx_URI x in (x, u_host u).
Definition RequestCtx_QueryArgs (x : RequestCtx) : option (RequestCtx * Args) :=
  let '(x, u) := RequestCtx_URI x in
  '(u, a) ← URI_QueryArgs u;
  Some (on_Request (set_req_uri u) x, a).
Definition RequestCtx_PostArgs (x : RequestCtx) : option (RequestCtx * Args) :=
  '(r, a) ← Request_PostArgs (cx_Request x); Some (set_cx_Request r x, a).
Definition RequestCtx_MultipartForm (x : RequestCtx) : RequestCtx * (Form + error) :=
  let '(r, f) := Request_MultipartForm (cx_Request x) in (set_cx_Request r x, f).

(** The inner option is a nil header; an empty list of headers panics. *)
Definition RequestCtx_FormFile (x : RequestCtx) (key : bytes) : option (RequestCtx * (option FileHeader + error)) :=
  let '(x, mf) := RequestCtx_MultipartForm x in
  match mf with
  | inr err => Some (x, inr err)
  | inl mf =>
      match form_File mf with
      | None => Some (x, inl None)
      | Some files =>
          match files key with
          | None => Some (x, inr (Errorf "there is no uploaded file associated with the given key"))
          | Some [] => None
          | Some (fh :: _) => Some (x, inl (Some fh))
          end
      end
  end.

(** The query arguments, the form arguments, then the multipart form. *)
Definition RequestCtx_FormValue (x : RequestCtx) (key : bytes) : option (RequestCtx * option bytes) :=
  '(x, a) ← RequestCtx_QueryArgs x;
  let v := default [] (Args_Peek a key) in
  if decide (0 < length v)%nat then Some (x, Some v)
  else
    '(x, a) ← RequestCtx_PostArgs x;
    let v := default [] (Args_Peek a key) in
    if decide (0 < length v)%nat then Some (x, Some v)
    else
      let '(x, mf) := RequestCtx_MultipartForm x in
      match mf with
      | inr _ => Some (x, None)
      | inl mf => Some (x, head (form_Value mf key))
      end.

Definition RequestCtx_IsGet (x : RequestCtx) : bool := RequestHeader_IsGet (req_Header (cx_Request x)).
Definition RequestCtx_IsPost (x : RequestCtx) : bool := RequestHeader_IsPost (req_Header (cx_Request x)).
Definition RequestCtx_IsPut (x : RequestCtx) : bool := RequestHeader_IsPut (req_Header (cx_Request x)).
Definition RequestCtx_IsDelete (x : RequestCtx) : bool := RequestHeader_IsDelete (req_Header (cx_Request x)).
Definition RequestCtx_IsConnect (x : RequestCtx) : bool := RequestHeader_IsConnect (req_Header (cx_Request x)).
Definition RequestCtx_IsOptions (x : RequestCtx) : bool := RequestHeader_IsOptions (req_Header (cx_Request x)).
Definition RequestCtx_IsTrace (x : RequestCtx) : bool := RequestHeader_IsTrace (req_Header (cx_Request x)).
Definition RequestCtx_IsPatch (x : RequestCtx) : bool := RequestHeader_IsPatch (req_Header (cx_Request x)).
Definition RequestCtx_Method (x : RequestCtx) : bytes := RequestHeader_Method (req_Header (cx_Request x)).
Definition RequestCtx_IsHead (x : RequestCtx) : bool := RequestHeader_IsHead (req_Header (cx_Request x)).

(** For a request without a body stream. *)
Definition RequestCtx_PostBody (x : RequestCtx) : RequestCtx * bytes :=
  let '(r, b) := Request_Body (cx_Request x) in (set_cx_Request r x, b).

(** ** The response *)

Definition RequestCtx_SetConnectionClose (x : RequestCtx) : RequestCtx := on_Response Response_SetConnectionClose x.
Definition RequestCtx_SetStatusCode (x : RequestCtx) (statusCode : Z) : RequestCtx :=
  on_Response (fun r => Response_SetStatusCode r statusCode) x.
Definition RequestCtx_SetContentType (x : RequestCtx) (contentType : bytes) : RequestCtx :=
  on_rsHeader (fun h => ResponseHeader_SetContentType h contentType) x.
Definition RequestCtx_SetContentTypeBytes (x : RequestCtx) (contentType : bytes) : RequestCtx :=
  on_rsHeader (fun h => ResponseHeader_SetContentType h contentType) x.
Definition RequestCtx_SetBody (x : RequestCtx) (body : bytes) : RequestCtx :=
  on_Response (fun r => Response_SetBody r body) x.
Definition RequestCtx_SetBodyString (x : RequestCtx) (body : bytes) : RequestCtx :=
  on_Response (fun r => Response_SetBody r body) x.
Definition RequestCtx_ResetBody (x : RequestCtx) : RequestCtx := on_Response Response_ResetBody x.
Definition RequestCtx_Write (x : RequestCtx) (p : bytes) : RequestCtx * Z :=
  (on_Response (fun r => Response_AppendBody r p) x, zlen p).
Definition RequestCtx_WriteString (x : RequestCtx) (s : bytes) : RequestCtx * Z :=
  (on_Response (fun r => Response_AppendBody r s) x, zlen s).
Definition RequestCtx_SetBodyStream (x : RequestCtx) (st : bodyStream) (bodySize : Z) : option RequestCtx :=
  r ← Response_SetBodyStream (cx_Response x) st bodySize; Some (set_cx_Response r x).
Definition RequestCtx_IsBodyStream (x : RequestCtx) : bool := Response_IsBodyStream (cx_Response x).

Definition RequestCtx_Error (x : RequestCtx) (msg : bytes) (statusCode : Z) : RequestCtx :=
  let x := on_Response Response_Reset x in
  let x := RequestCtx_SetStatusCode x statusCode in
  let x := RequestCtx_SetContentTypeBytes x defaultContentType in
  RequestCtx_SetBodyString x msg.
Definition RequestCtx_Success (x : RequestCtx) (contentType body : bytes) : RequestCtx :=
  RequestCtx_SetBody (RequestCtx_SetContentType x contentType) body.
Definition RequestCtx_SuccessString (x : RequestCtx) (contentType body : bytes) : RequestCtx :=
  RequestCtx_SetBodyString (RequestCtx_SetContentType x contentType) body.
Definition RequestCtx_NotModified (x : RequestCtx) : RequestCtx :=
  RequestCtx_SetStatusCode (on_Response Response_Reset x) StatusNotModified.
Definition RequestCtx_NotFound (x : RequestCtx) : RequestCtx :=
  RequestCtx_SetBodyString (RequestCtx_SetStatusCode (on_Response Response_Reset x) StatusNotFound) (bs "404 Page not found").

Definition getRedirectStatusCode (statusCode : Z) : Z :=
  if (statusCode =? StatusMovedPermanently) || (statusCode =? StatusFound) || (statusCode =? StatusSeeOther) ||
     (statusCode =? StatusTemporaryRedirect) || (statusCode =? StatusPermanentRedirect)
  then statusCode else StatusFound.

Definition RequestCtx_redirect (x : RequestCtx) (uri : bytes) (statusCode : Z) : RequestCtx :=
  let x := on_rsHeader (fun h => ResponseHeader_SetCanonical h strLocation uri) x in
  RequestCtx_SetStatusCode x (getRedirectStatusCode statusCode).

(** [pooled] is the URI that AcquireURI hands out. *)
Definition RequestCtx_Redirect (pooled : URI) (x : RequestCtx) (uri : bytes) (statusCode : Z) : option RequestCtx :=
  let '(x, cu) := RequestCtx_URI x in
  u ← URI_Update (URI_CopyTo cu pooled) uri;
  Some (RequestCtx_redirect x (snd (URI_FullURI u)) statusCode).
Definition RequestCtx_RedirectBytes (pooled : URI) (x : RequestCtx) (uri : bytes) (statusCode : Z) : option RequestCtx :=
  RequestCtx_Redirect pooled x uri statusCode.

(** ** Timeouts *)

Definition RequestCtx_TimeoutErrorWithResponse (x : RequestCtx) (resp : Response) : RequestCtx :=
  set_cx_timeoutResponse (Some (Response_CopyTo resp emptyResponse)) x.
Definition RequestCtx_TimeoutErrorWithCode (x : RequestCtx) (msg : bytes) (statusCode : Z) : RequestCtx :=
  RequestCtx_TimeoutErrorWithResponse x (Response_SetBody (Response_SetStatusCode emptyResponse statusCode) msg).
Definition RequestCtx_TimeoutError (x : RequestCtx) (msg : bytes) : RequestCtx :=
  RequestCtx_TimeoutErrorWithCode x msg StatusRequestTimeout.
Definition RequestCtx_LastTimeoutErrorResponse (x : RequestCtx) : option Response := cx_timeoutResponse x.

End RequestCtx.
