(* ===== verification/Server.v ===== *)
(** * server.go: serving one connection

    serveConn as the loop it is: read a request, answer it, go on or stop.  One
    round is split along the phases of the loop's body; each returns [flow]: a
    panic, a break with what the code after the loop gets, or the next state.
    What the code does not decide is in an [Env]: how the input arrives, how much
    output the peer takes, what the pools hand out, when Shutdown is called. *)
From Stdlib Require Import Strings.String.
From S2P Require Import Prelude BytesConv Consts Args Uri Cookie HeaderScan RequestHeader ResponseHeader Bufio Body HeaderRead Http UserData Streaming RequestCtx.

Inductive ConnState := StateNew | StateActive | StateIdle | StateHijacked | StateClosed.

Record RequestConfig := MkRequestConfig {
  rc_ReadTimeout : Z;
  rc_WriteTimeout : Z;
  rc_MaxRequestBodySize : Z
}.

Definition DefaultMaxRequestBodySize : Z := 4 * 1024 * 1024.
Definition defaultReadBufferSize : Z := 4096.

Section Server.
Context `{ServerLib}.

(** A handler at work: it reads from the request's body stream, or it is done and
    leaves the context as given. *)
Inductive handling :=
| Finish (ctx : RequestCtx)
| ReadBody (k : Z) (next : bytes -> option error -> handling).

(** The configuration; hooks get the objects they point to and give them back. *)
Record Server := MkServer {
  srv_Handler : RequestCtx -> handling;
  srv_ErrorHandler : option (RequestCtx -> error -> RequestCtx);
  srv_HeaderReceived : option (RequestHeader -> RequestHeader * RequestConfig);
  srv_ContinueHandler : option (RequestHeader -> RequestHeader * bool);
  srv_nextProtos : bytes -> option (option error);
  srv_Name : bytes;
  srv_ReadBufferSize : Z;
  srv_ReadTimeout : Z;
  srv_WriteTimeout : Z;
  srv_IdleTimeout : Z;
  srv_MaxRequestsPerConn : Z;
  srv_MaxRequestBodySize : Z;
  srv_DisableKeepalive : bool;
  srv_ReduceMemoryUsage : bool;
  srv_GetOnly : bool;
  srv_DisablePreParseMultipartForm : bool;
  srv_DisableHeaderNamesNormalizing : bool;
  srv_SecureErrorLogMessage : bool;
  srv_NoDefaultServerHeader : bool;
  srv_NoDefaultDate : bool;
  srv_NoDefaultContentType : bool;
  srv_CloseOnShutdown : bool;
  srv_StreamRequestBody : bool
}.

(** [env_pick n timeout]: which pooled context acquireCtx gets in round [n];
    [env_passed n]: how much of the pending output the bufio.Writer passes on
    while the response is written (its buffer may fill up); [env_stop n]: the
    values of s.stop when the response is written and at the end of the round. *)
Record Env := MkEnv {
  env_conn : ConnInfo;
  env_handshake : bytes + error;
  env_deadlineErr : option error;
  env_connID : Z;
  env_connTime : Z;
  env_now : Z -> Z;
  env_serverDate : Z -> bytes;
  env_pick : Z -> bool -> option nat;
  env_passed : Z -> nat;
  env_room : Z;
  env_writeErr : error;
  env_stop : Z -> bool * bool
}.

(** What can be observed besides the output. *)
Inductive event :=
| State (st : ConnState)
| ReadDeadline (d : Z)
| WriteDeadline (d : Z)
| Called (ctx : RequestCtx)
| Failed (err : error).

(** The variables of serveConn.  [ls_in]: the bufio.Reader br, or, when br is nil,
    what is left on the connection; [ls_bw]: what bw has not passed on, if there
    is a bw; [ls_out]: what the connection has got. *)
Record loopState := MkLoopState {
  ls_ctx : RequestCtx;
  ls_in : reader + source;
  ls_bw : option bytes;
  ls_out : bytes;
  ls_maxRequestBodySize : Z;
  ls_writeTimeout : Z;
  ls_connRequestNum : Z;
  ls_reqReset : bool;
  ls_continue : bool;
  ls_pool : list RequestCtx;
  ls_trace : list event
}.

Definition set_ls_ctx (v : RequestCtx) (x : loopState) : loopState :=
  MkLoopState v (ls_in x) (ls_bw x) (ls_out x) (ls_maxRequestBodySize x) (ls_writeTimeout x) (ls_connRequestNum x) (ls_reqReset x) (ls_continue x) (ls_pool x) (ls_trace x).
Definition set_ls_in (v : reader + source) (x : loopState) : loopState :=
  MkLoopState (ls_ctx x) v (ls_bw x) (ls_out x) (ls_maxRequestBodySize x) (ls_writeTimeout x) (ls_connRequestNum x) (ls_reqReset x) (ls_continue x) (ls_pool x) (ls_trace x).
Definition set_ls_bw (v : option bytes) (x : loopState) : loopState :=
  MkLoopState (ls_ctx x) (ls_in x) v (ls_out x) (ls_maxRequestBodySize x) (ls_writeTimeout x) (ls_connRequestNum x) (ls_reqReset x) (ls_continue x) (ls_pool x) (ls_trace x).
Definition set_ls_out (v : bytes) (x : loopState) : loopState :=
  MkLoopState (ls_ctx x) (ls_in x) (ls_bw x) v (ls_maxRequestBodySize x) (ls_writeTimeout x) (ls_connRequestNum x) (ls_reqReset x) (ls_continue x) (ls_pool x) (ls_trace x).
Definition set_ls_maxRequestBodySize (v : Z) (x : loopState) : loopState :=
  MkLoopState (ls_ctx x) (ls_in x) (ls_bw x) (ls_out x) v (ls_writeTimeout x) (ls_connRequestNum x) (ls_reqReset x) (ls_continue x) (ls_pool x) (ls_trace x).
Definition set_ls_writeTimeout (v : Z) (x : loopState) : loopState :=
  MkLoopState (ls_ctx x) (ls_in x) (ls_bw x) (ls_out x) (ls_maxRequestBodySize x) v (ls_connRequestNum x) (ls_reqReset x) (ls_continue x) (ls_pool x) (ls_trace x).
Definition set_ls_connRequestNum (v : Z) (x : loopState) : loopState :=
  MkLoopState (ls_ctx x) (ls_in x) (ls_bw x) (ls_out x) (ls_maxRequestBodySize x) (ls_writeTimeout x) v (ls_reqReset x) (ls_continue x) (ls_pool x) (ls_trace x).
Definition set_ls_reqReset (v : bool) (x : loopState) : loopState :=
  MkLoopState (ls_ctx x) (ls_in x) (ls_bw x) (ls_out x) (ls_maxRequestBodySize x) (ls_writeTimeout x) (ls_connRequestNum x) v (ls_continue x) (ls_pool x) (ls_trace x).
Definition set_ls_continue (v : bool) (x : loopState) : loopState :=
  MkLoopState (ls_ctx x) (ls_in x) (ls_bw x) (ls_out x) (ls_maxRequestBodySize x) (ls_writeTimeout x) (ls_connRequestNum x) (ls_reqReset x) v (ls_pool x) (ls_trace x).
Definition set_ls_pool (v : list RequestCtx) (x : loopState) : loopState :=
  MkLoopState (ls_ctx x) (ls_in x) (ls_bw x) (ls_out x) (ls_maxRequestBodySize x) (ls_writeTimeout x) (ls_connRequestNum x) (ls_reqReset x) (ls_continue x) v (ls_trace x).
Definition logEv (e : event) (x : loopState) : loopState :=
  MkLoopState (ls_ctx x) (ls_in x) (ls_bw x) (ls_out x) (ls_maxRequestBodySize x) (ls_writeTimeout x) (ls_connRequestNum x) (ls_reqReset x) (ls_continue x) (ls_pool x) (ls_trace x ++ [e]).

(** A break: the state, whether ctx is nil by now, err, and the goroutine that
    takes the connection over, with what it reads from. *)
Record ended := MkEnded {
  en_state : loopState;
  en_ctxNil : bool;
  en_err : option error;
  en_hijack : option (HijackHandler * (reader + source))
}.

Inductive flow (A : Type) :=
| Panicked
| Breaks (e : ended)
| Go (a : A).
#[global] Arguments Panicked {A}.
#[global] Arguments Breaks {A} e.
#[global] Arguments Go {A} a.

#[global] Instance flow_bind : MBind flow := fun A B f m =>
  match m with Panicked => Panicked | Breaks e => Breaks e | Go a => f a end.

Definition panics {A} (m : option A) : flow A := match m with None => Panicked | Some a => Go a end.

Definition break {A} (x : loopState) (err : option error) : flow A := Breaks (MkEnded x false err None).

(** ** Pools and small operations *)

Definition newCtx (s : Server) : RequestCtx :=
  let keepBodyBuffer := negb (srv_ReduceMemoryUsage s) in
  on_Response (set_resp_keepBodyBuffer keepBodyBuffer) (on_Request (set_req_keepBodyBuffer keepBodyBuffer) emptyRequestCtx).

(** acquireCtx: a pooled context if the pool has one to give. *)
Definition acquireCtx (s : Server) (conn : ConnInfo) (pick : option nat) (pool : list RequestCtx) : RequestCtx * list RequestCtx :=
  match pick ≫= fun i => ctx ← pool !! i; Some (ctx, delete i pool) with
  | Some (ctx, pool) => (set_cx_c (Some conn) ctx, pool)
  | None => (set_cx_c (Some conn) (newCtx s), pool)
  end.

Definition releaseCtx (ctx : RequestCtx) (pool : list RequestCtx) : option (list RequestCtx) :=
  match cx_timeoutResponse ctx with
  | Some _ => None
  | None => Some (RequestCtx_ResetUserValues (set_cx_remoteAddr None (set_cx_c None ctx)) :: pool)
  end.

(** bufio.NewReaderSize takes at least 16 bytes; Reset keeps the size, which all
    readers of the pool have. *)
Definition readerSize (s : Server) : nat :=
  let n := if srv_ReadBufferSize s <=? 0 then defaultReadBufferSize else srv_ReadBufferSize s in
  Z.to_nat (Z.max 16 n).

Definition acquireReader (s : Server) (src : source) : reader := newReader (readerSize s) src.

(** br, taken from the pool when it is nil. *)
Definition getReader (s : Server) (x : loopState) : reader :=
  match ls_in x with inl r => r | inr src => acquireReader s src end.

Definition brBuffered (x : loopState) : nat := match ls_in x with inl r => Buffered r | inr _ => 0 end.

(** Releasing br drops what it has buffered. *)
Definition dropReader (x : loopState) : loopState :=
  match ls_in x with inl r => set_ls_in (inr (r_src r)) x | inr _ => x end.

(** firstByteReader: the byte comes with the next Read of the connection, into
    the rest of the slice; as a source, it is put in front of the next piece. *)
Definition firstByteReader (ch : byte) (src : source) : source :=
  match src_chunks src with
  | [] => MkSource [[ch]] (src_end src)
  | c :: cs => MkSource ((ch :: c) :: cs) (src_end src)
  end.

(** acquireByteReader gives the context back while it waits for a byte; reading
    no byte without an error panics. *)
Definition acquireByteReader (s : Server) (e : Env) (src : source) (x : loopState) : flow (loopState * option error) :=
  pool ← panics (releaseCtx (ls_ctx x) (ls_pool x));
  let '(b, src) := srcRead 1 src in
  let '(ctx, pool) := acquireCtx s (env_conn e) (env_pick e (ls_connRequestNum x) false) pool in
  let x := set_ls_pool pool (set_ls_ctx ctx x) in
  match b with
  | None => Go (set_ls_in (inr src) x, Some EOF)
  | Some [ch] => Go (set_ls_in (inl (acquireReader s (firstByteReader ch src))) x, None)
  | Some _ => Panicked
  end.

Definition getServerName (s : Server) : bytes := if decide (length (srv_Name s) = O) then defaultServerName else srv_Name s.

Definition serverNameOf (s : Server) : option bytes :=
  if negb (srv_NoDefaultServerHeader s) then Some (getServerName s) else None.

Definition idleTimeout (s : Server) : Z := if srv_IdleTimeout s =? 0 then srv_ReadTimeout s else srv_IdleTimeout s.

(** SetReadDeadline and SetWriteDeadline panic when the connection refuses. *)
Definition setReadDeadline (e : Env) (d : Z) (x : loopState) : flow loopState :=
  match env_deadlineErr e with Some _ => Panicked | None => Go (logEv (ReadDeadline d) x) end.
Definition setWriteDeadline (e : Env) (d : Z) (x : loopState) : flow loopState :=
  match env_deadlineErr e with Some _ => Panicked | None => Go (logEv (WriteDeadline d) x) end.

(** ** Output *)

(** The connection takes bytes until its room is used up: how many. *)
Definition connWrite (e : Env) (b : bytes) (x : loopState) : loopState * nat * option error :=
  let room := env_room e - zlen (ls_out x) in
  let n := if zlen b <=? room then length b else Z.to_nat room in
  (set_ls_out (ls_out x ++ take n b) x, n, if zlen b <=? room then None else Some (env_writeErr e)).

(** bw.Write, with a new bw if there is none: the first [passed] of the pending
    bytes go out. *)
Definition bwWrite (e : Env) (passed : nat) (b : bytes) (x : loopState) : loopState * option error :=
  let pending := default [] (ls_bw x) ++ b in
  let '(x, n, err) := connWrite e (take passed pending) x in
  (set_ls_bw (Some (drop n pending)) x, err).

Definition bwFlush (e : Env) (x : loopState) : loopState * option error :=
  let pending := default [] (ls_bw x) in
  let '(x, n, err) := connWrite e pending x in
  (set_ls_bw (Some (drop n pending)) x, err).

Definition bwBuffered (x : loopState) : nat := length (default [] (ls_bw x)).

(** writeResponse; the bool is whether Write failed. *)
Definition writeResponse (e : Env) (x : loopState) : flow (loopState * option error) :=
  let ctx := ls_ctx x in
  match cx_timeoutResponse ctx with
  | Some _ => Panicked
  | None =>
      '(resp, text, err) ← panics (Response_Write (env_serverDate e (ls_connRequestNum x)) (cx_Response ctx) []);
      let '(x, werr) := bwWrite e (env_passed e (ls_connRequestNum x)) text x in
      Go (set_ls_ctx (set_cx_Response (Response_Reset resp) ctx) x, match werr with Some err => Some err | None => err end)
  end.

Definition defaultErrorHandler (ctx : RequestCtx) (err : error) : RequestCtx :=
  match err with
  | ErrSmallBuffer _ => RequestCtx_Error ctx (bs "Too big request header") StatusRequestHeaderFieldsTooLarge
  | NetTimeout => RequestCtx_Error ctx (bs "Request timeout") StatusRequestTimeout
  | _ => RequestCtx_Error ctx (bs "Error when parsing request") StatusBadRequest
  end.

Definition writeErrorResponse (s : Server) (e : Env) (err : error) (x : loopState) : flow loopState :=
  let errorHandler := default defaultErrorHandler (srv_ErrorHandler s) in
  let ctx := errorHandler (ls_ctx x) err in
  let ctx := match serverNameOf s with
             | Some serverName => on_rsHeader (fun h => ResponseHeader_SetServer h serverName) ctx
             | None => ctx
             end in
  let ctx := RequestCtx_SetConnectionClose ctx in
  '(x, _) ← writeResponse e (logEv (Failed err) (set_ls_ctx ctx x));
  Go (fst (bwFlush e x)).

(** ** Reading a request *)

(** The top of the loop: the idle timeout, and a reader with its first byte on a
    connection that is kept alive. *)
Definition awaitRequest (s : Server) (e : Env) (x : loopState) : flow (loopState * option error) :=
  let x := set_ls_connRequestNum (uint64 (ls_connRequestNum x + 1)) x in
  x ← (if (1 <? ls_connRequestNum x) && (0 <? idleTimeout s) then setReadDeadline e (idleTimeout s) x else Go x);
  match ls_in x, srv_ReduceMemoryUsage s with
  | inr src, true => acquireByteReader s e src x
  | _, _ =>
      let r := getReader s x in
      if 1 <? ls_connRequestNum x then
        let '(b, err, r) := Peek r 1 in
        let x := set_ls_in (inl r) x in
        if decide (length b = O) then
          match err with
          | None => Panicked
          | Some err => Go (x, Some (if decide (err = EOF) then EOF else ErrNothingRead err))
          end
        else Go (x, None)
      else Go (set_ls_in (inl r) x, None)
  end.

(** The settings of the server that every request gets. *)
Definition prepareCtx (s : Server) (isTLS : bool) (ctx : RequestCtx) : RequestCtx :=
  let ctx := on_Request (set_req_isTLS isTLS) ctx in
  let ctx := on_rsHeader (set_rs_noDefaultContentType (srv_NoDefaultContentType s)) ctx in
  let ctx := on_rsHeader (set_rs_noDefaultDate (srv_NoDefaultDate s)) ctx in
  let ctx := on_rqHeader (set_rq_secureErrorLogMessage (srv_SecureErrorLogMessage s)) ctx in
  let ctx := on_rsHeader (set_rs_secureErrorLogMessage (srv_SecureErrorLogMessage s)) ctx in
  let ctx := on_Request (set_req_secureErrorLogMessage (srv_SecureErrorLogMessage s)) ctx in
  on_Response (set_resp_secureErrorLogMessage (srv_SecureErrorLogMessage s)) ctx.

Definition disableNormalizing (s : Server) (ctx : RequestCtx) : RequestCtx :=
  if srv_DisableHeaderNamesNormalizing s then
    on_rsHeader ResponseHeader_DisableNormalizing (on_rqHeader RequestHeader_DisableNormalizing ctx)
  else ctx.

(** readLoop(br, false): one attempt. *)
Definition RequestHeader_readOnce (h : RequestHeader) (r : reader) : option (RequestHeader * reader * option error) :=
  '(h, r, err) ← RequestHeader_tryRead h r 1;
  Some (match err with None => h | Some _ => RequestHeader_resetSkipNormalize h end, r, err).

(** Pending responses are flushed only when the next head is not buffered. *)
Definition readHeader (e : Env) (r : reader) (x : loopState) : flow (loopState * option error) :=
  let result x '(h, r, err) := (set_ls_in (inl r) (set_ls_ctx (on_rqHeader (fun _ => h) (ls_ctx x)) x), err) in
  let header x := req_Header (cx_Request (ls_ctx x)) in
  if decide (0 < bwBuffered x)%nat then
    '(h, r, err) ← panics (RequestHeader_readOnce (header x) r);
    let '(x, err) := result x (h, r, err) in
    if decide (err = Some errNeedMore) then
      match bwFlush e x with
      | (x, Some err) => break x (Some err)
      | (x, None) => res ← panics (RequestHeader_Read (header x) r); Go (result x res)
      end
    else Go (x, err)
  else res ← panics (RequestHeader_Read (header x) r); Go (result x res).

(** HeaderReceived may change the limits; they stay changed. *)
Definition headerReceived (s : Server) (e : Env) (x : loopState) : flow loopState :=
  match srv_HeaderReceived s with
  | None => Go x
  | Some onHdrRecv =>
      let '(h, reqConf) := onHdrRecv (req_Header (cx_Request (ls_ctx x))) in
      let x := set_ls_ctx (on_rqHeader (fun _ => h) (ls_ctx x)) x in
      x ← (if 0 <? rc_ReadTimeout reqConf then setReadDeadline e (rc_ReadTimeout reqConf) x else Go x);
      let x := if 0 <? rc_MaxRequestBodySize reqConf then set_ls_maxRequestBodySize (rc_MaxRequestBodySize reqConf) x else x in
      Go (if 0 <? rc_WriteTimeout reqConf then set_ls_writeTimeout (rc_WriteTimeout reqConf) x else x)
  end.

(** What reading a body leaves: a stream has the reader, which br points to as
    well. *)
Definition bodyRead (x : loopState) (req : Request) (src : reader + requestStream) : loopState :=
  let stream := match src with inl _ => None | inr st => Some st end in
  let r := match src with inl r => r | inr st => qs_reader st end in
  set_ls_in (inl r) (set_ls_ctx (set_cx_stream stream (set_cx_Request req (ls_ctx x))) x).

Definition readBodyOf (s : Server) (r : reader) (x : loopState) : flow (loopState * option error) :=
  let req := cx_Request (ls_ctx x) in
  let preParse := negb (srv_DisablePreParseMultipartForm s) in
  if srv_StreamRequestBody s then
    '(req, src, err) ← panics (Request_readBodyStream (emptyRequestStream r) req r (ls_maxRequestBodySize x) (srv_GetOnly s) preParse);
    Go (bodyRead x req src, err)
  else
    '(req, r, err) ← panics (Request_readLimitBody req r (ls_maxRequestBodySize x) (srv_GetOnly s) preParse);
    Go (bodyRead x req (inl r), err).

(** br goes back to the pool when it is empty and memory is to be saved, and after
    an error. *)
Definition releaseReader (s : Server) (err : option error) (x : loopState) : loopState :=
  if (srv_ReduceMemoryUsage s && (brBuffered x =? 0)%nat) || bool_decide (err <> None) then dropReader x else x.

Definition readRequest (s : Server) (e : Env) (x : loopState) : flow (loopState * option error) :=
  '(x, err) ← awaitRequest s e x;
  let x := set_ls_ctx (prepareCtx s (ci_isTLS (env_conn e)) (ls_ctx x)) x in
  match err with
  | Some err => Go (x, Some err)
  | None =>
      x ← (if 0 <? srv_ReadTimeout s then setReadDeadline e (srv_ReadTimeout s) x else Go x);
      let x := set_ls_ctx (disableNormalizing s (ls_ctx x)) x in
      '(x, err) ← readHeader e (getReader s x) x;
      '(x, err) ←
        match err with
        | Some err => Go (x, Some err)
        | None => x ← headerReceived s e x; readBodyOf s (getReader s x) x
        end;
      let x := match err with None => logEv (State StateActive) x | Some _ => x end in
      Go (releaseReader s err x, err)
  end.

(** An error while reading ends the connection: silently when nothing more was
    sent, else with an answer. *)
Definition checkRequest (s : Server) (e : Env) (x : loopState) (err : option error) : flow loopState :=
  match err with
  | None => Go x
  | Some err =>
      let err :=
        match err with
        | EOF => None
        | ErrNothingRead cause => if 1 <? ls_connRequestNum x then None else Some cause
        | _ => Some err
        end in
      match err with
      | None => break x None
      | Some err => x ← writeErrorResponse s e err x; break x (Some err)
      end
  end.

(** ** Expect: 100-continue *)

Definition continueBody (s : Server) (e : Env) (x : loopState) : flow loopState :=
  match bwWrite e 0 strResponseContinue x with
  | (x, Some err) => break x (Some err)
  | (x, None) =>
      match bwFlush e x with
      | (x, Some err) => break x (Some err)
      | (x, None) =>
          let x := if srv_ReduceMemoryUsage s then set_ls_bw None x else x in
          let r := getReader s x in
          let x := set_ls_in (inl r) x in
          let req := cx_Request (ls_ctx x) in
          let preParse := Some (negb (srv_DisablePreParseMultipartForm s)) in
          '(x, err) ←
            (if srv_StreamRequestBody s then
               '(req, src, err) ← panics (Request_ContinueReadBodyStream (emptyRequestStream r) req r (ls_maxRequestBodySize x) preParse);
               Go (bodyRead x req src, err)
             else
               '(req, r, err) ← panics (Request_ContinueReadBody req r (ls_maxRequestBodySize x) preParse);
               Go (bodyRead x req (inl r), err));
          let x := releaseReader s err x in
          match err with
          | None => Go x
          | Some err => x ← writeErrorResponse s e err x; break x (Some err)
          end
      end
  end.

(** A denied request leaves [ls_continue] false; what br had buffered is gone. *)
Definition expectContinue (s : Server) (e : Env) (x : loopState) : flow loopState :=
  if Request_MayContinue (cx_Request (ls_ctx x)) then
    let x :=
      match srv_ContinueHandler s with
      | None => x
      | Some continueHandler =>
          let '(h, continue) := continueHandler (req_Header (cx_Request (ls_ctx x))) in
          let x := set_ls_continue continue (set_ls_ctx (on_rqHeader (fun _ => h) (ls_ctx x)) x) in
          if continue : bool then x
          else
            let x := match ls_in x with inl r => set_ls_in (inl (newReader (r_size r) (r_src r))) x | inr _ => x end in
            set_ls_ctx (RequestCtx_SetStatusCode (ls_ctx x) StatusExpectationFailed) x
      end in
    if ls_continue x then continueBody s e x else Go x
  else Go x.

(** ** Answering *)

(** The handler runs; a Read of a nil stream panics. *)
Fixpoint runHandler (h : handling) (st : option requestStream) : option (RequestCtx * option requestStream) :=
  match h with
  | Finish ctx => Some (ctx, st)
  | ReadBody k next =>
      st ← st;
      '(st, p, err) ← requestStream_Read st k;
      runHandler (next p err) (Some st)
  end.

(** After the handler: br is the reader of the stream; without a br what the
    stream's reader has buffered is lost with it. *)
Definition syncReader (st : option requestStream) (x : loopState) : loopState :=
  match st, ls_in x with
  | None, _ => x
  | Some st, inl _ => set_ls_in (inl (qs_reader st)) x
  | Some st, inr _ => set_ls_in (inr (r_src (qs_reader st))) x
  end.

Definition callHandler (s : Server) (x : loopState) : flow loopState :=
  if ls_continue x then
    '(ctx, st) ← panics (runHandler (srv_Handler s (ls_ctx x)) (cx_stream (ls_ctx x)));
    Go (syncReader st (logEv (Called (ls_ctx x)) (set_ls_ctx (set_cx_stream st ctx) x)))
  else Go x.

(** What the request says about the connection, and the context as the handler
    gets it. *)
Definition wantsClose (s : Server) (x : loopState) : bool :=
  srv_DisableKeepalive s || RequestHeader_ConnectionClose (req_Header (cx_Request (ls_ctx x))).
Definition isHTTP11 (x : loopState) : bool := RequestHeader_IsHTTP11 (req_Header (cx_Request (ls_ctx x))).

Definition handlerCtx (s : Server) (e : Env) (x : loopState) : loopState :=
  let ctx := ls_ctx x in
  let ctx := match serverNameOf s with
             | Some serverName => on_rsHeader (fun h => ResponseHeader_SetServer h serverName) ctx
             | None => ctx
             end in
  let ctx := set_cx_connID (env_connID e) ctx in
  let ctx := set_cx_connRequestNum (ls_connRequestNum x) ctx in
  set_ls_ctx (set_cx_time (env_now e (ls_connRequestNum x)) ctx) x.

(** A handler that timed out keeps its context; a new one carries the response. *)
Definition takeTimeout (s : Server) (e : Env) (x : loopState) : loopState :=
  match cx_timeoutResponse (ls_ctx x) with
  | None => x
  | Some resp =>
      let '(ctx, pool) := acquireCtx s (env_conn e) (env_pick e (ls_connRequestNum x) true) (ls_pool x) in
      set_ls_pool pool (set_ls_ctx (on_Response (Response_CopyTo resp) ctx) x)
  end.

(** The response to a HEAD request has no body; the request is reset, and a
    hijack handler is taken out of the context. *)
Definition skipHeadBody (ctx : RequestCtx) : RequestCtx :=
  if negb (RequestCtx_IsGet ctx) && RequestCtx_IsHead ctx then on_Response (set_resp_SkipBody true) ctx else ctx.

Definition resetRequest (x : loopState) : loopState :=
  set_ls_reqReset true (set_ls_ctx (set_cx_stream None (on_Request Request_Reset (ls_ctx x))) x).

Definition takeHijack (x : loopState) : loopState * option HijackHandler * bool :=
  let ctx := ls_ctx x in
  let hijackHandler := cx_hijackHandler ctx in
  let hijackNoResponse := cx_hijackNoResponse ctx && match hijackHandler with Some _ => true | None => false end in
  (set_ls_ctx (set_cx_hijackNoResponse false (set_cx_hijackHandler None ctx)) x, hijackHandler, hijackNoResponse).

(** The Connection and Server fields of the response; the bool is
    connectionClose. *)
Definition connectionHeaders (s : Server) (e : Env) (connectionClose http11 : bool) (x : loopState) : loopState * bool :=
  let ctx := ls_ctx x in
  let connectionClose := connectionClose || Response_ConnectionClose (cx_Response ctx) in
  let connectionClose := connectionClose || Response_ConnectionClose (cx_Response ctx) ||
                         (srv_CloseOnShutdown s && fst (env_stop e (ls_connRequestNum x))) in
  let ctx :=
    if connectionClose then on_rsHeader (fun h => ResponseHeader_SetCanonical h strConnection strClose) ctx
    else if negb http11 then on_rsHeader (fun h => ResponseHeader_SetCanonical h strConnection strKeepAlive) ctx
    else ctx in
  let ctx :=
    match serverNameOf s with
    | Some serverName =>
        if decide (length (ResponseHeader_Server (resp_Header (cx_Response ctx))) = O)
        then on_rsHeader (fun h => ResponseHeader_SetServer h serverName) ctx else ctx
    | None => ctx
    end in
  (set_ls_ctx ctx x, connectionClose).

(** A response is flushed unless the next request is already there. *)
Definition sendResponse (s : Server) (e : Env) (connectionClose hijacked : bool) (x : loopState) : flow loopState :=
  '(x, err) ← writeResponse e x;
  match err with
  | Some err => break x (Some err)
  | None =>
      let '(x, err) := if (brBuffered x =? 0)%nat || connectionClose then bwFlush e x else (x, None) in
      match err with
      | Some err => break x (Some err)
      | None =>
          if connectionClose then break x None
          else Go (if srv_ReduceMemoryUsage s && negb hijacked then set_ls_bw None x else x)
      end
  end.

(** The connection goes to the hijack handler, with what br has buffered; a
    context br may read through does not go back to the pool. *)
Definition hijackConn (e : Env) (h : HijackHandler) (x : loopState) : flow loopState :=
  let ctxNil := match ls_in x with inl _ => true | inr _ => false end in
  let '(x, err) := match ls_bw x with
                   | Some _ => let '(x, err) := bwFlush e x in (match err with None => set_ls_bw None x | Some _ => x end, err)
                   | None => (x, None)
                   end in
  let err := match err with Some _ => err | None => env_deadlineErr e end in
  match err with
  | Some err => Breaks (MkEnded x ctxNil (Some err) None)
  | None => Breaks (MkEnded (logEv (WriteDeadline 0) (logEv (ReadDeadline 0) x)) ctxNil (Some errHijacked) (Some (h, ls_in x)))
  end.

(** The end of the round.  The request has been reset, so that it has no stream
    to release any more. *)
Definition endRound (e : Env) (x : loopState) : flow loopState :=
  let x := logEv (State StateIdle) x in
  let x := set_ls_ctx (RequestCtx_ResetUserValues (ls_ctx x)) x in
  if snd (env_stop e (ls_connRequestNum x)) then break x None else Go x.

Definition maxRequestsReached (s : Server) (x : loopState) : bool :=
  (0 <? srv_MaxRequestsPerConn s) && (uint64 (srv_MaxRequestsPerConn s) <=? ls_connRequestNum x).

Definition answer (s : Server) (e : Env) (x : loopState) : flow loopState :=
  let connectionClose := wantsClose s x in
  let http11 := isHTTP11 x in
  x ← callHandler s (handlerCtx s e x);
  let x := takeTimeout s e x in
  let x := set_ls_ctx (skipHeadBody (ls_ctx x)) x in
  let x := resetRequest x in
  let '(x, hijackHandler, hijackNoResponse) := takeHijack x in
  let x := if maxRequestsReached s x then set_ls_ctx (RequestCtx_SetConnectionClose (ls_ctx x)) x else x in
  x ← (if 0 <? ls_writeTimeout x then setWriteDeadline e (ls_writeTimeout x) x else Go x);
  let '(x, connectionClose) := connectionHeaders s e connectionClose http11 x in
  x ← (if hijackNoResponse : bool then Go x
       else sendResponse s e connectionClose (match hijackHandler with Some _ => true | None => false end) x);
  match hijackHandler with
  | Some h => hijackConn e h x
  | None => endRound e x
  end.

(** ** The loop *)

Definition round (s : Server) (e : Env) (x : loopState) : flow loopState :=
  '(x, err) ← readRequest s e x;
  x ← checkRequest s e x err;
  x ← expectContinue s e x;
  answer s e x.

(** [None] is a panic, or fuel that has run out. *)
Fixpoint serveLoop (fuel : nat) (s : Server) (e : Env) (x : loopState) : option ended :=
  match fuel with
  | O => None
  | S fuel =>
      match round s e x with
      | Panicked => None
      | Breaks en => Some en
      | Go x => serveLoop fuel s e x
      end
  end.

(** What serveConn leaves: the error, the output, the pool of contexts, the
    trace, and the goroutine that has taken the connection over. *)
Record served := MkServed {
  sv_err : option error;
  sv_out : bytes;
  sv_pool : list RequestCtx;
  sv_trace : list event;
  sv_hijack : option (HijackHandler * (reader + source))
}.

(** The context goes back, its request reset unless some request of the
    connection has been reset before. *)
Definition finishConn (en : ended) : option served :=
  let x := en_state en in
  pool ←
    (if en_ctxNil en then Some (ls_pool x)
     else
       let ctx := ls_ctx x in
       let ctx := if ls_reqReset x then ctx else set_cx_stream None (on_Request Request_Reset ctx) in
       releaseCtx ctx (ls_pool x));
  Some (MkServed (en_err en) (ls_out x) pool (ls_trace x) (en_hijack en)).

Definition getNextProto (s : Server) (e : Env) : option (bytes + error) :=
  if ci_isTLS (env_conn e) then
    if ((0 <? srv_ReadTimeout s) || (0 <? srv_WriteTimeout s)) && bool_decide (env_deadlineErr e <> None) then None
    else Some (env_handshake e)
  else Some (inl []).

Definition startState (s : Server) (e : Env) (src : source) (pool : list RequestCtx) : loopState :=
  let '(ctx, pool) := acquireCtx s (env_conn e) (env_pick e 0 false) pool in
  MkLoopState (set_cx_connTime (env_connTime e) ctx) (inr src) None []
    (if srv_MaxRequestBodySize s <=? 0 then DefaultMaxRequestBodySize else srv_MaxRequestBodySize s)
    (srv_WriteTimeout s) 0 false true pool [].

Definition serveConn (fuel : nat) (s : Server) (e : Env) (src : source) (pool : list RequestCtx) : option served :=
  proto ← getNextProto s e;
  match proto with
  | inr err => Some (MkServed (Some err) [] pool [] None)
  | inl proto =>
      match srv_nextProtos s proto with
      | Some err => Some (MkServed err [] pool [] None)
      | None => en ← serveLoop fuel s e (startState s e src pool); finishConn en
      end
  end.

End Server.
