(* ===== verification/ServerSafety.v ===== *)
(** * server.go: serveConn never panics and ends

    A small program logic for [flow] and, with it, the invariants of the loop of
    serveConn: no input makes it panic, every round takes a byte of the input, and
    what it does to a connection's state is in order. *)
From Stdlib Require Import Strings.String.
From S2P Require Import Prelude BytesConv Consts Args Uri Cookie HeaderScan RequestHeader ResponseHeader Bufio Body HeaderRead Http UserData Streaming RequestCtx Server.

(** ** A logic for [flow] *)

Section Logic.
Context `{ServerLib}.

(** [m] panics only if [pan], breaks in [B], goes on in [P]. *)
Definition flowP {A} (pan : Prop) (B : ended -> Prop) (P : A -> Prop) (m : flow A) : Prop :=
  match m with Panicked => pan | Breaks e => B e | Go a => P a end.

Lemma flowP_bind {A C} pan B (Q : A -> Prop) (P : C -> Prop) (m : flow A) (f : A -> flow C) :
  flowP pan B Q m -> (forall a, Q a -> flowP pan B P (f a)) -> flowP pan B P (m ≫= f).
Proof. destruct m; cbn; auto. Qed.

Lemma flowP_mono {A} pan B (Q P : A -> Prop) (m : flow A) :
  flowP pan B Q m -> (forall a, Q a -> P a) -> flowP pan B P m.
Proof. destruct m; cbn; auto. Qed.

Lemma flowP_panics {A} (pan : Prop) B (P : A -> Prop) (m : option A) :
  (m = None -> pan) -> (forall a, m = Some a -> P a) -> flowP pan B P (panics m).
Proof. destruct m; cbn; auto. Qed.

End Logic.

(** ** Contexts and input *)

Section Safety.
Context `{ServerLib} `{!HttpLaws}.

(** A response whose length is an [int]. *)
Definition sized (resp : Response) : Prop :=
  zlen (Response_bodyBytes resp) <= maxInt /\
  match resp_bodyStream resp with Some st => limitedReaderSize st <= maxInt | None => True end.

Record okCtx (ctx : RequestCtx) : Prop := {
  oc_buffer : wfBuffer (req_body (cx_Request ctx));
  oc_sized : sized (cx_Response ctx);
  oc_timeout : cx_timeoutResponse ctx = None
}.

Definition inputLeft (x : loopState) : nat :=
  match ls_in x with inl r => length (stream r) | inr src => length (concat (src_chunks src)) end.

Definition okIn (i : reader + source) : Prop :=
  match i with inl r => wfReader r | inr src => Forall (fun c => c <> []) (src_chunks src) end.

Record okState (x : loopState) : Prop := {
  os_ctx : okCtx (ls_ctx x);
  os_in : okIn (ls_in x);
  os_max : 0 < ls_maxRequestBodySize x <= 2 ^ 30;
  os_pool : Forall okCtx (ls_pool x)
}.

Definition endOK (en : ended) : Prop := okState (en_state en).

(** What the server's functions and its configuration must satisfy: no streamed
    bodies, limits below 2^30, a handler that returns and whose response has a
    length. *)
Record safeServer (s : Server) : Prop := {
  ss_stream : srv_StreamRequestBody s = false;
  ss_limit : srv_MaxRequestBodySize s <= 2 ^ 30;
  ss_received : forall f h, srv_HeaderReceived s = Some f -> rc_MaxRequestBodySize (snd (f h)) <= 2 ^ 30;
  ss_handler : forall ctx, okCtx ctx -> exists ctx', srv_Handler s ctx = Finish ctx' /\
    wfBuffer (req_body (cx_Request ctx')) /\ sized (cx_Response ctx') /\
    (forall resp, cx_timeoutResponse ctx' = Some resp -> sized resp);
  ss_error : forall f ctx err, srv_ErrorHandler s = Some f -> okCtx ctx -> okCtx (f ctx err)
}.

Lemma okState_ctx x ctx : okState x -> okCtx ctx -> okState (set_ls_ctx ctx x).
Proof. by intros [] ?; split. Qed.

Lemma okState_in x i : okState x -> okIn i -> okState (set_ls_in i x).
Proof. by intros [] ?; split. Qed.

Lemma okState_ext x y :
  okState x -> ls_ctx y = ls_ctx x -> ls_in y = ls_in x -> ls_maxRequestBodySize y = ls_maxRequestBodySize x ->
  ls_pool y = ls_pool x -> okState y.
Proof. intros [C I M P] Ec Ei Em Ep. split; [by rewrite Ec|by rewrite Ei|by rewrite Em|by rewrite Ep]. Qed.

(** Changes to the header of the request or the response, and to a few fields. *)
Lemma okCtx_same ctx ctx' :
  okCtx ctx -> req_body (cx_Request ctx') = req_body (cx_Request ctx) ->
  resp_body (cx_Response ctx') = resp_body (cx_Response ctx) -> resp_bodyRaw (cx_Response ctx') = resp_bodyRaw (cx_Response ctx) ->
  resp_bodyStream (cx_Response ctx') = resp_bodyStream (cx_Response ctx) ->
  cx_timeoutResponse ctx' = cx_timeoutResponse ctx -> okCtx ctx'.
Proof.
  intros [Wb [S1 S2] T] Eb E1 E2 E3 Et. split; [by rewrite Eb| |by rewrite Et].
  unfold sized, Response_bodyBytes in *. by rewrite E1, E2, E3.
Qed.

(** For contexts that differ in a header or in a plain field. *)
Ltac same_ctx := eapply okCtx_same; [eassumption|try reflexivity; by repeat match goal with |- context [match ?b with _ => _ end] => destruct b end..].

Lemma Response_Reset_sized resp : sized (Response_Reset resp).
Proof.
  unfold sized, Response_Reset, Response_resetSkipHeader, Response_ResetBody, Response_bodyBytes, maxInt. cbv zeta.
  destruct resp as [? ? ? [b|] ? ? [] ? ? ?]; cbn; (split; [lia|done]).
Qed.

Lemma Response_CopyTo_sized resp dst : sized resp -> sized (Response_CopyTo resp dst).
Proof.
  intros [S _]. unfold sized, Response_CopyTo, Response_copyToSkipBody. pose proof (Response_Reset_sized dst) as [D Ds].
  revert D Ds. generalize (Response_Reset dst). intros d D Ds. unfold Response_bodyBytes in *.
  destruct resp as [? ? ? [b|] [raw|] ? ? ? ? ?], d as [? ? st [b'|] [raw'|] ? ? ? ? ?]; cbn in *;
    (split; [done || lia|done]).
Qed.

Lemma RequestCtx_Error_ok ctx msg statusCode : okCtx ctx -> zlen msg <= maxInt -> okCtx (RequestCtx_Error ctx msg statusCode).
Proof.
  intros [Wb S T] Hm. split; [done| |done]. unfold sized, RequestCtx_Error, RequestCtx_SetBodyString, Response_SetBody, on_Response.
  by cbn.
Qed.

Lemma newCtx_ok s : okCtx (newCtx s).
Proof. split; [done| |done]. split; [cbn; unfold maxInt; lia|done]. Qed.

Lemma acquireCtx_ok s conn pick pool ctx pool' :
  acquireCtx s conn pick pool = (ctx, pool') -> Forall okCtx pool -> okCtx ctx /\ Forall okCtx pool'.
Proof.
  unfold acquireCtx. intros E F. pose proof (newCtx_ok s) as N.
  destruct pick as [i|]; cbn [mbind option_bind] in E; [|injection E as <- <-; split; [same_ctx|done]].
  destruct (pool !! i) as [c|] eqn:L; cbn [mbind option_bind] in E; injection E as <- <-; (split; [|done || by apply Forall_delete]).
  - assert (okCtx c) by (by eapply Forall_lookup_1). same_ctx.
  - same_ctx.
Qed.

Lemma releaseCtx_ok ctx pool : okCtx ctx -> Forall okCtx pool -> exists pool', releaseCtx ctx pool = Some pool' /\ Forall okCtx pool'.
Proof.
  intros C F. unfold releaseCtx. rewrite (oc_timeout _ C). eexists. split; [reflexivity|]. constructor; [|done]. same_ctx.
Qed.

Lemma getReader_ok s x : okState x -> wfReader (getReader s x) /\ length (stream (getReader s x)) = inputLeft x.
Proof.
  intros O. pose proof (os_in _ O) as I. unfold getReader, inputLeft, okIn in *. destruct (ls_in x) as [r|src]; [done|].
  split; [|done]. apply newReader_wf; [|done]. unfold readerSize. lia.
Qed.


(** ** Writing *)

Lemma ResponseHeader_Header_total sd h : exists h' b, ResponseHeader_Header sd h = Some (h', b).
Proof.
  unfold ResponseHeader_Header. rewrite ResponseHeader_AppendBytes_lines, statusLine_spec. unfold invalidStatusLine.
  destruct (StatusMessage_ok (printedStatus h)) as (s & -> & _). cbn. eauto.
Qed.

Lemma Response_Header_Write_total sd x w : exists x' w', Response_Header_Write sd x w = Some (x', w').
Proof.
  unfold Response_Header_Write. destruct (ResponseHeader_Header_total sd (resp_Header x)) as (h & b & ->). cbn. eauto.
Qed.

Lemma SetContentLength_chunked h : exists h', ResponseHeader_SetContentLength h (-1) = Some h'.
Proof. unfold ResponseHeader_SetContentLength. destruct (ResponseHeader_mustSkipContentLength h); cbn; eauto. Qed.

Lemma Response_Write_total sd x w : sized x -> exists x' w' err, Response_Write sd x w = Some (x', w', err).
Proof.
  intros [Hb Hs]. unfold Response_Write. destruct (resp_bodyStream x) as [st|]; [|].
  - unfold Response_writeBodyStream. cbv zeta.
    destruct ((_ <? 0) && (0 <=? limitedReaderSize st)) eqn:E.
    + apply andb_true_iff in E as [_ E%Z.leb_le].
      destruct (ResponseHeader_SetContentLength_total (resp_Header x) (limitedReaderSize st)) as (d & _ & _ & ->); [lia|].
      cbn [mbind option_bind]. destruct (Z.leb_spec 0 (limitedReaderSize st)); [|lia].
      match goal with |- context [Response_Header_Write sd ?y w] => destruct (Response_Header_Write_total sd y w) as (x1 & w1 & ->) end.
      cbn [mbind option_bind]. case_match; by do 3 eexists.
    + cbn [mbind option_bind]. destruct (0 <=? ResponseHeader_ContentLength (resp_Header x)).
      * destruct (Response_Header_Write_total sd x w) as (x1 & w1 & ->). cbn [mbind option_bind].
        case_match; by do 3 eexists.
      * destruct (SetContentLength_chunked (resp_Header x)) as (h & ->). cbn [mbind option_bind].
        match goal with |- context [Response_Header_Write sd ?y w] => destruct (Response_Header_Write_total sd y w) as (x1 & w1 & ->) end.
        cbn [mbind option_bind]. destruct (negb _); [|by do 3 eexists]. destruct (writeBodyChunked w1 (streamReads st)) as [w2 [e|]]; by do 3 eexists.
  - destruct (_ || _).
    + destruct (ResponseHeader_SetContentLength_total (resp_Header x) (zlen (Response_bodyBytes x))) as (d & _ & _ & ->); [lia|].
      cbn [mbind option_bind].
      match goal with |- context [Response_Header_Write sd ?y w] => destruct (Response_Header_Write_total sd y w) as (x1 & w1 & ->) end.
      cbn. by do 3 eexists.
    + cbn [mbind option_bind]. destruct (Response_Header_Write_total sd x w) as (x1 & w1 & ->). cbn. by do 3 eexists.
Qed.

(** Output changes nothing else. *)
Lemma bwWrite_same e k b x x' err :
  bwWrite e k b x = (x', err) ->
  ls_ctx x' = ls_ctx x /\ ls_in x' = ls_in x /\ ls_maxRequestBodySize x' = ls_maxRequestBodySize x /\ ls_pool x' = ls_pool x.
Proof. unfold bwWrite, connWrite. by intros [= <- <-]. Qed.

Lemma bwFlush_same e x x' err :
  bwFlush e x = (x', err) ->
  ls_ctx x' = ls_ctx x /\ ls_in x' = ls_in x /\ ls_maxRequestBodySize x' = ls_maxRequestBodySize x /\ ls_pool x' = ls_pool x.
Proof. unfold bwFlush, connWrite. by intros [= <- <-]. Qed.

(** The state is in order and its input has not grown. *)
Definition okFrom (x x' : loopState) : Prop := okState x' /\ (inputLeft x' <= inputLeft x)%nat.

Lemma okFrom_in x x' : okState x' -> ls_in x' = ls_in x -> okFrom x x'.
Proof. intros O E. split; [done|]. unfold inputLeft. by rewrite E. Qed.

Lemma okFrom_refl x : okState x -> okFrom x x.
Proof. intros O. by apply okFrom_in. Qed.

Lemma okFrom_trans x y z : okFrom x y -> okFrom y z -> okFrom x z.
Proof. intros [? ?] [? ?]. split; [done|lia]. Qed.

Lemma bwFlush_ok e x : okState x -> okFrom x (fst (bwFlush e x)).
Proof.
  intros O. destruct (bwFlush e x) as [x' err] eqn:E. apply bwFlush_same in E as (? & ? & ? & ?). cbn [fst].
  apply okFrom_in; [by eapply okState_ext|done].
Qed.

Lemma bwWrite_ok e k b x : okState x -> okFrom x (fst (bwWrite e k b x)).
Proof.
  intros O. destruct (bwWrite e k b x) as [x' err] eqn:E. apply bwWrite_same in E as (? & ? & ? & ?). cbn [fst].
  apply okFrom_in; [by eapply okState_ext|done].
Qed.

Lemma writeResponse_ok e x : okState x -> flowP False endOK (fun '(x', err) => okFrom x x') (writeResponse e x).
Proof.
  intros O. pose proof (os_ctx _ O) as C. unfold writeResponse. rewrite (oc_timeout _ C).
  destruct (Response_Write_total (env_serverDate e (ls_connRequestNum x)) (cx_Response (ls_ctx x)) [] (oc_sized _ C)) as (resp & text & err & ->).
  cbn [panics mbind flow_bind]. pose proof (bwWrite_ok e (env_passed e (ls_connRequestNum x)) text x O) as F.
  destruct (bwWrite e (env_passed e (ls_connRequestNum x)) text x) as [x1 werr]. cbn [fst flowP] in *.
  split; [|by destruct F]. apply okState_ctx; [by destruct F|]. destruct C as [Wb _ T]. split; [done|apply Response_Reset_sized|done].
Qed.

Lemma writeErrorResponse_ok s e err x :
  safeServer s -> okState x -> flowP False endOK (okFrom x) (writeErrorResponse s e err x).
Proof.
  intros S O. unfold writeErrorResponse. pose proof (os_ctx _ O) as C. cbv zeta.
  assert (okCtx (default defaultErrorHandler (srv_ErrorHandler s) (ls_ctx x) err)) as C1.
  { destruct (srv_ErrorHandler s) as [f|] eqn:E; cbn [default]; [by apply (ss_error _ S f)|].
    unfold defaultErrorHandler. destruct err; apply RequestCtx_Error_ok; (done || (vm_compute; congruence)). }
  revert C1. generalize (default defaultErrorHandler (srv_ErrorHandler s) (ls_ctx x) err). intros ctx C1.
  set (ctx2 := RequestCtx_SetConnectionClose _).
  assert (okCtx ctx2) as C2 by (subst ctx2; destruct (serverNameOf s); same_ctx). clearbody ctx2.
  eapply flowP_bind; [apply writeResponse_ok|].
  { apply (okState_ext (set_ls_ctx ctx2 x)); [by apply okState_ctx|done..]. }
  intros [x1 werr] F. cbn. eapply okFrom_trans; [exact F|]. apply bwFlush_ok. by destruct F.
Qed.


(** ** The phases of a round *)

Section Phases.
Context (s : Server) (e : Env) (S : safeServer s) (D : env_deadlineErr e = None).

Lemma setReadDeadline_ok (b : bool) d x :
  okState x -> flowP False endOK (fun x' => okFrom x x' /\ ls_ctx x' = ls_ctx x) (if b then setReadDeadline e d x else Go x).
Proof.
  intros O. destruct b; [|split; [by apply okFrom_refl|done]]. unfold setReadDeadline. rewrite D.
  split; [|done]. apply okFrom_in; [by apply (okState_ext x)|done].
Qed.

Lemma setWriteDeadline_ok (b : bool) d x :
  okState x -> flowP False endOK (fun x' => okFrom x x' /\ ls_ctx x' = ls_ctx x) (if b then setWriteDeadline e d x else Go x).
Proof.
  intros O. destruct b; [|split; [by apply okFrom_refl|done]]. unfold setWriteDeadline. rewrite D.
  split; [|done]. apply okFrom_in; [by apply (okState_ext x)|done].
Qed.

Lemma acquireByteReader_ok src x :
  okState x -> ls_in x = inr src -> flowP False endOK (fun '(x', err) => okFrom x x') (acquireByteReader s e src x).
Proof.
  intros O Ei. pose proof (os_in _ O) as I. rewrite Ei in I. unfold acquireByteReader.
  destruct (releaseCtx_ok _ _ (os_ctx _ O) (os_pool _ O)) as (pool & -> & Fp). cbn [panics mbind flow_bind].
  pose proof (srcRead_spec 1 src I ltac:(lia)) as R.
  destruct (acquireCtx s (env_conn e) (env_pick e (ls_connRequestNum x) false) pool) as [ctx pool'] eqn:Ea.
  destruct (acquireCtx_ok _ _ _ _ _ _ Ea Fp) as [C Fp'].
  assert (inputLeft x = length (concat (src_chunks src))) as El by (unfold inputLeft; by rewrite Ei).
  assert (forall i, okIn i -> okState (set_ls_in i (set_ls_pool pool' (set_ls_ctx ctx x)))) as Os.
  { intros i Hi. pose proof (os_max _ O). by split. }
  destruct (concat (src_chunks src)) as [|c l] eqn:Ec.
  - rewrite R. cbn [flowP]. split; [by apply Os|]. unfold inputLeft. cbn. rewrite Ec. simpl. lia.
  - destruct R as (p & src' & -> & Hp & Hl & E2 & _ & F'). destruct p as [|ch [|? ?]]; [done| |simpl in Hl; lia].
    cbn [flowP]. injection E2 as -> E2. split; [|rewrite El, E2; unfold inputLeft, firstByteReader; cbn; by destruct (src_chunks src')].
    apply Os. apply newReader_wf; [unfold readerSize; lia|]. unfold firstByteReader.
    destruct (src_chunks src'); [by repeat constructor|]. inversion F'; subst. by constructor.
Qed.

Lemma awaitRequest_ok x : okState x -> flowP False endOK (fun '(x', err) => okFrom x x') (awaitRequest s e x).
Proof.
  intros O. unfold awaitRequest. cbv zeta. set (x0 := set_ls_connRequestNum _ x).
  assert (okFrom x x0) as F0 by (apply okFrom_in; [by apply (okState_ext x)|done]). destruct F0 as [O0 L0].
  eapply flowP_bind; [by apply setReadDeadline_ok|]. intros x1 [[O1 L1] _].
  eapply (flowP_mono _ _ (fun '(x', err) => okFrom x1 x')); [|intros [x' err] [? ?]; split; [done|lia]].
  destruct (getReader_ok s x1 O1) as [W El].
  assert (flowP False endOK (fun '(x', _) => okFrom x1 x')
    (let r := getReader s x1 in
      if 1 <? ls_connRequestNum x1 then
        let '(b, err, r) := Peek r 1 in
        let x := set_ls_in (inl r) x1 in
        if decide (length b = 0%nat) then
          match err with
          | None => Panicked
          | Some err => Go (x, Some (if decide (err = EOF) then EOF else ErrNothingRead err))
          end
        else Go (x, None)
      else Go (set_ls_in (inl r) x1, None))) as Main.
  { cbv zeta. destruct (1 <? ls_connRequestNum x1).
    - destruct (Peek_spec (getReader s x1) 1 W) as (b & err & r' & -> & Es & Ss & _ & _ & _ & He).
      assert (okFrom x1 (set_ls_in (inl r') x1)) as F.
      { split; [apply okState_in; [done|by eapply sameSource_wf]|]. rewrite <- El. unfold inputLeft. cbn. by rewrite Es. }
      case_decide as Db; [|done]. destruct err; [done|]. exfalso. destruct He as [-> Hl].
      rewrite length_take in Db. rewrite <- Es in Db. unfold stream in Db. rewrite length_app in Db. lia.
    - split; [by apply okState_in|]. rewrite <- El. done. }
  destruct (ls_in x1) as [r|src] eqn:Ei; [exact Main|]. destruct (srv_ReduceMemoryUsage s); [by apply acquireByteReader_ok|exact Main].
Qed.

Lemma prepareCtx_ok b ctx : okCtx ctx -> okCtx (prepareCtx s b ctx).
Proof. intros C. same_ctx. Qed.

Lemma disableNormalizing_ok ctx : okCtx ctx -> okCtx (disableNormalizing s ctx).
Proof. intros C. unfold disableNormalizing. destruct (srv_DisableHeaderNamesNormalizing s); [same_ctx|done]. Qed.

(** Reading a head takes a byte if it succeeds. *)
Definition okRead (x : loopState) '((x', err) : loopState * option error) : Prop :=
  okState x' /\ (inputLeft x' + (match err with Some _ => 0 | None => 1 end) <= inputLeft x)%nat.

Lemma headResult_ok x h r (err : option error) n :
  okState x -> wfReader r -> (length (stream r) + (match err with Some _ => 0 | None => 1 end) <= n)%nat ->
  okState (set_ls_in (inl r) (set_ls_ctx (on_rqHeader (fun _ => h) (ls_ctx x)) x)) /\
  (inputLeft (set_ls_in (inl r) (set_ls_ctx (on_rqHeader (fun _ => h) (ls_ctx x)) x)) + (match err with Some _ => 0 | None => 1 end) <= n)%nat.
Proof.
  intros O W Hl. split; [|done]. apply okState_in; [|done]. apply okState_ctx; [done|]. pose proof (os_ctx _ O). same_ctx.
Qed.

Lemma advanced_length (err : option error) r r' :
  advanced false r r' -> (err = None -> advanced true r r') -> (length (stream r') + (match err with Some _ => 0 | None => 1 end) <= length (stream r))%nat.
Proof. intros [_ A] B. destruct err; [lia|]. destruct (B eq_refl). lia. Qed.

Lemma readHeader_ok r x :
  okState x -> wfReader r -> length (stream r) = inputLeft x -> flowP False endOK (okRead x) (readHeader e r x).
Proof.
  intros O W El. unfold readHeader. cbv zeta.
  assert (forall x1 h r, okState x1 -> wfReader r -> (length (stream r) <= inputLeft x)%nat -> flowP False endOK (okRead x)
    (res ← panics (RequestHeader_Read h r);
     Go (let '(h, r, err) := res in (set_ls_in (inl r) (set_ls_ctx (on_rqHeader (fun _ => h) (ls_ctx x1)) x1), err)))) as Full.
  { intros x1 h r1 O1 W1 L1. unfold RequestHeader_Read.
    destruct (readHead_total h r1 W1) as (h' & r' & err & -> & A & _ & At). cbn [panics mbind flow_bind flowP].
    apply headResult_ok; [done|by eauto with gobytes|]. pose proof (advanced_length err r1 r' A At). lia. }
  destruct (decide (0 < bwBuffered x)%nat); [|apply Full; [done..|lia]].
  unfold RequestHeader_readOnce, RequestHeader_tryRead.
  destruct (tryRead_total (req_Header (cx_Request (ls_ctx x))) r 1 W ltac:(lia)) as (h' & r' & err & -> & A & At & _).
  cbn [panics mbind option_bind flow_bind].
  destruct (headResult_ok x (match err with None => h' | Some _ => RequestHeader_resetSkipNormalize h' end) r' err (inputLeft x))
    as [O1 L1]; [done|by eauto with gobytes|pose proof (advanced_length err r r' A At); lia|].
  destruct (decide (err = Some errNeedMore)) as [->|N].
  - match goal with |- context [bwFlush e ?y] => pose proof (bwFlush_ok e y O1) as [O2 L2]; destruct (bwFlush e y) as [x2 [err|]] eqn:Ef end;
      [by cbn|]. apply Full; [done|by eauto with gobytes|]. destruct A. lia.
  - split; [exact O1|exact L1].
Qed.

Lemma headerReceived_ok x :
  okState x -> flowP False endOK (okFrom x) (headerReceived s e x).
Proof.
  intros O. unfold headerReceived. destruct (srv_HeaderReceived s) as [f|] eqn:Ef; [|by apply okFrom_refl].
  destruct (f (req_Header (cx_Request (ls_ctx x)))) as [h conf] eqn:Ec.
  pose proof (ss_received s S f (req_Header (cx_Request (ls_ctx x))) Ef) as Hc. rewrite Ec in Hc. cbn [snd] in Hc. cbv zeta.
  set (x0 := set_ls_ctx _ x). assert (okFrom x x0) as F0.
  { apply okFrom_in; [|done]. apply okState_ctx; [done|]. pose proof (os_ctx _ O). same_ctx. }
  destruct F0 as [O0 L0]. eapply flowP_bind; [by apply setReadDeadline_ok|]. intros x1 [[O1 L1] _]. cbn [flowP].
  apply (okFrom_trans _ x1); [split; [done|lia]|].
  assert (okState (if 0 <? rc_MaxRequestBodySize conf then set_ls_maxRequestBodySize (rc_MaxRequestBodySize conf) x1 else x1)) as O2.
  { destruct (Z.ltb_spec 0 (rc_MaxRequestBodySize conf)); [|done]. destruct O1. split; cbn; try done; lia. }
  assert (ls_in (if 0 <? rc_MaxRequestBodySize conf then set_ls_maxRequestBodySize (rc_MaxRequestBodySize conf) x1 else x1) = ls_in x1) as E2
    by (by destruct (0 <? rc_MaxRequestBodySize conf)).
  apply okFrom_in; destruct (0 <? rc_WriteTimeout conf); try done. by eapply okState_ext.
Qed.

Lemma bodyRead_ok x req r :
  okState x -> wfBuffer (req_body req) -> wfReader r -> okState (bodyRead x req (inl r)).
Proof.
  intros O Wb W. unfold bodyRead. apply okState_in; [|done]. apply okState_ctx; [done|]. destruct (os_ctx _ O) as [_ Sz T]. by split.
Qed.

Lemma readBodyOf_ok r x :
  okState x -> wfReader r -> (length (stream r) <= inputLeft x)%nat ->
  flowP False endOK (fun '(x', err) => okFrom x x' /\ cx_stream (ls_ctx x') = None) (readBodyOf s r x).
Proof.
  intros O W El. unfold readBodyOf. rewrite (ss_stream s S). cbv zeta.
  destruct (Request_readLimitBody_safe (cx_Request (ls_ctx x)) r (ls_maxRequestBodySize x) (srv_GetOnly s) (negb (srv_DisablePreParseMultipartForm s)))
    as (y & r' & err & -> & A & Wy); [apply (os_ctx _ O)|done|apply (os_max _ O)|].
  cbn [panics mbind flow_bind flowP]. split; [|done]. split; [apply bodyRead_ok; [done..|by eauto with gobytes]|].
  unfold inputLeft at 1. cbn. destruct A. lia.
Qed.

Lemma dropReader_ok x : okState x -> okFrom x (dropReader x).
Proof.
  intros O. pose proof (os_in _ O) as I. unfold dropReader. destruct (ls_in x) as [r|src] eqn:Ei; [|by apply okFrom_refl].
  split; [apply okState_in; [done|by apply (wfr_src _ I)]|]. unfold inputLeft. rewrite Ei. cbn. unfold stream. rewrite length_app. lia.
Qed.

Lemma releaseReader_ok err x : okState x -> okFrom x (releaseReader s err x) /\ ls_ctx (releaseReader s err x) = ls_ctx x.
Proof.
  intros O. unfold releaseReader. destruct (_ || _); [|split; [by apply okFrom_refl|done]].
  split; [by apply dropReader_ok|]. unfold dropReader. by destruct (ls_in x).
Qed.

(** With an error or not: a request that was read took a byte, and has no
    stream. *)
Definition okRequest (x : loopState) '((x', err) : loopState * option error) : Prop :=
  okState x' /\ (inputLeft x' + (match err with Some _ => 0 | None => 1 end) <= inputLeft x)%nat /\
  (err = None -> cx_stream (ls_ctx x') = None).

Lemma readRequest_ok x : okState x -> flowP False endOK (okRequest x) (readRequest s e x).
Proof.
  intros O. unfold readRequest. eapply flowP_bind; [by apply awaitRequest_ok|]. intros [x1 err1] [O1 L1]. cbv zeta.
  set (x2 := set_ls_ctx (prepareCtx _ _ _) x1).
  assert (okFrom x1 x2) as [O2 L2] by (apply okFrom_in; [apply okState_ctx; [done|apply prepareCtx_ok, O1]|done]).
  destruct err1 as [err1|]; [cbn; split_and!; [done|lia|done]|].
  eapply flowP_bind; [by apply setReadDeadline_ok|]. intros x3 [[O3 L3] _].
  set (x4 := set_ls_ctx (disableNormalizing _ _) x3).
  assert (okFrom x3 x4) as [O4 L4] by (apply okFrom_in; [apply okState_ctx; [done|apply disableNormalizing_ok, O3]|done]).
  destruct (getReader_ok s x4 O4) as [W4 E4]. eapply flowP_bind; [by apply readHeader_ok|]. intros [x5 err5] [O5 L5].
  eapply (flowP_bind _ _ (fun '(x', err) => okState x' /\ (inputLeft x' + (match err with Some _ => 0 | None => 1 end) <= inputLeft x)%nat /\
    (err = None -> cx_stream (ls_ctx x') = None))).
  - destruct err5 as [err5|]; [cbn; split_and!; [done|lia|done]|]. eapply flowP_bind; [by apply headerReceived_ok|].
    intros x6 [O6 L6]. destruct (getReader_ok s x6 O6) as [W6 E6].
    eapply flowP_mono; [apply readBodyOf_ok; [done..|lia]|]. intros [x7 err7] [[O7 L7] Es].
    split; [done|]. split; [destruct err7; lia|done].
  - intros [x6 err6] (O6 & L6 & E6). cbn [flowP]. set (x7 := match err6 with None => _ | Some _ => x6 end).
    assert (okFrom x6 x7 /\ ls_ctx x7 = ls_ctx x6) as [[O7 L7] E7].
    { subst x7. destruct err6; (split; [apply okFrom_in; [by apply (okState_ext x6)|done]|done]). }
    destruct (releaseReader_ok err6 x7 O7) as [[O8 L8] E8]. split; [done|]. split; [lia|]. rewrite E8, E7. done.
Qed.

Lemma checkRequest_ok x err : okState x -> flowP False endOK (fun x' => x' = x /\ err = None) (checkRequest s e x err).
Proof.
  intros O. unfold checkRequest. destruct err as [err|]; [|done].
  assert (forall err', flowP False endOK (fun x' => x' = x /\ Some err = None)
    (x ← writeErrorResponse s e err' x; break x (Some err'))) as Fail.
  { intros err'. eapply flowP_bind; [by apply writeErrorResponse_ok|]. intros x1 [O1 _]. exact O1. }
  cbv zeta. destruct err; try exact (Fail _); [exact O|]. destruct (1 <? ls_connRequestNum x); [exact O|apply Fail].
Qed.


Definition noStream (x : loopState) : Prop := cx_stream (ls_ctx x) = None.

Lemma continueBody_ok x : okState x -> flowP False endOK (fun x' => okFrom x x' /\ noStream x') (continueBody s e x).
Proof.
  intros O. unfold continueBody. pose proof (bwWrite_ok e 0 strResponseContinue x O) as [O1 L1].
  destruct (bwWrite e 0 strResponseContinue x) as [x1 [err|]]; [exact O1|]. cbn [fst] in *.
  pose proof (bwFlush_ok e x1 O1) as [O2 L2]. destruct (bwFlush e x1) as [x2 [err|]]; [exact O2|]. cbn [fst] in *. cbv zeta.
  set (x3 := if srv_ReduceMemoryUsage s then set_ls_bw None x2 else x2).
  assert (okFrom x2 x3) as [O3 L3].
  { subst x3. destruct (srv_ReduceMemoryUsage s); [|by apply okFrom_refl]. apply okFrom_in; [by apply (okState_ext x2)|done]. }
  clearbody x3. destruct (getReader_ok s x3 O3) as [W3 E3].
  assert (okState (set_ls_in (inl (getReader s x3)) x3)) as O4 by (by apply okState_in).
  rewrite (ss_stream s S). cbn [set_ls_in ls_ctx ls_maxRequestBodySize].
  destruct (Request_ContinueReadBody_safe (cx_Request (ls_ctx x3)) (getReader s x3) (ls_maxRequestBodySize x3)
    (Some (negb (srv_DisablePreParseMultipartForm s)))) as (y & r' & err & -> & A & Wy);
    [apply (os_ctx _ O3)|done|apply (os_max _ O3)|].
  cbn [panics mbind flow_bind]. set (x5 := bodyRead _ y (inl r')).
  assert (okFrom x3 x5 /\ noStream x5) as [[O5 L5] N5].
  { split; [|done]. split; [apply bodyRead_ok; [done..|by eauto with gobytes]|]. unfold inputLeft at 1. cbn. destruct A. lia. }
  clearbody x5. destruct (releaseReader_ok err x5 O5) as [[O6 L6] E6].
  destruct err as [err|]; [|split; [split; [done|lia]|by unfold noStream; rewrite E6]].
  eapply flowP_bind; [by apply writeErrorResponse_ok|]. intros x7 [O7 _]. exact O7.
Qed.

Lemma expectContinue_ok x :
  okState x -> noStream x -> flowP False endOK (fun x' => okFrom x x' /\ noStream x') (expectContinue s e x).
Proof.
  intros O N. unfold expectContinue. destruct (Request_MayContinue _); [|split; [by apply okFrom_refl|done]].
  set (x1 := match srv_ContinueHandler s with None => x | Some _ => _ end).
  assert (okFrom x x1 /\ noStream x1) as [[O1 L1] N1].
  { subst x1. destruct (srv_ContinueHandler s) as [f|]; [|split; [by apply okFrom_refl|done]].
    destruct (f (req_Header (cx_Request (ls_ctx x)))) as [h continue]. cbv zeta.
    set (x2 := set_ls_continue continue _). assert (okState x2 /\ ls_in x2 = ls_in x /\ noStream x2) as (O2 & E2 & N2).
    { split; [|done]. apply (okState_ext (set_ls_ctx (on_rqHeader (fun _ => h) (ls_ctx x)) x)); [|done..].
      apply okState_ctx; [done|]. pose proof (os_ctx _ O). same_ctx. }
    clearbody x2. destruct continue; [split; [by apply okFrom_in|done]|].
    set (x3 := match ls_in x2 with inl _ => _ | inr _ => x2 end).
    assert (okFrom x2 x3 /\ noStream x3) as [[O3 L3] N3].
    { pose proof (os_in _ O2) as I. subst x3. destruct (ls_in x2) as [r|src] eqn:Ei; [|split; [by apply okFrom_refl|done]].
      split; [|done]. split.
      - apply okState_in; [done|]. apply newReader_wf; [apply (wfr_size _ I)|apply (wfr_src _ I)].
      - unfold inputLeft. rewrite Ei. cbn. unfold stream. rewrite length_app. cbn. lia. }
    clearbody x3. split; [|done]. split; [|unfold inputLeft in *; rewrite E2 in *; done].
    apply okState_ctx; [done|]. pose proof (os_ctx _ O3). same_ctx. }
  clearbody x1. destruct (ls_continue x1); [|by split]. eapply flowP_mono; [by apply continueBody_ok|].
  intros x2 [[O2 L2] N2]. split; [split; [done|lia]|done].
Qed.

Lemma takeTimeout_ok x :
  wfBuffer (req_body (cx_Request (ls_ctx x))) -> sized (cx_Response (ls_ctx x)) ->
  (forall resp, cx_timeoutResponse (ls_ctx x) = Some resp -> sized resp) ->
  okIn (ls_in x) -> 0 < ls_maxRequestBodySize x <= 2 ^ 30 -> Forall okCtx (ls_pool x) ->
  okFrom x (takeTimeout s e x).
Proof.
  intros Wb Sz T I M P. unfold takeTimeout. destruct (cx_timeoutResponse (ls_ctx x)) as [resp|] eqn:Et.
  - destruct (acquireCtx s (env_conn e) (env_pick e (ls_connRequestNum x) true) (ls_pool x)) as [ctx pool] eqn:Ea.
    destruct (acquireCtx_ok _ _ _ _ _ _ Ea P) as [[Wc Sc Tc] Fp]. apply okFrom_in; [|done]. split; [|done|done|done].
    split; [done| |done]. cbn. by apply Response_CopyTo_sized, T.
  - apply okFrom_refl. by split.
Qed.

Lemma callHandler_ok x :
  okState x -> noStream x -> flowP False endOK (fun x' => okFrom x (takeTimeout s e x')) (callHandler s x).
Proof.
  intros O N. pose proof (os_ctx _ O) as C. unfold callHandler. destruct (ls_continue x).
  - destruct (ss_handler s S (ls_ctx x) C) as (ctx & -> & Wb & Sz & T). rewrite N. cbn [runHandler panics mbind flow_bind flowP syncReader].
    match goal with |- okFrom x (takeTimeout s e ?y) => destruct (takeTimeout_ok y) as [Ot Lt] end; try done; try apply O.
  - cbn [flowP]. destruct C as [Wb Sz T]. apply takeTimeout_ok; try done; try apply O. intros resp. by rewrite T.
Qed.

Lemma hijackConn_ok h x : okState x -> flowP False endOK (fun _ => False) (hijackConn e h x).
Proof.
  intros O. unfold hijackConn. cbv zeta.
  set (res := match ls_bw x with Some _ => _ | None => (x, None) end).
  assert (okState (fst res)) as O1.
  { subst res. destruct (ls_bw x); [|done]. pose proof (bwFlush_ok e x O) as [O1 _].
    destruct (bwFlush e x) as [x1 [err|]]; cbn [fst] in *; [done|]. by apply (okState_ext x1). }
  destruct res as [x1 err]. cbn [fst] in O1. rewrite D.
  destruct err; cbn [flowP]; [exact O1|]. by apply (okState_ext x1).
Qed.

Lemma sendResponse_ok (close hijacked : bool) x : okState x -> flowP False endOK (okFrom x) (sendResponse s e close hijacked x).
Proof.
  intros O. unfold sendResponse. eapply flowP_bind; [by apply writeResponse_ok|]. intros [x1 err1] [O1 L1].
  destruct err1 as [err1|]; [exact O1|].
  match goal with |- context [if ?b then bwFlush e x1 else ?z] => set (res := if b then bwFlush e x1 else z) end.
  assert (okFrom x1 (fst res)) as [O2 L2].
  { subst res. destruct (_ || _); [by apply bwFlush_ok|by apply okFrom_refl]. }
  destruct res as [x2 [err2|]]; cbn [fst] in *; [exact O2|]. destruct close; [exact O2|]. cbn [flowP].
  destruct (_ && _); [|split; [done|lia]]. split; [by apply (okState_ext x2)|]. unfold inputLeft in *. cbn. lia.
Qed.

Lemma endRound_ok x : okState x -> flowP False endOK (okFrom x) (endRound e x).
Proof.
  intros O. unfold endRound. cbv zeta. set (x1 := set_ls_ctx _ _).
  assert (okState x1 /\ ls_in x1 = ls_in x) as [O1 E1].
  { split; [|done]. apply okState_ctx; [by apply (okState_ext x)|]. pose proof (os_ctx _ O). same_ctx. }
  clearbody x1. destruct (snd _); [exact O1|]. by apply okFrom_in.
Qed.

Lemma connectionHeaders_ok close http11 x x' close' :
  okState x -> connectionHeaders s e close http11 x = (x', close') -> okFrom x x'.
Proof.
  intros O E. unfold connectionHeaders in E. injection E as <- _. apply okFrom_in; [|done]. apply okState_ctx; [done|].
  pose proof (os_ctx _ O) as C. set (ctx1 := if _ || _ || _ then _ else _).
  assert (okCtx ctx1) as C1 by (subst ctx1; same_ctx). clearbody ctx1. clear C.
  destruct (serverNameOf s); [|done]. case_decide; [same_ctx|done].
Qed.

Lemma answer_ok x : okState x -> noStream x -> flowP False endOK (okFrom x) (answer s e x).
Proof.
  intros O N. unfold answer. cbv zeta. set (x0 := handlerCtx s e x).
  assert (okFrom x x0 /\ noStream x0) as [[O0 L0] N0].
  { split; [|subst x0; unfold noStream, handlerCtx in *; cbn; by destruct (serverNameOf s)].
    apply okFrom_in; [|done]. apply okState_ctx; [done|]. pose proof (os_ctx _ O). destruct (serverNameOf s); same_ctx. }
  eapply flowP_bind; [by apply callHandler_ok|]. intros x1 [O1 L1]. revert O1 L1. generalize (takeTimeout s e x1). clear x1. intros x1 O1 L1.
  set (x2 := set_ls_ctx (skipHeadBody (ls_ctx x1)) x1).
  assert (okFrom x1 x2) as [O2 L2].
  { apply okFrom_in; [|done]. apply okState_ctx; [done|]. pose proof (os_ctx _ O1). unfold skipHeadBody. destruct (_ && _); [same_ctx|done]. }
  set (x3 := resetRequest x2). assert (okFrom x2 x3) as [O3 L3].
  { apply okFrom_in; [|done]. destruct O2 as [[Wb Sz T] I M P]. split; try done. split; [by apply Request_Reset_buffer|done|done]. }
  destruct (takeHijack x3) as [[x4 hijack] noResponse] eqn:Eh. unfold takeHijack in Eh. injection Eh as E4 _ _.
  assert (okFrom x3 x4) as [O4 L4].
  { subst x4. apply okFrom_in; [|done]. apply okState_ctx; [done|]. pose proof (os_ctx _ O3). same_ctx. }
  set (x5 := if maxRequestsReached s x4 then _ else x4). assert (okFrom x4 x5) as [O5 L5].
  { subst x5. destruct (maxRequestsReached s x4); [|by apply okFrom_refl]. apply okFrom_in; [|done]. apply okState_ctx; [done|].
    pose proof (os_ctx _ O4). same_ctx. }
  eapply flowP_bind; [by apply setWriteDeadline_ok|]. intros x6 [[O6 L6] _].
  destruct (connectionHeaders s e _ _ x6) as [x7 close] eqn:Ec. destruct (connectionHeaders_ok _ _ _ _ _ O6 Ec) as [O7 L7].
  eapply (flowP_bind _ _ (okFrom x7)).
  { destruct noResponse; [by apply okFrom_refl|by apply sendResponse_ok]. }
  intros x8 [O8 L8]. destruct hijack as [h|].
  - eapply flowP_mono; [by apply hijackConn_ok|done].
  - eapply flowP_mono; [by apply endRound_ok|]. intros x9 [O9 L9]. split; [done|lia].
Qed.

(** A round that goes on has taken a byte. *)
Lemma round_ok x : okState x -> flowP False endOK (fun x' => okState x' /\ (inputLeft x' < inputLeft x)%nat) (round s e x).
Proof.
  intros O. unfold round. eapply flowP_bind; [by apply readRequest_ok|]. intros [x1 err] (O1 & L1 & N1).
  eapply flowP_bind; [by apply checkRequest_ok|]. intros x2 [-> ->]. specialize (N1 eq_refl).
  eapply flowP_bind; [by apply expectContinue_ok|]. intros x3 [[O3 L3] N3].
  eapply flowP_mono; [by apply answer_ok|]. intros x4 [O4 L4]. split; [done|lia].
Qed.

Lemma serveLoop_ok fuel x :
  okState x -> (inputLeft x < fuel)%nat -> exists en, serveLoop fuel s e x = Some en /\ endOK en.
Proof.
  revert x. induction fuel as [|fuel IH]; intros x O Hf; [lia|]. cbn [serveLoop].
  pose proof (round_ok x O) as R. destruct (round s e x) as [|en|x1]; [done|eauto|].
  destruct R as [O1 L1]. apply IH; [done|lia].
Qed.

Lemma finishConn_ok en : endOK en -> exists sv, finishConn en = Some sv /\ Forall okCtx (sv_pool sv).
Proof.
  intros O. unfold endOK in O. unfold finishConn. cbv zeta. destruct (en_ctxNil en); cbn [mbind option_bind].
  { eexists. split; [reflexivity|]. apply (os_pool _ O). }
  assert (okCtx (if ls_reqReset (en_state en) then ls_ctx (en_state en)
                 else set_cx_stream None (on_Request Request_Reset (ls_ctx (en_state en))))) as C.
  { destruct (ls_reqReset (en_state en)); [apply O|]. destruct (os_ctx _ O) as [Wb Sz T]. split; [by apply Request_Reset_buffer|done|done]. }
  destruct (releaseCtx_ok _ _ C (os_pool _ O)) as (pool & -> & Fp). cbn [mbind option_bind]. eexists. split; [reflexivity|exact Fp].
Qed.

Lemma startState_ok src pool :
  Forall (fun c => c <> []) (src_chunks src) -> Forall okCtx pool ->
  okState (startState s e src pool) /\ inputLeft (startState s e src pool) = length (concat (src_chunks src)).
Proof.
  intros F P. unfold startState.
  destruct (acquireCtx s (env_conn e) (env_pick e 0 false) pool) as [ctx pool'] eqn:Ea.
  destruct (acquireCtx_ok _ _ _ _ _ _ Ea P) as [C P']. split; [|done]. split; [same_ctx|done| |done].
  cbn. pose proof (ss_limit s S). unfold DefaultMaxRequestBodySize. destruct (Z.leb_spec (srv_MaxRequestBodySize s) 0); lia.
Qed.

Lemma serveConn_ok fuel src pool :
  Forall (fun c => c <> []) (src_chunks src) -> Forall okCtx pool -> (length (concat (src_chunks src)) < fuel)%nat ->
  exists sv, serveConn fuel s e src pool = Some sv /\ Forall okCtx (sv_pool sv).
Proof.
  intros F P Hf. unfold serveConn, getNextProto. rewrite D. rewrite (bool_decide_eq_false_2 (None <> None)) by (intros Q; by apply Q).
  rewrite andb_false_r.
  set (proto := if ci_isTLS (env_conn e) then _ else _).
  assert (exists p, proto = Some p) as [p ->] by (subst proto; destruct (ci_isTLS (env_conn e)); eauto). cbn [mbind option_bind].
  destruct p as [proto'|err]; [|by eexists]. destruct (srv_nextProtos s proto'); [by eexists|].
  destruct (startState_ok src pool F P) as [O L]. destruct (serveLoop_ok fuel (startState s e src pool) O) as (en & -> & Oe); [lia|].
  cbn [mbind option_bind]. by apply finishConn_ok.
Qed.

End Phases.
End Safety.

(** ** The life of a connection *)

(** The states reported to the ConnState hook, refined by whether the handler has
    been called for the current request, and the number of that request. *)
Inductive connPhase := PNew | PActive | PCalled | PIdle.

Section Trace.
Context `{ServerLib}.

Definition phaseStep (st : option (connPhase * Z)) (ev : event) : option (connPhase * Z) :=
  '(p, n) ← st;
  match p, ev with
  | PNew, State StateActive | PIdle, State StateActive => Some (PActive, uint64 (n + 1))
  | PActive, Called ctx => if decide (cx_connRequestNum ctx = n) then Some (PCalled, n) else None
  | PActive, State StateIdle | PCalled, State StateIdle => Some (PIdle, n)
  | _, ReadDeadline _ | _, WriteDeadline _ | _, Failed _ => Some (p, n)
  | _, _ => None
  end.

Definition life (trace : list event) : option (connPhase * Z) := foldl phaseStep (Some (PNew, 0)) trace.

#[local] Arguments life : simpl never.

Definition alive (en : ended) : Prop := life (ls_trace (en_state en)) <> None.

(** [x'] is later than [x], in the same round, and nothing has been reported. *)
Definition quiet (x x' : loopState) : Prop :=
  life (ls_trace x') = life (ls_trace x) /\ ls_connRequestNum x' = ls_connRequestNum x.

#[local] Instance quiet_refl : Reflexive quiet.
Proof. done. Qed.
#[local] Instance quiet_trans : Transitive quiet.
Proof. intros x y z [? ?] [? ?]. split; congruence. Qed.

Lemma life_snoc l ev : life (l ++ [ev]) = phaseStep (life l) ev.
Proof. unfold life. by rewrite foldl_app. Qed.

Lemma logEv_quiet ev x :
  (forall st, phaseStep st ev = st) -> quiet x (logEv ev x).
Proof. intros E. split; [|done]. cbn. by rewrite life_snoc. Qed.

Lemma setReadDeadline_quiet B e (b : bool) d x : flowP True B (quiet x) (if b then setReadDeadline e d x else Go x).
Proof.
  destruct b; [|by cbn]. unfold setReadDeadline. destruct (env_deadlineErr e); [done|].
  apply logEv_quiet. by intros [[[] ?]|].
Qed.

Lemma setWriteDeadline_quiet B e (b : bool) d x : flowP True B (quiet x) (if b then setWriteDeadline e d x else Go x).
Proof.
  destruct b; [|by cbn]. unfold setWriteDeadline. destruct (env_deadlineErr e); [done|].
  apply logEv_quiet. by intros [[[] ?]|].
Qed.

Lemma bwWrite_quiet e k b x : quiet x (fst (bwWrite e k b x)).
Proof. done. Qed.

Lemma bwFlush_quiet e x : quiet x (fst (bwFlush e x)).
Proof. done. Qed.

Lemma writeResponse_quiet B e x : flowP True B (fun '(x', _) => quiet x x') (writeResponse e x).
Proof.
  unfold writeResponse. destruct (cx_timeoutResponse _); [done|]. destruct (Response_Write _ _ _) as [[[resp text] err]|]; [|done].
  cbn [panics mbind flow_bind]. pose proof (bwWrite_quiet e (env_passed e (ls_connRequestNum x)) text x) as Q.
  destruct (bwWrite _ _ _ _) as [x1 werr]. exact Q.
Qed.

Lemma writeErrorResponse_quiet B s e err x : flowP True B (quiet x) (writeErrorResponse s e err x).
Proof.
  unfold writeErrorResponse. cbv zeta. eapply flowP_bind; [apply writeResponse_quiet|]. intros [x1 werr] Q.
  cbn [flowP]. transitivity x1; [|apply bwFlush_quiet]. etransitivity; [|exact Q].
  match goal with |- quiet _ (logEv _ ?y) => transitivity y; [done|] end. apply logEv_quiet. by intros [[[] ?]|].
Qed.

Lemma breaks_alive {A} x err (P : A -> Prop) : life (ls_trace x) <> None -> flowP True alive P (break x err).
Proof. done. Qed.

Lemma awaitRequest_quiet s e x :
  flowP True alive (fun '(x', _) => life (ls_trace x') = life (ls_trace x) /\ ls_connRequestNum x' = uint64 (ls_connRequestNum x + 1))
    (awaitRequest s e x).
Proof.
  unfold awaitRequest. cbv zeta. eapply flowP_bind; [apply setReadDeadline_quiet|]. intros x1 [Q1 Q2].
  assert (forall x2, quiet x1 x2 -> life (ls_trace x2) = life (ls_trace x) /\ ls_connRequestNum x2 = uint64 (ls_connRequestNum x + 1)) as Main
    by (intros x2 [-> ->]; done).
  assert (flowP True alive (fun '(x', _) => life (ls_trace x') = life (ls_trace x) /\ ls_connRequestNum x' = uint64 (ls_connRequestNum x + 1))
    (let r := getReader s x1 in
      if 1 <? ls_connRequestNum x1 then
        let '(b, err, r) := Peek r 1 in
        let x := set_ls_in (inl r) x1 in
        if decide (length b = 0%nat) then
          match err with
          | None => Panicked
          | Some err => Go (x, Some (if decide (err = EOF) then EOF else ErrNothingRead err))
          end
        else Go (x, None)
      else Go (set_ls_in (inl r) x1, None))) as Rd.
  { cbv zeta. destruct (1 <? _); [|by apply Main]. destruct (Peek _ _) as [[b err] r].
    case_decide; [destruct err; [|done]|]; by apply Main. }
  destruct (ls_in x1) as [r|src]; [exact Rd|]. destruct (srv_ReduceMemoryUsage s); [|exact Rd].
  unfold acquireByteReader. destruct (releaseCtx _ _); [|done]. cbn [panics mbind flow_bind].
  destruct (srcRead 1 src) as [b src']. destruct (acquireCtx _ _ _ _) as [ctx pool].
  destruct b as [[|ch [|? ?]]|]; try done; by apply Main.
Qed.

Lemma readHeader_quiet e r x : life (ls_trace x) <> None -> flowP True alive (fun '(x', _) => quiet x x') (readHeader e r x).
Proof.
  intros L. unfold readHeader. cbv zeta.
  assert (forall h r x1, quiet x x1 -> flowP True alive (fun '(x', _) => quiet x x')
    (res ← panics (RequestHeader_Read h r);
     Go (let '(h, r, err) := res in (set_ls_in (inl r) (set_ls_ctx (on_rqHeader (fun _ => h) (ls_ctx x1)) x1), err)))) as Full.
  { intros h r1 x1 Q. destruct (RequestHeader_Read h r1) as [[[h' r'] err]|]; [|done]. exact Q. }
  case_decide; [|by apply Full]. destruct (RequestHeader_readOnce _ _) as [[[h' r'] err]|]; [|done].
  cbn [panics mbind flow_bind]. case_decide; [|done].
  match goal with |- context [bwFlush e ?y] => pose proof (bwFlush_quiet e y) as Q; destruct (bwFlush e y) as [x2 [err2|]] end; cbn [fst] in Q.
  - apply breaks_alive. destruct Q as [-> _]. exact L.
  - by apply Full.
Qed.

Lemma headerReceived_quiet B s e x : flowP True B (quiet x) (headerReceived s e x).
Proof.
  unfold headerReceived. destruct (srv_HeaderReceived s) as [f|]; [|by cbn]. destruct (f _) as [h conf]. cbv zeta.
  eapply flowP_bind; [apply setReadDeadline_quiet|]. intros x1 Q. cbn [flowP]. etransitivity; [exact Q|].
  by destruct (0 <? rc_MaxRequestBodySize conf), (0 <? rc_WriteTimeout conf).
Qed.

Lemma readBodyOf_quiet B s r x : flowP True B (fun '(x', _) => quiet x x') (readBodyOf s r x).
Proof.
  unfold readBodyOf. cbv zeta. destruct (srv_StreamRequestBody s).
  - by destruct (Request_readBodyStream _ _ _ _ _ _) as [[[req src] err]|].
  - by destruct (Request_readLimitBody _ _ _ _ _) as [[[req r'] err]|].
Qed.

Lemma releaseReader_quiet s err x : quiet x (releaseReader s err x).
Proof. unfold releaseReader, dropReader. destruct (_ || _); [|done]. by destruct (ls_in x). Qed.

(** The beginning of a round: new or idle, [n] requests so far. *)
Definition resting (x : loopState) : Prop :=
  life (ls_trace x) = Some (PNew, ls_connRequestNum x) \/ life (ls_trace x) = Some (PIdle, ls_connRequestNum x).
Definition active (x : loopState) : Prop := life (ls_trace x) = Some (PActive, ls_connRequestNum x).
Definition handled (x : loopState) : Prop :=
  life (ls_trace x) = Some (PActive, ls_connRequestNum x) \/ life (ls_trace x) = Some (PCalled, ls_connRequestNum x).

Lemma quiet_active x x' : quiet x x' -> active x -> active x'.
Proof. intros [E1 E2]. unfold active. by rewrite E1, E2. Qed.

Lemma quiet_handled x x' : quiet x x' -> handled x -> handled x'.
Proof. intros [E1 E2]. unfold handled. by rewrite E1, E2. Qed.

Lemma active_alive x : active x -> life (ls_trace x) <> None.
Proof. unfold active. by intros ->. Qed.

Lemma handled_alive x : handled x -> life (ls_trace x) <> None.
Proof. by intros [-> | ->]. Qed.

Lemma readRequest_life s e x :
  resting x ->
  flowP True alive (fun '(x', err) => match err with None => active x' | Some _ => life (ls_trace x') <> None end) (readRequest s e x).
Proof.
  intros R. assert (life (ls_trace x) <> None) as L by (by destruct R as [-> | ->]).
  unfold readRequest. eapply flowP_bind; [apply awaitRequest_quiet|]. intros [x1 err1] [E1 N1]. cbv zeta.
  destruct err1 as [err1|]; [cbn; by rewrite E1|].
  eapply flowP_bind; [apply setReadDeadline_quiet|]. intros x2 Q2. cbn [ls_trace ls_connRequestNum set_ls_ctx] in Q2.
  assert (quiet x1 x2) as Q2' by exact Q2. clear Q2.
  eapply flowP_bind; [apply readHeader_quiet; destruct Q2' as [Q _]; cbn; by rewrite Q, E1|]. intros [x3 err3] Q3.
  assert (quiet x1 x3) as Q3' by (transitivity x2; [done|exact Q3]).
  eapply (flowP_bind _ _ (fun '(x', _) => quiet x1 x')).
  - destruct err3; [done|]. eapply flowP_bind; [apply headerReceived_quiet|]. intros x4 Q4.
    eapply flowP_mono; [apply readBodyOf_quiet|]. intros [x5 err5] Q5. by rewrite Q3', Q4.
  - intros [x5 err5] [E5 N5]. cbn [flowP].
    destruct err5 as [err5|]; [destruct (releaseReader_quiet s (Some err5) x5) as [-> _]; by rewrite E5, E1|].
    eapply quiet_active; [apply releaseReader_quiet|]. unfold active. cbn. rewrite life_snoc, E5, E1, N5, N1.
    by destruct R as [-> | ->].
Qed.

Lemma checkRequest_life s e x err :
  match err with None => active x | Some _ => life (ls_trace x) <> None end ->
  flowP True alive active (checkRequest s e x err).
Proof.
  unfold checkRequest. destruct err as [err|]; [|done]. intros L. cbv zeta.
  assert (forall err', flowP True alive active (x ← writeErrorResponse s e err' x; break x (Some err'))) as Fail.
  { intros err'. eapply flowP_bind; [apply writeErrorResponse_quiet|]. intros x1 [E1 _]. apply breaks_alive. by rewrite E1. }
  destruct err; try exact (Fail _); [exact L|]. destruct (1 <? ls_connRequestNum x); [exact L|apply Fail].
Qed.

Lemma continueBody_life s e x : active x -> flowP True alive active (continueBody s e x).
Proof.
  intros A. unfold continueBody. pose proof (bwWrite_quiet e 0 strResponseContinue x) as Q1.
  destruct (bwWrite _ _ _ _) as [x1 [err|]]; cbn [fst] in Q1.
  { apply breaks_alive, active_alive. by eapply quiet_active. }
  pose proof (bwFlush_quiet e x1) as Q2. destruct (bwFlush e x1) as [x2 [err|]]; cbn [fst] in Q2.
  { apply breaks_alive, active_alive. eapply quiet_active; [exact Q2|]. by eapply quiet_active. }
  cbv zeta. set (x3 := if srv_ReduceMemoryUsage s then _ else x2).
  assert (quiet x x3) as Q3.
  { transitivity x1; [done|]. transitivity x2; [done|]. subst x3. by destruct (srv_ReduceMemoryUsage s). }
  clearbody x3. eapply (flowP_bind _ _ (fun '(x', _) => quiet x x')).
  - destruct (srv_StreamRequestBody s).
    + by destruct (Request_ContinueReadBodyStream _ _ _ _ _) as [[[req src] err]|].
    + by destruct (Request_ContinueReadBody _ _ _ _) as [[[req r'] err]|].
  - intros [x4 err4] Q4. pose proof (releaseReader_quiet s err4 x4) as Q5.
    assert (active (releaseReader s err4 x4)) as A5 by (eapply quiet_active; [by transitivity x4|exact A]).
    destruct err4 as [err4|]; [|exact A5]. eapply flowP_bind; [apply writeErrorResponse_quiet|]. intros x6 Q6.
    apply breaks_alive, active_alive. by eapply quiet_active.
Qed.

Lemma expectContinue_life s e x : active x -> flowP True alive active (expectContinue s e x).
Proof.
  intros A. unfold expectContinue. destruct (Request_MayContinue _); [|done]. cbv zeta.
  set (x1 := match srv_ContinueHandler s with None => x | Some _ => _ end).
  assert (active x1) as A1.
  { subst x1. destruct (srv_ContinueHandler s) as [f|]; [|done]. destruct (f _) as [h continue]. destruct continue; [done|].
    by destruct (ls_in _). }
  clearbody x1. destruct (ls_continue x1); [by apply continueBody_life|exact A1].
Qed.

Lemma callHandler_life s x :
  active x -> cx_connRequestNum (ls_ctx x) = ls_connRequestNum x -> flowP True alive handled (callHandler s x).
Proof.
  intros A N. unfold callHandler. destruct (ls_continue x); [|by left].
  destruct (runHandler _ _) as [[ctx st]|]; [|done]. cbn [panics mbind flow_bind flowP]. right.
  assert (forall y, life (ls_trace y) = Some (PCalled, ls_connRequestNum x) -> ls_connRequestNum y = ls_connRequestNum x ->
    life (ls_trace (syncReader st y)) = Some (PCalled, ls_connRequestNum (syncReader st y))) as Sync.
  { intros y E1 E2. unfold syncReader. destruct st; [|by rewrite E2]. destruct (ls_in y); cbn; by rewrite E1, E2. }
  apply Sync; [|done]. cbn. rewrite life_snoc, A. cbn. by rewrite decide_True.
Qed.

Lemma sendResponse_life s e close hijacked x : handled x -> flowP True alive handled (sendResponse s e close hijacked x).
Proof.
  intros A. unfold sendResponse. eapply flowP_bind; [apply writeResponse_quiet|]. intros [x1 err1] Q1.
  apply (quiet_handled _ _ Q1) in A. destruct err1; [by apply handled_alive|].
  match goal with |- context [if ?b then bwFlush e x1 else ?z] => set (res := if b then bwFlush e x1 else z) end.
  assert (handled (fst res)) as A2.
  { subst res. destruct (_ || _); [|done]. eapply quiet_handled; [apply bwFlush_quiet|done]. }
  destruct res as [x2 [err2|]]; cbn [fst] in A2; [by apply handled_alive|]. destruct close; [by apply handled_alive|].
  cbn [flowP]. by destruct (_ && _).
Qed.

Lemma hijackConn_life e h x : handled x -> flowP True alive resting (hijackConn e h x).
Proof.
  intros A. unfold hijackConn. cbv zeta. set (res := match ls_bw x with Some _ => _ | None => (x, None) end).
  assert (handled (fst res)) as A1.
  { subst res. destruct (ls_bw x); [|done]. pose proof (bwFlush_quiet e x) as Q. destruct (bwFlush e x) as [x1 [err|]]; cbn [fst] in *;
      (eapply quiet_handled; [exact Q|done]). }
  destruct res as [x1 err]. cbn [fst] in A1.
  destruct (match err with Some _ => err | None => env_deadlineErr e end); [by apply handled_alive|].
  unfold alive. cbn. unfold alive. cbn [en_state]. rewrite !life_snoc. by destruct A1 as [-> | ->].
Qed.

Lemma answer_life s e x : active x -> flowP True alive resting (answer s e x).
Proof.
  intros A. unfold answer. cbv zeta. eapply flowP_bind; [by apply callHandler_life|]. intros x1 A1.
  set (x2 := set_ls_ctx (skipHeadBody _) _).
  assert (handled x2) as A2.
  { subst x2. unfold handled in *. cbn. unfold takeTimeout. destruct (cx_timeoutResponse _); [|exact A1].
    by destruct (acquireCtx _ _ _ _). }
  clearbody x2. destruct (takeHijack (resetRequest x2)) as [[x3 hijack] noResponse] eqn:E3. unfold takeHijack in E3. injection E3 as E3 _ _.
  assert (handled x3) as A3 by (by subst x3).
  set (x4 := if maxRequestsReached s x3 then _ else x3). assert (handled x4) as A4 by (subst x4; by destruct (maxRequestsReached s x3)).
  eapply flowP_bind; [apply setWriteDeadline_quiet|]. intros x5 Q5. apply (quiet_handled _ _ Q5) in A4.
  destruct (connectionHeaders s e _ _ x5) as [x6 close] eqn:E6. unfold connectionHeaders in E6. injection E6 as E6 _.
  assert (handled x6) as A6 by (by subst x6).
  eapply (flowP_bind _ _ handled); [destruct noResponse; [exact A6|by apply sendResponse_life]|].
  intros x7 A7. destruct hijack as [h|]; [by apply hijackConn_life|]. unfold endRound. cbv zeta.
  set (x8 := set_ls_ctx _ _). assert (resting x8) as R8.
  { subst x8. right. cbn. rewrite life_snoc. by destruct A7 as [-> | ->]. }
  clearbody x8. destruct (snd _); [|exact R8]. apply breaks_alive. by destruct R8 as [-> | ->].
Qed.

Lemma round_life s e x : resting x -> flowP True alive resting (round s e x).
Proof.
  intros R. unfold round. eapply flowP_bind; [by apply readRequest_life|]. intros [x1 err] L1.
  eapply flowP_bind; [by apply checkRequest_life|]. intros x2 A2.
  eapply flowP_bind; [by apply expectContinue_life|]. intros x3 A3. by apply answer_life.
Qed.

Lemma serveLoop_life fuel s e x en : resting x -> serveLoop fuel s e x = Some en -> alive en.
Proof.
  revert x. induction fuel as [|fuel IH]; intros x R; cbn [serveLoop]; [done|].
  pose proof (round_life s e x R) as L. destruct (round s e x) as [|en'|x']; [done|by intros [= <-]|by apply IH].
Qed.

End Trace.

(** ** A server to run *)

#[export] Instance plainServerLib : @ServerLib plainLib := {|
  UserValue := nat;
  isCloser := fun _ => false;
  HijackHandler := nat;
  FileHeader := unit;
  form_Value := fun _ _ => [];
  form_File := fun _ => None;
  gunzip := fun _ => inr ErrUnexpectedEOF
|}.

Definition plainServer (h : @RequestCtx plainLib plainServerLib -> @RequestCtx plainLib plainServerLib) : @Server plainLib plainServerLib :=
  MkServer (fun ctx => Finish (h ctx)) None None None (fun _ => None) [] 0 0 0 0 0 0
    false false false false false false true true false false false.

Definition plainEnv : Env :=
  MkEnv (MkConnInfo None None false) (inl []) None 1 0 (fun _ => 0) (fun _ => []) (fun _ _ => None) (fun _ => 0%nat) (2 ^ 30)
    (IOError 1) (fun _ => (false, false)).

(** It answers with the body it got. *)
Definition echo (ctx : @RequestCtx plainLib plainServerLib) : @RequestCtx plainLib plainServerLib :=
  let '(ctx, body) := RequestCtx_PostBody ctx in RequestCtx_SetBody ctx body.

Definition crlfs (lines : list bytes) : bytes := concat (map (fun l => l ++ strCRLF) lines).

(** * Properties *)

(** C5. No input makes serveConn panic or go on for ever: whatever a client
    sends, in whatever pieces, and whatever the peer takes of the output, every
    round of the loop takes a byte of the input, so that serveConn returns, and the
    contexts it gives back to the pool are usable.  The server must not stream
    request bodies, its limits must be below 2^30, and its handler must return. *)
Theorem serveConn_total {L : HttpLib} {SL : ServerLib} (HL : HttpLaws) (s : Server) (e : Env) (src : source)
    (pool : list RequestCtx) (Hs : safeServer s) (Hd : env_deadlineErr e = None)
    (F : Forall (fun c => c <> []) (src_chunks src)) (P : Forall okCtx pool) :
  exists sv, serveConn (S (length (concat (src_chunks src)))) s e src pool = Some sv /\ Forall okCtx (sv_pool sv).
Proof. apply serveConn_ok; [done..|lia]. Qed.

Lemma plain_echo_safe : safeServer (plainServer (fun ctx => RequestCtx_SetBody ctx (bs "hi"))).
Proof.
  split; cbn; try done; try lia. intros ctx [Wb [Sz St] T]. eexists. split; [reflexivity|].
  split; [exact Wb|]. split; [|cbn; by rewrite T]. split; [cbn; unfold maxInt; lia|done].
Qed.

Lemma serveConn_total_witness :
  let s := plainServer (fun ctx => RequestCtx_SetBody ctx (bs "hi")) in
  let src := MkSource [bs "GET / HT"; bs "TP/1.1"; strCRLF ++ bs "Host: a" ++ strCRLF ++ strCRLF ++ bs "GE"] NetTimeout in
  (@HttpLaws plainLib /\ safeServer s /\ env_deadlineErr plainEnv = None /\ Forall (fun c => c <> []) (src_chunks src)) /\
  exists sv, serveConn (S (length (concat (src_chunks src)))) s plainEnv src [] = Some sv /\ Forall okCtx (sv_pool sv).
Proof.
  match goal with |- let s := ?s0 in let src := ?src0 in _ => assert (Forall (fun c => c <> []) (src_chunks src0)) as F by (repeat constructor; done) end.
  split; [split_and!; [exact plainLib_laws|exact plain_echo_safe|done|exact F]|].
  apply (serveConn_total plainLib_laws _ plainEnv _ [] plain_echo_safe); [done|exact F|constructor].
Defined.

(** C6. A connection's life is what the ConnState hook documents, for every
    server, handler and input: from new or idle to active and back to idle; the
    handler is called at most once for a request, after the connection has become
    active and before it becomes idle, and its context carries the number of the
    request on the connection. *)
Theorem serveConn_life {L : HttpLib} {SL : ServerLib} (fuel : nat) (s : Server) (e : Env) (src : source) (pool : list RequestCtx) :
  match serveConn fuel s e src pool with
  | Some sv => life (sv_trace sv) <> None
  | None => True
  end.
Proof.
  unfold serveConn. destruct (getNextProto s e) as [[proto|err]|]; cbn [mbind option_bind]; [|done..].
  destruct (srv_nextProtos s proto); [done|].
  destruct (serveLoop fuel s e (startState s e src pool)) as [en|] eqn:E; cbn [mbind option_bind]; [|done].
  apply serveLoop_life in E; [|left; unfold startState; by destruct (acquireCtx _ _ _ _)].
  unfold finishConn. cbv zeta. destruct (en_ctxNil en); cbn [mbind option_bind]; [exact E|].
  destruct (releaseCtx _ _); [exact E|done].
Qed.

(** Example: a request, its answer, and the states. *)
Definition postHello : bytes :=
  crlfs [bs "POST /a HTTP/1.1"; bs "Host: h"; bs "Content-Length: 5"; []] ++ bs "hello".

Example serve_echo :
  option_map (fun sv => (sv_err sv, sv_out sv, length (sv_trace sv)))
    (serveConn 99 (plainServer echo) plainEnv (MkSource [postHello] EOF) []) =
  Some (None, crlfs [bs "HTTP/1.1 200 OK"; bs "Content-Type: text/plain; charset=utf-8"; bs "Content-Length: 5"; []] ++ bs "hello", 3%nat).
Proof. vm_compute. reflexivity. Qed.
