(* ===== verification/ServerHazards.v ===== *)
(** * server.go: runs of serveConn that go wrong

    Each theorem runs the model of serveConn on a concrete input and shows an
    output that the comments of the code do not promise. *)
From Stdlib Require Import Strings.String.
From S2P Require Import Prelude BytesConv Consts Args Uri Cookie HeaderScan RequestHeader ResponseHeader Bufio Body HeaderRead Http UserData Streaming RequestCtx Server ServerSafety.

(** ** Servers and connections *)

Abbreviation Ctx := (@RequestCtx plainLib plainServerLib).

Definition reducing (s : @Server plainLib plainServerLib) : @Server plainLib plainServerLib :=
  MkServer (srv_Handler s) (srv_ErrorHandler s) (srv_HeaderReceived s) (srv_ContinueHandler s) (srv_nextProtos s) (srv_Name s)
    (srv_ReadBufferSize s) (srv_ReadTimeout s) (srv_WriteTimeout s) (srv_IdleTimeout s) (srv_MaxRequestsPerConn s)
    (srv_MaxRequestBodySize s) (srv_DisableKeepalive s) true (srv_GetOnly s) (srv_DisablePreParseMultipartForm s)
    (srv_DisableHeaderNamesNormalizing s) (srv_SecureErrorLogMessage s) (srv_NoDefaultServerHeader s) (srv_NoDefaultDate s)
    (srv_NoDefaultContentType s) (srv_CloseOnShutdown s) (srv_StreamRequestBody s).

(** A server with hooks for errors, heads and expectations, and a size limit. *)
Definition hooked (h : Ctx -> Ctx) (onError : option (Ctx -> error -> Ctx)) (onHeader : option (RequestHeader -> RequestHeader * RequestConfig))
    (onContinue : option (RequestHeader -> RequestHeader * bool)) (maxBody : Z) : @Server plainLib plainServerLib :=
  MkServer (fun ctx => Finish (h ctx)) onError onHeader onContinue (fun _ => None) [] 0 0 0 0 0 maxBody
    false false false false false false true true false false false.

(** The pool hands out its first context; Shutdown has been called. *)
Definition poolEnv : Env :=
  MkEnv (MkConnInfo None None false) (inl []) None 2 0 (fun _ => 0) (fun _ => []) (fun _ _ => Some O) (fun _ => 0%nat) (2 ^ 30)
    (IOError 1) (fun _ => (false, false)).
Definition stoppingEnv : Env :=
  MkEnv (MkConnInfo None None false) (inl []) None 1 0 (fun _ => 0) (fun _ => []) (fun _ _ => None) (fun _ => 0%nat) (2 ^ 30)
    (IOError 1) (fun _ => (true, true)).

Definition getPath (p : bytes) : bytes := crlfs [bs "GET " ++ p ++ bs " HTTP/1.1"; bs "Host: h"; []].
Definition sendPath (ctx : Ctx) : Ctx := let '(ctx, p) := RequestCtx_Path ctx in RequestCtx_SetBody ctx p.
Definition okText (body : bytes) : bytes :=
  crlfs [bs "HTTP/1.1 200 OK"; bs "Content-Type: text/plain; charset=utf-8"; bs "Content-Length: " ++ fmtInt (zlen body); []] ++ body.

(** Two requests in one packet are answered in order. *)
Example serve_pipelined :
  option_map sv_out (serveConn 99 (plainServer sendPath) plainEnv (MkSource [getPath (bs "/a") ++ getPath (bs "/b")] EOF) []) =
  Some (okText (bs "/a") ++ okText (bs "/b")).
Proof. vm_compute. reflexivity. Qed.

(** * Properties *)

(** With ReduceMemoryUsage the response to a request that has another one
    behind it in the buffer is lost: it is not flushed, to save a write, and then
    its bufio.Writer goes back to the pool. *)
Lemma serveConn_ReduceMemoryUsage_drops :
  option_map (fun sv => (sv_err sv, sv_out sv))
    (serveConn 99 (reducing (plainServer sendPath)) plainEnv (MkSource [getPath (bs "/a") ++ getPath (bs "/b")] EOF) []) =
  Some (None, okText (bs "/b")).
Proof. vm_compute. reflexivity. Qed.

(** During Shutdown a response that was kept back for the same reason is dropped:
    the loop ends without a flush. *)
Lemma serveConn_shutdown_drops :
  option_map (fun sv => (sv_err sv, sv_out sv))
    (serveConn 99 (plainServer sendPath) stoppingEnv (MkSource [getPath (bs "/a") ++ getPath (bs "/b")] EOF) []) =
  Some (None, []).
Proof. vm_compute. reflexivity. Qed.

(** Every expectation is refused. *)
Definition refuse : @Server plainLib plainServerLib :=
  hooked sendPath None None (Some (fun h => (h, false))) 0.

Definition expectPost : bytes :=
  crlfs [bs "POST /a HTTP/1.1"; bs "Host: h"; bs "Content-Length: 5"; bs "Expect: 100-continue"; []].

(** A request refused by ContinueHandler silences the handler for the rest of
    the connection: the variable that says so is set outside the loop and only
    ContinueHandler sets it again.  The next request gets an empty 200. *)
Lemma serveConn_refusal_sticks :
  option_map (fun sv => (sv_out sv, length (List.filter (fun ev => match ev with Called _ => true | _ => false end) (sv_trace sv))))
    (serveConn 99 refuse plainEnv (MkSource [expectPost; getPath (bs "/b")] EOF) []) =
  Some (crlfs [bs "HTTP/1.1 417 Expectation Failed"; bs "Content-Length: 0"; []] ++
        crlfs [bs "HTTP/1.1 200 OK"; bs "Content-Length: 0"; []], 0%nat).
Proof. vm_compute. reflexivity. Qed.

Definition logPath (ctx : Ctx) (err : error) : Ctx := RequestCtx_Error (fst (RequestCtx_Path ctx)) (bs "no") 400.
Definition tooLarge : bytes := crlfs [bs "POST /other HTTP/1.1"; bs "Host: h"; bs "Content-Length: 99"; []].

(** A context can come back to the pool with the URI of its last request: a
    second request that fails after its head was read is not reset, because the
    first one was.  An ErrorHandler that looks at the path (logging does) leaves it
    parsed there, and the handler of the next connection sees the path of the
    failed request instead of its own. *)
Lemma serveConn_stale_path :
  match serveConn 99 (hooked sendPath (Some logPath) None None 9) plainEnv (MkSource [getPath (bs "/a"); tooLarge] EOF) [] with
  | Some sv1 =>
      sv_err sv1 = Some ErrBodyTooLarge /\
      option_map sv_out (serveConn 99 (plainServer sendPath) poolEnv (MkSource [getPath (bs "/mine")] EOF) (sv_pool sv1)) =
      Some (okText (bs "/other"))
  | None => False
  end.
Proof. vm_compute. done. Qed.

(** After a timeout the response to HEAD has a body: whether to skip it is asked
    of the new context, whose request is empty.  The client takes the body for the
    next response.  The server's NoDefaultDate is forgotten as well. *)
Definition slow (ctx : Ctx) : Ctx := RequestCtx_TimeoutErrorWithCode ctx (bs "slow") 503.

Lemma serveConn_timeout_head :
  option_map sv_out (serveConn 99 (plainServer slow) plainEnv (MkSource [crlfs [bs "HEAD / HTTP/1.1"; bs "Host: h"; []]] EOF) []) =
  Some (crlfs [bs "HTTP/1.1 503 Service Unavailable"; bs "Date: "; bs "Content-Type: text/plain; charset=utf-8"; bs "Content-Length: 4"; []] ++ bs "slow").
Proof. vm_compute. reflexivity. Qed.

(** The limits HeaderReceived sets for one request, which its comment calls per
    request, hold for all later ones: here a limit of 9 for /a refuses 10 bytes
    sent to /b. *)
Definition limitA (h : RequestHeader) : RequestHeader * RequestConfig :=
  (h, MkRequestConfig 0 0 (if decide (rq_requestURI h = bs "/a") then 9 else 0)).

Lemma serveConn_limits_stick :
  option_map sv_err (serveConn 99 (hooked sendPath None (Some limitA) None 0) plainEnv
    (MkSource [getPath (bs "/a"); crlfs [bs "POST /b HTTP/1.1"; bs "Host: h"; bs "Content-Length: 10"; []] ++ bs "0123456789"] EOF) []) =
  Some (Some ErrBodyTooLarge).
Proof. vm_compute. reflexivity. Qed.
