(* ===== verification/ServerPipeline.v ===== *)
(** * server.go: a keep-alive connection is a sequence of exchanges

    The loop of serveConn against its specification: the requests of a client,
    written one after the other, are answered one after the other by the handler,
    in whatever pieces they arrive and however the output is buffered. *)
From Stdlib Require Import Strings.String.
From S2P Require Import Prelude BytesConv Consts Args Uri Cookie HeaderScan RequestHeader ResponseHeader Bufio Body HeaderRead Http UserData Streaming RequestCtx Server ServerSafety.

Section Pipeline.
Context `{ServerLib}.

(** ** What the handler gets, and what it must do *)

(** A response that nothing has been put into but the server's name. *)
Record freshResponse (server : bytes) (r : Response) : Prop := {
  fr_stream : resp_bodyStream r = None;
  fr_raw : resp_bodyRaw r = None;
  fr_body : match resp_body r with None => True | Some b => sl b = [] end;
  fr_skip : resp_SkipBody r = false;
  fr_status : rs_statusCode (resp_Header r) = 0;
  fr_close : rs_connectionClose (resp_Header r) = false;
  fr_headers : live (rs_h (resp_Header r)) = [] /\ live (rs_cookies (resp_Header r)) = [];
  fr_type : rs_contentType (resp_Header r) = [];
  fr_length : rs_contentLength (resp_Header r) = 0 /\ rs_contentLengthBytes (resp_Header r) = [];
  fr_server : rs_server (resp_Header r) = server
}.

(** A context between two requests. *)
Record cleanCtx (ctx : RequestCtx) : Prop := {
  cc_body : freshBody (cx_Request ctx);
  cc_uri : req_parsedURI (cx_Request ctx) = false;
  cc_norm : rq_disableNormalizing (req_Header (cx_Request ctx)) = false;
  cc_response : freshResponse [] (cx_Response ctx);
  cc_timeout : cx_timeoutResponse ctx = None;
  cc_hijack : cx_hijackHandler ctx = None;
  cc_stream : cx_stream ctx = None
}.

(** The message a client has written: the request [x1] with its URI in the header,
    and the header [h] that is printed. *)
Definition message : Type := Request * RequestHeader.
Definition messageText (q : message) : bytes :=
  RequestHeader_AppendBytes (snd q) [] ++ (if requestHasBody (fst q) then requestPayload (fst q) else []).

(** The context of request number [n]: header and body as they were sent, nothing
    of earlier requests. *)
Record received (s : Server) (n : Z) (q : message) (ctx : RequestCtx) : Prop := {
  rv_header : sameRequest (snd q) (req_Header (cx_Request ctx));
  rv_body : snd (Request_Body (cx_Request ctx)) = requestPayload (fst q);
  rv_uri : req_parsedURI (cx_Request ctx) = false;
  rv_num : cx_connRequestNum ctx = n;
  rv_response : freshResponse (default [] (serverNameOf s)) (cx_Response ctx);
  rv_timeout : cx_timeoutResponse ctx = None;
  rv_hijack : cx_hijackHandler ctx = None
}.

(** The handler answers with [text], which is what Write makes of its response,
    and lets the connection go on. *)
Record answers (s : Server) (e : Env) (n : Z) (ctx : RequestCtx) (text : bytes) : Prop := {
  an_run : exists ctx' r', srv_Handler s ctx = Finish ctx' /\
    cx_timeoutResponse ctx' = None /\ cx_hijackHandler ctx' = None /\
    Response_ConnectionClose (cx_Response ctx') = false /\
    (serverNameOf s = None \/ rs_server (resp_Header (cx_Response ctx')) <> []) /\
    Response_Write (env_serverDate e n) (cx_Response (skipHeadBody ctx')) [] = Some (r', text, None)
}.

(** Requests [n + 1], [n + 2], ..., the contexts the handler is called with, and
    its answers. *)
Inductive conversation (s : Server) (e : Env) : Z -> list message -> list RequestCtx -> list bytes -> Prop :=
| conversation_nil n : conversation s e n [] [] []
| conversation_cons n q qs ctx ctxs text texts :
    received s (n + 1) q ctx -> answers s e (n + 1) ctx text ->
    conversation s e (n + 1) qs ctxs texts -> conversation s e n (q :: qs) (ctx :: ctxs) (text :: texts).

(** ** The setting *)

Definition bodyLimit (s : Server) : Z :=
  if srv_MaxRequestBodySize s <=? 0 then DefaultMaxRequestBodySize else srv_MaxRequestBodySize s.

(** A keep-alive server without hooks, on a connection that takes all output. *)
Record keepsAlive (s : Server) (e : Env) : Prop := {
  ka_received : srv_HeaderReceived s = None;
  ka_stream : srv_StreamRequestBody s = false;
  ka_get : srv_GetOnly s = false;
  ka_memory : srv_ReduceMemoryUsage s = false;
  ka_keepalive : srv_DisableKeepalive s = false;
  ka_max : srv_MaxRequestsPerConn s <= 0;
  ka_preparse : srv_DisablePreParseMultipartForm s = false;
  ka_deadline : env_deadlineErr e = None;
  ka_stop : forall n, env_stop e n = (false, false);
  ka_proto : exists p, getNextProto s e = Some (inl p) /\ srv_nextProtos s p = None
}.

(** A message the server can take. *)
Record sentBy (s : Server) (q : message) : Prop := {
  sb_sendable : sendable (srv_DisableHeaderNamesNormalizing s) (fst q) (snd q);
  sb_http11 : RequestHeader_Protocol (snd q) = strHTTP11;
  sb_close : rq_connectionClose (snd q) = false;
  sb_head : (length (RequestHeader_AppendBytes (snd q) []) <= readerSize s)%nat;
  sb_body : zlen (requestPayload (fst q)) <= bodyLimit s /\ zlen (requestPayload (fst q)) <= 2 ^ 31
}.

(** ** Output with room *)

Definition output (x : loopState) : bytes := ls_out x ++ default [] (ls_bw x).

(** Everything but context, input and output. *)
Definition sameVars (x x' : loopState) : Prop :=
  ls_connRequestNum x' = ls_connRequestNum x /\ ls_continue x' = ls_continue x /\
  ls_maxRequestBodySize x' = ls_maxRequestBodySize x /\ ls_writeTimeout x' = ls_writeTimeout x /\ ls_pool x' = ls_pool x.

Lemma bwWrite_room e k b x :
  zlen (output x ++ b) <= env_room e ->
  exists x', bwWrite e k b x = (x', None) /\ output x' = output x ++ b /\ ls_ctx x' = ls_ctx x /\ ls_in x' = ls_in x /\ sameVars x x'.
Proof.
  intros Hl. unfold bwWrite, connWrite. set (pending := default [] (ls_bw x) ++ b).
  assert (output x ++ b = ls_out x ++ pending) as Eo by (unfold output, pending; by rewrite app_assoc).
  assert (zlen (take k pending) <= env_room e - zlen (ls_out x)) as L.
  { rewrite Eo, length_app in Hl. rewrite length_take. lia. }
  apply Z.leb_le in L. rewrite L. eexists. split; [reflexivity|]. split; [|done].
  rewrite Eo. unfold output. cbn. rewrite <- app_assoc. f_equal. rewrite take_take, length_take.
  replace ((k `min` length pending) `min` k)%nat with (k `min` length pending)%nat by lia. apply take_drop.
Qed.

Lemma bwFlush_room e x :
  zlen (output x) <= env_room e ->
  exists x', bwFlush e x = (x', None) /\ output x' = output x /\ default [] (ls_bw x') = [] /\
    ls_ctx x' = ls_ctx x /\ ls_in x' = ls_in x /\ sameVars x x'.
Proof.
  intros Hl. unfold bwFlush, connWrite. set (pending := default [] (ls_bw x)).
  assert (zlen pending <= env_room e - zlen (ls_out x)) as L.
  { unfold output in Hl. fold pending in Hl. rewrite length_app in Hl. lia. }
  apply Z.leb_le in L. rewrite L. eexists. split; [reflexivity|]. unfold output. cbn.
  rewrite take_ge, drop_ge by lia. split; [by rewrite app_nil_r|]. done.
Qed.

(** ** Clean contexts *)

Lemma Response_Reset_fresh r : freshResponse [] (Response_Reset r).
Proof.
  unfold Response_Reset, Response_resetSkipHeader, Response_ResetBody. cbv zeta.
  destruct r as [? ? ? [b|] ? ? [] ? ? ?]; by split.
Qed.

Lemma Request_Reset_fresh x :
  freshBody (Request_Reset x) /\ req_parsedURI (Request_Reset x) = false /\
  rq_disableNormalizing (req_Header (Request_Reset x)) = false.
Proof.
  unfold Request_Reset, Request_resetSkipHeader, Request_ResetBody. cbv zeta.
  destruct x as [? ? ? ? [b|] ? ? ? ? ? ? [] ? ?]; by split_and!.
Qed.

Lemma newCtx_clean s : cleanCtx (newCtx s).
Proof. by split. Qed.

Lemma acquireCtx_clean s conn pick pool :
  Forall cleanCtx pool -> cleanCtx (fst (acquireCtx s conn pick pool)).
Proof.
  intros F. unfold acquireCtx. destruct pick as [i|]; cbn [mbind option_bind]; [|by split].
  destruct (pool !! i) as [c|] eqn:E; cbn [mbind option_bind fst]; [|by split].
  destruct (Forall_lookup_1 _ _ _ _ F E). by split.
Qed.


(** ** One round *)

Section Round.
Context (s : Server) (e : Env) (K : keepsAlive s e).

(** Between two requests: [n] answered, [text] still to come, [out] written. *)
Record resting (n : Z) (text out : bytes) (x : loopState) : Prop := {
  re_ctx : cleanCtx (ls_ctx x);
  re_in : match ls_in x with
          | inl r => wfReader r /\ r_size r = readerSize s /\ r_end r = EOF /\ stream r = text /\ 0 < n
          | inr src => Forall (fun c => c <> []) (src_chunks src) /\ src_end src = EOF /\ concat (src_chunks src) = text /\ n = 0
          end;
  re_num : ls_connRequestNum x = n;
  re_pool : Forall cleanCtx (ls_pool x);
  re_continue : ls_continue x = true;
  re_max : ls_maxRequestBodySize x = bodyLimit s;
  re_output : output x = out;
  re_flushed : text = [] -> default [] (ls_bw x) = []
}.

(** A reader of the connection with [text] to come. *)
Definition reads (text : bytes) (r : reader) : Prop :=
  wfReader r /\ r_size r = readerSize s /\ r_end r = EOF /\ stream r = text.

Lemma reads_same text text' r r' : reads text r -> sameSource r r' -> stream r' = text' -> reads text' r'.
Proof. intros (W & Hz & E & _) (E' & Hz' & W') Hs. split_and!; congruence. Qed.

Lemma deadlines (b : bool) d x :
  (exists x', (if b then setReadDeadline e d x else Go x) = Go x' /\ ls_ctx x' = ls_ctx x /\ ls_in x' = ls_in x /\
     output x' = output x /\ ls_bw x' = ls_bw x /\ sameVars x x') /\
  (exists x', (if b then setWriteDeadline e d x else Go x) = Go x' /\ ls_ctx x' = ls_ctx x /\ ls_in x' = ls_in x /\
     output x' = output x /\ ls_bw x' = ls_bw x /\ sameVars x x').
Proof.
  unfold setReadDeadline, setWriteDeadline. rewrite (ka_deadline _ _ K). destruct b; (split; eexists; (split; [reflexivity|done])).
Qed.

Lemma awaitRequest_more n text out x :
  resting n text out x -> text <> [] -> 0 <= n < 2 ^ 64 - 1 ->
  exists x1 r1, awaitRequest s e x = Go (x1, None) /\ ls_in x1 = inl r1 /\ reads text r1 /\ ls_ctx x1 = ls_ctx x /\
    output x1 = out /\ ls_connRequestNum x1 = n + 1 /\ ls_pool x1 = ls_pool x /\ ls_continue x1 = true /\ ls_maxRequestBodySize x1 = bodyLimit s.
Proof.
  intros [_ I N _ C M Ho _] Ht Hn. unfold awaitRequest. cbv zeta. rewrite N. unfold uint64. rewrite Z.mod_small by lia.
  set (x0 := set_ls_connRequestNum (n + 1) x). cbn [ls_connRequestNum set_ls_connRequestNum] in *.
  match goal with |- context [if ?b then setReadDeadline e ?d x0 else Go x0] =>
    destruct (deadlines b d x0) as [(x1 & -> & Ec & Ei & Eo & _ & Ev) _] end.
  cbn [mbind flow_bind]. rewrite (ka_memory _ _ K). destruct Ev as (Ev1 & Ev2 & Ev3 & _ & Ev4).
  subst x0. cbn in Ec, Ei, Ev1, Ev2, Ev3, Ev4. rewrite Ev1.
  unfold getReader. rewrite Ei. destruct (ls_in x) as [r|src].
  - destruct I as (W & Hsz & E & St & Hn1). destruct (Z.ltb_spec 1 (n + 1)); [|lia].
    destruct (Peek_spec r 1 W) as (b & err & r' & -> & Es & Ss & _ & _ & _ & He).
    assert (length (stream r) <> O) as Hl by (rewrite St; by destruct text).
    pose proof (wfr_size _ W) as Hz.
    assert (length b <> O) as Hb.
    { destruct err as [er|]; [destruct He as [_ [[? _]|(_ & -> & _ & ?)]]; lia|]. destruct He as [-> ?].
      rewrite length_take. lia. }
    rewrite decide_False by done. do 2 eexists. split; [reflexivity|]. cbn.
    split; [reflexivity|]. split; [by apply (reads_same text text r); [split_and!|..|rewrite Es]|].
    split_and!; [done|by rewrite <- Ho|congruence..].
  - destruct I as (F & E & St & ->). cbn [Z.add Z.ltb Z.compare Pos.compare Pos.compare_cont].
    assert (reads text (acquireReader s src)) as R.
    { split_and!; [|done..]. apply newReader_wf; [unfold readerSize; lia|done]. }
    do 2 eexists. split; [reflexivity|]. cbn. split_and!; try done; try congruence. by rewrite <- Ho.
Qed.

Lemma awaitRequest_end n out x :
  resting n [] out x -> 0 < n < 2 ^ 64 - 1 ->
  exists x1, awaitRequest s e x = Go (x1, Some EOF) /\ ls_out x1 = out /\ cleanCtx (ls_ctx x1) /\ ls_pool x1 = ls_pool x.
Proof.
  intros [Cc I N _ C M Ho Fl] Hn. specialize (Fl eq_refl). unfold awaitRequest. cbv zeta. rewrite N. unfold uint64. rewrite Z.mod_small by lia.
  set (x0 := set_ls_connRequestNum (n + 1) x). cbn [ls_connRequestNum set_ls_connRequestNum] in *.
  match goal with |- context [if ?b then setReadDeadline e ?d x0 else Go x0] =>
    destruct (deadlines b d x0) as [(x1 & -> & Ec & Ei & Eo & Eb & Ev) _] end.
  cbn [mbind flow_bind]. rewrite (ka_memory _ _ K). destruct Ev as (Ev1 & Ev2 & Ev3 & _ & Ev4).
  subst x0. cbn in Ec, Ei, Ev1, Eb, Ev4. rewrite Ev1. unfold getReader. rewrite Ei. destruct (ls_in x) as [r|src]; [|lia].
  destruct I as (W & Hsz & E & St & _). destruct (Z.ltb_spec 1 (n + 1)); [|lia].
  destruct (Peek_spec r 1 W) as (b & err & r' & -> & Es & Ss & _ & _ & _ & He). rewrite St in *. pose proof (wfr_size _ W).
  assert (length b = O /\ err = Some EOF) as [Hb ->].
  { destruct err as [er|]; [|destruct He as [-> Hl]; exfalso; unfold stream in Es; apply app_eq_nil in Es as [Eq _]; rewrite Eq in Hl; simpl in Hl; lia].
    destruct He as [_ [[? _]|(_ & -> & -> & _)]]; [lia|]. by rewrite E. }
  rewrite decide_True by done. eexists. split; [reflexivity|]. cbn. split; [|by rewrite Ec, Ev4].
  rewrite <- Ho. unfold output in *. cbn in Eo. rewrite Fl in Eo. rewrite Eb, Fl, !app_nil_r in Eo. rewrite Fl, app_nil_r. exact Eo.
Qed.

(** The context after the server's settings. *)
Record prepared (ctx : RequestCtx) : Prop := {
  pr_body : freshBody (cx_Request ctx);
  pr_uri : req_parsedURI (cx_Request ctx) = false;
  pr_norm : rq_disableNormalizing (req_Header (cx_Request ctx)) = srv_DisableHeaderNamesNormalizing s;
  pr_response : freshResponse [] (cx_Response ctx);
  pr_timeout : cx_timeoutResponse ctx = None;
  pr_hijack : cx_hijackHandler ctx = None;
  pr_stream : cx_stream ctx = None
}.

Lemma prepared_ctx ctx b : cleanCtx ctx -> prepared (disableNormalizing s (prepareCtx s b ctx)).
Proof.
  intros [[] U N [] T Hj St]. unfold disableNormalizing.
  destruct (srv_DisableHeaderNamesNormalizing s) eqn:E; split; cbn; try done; by rewrite N.
Qed.

(** The head of a request whose text is [head]. *)
Lemma readHeader_more q rest r x :
  sentBy s q -> prepared (ls_ctx x) -> reads (RequestHeader_AppendBytes (snd q) [] ++ rest) r -> zlen (output x) <= env_room e ->
  exists x1 r1 h1, readHeader e r x = Go (x1, None) /\ ls_in x1 = inl r1 /\ reads rest r1 /\ sameRequest (snd q) h1 /\
    ls_ctx x1 = on_rqHeader (fun _ => h1) (ls_ctx x) /\ output x1 = output x /\ sameVars x x1.
Proof.
  intros [Sd _ _ Hh _] Pc R Hr. destruct R as (W & Hsz & E & St). unfold readHeader. cbv zeta.
  pose proof (sd_wf _ _ _ Sd) as Wf. rewrite <- (pr_norm _ Pc) in Wf.
  assert (forall h r0 x0, reads (RequestHeader_AppendBytes (snd q) [] ++ rest) r0 ->
    wfRequest (rq_disableNormalizing h) (snd q) -> output x0 = output x -> sameVars x x0 ->
    (forall h1, on_rqHeader (fun _ => h1) (ls_ctx x0) = on_rqHeader (fun _ => h1) (ls_ctx x)) ->
    exists x1 r1 h1, (res ← panics (RequestHeader_Read h r0);
       Go (let '(h, r, err) := res in (set_ls_in (inl r) (set_ls_ctx (on_rqHeader (fun _ => h) (ls_ctx x0)) x0), err))) =
      Go (x1, None) /\ ls_in x1 = inl r1 /\ reads rest r1 /\ sameRequest (snd q) h1 /\
    ls_ctx x1 = on_rqHeader (fun _ => h1) (ls_ctx x) /\ output x1 = output x /\ sameVars x x1) as Full.
  { intros h r0 x0 R0 W0 O0 V0 H1. destruct R0 as (Wr & Zr & Er & Sr).
    destruct (RequestHeader_Read_print (snd q) h r0 rest W0 Wr Sr ltac:(by rewrite Zr)) as (h1 & r1 & -> & S1 & E1 & Ss).
    cbn [panics mbind flow_bind]. do 3 eexists. split; [reflexivity|]. cbn [ls_in set_ls_in]. split; [reflexivity|].
    split; [by eapply reads_same; [by split_and!|done|]|]. split; [exact S1|]. split; [apply H1|]. done. }
  case_decide as Dp; [|apply Full; done].
  unfold RequestHeader_readOnce.
  destruct (RequestHeader_tryRead_print (snd q) (req_Header (cx_Request (ls_ctx x))) r rest Wf W St ltac:(by rewrite Hsz))
    as [(h1 & r1 & -> & S1 & E1 & Ss)|(h1 & r1 & -> & D1 & E1 & Ss)]; cbn [panics mbind option_bind flow_bind].
  - rewrite decide_False by done. do 3 eexists. split; [reflexivity|]. cbn. split; [reflexivity|].
    split; [by eapply reads_same; [by split_and!|done|]|]. split; [exact S1|]. done.
  - rewrite decide_True by done.
    match goal with |- context [bwFlush e ?y] => destruct (bwFlush_room e y) as (x2 & -> & O2 & _ & C2 & I2 & V2); [done|] end.
    apply Full; [by eapply reads_same; [by split_and!|done|]| |by rewrite O2| |].
    + rewrite C2. cbn. by rewrite D1.
    + destruct V2 as (? & ? & ? & ? & ?). by split_and!.
    + intros h2. rewrite C2. done.
Qed.

(** The context once the request [q] has been read. *)
Record ready (q : message) (ctx : RequestCtx) : Prop := {
  rd_header : sameRequest (snd q) (req_Header (cx_Request ctx));
  rd_body : snd (Request_Body (cx_Request ctx)) = requestPayload (fst q);
  rd_uri : req_parsedURI (cx_Request ctx) = false;
  rd_response : freshResponse [] (cx_Response ctx);
  rd_timeout : cx_timeoutResponse ctx = None;
  rd_hijack : cx_hijackHandler ctx = None;
  rd_stream : cx_stream ctx = None
}.

(** The loop with [text] to come, after request number [n] has been read. *)
Record reading (n : Z) (text out : bytes) (x : loopState) : Prop := {
  rg_in : exists r, ls_in x = inl r /\ reads text r;
  rg_num : ls_connRequestNum x = n;
  rg_pool : Forall cleanCtx (ls_pool x);
  rg_continue : ls_continue x = true;
  rg_max : ls_maxRequestBodySize x = bodyLimit s;
  rg_output : output x = out
}.

Lemma readRequest_more n q rest out x :
  sentBy s q -> resting n (messageText q ++ rest) out x -> 0 <= n < 2 ^ 64 - 1 -> zlen out <= env_room e ->
  exists x1, readRequest s e x = Go (x1, None) /\ reading (n + 1) rest out x1 /\ ready q (ls_ctx x1).
Proof.
  intros Sq Rx Hn Hr. unfold readRequest.
  assert (messageText q ++ rest <> []) as Ht.
  { unfold messageText. pose proof (RequestHeader_AppendBytes_pos (snd q)) as P. intros E. apply (f_equal length) in E.
    rewrite !length_app in E. simpl in E. lia. }
  destruct (awaitRequest_more _ _ _ _ Rx Ht Hn) as (x1 & r1 & -> & I1 & R1 & C1 & O1 & N1 & P1 & K1 & M1).
  cbn [mbind flow_bind]. pose proof (prepared_ctx _ (ci_isTLS (env_conn e)) (re_ctx _ _ _ _ Rx)) as P. rewrite <- C1 in P.
  match goal with |- context [if ?b then setReadDeadline e ?d ?y else Go _] =>
    destruct (deadlines b d y) as [(x2 & -> & C2 & I2 & O2 & _ & N2 & K2 & M2 & _ & P2) _] end.
  cbn [mbind flow_bind ls_ctx set_ls_ctx] in *. rewrite C2.
  set (y := set_ls_ctx _ x2).
  assert (getReader s y = r1) as -> by (unfold getReader, y; cbn in *; by rewrite I2, I1).
  unfold messageText in R1. rewrite <- app_assoc in R1.
  destruct (readHeader_more q _ r1 y Sq P R1) as (x3 & r3 & h3 & -> & I3 & R3 & S3 & C3 & O3 & V3).
  { unfold y, output in *. cbn in *. by rewrite O2, O1. }
  cbn [mbind flow_bind]. unfold headerReceived. rewrite (ka_received _ _ K). cbn [mbind flow_bind].
  unfold getReader. rewrite I3. unfold readBodyOf. rewrite (ka_stream _ _ K), (ka_get _ _ K), (ka_preparse _ _ K). cbn [negb].
  destruct V3 as (N3 & K3 & M3 & _ & P3). cbn in N2, K2, M2.
  assert (ls_maxRequestBodySize x3 = bodyLimit s) as -> by (rewrite M3; unfold y; cbn; congruence).
  destruct P as [Pb Pu _ Pr Pt Ph Ps]. pose proof (sb_body _ _ Sq) as [B1 B2].
  destruct (Request_readLimitBody_plain _ (fst q) (snd q) h3 (cx_Request (ls_ctx x3)) r3 (bodyLimit s) rest false (sb_sendable _ _ Sq) S3)
    as (rq & r4 & -> & S4 & B4 & E4 & W4 & U4); try done.
  { rewrite C3. by apply freshBody_header. }
  { by rewrite C3. }
  { apply R3. }
  { apply R3. }
  cbn [panics mbind flow_bind]. unfold releaseReader. rewrite (ka_memory _ _ K).
  rewrite bool_decide_eq_false_2 by tauto. cbn [andb orb]. eexists. split; [reflexivity|]. split.
  - unfold y, output in *. cbn in N3, K3, M3, P3, O3, P2, O2. split; cbn; try congruence.
    + exists r4. split; [done|]. by eapply reads_same.
    + rewrite P3, P2, P1. apply Rx.
  - split; cbn; try done; rewrite ?U4, C3; done.
Qed.

Lemma expectContinue_plain q x : sentBy s q -> ready q (ls_ctx x) -> expectContinue s e x = Go x.
Proof.
  intros Sq Rq. unfold expectContinue. pose proof (sb_sendable _ _ Sq) as Sd.
  rewrite Request_MayContinue_peek; [done|]. rewrite (peek_same (snd q)) by (done || apply Rq). apply (sd_expect _ _ _ Sd).
Qed.

(** ** The answer *)

Lemma handlerCtx_received n q rest out x :
  reading n rest out x -> ready q (ls_ctx x) -> received s n q (ls_ctx (handlerCtx s e x)).
Proof.
  intros [_ N _ _ _ _] [Rh Rb Ru Rr Rt Rj Rs]. unfold handlerCtx. destruct (serverNameOf s) as [name|] eqn:En; split; cbn; rewrite ?En; try done. by destruct Rr; split.
Qed.

Lemma sendResponse_more n rest out ctx0 r' text x :
  reading n rest out x -> ls_ctx x = ctx0 -> cx_timeoutResponse ctx0 = None ->
  Response_Write (env_serverDate e n) (cx_Response ctx0) [] = Some (r', text, None) -> zlen (out ++ text) <= env_room e ->
  exists x1, sendResponse s e false false x = Go x1 /\ reading n rest (out ++ text) x1 /\
    ls_ctx x1 = set_cx_Response (Response_Reset r') ctx0 /\ (rest = [] -> default [] (ls_bw x1) = []).
Proof.
  intros [(r & I & R) N P C M Ho] <- Ht Hw Hl. unfold sendResponse, writeResponse. rewrite Ht, N, Hw.
  cbn [panics mbind flow_bind]. rewrite <- Ho in Hl.
  destruct (bwWrite_room e (env_passed e n) text x Hl) as (x1 & -> & O1 & C1 & I1 & V1). cbn [mbind flow_bind].
  rewrite orb_false_r, (ka_memory _ _ K). cbn [andb]. unfold brBuffered. cbn [ls_in set_ls_ctx]. rewrite I1, I.
  set (x2 := set_ls_ctx _ x1). destruct V1 as (N1 & K1 & M1 & _ & P1).
  assert (reading n rest (out ++ text) x2) as R2.
  { split; cbn; rewrite ?I1; [by exists r|..]; try congruence. unfold x2, output in *. cbn. by rewrite O1, Ho. }
  destruct (Nat.eqb_spec (Buffered r) 0) as [Eb|Eb].
  - destruct (bwFlush_room e x2) as (x3 & -> & O3 & F3 & C3 & I3 & N3 & K3 & M3 & _ & P3); [by rewrite <- O1 in Hl|].
    eexists. split; [reflexivity|]. destruct R2. split; [split; rewrite ?I3, ?P3; congruence || assumption|]. by rewrite C3.
  - eexists. split; [reflexivity|]. split; [done|]. split; [done|]. intros Er. exfalso. apply Eb.
    destruct R as (_ & _ & _ & St). rewrite Er in St. apply app_eq_nil in St as [St _]. unfold Buffered. by rewrite St.
Qed.

(** The context after the handler: the response [resp], and a request that has been reset. *)
Record handled (resp : Response) (ctx : RequestCtx) : Prop := {
  hd_response : cx_Response ctx = resp;
  hd_body : freshBody (cx_Request ctx);
  hd_uri : req_parsedURI (cx_Request ctx) = false;
  hd_norm : rq_disableNormalizing (req_Header (cx_Request ctx)) = false;
  hd_timeout : cx_timeoutResponse ctx = None;
  hd_hijack : cx_hijackHandler ctx = None;
  hd_stream : cx_stream ctx = None
}.

Lemma takeHijack_none n rest out x ctx :
  reading n rest out x -> ls_ctx x = set_cx_stream None ctx -> cx_timeoutResponse ctx = None -> cx_hijackHandler ctx = None ->
  exists x1, takeHijack (resetRequest (set_ls_ctx (skipHeadBody (ls_ctx x)) x)) = (x1, None, false) /\ reading n rest out x1 /\
    handled (cx_Response (skipHeadBody ctx)) (ls_ctx x1).
Proof.
  intros [I N P C M Ho] E Ht Hj. rewrite E. unfold takeHijack. cbv zeta.
  assert (forall c, cx_hijackHandler (skipHeadBody c) = cx_hijackHandler c /\ cx_timeoutResponse (skipHeadBody c) = cx_timeoutResponse c) as Sk.
  { intros c. unfold skipHeadBody. by destruct (negb _ && _). }
  assert (cx_Response (skipHeadBody (set_cx_stream None ctx)) = cx_Response (skipHeadBody ctx)) as Er.
  { unfold skipHeadBody. change (RequestCtx_IsGet (set_cx_stream None ctx)) with (RequestCtx_IsGet ctx).
    change (RequestCtx_IsHead (set_cx_stream None ctx)) with (RequestCtx_IsHead ctx). by destruct (negb _ && _). }
  destruct (Sk (set_cx_stream None ctx)) as [Sj St]. cbn in Sj, St. cbn. rewrite Sj, Hj, andb_false_r.
  eexists. split; [reflexivity|]. split; [by split|].
  destruct (Request_Reset_fresh (cx_Request (skipHeadBody (set_cx_stream None ctx)))) as (F1 & F2 & F3).
  split; [exact Er|exact F1|exact F2|exact F3|by cbn; rewrite St|done..].
Qed.

Lemma connectionHeaders_keep x resp :
  handled resp (ls_ctx x) -> Response_ConnectionClose resp = false -> (serverNameOf s = None \/ rs_server (resp_Header resp) <> []) ->
  connectionHeaders s e false true x = (x, false).
Proof.
  intros [Er _ _ _ _ _ _] Ec Hs. unfold connectionHeaders. rewrite Er, Ec, (ka_stop _ _ K). cbn [fst orb andb negb]. rewrite andb_false_r.
  assert (forall y, set_ls_ctx (ls_ctx y) y = y) as Eta by (by intros []).
  destruct (serverNameOf s) as [name|]; [|by rewrite Eta]. destruct Hs as [?|Hs]; [done|].
  rewrite Er. rewrite decide_False; [by rewrite Eta|]. unfold ResponseHeader_Server. by destruct (rs_server _).
Qed.

Lemma skipHeadBody_header ctx : resp_Header (cx_Response (skipHeadBody ctx)) = resp_Header (cx_Response ctx).
Proof. unfold skipHeadBody. by destruct (negb _ && _). Qed.

Lemma answer_more n q rest out text x :
  sentBy s q -> reading n rest out x -> ready q (ls_ctx x) -> 0 < n ->
  answers s e n (ls_ctx (handlerCtx s e x)) text -> zlen (out ++ text) <= env_room e ->
  exists x1, answer s e x = Go x1 /\ resting n rest (out ++ text) x1.
Proof.
  intros Sq R Q Hn [(ctx' & r' & Eh & Et & Ej & Ec & Es & Ew)] Hl. unfold answer.
  assert (wantsClose s x = false /\ isHTTP11 x = true) as [-> ->].
  { unfold wantsClose, isHTTP11, RequestHeader_ConnectionClose, RequestHeader_IsHTTP11. pose proof (rd_header _ _ Q) as Sh.
    rewrite (sq_close _ _ Sh), (sq_http11 _ _ Sh), (sb_http11 _ _ Sq), (sb_close _ _ Sq), (ka_keepalive _ _ K). done. }
  unfold callHandler. assert (ls_continue (handlerCtx s e x) = true) as -> by apply R. rewrite Eh.
  cbn [runHandler panics mbind flow_bind]. assert (cx_stream (ls_ctx (handlerCtx s e x)) = None) as ->.
  { unfold handlerCtx. destruct (serverNameOf s); apply Q. }
  cbn [syncReader]. unfold takeTimeout. cbn [ls_ctx logEv set_ls_ctx cx_timeoutResponse set_cx_stream]. rewrite Et.
  match goal with |- context [takeHijack (resetRequest (set_ls_ctx (skipHeadBody _) ?y))] => set (x1 := y) end.
  assert (reading n rest out x1) as R1.
  { destruct R as [I N P C M Ho]. by split. }
  destruct (takeHijack_none n rest out x1 ctx' R1) as (x2 & E2 & R2 & H2); [done..|].
  rewrite E2. unfold maxRequestsReached.
  rewrite (proj2 (Z.ltb_ge 0 (srv_MaxRequestsPerConn s))) by apply K. cbn [andb].
  destruct (deadlines (0 <? ls_writeTimeout x2) (ls_writeTimeout x2) x2) as [_ (x3 & -> & C3 & I3 & O3 & _ & N3 & K3 & M3 & _ & P3)].
  cbn [mbind flow_bind]. rewrite <- C3 in H2.
  rewrite (connectionHeaders_keep x3 _ H2) by (unfold Response_ConnectionClose; rewrite skipHeadBody_header; done).
  assert (reading n rest out x3) as R3 by (destruct R2; split; rewrite ?I3, ?P3; congruence || assumption).
  destruct (sendResponse_more n rest out _ r' text x3 R3 eq_refl) as (x4 & -> & R4 & C4 & F4); [apply H2|by rewrite (hd_response _ _ H2)|done|].
  cbn [mbind flow_bind]. unfold endRound. cbn [logEv set_ls_ctx ls_connRequestNum]. rewrite (ka_stop _ _ K). cbn [snd].
  eexists. split; [reflexivity|]. destruct H2, R4 as [I N P C M Ho]. cbn in I, N, P, C, M.
  split; [cbn|cbn|assumption..].
  - rewrite C4. split; try assumption. apply Response_Reset_fresh.
  - destruct I as (r & -> & ? & ? & ? & ?). by split_and!.
Qed.

(** ** The loop *)

Lemma acquireCtx_pool conn pick pool : Forall cleanCtx pool -> Forall cleanCtx (snd (acquireCtx s conn pick pool)).
Proof.
  intros F. unfold acquireCtx. destruct pick as [i|]; cbn [mbind option_bind]; [|done].
  destruct (pool !! i) as [c|] eqn:E; cbn [mbind option_bind snd]; [|done]. by apply Forall_delete.
Qed.

Lemma startState_resting src pool :
  Forall cleanCtx pool -> Forall (fun c => c <> []) (src_chunks src) -> src_end src = EOF ->
  resting 0 (concat (src_chunks src)) [] (startState s e src pool).
Proof.
  intros F Hc He. unfold startState.
  pose proof (acquireCtx_clean s (env_conn e) (env_pick e 0 false) pool F) as C.
  pose proof (acquireCtx_pool (env_conn e) (env_pick e 0 false) pool F) as P.
  destruct (acquireCtx _ _ _ _) as [ctx pool']. cbn in C, P. destruct C. split; cbn; try done.
Qed.

Context (B : Z) (qs : list message) (Sent : Forall (sentBy s) qs).

(** The handler answers whatever it gets of these requests in at most [B] bytes. *)
Definition handles : Prop :=
  forall n q ctx, In q qs -> received s n q ctx -> exists text, answers s e n ctx text /\ zlen text <= B.

Lemma round_more n q rest out x :
  handles -> In q qs -> resting n (messageText q ++ rest) out x -> 0 <= n < 2 ^ 64 - 1 -> 0 <= B -> zlen out + B <= env_room e ->
  exists x1 ctx text, round s e x = Go x1 /\ received s (n + 1) q ctx /\ answers s e (n + 1) ctx text /\ zlen text <= B /\
    resting (n + 1) rest (out ++ text) x1.
Proof.
  intros Hd Hq Rx Hn Hb Hr. pose proof (proj1 (List.Forall_forall _ _) Sent q Hq) as Sq. unfold round.
  destruct (readRequest_more _ _ _ _ _ Sq Rx Hn) as (x1 & -> & R1 & Q1); [lia|]. cbn [mbind flow_bind checkRequest].
  rewrite (expectContinue_plain q) by done. cbn [mbind flow_bind].
  pose proof (handlerCtx_received _ _ _ _ _ R1 Q1) as Rc. destruct (Hd _ _ _ Hq Rc) as (text & Ha & Hl).
  destruct (answer_more (n + 1) q rest out text x1) as (x2 & -> & R2); try done; [lia|rewrite length_app; lia|].
  by exists x2, (ls_ctx (handlerCtx s e x1)), text.
Qed.

Lemma round_end n out x :
  resting n [] out x -> 0 < n < 2 ^ 64 - 1 ->
  exists x1, round s e x = break x1 None /\ ls_out x1 = out /\ cleanCtx (ls_ctx x1) /\ ls_pool x1 = ls_pool x.
Proof.
  intros Rx Hn. unfold round, readRequest. destruct (awaitRequest_end _ _ _ Rx Hn) as (x1 & -> & O1 & [C1 C2 C3 C4 C5 C6 C7] & P1).
  cbn [mbind flow_bind checkRequest]. eexists. split; [reflexivity|]. split; [exact O1|]. split; [|exact P1].
  destruct C1, C4. split; [by split|assumption|assumption|by split|assumption..].
Qed.

Lemma serveLoop_conversation todo : forall n out x fuel,
  handles -> incl todo qs -> resting n (concat (map messageText todo)) out x -> 0 < n \/ todo <> [] ->
  0 <= n -> n + zlen todo < 2 ^ 64 - 1 -> 0 <= B -> zlen out + B * zlen todo <= env_room e -> (length todo < fuel)%nat ->
  exists ctxs texts x1, conversation s e n todo ctxs texts /\ serveLoop fuel s e x = Some (MkEnded x1 false None None) /\
    ls_out x1 = out ++ concat texts /\ cleanCtx (ls_ctx x1) /\ Forall cleanCtx (ls_pool x1).
Proof.
  induction todo as [|q todo IH]; intros n out x fuel Hd Hi Rx Hs Hn Hl Hb Hr Hf; (destruct fuel as [|fuel]; [lia|]); cbn [serveLoop].
  - destruct Hs as [Hs|]; [|done]. destruct (round_end _ _ _ Rx) as (x1 & -> & O1 & C1 & P1); [simpl in Hl; lia|].
    exists [], [], x1. split; [constructor|]. split; [done|]. split; [by rewrite app_nil_r|]. rewrite P1. split; [done|apply Rx].
  - cbn [length] in *. assert (0 <= B * zlen todo) by nia. destruct (round_more n q (concat (map messageText todo)) out x Hd) as (x1 & ctx & text & -> & Rc & Ha & Ht & R1); [by apply Hi; left|done|lia..|].
    destruct (IH (n + 1) (out ++ text) x1 fuel) as (ctxs & texts & x2 & Cv & -> & O2 & C2 & P2); try done; try lia.
    { intros q' Hq. apply Hi. by right. }
    { rewrite length_app. lia. }
    exists (ctx :: ctxs), (text :: texts), x2. split; [by constructor|]. split; [done|]. split; [by rewrite O2, <- app_assoc|done].
Qed.

End Round.


End Pipeline.

(** A message, and a handler that answers with the body it got. *)
Definition sampleMessage : @message plainLib :=
  match Request_writeURI sampleSend with
  | Some (x1, None) => match sentHeader x1 with Some h => (x1, h) | None => (x1, req_Header x1) end
  | _ => (sampleSend, req_Header sampleSend)
  end.

Definition mirror (ctx : @RequestCtx plainLib plainServerLib) : @RequestCtx plainLib plainServerLib :=
  set_cx_Response (@Response_SetBody plainLib emptyResponse (snd (Request_Body (cx_Request ctx)))) ctx.

Lemma sampleMessage_sent : sentBy (plainServer mirror) sampleMessage.
Proof.
  pose proof sampleSend_sendable as Sd. unfold sampleMessage.
  assert (exists x1 h, Request_writeURI sampleSend = Some (x1, None) /\ sentHeader x1 = Some h) as (x1 & h & E1 & E2).
  { destruct (Request_writeURI sampleSend) as [[x1 [err|]]|]; [done| |done]. destruct (sentHeader x1) as [h|] eqn:E2; [|done]. by exists x1, h. }
  rewrite E1, E2 in *. vm_compute in E1. injection E1 as <-. vm_compute in E2. injection E2 as <-.
  split; [exact Sd|vm_compute; reflexivity|reflexivity|vm_compute; lia|vm_compute; split; congruence].
Qed.

Lemma plain_keepsAlive h : keepsAlive (plainServer h) plainEnv.
Proof. split; try done. by exists []. Qed.

Definition sampleMessages : list (@message plainLib) := [sampleMessage; sampleMessage].

Lemma mirror_handles : handles (plainServer mirror) plainEnv 200 sampleMessages.
Proof.
  intros n q ctx Hq [Rh Rb _ _ _ Rt Rj]. assert (q = sampleMessage) as -> by (simpl in Hq; by destruct Hq as [|[|[]]]).
  assert (requestPayload (fst sampleMessage) = bs "hello") as E by (vm_compute; reflexivity). rewrite E in Rb.
  assert (skipHeadBody (mirror ctx) = mirror ctx) as Es.
  { unfold skipHeadBody, RequestCtx_IsHead, RequestHeader_IsHead, mirror. cbn [cx_Request set_cx_Response].
    rewrite (Method_same _ _ Rh). assert (RequestHeader_Method (snd sampleMessage) = strPost) as -> by (vm_compute; reflexivity).
    by rewrite andb_false_r. }
  destruct (Response_Write (env_serverDate plainEnv n) (@Response_SetBody plainLib emptyResponse (bs "hello")) []) as [[[r' text] err]|] eqn:Ew;
    [|vm_compute in Ew; done].
  assert (err = None /\ zlen text <= 200) as [-> Hl] by (vm_compute in Ew; injection Ew as <- <- <-; split; [done|vm_compute; congruence]).
  exists text. split; [|done]. split. exists (mirror ctx), r'. rewrite Es. split; [done|].
  unfold mirror. cbn [cx_Response set_cx_Response cx_timeoutResponse cx_hijackHandler]. rewrite Rb.
  split_and!; try done. by left.
Qed.

Definition samplePieces : source :=
  let text := messageText sampleMessage in MkSource [take 40 text; drop 40 text ++ take 3 text; drop 3 text] EOF.

Lemma samplePieces_whole :
  Forall (fun c => c <> []) (src_chunks samplePieces) /\ concat (src_chunks samplePieces) = concat (map messageText sampleMessages).
Proof. split; [|vm_compute; reflexivity]. apply Forall_cons; split; [vm_compute; discriminate|]. apply Forall_cons; split; [vm_compute; discriminate|].
  apply Forall_cons; split; [vm_compute; discriminate|]. apply Forall_nil_2.
Qed.

Lemma sampleMessages_sent : Forall (sentBy (plainServer mirror)) sampleMessages.
Proof. apply Forall_cons; split; [apply sampleMessage_sent|]. apply Forall_cons; split; [apply sampleMessage_sent|apply Forall_nil_2]. Qed.

