(* ===== verification/Fs.v ===== *)
(** * fs.go: the file server

    FS, its request handler, the cache of open files with their readers, byte
    ranges, path rewriters and directory indexes.  The file system, MIME types
    and the compressors are the class [OsLib]; what the handler does with them is
    in a state: the disk, the files opened (a heap, since the cache, the list of
    stale files and the readers point to the same fsFile), the three caches and
    the paths given to os.Open.  A request runs without interruption here; what
    happens when requests and the cleaner interleave is in FsCache. *)
From Stdlib Require Import Strings.String.
From stdpp Require Import gmap.
From S2P Require Import Prelude BytesConv Consts Args Uri Cookie HeaderScan RequestHeader ResponseHeader Bufio Body HeaderRead Http UserData Streaming RequestCtx.

Inductive oserror := NotExist | Permission | OsError (code : nat).

Inductive fserror :=
| Os (e : oserror)
| errDirIndexRequired
| errNoCreatePermission
| FsErrorf (format : string).

#[export] Instance oserror_eq_dec : EqDecision oserror.
Proof. solve_decision. Defined.
#[local] Instance fs_string_dec : EqDecision string := String.string_dec.
#[export] Instance fserror_eq_dec : EqDecision fserror.
Proof. solve_decision. Defined.

(** ** Paths *)

Definition HasSuffix (s suffix : bytes) : bool :=
  bool_decide (length suffix <= length s)%nat && bool_decide (drop (length s - length suffix) s = suffix).

(** [None] is the panic on a path without a leading slash. *)
Fixpoint stripLeadingSlashes (path : bytes) (stripSlashes : nat) : option bytes :=
  match stripSlashes, path with
  | O, _ | _, [] => Some path
  | S stripSlashes, c :: rest =>
      if decide (c <> "/"%byte) then None
      else
        match IndexByte rest "/" with
        | None => Some []
        | Some n => stripLeadingSlashes (drop (n + 1) path) stripSlashes
        end
  end.

Fixpoint stripTrailingRev (p : bytes) : bytes :=
  match p with
  | c :: rest => if decide (c = "/"%byte) then stripTrailingRev rest else p
  | [] => []
  end.
Definition stripTrailingSlashes (path : bytes) : bytes := rev (stripTrailingRev (rev path)).

Definition fileExtension (path : bytes) (compressed : bool) (compressedFileSuffix : bytes) : bytes :=
  let path := if compressed && HasSuffix path compressedFileSuffix
              then take (length path - length compressedFileSuffix) path else path in
  match LastIndexByte path "." with
  | None => []
  | Some n => drop n path
  end.

(** ** Byte ranges *)

(** (startPos, endPos), or the error. *)
Definition ParseByteRange (byteRange : bytes) (contentLength : Z) : Z * Z + error :=
  if negb (HasPrefix byteRange strBytes) then inr (Errorf "unsupported range units: %q. Expecting %q")
  else
    match drop (length strBytes) byteRange with
    | c :: b =>
        if decide (c <> "="%byte) then inr (Errorf "missing byte range in %q")
        else
          match IndexByte b "-" with
          | None => inr (Errorf "missing the end position of byte range in %q")
          | Some O =>
              match ParseUint (drop 1 b) with
              | (_, Some err) => inr err
              | (v, None) =>
                  let startPos := contentLength - v in
                  inl (if startPos <? 0 then 0 else startPos, contentLength - 1)
              end
          | Some n =>
              match ParseUint (take n b) with
              | (_, Some err) => inr err
              | (startPos, None) =>
                  if contentLength <=? startPos then inr (Errorf "the start position of byte range cannot exceed %d. byte range %q")
                  else
                    let b := drop (n + 1) b in
                    if decide (length b = O) then inl (startPos, contentLength - 1)
                    else
                      match ParseUint b with
                      | (_, Some err) => inr err
                      | (endPos, None) =>
                          let endPos := if contentLength <=? endPos then contentLength - 1 else endPos in
                          if endPos <? startPos
                          then inr (Errorf "the start position of byte range cannot exceed the end position. byte range %q")
                          else inl (startPos, endPos)
                      end
              end
          end
    | [] => inr (Errorf "missing byte range in %q")
    end.

(** ** The operating system *)

(** What os, mime and net/http give: files are opened by path; a [File] is an open
    file or the FileInfo of one, and what is read from it is fixed when it is
    opened. *)
Class OsLib `{TimeLib} := {
  Disk : Type;
  File : Type;
  f_Name : File -> bytes;
  fi_Name : File -> bytes;
  fi_Size : File -> Z;
  fi_IsDir : File -> bool;
  fi_ModTime : File -> Time;
  f_Stat : File -> option oserror;
  f_Data : File -> bytes * option oserror;
  f_Seek : File -> Z -> option oserror;
  f_Readdir : File -> list File + oserror;
  os_Open : Disk -> bytes -> File + oserror;
  os_Stat : Disk -> bytes -> File + oserror;
  os_Create : Disk -> bytes -> Disk * option oserror;
  os_Write : Disk -> bytes -> bytes -> Disk * option oserror;
  os_Chtimes : Disk -> bytes -> Time -> Disk * option oserror;
  os_Rename : Disk -> bytes -> bytes -> Disk * option oserror;
  os_Remove : Disk -> bytes -> Disk;
  filepath_Abs : Disk -> bytes -> bytes + oserror;
  TypeByExtension : bytes -> bytes;
  DetectContentType : bytes -> bytes;
  (** the output of the compressor of an encoding, and reading it back *)
  compressed : bytes -> bytes -> bytes;
  decompressed : bytes -> bytes -> bytes + oserror;
  truncSecond : Time -> Time;
  timeBefore : Time -> Time -> bool;
  timeSub : Time -> Time -> Z;
  timeString : Time -> bytes
}.

Definition second : Z := 1000000000.

Section Fs.
Context {HL : HttpLib} {SL : ServerLib} {TL : TimeLib} {OL : OsLib}.

(** ParseHTTPDate and AppendHTTPDate are those of Cookie. *)
Definition ParseHTTPDate (date : bytes) : Time * option error := parseRFC1123 date.

Definition fsModTime (t : Time) : Time := truncSecond t.

Definition RequestCtx_IfModifiedSince (ctx : RequestCtx) (lastModified : Time) : bool :=
  let ifModStr := default [] (RequestHeader_peek (req_Header (cx_Request ctx)) strIfModifiedSince) in
  if decide (length ifModStr = O) then true
  else
    match ParseHTTPDate ifModStr with
    | (_, Some _) => true
    | (ifMod, None) => timeBefore ifMod (truncSecond lastModified)
    end.

(** ** Path rewriters *)

(** The rewritten path and the context; [None] is a panic. *)
Definition PathRewriteFunc : Type := RequestCtx -> option (RequestCtx * bytes).

Definition strInvalidHost : bytes := bs "invalid-host".

Definition NewVHostPathRewriter (slashesCount : nat) : PathRewriteFunc := fun ctx =>
  let '(ctx, path) := RequestCtx_Path ctx in
  path ← stripLeadingSlashes path slashesCount;
  let '(ctx, host) := RequestCtx_Host ctx in
  let host := match IndexByte host "/" with Some _ => [] | None => host end in
  let host := if decide (length host = O) then strInvalidHost else host in
  let '(ctx, u) := RequestCtx_URI ctx in
  let ctx := on_Request (set_req_uri (URI_SetPath u ("/"%byte :: host ++ path))) ctx in
  Some (RequestCtx_Path ctx).

Definition NewPathSlashesStripper (slashesCount : nat) : PathRewriteFunc := fun ctx =>
  let '(ctx, path) := RequestCtx_Path ctx in
  path ← stripLeadingSlashes path slashesCount;
  Some (ctx, path).

Definition NewPathPrefixStripper (prefixSize : nat) : PathRewriteFunc := fun ctx =>
  let '(ctx, path) := RequestCtx_Path ctx in
  Some (ctx, if decide (prefixSize <= length path)%nat then drop prefixSize path else path).

(** ** Settings *)

(** A map from encodings to suffixes; the package's own is shared by all handlers
    that do not have one of theirs. *)
Abbreviation suffixes := (gmap bytes bytes).
Definition suffixAt (m : suffixes) (e : bytes) : bytes := default [] (m !! e).
Definition FSCompressedFileSuffixes : suffixes := {[ strGzip := bs ".fasthttp.gz"; strBr := bs ".fasthttp.br" ]}.

Definition FSHandlerCacheDuration : Z := 10 * second.

Record FS := MkFS {
  FS_Root : bytes;
  FS_IndexNames : list bytes;
  FS_GenerateIndexPages : bool;
  FS_Compress : bool;
  FS_CompressBrotli : bool;
  FS_AcceptByteRange : bool;
  FS_PathRewrite : option PathRewriteFunc;
  FS_PathNotFound : option (RequestCtx -> RequestCtx);
  FS_CacheDuration : Z;
  FS_CompressedFileSuffix : bytes;
  FS_CompressedFileSuffixes : option suffixes
}.

(** [h_suffixes]: the map of the handler's own, or the package's. *)
Record fsHandler := MkFsHandler {
  h_root : bytes;
  h_indexNames : list bytes;
  h_pathRewrite : option PathRewriteFunc;
  h_pathNotFound : option (RequestCtx -> RequestCtx);
  h_generateIndexPages : bool;
  h_compress : bool;
  h_compressBrotli : bool;
  h_acceptByteRange : bool;
  h_cacheDuration : Z;
  h_suffixes : option suffixes
}.

(** initRequestHandler, without the goroutine that calls cleanCache; the second
    component is the package's map afterwards. *)
Definition FS_initRequestHandler (fs : FS) (global : suffixes) : fsHandler * suffixes :=
  let root := FS_Root fs in
  let root := if decide (length root = O) then bs "." else root in
  let root := stripTrailingSlashes root in
  let cacheDuration := if FS_CacheDuration fs <=? 0 then FSHandlerCacheDuration else FS_CacheDuration fs in
  let own := match FS_CompressedFileSuffixes fs with
             | Some m => if decide (length (suffixAt m strBr) = O \/ length (suffixAt m strGzip) = O \/ suffixAt m strBr = suffixAt m strGzip)
                         then None else Some m
             | None => None
             end in
  let '(own, global) :=
    if decide (0 < length (FS_CompressedFileSuffix fs))%nat then
      match own with
      | Some m => (Some (<[strBr := suffixAt global strBr]> (<[strGzip := FS_CompressedFileSuffix fs]> m)), global)
      | None => (None, <[strBr := suffixAt (<[strGzip := FS_CompressedFileSuffix fs]> global) strBr]> (<[strGzip := FS_CompressedFileSuffix fs]> global))
      end
    else (own, global) in
  (MkFsHandler root (FS_IndexNames fs) (FS_PathRewrite fs) (FS_PathNotFound fs) (FS_GenerateIndexPages fs) (FS_Compress fs)
     (FS_CompressBrotli fs) (FS_AcceptByteRange fs) cacheDuration own, global).

Definition FSHandler (root : bytes) (stripSlashes : nat) (global : suffixes) : fsHandler * suffixes :=
  FS_initRequestHandler
    (MkFS root [bs "index.html"] true false false true
       (if decide (0 < stripSlashes)%nat then Some (NewPathSlashesStripper stripSlashes) else None) None 0 [] None) global.

Definition rootFS : FS := MkFS strSlash [] true true true true None None 0 [] None.

(** ** Open files and the state *)

Record fsFile := MkFsFile {
  ff_f : option File;
  ff_dirIndex : bytes;
  ff_contentType : bytes;
  ff_contentLength : Z;
  ff_compressed : bool;
  ff_lastModified : Time;
  ff_lastModifiedStr : bytes;
  ff_t : Time;
  ff_readersCount : Z;
  ff_bigFiles : list File
}.

Definition set_ff_readersCount (v : Z) (x : fsFile) : fsFile :=
  MkFsFile (ff_f x) (ff_dirIndex x) (ff_contentType x) (ff_contentLength x) (ff_compressed x) (ff_lastModified x) (ff_lastModifiedStr x) (ff_t x) v (ff_bigFiles x).
Definition set_ff_bigFiles (v : list File) (x : fsFile) : fsFile :=
  MkFsFile (ff_f x) (ff_dirIndex x) (ff_contentType x) (ff_contentLength x) (ff_compressed x) (ff_lastModified x) (ff_lastModifiedStr x) (ff_t x) (ff_readersCount x) v.

(** The pool of small readers keeps their positions; [fs_descriptors] counts the
    open descriptors, [fs_opened] lists what os.Open was called with. *)
Record fsState := MkFsState {
  fs_disk : Disk;
  fs_now : Time;
  fs_global : suffixes;
  fs_files : list fsFile;
  fs_cache : gmap bytes nat;
  fs_cacheBrotli : gmap bytes nat;
  fs_cacheGzip : gmap bytes nat;
  fs_readerPool : list (Z * Z);
  fs_descriptors : Z;
  fs_opened : list bytes
}.

Definition set_fs_disk (v : Disk) (s : fsState) : fsState :=
  MkFsState v (fs_now s) (fs_global s) (fs_files s) (fs_cache s) (fs_cacheBrotli s) (fs_cacheGzip s) (fs_readerPool s) (fs_descriptors s) (fs_opened s).
Definition set_fs_files (v : list fsFile) (s : fsState) : fsState :=
  MkFsState (fs_disk s) (fs_now s) (fs_global s) v (fs_cache s) (fs_cacheBrotli s) (fs_cacheGzip s) (fs_readerPool s) (fs_descriptors s) (fs_opened s).
Definition set_fs_cache (v : gmap bytes nat) (s : fsState) : fsState :=
  MkFsState (fs_disk s) (fs_now s) (fs_global s) (fs_files s) v (fs_cacheBrotli s) (fs_cacheGzip s) (fs_readerPool s) (fs_descriptors s) (fs_opened s).
Definition set_fs_cacheBrotli (v : gmap bytes nat) (s : fsState) : fsState :=
  MkFsState (fs_disk s) (fs_now s) (fs_global s) (fs_files s) (fs_cache s) v (fs_cacheGzip s) (fs_readerPool s) (fs_descriptors s) (fs_opened s).
Definition set_fs_cacheGzip (v : gmap bytes nat) (s : fsState) : fsState :=
  MkFsState (fs_disk s) (fs_now s) (fs_global s) (fs_files s) (fs_cache s) (fs_cacheBrotli s) v (fs_readerPool s) (fs_descriptors s) (fs_opened s).
Definition set_fs_readerPool (v : list (Z * Z)) (s : fsState) : fsState :=
  MkFsState (fs_disk s) (fs_now s) (fs_global s) (fs_files s) (fs_cache s) (fs_cacheBrotli s) (fs_cacheGzip s) v (fs_descriptors s) (fs_opened s).
Definition set_fs_descriptors (v : Z) (s : fsState) : fsState :=
  MkFsState (fs_disk s) (fs_now s) (fs_global s) (fs_files s) (fs_cache s) (fs_cacheBrotli s) (fs_cacheGzip s) (fs_readerPool s) v (fs_opened s).
Definition set_fs_opened (v : list bytes) (s : fsState) : fsState :=
  MkFsState (fs_disk s) (fs_now s) (fs_global s) (fs_files s) (fs_cache s) (fs_cacheBrotli s) (fs_cacheGzip s) (fs_readerPool s) (fs_descriptors s) v.

(** A step of the handler; [None] is a panic. *)
Definition fsM (A : Type) : Type := fsState -> option (fsState * A).
#[global] Instance fsM_ret : MRet fsM := fun A a s => Some (s, a).
#[global] Instance fsM_bind : MBind fsM := fun A B f m s => '(s, a) ← m s; f a s.
Definition panics {A} (m : option A) : fsM A := fun s => a ← m; Some (s, a).
Definition gets {A} (f : fsState -> A) : fsM A := fun s => Some (s, f s).
Definition modify (f : fsState -> fsState) : fsM unit := fun s => Some (f s, tt).

(** ** Descriptors and fsFiles *)

Definition suffixOf (h : fsHandler) (fileEncoding : bytes) : fsM bytes :=
  gets (fun s => suffixAt (default (fs_global s) (h_suffixes h)) fileEncoding).

Definition openFile (path : bytes) : fsM (File + oserror) := fun s =>
  let s := set_fs_opened (fs_opened s ++ [path]) s in
  match os_Open (fs_disk s) path with
  | inl f => Some (set_fs_descriptors (fs_descriptors s + 1) s, inl f)
  | inr e => Some (s, inr e)
  end.
Definition closeFile : fsM unit := modify (fun s => set_fs_descriptors (fs_descriptors s - 1) s).

Definition newFile (ff : fsFile) : fsM nat := fun s => Some (set_fs_files (fs_files s ++ [ff]) s, length (fs_files s)).
Definition getFile (id : nat) : fsM fsFile := fun s => ff ← fs_files s !! id; Some (s, ff).
Definition setFile (id : nat) (ff : fsFile) : fsM unit := modify (fun s => set_fs_files (<[id := ff]> (fs_files s)) s).

Definition maxSmallFileSize : Z := 2 * 4096.
Definition fsFile_isBig (ff : fsFile) : bool := (maxSmallFileSize <? ff_contentLength ff) && bool_decide (length (ff_dirIndex ff) = O).

Definition fsFile_decReadersCount (id : nat) : fsM unit :=
  ff ← getFile id;
  let n := ff_readersCount ff - 1 in
  _ ← setFile id (set_ff_readersCount n ff);
  if n <? 0 then panics None else mret tt.

(** Release closes the file and the readers kept for it. *)
Definition fsFile_Release (id : nat) : fsM unit :=
  ff ← getFile id;
  match ff_f ff with
  | None => mret tt
  | Some _ =>
      modify (fun s => set_fs_descriptors (fs_descriptors s - 1 - (if fsFile_isBig ff then zlen (ff_bigFiles ff) else 0)) s)
  end.

(** ** Readers *)

(** A small reader has its window in the file; a big one has a descriptor of its
    own, the position in it, and a limit once a range has been set. *)
Inductive fsReader :=
| SmallReader (id : nat) (startPos endPos : Z)
| BigReader (id : nat) (f : File) (pos : Z) (limit : option Z).

Definition fsFile_smallFileReader (id : nat) (ff : fsFile) : fsM fsReader := fun s =>
  let '(startPos, pool) := match fs_readerPool s with [] => (0, []) | (startPos, _) :: pool => (startPos, pool) end in
  if 0 <? startPos then None
  else Some (set_fs_readerPool pool s, SmallReader id startPos (ff_contentLength ff)).

(** An idle reader, or a new one, opened by the name of the file. *)
Definition fsFile_bigFileReader (id : nat) (ff : fsFile) : fsM (fsReader + fserror) :=
  f ← panics (ff_f ff);
  match last (ff_bigFiles ff) with
  | Some r =>
      _ ← setFile id (set_ff_bigFiles (removelast (ff_bigFiles ff)) ff);
      mret (inl (BigReader id r 0 None))
  | None =>
      r ← openFile (f_Name f);
      mret (match r with inl r => inl (BigReader id r 0 None) | inr _ => inr (FsErrorf "cannot open already opened file: %s") end)
  end.

Definition fsFile_NewReader (id : nat) : fsM (fsReader + fserror) :=
  ff ← getFile id;
  if fsFile_isBig ff then
    r ← fsFile_bigFileReader id ff;
    match r with
    | inl r => mret (inl r)
    | inr err => _ ← fsFile_decReadersCount id; mret (inr err)
    end
  else r ← fsFile_smallFileReader id ff; mret (inl r).

Definition fsReader_UpdateByteRange (r : fsReader) (startPos endPos : Z) : fsReader + oserror :=
  match r with
  | SmallReader id _ _ => inl (SmallReader id startPos (endPos + 1))
  | BigReader id f _ _ =>
      match f_Seek f startPos with
      | Some err => inr err
      | None => inl (BigReader id f startPos (Some (endPos - startPos + 1)))
      end
  end.

Definition fsReader_Close (r : fsReader) : fsM (option oserror) :=
  match r with
  | SmallReader id _ _ =>
      _ ← fsFile_decReadersCount id;
      _ ← modify (fun s => set_fs_readerPool ((0, 0) :: fs_readerPool s) s);
      mret None
  | BigReader id f _ _ =>
      ff ← getFile id;
      let err := f_Seek f 0 in
      _ ← match err with
          | None => setFile id (set_ff_bigFiles (ff_bigFiles ff ++ [f]) ff)
          | Some _ => closeFile
          end;
      _ ← fsFile_decReadersCount id;
      mret err
  end.

(** What ReadAt finds: up to [k] bytes from [off] on; io.EOF when there are fewer. *)
Definition readAt (data : bytes * option oserror) (k : nat) (off : Z) : bytes * option error :=
  let b := take k (drop (Z.to_nat off) (fst data)) in
  (b, if decide (length b < k)%nat then Some (match snd data with None => EOF | Some _ => IOError 0 end) else None).

(** Read of a small reader into [k] bytes. *)
Definition smallReader_Read (ff : fsFile) (startPos endPos : Z) (k : nat) : bytes * option error * Z :=
  let tailLen := endPos - startPos in
  if tailLen <=? 0 then ([], Some EOF, startPos)
  else
    let k := if tailLen <? Z.of_nat k then Z.to_nat tailLen else k in
    match ff_f ff with
    | Some f => let '(b, err) := readAt (f_Data f) k startPos in (b, err, startPos + zlen b)
    | None => let b := take k (drop (Z.to_nat startPos) (ff_dirIndex ff)) in (b, None, startPos + zlen b)
    end.

(** Everything the reader delivers, as the body stream of a response. *)
Definition fsReader_stream (ff : fsFile) (r : fsReader) : bodyStream :=
  let window data startPos n :=
    let b := take (Z.to_nat n) (drop (Z.to_nat startPos) (fst data)) in
    MkSource (if decide (b = []) then [] else [b])
      (match snd data with Some _ => if zlen b <? n then IOError 0 else EOF | None => EOF end) in
  MkStream
    match r with
    | SmallReader _ startPos endPos =>
        match ff_f ff with
        | Some f => window (f_Data f) startPos (endPos - startPos)
        | None => window (ff_dirIndex ff, None) startPos (endPos - startPos)
        end
    | BigReader _ f pos limit =>
        window (f_Data f) pos (default (zlen (fst (f_Data f)) - pos) limit)
    end None.

(** ** Opening files *)

Definition fsMinCompressRatio : Z * Z := (4, 5).
Definition fsMaxCompressibleFileSize : Z := 8 * 1024 * 1024.

(** At most 512 bytes of the file, uncompressed. *)
Definition readFileHeader (f : File) (isCompressed : bool) (fileEncoding : bytes) : bytes + oserror :=
  let data :=
    if isCompressed then
      match decompressed fileEncoding (fst (f_Data f)) with inl b => (b, None) | inr e => ([], Some e) end
    else f_Data f in
  match f_Seek f 0 with
  | Some e => inr e
  | None =>
      match snd data with
      | Some e => if decide (length (fst data) < 512)%nat then inr e else inl (take 512 (fst data))
      | None => inl (take 512 (fst data))
      end
  end.

(** Without a closed file when its header cannot be read. *)
Definition fsHandler_newFSFile (h : fsHandler) (f : File) (isCompressed : bool) (fileEncoding : bytes) : fsM (nat + fserror) :=
  let n := fi_Size f in
  let contentLength := int64 n in
  if negb (n =? contentLength) then _ ← closeFile; mret (inr (FsErrorf "too big file: %d bytes"))
  else
    suffix ← suffixOf h fileEncoding;
    let contentType := TypeByExtension (fileExtension (fi_Name f) isCompressed suffix) in
    match (if decide (length contentType = O) then
             match readFileHeader f isCompressed fileEncoding with
             | inl data => inl (DetectContentType data)
             | inr _ => inr (FsErrorf "cannot read header of the file %q: %s")
             end
           else inl contentType) with
    | inr err => mret (inr err)
    | inl contentType =>
        now ← gets fs_now;
        id ← newFile (MkFsFile (Some f) [] contentType contentLength isCompressed (fi_ModTime f) (AppendHTTPDate [] (fi_ModTime f)) now 0 []);
        mret (inl id)
    end.

Definition fsHandler_newCompressedFSFile (h : fsHandler) (filePath fileEncoding : bytes) : fsM (nat + fserror) :=
  r ← openFile filePath;
  match r with
  | inr _ => mret (inr (FsErrorf "cannot open compressed file %q: %s"))
  | inl f =>
      match f_Stat f with
      | Some _ => _ ← closeFile; mret (inr (FsErrorf "cannot obtain info for compressed file %q: %s"))
      | None => fsHandler_newFSFile h f true fileEncoding
      end
  end.

(** isFileCompressible of compress.go: the compressor on the first 4096 bytes. *)
Definition isFileCompressible (f : File) (minCompressRatio : Z * Z) : bool :=
  let b := take 4096 (fst (f_Data f)) in
  let err := match snd (f_Data f) with Some _ => (length (fst (f_Data f)) <? 4096)%nat | None => false end in
  if err then false
  else zlen (compressed strGzip b) * snd minCompressRatio <? zlen b * fst minCompressRatio.

Definition diskOp (op : Disk -> Disk * option oserror) : fsM (option oserror) := fun s =>
  let '(d, err) := op (fs_disk s) in Some (set_fs_disk d s, err).

(** The file is compressed into a temporary one, which is then renamed. *)
Definition fsHandler_compressFileNolock (h : fsHandler) (f : File) (compressedFilePath fileEncoding : bytes) : fsM (nat + fserror) :=
  st ← gets (fun s => os_Stat (fs_disk s) compressedFilePath);
  match st with
  | inl _ => _ ← closeFile; fsHandler_newCompressedFSFile h compressedFilePath fileEncoding
  | inr _ =>
      let tmpFilePath := compressedFilePath ++ bs ".tmp" in
      _ ← modify (fun s => set_fs_opened (fs_opened s ++ [tmpFilePath]) s);
      err ← diskOp (fun d => os_Create d tmpFilePath);
      match err with
      | Some err =>
          _ ← closeFile;
          mret (inr (if decide (err = Permission) then errNoCreatePermission else FsErrorf "cannot create temporary file %q: %s"))
      | None =>
          err ← diskOp (fun d => os_Write d tmpFilePath (compressed fileEncoding (fst (f_Data f))));
          _ ← closeFile;
          let err := match snd (f_Data f) with Some e => Some e | None => err end in
          match err with
          | Some _ => mret (inr (FsErrorf "error when compressing file %q to %q: %s"))
          | None =>
              err ← diskOp (fun d => os_Chtimes d tmpFilePath (fi_ModTime f));
              match err with
              | Some _ => mret (inr (FsErrorf "cannot change modification time to %s for tmp file %q: %s"))
              | None =>
                  err ← diskOp (fun d => os_Rename d tmpFilePath compressedFilePath);
                  match err with
                  | Some _ => mret (inr (FsErrorf "cannot move compressed file from %q to %q: %s"))
                  | None => fsHandler_newCompressedFSFile h compressedFilePath fileEncoding
                  end
              end
          end
      end
  end.

Definition fsHandler_compressAndOpenFSFile (h : fsHandler) (filePath fileEncoding : bytes) : fsM (nat + fserror) :=
  r ← openFile filePath;
  match r with
  | inr err => mret (inr (Os err))
  | inl f =>
      match f_Stat f with
      | Some _ => _ ← closeFile; mret (inr (FsErrorf "cannot obtain info for file %q: %s"))
      | None =>
          if fi_IsDir f then _ ← closeFile; mret (inr errDirIndexRequired)
          else
            suffix ← suffixOf h fileEncoding;
            if HasSuffix filePath suffix || (fsMaxCompressibleFileSize <? fi_Size f) || negb (isFileCompressible f fsMinCompressRatio)
            then fsHandler_newFSFile h f false []
            else
              let compressedFilePath := filePath ++ suffix in
              abs ← gets (fun s => filepath_Abs (fs_disk s) compressedFilePath);
              match abs with
              | inr _ => _ ← closeFile; mret (inr (FsErrorf "cannot determine absolute path for %q: %s"))
              | inl _ => fsHandler_compressFileNolock h f compressedFilePath fileEncoding
              end
      end
  end.

Definition fsHandler_openFSFile (h : fsHandler) (filePath : bytes) (mustCompress : bool) (fileEncoding : bytes) : fsM (nat + fserror) :=
  let filePathOriginal := filePath in
  suffix ← suffixOf h fileEncoding;
  let filePath := if mustCompress then filePath ++ suffix else filePath in
  r ← openFile filePath;
  match r with
  | inr err =>
      if mustCompress && bool_decide (err = NotExist) then fsHandler_compressAndOpenFSFile h filePathOriginal fileEncoding
      else mret (inr (Os err))
  | inl f =>
      match f_Stat f with
      | Some _ => _ ← closeFile; mret (inr (FsErrorf "cannot obtain info for file %q: %s"))
      | None =>
          if fi_IsDir f then
            _ ← closeFile;
            mret (inr (if mustCompress then FsErrorf "directory with unexpected suffix found: %q. Suffix: %q" else errDirIndexRequired))
          else if mustCompress then
            st ← gets (fun s => os_Stat (fs_disk s) filePathOriginal);
            match st with
            | inr _ => _ ← closeFile; mret (inr (FsErrorf "cannot obtain info for original file %q: %s"))
            | inl original =>
                if second <=? timeSub (fi_ModTime original) (fi_ModTime f) then
                  _ ← closeFile;
                  _ ← modify (fun s => set_fs_disk (os_Remove (fs_disk s) filePath) s);
                  fsHandler_compressAndOpenFSFile h filePathOriginal fileEncoding
                else fsHandler_newFSFile h f mustCompress fileEncoding
            end
          else fsHandler_newFSFile h f mustCompress fileEncoding
      end
  end.

(** ** Directory indexes *)

(** html.EscapeString *)
Definition htmlEscapeByte (c : byte) : bytes :=
  if decide (c = "&"%byte) then bs "&amp;" else if decide (c = "'"%byte) then bs "&#39;"
  else if decide (c = "<"%byte) then bs "&lt;" else if decide (c = ">"%byte) then bs "&gt;"
  else if decide (c = x22) then bs "&#34;" else [c].
Definition htmlEscapeString (s : bytes) : bytes := concat (map htmlEscapeByte s).

(** sort.Strings *)
Fixpoint bytesLe (a b : bytes) : bool :=
  match a, b with
  | [], _ => true
  | _, [] => false
  | x :: a, y :: b => if bz x =? bz y then bytesLe a b else bz x <? bz y
  end.
Fixpoint insertSorted (x : bytes) (l : list bytes) : list bytes :=
  match l with
  | [] => [x]
  | y :: l' => if bytesLe x y then x :: l else y :: insertSorted x l'
  end.
Definition sortStrings (l : list bytes) : list bytes := fold_right insertSorted [] l.

Definition dq : bytes := [x22].
Definition indexLine (pathEscaped className name auxStr modTime : bytes) : bytes :=
  bs "<li><a href=" ++ dq ++ pathEscaped ++ dq ++ bs " class=" ++ dq ++ className ++ dq ++ bs ">" ++ name ++ bs "</a>, " ++
  auxStr ++ bs ", last modified " ++ modTime ++ bs "</li>".

(** The lines of the directory; [u] is the URI that is updated from name to name. *)
Fixpoint indexLines (fm : bytes -> option File) (u : URI) (filenames : list bytes) : option bytes :=
  match filenames with
  | [] => Some []
  | name :: filenames =>
      u ← URI_Update u name;
      let pathEscaped := htmlEscapeString (URI_Path u) in
      fi ← fm name;
      let line :=
        if fi_IsDir fi then indexLine pathEscaped (bs "dir") (htmlEscapeString name) (bs "dir")
        else indexLine pathEscaped (bs "file") (htmlEscapeString name) (bs "file, " ++ fmtInt (fi_Size fi) ++ bs " bytes") in
      rest ← indexLines fm u filenames;
      Some (line (timeString (fsModTime (fi_ModTime fi))) ++ rest)
  end.

Definition indexHead (base : URI) : option bytes :=
  let basePathEscaped := htmlEscapeString (URI_Path base) in
  parent ←
    (if decide (1 < length basePathEscaped)%nat then
       parentURI ← URI_Update (URI_CopyTo base emptyURI) (URI_Path base ++ bs "/..");
       Some (bs "<li><a href=" ++ dq ++ htmlEscapeString (URI_Path parentURI) ++ dq ++ bs " class=" ++ dq ++ bs "dir" ++ dq ++ bs ">..</a></li>")
     else Some []);
  Some (bs "<html><head><title>" ++ basePathEscaped ++ bs "</title><style>.dir { font-weight: bold }</style></head><body>" ++
        bs "<h1>" ++ basePathEscaped ++ bs "</h1>" ++ bs "<ul>" ++ parent).

Definition fsHandler_createDirIndex (h : fsHandler) (base : URI) (dirPath : bytes) (mustCompress : bool) (fileEncoding : bytes)
  : fsM (nat + fserror) :=
  head ← panics (indexHead base);
  r ← openFile dirPath;
  match r with
  | inr err => mret (inr (Os err))
  | inl f =>
      _ ← closeFile;
      match f_Readdir f with
      | inr err => mret (inr (Os err))
      | inl fileinfos =>
          m ← gets (fun s => default (fs_global s) (h_suffixes h));
          let shown := List.filter (fun fi => forallb (fun cfs => negb (HasSuffix (fi_Name fi) cfs.2)) (map_to_list m)) fileinfos in
          let fm name := List.find (fun fi => bool_decide (fi_Name fi = name)) (rev shown) in
          u ← panics (let u := URI_CopyTo base emptyURI in URI_Update u (URI_Path u ++ strSlash));
          lines ← panics (indexLines fm u (sortStrings (map fi_Name shown)));
          let w := head ++ lines ++ bs "</ul></body></html>" in
          let w := if mustCompress then compressed fileEncoding w else w in
          now ← gets fs_now;
          id ← newFile (MkFsFile None w (bs "text/html; charset=utf-8") (zlen w) mustCompress now (AppendHTTPDate [] now) now 0 []);
          mret (inl id)
      end
  end.

(** The first index file there is, else a generated index. *)
Fixpoint openIndexNames (h : fsHandler) (indexNames : list bytes) (dirPath : bytes) (mustCompress : bool) (fileEncoding : bytes)
    (generate : fsM (nat + fserror)) : fsM (nat + fserror) :=
  match indexNames with
  | [] => generate
  | indexName :: indexNames =>
      r ← fsHandler_openFSFile h (dirPath ++ strSlash ++ indexName) mustCompress fileEncoding;
      match r with
      | inl id => mret (inl id)
      | inr (Os NotExist) => openIndexNames h indexNames dirPath mustCompress fileEncoding generate
      | inr _ => mret (inr (FsErrorf "cannot open file %q: %s"))
      end
  end.

Definition fsHandler_openIndexFile (h : fsHandler) (base : URI) (dirPath : bytes) (mustCompress : bool) (fileEncoding : bytes)
  : fsM (nat + fserror) :=
  openIndexNames h (h_indexNames h) dirPath mustCompress fileEncoding
    (if negb (h_generateIndexPages h) then mret (inr (FsErrorf "cannot access directory without index page. Directory %q"))
     else fsHandler_createDirIndex h base dirPath mustCompress fileEncoding).

(** ** The cache *)

(** Which cache a request uses: by the encoding of the answer. *)
Definition cacheOf (fileEncoding : bytes) (s : fsState) : gmap bytes nat :=
  if decide (fileEncoding = strBr) then fs_cacheBrotli s else if decide (fileEncoding = strGzip) then fs_cacheGzip s else fs_cache s.
Definition set_cacheOf (fileEncoding : bytes) (m : gmap bytes nat) (s : fsState) : fsState :=
  if decide (fileEncoding = strBr) then set_fs_cacheBrotli m s else if decide (fileEncoding = strGzip) then set_fs_cacheGzip m s else set_fs_cache m s.

Definition incReadersCount (id : nat) : fsM unit :=
  ff ← getFile id; setFile id (set_ff_readersCount (ff_readersCount ff + 1) ff).

(** The first critical section: a file of the cache, with one reader more. *)
Definition cacheLookup (fileEncoding path : bytes) : fsM (option nat) :=
  m ← gets (cacheOf fileEncoding);
  match m !! path with
  | Some id => _ ← incReadersCount id; mret (Some id)
  | None => mret None
  end.

(** The second one: the opened file enters the cache, unless another goroutine
    was faster; then that one's is used and the own one is released. *)
Definition cacheInsert (fileEncoding path : bytes) (id : nat) : fsM nat :=
  m ← gets (cacheOf fileEncoding);
  match m !! path with
  | None =>
      _ ← modify (set_cacheOf fileEncoding (<[path := id]> m));
      _ ← incReadersCount id;
      mret id
  | Some id1 => _ ← incReadersCount id1; _ ← fsFile_Release id; mret id1
  end.

(** A file is stale when it was opened more than cacheDuration ago. *)
Definition stale (now : Time) (cacheDuration : Z) (ff : fsFile) : bool := cacheDuration <? timeSub now (ff_t ff).

(** (cache, pendingFiles, filesToRelease) after one cache has been cleaned. *)
Definition cleanCacheNolock (files : list fsFile) (now : Time) (cacheDuration : Z) (cache : gmap bytes nat)
    (pendingFiles filesToRelease : list nat) : gmap bytes nat * list nat * list nat :=
  let isStale id := match files !! id with Some ff => stale now cacheDuration ff | None => false end in
  let inUse id := match files !! id with Some ff => 0 <? ff_readersCount ff | None => false end in
  let gone := List.filter (fun kv => isStale kv.2) (map_to_list cache) in
  (fold_right (fun kv m => delete kv.1 m) cache gone,
   pendingFiles ++ List.filter inUse (map snd gone),
   filesToRelease ++ List.filter (fun id => negb (inUse id)) (map snd gone)).

Fixpoint releaseAll (ids : list nat) : fsM unit :=
  match ids with
  | [] => mret tt
  | id :: ids => _ ← fsFile_Release id; releaseAll ids
  end.

(** The critical section of cleanCache: the state with the caches cleaned, the
    files that stay pending and those to release. *)
Definition cleanCaches (h : fsHandler) (s : fsState) (pendingFiles : list nat) : fsState * list nat * list nat :=
  let inUse id := match fs_files s !! id with Some ff => 0 <? ff_readersCount ff | None => false end in
  let filesToRelease := List.filter (fun id => negb (inUse id)) pendingFiles in
  let pendingFiles := List.filter inUse pendingFiles in
  let clean cache '(pendingFiles, filesToRelease) := cleanCacheNolock (fs_files s) (fs_now s) (h_cacheDuration h) cache pendingFiles filesToRelease in
  let '(c1, p1, r1) := clean (fs_cache s) (pendingFiles, filesToRelease) in
  let '(c2, p2, r2) := clean (fs_cacheBrotli s) (p1, r1) in
  let '(c3, p3, r3) := clean (fs_cacheGzip s) (p2, r2) in
  (set_fs_cacheGzip c3 (set_fs_cacheBrotli c2 (set_fs_cache c1 s)), p3, r3).

Definition fsHandler_cleanCache (h : fsHandler) (pendingFiles : list nat) : fsM (list nat) := fun s =>
  let '(s, pendingFiles, filesToRelease) := cleanCaches h s pendingFiles in
  (_ ← releaseAll filesToRelease; mret pendingFiles) s.

(** ** The request handler *)

(** (mustCompress, fileEncoding) for a request with this Range field. *)
Definition chooseEncoding (h : fsHandler) (ctx : RequestCtx) (byteRange : bytes) : bool * bytes :=
  let hdr := req_Header (cx_Request ctx) in
  if bool_decide (length byteRange = O) && h_compress h then
    if h_compressBrotli h && RequestHeader_HasAcceptEncodingBytes hdr strBr then (true, strBr)
    else if RequestHeader_HasAcceptEncodingBytes hdr strGzip then (true, strGzip)
    else (false, [])
  else (false, []).

(** A file for the path, or the context with the answer instead.  [base] is the
    URI that AcquireURI hands out for a redirect. *)
Definition fsHandler_openMissing (h : fsHandler) (base : URI) (ctx : RequestCtx) (path : bytes) (hasTrailingSlash mustCompress : bool)
    (fileEncoding : bytes) : fsM (RequestCtx * nat + RequestCtx) :=
  let filePath := h_root h ++ path in
  r ← fsHandler_openFSFile h filePath mustCompress fileEncoding;
  '(r, mustCompress) ←
    (if mustCompress && bool_decide (r = inr errNoCreatePermission)
     then r ← fsHandler_openFSFile h filePath false fileEncoding; mret (r, false)
     else mret (r, mustCompress));
  match r with
  | inl id => mret (inl (ctx, id))
  | inr errDirIndexRequired =>
      if negb hasTrailingSlash then
        ctx ← panics (RequestCtx_RedirectBytes base ctx (path ++ strSlash) StatusFound); mret (inr ctx)
      else
        let '(ctx, u) := RequestCtx_URI ctx in
        r ← fsHandler_openIndexFile h u filePath mustCompress fileEncoding;
        match r with
        | inl id => mret (inl (ctx, id))
        | inr _ => mret (inr (RequestCtx_Error ctx (bs "Directory index is forbidden") StatusForbidden))
        end
  | inr _ =>
      mret (inr (match h_pathNotFound h with
                 | None => RequestCtx_Error ctx (bs "Cannot open requested path") StatusNotFound
                 | Some pathNotFound => pathNotFound (RequestCtx_SetStatusCode ctx StatusNotFound)
                 end))
  end.

(** The answer with the file; the reader, when the response has it as its body
    stream (the response closes it). *)
Definition fsHandler_serveFile (h : fsHandler) (ctx : RequestCtx) (id : nat) (byteRange fileEncoding : bytes)
  : fsM (RequestCtx * option fsReader) :=
  ff ← getFile id;
  if negb (RequestCtx_IfModifiedSince ctx (ff_lastModified ff)) then
    _ ← fsFile_decReadersCount id; mret (RequestCtx_NotModified ctx, None)
  else
    r ← fsFile_NewReader id;
    match r with
    | inr _ => mret (RequestCtx_Error ctx (bs "Internal Server Error") StatusInternalServerError, None)
    | inl r =>
        let ctx := if ff_compressed ff then
                     if decide (fileEncoding = strBr) then on_rsHeader (fun hdr => ResponseHeader_SetCanonical hdr strContentEncoding strBr) ctx
                     else if decide (fileEncoding = strGzip) then on_rsHeader (fun hdr => ResponseHeader_SetCanonical hdr strContentEncoding strGzip) ctx
                     else ctx
                   else ctx in
        let ctx := if h_acceptByteRange h then on_rsHeader (fun hdr => ResponseHeader_SetCanonical hdr strAcceptRanges strBytes) ctx else ctx in
        ranged ←
          (if h_acceptByteRange h && bool_decide (0 < length byteRange)%nat then
             match ParseByteRange byteRange (ff_contentLength ff) with
             | inr _ =>
                 _ ← fsReader_Close r;
                 mret (inr (RequestCtx_Error ctx (bs "Range Not Satisfiable") StatusRequestedRangeNotSatisfiable))
             | inl (startPos, endPos) =>
                 match fsReader_UpdateByteRange r startPos endPos with
                 | inr _ =>
                     _ ← fsReader_Close r;
                     mret (inr (RequestCtx_Error ctx (bs "Internal Server Error") StatusInternalServerError))
                 | inl r =>
                     hdr ← panics (ResponseHeader_SetContentRange (resp_Header (cx_Response ctx)) startPos endPos (ff_contentLength ff));
                     mret (inl (on_rsHeader (fun _ => hdr) ctx, r, endPos - startPos + 1, StatusPartialContent))
                 end
             end
           else mret (inl (ctx, r, ff_contentLength ff, StatusOK)));
        match ranged with
        | inr ctx => mret (ctx, None)
        | inl (ctx, r, contentLength, statusCode) =>
            let ctx := on_rsHeader (fun hdr => ResponseHeader_SetCanonical hdr strLastModified (ff_lastModifiedStr ff)) ctx in
            let finish ctx :=
              let ctx := on_rsHeader (set_rs_noDefaultContentType true) ctx in
              let ctx := if decide (length (ResponseHeader_ContentType (resp_Header (cx_Response ctx))) = O)
                         then RequestCtx_SetContentType ctx (ff_contentType ff) else ctx in
              RequestCtx_SetStatusCode ctx statusCode in
            if negb (RequestCtx_IsHead ctx) then
              ctx ← panics (RequestCtx_SetBodyStream ctx (fsReader_stream ff r) contentLength);
              mret (finish ctx, Some r)
            else
              let ctx := on_Response (set_resp_SkipBody true) (RequestCtx_ResetBody ctx) in
              hdr ← panics (ResponseHeader_SetContentLength (resp_Header (cx_Response ctx)) contentLength);
              let ctx := on_rsHeader (fun _ => hdr) ctx in
              err ← fsReader_Close r;
              mret (match err with
                    | Some _ => RequestCtx_Error ctx (bs "Internal Server Error") StatusInternalServerError
                    | None => finish ctx
                    end, None)
        end
    end.

Definition fsHandler_handleRequest (h : fsHandler) (base : URI) (ctx : RequestCtx) : fsM (RequestCtx * option fsReader) :=
  '(ctx, path) ← panics (match h_pathRewrite h with Some pathRewrite => pathRewrite ctx | None => Some (RequestCtx_Path ctx) end);
  let hasTrailingSlash := bool_decide (last path = Some "/"%byte) in
  let path := stripTrailingSlashes path in
  match IndexByte path x00 with
  | Some _ => mret (RequestCtx_Error ctx (bs "Are you a hacker?") StatusBadRequest, None)
  | None =>
      if (match h_pathRewrite h with Some _ => bool_decide (Index path strSlashDotDotSlash <> None) | None => false end)
      then mret (RequestCtx_Error ctx (bs "Internal Server Error") StatusInternalServerError, None)
      else
        let byteRange := default [] (RequestHeader_peek (req_Header (cx_Request ctx)) strRange) in
        let '(mustCompress, fileEncoding) := chooseEncoding h ctx byteRange in
        cached ← cacheLookup fileEncoding path;
        match cached with
        | Some id => fsHandler_serveFile h ctx id byteRange fileEncoding
        | None =>
            opened ← fsHandler_openMissing h base ctx path hasTrailingSlash mustCompress fileEncoding;
            match opened with
            | inr ctx => mret (ctx, None)
            | inl (ctx, id) =>
                id ← cacheInsert fileEncoding path id;
                fsHandler_serveFile h ctx id byteRange fileEncoding
            end
        end
  end.

(** ServeFile: the path becomes the request URI of a request to the file system's
    root. *)
Definition ServeFile (h : fsHandler) (base : URI) (ctx : RequestCtx) (path : bytes) : fsM (RequestCtx * option fsReader) :=
  abs ← (if decide (head path = Some "/"%byte) then mret (inl path)
         else
           r ← gets (fun s => filepath_Abs (fs_disk s) path);
           mret (match r with
                 | inl p => inl (if decide (last path = Some "/"%byte) then p ++ strSlash else p)
                 | inr e => inr e
                 end));
  match abs with
  | inr _ => mret (RequestCtx_Error ctx (bs "Internal Server Error") StatusInternalServerError, None)
  | inl path => fsHandler_handleRequest h base (on_Request (fun r => Request_SetRequestURI r path) ctx)
  end.

Definition ServeFileUncompressed (h : fsHandler) (base : URI) (ctx : RequestCtx) (path : bytes) : fsM (RequestCtx * option fsReader) :=
  ServeFile h base (on_rqHeader (fun hdr => RequestHeader_Del hdr strAcceptEncoding) ctx) path.

Definition FileLastModified (path : bytes) : fsM (Time + oserror) :=
  r ← openFile path;
  match r with
  | inr e => mret (inr e)
  | inl f =>
      _ ← closeFile;
      mret (match f_Stat f with Some e => inr e | None => inl (fsModTime (fi_ModTime f)) end)
  end.

End Fs.

(** ** A disk to run on: files with their paths *)

Inductive plainFile := PlainFile (path name data : bytes) (isDir : bool) (modTime : Z) (entries : list plainFile).

Definition pl_path (f : plainFile) : bytes := let 'PlainFile p _ _ _ _ _ := f in p.
Definition pl_data (f : plainFile) : bytes := let 'PlainFile _ _ d _ _ _ := f in d.
Definition plainFind (d : list plainFile) (p : bytes) : plainFile + oserror :=
  match List.find (fun f => bool_decide (pl_path f = p)) d with Some f => inl f | None => inr NotExist end.
Definition plainRemove (d : list plainFile) (p : bytes) : list plainFile := List.filter (fun f => negb (bool_decide (pl_path f = p))) d.

#[export] Instance plainOs : @OsLib unixTime := {|
  Disk := list plainFile;
  File := plainFile;
  f_Name := pl_path;
  fi_Name := fun '(PlainFile _ n _ _ _ _) => n;
  fi_Size := fun f => zlen (pl_data f);
  fi_IsDir := fun '(PlainFile _ _ _ d _ _) => d;
  fi_ModTime := fun '(PlainFile _ _ _ _ t _) => t;
  f_Stat := fun _ => None;
  f_Data := fun '(PlainFile _ _ d isDir _ _) => if isDir then ([], Some (OsError 21)) else (d, None);
  f_Seek := fun _ _ => None;
  f_Readdir := fun '(PlainFile _ _ _ _ _ l) => inl l;
  os_Open := plainFind;
  os_Stat := plainFind;
  os_Create := fun d p => (PlainFile p p [] false 0 [] :: plainRemove d p, None);
  os_Write := fun d p b => (PlainFile p p b false 0 [] :: plainRemove d p, None);
  os_Chtimes := fun d p t => (map (fun '(PlainFile q n b dir t' l) => PlainFile q n b dir (if decide (q = p) then t else t') l) d, None);
  os_Rename := fun d p q => (map (fun '(PlainFile p' n b dir t l) => PlainFile (if decide (p' = p) then q else p') n b dir t l) (plainRemove d q), None);
  os_Remove := plainRemove;
  filepath_Abs := fun _ p => inl (bs "/work/" ++ p);
  TypeByExtension := fun e => if decide (e = bs ".txt") then bs "text/plain" else [];
  DetectContentType := fun _ => bs "application/octet-stream";
  compressed := fun e b => e ++ take (length b `div` 2) b;
  decompressed := fun e b => if HasPrefix b e then inl (drop (length e) b) else inr (OsError 0);
  truncSecond := fun t => t;
  timeBefore := Z.ltb;
  timeSub := fun a b => (a - b) * second;
  timeString := fmtInt
|}.

Definition plainState (d : list plainFile) : @fsState unixTime plainOs := MkFsState d 0 FSCompressedFileSuffixes [] ∅ ∅ ∅ [] 0 [].
