(* ===== verification/FsRange.v ===== *)
(** * fs.go: byte ranges

    ParseByteRange against the three forms of a range in RFC 2616, and the bounds
    of what it returns, whatever the client sends. *)
From Stdlib Require Import Strings.String.
From stdpp Require Import gmap.
From S2P Require Import Prelude BytesConv Consts Args Fs.

(** ** Reference *)

Inductive rangeSpec :=
| Closed (a b : Z)
| From (a : Z)
| Suffix (k : Z).

Definition rangeText (r : rangeSpec) : bytes :=
  strBytes ++ bs "=" ++
  match r with
  | Closed a b => fmtInt a ++ bs "-" ++ fmtInt b
  | From a => fmtInt a ++ bs "-"
  | Suffix k => bs "-" ++ fmtInt k
  end.

Definition rangeNumbers (r : rangeSpec) : list Z :=
  match r with Closed a b => [a; b] | From a => [a] | Suffix k => [k] end.

(** First and last byte of the range in a file of [n] bytes, if it is satisfiable. *)
Definition window (r : rangeSpec) (n : Z) : option (Z * Z) :=
  match r with
  | Closed a b => if (a <? n) && (a <=? b) then Some (a, Z.min b (n - 1)) else None
  | From a => if a <? n then Some (a, n - 1) else None
  | Suffix k => if (0 <? k) && (0 <? n) then Some (Z.max 0 (n - k), n - 1) else None
  end.

(** ** Numbers *)

Lemma parseUintLoop_range b i v w n :
  parseUintLoop b i v = (w, n, None) -> 0 <= v <= maxInt -> 0 <= w <= maxInt.
Proof.
  revert i v. induction b as [|c b IH]; intros i v; cbn [parseUintLoop]; [by intros [= <- _]|].
  destruct (9 <? _).
  - case_decide; [done|]. by intros [= <- _].
  - intros E Hv. destruct (Z.ltb_spec (int64 (10 * v + bz (zb (bz c - bz "0"%byte)))) v); [done|].
    apply IH in E; [done|]. split; [lia|].
    unfold int64, maxInt. pose proof (Z.mod_pos_bound (10 * v + bz (zb (bz c - bz "0"%byte)) + 2 ^ 63) (2 ^ 64)). lia.
Qed.

Lemma ParseUint_range b v : ParseUint b = (v, None) -> 0 <= v <= maxInt.
Proof.
  unfold ParseUint, parseUintBuf. case_decide; cbn [fst snd]; [case_decide; done|].
  destruct (parseUintLoop b 0 0) as [[w n] err] eqn:E. case_decide; [|done]. intros [= <- ->].
  apply parseUintLoop_range in E; [done|]. unfold maxInt. lia.
Qed.

Lemma ParseUint_fmtInt k : 0 <= k <= maxInt -> ParseUint (fmtInt k) = (k, None).
Proof.
  intros Hk. destruct (fmtInt_nonneg k Hk) as (F & Ne & V). rewrite ParseUint_digits; try done; [by rewrite V|lia].
Qed.

Lemma fmtInt_no_dash k : 0 <= k <= maxInt -> "-"%byte ∉ fmtInt k.
Proof.
  intros Hk E. destruct (fmtInt_nonneg k Hk) as (F & _ & _). rewrite Forall_forall in F. by specialize (F _ E).
Qed.

(** ** ParseByteRange behind its prefix *)

Definition rangeBody (b : bytes) (contentLength : Z) : Z * Z + error :=
  ParseByteRange (strBytes ++ "="%byte :: b) contentLength.

Lemma rangeBody_eq b n :
  rangeBody b n =
  match IndexByte b "-" with
  | None => inr (Errorf "missing the end position of byte range in %q")
  | Some O =>
      match ParseUint (drop 1 b) with
      | (_, Some err) => inr err
      | (v, None) => inl (if n - v <? 0 then 0 else n - v, n - 1)
      end
  | Some m =>
      match ParseUint (take m b) with
      | (_, Some err) => inr err
      | (startPos, None) =>
          if n <=? startPos then inr (Errorf "the start position of byte range cannot exceed %d. byte range %q")
          else if decide (length (drop (m + 1) b) = O) then inl (startPos, n - 1)
          else
            match ParseUint (drop (m + 1) b) with
            | (_, Some err) => inr err
            | (endPos, None) =>
                if (if n <=? endPos then n - 1 else endPos) <? startPos
                then inr (Errorf "the start position of byte range cannot exceed the end position. byte range %q")
                else inl (startPos, if n <=? endPos then n - 1 else endPos)
            end
      end
  end.
Proof.
  unfold rangeBody, ParseByteRange. rewrite HasPrefix_app. cbn [negb]. rewrite drop_app_exact.
  rewrite decide_False by (intros H; by apply H). reflexivity.
Qed.

Lemma ParseByteRange_shape b n w : ParseByteRange b n = inl w -> exists b', b = strBytes ++ "="%byte :: b' /\ rangeBody b' n = inl w.
Proof.
  intros E. pose proof E as E0. unfold ParseByteRange in E. destruct (HasPrefix b strBytes) eqn:Hp; [|done].
  apply HasPrefix_true in Hp as [l ->]. cbn [negb] in E. rewrite drop_app_exact in E.
  destruct l as [|c l]; [done|]. destruct (decide (c <> "="%byte)) as [|Hc] in E; [done|].
  assert (c = "="%byte) as -> by (destruct (decide (c = "="%byte)); [done|by exfalso; apply Hc]). by exists l.
Qed.

Lemma rangeBody_numbers a tail n :
  0 <= a <= maxInt ->
  rangeBody (fmtInt a ++ "-"%byte :: tail) n =
  if n <=? a then inr (Errorf "the start position of byte range cannot exceed %d. byte range %q")
  else if decide (length tail = O) then inl (a, n - 1)
  else
    match ParseUint tail with
    | (_, Some err) => inr err
    | (e, None) =>
        if (if n <=? e then n - 1 else e) <? a
        then inr (Errorf "the start position of byte range cannot exceed the end position. byte range %q")
        else inl (a, if n <=? e then n - 1 else e)
    end.
Proof.
  intros Ha. rewrite rangeBody_eq, IndexByte_app by by apply fmtInt_no_dash.
  destruct (fmtInt_nonneg a Ha) as (_ & Ne & _). destruct (length (fmtInt a)) as [|m] eqn:El; [by destruct (fmtInt a)|].
  rewrite <- El, take_app_exact. rewrite Nat.add_1_r, drop_app_S. by rewrite ParseUint_fmtInt.
Qed.

(** What ParseByteRange accepts lies in the file, whatever the client sends:
    the bytes from start to end exist, or the range is empty, at the end of the
    file; an empty one comes from a suffix range of no bytes or of an empty file
    only.  The end is -1 exactly for an empty file. *)
Lemma ParseByteRange_inside (byteRange : bytes) (contentLength startPos endPos : Z) (Hn : 0 <= contentLength)
    (E : ParseByteRange byteRange contentLength = inl (startPos, endPos)) :
  0 <= startPos /\ endPos < contentLength /\ -1 <= endPos /\ startPos <= endPos + 1 /\ (endPos = -1 <-> contentLength = 0) /\
  (startPos = endPos + 1 ->
   exists k, byteRange = strBytes ++ bs "=-" ++ k /\ (contentLength = 0 \/ ParseUint k = (0, None))).
Proof.
  apply ParseByteRange_shape in E as (b & -> & E). rewrite rangeBody_eq in E.
  destruct (IndexByte b "-") as [[|m]|] eqn:Ei; [| |done].
  - apply IndexByte_Some in Ei as (l1 & l2 & -> & Hl & _). destruct l1; [|done]. cbn [app] in E. change (drop 1 ("-"%byte :: l2)) with l2 in E.
    destruct (ParseUint l2) as [v [err|]] eqn:Ev; [done|]. pose proof (ParseUint_range _ _ Ev) as Rv. injection E as <- <-.
    destruct (Z.ltb_spec (contentLength - v) 0).
    + split_and!; try lia. intros. exists l2. split; [done|]. lia.
    + split_and!; try lia. intros. exists l2. split; [done|]. right. rewrite Ev. do 2 f_equal. lia.
  - destruct (ParseUint (take (S m) b)) as [s [err|]] eqn:Es; [done|]. pose proof (ParseUint_range _ _ Es) as Rs.
    destruct (Z.leb_spec contentLength s); [done|]. case_decide; [injection E as <- <-; split_and!; lia|].
    destruct (ParseUint (drop (S m + 1) b)) as [v [err|]] eqn:Ev; [done|]. pose proof (ParseUint_range _ _ Ev) as Rv.
    destruct (Z.leb_spec contentLength v);
      match type of E with context [?x <? s] => destruct (Z.ltb_spec x s); [done|] end; injection E as <- <-; split_and!; lia.
Qed.

(** What ParseByteRange answers: the window of the range where it has one.  A
    suffix range without a byte, of length 0 or of an empty file, which the RFC
    calls unsatisfiable, is accepted as the empty range behind the last byte. *)
Definition accepted (r : rangeSpec) (n : Z) : Z * Z + error :=
  match window r n, r with
  | Some w, _ => inl w
  | None, Suffix k => inl (Z.max 0 (n - k), n - 1)
  | None, (Closed a _ | From a) =>
      inr (Errorf (if n <=? a then "the start position of byte range cannot exceed %d. byte range %q"
                   else "the start position of byte range cannot exceed the end position. byte range %q"))
  end.

(** * Properties *)

(** C38. A byte range of each of the three forms of RFC 2616, with numbers that
    fit in an int, for a file of any length: where the RFC gives a part of the
    file ([window]), ParseByteRange returns its first and last byte; a range from
    a given first byte that has no part is refused, with the error of the test it
    fails.  The two disagree on suffix ranges without a byte, "bytes=-0" and every
    suffix of an empty file: the RFC calls them unsatisfiable, ParseByteRange
    accepts them and returns the empty range behind the last byte. *)
Theorem ParseByteRange_window (r : rangeSpec) (contentLength : Z)
    (Hn : 0 <= contentLength <= maxInt) (Hr : Forall (fun k => 0 <= k <= maxInt) (rangeNumbers r)) :
  (forall w, window r contentLength = Some w -> ParseByteRange (rangeText r) contentLength = inl w) /\
  ParseByteRange (rangeText r) contentLength = accepted r contentLength.
Proof.
  enough (ParseByteRange (rangeText r) contentLength = accepted r contentLength) as E.
  { split; [|done]. intros w Hw. rewrite E. unfold accepted. by rewrite Hw. }
  destruct r as [a b|a|k]; unfold rangeText, accepted; cbn [window rangeNumbers] in *; rewrite !Forall_cons in Hr.
  - destruct Hr as (Ha & Hb & _). change (ParseByteRange _ contentLength) with (rangeBody (fmtInt a ++ "-"%byte :: fmtInt b) contentLength).
    rewrite rangeBody_numbers by done. destruct (fmtInt_nonneg b Hb) as (_ & Ne & _).
    rewrite decide_False by (by destruct (fmtInt b)). rewrite ParseUint_fmtInt by done.
    destruct (Z.ltb_spec a contentLength), (Z.leb_spec contentLength a); try lia; cbn [andb]; [|done].
    destruct (Z.leb_spec contentLength b), (Z.leb_spec a b); try lia.
    + destruct (Z.ltb_spec (contentLength - 1) a); [lia|]. do 2 f_equal. lia.
    + destruct (Z.ltb_spec b a); [lia|]. do 2 f_equal. lia.
    + by destruct (Z.ltb_spec b a); [|lia].
  - destruct Hr as (Ha & _). change (ParseByteRange _ contentLength) with (rangeBody (fmtInt a ++ "-"%byte :: []) contentLength).
    rewrite rangeBody_numbers by done. by destruct (Z.ltb_spec a contentLength), (Z.leb_spec contentLength a); try lia.
  - destruct Hr as (Hk & _). change (ParseByteRange _ contentLength) with (rangeBody ("-"%byte :: fmtInt k) contentLength).
    rewrite rangeBody_eq. change (IndexByte ("-"%byte :: fmtInt k) "-") with (Some 0%nat). cbv iota.
    change (drop 1 ("-"%byte :: fmtInt k)) with (fmtInt k). rewrite ParseUint_fmtInt by done.
    assert ((if contentLength - k <? 0 then 0 else contentLength - k) = Z.max 0 (contentLength - k)) as -> by (destruct (Z.ltb_spec (contentLength - k) 0); lia).
    by destruct (_ && _).
Qed.

Lemma ParseByteRange_window_witness :
  (0 <= 100 <= maxInt /\ Forall (fun k => 0 <= k <= maxInt) (rangeNumbers (Closed 90 200)) /\ Forall (fun k => 0 <= k <= maxInt) (rangeNumbers (Suffix 0))) /\
  ParseByteRange (bs "bytes=90-200") 100 = inl (90, 99) /\ ParseByteRange (bs "bytes=-0") 100 = inl (100, 99).
Proof.
  assert (0 <= 100 <= maxInt) as Hn by (unfold maxInt; lia).
  assert (Forall (fun k => 0 <= k <= maxInt) (rangeNumbers (Closed 90 200))) as Hr by (repeat constructor; unfold maxInt; lia).
  assert (Forall (fun k => 0 <= k <= maxInt) (rangeNumbers (Suffix 0))) as Hs by (repeat constructor; unfold maxInt; lia).
  split; [by split_and!|].
  exact (conj (proj1 (ParseByteRange_window (Closed 90 200) 100 Hn Hr) (90, 99) eq_refl) (proj2 (ParseByteRange_window (Suffix 0) 100 Hn Hs))).
Defined.

(** Ranges without a byte are accepted, although they have no window. *)
Lemma ParseByteRange_empty_suffix :
  (ParseByteRange (bs "bytes=-5") 0 = inl (0, -1) /\ window (Suffix 5) 0 = None) /\
  ParseByteRange (bs "bytes=-0") 100 = inl (100, 99) /\ window (Suffix 0) 100 = None.
Proof. split_and!; vm_compute; reflexivity. Qed.
