(* ===== verification/FsPaths.v ===== *)
(** * fs.go: the files a request can reach

    Every path the handler gives to os.Open or os.Create is the root itself or the
    root followed by a slash and a path without [..], for the rewriters of the
    package and for none; with Compress, a request for the root also reaches the
    compressed copy of the root beside it.  The proof is a small logic of the
    handler's steps: what they keep of the state. *)
From Stdlib Require Import Strings.String.
From stdpp Require Import gmap.
From S2P Require Import Prelude BytesConv Consts Args Uri Cookie HeaderScan RequestHeader ResponseHeader Bufio Body HeaderRead Http UserData Streaming RequestCtx Server ServerSafety Fs.

(** ** Segments *)

Definition dotdot : bytes := bs "..".
Definition noDotDot (p : bytes) : Prop := ~ dotdot ∈ splitOn "/" p.

Lemma splitOn_extend b x :
  "/"%byte ∉ x -> exists segs s, splitOn "/" b = segs ++ [s] /\ splitOn "/" (b ++ x) = segs ++ [s ++ x].
Proof.
  intros Hx. induction b as [|c b (segs & s & E1 & E2)].
  - exists [], []. split; [done|]. by apply splitOn_none.
  - cbn [splitOn app]. destruct (decide (c = "/"%byte)).
    + exists ([] :: segs), s. by rewrite E1, E2.
    + rewrite E1, E2. destruct segs as [|s0 segs]; [exists [], (c :: s)|exists ((c :: s0) :: segs), s]; done.
Qed.

(** A suffix that cannot complete a [..]. *)
Definition goodSuffix (x : bytes) : Prop := ~ "/"%byte ∈ x /\ (x = [] \/ exists c, c ∈ x /\ c <> "."%byte).

Lemma goodSuffix_app x y : goodSuffix x -> goodSuffix y -> goodSuffix (x ++ y).
Proof.
  intros [S1 D1] [S2 D2]. split; [by rewrite elem_of_app; intros [?|?]|].
  destruct D1 as [->|(c & Hc & Nc)]; [exact D2|]. right. exists c. split; [apply elem_of_app; by left|done].
Qed.

Lemma noDotDot_suffix p x : noDotDot p -> goodSuffix x -> noDotDot (p ++ x).
Proof.
  intros Hp [Hs Hd]. destruct (splitOn_extend p x Hs) as (segs & s & E1 & E2). unfold noDotDot in *.
  rewrite E2. rewrite E1 in Hp. rewrite elem_of_app, list_elem_of_singleton in *. intros [H|H]; [tauto|].
  destruct Hd as [->|(c & Hc & Nc)]; [rewrite app_nil_r in H; tauto|].
  assert (c ∈ dotdot) as D by (rewrite H; apply elem_of_app; by right).
  apply Nc. unfold dotdot in D. apply list_elem_of_In in D. simpl in D. intuition congruence.
Qed.

Lemma splitOn_slash b d : splitOn "/" (b ++ "/"%byte :: d) = splitOn "/" b ++ splitOn "/" d.
Proof.
  induction b as [|c b IH]; cbn [app splitOn]; [by rewrite decide_True|].
  destruct (decide (c = "/"%byte)); rewrite IH; [done|]. destruct (splitOn "/" b) as [|s ss] eqn:E; [by apply splitOn_nonnil in E|done].
Qed.

Lemma noDotDot_join p name : noDotDot p -> noDotDot name -> noDotDot (p ++ "/"%byte :: name).
Proof. unfold noDotDot. rewrite splitOn_slash, elem_of_app. tauto. Qed.

Lemma noDotDot_app_slash_l p q : noDotDot (p ++ "/"%byte :: q) -> noDotDot p /\ noDotDot q.
Proof. unfold noDotDot. rewrite splitOn_slash, elem_of_app. tauto. Qed.

(** The paths of requests: empty, or with a slash in front. *)
Definition requestPath (p : bytes) : Prop := noDotDot p /\ (p = [] \/ head p = Some "/"%byte).

Lemma requestPath_nil : requestPath [].
Proof. split; [|by left]. unfold noDotDot. simpl. rewrite list_elem_of_singleton. done. Qed.

Lemma stripTrailingSlashes_spec p : exists n, p = stripTrailingSlashes p ++ repeat "/"%byte n.
Proof.
  assert (forall l, exists n, rev l = rev (stripTrailingRev l) ++ repeat "/"%byte n) as H.
  { induction l as [|c l (n & IH)]; [by exists O|]. cbn [stripTrailingRev]. case_decide as H; [|by exists O; rewrite app_nil_r].
    subst c. exists (S n). cbn [rev]. rewrite IH, <- app_assoc. f_equal. clear. induction n as [|n IH]; [done|]. cbn. f_equal. exact IH. }
  destruct (H (rev p)) as (n & E). exists n. rewrite rev_involutive in E. exact E.
Qed.

Lemma requestPath_stripTrailing p : requestPath p -> requestPath (stripTrailingSlashes p).
Proof.
  intros [N Hd]. destruct (stripTrailingSlashes_spec p) as (n & E). set (q := stripTrailingSlashes p) in *. clearbody q. subst p.
  destruct n as [|n]; [by rewrite app_nil_r in *|]. cbn [repeat] in N. split; [by apply noDotDot_app_slash_l in N as [? _]|].
  destruct q as [|c q]; [by left|]. right. destruct Hd as [?|Hd]; [done|exact Hd].
Qed.

Lemma stripLeadingSlashes_safe p n : requestPath p -> exists q, stripLeadingSlashes p n = Some q /\ requestPath q.
Proof.
  revert p. induction n as [|n IH]; intros p Hp; [by exists p; destruct p|].
  destruct p as [|c rest]; [by exists []|]. cbn [stripLeadingSlashes]. destruct Hp as [N [?|Hc]]; [done|]. injection Hc as ->.
  rewrite decide_False by (intros H; by apply H). destruct (IndexByte rest "/") as [m|] eqn:E; [|exists []; split; [done|apply requestPath_nil]].
  apply IndexByte_Some in E as (l1 & l2 & -> & <- & _). apply IH. rewrite Nat.add_1_r. cbn [drop]. rewrite drop_app_exact.
  split; [|by right]. apply noDotDot_app_slash_l with (p := "/"%byte :: l1) in N as [_ N]. unfold noDotDot in *. cbn [splitOn].
  rewrite decide_True by done. rewrite elem_of_cons. intros [H|H]; [done|tauto].
Qed.

Lemma normalizePath_requestPath src : requestPath (normalizePath src).
Proof.
  split; [|right; apply normalizePath_head]. pose proof (normalizePath_normal src) as H. unfold noDotDot.
  pose proof (normalizePath_head src) as Hh. unfold segments in H. destruct (normalizePath src) as [|c p]; [done|]. injection Hh as ->.
  cbn [splitOn tl] in *. rewrite decide_True by done. rewrite elem_of_cons. intros [?|E]; [done|].
  destruct H as (_ & H & _). by apply H.
Qed.

(** ** The path of a request *)

Definition normalURI (u : URI) : Prop := u_path u = [] \/ exists src, u_path u = normalizePath src.

Lemma normalURI_path u : normalURI u -> requestPath (URI_Path u).
Proof.
  unfold URI_Path. intros [E|[src E]]; rewrite E.
  - rewrite decide_True by done. split; [|by right]. unfold noDotDot. vm_compute. intros H. apply list_elem_of_In in H. simpl in H. intuition congruence.
  - case_decide as H; [by pose proof (normalizePath_head src); destruct (normalizePath src)|apply normalizePath_requestPath].
Qed.

Lemma URI_parse_normal u host uri isTLS : normalURI (fst (URI_parse u host uri isTLS)).
Proof.
  unfold URI_parse. destruct (stringContainsCTLByte uri); [by left|].
  destruct (if bool_decide _ || _ then _ else _) as [[u1 h1] uri1]. destruct (parseAuth _ h1) as [u2 h2]. right.
  unfold parsePathQueryHash. cbn [fst].
  destruct (match IndexByte uri1 "?" with Some q => _ | None => _ end), (IndexByte uri1 "#"); eexists; reflexivity.
Qed.

(** ** What the steps keep *)

(** os.File.Name returns the name the file was opened by. *)
Class OsLaws `{OsLib} := {
  os_name : forall d p f, os_Open d p = inl f -> f_Name f = p
}.

Section Paths.
Context {HL : HttpLib} {SL : ServerLib} {TL : TimeLib} {OL : OsLib} {Laws : OsLaws} (h : fsHandler).
(** FSCompressedFileSuffixes as it is while requests are handled. *)
Context (global : gmap bytes bytes).

(** The root, or the root followed by a slash and a path without [..]. *)
Definition inRoot (path : bytes) : Prop := exists p, path = h_root h ++ p /\ requestPath p.

(** The suffix of the compressed files of an encoding. *)
Definition sfx (e : bytes) : bytes := suffixAt (default global (h_suffixes h)) e.

Definition encoding (e : bytes) : Prop := e = strGzip \/ e = strBr.

(** Beside the root: the compressed copy of the root itself, and the temporary file
    it is made in; with Compress only. *)
Definition copyOfRoot (path : bytes) : Prop :=
  h_compress h = true /\ exists e, encoding e /\ (path = h_root h ++ sfx e \/ path = h_root h ++ sfx e ++ bs ".tmp").

Definition under (path : bytes) : Prop := inRoot path \/ copyOfRoot path.

Definition fileUnder (ff : fsFile) : Prop := match ff_f ff with Some f => under (f_Name f) | None => True end.

Record inside (s : fsState) : Prop := {
  in_files : Forall fileUnder (fs_files s);
  in_opened : Forall under (fs_opened s);
  in_global : fs_global s = global;
  in_suffixes : forall e, goodSuffix (sfx e)
}.

Definition keeps {A} (Q : A -> Prop) (m : fsM A) : Prop := forall s s' a, inside s -> m s = Some (s', a) -> inside s' /\ Q a.

Lemma keeps_ret {A} (Q : A -> Prop) a : Q a -> keeps Q (mret a).
Proof. intros H s s' a' I [= <- <-]. done. Qed.

Lemma keeps_bind {A B} (Q : A -> Prop) (R : B -> Prop) m f :
  keeps Q m -> (forall a, Q a -> keeps R (f a)) -> keeps R (m ≫= f).
Proof.
  intros Hm Hf s s' b I E. unfold mbind, fsM_bind in E. destruct (m s) as [[s1 a]|] eqn:Em; [|done].
  destruct (Hm _ _ _ I Em) as [I1 Ha]. by apply (Hf a Ha s1).
Qed.

Lemma keeps_weaken {A} (Q R : A -> Prop) m : keeps Q m -> (forall a, Q a -> R a) -> keeps R m.
Proof. intros Hm Hw s s' a I E. destruct (Hm _ _ _ I E). auto. Qed.

Lemma keeps_panics {A} (Q : A -> Prop) (o : option A) : (forall a, o = Some a -> Q a) -> keeps Q (panics o).
Proof. intros H s s' a I E. unfold panics in E. destruct o as [x|]; [|done]. injection E as <- <-. auto. Qed.

Lemma keeps_gets {A} (Q : A -> Prop) f : (forall s, inside s -> Q (f s)) -> keeps Q (gets f).
Proof. intros H s s' a I [= <- <-]. auto. Qed.

Lemma keeps_modify (Q : unit -> Prop) f : (forall s, inside s -> inside (f s)) -> Q tt -> keeps Q (modify f).
Proof. intros H Hq s s' a I [= <- <-]. auto. Qed.

(** Changes to anything but the files, the log and the map of suffixes. *)
Lemma inside_same s s' :
  fs_files s' = fs_files s -> fs_opened s' = fs_opened s -> fs_global s' = fs_global s -> inside s -> inside s'.
Proof. intros E1 E2 E3 [F O G S]. split; by rewrite ?E1, ?E2, ?E3. Qed.

Lemma keeps_suffixOf e : keeps (fun x => x = sfx e /\ goodSuffix x) (suffixOf h e).
Proof. apply keeps_gets. intros s I. rewrite (in_global _ I). split; [done|apply I]. Qed.

Lemma keeps_closeFile : keeps (fun _ => True) closeFile.
Proof. apply keeps_modify; [|done]. intros s. by apply inside_same. Qed.

Lemma keeps_openFile path :
  under path -> keeps (fun r => match r with inl f => under (f_Name f) | inr _ => True end) (openFile path).
Proof.
  intros Hp s s' r [F O G S] E. unfold openFile in E. cbn [fs_disk set_fs_opened] in E.
  assert (Forall under (fs_opened s ++ [path])) as O' by (apply Forall_app; split; [done|by constructor]).
  destruct (os_Open (fs_disk s) path) as [f|err] eqn:Eo; injection E as <- <-; (split; [by split|]); [|done].
  by rewrite (os_name _ _ _ Eo).
Qed.

Lemma keeps_newFile ff : fileUnder ff -> keeps (fun _ => True) (newFile ff).
Proof.
  intros Hf s s' a [F O G S] [= <- <-]. split; [|done]. split; [|done..]. cbn. apply Forall_app. split; [done|by constructor].
Qed.

Lemma keeps_getFile id : keeps fileUnder (getFile id).
Proof.
  intros s s' a I E. unfold getFile in E. destruct (fs_files s !! id) as [ff|] eqn:L; [|done]. injection E as <- <-.
  split; [done|]. eapply Forall_lookup_1; [apply I|exact L].
Qed.

Lemma keeps_setFile id ff : fileUnder ff -> keeps (fun _ => True) (setFile id ff).
Proof.
  intros Hf. apply keeps_modify; [|done]. intros s [F O G S]. split; [|done..]. cbn. by apply Forall_insert.
Qed.

Lemma keeps_dec id : keeps (fun _ => True) (fsFile_decReadersCount id).
Proof.
  eapply keeps_bind; [apply keeps_getFile|]. intros ff Hf. eapply keeps_bind; [by apply keeps_setFile|].
  intros _ _. destruct (_ <? 0); [by apply keeps_panics|by apply keeps_ret].
Qed.

Lemma keeps_inc id : keeps (fun _ => True) (incReadersCount id).
Proof. eapply keeps_bind; [apply keeps_getFile|]. intros ff Hf. by apply keeps_setFile. Qed.

Lemma keeps_release id : keeps (fun _ => True) (fsFile_Release id).
Proof.
  eapply keeps_bind; [apply keeps_getFile|]. intros ff Hf. destruct (ff_f ff); [|by apply keeps_ret].
  apply keeps_modify; [|done]. intros s. by apply inside_same.
Qed.

(** ** Opening *)

Lemma tmp_suffix : goodSuffix (bs ".tmp").
Proof. split; [by vm_compute; intros H; apply list_elem_of_In in H; simpl in H; intuition congruence|]. right. exists "t"%byte. split; [|done]. apply list_elem_of_In. simpl. tauto. Qed.

(** The requests that are answered with compressed files. *)
Definition compresses (m : bool) (e : bytes) : Prop := m = true -> h_compress h = true /\ encoding e.

Lemma requestPath_suffix p x : requestPath p -> p <> [] -> goodSuffix x -> requestPath (p ++ x).
Proof. intros [N Hd] Hp G. split; [by apply noDotDot_suffix|]. right. destruct Hd as [Hd|Hd]; [done|by destruct p]. Qed.

Lemma under_sfx path e : inRoot path -> goodSuffix (sfx e) -> h_compress h = true -> encoding e -> under (path ++ sfx e).
Proof.
  intros (p & -> & Hp) G C He. destruct (decide (p = [])) as [->|D].
  - right. split; [done|]. exists e. split; [done|]. left. by rewrite app_nil_r.
  - left. exists (p ++ sfx e). split; [by rewrite app_assoc|by apply requestPath_suffix].
Qed.

Lemma under_tmp path e : inRoot path -> goodSuffix (sfx e) -> h_compress h = true -> encoding e -> under ((path ++ sfx e) ++ bs ".tmp").
Proof.
  intros (p & -> & Hp) G C He. rewrite <- app_assoc. destruct (decide (p = [])) as [->|D].
  - right. split; [done|]. exists e. split; [done|]. right. by rewrite app_nil_r.
  - left. exists (p ++ sfx e ++ bs ".tmp"). split; [by rewrite <- !app_assoc|]. apply requestPath_suffix; [done..|]. by apply goodSuffix_app, tmp_suffix.
Qed.

Lemma keeps_newFSFile f c e : under (f_Name f) -> keeps (fun _ => True) (fsHandler_newFSFile h f c e).
Proof.
  intros Hf. unfold fsHandler_newFSFile. cbv zeta. destruct (negb _).
  { eapply keeps_bind; [apply keeps_closeFile|]. intros _ _. by apply keeps_ret. }
  eapply keeps_bind; [apply keeps_suffixOf|]. intros x _. destruct (if decide _ then _ else _) as [ct|]; [|by apply keeps_ret].
  eapply keeps_bind; [apply (keeps_gets (fun _ => True)); done|]. intros t _.
  eapply keeps_bind; [by apply keeps_newFile|]. intros id _. by apply keeps_ret.
Qed.

(** close and report *)
Lemma keeps_fail {A} (r : A) : keeps (fun _ => True) (_ ← closeFile; mret r).
Proof. eapply keeps_bind; [apply keeps_closeFile|]. intros _ _. by apply keeps_ret. Qed.

Lemma keeps_newCompressed path e : under path -> keeps (fun _ => True) (fsHandler_newCompressedFSFile h path e).
Proof.
  intros Hp. eapply keeps_bind; [by apply keeps_openFile|]. intros [f|err] Hf; [|by apply keeps_ret].
  destruct (f_Stat f); [apply keeps_fail|by apply keeps_newFSFile].
Qed.

Lemma keeps_diskOp op : keeps (fun _ => True) (diskOp op).
Proof. intros s s' a I E. unfold diskOp in E. destruct (op (fs_disk s)). injection E as <- <-. split; [|done]. by apply (inside_same s). Qed.

Lemma keeps_compressFile f path e : under path -> under (path ++ bs ".tmp") -> keeps (fun _ => True) (fsHandler_compressFileNolock h f path e).
Proof.
  intros Hp Ht. eapply keeps_bind; [apply (keeps_gets (fun _ => True)); done|]. intros [st|st] _.
  { eapply keeps_bind; [apply keeps_closeFile|]. intros _ _. by apply keeps_newCompressed. }
  eapply keeps_bind.
  { apply (keeps_modify (fun _ => True)); [|done]. intros s [F O G S]. split; [done| |done..]. cbn. apply Forall_app. split; [done|].
    by constructor. }
  intros _ _. eapply keeps_bind; [apply keeps_diskOp|]. intros [err|] _; [apply keeps_fail|].
  eapply keeps_bind; [apply keeps_diskOp|]. intros err1 _. eapply keeps_bind; [apply keeps_closeFile|]. intros _ _.
  destruct (match snd (f_Data f) with Some _ => _ | None => _ end); [by apply keeps_ret|].
  eapply keeps_bind; [apply keeps_diskOp|]. intros [err|] _; [by apply keeps_ret|].
  eapply keeps_bind; [apply keeps_diskOp|]. intros [err|] _; [by apply keeps_ret|]. by apply keeps_newCompressed.
Qed.

Lemma keeps_compressAndOpen path e : inRoot path -> h_compress h = true -> encoding e -> keeps (fun _ => True) (fsHandler_compressAndOpenFSFile h path e).
Proof.
  intros Hp C He. eapply keeps_bind; [apply keeps_openFile; by left|]. intros [f|err] Hf; [|by apply keeps_ret].
  destruct (f_Stat f); [apply keeps_fail|]. destruct (fi_IsDir f); [apply keeps_fail|].
  eapply keeps_bind; [apply keeps_suffixOf|]. intros x [-> Hx]. destruct (_ || _ || _); [by apply keeps_newFSFile|].
  eapply keeps_bind; [apply (keeps_gets (fun _ => True)); done|]. intros [abs|err] _; [|apply keeps_fail].
  apply keeps_compressFile; [by apply under_sfx|by apply under_tmp].
Qed.

Lemma keeps_openFSFile path m e : inRoot path -> compresses m e -> keeps (fun _ => True) (fsHandler_openFSFile h path m e).
Proof.
  intros Hp Hm. unfold fsHandler_openFSFile. cbv zeta. eapply keeps_bind; [apply keeps_suffixOf|]. intros x [-> Hx].
  assert (under (if m then path ++ sfx e else path)) as Hq by (destruct m; [destruct (Hm eq_refl); by apply under_sfx|by left]).
  assert (m = true -> keeps (fun _ => True) (fsHandler_compressAndOpenFSFile h path e)) as Hc by (intros E; destruct (Hm E); by apply keeps_compressAndOpen).
  eapply keeps_bind; [by apply keeps_openFile|]. intros [f|err] Hf.
  2:{ destruct m; [|by apply keeps_ret]. destruct (true && _); [by apply Hc|by apply keeps_ret]. }
  destruct (f_Stat f); [apply keeps_fail|]. destruct (fi_IsDir f); [apply keeps_fail|]. destruct m; [|by apply keeps_newFSFile].
  eapply keeps_bind; [apply (keeps_gets (fun _ => True)); done|]. intros [st|err] _; [|apply keeps_fail].
  destruct (second <=? _); [|by apply keeps_newFSFile].
  eapply keeps_bind; [apply keeps_closeFile|]. intros _ _.
  eapply keeps_bind; [|intros _ _; by apply Hc].
  apply (keeps_modify (fun _ => True)); [|done]. intros s. by apply inside_same.
Qed.

(** ** The cache and the readers *)

Lemma keeps_lookup e path : keeps (fun _ => True) (cacheLookup e path).
Proof.
  eapply keeps_bind; [apply (keeps_gets (fun _ => True)); done|]. intros m _. destruct (m !! path); [|by apply keeps_ret].
  eapply keeps_bind; [apply keeps_inc|]. intros _ _. by apply keeps_ret.
Qed.

Lemma keeps_insert e path id : keeps (fun _ => True) (cacheInsert e path id).
Proof.
  eapply keeps_bind; [apply (keeps_gets (fun _ => True)); done|]. intros m _. destruct (m !! path) as [id1|].
  - eapply keeps_bind; [apply keeps_inc|]. intros _ _. eapply keeps_bind; [apply keeps_release|]. intros _ _. by apply keeps_ret.
  - eapply keeps_bind.
    { apply (keeps_modify (fun _ => True)); [|done]. intros s. unfold set_cacheOf. repeat case_decide; by apply inside_same. }
    intros _ _. eapply keeps_bind; [apply keeps_inc|]. intros _ _. by apply keeps_ret.
Qed.

Lemma keeps_NewReader id : keeps (fun _ => True) (fsFile_NewReader id).
Proof.
  eapply keeps_bind; [apply keeps_getFile|]. intros ff Hf. destruct (fsFile_isBig ff).
  - eapply keeps_bind with (Q := fun _ => True).
    + eapply keeps_bind; [apply (keeps_panics (fun f => under (f_Name f)))|].
      { intros f E. unfold fileUnder in Hf. by rewrite E in Hf. }
      intros f Hn. destruct (last _).
      * eapply keeps_bind; [by apply keeps_setFile|]. intros _ _. by apply keeps_ret.
      * eapply keeps_bind; [by apply keeps_openFile|]. intros r _. by apply keeps_ret.
    + intros [r|err] _; [by apply keeps_ret|]. eapply keeps_bind; [apply keeps_dec|]. intros _ _. by apply keeps_ret.
  - eapply keeps_bind with (Q := fun _ => True).
    + intros s s' a I E. unfold fsFile_smallFileReader in E. destruct (match fs_readerPool s with [] => _ | _ :: _ => _ end) as [p q].
      destruct (0 <? p); [done|]. injection E as <- <-. split; [|done]. by apply (inside_same s).
    + intros r _. by apply keeps_ret.
Qed.

Lemma keeps_Close r : keeps (fun _ => True) (fsReader_Close r).
Proof.
  destruct r as [id a b|id f pos limit]; cbn [fsReader_Close].
  - eapply keeps_bind; [apply keeps_dec|]. intros _ _. eapply keeps_bind; [|intros _ _; by apply keeps_ret].
    apply (keeps_modify (fun _ => True)); [|done]. intros s. by apply inside_same.
  - eapply keeps_bind; [apply keeps_getFile|]. intros ff Hf. eapply keeps_bind with (Q := fun _ => True).
    + destruct (f_Seek f 0); [apply keeps_closeFile|by apply keeps_setFile].
    + intros _ _. eapply keeps_bind; [apply keeps_dec|]. intros _ _. by apply keeps_ret.
Qed.

Lemma keeps_serveFile ctx id range e : keeps (fun _ => True) (fsHandler_serveFile h ctx id range e).
Proof.
  assert (forall r (x : RequestCtx + RequestCtx * fsReader * Z * Z), keeps (fun _ => True) (_ ← fsReader_Close r; mret x)) as Cl.
  { intros r x. eapply keeps_bind; [apply keeps_Close|]. intros _ _. by apply keeps_ret. }
  eapply keeps_bind; [apply keeps_getFile|]. intros ff _. destruct (negb _).
  { eapply keeps_bind; [apply keeps_dec|]. intros _ _. by apply keeps_ret. }
  eapply keeps_bind; [apply keeps_NewReader|]. intros [r|err] _; [|by apply keeps_ret]. cbv zeta.
  eapply keeps_bind with (Q := fun _ => True).
  - destruct (_ && _); [|by apply keeps_ret]. destruct (ParseByteRange _ _) as [[a b]|err]; [|eapply keeps_bind; [apply keeps_Close|intros _ _; by apply keeps_ret]].
    destruct (fsReader_UpdateByteRange r a b) as [r'|err]; [|eapply keeps_bind; [apply keeps_Close|intros _ _; by apply keeps_ret]].
    eapply keeps_bind; [by apply (keeps_panics (fun _ => True))|]. intros hdr _. by apply keeps_ret.
  - intros [[[[ctx' r'] n] code]|ctx'] _; [|by apply keeps_ret]. destruct (negb _).
    + eapply keeps_bind; [by apply (keeps_panics (fun _ => True))|]. intros c _. by apply keeps_ret.
    + eapply keeps_bind; [by apply (keeps_panics (fun _ => True))|]. intros hdr _.
      eapply keeps_bind; [apply keeps_Close|]. intros err _. by apply keeps_ret.
Qed.

(** ** Requests *)

Context (Names : Forall noDotDot (h_indexNames h)).

Lemma inRoot_request p : requestPath p -> inRoot (h_root h ++ p).
Proof. by exists p. Qed.

Lemma inRoot_index p name : requestPath p -> noDotDot name -> inRoot ((h_root h ++ p) ++ strSlash ++ name).
Proof.
  intros [N Hd] Hn. exists (p ++ strSlash ++ name). split; [by rewrite <- app_assoc|]. split; [by apply noDotDot_join|].
  right. destruct Hd as [->|Hd]; [done|by destruct p].
Qed.

Lemma keeps_createDirIndex base dirPath m e : under dirPath -> keeps (fun _ => True) (fsHandler_createDirIndex h base dirPath m e).
Proof.
  intros Hp. eapply keeps_bind; [by apply (keeps_panics (fun _ => True))|]. intros hd _.
  eapply keeps_bind; [by apply keeps_openFile|]. intros [f|err] _; [|by apply keeps_ret].
  eapply keeps_bind; [apply keeps_closeFile|]. intros _ _. destruct (f_Readdir f); [|by apply keeps_ret].
  eapply keeps_bind; [apply (keeps_gets (fun _ => True)); done|]. intros sm _.
  eapply keeps_bind; [by apply (keeps_panics (fun _ => True))|]. intros u _.
  eapply keeps_bind; [by apply (keeps_panics (fun _ => True))|]. intros ls _.
  eapply keeps_bind; [apply (keeps_gets (fun _ => True)); done|]. intros now _.
  eapply keeps_bind; [by apply keeps_newFile|]. intros id _. by apply keeps_ret.
Qed.

Lemma keeps_openIndexNames p m e generate :
  forall names, Forall noDotDot names -> requestPath p -> compresses m e -> keeps (fun _ => True) generate ->
  keeps (fun _ => True) (openIndexNames h names (h_root h ++ p) m e generate).
Proof.
  intros names F Hp Hm Hg. induction F as [|name names Hn F IH]; cbn [openIndexNames]; [done|].
  eapply keeps_bind; [apply keeps_openFSFile; [by apply inRoot_index|done]|]. intros [id|[[]| | |]] _; try exact IH; by apply keeps_ret.
Qed.

Lemma keeps_openIndexFile base p m e :
  requestPath p -> compresses m e -> keeps (fun _ => True) (fsHandler_openIndexFile h base (h_root h ++ p) m e).
Proof.
  intros Hp Hm. apply keeps_openIndexNames; [done..|]. destruct (negb _); [by apply keeps_ret|]. apply keeps_createDirIndex. left. by apply inRoot_request.
Qed.

Lemma keeps_openMissing base ctx p slash m e :
  requestPath p -> compresses m e -> keeps (fun _ => True) (fsHandler_openMissing h base ctx p slash m e).
Proof.
  intros Hp Hm. pose proof (inRoot_request p Hp) as Hi. unfold fsHandler_openMissing. cbv zeta. eapply keeps_bind; [by apply keeps_openFSFile|]. intros r _.
  eapply keeps_bind with (Q := fun rm => compresses (snd rm) e).
  - destruct (m && _); [|by apply keeps_ret]. eapply keeps_bind; [by apply keeps_openFSFile|]. intros r' _. by apply keeps_ret.
  - intros [r' m'] Hm'. cbn in Hm'. destruct r' as [id|[o| | |f]]; try by apply keeps_ret. destruct (negb slash).
    + eapply keeps_bind; [by apply (keeps_panics (fun _ => True))|]. intros c _. by apply keeps_ret.
    + destruct (RequestCtx_URI ctx) as [c u]. eapply keeps_bind; [by apply keeps_openIndexFile|]. intros [id|err] _; by apply keeps_ret.
Qed.

(** The rewriters of the package that keep the path absolute, and none. *)
Inductive standardRewrite : option PathRewriteFunc -> Prop :=
| rewrite_none : standardRewrite None
| rewrite_slashes n : standardRewrite (Some (NewPathSlashesStripper n))
| rewrite_vhost n : standardRewrite (Some (NewVHostPathRewriter n)).

(** A context whose URI has not been parsed, or has been by the parser. *)
Definition normalCtx (ctx : RequestCtx) : Prop :=
  req_parsedURI (cx_Request ctx) = false \/ normalURI (req_uri (cx_Request ctx)).

Lemma RequestCtx_URI_normal ctx : normalCtx ctx -> normalURI (snd (RequestCtx_URI ctx)) /\ normalCtx (fst (RequestCtx_URI ctx)).
Proof.
  intros N. unfold RequestCtx_URI, Request_URI, Request_parseURI.
  destruct (req_parsedURI (cx_Request ctx)) eqn:E.
  - destruct N as [?|N]; [congruence|]. split; [exact N|]. right. exact N.
  - match goal with |- context [URI_parse ?u ?a ?b ?c] => pose proof (URI_parse_normal u a b c) as Hn; destruct (URI_parse u a b c) as [u' err] end.
    split; [exact Hn|]. right. exact Hn.
Qed.

Lemma RequestCtx_Path_safe ctx : normalCtx ctx -> requestPath (snd (RequestCtx_Path ctx)) /\ normalCtx (fst (RequestCtx_Path ctx)).
Proof.
  intros N. unfold RequestCtx_Path. destruct (RequestCtx_URI_normal ctx N) as [Hu Hc]. destruct (RequestCtx_URI ctx) as [c u].
  split; [by apply normalURI_path|exact Hc].
Qed.

Lemma standardRewrite_safe ctx :
  standardRewrite (h_pathRewrite h) -> normalCtx ctx ->
  exists ctx' p, match h_pathRewrite h with Some pathRewrite => pathRewrite ctx | None => Some (RequestCtx_Path ctx) end = Some (ctx', p) /\ requestPath p.
Proof.
  intros Hr N. destruct (RequestCtx_Path_safe ctx N) as [Hp Hc]. inversion Hr as [|n|n].
  - destruct (RequestCtx_Path ctx) as [c p]. by exists c, p.
  - unfold NewPathSlashesStripper. destruct (RequestCtx_Path ctx) as [c p].
    destruct (stripLeadingSlashes_safe p n Hp) as (q & -> & Hq). by exists c, q.
  - unfold NewVHostPathRewriter. destruct (RequestCtx_Path ctx) as [c p].
    destruct (stripLeadingSlashes_safe p n Hp) as (q & -> & Hq). cbn [mbind option_bind].
    destruct (RequestCtx_Host c) as [c1 host]. destruct (RequestCtx_URI c1) as [c2 u].
    match goal with |- context [RequestCtx_Path ?x] => destruct (RequestCtx_Path_safe x) as [Hq' _]; [|destruct (RequestCtx_Path x) as [c' p']] end.
    { right. cbn. right. by eexists. }
    by exists c', p'.
Qed.

Lemma chooseEncoding_compresses ctx range : compresses (fst (chooseEncoding h ctx range)) (snd (chooseEncoding h ctx range)).
Proof.
  unfold chooseEncoding, compresses, encoding. cbv zeta. destruct (bool_decide _), (h_compress h); try done. cbn [andb].
  destruct (h_compressBrotli h && _); [|destruct (RequestHeader_HasAcceptEncodingBytes _ _)]; cbn; naive_solver.
Qed.

Lemma keeps_handleRequest base ctx :
  standardRewrite (h_pathRewrite h) -> normalCtx ctx -> keeps (fun _ => True) (fsHandler_handleRequest h base ctx).
Proof.
  intros Hr N. unfold fsHandler_handleRequest. destruct (standardRewrite_safe ctx Hr N) as (ctx' & p & -> & Hp).
  eapply keeps_bind with (Q := fun a => a = (ctx', p)); [by apply keeps_panics; intros a [= <-]|]. intros a ->. cbv zeta.
  apply requestPath_stripTrailing in Hp. destruct (IndexByte _ x00); [by apply keeps_ret|]. destruct (match h_pathRewrite h with Some _ => _ | None => _ end);
    [by apply keeps_ret|]. match goal with |- context [chooseEncoding h ctx' ?b] => pose proof (chooseEncoding_compresses ctx' b) as Hm; destruct (chooseEncoding h ctx' b) as [m e] end.
  eapply keeps_bind; [apply keeps_lookup|]. intros [id|] _; [apply keeps_serveFile|].
  eapply keeps_bind; [by apply keeps_openMissing|]. intros [[c id]|c] _; [|by apply keeps_ret].
  eapply keeps_bind; [apply keeps_insert|]. intros id' _. apply keeps_serveFile.
Qed.

End Paths.

#[export] Instance plainOs_laws : @OsLaws unixTime plainOs.
Proof.
  split. intros d p f E. cbn in E. unfold plainFind in E. destruct (List.find _ d) as [g|] eqn:Ef; [|done]. injection E as <-.
  apply List.find_some in Ef as [_ Ef]. by apply bool_decide_eq_true in Ef.
Qed.

Lemma plainState_inside (h : @fsHandler plainLib plainServerLib) d : h_suffixes h = None -> inside h FSCompressedFileSuffixes (plainState d).
Proof.
  intros E. split; [done..|]. intros e. unfold sfx. rewrite E. change (goodSuffix (suffixAt FSCompressedFileSuffixes e)). unfold suffixAt.
  assert (forall x, goodSuffix (bs ".fasthttp." ++ x) <-> "/"%byte ∉ x) as G.
  { intros x. unfold goodSuffix. split.
    - intros [S _] Hx. apply S. apply elem_of_app. by right.
    - intros Hx. split; [rewrite elem_of_app; intros [K|K]; [apply list_elem_of_In in K; simpl in K; intuition congruence|done]|].
      right. exists "f"%byte. split; [|done]. apply elem_of_app. left. apply list_elem_of_In. simpl. tauto. }
  unfold FSCompressedFileSuffixes. destruct (decide (e = strGzip)) as [->|N1]; [rewrite lookup_insert_eq; apply (G (bs "gz")); by vm_compute; intros K; apply list_elem_of_In in K; simpl in K; intuition congruence|].
  rewrite lookup_insert_ne by done.
  destruct (decide (e = strBr)) as [->|N2]; [rewrite lookup_singleton_eq; apply (G (bs "br")); by vm_compute; intros K; apply list_elem_of_In in K; simpl in K; intuition congruence|].
  rewrite lookup_singleton_ne by done. split; [apply not_elem_of_nil|by left].
Qed.

(** * Properties *)

(** C8. What a request can make the file server reach: with the rewriters of the
    package that keep the path absolute (NewPathSlashesStripper,
    NewVHostPathRewriter) or none, everything the handler opens or creates, for
    this request or in files it keeps for later ones, is in the root: the root
    itself, or the root, a slash and a path without a [..] component.  With
    Compress there is one more file for each coding: for the path of the root
    itself the handler looks beside the root for its compressed copy, whose name
    is the root's with the coding's suffix (or [.tmp] after it, while it is
    made). *)
Theorem handleRequest_inside {HL : HttpLib} {SL : ServerLib} {TL : TimeLib} {OL : OsLib} (Laws : OsLaws) (h : fsHandler) (global : gmap bytes bytes) (base : URI)
    (ctx : RequestCtx) (s s' : fsState) (r : RequestCtx * option fsReader)
    (Names : Forall noDotDot (h_indexNames h)) (Hr : standardRewrite (h_pathRewrite h)) (N : normalCtx ctx) (I : inside h global s)
    (E : fsHandler_handleRequest h base ctx s = Some (s', r)) :
  inside h global s' /\
  (h_compress h = false -> Forall (inRoot h) (fs_opened s') /\ Forall (fun ff => forall f, ff_f ff = Some f -> inRoot h (f_Name f)) (fs_files s')).
Proof.
  destruct (keeps_handleRequest h global Names base ctx Hr N s s' r I E) as [I' _]. split; [exact I'|]. intros C. destruct I' as [F O _ _].
  assert (forall path, under h global path -> inRoot h path) as U by (intros path [U|[U _]]; [done|congruence]).
  split; [by eapply Forall_impl|]. eapply Forall_impl; [exact F|]. intros ff Hf f Ef. unfold fileUnder in Hf. rewrite Ef in Hf. by apply U.
Qed.

Definition getCtx (uri : bytes) : @RequestCtx plainLib plainServerLib :=
  on_rqHeader (fun hdr => RequestHeader_SetRequestURI hdr uri) emptyRequestCtx.
Definition sampleFS (rewrite : option (@PathRewriteFunc plainLib plainServerLib)) : @fsHandler plainLib plainServerLib :=
  fst (FS_initRequestHandler (MkFS (bs "/srv/") [bs "index.html"] true true false true rewrite None 0 [] None) FSCompressedFileSuffixes).
Definition sampleDisk : list plainFile :=
  [PlainFile (bs "/srv/a.txt") (bs "a.txt") (bs "hello, world") false 7 []; PlainFile (bs "/srv/empty.txt") (bs "empty.txt") [] false 7 [];
   PlainFile (bs "/srv/d") (bs "d") [] true 7 [PlainFile (bs "/srv/d/x<y") (bs "x<y") (bs "1") false 7 []];
   PlainFile (bs "/srv-private/key") (bs "key") (bs "secret") false 7 []; PlainFile (bs "/srv/..") (bs "/") [] true 7 []].

Lemma handleRequest_inside_witness :
  let h := sampleFS (Some (NewPathSlashesStripper 1)) in
  let ctx := getCtx (bs "/x/../../static/%2e%2e/static/a.txt") in
  (Forall noDotDot (h_indexNames h) /\ standardRewrite (h_pathRewrite h) /\ normalCtx ctx /\ inside h FSCompressedFileSuffixes (plainState sampleDisk)) /\
  match fsHandler_handleRequest h emptyURI ctx (plainState sampleDisk) with
  | Some (s', _) => inside h FSCompressedFileSuffixes s'
  | None => False
  end.
Proof.
  assert (Forall noDotDot (h_indexNames (sampleFS (Some (NewPathSlashesStripper 1))))) as Names.
  { constructor; [|constructor]. unfold noDotDot. vm_compute. intros K. apply list_elem_of_In in K. simpl in K. intuition congruence. }
  assert (standardRewrite (h_pathRewrite (sampleFS (Some (NewPathSlashesStripper 1))))) as Hr by constructor.
  assert (normalCtx (getCtx (bs "/x/../../static/%2e%2e/static/a.txt"))) as N by (left; reflexivity).
  assert (inside (sampleFS (Some (NewPathSlashesStripper 1))) FSCompressedFileSuffixes (plainState sampleDisk)) as Is by (apply plainState_inside; reflexivity).
  split; [exact (conj Names (conj Hr (conj N Is)))|].
  cbv zeta. match goal with |- match ?m with _ => _ end => assert (match m with Some _ => true | None => false end = true) as N0 by (vm_compute; reflexivity); destruct m as [[s' r]|] eqn:E; [|discriminate N0] end.
  exact (proj1 (handleRequest_inside plainOs_laws _ _ _ _ _ s' r Names Hr N Is E)).
Defined.
