(* ===== verification/FsServe.v ===== *)
(** * fs.go: what a request for a file gets

    A regular file, from the cache or freshly opened, is answered with its bytes,
    or with those of the range that was asked for, and closing the response gives
    the reader back.  Then, for whatever the file system does: the handler returns. *)
From Stdlib Require Import Strings.String.
From stdpp Require Import gmap.
From S2P Require Import Prelude BytesConv Consts Args Uri Cookie HeaderScan RequestHeader ResponseHeader Bufio Body HeaderRead Http UserData Streaming RequestCtx Server ServerSafety Fs FsRange FsPaths.

Section Serve.
Context {HL : HttpLib} {SL : ServerLib} {TL : TimeLib} {OL : OsLib} (h : fsHandler).

(** ** Running a step *)

Lemma run_bind {A B} (m : fsM A) (f : A -> fsM B) s s1 a : m s = Some (s1, a) -> (m ≫= f) s = f a s1.
Proof. intros E. unfold mbind, fsM_bind. by rewrite E. Qed.

Lemma run_getFile id s ff : fs_files s !! id = Some ff -> getFile id s = Some (s, ff).
Proof. intros E. unfold getFile. by rewrite E. Qed.

Definition withFile (id : nat) (ff : fsFile) (s : fsState) : fsState := set_fs_files (<[id := ff]> (fs_files s)) s.

Lemma run_dec id s ff :
  fs_files s !! id = Some ff -> 0 < ff_readersCount ff ->
  fsFile_decReadersCount id s = Some (withFile id (set_ff_readersCount (ff_readersCount ff - 1) ff) s, tt).
Proof.
  intros E Hc. unfold fsFile_decReadersCount. rewrite (run_bind _ _ _ _ _ (run_getFile _ _ _ E)). cbn zeta.
  rewrite (run_bind (setFile _ _) _ s (withFile id (set_ff_readersCount (ff_readersCount ff - 1) ff) s) tt eq_refl).
  destruct (Z.ltb_spec (ff_readersCount ff - 1) 0); [lia|done].
Qed.

Lemma run_inc id s ff :
  fs_files s !! id = Some ff -> incReadersCount id s = Some (withFile id (set_ff_readersCount (ff_readersCount ff + 1) ff) s, tt).
Proof. intros E. unfold incReadersCount. by rewrite (run_bind _ _ _ _ _ (run_getFile _ _ _ E)). Qed.

Lemma lookup_withFile id ff s : is_Some (fs_files s !! id) -> fs_files (withFile id ff s) !! id = Some ff.
Proof. intros [x E]. cbn. apply list_lookup_insert_eq. by apply lookup_lt_Some in E. Qed.

(** ** Regular files *)

(** File [id] has [data]; every descriptor for it reads that. *)
Record regular (id : nat) (ff : fsFile) (data : bytes) (s : fsState) : Prop := {
  rf_lookup : fs_files s !! id = Some ff;
  rf_file : exists f, ff_f ff = Some f /\ f_Data f = (data, None) /\
    (fsFile_isBig ff = true -> Forall (fun r => f_Data r = (data, None)) (ff_bigFiles ff) /\
       exists f', os_Open (fs_disk s) (f_Name f) = inl f' /\ f_Data f' = (data, None));
  rf_length : ff_contentLength ff = zlen data;
  rf_int : zlen data <= maxInt;
  rf_pool : Forall (fun p => fst p = 0) (fs_readerPool s)
}.

Context (Seek : forall f n, 0 <= n -> f_Seek f n = None).

(** A reader of file [id] whose window is [part]. *)
Definition readsPart (id : nat) (ff : fsFile) (part : bytes) (r : fsReader) : Prop :=
  fsReader_stream ff r = MkStream (MkSource (if decide (part = []) then [] else [part]) EOF) None /\
  match r with SmallReader id' _ _ => id' = id | BigReader id' _ _ _ => id' = id end.

(** The same file, but for the idle readers. *)
Definition sameFile (ff ff' : fsFile) : Prop := exists l, ff' = set_ff_bigFiles l ff.

Lemma run_NewReader id ff data s :
  regular id ff data s ->
  exists s1 r ff1, fsFile_NewReader id s = Some (s1, inl r) /\ sameFile ff ff1 /\ fs_files s1 !! id = Some ff1 /\
    fs_cache s1 = fs_cache s /\
    readsPart id ff data r /\
    forall a b, 0 <= a -> 0 <= b - a + 1 -> b < zlen data ->
      exists r', fsReader_UpdateByteRange r a b = inl r' /\ readsPart id ff (take (Z.to_nat (b - a + 1)) (drop (Z.to_nat a) data)) r'.
Proof.
  intros [L (f & Ef & Ed & Hbig) El Ei Hp]. unfold fsFile_NewReader. rewrite (run_bind _ _ _ _ _ (run_getFile _ _ _ L)).
  assert (forall (b : bytes) (n : Z), (match @snd bytes (option oserror) (data, None) with Some _ => if zlen b <? n then IOError 0 else EOF | None => EOF end) = EOF) as Eeof by done.
  destruct (fsFile_isBig ff) eqn:Eb.
  - destruct (Hbig eq_refl) as [Fb (f' & Eo & Ed')]. clear Hbig.
    assert (exists s1 g ff1, fsFile_bigFileReader id ff s = Some (s1, inl (BigReader id g 0 None)) /\ f_Data g = (data, None) /\
      sameFile ff ff1 /\ fs_files s1 !! id = Some ff1 /\ fs_cache s1 = fs_cache s) as (s1 & g & ff1 & E1 & Eg & Sf & L1 & Ec).
    { unfold fsFile_bigFileReader. rewrite Ef. rewrite (run_bind (panics (Some f)) _ s s f eq_refl).
      destruct (last (ff_bigFiles ff)) as [g|] eqn:Elast.
      - rewrite (run_bind (setFile _ _) _ s (withFile id (set_ff_bigFiles (removelast (ff_bigFiles ff)) ff) s) tt eq_refl).
        do 3 eexists. split; [reflexivity|]. split; [rewrite last_lookup in Elast; exact (Forall_lookup_1 _ _ _ _ Fb Elast)|].
        split; [by eexists|]. split; [by apply lookup_withFile|done].
      - unfold openFile at 1. unfold mbind at 1, fsM_bind at 1. cbn [fs_disk set_fs_opened]. rewrite Eo.
        eexists _, f', ff. split; [reflexivity|]. split; [exact Ed'|]. split; [exists (ff_bigFiles ff); by destruct ff|]. by split. }
    rewrite (run_bind _ _ _ _ _ E1). exists s1, (BigReader id g 0 None), ff1. split; [done|]. split; [done|]. split; [done|]. split; [done|].
    split.
    + split; [|done]. unfold fsReader_stream. cbn [default]. rewrite Eg, Eeof. cbn [fst]. rewrite Z.sub_0_r, Nat2Z.id.
      by rewrite drop_0, firstn_all.
    + intros a b Ha Hn Hb. cbn [fsReader_UpdateByteRange]. rewrite Seek by done. eexists. split; [reflexivity|].
      split; [|done]. unfold fsReader_stream. cbn [default]. by rewrite Eg, Eeof.
  - assert (exists s1, fsFile_smallFileReader id ff s = Some (s1, SmallReader id 0 (zlen data)) /\ fs_files s1 = fs_files s /\
      fs_cache s1 = fs_cache s) as (s1 & E1 & F1 & C1).
    { unfold fsFile_smallFileReader. rewrite El. destruct (fs_readerPool s) as [|[p q] pool] eqn:Epool.
      - eexists. split; [reflexivity|]. done.
      - inversion Hp as [|? ? Hz]. cbn in Hz. subst. eexists. split; [reflexivity|]. done. }
    rewrite (run_bind _ _ _ _ _ E1). exists s1, (SmallReader id 0 (zlen data)), ff. split; [done|].
    split; [exists (ff_bigFiles ff); by destruct ff|]. split; [by rewrite F1|]. split; [done|]. split.
    + split; [|done]. unfold fsReader_stream. rewrite Ef, Ed, Eeof. cbn [fst]. rewrite Z.sub_0_r, Nat2Z.id. by rewrite drop_0, firstn_all.
    + intros a b Ha Hn Hb. cbn [fsReader_UpdateByteRange]. eexists. split; [reflexivity|]. split; [|done].
      unfold fsReader_stream. rewrite Ef, Ed, Eeof. cbn [fst]. by replace (b + 1 - a) with (b - a + 1) by lia.
Qed.

Lemma run_Close id ff ff1 part r s :
  readsPart id ff part r -> fs_files s !! id = Some ff1 -> 0 < ff_readersCount ff1 ->
  exists s1 ff2, fsReader_Close r s = Some (s1, None) /\ fs_files s1 !! id = Some ff2 /\ ff_readersCount ff2 = ff_readersCount ff1 - 1.
Proof.
  intros [_ Hid] L Hc. destruct r as [id' a b|id' f pos limit]; subst id'; cbn [fsReader_Close].
  - rewrite (run_bind _ _ _ _ _ (run_dec _ _ _ L Hc)). do 2 eexists. split; [reflexivity|]. split; [by apply lookup_withFile|done].
  - rewrite (run_bind _ _ _ _ _ (run_getFile _ _ _ L)). cbn zeta. rewrite Seek by done.
    rewrite (run_bind (setFile _ _) _ s (withFile id (set_ff_bigFiles (ff_bigFiles ff1 ++ [f]) ff1) s) tt eq_refl).
    assert (fs_files (withFile id (set_ff_bigFiles (ff_bigFiles ff1 ++ [f]) ff1) s) !! id = Some (set_ff_bigFiles (ff_bigFiles ff1 ++ [f]) ff1)) as L1 by by apply lookup_withFile.
    rewrite (run_bind _ _ _ _ _ (run_dec _ _ _ L1 Hc)). do 2 eexists. split; [reflexivity|]. split; [by apply lookup_withFile|done].
Qed.

(** ** The answer *)

(** Fields that are neither special nor looked at here. *)
Definition otherField (k : bytes) : Prop := forall hdr v, exists l, ResponseHeader_SetCanonical hdr k v = set_rs_h l hdr.

Lemma field_ContentEncoding : otherField strContentEncoding.
Proof. intros hdr v. eexists. reflexivity. Qed.
Lemma field_AcceptRanges : otherField strAcceptRanges.
Proof. intros hdr v. eexists. reflexivity. Qed.
Lemma field_ContentRange : otherField strContentRange.
Proof. intros hdr v. eexists. reflexivity. Qed.
Lemma field_LastModified : otherField strLastModified.
Proof. intros hdr v. eexists. reflexivity. Qed.

(** A context that differs from [ctx] in other fields of the response's header. *)
Definition otherFields (ctx ctx' : RequestCtx) : Prop :=
  cx_Request ctx' = cx_Request ctx /\ exists l b, cx_Response ctx' = set_resp_Header (set_rs_bufKV b (set_rs_h l (resp_Header (cx_Response ctx)))) (cx_Response ctx).

Lemma otherFields_refl ctx : otherFields ctx ctx.
Proof. split; [done|]. exists (rs_h (resp_Header (cx_Response ctx))), (rs_bufKV (resp_Header (cx_Response ctx))). by destruct ctx as [? [[] ]]. Qed.

Lemma otherFields_set ctx ctx1 k v :
  otherField k -> otherFields ctx ctx1 -> otherFields ctx (on_rsHeader (fun hdr => ResponseHeader_SetCanonical hdr k v) ctx1).
Proof.
  intros Hk [Eq (l & b & Er)]. split; [exact Eq|]. unfold on_rsHeader, on_Response. cbn [cx_Response set_cx_Response]. rewrite Er.
  destruct (Hk (resp_Header (set_resp_Header (set_rs_bufKV b (set_rs_h l (resp_Header (cx_Response ctx)))) (cx_Response ctx))) v) as [l' E].
  rewrite E. exists l', b. done.
Qed.

(** The last byte of a [part] of [data] that starts at [a]. *)
Definition slice (data : bytes) (a b : Z) : bytes := take (Z.to_nat (b - a + 1)) (drop (Z.to_nat a) data).

(** What is asked for: a range, or the whole file. *)
Inductive wanted (data byteRange : bytes) : bytes -> Z -> Prop :=
| wanted_all : h_acceptByteRange h = false \/ byteRange = [] -> wanted data byteRange data StatusOK
| wanted_range a b : h_acceptByteRange h = true -> byteRange <> [] -> ParseByteRange byteRange (zlen data) = inl (a, b) -> data <> [] ->
    wanted data byteRange (slice data a b) StatusPartialContent.

(** The response that carries [part]. *)
Record carries (ctx : RequestCtx) (code : Z) (part : bytes) : Prop := {
  ca_status : ResponseHeader_StatusCode (resp_Header (cx_Response ctx)) = code;
  ca_length : rs_contentLength (resp_Header (cx_Response ctx)) = zlen part;
  ca_stream : resp_bodyStream (cx_Response ctx) = Some (MkStream (MkSource (if decide (part = []) then [] else [part]) EOF) None);
  ca_skip : resp_SkipBody (cx_Response ctx) = false
}.

Lemma carries_written ctx code part serverDate head :
  carries ctx code part -> code = StatusOK \/ code = StatusPartialContent ->
  ResponseHeader_AppendBytes serverDate (resp_Header (cx_Response ctx)) [] = Some head ->
  exists x, Response_Write serverDate (cx_Response ctx) [] = Some (x, head ++ part, None).
Proof.
  intros [Es El Et Ek] Hc Eh. unfold Response_Write. rewrite Et. unfold Response_writeBodyStream, ResponseHeader_ContentLength. rewrite El.
  destruct (Z.ltb_spec (zlen part) 0); [lia|]. cbn [andb mbind option_bind].
  destruct (Z.leb_spec 0 (zlen part)); [|lia]. unfold Response_Header_Write, ResponseHeader_Header. rewrite Eh. cbn [mbind option_bind app fst snd].
  assert (Response_mustSkipBody (cx_Response ctx) = false) as ->.
  { unfold Response_mustSkipBody. rewrite Ek. unfold ResponseHeader_mustSkipContentLength. rewrite Es. by destruct Hc as [->| ->]. }
  cbn [negb]. unfold writeBodyFixedSize, copyZeroAlloc. cbn [bst_limit bst_source src_chunks src_end].
  assert (concat (if decide (part = []) then [] else [part]) = part) as ->.
  { case_decide as D; [by rewrite D|]. cbn. apply app_nil_r. }
  rewrite decide_True by done. rewrite Z.eqb_refl. by eexists.
Qed.

Lemma zlen_slice data a b : 0 <= a -> b < zlen data -> 0 <= b - a + 1 -> zlen (slice data a b) = b - a + 1.
Proof. intros. unfold slice. rewrite length_take, length_drop. lia. Qed.

Lemma body_carries ctx ctx1 id ff part r code :
  otherFields ctx ctx1 -> readsPart id ff part r -> zlen part <= maxInt ->
  ResponseHeader_mustSkipContentLength (resp_Header (cx_Response ctx)) = false -> resp_SkipBody (cx_Response ctx) = false ->
  100 <= code -> (code = StatusOK \/ code = StatusPartialContent) ->
  exists ctx2, RequestCtx_SetBodyStream ctx1 (fsReader_stream ff r) (zlen part) = Some ctx2 /\
    carries
      (RequestCtx_SetStatusCode
         (let ctx := on_rsHeader (set_rs_noDefaultContentType true) ctx2 in
          if decide (length (ResponseHeader_ContentType (resp_Header (cx_Response ctx))) = O)
          then RequestCtx_SetContentType ctx (ff_contentType ff) else ctx) code) code part.
Proof.
  intros [Eq (l & bk & Er)] [Hs _] Hl Hm Hk Hc1 Hc. unfold RequestCtx_SetBodyStream, Response_SetBodyStream. rewrite Er, Hs.
  set (x0 := set_resp_bodyStream _ _).
  assert (ResponseHeader_mustSkipContentLength (resp_Header x0) = false) as Hm0.
  { unfold x0, Response_ResetBody. destruct (resp_body _); [destruct (resp_keepBodyBuffer _)|]; exact Hm. }
  assert (resp_SkipBody x0 = false) as Hk0.
  { unfold x0, Response_ResetBody. destruct (resp_body _); [destruct (resp_keepBodyBuffer _)|]; exact Hk. }
  assert (resp_bodyStream x0 = Some (MkStream (MkSource (if decide (part = []) then [] else [part]) EOF) None)) as Hb0 by done.
  clearbody x0. destruct (ResponseHeader_SetContentLength_total (resp_Header x0) (zlen part)) as (d & _ & _ & ->); [lia|].
  rewrite Hm0. cbn [mbind option_bind]. eexists. split; [reflexivity|]. cbv zeta.
  match goal with |- context [if ?c then RequestCtx_SetContentType _ _ else _] => destruct c end; split; try done; by destruct Hc as [->| ->].
Qed.

Lemma otherFields_ContentRange ctx ctx1 a b n :
  otherFields ctx ctx1 -> 0 <= a <= maxInt -> 0 <= b <= maxInt -> 0 <= n <= maxInt ->
  exists hdr, ResponseHeader_SetContentRange (resp_Header (cx_Response ctx1)) a b n = Some hdr /\ otherFields ctx (on_rsHeader (fun _ => hdr) ctx1).
Proof.
  intros [Eq (l & bk & Er)] Ha Hb Hn. unfold ResponseHeader_SetContentRange.
  destruct (AppendUint_spec (strBytes ++ [" "%byte]) a Ha) as (d1 & -> & _). cbn [mbind option_bind].
  destruct (AppendUint_spec ((((strBytes ++ [" "%byte]) ++ d1) ++ ["-"%byte])) b Hb) as (d2 & -> & _). cbn [mbind option_bind].
  match goal with |- context [AppendUint ?x n] => destruct (AppendUint_spec x n Hn) as (d3 & -> & _) end. cbn [mbind option_bind].
  eexists. split; [reflexivity|]. split; [exact Eq|]. unfold on_rsHeader, on_Response. cbn [cx_Response set_cx_Response]. rewrite Er.
  match goal with |- context [set_rs_bufValue ?x ?y] => destruct (field_ContentRange (set_rs_bufValue x y) (value (rs_bufKV (set_rs_bufValue x y)))) as [l' ->] end.
  do 2 eexists. reflexivity.
Qed.

Lemma serveFile_delivers ctx id ff data s byteRange e part code :
  regular id ff data s -> 0 < ff_readersCount ff -> wanted data byteRange part code ->
  RequestCtx_IfModifiedSince ctx (ff_lastModified ff) = true -> RequestCtx_IsHead ctx = false ->
  ResponseHeader_mustSkipContentLength (resp_Header (cx_Response ctx)) = false -> resp_SkipBody (cx_Response ctx) = false ->
  exists s1 ctx1 r, fsHandler_serveFile h ctx id byteRange e s = Some (s1, (ctx1, Some r)) /\ carries ctx1 code part /\
    fs_cache s1 = fs_cache s /\
    exists s2 ff2, fsReader_Close r s1 = Some (s2, None) /\ fs_files s2 !! id = Some ff2 /\ ff_readersCount ff2 = ff_readersCount ff - 1.
Proof.
  intros Rg Hc Hw Hi Hh Hm Hk. pose proof Rg as [L _ El Ei _]. unfold fsHandler_serveFile.
  rewrite (run_bind _ _ _ _ _ (run_getFile _ _ _ L)). rewrite Hi. cbn [negb].
  destruct (run_NewReader _ _ _ _ Rg) as (s1 & r & ff1 & E1 & (l1 & ->) & L1 & C1 & Rp & Up). rewrite (run_bind _ _ _ _ _ E1). cbv zeta.
  match goal with |- context [if ff_compressed ff then ?x else ctx] => set (ctx0 := if ff_compressed ff then x else ctx) end.
  match goal with |- context [if h_acceptByteRange h then ?x else ctx0] => set (ctx1 := if h_acceptByteRange h then x else ctx0) end.
  assert (otherFields ctx ctx1) as O1.
  { assert (otherFields ctx ctx0) as O0.
    { unfold ctx0. destruct (ff_compressed ff); [|apply otherFields_refl].
      destruct (decide (e = strBr)); [|destruct (decide (e = strGzip)); [|apply otherFields_refl]];
        (apply otherFields_set; [exact field_ContentEncoding|apply otherFields_refl]). }
    unfold ctx1. destruct (h_acceptByteRange h); [|exact O0]. apply otherFields_set; [exact field_AcceptRanges|exact O0]. }
  clearbody ctx1. clear ctx0.
  assert (exists ctx2 r2, (if h_acceptByteRange h && bool_decide (0 < length byteRange)%nat then
     match ParseByteRange byteRange (ff_contentLength ff) with
     | inr _ => _ ← fsReader_Close r; mret (inr (RequestCtx_Error ctx1 (bs "Range Not Satisfiable") StatusRequestedRangeNotSatisfiable))
     | inl (startPos, endPos) =>
         match fsReader_UpdateByteRange r startPos endPos with
         | inr _ => _ ← fsReader_Close r; mret (inr (RequestCtx_Error ctx1 (bs "Internal Server Error") StatusInternalServerError))
         | inl r =>
             hdr ← panics (ResponseHeader_SetContentRange (resp_Header (cx_Response ctx1)) startPos endPos (ff_contentLength ff));
             mret (inl (on_rsHeader (fun _ => hdr) ctx1, r, endPos - startPos + 1, StatusPartialContent))
         end
     end
     else mret (inl (ctx1, r, ff_contentLength ff, StatusOK))) s1 = Some (s1, inl (ctx2, r2, zlen part, code)) /\
     otherFields ctx ctx2 /\ readsPart id ff part r2 /\ zlen part <= maxInt) as (ctx2 & r2 & E2 & O2 & R2 & Hlen).
  { destruct Hw as [Hno|a b Hacc Hne Hp Hd].
    - exists ctx1, r. assert (h_acceptByteRange h && bool_decide (0 < length byteRange)%nat = false) as ->.
      { destruct Hno as [->| ->]; [done|]. apply andb_false_r. }
      rewrite El. split; [reflexivity|]. by split.
    - rewrite Hacc. rewrite bool_decide_true by (destruct byteRange; [done|cbn; lia]). cbn [andb]. rewrite El, Hp.
      destruct (ParseByteRange_inside _ _ _ _ (Zle_0_nat _) Hp) as (Ha & Hb & Hb0 & Hab & Hz & _).
      assert (0 < zlen data) by (destruct data; [done|unfold zlen; cbn; lia]).
      destruct (Up a b) as (r2 & Eu & R2); [lia..|]. rewrite Eu.
      destruct (otherFields_ContentRange ctx ctx1 a b (zlen data) O1) as (hdr & -> & O2); [lia..|].
      eexists _, r2. rewrite zlen_slice by lia. split; [reflexivity|]. split; [exact O2|]. split; [exact R2|]. lia. }
  rewrite (run_bind _ _ _ _ _ E2).
  set (ctx3 := on_rsHeader _ ctx2).
  assert (otherFields ctx ctx3) as O3 by (apply otherFields_set; [exact field_LastModified|exact O2]).
  assert (RequestCtx_IsHead ctx3 = false) as ->.
  { unfold RequestCtx_IsHead. destruct O3 as [-> _]. exact Hh. }
  cbn [negb].
  destruct (body_carries ctx ctx3 id ff part r2 code O3 R2 Hlen Hm Hk) as (ctx4 & -> & Hca); [destruct Hw; done|destruct Hw; tauto|].
  cbn [panics]. eexists s1, _, r2. split; [reflexivity|]. split; [exact Hca|]. split; [exact C1|].
  exact (run_Close id ff _ part r2 s1 R2 L1 Hc).
Qed.

(** ** Where the file comes from *)

Context {Laws : OsLaws}.

(** The file of that name has [data]. *)
Definition onDisk (path data : bytes) (modTime : Time) (s : fsState) : Prop :=
  exists f, os_Open (fs_disk s) path = inl f /\ f_Stat f = None /\ fi_IsDir f = false /\ f_Data f = (data, None) /\
    fi_Size f = zlen data /\ fi_ModTime f = modTime.

(** The file that a request for [path] gets, its readers before the request. *)
Inductive available (path data : bytes) (modTime : Time) (s : fsState) : nat -> Z -> Prop :=
| in_cache id ff : fs_cache s !! path = Some id -> regular id ff data s -> 0 <= ff_readersCount ff -> ff_lastModified ff = modTime ->
    available path data modTime s id (ff_readersCount ff)
| on_disk : fs_cache s !! path = None -> onDisk (h_root h ++ path) data modTime s ->
    available path data modTime s (length (fs_files s)) 0.

Lemma int64_zlen (data : bytes) : zlen data <= maxInt -> int64 (zlen data) = zlen data.
Proof. intros H. unfold int64. pose proof (Zle_0_nat (length data)) as Hl. change (0 <= zlen data) in Hl. revert H Hl. generalize (zlen data). unfold maxInt. intros n H Hl. rewrite Z.mod_small; lia. Qed.

Lemma regular_readers id ff data s n :
  regular id ff data s -> regular id (set_ff_readersCount n ff) data (withFile id (set_ff_readersCount n ff) s).
Proof.
  intros [L Hf El Ei Hp]. split; [apply lookup_withFile; by eexists|exact Hf|exact El|exact Ei|exact Hp].
Qed.

(** openFSFile on a regular file: the next fsFile. *)
Lemma run_openFSFile path data modTime s :
  onDisk path data modTime s -> zlen data <= maxInt -> Forall (fun p => fst p = 0) (fs_readerPool s) ->
  exists s1 ff, fsHandler_openFSFile h path false [] s = Some (s1, inl (length (fs_files s))) /\
    regular (length (fs_files s)) ff data s1 /\ ff_readersCount ff = 0 /\ ff_lastModified ff = modTime /\ fs_cache s1 = fs_cache s.
Proof.
  intros (f & Eo & Est & Ed & Edata & Esz & Em) Hi Hp. unfold fsHandler_openFSFile.
  rewrite (run_bind (suffixOf h []) _ s s _ eq_refl). cbv zeta.
  set (s0 := set_fs_descriptors (fs_descriptors s + 1) (set_fs_opened (fs_opened s ++ [path]) s)).
  rewrite (run_bind (openFile path) _ s s0 (inl f)) by (unfold openFile; cbn [fs_disk set_fs_opened]; by rewrite Eo).
  rewrite Est, Ed.
  unfold fsHandler_newFSFile. rewrite Esz, int64_zlen, Z.eqb_refl by done. cbn [negb].
  rewrite (run_bind (suffixOf h []) _ s0 s0 _ eq_refl).
  assert (exists ct, (if decide (length (TypeByExtension (fileExtension (fi_Name f) false (suffixAt (default (fs_global s0) (h_suffixes h)) []))) = 0%nat)
     then match readFileHeader f false [] with inl data => inl (DetectContentType data) | inr _ => inr (FsErrorf "cannot read header of the file %q: %s") end
     else inl (TypeByExtension (fileExtension (fi_Name f) false (suffixAt (default (fs_global s0) (h_suffixes h)) [])))) = inl ct) as [ct ->].
  { case_decide; [|by eexists]. unfold readFileHeader. rewrite Seek, Edata by done. by eexists. }
  rewrite (run_bind (gets fs_now) _ s0 s0 _ eq_refl).
  eexists _, (MkFsFile (Some f) [] ct (zlen data) false (fi_ModTime f) (AppendHTTPDate [] (fi_ModTime f)) (fs_now s0) 0 []).
  split; [reflexivity|]. split; [|split; [reflexivity|split; [exact Em|reflexivity]]].
  split; [cbn; by apply list_lookup_middle| |reflexivity|exact Hi|exact Hp].
  exists f. split; [reflexivity|]. split; [exact Edata|]. intros _. split; [constructor|]. exists f. cbn. by rewrite (os_name _ _ _ Eo).
Qed.

Lemma RequestCtx_Path_keeps ctx :
  req_Header (cx_Request (fst (RequestCtx_Path ctx))) = req_Header (cx_Request ctx) /\ cx_Response (fst (RequestCtx_Path ctx)) = cx_Response ctx.
Proof.
  unfold RequestCtx_Path, RequestCtx_URI, Request_URI, Request_parseURI. destruct (req_parsedURI _); [done|].
  match goal with |- context [URI_parse ?u ?a ?b ?c] => by destruct (URI_parse u a b c) as [u' err] end.
Qed.

Definition requested (ctx : RequestCtx) : bytes := stripTrailingSlashes (snd (RequestCtx_Path ctx)).
Definition rangeOf (ctx : RequestCtx) : bytes := default [] (RequestHeader_peek (req_Header (cx_Request ctx)) strRange).


(** A request that is answered with the file at its path, as it is. *)
Definition plainRequest (ctx : RequestCtx) : Prop := h_pathRewrite h = None /\ chooseEncoding h ctx (rangeOf ctx) = (false, []).

(** The file, once there is one, with one reader more. *)
Lemma run_available base ctx path slash data modTime s id n (K : RequestCtx -> nat -> fsM (RequestCtx * option fsReader)) :
  available path data modTime s id n -> zlen data <= maxInt -> Forall (fun p => fst p = 0) (fs_readerPool s) ->
  exists s1 ff, (cached ← cacheLookup [] path;
     match cached with
     | Some id => K ctx id
     | None =>
         opened ← fsHandler_openMissing h base ctx path slash false [];
         match opened with
         | inr ctx => mret (ctx, None)
         | inl (ctx, id) => id ← cacheInsert [] path id; K ctx id
         end
     end) s = K ctx id s1 /\ regular id ff data s1 /\ ff_readersCount ff = n + 1 /\ ff_lastModified ff = modTime /\ fs_cache s1 !! path = Some id.
Proof.
  intros [id' ff Ec Rg Hn Em|Ec Hd] Hi Hp.
  - pose proof (rf_lookup _ _ _ _ Rg) as L. exists (withFile id' (set_ff_readersCount (ff_readersCount ff + 1) ff) s), (set_ff_readersCount (ff_readersCount ff + 1) ff).
    split; [|split; [by apply regular_readers|done]].
    assert (cacheLookup [] path s = Some (withFile id' (set_ff_readersCount (ff_readersCount ff + 1) ff) s, Some id')) as E.
    { unfold cacheLookup. rewrite (run_bind (gets (cacheOf [])) _ s s (fs_cache s) eq_refl). rewrite Ec. by rewrite (run_bind _ _ _ _ _ (run_inc _ _ _ L)). }
    by rewrite (run_bind _ _ _ _ _ E).
  - assert (cacheLookup [] path s = Some (s, None)) as E.
    { unfold cacheLookup. rewrite (run_bind (gets (cacheOf [])) _ s s (fs_cache s) eq_refl). by rewrite Ec. }
    rewrite (run_bind _ _ _ _ _ E).
    destruct (run_openFSFile _ _ _ _ Hd Hi Hp) as (s1 & ff & Eo & Rg & Ez & Em & Ec1).
    assert (fsHandler_openMissing h base ctx path slash false [] s = Some (s1, inl (ctx, length (fs_files s)))) as E1.
    { unfold fsHandler_openMissing. cbv zeta. rewrite (run_bind _ _ _ _ _ Eo). reflexivity. }
    rewrite (run_bind _ _ _ _ _ E1).
    set (s2 := set_fs_cache (<[path := length (fs_files s)]> (fs_cache s1)) s1).
    assert (regular (length (fs_files s)) ff data s2) as Rg2 by (destruct Rg; by split).
    pose proof (rf_lookup _ _ _ _ Rg2) as L.
    assert (cacheInsert [] path (length (fs_files s)) s1 =
      Some (withFile (length (fs_files s)) (set_ff_readersCount (ff_readersCount ff + 1) ff) s2, length (fs_files s))) as E2.
    { unfold cacheInsert. rewrite (run_bind (gets (cacheOf [])) _ s1 s1 (fs_cache s1) eq_refl). rewrite Ec1, Ec.
      rewrite (run_bind (modify _) _ s1 s2 tt) by (unfold s2; by rewrite Ec1).
      by rewrite (run_bind _ _ _ _ _ (run_inc _ _ _ L)). }
    rewrite (run_bind _ _ _ _ _ E2). do 2 eexists. split; [reflexivity|]. split; [by apply regular_readers|].
    split; [cbn; lia|]. split; [exact Em|]. cbn. by rewrite lookup_insert_eq.
Qed.

Lemma handleRequest_delivers base ctx data modTime s id n part code :
  plainRequest ctx -> IndexByte (requested ctx) x00 = None -> available (requested ctx) data modTime s id n -> zlen data <= maxInt ->
  Forall (fun p => fst p = 0) (fs_readerPool s) -> 0 <= n ->
  wanted data (rangeOf ctx) part code ->
  RequestCtx_IfModifiedSince ctx modTime = true -> RequestCtx_IsHead ctx = false ->
  ResponseHeader_mustSkipContentLength (resp_Header (cx_Response ctx)) = false -> resp_SkipBody (cx_Response ctx) = false ->
  exists s1 ctx1 r, fsHandler_handleRequest h base ctx s = Some (s1, (ctx1, Some r)) /\ carries ctx1 code part /\
    fs_cache s1 !! requested ctx = Some id /\
    exists s2 ff2, fsReader_Close r s1 = Some (s2, None) /\ fs_files s2 !! id = Some ff2 /\ ff_readersCount ff2 = n.
Proof.
  intros Ph Hz Ha Hi Hp Hn Hw Hm Hh Hs Hk. unfold fsHandler_handleRequest. destruct Ph as [-> Ph].
  unfold requested, rangeOf, chooseEncoding, RequestCtx_IfModifiedSince, RequestCtx_IsHead in *.
  destruct (RequestCtx_Path_keeps ctx) as [Eh Er]. rewrite <- Eh in Hw, Hm, Hh, Ph. rewrite <- Er in Hs, Hk.
  destruct (RequestCtx_Path ctx) as [ctx0 path0]. cbn [fst snd] in *.
  rewrite (run_bind (panics (Some (ctx0, path0))) _ s s (ctx0, path0) eq_refl). cbv zeta. rewrite Hz. unfold chooseEncoding. cbv zeta in Ph. rewrite Ph.
  destruct (run_available base ctx0 _ (bool_decide (last path0 = Some "/"%byte)) data modTime s id n
     (fun ctx id => fsHandler_serveFile h ctx id (default [] (RequestHeader_peek (req_Header (cx_Request ctx0)) strRange)) []) Ha Hi Hp)
     as (s1 & ff & -> & Rg & Ec & Em & Hc).
  rewrite <- Em in Hm.
  destruct (serveFile_delivers ctx0 id ff data s1 _ [] part code Rg ltac:(lia) Hw Hm Hh Hs Hk) as (s2 & ctx2 & r & -> & Ca & E2 & s3 & ff2 & E3 & L3 & C3).
  exists s2, ctx2, r. split; [reflexivity|]. split; [exact Ca|]. split; [by rewrite E2|]. exists s3, ff2. split; [exact E3|]. split; [exact L3|]. lia.
Qed.

End Serve.

(** * Properties *)

(** C7. A GET request for a regular file gets the file: with no path rewriting
    and an encoding chosen that is none, whether the file is cached or opened now, big or small,
    the answer has status 200 and its body is the bytes of the file, or, for a
    satisfiable Range field, status 206 and the bytes from the first to the last
    one asked for.  On the wire the body follows the header exactly.  Afterwards
    the file is in the cache under the requested path, and once the response has
    closed its body the file has as many readers as before the request. *)
Theorem handleRequest_serves {HL : HttpLib} {SL : ServerLib} {TL : TimeLib} {OL : OsLib} (Laws : OsLaws)
    (Seek : forall f n, 0 <= n -> f_Seek f n = None)
    (h : fsHandler) (base : URI) (ctx : RequestCtx) (data : bytes) (modTime : Time) (s : fsState) (id : nat) (n : Z) (part : bytes) (code : Z)
    (Ph : plainRequest h ctx) (Hz : IndexByte (requested ctx) x00 = None)
    (Ha : available h (requested ctx) data modTime s id n) (Hi : zlen data <= maxInt) (Hp : Forall (fun p => fst p = 0) (fs_readerPool s))
    (Hw : wanted h data (rangeOf ctx) part code)
    (Hm : RequestCtx_IfModifiedSince ctx modTime = true) (Hh : RequestCtx_IsHead ctx = false)
    (Hs : ResponseHeader_mustSkipContentLength (resp_Header (cx_Response ctx)) = false) (Hk : resp_SkipBody (cx_Response ctx) = false) :
  exists s1 ctx1 r, fsHandler_handleRequest h base ctx s = Some (s1, (ctx1, Some r)) /\
    ResponseHeader_StatusCode (resp_Header (cx_Response ctx1)) = code /\
    (forall serverDate head, ResponseHeader_AppendBytes serverDate (resp_Header (cx_Response ctx1)) [] = Some head ->
       exists x, Response_Write serverDate (cx_Response ctx1) [] = Some (x, head ++ part, None)) /\
    fs_cache s1 !! requested ctx = Some id /\
    exists s2 ff2, fsReader_Close r s1 = Some (s2, None) /\ fs_files s2 !! id = Some ff2 /\ ff_readersCount ff2 = n.
Proof.
  assert (0 <= n) as Hn by (destruct Ha; lia).
  destruct (handleRequest_delivers h Seek base ctx data modTime s id n part code Ph Hz Ha Hi Hp Hn Hw Hm Hh Hs Hk)
    as (s1 & ctx1 & r & E & Ca & Ec & Cl).
  exists s1, ctx1, r. split; [exact E|]. split; [apply Ca|]. split; [|by split].
  intros serverDate hd Ehd. apply (carries_written _ code); [done| |done]. destruct Hw; tauto.
Qed.

Definition rangeCtx : @RequestCtx plainLib plainServerLib :=
  on_rqHeader (fun hdr => default hdr (RequestHeader_SetCanonical hdr strRange (bs "bytes=7-11"))) (getCtx (bs "/a.txt")).

Lemma handleRequest_serves_witness :
  (plainRequest (sampleFS None) rangeCtx /\ available (sampleFS None) (requested rangeCtx) (bs "hello, world") (7 : @Time unixTime) (plainState sampleDisk) 0 0 /\
   wanted (sampleFS None) (bs "hello, world") (rangeOf rangeCtx) (bs "world") StatusPartialContent) /\
  exists s1 ctx1 r, fsHandler_handleRequest (sampleFS None) emptyURI rangeCtx (plainState sampleDisk) = Some (s1, (ctx1, Some r)) /\
    ResponseHeader_StatusCode (resp_Header (cx_Response ctx1)) = StatusPartialContent.
Proof.
  assert (plainRequest (sampleFS None) rangeCtx) as Ph by (split; vm_compute; reflexivity).
  assert (requested rangeCtx = bs "/a.txt") as Er by (vm_compute; reflexivity).
  assert (available (sampleFS None) (requested rangeCtx) (bs "hello, world") (7 : @Time unixTime) (plainState sampleDisk) 0 0) as Ha.
  { rewrite Er. apply (on_disk (sampleFS None) (bs "/a.txt") (bs "hello, world") (7 : @Time unixTime) (plainState sampleDisk)); [reflexivity|].
    exists (PlainFile (bs "/srv/a.txt") (bs "a.txt") (bs "hello, world") false 7 []).
    exact (conj eq_refl (conj eq_refl (conj eq_refl (conj eq_refl (conj eq_refl eq_refl))))). }
  assert (wanted (sampleFS None) (bs "hello, world") (rangeOf rangeCtx) (bs "world") StatusPartialContent) as Hw.
  { change (bs "world") with (slice (bs "hello, world") 7 11). apply wanted_range; try discriminate; vm_compute; reflexivity. }
  split; [exact (conj Ph (conj Ha Hw))|].
  destruct (handleRequest_serves plainOs_laws (fun _ _ _ => eq_refl) (sampleFS None) emptyURI rangeCtx (bs "hello, world") (7 : @Time unixTime) (plainState sampleDisk) 0 0
    (bs "world") StatusPartialContent Ph) as (s1 & ctx1 & r & E & Es & _); [| |intros K; discriminate K|constructor| | | | | |exists s1, ctx1, r; exact (conj E Es)].
  - rewrite Er. vm_compute. reflexivity.
  - exact Ha.
  - exact Hw.
  - vm_compute. reflexivity.
  - vm_compute. reflexivity.
  - vm_compute. reflexivity.
  - vm_compute. reflexivity.
Defined.
