(* ===== verification/FsCache.v ===== *)
(** * fs.go: the files that are kept open

    Requests run concurrently with each other and with the goroutine that drops
    stale files from the caches.  The request handler is split where it takes the
    lock of the caches: lookup, opening, insertion, the answer, the end of the
    response's body; each step is one of the operations of [Fs].  A file is
    released only when nobody can read it any more. *)
From Stdlib Require Import Strings.String.
From stdpp Require Import gmap.
From S2P Require Import Prelude BytesConv Consts Args Uri Cookie HeaderScan RequestHeader ResponseHeader Bufio Body HeaderRead Http Machine UserData Streaming RequestCtx Server ServerSafety Fs FsPaths.

Section Cache.
Context {HL : HttpLib} {SL : ServerLib} {TL : TimeLib} {OL : OsLib} (h : fsHandler).

(** ** What the operations do to the counters *)

Definition readers (s : fsState) (id : nat) : Z := match fs_files s !! id with Some ff => ff_readersCount ff | None => 0 end.

(** The caches stay, files are only added, and the counters move by [d]. *)
Record frame (d : nat -> Z) (s s' : fsState) : Prop := {
  fr_cache : fs_cache s' = fs_cache s;
  fr_brotli : fs_cacheBrotli s' = fs_cacheBrotli s;
  fr_gzip : fs_cacheGzip s' = fs_cacheGzip s;
  fr_length : (length (fs_files s) <= length (fs_files s'))%nat;
  fr_readers : forall id, readers s' id = readers s id + d id
}.

Definition still (_ : nat) : Z := 0.
Definition one (id k : nat) : Z := if decide (k = id) then 1 else 0.

Lemma frame_trans d1 d2 d s1 s2 s3 :
  frame d1 s1 s2 -> frame d2 s2 s3 -> (forall k, d1 k + d2 k = d k) -> frame d s1 s3.
Proof.
  intros [A1 B1 C1 L1 R1] [A2 B2 C2 L2 R2] H. split; [congruence..|lia|]. intros k. rewrite R2, R1, <- H. lia.
Qed.

Lemma frame_still s s' :
  fs_cache s' = fs_cache s -> fs_cacheBrotli s' = fs_cacheBrotli s -> fs_cacheGzip s' = fs_cacheGzip s -> fs_files s' = fs_files s ->
  frame still s s'.
Proof. intros ? ? ? E. split; [done..|by rewrite E|]. intros k. unfold readers, still. rewrite E. lia. Qed.

Lemma frame_refl s : frame still s s.
Proof. by apply frame_still. Qed.

Lemma bind_inv {A B} (m : fsM A) (f : A -> fsM B) s r :
  (m ≫= f) s = Some r -> exists s1 a, m s = Some (s1, a) /\ f a s1 = Some r.
Proof. unfold mbind, fsM_bind. destruct (m s) as [[s1 a]|]; [|done]. eauto. Qed.

(** *** Opening *)

(** From a state with at least [l] files, [m] gives files with a number from [l]
    on, all of them with no reader; [K] is such a file that is known already. *)
Definition opens {A} (l : nat) (K : option nat) (idof : A -> option nat) (m : fsM A) : Prop := forall s s' a,
  (l <= length (fs_files s))%nat -> (forall k, K = Some k -> (l <= k < length (fs_files s))%nat) -> m s = Some (s', a) ->
  frame still s s' /\ forall k, idof a = Some k -> (l <= k < length (fs_files s'))%nat.

Definition nofile {A} (_ : A) : option nat := None.
Definition fileOf {E} (r : nat + E) : option nat := match r with inl id => Some id | inr _ => None end.

Lemma opens_ret {A} l K (idof : A -> option nat) a : idof a = None \/ idof a = K -> opens l K idof (mret a).
Proof. intros H s s' a' Hl HK [= <- <-]. split; [apply frame_refl|]. intros k E. destruct H as [H|H]; [congruence|]. apply HK. congruence. Qed.

Lemma opens_bind {A B} l K (idof1 : A -> option nat) (idof2 : B -> option nat) m f :
  opens l K idof1 m -> (forall a, opens l (match idof1 a with Some k => Some k | None => K end) idof2 (f a)) -> opens l K idof2 (m ≫= f).
Proof.
  intros Hm Hf s s' b Hl HK E. apply bind_inv in E as (s1 & a & E1 & E2).
  destruct (Hm _ _ _ Hl HK E1) as [F1 H1]. pose proof (fr_length _ _ _ F1). destruct (Hf a s1 s' b) as [F2 H2]; [lia| |exact E2|].
  - intros k Ek. destruct (idof1 a) as [k1|] eqn:Ea; [injection Ek as <-; by apply H1|]. specialize (HK _ Ek). lia.
  - split; [|exact H2]. eapply frame_trans; [exact F1|exact F2|]. done.
Qed.

(** Steps that change nothing counted here. *)
Lemma opens_still {A} l K (m : fsM A) : (forall s s' a, m s = Some (s', a) -> frame still s s') -> opens l K nofile m.
Proof. intros H s s' a _ _ E. split; [by eapply H|done]. Qed.

Lemma opens_gets {A} l K (f : fsState -> A) : opens l K nofile (gets f).
Proof. apply opens_still. intros s s' a [= <- <-]. apply frame_refl. Qed.
Lemma opens_panics {A} l K (o : option A) : opens l K nofile (panics o).
Proof. apply opens_still. intros s s' a E. unfold panics in E. destruct o; [|done]. injection E as <- <-. apply frame_refl. Qed.
Lemma opens_modify l K f :
  (forall s, frame still s (f s)) -> opens l K nofile (modify f).
Proof. intros H. apply opens_still. intros s s' a [= <- <-]. apply H. Qed.
Lemma opens_openFile l K path : opens l K nofile (openFile path).
Proof.
  apply opens_still. intros s s' a E. unfold openFile in E. cbn [fs_disk set_fs_opened] in E.
  destruct (os_Open _ _); injection E as <- <-; by apply frame_still.
Qed.
Lemma opens_diskOp l K op : opens l K nofile (diskOp op).
Proof. apply opens_still. intros s s' a E. unfold diskOp in E. destruct (op _). injection E as <- <-. by apply frame_still. Qed.
Lemma opens_closeFile l K : opens l K nofile closeFile.
Proof. apply opens_modify. intros s. by apply frame_still. Qed.

Lemma opens_newFile l K ff : ff_readersCount ff = 0 -> opens l K Some (newFile ff).
Proof.
  intros Hz s s' a Hl HK [= <- <-]. split.
  - split; [done..|cbn; rewrite length_app; lia|]. intros k. unfold readers, still. cbn.
    destruct (decide (k < length (fs_files s))%nat).
    + rewrite lookup_app_l by done. lia.
    + rewrite (lookup_ge_None_2 (fs_files s)) by lia. destruct (decide (k = length (fs_files s))) as [->|].
      * rewrite list_lookup_middle by done. lia.
      * rewrite lookup_ge_None_2 by (rewrite length_app; cbn; lia). lia.
  - intros k [= <-]. cbn. rewrite length_app. cbn. lia.
Qed.

Create HintDb opens.
#[local] Hint Resolve opens_gets opens_panics opens_openFile opens_diskOp opens_closeFile opens_modify frame_still : opens.

Ltac opens_step :=
  match goal with
  | |- opens _ _ _ (mret _) => apply opens_ret; cbn; by auto
  | |- opens _ _ _ (match ?x with _ => _ end) => destruct x
  | |- opens _ _ _ (newFile _ ≫= _) => eapply (opens_bind _ _ Some); [by apply opens_newFile|intros ?; cbn]
  | |- opens _ _ _ (_ ≫= _) => eapply (opens_bind _ _ nofile); [solve [eauto with opens]|intros ?; cbn [nofile]]
  | |- opens _ _ _ _ => eassumption
  end.

Lemma opens_newFSFile l K f c e : opens l K fileOf (fsHandler_newFSFile h f c e).
Proof. unfold fsHandler_newFSFile, suffixOf. cbv zeta. repeat opens_step. Qed.

Lemma opens_newCompressed l K path e : opens l K fileOf (fsHandler_newCompressedFSFile h path e).
Proof. unfold fsHandler_newCompressedFSFile. repeat first [opens_step|apply opens_newFSFile]. Qed.

Lemma opens_compressFile l K f path e : opens l K fileOf (fsHandler_compressFileNolock h f path e).
Proof. unfold fsHandler_compressFileNolock. cbv zeta. repeat first [opens_step|apply opens_newCompressed]. Qed.

Lemma opens_compressAndOpen l K path e : opens l K fileOf (fsHandler_compressAndOpenFSFile h path e).
Proof. unfold fsHandler_compressAndOpenFSFile, suffixOf. cbv zeta. repeat first [opens_step|apply opens_newFSFile|apply opens_compressFile]. Qed.

Lemma opens_openFSFile l K path m e : opens l K fileOf (fsHandler_openFSFile h path m e).
Proof. unfold fsHandler_openFSFile, suffixOf. cbv zeta. repeat first [opens_step|apply opens_newFSFile|apply opens_compressAndOpen]. Qed.

Lemma opens_createDirIndex l K base path m e : opens l K fileOf (fsHandler_createDirIndex h base path m e).
Proof. unfold fsHandler_createDirIndex. cbv zeta. repeat opens_step. Qed.

Lemma opens_openIndexFile l K base path m e : opens l K fileOf (fsHandler_openIndexFile h base path m e).
Proof.
  unfold fsHandler_openIndexFile. induction (h_indexNames h) as [|name names IH] in K |- *; cbn [openIndexNames].
  - destruct (negb _); [opens_step|apply opens_createDirIndex].
  - eapply opens_bind; [apply opens_openFSFile|]. intros [id|[[]| | |]]; try opens_step; apply IH.
Qed.

Definition fileOfRequest (r : RequestCtx * nat + RequestCtx) : option nat := match r with inl (_, id) => Some id | inr _ => None end.

Lemma opens_openMissing l K base ctx path slash m e : opens l K fileOfRequest (fsHandler_openMissing h base ctx path slash m e).
Proof.
  unfold fsHandler_openMissing. cbv zeta. eapply opens_bind; [apply opens_openFSFile|]. intros r.
  eapply (opens_bind _ _ (fun p : (nat + fserror) * bool => fileOf p.1)).
  { destruct (m && _).
    - eapply opens_bind; [apply opens_openFSFile|]. intros r'. apply opens_ret. destruct r'; cbn; auto.
    - apply opens_ret. destruct r; cbn; auto. }
  intros [[id|[o| | |f]] m']; cbn [fileOf fst]; opens_step; [opens_step; opens_step|].
  destruct (RequestCtx_URI ctx) as [c u]. eapply opens_bind; [apply opens_openIndexFile|]. intros [id|err]; cbn [fileOf]; opens_step.
Qed.

(** *** Readers *)

(** Every run of [m] moves the counters by [d] of its result. *)
Definition moves {A} (P : A -> Prop) (d : A -> nat -> Z) (m : fsM A) : Prop :=
  forall s s' a, m s = Some (s', a) -> frame (d a) s s' /\ P a.

Definition less (id k : nat) : Z := - one id k.
Definition readerId (r : fsReader) : nat := match r with SmallReader id _ _ => id | BigReader id _ _ _ => id end.

Lemma frame_ext d d' s s' : frame d s s' -> (forall k, d k = d' k) -> frame d' s s'.
Proof. intros [] H. split; try done. intros k. rewrite <- H. auto. Qed.

Lemma moves_ret {A} (P : A -> Prop) d a : P a -> (forall k, d a k = 0) -> moves P d (mret a).
Proof. intros Hp Hd s s' a' [= <- <-]. split; [|done]. eapply frame_ext; [apply frame_refl|]. intros k. by rewrite Hd. Qed.

Lemma moves_bind {A B} (P : A -> Prop) (Q : B -> Prop) d1 d m f :
  moves P d1 m -> (forall a, P a -> moves Q (fun b k => d b k - d1 a k) (f a)) -> moves Q d (m ≫= f).
Proof.
  intros Hm Hf s s' b E. apply bind_inv in E as (s1 & a & E1 & E2). destruct (Hm _ _ _ E1) as [F1 Ha].
  destruct (Hf a Ha _ _ _ E2) as [F2 Hb]. split; [|done]. eapply frame_trans; [exact F1|exact F2|]. intros k. cbn. lia.
Qed.

Lemma moves_ext {A} (P : A -> Prop) d d' m : moves P d m -> (forall a k, d a k = d' a k) -> moves P d' m.
Proof. intros H E s s' a Er. destruct (H _ _ _ Er) as [F Ha]. split; [|done]. eapply frame_ext; [exact F|apply E]. Qed.

Lemma moves_opens {A} (m : fsM A) : (forall l K, opens l K nofile m) -> moves (fun _ => True) (fun _ => still) m.
Proof. intros H s s' a E. destruct (H O None s s' a) as [F _]; [lia|done|exact E|]. done. Qed.

Lemma moves_panics {A} (o : option A) : moves (fun _ => True) (fun _ => still) (panics o).
Proof. apply moves_opens. intros. apply opens_panics. Qed.

(** Replacing a file by one with [n] readers more. *)
Lemma frame_set id ff ff' s :
  fs_files s !! id = Some ff -> frame (fun k => (ff_readersCount ff' - ff_readersCount ff) * one id k) s (set_fs_files (<[id := ff']> (fs_files s)) s).
Proof.
  intros L. split; [done..|cbn; by rewrite length_insert|]. intros k. unfold readers, one. cbn. case_decide as D.
  - subst. rewrite list_lookup_insert_eq by (by eapply lookup_lt_Some). rewrite L. lia.
  - rewrite list_lookup_insert_ne by done. lia.
Qed.

Lemma getFile_inv id s s' ff : getFile id s = Some (s', ff) -> s' = s /\ fs_files s !! id = Some ff.
Proof. unfold getFile. destruct (fs_files s !! id); [|done]. by intros [= <- <-]. Qed.

Lemma moves_dec id : moves (fun _ => True) (fun _ => less id) (fsFile_decReadersCount id).
Proof.
  intros s s' a E. apply bind_inv in E as (s1 & ff & E1 & E). apply getFile_inv in E1 as [-> L]. cbv zeta in E.
  apply bind_inv in E as (s2 & [] & [= <-] & E). destruct (_ <? 0); [done|]. injection E as <- _. split; [|done].
  eapply frame_ext; [by eapply frame_set|]. intros k. unfold less. cbn. lia.
Qed.

Lemma moves_inc id : moves (fun _ => True) (fun _ => one id) (incReadersCount id).
Proof.
  intros s s' a E. apply bind_inv in E as (s1 & ff & E1 & E). apply getFile_inv in E1 as [-> L]. injection E as <- _. split; [|done].
  eapply frame_ext; [by eapply frame_set|]. intros k. cbn. lia.
Qed.

Lemma moves_NewReader id :
  moves (fun r => match r with inl r => readerId r = id | inr _ => True end)
    (fun r => match r with inl _ => still | inr _ => less id end) (fsFile_NewReader id).
Proof.
  intros s s' r E. apply bind_inv in E as (s1 & ff & E1 & E). apply getFile_inv in E1 as [-> L]. destruct (fsFile_isBig ff).
  - apply bind_inv in E as (s1 & r1 & E1 & E).
    assert (frame still s s1 /\ match r1 with inl r => readerId r = id | inr _ => True end) as [F1 H1].
    { apply bind_inv in E1 as (s2 & f & E2 & E1). unfold panics in E2. destruct (ff_f ff) as [g|]; [|done]. injection E2 as <- <-.
      destruct (last _).
      - apply bind_inv in E1 as (s2 & [] & [= <-] & E1). injection E1 as <- <-. split; [|done].
        eapply frame_ext; [by eapply frame_set|]. intros k. cbn. unfold still. lia.
      - apply bind_inv in E1 as (s2 & o & E2 & E1). injection E1 as <- <-.
        destruct (moves_opens _ (fun l K => opens_openFile l K (f_Name g)) _ _ _ E2) as [F _]. split; [exact F|]. by destruct o. }
    destruct r1 as [r1|err].
    + injection E as <- <-. by split.
    + apply bind_inv in E as (s2 & [] & E2 & E). injection E as <- <-. destruct (moves_dec _ _ _ _ E2) as [F2 _].
      split; [|done]. eapply frame_trans; [exact F1|exact F2|]. done.
  - apply bind_inv in E as (s1 & r1 & E1 & E). injection E as <- <-. unfold fsFile_smallFileReader in E1.
    destruct (match fs_readerPool s with [] => _ | _ :: _ => _ end) as [a b]. destruct (0 <? a); [done|]. injection E1 as <- <-.
    split; [by apply frame_still|done].
Qed.

Lemma moves_Close r : moves (fun _ => True) (fun _ => less (readerId r)) (fsReader_Close r).
Proof.
  destruct r as [id a b|id f pos limit]; cbn [fsReader_Close readerId].
  - eapply moves_bind; [apply moves_dec|]. intros ? _. eapply moves_bind.
    + apply moves_opens. intros l K. apply opens_modify. intros s. by apply frame_still.
    + intros ? _. apply moves_ret; [done|]. intros k. unfold still. lia.
  - intros s s' r E. apply bind_inv in E as (s1 & ff & E1 & E). apply getFile_inv in E1 as [-> L]. cbv zeta in E.
    apply bind_inv in E as (s1 & [] & E1 & E). assert (frame still s s1) as F1.
    { destruct (f_Seek f 0); injection E1 as <-; [by apply frame_still|].
      eapply frame_ext; [by eapply frame_set|]. intros k. cbn. unfold still. lia. }
    apply bind_inv in E as (s2 & [] & E2 & E). injection E as <- _. destruct (moves_dec _ _ _ _ E2) as [F2 _].
    split; [|done]. eapply frame_trans; [exact F1|exact F2|]. done.
Qed.

(** An answer keeps its reader or gives it back, on every path. *)
Lemma moves_serveFile ctx id range e :
  moves (fun r => match r.2 with Some r => readerId r = id | None => True end)
    (fun r => match r.2 with Some _ => still | None => less id end) (fsHandler_serveFile h ctx id range e).
Proof.
  unfold fsHandler_serveFile. eapply (moves_bind _ _ (fun _ => still)).
  { apply (moves_opens (getFile id)). intros l K. apply opens_still. intros s s' ff E. apply getFile_inv in E as [-> _]. apply frame_refl. }
  intros ff _. destruct (negb _).
  { eapply moves_bind; [apply moves_dec|]. intros ? _. apply moves_ret; [done|]. intros k. cbn. unfold still. lia. }
  eapply moves_bind; [apply moves_NewReader|]. intros [r|err] Hr; [|apply moves_ret; [done|intros k; cbn; unfold still; lia]]. cbv zeta.
  assert (forall (x : RequestCtx * fsReader * Z * Z + RequestCtx) y, x = inr y ->
    moves (fun x => match x with inl (_, r, _, _) => readerId r = id | inr _ => True end)
      (fun x => match x with inl _ => still | inr _ => less id end) (_ ← fsReader_Close r; mret x)) as Cl.
  { intros x y ->. eapply moves_bind; [apply moves_Close|]. intros ? _. apply moves_ret; [done|]. intros k. cbn. rewrite Hr. lia. }
  eapply (moves_bind (fun x => match x with inl (_, r, _, _) => readerId r = id | inr _ => True end) _
    (fun x => match x with inl _ => still | inr _ => less id end)).
  - destruct (_ && _); [|by apply moves_ret]. destruct (ParseByteRange _ _) as [[a b]|err]; [|by eapply Cl].
    destruct (fsReader_UpdateByteRange r a b) as [r'|err] eqn:Eu; [|by eapply Cl].
    eapply moves_bind; [apply moves_panics|]. intros hdr _. apply moves_ret; [|by intros k; cbn; unfold still; lia].
    destruct r; cbn [fsReader_UpdateByteRange] in Eu; [|destruct (f_Seek _ _); [done|]]; by injection Eu as <-.
  - intros [[[[ctx' r'] n] code]|ctx'] Hr'; [|apply moves_ret; [done|intros k; cbn; unfold still; lia]]. destruct (negb _).
    + eapply moves_bind; [apply moves_panics|]. intros c _. apply moves_ret; [done|]. intros k. cbn. unfold still. lia.
    + eapply moves_bind; [apply moves_panics|]. intros hdr _. eapply moves_bind; [apply moves_Close|]. intros err _.
      apply moves_ret; [done|]. intros k. cbn. rewrite Hr'. unfold still. lia.
Qed.

(** ** The caches *)

Inductive cacheName := CPlain | CBrotli | CGzip.
#[global] Instance cacheName_eq : EqDecision cacheName.
Proof. solve_decision. Defined.

Definition cacheAt (c : cacheName) (s : fsState) : gmap bytes nat :=
  match c with CPlain => fs_cache s | CBrotli => fs_cacheBrotli s | CGzip => fs_cacheGzip s end.
Definition nameOf (fileEncoding : bytes) : cacheName :=
  if decide (fileEncoding = strBr) then CBrotli else if decide (fileEncoding = strGzip) then CGzip else CPlain.

Lemma cacheOf_name e s : cacheOf e s = cacheAt (nameOf e) s.
Proof. unfold cacheOf, nameOf. by repeat case_decide. Qed.

Lemma cacheAt_set e m s c : cacheAt c (set_cacheOf e m s) = if decide (c = nameOf e) then m else cacheAt c s.
Proof. destruct c; unfold set_cacheOf, nameOf; by repeat case_decide. Qed.

Lemma set_cacheOf_files e m s : fs_files (set_cacheOf e m s) = fs_files s.
Proof. unfold set_cacheOf. by repeat case_decide. Qed.

Lemma frame_cacheAt d s s' c : frame d s s' -> cacheAt c s' = cacheAt c s.
Proof. intros F. destruct c; apply F. Qed.

Lemma lookup_inv e path s s' r :
  cacheLookup e path s = Some (s', r) -> r = cacheAt (nameOf e) s !! path /\ frame (match r with Some id => one id | None => still end) s s'.
Proof.
  intros E. apply bind_inv in E as (s1 & m & [= <- <-] & E). rewrite <- cacheOf_name. destruct (cacheOf e s !! path) as [id|].
  - apply bind_inv in E as (s1 & [] & E1 & E). injection E as <- <-. split; [done|]. by apply moves_inc in E1 as [F _].
  - injection E as <- <-. split; [done|apply frame_refl].
Qed.

Lemma release_still id s s' a : fsFile_Release id s = Some (s', a) -> frame still s s'.
Proof.
  intros E. apply bind_inv in E as (s1 & ff & E1 & E). apply getFile_inv in E1 as [-> _].
  destruct (ff_f ff); injection E as <- _; by apply frame_still.
Qed.

Lemma insert_inv e path id s s' id' :
  cacheInsert e path id s = Some (s', id') ->
  match cacheAt (nameOf e) s !! path with
  | Some id1 => id' = id1 /\ frame (one id1) s s'
  | None => id' = id /\ frame (one id) (set_cacheOf e (<[path := id]> (cacheAt (nameOf e) s)) s) s'
  end.
Proof.
  intros E. apply bind_inv in E as (s1 & m & [= <- <-] & E). rewrite <- cacheOf_name. destruct (cacheOf e s !! path) as [id1|].
  - apply bind_inv in E as (s1 & [] & E1 & E). apply bind_inv in E as (s2 & [] & E2 & E). injection E as <- <-. split; [done|].
    apply moves_inc in E1 as [F1 _]. apply release_still in E2. eapply frame_trans; [exact F1|exact E2|]. intros k. unfold still. lia.
  - apply bind_inv in E as (s1 & [] & [= <-] & E). apply bind_inv in E as (s2 & [] & E2 & E). injection E as <- <-.
    split; [done|]. by apply moves_inc in E2 as [F _].
Qed.

(** *** Cleaning *)

Definition inUse (s : fsState) (id : nat) : bool := match fs_files s !! id with Some ff => 0 <? ff_readersCount ff | None => false end.
Definition gone (s : fsState) (c : cacheName) : list (bytes * nat) :=
  List.filter (fun kv => match fs_files s !! kv.2 with Some ff => stale (fs_now s) (h_cacheDuration h) ff | None => false end)
    (map_to_list (cacheAt c s)).
Definition goneIds (s : fsState) : list nat := map snd (gone s CPlain) ++ map snd (gone s CBrotli) ++ map snd (gone s CGzip).
Definition dropAll (l : list (bytes * nat)) (m : gmap bytes nat) : gmap bytes nat := fold_right (fun kv m => delete kv.1 m) m l.

(** Cleaning sorts what was pending and what is stale by whether it is in use. *)
Lemma cleanCaches_eq s pending :
  cleanCaches h s pending =
  (set_fs_cacheGzip (dropAll (gone s CGzip) (fs_cacheGzip s))
     (set_fs_cacheBrotli (dropAll (gone s CBrotli) (fs_cacheBrotli s)) (set_fs_cache (dropAll (gone s CPlain) (fs_cache s)) s)),
   List.filter (inUse s) (pending ++ goneIds s), List.filter (fun id => negb (inUse s id)) (pending ++ goneIds s)).
Proof.
  unfold cleanCaches, cleanCacheNolock. fold (inUse s). fold (gone s CPlain) (gone s CBrotli) (gone s CGzip).
  fold (dropAll (gone s CPlain)). unfold goneIds. rewrite !List.filter_app, !app_assoc. reflexivity.
Qed.

Lemma lookup_dropAll l m k id : dropAll l m !! k = Some id -> m !! k = Some id /\ k ∉ map fst l.
Proof.
  induction l as [|[k' i] l IH]; cbn [dropAll fold_right map fst]; [intros E; split; [done|apply not_elem_of_nil]|].
  rewrite lookup_delete_Some. intros [D E]. apply IH in E as [E N]. split; [done|]. rewrite elem_of_cons. cbn in D. intros [->|?]; tauto.
Qed.

Lemma elem_of_gone s c k id : (k, id) ∈ gone s c -> cacheAt c s !! k = Some id.
Proof.
  intros H. apply list_elem_of_In, List.filter_In in H as [H _]. apply list_elem_of_In in H. by apply elem_of_map_to_list.
Qed.

Lemma gone_nodup s c (w : nat -> bytes) :
  (forall k id, cacheAt c s !! k = Some id -> w id = k) -> NoDup (map snd (gone s c)).
Proof.
  intros Hw. assert (NoDup (gone s c)) as Nd by (apply NoDup_ListNoDup, List.NoDup_filter, NoDup_ListNoDup, NoDup_map_to_list).
  change (NoDup (snd <$> gone s c)). apply NoDup_fmap_2_strong; [|done]. intros [k1 id] [k2 id'] H1 H2. cbn. intros <-.
  by rewrite <- (Hw _ _ (elem_of_gone _ _ _ _ H1)), <- (Hw _ _ (elem_of_gone _ _ _ _ H2)).
Qed.

Lemma releaseAll_still l : forall s s' a, releaseAll l s = Some (s', a) -> frame still s s'.
Proof.
  induction l as [|id l IH]; intros s s' a E; [injection E as <- _; apply frame_refl|].
  apply bind_inv in E as (s1 & [] & E1 & E). eapply frame_trans; [by eapply release_still|by eapply IH|done].
Qed.

(** ** Requests and the cleaning goroutine, interleaved *)

(** Where a goroutine stands: a request before each use of the lock or of a file,
    or the loop that cleans the caches with the files it could not close yet. *)
Inductive fsThread :=
| Asking (ctx : RequestCtx) (path byteRange fileEncoding : bytes) (hasTrailingSlash mustCompress : bool)
| Opening (ctx : RequestCtx) (path byteRange fileEncoding : bytes) (hasTrailingSlash mustCompress : bool)
| Opened (ctx : RequestCtx) (path byteRange fileEncoding : bytes) (id : nat)
| Serving (ctx : RequestCtx) (byteRange fileEncoding : bytes) (id : nat)
| Writing (ctx : RequestCtx) (r : fsReader)
| Finished (ctx : RequestCtx)
| Cleaning (pendingFiles : list nat).

(** [fm_released] lists the files that have been released, in order. *)
Record fsMachine := MkFsMachine {
  fm_fs : fsState;
  fm_threads : list fsThread;
  fm_released : list nat
}.

(** The goroutine goes on, or the rest of the world moves: files change, time passes. *)
Inductive fsAction := AGo (base : URI) | AWorld (d : Disk) (now : Time).

Definition set_world (d : Disk) (now : Time) (s : fsState) : fsState :=
  MkFsState d now (fs_global s) (fs_files s) (fs_cache s) (fs_cacheBrotli s) (fs_cacheGzip s) (fs_readerPool s) (fs_descriptors s) (fs_opened s).

Definition fsThread_go (base : URI) (th : fsThread) : fsM (option (fsThread * list nat)) :=
  match th with
  | Asking ctx path range e slash must =>
      r ← cacheLookup e path;
      mret (Some (match r with Some id => Serving ctx range e id | None => Opening ctx path range e slash must end, []))
  | Opening ctx path range e slash must =>
      r ← fsHandler_openMissing h base ctx path slash must e;
      mret (Some (match r with inl (ctx, id) => Opened ctx path range e id | inr ctx => Finished ctx end, []))
  | Opened ctx path range e id =>
      id' ← cacheInsert e path id;
      mret (Some (Serving ctx range e id', if decide (id' = id) then [] else [id]))
  | Serving ctx range e id =>
      '(ctx, r) ← fsHandler_serveFile h ctx id range e;
      mret (Some (match r with Some r => Writing ctx r | None => Finished ctx end, []))
  | Writing ctx r => _ ← fsReader_Close r; mret (Some (Finished ctx, []))
  | Finished _ => mret None
  | Cleaning pendingFiles => fun s =>
      let '(s, pendingFiles, filesToRelease) := cleanCaches h s pendingFiles in
      (_ ← releaseAll filesToRelease; mret (Some (Cleaning pendingFiles, filesToRelease))) s
  end.

#[global] Instance fsMachine_step : Machine fsMachine fsAction := fun t a m =>
  match a with
  | AWorld d now => To (MkFsMachine (set_world d now (fm_fs m)) (fm_threads m) (fm_released m))
  | AGo base =>
      match fm_threads m !! t with
      | None => Blocked
      | Some th =>
          match fsThread_go base th (fm_fs m) with
          | None => Panics
          | Some (_, None) => Blocked
          | Some (s, Some (th, released)) => To (MkFsMachine s (<[t := th]> (fm_threads m)) (fm_released m ++ released))
          end
      end
  end.

(** ** Where each file is *)

Definition readersOf (th : fsThread) : list nat :=
  match th with Serving _ _ _ id => [id] | Writing _ r => [readerId r] | _ => [] end.
Definition freshOf (th : fsThread) : list nat := match th with Opened _ _ _ _ id => [id] | _ => [] end.
Definition pendingOf (th : fsThread) : list nat := match th with Cleaning p => p | _ => [] end.

Definition times (id : nat) (l : list nat) : Z := Z.of_nat (count_occ Nat.eq_dec l id).

Lemma times_app id l1 l2 : times id (l1 ++ l2) = times id l1 + times id l2.
Proof. unfold times. rewrite count_occ_app. lia. Qed.
Lemma times_perm id l1 l2 : l1 ≡ₚ l2 -> times id l1 = times id l2.
Proof. intros H. unfold times. by rewrite (proj1 (Permutation_count_occ Nat.eq_dec _ _) H). Qed.
Lemma times_pos id l : id ∈ l <-> 0 < times id l.
Proof. unfold times. rewrite list_elem_of_In, (count_occ_In Nat.eq_dec). lia. Qed.
Lemma times_one id k : times k [id] = one id k.
Proof. unfold times, one. cbn. destruct (Nat.eq_dec id k), (decide (k = id)); subst; done || congruence. Qed.

Inductive place := Nowhere | InCache (c : cacheName) (path : bytes) | Fresh | Pending | Released.

Record placed (w : nat -> place) (m : fsMachine) : Prop := {
  pl_cache : forall c path id, cacheAt c (fm_fs m) !! path = Some id -> w id = InCache c path;
  pl_fresh : forall id, id ∈ held freshOf (fm_threads m) -> w id = Fresh;
  pl_pending : forall id, id ∈ held pendingOf (fm_threads m) -> w id = Pending;
  pl_released : forall id, id ∈ fm_released m -> w id = Released;
  pl_nodup_fresh : NoDup (held freshOf (fm_threads m));
  pl_nodup_pending : NoDup (held pendingOf (fm_threads m));
  pl_nodup_released : NoDup (fm_released m);
  pl_readers : forall id, id ∈ held readersOf (fm_threads m) -> (exists c path, w id = InCache c path) \/ w id = Pending;
  pl_count : forall id, readers (fm_fs m) id = times id (held readersOf (fm_threads m));
  pl_range : forall id, w id <> Nowhere -> (id < length (fs_files (fm_fs m)))%nat
}.

Lemma held_same {B} (f : fsThread -> list B) l t x y : l !! t = Some x -> f x = f y -> held f (<[t := y]> l) ≡ₚ held f l.
Proof. intros L E. apply (held_insert_same f l t x y L). by rewrite E. Qed.

(** A step that moves readers only. *)
Lemma placed_readers w m t x y d s' :
  placed w m -> fm_threads m !! t = Some x -> frame d (fm_fs m) s' -> freshOf x = freshOf y -> pendingOf x = pendingOf y ->
  (forall k, d k = times k (readersOf y) - times k (readersOf x)) ->
  (forall id, id ∈ readersOf y -> (exists c path, w id = InCache c path) \/ w id = Pending) ->
  placed w (MkFsMachine s' (<[t := y]> (fm_threads m)) (fm_released m ++ [])).
Proof.
  intros P L F Ef Ep Hd Hy. rewrite app_nil_r. destruct P as [Pc Pf Pp Pr Nf Np Nr Prd Pn Pg].
  destruct (held_insert readersOf _ _ _ y L) as (rest & E1 & E2).
  split; cbn [fm_fs fm_threads fm_released].
  - intros c path id. rewrite (frame_cacheAt _ _ _ c F). apply Pc.
  - intros id. rewrite (held_same freshOf _ _ _ _ L Ef). apply Pf.
  - intros id. rewrite (held_same pendingOf _ _ _ _ L Ep). apply Pp.
  - exact Pr.
  - by rewrite (held_same freshOf _ _ _ _ L Ef).
  - by rewrite (held_same pendingOf _ _ _ _ L Ep).
  - exact Nr.
  - intros id. rewrite E2, elem_of_app. intros [H|H]; [by apply Hy|]. apply Prd. rewrite E1, elem_of_app. by right.
  - intros id. rewrite (fr_readers _ _ _ F), Pn, (times_perm _ _ _ E1), (times_perm _ _ _ E2), !times_app, Hd. lia.
  - intros id H. pose proof (fr_length _ _ _ F). specialize (Pg _ H). lia.
Qed.

Definition moveTo (ids : list nat) (p : nat -> place) (w : nat -> place) (k : nat) : place := if decide (k ∈ ids) then p k else w k.

Lemma moveTo_in ids p w k : k ∈ ids -> moveTo ids p w k = p k.
Proof. intros H. unfold moveTo. by rewrite decide_True. Qed.
Lemma moveTo_out ids p w k : k ∉ ids -> moveTo ids p w k = w k.
Proof. intros H. unfold moveTo. by rewrite decide_False. Qed.
Lemma moveTo_ne id p w k q : w k = q -> w id <> q -> moveTo [id] p w k = q.
Proof. intros E N. rewrite moveTo_out; [done|]. intros H%list_elem_of_singleton. congruence. Qed.

(** A file has been opened. *)
Lemma placed_opened w m t x id ctx path range e s' :
  placed w m -> fm_threads m !! t = Some x -> freshOf x = [] -> pendingOf x = [] -> readersOf x = [] -> frame still (fm_fs m) s' ->
  (length (fs_files (fm_fs m)) <= id < length (fs_files s'))%nat ->
  placed (moveTo [id] (fun _ => Fresh) w) (MkFsMachine s' (<[t := Opened ctx path range e id]> (fm_threads m)) (fm_released m ++ [])).
Proof.
  intros P L Ef Ep Er F Hid. rewrite app_nil_r. destruct P as [Pc Pf Pp Pr Nf Np Nr Prd Pn Pg].
  assert (w id = Nowhere) as Wn.
  { destruct (w id) eqn:E; [done|..]; assert (id < length (fs_files (fm_fs m)))%nat by (apply Pg; congruence); lia. }
  destruct (held_insert freshOf _ _ _ (Opened ctx path range e id) L) as (rest & E1 & E2). rewrite Ef in E1. cbn [app freshOf] in E1, E2.
  assert (held readersOf (<[t := Opened ctx path range e id]> (fm_threads m)) ≡ₚ held readersOf (fm_threads m)) as Erd by (by eapply held_same).
  split; cbn [fm_fs fm_threads fm_released].
  - intros c p k. rewrite (frame_cacheAt _ _ _ c F). intros K. apply moveTo_ne; [by apply Pc|congruence].
  - intros k. rewrite E2, elem_of_cons. intros [->|K]; [apply moveTo_in; set_solver|]. apply moveTo_ne; [apply Pf; by rewrite E1|congruence].
  - intros k. rewrite (held_same pendingOf _ _ _ (Opened ctx path range e id) L Ep). intros K. apply moveTo_ne; [by apply Pp|congruence].
  - intros k K. apply moveTo_ne; [by apply Pr|congruence].
  - rewrite E2. constructor; [|by rewrite <- E1]. rewrite <- E1. intros K%Pf. congruence.
  - by rewrite (held_same pendingOf _ _ _ (Opened ctx path range e id) L Ep).
  - exact Nr.
  - intros k. rewrite Erd. intros K. destruct (Prd _ K) as [(c & p & E)|E].
    + left. exists c, p. apply moveTo_ne; congruence.
    + right. apply moveTo_ne; congruence.
  - intros k. by rewrite (fr_readers _ _ _ F), Pn, (times_perm _ _ _ Erd), Z.add_0_r.
  - intros k. unfold moveTo. case_decide as D; [apply list_elem_of_singleton in D; lia|]. intros K%Pg. pose proof (fr_length _ _ _ F). lia.
Qed.

(** The opened file enters a cache. *)
Lemma placed_inserted w m t ctx path range e id s' :
  placed w m -> fm_threads m !! t = Some (Opened ctx path range e id) -> cacheAt (nameOf e) (fm_fs m) !! path = None ->
  frame (one id) (set_cacheOf e (<[path := id]> (cacheAt (nameOf e) (fm_fs m))) (fm_fs m)) s' ->
  placed (moveTo [id] (fun _ => InCache (nameOf e) path) w)
    (MkFsMachine s' (<[t := Serving ctx range e id]> (fm_threads m)) (fm_released m ++ [])).
Proof.
  intros P L Ec F. rewrite app_nil_r. destruct P as [Pc Pf Pp Pr Nf Np Nr Prd Pn Pg].
  destruct (held_insert freshOf _ _ _ (Serving ctx range e id) L) as (rest & E1 & E2). cbn [app freshOf] in E1, E2.
  destruct (held_insert readersOf _ _ _ (Serving ctx range e id) L) as (rd & R1 & R2). cbn [app readersOf] in R1, R2.
  assert (w id = Fresh) as Wf by (apply Pf; rewrite E1; set_solver).
  rewrite E1 in Nf. apply NoDup_cons in Nf as [Nid Nf].
  split; cbn [fm_fs fm_threads fm_released].
  - intros c p k. rewrite (frame_cacheAt _ _ _ c F), cacheAt_set. case_decide as Dc.
    + subst c. rewrite lookup_insert_Some. intros [[<- <-]|[Dp K]]; [apply moveTo_in; set_solver|].
      apply moveTo_ne; [by apply Pc|congruence].
    + intros K. apply moveTo_ne; [by apply Pc|congruence].
  - intros k. rewrite E2. intros K. rewrite moveTo_out by set_solver. apply Pf. rewrite E1. set_solver.
  - intros k. rewrite (held_same pendingOf _ _ _ (Serving ctx range e id) L eq_refl). intros K. apply moveTo_ne; [by apply Pp|congruence].
  - intros k K. apply moveTo_ne; [by apply Pr|congruence].
  - by rewrite E2.
  - by rewrite (held_same pendingOf _ _ _ (Serving ctx range e id) L eq_refl).
  - exact Nr.
  - intros k. rewrite R2, elem_of_cons. intros [->|K]; [left; exists (nameOf e), path; apply moveTo_in; set_solver|].
    rewrite <- R1 in K. destruct (Prd _ K) as [(c & p & E)|E].
    + left. exists c, p. apply moveTo_ne; congruence.
    + right. apply moveTo_ne; congruence.
  - intros k. rewrite (fr_readers _ _ _ F). unfold readers at 1. rewrite set_cacheOf_files. fold (readers (fm_fs m) k).
    rewrite Pn, (times_perm _ _ _ R1), (times_perm _ _ _ R2). change (id :: rd) with ([id] ++ rd). rewrite times_app, times_one. lia.
  - intros k. pose proof (fr_length _ _ _ F) as Hl. rewrite set_cacheOf_files in Hl.
    unfold moveTo. case_decide as D; [apply list_elem_of_singleton in D; subst; intros _; assert (id < length (fs_files (fm_fs m)))%nat by (apply Pg; congruence); lia|].
    intros K%Pg. lia.
Qed.

(** Another goroutine was faster: the opened file is released. *)
Lemma placed_lost w m t ctx path range e id id1 s' :
  placed w m -> fm_threads m !! t = Some (Opened ctx path range e id) -> cacheAt (nameOf e) (fm_fs m) !! path = Some id1 ->
  frame (one id1) (fm_fs m) s' ->
  placed (moveTo [id] (fun _ => Released) w)
    (MkFsMachine s' (<[t := Serving ctx range e id1]> (fm_threads m)) (fm_released m ++ if decide (id1 = id) then [] else [id])).
Proof.
  intros P L Ec F. destruct P as [Pc Pf Pp Pr Nf Np Nr Prd Pn Pg].
  destruct (held_insert freshOf _ _ _ (Serving ctx range e id1) L) as (rest & E1 & E2). cbn [app freshOf] in E1, E2.
  destruct (held_insert readersOf _ _ _ (Serving ctx range e id1) L) as (rd & R1 & R2). cbn [app readersOf] in R1, R2.
  assert (w id = Fresh) as Wf by (apply Pf; rewrite E1; set_solver).
  pose proof (Pc _ _ _ Ec) as W1. rewrite decide_False by congruence.
  rewrite E1 in Nf. apply NoDup_cons in Nf as [Nid Nf].
  split; cbn [fm_fs fm_threads fm_released].
  - intros c p k. rewrite (frame_cacheAt _ _ _ c F). intros K. apply moveTo_ne; [by apply Pc|congruence].
  - intros k. rewrite E2. intros K. rewrite moveTo_out by set_solver. apply Pf. rewrite E1. set_solver.
  - intros k. rewrite (held_same pendingOf _ _ _ (Serving ctx range e id1) L eq_refl). intros K. apply moveTo_ne; [by apply Pp|congruence].
  - intros k. rewrite elem_of_app. intros [K|K]; [apply moveTo_ne; [by apply Pr|congruence]|by apply moveTo_in].
  - by rewrite E2.
  - by rewrite (held_same pendingOf _ _ _ (Serving ctx range e id1) L eq_refl).
  - apply NoDup_app. split; [exact Nr|]. split; [|apply NoDup_singleton]. intros k K%Pr Hk%list_elem_of_singleton. congruence.
  - intros k. rewrite R2, elem_of_cons. intros [->|K]; [left; exists (nameOf e), path; apply moveTo_ne; congruence|].
    rewrite <- R1 in K. destruct (Prd _ K) as [(c & p & E)|E].
    + left. exists c, p. apply moveTo_ne; congruence.
    + right. apply moveTo_ne; congruence.
  - intros k. rewrite (fr_readers _ _ _ F), Pn, (times_perm _ _ _ R1), (times_perm _ _ _ R2). change (id1 :: rd) with ([id1] ++ rd).
    rewrite times_app, times_one. lia.
  - intros k. pose proof (fr_length _ _ _ F) as Hl.
    unfold moveTo. case_decide as D; [apply list_elem_of_singleton in D; subst; intros _; assert (id < length (fs_files (fm_fs m)))%nat by (apply Pg; congruence); lia|].
    intros K%Pg. lia.
Qed.

Lemma elem_of_goneIds s id : id ∈ goneIds s <-> exists c k, (k, id) ∈ gone s c.
Proof.
  unfold goneIds. rewrite !elem_of_app. assert (forall c, id ∈ map snd (gone s c) <-> exists k, (k, id) ∈ gone s c) as H.
  { intros c. change (id ∈ snd <$> gone s c <-> exists k, (k, id) ∈ gone s c). rewrite list_elem_of_fmap. split.
    - intros ([k id'] & -> & K). by exists k.
    - intros [k K]. by exists (k, id). }
  rewrite !H. split.
  - intros [[k K]|[[k K]|[k K]]]; eauto.
  - intros ([] & k & K); eauto.
Qed.

Lemma goneIds_nodup w m : placed w m -> NoDup (goneIds (fm_fs m)).
Proof.
  intros P. assert (forall c k id, (k, id) ∈ gone (fm_fs m) c -> w id = InCache c k) as W by (intros c k id H; by eapply pl_cache, elem_of_gone).
  assert (forall c, NoDup (map snd (gone (fm_fs m) c))) as N.
  { intros c. apply (gone_nodup _ _ (fun id => match w id with InCache _ k => k | _ => [] end)). intros k id E. by rewrite (pl_cache _ _ P _ _ _ E). }
  assert (forall c c' id, c <> c' -> id ∈ map snd (gone (fm_fs m) c) -> id ∉ map snd (gone (fm_fs m) c')) as Dj.
  { intros c c' id D H1 H2. apply list_elem_of_fmap in H1 as ([k i] & -> & H1). apply list_elem_of_fmap in H2 as ([k' i'] & E & H2). cbn in E. subst i'.
    apply W in H1, H2. congruence. }
  unfold goneIds. apply NoDup_app. split; [apply N|]. split; [|apply NoDup_app; split; [apply N|split; [|apply N]]].
  - intros id H. rewrite elem_of_app. intros [K|K]; (eapply Dj; [|exact H|exact K]); done.
  - intros id H K. by eapply (Dj CBrotli CGzip).
Qed.

Lemma elem_of_lfilter {A} (f : A -> bool) l x : x ∈ List.filter f l <-> x ∈ l /\ f x = true.
Proof. rewrite !list_elem_of_In. apply List.filter_In. Qed.

(** The caches are cleaned. *)
Lemma placed_cleaned w m t pending s' :
  placed w m -> fm_threads m !! t = Some (Cleaning pending) ->
  frame still (cleanCaches h (fm_fs m) pending).1.1 s' ->
  placed (moveTo (pending ++ goneIds (fm_fs m)) (fun k => if inUse (fm_fs m) k then Pending else Released) w)
    (MkFsMachine s' (<[t := Cleaning (cleanCaches h (fm_fs m) pending).1.2]> (fm_threads m)) (fm_released m ++ (cleanCaches h (fm_fs m) pending).2)).
Proof.
  intros P L. pose proof (goneIds_nodup _ _ P) as Ng. rewrite cleanCaches_eq. cbn [fst snd]. set (l := pending ++ goneIds (fm_fs m)). intros F.
  destruct P as [Pc Pf Pp Pr Nf Np Nr Prd Pn Pg].
  destruct (held_insert pendingOf _ _ _ (Cleaning (List.filter (inUse (fm_fs m)) l)) L) as (rest & E1 & E2). cbn [pendingOf] in E1, E2.
  assert (forall k, k ∈ l -> w k = Pending \/ exists c p, (p, k) ∈ gone (fm_fs m) c /\ w k = InCache c p) as Wl.
  { intros k. unfold l. rewrite elem_of_app. intros [K|K].
    - left. apply Pp. rewrite E1, elem_of_app. by left.
    - right. apply elem_of_goneIds in K as (c & p & K). exists c, p. split; [done|]. by eapply Pc, elem_of_gone. }
  rewrite E1 in Np. apply NoDup_app in Np as (Np1 & Np2 & Np3).
  assert (NoDup l) as Nl.
  { apply NoDup_app. split; [done|]. split; [|done]. intros k K Kg. apply elem_of_goneIds in Kg as (c & p & Kg). apply elem_of_gone in Kg.
    apply Pc in Kg. rewrite (Pp k) in Kg; [done|]. rewrite E1, elem_of_app. by left. }
  assert (forall c, cacheAt c s' = dropAll (gone (fm_fs m) c) (cacheAt c (fm_fs m))) as Hc by (intros c; rewrite (frame_cacheAt _ _ _ c F); by destruct c).
  split; cbn [fm_fs fm_threads fm_released].
  - intros c p k. rewrite Hc. intros [K Nk]%lookup_dropAll. apply Pc in K. rewrite moveTo_out; [done|].
    intros Kl. destruct (Wl _ Kl) as [E|(c' & p' & Hg & E)]; [congruence|]. assert (c' = c /\ p' = p) as [-> ->] by (split; congruence).
    apply Nk. apply list_elem_of_fmap. by exists (p, k).
  - intros k. rewrite (held_same freshOf _ _ _ (Cleaning (List.filter (inUse (fm_fs m)) l)) L eq_refl). intros K%Pf. rewrite moveTo_out; [done|].
    intros Kl. destruct (Wl _ Kl) as [E|(c' & p' & _ & E)]; congruence.
  - intros k. rewrite E2, elem_of_app. intros [K|K].
    + apply elem_of_lfilter in K as [K U]. rewrite moveTo_in by done. by rewrite U.
    + assert (w k = Pending) as Wk by (apply Pp; rewrite E1, elem_of_app; by right). rewrite moveTo_out; [done|]. unfold l. rewrite elem_of_app.
      intros [K'|K']; [by apply (Np2 k)|]. apply elem_of_goneIds in K' as (c & p & K'). apply elem_of_gone, Pc in K'. congruence.
  - intros k. rewrite elem_of_app. intros [K|K].
    + apply Pr in K. rewrite moveTo_out; [done|]. intros Kl. destruct (Wl _ Kl) as [E|(c' & p' & _ & E)]; congruence.
    + apply elem_of_lfilter in K as [K U]. rewrite moveTo_in by done. by destruct (inUse (fm_fs m) k).
  - by rewrite (held_same freshOf _ _ _ (Cleaning (List.filter (inUse (fm_fs m)) l)) L eq_refl).
  - rewrite E2. apply NoDup_app. split; [by apply NoDup_ListNoDup, List.NoDup_filter, NoDup_ListNoDup|]. split; [|done].
    intros k [K _]%elem_of_lfilter Kr. unfold l in K. rewrite elem_of_app in K. destruct K as [K|K]; [by apply (Np2 k)|].
    apply elem_of_goneIds in K as (c & p & K). apply elem_of_gone, Pc in K. rewrite (Pp k) in K; [done|]. rewrite E1, elem_of_app. by right.
  - apply NoDup_app. split; [done|]. split; [|by apply NoDup_ListNoDup, List.NoDup_filter, NoDup_ListNoDup].
    intros k K%Pr [Kl _]%elem_of_lfilter. destruct (Wl _ Kl) as [E|(c' & p' & _ & E)]; congruence.
  - intros k. rewrite (held_same readersOf _ _ _ (Cleaning (List.filter (inUse (fm_fs m)) l)) L eq_refl). intros K.
    unfold moveTo. case_decide as D; [|by apply Prd]. right. assert (inUse (fm_fs m) k = true) as ->; [|done].
    apply times_pos in K. rewrite <- Pn in K. unfold readers in K. unfold inUse. destruct (fs_files (fm_fs m) !! k); [by apply Z.ltb_lt|lia].
  - intros k. rewrite (fr_readers _ _ _ F), (times_perm _ _ _ (held_same readersOf _ _ _ (Cleaning (List.filter (inUse (fm_fs m)) l)) L eq_refl)), <- Pn.
    change (readers (fm_fs m) k + 0 = readers (fm_fs m) k). lia.
  - intros k Hk. pose proof (fr_length _ _ _ F) as Hl. cbn in Hl. assert (k < length (fs_files (fm_fs m)))%nat; [|lia]. apply Pg.
    unfold moveTo in Hk. case_decide as D; [|exact Hk]. destruct (Wl _ D) as [->|(c & p & _ & ->)]; done.
Qed.

Lemma placed_world w m d now : placed w m -> placed w (MkFsMachine (set_world d now (fm_fs m)) (fm_threads m) (fm_released m)).
Proof. by intros []. Qed.

Lemma placed_step w m t a m' : placed w m -> step t a m = To m' -> exists w', placed w' m'.
Proof.
  intros P. unfold step, fsMachine_step. destruct a as [base|d now]; [|intros [= <-]; exists w; by apply placed_world].
  destruct (fm_threads m !! t) as [th|] eqn:L; [|done]. destruct (fsThread_go base th (fm_fs m)) as [[s' [[y rel]|]]|] eqn:E; [|done..].
  intros [= <-]. destruct th as [ctx path range e slash must|ctx path range e slash must|ctx path range e id|ctx range e id|ctx r|ctx|pending];
    cbn [fsThread_go] in E; [..|done|].
  - apply bind_inv in E as (s1 & r & E1 & E). injection E as <- <- <-. apply lookup_inv in E1 as [Er F]. exists w.
    destruct r as [id|]; (eapply placed_readers; [exact P|exact L|exact F|done|done| |]); cbn [readersOf].
    + intros k. unfold times at 2. cbn. rewrite times_one. lia.
    + intros k K%list_elem_of_singleton. subst. left. exists (nameOf e), path. by eapply pl_cache.
    + done.
    + intros k K. by apply not_elem_of_nil in K.
  - apply bind_inv in E as (s1 & r & E1 & E). injection E as <- <- <-.
    destruct (opens_openMissing (length (fs_files (fm_fs m))) None _ _ _ _ _ _ _ _ _ (Nat.le_refl _) (fun k H => match H with eq_refl => I end) E1) as [F Hr].
    destruct r as [[ctx' id]|ctx'].
    + eexists. eapply placed_opened; [exact P|exact L|done|done|done|exact F|by apply Hr].
    + exists w. eapply placed_readers; [exact P|exact L|exact F|done|done|done|]. intros k K. by apply not_elem_of_nil in K.
  - apply bind_inv in E as (s1 & id' & E1 & E). injection E as <- <- <-. apply insert_inv in E1.
    destruct (cacheAt (nameOf e) (fm_fs m) !! path) as [id1|] eqn:Ec; destruct E1 as [-> F].
    + eexists. by eapply placed_lost.
    + rewrite decide_True by done. eexists. by eapply placed_inserted.
  - apply bind_inv in E as (s1 & [ctx' r] & E1 & E). injection E as <- <- <-. apply moves_serveFile in E1 as [F Hr]. exists w.
    assert (id ∈ held readersOf (fm_threads m)) as Hid.
    { apply elem_of_held. exists t, (Serving ctx range e id). split; [done|]. cbn. set_solver. }
    destruct r as [r|]; cbn [snd] in *; (eapply placed_readers; [exact P|exact L|exact F|done|done| |]); cbn [readersOf].
    + rewrite Hr. intros k. unfold still. lia.
    + rewrite Hr. intros k K%list_elem_of_singleton. subst. by eapply pl_readers.
    + intros k. unfold less. rewrite times_one. unfold times. cbn. lia.
    + intros k K. by apply not_elem_of_nil in K.
  - apply bind_inv in E as (s1 & r1 & E1 & E). injection E as <- <- <-. apply moves_Close in E1 as [F _]. exists w.
    eapply placed_readers; [exact P|exact L|exact F|done|done| |]; cbn [readersOf].
    + intros k. unfold less. rewrite times_one. unfold times. cbn. lia.
    + intros k K. by apply not_elem_of_nil in K.
  - destruct (cleanCaches h (fm_fs m) pending) as [[s1 p1] r1] eqn:Ec. apply bind_inv in E as (s2 & [] & E1 & E). injection E as <- <- <-.
    apply releaseAll_still in E1. eexists. pose proof (placed_cleaned w m t pending s2 P L) as H. rewrite Ec in H. by apply H.
Qed.

(** A start: no file is open, no request has begun. *)
Definition atStart (m : fsMachine) : Prop :=
  fs_files (fm_fs m) = [] /\ (forall c, cacheAt c (fm_fs m) = ∅) /\ fm_released m = [] /\
  Forall (fun th => match th with Asking _ _ _ _ _ _ => True | Cleaning p => p = [] | _ => False end) (fm_threads m).

Lemma placed_start m : atStart m -> placed (fun _ => Nowhere) m.
Proof.
  intros (Ef & Ec & Er & Ft).
  assert (held readersOf (fm_threads m) = [] /\ held freshOf (fm_threads m) = [] /\ held pendingOf (fm_threads m) = []) as (H1 & H2 & H3).
  { induction Ft as [|th l Ht Ft (I1 & I2 & I3)]; [done|]. unfold held in *. cbn [map concat]. rewrite I1, I2, I3.
    destruct th; try done. by subst. }
  split; rewrite ?H1, ?H2, ?H3, ?Er; try apply NoDup_nil_2; try (intros id K; by apply not_elem_of_nil in K).
  - intros c path id. by rewrite Ec, lookup_empty.
  - intros id. unfold readers. by rewrite Ef.
  - done.
Qed.

Lemma placed_reachable m0 m : atStart m0 -> reachable m0 m -> exists w, placed w m.
Proof.
  intros Hs. apply (reachable_invariant (fun m => exists w, placed w m)); [by eexists; apply placed_start|].
  intros t a m1 m2 [w P] E. by eapply placed_step.
Qed.

Definition readIn (m : fsMachine) (id : nat) : Prop := id ∈ held readersOf (fm_threads m).

(** ** A request alone

    The steps of one request, with nothing in between, are handleRequest. *)

Definition beginRequest (ctx : RequestCtx) : option (fsThread) :=
  '(ctx, path) ← (match h_pathRewrite h with Some pathRewrite => pathRewrite ctx | None => Some (RequestCtx_Path ctx) end);
  let hasTrailingSlash := bool_decide (last path = Some "/"%byte) in
  let path := stripTrailingSlashes path in
  match IndexByte path x00 with
  | Some _ => Some (Finished (RequestCtx_Error ctx (bs "Are you a hacker?") StatusBadRequest))
  | None =>
      if (match h_pathRewrite h with Some _ => bool_decide (Index path strSlashDotDotSlash <> None) | None => false end)
      then Some (Finished (RequestCtx_Error ctx (bs "Internal Server Error") StatusInternalServerError))
      else
        let byteRange := default [] (RequestHeader_peek (req_Header (cx_Request ctx)) strRange) in
        let '(mustCompress, fileEncoding) := chooseEncoding h ctx byteRange in
        Some (Asking ctx path byteRange fileEncoding hasTrailingSlash mustCompress)
  end.

Fixpoint goOn (n : nat) (base : URI) (th : fsThread) : fsM (RequestCtx * option fsReader) :=
  match th, n with
  | Writing ctx r, _ => mret (ctx, Some r)
  | Finished ctx, _ => mret (ctx, None)
  | _, S n => r ← fsThread_go base th; match r with Some (th, _) => goOn n base th | None => panics None end
  | _, O => panics None
  end.

Lemma goOn_S n base th :
  (forall ctx, th <> Finished ctx) -> (forall ctx r, th <> Writing ctx r) ->
  goOn (S n) base th = (r ← fsThread_go base th; match r with Some (th, _) => goOn n base th | None => panics None end).
Proof. intros H1 H2. destruct th as [| | | |ctx r|ctx|]; try done; [by destruct (H2 ctx r)|by destruct (H1 ctx)]. Qed.

Lemma bind_eq {A B} (m : fsM A) (f : A -> fsM B) s : (m ≫= f) s = match m s with Some (s1, a) => f a s1 | None => None end.
Proof. unfold mbind, fsM_bind. by destruct (m s) as [[s1 a]|]. Qed.

Lemma goOn_Serving n base ctx range e id s : goOn (S n) base (Serving ctx range e id) s = fsHandler_serveFile h ctx id range e s.
Proof.
  rewrite goOn_S by done. cbn [fsThread_go]. rewrite !bind_eq.
  destruct (fsHandler_serveFile h ctx id range e s) as [[s1 [ctx1 [r|]]]|]; [| |done]; by destruct n.
Qed.

Lemma goOn_Opened n base ctx path range e id s :
  goOn (S (S n)) base (Opened ctx path range e id) s = (id ← cacheInsert e path id; fsHandler_serveFile h ctx id range e) s.
Proof.
  rewrite goOn_S by done. cbn [fsThread_go]. rewrite !bind_eq. destruct (cacheInsert e path id s) as [[s1 id']|]; [|done].
  cbn [mret fsM_ret]. apply goOn_Serving.
Qed.

Lemma goOn_Opening n base ctx path range e slash must s :
  goOn (S (S (S n))) base (Opening ctx path range e slash must) s =
  (opened ← fsHandler_openMissing h base ctx path slash must e;
   match opened with
   | inr ctx => mret (ctx, None)
   | inl (ctx, id) => id ← cacheInsert e path id; fsHandler_serveFile h ctx id range e
   end) s.
Proof.
  rewrite goOn_S by done. cbn [fsThread_go]. rewrite !bind_eq.
  destruct (fsHandler_openMissing h base ctx path slash must e s) as [[s1 [[ctx1 id]|ctx1]]|]; [|done|done].
  cbn [mret fsM_ret]. apply goOn_Opened.
Qed.

Lemma handleRequest_steps base ctx s :
  fsHandler_handleRequest h base ctx s = match beginRequest ctx with Some th => goOn 4 base th s | None => None end.
Proof.
  unfold fsHandler_handleRequest, beginRequest. rewrite bind_eq.
  destruct (match h_pathRewrite h with Some _ => _ | None => _ end) as [[ctx0 path0]|]; [|done].
  cbn [panics mbind option_bind]. cbv zeta.
  destruct (IndexByte (stripTrailingSlashes path0) x00); [done|]. destruct (match h_pathRewrite h with Some _ => _ | None => _ end); [done|].
  destruct (chooseEncoding h ctx0 _) as [must e]. rewrite goOn_S by done. cbn [fsThread_go]. rewrite !bind_eq.
  destruct (cacheLookup e (stripTrailingSlashes path0) s) as [[s1 [id|]]|]; [| |done]; cbn [mret fsM_ret].
  - by rewrite goOn_Serving.
  - by rewrite goOn_Opening.
Qed.

End Cache.

(** * Properties *)

(** C13. The cache of open files is safe, whatever requests there are, however they
    interleave with each other and with the goroutine that cleans the caches, and
    whatever the file system answers: the number of readers of every file is the
    number of requests that hold it; a file that is cached or read by a request
    has not been released, its counter is positive while it is read, and no file
    is released twice. *)
Theorem open_files_released_once {HL : HttpLib} {SL : ServerLib} {TL : TimeLib} {OL : OsLib} (h : fsHandler) (m0 m : fsMachine)
    (Hs : atStart m0) (R : @reachable _ _ (fsMachine_step h) m0 m) :
  NoDup (fm_released m) /\
  (forall id, readIn m id -> (id ∉ fm_released m) /\ 0 < readers (fm_fs m) id) /\
  (forall c path id, cacheAt c (fm_fs m) !! path = Some id -> (id ∉ fm_released m) /\ (id < length (fs_files (fm_fs m)))%nat) /\
  (forall id, readers (fm_fs m) id = times id (held readersOf (fm_threads m))).
Proof.
  destruct (placed_reachable h m0 m Hs R) as [w P]. split; [apply P|]. split; [|split; [|apply P]].
  - intros id K. split.
    + intros Kr. apply (pl_released _ _ P) in Kr. destruct (pl_readers _ _ P _ K) as [(c & p & E)|E]; congruence.
    + rewrite (pl_count _ _ P). by apply times_pos.
  - intros c path id K. pose proof (pl_cache _ _ P _ _ _ K) as E. split.
    + intros Kr. apply (pl_released _ _ P) in Kr. congruence.
    + apply (pl_range _ _ P). congruence.
Qed.

Definition sampleAsking : @fsThread plainLib plainServerLib unixTime plainOs := Asking (getCtx (bs "/a.txt")) (bs "/a.txt") [] [] false false.
Definition sampleMachine : @fsMachine plainLib plainServerLib unixTime plainOs :=
  MkFsMachine (plainState sampleDisk) [sampleAsking; sampleAsking; Cleaning []] [].
Definition go : @fsAction unixTime plainOs := AGo emptyURI.

(** Two requests open the same file; one of the two is released at once, the other,
    stale by then, when both responses have been written. *)
Definition sampleSchedule : list (nat * @fsAction unixTime plainOs) :=
  [(0, go); (1, go); (0, go); (1, go); (0, go); (1, go); (2, AWorld sampleDisk (100%Z : @Time unixTime)); (1, go); (2, go); (0, go); (0, go); (2, go); (1, go); (2, go)]%nat.

Lemma open_files_released_once_witness :
  atStart sampleMachine /\
  match @run _ _ (fsMachine_step (sampleFS None)) sampleSchedule sampleMachine with
  | To m => NoDup (fm_released m)
  | _ => False
  end.
Proof.
  assert (atStart sampleMachine) as Hs.
  { split; [reflexivity|]. split; [intros []; reflexivity|]. split; [reflexivity|].
    unfold sampleMachine. cbn [fm_threads]. apply Forall_cons_2; [exact I|]. apply Forall_cons_2; [exact I|]. apply Forall_cons_2; [reflexivity|apply Forall_nil_2]. }
  split; [exact Hs|]. destruct (@run _ _ (fsMachine_step (sampleFS None)) sampleSchedule sampleMachine) as [| |m] eqn:E.
  1,2: assert (match @run _ _ (fsMachine_step (sampleFS None)) sampleSchedule sampleMachine with To _ => true | _ => false end = true) as N
         by (vm_compute; reflexivity); rewrite E in N; discriminate N.
  exact (proj1 (open_files_released_once (sampleFS None) sampleMachine m Hs (run_reachable _ _ _ E))).
Defined.

(** What that schedule releases, in order. *)
Lemma sampleSchedule_released :
  match @run _ _ (fsMachine_step (sampleFS None)) sampleSchedule sampleMachine with To m => fm_released m | _ => [] end = [1; 0]%nat.
Proof. vm_compute. reflexivity. Qed.
