(* ===== verification/FsHazards.v ===== *)
(** * fs.go: what goes wrong

    A request that panics, and the corners of path rewriting, redirects, compressed
    files and descriptors, each shown on a concrete file system. *)
From Stdlib Require Import Strings.String.
From stdpp Require Import gmap.
From S2P Require Import Prelude BytesConv Consts Args Uri Cookie HeaderScan RequestHeader ResponseHeader Bufio Body HeaderRead Http UserData Streaming RequestCtx Server ServerSafety Fs FsRange FsPaths FsServe.

Section Empty.
Context {HL : HttpLib} {SL : ServerLib} {TL : TimeLib} {OL : OsLib} (h : fsHandler) (Seek : forall f n, 0 <= n -> f_Seek f n = None).

Lemma SetContentRange_negative hdr a b n : 0 <= a <= maxInt -> b < 0 -> ResponseHeader_SetContentRange hdr a b n = None.
Proof.
  intros Ha Hb. unfold ResponseHeader_SetContentRange. destruct (AppendUint_spec (strBytes ++ [" "%byte]) a Ha) as (d & -> & _).
  cbn [mbind option_bind]. assert (forall dst, AppendUint dst b = None) as E; [|by rewrite E].
  intros dst. unfold AppendUint. by rewrite (proj2 (Z.ltb_lt b 0)).
Qed.

(** A suffix range, before it is cut to the file. *)
Lemma suffix_of_empty k : 0 <= k <= maxInt -> ParseByteRange (rangeText (Suffix k)) 0 = inl (0, -1).
Proof.
  intros Hk. change (ParseByteRange (rangeText (Suffix k)) 0) with (rangeBody ("-"%byte :: fmtInt k) 0). rewrite rangeBody_eq.
  change (IndexByte ("-"%byte :: fmtInt k) "-") with (Some 0%nat). cbv iota. change (drop 1 ("-"%byte :: fmtInt k)) with (fmtInt k).
  rewrite ParseUint_fmtInt by done. do 2 f_equal. destruct (Z.ltb_spec (0 - k) 0); lia.
Qed.

Lemma serveFile_empty ctx id ff s k e :
  regular id ff [] s -> h_acceptByteRange h = true -> 0 <= k <= maxInt -> RequestCtx_IfModifiedSince ctx (ff_lastModified ff) = true ->
  fsHandler_serveFile h ctx id (rangeText (Suffix k)) e s = None.
Proof.
  intros Rg Ha Hk Hi. pose proof Rg as [L _ El _ _]. unfold fsHandler_serveFile.
  rewrite (run_bind _ _ _ _ _ (run_getFile _ _ _ L)). rewrite Hi. cbn [negb].
  destruct (run_NewReader Seek _ _ _ _ Rg) as (s1 & r & ff1 & E1 & _ & _ & _ & _ & Up). rewrite (run_bind _ _ _ _ _ E1). cbv zeta.
  rewrite Ha. rewrite bool_decide_true by (unfold rangeText; rewrite length_app; cbn; lia). cbn [andb]. rewrite El.
  change (zlen ([] : bytes)) with 0. rewrite suffix_of_empty by done.
  assert (exists r2, fsReader_UpdateByteRange r 0 (-1) = inl r2) as [r2 ->].
  { destruct r; cbn [fsReader_UpdateByteRange]; [by eexists|]. rewrite Seek by done. by eexists. }
  unfold mbind at 1, fsM_bind. unfold mbind at 2, fsM_bind. rewrite SetContentRange_negative by (unfold maxInt; lia). reflexivity.
Qed.

End Empty.

(** * Properties *)

(** C39. A request for the end of an empty file makes the handler panic: when byte
    ranges are accepted, a GET or HEAD for a regular file without a byte with
    [Range: bytes=-k], for any k, ends in the panic of AppendUint on the range's
    end -1, whatever the handler's other options; nothing between the handler and
    the goroutine recovers it. *)
Theorem suffix_range_of_empty_file_panics {HL : HttpLib} {SL : ServerLib} {TL : TimeLib} {OL : OsLib} (Laws : OsLaws)
    (Seek : forall f n, 0 <= n -> f_Seek f n = None)
    (h : fsHandler) (base : URI) (ctx : RequestCtx) (modTime : Time) (s : fsState) (id : nat) (n k : Z)
    (Hr : h_pathRewrite h = None) (Hacc : h_acceptByteRange h = true) (Hz : IndexByte (requested ctx) x00 = None)
    (Ha : available h (requested ctx) [] modTime s id n) (Hp : Forall (fun p => fst p = 0) (fs_readerPool s))
    (Hk : 0 <= k <= maxInt) (Hrange : rangeOf ctx = rangeText (Suffix k)) (Hm : RequestCtx_IfModifiedSince ctx modTime = true) :
  fsHandler_handleRequest h base ctx s = None.
Proof.
  unfold fsHandler_handleRequest. rewrite Hr. unfold requested, rangeOf, RequestCtx_IfModifiedSince in *.
  destruct (RequestCtx_Path_keeps ctx) as [Eh _]. rewrite <- Eh in Hrange, Hm. destruct (RequestCtx_Path ctx) as [ctx0 path0]. cbn [fst snd] in *.
  rewrite (run_bind (panics (Some (ctx0, path0))) _ s s (ctx0, path0) eq_refl). cbv zeta. rewrite Hz, Hrange.
  assert (chooseEncoding h ctx0 (rangeText (Suffix k)) = (false, [])) as ->.
  { unfold chooseEncoding. by rewrite bool_decide_false by (unfold rangeText; rewrite length_app; cbn; lia). }
  destruct (run_available h Seek base ctx0 _ (bool_decide (last path0 = Some "/"%byte)) [] modTime s id n
     (fun ctx id => fsHandler_serveFile h ctx id (rangeText (Suffix k)) []) Ha ltac:(done) Hp) as (s1 & ff & -> & Rg & _ & Em & _).
  rewrite <- Em in Hm. by apply (serveFile_empty h Seek ctx0 id ff s1 k []).
Qed.

Definition emptyFileCtx : @RequestCtx plainLib plainServerLib :=
  on_rqHeader (fun hdr => default hdr (RequestHeader_SetCanonical hdr strRange (bs "bytes=-5"))) (getCtx (bs "/empty.txt")).

Lemma suffix_range_of_empty_file_panics_witness :
  (h_acceptByteRange (sampleFS None) = true /\ requested emptyFileCtx = bs "/empty.txt" /\ rangeOf emptyFileCtx = rangeText (Suffix 5) /\
   available (sampleFS None) (requested emptyFileCtx) [] (7 : @Time unixTime) (plainState sampleDisk) 0 0) /\
  fsHandler_handleRequest (sampleFS None) emptyURI emptyFileCtx (plainState sampleDisk) = None.
Proof.
  assert (h_acceptByteRange (sampleFS None) = true) as Hacc by (vm_compute; reflexivity).
  assert (requested emptyFileCtx = bs "/empty.txt") as Er by (vm_compute; reflexivity).
  assert (rangeOf emptyFileCtx = rangeText (Suffix 5)) as Erange by (vm_compute; reflexivity).
  assert (available (sampleFS None) (requested emptyFileCtx) [] (7 : @Time unixTime) (plainState sampleDisk) 0 0) as Ha.
  { rewrite Er. apply (on_disk (sampleFS None) (bs "/empty.txt") [] (7 : @Time unixTime) (plainState sampleDisk)); [reflexivity|].
    exists (PlainFile (bs "/srv/empty.txt") (bs "empty.txt") [] false 7 []).
    exact (conj eq_refl (conj eq_refl (conj eq_refl (conj eq_refl (conj eq_refl eq_refl))))). }
  split; [exact (conj Hacc (conj Er (conj Erange Ha)))|].
  assert (0 <= 5 <= maxInt) as H5 by (unfold maxInt; lia).
  assert (IndexByte (requested emptyFileCtx) x00 = None) as Hz by (rewrite Er; vm_compute; reflexivity).
  exact (suffix_range_of_empty_file_panics plainOs_laws (fun _ _ _ => eq_refl) (sampleFS None) emptyURI emptyFileCtx (7 : @Time unixTime)
    (plainState sampleDisk) 0 0 5 eq_refl Hacc Hz Ha (Forall_nil_2 _) H5 Erange eq_refl).
Defined.

(** ** On concrete file systems *)

(** The outcome of a request: status, Location or body, what has been opened. *)
Definition outcomeOf (h : @fsHandler plainLib plainServerLib) (uri : bytes) (d : list plainFile) : option (Z * list bytes * Z) :=
  match fsHandler_handleRequest h emptyURI (getCtx uri) (plainState d) with
  | Some (s, (ctx, _)) => Some (ResponseHeader_StatusCode (resp_Header (cx_Response ctx)), fs_opened s, fs_descriptors s)
  | None => None
  end.

(** NewPathPrefixStripper cuts off that many bytes, whatever they are: what is left
    need not start with a slash, and the root then names a sibling directory. *)
Lemma prefixStripper_reaches_sibling :
  outcomeOf (sampleFS (Some (NewPathPrefixStripper 2))) (bs "/p-private/key") sampleDisk = Some (StatusOK, [bs "/srv-private/key"], 1).
Proof. vm_compute. reflexivity. Qed.

(** A rewriter's path that ends in [/../] passes the check for [/../], since the
    trailing slashes have been cut off before. *)
Lemma rewriter_reaches_parent :
  outcomeOf (sampleFS (Some (fun ctx => Some (ctx, bs "/../")))) (bs "/") sampleDisk =
  Some (StatusOK, [bs "/srv/.."; bs "/srv/../index.html"; bs "/srv/.."], 0).
Proof. vm_compute. reflexivity. Qed.

(** The redirect for a directory is to the rewritten path: the stripped prefix is lost. *)
Lemma redirect_loses_prefix :
  match fsHandler_handleRequest (sampleFS (Some (NewPathSlashesStripper 1))) emptyURI (getCtx (bs "/static/d")) (plainState sampleDisk) with
  | Some (_, (ctx, _)) => peekArgBytes (live (rs_h (resp_Header (cx_Response ctx)))) strLocation
  | None => None
  end = Some (bs "http:///d/").
Proof. vm_compute. reflexivity. Qed.

(** When the header of a file cannot be read, its descriptor stays open: here a
    compressed file that is not one. *)
Definition gzipCtx (uri : bytes) : @RequestCtx plainLib plainServerLib :=
  on_rqHeader (fun hdr => default hdr (RequestHeader_SetCanonical hdr strAcceptEncoding (bs "gzip"))) (getCtx uri).
Definition brokenDisk : list plainFile :=
  [PlainFile (bs "/srv/x") (bs "x") (bs "text") false 7 []; PlainFile (bs "/srv/x.fasthttp.gz") (bs "x.fasthttp.gz") (bs "junk") false 7 []].
Definition compressingFS : @fsHandler plainLib plainServerLib :=
  fst (FS_initRequestHandler (MkFS (bs "/srv/") [] false true false true None None 0 [] None) FSCompressedFileSuffixes).

Lemma unreadable_header_leaks :
  match fsHandler_handleRequest compressingFS emptyURI (gzipCtx (bs "/x")) (plainState brokenDisk) with
  | Some (s, (ctx, _)) => (ResponseHeader_StatusCode (resp_Header (cx_Response ctx)), fs_opened s, zlen (map ff_readersCount (fs_files s)), fs_descriptors s)
  | None => (0, [], 0, 0)
  end = (StatusNotFound, [bs "/srv/x.fasthttp.gz"], 0, 1).
Proof. vm_compute. reflexivity. Qed.

(** An FS with a suffix of its own for compressed files, but no map of suffixes,
    changes the suffix of every FS of the program that has none. *)
Lemma own_suffix_is_global :
  let '(h1, global) := FS_initRequestHandler (@MkFS plainLib plainServerLib (bs "/a") [] false true false false None None 0 (bs ".x") None) FSCompressedFileSuffixes in
  suffixAt (default global (h_suffixes h1)) strGzip = bs ".x" /\ suffixAt global strGzip = bs ".x" /\ suffixAt FSCompressedFileSuffixes strGzip = bs ".fasthttp.gz".
Proof. vm_compute. done. Qed.

(** The compressed copy of the root is looked for beside the root: with Compress, a
    request for "/" serves the file "/srv.fasthttp.gz" of a server whose root is
    "/srv"; one that is older than the directory is removed before the index of
    the directory is looked for. *)
Definition besideDisk (rootTime : Z) : list plainFile :=
  [PlainFile (bs "/srv") (bs "srv") [] true rootTime []; PlainFile (bs "/srv.fasthttp.gz") (bs "srv.fasthttp.gz") (bs "gzipbackup") false 7 []].

Definition afterRoot (rootTime : Z) : Z * list bytes * list bytes :=
  match fsHandler_handleRequest compressingFS emptyURI (gzipCtx (bs "/")) (plainState (besideDisk rootTime)) with
  | Some (s, (c, _)) => (ResponseHeader_StatusCode (resp_Header (cx_Response c)), fs_opened s, map f_Name (fs_disk s))
  | None => (0, [], [])
  end.

Lemma copy_of_root_is_beside_it :
  afterRoot 7 = (StatusOK, [bs "/srv.fasthttp.gz"], [bs "/srv"; bs "/srv.fasthttp.gz"]) /\
  afterRoot 9 = (StatusForbidden, [bs "/srv.fasthttp.gz"; bs "/srv"], [bs "/srv"]).
Proof. split; vm_compute; reflexivity. Qed.
