(* ===== verification/Pipeline.v ===== *)
(** * client.go: PipelineClient

    A pipelineConnClient sends requests over one connection without waiting for
    their responses.  Callers put their work into a channel; a goroutine dials
    and starts a writer, which sends the requests and hands the work on through a
    second channel, and a reader, which reads one response for each.  The machine
    has any number of callers and of connection goroutines; work [t] is the work
    of caller [t].  A connection answers what has been flushed, in the order in
    which it was written. *)
From Stdlib Require Import Strings.String.
From stdpp Require Import list_tactics.
From S2P Require Import Prelude BytesConv Consts Args Uri HeaderScan RequestHeader Http Machine.

(** ** The balance over connections *)

Definition DefaultMaxPendingRequests : Z := 1024.

(** getConnClientUnlocked, given the pending requests of each connection: the
    index of the one to use, or [None] to make a new one. *)
Fixpoint leastPending (i minCC : nat) (minReqs : Z) (pending : list Z) : (nat + nat) :=
  match pending with
  | [] => inr minCC
  | reqs :: pending =>
      if reqs =? 0 then inl i
      else if reqs <? minReqs then leastPending (S i) i reqs pending else leastPending (S i) minCC minReqs pending
  end.

Definition getConnClientUnlocked (MaxConns : Z) (pending : list Z) : option nat :=
  match pending with
  | [] => None
  | minReqs :: rest =>
      if minReqs =? 0 then Some O
      else
        match leastPending 1 0 minReqs rest with
        | inl cc => Some cc
        | inr minCC =>
            let maxConns := if MaxConns <=? 0 then 1 else MaxConns in
            if zlen pending <? maxConns then None else Some minCC
        end
  end.

Definition PipelineClient_PendingRequests (pending : list Z) : Z := fold_left Z.add pending 0.

(** What Do and DoDeadline change in the request before it is queued. *)
Definition pipeline_getClientName (Name : bytes) (NoDefaultUserAgentHeader : bool) : bytes :=
  if decide (length Name = O) then if NoDefaultUserAgentHeader then [] else defaultUserAgent else Name.

Definition pipelinePrepare `{HttpLib} (DisablePathNormalizing : bool) (clientName : bytes) (req : Request) : Request :=
  let req := if DisablePathNormalizing
             then let '(x, u) := Request_URI req in set_req_uri (set_u_DisablePathNormalizing true u) x else req in
  if decide (length (RequestHeader_UserAgent (req_Header req)) = O)
  then set_req_Header (set_rq_userAgent clientName (req_Header req)) req else req.

Lemma leastPending_spec pending : forall i minCC minReqs before,
  before !! minCC = Some minReqs -> Forall (fun r => minReqs <= r) before -> Forall (fun r => 0 < r) before -> Forall (fun r => 0 <= r) pending -> i = length before ->
  match leastPending i minCC minReqs pending with
  | inl k => (before ++ pending) !! k = Some 0
  | inr k => (exists r, (before ++ pending) !! k = Some r /\ Forall (fun x => r <= x) (before ++ pending)) /\ Forall (fun x => 0 < x) (before ++ pending)
  end.
Proof.
  induction pending as [|x pending IH]; intros i m r before Hm Fm Fp Fn ->; cbn [leastPending].
  - rewrite app_nil_r. split; [|done]. by exists r.
  - apply Forall_cons in Fn as [Hx Fn]. replace (before ++ x :: pending) with ((before ++ [x]) ++ pending) by by rewrite <- app_assoc.
    destruct (Z.eqb_spec x 0) as [->|Nx]; [by rewrite lookup_app_l by (rewrite length_app; cbn; lia); rewrite list_lookup_middle|].
    assert (Forall (fun r => 0 < r) (before ++ [x])) as Fp' by (apply Forall_app; split; [done|]; constructor; [lia|done]).
    destruct (Z.ltb_spec x r).
    + apply IH; [by rewrite list_lookup_middle| |done|done|rewrite length_app; cbn; lia].
      apply Forall_app. split; [|by constructor]. eapply Forall_impl; [exact Fm|]. cbn. lia.
    + apply IH; [by apply lookup_app_l_Some| |done|done|rewrite length_app; cbn; lia]. apply Forall_app. split; [done|]. by constructor.
Qed.

(** The connection with the fewest pending requests is used; a new one is made when
    all are busy and there may be more of them. *)
Lemma getConnClientUnlocked_spec MaxConns pending :
  Forall (fun r => 0 <= r) pending ->
  match getConnClientUnlocked MaxConns pending with
  | Some k => exists r, pending !! k = Some r /\ Forall (fun x => r <= x) pending
  | None => Forall (fun x => 0 < x) pending /\ (pending = [] \/ zlen pending < Z.max 1 MaxConns)
  end.
Proof.
  intros Fn. unfold getConnClientUnlocked. destruct pending as [|r rest]; [by split; [|left]|]. pose proof Fn as Fn0. apply Forall_cons in Fn as [Hr Fn].
  destruct (Z.eqb_spec r 0) as [->|Nr]; [by exists 0|].
  pose proof (leastPending_spec rest 1 0 r [r] eq_refl ltac:(by constructor) ltac:(constructor; [lia|done]) Fn eq_refl) as H. cbn [app] in H.
  destruct (leastPending 1 0 r rest) as [k|k].
  - exists 0. by split.
  - destruct H as [(x & L & F) Fp]. match goal with |- context [zlen ?a <? ?b] => destruct (Z.ltb_spec (zlen a) b) end; [|by exists x].
    split; [done|]. right. destruct (Z.leb_spec MaxConns 0); lia.
Qed.

(** ** The channels *)

Definition errPipelineConnStopped : error := Errorf "pipeline connection has been stopped".

(** What comes back through [done]: the response to a request, or an error. *)
Inductive result := Answered (id : nat) | Failed (err : error).

(** A caller: before init; before each of its selects (with the channel it waits
    for in the last one); waiting for its work; returned, having given the work
    back to the pool or not. *)
Inductive pcallerPc :=
| CInit
| CPut
| CSwap
| CPutAgain
| CPutSlow (ch : option nat)
| CWaiting
| CReturned (r : result) (released : bool).

Record pcaller := MkPcaller { pl_deadline : bool; pl_pc : pcallerPc }.

(** The writer: before its two selects, with work, before the two selects that
    hand it on, returned (before the deferred flush), offering its error. *)
Inductive pwriter :=
| WSelect
| WSlow
| WGot (w : nat)
| WPut (w : nat)
| WPutSlow (w : nat)
| WRet (err : option error)
| WDone (err : option error)
| WEnd.

Inductive preader :=
| RSelect
| RSlow
| RGot (w : nat)
| RDone (err : option error)
| REnd.

(** The goroutine of init: dialing, waiting for either of its two, waiting for
    the other one, failing what was sent, looking at the channels, gone. *)
Inductive ploopPc :=
| LStart
| LRun
| LWaitR (err : option error)
| LWaitW (err : option error)
| LDrain (err : option error)
| LCheck
| LExit.

(** With the channels that its writer and reader have, its connection, the
    writer's flush timer and the two stop channels. *)
Record ploop := MkPloop {
  lp_pc : ploopPc;
  lp_conn : nat;
  lp_chR : option nat;
  lp_chW : option nat;
  lp_writer : pwriter;
  lp_timer : bool;
  lp_reader : preader;
  lp_stopW : bool;
  lp_stopR : bool
}.

Definition set_lp_pc (v : ploopPc) (l : ploop) : ploop :=
  MkPloop v (lp_conn l) (lp_chR l) (lp_chW l) (lp_writer l) (lp_timer l) (lp_reader l) (lp_stopW l) (lp_stopR l).
Definition set_lp_writer (v : pwriter) (l : ploop) : ploop :=
  MkPloop (lp_pc l) (lp_conn l) (lp_chR l) (lp_chW l) v (lp_timer l) (lp_reader l) (lp_stopW l) (lp_stopR l).
Definition set_lp_timer (v : bool) (l : ploop) : ploop :=
  MkPloop (lp_pc l) (lp_conn l) (lp_chR l) (lp_chW l) (lp_writer l) v (lp_reader l) (lp_stopW l) (lp_stopR l).
Definition set_lp_reader (v : preader) (l : ploop) : ploop :=
  MkPloop (lp_pc l) (lp_conn l) (lp_chR l) (lp_chW l) (lp_writer l) (lp_timer l) v (lp_stopW l) (lp_stopR l).
Definition set_lp_stopW (v : bool) (l : ploop) : ploop :=
  MkPloop (lp_pc l) (lp_conn l) (lp_chR l) (lp_chW l) (lp_writer l) (lp_timer l) (lp_reader l) v (lp_stopR l).
Definition set_lp_stopR (v : bool) (l : ploop) : ploop :=
  MkPloop (lp_pc l) (lp_conn l) (lp_chR l) (lp_chW l) (lp_writer l) (lp_timer l) (lp_reader l) (lp_stopW l) v.

(** A connection: the requests written to it in order, how many of them have been
    flushed, how many responses have been read. *)
Record pconn := MkPconn { pn_sent : list nat; pn_flushed : nat; pn_read : nat; pn_closed : bool }.

Record pipeClient := MkPipe {
  pp_chans : list (list nat);
  pp_chR : option nat;
  pp_chW : option nat;
  pp_done : list (nat * result);
  pp_conns : list pconn;
  pp_callers : list pcaller;
  pp_loops : list ploop
}.

Definition set_pp_chans (v : list (list nat)) (s : pipeClient) : pipeClient :=
  MkPipe v (pp_chR s) (pp_chW s) (pp_done s) (pp_conns s) (pp_callers s) (pp_loops s).
Definition set_pp_done (v : list (nat * result)) (s : pipeClient) : pipeClient :=
  MkPipe (pp_chans s) (pp_chR s) (pp_chW s) v (pp_conns s) (pp_callers s) (pp_loops s).
Definition set_pp_conns (v : list pconn) (s : pipeClient) : pipeClient :=
  MkPipe (pp_chans s) (pp_chR s) (pp_chW s) (pp_done s) v (pp_callers s) (pp_loops s).
Definition set_pp_callers (v : list pcaller) (s : pipeClient) : pipeClient :=
  MkPipe (pp_chans s) (pp_chR s) (pp_chW s) (pp_done s) (pp_conns s) v (pp_loops s).
Definition set_pp_loops (v : list ploop) (s : pipeClient) : pipeClient :=
  MkPipe (pp_chans s) (pp_chR s) (pp_chW s) (pp_done s) (pp_conns s) (pp_callers s) v.

Section Machine.
Context (MaxPendingRequests : Z).

Definition maxPendingRequests : nat := Z.to_nat (if MaxPendingRequests <=? 0 then DefaultMaxPendingRequests else MaxPendingRequests).

(** The contents of a channel; a nil channel is never ready. *)
Definition queue (ch : option nat) (s : pipeClient) : list nat := match ch with Some k => default [] (pp_chans s !! k) | None => [] end.

Definition full (ch : option nat) (s : pipeClient) : bool :=
  match ch with Some _ => bool_decide (length (queue ch s) = maxPendingRequests) | None => true end.

Definition send (ch : option nat) (w : nat) (s : pipeClient) : option pipeClient :=
  match ch with
  | Some k => if decide (length (queue ch s) < maxPendingRequests)%nat
              then Some (set_pp_chans (<[k := queue ch s ++ [w]]> (pp_chans s)) s) else None
  | None => None
  end.

Definition recv (ch : option nat) (s : pipeClient) : option (nat * pipeClient) :=
  match ch, queue ch s with
  | Some k, w :: q => Some (w, set_pp_chans (<[k := q]> (pp_chans s)) s)
  | _, _ => None
  end.

(** [w.done <- struct{}{}], with the work's error or response. *)
Definition deliver (w : nat) (r : result) (s : pipeClient) : pipeClient := set_pp_done (pp_done s ++ [(w, r)]) s.

Definition delivered (w : nat) (s : pipeClient) : option result :=
  match List.find (fun p => bool_decide (p.1 = w)) (pp_done s) with Some (_, r) => Some r | None => None end.

Definition updConn (k : nat) (f : pconn -> pconn) (s : pipeClient) : pipeClient :=
  match pp_conns s !! k with Some c => set_pp_conns (<[k := f c]> (pp_conns s)) s | None => s end.

(** ** Callers *)

Definition newLoop : ploop := MkPloop LStart 0 None None WEnd false REnd false false.

(** init: the channels, and the goroutine that keeps a connection. *)
Definition pipelineConnClient_init (s : pipeClient) : pipeClient :=
  match pp_chR s with
  | Some _ => s
  | None =>
      let r := length (pp_chans s) in
      let '(chans, chW) :=
        match pp_chW s with
        | Some w => (pp_chans s ++ [[]], w)
        | None => (pp_chans s ++ [[]; []], S r)
        end in
      MkPipe chans (Some r) (Some chW) (pp_done s) (pp_conns s) (pp_callers s) (pp_loops s ++ [newLoop])
  end.

Definition updCaller (t : nat) (deadline : bool) (pc : pcallerPc) (s : pipeClient) : pipeClient :=
  set_pp_callers (<[t := MkPcaller deadline pc]> (pp_callers s)) s.

(** [timer]: the deadline has passed (for CInit, before the call). *)
Definition stepPipelineCaller (t : nat) (c : pcaller) (timer : bool) (s : pipeClient) : outcome pipeClient :=
  let goto pc s := To (updCaller t (pl_deadline c) pc s) in
  match pl_pc c, timer with
  | CInit, _ =>
      let s := pipelineConnClient_init s in
      if timer && pl_deadline c then goto (CReturned (Failed ErrTimeout) false) s else goto CPut s
  | CPut, false =>
      match send (pp_chW s) t s with
      | Some s => goto CWaiting s
      | None => goto (if pl_deadline c then CPutSlow (pp_chW s) else CSwap) s
      end
  | CPutSlow ch, false => match send ch t s with Some s => goto CWaiting s | None => Blocked end
  | CPutSlow ch, true => goto (CReturned (Failed ErrTimeout) true) s
  | CSwap, false =>
      match recv (pp_chW s) s with
      | Some (wOld, s) => goto CPutAgain (deliver wOld (Failed ErrPipelineOverflow) s)
      | None => goto CPutAgain s
      end
  | CPutAgain, false =>
      match send (pp_chW s) t s with
      | Some s => goto CWaiting s
      | None => goto (CReturned (Failed ErrPipelineOverflow) true) s
      end
  | CWaiting, false => match delivered t s with Some r => goto (CReturned r true) s | None => Blocked end
  | CWaiting, true => if pl_deadline c then goto (CReturned (Failed ErrTimeout) false) s else Blocked
  | _, _ => Blocked
  end.

(** ** The writer *)

(** Its next step; a select with several ready cases; the outcome of a write (with
    how many requests reach the connection) and of a flush. *)
Inductive pchoice :=
| PGo
| PRecv
| PIdle
| PStop
| PFlush (ok : bool)
| PExpired
| PFail
| PWrite (flushed : nat)
| PRead.

Definition flushConn (k : nat) (s : pipeClient) : pipeClient :=
  updConn k (fun c => MkPconn (pn_sent c) (length (pn_sent c)) (pn_read c) (pn_closed c)) s.

(** A flush that succeeds has an open connection or nothing to send. *)
Definition canFlush (k : nat) (s : pipeClient) : bool :=
  match pp_conns s !! k with Some c => negb (pn_closed c) || bool_decide (pn_flushed c = length (pn_sent c)) | None => true end.

Definition writeConn (k w flushed : nat) (s : pipeClient) : pipeClient :=
  updConn k (fun c => MkPconn (pn_sent c ++ [w]) (Nat.max (pn_flushed c) (Nat.min flushed (S (length (pn_sent c))))) (pn_read c) (pn_closed c)) s.

Definition hasDeadline (w : nat) (s : pipeClient) : bool := match pp_callers s !! w with Some c => pl_deadline c | None => false end.

Definition netError : error := IOError 0.

Definition stepPipelineWriter (l : ploop) (a : pchoice) (s : pipeClient) : option (ploop * pipeClient) :=
  let goto w := set_lp_writer w l in
  match lp_writer l, a with
  | WSelect, PGo =>
      match recv (lp_chW l) s with
      | Some (w, s) => Some (goto (WGot w), s)
      | None => Some (goto WSlow, s)
      end
  | WSlow, PRecv => match recv (lp_chW l) s with Some (w, s) => Some (goto (WGot w), s) | None => None end
  | WSlow, PIdle => Some (goto (WRet None), s)
  | WSlow, PStop => if lp_stopW l then Some (goto (WRet None), s) else None
  | WSlow, PFlush ok =>
      if lp_timer l then
        if ok then if canFlush (lp_conn l) s then Some (set_lp_timer false (goto WSelect), flushConn (lp_conn l) s) else None
        else Some (goto (WRet (Some netError)), s)
      else None
  | WGot w, PExpired => if hasDeadline w s then Some (goto WSelect, deliver w (Failed ErrTimeout) s) else None
  | WGot w, PFail => Some (goto (WRet (Some netError)), deliver w (Failed netError) s)
  | WGot w, PWrite flushed =>
      let s := writeConn (lp_conn l) w flushed s in
      let timer := lp_timer l || bool_decide (length (queue (lp_chW l) s) = O) || full (lp_chR l) s in
      Some (set_lp_timer timer (goto (WPut w)), s)
  | WPut w, PGo =>
      match send (lp_chR l) w s with
      | Some s => Some (goto WSelect, s)
      | None => Some (goto (WPutSlow w), s)
      end
  | WPutSlow w, PGo => match send (lp_chR l) w s with Some s => Some (goto WSelect, s) | None => None end
  | WPutSlow w, PStop => if lp_stopW l then Some (goto (WRet None), deliver w (Failed errPipelineConnStopped) s) else None
  | WPutSlow w, PFlush ok =>
      if lp_timer l then
        if ok then if canFlush (lp_conn l) s then Some (set_lp_timer false (goto (WPut w)), flushConn (lp_conn l) s) else None
        else Some (goto (WRet (Some netError)), deliver w (Failed netError) s)
      else None
  | WRet err, PFlush ok =>
      if ok then if canFlush (lp_conn l) s then Some (goto (WDone err), flushConn (lp_conn l) s) else None
      else Some (goto (WDone err), s)
  | _, _ => None
  end.

(** ** The reader *)

(** The response that is read is the one to the next request that was sent. *)
Definition stepPipelineReader (l : ploop) (a : pchoice) (s : pipeClient) : option (ploop * pipeClient) :=
  let goto r := set_lp_reader r l in
  match lp_reader l, a with
  | RSelect, PGo =>
      match recv (lp_chR l) s with
      | Some (w, s) => Some (goto (RGot w), s)
      | None => Some (goto RSlow, s)
      end
  | RSlow, PRecv => match recv (lp_chR l) s with Some (w, s) => Some (goto (RGot w), s) | None => None end
  | RSlow, PStop => if lp_stopR l then Some (goto (RDone None), s) else None
  | RGot w, PFail => Some (goto (RDone (Some netError)), deliver w (Failed netError) s)
  | RGot w, PRead =>
      match pp_conns s !! lp_conn l with
      | Some c =>
          if decide (pn_read c < pn_flushed c)%nat then
            match pn_sent c !! pn_read c with
            | Some id =>
                Some (goto RSelect,
                      deliver w (Answered id) (updConn (lp_conn l) (fun c => MkPconn (pn_sent c) (pn_flushed c) (S (pn_read c)) (pn_closed c)) s))
            | None => None
            end
          else None
      | None => None
      end
  | _, _ => None
  end.

(** ** The goroutine of init *)

Definition closeConn (k : nat) (s : pipeClient) : pipeClient :=
  updConn k (fun c => MkPconn (pn_sent c) (pn_flushed c) (pn_read c) true) s.

(** [ok]: the dial succeeds, and which of the two is heard first. *)
Definition stepPipelineLoop (l : ploop) (ok : bool) (s : pipeClient) : option (ploop * pipeClient) :=
  let drain err l s := Some (set_lp_pc (LDrain err) l, s) in
  match lp_pc l with
  | LStart =>
      if ok then
        Some (MkPloop LRun (length (pp_conns s)) (pp_chR s) (pp_chW s) WSelect false RSelect false false,
              set_pp_conns (pp_conns s ++ [MkPconn [] 0 0 false]) s)
      else Some (l, s)
  | LRun =>
      if ok then
        match lp_writer l with
        | WDone err => Some (set_lp_pc (LWaitR err) (set_lp_writer WEnd (set_lp_stopR true l)), closeConn (lp_conn l) s)
        | _ => None
        end
      else
        match lp_reader l with
        | RDone err => Some (set_lp_pc (LWaitW err) (set_lp_reader REnd (set_lp_stopW true l)), closeConn (lp_conn l) s)
        | _ => None
        end
  | LWaitR err => match lp_reader l with RDone _ => drain err (set_lp_reader REnd l) s | _ => None end
  | LWaitW err => match lp_writer l with WDone _ => drain err (set_lp_writer WEnd l) s | _ => None end
  | LDrain err =>
      match recv (pp_chR s) s with
      | Some (w, s) => Some (l, deliver w (Failed errPipelineConnStopped) s)
      | None => Some (set_lp_pc (match err with Some _ => LStart | None => LCheck end) l, s)
      end
  | LCheck =>
      if decide (length (queue (pp_chR s) s) = O /\ length (queue (pp_chW s) s) = O) then Some (set_lp_pc LExit l, s)
      else Some (set_lp_pc LStart l, MkPipe (pp_chans s) None None (pp_done s) (pp_conns s) (pp_callers s) (pp_loops s))
  | LExit => None
  end.

(** ** The machine *)

(** A call arrives; caller [t] moves; a goroutine of loop [t] moves. *)
Inductive paction :=
| ACall (deadline : bool)
| ACaller (timer : bool)
| ALoop (ok : bool)
| AWriter (a : pchoice)
| AReader (a : pchoice).

Definition onLoop (t : nat) (f : ploop -> option (ploop * pipeClient)) (s : pipeClient) : outcome pipeClient :=
  match pp_loops s !! t with
  | Some l => match f l with Some (l, s) => To (set_pp_loops (<[t := l]> (pp_loops s)) s) | None => Blocked end
  | None => Blocked
  end.

#[global] Instance pipeline_machine : Machine pipeClient paction := fun t a s =>
  match a with
  | ACall deadline => if decide (t = length (pp_callers s)) then To (set_pp_callers (pp_callers s ++ [MkPcaller deadline CInit]) s) else Blocked
  | ACaller timer => match pp_callers s !! t with Some c => stepPipelineCaller t c timer s | None => Blocked end
  | ALoop ok => onLoop t (fun l => stepPipelineLoop l ok s) s
  | AWriter a => onLoop t (fun l => stepPipelineWriter l a s) s
  | AReader a => onLoop t (fun l => stepPipelineReader l a s) s
  end.

Definition initPipe : pipeClient := MkPipe [] None None [] [] [] [].

End Machine.
