(* ===== verification/PipelineSafety.v ===== *)
(** * client.go: PipelineClient, its theorems

    A work is in one place at a time and ends once; responses go to the requests
    they answer as long as the client's channels have been made once only; and two
    ways in which the goroutine of init breaks the client. *)
From Stdlib Require Import Strings.String.
From stdpp Require Import sets list_tactics.
From S2P Require Import Prelude Machine Pipeline.

Section Safety.
Context (Max : Z).
Notation cap := (maxPendingRequests Max).

(** ** Where a work is *)

Definition handW (l : ploop) : list nat := match lp_writer l with WGot w | WPut w | WPutSlow w => [w] | _ => [] end.
Definition handR (l : ploop) : list nat := match lp_reader l with RGot w => [w] | _ => [] end.
Definition hands (l : ploop) : list nat := handW l ++ handR l.

Definition pending (s : pipeClient) : list nat := concat (pp_chans s) ++ held hands (pp_loops s).
Definition ended (s : pipeClient) : list nat := map fst (pp_done s).

Definition validCh (s : pipeClient) (ch : option nat) : Prop := match ch with Some k => (k < length (pp_chans s))%nat | None => True end.

(** Nothing but the channels and the results changes, and [w] works less are in
    the channels. *)
Definition sameRest (s s' : pipeClient) : Prop :=
  pp_chR s' = pp_chR s /\ pp_chW s' = pp_chW s /\ pp_callers s' = pp_callers s /\ pp_loops s' = pp_loops s /\
  length (pp_chans s') = length (pp_chans s).

Lemma concat_insert (l : list (list nat)) k q q' :
  l !! k = Some q -> exists r, concat l ≡ₚ q ++ r /\ concat (<[k := q']> l) ≡ₚ q' ++ r.
Proof.
  intros E. destruct (held_insert (fun x => x) l k q q' E) as (r & E1 & E2). exists r. unfold held in *. by rewrite !map_id in *.
Qed.

Definition small (s : pipeClient) : Prop := Forall (fun q => (length q <= cap)%nat) (pp_chans s).

Lemma send_spec ch w s s' :
  send Max ch w s = Some s' -> validCh s ch ->
  sameRest s s' /\ pp_done s' = pp_done s /\ pp_conns s' = pp_conns s /\ concat (pp_chans s') ≡ₚ w :: concat (pp_chans s) /\ (small s -> small s').
Proof.
  unfold send. destruct ch as [k|]; [|done]. case_decide as Hl; [|done]. intros [= <-] V. cbn in V.
  destruct (lookup_lt_is_Some_2 _ _ V) as [q E]. unfold queue in *. rewrite E in *. cbn [default] in *.
  split; [split_and!; try done; cbn; by rewrite length_insert|]. split; [done|]. split; [done|]. cbn [pp_chans set_pp_chans]. split.
  - destruct (concat_insert (pp_chans s) k q (q ++ [w]) E) as (r & -> & ->). solve_Permutation.
  - intros F. apply Forall_insert; [exact F|]. rewrite length_app. cbn. unfold default, id in Hl. lia.
Qed.

Lemma recv_spec ch s w s' :
  recv ch s = Some (w, s') ->
  sameRest s s' /\ pp_done s' = pp_done s /\ pp_conns s' = pp_conns s /\ concat (pp_chans s) ≡ₚ w :: concat (pp_chans s') /\ (small s -> small s').
Proof.
  unfold recv. destruct ch as [k|]; [|done]. destruct (queue (Some k) s) as [|x q] eqn:Eq; [done|]. intros [= <- <-].
  unfold queue in Eq. destruct (pp_chans s !! k) as [q0|] eqn:E; cbn [default] in Eq; [|done]. unfold id in Eq. subst q0.
  split; [split_and!; try done; cbn; by rewrite length_insert|]. split; [done|]. split; [done|]. cbn [pp_chans set_pp_chans]. split.
  - destruct (concat_insert (pp_chans s) k (x :: q) q E) as (r & -> & ->). done.
  - intros F. apply Forall_insert; [exact F|]. pose proof (Forall_lookup_1 _ _ _ _ F E) as L. cbn in L. lia.
Qed.

Lemma updConn_rest k f s : sameRest s (updConn k f s) /\ pp_done (updConn k f s) = pp_done s /\ pp_chans (updConn k f s) = pp_chans s.
Proof. unfold updConn. by destruct (pp_conns s !! k). Qed.

(** ** The goroutines of a connection *)

(** A goroutine of loop [l] moves works between the channels, its hands and the end. *)
Record moved (l l' : ploop) (s s' : pipeClient) : Prop := {
  mv_rest : pp_callers s' = pp_callers s /\ pp_loops s' = pp_loops s /\ length (pp_chans s') = length (pp_chans s);
  mv_ch : (pp_chR s' = pp_chR s /\ pp_chW s' = pp_chW s) \/ (pp_chR s' = None /\ pp_chW s' = None);
  mv_perm : concat (pp_chans s') ++ hands l' ++ ended s' ≡ₚ concat (pp_chans s) ++ hands l ++ ended s;
  mv_pending : forall w, w ∈ concat (pp_chans s') ++ hands l' -> w ∈ concat (pp_chans s) ++ hands l;
  mv_small : small s -> small s';
  mv_valid : validCh s' (lp_chR l') /\ validCh s' (lp_chW l')
}.

Lemma moved_ends l l' s s' w r :
  sameRest s s' -> pp_done s' = pp_done s -> (small s -> small s') ->
  concat (pp_chans s) ++ hands l ≡ₚ w :: concat (pp_chans s') ++ hands l' -> validCh s (lp_chR l') -> validCh s (lp_chW l') ->
  moved l l' s (deliver w r s').
Proof.
  intros (ER & EW & EC & EL & En) Ed Sm P V1 V2. split.
  - by split_and!.
  - by left.
  - unfold ended, deliver. cbn. rewrite Ed, map_app. cbn. rewrite !app_assoc, P. solve_Permutation.
  - cbn. intros x Hx. rewrite P. set_solver.
  - exact Sm.
  - unfold validCh in *. cbn. by rewrite En.
Qed.

Lemma moved_keeps l l' s s' :
  sameRest s s' -> pp_done s' = pp_done s -> (small s -> small s') ->
  concat (pp_chans s) ++ hands l ≡ₚ concat (pp_chans s') ++ hands l' -> validCh s (lp_chR l') -> validCh s (lp_chW l') ->
  moved l l' s s'.
Proof.
  intros (ER & EW & EC & EL & En) Ed Sm P V1 V2. split.
  - by split_and!.
  - by left.
  - unfold ended. rewrite Ed, !app_assoc. by rewrite P.
  - intros x Hx. by rewrite P.
  - exact Sm.
  - unfold validCh in *. by rewrite En.
Qed.

Lemma sameRest_refl s : sameRest s s.
Proof. by split_and!. Qed.

Ltac hands_perm := unfold hands, handW, handR; cbn [lp_writer lp_reader set_lp_writer set_lp_reader set_lp_timer set_lp_pc set_lp_stopW set_lp_stopR app];
  repeat match goal with H : lp_writer _ = _ |- _ => rewrite H | H : lp_reader _ = _ |- _ => rewrite H | H : concat _ ≡ₚ _ |- _ => rewrite H end;
  cbn [app]; rewrite ?app_nil_r; solve_Permutation.

Lemma updConn_keeps l l' k f s :
  validCh s (lp_chR l') -> validCh s (lp_chW l') -> hands l ≡ₚ hands l' -> moved l l' s (updConn k f s).
Proof.
  intros V1 V2 H. destruct (updConn_rest k f s) as (R & Ed & Ec). apply moved_keeps; try done.
  - unfold small. by rewrite Ec.
  - by rewrite Ec, H.
Qed.

Lemma writer_moved l a s l' s' :
  stepPipelineWriter Max l a s = Some (l', s') -> validCh s (lp_chR l) -> validCh s (lp_chW l) -> moved l l' s s'.
Proof.
  intros E V1 V2. unfold stepPipelineWriter in E. destruct (lp_writer l) eqn:Ew, a; try discriminate E.
  - destruct (recv (lp_chW l) s) as [[w s1]|] eqn:Er; injection E as <- <-.
    + apply recv_spec in Er as (R & Ed & _ & P & Sm). apply moved_keeps; try done. hands_perm.
    + apply moved_keeps; try done. hands_perm.
  - destruct (recv (lp_chW l) s) as [[w s1]|] eqn:Er; [|done]. injection E as <- <-.
    apply recv_spec in Er as (R & Ed & _ & P & Sm). apply moved_keeps; try done. hands_perm.
  - injection E as <- <-. apply moved_keeps; try done. hands_perm.
  - destruct (lp_stopW l); [|done]. injection E as <- <-. apply moved_keeps; try done. hands_perm.
  - destruct (lp_timer l); [|done]. destruct ok; [destruct (canFlush _ _); [|done]|]; injection E as <- <-.
    + apply updConn_keeps; try done. hands_perm.
    + apply moved_keeps; try done. hands_perm.
  - destruct (hasDeadline w s); [|done]. injection E as <- <-. apply moved_ends; try done. hands_perm.
  - injection E as <- <-. apply moved_ends; try done. hands_perm.
  - injection E as <- <-. apply updConn_keeps; try done. hands_perm.
  - destruct (send Max (lp_chR l) w s) as [s1|] eqn:Er; injection E as <- <-.
    + apply send_spec in Er as (R & Ed & _ & P & Sm); [|done]. apply moved_keeps; try done. hands_perm.
    + apply moved_keeps; try done. hands_perm.
  - destruct (send Max (lp_chR l) w s) as [s1|] eqn:Er; [|done]. injection E as <- <-.
    apply send_spec in Er as (R & Ed & _ & P & Sm); [|done]. apply moved_keeps; try done. hands_perm.
  - destruct (lp_stopW l); [|done]. injection E as <- <-. apply moved_ends; try done. hands_perm.
  - destruct (lp_timer l); [|done]. destruct ok; [destruct (canFlush _ _); [|done]|]; injection E as <- <-.
    + apply updConn_keeps; try done. hands_perm.
    + apply moved_ends; try done. hands_perm.
  - destruct ok; [destruct (canFlush _ _); [|done]|]; injection E as <- <-.
    + apply updConn_keeps; try done. hands_perm.
    + apply moved_keeps; try done. hands_perm.
Qed.

Lemma reader_moved l a s l' s' :
  stepPipelineReader l a s = Some (l', s') -> validCh s (lp_chR l) -> validCh s (lp_chW l) -> moved l l' s s'.
Proof.
  intros E V1 V2. unfold stepPipelineReader in E. destruct (lp_reader l) eqn:Ew, a; try discriminate E.
  - destruct (recv (lp_chR l) s) as [[w s1]|] eqn:Er; injection E as <- <-.
    + apply recv_spec in Er as (R & Ed & _ & P & Sm). apply moved_keeps; try done. hands_perm.
    + apply moved_keeps; try done. hands_perm.
  - destruct (recv (lp_chR l) s) as [[w s1]|] eqn:Er; [|done]. injection E as <- <-.
    apply recv_spec in Er as (R & Ed & _ & P & Sm). apply moved_keeps; try done. hands_perm.
  - destruct (lp_stopR l); [|done]. injection E as <- <-. apply moved_keeps; try done. hands_perm.
  - injection E as <- <-. apply moved_ends; try done. hands_perm.
  - destruct (pp_conns s !! lp_conn l); [|done]. case_decide; [|done]. destruct (pn_sent _ !! pn_read _); [|done]. injection E as <- <-.
    match goal with |- context [updConn ?k ?f s] => destruct (updConn_rest k f s) as (R & Ed & Ec) end.
    apply moved_ends; try done; [unfold small; by rewrite Ec|]. rewrite Ec. hands_perm.
Qed.

Definition notRunning (l : ploop) : Prop := lp_writer l = WEnd /\ lp_reader l = REnd.

Lemma loop_moved l ok s l' s' :
  stepPipelineLoop l ok s = Some (l', s') -> validCh s (lp_chR l) -> validCh s (lp_chW l) -> validCh s (pp_chR s) -> validCh s (pp_chW s) ->
  (lp_pc l = LStart -> notRunning l) -> moved l l' s s'.
Proof.
  intros E V1 V2 V3 V4 Hn. unfold stepPipelineLoop in E. destruct (lp_pc l) eqn:Ep.
  - destruct (Hn eq_refl). destruct ok; injection E as <- <-; apply moved_keeps; try done; hands_perm.
  - destruct ok; [destruct (lp_writer l) eqn:Ew; try done|destruct (lp_reader l) eqn:Er; try done]; injection E as <- <-;
      apply updConn_keeps; try done; hands_perm.
  - destruct (lp_reader l) eqn:Er; try done. injection E as <- <-. apply moved_keeps; try done. hands_perm.
  - destruct (lp_writer l) eqn:Er; try done. injection E as <- <-. apply moved_keeps; try done. hands_perm.
  - destruct (recv (pp_chR s) s) as [[w s1]|] eqn:Er; injection E as <- <-.
    + apply recv_spec in Er as (R & Ed & _ & P & Sm). apply moved_ends; try done. rewrite P. done.
    + apply moved_keeps; try done.
  - case_decide; injection E as <- <-; [by apply moved_keeps|]. split; try done; [by right].
  - done.
Qed.

(** ** One place for each work *)

Definition lpOk (l : ploop) : Prop :=
  match lp_pc l with
  | LRun => True
  | LWaitR _ => lp_writer l = WEnd
  | LWaitW _ => lp_reader l = REnd
  | _ => notRunning l
  end.

Lemma writer_keeps l a s l' s' :
  stepPipelineWriter Max l a s = Some (l', s') ->
  lp_pc l' = lp_pc l /\ lp_reader l' = lp_reader l /\ lp_chR l' = lp_chR l /\ lp_chW l' = lp_chW l /\ lp_conn l' = lp_conn l /\ lp_writer l <> WEnd.
Proof.
  unfold stepPipelineWriter. intros E. destruct (lp_writer l), a; try discriminate E;
    repeat match type of E with context [match ?x with _ => _ end] => destruct x end; try discriminate E; by injection E as <- <-.
Qed.

Lemma reader_keeps l a s l' s' :
  stepPipelineReader l a s = Some (l', s') ->
  lp_pc l' = lp_pc l /\ lp_writer l' = lp_writer l /\ lp_chR l' = lp_chR l /\ lp_chW l' = lp_chW l /\ lp_conn l' = lp_conn l /\ lp_reader l <> REnd.
Proof.
  unfold stepPipelineReader. intros E. destruct (lp_reader l), a; try discriminate E;
    repeat match type of E with context [match ?x with _ => _ end] => destruct x end; try discriminate E; by injection E as <- <-.
Qed.

Lemma writer_lpOk l a s l' s' : stepPipelineWriter Max l a s = Some (l', s') -> lpOk l -> lpOk l'.
Proof.
  intros E. apply writer_keeps in E as (Ep & Er & _ & _ & _ & N). unfold lpOk, notRunning. rewrite Ep, Er.
  destruct (lp_pc l); try tauto; intros; by destruct N.
Qed.

Lemma reader_lpOk l a s l' s' : stepPipelineReader l a s = Some (l', s') -> lpOk l -> lpOk l'.
Proof.
  intros E. apply reader_keeps in E as (Ep & Er & _ & _ & _ & N). unfold lpOk, notRunning. rewrite Ep, Er.
  destruct (lp_pc l); try tauto; intros; by destruct N.
Qed.

Lemma loop_lpOk l ok s l' s' : stepPipelineLoop l ok s = Some (l', s') -> lpOk l -> lpOk l'.
Proof.
  unfold stepPipelineLoop, lpOk at 1. intros E H. destruct (lp_pc l) eqn:Ep.
  - destruct ok; injection E as <- <-; [done|]. unfold lpOk. by rewrite Ep.
  - destruct ok; [destruct (lp_writer l)|destruct (lp_reader l)]; try done; by injection E as <- <-.
  - destruct (lp_reader l); try done. by injection E as <- <-.
  - destruct (lp_writer l); try done. by injection E as <- <-.
  - destruct (recv _ s) as [[w s1]|]; injection E as <- <-; unfold lpOk; [by rewrite Ep|]. by destruct err.
  - case_decide; by injection E as <- <-.
  - done.
Qed.

(** A caller whose work may be anywhere but in its own hands. *)
Definition queuedPc (pc : pcallerPc) : Prop := match pc with CWaiting | CReturned _ _ => True | _ => False end.
Definition slowOk (s : pipeClient) (pc : pcallerPc) : Prop := match pc with CPutSlow ch => validCh s ch | _ => True end.

Record tidy (s : pipeClient) : Prop := {
  td_nodup : NoDup (concat (pp_chans s) ++ held hands (pp_loops s) ++ ended s);
  td_queued : forall w, w ∈ concat (pp_chans s) ++ held hands (pp_loops s) ++ ended s ->
    exists c, pp_callers s !! w = Some c /\ queuedPc (pl_pc c);
  td_released : forall t c r, pp_callers s !! t = Some c -> pl_pc c = CReturned r true -> ~ t ∈ concat (pp_chans s) ++ held hands (pp_loops s);
  td_small : small s;
  td_valid : validCh s (pp_chR s) /\ validCh s (pp_chW s);
  td_loops : forall t l, pp_loops s !! t = Some l -> lpOk l /\ validCh s (lp_chR l) /\ validCh s (lp_chW l);
  td_slow : forall t c, pp_callers s !! t = Some c -> slowOk s (pl_pc c)
}.

Lemma tidy_loop s t l l' s' :
  tidy s -> pp_loops s !! t = Some l -> moved l l' s s' -> lpOk l' -> tidy (set_pp_loops (<[t := l']> (pp_loops s')) s').
Proof.
  intros [Nd Qu Re Sm [VR VW] Lo Sl] L [(EC & EL & En) Ech P Pe Sm' V'] Ok.
  destruct (held_insert hands (pp_loops s) t l l' L) as (r & H1 & H2). rewrite <- EL in H2.
  assert (concat (pp_chans s') ++ held hands (<[t := l']> (pp_loops s')) ++ ended s' ≡ₚ concat (pp_chans s) ++ held hands (pp_loops s) ++ ended s) as PP.
  { rewrite H1, H2. transitivity ((concat (pp_chans s') ++ hands l' ++ ended s') ++ r); [solve_Permutation|]. rewrite P. solve_Permutation. }
  assert (forall w, w ∈ concat (pp_chans s') ++ held hands (<[t := l']> (pp_loops s')) -> w ∈ concat (pp_chans s) ++ held hands (pp_loops s)) as PE.
  { intros w. rewrite H1, H2. specialize (Pe w). rewrite !elem_of_app in *. tauto. }
  assert (forall ch, validCh s ch -> validCh s' ch) as Vm by (intros ch; unfold validCh; by rewrite En).
  split; unfold ended in *; cbn [pp_chans pp_loops pp_done pp_callers set_pp_loops pp_chR pp_chW].
  - by rewrite PP.
  - intros w. rewrite PP, EC. apply Qu.
  - intros u c x. rewrite EC. intros Hc Hp K. by apply (Re u c x Hc Hp), PE.
  - by apply Sm'.
  - destruct Ech as [[-> ->]|[-> ->]]; [split; by apply Vm|done].
  - intros u l0. rewrite EL. intros K. apply list_lookup_insert_Some in K as [(-> & <- & _)|(_ & K)]; [by split|].
    destruct (Lo _ _ K) as (O0 & A & B). split; [exact O0|]. split; by apply Vm.
  - intros u c. rewrite EC. intros K. specialize (Sl u c K). unfold slowOk in *. destruct (pl_pc c); [done..|by apply Vm|done|done].
Qed.

(** Caller [t], with its work still its own, goes to [pc']. *)
Lemma lookup_updCaller t d pc s u c :
  pp_callers (updCaller t d pc s) !! u = Some c -> (u = t /\ c = MkPcaller d pc /\ is_Some (pp_callers s !! t)) \/ (u <> t /\ pp_callers s !! u = Some c).
Proof.
  unfold updCaller. cbn. intros K. apply list_lookup_insert_Some in K as [(-> & <- & Hl)|(N & K)]; [left|by right].
  split; [done|]. split; [done|]. by apply lookup_lt_is_Some.
Qed.

Lemma tidy_caller s t c pc :
  tidy s -> pp_callers s !! t = Some c -> (queuedPc (pl_pc c) -> queuedPc pc) -> slowOk s pc ->
  (forall r, pc = CReturned r true -> ~ t ∈ concat (pp_chans s) ++ held hands (pp_loops s)) ->
  tidy (updCaller t (pl_deadline c) pc s).
Proof.
  intros [Nd Qu Re Sm V Lo Sl] L Hq Hs Hr. split; try done.
  - intros w K. destruct (Qu w K) as (c0 & L0 & Q0). unfold updCaller. cbn. destruct (decide (w = t)) as [->|D].
    + rewrite list_lookup_insert_eq by (by eapply lookup_lt_Some). eexists. split; [done|]. cbn. apply Hq. congruence.
    + rewrite list_lookup_insert_ne by done. by exists c0.
  - intros u c0 r K Hp. apply lookup_updCaller in K as [(-> & -> & _)|(D & K)]; [by apply (Hr r)|by apply (Re u c0 r)].
  - intros u c0 K. apply lookup_updCaller in K as [(-> & -> & _)|(D & K)]; [exact Hs|by apply (Sl u c0)].
Qed.

(** A work is put into the channel. *)
Lemma tidy_send s t c ch s' :
  tidy s -> pp_callers s !! t = Some c -> ~ queuedPc (pl_pc c) -> validCh s ch -> send Max ch t s = Some s' ->
  tidy (updCaller t (pl_deadline c) CWaiting s').
Proof.
  intros T L Nq V E. apply send_spec in E as ((ER & EW & EC & EL & En) & Ed & _ & P & Sm'); [|done].
  destruct T as [Nd Qu Re Sm [VR VW] Lo Sl].
  assert (~ t ∈ concat (pp_chans s) ++ held hands (pp_loops s) ++ ended s) as Nt by (intros K; destruct (Qu _ K) as (c0 & L0 & Q); rewrite L in L0; by injection L0 as <-).
  assert (forall ch, validCh s ch -> validCh s' ch) as Vm by (intros ch0; unfold validCh; by rewrite En).
  split; unfold ended in *; cbn [pp_chans pp_loops pp_done updCaller set_pp_callers pp_chR pp_chW]; rewrite ?EL, ?Ed.
  - rewrite P. cbn [app]. by constructor.
  - intros w. rewrite P. cbn [app]. rewrite elem_of_cons. intros K. unfold updCaller. cbn. rewrite EC. destruct (decide (w = t)) as [->|D].
    + rewrite list_lookup_insert_eq by (by eapply lookup_lt_Some). by eexists.
    + rewrite list_lookup_insert_ne by done. destruct K as [?|K]; [done|]. by apply Qu.
  - intros u c0 r K Hp. apply lookup_updCaller in K as [(-> & -> & _)|(D & K)]; [done|]. rewrite EC in K. rewrite P. cbn [app]. rewrite elem_of_cons.
    intros [?|K']; [done|]. by apply (Re u c0 r).
  - by apply Sm'.
  - rewrite ER, EW. split; by apply Vm.
  - intros u l K. destruct (Lo u l K) as (O0 & A & B). split; [exact O0|]. split; by apply Vm.
  - intros u c0 K. apply lookup_updCaller in K as [(-> & -> & _)|(D & K)]; [done|]. rewrite EC in K. specialize (Sl u c0 K).
    unfold slowOk in *. destruct (pl_pc c0); [done..|by apply Vm|done|done].
Qed.

(** The oldest work makes room. *)
Lemma tidy_swap s w s' ch : tidy s -> recv ch s = Some (w, s') -> tidy (deliver w (Failed ErrPipelineOverflow) s').
Proof.
  intros T E. apply recv_spec in E as ((ER & EW & EC & EL & En) & Ed & _ & P & Sm'). destruct T as [Nd Qu Re Sm [VR VW] Lo Sl].
  assert (concat (pp_chans s') ++ held hands (pp_loops s) ++ map fst (pp_done s ++ [(w, Failed ErrPipelineOverflow)]) ≡ₚ
          concat (pp_chans s) ++ held hands (pp_loops s) ++ ended s) as PP.
  { rewrite P, map_app. unfold ended. cbn. solve_Permutation. }
  assert (forall ch, validCh s ch -> validCh s' ch) as Vm by (intros ch0; unfold validCh; by rewrite En).
  split; unfold ended in *; cbn [pp_chans pp_loops pp_done deliver set_pp_done pp_callers pp_chR pp_chW]; rewrite ?EL, ?Ed, ?EC, ?ER, ?EW.
  - by rewrite PP.
  - intros x. rewrite PP. apply Qu.
  - intros u c0 r K Hp K'. apply (Re u c0 r K Hp). rewrite P. cbn. by apply list_elem_of_further.
  - by apply Sm'.
  - split; by apply Vm.
  - intros u l K. destruct (Lo u l K) as (O0 & A & B). split; [exact O0|]. split; by apply Vm.
  - intros u c0 K. specialize (Sl u c0 K). unfold slowOk in *. destruct (pl_pc c0); [done..|by apply Vm|done|done].
Qed.

Lemma tidy_init s : tidy s -> tidy (pipelineConnClient_init s).
Proof.
  intros [Nd Qu Re Sm [VR VW] Lo Sl]. unfold pipelineConnClient_init. destruct (pp_chR s) as [r|] eqn:ER; [by split; rewrite ?ER|].
  assert (exists l chW, (match pp_chW s with Some w => (pp_chans s ++ [[]], w) | None => (pp_chans s ++ [[]; []], S (length (pp_chans s))) end) = (pp_chans s ++ l, chW) /\
     concat l = [] /\ Forall (fun q => length q = O) l /\ (1 <= length l)%nat /\ (chW < length (pp_chans s ++ l))%nat) as (l & chW & -> & Cl & Fl & Ll & Lw).
  { destruct (pp_chW s) as [w|] eqn:EW; eexists _, _; (split; [reflexivity|]); (split; [done|]); (split; [by repeat constructor|]); (split; [cbn; lia|]);
      rewrite length_app; cbn; cbn in VW; lia. }
  assert (concat (pp_chans s ++ l) = concat (pp_chans s)) as Ec by (by rewrite concat_app, Cl, app_nil_r).
  assert (held hands (pp_loops s ++ [newLoop]) = held hands (pp_loops s)) as Eh by (by rewrite held_snoc, app_nil_r).
  assert (forall ch A B C D E F, validCh s ch -> validCh (MkPipe (pp_chans s ++ l) A B C D E F) ch) as Vm.
  { intros [k|] ? ? ? ? ? ?; unfold validCh; cbn; [rewrite length_app; lia|done]. }
  split; unfold ended in *; cbn [pp_chans pp_loops pp_done pp_callers pp_chR pp_chW]; rewrite ?Ec, ?Eh; try done.
  - unfold small. cbn. apply Forall_app. split; [exact Sm|]. eapply Forall_impl; [exact Fl|]. cbn. lia.
  - split; cbn; rewrite length_app in *; lia.
  - intros u l0 K. apply lookup_app_Some in K as [K|[_ K]].
    + destruct (Lo u l0 K) as (O0 & A & B). split; [exact O0|]. split; by apply Vm.
    + apply list_lookup_singleton_Some in K as [_ <-]. by split.
  - intros u c0 K. specialize (Sl u c0 K). unfold slowOk in *. destruct (pl_pc c0); [done..|by apply Vm|done|done].
Qed.

Lemma init_callers s : pp_callers (pipelineConnClient_init s) = pp_callers s.
Proof. unfold pipelineConnClient_init. destruct (pp_chR s); [done|]. by destruct (pp_chW s). Qed.

Lemma delivered_spec w s r : delivered w s = Some r -> (w, r) ∈ pp_done s.
Proof.
  unfold delivered. destruct (List.find _ (pp_done s)) as [[w' r']|] eqn:E; [|done]. intros [= <-].
  apply List.find_some in E as [H E]. apply bool_decide_eq_true in E. cbn in E. subst. by apply list_elem_of_In.
Qed.

Lemma caller_alone s t c : tidy s -> pp_callers s !! t = Some c -> ~ queuedPc (pl_pc c) -> ~ t ∈ concat (pp_chans s) ++ held hands (pp_loops s).
Proof.
  intros T L N K. destruct (td_queued _ T t) as (c0 & L0 & Q); [rewrite app_assoc, elem_of_app; by left|]. rewrite L in L0. by injection L0 as <-.
Qed.

Lemma tidy_stepCaller s t c timer s' :
  tidy s -> pp_callers s !! t = Some c -> stepPipelineCaller Max t c timer s = To s' -> tidy s'.
Proof.
  intros T L E. unfold stepPipelineCaller in E. destruct (pl_pc c) as [| | | |ch| |] eqn:Ep.
  - assert (pp_callers (pipelineConnClient_init s) !! t = Some c) as L' by by rewrite init_callers.
    pose proof (tidy_init _ T) as T'. destruct (timer && pl_deadline c); injection E as <-; apply tidy_caller; try done; by rewrite Ep.
  - destruct timer; [done|]. destruct (send Max (pp_chW s) t s) as [s1|] eqn:Es; injection E as <-.
    + eapply tidy_send; [exact T|exact L|rewrite Ep; intros []|apply T|exact Es].
    + apply tidy_caller; try done; [by rewrite Ep|by destruct (pl_deadline c); [apply T|]|by destruct (pl_deadline c)].
  - destruct timer; [done|]. destruct (recv (pp_chW s) s) as [[w s1]|] eqn:Es; injection E as <-.
    + assert (pp_callers s1 !! t = Some c) as L' by (apply recv_spec in Es as ((_ & _ & EC & _) & _); by rewrite EC).
      apply tidy_caller; try done; [by eapply tidy_swap|by rewrite Ep].
    + apply tidy_caller; try done. by rewrite Ep.
  - destruct timer; [done|]. destruct (send Max (pp_chW s) t s) as [s1|] eqn:Es; injection E as <-.
    + eapply tidy_send; [exact T|exact L|rewrite Ep; intros []|apply T|exact Es].
    + apply tidy_caller; try done. intros r _. eapply caller_alone; [exact T|exact L|]. rewrite Ep; intros [].
  - destruct timer.
    + injection E as <-. apply tidy_caller; try done. intros r _. eapply caller_alone; [exact T|exact L|]. rewrite Ep; intros [].
    + destruct (send Max ch t s) as [s1|] eqn:Es; [|done]. injection E as <-.
      eapply tidy_send; [exact T|exact L|rewrite Ep; intros []| |exact Es]. pose proof (td_slow _ T _ _ L) as V. by rewrite Ep in V.
  - destruct timer; [destruct (pl_deadline c) eqn:Edl; [|done]; injection E as <-; rewrite <- Edl; by apply tidy_caller|].
    destruct (delivered t s) as [r|] eqn:Ed; [|done]. injection E as <-. apply tidy_caller; try done.
    intros r0 _ K. apply delivered_spec in Ed. pose proof (td_nodup _ T) as Nd. rewrite app_assoc in Nd. apply NoDup_app in Nd as (_ & Nd & _).
    apply (Nd t K). unfold ended. apply list_elem_of_fmap. by exists (t, r).
  - by destruct timer.
Qed.

Lemma tidy_step s t a s' : tidy s -> step (Machine := pipeline_machine Max) t a s = To s' -> tidy s'.
Proof.
  intros T E. unfold step, pipeline_machine, onLoop in E. destruct a as [d|timer|ok|a|a].
  - case_decide as Ht; [|done]. injection E as <-. destruct T as [Nd Qu Re Sm V Lo Sl]. split; try done; cbn.
    + intros w K. destruct (Qu w K) as (c & L & Q). exists c. split; [|done]. rewrite lookup_app_l; [done|by eapply lookup_lt_Some].
    + intros u c r K Hp. apply lookup_app_Some in K as [K|[_ K]]; [by apply (Re u c r)|]. apply list_lookup_singleton_Some in K as [_ <-]. done.
    + intros u c K. apply lookup_app_Some in K as [K|[_ K]]; [by apply (Sl u c)|]. apply list_lookup_singleton_Some in K as [_ <-]. done.
  - destruct (pp_callers s !! t) as [c|] eqn:L; [|done]. by eapply tidy_stepCaller.
  - destruct (pp_loops s !! t) as [l|] eqn:L; [|done]. destruct (stepPipelineLoop l ok s) as [[l' s1]|] eqn:El; [|done]. injection E as <-.
    destruct (td_loops _ T _ _ L) as (O0 & A & B). destruct (td_valid _ T) as [VR VW]. eapply tidy_loop; [exact T|exact L| |by eapply loop_lpOk].
    eapply loop_moved; try done. intros Ep. unfold lpOk in O0. by rewrite Ep in O0.
  - destruct (pp_loops s !! t) as [l|] eqn:L; [|done]. destruct (stepPipelineWriter Max l a s) as [[l' s1]|] eqn:El; [|done]. injection E as <-.
    destruct (td_loops _ T _ _ L) as (O0 & A & B). eapply tidy_loop; [exact T|exact L|by eapply writer_moved|by eapply writer_lpOk].
  - destruct (pp_loops s !! t) as [l|] eqn:L; [|done]. destruct (stepPipelineReader l a s) as [[l' s1]|] eqn:El; [|done]. injection E as <-.
    destruct (td_loops _ T _ _ L) as (O0 & A & B). eapply tidy_loop; [exact T|exact L|by eapply reader_moved|by eapply reader_lpOk].
Qed.

Lemma tidy_start : tidy initPipe.
Proof.
  split; cbn; [constructor|..|constructor|done|done|done].
  - intros w K. by apply not_elem_of_nil in K.
  - done.
Qed.

Lemma tidy_reachable s : reachable (H := pipeline_machine Max) initPipe s -> tidy s.
Proof. apply reachable_invariant; [exact tidy_start|]. intros t a s1 s2 T E. by eapply tidy_step. Qed.

End Safety.
