(* ===== verification/PipelineOrder.v ===== *)
(** * client.go: PipelineClient, whose response is it

    While there is one connection goroutine, responses go to the requests they
    answer, although requests are matched with responses by their position only.
    After an idle time there may be no goroutine, or two: then requests are never
    answered, or answered with the response to another request. *)
From Stdlib Require Import Strings.String.
From stdpp Require Import sets list_tactics.
From S2P Require Import Prelude Machine Pipeline PipelineSafety.

Section Order.
Context (Max : Z).

Definition readerAlive (l : ploop) : bool := match lp_reader l with RSelect | RSlow | RGot _ => true | _ => false end.

(** The requests of the connection whose responses have not been read are those
    of the reader, of the channel and of the writer, in that order; once the
    writer has failed there may be more of them. *)
Definition inOrder (l : ploop) (unread q : list nat) : Prop :=
  match lp_writer l with
  | WSelect | WSlow | WGot _ => unread = handR l ++ q
  | WPut w | WPutSlow w => unread = handR l ++ q ++ [w]
  | _ => exists tail, unread = handR l ++ q ++ tail
  end.

Definition running (l : ploop) : bool := match lp_pc l with LRun | LWaitR _ | LWaitW _ => true | _ => false end.
Definition drained (l : ploop) : bool := match lp_pc l with LStart | LCheck | LExit => true | _ => false end.

Record loopOk (s : pipeClient) (l : ploop) : Prop := {
  lo_ch : running l = true -> lp_chR l = pp_chR s /\ lp_chW l = pp_chW s;
  lo_empty : drained l = true -> queue (pp_chR s) s = [];
  lo_order : readerAlive l = true -> exists c, pp_conns s !! lp_conn l = Some c /\ (pn_read c <= length (pn_sent c))%nat /\
    inOrder l (drop (pn_read c) (pn_sent c)) (queue (pp_chR s) s)
}.

Definition answersOwn (s : pipeClient) : Prop := forall w id, (w, Answered id) ∈ pp_done s -> id = w.

(** One pair of channels has been made; [l] is the goroutine that was started with it. *)
Definition single (s : pipeClient) (l : ploop) : Prop :=
  exists q0 q1, pp_chans s = [q0; q1] /\ ((pp_chR s = Some O /\ pp_chW s = Some 1%nat) \/ (pp_chR s = None /\ pp_chW s = None)) /\
    loopOk s l /\ answersOwn s.

Lemma recv_W s q0 q1 w s' :
  pp_chans s = [q0; q1] -> recv (Some 1%nat) s = Some (w, s') -> exists q, q1 = w :: q /\ s' = set_pp_chans [q0; q] s.
Proof. intros E. unfold recv, queue. rewrite E. cbn. destruct q1 as [|x q]; [done|]. intros [= <- <-]. by exists q. Qed.

Lemma recv_R s q0 q1 w s' :
  pp_chans s = [q0; q1] -> recv (Some O) s = Some (w, s') -> exists q, q0 = w :: q /\ s' = set_pp_chans [q; q1] s.
Proof. intros E. unfold recv, queue. rewrite E. cbn. destruct q0 as [|x q]; [done|]. intros [= <- <-]. by exists q. Qed.

Lemma recv_none s q0 q1 : pp_chans s = [q0; q1] -> recv (Some O) s = None -> q0 = [].
Proof. intros E. unfold recv, queue. rewrite E. cbn. by destruct q0. Qed.

Lemma send_W s q0 q1 w s' : pp_chans s = [q0; q1] -> send Max (Some 1%nat) w s = Some s' -> s' = set_pp_chans [q0; q1 ++ [w]] s.
Proof. intros E. unfold send, queue. rewrite E. cbn. case_decide; [|done]. by intros [= <-]. Qed.

Lemma send_R s q0 q1 w s' : pp_chans s = [q0; q1] -> send Max (Some O) w s = Some s' -> s' = set_pp_chans [q0 ++ [w]; q1] s.
Proof. intros E. unfold send, queue. rewrite E. cbn. case_decide; [|done]. by intros [= <-]. Qed.

(** A step that changes neither channel R nor the connections. *)
Lemma single_keeps s s' l l' q0 q1 q1' :
  single s l -> pp_chans s = [q0; q1] -> pp_chans s' = [q0; q1'] -> pp_chR s' = pp_chR s -> pp_chW s' = pp_chW s -> pp_conns s' = pp_conns s ->
  answersOwn s' -> running l' = running l -> drained l' = drained l -> lp_chR l' = lp_chR l -> lp_chW l' = lp_chW l -> lp_conn l' = lp_conn l ->
  (readerAlive l' = true -> readerAlive l = true /\ forall unread q, inOrder l unread q -> inOrder l' unread q) -> single s' l'.
Proof.
  intros (p0 & p1 & E & Ech & [Lc Le Lo] & _) E1 E2 ER EW Ec A Er Ed E3 E4 E5 Ho. rewrite E in E1. injection E1 as -> ->.
  assert (queue (pp_chR s') s' = queue (pp_chR s) s) as Eq by (rewrite ER; destruct Ech as [[-> _]|[-> _]]; unfold queue; by rewrite ?E, ?E2).
  exists q0, q1'. split; [done|]. rewrite ER, EW. split; [done|]. split; [|done]. split.
  - rewrite Er, E3, E4, ER, EW. exact Lc.
  - rewrite Ed, Eq. exact Le.
  - intros Ha. destruct (Ho Ha) as [Ha' Hi]. rewrite Ec, E5, Eq. destruct (Lo Ha') as (c & L & Hle & H). exists c. split; [done|]. split; [done|]. by apply Hi.
Qed.

Lemma answers_failed s w err : answersOwn s -> answersOwn (deliver w (Failed err) s).
Proof. intros A x id. cbn. rewrite elem_of_app, list_elem_of_singleton. intros [K|K]; [by apply A|done]. Qed.

(** A connection whose unread requests stay. *)
Lemma single_conn s l l' k f :
  single s l -> (forall c, pn_sent (f c) = pn_sent c /\ pn_read (f c) = pn_read c) -> running l' = true -> running l = true ->
  lp_chR l' = lp_chR l -> lp_chW l' = lp_chW l -> lp_conn l' = lp_conn l ->
  (readerAlive l' = true -> readerAlive l = true /\ forall unread q, inOrder l unread q -> inOrder l' unread q) -> single (updConn k f s) l'.
Proof.
  intros (q0 & q1 & E & Ech & [Lc Le Lo] & A) Hf R1 R2 E3 E4 E5 Ho. unfold updConn. destruct (pp_conns s !! k) as [c0|] eqn:Lk.
  2:{ exists q0, q1. split; [done|]. split; [done|]. split; [|done]. split.
      - intros _. rewrite E3, E4. by apply Lc.
      - unfold running, drained in *. by destruct (lp_pc l').
      - intros Ha. destruct (Ho Ha) as [Ha' Hi]. rewrite E5. destruct (Lo Ha') as (c & L & Hle & H). exists c. split; [done|]. split; [done|]. by apply Hi. }
  exists q0, q1. split; [done|]. split; [done|]. split; [|done]. split; cbn [pp_chR pp_chW set_pp_conns].
  - intros _. rewrite E3, E4. by apply Lc.
  - unfold running, drained in *. by destruct (lp_pc l').
  - intros Ha. destruct (Ho Ha) as [Ha' Hi]. destruct (Lo Ha') as (c & L & Hle & H). cbn [pp_conns set_pp_conns]. rewrite E5.
    change (queue (pp_chR s) (set_pp_conns (<[k:=f c0]> (pp_conns s)) s)) with (queue (pp_chR s) s).
    destruct (decide (k = lp_conn l)) as [->|D].
    + rewrite list_lookup_insert_eq by (by eapply lookup_lt_Some). rewrite L in Lk. injection Lk as <-. eexists. split; [done|].
      destruct (Hf c) as [-> ->]. split; [done|]. by apply Hi.
    + rewrite list_lookup_insert_ne by done. exists c. split; [done|]. split; [done|]. by apply Hi.
Qed.

Lemma inOrder_weak l unread q : inOrder l unread q -> exists tail, unread = handR l ++ q ++ tail.
Proof. unfold inOrder. destruct (lp_writer l); try done; intros ->; solve [exists []; by rewrite app_nil_r|by eexists]. Qed.

Lemma writer_running l : lpOk l -> lp_writer l <> WEnd -> running l = true.
Proof. unfold lpOk, notRunning, running. destruct (lp_pc l); try tauto; intros [? _]; done. Qed.
Lemma reader_running l : lpOk l -> lp_reader l <> REnd -> running l = true /\ readerAlive l = readerAlive l.
Proof. unfold lpOk, notRunning, running. destruct (lp_pc l); try tauto; intros [_ ?]; done. Qed.

Lemma single_answers s l : single s l -> answersOwn s.
Proof. by intros (q0 & q1 & _ & _ & _ & A). Qed.

Lemma single_chW s l : single s l -> running l = true -> lp_chW l = Some 1%nat \/ lp_chW l = None.
Proof. intros (q0 & q1 & _ & Ech & [Lc _ _] & _) R. destruct (Lc R) as [_ ->]. destruct Ech as [[_ ->]|[_ ->]]; auto. Qed.
Lemma single_chR s l : single s l -> running l = true -> lp_chR l = Some O \/ lp_chR l = None.
Proof. intros (q0 & q1 & _ & Ech & [Lc _ _] & _) R. destruct (Lc R) as [-> _]. destruct Ech as [[-> _]|[-> _]]; auto. Qed.

(** The writer without a step on channel R: [pc] is where it goes. *)
Lemma single_writer s s' l pc t q0 q1 q1' :
  single s l -> pp_chans s = [q0; q1] -> pp_chans s' = [q0; q1'] -> pp_chR s' = pp_chR s -> pp_chW s' = pp_chW s -> pp_conns s' = pp_conns s ->
  answersOwn s' -> (forall unread q, inOrder l unread q -> inOrder (set_lp_timer t (set_lp_writer pc l)) unread q) ->
  single s' (set_lp_timer t (set_lp_writer pc l)).
Proof. intros S1 E1 E2 ER EW Ec A H. by eapply single_keeps. Qed.

Lemma set_timer_id l : set_lp_timer (lp_timer l) l = l.
Proof. by destruct l. Qed.

Lemma single_writer0 s s' l pc q0 q1 q1' :
  single s l -> pp_chans s = [q0; q1] -> pp_chans s' = [q0; q1'] -> pp_chR s' = pp_chR s -> pp_chW s' = pp_chW s -> pp_conns s' = pp_conns s ->
  answersOwn s' -> (forall unread q, inOrder l unread q -> inOrder (set_lp_writer pc l) unread q) -> single s' (set_lp_writer pc l).
Proof. intros S1 E1 E2 ER EW Ec A H. by eapply single_keeps. Qed.

Lemma writer_recv s l w s1 pc :
  single s l -> running l = true -> recv (lp_chW l) s = Some (w, s1) -> (lp_writer l = WSelect \/ lp_writer l = WSlow) -> pc = WGot w ->
  single s1 (set_lp_writer pc l).
Proof.
  intros S1 R E Ew ->. pose proof S1 as (q0 & q1 & Ec & _ & _ & A). destruct (single_chW s l S1 R) as [Eq|Eq]; rewrite Eq in E; [|done].
  destruct (recv_W _ _ _ _ _ Ec E) as (q & -> & ->). eapply single_writer0; try done. intros u x. unfold inOrder. cbn. by destruct Ew as [-> | ->].
Qed.

Lemma writer_send s l w s1 :
  single s l -> running l = true -> send Max (lp_chR l) w s = Some s1 -> (lp_writer l = WPut w \/ lp_writer l = WPutSlow w) ->
  single s1 (set_lp_writer WSelect l).
Proof.
  intros S1 R E Ew. pose proof S1 as (q0 & q1 & Ec & Ech & [Lc Le Lo] & A). destruct (single_chR s l S1 R) as [Eq|Eq]; rewrite Eq in E; [|done].
  apply (send_R _ _ _ _ _ Ec) in E as ->. destruct (Lc R) as [ER EW]. rewrite Eq in ER. symmetry in ER. exists (q0 ++ [w]), q1. split; [done|]. cbn [pp_chR pp_chW set_pp_chans].
  split; [done|]. split; [|done]. split; cbn [pp_chR pp_chW set_pp_chans pp_conns].
  - intros _. by apply Lc.
  - unfold running, drained in *. cbn. by destruct (lp_pc l).
  - intros Ha. destruct (Lo Ha) as (c & L & Hle & H). exists c. split; [done|]. split; [done|]. rewrite ER in H |- *. unfold queue in *. rewrite Ec in H. cbn in *.
    unfold inOrder in *. cbn. unfold handR in *. cbn. destruct Ew as [Ew|Ew]; rewrite Ew in H; exact H.
Qed.

Lemma writer_write s l w n t :
  single s l -> running l = true -> lp_writer l = WGot w -> single (writeConn (lp_conn l) w n s) (set_lp_timer t (set_lp_writer (WPut w) l)).
Proof.
  intros (q0 & q1 & Ec & Ech & [Lc Le Lo] & A) R Ew. unfold writeConn, updConn.
  assert (running (set_lp_timer t (set_lp_writer (WPut w) l)) = true) as R' by exact R.
  destruct (pp_conns s !! lp_conn l) as [c|] eqn:Lk.
  - exists q0, q1. split; [done|]. split; [done|]. split; [|done]. split; cbn [pp_chR pp_chW set_pp_conns].
    + intros _. by apply Lc.
    + unfold running, drained in *. cbn. by destruct (lp_pc l).
    + intros Ha. destruct (Lo Ha) as (c0 & L & Hle & H). assert (c0 = c) as -> by congruence. cbn [pp_conns set_pp_conns].
      rewrite list_lookup_insert_eq by (by eapply lookup_lt_Some). eexists. split; [reflexivity|]. cbn [pn_read pn_sent]. rewrite length_app. split; [lia|].
      change (queue (pp_chR s) (set_pp_conns _ s)) with (queue (pp_chR s) s). rewrite drop_app_le by done. unfold inOrder in *. rewrite Ew in H. cbn.
      by rewrite H, <- app_assoc.
  - exists q0, q1. split; [done|]. split; [done|]. split; [|done]. split.
    + intros _. by apply Lc.
    + unfold running, drained in *. cbn. by destruct (lp_pc l).
    + intros Ha. destruct (Lo Ha) as (c0 & L & _). congruence.
Qed.

Lemma writer_single s l a s' l' : single s l -> lpOk l -> stepPipelineWriter Max l a s = Some (l', s') -> single s' l'.
Proof.
  intros S1 Ok E. pose proof (writer_running l Ok (proj2 (proj2 (proj2 (proj2 (proj2 (writer_keeps _ _ _ _ _ _ E))))))) as R.
  pose proof S1 as (q0 & q1 & Ec & _ & _ & A). unfold stepPipelineWriter in E.
  assert (forall pc w err, (forall u q, inOrder l u q -> inOrder (set_lp_writer pc l) u q) -> single (deliver w (Failed err) s) (set_lp_writer pc l)) as Fl.
  { intros pc w err H. eapply single_writer0; try done. by apply answers_failed. }
  assert (forall pc, (forall u q, inOrder l u q -> inOrder (set_lp_writer pc l) u q) -> single s (set_lp_writer pc l)) as Go.
  { intros pc H. by eapply single_writer0. }
  assert (forall pc u q, match pc with WRet _ | WDone _ => True | _ => False end -> inOrder l u q -> inOrder (set_lp_writer pc l) u q) as Wk.
  { intros pc u q H K. apply inOrder_weak in K. unfold inOrder. cbn. by destruct pc. }
  assert (forall l1, lp_pc l1 = lp_pc l -> lp_chR l1 = lp_chR l -> lp_chW l1 = lp_chW l -> lp_conn l1 = lp_conn l -> lp_reader l1 = lp_reader l ->
    (forall u q, inOrder l u q -> inOrder l1 u q) -> single (flushConn (lp_conn l) s) l1) as Fs.
  { intros l1 E1 E2 E3 E4 E5 H. apply single_conn with (l := l); try done; [unfold running in *; by rewrite E1|].
    unfold readerAlive. rewrite E5. intros ->. done. }
  destruct (lp_writer l) eqn:Ew, a; try discriminate E.
  - destruct (recv (lp_chW l) s) as [[w s1]|] eqn:Er; injection E as <- <-; [by eapply writer_recv; eauto|].
    apply Go. intros u q. unfold inOrder. by rewrite Ew.
  - destruct (recv (lp_chW l) s) as [[w s1]|] eqn:Er; [|done]. injection E as <- <-. by eapply writer_recv; eauto.
  - injection E as <- <-. apply Go. intros u q. by apply Wk.
  - destruct (lp_stopW l); [|done]. injection E as <- <-. apply Go. intros u q. by apply Wk.
  - destruct (lp_timer l); [|done]. destruct ok; [destruct (canFlush _ _); [|done]|]; injection E as <- <-.
    + apply Fs; try done. intros u q. unfold inOrder. by rewrite Ew.
    + apply Go. intros u q. by apply Wk.
  - destruct (hasDeadline w s); [|done]. injection E as <- <-. apply Fl. intros u q. unfold inOrder. by rewrite Ew.
  - injection E as <- <-. apply Fl. intros u q. by apply Wk.
  - injection E as <- <-. by apply writer_write.
  - destruct (send Max (lp_chR l) w s) as [s1|] eqn:Er; injection E as <- <-; [eapply writer_send; eauto|].
    apply Go. intros u q. unfold inOrder. by rewrite Ew.
  - destruct (send Max (lp_chR l) w s) as [s1|] eqn:Er; [|done]. injection E as <- <-. eapply writer_send; eauto.
  - destruct (lp_stopW l); [|done]. injection E as <- <-. apply Fl. intros u q. by apply Wk.
  - destruct (lp_timer l); [|done]. destruct ok; [destruct (canFlush _ _); [|done]|]; injection E as <- <-.
    + apply Fs; try done. intros u q. unfold inOrder. by rewrite Ew.
    + apply Fl. intros u q. by apply Wk.
  - destruct ok; [destruct (canFlush _ _); [|done]|]; injection E as <- <-.
    + apply Fs; try done. intros u q. unfold inOrder. by rewrite Ew.
    + apply Go. intros u q. by apply Wk.
Qed.

Lemma reader_recv s l w s1 :
  single s l -> running l = true -> recv (lp_chR l) s = Some (w, s1) -> (lp_reader l = RSelect \/ lp_reader l = RSlow) -> single s1 (set_lp_reader (RGot w) l).
Proof.
  intros S1 R E Er. pose proof S1 as (q0 & q1 & Ec & Ech & [Lc Le Lo] & A). destruct (single_chR s l S1 R) as [Eq|Eq]; rewrite Eq in E; [|done].
  destruct (recv_R _ _ _ _ _ Ec E) as (q & -> & ->). destruct (Lc R) as [ER EW]. rewrite Eq in ER. symmetry in ER.
  exists q, q1. split; [done|]. cbn [pp_chR pp_chW set_pp_chans]. split; [done|]. split; [|done]. split; cbn [pp_chR pp_chW set_pp_chans pp_conns].
  - intros _. by apply Lc.
  - unfold running, drained in *. cbn. by destruct (lp_pc l).
  - intros _. destruct Lo as (c & L & Hle & H); [unfold readerAlive; by destruct Er as [-> | ->]|]. exists c. split; [done|]. split; [done|].
    rewrite ER in H |- *. unfold queue in *. rewrite Ec in H. cbn in *. unfold inOrder, handR in *. cbn.
    assert (match lp_reader l with RGot w => [w] | _ => [] end = []) as Eh by by destruct Er as [-> | ->]. rewrite Eh in H. exact H.
Qed.

Lemma reader_gone s l pc w err : single s l -> running l = true -> match pc with RDone _ => True | _ => False end ->
  single s (set_lp_reader pc l) /\ single (deliver w (Failed err) s) (set_lp_reader pc l).
Proof.
  intros S1 R H. pose proof S1 as (q0 & q1 & Ec & _ & _ & A).
  assert (readerAlive (set_lp_reader pc l) = true -> readerAlive l = true /\ forall u q, inOrder l u q -> inOrder (set_lp_reader pc l) u q) as Ho by (destruct pc; done).
  split; (eapply single_keeps; [exact S1|exact Ec|exact Ec|done..| | |done|done|done|done|done|exact Ho]); try done; by apply answers_failed.
Qed.

Lemma reader_read s l w c id :
  single s l -> running l = true -> lp_reader l = RGot w -> pp_conns s !! lp_conn l = Some c -> pn_sent c !! pn_read c = Some id ->
  single (deliver w (Answered id) (updConn (lp_conn l) (fun c => MkPconn (pn_sent c) (pn_flushed c) (S (pn_read c)) (pn_closed c)) s)) (set_lp_reader RSelect l).
Proof.
  intros (q0 & q1 & Ec & Ech & [Lc Le Lo] & A) R Er L Eid. destruct Lo as (c' & L' & Hle & H); [unfold readerAlive; by rewrite Er|].
  assert (c' = c) as -> by congruence. unfold updConn. rewrite L.
  assert (drop (pn_read c) (pn_sent c) = id :: drop (S (pn_read c)) (pn_sent c)) as Ed by by apply drop_S.
  rewrite Ed in H.
  assert (id = w /\ inOrder (set_lp_reader RSelect l) (drop (S (pn_read c)) (pn_sent c)) (queue (pp_chR s) s)) as [-> Hi].
  { unfold inOrder, handR in *. rewrite Er in H. cbn in *. destruct (lp_writer l); first [injection H as -> H|destruct H as [tail H]; injection H as -> H]; (split; [done|]); rewrite H; try done; by eexists. }
  exists q0, q1. split; [done|]. split; [done|]. split.
  - split; cbn [pp_chR pp_chW deliver set_pp_done set_pp_conns].
    + intros _. by apply Lc.
    + unfold running, drained in *. cbn. by destruct (lp_pc l).
    + intros _. cbn [pp_conns deliver set_pp_done set_pp_conns]. change (lp_conn (set_lp_reader RSelect l)) with (lp_conn l).
      rewrite list_lookup_insert_eq by (by eapply lookup_lt_Some). eexists. split; [reflexivity|]. cbn [pn_read pn_sent].
      split; [by apply lookup_lt_Some in Eid|]. exact Hi.
  - intros x k. cbn. rewrite elem_of_app, list_elem_of_singleton. intros [K|K]; [by apply A|]. by injection K as -> ->.
Qed.

Lemma reader_single s l a s' l' : single s l -> lpOk l -> stepPipelineReader l a s = Some (l', s') -> single s' l'.
Proof.
  intros S1 Ok E. pose proof (proj1 (reader_running l Ok (proj2 (proj2 (proj2 (proj2 (proj2 (reader_keeps _ _ _ _ _ E)))))))) as R.
  pose proof S1 as (q0 & q1 & Ec & _ & _ & A). unfold stepPipelineReader in E. destruct (lp_reader l) eqn:Er, a; try discriminate E.
  - destruct (recv (lp_chR l) s) as [[w s1]|] eqn:Es; injection E as <- <-; [by eapply reader_recv; eauto|].
    eapply single_keeps; [exact S1|exact Ec|exact Ec|done..|]. intros _. unfold readerAlive. rewrite Er. split; [done|].
    intros u q. unfold inOrder, handR. cbn. by rewrite Er.
  - destruct (recv (lp_chR l) s) as [[w s1]|] eqn:Es; [|done]. injection E as <- <-. by eapply reader_recv; eauto.
  - destruct (lp_stopR l); [|done]. injection E as <- <-. by apply (reader_gone s l (RDone None) 0 EOF).
  - injection E as <- <-. by apply reader_gone.
  - destruct (pp_conns s !! lp_conn l) as [c|] eqn:L; [|done]. case_decide; [|done]. destruct (pn_sent c !! pn_read c) as [id|] eqn:Eid; [|done].
    injection E as <- <-. by eapply reader_read.
Qed.

Lemma single_stopped s l' q0 q1 :
  pp_chans s = [q0; q1] -> ((pp_chR s = Some O /\ pp_chW s = Some 1%nat) \/ (pp_chR s = None /\ pp_chW s = None)) -> answersOwn s ->
  running l' = false -> readerAlive l' = false -> (drained l' = true -> queue (pp_chR s) s = []) -> single s l'.
Proof.
  intros Ec Ech A R Ra Hd. exists q0, q1. split; [done|]. split; [done|]. split; [|done]. split; [by rewrite R|exact Hd|by rewrite Ra].
Qed.

Lemma recv_nothing s q0 q1 :
  pp_chans s = [q0; q1] -> ((pp_chR s = Some O /\ pp_chW s = Some 1%nat) \/ (pp_chR s = None /\ pp_chW s = None)) -> recv (pp_chR s) s = None ->
  queue (pp_chR s) s = [].
Proof. intros Ec [[-> _]|[-> _]] E; [|done]. apply (recv_none _ _ _ Ec) in E as ->. unfold queue. by rewrite Ec. Qed.

Lemma loop_single s l ok s' l' : single s l -> lpOk l -> stepPipelineLoop l ok s = Some (l', s') -> single s' l'.
Proof.
  intros S1 Ok E. pose proof S1 as (q0 & q1 & Ec & Ech & [Lc Le Lo] & A). unfold stepPipelineLoop in E.
  assert (forall pc l1, lp_reader l1 = REnd -> match pc with LDrain _ => True | _ => False end -> single s (set_lp_pc pc l1)) as Dr.
  { intros pc l1 Hr Hp. eapply single_stopped; [exact Ec|exact Ech|exact A|by destruct pc|unfold readerAlive; cbn; by rewrite Hr|by destruct pc]. }
  unfold lpOk in Ok. destruct (lp_pc l) eqn:Ep.
  - destruct ok; injection E as <- <-; [|exact S1]. exists q0, q1. split; [done|]. split; [done|]. split; [|done]. split; cbn [pp_chR pp_chW set_pp_conns lp_chR lp_chW lp_conn]; try done.
    intros _. cbn [pp_conns set_pp_conns]. exists (MkPconn [] 0 0 false). rewrite list_lookup_middle by done. split; [done|]. split; [done|].
    change (queue (pp_chR s) (set_pp_conns _ s)) with (queue (pp_chR s) s). rewrite Le by (unfold drained; by rewrite Ep). done.
  - destruct ok; [destruct (lp_writer l) eqn:Ew; try done|destruct (lp_reader l) eqn:Er; try done]; injection E as <- <-;
      (apply single_conn with (l := l); [exact S1|done|done|unfold running; by rewrite Ep|done|done|done|]); intros Ha; [|done].
    split; [exact Ha|]. intros u q K%inOrder_weak. unfold inOrder. cbn. exact K.
  - destruct (lp_reader l) eqn:Er; try done. injection E as <- <-. by apply Dr.
  - destruct (lp_writer l) eqn:Er; try done. injection E as <- <-. by apply Dr.
  - destruct Ok as [Hw Hr]. destruct (recv (pp_chR s) s) as [[w s1]|] eqn:Er; injection E as <- <-.
    + destruct Ech as [[ER EW]|[ER EW]]; rewrite ER in Er; [|done]. destruct (recv_R _ _ _ _ _ Ec Er) as (q & -> & ->).
      apply (single_stopped _ l q q1); try done; [by left|by apply answers_failed|unfold running; by rewrite Ep|unfold readerAlive; by rewrite Hr|unfold drained; by rewrite Ep].
    + apply (single_stopped _ _ q0 q1); try done; [by destruct err|unfold readerAlive; cbn; by rewrite Hr|]. intros _. by eapply recv_nothing.
  - destruct Ok as [Hw Hr]. case_decide as D; injection E as <- <-.
    + apply (single_stopped _ _ q0 q1); try done; [unfold readerAlive; cbn; by rewrite Hr|]. intros _. apply Le. unfold drained. by rewrite Ep.
    + apply (single_stopped _ _ q0 q1); try done; [by right|unfold readerAlive; cbn; by rewrite Hr].
  - done.
Qed.

(** ** The whole client *)

Definition slowW (s : pipeClient) : Prop :=
  forall t c ch, pp_callers s !! t = Some c -> pl_pc c = CPutSlow ch -> ch = None \/ ch = Some 1%nat.

Definition oneLoop (s : pipeClient) : Prop :=
  (pp_chans s = [] /\ pp_loops s = [] /\ pp_chR s = None /\ pp_chW s = None /\ answersOwn s) \/ exists l, pp_loops s = [l] /\ single s l.

Lemma oneLoop_answers s : oneLoop s -> answersOwn s.
Proof. intros [(_ & _ & _ & _ & A)|(l & _ & S1)]; [exact A|by eapply single_answers]. Qed.

Lemma oneLoop_chW s : oneLoop s -> pp_chW s = None \/ pp_chW s = Some 1%nat.
Proof. intros [(_ & _ & _ & E & _)|(l & _ & q0 & q1 & _ & [[_ E]|[_ E]] & _)]; auto. Qed.

Lemma single_same s s' l :
  single s l -> pp_chans s' = pp_chans s -> pp_chR s' = pp_chR s -> pp_chW s' = pp_chW s -> pp_conns s' = pp_conns s -> pp_done s' = pp_done s -> single s' l.
Proof.
  intros S1 E1 E2 E3 E4 E5. pose proof S1 as (q0 & q1 & Ec & _ & _ & A). assert (answersOwn s') as A' by (unfold answersOwn; by rewrite E5).
  eapply single_keeps; [exact S1|exact Ec|by rewrite E1|..]; try done.
Qed.

Lemma oneLoop_updCaller s t d pc : oneLoop s -> oneLoop (updCaller t d pc s).
Proof. intros [H|(l & L & S1)]; [by left|]. right. exists l. split; [done|]. by apply (single_same s). Qed.

(** Channel W changes only. *)
Lemma oneLoop_W s l q0 q1 q1' : pp_loops s = [l] -> single s l -> pp_chans s = [q0; q1] -> oneLoop (set_pp_chans [q0; q1'] s).
Proof.
  intros L S1 E. right. exists l. split; [done|]. pose proof (single_answers _ _ S1) as A. eapply single_keeps; [exact S1|exact E|reflexivity|..]; try done.
Qed.

Lemma oneLoop_send s t s' ch : oneLoop s -> ch = None \/ ch = Some 1%nat -> send Max ch t s = Some s' -> oneLoop s'.
Proof.
  intros O1 [-> | ->] E; [done|]. destruct O1 as [(Ec & El & ER & EW & A)|(l & L & S1)].
  - unfold send, queue in E. rewrite Ec in E. cbn in E. case_decide; [|done]. injection E as <-. by left.
  - pose proof S1 as (q0 & q1 & Ec & _). apply (send_W _ _ _ _ _ Ec) in E as ->. by eapply oneLoop_W.
Qed.

Lemma oneLoop_swap s w s' ch : oneLoop s -> ch = None \/ ch = Some 1%nat -> recv ch s = Some (w, s') -> oneLoop (deliver w (Failed ErrPipelineOverflow) s').
Proof.
  intros O1 [-> | ->] E; [done|]. destruct O1 as [(Ec & El & ER & EW & A)|(l & L & S1)].
  - unfold recv, queue in E. by rewrite Ec in E.
  - pose proof S1 as (q0 & q1 & Ec & _ & _ & A). destruct (recv_W _ _ _ _ _ Ec E) as (q & -> & ->). right. exists l. split; [done|].
    pose proof (answers_failed _ w ErrPipelineOverflow A) as A'. eapply single_keeps; [exact S1|exact Ec|reflexivity|..]; try done.
Qed.

Lemma oneLoop_init s : oneLoop s -> (length (pp_chans (pipelineConnClient_init s)) <= 2)%nat -> oneLoop (pipelineConnClient_init s).
Proof.
  intros [(Ec & El & ER & EW & A)|(l & L & q0 & q1 & Ec & Ech & H)] Hl; unfold pipelineConnClient_init in *.
  - rewrite ER, EW, Ec, El in *. right. exists newLoop. split; [done|]. exists [], []. split; [done|]. split; [by left|]. split; [|exact A]. by split.
  - destruct Ech as [[ER EW]|[ER EW]]; rewrite ER in *.
    + right. exists l. split; [done|]. exists q0, q1. split; [done|]. split; [by left|]. exact H.
    + rewrite EW in Hl. cbn in Hl. rewrite Ec in Hl. cbn in Hl. lia.
Qed.

Lemma oneLoop_stepCaller s t c timer s' :
  oneLoop s -> slowW s -> pp_callers s !! t = Some c -> stepPipelineCaller Max t c timer s = To s' -> (length (pp_chans s') <= 2)%nat -> oneLoop s'.
Proof.
  intros O1 Sl L E Hl. pose proof (oneLoop_chW s O1) as W. unfold stepPipelineCaller in E. destruct (pl_pc c) as [| | | |ch| |] eqn:Ep.
  - destruct (timer && pl_deadline c); injection E as <-; by apply oneLoop_updCaller, oneLoop_init.
  - destruct timer; [done|]. destruct (send Max (pp_chW s) t s) as [s1|] eqn:Es; injection E as <-; apply oneLoop_updCaller; [|done].
    by apply (oneLoop_send _ _ _ _ O1 W Es).
  - destruct timer; [done|]. destruct (recv (pp_chW s) s) as [[w s1]|] eqn:Es; injection E as <-; apply oneLoop_updCaller; [|done].
    by apply (oneLoop_swap _ _ _ _ O1 W Es).
  - destruct timer; [done|]. destruct (send Max (pp_chW s) t s) as [s1|] eqn:Es; injection E as <-; apply oneLoop_updCaller; [|done].
    by apply (oneLoop_send _ _ _ _ O1 W Es).
  - destruct timer; [injection E as <-; by apply oneLoop_updCaller|]. destruct (send Max ch t s) as [s1|] eqn:Es; [|done]. injection E as <-.
    apply oneLoop_updCaller. by apply (oneLoop_send _ _ _ _ O1 (Sl _ _ _ L Ep) Es).
  - destruct timer; [destruct (pl_deadline c); [|done]|destruct (delivered t s); [|done]]; injection E as <-; by apply oneLoop_updCaller.
  - by destruct timer.
Qed.

(** Waiting callers have their channel from [c.chW]. *)
Lemma slowW_stepCaller s t c timer s' :
  oneLoop s -> slowW s -> pp_callers s !! t = Some c -> stepPipelineCaller Max t c timer s = To s' -> slowW s'.
Proof.
  intros O1 Sl L E. pose proof (oneLoop_chW s O1) as W.
  assert (forall s1 pc, pp_callers s1 = pp_callers s -> (forall ch, pc = CPutSlow ch -> ch = None \/ ch = Some 1%nat) -> slowW (updCaller t (pl_deadline c) pc s1)) as Up.
  { intros s1 pc Es Hpc u c0 ch K. apply lookup_updCaller in K as [(-> & -> & _)|(D & K)]; [apply Hpc|]. rewrite Es in K. by apply (Sl u c0 ch). }
  unfold stepPipelineCaller in E. destruct (pl_pc c) as [| | | |ch| |] eqn:Ep.
  - destruct (timer && pl_deadline c); injection E as <-; apply Up; by rewrite ?init_callers.
  - destruct timer; [done|]. destruct (send Max (pp_chW s) t s) as [s1|] eqn:Es; injection E as <-.
    + apply Up; [|done]. unfold send in Es. destruct (pp_chW s); [|done]. case_decide; [|done]. by injection Es as <-.
    + apply Up; [done|]. intros ch. destruct (pl_deadline c); [|done]. by intros [= <-].
  - destruct timer; [done|]. destruct (recv (pp_chW s) s) as [[w s1]|] eqn:Es; injection E as <-; apply Up; try done.
    apply recv_spec with (Max := Max) in Es. by destruct Es as ((_ & _ & EC & _) & _).
  - destruct timer; [done|]. destruct (send Max (pp_chW s) t s) as [s1|] eqn:Es; injection E as <-; apply Up; try done.
    unfold send in Es. destruct (pp_chW s); [|done]. case_decide; [|done]. by injection Es as <-.
  - destruct timer; [injection E as <-; by apply Up|]. destruct (send Max ch t s) as [s1|] eqn:Es; [|done]. injection E as <-.
    apply Up; [|done]. unfold send in Es. destruct ch; [|done]. case_decide; [|done]. by injection Es as <-.
  - destruct timer; [destruct (pl_deadline c); [|done]|destruct (delivered t s); [|done]]; injection E as <-; by apply Up.
  - by destruct timer.
Qed.

Lemma chans_grow s t a s' : tidy Max s -> step (Machine := pipeline_machine Max) t a s = To s' -> (length (pp_chans s) <= length (pp_chans s'))%nat.
Proof.
  intros T E. unfold step, pipeline_machine, onLoop in E. destruct a as [d|timer|ok|a|a].
  - case_decide; [|done]. by injection E as <-.
  - destruct (pp_callers s !! t) as [c|]; [|done]. unfold stepPipelineCaller in E.
    assert (forall ch s1, send Max ch t s = Some s1 -> length (pp_chans s1) = length (pp_chans s)) as Hs.
    { intros ch s1 Es. unfold send in Es. destruct ch; [|done]. case_decide; [|done]. injection Es as <-. cbn. by rewrite length_insert. }
    destruct (pl_pc c) as [| | | |ch| |].
    + assert (length (pp_chans s) <= length (pp_chans (pipelineConnClient_init s)))%nat as Hi.
      { unfold pipelineConnClient_init. destruct (pp_chR s); [done|]. destruct (pp_chW s); cbn; rewrite length_app; lia. }
      destruct (timer && pl_deadline c); by injection E as <-.
    + destruct timer; [done|]. destruct (send Max (pp_chW s) t s) as [s1|] eqn:Es; injection E as <-; [by rewrite <- (Hs _ _ Es)|done].
    + destruct timer; [done|]. destruct (recv (pp_chW s) s) as [[w s1]|] eqn:Es; injection E as <-; [|done].
      apply recv_spec with (Max := Max) in Es as ((_ & _ & _ & _ & En) & _). cbn. by rewrite En.
    + destruct timer; [done|]. destruct (send Max (pp_chW s) t s) as [s1|] eqn:Es; injection E as <-; [by rewrite <- (Hs _ _ Es)|done].
    + destruct timer; [by injection E as <-|]. destruct (send Max ch t s) as [s1|] eqn:Es; [|done]. injection E as <-. by rewrite <- (Hs _ _ Es).
    + destruct timer; [destruct (pl_deadline c); [|done]|destruct (delivered t s); [|done]]; by injection E as <-.
    + by destruct timer.
  - destruct (pp_loops s !! t) as [l|] eqn:L; [|done]. destruct (stepPipelineLoop l ok s) as [[l' s1]|] eqn:El; [|done]. injection E as <-.
    destruct (td_loops _ _ T _ _ L) as (O0 & A & B). destruct (td_valid _ _ T) as [VR VW].
    destruct (mv_rest _ _ _ _ _ (loop_moved Max _ _ _ _ _ El A B VR VW ltac:(intros Ep; unfold lpOk in O0; by rewrite Ep in O0))) as (_ & _ & En). cbn. by rewrite En.
  - destruct (pp_loops s !! t) as [l|] eqn:L; [|done]. destruct (stepPipelineWriter Max l a s) as [[l' s1]|] eqn:El; [|done]. injection E as <-.
    destruct (td_loops _ _ T _ _ L) as (O0 & A & B). destruct (mv_rest _ _ _ _ _ (writer_moved Max _ _ _ _ _ El A B)) as (_ & _ & En). cbn. by rewrite En.
  - destruct (pp_loops s !! t) as [l|] eqn:L; [|done]. destruct (stepPipelineReader l a s) as [[l' s1]|] eqn:El; [|done]. injection E as <-.
    destruct (td_loops _ _ T _ _ L) as (O0 & A & B). destruct (mv_rest _ _ _ _ _ (reader_moved Max _ _ _ _ _ El A B)) as (_ & _ & En). cbn. by rewrite En.
Qed.

Definition ordered (s : pipeClient) : Prop := tidy Max s /\ ((length (pp_chans s) <= 2)%nat -> oneLoop s /\ slowW s).

Lemma ordered_loop s t l l' s1 :
  oneLoop s -> slowW s -> pp_loops s !! t = Some l -> (forall l0, pp_loops s = [l0] -> single s l0 -> l0 = l -> single s1 l') ->
  pp_callers s1 = pp_callers s -> pp_loops s1 = pp_loops s -> oneLoop (set_pp_loops (<[t := l']> (pp_loops s1)) s1) /\ slowW (set_pp_loops (<[t := l']> (pp_loops s1)) s1).
Proof.
  intros O1 Sl L H EC EL. destruct O1 as [(_ & El & _)|(l0 & El & S1)]; rewrite El in L; [done|].
  destruct t as [|t]; [|by destruct t]. injection L as ->. split.
  - right. exists l'. split; [by cbn; rewrite EL, El|]. apply (single_same s1); try done. by apply (H l).
  - intros u c ch. cbn. rewrite EC. apply Sl.
Qed.

Lemma ordered_step s t a s' : ordered s -> step (Machine := pipeline_machine Max) t a s = To s' -> ordered s'.
Proof.
  intros [T Ho] E. pose proof (tidy_step _ _ _ _ _ T E) as T'. split; [exact T'|]. intros Hl'.
  pose proof (chans_grow _ _ _ _ T E) as Hg. destruct Ho as [O1 Sl]; [lia|]. unfold step, pipeline_machine, onLoop in E. destruct a as [d|timer|ok|a|a].
  - case_decide; [|done]. injection E as <-. split.
    + destruct O1 as [H1|(l & El & S1)]; [by left|right; exists l; split; [done|by apply (single_same s)]].
    + intros u c ch K. cbn in K. apply lookup_app_Some in K as [K|[_ K]]; [by apply (Sl u)|]. by apply list_lookup_singleton_Some in K as [_ <-].
  - destruct (pp_callers s !! t) as [c|] eqn:L; [|done]. split; [by eapply oneLoop_stepCaller|by eapply slowW_stepCaller].
  - destruct (pp_loops s !! t) as [l|] eqn:L; [|done]. destruct (stepPipelineLoop l ok s) as [[l' s1]|] eqn:El; [|done]. injection E as <-.
    destruct (td_loops _ _ T _ _ L) as (O0 & A & B). destruct (td_valid _ _ T) as [VR VW].
    destruct (mv_rest _ _ _ _ _ (loop_moved Max _ _ _ _ _ El A B VR VW ltac:(intros Ep; unfold lpOk in O0; by rewrite Ep in O0))) as (EC & EL & _).
    eapply ordered_loop; try done. intros l0 _ S1 ->. by eapply loop_single.
  - destruct (pp_loops s !! t) as [l|] eqn:L; [|done]. destruct (stepPipelineWriter Max l a s) as [[l' s1]|] eqn:El; [|done]. injection E as <-.
    destruct (td_loops _ _ T _ _ L) as (O0 & A & B). destruct (mv_rest _ _ _ _ _ (writer_moved Max _ _ _ _ _ El A B)) as (EC & EL & _).
    eapply ordered_loop; try done. intros l0 _ S1 ->. by eapply writer_single.
  - destruct (pp_loops s !! t) as [l|] eqn:L; [|done]. destruct (stepPipelineReader l a s) as [[l' s1]|] eqn:El; [|done]. injection E as <-.
    destruct (td_loops _ _ T _ _ L) as (O0 & A & B). destruct (mv_rest _ _ _ _ _ (reader_moved Max _ _ _ _ _ El A B)) as (EC & EL & _).
    eapply ordered_loop; try done. intros l0 _ S1 ->. by eapply reader_single.
Qed.

Lemma ordered_reachable s : reachable (H := pipeline_machine Max) initPipe s -> ordered s.
Proof.
  apply reachable_invariant.
  - split; [apply tidy_start|]. intros _. split; [left; split_and!; try done; intros w id K; by apply not_elem_of_nil in K|]. done.
  - intros t a s1 s2 O1 E. by eapply ordered_step.
Qed.

(** ** After an idle time *)

(** The goroutine of init has ended, its channels are still there. *)
Definition stopped (s : pipeClient) : Prop := is_Some (pp_chR s) /\ Forall (fun l => lp_pc l = LExit) (pp_loops s).

(** What becomes of the client then. *)
Definition unanswered (s s' : pipeClient) : Prop :=
  pp_conns s' = pp_conns s /\ exists l, pp_done s' = pp_done s ++ l /\ Forall (fun p => p.2 = Failed ErrPipelineOverflow) l.

Lemma unanswered_refl s s' : pp_conns s' = pp_conns s -> pp_done s' = pp_done s -> unanswered s s'.
Proof. intros E1 E2. split; [done|]. exists []. by rewrite app_nil_r. Qed.

Lemma unanswered_trans s1 s2 s3 : unanswered s1 s2 -> unanswered s2 s3 -> unanswered s1 s3.
Proof.
  intros [E1 (l1 & D1 & F1)] [E2 (l2 & D2 & F2)]. split; [congruence|]. exists (l1 ++ l2). rewrite D2, D1, app_assoc. split; [done|]. by apply Forall_app.
Qed.

Lemma stopped_step s t a s' : tidy Max s -> stopped s -> step (Machine := pipeline_machine Max) t a s = To s' -> stopped s' /\ unanswered s s'.
Proof.
  intros T [[r ER] Fl] E. unfold step, pipeline_machine, onLoop in E.
  assert (forall l, pp_loops s !! t = Some l -> lp_pc l = LExit /\ lp_writer l = WEnd /\ lp_reader l = REnd) as Hl.
  { intros l L. pose proof (Forall_lookup_1 _ _ _ _ Fl L) as Ep. destruct (td_loops _ _ T _ _ L) as [O0 _]. unfold lpOk in O0. by rewrite Ep in O0. }
  assert (forall d pc s1, pp_chR s1 = pp_chR s -> pp_loops s1 = pp_loops s -> unanswered s s1 -> stopped (updCaller t d pc s1) /\ unanswered s (updCaller t d pc s1)) as Up.
  { intros d pc s1 E1 E2 U. split; [|exact U]. split; cbn; [by rewrite E1; eexists|by rewrite E2]. }
  assert (forall ch s1, send Max ch t s = Some s1 -> pp_chR s1 = pp_chR s /\ pp_loops s1 = pp_loops s /\ unanswered s s1) as Hs.
  { intros ch s1 Es. unfold send in Es. destruct ch; [|done]. case_decide; [|done]. injection Es as <-. split; [done|]. split; [done|]. by apply unanswered_refl. }
  destruct a as [d|timer|ok|a|a].
  - case_decide; [|done]. injection E as <-. split; [split; [by eexists|done]|by apply unanswered_refl].
  - destruct (pp_callers s !! t) as [c|]; [|done]. unfold stepPipelineCaller in E. destruct (pl_pc c) as [| | | |ch| |].
    + assert (pipelineConnClient_init s = s) as Ei by (unfold pipelineConnClient_init; by rewrite ER). rewrite Ei in E.
      destruct (timer && pl_deadline c); injection E as <-; apply Up; try done; by apply unanswered_refl.
    + destruct timer; [done|]. destruct (send Max (pp_chW s) t s) as [s1|] eqn:Es; injection E as <-; apply Up; try done; try (by eapply Hs); by apply unanswered_refl.
    + destruct timer; [done|]. destruct (recv (pp_chW s) s) as [[w s1]|] eqn:Es; injection E as <-; apply Up; try done; try (by apply unanswered_refl);
        apply recv_spec with (Max := Max) in Es as ((E1 & _ & _ & E2 & _) & E3 & E4 & _); try done. split; [done|]. exists [(w, Failed ErrPipelineOverflow)].
      cbn. rewrite E3. split; [done|]. by constructor.
    + destruct timer; [done|]. destruct (send Max (pp_chW s) t s) as [s1|] eqn:Es; injection E as <-; apply Up; try done; try (by eapply Hs); by apply unanswered_refl.
    + destruct timer; [injection E as <-; apply Up; try done; by apply unanswered_refl|]. destruct (send Max ch t s) as [s1|] eqn:Es; [|done].
      injection E as <-. apply Up; by eapply Hs.
    + destruct timer; [destruct (pl_deadline c); [|done]|destruct (delivered t s); [|done]]; injection E as <-; apply Up; try done; by apply unanswered_refl.
    + by destruct timer.
  - destruct (pp_loops s !! t) as [l|] eqn:L; [|done]. destruct (Hl l eq_refl) as (Ep & _). unfold stepPipelineLoop in E. by rewrite Ep in E.
  - destruct (pp_loops s !! t) as [l|] eqn:L; [|done]. destruct (Hl l eq_refl) as (_ & Ew & _). unfold stepPipelineWriter in E. rewrite Ew in E. by destruct a.
  - destruct (pp_loops s !! t) as [l|] eqn:L; [|done]. destruct (Hl l eq_refl) as (_ & _ & Er). unfold stepPipelineReader in E. rewrite Er in E. by destruct a.
Qed.

Lemma stopped_reachable s s' : tidy Max s -> stopped s -> reachable (H := pipeline_machine Max) s s' -> unanswered s s'.
Proof.
  intros T St R. apply (reachable_invariant (fun x => tidy Max x /\ stopped x /\ unanswered s x)) in R; [by destruct R as (_ & _ & ?)| |].
  - split; [done|]. split; [done|]. by apply unanswered_refl.
  - intros t a s1 s2 (T1 & S1 & U1) E. destruct (stopped_step _ _ _ _ T1 S1 E) as [S2 U2]. split; [by eapply tidy_step|]. split; [done|]. by eapply unanswered_trans.
Qed.

End Order.

(** * Properties *)

(** A pipelined request ends once: under every interleaving of callers, writers,
    readers and the goroutines that restart them, a work is signalled at most once
    and is in one place only; a work that its caller has put back into the pool is
    in no channel and in no goroutine's hands any more, and no channel holds more
    than MaxPendingRequests works. *)
Lemma pipeline_work_ends_once (Max : Z) (s : pipeClient) (R : reachable (H := pipeline_machine Max) initPipe s) :
  NoDup (pending s ++ ended s) /\
  (forall t c r, pp_callers s !! t = Some c -> pl_pc c = CReturned r true -> ~ t ∈ pending s) /\
  Forall (fun q => (length q <= maxPendingRequests Max)%nat) (pp_chans s).
Proof.
  pose proof (tidy_reachable Max s R) as T. unfold pending. split; [|split; [apply T|apply T]]. rewrite <- app_assoc. apply T.
Qed.

(** C24. Pipelined responses go to their requests: as long as init has made channels
    once (no more than one pair), what a work is answered with is the response to
    its own request, in every interleaving, across failing writes, reads, flushes
    and dials, timeouts, overflows and reconnections. *)
Theorem pipeline_answers_own (Max : Z) (s : pipeClient) (R : reachable (H := pipeline_machine Max) initPipe s)
    (Hone : (length (pp_chans s) <= 2)%nat) (w id : nat) (Ha : (w, Answered id) ∈ pp_done s) :
  id = w.
Proof. destruct (ordered_reachable Max s R) as [_ Ho]. destruct (Ho Hone) as [O1 _]. by apply (oneLoop_answers s O1). Qed.

(** A PipelineClient that has been idle is dead: when the connection has been
    idle for MaxIdleConnDuration and the goroutine of init has ended with empty
    channels, nothing starts another one, because the channels stay; whatever
    happens then, no connection is made or used and no work is answered: a work
    ends by a later Do that needs its place in the queue, or never. *)
Lemma idle_client_never_answers (Max : Z) (s s' : pipeClient) (R : reachable (H := pipeline_machine Max) initPipe s)
    (St : stopped s) (R' : reachable (H := pipeline_machine Max) s s') :
  unanswered s s'.
Proof. exact (stopped_reachable Max s s' (tidy_reachable Max s R) St R'). Qed.

(** One request, its response, and the idle timer. *)
Definition oneRequest : list (nat * paction) :=
  [(0, ACall false); (0, ACaller false); (0, ALoop true); (0, ACaller false); (0, AWriter PGo); (0, AWriter (PWrite 0)); (0, AWriter PGo);
   (0, AReader PGo); (0, AWriter PGo); (0, AWriter (PFlush true)); (0, AReader PRead); (0, ACaller false)]%nat.
Definition goIdle : list (nat * paction) :=
  [(0, AWriter PGo); (0, AWriter PIdle); (0, AWriter (PFlush true)); (0, ALoop true); (0, AReader PGo); (0, AReader PStop); (0, ALoop true);
   (0, ALoop true); (0, ALoop true)]%nat.
(** Another request, whose caller waits. *)
Definition secondRequest : list (nat * paction) := [(1, ACall false); (1, ACaller false); (1, ACaller false)]%nat.

Definition pipeAfter (sched : list (nat * paction)) (s : pipeClient) : pipeClient :=
  match run (H := pipeline_machine 0) sched s with To s => s | _ => s end.

Lemma pipeAfter_reachable sched s s' : pipeAfter sched s = s' -> match run (H := pipeline_machine 0) sched s with To _ => true | _ => false end = true ->
  reachable (H := pipeline_machine 0) s s'.
Proof.
  unfold pipeAfter. destruct (run sched s) as [| |x] eqn:E; [done|done|]. intros <- _. by apply (run_reachable (H := pipeline_machine 0) sched).
Qed.

Lemma pipeline_work_ends_once_witness :
  reachable (H := pipeline_machine 0) initPipe (pipeAfter oneRequest initPipe) /\
  NoDup (pending (pipeAfter oneRequest initPipe) ++ ended (pipeAfter oneRequest initPipe)).
Proof.
  assert (reachable (H := pipeline_machine 0) initPipe (pipeAfter oneRequest initPipe)) as R by (apply (pipeAfter_reachable oneRequest); vm_compute; reflexivity).
  split; [exact R|]. exact (proj1 (pipeline_work_ends_once 0 _ R)).
Defined.

Lemma pipeline_answers_own_witness :
  reachable (H := pipeline_machine 0) initPipe (pipeAfter oneRequest initPipe) /\ (0%nat, Answered 0) ∈ pp_done (pipeAfter oneRequest initPipe) /\ 0%nat = 0%nat.
Proof.
  assert (reachable (H := pipeline_machine 0) initPipe (pipeAfter oneRequest initPipe)) as R by (apply (pipeAfter_reachable oneRequest); vm_compute; reflexivity).
  assert ((0%nat, Answered 0) ∈ pp_done (pipeAfter oneRequest initPipe)) as Ha by (vm_compute; constructor).
  split; [exact R|]. split; [exact Ha|]. apply (pipeline_answers_own 0 _ R); [vm_compute; lia|exact Ha].
Defined.

Lemma idle_client_never_answers_witness :
  let s := pipeAfter (oneRequest ++ goIdle) initPipe in
  stopped s /\ unanswered s (pipeAfter secondRequest s) /\ ~ 1%nat ∈ ended (pipeAfter secondRequest s).
Proof.
  cbv zeta. assert (reachable (H := pipeline_machine 0) initPipe (pipeAfter (oneRequest ++ goIdle) initPipe)) as R
    by (apply (pipeAfter_reachable (oneRequest ++ goIdle)); vm_compute; reflexivity).
  assert (reachable (H := pipeline_machine 0) (pipeAfter (oneRequest ++ goIdle) initPipe) (pipeAfter secondRequest (pipeAfter (oneRequest ++ goIdle) initPipe))) as R'
    by (apply (pipeAfter_reachable secondRequest); vm_compute; reflexivity).
  assert (stopped (pipeAfter (oneRequest ++ goIdle) initPipe)) as St by (split; [vm_compute; by eexists|vm_compute; constructor; [reflexivity|constructor]]).
  split; [exact St|]. split; [exact (idle_client_never_answers 0 _ _ R St R')|]. vm_compute. intros K. apply list_elem_of_In in K. simpl in K. intuition congruence.
Defined.

(** Two goroutines with one pair of channels: the idle timer fires, a work arrives
    before the goroutine looks at the channels again, it forgets the channels (and
    that work) and goes on; the next call starts a second goroutine, both take the
    new channels, and the reader of one connection takes the work that was sent
    over the other. *)
Definition crossing : list (nat * paction) :=
  [(0, ACall false); (0, ACaller false); (0, ALoop true); (0, AWriter PGo); (0, AWriter PIdle); (0, ACaller false); (0, AWriter (PFlush true)); (0, ALoop true);
   (0, AReader PGo); (0, AReader PStop); (0, ALoop true); (0, ALoop true); (0, ALoop true);
   (1, ACall false); (1, ACaller false); (0, ALoop true); (1, ALoop true); (1, ACaller false); (2, ACall false); (2, ACaller false); (2, ACaller false);
   (0, AWriter PGo); (1, AWriter PGo); (0, AWriter (PWrite 1)); (0, AWriter PGo); (1, AWriter (PWrite 1)); (1, AWriter PGo);
   (1, AReader PGo); (1, AReader PRead)]%nat.

(** Responses can be mixed up: there is a run in which a work is answered with
    the response to another request, while the work that came when the idle timer
    fired is in a channel that nobody knows any more. *)
Lemma pipeline_responses_cross :
  exists s, reachable (H := pipeline_machine 0) initPipe s /\ pp_done s = [(1%nat, Answered 2)] /\ queue (Some 1%nat) s = [0%nat] /\
    pp_chW s <> Some 1%nat /\ Forall (fun l => lp_chW l <> Some 1%nat) (pp_loops s).
Proof.
  exists (pipeAfter crossing initPipe). split; [apply (pipeAfter_reachable crossing); vm_compute; reflexivity|].
  split; [vm_compute; reflexivity|]. split; [vm_compute; reflexivity|]. split; [vm_compute; discriminate|].
  vm_compute. constructor; [discriminate|]. constructor; [discriminate|constructor].
Qed.
