(* ===== verification/ServerLife.v ===== *)
(** * server.go: listening, limits and shutdown

    Serve, ServeConn and Shutdown around serveConn: the counters of open
    connections and of concurrently served ones, the list of listeners, the
    channel that says the server is done.  The machine has any number of calls of
    each; a step is an atomic operation, a section of the mutex, or what happens
    between two of them.  What serveConn does with its connection is [Server];
    what the worker pool does is [WorkerPool]: here it takes a connection or
    refuses it.  The counters are integers: open is an int32 and concurrency a uint32
    in the code, which agree with them while fewer than 2^31 connections are open. *)
From Stdlib Require Import Strings.String.
From stdpp Require Import gmap sets relations list_tactics.
From S2P Require Import Prelude BytesConv Consts ResponseHeader Machine PerIP.

Definition DefaultConcurrency : Z := 256 * 1024.

Definition uint32_ (n : Z) : Z := n mod 2 ^ 32.

(** serveConn, with its deferred cleanup: before its first count, serving, before
    the two counts of serveConnCleanup, over. *)
Inductive connPc := CnStart | CnServing | CnOpen | CnConc | CnEnd.

(** Serve: before its section, before it counts itself, accepting, with a
    connection (before and after it is counted), refusing it (before and after it
    is uncounted), leaving. *)
Inductive servePc :=
| SvEnter
| SvOpen
| SvAccept
| SvAccepted
| SvPool
| SvOverflow
| SvRefusing
| SvLeave (err : bool)
| SvReturned (err : bool).

(** ServeConn: before its count, over the limit, before it counts the connection,
    in serveConn, before the last count. *)
Inductive ownPc := OwEnter | OwOver | OwOpen | OwConn (pc : connPc) | OwAfter | OwReturned (overLimit : bool).

Inductive shutPc := ShEnter | ShClosing (i : nat) | ShDone | ShWait | ShLeave (err : bool) | ShReturned (err : bool).

(** [Worker sv]: a connection in the worker pool of the Serve call [sv]. *)
Inductive sthread :=
| Serve (ln : nat) (pc : servePc)
| Worker (sv : nat) (pc : connPc)
| OwnConn (pc : ownPc)
| Shutdown (pc : shutPc).

(** [sl_dones]: for every channel done that was made, whether it is closed. *)
Record server := MkSrv {
  sl_open : Z;
  sl_concurrency : Z;
  sl_stop : bool;
  sl_ln : option (list nat);
  sl_closed : list nat;
  sl_done : option nat;
  sl_dones : list bool;
  sl_concurrencyCh : bool;
  sl_mu : option nat;
  sl_threads : list sthread
}.

Definition set_sl_open (v : Z) (s : server) : server :=
  MkSrv v (sl_concurrency s) (sl_stop s) (sl_ln s) (sl_closed s) (sl_done s) (sl_dones s) (sl_concurrencyCh s) (sl_mu s) (sl_threads s).
Definition set_sl_concurrency (v : Z) (s : server) : server :=
  MkSrv (sl_open s) v (sl_stop s) (sl_ln s) (sl_closed s) (sl_done s) (sl_dones s) (sl_concurrencyCh s) (sl_mu s) (sl_threads s).
Definition set_sl_stop (v : bool) (s : server) : server :=
  MkSrv (sl_open s) (sl_concurrency s) v (sl_ln s) (sl_closed s) (sl_done s) (sl_dones s) (sl_concurrencyCh s) (sl_mu s) (sl_threads s).
Definition set_sl_ln (v : option (list nat)) (s : server) : server :=
  MkSrv (sl_open s) (sl_concurrency s) (sl_stop s) v (sl_closed s) (sl_done s) (sl_dones s) (sl_concurrencyCh s) (sl_mu s) (sl_threads s).
Definition set_sl_closed (v : list nat) (s : server) : server :=
  MkSrv (sl_open s) (sl_concurrency s) (sl_stop s) (sl_ln s) v (sl_done s) (sl_dones s) (sl_concurrencyCh s) (sl_mu s) (sl_threads s).
Definition set_sl_done (v : option nat) (l : list bool) (s : server) : server :=
  MkSrv (sl_open s) (sl_concurrency s) (sl_stop s) (sl_ln s) (sl_closed s) v l (sl_concurrencyCh s) (sl_mu s) (sl_threads s).
Definition set_sl_concurrencyCh (v : bool) (s : server) : server :=
  MkSrv (sl_open s) (sl_concurrency s) (sl_stop s) (sl_ln s) (sl_closed s) (sl_done s) (sl_dones s) v (sl_mu s) (sl_threads s).
Definition set_sl_mu (v : option nat) (s : server) : server :=
  MkSrv (sl_open s) (sl_concurrency s) (sl_stop s) (sl_ln s) (sl_closed s) (sl_done s) (sl_dones s) (sl_concurrencyCh s) v (sl_threads s).
Definition set_sl_threads (v : list sthread) (s : server) : server :=
  MkSrv (sl_open s) (sl_concurrency s) (sl_stop s) (sl_ln s) (sl_closed s) (sl_done s) (sl_dones s) (sl_concurrencyCh s) (sl_mu s) v.

Definition goto (t : nat) (th : sthread) (s : server) : server := set_sl_threads (<[t := th]> (sl_threads s)) s.

Section Life.
Context (Concurrency : Z).

Definition Server_getConcurrency : Z := if Concurrency <=? 0 then DefaultConcurrency else Concurrency.

Definition Server_GetCurrentConcurrency (s : server) : Z := sl_concurrency s.

Definition Server_GetOpenConnectionsCount (s : server) : Z := if sl_stop s then sl_open s else sl_open s - 1.

(** A call arrives; a goroutine goes on, with what the world decides: a listener
    or a pool that accepts, a Close or an Accept that fails. *)
Inductive action := ACall (th : sthread) | AGo (ok : bool).

(** Connections of the pool of Serve call [t] that are not over. *)
Definition inPool (t : nat) (th : sthread) : Prop := match th with Worker sv pc => sv = t /\ pc <> CnEnd | _ => False end.
#[global] Instance connPc_eq_dec : EqDecision connPc.
Proof. solve_decision. Defined.
#[global] Instance inPool_dec t th : Decision (inPool t th).
Proof. destruct th; cbn; apply _. Defined.

Definition addOpen (d : Z) (s : server) : server := set_sl_open (sl_open s + d) s.
Definition addConcurrency (d : Z) (s : server) : server := set_sl_concurrency (sl_concurrency s + d) s.

(** The section at the head of Serve. *)
Definition Server_listen (ln : nat) (s : server) : server :=
  let s := set_sl_ln (Some (default [] (sl_ln s) ++ [ln])) s in
  let s := match sl_done s with
           | Some _ => s
           | None => set_sl_done (Some (length (sl_dones s))) (sl_dones s ++ [false]) s
           end in
  set_sl_concurrencyCh true s.

Definition stepServe (t ln : nat) (pc : servePc) (ok : bool) (s : server) : outcome server :=
  let to pc s := To (goto t (Serve ln pc) s) in
  match pc with
  | SvEnter => match sl_mu s with Some _ => Blocked | None => to SvOpen (Server_listen ln s) end
  | SvOpen => to SvAccept (addOpen 1 s)
  | SvAccept =>
      if decide (ln ∈ sl_closed s) then to (SvLeave false) s
      else if ok then to SvAccepted s else to (SvLeave true) s
  | SvAccepted => to SvPool (addOpen 1 s)
  | SvPool =>
      if ok then
        if zlen (filter (inPool t) (sl_threads s)) <? Server_getConcurrency
        then To (set_sl_threads (<[t := Serve ln SvAccept]> (sl_threads s) ++ [Worker t CnStart]) s)
        else Blocked
      else to SvOverflow s
  | SvOverflow => to SvRefusing (addOpen (-1) s)
  | SvRefusing => to SvAccept s
  | SvLeave err => to (SvReturned err) (addOpen (-1) s)
  | SvReturned _ => Blocked
  end.

Definition stepServeConnLife (pc : connPc) (s : server) : option (connPc * server) :=
  match pc with
  | CnStart => Some (CnServing, addConcurrency 1 s)
  | CnServing => Some (CnOpen, s)
  | CnOpen => Some (CnConc, addOpen (-1) s)
  | CnConc => Some (CnEnd, addConcurrency (-1) s)
  | CnEnd => None
  end.

Definition stepServeConnCall (t : nat) (pc : ownPc) (s : server) : outcome server :=
  let to pc s := To (goto t (OwnConn pc) s) in
  match pc with
  | OwEnter =>
      let n := sl_concurrency s + 1 in
      to (if uint32_ Server_getConcurrency <? n then OwOver else OwOpen) (addConcurrency 1 s)
  | OwOver => to (OwReturned true) (addConcurrency (-1) s)
  | OwOpen => to (OwConn CnStart) (addOpen 1 s)
  | OwConn pc =>
      match stepServeConnLife pc s with
      | Some (pc, s) => to (OwConn pc) s
      | None => to OwAfter s
      end
  | OwAfter => to (OwReturned false) (addConcurrency (-1) s)
  | OwReturned _ => Blocked
  end.

(** [Panics]: close of a closed channel. *)
Definition stepShutdown (t : nat) (pc : shutPc) (ok : bool) (s : server) : outcome server :=
  let to pc s := To (goto t (Shutdown pc) s) in
  match pc with
  | ShEnter =>
      match sl_mu s with
      | Some _ => Blocked
      | None =>
          let s := set_sl_stop true (set_sl_mu (Some t) s) in
          to (match sl_ln s with None => ShLeave false | Some _ => ShClosing 0 end) s
      end
  | ShClosing i =>
      match default [] (sl_ln s) !! i with
      | Some ln => if ok then to (ShClosing (S i)) (set_sl_closed (sl_closed s ++ [ln]) s) else to (ShLeave true) s
      | None => to ShDone s
      end
  | ShDone =>
      match sl_done s with
      | Some k =>
          match sl_dones s !! k with
          | Some true => Panics
          | _ => to ShWait (set_sl_done (Some k) (<[k := true]> (sl_dones s)) s)
          end
      | None => to ShWait s
      end
  | ShWait => if sl_open s =? 0 then to (ShLeave false) (set_sl_ln None (set_sl_done None (sl_dones s) s)) else Blocked
  | ShLeave err => to (ShReturned err) (set_sl_mu None (set_sl_stop false s))
  | ShReturned _ => Blocked
  end.

Definition starting (th : sthread) : bool :=
  match th with Serve _ SvEnter | OwnConn OwEnter | Shutdown ShEnter => true | _ => false end.

#[global] Instance serverLife_machine : Machine server action := fun t a s =>
  match a, sl_threads s !! t with
  | ACall th, None => if starting th && bool_decide (t = length (sl_threads s)) then To (set_sl_threads (sl_threads s ++ [th]) s) else Blocked
  | AGo ok, Some (Serve ln pc) => stepServe t ln pc ok s
  | AGo _, Some (Worker sv pc) => match stepServeConnLife pc s with Some (pc, s) => To (goto t (Worker sv pc) s) | None => Blocked end
  | AGo _, Some (OwnConn pc) => stepServeConnCall t pc s
  | AGo ok, Some (Shutdown pc) => stepShutdown t pc ok s
  | _, _ => Blocked
  end.

Definition initServer : server := MkSrv 0 0 false None [] None [] false None [].

(** ** The counts *)

Definition openConn (pc : connPc) : Z := match pc with CnStart | CnServing | CnOpen => 1 | _ => 0 end.
Definition countedConn (pc : connPc) : Z := match pc with CnServing | CnOpen | CnConc => 1 | _ => 0 end.

(** What a goroutine has added to open and not taken back. *)
Definition openShare (th : sthread) : Z :=
  match th with
  | Serve _ (SvAccept | SvAccepted | SvRefusing | SvLeave _) => 1
  | Serve _ (SvPool | SvOverflow) => 2
  | Worker _ pc | OwnConn (OwConn pc) => openConn pc
  | _ => 0
  end.

Definition concurrencyShare (th : sthread) : Z :=
  match th with
  | Worker _ pc => countedConn pc
  | OwnConn (OwOver | OwOpen | OwAfter) => 1
  | OwnConn (OwConn pc) => 1 + countedConn pc
  | _ => 0
  end.

Lemma openShare_nonneg th : 0 <= openShare th.
Proof. destruct th as [ln []|sv []|[| | |[]| |]|]; cbn; lia. Qed.

(** Who holds the mutex, and that done is open until its holder closes it. *)
Definition holds (th : sthread) : bool := match th with Shutdown (ShClosing _ | ShDone | ShWait | ShLeave _) => true | _ => false end.

Record lifeInv (s : server) : Prop := {
  li_open : sl_open s = total openShare (sl_threads s);
  li_concurrency : sl_concurrency s = total concurrencyShare (sl_threads s);
  li_mu : forall t th, sl_threads s !! t = Some th -> holds th = true -> sl_mu s = Some t;
  li_done : match sl_done s with
            | Some k => sl_dones s !! k = Some false \/ (sl_dones s !! k = Some true /\ exists t, sl_threads s !! t = Some (Shutdown ShWait))
            | None => True
            end
}.

Lemma lifeInv_goto s s1 t x y :
  lifeInv s -> sl_threads s !! t = Some x -> sl_threads s1 = sl_threads s ->
  sl_open s1 = sl_open s + (openShare y - openShare x) -> sl_concurrency s1 = sl_concurrency s + (concurrencyShare y - concurrencyShare x) ->
  (forall u th, u <> t -> sl_threads s !! u = Some th -> holds th = true -> sl_mu s1 = Some u) -> (holds y = true -> sl_mu s1 = Some t) ->
  match sl_done s1 with
  | Some k => sl_dones s1 !! k = Some false \/ (sl_dones s1 !! k = Some true /\ exists u, <[t := y]> (sl_threads s) !! u = Some (Shutdown ShWait))
  | None => True
  end -> lifeInv (goto t y s1).
Proof.
  intros [Io Ic Im Id] L Et Eo Ec Hm Hy Hd. split; cbn; rewrite Et.
  - rewrite Eo, Io, (total_insert _ _ _ _ _ L). lia.
  - rewrite Ec, Ic, (total_insert _ _ _ _ _ L). lia.
  - intros u th K Hh. apply list_lookup_insert_Some in K as [(-> & <- & _)|(D & K)]; [by apply Hy|]. by apply (Hm u th).
  - exact Hd.
Qed.

(** Steps that leave the mutex and done alone. *)
Lemma lifeInv_still s s1 t x y :
  lifeInv s -> sl_threads s !! t = Some x -> sl_threads s1 = sl_threads s -> sl_mu s1 = sl_mu s -> sl_done s1 = sl_done s -> sl_dones s1 = sl_dones s ->
  sl_open s1 = sl_open s + (openShare y - openShare x) -> sl_concurrency s1 = sl_concurrency s + (concurrencyShare y - concurrencyShare x) ->
  (holds y = true -> holds x = true) -> x <> Shutdown ShWait -> lifeInv (goto t y s1).
Proof.
  intros I L Et Em Ed Eds Eo Ec Hh Hx. pose proof I as [_ _ Im Id]. eapply lifeInv_goto; [exact I|exact L|exact Et|exact Eo|exact Ec| | |].
  - intros u th _ K Hu. rewrite Em. by apply (Im u th).
  - intros Hy. rewrite Em. by apply (Im t x), Hh.
  - rewrite Ed, Eds. destruct (sl_done s) as [k|]; [|done]. destruct Id as [Id|(Id & u & K)]; [by left|right]. split; [done|]. exists u.
    rewrite list_lookup_insert_ne; [done|]. intros ->. rewrite L in K. by injection K.
Qed.

(** Nobody else holds the mutex. *)
Lemma alone s t x u th :
  lifeInv s -> sl_threads s !! t = Some x -> holds x = true -> sl_threads s !! u = Some th -> holds th = true -> u = t.
Proof. intros I L Hx K Hu. pose proof (li_mu _ I _ _ L Hx). pose proof (li_mu _ I _ _ K Hu). congruence. Qed.

Lemma done_open s t x : lifeInv s -> sl_threads s !! t = Some x -> holds x = true -> x <> Shutdown ShWait ->
  match sl_done s with Some k => sl_dones s !! k = Some false | None => True end.
Proof.
  intros I L Hx Nx. pose proof (li_done _ I) as Hd. destruct (sl_done s) as [k|]; [|done]. destruct Hd as [?|(_ & u & K)]; [done|].
  exfalso. apply Nx. assert (u = t) as -> by (by eapply alone). rewrite L in K. by injection K.
Qed.

Lemma lifeInv_Serve s t ln pc ok :
  lifeInv s -> sl_threads s !! t = Some (Serve ln pc) -> match stepServe t ln pc ok s with Blocked => True | Panics => False | To s' => lifeInv s' end.
Proof.
  intros I L. unfold stepServe.
  assert (forall s1 pc', sl_threads s1 = sl_threads s -> sl_mu s1 = sl_mu s -> sl_done s1 = sl_done s -> sl_dones s1 = sl_dones s ->
    sl_open s1 = sl_open s + (openShare (Serve ln pc') - openShare (Serve ln pc)) -> sl_concurrency s1 = sl_concurrency s -> lifeInv (goto t (Serve ln pc') s1)) as St.
  { intros s1 pc' E1 E2 E3 E4 E5 E6. eapply lifeInv_still; [exact I|exact L|done..| |done|done]. rewrite E6. cbn. lia. }
  destruct pc.
  - destruct (sl_mu s) as [h|] eqn:Em; [done|]. eapply lifeInv_goto; [exact I|exact L|..].
    + unfold Server_listen. cbn. by destruct (sl_done s).
    + unfold Server_listen. cbn. destruct (sl_done s); cbn; lia.
    + unfold Server_listen. cbn. destruct (sl_done s); cbn; lia.
    + intros u th _ K Hu. pose proof (li_mu _ I _ _ K Hu). congruence.
    + done.
    + unfold Server_listen. cbn. pose proof (li_done _ I) as Hd. destruct (sl_done s) as [k|] eqn:Ed; cbn; rewrite ?Ed.
      * destruct Hd as [?|(_ & u & K)]; [by left|]. pose proof (li_mu _ I _ _ K eq_refl). congruence.
      * left. by rewrite list_lookup_middle.
  - apply St; cbn; try done; lia.
  - case_decide; [by apply St; cbn; rewrite ?Z.add_0_r|]. destruct ok; apply St; cbn; try done; lia.
  - apply St; cbn; try done; lia.
  - destruct ok.
    + destruct (_ <? _); [|done]. pose proof I as [Io Ic Im Id]. split; cbn.
      * rewrite total_app, (total_insert _ _ _ _ _ L), Io. cbn. lia.
      * rewrite total_app, (total_insert _ _ _ _ _ L), Ic. cbn. lia.
      * intros u th K Hu. apply lookup_app_Some in K as [K|[_ K]]; [|by apply list_lookup_singleton_Some in K as [_ <-]].
        apply list_lookup_insert_Some in K as [(-> & <- & _)|(D & K)]; [done|]. by apply (Im u th).
      * destruct (sl_done s) as [k|]; [|done]. destruct Id as [?|(Ek & u & K)]; [by left|right]. split; [done|]. exists u. apply lookup_app_l_Some.
        rewrite list_lookup_insert_ne; [done|]. intros ->. rewrite L in K. by injection K.
    + apply St; cbn; try done; lia.
  - apply St; cbn; try done; lia.
  - apply St; cbn; try done; lia.
  - apply St; cbn; try done; lia.
  - done.
Qed.

Lemma conn_shares pc s pc' s' : stepServeConnLife pc s = Some (pc', s') ->
  sl_threads s' = sl_threads s /\ sl_mu s' = sl_mu s /\ sl_done s' = sl_done s /\ sl_dones s' = sl_dones s /\
  sl_open s' = sl_open s + (openConn pc' - openConn pc) /\ sl_concurrency s' = sl_concurrency s + (countedConn pc' - countedConn pc).
Proof. destruct pc; cbn; intros [= <- <-]; cbn; split_and!; try done; lia. Qed.

Lemma lifeInv_OwnConn s t pc :
  lifeInv s -> sl_threads s !! t = Some (OwnConn pc) -> match stepServeConnCall t pc s with Blocked => True | Panics => False | To s' => lifeInv s' end.
Proof.
  intros I L. unfold stepServeConnCall.
  assert (forall s1 pc', sl_threads s1 = sl_threads s -> sl_mu s1 = sl_mu s -> sl_done s1 = sl_done s -> sl_dones s1 = sl_dones s ->
    sl_open s1 = sl_open s + (openShare (OwnConn pc') - openShare (OwnConn pc)) ->
    sl_concurrency s1 = sl_concurrency s + (concurrencyShare (OwnConn pc') - concurrencyShare (OwnConn pc)) -> lifeInv (goto t (OwnConn pc') s1)) as St.
  { intros s1 pc' E1 E2 E3 E4 E5 E6. by eapply lifeInv_still. }
  destruct pc as [| | |pc| |].
  - destruct (_ <? _); apply St; cbn; try done; lia.
  - apply St; cbn; try done; lia.
  - apply St; cbn; try done; lia.
  - destruct (stepServeConnLife pc s) as [[pc' s1]|] eqn:E.
    + apply conn_shares in E as (E1 & E2 & E3 & E4 & E5 & E6). apply St; cbn; try done. lia.
    + destruct pc; try done. apply St; cbn; try done; lia.
  - apply St; cbn; try done; lia.
  - done.
Qed.

Lemma lifeInv_Shutdown s t pc ok :
  lifeInv s -> sl_threads s !! t = Some (Shutdown pc) -> match stepShutdown t pc ok s with Blocked => True | Panics => False | To s' => lifeInv s' end.
Proof.
  intros I L. unfold stepShutdown.
  assert (forall s1 pc', sl_threads s1 = sl_threads s -> sl_mu s1 = sl_mu s -> sl_done s1 = sl_done s -> sl_dones s1 = sl_dones s ->
    sl_open s1 = sl_open s -> sl_concurrency s1 = sl_concurrency s -> holds (Shutdown pc) = true -> pc <> ShWait -> lifeInv (goto t (Shutdown pc') s1)) as St.
  { intros s1 pc' E1 E2 E3 E4 E5 E6 Hh Hn. eapply lifeInv_still; [exact I|exact L|done..| | |done|by intros [= ?]]; [rewrite E5|rewrite E6]; cbn; lia. }
  destruct pc as [|i| | |err|err].
  - destruct (sl_mu s) as [h|] eqn:Em; [done|]. eapply lifeInv_goto; [exact I|exact L|done| | | | |].
    + cbn. lia.
    + cbn. lia.
    + intros u th _ K Hu. pose proof (li_mu _ I _ _ K Hu). congruence.
    + done.
    + cbn. pose proof (li_done _ I) as Hd. destruct (sl_done s) as [k|]; [|done]. destruct Hd as [?|(Ek & u & K)]; [by left|].
      pose proof (li_mu _ I _ _ K eq_refl). congruence.
  - destruct (_ !! i) as [ln|]; [destruct ok|]; by apply St.
  - pose proof (done_open s t _ I L eq_refl ltac:(done)) as Ho. destruct (sl_done s) as [k|] eqn:Ed; [|by apply St]. rewrite Ho.
    eapply lifeInv_goto; [exact I|exact L|done| | | | |]; cbn; try lia.
    + intros u th D K Hu. destruct D. by eapply alone.
    + intros _. by apply (li_mu _ I _ _ L).
    + right. split; [apply list_lookup_insert_eq; by eapply lookup_lt_Some|]. exists t. apply list_lookup_insert_eq. by eapply lookup_lt_Some.
  - destruct (Z.eqb_spec (sl_open s) 0); [|done]. eapply lifeInv_goto; [exact I|exact L|done| | | | |]; cbn; try lia; [|intros _; by apply (li_mu _ I _ _ L)].
    intros u th D K Hu. destruct D. by eapply alone.
  - eapply lifeInv_goto; [exact I|exact L|done| | | | |]; cbn; try lia; try done.
    + intros u th D K Hu. destruct D. by eapply alone.
    + pose proof (done_open s t _ I L eq_refl ltac:(done)) as Ho. destruct (sl_done s); [by left|done].
  - done.
Qed.

Lemma lifeInv_step s t a : lifeInv s -> match step t a s with Blocked => True | Panics => False | To s' => lifeInv s' end.
Proof.
  intros I. unfold step, serverLife_machine. destruct a as [th|ok], (sl_threads s !! t) as [x|] eqn:L; try done.
  - destruct (starting th) eqn:Hs; cbn [andb]; [|done]. case_bool_decide; [|done]. pose proof I as [Io Ic Im Id]. split; cbn.
    + rewrite total_app, Io. destruct th as [ln []|sv []|[| | |[]| |]|[]]; cbn in *; try done; lia.
    + rewrite total_app, Ic. destruct th as [ln []|sv []|[| | |[]| |]|[]]; cbn in *; try done; lia.
    + intros u y K Hu. apply lookup_app_Some in K as [K|[_ K]]; [by apply (Im u y)|]. apply list_lookup_singleton_Some in K as [_ <-].
      by destruct th as [ln []|sv []|[| | |[]| |]|[]].
    + destruct (sl_done s) as [k|]; [|done]. destruct Id as [?|(Ek & u & K)]; [by left|right]. split; [done|]. exists u. by apply lookup_app_l_Some.
  - destruct x as [ln pc|sv pc|pc|pc].
    + by apply lifeInv_Serve.
    + destruct (stepServeConnLife pc s) as [[pc' s1]|] eqn:E; [|done]. apply conn_shares in E as (E1 & E2 & E3 & E4 & E5 & E6). by eapply lifeInv_still.
    + by apply lifeInv_OwnConn.
    + by apply lifeInv_Shutdown.
Qed.

Lemma lifeInv_reachable s : reachable initServer s -> lifeInv s.
Proof.
  apply reachable_invariant; [by split|]. intros t a s1 s2 I E. pose proof (lifeInv_step s1 t a I) as H. by rewrite E in H.
Qed.

(** ** Listeners *)

Definition listeners (s : server) : list nat := default [] (sl_ln s).

Record regInv (s : server) : Prop := {
  rg_serve : forall t ln pc, sl_threads s !! t = Some (Serve ln pc) -> pc <> SvEnter -> ln ∈ listeners s \/ ln ∈ sl_closed s;
  rg_closing : forall t i, sl_threads s !! t = Some (Shutdown (ShClosing i)) -> forall l, l ∈ take i (listeners s) -> l ∈ sl_closed s;
  rg_closed : forall t pc, sl_threads s !! t = Some (Shutdown pc) -> pc = ShDone \/ pc = ShWait -> forall l, l ∈ listeners s -> l ∈ sl_closed s
}.

(** Steps of other goroutines, on other fields. *)
Lemma regInv_goto s s1 t x y :
  regInv s -> sl_threads s !! t = Some x -> sl_threads s1 = sl_threads s -> sl_ln s1 = sl_ln s -> (forall l, l ∈ sl_closed s -> l ∈ sl_closed s1) ->
  match y with
  | Serve ln pc => pc <> SvEnter -> ln ∈ listeners s \/ ln ∈ sl_closed s1
  | Shutdown (ShClosing i) => forall l, l ∈ take i (listeners s) -> l ∈ sl_closed s1
  | Shutdown (ShDone | ShWait) => forall l, l ∈ listeners s -> l ∈ sl_closed s1
  | _ => True
  end -> regInv (goto t y s1).
Proof.
  intros [R1 R2 R3] L Et El Ec Hy. unfold listeners in *.
  split; cbn; unfold listeners; cbn; rewrite Et, El; intros u.
  - intros ln pc K N. apply list_lookup_insert_Some in K as [(-> & -> & _)|(D & K)]; [by apply Hy|]. destruct (R1 u ln pc K N); auto.
  - intros i K l Hl. apply list_lookup_insert_Some in K as [(-> & -> & _)|(D & K)]; [by apply Hy|]. by apply Ec, (R2 u i).
  - intros pc K Hpc l Hl. apply list_lookup_insert_Some in K as [(-> & -> & _)|(D & K)]; [destruct Hpc as [-> | ->]; by apply Hy|]. by apply Ec, (R3 u pc).
Qed.

Lemma conn_listeners pc s pc' s' : stepServeConnLife pc s = Some (pc', s') -> sl_ln s' = sl_ln s /\ sl_closed s' = sl_closed s.
Proof. by destruct pc; cbn; intros [= <- <-]. Qed.

Lemma regInv_Serve s t ln pc ok s' :
  lifeInv s -> regInv s -> sl_threads s !! t = Some (Serve ln pc) -> stepServe t ln pc ok s = To s' -> regInv s'.
Proof.
  intros I R L. unfold stepServe.
  assert (forall s1 pc', pc <> SvEnter -> sl_threads s1 = sl_threads s -> sl_ln s1 = sl_ln s -> sl_closed s1 = sl_closed s -> regInv (goto t (Serve ln pc') s1)) as St.
  { intros s1 pc' N E1 E2 E3. eapply regInv_goto; [exact R|exact L|done|done|by rewrite E3|]. intros _. rewrite E3. by apply (rg_serve _ R t ln pc). }
  destruct pc.
  - destruct (sl_mu s) eqn:Em; [done|]. intros [= <-]. pose proof R as [R1 R2 R3].
    assert (listeners (Server_listen ln s) = listeners s ++ [ln] /\ sl_closed (Server_listen ln s) = sl_closed s /\ sl_threads (Server_listen ln s) = sl_threads s) as (El & Ec & Et).
    { unfold Server_listen, listeners. cbn. by destruct (sl_done s). }
    split; unfold listeners; cbn [goto set_sl_threads sl_ln sl_threads sl_closed]; fold (listeners (Server_listen ln s)); rewrite ?El, ?Ec, ?Et; intros u.
    + intros ln' pc' K N. apply list_lookup_insert_Some in K as [(-> & [= <- <-] & _)|(D & K)]; [left; set_solver|]. destruct (R1 u ln' pc' K N); set_solver.
    + intros i K. apply list_lookup_insert_Some in K as [(-> & ? & _)|(D & K)]; [done|]. pose proof (li_mu _ I _ _ K eq_refl). congruence.
    + intros pc' K Hpc. apply list_lookup_insert_Some in K as [(-> & ? & _)|(D & K)]; [done|].
      assert (holds (Shutdown pc') = true) as Hh by by destruct Hpc as [-> | ->]. pose proof (li_mu _ I _ _ K Hh). congruence.
  - intros [= <-]. by apply St.
  - case_decide; [|destruct ok]; intros [= <-]; by apply St.
  - intros [= <-]. by apply St.
  - destruct ok; [|intros [= <-]; by apply St]. destruct (_ <? _); [|done]. intros [= <-]. pose proof R as [R1 R2 R3].
    assert (forall u th, (<[t := Serve ln SvAccept]> (sl_threads s) ++ [Worker t CnStart]) !! u = Some th -> th = Serve ln SvAccept \/ th = Worker t CnStart \/ sl_threads s !! u = Some th) as Lk.
    { intros u th K. apply lookup_app_Some in K as [K|[_ K]]; [|apply list_lookup_singleton_Some in K as [_ <-]; auto].
      apply list_lookup_insert_Some in K as [(_ & <- & _)|(_ & K)]; auto. }
    split; cbn; intros u.
    + intros ln' pc' K N. apply Lk in K as [[= -> ->]|[?|K]]; [by apply (R1 t ln SvPool)|done|by apply (R1 u ln' pc')].
    + intros i K. apply Lk in K as [?|[?|K]]; [done..|by apply (R2 u i)].
    + intros pc' K. apply Lk in K as [?|[?|K]]; [done..|by apply (R3 u pc')].
  - intros [= <-]. by apply St.
  - intros [= <-]. by apply St.
  - intros [= <-]. by apply St.
  - done.
Qed.

Lemma regInv_Shutdown s t pc ok s' :
  lifeInv s -> regInv s -> sl_threads s !! t = Some (Shutdown pc) -> stepShutdown t pc ok s = To s' -> regInv s'.
Proof.
  intros I R L. unfold stepShutdown. destruct pc as [|i| | |err|err].
  - destruct (sl_mu s) eqn:Em; [done|]. intros [= <-]. eapply regInv_goto; [exact R|exact L|done|done|done|]. cbn. destruct (sl_ln s); [|done].
    intros l0 K. by apply not_elem_of_nil in K.
  - destruct (default [] (sl_ln s) !! i) as [ln|] eqn:El.
    + destruct ok; intros [= <-]; (eapply regInv_goto; [exact R|exact L|done|done| |]); cbn; try done; [intros l ?; set_solver|].
      intros l. unfold listeners. rewrite (take_S_r _ _ _ El). rewrite elem_of_app, list_elem_of_singleton. intros [K| ->]; [|set_solver].
      apply elem_of_app. left. by apply (rg_closing _ R t i).
    + intros [= <-]. eapply regInv_goto; [exact R|exact L|done|done|done|]. cbn. intros l K. apply (rg_closing _ R t i L).
      unfold listeners in *. rewrite take_ge; [done|]. by apply lookup_ge_None_1.
  - pose proof (rg_closed _ R t ShDone L (or_introl eq_refl)) as H. destruct (sl_done s) as [k|]; [destruct (sl_dones s !! k) as [[]|]|]; try done;
      intros [= <-]; (eapply regInv_goto; [exact R|exact L|done|done|done|]); exact H.
  - destruct (sl_open s =? 0); [|done]. intros [= <-]. pose proof (rg_closed _ R t ShWait L (or_intror eq_refl)) as H. pose proof R as [R1 R2 R3]. split; cbn; intros u.
    + intros ln pc K N. apply list_lookup_insert_Some in K as [(-> & ? & _)|(D & K)]; [done|]. right. destruct (R1 u ln pc K N); auto.
    + intros i K l Hl. unfold listeners in Hl. cbn in Hl. rewrite take_nil in Hl. by apply not_elem_of_nil in Hl.
    + intros pc K _ l Hl. by apply not_elem_of_nil in Hl.
  - intros [= <-]. eapply regInv_goto; [exact R|exact L|done|done|done|]. done.
  - done.
Qed.

Lemma regInv_step s t a s' : lifeInv s -> regInv s -> step t a s = To s' -> regInv s'.
Proof.
  intros I R E. unfold step, serverLife_machine in E. destruct a as [th|ok], (sl_threads s !! t) as [x|] eqn:L; try done.
  - destruct (starting th) eqn:Hs; cbn [andb] in E; [|done]. case_bool_decide; [|done]. injection E as <-. destruct R as [R1 R2 R3].
    assert (forall u y, (sl_threads s ++ [th]) !! u = Some y -> sl_threads s !! u = Some y \/ y = th) as Lk.
    { intros u y K. apply lookup_app_Some in K as [K|[_ K]]; [by left|]. apply list_lookup_singleton_Some in K as [_ <-]. by right. }
    split; cbn; intros u.
    + intros ln pc K N. apply Lk in K as [K| <-]; [by apply (R1 u ln pc)|]. by destruct pc.
    + intros i K. apply Lk in K as [K| <-]; [by apply (R2 u i)|done].
    + intros pc K Hpc. apply Lk in K as [K| <-]; [by apply (R3 u pc)|]. by destruct Hpc as [-> | ->].
  - destruct x as [ln pc|sv pc|pc|pc].
    + by eapply regInv_Serve.
    + destruct (stepServeConnLife pc s) as [[pc' s1]|] eqn:Ec; [|done]. injection E as <-. pose proof (conn_listeners _ _ _ _ Ec) as [E1 E2].
      apply conn_shares in Ec as (E3 & _). eapply regInv_goto; [exact R|exact L|exact E3|exact E1|by rewrite E2|done].
    + unfold stepServeConnCall in E. destruct pc as [| | |pc| |]; try done; try (injection E as <-; eapply regInv_goto; [exact R|exact L|done|done|done|done]).
      destruct (stepServeConnLife pc s) as [[pc' s1]|] eqn:Ec; injection E as <-; [|eapply regInv_goto; [exact R|exact L|done|done|done|done]].
      pose proof (conn_listeners _ _ _ _ Ec) as [E1 E2]. apply conn_shares in Ec as (E3 & _). eapply regInv_goto; [exact R|exact L|exact E3|exact E1|by rewrite E2|done].
    + by eapply regInv_Shutdown.
Qed.

Lemma life_reachable s : reachable initServer s -> lifeInv s /\ regInv s.
Proof.
  apply (reachable_invariant (fun s => lifeInv s /\ regInv s)).
  - split; [by split|]. by split.
  - intros t a s1 s2 [I R] E. pose proof (lifeInv_step s1 t a I) as H. rewrite E in H. split; [done|]. exact (regInv_step s1 t a s2 I R E).
Qed.

(** ** The end of the wait *)

(** The steps until a goroutine has taken back what it counted. *)
Definition weight (th : sthread) : Z :=
  match th with
  | Serve _ SvAccepted => 6
  | Serve _ SvPool => 5
  | Serve _ SvOverflow => 4
  | Serve _ SvRefusing => 3
  | Serve _ SvAccept => 2
  | Serve _ (SvLeave _) => 1
  | Worker _ CnStart | OwnConn (OwConn CnStart) => 3
  | Worker _ CnServing | OwnConn (OwConn CnServing) => 2
  | Worker _ CnOpen | OwnConn (OwConn CnOpen) => 1
  | _ => 0
  end.

Lemma weight_nonneg th : 0 <= weight th.
Proof. destruct th as [ln []|sv []|[| | |[]| |]|]; cbn; lia. Qed.

Lemma goto_weight s1 s u x y t : sl_threads s1 = sl_threads s -> sl_threads s !! u = Some x -> weight y < weight x -> x <> Shutdown ShWait ->
  sl_threads s !! t = Some (Shutdown ShWait) ->
  total weight (sl_threads (goto u y s1)) < total weight (sl_threads s) /\ sl_threads (goto u y s1) !! t = Some (Shutdown ShWait).
Proof.
  intros Et L Hw Hx K. cbn. rewrite Et, (total_insert _ _ _ _ _ L). split; [lia|]. rewrite list_lookup_insert_ne; [done|]. intros ->. congruence.
Qed.

Lemma drain_step s t :
  lifeInv s -> regInv s -> sl_threads s !! t = Some (Shutdown ShWait) -> sl_open s <> 0 ->
  exists u s', step u (AGo false) s = To s' /\ total weight (sl_threads s') < total weight (sl_threads s) /\ sl_threads s' !! t = Some (Shutdown ShWait).
Proof.
  intros I R K Ho. pose proof (total_nonneg openShare (sl_threads s) openShare_nonneg) as Hn. rewrite <- (li_open _ I) in Hn.
  destruct (total_pos openShare (sl_threads s)) as (u & x & L & Hx); [rewrite <- (li_open _ I); lia|]. exists u.
  unfold step, serverLife_machine. rewrite L.
  assert (forall s1 y, sl_threads s1 = sl_threads s -> weight y < weight x -> exists s', To (goto u y s1) = To s' /\
    total weight (sl_threads s') < total weight (sl_threads s) /\ sl_threads s' !! t = Some (Shutdown ShWait)) as Go.
  { intros s1 y Et Hw. exists (goto u y s1). split; [done|]. eapply goto_weight; [exact Et|exact L|exact Hw| |exact K]. intros ->. by cbn in Hx. }
  destruct x as [ln pc|sv pc|pc|pc]; cbn in Hx; [| |destruct pc as [| | |pc| |]; try done|done].
  - unfold stepServe. destruct pc; try (cbn in Hx; lia); try (by apply Go).
    rewrite decide_True; [by apply Go|]. destruct (rg_serve _ R u ln SvAccept L) as [H|H]; [done| |exact H].
    by apply (rg_closed _ R t ShWait K (or_intror eq_refl)).
  - destruct pc; cbn in Hx; try lia; cbn; by apply Go.
  - unfold stepServeConnCall. destruct pc; cbn in Hx; try lia; cbn; by apply Go.
Qed.

(** A step of a goroutine that is already running: no call begins. *)
Definition goes (ta : nat * action) : Prop := match ta.2 with AGo _ => True | ACall _ => False end.

Lemma drain n s t :
  lifeInv s -> regInv s -> sl_threads s !! t = Some (Shutdown ShWait) -> total weight (sl_threads s) <= Z.of_nat n ->
  exists sched s', Forall goes sched /\ run sched s = To s' /\ sl_threads s' !! t = Some (Shutdown ShWait) /\ sl_open s' = 0.
Proof.
  revert s. induction n as [|n IH]; intros s I R K Hw; (destruct (decide (sl_open s = 0)) as [E|E]; [by exists [], s|]);
    destruct (drain_step s t I R K E) as (u & s1 & Es & Hlt & K1); pose proof (total_nonneg weight (sl_threads s1) weight_nonneg); [lia|].
  pose proof (lifeInv_step s u (AGo false) I) as I1. rewrite Es in I1. pose proof (regInv_step _ _ _ _ I R Es) as R1.
  destruct (IH s1 I1 R1 K1) as (sched & s2 & Hg & Hr & H2); [lia|]. exists ((u, AGo false) :: sched), s2.
  split; [by constructor|]. split; [|exact H2]. cbn [run]. by rewrite Es.
Qed.

End Life.

(** ** Errors in haste *)

(** writeFastError: what is written to a connection that is refused.  [date] is
    the value of the Date field. *)
Definition Server_writeFastError (serverName : option bytes) (date : option bytes) (statusCode : Z) (msg : bytes) : option bytes :=
  line ← statusLine statusCode;
  Some (line ++ bs "Connection: close" ++ strCRLF ++
        match serverName with Some n => bs "Server: " ++ n ++ strCRLF | None => [] end ++
        match date with Some d => bs "Date: " ++ d ++ strCRLF | None => [] end ++
        bs "Content-Type: text/plain" ++ strCRLF ++ bs "Content-Length: " ++ fmtInt (zlen msg) ++ strCRLF ++ strCRLF ++ msg).

(** ** Accepting *)

(** What Accept returns: a connection from an address (0: not IPv4), a temporary
    error, an error that says the listener is closed or that input ended, another
    error, or one of the two results the interface excludes. *)
Inductive acceptRes := AcConn (ip : Z) | AcTemporary | AcClosed | AcPermanent | AcNil | AcBoth.

Inductive accepted := AcceptedConn (ip : Z) (counts : bool) | AcceptEOF | AcceptErr.

(** wrapPerIPConn: the counter after it, and whether Close will uncount the
    connection, or nothing when it was refused. *)
Definition wrapPerIPConn (MaxConnsPerIP ip : Z) (cc : perIPConnCounter) : outcome (perIPConnCounter * option bool) :=
  if ip =? 0 then To (cc, Some false)
  else
    let '(cc, n) := perIPConnCounter_Register cc ip in
    if MaxConnsPerIP <? n
    then match perIPConnCounter_Unregister cc ip with Some cc => To (cc, None) | None => Panics end
    else To (cc, Some true).

(** acceptConn on what Accept returns from now on: the connection or the error,
    the counter, the addresses that were refused, and the results not yet asked for;
    [Blocked] when Accept has not returned. *)
Fixpoint acceptConn (MaxConnsPerIP : Z) (rs : list acceptRes) (cc : perIPConnCounter) : outcome (accepted * perIPConnCounter * list Z * list acceptRes) :=
  match rs with
  | [] => Blocked
  | AcTemporary :: rs => acceptConn MaxConnsPerIP rs cc
  | AcClosed :: rs => To (AcceptEOF, cc, [], rs)
  | AcPermanent :: rs => To (AcceptErr, cc, [], rs)
  | (AcNil | AcBoth) :: _ => Panics
  | AcConn ip :: rs =>
      if 0 <? MaxConnsPerIP
      then obind (fun '(cc, w) =>
             match w with
             | Some b => To (AcceptedConn ip b, cc, [], rs)
             | None => obind (fun '(r, cc, refused, rs) => To (r, cc, ip :: refused, rs)) (acceptConn MaxConnsPerIP rs cc)
             end) (wrapPerIPConn MaxConnsPerIP ip cc)
      else To (AcceptedConn ip false, cc, [], rs)
  end.

(** * Properties *)

(** C21. The counters of a server are exact: under every interleaving of Serve,
    ServeConn and Shutdown, open is the number of Serve loops and of connections
    between their acceptance and the end of serveConn, concurrency is one for each
    connection in serveConn and one more for each call of ServeConn; neither is
    ever negative, and Shutdown never closes a closed channel. *)
Theorem server_counters_exact (Concurrency : Z) (s : server) (R : reachable (H := serverLife_machine Concurrency) initServer s) :
  sl_open s = total openShare (sl_threads s) /\ sl_concurrency s = total concurrencyShare (sl_threads s) /\ 0 <= sl_open s /\ 0 <= sl_concurrency s /\
  forall t a, step (Machine := serverLife_machine Concurrency) t a s <> Panics.
Proof.
  destruct (life_reachable _ s R) as [I _]. split; [apply I|]. split; [apply I|]. split; [|split].
  - rewrite (li_open _ I). apply total_nonneg, openShare_nonneg.
  - rewrite (li_concurrency _ I). apply total_nonneg. intros [ln []|sv []|[| | |[]| |]|]; cbn; lia.
  - intros t a E. pose proof (lifeInv_step Concurrency s t a I) as H. by rewrite E in H.
Qed.

(** C20. Shutdown waits: when it stops waiting no connection is open, between its
    acceptance and the end of serveConn, in any goroutine, and every Serve loop
    that had begun to accept has left. *)
Theorem Shutdown_waits (Concurrency : Z) (s s' : server) (t : nat) (ok : bool)
    (R : reachable (H := serverLife_machine Concurrency) initServer s) (K : sl_threads s !! t = Some (Shutdown ShWait))
    (E : step (Machine := serverLife_machine Concurrency) t (AGo ok) s = To s') :
  (forall u th, sl_threads s' !! u = Some th -> openShare th = 0) /\ sl_ln s' = None /\ sl_done s' = None.
Proof.
  destruct (life_reachable _ s R) as [I _]. unfold step, serverLife_machine in E. rewrite K in E. cbn in E.
  destruct (Z.eqb_spec (sl_open s) 0) as [Eo|]; [|done]. injection E as <-. split; [|done]. intros u th L. cbn in L.
  apply list_lookup_insert_Some in L as [(-> & <- & _)|(D & L)]; [done|].
  apply (total_zero openShare (sl_threads s) u); [apply openShare_nonneg|by rewrite <- (li_open _ I)|exact L].
Qed.

(** C22. Shutdown can always return: from every reachable state in which it waits
    there is a schedule of steps of the goroutines that are already running, with
    no call of Serve, ServeConn or Shutdown among them, that runs to its return
    without an error: every Serve loop finds its listener closed and leaves, every
    connection ends when serveConn does. *)
Theorem Shutdown_returns (Concurrency : Z) (s : server) (t : nat)
    (R : reachable (H := serverLife_machine Concurrency) initServer s) (K : sl_threads s !! t = Some (Shutdown ShWait)) :
  exists sched s', Forall goes sched /\ run (H := serverLife_machine Concurrency) sched s = To s' /\
    sl_threads s' !! t = Some (Shutdown (ShReturned false)).
Proof.
  destruct (life_reachable _ s R) as [I Rg]. destruct (drain Concurrency (Z.to_nat (total weight (sl_threads s))) s t I Rg K) as (sched & s1 & Hg & R1 & K1 & E1).
  { pose proof (total_nonneg weight (sl_threads s) weight_nonneg). lia. }
  pose proof (lookup_lt_Some _ _ _ K1) as Hl. exists (sched ++ [(t, AGo true); (t, AGo true)]). eexists. split; [|split].
  - apply Forall_app. by repeat constructor.
  - rewrite run_app, R1. cbn [obind run]. unfold step, serverLife_machine. rewrite K1. cbn. rewrite E1. cbn. rewrite list_lookup_insert_eq by done. reflexivity.
  - cbn. rewrite list_lookup_insert_eq; [done|]. by rewrite length_insert.
Qed.

(** Two listeners, a connection on the first, and Shutdown. *)
Definition shutdownRun : list (nat * action) :=
  [(0, ACall (Serve 0 SvEnter)); (1, ACall (Serve 1 SvEnter)); (0, AGo true); (1, AGo true); (0, AGo true); (1, AGo true);
   (0, AGo true); (0, AGo true); (0, AGo true); (2, AGo true); (3, ACall (Shutdown ShEnter)); (3, AGo true); (3, AGo true); (3, AGo true); (3, AGo true);
   (3, AGo true)]%nat.
Definition drainRun : list (nat * action) := [(0, AGo true); (1, AGo true); (0, AGo true); (1, AGo true); (2, AGo true); (2, AGo true)]%nat.

Definition serverAfter (sched : list (nat * action)) : server :=
  match run (H := serverLife_machine 0) sched initServer with To s => s | _ => initServer end.

Lemma serverAfter_reachable sched :
  match run (H := serverLife_machine 0) sched initServer with To _ => true | _ => false end = true -> reachable (H := serverLife_machine 0) initServer (serverAfter sched).
Proof. unfold serverAfter. destruct (run sched initServer) as [| |s] eqn:E; [done|done|]. intros _. by apply (run_reachable (H := serverLife_machine 0) sched). Qed.

Lemma server_counters_exact_witness :
  reachable (H := serverLife_machine 0) initServer (serverAfter shutdownRun) /\ sl_open (serverAfter shutdownRun) = 3 /\
  sl_open (serverAfter shutdownRun) = total openShare (sl_threads (serverAfter shutdownRun)).
Proof.
  assert (reachable (H := serverLife_machine 0) initServer (serverAfter shutdownRun)) as R by (apply serverAfter_reachable; vm_compute; reflexivity).
  split; [exact R|]. split; [vm_compute; reflexivity|]. exact (proj1 (server_counters_exact 0 _ R)).
Defined.

Lemma Shutdown_waits_witness :
  let s := serverAfter (shutdownRun ++ drainRun) in
  sl_threads s !! 3%nat = Some (Shutdown ShWait) /\
  match step (Machine := serverLife_machine 0) 3 (AGo true) s with To s' => sl_ln s' = None | _ => False end.
Proof.
  cbv zeta. assert (reachable (H := serverLife_machine 0) initServer (serverAfter (shutdownRun ++ drainRun))) as R by (apply serverAfter_reachable; vm_compute; reflexivity).
  assert (sl_threads (serverAfter (shutdownRun ++ drainRun)) !! 3%nat = Some (Shutdown ShWait)) as K by (vm_compute; reflexivity).
  split; [exact K|]. destruct (step (Machine := serverLife_machine 0) 3 (AGo true) (serverAfter (shutdownRun ++ drainRun))) as [| |s'] eqn:E.
  1,2: vm_compute in E; discriminate E.
  exact (proj1 (proj2 (Shutdown_waits 0 _ s' 3 true R K E))).
Defined.

Lemma Shutdown_returns_witness :
  sl_threads (serverAfter shutdownRun) !! 3%nat = Some (Shutdown ShWait) /\ sl_open (serverAfter shutdownRun) = 3 /\
  exists sched s', Forall goes sched /\ run (H := serverLife_machine 0) sched (serverAfter shutdownRun) = To s' /\
    sl_threads s' !! 3%nat = Some (Shutdown (ShReturned false)).
Proof.
  assert (reachable (H := serverLife_machine 0) initServer (serverAfter shutdownRun)) as R by (apply serverAfter_reachable; vm_compute; reflexivity).
  assert (sl_threads (serverAfter shutdownRun) !! 3%nat = Some (Shutdown ShWait)) as K by (vm_compute; reflexivity).
  split; [exact K|]. split; [vm_compute; reflexivity|]. exact (Shutdown_returns 0 _ 3 R K).
Defined.

(** One connection given to ServeConn counts twice. *)
Lemma ServeConn_counts_twice :
  Server_GetCurrentConcurrency (serverAfter [(0, ACall (OwnConn OwEnter)); (0, AGo true); (0, AGo true); (0, AGo true)]%nat) = 2.
Proof. vm_compute. reflexivity. Qed.

(** GetOpenConnectionsCount takes one off for a listener, however many there are:
    without any connection it is -1 for a server without listeners (one that uses
    ServeConn) and 1 with two of them. *)
Lemma GetOpenConnectionsCount_off :
  Server_GetOpenConnectionsCount initServer = -1 /\
  Server_GetOpenConnectionsCount (serverAfter [(0, ACall (Serve 0 SvEnter)); (1, ACall (Serve 1 SvEnter)); (0, AGo true); (1, AGo true); (0, AGo true); (1, AGo true)]%nat) = 1.
Proof. split; vm_compute; reflexivity. Qed.

(** A refusal on the wire. *)
Lemma writeFastError_text :
  Server_writeFastError (Some (bs "fasthttp")) None 503 (bs "no") =
  Some (bs "HTTP/1.1 503 Service Unavailable" ++ strCRLF ++ bs "Connection: close" ++ strCRLF ++ bs "Server: fasthttp" ++ strCRLF ++
        bs "Content-Type: text/plain" ++ strCRLF ++ bs "Content-Length: 2" ++ strCRLF ++ strCRLF ++ bs "no").
Proof. vm_compute. reflexivity. Qed.

(** Shutdown of a server that only has ServeConn calls returns at once, with its
    connections still open. *)
Lemma Shutdown_leaves_own_connections :
  let s := serverAfter [(0, ACall (OwnConn OwEnter)); (0, AGo true); (0, AGo true); (0, AGo true); (1, ACall (Shutdown ShEnter)); (1, AGo true); (1, AGo true)]%nat in
  sl_threads s = [OwnConn (OwConn CnServing); Shutdown (ShReturned false)] /\ sl_open s = 1.
Proof. split; vm_compute; reflexivity. Qed.

(** wrapPerIPConn: a refused connection leaves every count as it was, a wrapped one
    has its address counted once more, within the limit. *)
Lemma wrapPerIPConn_spec (MaxConnsPerIP ip : Z) (m : gmap Z Z) (W : forall x, 0 <= counterGet m x) :
  exists m' w, wrapPerIPConn MaxConnsPerIP ip (Some m) = To (Some m', w) /\
    match w with
    | None => MaxConnsPerIP <= counterGet m ip /\ forall x, counterGet m' x = counterGet m x
    | Some true => counterGet m' ip <= MaxConnsPerIP /\ forall x, counterGet m' x = counterGet m x + if decide (ip = x) then 1 else 0
    | Some false => ip = 0 /\ m' = m
    end.
Proof.
  unfold wrapPerIPConn. destruct (Z.eqb_spec ip 0) as [->|Hz]; [by exists m, (Some false)|]. cbn. specialize (W ip) as Hw.
  destruct (Z.ltb_spec MaxConnsPerIP (counterGet m ip + 1)) as [H|H].
  - rewrite counterGet_insert, decide_True by done. rewrite (proj2 (Z.ltb_ge _ _)) by lia.
    eexists _, None. split; [done|]. split; [lia|]. intros x. rewrite !counterGet_insert. case_decide; [subst; lia|done].
  - eexists _, (Some true). split; [done|]. split; [rewrite counterGet_insert, decide_True by done; lia|].
    intros x. rewrite counterGet_insert. case_decide; [subst; lia|lia].
Qed.

(** acceptConn: whatever was refused on the way leaves no trace in the counter, and
    was at the limit; only a value that Accept may not return makes it panic. *)
Lemma acceptConn_spec (MaxConnsPerIP : Z) (rs : list acceptRes) (m : gmap Z Z) (Hm : 0 < MaxConnsPerIP) (W : forall x, 0 <= counterGet m x) :
  match acceptConn MaxConnsPerIP rs (Some m) with
  | Blocked => True
  | Panics => AcNil ∈ rs \/ AcBoth ∈ rs
  | To (r, cc, refused, _) =>
      Forall (fun ip => MaxConnsPerIP <= counterGet m ip) refused /\
      exists m', cc = Some m' /\
        match r with
        | AcceptedConn ip true => counterGet m' ip <= MaxConnsPerIP /\ forall x, counterGet m' x = counterGet m x + if decide (ip = x) then 1 else 0
        | _ => forall x, counterGet m' x = counterGet m x
        end
  end.
Proof.
  revert m W. induction rs as [|[ip| | | | |] rs IH]; intros m W; cbn [acceptConn]; [done| | | | | |].
  - rewrite (proj2 (Z.ltb_lt _ _)) by done. destruct (wrapPerIPConn_spec MaxConnsPerIP ip m W) as (m' & w & -> & Hw). cbn [obind].
    destruct w as [[|]|].
    + split; [constructor|]. by exists m'.
    + destruct Hw as [_ ->]. split; [constructor|]. by exists m.
    + destruct Hw as [Hl He]. assert (forall x, 0 <= counterGet m' x) as W' by (intros x; rewrite He; apply W). specialize (IH m' W').
      destruct (acceptConn MaxConnsPerIP rs (Some m')) as [| |[[[r cc] refused] rest]]; cbn [obind]; [done| |].
      * destruct IH; [left|right]; by right.
      * destruct IH as [F (m2 & -> & H2)]. split.
        -- constructor; [done|]. eapply Forall_impl; [exact F|]. intros x. cbn. by rewrite He.
        -- exists m2. split; [done|]. destruct r as [x [|]| |]; [destruct H2 as [? H2]; split; [done|]|..]; intros y; by rewrite H2, He.
  - specialize (IH m W). destruct (acceptConn MaxConnsPerIP rs (Some m)) as [| |[[[r cc] refused] rest]]; [done| |exact IH].
    destruct IH; [left|right]; by right.
  - split; [constructor|]. by exists m.
  - split; [constructor|]. by exists m.
  - left. left.
  - right. left.
Qed.
