(* ===== verification/Timeouts.v ===== *)
(** * server.go: handlers with a timeout

    TimeoutWithCodeHandler around a handler, any number of times, between the
    connections that call it, the goroutines it starts and its timers; with the
    pool of contexts, because a handler that is late keeps its context.  The
    channel and the timer of a context are made once and kept, so that they are
    part of the context here; a step is an operation on a channel, a timer or the
    pool, or the code between two of them. *)
From stdpp Require Import sets relations list_tactics.
From S2P Require Import Prelude Machine.

(** time.Timer: stopped with nothing in its channel, running, or fired with the
    time in its channel. *)
Inductive timer := TmStopped | TmActive | TmFired.

(** [None] is a panic. *)
Definition initTimer (t : option timer) : option timer :=
  match t with
  | None | Some TmStopped => Some TmActive
  | Some TmActive => None
  | Some TmFired => Some TmFired
  end.

(** Stop, and the time taken out of the channel if it came too late. *)
Definition stopTimer (t : timer) : timer := match t with TmActive => TmStopped | TmFired => TmStopped | TmStopped => TmStopped end.

(** [tx_ch]: timeoutCh, by the number of signals in it; [tx_timedOut]: whether
    timeoutResponse is set. *)
Record tcontext := MkTx { tx_ch : option nat; tx_timer : option timer; tx_timedOut : bool }.

Definition newTx : tcontext := MkTx None None false.

(** The stages of a goroutine: about to run the handler below [d] timeouts; it has
    put its token into concurrencyCh; it has the channel; it has started the
    goroutine of the handler; it waits; the timer has fired; it stops the timer;
    the handler has returned; and for the connection: the response is to be
    written, idle between two requests, over; for a started goroutine: it has
    signalled, it is over. *)
Inductive tstage :=
| THandle (d : nat)
| TChan (d : nat)
| TSpawn (d : nat)
| TInit
| TWait
| TTimeout
| TStop
| TBack
| TWrite
| TIdle
| TGone
| TRelease
| TEnd.

#[export] Instance tstage_eq_dec : EqDecision tstage.
Proof. solve_decision. Defined.

(** A goroutine of a connection, or one that runs a handler with a timeout. *)
Record tthread := MkTt { tt_conn : bool; tt_ctx : nat; tt_stage : tstage }.

(** [tw_conc]: the capacity of concurrencyCh, which Serve makes; [tw_tokens]: how
    many tokens are in it. *)
Record tworld := MkTw {
  tw_conc : option Z;
  tw_tokens : Z;
  tw_ctxs : list tcontext;
  tw_pool : list nat;
  tw_threads : list tthread
}.

Definition set_tw_conc (v : option Z) (s : tworld) : tworld := MkTw v (tw_tokens s) (tw_ctxs s) (tw_pool s) (tw_threads s).
Definition set_tw_tokens (v : Z) (s : tworld) : tworld := MkTw (tw_conc s) v (tw_ctxs s) (tw_pool s) (tw_threads s).
Definition set_tw_ctxs (v : list tcontext) (s : tworld) : tworld := MkTw (tw_conc s) (tw_tokens s) v (tw_pool s) (tw_threads s).
Definition set_tw_pool (v : list nat) (s : tworld) : tworld := MkTw (tw_conc s) (tw_tokens s) (tw_ctxs s) v (tw_threads s).
Definition set_tw_threads (v : list tthread) (s : tworld) : tworld := MkTw (tw_conc s) (tw_tokens s) (tw_ctxs s) (tw_pool s) v.

Definition updCtx (c : nat) (f : tcontext -> tcontext) (s : tworld) : tworld :=
  match tw_ctxs s !! c with Some x => set_tw_ctxs (<[c := f x]> (tw_ctxs s)) s | None => s end.

Section Timeouts.
(** Around how many times the server's handler is wrapped, and the limit. *)
Context (depth : nat) (maxWorkersCount : Z).

(** Serve makes the channel if there is none yet; a connection begins with a
    context of the pool or a new one; a timer fires; a goroutine goes on, where
    [AGo false] is the other choice of a select, or the end of a connection; the
    handler calls TimeoutError itself. *)
Inductive taction := AServe | AConn (pick : option nat) | AFire (c : nat) | AGo (b : bool) (pick : option nat) | AUser.

(** acquireCtx *)
Definition takeCtx (pick : option nat) (s : tworld) : nat * tworld :=
  match pick ≫= fun i => c ← tw_pool s !! i; Some (c, delete i (tw_pool s)) with
  | Some (c, pool) => (c, set_tw_pool pool s)
  | None => (length (tw_ctxs s), set_tw_ctxs (tw_ctxs s ++ [newTx]) s)
  end.

(** The body of the wrapped handler, up to the start of the goroutine. *)
Definition enterTimeout (d : nat) (s : tworld) : tstage * tworld :=
  match tw_conc s with
  | Some cap => if tw_tokens s <? cap then (TChan d, set_tw_tokens (tw_tokens s + 1) s) else (TBack, s)
  | None => (TBack, s)
  end.

Definition stage (t : nat) (th : tthread) (pc : tstage) (s : tworld) : tworld :=
  set_tw_threads (<[t := MkTt (tt_conn th) (tt_ctx th) pc]> (tw_threads s)) s.

Definition stepTimeout (t : nat) (th : tthread) (b : bool) (pick : option nat) (s : tworld) : outcome tworld :=
  let c := tt_ctx th in
  match tw_ctxs s !! c with
  | None => Blocked
  | Some x =>
      match tt_stage th with
      | THandle O => To (stage t th TBack s)
      | THandle (S d) => let '(pc, s) := enterTimeout d s in To (stage t th pc s)
      | TChan d =>
          To (stage t th (TSpawn d) (updCtx c (fun x => MkTx (Some (default O (tx_ch x))) (tx_timer x) (tx_timedOut x)) s))
      | TSpawn d =>
          let s := stage t th TInit s in
          To (set_tw_threads (tw_threads s ++ [MkTt false c (THandle d)]) s)
      | TInit =>
          match initTimer (tx_timer x) with
          | None => Panics
          | Some tm => To (stage t th TWait (updCtx c (fun x => MkTx (tx_ch x) (Some tm) (tx_timedOut x)) s))
          end
      | TWait =>
          if b then
            match tx_ch x with
            | Some (S n) => To (stage t th TStop (updCtx c (fun x => MkTx (Some n) (tx_timer x) (tx_timedOut x)) s))
            | _ => Blocked
            end
          else
            match tx_timer x with
            | Some TmFired => To (stage t th TTimeout (updCtx c (fun x => MkTx (tx_ch x) (Some TmStopped) (tx_timedOut x)) s))
            | _ => Blocked
            end
      | TTimeout => To (stage t th TStop (updCtx c (fun x => MkTx (tx_ch x) (tx_timer x) true) s))
      | TStop => To (stage t th TBack (updCtx c (fun x => MkTx (tx_ch x) (stopTimer <$> tx_timer x) (tx_timedOut x)) s))
      | TBack =>
          if tt_conn th then
            if tx_timedOut x
            then let '(c', s) := takeCtx pick s in To (stage t (MkTt true c' TBack) TWrite s)
            else To (stage t th TWrite s)
          else
            match tx_ch x with
            | Some O => To (stage t th TRelease (updCtx c (fun x => MkTx (Some 1%nat) (tx_timer x) (tx_timedOut x)) s))
            | _ => Blocked
            end
      | TWrite => if tx_timedOut x then Panics else To (stage t th TIdle s)
      | TIdle =>
          if b then To (stage t th (THandle depth) s)
          else if tx_timedOut x then Panics else To (stage t th TGone (set_tw_pool (c :: tw_pool s) s))
      | TGone => Blocked
      | TRelease => To (stage t th TEnd (set_tw_tokens (tw_tokens s - 1) s))
      | TEnd => Blocked
      end
  end.

#[global] Instance timeout_machine : Machine tworld taction := fun t a s =>
  match a with
  | AServe => To (match tw_conc s with None => set_tw_conc (Some maxWorkersCount) s | Some _ => s end)
  | AConn pick =>
      let '(c, s) := takeCtx pick s in
      To (set_tw_threads (tw_threads s ++ [MkTt true c TIdle]) s)
  | AFire c =>
      match tw_ctxs s !! c with
      | Some (MkTx ch (Some TmActive) to) => To (set_tw_ctxs (<[c := MkTx ch (Some TmFired) to]> (tw_ctxs s)) s)
      | _ => Blocked
      end
  | AGo b pick => match tw_threads s !! t with Some th => stepTimeout t th b pick s | None => Blocked end
  | AUser =>
      match tw_threads s !! t with
      | Some (MkTt _ c (THandle O)) => To (updCtx c (fun x => MkTx (tx_ch x) (tx_timer x) true) s)
      | _ => Blocked
      end
  end.

Definition initTw : tworld := MkTw None 0 [] [] [].

End Timeouts.

(** ** What a goroutine holds *)

(** The tokens it has put into concurrencyCh and not taken back. *)
Definition tokens (th : tthread) : Z :=
  (match tt_stage th with TChan _ | TSpawn _ => 1 | _ => 0 end) +
  (if tt_conn th then 0 else match tt_stage th with TEnd => 0 | _ => 1 end).

(** The context of a connection that is not over. *)
Definition owns (th : tthread) : list nat :=
  if tt_conn th then match tt_stage th with TGone => [] | _ => [tt_ctx th] end else [].

(** One signal is still to come from a goroutine that runs a handler on [c]. *)
Definition running (c : nat) (th : tthread) : Z :=
  if tt_conn th then 0
  else match tt_stage th with TRelease | TEnd => 0 | _ => if decide (tt_ctx th = c) then 1 else 0 end.

Definition signals (x : tcontext) : Z := Z.of_nat (default O (tx_ch x)).

(** The signals of a context: in its channel, and still to come. *)
Definition pending (c : nat) (s : tworld) : Z :=
  match tw_ctxs s !! c with Some x => signals x | None => 0 end + total (running c) (tw_threads s).

Definition timerLive (x : tcontext) : Prop := tx_timer x = Some TmActive \/ tx_timer x = Some TmFired.

Definition timerQuiet (x : tcontext) : Prop := tx_timer x = None \/ tx_timer x = Some TmStopped.

(** Nothing is going on behind a context. *)
Definition quiet (c : nat) (s : tworld) : Prop :=
  pending c s = 0 /\ exists x, tw_ctxs s !! c = Some x /\ timerQuiet x.

Definition timedOut (c : nat) (s : tworld) : bool := match tw_ctxs s !! c with Some x => tx_timedOut x | None => false end.

(** What holds of the context of a connection at each stage. *)
Definition connOk (s : tworld) (c : nat) (pc : tstage) : Prop :=
  match pc with
  | THandle O => quiet c s
  | THandle (S d) => quiet c s /\ timedOut c s = false /\ d = O
  | TChan d => quiet c s /\ timedOut c s = false /\ d = O
  | TSpawn d => quiet c s /\ timedOut c s = false /\ d = O /\ exists x, tw_ctxs s !! c = Some x /\ tx_ch x = Some O
  | TInit => pending c s = 1 /\ exists x, tw_ctxs s !! c = Some x /\ timerQuiet x
  | TWait => pending c s = 1 /\ exists x, tw_ctxs s !! c = Some x /\ timerLive x
  | TTimeout => True
  | TStop => timedOut c s = true \/ pending c s = 0
  | TBack => timedOut c s = true \/ quiet c s
  | TWrite | TIdle => quiet c s /\ timedOut c s = false
  | TGone => True
  | TRelease | TEnd => False
  end.

(** ** The pieces of a state *)

Lemma tokens_nonneg th : 0 <= tokens th.
Proof. unfold tokens. destruct (tt_stage th), (tt_conn th); lia. Qed.

Lemma running_nonneg c th : 0 <= running c th.
Proof. unfold running. destruct (tt_conn th); [lia|]. destruct (tt_stage th); try lia; case_decide; lia. Qed.

Lemma pending_nonneg c s : 0 <= pending c s.
Proof.
  unfold pending, signals. pose proof (total_nonneg (running c) (tw_threads s) (running_nonneg c)). destruct (tw_ctxs s !! c); lia.
Qed.

(** A goroutine that still has to signal. *)
Lemma running_pending c s t th : tw_threads s !! t = Some th -> running c th = 1 -> 0 < pending c s.
Proof.
  intros L R. unfold pending, signals. pose proof (total_nonneg (running c) (tw_threads s) (running_nonneg c)) as H0.
  assert (total (running c) (tw_threads s) <> 0) as H1.
  { intros E. pose proof (total_zero (running c) _ _ _ (running_nonneg c) E L). lia. }
  destruct (tw_ctxs s !! c); lia.
Qed.

Lemma pending_same c s s' :
  tw_ctxs s' !! c = tw_ctxs s !! c -> total (running c) (tw_threads s') = total (running c) (tw_threads s) -> pending c s' = pending c s.
Proof. unfold pending. by intros -> ->. Qed.

Lemma quiet_same c s s' : tw_ctxs s' !! c = tw_ctxs s !! c -> pending c s' = pending c s -> quiet c s -> quiet c s'.
Proof. unfold quiet. by intros -> ->. Qed.

Lemma connOk_same s s' c pc :
  tw_ctxs s' !! c = tw_ctxs s !! c -> pending c s' = pending c s -> connOk s c pc -> connOk s' c pc.
Proof. intros E P. unfold connOk, quiet, timedOut. rewrite E, P. by destruct pc. Qed.

(** Where something is going on behind a context, changes of its channel, its
    timer and timeoutResponse are allowed. *)
Lemma connOk_busy s s' c x x' pc :
  ~ quiet c s -> tw_ctxs s !! c = Some x -> tw_ctxs s' !! c = Some x' -> pending c s' = pending c s -> (tx_timedOut x = true -> tx_timedOut x' = true) ->
  (timerQuiet x -> timerQuiet x') -> (timerLive x -> timerLive x') -> connOk s c pc -> connOk s' c pc.
Proof.
  intros Q E E' P Ht Hq Hv. unfold connOk, timedOut. rewrite E, E', P. destruct pc as [[|d]|d|d| | | | | | | | | |]; try tauto.
  - intros [H (y & [= <-] & Hy)]. split; [done|]. exists x'. split; [done|]. by apply Hq.
  - intros [H (y & [= <-] & Hy)]. split; [done|]. exists x'. split; [done|]. by apply Hv.
Qed.

Lemma total_running_insert c l t th th' : l !! t = Some th -> running c th' = running c th -> total (running c) (<[t := th']> l) = total (running c) l.
Proof. intros L E. rewrite (total_insert _ _ _ _ _ L). lia. Qed.

(** ** The invariant *)

Record timeoutInv (cap : Z) (s : tworld) : Prop := {
  ti_tokens : tw_tokens s = total tokens (tw_threads s);
  ti_cap : match tw_conc s with Some n => n = cap /\ tw_tokens s <= cap | None => tw_tokens s <= 0 end;
  ti_owned : NoDup (held owns (tw_threads s) ++ tw_pool s);
  ti_pool : forall c, c ∈ tw_pool s -> quiet c s /\ timedOut c s = false;
  ti_conn : forall t c pc, tw_threads s !! t = Some (MkTt true c pc) -> connOk s c pc;
  ti_run : forall t c pc, tw_threads s !! t = Some (MkTt false c pc) ->
    match pc with THandle O | TBack => exists x n, tw_ctxs s !! c = Some x /\ tx_ch x = Some n | TRelease | TEnd => True | _ => False end;
  ti_pending : forall c, pending c s <= 1;
  ti_ctx : forall c, c ∈ held owns (tw_threads s) -> exists x, tw_ctxs s !! c = Some x
}.

Lemma owned_apart cap s t u c pc c2 pc2 :
  timeoutInv cap s -> tw_threads s !! t = Some (MkTt true c pc) -> pc <> TGone -> tw_threads s !! u = Some (MkTt true c2 pc2) -> pc2 <> TGone -> u <> t -> c2 <> c.
Proof.
  intros I L P K P2 D ->. pose proof (ti_owned _ _ I) as N. destruct (held_lookup2 owns _ _ _ _ _ L K (not_eq_sym D)) as [r Hr].
  rewrite Hr in N. unfold owns in N. cbn in N. destruct pc, pc2; try done; cbn in N; apply NoDup_cons in N as [N _]; apply N; left.
Qed.

Lemma owned_not_pooled cap s t c pc : timeoutInv cap s -> tw_threads s !! t = Some (MkTt true c pc) -> pc <> TGone -> ~ c ∈ tw_pool s.
Proof.
  intros I L P K. pose proof (ti_owned _ _ I) as N. destruct (held_lookup owns _ _ _ L) as [r Hr]. rewrite Hr in N.
  assert (owns (MkTt true c pc) = [c]) as E by (unfold owns; cbn; by destruct pc). rewrite E in N. cbn in N. apply NoDup_cons in N as [N _]. apply N.
  apply elem_of_app. by right.
Qed.

Lemma conn_context cap s t c pc : timeoutInv cap s -> tw_threads s !! t = Some (MkTt true c pc) -> pc <> TGone -> exists x, tw_ctxs s !! c = Some x.
Proof.
  intros I L P. apply (ti_ctx _ _ I). apply elem_of_held. eexists t, _. split; [exact L|]. unfold owns. cbn. destruct pc; try done; by left.
Qed.

(** ** Steps of a connection that keeps its context *)

Lemma lookup_snoc {A} (l l' : list A) t y : (l ++ l') !! t = Some y -> l !! t = Some y \/ y ∈ l'.
Proof. intros L. apply lookup_app_Some in L as [L|[_ L]]; [by left|right]. by eapply list_elem_of_lookup_2. Qed.

Definition keeps (pc : tstage) : Prop := match pc with TGone | TRelease | TEnd => False | _ => True end.

Lemma owns_keeps c pc : keeps pc -> owns (MkTt true c pc) = [c].
Proof. by destruct pc. Qed.

Lemma inv_conn cap s s' t c pc pc' x x' l :
  timeoutInv cap s -> tw_threads s !! t = Some (MkTt true c pc) -> keeps pc -> keeps pc' -> tw_ctxs s !! c = Some x ->
  tw_conc s' = tw_conc s -> tw_ctxs s' = <[c := x']> (tw_ctxs s) -> tw_pool s' = tw_pool s -> tw_threads s' = <[t := MkTt true c pc']> (tw_threads s) ++ l ->
  (l = [] \/ l = [MkTt false c (THandle 0)] /\ exists n, tx_ch x' = Some n) -> (tx_ch x <> None -> tx_ch x' <> None) ->
  tw_tokens s' = tw_tokens s - tokens (MkTt true c pc) + tokens (MkTt true c pc') + total tokens l ->
  match tw_conc s with Some n => tw_tokens s' <= cap | None => tw_tokens s' <= 0 end ->
  connOk s' c pc' -> pending c s' <= 1 -> timeoutInv cap s'.
Proof.
  intros I L K K' Ex Ec Et Ep Eth Hl Hch Htok Hcap Hok Hp.
  pose proof (lookup_lt_Some _ _ _ Ex) as Hlt.
  assert (forall c2, c2 <> c -> tw_ctxs s' !! c2 = tw_ctxs s !! c2) as Fc by (intros c2 D; rewrite Et; by apply list_lookup_insert_ne).
  assert (forall c2, c2 <> c -> pending c2 s' = pending c2 s) as Fp.
  { intros c2 D. apply pending_same; [by apply Fc|]. rewrite Eth, total_app, (total_running_insert _ _ _ _ _ L) by done.
    destruct Hl as [->|[-> _]]; cbn; [lia|]. unfold running. cbn. rewrite decide_False; [lia|done]. }
  assert (held owns (tw_threads s') ≡ₚ held owns (tw_threads s)) as Fo.
  { rewrite Eth, held_app. rewrite (held_insert_same owns _ _ _ (MkTt true c pc') L) by (rewrite !owns_keeps by done; done).
    destruct Hl as [->|[-> _]]; unfold held at 2; cbn; by rewrite app_nil_r. }
  split.
  - rewrite Eth, total_app, (total_insert _ _ _ _ _ L), Htok, (ti_tokens _ _ I). lia.
  - rewrite Ec. pose proof (ti_cap _ _ I) as Hc. destruct (tw_conc s) as [n|]; [|done]. by destruct Hc.
  - rewrite Fo, Ep. apply (ti_owned _ _ I).
  - intros c2 Hin. rewrite Ep in Hin. assert (c2 <> c) as D by (intros ->; by apply (owned_not_pooled _ _ _ _ _ I L); [destruct pc|]).
    destruct (ti_pool _ _ I c2 Hin) as [Q T]. split; [eapply quiet_same; [by apply Fc|by apply Fp|done]|]. unfold timedOut in *. by rewrite Fc.
  - intros u c2 pc2 U. rewrite Eth in U. apply lookup_snoc in U as [U|U]; [|destruct Hl as [->|[-> _]]; [by apply elem_of_nil in U|by apply list_elem_of_singleton in U]].
    apply list_lookup_insert_Some in U as [(-> & [= <- <-] & _)|(D & U)]; [done|].
    destruct (decide (pc2 = TGone)) as [->|P]; [done|]. assert (c2 <> c) as Dc by (eapply owned_apart; [exact I|exact L|by destruct pc|exact U|done|done]).
    eapply connOk_same; [by apply Fc|by apply Fp|]. by eapply ti_conn.
  - intros u c2 pc2 U. rewrite Eth in U. apply lookup_snoc in U as [U|U].
    + apply list_lookup_insert_Some in U as [(-> & [=] & _)|(D & U)]. pose proof (ti_run _ _ I _ _ _ U) as R.
      assert ((exists x n, tw_ctxs s !! c2 = Some x /\ tx_ch x = Some n) -> exists x n, tw_ctxs s' !! c2 = Some x /\ tx_ch x = Some n) as G.
      { intros (y & n & Ey & En). destruct (decide (c2 = c)) as [->|D2]; [|exists y, n; by rewrite Fc].
        rewrite Ex in Ey. injection Ey as <-. exists x'. rewrite Et, list_lookup_insert_eq by done. destruct (tx_ch x') as [m|]; [by exists m|].
        destruct Hch; [by rewrite En|done]. }
      destruct pc2 as [[|d]| | | | | | | | | | | |]; try done; by apply G.
    + destruct Hl as [->|[-> [n En]]]; [by apply elem_of_nil in U|]. apply list_elem_of_singleton in U. injection U as -> ->.
      exists x', n. by rewrite Et, list_lookup_insert_eq.
  - intros c2. destruct (decide (c2 = c)) as [->|D]; [done|]. rewrite Fp by done. apply (ti_pending _ _ I).
  - intros c2 Hin. rewrite Fo in Hin. destruct (ti_ctx _ _ I c2 Hin) as [y Ey].
    destruct (decide (c2 = c)) as [->|D]; [exists x'; by rewrite Et, list_lookup_insert_eq|exists y; by rewrite Fc].
Qed.

(** ** Steps that leave the connections where they are *)

Lemma inv_busy cap s s' c x x' :
  timeoutInv cap s -> tw_ctxs s !! c = Some x -> tw_conc s' = tw_conc s -> tw_pool s' = tw_pool s -> tw_ctxs s' = <[c := x']> (tw_ctxs s) ->
  tw_tokens s' = total tokens (tw_threads s') -> tw_tokens s' <= tw_tokens s -> held owns (tw_threads s') ≡ₚ held owns (tw_threads s) ->
  (forall u c2 pc2, tw_threads s' !! u = Some (MkTt true c2 pc2) -> tw_threads s !! u = Some (MkTt true c2 pc2)) ->
  (forall u c2 pc2, tw_threads s' !! u = Some (MkTt false c2 pc2) ->
     tw_threads s !! u = Some (MkTt false c2 pc2) \/ (pc2 = TBack /\ tw_threads s !! u = Some (MkTt false c2 (THandle 0))) \/ pc2 = TRelease \/ pc2 = TEnd) ->
  (tx_ch x <> None -> tx_ch x' <> None) ->
  (x' = x \/ ~ quiet c s /\ (tx_timedOut x = true -> tx_timedOut x' = true) /\ (timerQuiet x -> timerQuiet x') /\ (timerLive x -> timerLive x')) ->
  (forall c2, pending c2 s' = pending c2 s) -> timeoutInv cap s'.
Proof.
  intros I Ex Ec Ep Et Htok Hle Ho Hc Hr Hch Hx Hp. pose proof (lookup_lt_Some _ _ _ Ex) as Hlt.
  assert (forall c2, c2 <> c \/ x' = x -> tw_ctxs s' !! c2 = tw_ctxs s !! c2) as Fc.
  { intros c2 [D| ->]; rewrite Et; [by apply list_lookup_insert_ne|]. by rewrite list_insert_id. }
  assert (tw_ctxs s' !! c = Some x') as Ex' by (by rewrite Et, list_lookup_insert_eq).
  split.
  - exact Htok.
  - rewrite Ec. pose proof (ti_cap _ _ I) as Hcp. destruct (tw_conc s); [destruct Hcp; split; [done|]|]; lia.
  - rewrite Ho, Ep. apply (ti_owned _ _ I).
  - intros c2 Hin. rewrite Ep in Hin. destruct (ti_pool _ _ I c2 Hin) as [Q T].
    assert (c2 <> c \/ x' = x) as D. { destruct Hx as [?|[Q' _]]; [by right|left; intros ->; by apply Q']. }
    split; [eapply quiet_same; [by apply Fc|by apply Hp|done]|]. unfold timedOut in *. by rewrite Fc.
  - intros u c2 pc2 U. apply Hc in U. pose proof (ti_conn _ _ I _ _ _ U) as Hok.
    destruct (decide (c2 = c)) as [->|D]; [|eapply connOk_same; [by apply Fc; left|apply Hp|done]].
    destruct Hx as [->|(Q & Ht & Hq & Hv)]; [eapply connOk_same; [by apply Fc; right|apply Hp|done]|]. by eapply connOk_busy.
  - intros u c2 pc2 U.
    assert ((exists x n, tw_ctxs s !! c2 = Some x /\ tx_ch x = Some n) -> exists x n, tw_ctxs s' !! c2 = Some x /\ tx_ch x = Some n) as G.
    { intros (y & n & Ey & En). destruct (decide (c2 = c)) as [->|D2]; [|exists y, n; rewrite Fc; [done|by left]].
      rewrite Ex in Ey. injection Ey as <-. exists x'. destruct (tx_ch x') as [m|]; [by exists m|]. destruct Hch; [by rewrite En|done]. }
    destruct (Hr u c2 pc2 U) as [U0|[[-> U0]|[->| ->]]]; [|by apply G, (ti_run _ _ I _ _ _ U0)|done|done].
    pose proof (ti_run _ _ I _ _ _ U0) as R. destruct pc2 as [[|d]| | | | | | | | | | | |]; try done; by apply G.
  - intros c2. rewrite Hp. apply (ti_pending _ _ I).
  - intros c2 Hin. rewrite Ho in Hin. destruct (ti_ctx _ _ I c2 Hin) as [y Ey].
    destruct (decide (c2 = c)) as [->|D]; [by exists x'|exists y; rewrite Fc; [done|by left]].
Qed.

(** ** Contexts given away and taken *)

Lemma inv_gone cap s t c pc pool' :
  timeoutInv cap s -> tw_threads s !! t = Some (MkTt true c pc) -> keeps pc -> tokens (MkTt true c pc) = 0 ->
  (pool' = tw_pool s \/ pool' = c :: tw_pool s /\ quiet c s /\ timedOut c s = false) ->
  timeoutInv cap (stage t (MkTt true c pc) TGone (set_tw_pool pool' s)).
Proof.
  intros I L K Ht Hpool. set (s' := stage _ _ _ _).
  assert (forall c2, pending c2 s' = pending c2 s) as Fp by (intros c2; apply pending_same; [done|]; by apply (total_running_insert _ _ _ _ _ L)).
  destruct (held_insert owns _ _ _ (MkTt true c TGone) L) as (r & Hr & Hr'). rewrite owns_keeps in Hr by done. cbn in Hr, Hr'.
  pose proof (ti_owned _ _ I) as N. rewrite Hr in N. cbn in N.
  split.
  - cbn. rewrite (total_insert _ _ _ _ _ L), Ht, (ti_tokens _ _ I). unfold tokens at 3. cbn. lia.
  - apply (ti_cap _ _ I).
  - cbn. rewrite Hr'. destruct Hpool as [->|[-> _]]; [by apply NoDup_cons in N as [_ N]|]. eapply NoDup_Permutation_proper; [|exact N]. symmetry. apply Permutation_middle.
  - intros c2 Hin. cbn in Hin. assert (quiet c2 s /\ timedOut c2 s = false) as [Q T].
    { destruct Hpool as [->|[-> [Q T]]]; [by apply (ti_pool _ _ I)|]. apply elem_of_cons in Hin as [->|Hin]; [done|by apply (ti_pool _ _ I)]. }
    split; [|exact T]. apply (quiet_same c2 s s'); [done|apply Fp|done].
  - intros u c2 pc2 U. cbn in U. apply list_lookup_insert_Some in U as [(-> & [= <- <-] & _)|(D & U)]; [done|].
    apply (connOk_same s s'); [done|apply Fp|by eapply ti_conn].
  - intros u c2 pc2 U. cbn in U. apply list_lookup_insert_Some in U as [(-> & [=] & _)|(D & U)]. by apply (ti_run _ _ I _ _ _ U).
  - intros c2. rewrite Fp. apply (ti_pending _ _ I).
  - intros c2 Hin. cbn in Hin. rewrite Hr' in Hin. apply (ti_ctx _ _ I). rewrite Hr. by right.
Qed.

(** acquireCtx gives a context nobody has, with nothing going on behind it. *)
Lemma takeCtx_spec cap s pick c s1 :
  timeoutInv cap s -> takeCtx pick s = (c, s1) ->
  quiet c s1 /\ timedOut c s1 = false /\ ~ c ∈ held owns (tw_threads s) ++ tw_pool s1 /\
  tw_conc s1 = tw_conc s /\ tw_tokens s1 = tw_tokens s /\ tw_threads s1 = tw_threads s /\
  (forall c2 x, tw_ctxs s !! c2 = Some x -> tw_ctxs s1 !! c2 = Some x) /\ (forall c2, pending c2 s1 = pending c2 s) /\
  (NoDup (held owns (tw_threads s) ++ tw_pool s1)) /\ (forall c2, c2 ∈ tw_pool s1 -> c2 ∈ tw_pool s).
Proof.
  intros I. unfold takeCtx. destruct (pick ≫= _) as [[c' pool']|] eqn:E; intros [= <- <-].
  - destruct pick as [i|]; [cbn in E|done]. destruct (tw_pool s !! i) as [c0|] eqn:Ei; [cbn in E|done]. injection E as <- <-.
    destruct (ti_pool _ _ I c0) as [Q T]; [by eapply list_elem_of_lookup_2|]. pose proof (ti_owned _ _ I) as N.
    pose proof (delete_Permutation _ _ _ Ei) as P. rewrite P, <- Permutation_middle in N. apply NoDup_cons in N as [N1 N2]. cbn.
    split; [done|]. split; [done|]. split; [exact N1|]. do 4 (split; [done|]). split; [done|]. split; [exact N2|].
    intros c2 Hin. rewrite P. by right.
  - assert (forall c2 x, tw_ctxs s !! c2 = Some x -> (tw_ctxs s ++ [newTx]) !! c2 = Some x) as Fx by (intros c2 x Ex; by apply lookup_app_l_Some).
    assert (pending (length (tw_ctxs s)) s = 0) as P0.
    { unfold pending. rewrite (proj2 (lookup_ge_None _ _)) by lia. rewrite Z.add_0_l. destruct (Z.eq_dec (total (running (length (tw_ctxs s))) (tw_threads s)) 0) as [?|D]; [done|].
      pose proof (total_nonneg (running (length (tw_ctxs s))) (tw_threads s) (running_nonneg _)).
      destruct (total_pos (running (length (tw_ctxs s))) (tw_threads s)) as (u & [[] c pc] & L & R); [lia|done|]. pose proof (ti_run _ _ I _ _ _ L) as Hr.
      unfold running in R. cbn in R. destruct pc as [[|d]| | | | | | | | | | | |]; try done; case_decide; try done; subst; destruct Hr as (y & n & Ey & _);
        apply lookup_lt_Some in Ey; lia. }
    assert (forall c2, pending c2 (set_tw_ctxs (tw_ctxs s ++ [newTx]) s) = pending c2 s) as Fp.
    { intros c2. destruct (decide (c2 = length (tw_ctxs s))) as [->|D].
      - rewrite P0. unfold pending in P0 |- *. cbn. rewrite list_lookup_middle by done. rewrite (proj2 (lookup_ge_None _ _)) in P0 by lia. exact P0.
      - apply pending_same; [|done]. cbn. destruct (tw_ctxs s !! c2) as [y|] eqn:Ey; [by apply Fx|]. apply lookup_ge_None in Ey. apply lookup_ge_None. rewrite length_app. cbn. lia. }
    split; [|split; [|split]].
    + split; [by rewrite Fp|]. exists newTx. cbn. rewrite list_lookup_middle by done. split; [done|by left].
    + unfold timedOut. cbn. by rewrite list_lookup_middle.
    + cbn. intros Hin. assert (exists x, tw_ctxs s !! length (tw_ctxs s) = Some x) as [x Ex].
      { apply elem_of_app in Hin as [Hin|Hin]; [by apply (ti_ctx _ _ I)|]. destruct (ti_pool _ _ I _ Hin) as [(_ & x & Ex & _) _]. by exists x. }
      apply lookup_lt_Some in Ex. lia.
    + do 3 (split; [done|]). split; [exact Fx|]. split; [exact Fp|]. split; [apply (ti_owned _ _ I)|done].
Qed.

Lemma inv_take cap s pick c s1 pc threads' :
  timeoutInv cap s -> takeCtx pick s = (c, s1) -> (pc = TIdle \/ pc = TWrite) ->
  (threads' = tw_threads s ++ [MkTt true c pc] \/ exists t c0, tw_threads s !! t = Some (MkTt true c0 TGone) /\ threads' = <[t := MkTt true c pc]> (tw_threads s)) ->
  timeoutInv cap (set_tw_threads threads' s1).
Proof.
  intros I E Hpc Hth. destruct (takeCtx_spec _ _ _ _ _ I E) as (Q & T & N & Ec & Et & Eth & Fx & Fp & Nd & Hpool).
  assert (connOk s1 c pc) as Hok by (by destruct Hpc as [->| ->]). assert (tokens (MkTt true c pc) = 0) as Tk by (by destruct Hpc as [->| ->]).
  assert (owns (MkTt true c pc) = [c]) as Ow by (by destruct Hpc as [->| ->]).
  assert (total tokens threads' = total tokens (tw_threads s)) as Ht.
  { destruct Hth as [->|(t & c0 & L & ->)]; [rewrite total_app; cbn [total]; lia|]. rewrite (total_insert _ _ _ _ _ L), Tk. unfold tokens at 2. cbn. lia. }
  assert (forall c2, total (running c2) threads' = total (running c2) (tw_threads s)) as Hr.
  { intros c2. destruct Hth as [->|(t & c0 & L & ->)]; [rewrite total_app; cbn; lia|]. by apply (total_running_insert _ _ _ _ _ L). }
  assert (held owns threads' ≡ₚ c :: held owns (tw_threads s)) as Ho.
  { destruct Hth as [->|(t & c0 & L & ->)]; [rewrite held_snoc, Ow; by rewrite Permutation_app_comm|].
    destruct (held_insert owns _ _ _ (MkTt true c pc) L) as (r & H1 & H2). rewrite Ow in H2. cbn in H1. by rewrite H2, H1. }
  assert (forall u b c2 pc2, threads' !! u = Some (MkTt b c2 pc2) -> (b = true /\ c2 = c /\ pc2 = pc) \/ tw_threads s !! u = Some (MkTt b c2 pc2)) as Hl.
  { intros u b c2 pc2 U. destruct Hth as [->|(t & c0 & L & ->)].
    - apply lookup_snoc in U as [U|U]; [by right|]. apply list_elem_of_singleton in U as [= -> -> ->]. by left.
    - apply list_lookup_insert_Some in U as [(_ & [= <- <- <-] & _)|(_ & U)]; [by left|by right]. }
  set (s' := set_tw_threads threads' s1).
  assert (forall c2, pending c2 s' = pending c2 s1) as Fq by (intros c2; apply pending_same; [done|]; cbn; by rewrite Hr, Eth).
  assert (forall c2 x, tw_ctxs s !! c2 = Some x -> tw_ctxs s' !! c2 = tw_ctxs s !! c2) as Fs by (intros c2 x Ex; rewrite Ex; by apply Fx).
  split.
  - cbn. rewrite Et, Ht. apply (ti_tokens _ _ I).
  - cbn. rewrite Ec, Et. apply (ti_cap _ _ I).
  - cbn [s' set_tw_threads tw_threads tw_pool]. rewrite Ho. cbn. apply NoDup_cons. by split.
  - intros c2 Hin. destruct (ti_pool _ _ I c2 (Hpool _ Hin)) as [Q2 T2]. pose proof Q2 as (_ & x2 & Ex2 & _).
    split; [apply (quiet_same c2 s s'); [by eapply Fs|by rewrite Fq, Fp|done]|]. unfold timedOut in *. rewrite (Fs _ _ Ex2). done.
  - intros u c2 pc2 U. apply Hl in U as [(_ & -> & ->)|U]; [apply (connOk_same s1 s'); [done|apply Fq|done]|].
    destruct (decide (pc2 = TGone)) as [->|P]; [done|]. destruct (conn_context _ _ _ _ _ I U P) as [x2 Ex2].
    apply (connOk_same s s'); [by eapply Fs|by rewrite Fq, Fp|by eapply ti_conn].
  - intros u c2 pc2 U. apply Hl in U as [([=] & _)|U]. pose proof (ti_run _ _ I _ _ _ U) as R.
    destruct pc2 as [[|d]| | | | | | | | | | | |]; try done; destruct R as (x & n & Ex & En); exists x, n; by rewrite (Fs _ _ Ex).
  - intros c2. rewrite Fq, Fp. apply (ti_pending _ _ I).
  - intros c2 Hin. cbn [s' set_tw_threads tw_threads] in Hin. rewrite Ho in Hin. apply elem_of_cons in Hin as [->|Hin].
    + destruct Q as (_ & x & Ex & _). by exists x.
    + destruct (ti_ctx _ _ I c2 Hin) as [x Ex]. exists x. by rewrite (Fs _ _ Ex).
Qed.

(** ** Every step keeps the invariant *)

Lemma inv_stay cap s t c pc pc' :
  timeoutInv cap s -> tw_threads s !! t = Some (MkTt true c pc) -> keeps pc -> keeps pc' -> tokens (MkTt true c pc') = tokens (MkTt true c pc) ->
  connOk s c pc' -> timeoutInv cap (stage t (MkTt true c pc) pc' s).
Proof.
  intros I L K K' Ht Hok. destruct (conn_context _ _ _ _ _ I L) as [x Ex]; [by destruct pc|].
  assert (pending c (stage t (MkTt true c pc) pc' s) = pending c s) as P by (apply pending_same; [done|]; by apply (total_running_insert _ _ _ _ _ L)).
  eapply (inv_conn cap s _ t c pc pc' x x []); try done; cbn.
  - by rewrite list_insert_id.
  - by rewrite app_nil_r.
  - by left.
  - lia.
  - pose proof (ti_cap _ _ I) as Hc. destruct (tw_conc s); [by destruct Hc|done].
  - by apply (connOk_same s).
  - rewrite P. apply (ti_pending _ _ I).
Qed.

Lemma pending_set s t c pc pc' x x' :
  tw_threads s !! t = Some (MkTt true c pc) -> tw_ctxs s !! c = Some x ->
  pending c (stage t (MkTt true c pc) pc' (set_tw_ctxs (<[c := x']> (tw_ctxs s)) s)) = pending c s - signals x + signals x'.
Proof.
  intros L Ex. unfold pending. cbn. rewrite list_lookup_insert_eq by (by eapply lookup_lt_Some). rewrite Ex.
  rewrite (total_running_insert _ _ _ _ _ L) by done. lia.
Qed.

Lemma inv_set cap s t c pc pc' x x' :
  timeoutInv cap s -> tw_threads s !! t = Some (MkTt true c pc) -> keeps pc -> keeps pc' -> tokens (MkTt true c pc') = tokens (MkTt true c pc) ->
  tw_ctxs s !! c = Some x -> (tx_ch x <> None -> tx_ch x' <> None) -> signals x' <= signals x ->
  connOk (stage t (MkTt true c pc) pc' (set_tw_ctxs (<[c := x']> (tw_ctxs s)) s)) c pc' ->
  timeoutInv cap (stage t (MkTt true c pc) pc' (set_tw_ctxs (<[c := x']> (tw_ctxs s)) s)).
Proof.
  intros I L K K' Ht Ex Hch Hs Hok. eapply (inv_conn cap s _ t c pc pc' x x' []); try done; cbn.
  - by rewrite app_nil_r.
  - by left.
  - lia.
  - pose proof (ti_cap _ _ I) as Hc. destruct (tw_conc s); [by destruct Hc|done].
  - rewrite (pending_set _ _ _ _ _ _ _ L Ex). pose proof (ti_pending _ _ I c). lia.
Qed.

Lemma updCtx_eq s c x f : tw_ctxs s !! c = Some x -> updCtx c f s = set_tw_ctxs (<[c := f x]> (tw_ctxs s)) s.
Proof. unfold updCtx. by intros ->. Qed.

Lemma lookup_set s c x x' : tw_ctxs s !! c = Some x -> <[c := x']> (tw_ctxs s) !! c = Some x'.
Proof. intros E. apply list_lookup_insert_eq. by eapply lookup_lt_Some. Qed.

Section Steps.
Context (depth : nat) (maxWorkersCount : Z) (Hd : (depth <= 1)%nat) (Hw : 0 < maxWorkersCount).

Lemma inv_enter s t c d :
  timeoutInv maxWorkersCount s -> tw_threads s !! t = Some (MkTt true c (THandle (S d))) ->
  let '(pc, s1) := enterTimeout d s in timeoutInv maxWorkersCount (stage t (MkTt true c (THandle (S d))) pc s1).
Proof.
  intros I L. pose proof (ti_conn _ _ I _ _ _ L) as (Q & T & ->). unfold enterTimeout.
  assert (timeoutInv maxWorkersCount (stage t (MkTt true c (THandle 1)) TBack s)) as Back by (apply inv_stay; try done; by right).
  destruct (tw_conc s) as [n|] eqn:Ec; [|exact Back]. destruct (Z.ltb_spec (tw_tokens s) n) as [Hn|]; [|exact Back].
  pose proof (ti_cap _ _ I) as Hc. rewrite Ec in Hc. destruct Hc as [-> Hc]. pose proof Q as (P & x & Ex & Hx).
  assert (pending c (stage t (MkTt true c (THandle 1)) (TChan 0) (set_tw_tokens (tw_tokens s + 1) s)) = pending c s) as Pe.
  { apply pending_same; [done|]. by apply (total_running_insert _ _ _ _ _ L). }
  eapply (inv_conn maxWorkersCount s _ t c (THandle 1) (TChan 0) x x []); try done; cbn.
  - by rewrite list_insert_id.
  - by rewrite app_nil_r.
  - by left.
  - unfold tokens. cbn. lia.
  - rewrite Ec. lia.
  - split; [|by split]. by apply (quiet_same c s).
  - rewrite Pe. lia.
Qed.

Lemma inv_spawn s t c d :
  timeoutInv maxWorkersCount s -> tw_threads s !! t = Some (MkTt true c (TSpawn d)) ->
  timeoutInv maxWorkersCount (set_tw_threads (<[t := MkTt true c TInit]> (tw_threads s) ++ [MkTt false c (THandle d)]) s).
Proof.
  intros I L. pose proof (ti_conn _ _ I _ _ _ L) as (Q & T & -> & x & Ex & En). pose proof Q as (P & x0 & Ex0 & Hx).
  rewrite Ex in Ex0. injection Ex0 as <-.
  assert (pending c (set_tw_threads (<[t := MkTt true c TInit]> (tw_threads s) ++ [MkTt false c (THandle 0)]) s) = 1) as P1.
  { unfold pending in P |- *. cbn. rewrite total_app, (total_running_insert _ _ _ _ _ L) by done. unfold running at 2. cbn. rewrite decide_True by done. lia. }
  eapply (inv_conn maxWorkersCount s _ t c (TSpawn 0) TInit x x [MkTt false c (THandle 0)]); try done; cbn.
  - by rewrite list_insert_id.
  - right. split; [done|]. by exists O.
  - unfold tokens. cbn. lia.
  - pose proof (ti_cap _ _ I) as Hc. unfold tokens. destruct (tw_conc s); [destruct Hc|]; lia.
  - split; [exact P1|]. by exists x.
  - rewrite P1. lia.
Qed.

Lemma inv_step_conn s t c pc b pick :
  timeoutInv maxWorkersCount s -> tw_threads s !! t = Some (MkTt true c pc) ->
  match stepTimeout depth t (MkTt true c pc) b pick s with Blocked => True | Panics => False | To s' => timeoutInv maxWorkersCount s' end.
Proof.
  intros I L. unfold stepTimeout. cbn [tt_ctx tt_stage tt_conn]. destruct (tw_ctxs s !! c) as [x|] eqn:Ex; [|done].
  pose proof (ti_conn _ _ I _ _ _ L) as Hok. pose proof (ti_pending _ _ I c) as Hp.
  destruct pc as [[|d]|d|d| | | | | | | | | |]; cbn [connOk] in Hok.
  - apply inv_stay; try done. by right.
  - pose proof (inv_enter s t c d I L) as H. by destruct (enterTimeout d s).
  - destruct Hok as (Q & T & ->). pose proof Q as (P & x0 & Ex0 & Hx). rewrite Ex in Ex0. injection Ex0 as <-. rewrite (updCtx_eq _ _ _ _ Ex).
    assert (signals (MkTx (Some (default O (tx_ch x))) (tx_timer x) (tx_timedOut x)) = signals x) as Sg by done.
    assert (default O (tx_ch x) = O) as D0.
    { unfold pending in P. rewrite Ex in P. unfold signals in P. pose proof (total_nonneg (running c) (tw_threads s) (running_nonneg c)). lia. }
    apply (inv_set _ _ _ _ _ _ x); try done. cbn [connOk]. unfold quiet, timedOut. rewrite (pending_set _ _ _ _ _ _ _ L Ex), Sg. cbn.
    rewrite (lookup_set _ _ _ _ Ex). unfold timedOut in T. rewrite Ex in T. split; [split; [lia|]|split; [done|split; [done|]]]; eexists; (split; [done|]); [done|by rewrite D0].
  - exact (inv_spawn s t c d I L).
  - destruct Hok as (P & x0 & Ex0 & Hx). rewrite Ex in Ex0. injection Ex0 as <-.
    assert (initTimer (tx_timer x) = Some TmActive) as -> by (by destruct Hx as [->| ->]). rewrite (updCtx_eq _ _ _ _ Ex).
    apply (inv_set _ _ _ _ _ _ x); try done. cbn [connOk]. rewrite (pending_set _ _ _ _ _ _ _ L Ex). unfold signals. cbn.
    split; [lia|]. rewrite (lookup_set _ _ _ _ Ex). eexists. split; [done|]. by left.
  - destruct Hok as [Hok _]. destruct b.
    + destruct (tx_ch x) as [[|n]|] eqn:En; try done. rewrite (updCtx_eq _ _ _ _ Ex).
      apply (inv_set _ _ _ _ _ _ x); try done; [unfold signals; rewrite En; cbn; lia|]. right. rewrite (pending_set _ _ _ _ _ _ _ L Ex), Hok. unfold signals. rewrite En. cbn. lia.
    + destruct (tx_timer x) as [[]|]; try done. rewrite (updCtx_eq _ _ _ _ Ex). by apply (inv_set _ _ _ _ _ _ x).
  - rewrite (updCtx_eq _ _ _ _ Ex). apply (inv_set _ _ _ _ _ _ x); try done. left. unfold timedOut. cbn. by rewrite (lookup_set _ _ _ _ Ex).
  - rewrite (updCtx_eq _ _ _ _ Ex). apply (inv_set _ _ _ _ _ _ x); try done. cbn [connOk]. unfold quiet, timedOut in *.
    rewrite (pending_set _ _ _ _ _ _ _ L Ex). cbn. rewrite (lookup_set _ _ _ _ Ex). rewrite Ex in Hok. destruct Hok as [Hok|Hok]; [by left|right].
    split; [unfold signals; cbn; lia|]. eexists. split; [done|]. unfold timerQuiet. cbn. destruct (tx_timer x) as [[]|]; cbn; auto.
  - destruct (tx_timedOut x) eqn:Eto.
    + destruct (takeCtx pick s) as [c' s1] eqn:Ek.
      pose proof (inv_gone _ s t c TBack (tw_pool s) I L Logic.I eq_refl (or_introl eq_refl)) as I1.
      assert (takeCtx pick (stage t (MkTt true c TBack) TGone (set_tw_pool (tw_pool s) s)) = (c', set_tw_threads (<[t := MkTt true c TGone]> (tw_threads s)) s1)) as Ek1.
      { revert Ek. unfold takeCtx. cbn. destruct (pick ≫= _) as [[? ?]|]; by intros [= <- <-]. }
      eapply (inv_take _ _ _ _ _ TWrite (<[t := MkTt true c' TWrite]> (tw_threads s)) I1) in Ek1 as I2; [| by right|].
      * assert (tw_threads s1 = tw_threads s) as Et by (revert Ek; unfold takeCtx; destruct (pick ≫= _) as [[? ?]|]; by intros [= <- <-]).
        unfold stage. cbn [tt_conn tt_ctx]. rewrite Et. exact I2.
      * right. exists t, c. cbn. split; [by apply list_lookup_insert_eq, (lookup_lt_Some _ _ _ L)|]. by rewrite list_insert_insert_eq.
    + apply inv_stay; try done. unfold timedOut in Hok. rewrite Ex, Eto in Hok. destruct Hok as [?|Q]; [done|]. split; [done|]. unfold timedOut. by rewrite Ex.
  - destruct Hok as [Q T]. unfold timedOut in T. rewrite Ex in T. rewrite T. apply inv_stay; try done. split; [done|]. unfold timedOut. by rewrite Ex.
  - destruct Hok as [Q T]. unfold timedOut in T. rewrite Ex in T. destruct b.
    + apply inv_stay; try done. cbn. assert (timedOut c s = false) by (unfold timedOut; by rewrite Ex).
      destruct depth as [|d]; [done|]. split; [done|]. split; [done|]. lia.
    + rewrite T. apply inv_gone; try done. right. split; [done|]. split; [done|]. unfold timedOut. by rewrite Ex.
  - done.
  - done.
  - done.
Qed.

Lemma lookup_run s t c pc pc' u c2 pc2 :
  tw_threads s !! t = Some (MkTt false c pc) -> (pc' = TBack /\ pc = THandle 0 \/ pc' = TRelease \/ pc' = TEnd) ->
  (<[t := MkTt false c pc']> (tw_threads s) !! u = Some (MkTt true c2 pc2) -> tw_threads s !! u = Some (MkTt true c2 pc2)) /\
  (<[t := MkTt false c pc']> (tw_threads s) !! u = Some (MkTt false c2 pc2) ->
   tw_threads s !! u = Some (MkTt false c2 pc2) \/ (pc2 = TBack /\ tw_threads s !! u = Some (MkTt false c2 (THandle 0))) \/ pc2 = TRelease \/ pc2 = TEnd).
Proof.
  intros L Hpc. split; intros U; apply list_lookup_insert_Some in U as [(-> & E & _)|(D & U)]; try done; [|by left].
  injection E as <- <-. destruct Hpc as [[-> ->]|[->| ->]]; auto.
Qed.

Lemma inv_step_run s t c pc b pick :
  timeoutInv maxWorkersCount s -> tw_threads s !! t = Some (MkTt false c pc) ->
  match stepTimeout depth t (MkTt false c pc) b pick s with Blocked => True | Panics => False | To s' => timeoutInv maxWorkersCount s' end.
Proof.
  intros I L. unfold stepTimeout. cbn [tt_ctx tt_stage tt_conn]. destruct (tw_ctxs s !! c) as [x|] eqn:Ex; [|done].
  pose proof (ti_run _ _ I _ _ _ L) as Hr.
  destruct pc as [[|d]| | | | | | | | | | | |]; try done.
  - eapply (inv_busy _ s _ c x x I Ex); cbn; try done.
    + by rewrite list_insert_id.
    + rewrite (total_insert _ _ _ _ _ L), (ti_tokens _ _ I). unfold tokens at 3 4. cbn. lia.
    + by apply (held_insert_same owns _ _ _ _ L).
    + intros u c2 pc2. apply (lookup_run s t c _ TBack u c2 pc2 L); auto.
    + intros u c2 pc2. apply (lookup_run s t c _ TBack u c2 pc2 L); auto.
    + by left.
    + intros c2. apply pending_same; [done|]. cbn. by apply (total_running_insert _ _ _ _ _ L).
  - destruct (tx_ch x) as [[|n]|] eqn:En; try done. rewrite (updCtx_eq _ _ _ _ Ex).
    assert (~ quiet c s) as Nq by (intros [P _]; pose proof (running_pending c s t _ L) as R; unfold running in R; cbn in R; rewrite decide_True in R by done; lia).
    eapply (inv_busy _ s _ c x _ I Ex); cbn; try done.
    + rewrite (total_insert _ _ _ _ _ L), (ti_tokens _ _ I). unfold tokens at 3 4. cbn. lia.
    + by apply (held_insert_same owns _ _ _ _ L).
    + intros u c2 pc2. apply (lookup_run s t c _ TRelease u c2 pc2 L); auto.
    + intros u c2 pc2. apply (lookup_run s t c _ TRelease u c2 pc2 L); auto.
    + by right.
    + intros c2. unfold pending. cbn. rewrite (total_insert _ _ _ _ _ L). unfold running at 2 3. cbn.
      destruct (decide (c2 = c)) as [->|D].
      * rewrite (lookup_set _ _ _ _ Ex), Ex, decide_True by done. unfold signals. rewrite En. cbn. lia.
      * rewrite list_lookup_insert_ne by done. rewrite decide_False by done. lia.
  - eapply (inv_busy _ s _ c x x I Ex); cbn; try done.
    + by rewrite list_insert_id.
    + rewrite (total_insert _ _ _ _ _ L), (ti_tokens _ _ I). unfold tokens at 3 4. cbn. lia.
    + lia.
    + by apply (held_insert_same owns _ _ _ _ L).
    + intros u c2 pc2. apply (lookup_run s t c _ TEnd u c2 pc2 L); auto.
    + intros u c2 pc2. apply (lookup_run s t c _ TEnd u c2 pc2 L); auto.
    + by left.
    + intros c2. apply pending_same; [done|]. cbn. by apply (total_running_insert _ _ _ _ _ L).
Qed.

(** Another change behind a busy context. *)
Lemma inv_touch s c x x' :
  timeoutInv maxWorkersCount s -> tw_ctxs s !! c = Some x -> ~ quiet c s -> tx_ch x' = tx_ch x -> (tx_timedOut x = true -> tx_timedOut x' = true) ->
  (timerQuiet x -> timerQuiet x') -> (timerLive x -> timerLive x') -> timeoutInv maxWorkersCount (set_tw_ctxs (<[c := x']> (tw_ctxs s)) s).
Proof.
  intros I Ex Nq Ec Ht Hq Hv. eapply (inv_busy _ s _ c x x' I Ex); try done; cbn.
  - apply (ti_tokens _ _ I).
  - by left.
  - by rewrite Ec.
  - by right.
  - intros c2. unfold pending. cbn. destruct (decide (c2 = c)) as [->|D]; [|by rewrite list_lookup_insert_ne].
    rewrite (lookup_set _ _ _ _ Ex), Ex. unfold signals. by rewrite Ec.
Qed.

Lemma timeoutInv_step s t a :
  timeoutInv maxWorkersCount s ->
  match step (Machine := timeout_machine depth maxWorkersCount) t a s with Blocked => True | Panics => False | To s' => timeoutInv maxWorkersCount s' end.
Proof.
  intros I. destruct a as [|pick|c|b pick|]; unfold step, timeout_machine.
  - pose proof (ti_cap _ _ I) as Hc. destruct (tw_conc s) as [n|] eqn:Ec; [done|]. destruct I. split; try done. cbn. split; [done|]. lia.
  - destruct (takeCtx pick s) as [c s1] eqn:Ek. assert (tw_threads s1 = tw_threads s) as ->.
    { revert Ek. unfold takeCtx. destruct (pick ≫= _) as [[? ?]|]; by intros [= <- <-]. }
    eapply (inv_take _ _ _ _ _ TIdle _ I Ek); [by left|]. by left.
  - destruct (tw_ctxs s !! c) as [[ch [[]|] to]|] eqn:Ex; try done. eapply (inv_touch s c _ _ I Ex); try done.
    + intros (_ & y & Ey & [H|H]); rewrite Ex in Ey; injection Ey as <-; done.
    + intros [H|H]; done.
    + intros _. by right.
  - destruct (tw_threads s !! t) as [[[] c pc]|] eqn:L; [by apply inv_step_conn|by apply inv_step_run|done].
  - destruct (tw_threads s !! t) as [[cn c [[|d]| | | | | | | | | | | |]]|] eqn:L; try done. unfold updCtx. destruct (tw_ctxs s !! c) as [x|] eqn:Ex; [|done].
    destruct cn.
    + pose proof (ti_conn _ _ I _ _ _ L) as Hok. cbn in Hok.
      assert (<[t := MkTt true c (THandle 0)]> (tw_threads s) = tw_threads s) as Ei by (by apply list_insert_id).
      pose proof (inv_set _ s t c (THandle 0) (THandle 0) x (MkTx (tx_ch x) (tx_timer x) true) I L) as H. unfold stage in H. cbn in H. rewrite Ei in H.
      apply H; try done. destruct Hok as [P (y & Ey & Hy)]. rewrite Ex in Ey. injection Ey as <-. split.
      * unfold pending in P |- *. cbn. rewrite (lookup_set _ _ _ _ Ex). rewrite Ex in P. exact P.
      * eexists. cbn. rewrite (lookup_set _ _ _ _ Ex). by split.
    + eapply (inv_touch s c x _ I Ex); try done. intros [P _].
      pose proof (running_pending c s t _ L) as R. unfold running in R. cbn in R. rewrite decide_True in R by done. lia.
Qed.

Lemma timeoutInv_init : timeoutInv maxWorkersCount initTw.
Proof.
  split; cbn; try done; try lia; try (by intros c Hc; apply elem_of_nil in Hc).
  - by constructor.
Qed.

Lemma timeout_reachable s : reachable (H := timeout_machine depth maxWorkersCount) initTw s -> timeoutInv maxWorkersCount s.
Proof.
  apply reachable_invariant; [apply timeoutInv_init|]. intros t a s1 s2 I E. pose proof (timeoutInv_step s1 t a I) as H. by rewrite E in H.
Qed.

End Steps.

(** * Properties *)

(** C23. With one TimeoutHandler around the handler nothing in it panics, no more
    than the limit of handlers run, counted exactly, and a context is private: when
    a connection writes its response or is idle, and while its context is in the
    pool, no handler runs on it, however late the handlers of timed-out requests
    are; and a handler that has returned always gives its token back. *)
Theorem timeout_contexts_private (depth : nat) (maxWorkersCount : Z) (Hd : (depth <= 1)%nat) (Hw : 0 < maxWorkersCount)
    (s : tworld) (R : reachable (H := timeout_machine depth maxWorkersCount) initTw s) :
  (forall t a, step (Machine := timeout_machine depth maxWorkersCount) t a s <> Panics) /\
  (tw_tokens s = total tokens (tw_threads s) /\ 0 <= tw_tokens s <= maxWorkersCount) /\
  (forall c, (c ∈ tw_pool s \/ exists t pc, tw_threads s !! t = Some (MkTt true c pc) /\ (pc = TWrite \/ pc = TIdle)) ->
     forall u pc, tw_threads s !! u = Some (MkTt false c pc) -> pc = TRelease \/ pc = TEnd) /\
  (forall u c pick, tw_threads s !! u = Some (MkTt false c TBack) -> exists s', step (Machine := timeout_machine depth maxWorkersCount) u (AGo true pick) s = To s').
Proof.
  pose proof (timeout_reachable _ _ Hd Hw s R) as I. split; [|split; [|split]].
  - intros t a E. pose proof (timeoutInv_step depth maxWorkersCount Hd Hw s t a I) as H. by rewrite E in H.
  - split; [apply I|]. pose proof (total_nonneg tokens (tw_threads s) tokens_nonneg). rewrite <- (ti_tokens _ _ I) in H.
    pose proof (ti_cap _ _ I) as Hc. destruct (tw_conc s); lia.
  - intros c Hc u pc L. assert (quiet c s) as [P _].
    { destruct Hc as [Hc|(t & p & Lt & [->| ->])]; [by apply (ti_pool _ _ I)| |]; by apply (ti_conn _ _ I _ _ _ Lt). }
    pose proof (ti_run _ _ I _ _ _ L) as Hr. assert (running c (MkTt false c pc) <> 1) as Nr by (intros E; pose proof (running_pending c s u _ L E); lia).
    unfold running in Nr. cbn in Nr. rewrite decide_True in Nr by done. destruct pc as [[|d]| | | | | | | | | | | |]; try done; auto.
  - intros u c pick L. destruct (ti_run _ _ I _ _ _ L) as (x & n & Ex & En). unfold step, timeout_machine. rewrite L. unfold stepTimeout. cbn [tt_ctx tt_stage tt_conn].
    rewrite Ex, En. pose proof (ti_pending _ _ I c) as P. assert (0 < total (running c) (tw_threads s)).
    { pose proof (total_nonneg (running c) (tw_threads s) (running_nonneg c)). destruct (Z.eq_dec (total (running c) (tw_threads s)) 0) as [E|]; [|lia].
      pose proof (total_zero (running c) _ _ _ (running_nonneg c) E L) as Z0. unfold running in Z0. cbn in Z0. by rewrite decide_True in Z0. }
    unfold pending in P. rewrite Ex in P. unfold signals in P. rewrite En in P. cbn in P. destruct n as [|n]; [by eexists|lia].
Qed.

(** A connection whose timer has fired goes on by itself. *)
Lemma timer_run depth maxWorkersCount s t c x :
  tw_threads s !! t = Some (MkTt true c TWait) -> tw_ctxs s !! c = Some x -> tx_timer x = Some TmFired ->
  exists s', run (H := timeout_machine depth maxWorkersCount) [(t, AGo false None); (t, AGo false None); (t, AGo false None); (t, AGo false None)] s = To s' /\
    exists c', tw_threads s' !! t = Some (MkTt true c' TWrite).
Proof.
  intros L Ex Tm. pose proof (lookup_lt_Some _ _ _ L) as Ht.
  assert (forall b pick s0 th, tw_threads s0 !! t = Some th ->
    step (Machine := timeout_machine depth maxWorkersCount) t (AGo b pick) s0 = stepTimeout depth t th b pick s0) as Go.
  { intros b pick s0 th E. unfold step, timeout_machine. by rewrite E. }
  cbn [run]. rewrite (Go _ _ _ _ L). unfold stepTimeout at 1. cbn [tt_ctx tt_stage tt_conn]. rewrite Ex, Tm, (updCtx_eq _ _ _ _ Ex). cbn [obind].
  set (x1 := MkTx _ _ _). set (s1 := stage _ _ _ _).
  assert (tw_threads s1 = <[t := MkTt true c TTimeout]> (tw_threads s)) as T1 by done. assert (tw_ctxs s1 !! c = Some x1) as E1 by (by apply (lookup_set _ _ _ _ Ex)).
  rewrite (Go _ _ _ (MkTt true c TTimeout)) by (by rewrite T1, list_lookup_insert_eq).
  unfold stepTimeout at 1. cbn [tt_ctx tt_stage tt_conn]. rewrite E1, (updCtx_eq _ _ _ _ E1). cbn [obind].
  set (x2 := MkTx _ _ true). set (s2 := stage _ _ _ _).
  assert (tw_threads s2 = <[t := MkTt true c TStop]> (tw_threads s)) as T2 by (unfold s2, stage; cbn [tw_threads set_tw_threads set_tw_ctxs tt_conn tt_ctx]; by rewrite T1, list_insert_insert_eq).
  assert (tw_ctxs s2 !! c = Some x2) as E2 by (by apply (lookup_set _ _ _ _ E1)).
  rewrite (Go _ _ _ (MkTt true c TStop)) by (by rewrite T2, list_lookup_insert_eq).
  unfold stepTimeout at 1. cbn [tt_ctx tt_stage tt_conn]. rewrite E2, (updCtx_eq _ _ _ _ E2). cbn [obind].
  set (x3 := MkTx _ _ _). set (s3 := stage _ _ _ _).
  assert (tw_threads s3 = <[t := MkTt true c TBack]> (tw_threads s)) as T3 by (unfold s3, stage; cbn [tw_threads set_tw_threads set_tw_ctxs tt_conn tt_ctx]; by rewrite T2, list_insert_insert_eq).
  assert (tw_ctxs s3 !! c = Some x3) as E3 by (by apply (lookup_set _ _ _ _ E2)).
  rewrite (Go _ _ _ (MkTt true c TBack)) by (by rewrite T3, list_lookup_insert_eq).
  unfold stepTimeout. cbn [tt_ctx tt_stage tt_conn]. rewrite E3. cbn. eexists. split; [reflexivity|].
  eexists. cbn. rewrite list_lookup_insert_eq; [done|]. by rewrite !length_insert.
Qed.

(** A handler that never returns does not hold a connection up: a connection that
    waits for it can, by its timer and its own steps alone, go on to its response. *)
Lemma TimeoutHandler_returns (depth : nat) (maxWorkersCount : Z) (Hd : (depth <= 1)%nat) (Hw : 0 < maxWorkersCount)
    (s : tworld) (t c : nat) (R : reachable (H := timeout_machine depth maxWorkersCount) initTw s) (L : tw_threads s !! t = Some (MkTt true c TWait)) :
  exists sched s', run (H := timeout_machine depth maxWorkersCount) sched s = To s' /\
    Forall (fun '(u, a) => u = t /\ (a = AFire c \/ a = AGo false None)) sched /\ exists c', tw_threads s' !! t = Some (MkTt true c' TWrite).
Proof.
  pose proof (timeout_reachable _ _ Hd Hw s R) as I. destruct (ti_conn _ _ I _ _ _ L) as (_ & x & Ex & Hx).
  pose proof (lookup_lt_Some _ _ _ L) as Ht.
  assert (forall s1 x1, tw_threads s1 = tw_threads s -> tw_ctxs s1 !! c = Some x1 -> tx_timer x1 = Some TmFired -> exists s',
    run (H := timeout_machine depth maxWorkersCount) [(t, AGo false None); (t, AGo false None); (t, AGo false None); (t, AGo false None)] s1 = To s' /\
    exists c', tw_threads s' !! t = Some (MkTt true c' TWrite)) as Go by (intros s1 x1 Et E1 Tm; eapply timer_run; by rewrite ?Et).
  destruct Hx as [Hx|Hx].
  - destruct (Go (set_tw_ctxs (<[c := MkTx (tx_ch x) (Some TmFired) (tx_timedOut x)]> (tw_ctxs s)) s) (MkTx (tx_ch x) (Some TmFired) (tx_timedOut x)) eq_refl) as (s' & E & Hs'); [by apply (lookup_set _ _ _ _ Ex)|done|].
    assert (run (H := timeout_machine depth maxWorkersCount) [(t, AFire c)] s = To (set_tw_ctxs (<[c := MkTx (tx_ch x) (Some TmFired) (tx_timedOut x)]> (tw_ctxs s)) s)) as Ef.
    { cbn [run]. unfold step, timeout_machine. rewrite Ex. destruct x as [ch tm to]. cbn in Hx. by subst tm. }
    eexists ([(t, AFire c)] ++ _), s'. split; [rewrite run_app, Ef; exact E|]. split; [cbn; repeat (constructor; [split; auto|]); constructor|exact Hs'].
  - destruct (Go s x eq_refl Ex Hx) as (s' & E & Hs'). eexists _, s'. split; [exact E|]. split; [cbn; repeat (constructor; [split; auto|]); constructor|exact Hs'].
Qed.

(** A timed-out request, whose handler goes on, while the connection goes on to
    another one. *)
Definition lateHandler : list (nat * taction) :=
  [(0, AServe); (0, AConn None); (0, AGo true None); (0, AGo true None); (0, AGo true None); (0, AGo true None); (0, AGo true None);
   (0, AFire 0); (0, AGo false None); (0, AGo true None); (0, AGo true None); (0, AGo true None); (0, AGo true None);
   (0, AGo true None); (0, AGo true None); (0, AGo true None); (0, AGo true None); (0, AGo true None)]%nat.

Definition timeoutAfter (depth : nat) (sched : list (nat * taction)) : tworld :=
  match run (H := timeout_machine depth 2) sched initTw with To s => s | _ => initTw end.

Lemma timeoutAfter_reachable depth sched :
  match run (H := timeout_machine depth 2) sched initTw with To _ => true | _ => false end = true ->
  reachable (H := timeout_machine depth 2) initTw (timeoutAfter depth sched).
Proof. unfold timeoutAfter. destruct (run sched initTw) as [| |s] eqn:E; [done|done|]. intros _. by apply (run_reachable (H := timeout_machine depth 2) sched). Qed.

Lemma timeout_contexts_private_witness :
  let s := timeoutAfter 1 lateHandler in
  tw_threads s = [MkTt true 1 TWait; MkTt false 0 (THandle 0); MkTt false 1 (THandle 0)] /\ tw_tokens s = total tokens (tw_threads s).
Proof.
  cbv zeta. assert (reachable (H := timeout_machine 1 2) initTw (timeoutAfter 1 lateHandler)) as R by (apply timeoutAfter_reachable; vm_compute; reflexivity).
  split; [vm_compute; reflexivity|]. refine (proj1 (proj1 (proj2 (timeout_contexts_private 1 2 _ _ _ R)))); lia.
Defined.

Lemma TimeoutHandler_returns_witness :
  let s := timeoutAfter 1 lateHandler in
  tw_threads s !! 0%nat = Some (MkTt true 1 TWait) /\
  exists sched s', run (H := timeout_machine 1 2) sched s = To s' /\ Forall (fun '(u, a) => u = 0%nat /\ (a = AFire 1 \/ a = AGo false None)) sched /\
    exists c', tw_threads s' !! 0%nat = Some (MkTt true c' TWrite).
Proof.
  cbv zeta. assert (reachable (H := timeout_machine 1 2) initTw (timeoutAfter 1 lateHandler)) as R by (apply timeoutAfter_reachable; vm_compute; reflexivity).
  assert (tw_threads (timeoutAfter 1 lateHandler) !! 0%nat = Some (MkTt true 1 TWait)) as L by (vm_compute; reflexivity).
  split; [exact L|]. refine (TimeoutHandler_returns 1 2 _ _ _ 0 1 R L); lia.
Defined.

(** Timeouts cannot be nested: of two TimeoutHandlers around a handler the second
    initTimer finds the timer of the context running and panics, with the whole
    process, on the first request. *)
Lemma nested_timeouts_panic :
  run (H := timeout_machine 2 2) [(0, AServe); (0, AConn None); (0, AGo true None); (0, AGo true None); (0, AGo true None); (0, AGo true None); (0, AGo true None);
    (1, AGo true None); (1, AGo true None); (1, AGo true None); (1, AGo true None)]%nat initTw = Panics.
Proof. vm_compute. reflexivity. Qed.

(** When the timer of the inner one has fired before the outer one sets it, the connection may take the signal of the inner goroutine for its own:
    it goes on while the goroutine of the inner TimeoutHandler still works on its
    context. *)
Lemma nested_timeouts_share :
  exists sched s, run (H := timeout_machine 2 2) sched initTw = To s /\
    tw_threads s !! 0%nat = Some (MkTt true 0 TIdle) /\ tw_threads s !! 1%nat = Some (MkTt false 0 TWait).
Proof.
  eexists ([(0, AServe); (0, AConn None); (0, AGo true None); (0, AGo true None); (0, AGo true None); (0, AGo true None); (1, AGo true None); (1, AGo true None); (1, AGo true None);
    (1, AGo true None); (0, AFire 0); (0, AGo true None); (2, AGo true None); (2, AGo true None); (0, AGo true None); (0, AGo true None); (0, AGo true None); (0, AGo true None)]%nat), _.
  split; [vm_compute; reflexivity|]. split; reflexivity.
Qed.

(** A server that only has ServeConn calls has no concurrencyCh: every request is
    refused with Too Many Requests. *)
Lemma timeout_without_Serve d s : tw_conc s = None -> enterTimeout d s = (TBack, s).
Proof. unfold enterTimeout. by intros ->. Qed.
