(* ===== verification/PipeConns.v ===== *)
(** * fasthttputil/pipeconns.go: connections in memory

    The pipes of NewPipeConns and the pool of byte buffers they share.  A pipe has
    two directions; each has a channel of buffers, one goroutine that writes and
    one that reads (the type allows no more).  Buffers are numbered: their contents
    are in a heap, so that a buffer that came back to the pool too early would be
    overwritten under its reader.  A step is an operation on a channel, a lock or
    the pool, or the code between two of them. *)
From Stdlib Require Import Strings.String.
From stdpp Require Import sets relations list_tactics.
From S2P Require Import Prelude Machine.
#[local] Open Scope nat_scope.

Inductive perr := ErrTimeout | errConnectionClosed | EOF.

(** A deadline channel: nil, that of a timer, closed. *)
Inductive deadlineCh := DlNone | DlTimer | DlClosed.

(** updateTimer: no deadline, or so much time left until it. *)
Definition updateTimer (time : option Z) : deadlineCh :=
  match time with None => DlNone | Some d => if (d <=? 0)%Z then DlClosed else DlTimer end.

(** Write: idle, its buffer filled, past the first look at stopCh, waiting in the
    second select, returned.  Read: idle, in its loop with so many bytes to go,
    whether it may still wait and what it has read; looking for the next buffer;
    with a new buffer; waiting; looking again after the deadline or the end. *)
Inductive wstage :=
| WIdle
| WCheck (b : nat) (p : bytes)
| WTry (b : nat) (p : bytes)
| WBlocked (b : nat) (p : bytes) (dl : deadlineCh)
| WReturned (n : nat) (err : option perr).

Inductive rstage :=
| RIdle
| RLoop (rest : nat) (mayBlock : bool) (acc : bytes)
| RNext (rest : nat) (mayBlock : bool) (acc : bytes)
| RCopy (rest : nat) (acc : bytes)
| RWait (rest : nat) (acc : bytes) (dl : deadlineCh)
| RLast (rest : nat) (acc : bytes) (err : perr)
| RReturned (acc : bytes) (err : option perr).

(** One direction: the channel, c.b and c.bb (a slice: buffer, offset, length) of
    the end that reads, the deadlines, the two goroutines, and for the statements
    all that has been sent and all that the Reads have returned. *)
Record pdir := MkDir {
  pd_ch : list nat;
  pd_b : option nat;
  pd_bb : nat * nat * nat;
  pd_rdl : deadlineCh;
  pd_wdl : deadlineCh;
  pd_w : wstage;
  pd_r : rstage;
  pd_sent : bytes;
  pd_got : bytes
}.

Definition newDir : pdir := MkDir [] None (0, 0, 0) DlNone DlNone WIdle RIdle [] [].

Definition set_pd_ch (v : list nat) (d : pdir) : pdir := MkDir v (pd_b d) (pd_bb d) (pd_rdl d) (pd_wdl d) (pd_w d) (pd_r d) (pd_sent d) (pd_got d).
Definition set_pd_b (v : option nat) (d : pdir) : pdir := MkDir (pd_ch d) v (pd_bb d) (pd_rdl d) (pd_wdl d) (pd_w d) (pd_r d) (pd_sent d) (pd_got d).
Definition set_pd_bb (v : nat * nat * nat) (d : pdir) : pdir := MkDir (pd_ch d) (pd_b d) v (pd_rdl d) (pd_wdl d) (pd_w d) (pd_r d) (pd_sent d) (pd_got d).
Definition set_pd_rdl (v : deadlineCh) (d : pdir) : pdir := MkDir (pd_ch d) (pd_b d) (pd_bb d) v (pd_wdl d) (pd_w d) (pd_r d) (pd_sent d) (pd_got d).
Definition set_pd_wdl (v : deadlineCh) (d : pdir) : pdir := MkDir (pd_ch d) (pd_b d) (pd_bb d) (pd_rdl d) v (pd_w d) (pd_r d) (pd_sent d) (pd_got d).
Definition set_pd_w (v : wstage) (d : pdir) : pdir := MkDir (pd_ch d) (pd_b d) (pd_bb d) (pd_rdl d) (pd_wdl d) v (pd_r d) (pd_sent d) (pd_got d).
Definition set_pd_r (v : rstage) (d : pdir) : pdir := MkDir (pd_ch d) (pd_b d) (pd_bb d) (pd_rdl d) (pd_wdl d) (pd_w d) v (pd_sent d) (pd_got d).
Definition set_pd_sent (v : bytes) (d : pdir) : pdir := MkDir (pd_ch d) (pd_b d) (pd_bb d) (pd_rdl d) (pd_wdl d) (pd_w d) (pd_r d) v (pd_got d).
Definition set_pd_got (v : bytes) (d : pdir) : pdir := MkDir (pd_ch d) (pd_b d) (pd_bb d) (pd_rdl d) (pd_wdl d) (pd_w d) (pd_r d) (pd_sent d) v.

(** The heap and the pool of buffers; which pipes are closed; pipe [k] has the
    directions [2 k] and [2 k + 1]. *)
Record pworld := MkPw { pi_heap : list bytes; pi_pool : list nat; pi_stopped : list bool; pi_dirs : list pdir }.

Definition content (h : list bytes) (b : nat) : bytes := default [] (h !! b).
Definition slice (h : list bytes) (bb : nat * nat * nat) : bytes := let '(b, off, n) := bb in take n (drop off (content h b)).

Definition stopped (i : nat) (s : pworld) : bool := default false (pi_stopped s !! (i / 2)).

Definition putDir (i : nat) (d : pdir) (s : pworld) : pworld := MkPw (pi_heap s) (pi_pool s) (pi_stopped s) (<[i := d]> (pi_dirs s)).

(** releaseByteBuffer *)
Definition releaseByteBuffer (b : option nat) (s : pworld) : pworld :=
  match b with Some b => MkPw (pi_heap s) (b :: pi_pool s) (pi_stopped s) (pi_dirs s) | None => s end.

(** acquireByteBuffer: one of the pool, or a new one. *)
Definition acquireByteBuffer (pick : option nat) (s : pworld) : nat * pworld :=
  match pick ≫= fun i => b ← pi_pool s !! i; Some (b, delete i (pi_pool s)) with
  | Some (b, pool) => (b, MkPw (pi_heap s) pool (pi_stopped s) (pi_dirs s))
  | None => (length (pi_heap s), MkPw (pi_heap s ++ [[]]) (pi_pool s) (pi_stopped s) (pi_dirs s))
  end.

Definition fill (b : nat) (p : bytes) (s : pworld) : pworld := MkPw (<[b := p]> (pi_heap s)) (pi_pool s) (pi_stopped s) (pi_dirs s).

(** A new pipe; a Write or a Read begins; Close; the deadlines are set (that of a
    writer by its own goroutine); the writer or the reader goes on, with the choice
    of the waiting select: 0 the channel, 1 the deadline, 2 the end. *)
Inductive pact :=
| PNew
| PWrite (p : bytes) (pick : option nat)
| PRead (n : nat)
| PClose
| PSetRead (time : option Z)
| PSetWrite (time : option Z)
| PGoW (choice : nat)
| PGoR (choice : nat).

Definition wQuiet (w : wstage) : bool := match w with WIdle | WReturned _ _ => true | _ => false end.
Definition rQuiet (r : rstage) : bool := match r with RIdle | RReturned _ _ => true | _ => false end.

(** A deadline may be over. *)
Definition dlFires (dl : deadlineCh) : bool := match dl with DlNone => false | _ => true end.

(** The buffer goes into the channel, if it has room. *)
Definition sendBuf (h : list bytes) (b : nat) (p : bytes) (d : pdir) : option pdir :=
  if decide (length (pd_ch d) < 4)
  then Some (set_pd_w (WReturned (length p) None) (set_pd_sent (pd_sent d ++ content h b) (set_pd_ch (pd_ch d ++ [b]) d)))
  else None.

Definition stepWrite (i : nat) (d : pdir) (choice : nat) (s : pworld) : outcome pworld :=
  match pd_w d with
  | WIdle | WReturned _ _ => Blocked
  | WCheck b p =>
      if stopped i s then To (putDir i (set_pd_w (WReturned 0 (Some errConnectionClosed)) d) (releaseByteBuffer (Some b) s))
      else To (putDir i (set_pd_w (WTry b p) d) s)
  | WTry b p =>
      match sendBuf (pi_heap s) b p d with
      | Some d => To (putDir i d s)
      | None => To (putDir i (set_pd_w (WBlocked b p (pd_wdl d)) d) s)
      end
  | WBlocked b p dl =>
      match choice with
      | 0 => match sendBuf (pi_heap s) b p d with Some d => To (putDir i d s) | None => Blocked end
      | 1 => if dlFires dl then To (putDir i (set_pd_w (WReturned 0 (Some ErrTimeout)) (set_pd_wdl DlClosed d)) s) else Blocked
      | _ =>
          if stopped i s then To (putDir i (set_pd_w (WReturned 0 (Some errConnectionClosed)) d) (releaseByteBuffer (Some b) s)) else Blocked
      end
  end.

(** A buffer comes out of the channel: c.b, and c.bb all of it. *)
Definition recvBuf (h : list bytes) (d : pdir) : option pdir :=
  match pd_ch d with
  | [] => None
  | b :: ch => Some (set_pd_bb (b, 0, length (content h b)) (set_pd_b (Some b) (set_pd_ch ch d)))
  end.

(** copy, and c.bb moved on. *)
Definition copyOut (h : list bytes) (rest : nat) (acc : bytes) (d : pdir) : pdir :=
  let '(b, off, n) := pd_bb d in
  let k := Nat.min rest n in
  let got := take k (slice h (pd_bb d)) in
  set_pd_r (RLoop (rest - k) false (acc ++ got)) (set_pd_bb (b, off + k, n - k) d).

Definition finishRead (acc : bytes) (err : option perr) (d : pdir) : pdir := set_pd_r (RReturned acc err) (set_pd_got (pd_got d ++ acc) d).

Definition stepRead (i : nat) (d : pdir) (choice : nat) (s : pworld) : outcome pworld :=
  match pd_r d with
  | RIdle | RReturned _ _ => Blocked
  | RLoop 0 _ acc => To (putDir i (finishRead acc None d) s)
  | RLoop rest mayBlock acc =>
      let '(_, _, n) := pd_bb d in
      if decide (n = 0)
      then To (putDir i (set_pd_r (RNext rest mayBlock acc) (set_pd_b None d)) (releaseByteBuffer (pd_b d) s))
      else To (putDir i (copyOut (pi_heap s) rest acc d) s)
  | RNext rest mayBlock acc =>
      match recvBuf (pi_heap s) d with
      | Some d => To (putDir i (set_pd_r (RCopy rest acc) d) s)
      | None =>
          if mayBlock then To (putDir i (set_pd_r (RWait rest acc (pd_rdl d)) d) s)
          else To (putDir i (finishRead acc None d) s)
      end
  | RCopy rest acc => To (putDir i (copyOut (pi_heap s) rest acc d) s)
  | RWait rest acc dl =>
      match choice with
      | 0 => match recvBuf (pi_heap s) d with Some d => To (putDir i (set_pd_r (RCopy rest acc) d) s) | None => Blocked end
      | 1 => if dlFires dl then To (putDir i (set_pd_r (RLast rest acc ErrTimeout) (set_pd_rdl DlClosed d)) s) else Blocked
      | _ => if stopped i s then To (putDir i (set_pd_r (RLast rest acc EOF) d) s) else Blocked
      end
  | RLast rest acc err =>
      match recvBuf (pi_heap s) d with
      | Some d => To (putDir i (set_pd_r (RCopy rest acc) d) s)
      | None => To (putDir i (finishRead acc (Some err) d) s)
      end
  end.

#[global] Instance pipe_machine : Machine pworld pact := fun i a s =>
  match a with
  | PNew => To (MkPw (pi_heap s) (pi_pool s) (pi_stopped s ++ [false]) (pi_dirs s ++ [newDir; newDir]))
  | _ =>
      match pi_dirs s !! i with
      | None => Blocked
      | Some d =>
          match a with
          | PNew => Blocked
          | PWrite p pick =>
              if wQuiet (pd_w d) then
                let '(b, s) := acquireByteBuffer pick s in
                To (putDir i (set_pd_w (WCheck b p) d) (fill b p s))
              else Blocked
          | PRead n => if rQuiet (pd_r d) then To (putDir i (set_pd_r (RLoop n true []) d) s) else Blocked
          | PClose => To (MkPw (pi_heap s) (pi_pool s) (<[i / 2 := true]> (pi_stopped s)) (pi_dirs s))
          | PSetRead time => To (putDir i (set_pd_rdl (updateTimer time) d) s)
          | PSetWrite time => if wQuiet (pd_w d) then To (putDir i (set_pd_wdl (updateTimer time) d) s) else Blocked
          | PGoW choice => stepWrite i d choice s
          | PGoR choice => stepRead i d choice s
          end
      end
  end.

Definition initPw : pworld := MkPw [] [] [] [].

(** ** The invariant *)

Definition wHolds (w : wstage) : list nat := match w with WCheck b _ | WTry b _ | WBlocked b _ _ => [b] | _ => [] end.

(** The buffers of a direction. *)
Definition bufs (d : pdir) : list nat := pd_ch d ++ option_list (pd_b d) ++ wHolds (pd_w d).

(** What the reader may still get from buffers: the rest of c.bb, and the
    channel. *)
Definition inPipe (h : list bytes) (d : pdir) : bytes := slice h (pd_bb d) ++ concat (map (content h) (pd_ch d)).

Definition bbOk (h : list bytes) (d : pdir) : Prop :=
  let '(b, off, n) := pd_bb d in n = 0 \/ (pd_b d = Some b /\ off + n <= length (content h b)).

Definition writerOk (h : list bytes) (w : wstage) : Prop :=
  match w with WCheck b p | WTry b p | WBlocked b p _ => content h b = p | _ => True end.

(** What the Read at work has read. *)
Definition reading (r : rstage) : bytes :=
  match r with RLoop _ _ acc | RNext _ _ acc | RCopy _ acc | RWait _ acc _ | RLast _ acc _ => acc | _ => [] end.

(** Where c.b is gone and c.bb used up, and that only a Read that has nothing yet waits. *)
Definition readerOk (d : pdir) : Prop :=
  match pd_r d with
  | RNext _ mayBlock acc => snd (pd_bb d) = 0 /\ pd_b d = None /\ (mayBlock = true -> acc = [])
  | RWait _ acc _ | RLast _ acc _ => snd (pd_bb d) = 0 /\ pd_b d = None /\ acc = []
  | RLoop _ mayBlock acc => mayBlock = true -> acc = []
  | _ => True
  end.

Record dirOk (h : list bytes) (d : pdir) : Prop := {
  do_data : pd_sent d = pd_got d ++ reading (pd_r d) ++ inPipe h d;
  do_room : length (pd_ch d) <= 4;
  do_bb : bbOk h d;
  do_writer : writerOk h (pd_w d);
  do_reader : readerOk d
}.

Record pipeInv (s : pworld) : Prop := {
  pi_apart : NoDup (held bufs (pi_dirs s) ++ pi_pool s);
  pi_made : forall b, b ∈ held bufs (pi_dirs s) ++ pi_pool s -> b < length (pi_heap s);
  pi_each : forall i d, pi_dirs s !! i = Some d -> dirOk (pi_heap s) d
}.

Lemma slice_ext h h' bb : (snd bb = 0 \/ content h' (fst (fst bb)) = content h (fst (fst bb))) -> slice h' bb = slice h bb.
Proof. destruct bb as [[b off] n]. cbn. intros [->| ->]; [by rewrite !take_0|done]. Qed.

(** A direction does not see other buffers. *)
Lemma dirOk_heap h h' d : (forall b, b ∈ bufs d -> content h' b = content h b) -> dirOk h d -> dirOk h' d.
Proof.
  intros E [D1 D2 D3 D4 D5]. assert (forall b, b ∈ pd_ch d -> content h' b = content h b) as Ec by (intros b Hb; apply E, elem_of_app; by left).
  assert (forall b, pd_b d = Some b -> content h' b = content h b) as Eb by (intros b Hb; apply E; unfold bufs; rewrite Hb; apply elem_of_app; right; left).
  assert (inPipe h' d = inPipe h d) as Ei.
  { unfold inPipe. f_equal.
    - apply slice_ext. unfold bbOk in D3. destruct (pd_bb d) as [[b off] n]. cbn. destruct D3 as [?|[Hb _]]; [by left|right; by apply Eb].
    - f_equal. apply map_ext_in. intros b Hb. apply Ec. by apply list_elem_of_In. }
  split; [by rewrite Ei|done| |  |done].
  - unfold bbOk in *. destruct (pd_bb d) as [[b off] n]. destruct D3 as [?|[Hb Hl]]; [by left|right]. split; [done|]. by rewrite Eb.
  - assert (forall b, b ∈ wHolds (pd_w d) -> content h' b = content h b) as Ew by (intros b Hb; apply E; unfold bufs; rewrite !elem_of_app; auto).
    destruct (pd_w d); cbn in *; try done; rewrite Ew; try done; left.
Qed.

Lemma inv_put s i d d' h' pool' lost fresh :
  pipeInv s -> pi_dirs s !! i = Some d -> bufs d ++ pi_pool s ++ fresh ≡ₚ bufs d' ++ pool' ++ lost ->
  (fresh = [] /\ length h' = length (pi_heap s) \/ fresh = [length (pi_heap s)] /\ length h' = S (length (pi_heap s))) ->
  (forall b, b ∈ held bufs (pi_dirs s) -> content h' b = content (pi_heap s) b) -> dirOk h' d' ->
  pipeInv (MkPw h' pool' (pi_stopped s) (<[i := d']> (pi_dirs s))).
Proof.
  intros [A M E] L P Hf Hc Hd. destruct (held_insert bufs _ _ _ d' L) as (r & H1 & H2).
  assert (held bufs (<[i := d']> (pi_dirs s)) ++ pool' ++ lost ≡ₚ (held bufs (pi_dirs s) ++ pi_pool s) ++ fresh) as Q.
  { rewrite H1, H2. transitivity (r ++ (bufs d ++ pi_pool s ++ fresh)); [rewrite P|]; solve_Permutation. }
  assert (NoDup ((held bufs (pi_dirs s) ++ pi_pool s) ++ fresh)) as N.
  { destruct Hf as [[-> _]|[-> _]]; [by rewrite app_nil_r|]. apply NoDup_app. split; [done|]. split; [|apply NoDup_singleton].
    intros b Hb Hb'. apply list_elem_of_singleton in Hb' as ->. specialize (M _ Hb). lia. }
  rewrite <- Q, app_assoc in N. split; cbn.
  - by apply NoDup_app in N as [N _].
  - intros b Hb. assert (b ∈ (held bufs (pi_dirs s) ++ pi_pool s) ++ fresh) as Hb' by (rewrite <- Q, app_assoc; apply elem_of_app; by left).
    apply elem_of_app in Hb' as [Hb'|Hb'].
    + specialize (M _ Hb'). destruct Hf as [[_ ->]|[_ ->]]; lia.
    + destruct Hf as [[-> _]|[-> ->]]; [by apply elem_of_nil in Hb'|]. apply list_elem_of_singleton in Hb' as ->. lia.
  - intros j dj Lj. apply list_lookup_insert_Some in Lj as [(<- & <- & _)|(_ & Lj)]; [done|].
    eapply dirOk_heap; [|by eapply E]. intros b Hb. apply Hc. apply elem_of_held. by exists j, dj.
Qed.

(** The heap is as it was. *)
Lemma inv_keep s i d d' pool' lost :
  pipeInv s -> pi_dirs s !! i = Some d -> bufs d ++ pi_pool s ≡ₚ bufs d' ++ pool' ++ lost -> dirOk (pi_heap s) d' ->
  pipeInv (MkPw (pi_heap s) pool' (pi_stopped s) (<[i := d']> (pi_dirs s))).
Proof. intros I L P D. eapply (inv_put s i d d' _ pool' lost []); try done; [by rewrite app_nil_r|by left]. Qed.

Lemma inv_putDir s i d d' :
  pipeInv s -> pi_dirs s !! i = Some d -> bufs d' ≡ₚ bufs d -> dirOk (pi_heap s) d' -> pipeInv (putDir i d' s).
Proof. intros I L P D. apply (inv_keep s i d d' _ []); try done. rewrite P. by rewrite app_nil_r. Qed.

Lemma inv_giveBack s i d d' b :
  pipeInv s -> pi_dirs s !! i = Some d -> bufs d ≡ₚ option_list b ++ bufs d' -> dirOk (pi_heap s) d' -> pipeInv (putDir i d' (releaseByteBuffer b s)).
Proof.
  intros I L P D. destruct b as [b|]; [|by apply (inv_putDir s i d)]. apply (inv_keep s i d d' (b :: pi_pool s) []); try done.
  rewrite P. cbn. rewrite app_nil_r. apply Permutation_middle.
Qed.

(** ** Operations on one direction *)

Lemma dirOk_writer h d w : dirOk h d -> writerOk h w -> dirOk h (set_pd_w w d).
Proof. intros [D1 D2 D3 D4 D5] H. by split. Qed.

Lemma sendBuf_ok h b p d d' :
  dirOk h d -> content h b = p -> wHolds (pd_w d) = [b] -> sendBuf h b p d = Some d' ->
  dirOk h d' /\ bufs d' ≡ₚ bufs d /\ pd_sent d' = pd_sent d ++ p /\ pd_w d' = WReturned (length p) None.
Proof.
  intros [D1 D2 D3 D4 D5] Hp Hw. unfold sendBuf. case_decide as Hl; [|done]. intros [= <-]. split; [split; cbn; try done|].
  - rewrite D1. unfold inPipe. cbn. rewrite map_app, concat_app. cbn. by rewrite app_nil_r, <- !app_assoc.
  - rewrite length_app. cbn. lia.
  - split; [|by rewrite Hp]. unfold bufs. rewrite Hw. cbn. rewrite app_nil_r. solve_Permutation.
Qed.

Lemma recvBuf_ok h d d' r :
  dirOk h d -> snd (pd_bb d) = 0 -> pd_b d = None -> recvBuf h d = Some d' -> readerOk (set_pd_r r d') ->
  reading r = reading (pd_r d) -> dirOk h (set_pd_r r d') /\ bufs (set_pd_r r d') ≡ₚ bufs d.
Proof.
  intros [D1 D2 D3 D4 D5] Hb Hn. unfold recvBuf. destruct (pd_ch d) as [|b ch] eqn:Ec; [done|]. intros [= <-] Hr Hg. split; [split; cbn; try done|].
  - rewrite D1, Hg. unfold inPipe. rewrite Ec. destruct (pd_bb d) as [[b0 off] n]. cbn in *. subst n. rewrite take_0, drop_0. cbn.
    by rewrite firstn_all.
  - cbn in D2. lia.
  - right. cbn. split; [done|lia].
  - unfold bufs. cbn. rewrite Ec, Hn. cbn. symmetry. apply Permutation_middle.
Qed.

Lemma copyOut_ok h rest acc d : dirOk h d -> reading (pd_r d) = acc -> dirOk h (copyOut h rest acc d) /\ bufs (copyOut h rest acc d) = bufs d.
Proof.
  intros [D1 D2 D3 D4 D5] Hr. unfold copyOut. destruct (pd_bb d) as [[b off] n] eqn:Eb. split; [split; cbn; try done|done].
  - rewrite D1, Hr. unfold inPipe. cbn. rewrite Eb. cbn. rewrite <- app_assoc. do 2 f_equal. rewrite app_assoc. f_equal.
    rewrite take_take, <- drop_drop. replace (Nat.min (Nat.min rest n) n) with (Nat.min rest n) by lia.
    rewrite <- (take_drop (Nat.min rest n) (take n (drop off (content h b)))) at 1. rewrite take_take, skipn_firstn_comm.
    by replace (Nat.min (Nat.min rest n) n) with (Nat.min rest n) by lia.
  - unfold bbOk in *. cbn. rewrite Eb in D3. destruct D3 as [->|[Hb Hl]]; [left; lia|]. right. split; [done|]. lia.
Qed.

(** ** Every step keeps the invariant *)

Lemma content_insert_ne h b p b' : b' <> b -> content (<[b := p]> h) b' = content h b'.
Proof. intros D. unfold content. by rewrite list_lookup_insert_ne. Qed.

Lemma content_insert h b p : b < length h -> content (<[b := p]> h) b = p.
Proof. intros D. unfold content. by rewrite list_lookup_insert_eq. Qed.

Lemma inv_Write s i d p pick :
  pipeInv s -> pi_dirs s !! i = Some d -> wQuiet (pd_w d) = true ->
  let '(b, s1) := acquireByteBuffer pick s in pipeInv (putDir i (set_pd_w (WCheck b p) d) (fill b p s1)).
Proof.
  intros I L Hq. assert (wHolds (pd_w d) = []) as Hw by (by destruct (pd_w d)). pose proof I as [A M E].
  assert (forall b, bufs (set_pd_w (WCheck b p) d) ≡ₚ b :: bufs d) as Hb.
  { intros b. unfold bufs. cbn. rewrite Hw, app_nil_r. solve_Permutation. }
  assert (forall h' b, (forall b', b' ∈ held bufs (pi_dirs s) -> content h' b' = content (pi_heap s) b') -> content h' b = p -> dirOk h' (set_pd_w (WCheck b p) d)) as Hd.
  { intros h' b Hc Hp. apply dirOk_writer; [|done]. apply (dirOk_heap (pi_heap s)); [|by eapply E]. intros b' Hb'. apply Hc. apply elem_of_held. by exists i, d. }
  unfold acquireByteBuffer. destruct (pick ≫= _) as [[b pool]|] eqn:Ep.
  - destruct pick as [j|]; [cbn in Ep|done]. destruct (pi_pool s !! j) as [b0|] eqn:Ej; [cbn in Ep|done]. injection Ep as <- <-.
    pose proof (delete_Permutation _ _ _ Ej) as P. assert (b0 ∈ pi_pool s) as Hin by (by eapply list_elem_of_lookup_2).
    assert (b0 < length (pi_heap s)) as Hlt by (apply M, elem_of_app; by right).
    assert (forall b', b' ∈ held bufs (pi_dirs s) -> content (<[b0 := p]> (pi_heap s)) b' = content (pi_heap s) b') as Hc.
    { intros b' Hb'. apply content_insert_ne. intros ->. apply NoDup_app in A as (_ & A & _). by apply (A b0). }
    apply (inv_put s i d _ _ _ [] [] I L); [|left; cbn [fill pi_heap]; by rewrite length_insert|exact Hc|apply Hd; [exact Hc|by apply content_insert]].
    cbn [fill pi_pool]. rewrite Hb, !app_nil_r. etransitivity; [apply Permutation_app_head, P|]. symmetry. apply Permutation_middle.
  - assert (forall b', b' ∈ held bufs (pi_dirs s) -> content (<[length (pi_heap s) := p]> (pi_heap s ++ [[]])) b' = content (pi_heap s) b') as Hc.
    { intros b' Hb'. assert (b' < length (pi_heap s)) as Hl by (apply M, elem_of_app; by left). rewrite content_insert_ne by lia.
      unfold content. by rewrite lookup_app_l. }
    apply (inv_put s i d _ _ _ [] [length (pi_heap s)] I L); [|right; cbn [fill pi_heap]; rewrite length_insert, length_app; cbn; split; [done|lia]|exact Hc|].
    + cbn [fill pi_pool]. rewrite Hb, app_nil_r. cbn. solve_Permutation.
    + apply Hd; [exact Hc|]. apply content_insert. cbn [pi_heap]. rewrite length_app. cbn. lia.
Qed.

Lemma inv_stepWrite s i d choice :
  pipeInv s -> pi_dirs s !! i = Some d -> match stepWrite i d choice s with Blocked => True | Panics => False | To s' => pipeInv s' end.
Proof.
  intros I L. pose proof (pi_each _ I _ _ L) as D. unfold stepWrite.
  assert (forall b err, wHolds (pd_w d) = [b] -> pipeInv (putDir i (set_pd_w (WReturned 0 err) d) (releaseByteBuffer (Some b) s))) as Gb.
  { intros b err Hw. apply (inv_giveBack s i d); try done; [|by apply dirOk_writer]. unfold bufs. rewrite Hw. cbn. rewrite app_nil_r. solve_Permutation. }
  assert (forall b p, wHolds (pd_w d) = [b] -> content (pi_heap s) b = p ->
    match sendBuf (pi_heap s) b p d with Some d' => pipeInv (putDir i d' s) | None => True end) as Sd.
  { intros b p Hw Hp. destruct (sendBuf (pi_heap s) b p d) as [d'|] eqn:Es; [|done]. destruct (sendBuf_ok _ _ _ _ _ D Hp Hw Es) as (D' & P & _).
    by apply (inv_putDir s i d). }
  pose proof (do_writer _ _ D) as Wo. destruct (pd_w d) as [|b p|b p|b p dl|n err] eqn:Ew; try done.
  - destruct (stopped i s); [by apply Gb|]. apply (inv_putDir s i d); try done; [unfold bufs; by rewrite Ew|]. by apply dirOk_writer.
  - specialize (Sd b p eq_refl Wo). destruct (sendBuf _ b p d); [done|]. apply (inv_putDir s i d); try done; [unfold bufs; by rewrite Ew|]. by apply dirOk_writer.
  - specialize (Sd b p eq_refl Wo). destruct choice as [|[|]].
    + by destruct (sendBuf _ b p d).
    + destruct (dlFires dl); [|done]. apply (inv_keep s i d _ (pi_pool s) [b]); try done.
      * unfold bufs. rewrite Ew. cbn. rewrite app_nil_r. solve_Permutation.
      * destruct D. by split.
    + destruct (stopped i s); [by apply Gb|done].
Qed.

Lemma dirOk_reader h d r : dirOk h d -> readerOk (set_pd_r r d) -> reading r = reading (pd_r d) -> dirOk h (set_pd_r r d).
Proof. intros [D1 D2 D3 D4 D5] H E. split; try done. cbn. by rewrite E. Qed.

Lemma finishRead_ok h d acc err : dirOk h d -> reading (pd_r d) = acc -> dirOk h (finishRead acc err d).
Proof. intros [D1 D2 D3 D4 D5] E. split; try done. cbn. rewrite D1, E. by rewrite <- app_assoc. Qed.

Lemma inv_stepRead s i d choice :
  pipeInv s -> pi_dirs s !! i = Some d -> match stepRead i d choice s with Blocked => True | Panics => False | To s' => pipeInv s' end.
Proof.
  intros I L. pose proof (pi_each _ I _ _ L) as D. unfold stepRead.
  assert (forall r, readerOk (set_pd_r r d) -> reading r = reading (pd_r d) -> pipeInv (putDir i (set_pd_r r d) s)) as St.
  { intros r Hr Hg. apply (inv_putDir s i d); try done. by apply dirOk_reader. }
  assert (forall acc err, reading (pd_r d) = acc -> pipeInv (putDir i (finishRead acc err d) s)) as Fi.
  { intros acc err Hg. apply (inv_putDir s i d); try done. by apply finishRead_ok. }
  assert (forall rest acc, reading (pd_r d) = acc -> pipeInv (putDir i (copyOut (pi_heap s) rest acc d) s)) as Cp.
  { intros rest acc Hg. destruct (copyOut_ok (pi_heap s) rest acc d D Hg) as [D' P]. apply (inv_putDir s i d); try done. by rewrite P. }
  assert (snd (pd_bb d) = 0 -> pd_b d = None -> forall rest acc, reading (pd_r d) = acc ->
    match recvBuf (pi_heap s) d with Some d' => pipeInv (putDir i (set_pd_r (RCopy rest acc) d') s) | None => True end) as Rv.
  { intros Hn Hb rest acc Hg. destruct (recvBuf (pi_heap s) d) as [d'|] eqn:Er; [|done].
    destruct (recvBuf_ok _ _ _ (RCopy rest acc) D Hn Hb Er Logic.I (eq_sym Hg)) as [D' P]. by apply (inv_putDir s i d). }
  pose proof (do_reader _ _ D) as Ro. unfold readerOk in Ro. destruct (pd_r d) as [|rest mb acc|rest mb acc|rest acc|rest acc dl|rest acc err|acc err] eqn:Er; try done; cbn [reading] in *.
  - destruct rest as [|rest]; [by apply Fi|]. destruct (pd_bb d) as [[b off] n] eqn:Eb. case_decide as Hn; [subst n|by apply Cp].
    apply (inv_giveBack s i d); try done; [unfold bufs; cbn; solve_Permutation|]. destruct D as [D1 D2 D3 D4 D5]. split; try done.
    + cbn. by rewrite D1, Er.
    + unfold bbOk in *. cbn. rewrite Eb. by left.
    + unfold readerOk. cbn. rewrite Eb. cbn. auto.
  - destruct Ro as (Hn & Hb & Hm). specialize (Rv Hn Hb rest acc eq_refl). destruct (recvBuf _ d) as [d'|]; [done|]. destruct mb; [|by apply Fi]. apply St; [|done]. unfold readerOk. cbn. auto.
  - by apply Cp.
  - destruct Ro as (Hn & Hb & ->). specialize (Rv Hn Hb rest [] eq_refl). destruct choice as [|[|]].
    + by destruct (recvBuf _ d).
    + destruct (dlFires dl); [|done]. apply (inv_putDir s i d); try done. destruct D as [D1 D2 D3 D4 D5]. rewrite Er in D1. split; try done; unfold readerOk; cbn; auto.
    + destruct (stopped i s); [|done]. apply St; [|done]. unfold readerOk. cbn. auto.
  - destruct Ro as (Hn & Hb & ->). specialize (Rv Hn Hb rest [] eq_refl). destruct (recvBuf _ d) as [d'|]; [done|]. by apply Fi.
Qed.

Lemma newDir_ok h : dirOk h newDir.
Proof. split; cbn; try done; [lia|by left]. Qed.

Lemma pipeInv_step s i a : pipeInv s -> match step i a s with Blocked => True | Panics => False | To s' => pipeInv s' end.
Proof.
  intros I. unfold step, pipe_machine. destruct a as [|p pick|n| |dl|dl|choice|choice].
  { destruct I as [A M E]. split; cbn.
    - rewrite held_app. unfold held at 2. cbn. by rewrite app_nil_r.
    - intros b Hb. rewrite held_app in Hb. unfold held at 2 in Hb. cbn in Hb. rewrite app_nil_r in Hb. by apply M.
    - intros j d Lj. apply lookup_app_Some in Lj as [Lj|[_ Lj]]; [by eapply E|].
      assert (d = newDir) as -> by (apply list_elem_of_lookup_2 in Lj; apply elem_of_cons in Lj as [->|Lj]; [done|by apply list_elem_of_singleton in Lj]). apply newDir_ok. }
  all: destruct (pi_dirs s !! i) as [d|] eqn:L; [|done]; pose proof (pi_each _ I _ _ L) as D.
  - destruct (wQuiet (pd_w d)) eqn:Hq; [|done]. pose proof (inv_Write s i d p pick I L Hq) as H. by destruct (acquireByteBuffer pick s).
  - destruct (rQuiet (pd_r d)) eqn:Hq; [|done]. apply (inv_putDir s i d); try done. apply dirOk_reader; [done|done|]. by destruct (pd_r d).
  - destruct I as [A M E]. by split.
  - apply (inv_putDir s i d); try done. destruct D. by split.
  - destruct (wQuiet (pd_w d)); [|done]. apply (inv_putDir s i d); try done. destruct D. by split.
  - by apply inv_stepWrite.
  - by apply inv_stepRead.
Qed.

Lemma pipeInv_init : pipeInv initPw.
Proof. split; cbn; [constructor|by intros b Hb; apply elem_of_nil in Hb|done]. Qed.

Lemma pipe_reachable s : reachable initPw s -> pipeInv s.
Proof. apply reachable_invariant; [apply pipeInv_init|]. intros t a s1 s2 I E. pose proof (pipeInv_step s1 t a I) as H. by rewrite E in H. Qed.

(** ** The end of a pipe *)

(** A Read is about to return io.EOF only when the pipe is closed. *)
Definition endOk (stop : bool) (r : rstage) : Prop :=
  match r with RLast _ _ EOF => stop = true | RLast _ _ errConnectionClosed => False | _ => True end.

Definition endInv (s : pworld) : Prop := forall i d, pi_dirs s !! i = Some d -> endOk (stopped i s) (pd_r d).

Lemma endOk_quiet b r : rQuiet r = true -> endOk b r.
Proof. by destruct r. Qed.

Lemma endInv_put s s1 i d' :
  endInv s -> pi_stopped s1 = pi_stopped s -> pi_dirs s1 = pi_dirs s -> endOk (stopped i s) (pd_r d') -> endInv (putDir i d' s1).
Proof.
  intros I Es Ed H j dj Lj. cbn in Lj. rewrite Ed in Lj. unfold stopped. cbn. rewrite Es. apply list_lookup_insert_Some in Lj as [(<- & <- & _)|(_ & Lj)]; [exact H|by apply I].
Qed.

Lemma releaseByteBuffer_same b s : pi_stopped (releaseByteBuffer b s) = pi_stopped s /\ pi_dirs (releaseByteBuffer b s) = pi_dirs s.
Proof. by destruct b. Qed.

Lemma sendBuf_reader h b p d d' : sendBuf h b p d = Some d' -> pd_r d' = pd_r d.
Proof. unfold sendBuf. case_decide; [|done]. by intros [= <-]. Qed.

Lemma copyOut_reader h rest acc d : exists rest' acc', pd_r (copyOut h rest acc d) = RLoop rest' false acc'.
Proof. unfold copyOut. destruct (pd_bb d) as [[b off] n]. cbn. eauto. Qed.

Lemma endInv_step s i a s' : endInv s -> step i a s = To s' -> endInv s'.
Proof.
  intros I. unfold step, pipe_machine. destruct a as [|p pick|n| |dl|dl|choice|choice].
  { intros [= <-] j d Lj. cbn in Lj. apply lookup_app_Some in Lj as [Lj|[_ Lj]].
    - specialize (I j d Lj). unfold stopped in *. cbn [pi_stopped]. destruct (pi_stopped s !! (j / 2)) as [b|] eqn:E; [by rewrite (lookup_app_l_Some _ _ _ _ E)|].
      by destruct (pd_r d) as [| | | | |? ? []|].
    - assert (d = newDir) as -> by (apply list_elem_of_lookup_2 in Lj; apply elem_of_cons in Lj as [->|Lj]; [done|by apply list_elem_of_singleton in Lj]). done. }
  all: destruct (pi_dirs s !! i) as [d|] eqn:L; [|done]; pose proof (I _ _ L) as D.
  - destruct (wQuiet (pd_w d)); [|done]. unfold acquireByteBuffer. destruct (pick ≫= _) as [[b pool]|]; intros [= <-]; by apply (endInv_put s).
  - destruct (rQuiet (pd_r d)); [|done]. intros [= <-]. by apply (endInv_put s).
  - intros [= <-] j dj Lj. cbn in Lj. specialize (I j dj Lj). unfold stopped in *. cbn [pi_stopped].
    destruct (pd_r dj) as [| | | | |? ? []|] eqn:Er; try done. cbn [endOk] in *. change (Nat.divmod i 1 0 1).1 with (i / 2).
    destruct (decide (i / 2 = j / 2)) as [->|Dj]; [|by rewrite list_lookup_insert_ne].
    destruct (pi_stopped s !! (j / 2)) eqn:Ej; [|done]. rewrite list_lookup_insert_eq; [done|by eapply lookup_lt_Some].
  - intros [= <-]. by apply (endInv_put s).
  - destruct (wQuiet (pd_w d)); [|done]. intros [= <-]. by apply (endInv_put s).
  - unfold stepWrite. destruct (pd_w d) as [|b p|b p|b p dl|] eqn:Ew; try done.
    + case (stopped i s); intros [= <-]; by apply (endInv_put s).
    + destruct (sendBuf _ b p d) eqn:Es; intros [= <-]; apply (endInv_put s); try done. by rewrite (sendBuf_reader _ _ _ _ _ Es).
    + destruct choice as [|[|]].
      * destruct (sendBuf _ b p d) eqn:Es; [|done]. intros [= <-]. apply (endInv_put s); try done. by rewrite (sendBuf_reader _ _ _ _ _ Es).
      * destruct (dlFires dl); [|done]. intros [= <-]. by apply (endInv_put s).
      * case (stopped i s); [|done]. intros [= <-]. by apply (endInv_put s).
  - unfold stepRead. assert (forall rest acc, endInv (putDir i (copyOut (pi_heap s) rest acc d) s)) as Cp.
    { intros rest acc. apply (endInv_put s); try done. by destruct (copyOut_reader (pi_heap s) rest acc d) as (? & ? & ->). }
    destruct (pd_r d) as [|[|rest] mb acc|rest mb acc|rest acc|rest acc dl|rest acc err|acc err] eqn:Er; try done.
    + intros [= <-]. by apply (endInv_put s).
    + destruct (pd_bb d) as [[b off] n]. case_decide; intros [= <-]; [|done]. destruct (releaseByteBuffer_same (pd_b d) s). by apply (endInv_put s).
    + destruct (recvBuf _ d); [intros [= <-]; by apply (endInv_put s)|]. destruct mb; intros [= <-]; by apply (endInv_put s).
    + intros [= <-]. done.
    + destruct choice as [|[|]].
      * destruct (recvBuf _ d); [|done]. intros [= <-]. by apply (endInv_put s).
      * destruct (dlFires dl); [|done]. intros [= <-]. by apply (endInv_put s).
      * destruct (stopped i s) eqn:Es; [|done]. intros [= <-]. apply (endInv_put s); try done.
    + destruct (recvBuf _ d); intros [= <-]; by apply (endInv_put s).
Qed.

Lemma end_reachable s : reachable initPw s -> endInv s.
Proof. apply reachable_invariant; [by intros i d|]. intros t a s1 s2 I E. by eapply endInv_step. Qed.

(** * Properties *)

(** A pipe keeps what is written in order: at every moment, under every
    interleaving of any number of pipes that share the pool of buffers, what the
    Writes of a direction have sent is what its Reads have returned, what the Read
    at work has, and what is in the pipe; a buffer is in one place only, never in
    the pool and in use. *)
Lemma pipe_keeps_order (s : pworld) (i : nat) (d : pdir) (R : reachable initPw s) (L : pi_dirs s !! i = Some d) :
  pd_sent d = pd_got d ++ reading (pd_r d) ++ inPipe (pi_heap s) d /\ length (pd_ch d) <= 4 /\ NoDup (held bufs (pi_dirs s) ++ pi_pool s).
Proof. pose proof (pipe_reachable s R) as I. destruct (pi_each _ I _ _ L). split; [done|]. split; [done|]. apply I. Qed.

(** Write sends all or nothing: it returns the length of its argument and no
    error when it has sent it, and 0 and an error when it has not. *)
Lemma Write_all_or_nothing (s s' : pworld) (i choice n : nat) (d d' : pdir) (err : option perr)
    (R : reachable initPw s) (L : pi_dirs s !! i = Some d) (E : step i (PGoW choice) s = To s') (L' : pi_dirs s' !! i = Some d') (W : pd_w d' = WReturned n err) :
  exists b p, (pd_w d = WCheck b p \/ pd_w d = WTry b p \/ exists dl, pd_w d = WBlocked b p dl) /\
    (err = None /\ n = length p /\ pd_sent d' = pd_sent d ++ p \/ err <> None /\ n = 0 /\ pd_sent d' = pd_sent d).
Proof.
  pose proof (pi_each _ (pipe_reachable s R) _ _ L) as D. unfold step, pipe_machine in E. rewrite L in E. unfold stepWrite in E.
  assert (forall s1 d1, pi_dirs s1 = pi_dirs s -> putDir i d1 s1 = s' -> d1 = d') as Put.
  { intros s1 d1 H1 H. subst s'. cbn in L'. rewrite H1, list_lookup_insert_eq in L' by (by eapply lookup_lt_Some). by injection L'. }
  assert (forall b p d1, wHolds (pd_w d) = [b] -> content (pi_heap s) b = p -> sendBuf (pi_heap s) b p d = Some d1 -> d1 = d' ->
    err = None /\ n = length p /\ pd_sent d' = pd_sent d ++ p) as Sd.
  { intros b p d1 Hw Hp Es ->. destruct (sendBuf_ok _ _ _ _ _ D Hp Hw Es) as (_ & _ & Hs & Hd). rewrite W in Hd. injection Hd as -> ->. done. }
  pose proof (do_writer _ _ D) as Wo. destruct (pd_w d) as [|b p|b p|b p dl|] eqn:Ew; try done; exists b, p; (split; [eauto|]).
  - destruct (stopped i s); injection E as E; apply Put in E; [|done| |done]; subst d'; [|done]. right. by injection W as <- <-.
  - destruct (sendBuf _ b p d) as [d1|] eqn:Es; injection E as E; apply Put in E; try done; [left; by eapply Sd|]. by subst d'.
  - destruct choice as [|[|]].
    + destruct (sendBuf _ b p d) as [d1|] eqn:Es; [|done]. injection E as E. apply Put in E; [|done]. left. by eapply Sd.
    + destruct (dlFires dl); [|done]. injection E as E. apply Put in E; [|done]. subst d'. right. by injection W as <- <-.
    + destruct (stopped i s); [|done]. injection E as E. apply Put in E; [|done]. subst d'. right. by injection W as <- <-.
Qed.

(** Read loses nothing: it returns an error only with no data, when all that had
    been sent has been returned by Reads; io.EOF only when the pipe is closed. *)
Lemma Read_error_after_all (s s' : pworld) (i choice : nat) (d d' : pdir) (acc : bytes) (err : perr)
    (R : reachable initPw s) (L : pi_dirs s !! i = Some d) (E : step i (PGoR choice) s = To s') (L' : pi_dirs s' !! i = Some d') (W : pd_r d' = RReturned acc (Some err)) :
  acc = [] /\ pd_got d' = pd_sent d' /\ err <> errConnectionClosed /\ (err = EOF -> stopped i s' = true).
Proof.
  pose proof (end_reachable s R i d L) as Q.
  pose proof (pi_each _ (pipe_reachable s R) _ _ L) as [D1 _ _ _ Ro]. unfold step, pipe_machine in E. rewrite L in E. unfold stepRead in E.
  assert (forall s1 d1, pi_dirs s1 = pi_dirs s -> putDir i d1 s1 = s' -> d1 = d') as Put.
  { intros s1 d1 H1 H. subst s'. cbn in L'. rewrite H1, list_lookup_insert_eq in L' by (by eapply lookup_lt_Some). by injection L'. }
  assert (forall rest acc0 d1, pd_r d1 = RCopy rest acc0 -> d1 <> d') as Nc by (intros rest acc0 d1 H ->; congruence).
  assert (forall rest acc0, copyOut (pi_heap s) rest acc0 d <> d') as Nl by (intros rest acc0 H; destruct (copyOut_reader (pi_heap s) rest acc0 d) as (? & ? & H'); rewrite H, W in H'; done).
  unfold readerOk in Ro. destruct (pd_r d) as [|[|rest] mb acc0|rest mb acc0|rest acc0|rest acc0 dl|rest acc0 err0|acc0 err0] eqn:Er; try done.
  - injection E as E. apply Put in E; [|done]. by subst d'.
  - destruct (pd_bb d) as [[b off] n]. case_decide; injection E as E; apply Put in E; [by subst d'|by destruct (releaseByteBuffer_same (pd_b d) s)|by apply Nl in E|done].
  - destruct (recvBuf _ d) as [d1|]; [|destruct mb]; injection E as E; apply Put in E; try done; by subst d'.
  - injection E as E. apply Put in E; [|done]. by apply Nl in E.
  - destruct choice as [|[|]]; [destruct (recvBuf _ d)|destruct (dlFires dl)|destruct (stopped i s)]; try done; injection E as E; apply Put in E; try done; by subst d'.
  - destruct (recvBuf _ d) as [d1|] eqn:Ev; injection E as E; pose proof E as E0; apply Put in E; try done; subst d'; [done|]. cbn in W. injection W as <- <-.
    destruct Ro as (Hn & _ & ->). split; [done|]. cbn. rewrite app_nil_r. split; [|split; [by destruct err0|]].
    + rewrite D1. unfold inPipe. unfold recvBuf in Ev. destruct (pd_ch d); [|done]. destruct (pd_bb d) as [[b off] n]. cbn in *. subst n. rewrite take_0. cbn. by rewrite app_nil_r.
    + intros ->. subst s'. exact Q.
Qed.

(** A pipe: two Writes, a Read of three bytes, Close, a Read of the rest and one at
    the end. *)
Definition pipeRun : list (nat * pact) :=
  [(0, PNew); (0, PWrite (bs "ab") None); (0, PGoW 0); (0, PGoW 0); (0, PWrite (bs "cde") None); (0, PGoW 0); (0, PGoW 0);
   (0, PRead 3); (0, PGoR 0); (0, PGoR 0); (0, PGoR 0); (0, PGoR 0); (0, PGoR 0); (0, PGoR 0); (0, PGoR 0)].

Definition pipeEnd : list (nat * pact) :=
  [(0, PClose); (0, PRead 9); (0, PGoR 0); (0, PGoR 0); (0, PGoR 0); (0, PRead 9); (0, PGoR 0); (0, PGoR 0); (0, PGoR 2)].

Definition pipesAfter (sched : list (nat * pact)) : pworld := match run sched initPw with To s => s | _ => initPw end.

Definition dirAfter (sched : list (nat * pact)) : pdir := default newDir (pi_dirs (pipesAfter sched) !! 0).

Definition ran (sched : list (nat * pact)) : bool := match run sched initPw with To _ => true | _ => false end.

Lemma pipesAfter_reachable sched : ran sched = true -> reachable initPw (pipesAfter sched).
Proof. unfold ran, pipesAfter. destruct (run sched initPw) as [| |s] eqn:E; [done|done|]. intros _. by apply (run_reachable sched). Qed.

Lemma pipe_keeps_order_witness :
  pd_got (dirAfter pipeRun) = bs "abc" /\ inPipe (pi_heap (pipesAfter pipeRun)) (dirAfter pipeRun) = bs "de" /\
  NoDup (held bufs (pi_dirs (pipesAfter pipeRun)) ++ pi_pool (pipesAfter pipeRun)).
Proof.
  assert (reachable initPw (pipesAfter pipeRun)) as R by (apply pipesAfter_reachable; vm_compute; reflexivity).
  assert (pi_dirs (pipesAfter pipeRun) !! 0 = Some (dirAfter pipeRun)) as L by (vm_compute; reflexivity).
  split; [vm_compute; reflexivity|]. split; [vm_compute; reflexivity|]. exact (proj2 (proj2 (pipe_keeps_order _ 0 _ R L))).
Defined.

Lemma Write_all_or_nothing_witness :
  let sched := [(0, PNew); (0, PWrite (bs "ab") None); (0, PGoW 0)] in
  pd_w (dirAfter (sched ++ [(0, PGoW 0)])) = WReturned 2 None /\
  exists b p, (pd_w (dirAfter sched) = WCheck b p \/ pd_w (dirAfter sched) = WTry b p \/ exists dl, pd_w (dirAfter sched) = WBlocked b p dl).
Proof.
  cbv zeta. set (sched := [(0, PNew); (0, PWrite (bs "ab") None); (0, PGoW 0)]).
  assert (reachable initPw (pipesAfter sched)) as R by (apply pipesAfter_reachable; vm_compute; reflexivity).
  assert (pd_w (dirAfter (sched ++ [(0, PGoW 0)])) = WReturned 2 None) as W by (vm_compute; reflexivity). split; [exact W|].
  assert (pi_dirs (pipesAfter sched) !! 0 = Some (dirAfter sched)) as L by (vm_compute; reflexivity).
  assert (step 0 (PGoW 0) (pipesAfter sched) = To (pipesAfter (sched ++ [(0, PGoW 0)]))) as E by (vm_compute; reflexivity).
  assert (pi_dirs (pipesAfter (sched ++ [(0, PGoW 0)])) !! 0 = Some (dirAfter (sched ++ [(0, PGoW 0)]))) as L' by (vm_compute; reflexivity).
  destruct (Write_all_or_nothing _ _ 0 0 2 _ _ None R L E L' W) as (b & p & H & _). by exists b, p.
Defined.

Lemma Read_error_after_all_witness :
  let sched := pipeRun ++ pipeEnd in
  pd_r (dirAfter (sched ++ [(0, PGoR 0)])) = RReturned [] (Some EOF) /\ pd_got (dirAfter (sched ++ [(0, PGoR 0)])) = pd_sent (dirAfter (sched ++ [(0, PGoR 0)])).
Proof.
  cbv zeta. set (sched := pipeRun ++ pipeEnd).
  assert (reachable initPw (pipesAfter sched)) as R by (apply pipesAfter_reachable; vm_compute; reflexivity).
  assert (pd_r (dirAfter (sched ++ [(0, PGoR 0)])) = RReturned [] (Some EOF)) as W by (vm_compute; reflexivity). split; [exact W|].
  assert (pi_dirs (pipesAfter sched) !! 0 = Some (dirAfter sched)) as L by (vm_compute; reflexivity).
  assert (step 0 (PGoR 0) (pipesAfter sched) = To (pipesAfter (sched ++ [(0, PGoR 0)]))) as E by (vm_compute; reflexivity).
  assert (pi_dirs (pipesAfter (sched ++ [(0, PGoR 0)])) !! 0 = Some (dirAfter (sched ++ [(0, PGoR 0)]))) as L' by (vm_compute; reflexivity).
  exact (proj1 (proj2 (Read_error_after_all _ _ 0 0 _ _ [] EOF R L E L' W))).
Defined.

Lemma step_goR s i d choice : pi_dirs s !! i = Some d -> step i (PGoR choice) s = stepRead i d choice s.
Proof. intros L. unfold step, pipe_machine. by rewrite L. Qed.

(** Close wakes the reader and the writer that wait. *)
Lemma Close_wakes s i d :
  pi_dirs s !! i = Some d -> stopped i s = true ->
  (forall rest acc dl, pd_r d = RWait rest acc dl -> exists s', run [(i, PGoR 2); (i, PGoR 0)] s = To s' /\
     exists d', pi_dirs s' !! i = Some d' /\ (pd_r d' = RReturned acc (Some EOF) \/ pd_r d' = RCopy rest acc)) /\
  (forall b p dl, pd_w d = WBlocked b p dl -> exists s', step i (PGoW 2) s = To s' /\
     exists d', pi_dirs s' !! i = Some d' /\ pd_w d' = WReturned 0 (Some errConnectionClosed)).
Proof.
  intros L St. pose proof (lookup_lt_Some _ _ _ L) as Hl. split.
  - intros rest acc dl Er. cbn [run]. rewrite (step_goR _ _ _ _ L). unfold stepRead at 1. rewrite Er, St. cbn [obind].
    rewrite (step_goR _ _ (set_pd_r (RLast rest acc EOF) d)) by (by apply list_lookup_insert_eq). unfold stepRead. cbn [pd_r set_pd_r pi_heap putDir].
    unfold recvBuf. cbn [pd_ch set_pd_r]. destruct (pd_ch d); cbn [obind]; eexists; (split; [reflexivity|]); cbn [pi_dirs putDir]; eexists;
      (split; [apply list_lookup_insert_eq; by rewrite length_insert|]); cbn; auto.
  - intros b p dl Ew. unfold step, pipe_machine. rewrite L. unfold stepWrite. rewrite Ew, St. eexists. split; [reflexivity|]. cbn. eexists.
    split; [by apply list_lookup_insert_eq|done].
Qed.

(** An empty Write makes the Read at the other end return no byte and no error. *)
Lemma Read_nothing :
  pd_r (dirAfter [(0, PNew); (0, PWrite [] None); (0, PGoW 0); (0, PGoW 0); (0, PRead 9); (0, PGoR 0); (0, PGoR 0); (0, PGoR 0); (0, PGoR 0); (0, PGoR 0)]) = RReturned [] None.
Proof. vm_compute. reflexivity. Qed.

(** A Write that has passed its look at stopCh still succeeds after Close, and after
    the other end has been told io.EOF: the next Read there returns data. *)
Lemma Read_after_EOF :
  let eof := [(0, PNew); (0, PWrite (bs "a") None); (0, PGoW 0); (0, PClose); (0, PRead 9); (0, PGoR 0); (0, PGoR 0); (0, PGoR 2); (0, PGoR 0)] in
  pd_r (dirAfter eof) = RReturned [] (Some EOF) /\
  pd_r (dirAfter (eof ++ [(0, PGoW 0); (0, PRead 9); (0, PGoR 0); (0, PGoR 0); (0, PGoR 0); (0, PGoR 0); (0, PGoR 0)])) = RReturned (bs "a") None.
Proof. split; vm_compute; reflexivity. Qed.

(** A new deadline that is set while a Read is about to time out is lost: Read
    closes the deadline channel over it. *)
Lemma SetReadDeadline_lost :
  pd_rdl (dirAfter [(0, PNew); (0, PSetRead (Some 5%Z)); (0, PRead 9); (0, PGoR 0); (0, PGoR 0); (0, PSetRead None); (0, PGoR 1)]) = DlClosed.
Proof. vm_compute. reflexivity. Qed.
