(* ===== verification/InmemoryListener.v ===== *)
(** * fasthttputil/inmemory_listener.go: a listener in memory

    Dial, Accept and Close of InmemoryListener, in any number of goroutines: a step
    is an operation on the lock or a channel.  A connection is numbered by the Dial
    that makes it; the pipe behind it is [PipeConns]. *)
From stdpp Require Import sets relations list_tactics.
From S2P Require Import Prelude Machine.
#[local] Open Scope nat_scope.

(** Dial: before the lock, before it sends its connection, waiting for Accept,
    accepted, closed, returned.  Accept: before it receives, with a connection
    whose channel it has not closed, returned.  Close: before the lock, with it,
    with its result, returned. *)
Inductive lstage :=
| DLock
| DSend
| DWait
| DAccepted
| DClosed
| DReturned (ok : bool)
| ARecv
| AAck (k : nat)
| AReturned (conn : option nat)
| CLock
| CClose
| CDone (err : bool)
| CReturned (err : bool).

#[export] Instance lstage_eq_dec : EqDecision lstage.
Proof. solve_decision. Defined.

(** [il_chClosed]: the channel conns is closed; [il_acked]: the connections whose
    channel accepted is closed. *)
Record InmemoryListener := MkListener {
  il_lock : option nat;
  il_closed : bool;
  il_chClosed : bool;
  il_conns : list nat;
  il_acked : list nat;
  il_threads : list lstage
}.

Definition NewInmemoryListener : InmemoryListener := MkListener None false false [] [] [].

Definition set_il_lock (v : option nat) (s : InmemoryListener) : InmemoryListener :=
  MkListener v (il_closed s) (il_chClosed s) (il_conns s) (il_acked s) (il_threads s).
Definition set_il_conns (v : list nat) (s : InmemoryListener) : InmemoryListener :=
  MkListener (il_lock s) (il_closed s) (il_chClosed s) v (il_acked s) (il_threads s).
Definition set_il_acked (v : list nat) (s : InmemoryListener) : InmemoryListener :=
  MkListener (il_lock s) (il_closed s) (il_chClosed s) (il_conns s) v (il_threads s).
Definition set_il_closed (s : InmemoryListener) : InmemoryListener :=
  MkListener (il_lock s) true true (il_conns s) (il_acked s) (il_threads s).
Definition set_il_threads (v : list lstage) (s : InmemoryListener) : InmemoryListener :=
  MkListener (il_lock s) (il_closed s) (il_chClosed s) (il_conns s) (il_acked s) v.

Definition lgoto (t : nat) (pc : lstage) (s : InmemoryListener) : InmemoryListener := set_il_threads (<[t := pc]> (il_threads s)) s.

Definition acquireLock (t : nat) (pc : lstage) (s : InmemoryListener) : outcome InmemoryListener :=
  match il_lock s with Some _ => Blocked | None => To (lgoto t pc (set_il_lock (Some t) s)) end.

Definition InmemoryListener_Dial (t : nat) (pc : lstage) (s : InmemoryListener) : outcome InmemoryListener :=
  match pc with
  | DLock => acquireLock t (if il_closed s then DClosed else DSend) s
  | DSend =>
      if il_chClosed s then Panics
      else if decide (length (il_conns s) < 1024) then To (lgoto t DWait (set_il_conns (il_conns s ++ [t]) s)) else Blocked
  | DWait => if decide (t ∈ il_acked s) then To (lgoto t DAccepted s) else Blocked
  | DAccepted => To (lgoto t (DReturned true) (set_il_lock None s))
  | DClosed => To (lgoto t (DReturned false) (set_il_lock None s))
  | _ => Blocked
  end.

Definition InmemoryListener_Accept (t : nat) (pc : lstage) (s : InmemoryListener) : outcome InmemoryListener :=
  match pc with
  | ARecv =>
      match il_conns s with
      | k :: conns => To (lgoto t (AAck k) (set_il_conns conns s))
      | [] => if il_chClosed s then To (lgoto t (AReturned None) s) else Blocked
      end
  | AAck k => if decide (k ∈ il_acked s) then Panics else To (lgoto t (AReturned (Some k)) (set_il_acked (k :: il_acked s) s))
  | _ => Blocked
  end.

Definition InmemoryListener_Close (t : nat) (pc : lstage) (s : InmemoryListener) : outcome InmemoryListener :=
  match pc with
  | CLock => acquireLock t CClose s
  | CClose =>
      if il_closed s then To (lgoto t (CDone true) s)
      else if il_chClosed s then Panics else To (lgoto t (CDone false) (set_il_closed s))
  | CDone err => To (lgoto t (CReturned err) (set_il_lock None s))
  | _ => Blocked
  end.

(** A call arrives, or a goroutine goes on. *)
Inductive lact := LDial | LAccept | LClose | LGo.

Definition accepting (pc : lstage) : bool := match pc with ARecv | AAck _ | AReturned _ => true | _ => false end.
Definition closing (pc : lstage) : bool := match pc with CLock | CClose | CDone _ | CReturned _ => true | _ => false end.

#[global] Instance listener_machine : Machine InmemoryListener lact := fun t a s =>
  let call pc := if decide (t = length (il_threads s)) then To (set_il_threads (il_threads s ++ [pc]) s) else Blocked in
  match a with
  | LDial => call DLock
  | LAccept => call ARecv
  | LClose => call CLock
  | LGo =>
      match il_threads s !! t with
      | None => Blocked
      | Some pc =>
          if accepting pc then InmemoryListener_Accept t pc s
          else if closing pc then InmemoryListener_Close t pc s else InmemoryListener_Dial t pc s
      end
  end.

(** ** The invariant *)

Definition locks (pc : lstage) : bool := match pc with DSend | DWait | DAccepted | DClosed | CClose | CDone _ => true | _ => false end.

(** The connection an Accept has got. *)
Definition accepts (pc : lstage) : list nat := match pc with AAck k | AReturned (Some k) => [k] | _ => [] end.

Definition dialled (pc : lstage) : Prop := pc = DWait \/ pc = DAccepted \/ pc = DReturned true.

Record listenerInv (s : InmemoryListener) : Prop := {
  il_held : forall t pc, il_threads s !! t = Some pc -> locks pc = true -> il_lock s = Some t;
  il_chan : il_chClosed s = il_closed s;
  il_send : forall t, il_threads s !! t = Some DSend -> il_closed s = false;
  il_once : NoDup (il_conns s ++ held accepts (il_threads s));
  il_queued : forall k, k ∈ il_conns s -> il_threads s !! k = Some DWait;
  il_from : forall k, k ∈ held accepts (il_threads s) -> exists pc, il_threads s !! k = Some pc /\ dialled pc;
  il_ack : forall k, k ∈ il_acked s <-> exists u, il_threads s !! u = Some (AReturned (Some k));
  il_back : forall t pc, il_threads s !! t = Some pc -> pc = DAccepted \/ pc = DReturned true -> t ∈ il_acked s;
  il_wait : forall t, il_threads s !! t = Some DWait -> t ∈ il_conns s ++ held accepts (il_threads s)
}.

Lemma locked_by s t u pc pc' :
  listenerInv s -> il_threads s !! t = Some pc -> locks pc = true -> il_threads s !! u = Some pc' -> locks pc' = true -> u = t.
Proof. intros I L H L' H'. pose proof (il_held _ I _ _ L H). pose proof (il_held _ I _ _ L' H'). congruence. Qed.

(** The lock: taken, given back or left alone. *)
Lemma held_move s s1 t pc pc' :
  listenerInv s -> il_threads s !! t = Some pc -> il_threads s1 = il_threads s -> (locks pc' = true -> il_lock s1 = Some t) ->
  (il_lock s1 = il_lock s \/ il_lock s = None \/ il_lock s = Some t) ->
  forall u p, il_threads (lgoto t pc' s1) !! u = Some p -> locks p = true -> il_lock (lgoto t pc' s1) = Some u.
Proof.
  intros I L Et Hp Hl u p U Hu. cbn in U |- *. rewrite Et in U. apply list_lookup_insert_Some in U as [(-> & <- & _)|(D & U)]; [by apply Hp|].
  pose proof (il_held _ I _ _ U Hu) as E. destruct Hl as [->|[Hl|Hl]]; [done|congruence|congruence].
Qed.

Lemma accepts_in s u k : il_threads s !! u = Some (AReturned (Some k)) \/ il_threads s !! u = Some (AAck k) -> k ∈ held accepts (il_threads s).
Proof. intros [L|L]; apply elem_of_held; eexists u, _; (split; [exact L|]); left. Qed.

(** A step that hands no connection on. *)
Lemma inv_move s s1 t pc pc' :
  listenerInv s -> il_threads s !! t = Some pc -> il_threads s1 = il_threads s -> il_conns s1 = il_conns s -> il_acked s1 = il_acked s ->
  (locks pc' = true -> il_lock s1 = Some t) -> (il_lock s1 = il_lock s \/ il_lock s = None \/ il_lock s = Some t) ->
  il_chClosed s1 = il_closed s1 -> (pc' = DSend -> il_closed s1 = false) -> (il_closed s1 = il_closed s \/ il_lock s = Some t) ->
  accepts pc = [] -> accepts pc' = [] -> pc' <> DWait -> (pc = DWait -> ~ t ∈ il_conns s) -> (dialled pc -> dialled pc') ->
  (pc' = DAccepted \/ pc' = DReturned true -> t ∈ il_acked s) -> listenerInv (lgoto t pc' s1).
Proof.
  intros I L Et Ec Ea Hp Hl Hch Hsend Hcl A A' Nw Hw Hd Hb.
  assert (held accepts (il_threads (lgoto t pc' s1)) ≡ₚ held accepts (il_threads s)) as Eh by (cbn; rewrite Et; apply (held_insert_same accepts _ _ _ _ L); by rewrite A, A').
  split.
  - by apply (held_move s s1 t pc pc').
  - exact Hch.
  - cbn. rewrite Et. intros u U. apply list_lookup_insert_Some in U as [(-> & -> & _)|(D & U)]; [by apply Hsend|].
    destruct Hcl as [->|Hcl]; [by apply (il_send _ I u)|]. pose proof (il_held _ I _ _ U eq_refl). congruence.
  - rewrite Eh. cbn. rewrite Ec. apply I.
  - cbn. rewrite Ec, Et. intros k Hk. pose proof (il_queued _ I k Hk) as Q. rewrite list_lookup_insert_ne; [done|]. intros ->. rewrite L in Q. injection Q as ->. by apply Hw.
  - intros k Hk. rewrite Eh in Hk. destruct (il_from _ I k Hk) as (p & Lp & Dp). cbn. rewrite Et. destruct (decide (t = k)) as [->|D].
    + exists pc'. rewrite list_lookup_insert_eq by (by eapply lookup_lt_Some). split; [done|]. apply Hd. rewrite L in Lp. by injection Lp as ->.
    + exists p. by rewrite list_lookup_insert_ne.
  - cbn. rewrite Ea, Et. intros k. rewrite (il_ack _ I). split; intros [u U]; exists u.
    + rewrite list_lookup_insert_ne; [done|]. intros ->. rewrite L in U. injection U as ->. done.
    + apply list_lookup_insert_Some in U as [(-> & -> & _)|(D & U)]; done.
  - cbn. rewrite Ea, Et. intros u p U Hu. apply list_lookup_insert_Some in U as [(-> & <- & _)|(D & U)]; [by apply Hb|by eapply (il_back _ I)].
  - intros u U. rewrite Eh. cbn in U |- *. rewrite Et in U. rewrite Ec. apply list_lookup_insert_Some in U as [(-> & -> & _)|(D & U)]; [done|]. by apply (il_wait _ I).
Qed.

Lemma inv_send s t :
  listenerInv s -> il_threads s !! t = Some DSend -> listenerInv (lgoto t DWait (set_il_conns (il_conns s ++ [t]) s)).
Proof.
  intros I L. set (s1 := set_il_conns (il_conns s ++ [t]) s).
  assert (held accepts (il_threads (lgoto t DWait s1)) ≡ₚ held accepts (il_threads s)) as Eh by (by apply (held_insert_same accepts _ _ _ _ L)).
  assert (forall pc, il_threads s !! t = Some pc -> pc = DSend) as Et by (intros pc L'; rewrite L in L'; by injection L').
  assert (~ t ∈ il_conns s ++ held accepts (il_threads s)) as Nt.
  { intros Hin. apply elem_of_app in Hin as [Hin|Hin]; [by pose proof (Et _ (il_queued _ I t Hin))|]. destruct (il_from _ I t Hin) as (p & Lp & Hd).
    apply Et in Lp as ->. by destruct Hd as [|[|]]. }
  split.
  - apply (held_move s s1 t DSend DWait); try done; [|by left]. intros _. apply (il_held _ I _ _ L). done.
  - apply I.
  - cbn. intros u U. apply list_lookup_insert_Some in U as [(-> & [=] & _)|(D & U)]. by apply (il_send _ I u).
  - rewrite Eh. cbn. rewrite <- app_assoc. cbn. rewrite <- Permutation_middle. apply NoDup_cons. split; [done|apply I].
  - cbn. intros k Hk. destruct (decide (t = k)) as [->|D]; [by rewrite list_lookup_insert_eq by (by eapply lookup_lt_Some)|].
    rewrite list_lookup_insert_ne by done. apply elem_of_app in Hk as [Hk|Hk]; [by apply (il_queued _ I)|]. by apply list_elem_of_singleton in Hk.
  - intros k Hk. rewrite Eh in Hk. destruct (il_from _ I k Hk) as (p & Lp & Dp). exists p. cbn. rewrite list_lookup_insert_ne; [done|].
    intros ->. apply Nt, elem_of_app. by right.
  - cbn. intros k. rewrite (il_ack _ I). split; intros [u U]; exists u.
    + rewrite list_lookup_insert_ne; [done|]. intros ->. by apply Et in U.
    + by apply list_lookup_insert_Some in U as [(-> & [=] & _)|(D & U)].
  - cbn. intros u p U Hu. apply list_lookup_insert_Some in U as [(-> & <- & _)|(D & U)]; [by destruct Hu|by eapply (il_back _ I)].
  - intros u U. rewrite Eh. cbn in U |- *. rewrite <- app_assoc, !elem_of_app. apply list_lookup_insert_Some in U as [(-> & _ & _)|(D & U)]; [right; left; left|].
    apply (il_wait _ I) in U. apply elem_of_app in U as [U|U]; auto.
Qed.

(** Accept receives a connection. *)
Lemma inv_recv s t k conns :
  listenerInv s -> il_threads s !! t = Some ARecv -> il_conns s = k :: conns -> listenerInv (lgoto t (AAck k) (set_il_conns conns s)).
Proof.
  intros I L Ec. set (s1 := set_il_conns conns s).
  destruct (held_insert accepts _ _ _ (AAck k) L) as (r & Hr & Hr'). cbn in Hr, Hr'.
  assert (il_conns s1 ++ held accepts (il_threads (lgoto t (AAck k) s1)) ≡ₚ il_conns s ++ held accepts (il_threads s)) as E.
  { cbn. rewrite Hr', Ec, Hr. symmetry. apply Permutation_middle. }
  assert (forall j p, il_threads s !! j = Some p -> p <> ARecv -> il_threads (lgoto t (AAck k) s1) !! j = Some p) as Other.
  { intros j p Lj D. cbn. rewrite list_lookup_insert_ne; [done|]. intros ->. rewrite L in Lj. by injection Lj as <-. }
  split.
  - apply (held_move s s1 t ARecv (AAck k)); try done. by left.
  - apply I.
  - cbn. intros u U. apply list_lookup_insert_Some in U as [(-> & [=] & _)|(D & U)]. by apply (il_send _ I u).
  - rewrite E. apply I.
  - intros j Hj. apply Other; [|done]. apply (il_queued _ I). rewrite Ec. by right.
  - intros j Hj. assert (j ∈ il_conns s1 ++ held accepts (il_threads (lgoto t (AAck k) s1))) as Hj' by (apply elem_of_app; by right). rewrite E in Hj'.
    apply elem_of_app in Hj' as [Hj'|Hj']; [exists DWait; split; [apply Other; [by apply (il_queued _ I)|done]|by left]|].
    destruct (il_from _ I j Hj') as (p & Lp & Hd). exists p. split; [apply Other; [done|]|done]. by destruct Hd as [->|[->| ->]].
  - intros j. change (il_acked (lgoto t (AAck k) s1)) with (il_acked s). rewrite (il_ack _ I). split; intros [u U]; exists u; [by apply Other|].
    cbn in U. by apply list_lookup_insert_Some in U as [(-> & [=] & _)|(D & U)].
  - cbn. intros u p U Hu. apply list_lookup_insert_Some in U as [(-> & <- & _)|(D & U)]; [by destruct Hu|by eapply (il_back _ I)].
  - intros u U. change (il_conns (lgoto t (AAck k) s1)) with (il_conns s1). rewrite E. cbn in U. apply list_lookup_insert_Some in U as [(_ & [=] & _)|(D & U)]. by apply (il_wait _ I).
Qed.

(** Accept closes the channel of its connection. *)
Lemma inv_ack s t k :
  listenerInv s -> il_threads s !! t = Some (AAck k) -> listenerInv (lgoto t (AReturned (Some k)) (set_il_acked (k :: il_acked s) s)).
Proof.
  intros I L. set (s1 := set_il_acked (k :: il_acked s) s).
  assert (held accepts (il_threads (lgoto t (AReturned (Some k)) s1)) ≡ₚ held accepts (il_threads s)) as Eh by (by apply (held_insert_same accepts _ _ _ _ L)).
  assert (forall j p, il_threads s !! j = Some p -> accepting p = false -> il_threads (lgoto t (AReturned (Some k)) s1) !! j = Some p) as Other.
  { intros j p Lj D. cbn. rewrite list_lookup_insert_ne; [done|]. intros ->. rewrite L in Lj. by injection Lj as <-. }
  split.
  - apply (held_move s s1 t (AAck k) _); try done. by left.
  - apply I.
  - cbn. intros u U. apply list_lookup_insert_Some in U as [(-> & [=] & _)|(D & U)]. by apply (il_send _ I u).
  - rewrite Eh. apply I.
  - intros j Hj. apply Other; [|done]. by apply (il_queued _ I).
  - intros j Hj. rewrite Eh in Hj. destruct (il_from _ I j Hj) as (p & Lp & Hd). exists p. split; [apply Other; [done|]|done]. by destruct Hd as [->|[->| ->]].
  - intros j. cbn. rewrite elem_of_cons, (il_ack _ I). split.
    + intros [->|[u U]]; [exists t; by apply list_lookup_insert_eq; eapply lookup_lt_Some|]. exists u. rewrite list_lookup_insert_ne; [done|]. intros ->. rewrite L in U. done.
    + intros [u U]. apply list_lookup_insert_Some in U as [(-> & [= ->] & _)|(D & U)]; [by left|right; by exists u].
  - cbn. intros u p U Hu. right. apply list_lookup_insert_Some in U as [(-> & <- & _)|(D & U)]; [by destruct Hu|by eapply (il_back _ I)].
  - intros u U. rewrite Eh. cbn in U |- *. apply list_lookup_insert_Some in U as [(_ & [=] & _)|(D & U)]. by apply (il_wait _ I).
Qed.

Lemma inv_call s pc :
  listenerInv s -> (pc = DLock \/ pc = ARecv \/ pc = CLock) -> listenerInv (set_il_threads (il_threads s ++ [pc]) s).
Proof.
  intros I Hpc. assert (forall u p, (il_threads s ++ [pc]) !! u = Some p -> il_threads s !! u = Some p \/ p = pc) as Lk.
  { intros u p U. apply lookup_app_Some in U as [U|[_ U]]; [by left|right]. apply list_elem_of_lookup_2 in U. by apply list_elem_of_singleton in U. }
  assert (held accepts (il_threads s ++ [pc]) = held accepts (il_threads s)) as Eh by (rewrite held_snoc; destruct Hpc as [->|[->| ->]]; by rewrite app_nil_r).
  split; cbn; rewrite ?Eh.
  - intros u p U Hu. apply Lk in U as [U| ->]; [by apply (il_held _ I _ _ U)|]. by destruct Hpc as [->|[->| ->]].
  - apply I.
  - intros u U. apply Lk in U as [U|U]; [by apply (il_send _ I u)|]. by destruct Hpc as [->|[->| ->]].
  - apply I.
  - intros k Hk. apply lookup_app_l_Some. by apply (il_queued _ I).
  - intros k Hk. destruct (il_from _ I k Hk) as (p & Lp & Hd). exists p. split; [by apply lookup_app_l_Some|done].
  - intros k. rewrite (il_ack _ I). split; intros [u U]; exists u; [by apply lookup_app_l_Some|]. apply Lk in U as [U|U]; [done|]. by destruct Hpc as [->|[->| ->]].
  - intros u p U Hu. apply Lk in U as [U| ->]; [by eapply (il_back _ I)|]. by destruct Hpc as [->|[->| ->]], Hu.
  - intros u U. apply Lk in U as [U|U]; [by apply (il_wait _ I)|]. by destruct Hpc as [->|[->| ->]].
Qed.

Ltac not_dialled := try (by intros [|[|]]); try (by intros [|]).

Lemma listenerInv_step s t a : listenerInv s -> match step t a s with Blocked => True | Panics => False | To s' => listenerInv s' end.
Proof.
  intros I. unfold step, listener_machine. destruct a.
  1-3: case_decide; [|done]; apply inv_call; auto.
  destruct (il_threads s !! t) as [pc|] eqn:L; [|done]. pose proof (il_held _ I _ _ L) as Hl.
  destruct pc as [| | | | |ok| |k|conn| | |err|err]; cbn [accepting closing]; unfold InmemoryListener_Dial, InmemoryListener_Accept, InmemoryListener_Close, acquireLock; try done.
  - destruct (il_lock s) eqn:El; [done|]. destruct (il_closed s) eqn:Ec; eapply (inv_move s _ t DLock); try done; cbn; auto; try (by rewrite (il_chan _ I)); not_dialled.
  - rewrite (il_chan _ I), (il_send _ I t L). case_decide; [|done]. by apply inv_send.
  - case_decide as Ha; [|done]. eapply (inv_move s s t DWait); try done; auto; try exact (il_chan _ I).
    + intros _ Hin. apply (il_ack _ I) in Ha as [u U]. pose proof (il_once _ I) as N. apply NoDup_app in N as (_ & N & _). apply (N t Hin). eapply accepts_in. eauto.
    + intros _. right. by left.
  - eapply (inv_move s _ t DAccepted); try done; cbn; auto; try exact (il_chan _ I).
    + intros _. right. by right.
    + intros _. eapply (il_back _ I); [exact L|by left].
  - eapply (inv_move s _ t DClosed); try done; cbn; auto; try exact (il_chan _ I); not_dialled.
  - destruct (il_conns s) as [|k conns] eqn:Ec; [|by apply inv_recv]. destruct (il_chClosed s); [|done].
    eapply (inv_move s s t ARecv); try done; auto; try exact (il_chan _ I); not_dialled.
  - case_decide as Ha; [|by apply inv_ack]. apply (il_ack _ I) in Ha as [u U]. assert (u <> t) as D by (intros ->; congruence).
    destruct (held_lookup2 accepts _ _ _ _ _ U L D) as [r Hr]. pose proof (il_once _ I) as N. rewrite Hr in N. apply NoDup_app in N as (_ & _ & N). cbn in N.
    apply NoDup_cons in N as [N _]. apply N. by left.
  - destruct (il_lock s) eqn:El; [done|]. eapply (inv_move s _ t CLock); try done; cbn; auto; try exact (il_chan _ I); not_dialled.
  - destruct (il_closed s) eqn:Ec.
    + eapply (inv_move s s t CClose); try done; auto; try exact (il_chan _ I); not_dialled.
    + rewrite (il_chan _ I), Ec. eapply (inv_move s _ t CClose); try done; cbn; auto; not_dialled.
  - eapply (inv_move s _ t (CDone err)); try done; cbn; auto; try exact (il_chan _ I); not_dialled.
Qed.

Lemma listenerInv_init : listenerInv NewInmemoryListener.
Proof. split; cbn; try done; try (by intros k Hk; apply elem_of_nil in Hk); [constructor|]. intros k. split; [intros Hk; by apply elem_of_nil in Hk|by intros [u U]]. Qed.

Lemma listener_reachable s : reachable NewInmemoryListener s -> listenerInv s.
Proof. apply reachable_invariant; [apply listenerInv_init|]. intros t a s1 s2 I E. pose proof (listenerInv_step s1 t a I) as H. by rewrite E in H. Qed.

(** * Properties *)

(** C30. Every connection is handed over once: under every interleaving of Dial,
    Accept and Close a Dial that has returned a connection has had it accepted by
    exactly one Accept, an Accept returns only what a Dial has made, at most one
    connection waits, and no channel is closed twice or written to when closed. *)
Theorem listener_pairs (s : InmemoryListener) (R : reachable NewInmemoryListener s) :
  (forall t, il_threads s !! t = Some (DReturned true) ->
     exists u, il_threads s !! u = Some (AReturned (Some t)) /\
     forall u', il_threads s !! u' = Some (AReturned (Some t)) \/ il_threads s !! u' = Some (AAck t) -> u' = u) /\
  (forall u k, il_threads s !! u = Some (AReturned (Some k)) -> exists pc, il_threads s !! k = Some pc /\ dialled pc) /\
  length (il_conns s) <= 1 /\ (forall t a, step t a s <> Panics).
Proof.
  pose proof (listener_reachable s R) as I. split; [|split; [|split]].
  - intros t L. pose proof (il_back _ I _ _ L (or_intror eq_refl)) as Ha. apply (il_ack _ I) in Ha as [u U]. exists u. split; [done|]. intros u' U'.
    destruct (decide (u = u')) as [|D]; [done|]. assert (exists p', il_threads s !! u' = Some p' /\ accepts p' = [t]) as (p' & L' & A') by (destruct U' as [U'|U']; eauto).
    destruct (held_lookup2 accepts _ _ _ _ _ U L' D) as [r Hr]. pose proof (il_once _ I) as N. rewrite Hr in N. apply NoDup_app in N as (_ & _ & N).
    rewrite A' in N. cbn in N. apply NoDup_cons in N as [N _]. destruct N. by left.
  - intros u k U. apply (il_from _ I). eapply accepts_in. eauto.
  - destruct (il_conns s) as [|j [|k l]] eqn:Ec; cbn; [lia|lia|]. pose proof (il_queued _ I j) as Hj. pose proof (il_queued _ I k) as Hk. rewrite Ec in Hj, Hk.
    assert (k = j) as -> by (eapply (locked_by s); [exact I|apply Hj; by left|done|apply Hk; by (right; left)|done]).
    pose proof (il_once _ I) as N. rewrite Ec in N. cbn in N. apply NoDup_cons in N as [N _]. destruct N. by left.
  - intros t a E. pose proof (listenerInv_step s t a I) as H. by rewrite E in H.
Qed.

(** All calls of Accept have returned. *)
Definition acceptsOver (s : InmemoryListener) : Prop := forall v pc, il_threads s !! v = Some pc -> accepting pc = true -> exists conn, pc = AReturned conn.

Lemma stuck_step s t u v a s' :
  listenerInv s -> il_threads s !! t = Some DWait -> ~ t ∈ il_acked s -> il_threads s !! u = Some CLock -> a <> LAccept ->
  acceptsOver s -> step v a s = To s' ->
  il_threads s' !! t = Some DWait /\ ~ t ∈ il_acked s' /\ il_threads s' !! u = Some CLock /\ acceptsOver s'.
Proof.
  intros I Lt Na Lu Ha Hv. pose proof (il_held _ I _ _ Lt eq_refl) as Hl. unfold step, listener_machine.
  assert (forall pc, (pc = DLock \/ pc = CLock) -> s' = set_il_threads (il_threads s ++ [pc]) s ->
    il_threads s' !! t = Some DWait /\ ~ t ∈ il_acked s' /\ il_threads s' !! u = Some CLock /\ acceptsOver s') as Call.
  { intros pc Hpc ->. cbn. split; [by apply lookup_app_l_Some|]. split; [done|]. split; [by apply lookup_app_l_Some|]. intros w p U Hp.
    apply lookup_app_Some in U as [U|[_ U]]; [by eapply Hv|]. apply list_elem_of_lookup_2 in U. apply list_elem_of_singleton in U. subst p. by destruct Hpc as [->| ->]. }
  destruct a; [|done| |].
  - case_decide; [|done]. intros [= <-]. apply (Call DLock); auto.
  - case_decide; [|done]. intros [= <-]. apply (Call CLock); auto.
  - destruct (il_threads s !! v) as [pc|] eqn:Lv; [|done]. destruct (accepting pc) eqn:Hac; [by destruct (Hv v pc Lv Hac) as [conn ->]|].
    destruct (locks pc) eqn:Hpc.
    + assert (v = t) as -> by (by eapply (locked_by s)). rewrite Lt in Lv. injection Lv as <-. cbn. by rewrite decide_False.
    + destruct pc; try done; cbn; unfold acquireLock; by rewrite Hl.
Qed.

(** Close waits for Accept: Dial keeps the lock until its connection has been
    accepted, so that Close, called when nobody accepts any more, never gets it;
    neither call returns, whatever else happens. *)
Lemma Close_waits_for_Accept (s s' : InmemoryListener) (t u : nat) (sched : list (nat * lact))
    (R : reachable NewInmemoryListener s) (Lt : il_threads s !! t = Some DWait) (Na : ~ t ∈ il_acked s) (Lu : il_threads s !! u = Some CLock)
    (N : acceptsOver s) (A : Forall (fun '(_, a) => a <> LAccept) sched) (E : run sched s = To s') :
  il_threads s' !! t = Some DWait /\ il_threads s' !! u = Some CLock.
Proof.
  apply listener_reachable in R as I. clear R. revert s I Lt Na Lu N E. induction A as [|[v a] sched Ha _ IH]; intros s I Lt Na Lu N E; [injection E as <-; by split|].
  cbn in E. destruct (step v a s) as [| |s1] eqn:E1; [done|done|]. cbn in E.
  pose proof (listenerInv_step s v a I) as I1. rewrite E1 in I1.
  destruct (stuck_step s t u v a s1 I Lt Na Lu Ha N E1) as (Lt1 & Na1 & Lu1 & N1). by apply (IH s1).
Qed.

(** Two Dials, one Accept, Close. *)
Definition listenerRun : list (nat * lact) :=
  [(0, LDial); (1, LDial); (2, LAccept); (0, LGo); (0, LGo); (2, LGo); (2, LGo); (0, LGo); (0, LGo); (1, LGo); (1, LGo); (3, LClose)].

Definition listenerAfter : InmemoryListener := match run listenerRun NewInmemoryListener with To s => s | _ => NewInmemoryListener end.

Lemma listenerAfter_reachable : reachable NewInmemoryListener listenerAfter.
Proof. apply (run_reachable listenerRun). vm_compute. reflexivity. Qed.

Lemma listener_pairs_witness :
  il_threads listenerAfter = [DReturned true; DWait; AReturned (Some 0); CLock] /\ exists u, il_threads listenerAfter !! u = Some (AReturned (Some 0)).
Proof.
  split; [vm_compute; reflexivity|]. assert (il_threads listenerAfter !! 0 = Some (DReturned true)) as L by (vm_compute; reflexivity).
  destruct (proj1 (listener_pairs listenerAfter listenerAfter_reachable) 0 L) as (u & U & _). by exists u.
Defined.

Lemma Close_waits_for_Accept_witness :
  run [(3, LGo)] listenerAfter = Blocked /\ exists s', run [(4, LDial); (5, LClose)] listenerAfter = To s' /\ il_threads s' !! 1 = Some DWait /\ il_threads s' !! 3 = Some CLock.
Proof.
  split; [vm_compute; reflexivity|]. destruct (run [(4, LDial); (5, LClose)] listenerAfter) as [| |s'] eqn:E; [vm_compute in E; discriminate E..|].
  exists s'. split; [reflexivity|].
  assert (il_threads listenerAfter = [DReturned true; DWait; AReturned (Some 0); CLock]) as T by (vm_compute; reflexivity).
  apply (Close_waits_for_Accept listenerAfter s' 1 3 [(4, LDial); (5, LClose)] listenerAfter_reachable); try (by rewrite T).
  - assert (il_acked listenerAfter = [0]) as -> by (vm_compute; reflexivity). intros H. apply list_elem_of_singleton in H. discriminate H.
  - intros v pc. rewrite T. destruct v as [|[|[|[|v]]]]; intros [= <-] H; try discriminate H. by eexists.
  - by repeat constructor.
  - exact E.
Defined.
