(* ===== verification/Stackless.v ===== *)
(** * stackless/func.go: calls handed to a few goroutines

    The function NewFunc returns, called from any number of goroutines, with its
    workers, its queue of bounded length and the pool of funcWork objects.  What a
    call is about is the number of the calling goroutine; [sf_applied] records
    which calls the wrapped function has been applied to. *)
From stdpp Require Import sets relations list_tactics.
From S2P Require Import Prelude Machine.
#[local] Open Scope nat_scope.

(** A call: before it takes a funcWork, before it stores its argument, before the
    select, refused, waiting for done, done, returned.  A worker: idle, before the
    call of the function, before it signals done. *)
Inductive fstage :=
| FGet
| FSet (w : nat)
| FTry (w : nat)
| FFail (w : nat)
| FWait (w : nat)
| FDone (w : nat)
| FReturned (ok : bool)
| KIdle
| KRun (w : nat)
| KSend (w : nat).

Record funcWork := MkFw { fw_ctx : option nat; fw_done : nat }.

Record stackless := MkSf {
  sf_works : list funcWork;
  sf_pool : list nat;
  sf_queue : list nat;
  sf_applied : list nat;
  sf_threads : list fstage
}.

Definition set_sf_works (v : list funcWork) (s : stackless) : stackless := MkSf v (sf_pool s) (sf_queue s) (sf_applied s) (sf_threads s).
Definition set_sf_pool (v : list nat) (s : stackless) : stackless := MkSf (sf_works s) v (sf_queue s) (sf_applied s) (sf_threads s).
Definition set_sf_queue (v : list nat) (s : stackless) : stackless := MkSf (sf_works s) (sf_pool s) v (sf_applied s) (sf_threads s).
Definition set_sf_applied (v : list nat) (s : stackless) : stackless := MkSf (sf_works s) (sf_pool s) (sf_queue s) v (sf_threads s).
Definition set_sf_threads (v : list fstage) (s : stackless) : stackless := MkSf (sf_works s) (sf_pool s) (sf_queue s) (sf_applied s) v.

Definition fgoto (t : nat) (pc : fstage) (s : stackless) : stackless := set_sf_threads (<[t := pc]> (sf_threads s)) s.

Definition updWork (w : nat) (f : funcWork -> funcWork) (s : stackless) : stackless :=
  match sf_works s !! w with Some x => set_sf_works (<[w := f x]> (sf_works s)) s | None => s end.

Section Func.
(** GOMAXPROCS, on which the number of workers and the queue's length depend. *)
Context (procs : nat).

Definition queueCap : nat := procs * 2048.

Definition getFuncWork (pick : option nat) (s : stackless) : nat * stackless :=
  match pick ≫= fun i => w ← sf_pool s !! i; Some (w, delete i (sf_pool s)) with
  | Some (w, pool) => (w, set_sf_pool pool s)
  | None => (length (sf_works s), set_sf_works (sf_works s ++ [MkFw None 0]) s)
  end.

Definition putFuncWork (w : nat) (s : stackless) : stackless :=
  let s := updWork w (fun x => MkFw None (fw_done x)) s in set_sf_pool (w :: sf_pool s) s.

(** A call of the returned function. *)
Definition stepFunc (t : nat) (pc : fstage) (pick : option nat) (s : stackless) : outcome stackless :=
  match pc with
  | FGet => let '(w, s) := getFuncWork pick s in To (fgoto t (FSet w) s)
  | FSet w => To (fgoto t (FTry w) (updWork w (fun x => MkFw (Some t) (fw_done x)) s))
  | FTry w =>
      if decide (length (sf_queue s) < queueCap) then To (fgoto t (FWait w) (set_sf_queue (sf_queue s ++ [w]) s))
      else To (fgoto t (FFail w) s)
  | FFail w => To (fgoto t (FReturned false) (putFuncWork w s))
  | FWait w =>
      match sf_works s !! w with
      | Some (MkFw ctx (S n)) => To (fgoto t (FDone w) (set_sf_works (<[w := MkFw ctx n]> (sf_works s)) s))
      | _ => Blocked
      end
  | FDone w => To (fgoto t (FReturned true) (putFuncWork w s))
  | _ => Blocked
  end.

(** [Panics]: the function is called without an argument. *)
Definition funcWorker (t : nat) (pc : fstage) (s : stackless) : outcome stackless :=
  match pc with
  | KIdle => match sf_queue s with w :: q => To (fgoto t (KRun w) (set_sf_queue q s)) | [] => Blocked end
  | KRun w =>
      match sf_works s !! w with
      | Some (MkFw (Some c) _) => To (fgoto t (KSend w) (set_sf_applied (sf_applied s ++ [c]) s))
      | _ => Panics
      end
  | KSend w =>
      match sf_works s !! w with
      | Some (MkFw ctx O) => To (fgoto t KIdle (set_sf_works (<[w := MkFw ctx 1]> (sf_works s)) s))
      | _ => Blocked
      end
  | _ => Blocked
  end.

(** A call arrives, or a goroutine goes on. *)
Inductive fact := FCall | FGo (pick : option nat).

Definition isWorker (pc : fstage) : bool := match pc with KIdle | KRun _ | KSend _ => true | _ => false end.

#[global] Instance func_machine : Machine stackless fact := fun t a s =>
  match a with
  | FCall => To (set_sf_threads (sf_threads s ++ [FGet]) s)
  | FGo pick =>
      match sf_threads s !! t with
      | None => Blocked
      | Some pc => if isWorker pc then funcWorker t pc s else stepFunc t pc pick s
      end
  end.

(** The workers are started by the first call; they are there from the start. *)
Definition NewFunc : stackless := MkSf [] [] [] [] (replicate procs KIdle).
End Func.

(** ** Where a funcWork is *)

Definition one (b : bool) : Z := if b then 1%Z else 0%Z.
Definition occ (w : nat) (l : list nat) : Z := total (fun x => one (bool_decide (x = w))) l.

Definition owning (w : nat) (pc : fstage) : Z :=
  match pc with FSet x | FTry x | FFail x | FWait x | FDone x => one (bool_decide (x = w)) | _ => 0%Z end.
Definition waiting (w : nat) (pc : fstage) : Z := match pc with FWait x => one (bool_decide (x = w)) | _ => 0%Z end.
Definition working (w : nat) (pc : fstage) : Z := match pc with KRun x | KSend x => one (bool_decide (x = w)) | _ => 0%Z end.
Definition sending (w : nat) (pc : fstage) : Z := match pc with KSend x => one (bool_decide (x = w)) | _ => 0%Z end.

Definition doneOf (w : nat) (s : stackless) : Z := match sf_works s !! w with Some x => Z.of_nat (fw_done x) | None => 0%Z end.

(** Whether the function has been applied for the call that waits with [w]. *)
Definition ranFor (w : nat) (s : stackless) : Z := (total (sending w) (sf_threads s) + doneOf w s)%Z.

Record funcInv (s : stackless) : Prop := {
  fi_flight : forall w, (occ w (sf_queue s) + total (working w) (sf_threads s) + doneOf w s = total (waiting w) (sf_threads s))%Z;
  fi_owned : forall w, (total (owning w) (sf_threads s) + occ w (sf_pool s) <= 1)%Z;
  fi_made : forall w, (0 < total (owning w) (sf_threads s) + occ w (sf_pool s))%Z -> w < length (sf_works s);
  fi_ctx : forall t w, sf_threads s !! t = Some (FTry w) \/ sf_threads s !! t = Some (FWait w) -> exists d, sf_works s !! w = Some (MkFw (Some t) d);
  fi_applied : forall t pc, sf_threads s !! t = Some pc ->
    occ t (sf_applied s) = match pc with FDone _ | FReturned true => 1%Z | FWait w => ranFor w s | _ => 0%Z end;
  fi_called : forall t, (0 < occ t (sf_applied s))%Z -> t < length (sf_threads s)
}.

#[local] Open Scope Z_scope.
#[local] Arguments occ : simpl never.

Lemma one_nonneg b : 0 <= one b.
Proof. by destruct b. Qed.

Lemma owning_nonneg w pc : 0 <= owning w pc.
Proof. destruct pc; cbn; try lia; apply one_nonneg. Qed.
Lemma waiting_nonneg w pc : 0 <= waiting w pc.
Proof. destruct pc; cbn; try lia; apply one_nonneg. Qed.
Lemma working_nonneg w pc : 0 <= working w pc.
Proof. destruct pc; cbn; try lia; apply one_nonneg. Qed.
Lemma sending_nonneg w pc : 0 <= sending w pc.
Proof. destruct pc; cbn; try lia; apply one_nonneg. Qed.
Lemma occ_nonneg w l : 0 <= occ w l.
Proof. apply total_nonneg. intros x. apply one_nonneg. Qed.
Lemma doneOf_nonneg w s : 0 <= doneOf w s.
Proof. unfold doneOf. destruct (sf_works s !! w); lia. Qed.

Lemma total_le {A} (f g : A -> Z) l : (forall x, f x <= g x) -> total f l <= total g l.
Proof. intros H. induction l as [|x l IH]; cbn; [lia|]. specialize (H x). lia. Qed.

Lemma total_sub {A} (f g : A -> Z) l t x : (forall x, f x <= g x) -> l !! t = Some x -> total f l - f x <= total g l - g x.
Proof.
  intros H. revert t. induction l as [|y l IH]; intros [|t] L; [done..| |]; cbn in *.
  - injection L as ->. pose proof (total_le f g l H). lia.
  - specialize (IH t L). specialize (H y). lia.
Qed.


Lemma total_const0 {A} (l : list A) : total (fun _ => 0) l = 0.
Proof. induction l; cbn; lia. Qed.

Lemma total_ge {A} (f : A -> Z) l t x : (forall x, 0 <= f x) -> l !! t = Some x -> f x <= total f l.
Proof. intros H L. pose proof (total_sub (fun _ => 0) f l t x H L) as P. rewrite total_const0 in P. lia. Qed.

Lemma total_two {A} (f : A -> Z) l t u x y : (forall x, 0 <= f x) -> l !! t = Some x -> l !! u = Some y -> t <> u -> f x + f y <= total f l.
Proof.
  intros H. revert t u. induction l as [|z l IH]; intros [|t] [|u] L K D; try done; cbn in *.
  - injection L as ->. pose proof (total_ge f l u y H K). lia.
  - injection K as ->. pose proof (total_ge f l t x H L). lia.
  - specialize (IH t u L K). specialize (H z). assert (t <> u) by congruence. lia.
Qed.

Lemma occ_app w l l' : occ w (l ++ l') = occ w l + occ w l'.
Proof. apply total_app. Qed.
Lemma occ_one w x : occ w [x] = one (bool_decide (x = w)).
Proof. unfold occ. cbn. lia. Qed.
Lemma occ_cons w x l : occ w (x :: l) = one (bool_decide (x = w)) + occ w l.
Proof. done. Qed.
Lemma occ_perm w l l' : l ≡ₚ l' -> occ w l = occ w l'.
Proof. unfold occ. induction 1; cbn; lia. Qed.
Lemma one_self (x : nat) : one (bool_decide (x = x)) = 1.
Proof. by rewrite bool_decide_true. Qed.
Lemma one_ne (x y : nat) : x <> y -> one (bool_decide (x = y)) = 0.
Proof. intros D. by rewrite bool_decide_false. Qed.

Lemma waiting_owning w pc : waiting w pc <= owning w pc.
Proof. destruct pc; cbn; try lia; apply one_nonneg. Qed.
Lemma sending_working w pc : sending w pc <= working w pc.
Proof. destruct pc; cbn; try lia; apply one_nonneg. Qed.

(** Nobody else has the funcWork of a call. *)
Lemma own_alone s t u w pc pc' :
  funcInv s -> sf_threads s !! t = Some pc -> owning w pc = 1 -> sf_threads s !! u = Some pc' -> owning w pc' = 1 -> u = t.
Proof.
  intros I L O L' O'. destruct (decide (u = t)) as [|D]; [done|]. pose proof (total_two (owning w) _ _ _ _ _ (owning_nonneg w) L' L D).
  pose proof (fi_owned _ I w). pose proof (occ_nonneg w (sf_pool s)). lia.
Qed.

Lemma own_flight s t w pc :
  funcInv s -> sf_threads s !! t = Some pc -> owning w pc = 1 ->
  occ w (sf_queue s) + total (working w) (sf_threads s) + doneOf w s = waiting w pc.
Proof.
  intros I L O. rewrite (fi_flight _ I). pose proof (total_sub (waiting w) (owning w) _ _ _ (waiting_owning w) L). pose proof (fi_owned _ I w).
  pose proof (occ_nonneg w (sf_pool s)). pose proof (total_ge (waiting w) _ _ _ (waiting_nonneg w) L). lia.
Qed.

Lemma pool_flight s w : funcInv s -> 0 < occ w (sf_pool s) -> occ w (sf_queue s) = 0 /\ total (working w) (sf_threads s) = 0 /\ doneOf w s = 0 /\ total (owning w) (sf_threads s) = 0.
Proof.
  intros I P. pose proof (fi_flight _ I w). pose proof (fi_owned _ I w). pose proof (total_le (waiting w) (owning w) (sf_threads s) (waiting_owning w)).
  pose proof (total_nonneg (waiting w) (sf_threads s) (waiting_nonneg w)). pose proof (occ_nonneg w (sf_queue s)).
  pose proof (total_nonneg (working w) (sf_threads s) (working_nonneg w)). pose proof (doneOf_nonneg w s).
  pose proof (total_nonneg (owning w) (sf_threads s) (owning_nonneg w)). lia.
Qed.

(** A funcWork that is somewhere is waited for by the call it is about. *)
Lemma flight_owner s w : funcInv s -> 0 < occ w (sf_queue s) + total (working w) (sf_threads s) + doneOf w s ->
  exists t d, sf_threads s !! t = Some (FWait w) /\ sf_works s !! w = Some (MkFw (Some t) d).
Proof.
  intros I H. rewrite (fi_flight _ I) in H. destruct (total_pos (waiting w) (sf_threads s) H) as (t & pc & L & Hw).
  destruct pc; cbn in Hw; try lia. destruct (decide (w0 = w)) as [->|D]; [|rewrite one_ne in Hw by done; lia].
  destruct (fi_ctx _ I t w (or_intror L)) as [d Hd]. by exists t, d.
Qed.

(** ** Every step keeps the invariant *)

Lemma fi_step s s' t pc pc' :
  funcInv s -> sf_threads s !! t = Some pc -> sf_threads s' = <[t := pc']> (sf_threads s) ->
  (forall w, occ w (sf_queue s') + working w pc' + doneOf w s' - waiting w pc' = occ w (sf_queue s) + working w pc + doneOf w s - waiting w pc) ->
  (forall w, owning w pc' + occ w (sf_pool s') = owning w pc + occ w (sf_pool s) \/
     (w = length (sf_works s) /\ owning w pc' + occ w (sf_pool s') = owning w pc + occ w (sf_pool s) + 1 /\ (w < length (sf_works s'))%nat)) ->
  (length (sf_works s) <= length (sf_works s'))%nat ->
  (forall u w d, u <> t -> owning w pc = 0 \/ isWorker pc = true -> sf_works s !! w = Some (MkFw (Some u) d) -> exists d', sf_works s' !! w = Some (MkFw (Some u) d')) ->
  (forall w, pc' = FTry w \/ pc' = FWait w -> exists d, sf_works s' !! w = Some (MkFw (Some t) d)) ->
  (forall w u, u <> t -> sf_threads s !! u = Some (FWait w) -> ranFor w s' - occ u (sf_applied s') = ranFor w s - occ u (sf_applied s)) ->
  (forall u pcu, u <> t -> sf_threads s !! u = Some pcu -> (forall w, pcu <> FWait w) -> occ u (sf_applied s') = occ u (sf_applied s)) ->
  occ t (sf_applied s') = match pc' with FDone _ | FReturned true => 1 | FWait w => ranFor w s' | _ => 0 end ->
  (forall u, 0 < occ u (sf_applied s') -> (u < length (sf_threads s))%nat) -> funcInv s'.
Proof.
  intros I L Et F O M C C' R A A' K. split.
  - intros w. rewrite Et, !(total_insert _ _ _ _ _ L). pose proof (fi_flight _ I w). specialize (F w). lia.
  - intros w. rewrite Et, (total_insert _ _ _ _ _ L). pose proof (fi_owned _ I w) as H. destruct (O w) as [Ow|(-> & Ow & _)]; [lia|].
    destruct (Z_lt_le_dec 0 (total (owning (length (sf_works s))) (sf_threads s) + occ (length (sf_works s)) (sf_pool s))) as [P|P]; [|lia].
    pose proof (fi_made _ I _ P). lia.
  - intros w. rewrite Et, (total_insert _ _ _ _ _ L). intros P. destruct (O w) as [Ow|(-> & Ow & H)]; [|done].
    assert (w < length (sf_works s))%nat by (apply (fi_made _ I); lia). lia.
  - intros u w Hu. rewrite Et in Hu.
    assert (forall p, <[t := pc']> (sf_threads s) !! u = Some p -> (p = FTry w \/ p = FWait w) -> exists d, sf_works s' !! w = Some (MkFw (Some u) d)) as G.
    { intros p U Hp. apply list_lookup_insert_Some in U as [(-> & <- & _)|(D & U)]; [by apply C'|].
      assert (sf_threads s !! u = Some (FTry w) \/ sf_threads s !! u = Some (FWait w)) as U' by (by destruct Hp as [->| ->]; auto).
      destruct (fi_ctx _ I u w U') as [d Hd]. apply (C u w d); [done| |exact Hd]. destruct (isWorker pc) eqn:Ew; [by right|left].
      destruct (decide (owning w pc = 0)) as [|N]; [done|]. exfalso. apply D. symmetry. apply (own_alone s t u w pc p I L); [|exact U|by destruct Hp as [->| ->]; cbn; rewrite one_self].
      pose proof (owning_nonneg w pc). assert (owning w pc <= 1); [|lia]. destruct pc; cbn; try lia; unfold one; case_bool_decide; lia. }
    destruct Hu as [Hu|Hu]; eapply G; eauto.
  - intros u p U. rewrite Et in U. apply list_lookup_insert_Some in U as [(-> & <- & _)|(D & U)]; [exact A'|].
    pose proof (fi_applied _ I u p U) as H. destruct p as [|w|w|w|w|w|ok| |w|w]; try (rewrite (A u _ (not_eq_sym D) U) by done; exact H).
    specialize (R w u (not_eq_sym D) U). lia.
  - intros u P. rewrite Et, length_insert. by apply K.
Qed.

(** Steps that leave the record of calls alone. *)
Lemma fi_still s s' t pc pc' :
  funcInv s -> sf_threads s !! t = Some pc -> sf_threads s' = <[t := pc']> (sf_threads s) -> sf_applied s' = sf_applied s ->
  (forall w, occ w (sf_queue s') + working w pc' + doneOf w s' - waiting w pc' = occ w (sf_queue s) + working w pc + doneOf w s - waiting w pc) ->
  (forall w, owning w pc' + occ w (sf_pool s') = owning w pc + occ w (sf_pool s) \/
     (w = length (sf_works s) /\ owning w pc' + occ w (sf_pool s') = owning w pc + occ w (sf_pool s) + 1 /\ (w < length (sf_works s'))%nat)) ->
  (length (sf_works s) <= length (sf_works s'))%nat ->
  (forall u w d, u <> t -> owning w pc = 0 \/ isWorker pc = true -> sf_works s !! w = Some (MkFw (Some u) d) -> exists d', sf_works s' !! w = Some (MkFw (Some u) d')) ->
  (forall w, pc' = FTry w \/ pc' = FWait w -> exists d, sf_works s' !! w = Some (MkFw (Some t) d)) ->
  (forall w u, u <> t -> sf_threads s !! u = Some (FWait w) -> ranFor w s' = ranFor w s) ->
  match pc with FDone _ | FReturned true => 1 | FWait w => ranFor w s | _ => 0 end = match pc' with FDone _ | FReturned true => 1 | FWait w => ranFor w s' | _ => 0 end ->
  funcInv s'.
Proof.
  intros I L Et Ea F O M C C' R A. eapply (fi_step s s' t pc pc'); try done.
  - intros w u D U. rewrite Ea, (R w u D U). done.
  - intros u p D U _. by rewrite Ea.
  - rewrite Ea, (fi_applied _ I _ _ L). exact A.
  - intros u. rewrite Ea. apply (fi_called _ I).
Qed.

Lemma doneOf_same w s s' : sf_works s' !! w = sf_works s !! w -> doneOf w s' = doneOf w s.
Proof. unfold doneOf. by intros ->. Qed.

Lemma ranFor_same w s s' t pc pc' :
  sf_threads s !! t = Some pc -> sf_threads s' = <[t := pc']> (sf_threads s) -> sending w pc' + doneOf w s' = sending w pc + doneOf w s -> ranFor w s' = ranFor w s.
Proof. unfold ranFor. intros L -> E. rewrite (total_insert _ _ _ _ _ L). lia. Qed.

Lemma doneOf_upd w w' f s : (forall x, fw_done (f x) = fw_done x) -> doneOf w (updWork w' f s) = doneOf w s.
Proof.
  intros E. unfold doneOf, updWork. destruct (sf_works s !! w') as [x|] eqn:L; [|done]. cbn. destruct (decide (w' = w)) as [->|D]; [|by rewrite list_lookup_insert_ne].
  rewrite list_lookup_insert_eq by (by eapply lookup_lt_Some). by rewrite L, E.
Qed.

Lemma works_upd w w' f s : w' <> w -> sf_works (updWork w' f s) !! w = sf_works s !! w.
Proof. intros D. unfold updWork. destruct (sf_works s !! w'); [|done]. cbn. by apply list_lookup_insert_ne. Qed.

Lemma length_works_upd w f s : length (sf_works (updWork w f s)) = length (sf_works s).
Proof. unfold updWork. destruct (sf_works s !! w); [|done]. cbn [set_sf_works sf_works]. by rewrite length_insert. Qed.

Lemma upd_rest w f s :
  sf_pool (updWork w f s) = sf_pool s /\ sf_queue (updWork w f s) = sf_queue s /\ sf_applied (updWork w f s) = sf_applied s /\ sf_threads (updWork w f s) = sf_threads s.
Proof. unfold updWork. by destruct (sf_works s !! w). Qed.

Lemma own_made s t pc w : funcInv s -> sf_threads s !! t = Some pc -> owning w pc = 1 -> exists x, sf_works s !! w = Some x.
Proof.
  intros I L O. apply lookup_lt_is_Some. apply (fi_made _ I). pose proof (total_ge (owning w) _ _ _ (owning_nonneg w) L). pose proof (occ_nonneg w (sf_pool s)). lia.
Qed.

Lemma fi_get s t pick : funcInv s -> sf_threads s !! t = Some FGet -> let '(w, s1) := getFuncWork pick s in funcInv (fgoto t (FSet w) s1).
Proof.
  intros I L. unfold getFuncWork. destruct (pick ≫= _) as [[w pool]|] eqn:Ep.
  - destruct pick as [i|]; [cbn in Ep|done]. destruct (sf_pool s !! i) as [w0|] eqn:Ei; [cbn in Ep|done]. injection Ep as <- <-.
    pose proof (delete_Permutation _ _ _ Ei) as P. eapply (fi_still s _ t FGet (FSet w0)); try done; cbn; try (by eauto).
    + intros w. left. rewrite (occ_perm _ _ _ P), occ_cons. lia.
    + by intros w [?|?].
    + intros w u D U. apply (ranFor_same w s _ t FGet (FSet w0)); done.
  - assert (forall w, doneOf w (set_sf_works (sf_works s ++ [MkFw None 0]) s) = doneOf w s) as Hd.
    { intros w. unfold doneOf. cbn. destruct (decide (w < length (sf_works s))%nat) as [H|H]; [by rewrite lookup_app_l|].
      rewrite (proj2 (lookup_ge_None (sf_works s) w)) by lia. destruct (decide (w = length (sf_works s))) as [->|D]; [by rewrite list_lookup_middle|].
      rewrite (proj2 (lookup_ge_None _ _)); [done|]. rewrite length_app. cbn. lia. }
    eapply (fi_still s _ t FGet (FSet (length (sf_works s)))); try done; cbn.
    + intros w. specialize (Hd w). unfold doneOf in *. cbn in *. lia.
    + intros w. destruct (decide (w = length (sf_works s))) as [->|D]; [right|left].
      * rewrite one_self, length_app. cbn. split; [done|]. lia.
      * rewrite one_ne by done. lia.
    + rewrite length_app. lia.
    + intros u w d D _ E. exists d. by apply lookup_app_l_Some.
    + by intros w [?|?].
    + intros w u D U. apply (ranFor_same w s _ t FGet (FSet (length (sf_works s)))); [done|done|]. specialize (Hd w). unfold doneOf in *. cbn in *. lia.
Qed.

Lemma fi_set s t w : funcInv s -> sf_threads s !! t = Some (FSet w) -> funcInv (fgoto t (FTry w) (updWork w (fun x => MkFw (Some t) (fw_done x)) s)).
Proof.
  intros I L. set (f := fun x => MkFw (Some t) (fw_done x)). destruct (upd_rest w f s) as (Ep & Eq & Ea & Et).
  assert (forall w', doneOf w' (fgoto t (FTry w) (updWork w f s)) = doneOf w' s) as Hd by (intros w'; apply (doneOf_upd w' w f s); done).
  eapply (fi_still s _ t (FSet w) (FTry w)); try done.
  - cbn. by rewrite Et.
  - intros w'. rewrite Hd. cbn. rewrite Eq. lia.
  - intros w'. left. cbn. by rewrite Ep.
  - cbn. by rewrite length_works_upd.
  - intros u w' d D [O|O] E; [|done]. exists d. cbn. rewrite works_upd; [done|]. intros ->. cbn in O. rewrite one_self in O. lia.
  - intros w' [[= <-]|?]; [|done]. destruct (own_made s t _ w I L) as [x Hx]; [cbn; apply one_self|]. exists (fw_done x). cbn. unfold updWork. rewrite Hx. cbn.
    apply list_lookup_insert_eq. by eapply lookup_lt_Some.
  - intros w' u D U. apply (ranFor_same w' s _ t (FSet w) (FTry w)); [done|cbn; by rewrite Et|]. by rewrite Hd.
Qed.

Lemma fi_queue s t w : funcInv s -> sf_threads s !! t = Some (FTry w) -> funcInv (fgoto t (FWait w) (set_sf_queue (sf_queue s ++ [w]) s)).
Proof.
  intros I L. pose proof (own_flight s t w _ I L) as Fl. cbn in Fl. rewrite one_self in Fl. specialize (Fl eq_refl).
  pose proof (occ_nonneg w (sf_queue s)). pose proof (total_nonneg (working w) (sf_threads s) (working_nonneg w)). pose proof (doneOf_nonneg w s).
  eapply (fi_still s _ t (FTry w) (FWait w)); try done; cbn; try (by eauto).
  - intros w'. rewrite occ_app, occ_one. unfold doneOf. cbn. lia.
  - intros w' [?|[= <-]]; [done|]. apply (fi_ctx _ I). by left.
  - intros w' u D U. by apply (ranFor_same w' s _ t (FTry w) (FWait w)).
  - assert (ranFor w (fgoto t (FWait w) (set_sf_queue (sf_queue s ++ [w]) s)) = ranFor w s) as -> by (by apply (ranFor_same w s _ t (FTry w) (FWait w))).
    unfold ranFor. pose proof (total_le (sending w) (working w) (sf_threads s) (sending_working w)). pose proof (total_nonneg (sending w) (sf_threads s) (sending_nonneg w)). lia.
Qed.

Lemma fi_fail s t w : funcInv s -> sf_threads s !! t = Some (FTry w) -> funcInv (fgoto t (FFail w) s).
Proof.
  intros I L. eapply (fi_still s _ t (FTry w) (FFail w)); try done; cbn; try (by eauto); try (by intros w' [?|?]).
  intros w' u D U. by apply (ranFor_same w' s _ t (FTry w) (FFail w)).
Qed.

Lemma fi_put s t w pc pc' :
  funcInv s -> sf_threads s !! t = Some pc -> (pc = FFail w /\ pc' = FReturned false \/ pc = FDone w /\ pc' = FReturned true) -> funcInv (fgoto t pc' (putFuncWork w s)).
Proof.
  intros I L Hpc. unfold putFuncWork. set (f := fun x => MkFw None (fw_done x)). destruct (upd_rest w f s) as (Ep & Eq & Ea & Et).
  assert (owning w pc = 1 /\ (forall w', waiting w' pc = 0 /\ working w' pc = 0 /\ sending w' pc = 0 /\ owning w' pc = one (bool_decide (w = w')))) as [Ow Hp].
  { destruct Hpc as [[-> _]|[-> _]]; cbn; rewrite one_self; by split. }
  assert (forall w', waiting w' pc' = 0 /\ working w' pc' = 0 /\ sending w' pc' = 0 /\ owning w' pc' = 0) as Hp' by (by destruct Hpc as [[_ ->]|[_ ->]]).
  set (s1 := fgoto t pc' _).
  assert (forall w', doneOf w' s1 = doneOf w' s) as Hd by (intros w'; apply (doneOf_upd w' w f s); done).
  eapply (fi_still s s1 t pc pc'); try done.
  - cbn. by rewrite Et.
  - intros w'. rewrite Hd. cbn. rewrite Eq. destruct (Hp w') as (-> & -> & _), (Hp' w') as (-> & -> & _). lia.
  - intros w'. left. cbn. rewrite Ep, occ_cons. destruct (Hp w') as (_ & _ & _ & ->), (Hp' w') as (_ & _ & _ & ->). lia.
  - cbn. by rewrite length_works_upd.
  - intros u w' d D [O|O] E; [|by destruct Hpc as [[-> _]|[-> _]]]. exists d. cbn. rewrite works_upd; [done|]. intros ->. lia.
  - intros w' [->| ->]; by destruct Hpc as [[_ ?]|[_ ?]].
  - intros w' u D U. apply (ranFor_same w' s _ t pc pc'); [done|cbn; by rewrite Et|]. rewrite Hd. destruct (Hp w') as (_ & _ & -> & _), (Hp' w') as (_ & _ & -> & _). done.
  - by destruct Hpc as [[-> ->]|[-> ->]].
Qed.

Lemma doneOf_insert w w' x s : (w' < length (sf_works s))%nat ->
  doneOf w (set_sf_works (<[w' := x]> (sf_works s)) s) = if decide (w' = w) then Z.of_nat (fw_done x) else doneOf w s.
Proof.
  intros H. unfold doneOf. cbn. destruct (decide (w' = w)) as [->|D]; [by rewrite list_lookup_insert_eq|by rewrite list_lookup_insert_ne].
Qed.

Lemma fi_done s t w ctx n :
  funcInv s -> sf_threads s !! t = Some (FWait w) -> sf_works s !! w = Some (MkFw ctx (S n)) -> funcInv (fgoto t (FDone w) (set_sf_works (<[w := MkFw ctx n]> (sf_works s)) s)).
Proof.
  intros I L Ew. pose proof (lookup_lt_Some _ _ _ Ew) as Hl. pose proof (own_flight s t w _ I L) as Fl. cbn in Fl. rewrite one_self in Fl. specialize (Fl eq_refl).
  pose proof (occ_nonneg w (sf_queue s)). pose proof (total_nonneg (working w) (sf_threads s) (working_nonneg w)).
  assert (doneOf w s = Z.of_nat (S n)) as Dw by (unfold doneOf; by rewrite Ew).
  pose proof (total_le (sending w) (working w) (sf_threads s) (sending_working w)). pose proof (total_nonneg (sending w) (sf_threads s) (sending_nonneg w)).
  set (s1 := fgoto t (FDone w) _).
  assert (forall w', doneOf w' s1 = if decide (w = w') then Z.of_nat n else doneOf w' s) as Hd by (intros w'; apply (doneOf_insert w' w (MkFw ctx n) s Hl)).
  eapply (fi_still s s1 t (FWait w) (FDone w)); try done; cbn.
  - intros w'. rewrite Hd. destruct (decide (w = w')) as [<-|D]; [rewrite one_self, Dw; lia|rewrite one_ne by done; lia].
  - intros w'. by left.
  - by rewrite length_insert.
  - intros u w' d D [O|O] E; [|done]. exists d. rewrite list_lookup_insert_ne; [done|]. intros ->. rewrite one_self in O. lia.
  - by intros w' [?|?].
  - intros w' u D U. apply (ranFor_same w' s _ t (FWait w) (FDone w)); [done|done|]. rewrite Hd. case_decide as E; [|done]. subst w'.
    exfalso. apply D. apply (own_alone s t u w (FWait w) (FWait w) I L); [|exact U|]; cbn; apply one_self.
  - unfold ranFor. lia.
Qed.

Lemma fi_take s t w q : funcInv s -> sf_threads s !! t = Some KIdle -> sf_queue s = w :: q -> funcInv (fgoto t (KRun w) (set_sf_queue q s)).
Proof.
  intros I L Eq. eapply (fi_still s _ t KIdle (KRun w)); try done; cbn; try (by eauto); try (by intros w' [?|?]).
  - intros w'. rewrite Eq, occ_cons. unfold doneOf. cbn. lia.
  - intros w' u D U. by apply (ranFor_same w' s _ t KIdle (KRun w)).
Qed.

Lemma fi_run s t w :
  funcInv s -> sf_threads s !! t = Some (KRun w) ->
  exists c d, sf_works s !! w = Some (MkFw (Some c) d) /\ funcInv (fgoto t (KSend w) (set_sf_applied (sf_applied s ++ [c]) s)).
Proof.
  intros I L. pose proof (total_ge (working w) _ _ _ (working_nonneg w) L) as Hw. cbn in Hw. rewrite one_self in Hw.
  destruct (flight_owner s w I) as (c & d & Lc & Ew); [pose proof (occ_nonneg w (sf_queue s)); pose proof (doneOf_nonneg w s); lia|].
  exists c, d. split; [done|]. assert (c <> t) as D by (intros ->; congruence).
  eapply (fi_step s _ t (KRun w) (KSend w)); try done; cbn; try (by eauto); try (by intros w' [?|?]).
  - intros w' u Du U. rewrite occ_app, occ_one. unfold ranFor. cbn. rewrite (total_insert _ _ _ _ _ L). cbn. unfold doneOf. cbn.
    destruct (decide (w = w')) as [<-|Dw].
    + rewrite one_self. destruct (fi_ctx _ I u w (or_intror U)) as [d' Ew']. rewrite Ew in Ew'. injection Ew' as -> _. rewrite one_self. lia.
    + rewrite (one_ne w w' Dw), one_ne; [lia|]. intros <-. rewrite Lc in U. injection U as ->. done.
  - intros u p Du U Np. rewrite occ_app, occ_one, one_ne; [lia|]. intros <-. rewrite Lc in U. injection U as <-. by apply (Np w).
  - rewrite occ_app, occ_one, one_ne by done. rewrite (fi_applied _ I _ _ L). lia.
  - intros u P. rewrite occ_app, occ_one in P. destruct (decide (c = u)) as [->|Du]; [by eapply lookup_lt_Some|].
    rewrite one_ne in P by done. apply (fi_called _ I). lia.
Qed.

Lemma fi_send s t w ctx : funcInv s -> sf_threads s !! t = Some (KSend w) -> sf_works s !! w = Some (MkFw ctx 0) ->
  funcInv (fgoto t KIdle (set_sf_works (<[w := MkFw ctx 1]> (sf_works s)) s)).
Proof.
  intros I L Ew. pose proof (lookup_lt_Some _ _ _ Ew) as Hl. assert (doneOf w s = 0) as Dw by (unfold doneOf; by rewrite Ew). set (s1 := fgoto t KIdle _).
  assert (forall w', doneOf w' s1 = if decide (w = w') then 1 else doneOf w' s) as Hd by (intros w'; apply (doneOf_insert w' w (MkFw ctx 1) s Hl)).
  eapply (fi_still s s1 t (KSend w) KIdle); try done; cbn; try (by intros w' [?|?]).
  - intros w'. rewrite Hd. destruct (decide (w = w')) as [<-|D]; [rewrite one_self, Dw; lia|rewrite one_ne by done; lia].
  - intros w'. by left.
  - by rewrite length_insert.
  - intros u w' d D _ E. destruct (decide (w = w')) as [<-|Dw']; [|exists d; by rewrite list_lookup_insert_ne]. rewrite Ew in E. injection E as -> _. exists 1%nat. by apply list_lookup_insert_eq.
  - intros w' u D U. apply (ranFor_same w' s _ t (KSend w) KIdle); [done|done|]. rewrite Hd. cbn. destruct (decide (w = w')) as [<-|Dw']; [rewrite one_self, Dw; lia|rewrite one_ne by done; lia].
Qed.

(** A worker can always signal. *)
Lemma send_ready s t w : funcInv s -> sf_threads s !! t = Some (KSend w) -> exists ctx, sf_works s !! w = Some (MkFw ctx 0).
Proof.
  intros I L. pose proof (total_ge (working w) _ _ _ (working_nonneg w) L) as Hw. cbn in Hw. rewrite one_self in Hw.
  destruct (flight_owner s w I) as (c & d & Lc & Ew); [pose proof (occ_nonneg w (sf_queue s)); pose proof (doneOf_nonneg w s); lia|].
  pose proof (own_flight s c w _ I Lc) as Fl. cbn in Fl. rewrite one_self in Fl. specialize (Fl eq_refl). pose proof (occ_nonneg w (sf_queue s)).
  assert (doneOf w s = Z.of_nat d) as Dw by (unfold doneOf; by rewrite Ew). exists (Some c). rewrite Ew. do 2 f_equal. lia.
Qed.

Section Func.
Context (procs : nat).

Lemma funcInv_step s t a : funcInv s -> match step (Machine := func_machine procs) t a s with Blocked => True | Panics => False | To s' => funcInv s' end.
Proof.
  intros I. unfold step, func_machine. destruct a as [|pick].
  - assert (forall u p, (sf_threads s ++ [FGet]) !! u = Some p -> sf_threads s !! u = Some p \/ (u = length (sf_threads s) /\ p = FGet)) as Lk.
    { intros u p U. destruct (decide (u < length (sf_threads s))%nat) as [H|H]; [left; by rewrite lookup_app_l in U|right].
      rewrite lookup_app_r in U by lia. destruct (u - length (sf_threads s))%nat as [|n] eqn:E; [|by destruct n]. injection U as <-. split; [lia|done]. }
    split; cbn; intros; rewrite ?total_app; cbn [total].
    + rewrite <- (fi_flight _ I). cbn. unfold doneOf. cbn. lia.
    + pose proof (fi_owned _ I w). cbn. lia.
    + apply (fi_made _ I). rewrite total_app in H. cbn in H. lia.
    + destruct H as [H|H]; apply Lk in H as [H|[_ ?]]; try done; apply (fi_ctx _ I); auto.
    + apply Lk in H as [H|[-> ->]].
      * rewrite (fi_applied _ I _ _ H). destruct pc; try done. unfold ranFor, doneOf. cbn. rewrite total_app. cbn. lia.
      * pose proof (occ_nonneg (length (sf_threads s)) (sf_applied s)). destruct (Z_lt_le_dec 0 (occ (length (sf_threads s)) (sf_applied s))) as [P|P]; [|lia].
        pose proof (fi_called _ I _ P). lia.
    + rewrite length_app. pose proof (fi_called _ I _ H). lia.
  - destruct (sf_threads s !! t) as [pc|] eqn:L; [|done]. destruct pc as [|w|w|w|w|w|ok| |w|w]; cbn [isWorker]; unfold stepFunc, funcWorker; try done.
    + pose proof (fi_get s t pick I L) as H. by destruct (getFuncWork pick s).
    + by apply fi_set.
    + case_decide; [by apply fi_queue|by apply fi_fail].
    + eapply fi_put; [done|exact L|]. by left.
    + destruct (sf_works s !! w) as [[ctx [|n]]|] eqn:Ew; try done. by apply fi_done.
    + eapply fi_put; [done|exact L|]. by right.
    + destruct (sf_queue s) as [|w q] eqn:Eq; [done|]. by apply fi_take.
    + destruct (fi_run s t w I L) as (c & d & -> & H). exact H.
    + destruct (send_ready s t w I L) as [ctx Ew]. rewrite Ew. by apply fi_send.
Qed.

Lemma funcInv_init : funcInv (NewFunc procs).
Proof.
  assert (forall (f : fstage -> Z) n, f KIdle = 0 -> total f (replicate n KIdle) = 0) as T by (intros f n E; induction n; cbn; lia).
  split; cbn.
  - intros w. rewrite !T by done. done.
  - intros w. rewrite T by done. done.
  - intros w. rewrite T by done. done.
  - intros t w [U|U]; apply lookup_replicate in U as [? _]; done.
  - intros t pc U. apply lookup_replicate in U as [-> _]. done.
  - intros t H. by cbn in H.
Qed.

Lemma func_reachable s : reachable (H := func_machine procs) (NewFunc procs) s -> funcInv s.
Proof. apply reachable_invariant; [apply funcInv_init|]. intros t a s1 s2 I E. pose proof (funcInv_step s1 t a I) as H. by rewrite E in H. Qed.
End Func.

(** ** Progress *)

Definition todo (pc : fstage) : Z := match pc with KRun _ => 2 | KSend _ => 1 | _ => 0 end.

Lemma todo_nonneg pc : 0 <= todo pc.
Proof. destruct pc; cbn; lia. Qed.

Lemma zlen_cons {A} (x : A) l : zlen (x :: l) = 1 + zlen l.
Proof. rewrite length_cons. lia. Qed.

(** What the workers still have to do. *)
Definition work (s : stackless) : Z := 3 * zlen (sf_queue s) + total todo (sf_threads s).

Section Progress.
Context (procs : nat) (Hp : (0 < procs)%nat).

(** The first goroutine is a worker. *)
Lemma worker_there s : reachable (H := func_machine procs) (NewFunc procs) s -> exists pc, sf_threads s !! 0%nat = Some pc /\ isWorker pc = true.
Proof.
  apply (reachable_invariant (H := func_machine procs) (fun s => exists pc, sf_threads s !! 0%nat = Some pc /\ isWorker pc = true)).
  - exists KIdle. cbn. destruct procs; [lia|done].
  - intros t a s1 s2 (pc & L & W). unfold step, func_machine. destruct a as [|pick]; [intros [= <-]; exists pc; cbn; by rewrite (lookup_app_l_Some _ _ _ _ L)|].
    destruct (sf_threads s1 !! t) as [pt|] eqn:Lt; [|done]. assert (forall s3 p, sf_threads s3 = sf_threads s1 -> isWorker pt = isWorker p ->
      exists p', sf_threads (fgoto t p s3) !! 0%nat = Some p' /\ isWorker p' = true) as G.
    { intros s3 p E Hpt. cbn. rewrite E. destruct (decide (t = O)) as [->|D]; [|exists pc; by rewrite list_lookup_insert_ne].
      exists p. rewrite list_lookup_insert_eq by (by eapply lookup_lt_Some). split; [done|]. rewrite L in Lt. injection Lt as ->. by rewrite <- Hpt. }
    destruct pt as [|w|w|w|w|w|ok| |w|w]; cbn [isWorker]; unfold stepFunc, funcWorker; try done.
    + unfold getFuncWork. destruct (pick ≫= _) as [[w pool]|]; intros [= <-]; by apply G.
    + intros [= <-]. apply G; [apply upd_rest|done].
    + case_decide; intros [= <-]; by apply G.
    + intros [= <-]. apply G; [apply upd_rest|done].
    + destruct (sf_works s1 !! w) as [[ctx [|n]]|]; try done. intros [= <-]. by apply G.
    + intros [= <-]. apply G; [apply upd_rest|done].
    + destruct (sf_queue s1); [done|]. intros [= <-]. by apply G.
    + destruct (sf_works s1 !! w) as [[[c|] d]|]; try done. intros [= <-]. by apply G.
    + destruct (sf_works s1 !! w) as [[ctx [|n]]|]; try done. intros [= <-]. by apply G.
Qed.

Lemma work_step s t w :
  reachable (H := func_machine procs) (NewFunc procs) s -> sf_threads s !! t = Some (FWait w) -> 0 < work s ->
  exists u s', step (Machine := func_machine procs) u (FGo None) s = To s' /\ work s' < work s /\ sf_threads s' !! t = Some (FWait w).
Proof.
  intros R L W. pose proof (func_reachable procs s R) as I.
  assert (forall u pc, sf_threads s !! u = Some pc -> isWorker pc = true ->
    (exists s' pc', step (Machine := func_machine procs) u (FGo None) s = To s' /\ sf_threads s' = <[u := pc']> (sf_threads s) /\
       3 * zlen (sf_queue s') + todo pc' < 3 * zlen (sf_queue s) + todo pc) ->
    exists u s', step (Machine := func_machine procs) u (FGo None) s = To s' /\ work s' < work s /\ sf_threads s' !! t = Some (FWait w)) as G.
  { intros u pc U Hw (s' & pc' & E & Et & Hlt). exists u, s'. split; [done|]. unfold work. rewrite Et, (total_insert _ _ _ _ _ U). split; [lia|].
    rewrite list_lookup_insert_ne; [done|]. intros ->. rewrite L in U. by injection U as <-. }
  destruct (Z_lt_le_dec 0 (total todo (sf_threads s))) as [T|T].
  - destruct (total_pos todo _ T) as (u & pc & U & Hu). apply (G u pc U); [by destruct pc|]. unfold step, func_machine. rewrite U.
    destruct pc as [|w'|w'|w'|w'|w'|ok| |w'|w']; cbn in Hu; try lia; cbn [isWorker]; unfold funcWorker.
    + destruct (fi_run s u w' I U) as (c & d & -> & _). eexists _, _. split; [done|]. split; [done|]. cbn. lia.
    + destruct (send_ready s u w' I U) as [ctx ->]. eexists _, _. split; [done|]. split; [done|]. cbn. lia.
  - destruct (worker_there s R) as (pc & U & Hw). pose proof (total_ge todo _ _ _ todo_nonneg U) as Hu. pose proof (todo_nonneg pc).
    assert (pc = KIdle) as -> by (destruct pc; cbn in *; try done; lia). apply (G 0%nat KIdle U eq_refl). unfold step, func_machine. rewrite U. cbn [isWorker]. unfold funcWorker.
    unfold work in W. destruct (sf_queue s) as [|x q]; [cbn in W; lia|]. eexists _, _. split; [done|]. split; [done|]. cbn [sf_queue fgoto set_sf_threads set_sf_queue todo]. rewrite zlen_cons. lia.
Qed.

Lemma work_done n s t w :
  reachable (H := func_machine procs) (NewFunc procs) s -> sf_threads s !! t = Some (FWait w) -> work s <= Z.of_nat n ->
  exists s', reachable (H := func_machine procs) s s' /\ sf_threads s' !! t = Some (FWait w) /\ work s' <= 0.
Proof.
  revert s. induction n as [|n IH]; intros s R L W; (destruct (Z_lt_le_dec 0 (work s)) as [P|P]; [|exists s; split; [apply rtc_refl|done]]); [lia|].
  destruct (work_step s t w R L P) as (u & s1 & E & Hlt & L1). assert (steps (H := func_machine procs) s s1) as St by (by econstructor).
  destruct (IH s1) as (s2 & R2 & H2); [unfold reachable in *; by eapply rtc_r|done|lia|]. exists s2. split; [by eapply rtc_l|done].
Qed.
End Progress.

(** * Properties *)

(** The function is applied once for a call that reports success, before it
    returns, and never for one that reports failure, whatever the other calls do
    and whichever funcWork objects are used again; a worker is never held up by a
    call that has gone, and the function never runs without its argument. *)
Lemma NewFunc_applies_once (procs : nat) (s : stackless) (R : reachable (H := func_machine procs) (NewFunc procs) s) :
  (forall t ok, sf_threads s !! t = Some (FReturned ok) -> occ t (sf_applied s) = if ok : bool then 1 else 0) /\
  (forall t w, sf_threads s !! t = Some (KSend w) -> exists s', step (Machine := func_machine procs) t (FGo None) s = To s') /\
  (forall t a, step (Machine := func_machine procs) t a s <> Panics).
Proof.
  pose proof (func_reachable procs s R) as I. split; [|split].
  - intros t ok L. rewrite (fi_applied _ I _ _ L). by destruct ok.
  - intros t w L. destruct (send_ready s t w I L) as [ctx E]. unfold step, func_machine. rewrite L. cbn [isWorker]. unfold funcWorker. rewrite E. by eexists.
  - intros t a E. pose proof (funcInv_step procs s t a I) as H. by rewrite E in H.
Qed.

(** A call that is in the queue returns: from every reachable state the workers
    can bring it to its end. *)
Lemma NewFunc_call_returns (procs : nat) (Hp : (0 < procs)%nat) (s : stackless) (t w : nat)
    (R : reachable (H := func_machine procs) (NewFunc procs) s) (L : sf_threads s !! t = Some (FWait w)) :
  exists s', reachable (H := func_machine procs) s s' /\ sf_threads s' !! t = Some (FReturned true).
Proof.
  destruct (work_done procs Hp (Z.to_nat (work s)) s t w R L) as (s1 & R1 & L1 & W1).
  { unfold work. pose proof (total_nonneg todo (sf_threads s) todo_nonneg). lia. }
  assert (reachable (H := func_machine procs) (NewFunc procs) s1) as R0 by (unfold reachable in *; by etransitivity).
  pose proof (func_reachable procs s1 R0) as I. pose proof (own_flight s1 t w _ I L1) as Fl. cbn in Fl. rewrite one_self in Fl. specialize (Fl eq_refl).
  assert (total (working w) (sf_threads s1) = 0 /\ sf_queue s1 = []) as [Ww Eq].
  { unfold work in W1. pose proof (total_nonneg todo (sf_threads s1) todo_nonneg). split.
    - pose proof (total_le (working w) todo (sf_threads s1)) as H1. assert (forall x, working w x <= todo x) as H2 by (intros x; destruct x; cbn; try lia; unfold one; case_bool_decide; lia).
      specialize (H1 H2). pose proof (total_nonneg (working w) (sf_threads s1) (working_nonneg w)). lia.
    - destruct (sf_queue s1) as [|x q]; [done|]. rewrite zlen_cons in W1. lia. }
  rewrite Ww, Eq in Fl. unfold doneOf in Fl. destruct (sf_works s1 !! w) as [[ctx n]|] eqn:Ew; [|done].
  change (occ w []) with 0 in Fl. assert (n = 1%nat) as -> by (cbn in Fl; lia). pose proof (lookup_lt_Some _ _ _ L1) as Hl.
  eexists. split.
  - unfold reachable in *. etransitivity; [exact R1|]. eapply rtc_l; [eapply (steps_intro _ _ t (FGo None)); unfold step, func_machine; rewrite L1; cbn [isWorker]; unfold stepFunc; rewrite Ew; reflexivity|].
    eapply rtc_l; [eapply (steps_intro _ _ t (FGo None)); unfold step, func_machine; cbn [fgoto sf_threads set_sf_threads set_sf_works]; rewrite list_lookup_insert_eq by done; cbn [isWorker]; unfold stepFunc; reflexivity|]. apply rtc_refl.
  - cbn [fgoto sf_threads set_sf_threads]. apply list_lookup_insert_eq. unfold putFuncWork. cbn [set_sf_pool sf_threads]. rewrite (proj2 (proj2 (proj2 (upd_rest _ _ _)))). cbn. by rewrite length_insert.
Qed.

(** One worker, one call, one waiting in the queue. *)
Definition funcRun : list (nat * fact) :=
  [(1, FCall); (1, FGo None); (1, FGo None); (1, FGo None); (0, FGo None); (0, FGo None); (0, FGo None); (1, FGo None); (1, FGo None);
   (2, FCall); (2, FGo (Some 0)); (2, FGo None); (2, FGo None)]%nat.

Definition funcAfter : stackless := match run (H := func_machine 1) funcRun (NewFunc 1) with To s => s | _ => NewFunc 1 end.

Lemma funcAfter_reachable : reachable (H := func_machine 1) (NewFunc 1) funcAfter.
Proof. apply (run_reachable (H := func_machine 1) funcRun). vm_compute. reflexivity. Qed.

Lemma NewFunc_applies_once_witness :
  sf_threads funcAfter = [KIdle; FReturned true; FWait 0] /\ occ 1 (sf_applied funcAfter) = 1.
Proof.
  split; [vm_compute; reflexivity|]. apply (proj1 (NewFunc_applies_once 1 funcAfter funcAfter_reachable) 1%nat true). vm_compute. reflexivity.
Defined.

Lemma NewFunc_call_returns_witness :
  sf_threads funcAfter !! 2%nat = Some (FWait 0) /\ exists s', reachable (H := func_machine 1) funcAfter s' /\ sf_threads s' !! 2%nat = Some (FReturned true).
Proof.
  assert (sf_threads funcAfter !! 2%nat = Some (FWait 0)) as L by (vm_compute; reflexivity).
  split; [exact L|]. refine (NewFunc_call_returns 1 _ funcAfter 2 0 funcAfter_reachable L). lia.
Defined.
