(* ===== verification/Compress.v ===== *)
(** * compress.go, brotli.go, stackless/writer.go and the compressing parts of http.go

    The pools of compressors by level, the functions that compress and decompress
    slices, the stackless writer around a compressor, the compression of a
    response's body, as it is or while it is streamed, and CompressHandler.  The
    three codings have the same code with other names: it is written once, with the
    coding as an argument.  The compressors themselves are libraries outside the
    repository: the class [CompressLib], with what their documentation promises in
    [CompressLaws]; they have no errors of their own, since their destinations have
    none.  Whether the stackless queue takes a call is an argument
    ([Stackless] is that queue), so is what a sync.Pool hands out. *)
From Stdlib Require Import Strings.String.
From stdpp Require Import list_tactics.
From S2P Require Import Prelude BytesConv Consts Args HeaderScan RequestHeader ResponseHeader Bufio Body Http UserData Streaming RequestCtx Server ServerSafety.

Inductive coding := Gzip | Deflate | Brotli.

#[export] Instance coding_eq_dec : EqDecision coding.
Proof. solve_decision. Defined.

Definition CompressDefaultCompression : Z := 6.
Definition CompressBrotliDefaultCompression : Z := 4.
Definition minCompressLen : Z := 200.

(** A compressor object of a coding and a level: NewWriterLevel ([None]: an error),
    Reset, Write, Flush and Close with what they write to their destination.
    [zr_open], [zr_read]: the error of NewReader, and what reading gives. *)
Class CompressLib := {
  zwriter : Type;
  zw_coding : zwriter -> coding;
  zw_level : zwriter -> Z;
  zw_new : coding -> Z -> option zwriter;
  zw_reset : zwriter -> zwriter;
  zw_write : zwriter -> bytes -> zwriter * bytes;
  zw_flush : zwriter -> zwriter * bytes;
  zw_close : zwriter -> zwriter * bytes;
  zr_open : coding -> bytes -> option error;
  zr_read : coding -> bytes -> bytes * option error
}.

(** The levels NewWriterLevel takes. *)
Definition validLevel (c : coding) (level : Z) : bool :=
  match c with Brotli => true | _ => (-2 <=? level) && (level <=? 9) end.

(** Writes, each with or without a Flush behind it, and Close. *)
Fixpoint zw_script `{CompressLib} (zw : zwriter) (script : list (bytes * bool)) : zwriter * bytes :=
  match script with
  | [] => zw_close zw
  | (p, flush) :: script =>
      let '(zw, o1) := zw_write zw p in
      let '(zw, o2) := if flush : bool then zw_flush zw else (zw, []) in
      let '(zw, o3) := zw_script zw script in
      (zw, o1 ++ o2 ++ o3)
  end.

Definition zw_fresh `{CompressLib} (zw : zwriter) : Prop := (exists c l, zw_new c l = Some zw) \/ exists z, zw = zw_reset z.

Class CompressLaws `{CompressLib} : Prop := {
  zw_new_ok : forall c l, validLevel c l = true -> exists zw, zw_new c l = Some zw /\ zw_coding zw = c /\ zw_level zw = l;
  zw_new_bad : forall c l, validLevel c l = false -> zw_new c l = None;
  zw_reset_kind : forall zw, zw_coding (zw_reset zw) = zw_coding zw /\ zw_level (zw_reset zw) = zw_level zw;
  zw_write_kind : forall zw p, zw_coding (fst (zw_write zw p)) = zw_coding zw /\ zw_level (fst (zw_write zw p)) = zw_level zw;
  zw_flush_kind : forall zw, zw_coding (fst (zw_flush zw)) = zw_coding zw /\ zw_level (fst (zw_flush zw)) = zw_level zw;
  zw_close_kind : forall zw, zw_coding (fst (zw_close zw)) = zw_coding zw /\ zw_level (fst (zw_close zw)) = zw_level zw;
  zr_roundtrip : forall zw script, zw_fresh zw ->
    zr_open (zw_coding zw) (snd (zw_script zw script)) = None /\
    zr_read (zw_coding zw) (snd (zw_script zw script)) = (concat (map fst script), None)
}.

Section Compress.
Context {CL : CompressLib}.

(** ** Pools by level *)

Definition normalizeCompressLevel (level : Z) : Z :=
  let level := if (level <? -2) || (9 <? level) then CompressDefaultCompression else level in
  level + 2.

Definition normalizeBrotliCompressLevel (level : Z) : Z :=
  if (level <? 0) || (11 <? level) then CompressBrotliDefaultCompression else level.

Definition normalizeLevel (c : coding) (level : Z) : Z :=
  match c with Brotli => normalizeBrotliCompressLevel level | _ => normalizeCompressLevel level end.

Definition newCompressWriterPoolMap : list (list zwriter) := replicate 12 [].

(** For each coding the pools of compressors and those of stackless writers. *)
Record poolMaps := MkPools { pm_real : coding -> list (list zwriter); pm_stackless : coding -> list (list zwriter) }.

Definition emptyPools : poolMaps := MkPools (fun _ => newCompressWriterPoolMap) (fun _ => newCompressWriterPoolMap).

Definition setMap (c : coding) (i : nat) (p : list zwriter) (m : coding -> list (list zwriter)) : coding -> list (list zwriter) :=
  fun c' => if decide (c' = c) then <[i := p]> (m c) else m c'.

(** sync.Pool: one of its entries, or nothing. *)
Definition poolGet (m : coding -> list (list zwriter)) (c : coding) (level : Z) (pick : option nat) : option (option zwriter * (coding -> list (list zwriter))) :=
  let i := Z.to_nat (normalizeLevel c level) in
  p ← m c !! i;
  Some (match pick ≫= fun k => zw ← p !! k; Some (zw, delete k p) with
        | Some (zw, p') => (Some zw, setMap c i p' m)
        | None => (None, m)
        end).

Definition poolPut (m : coding -> list (list zwriter)) (c : coding) (level : Z) (zw : zwriter) : option (coding -> list (list zwriter)) :=
  let i := Z.to_nat (normalizeLevel c level) in
  p ← m c !! i;
  Some (setMap c i (zw :: p) m).

(** acquireRealGzipWriter and its like: [None] is the panic on an error of
    NewWriterLevel, which is given the level as it came. *)
Definition acquireRealWriter (c : coding) (level : Z) (pick : option nat) (P : poolMaps) : option (zwriter * poolMaps) :=
  '(v, m) ← poolGet (pm_real P) c level pick;
  match v with
  | Some zw => Some (zw_reset zw, MkPools m (pm_stackless P))
  | None => zw ← zw_new c level; Some (zw, P)
  end.

Definition releaseRealWriter (c : coding) (zw : zwriter) (level : Z) (P : poolMaps) : option (bytes * poolMaps) :=
  let '(zw, out) := zw_close zw in
  m ← poolPut (pm_real P) c level zw;
  Some (out, MkPools m (pm_stackless P)).

(** nonblockingWriteGzip and its like: what is written. *)
Definition nonblockingWrite (c : coding) (p : bytes) (level : Z) (pick : option nat) (P : poolMaps) : option (bytes * poolMaps) :=
  '(zw, P) ← acquireRealWriter c level pick P;
  let '(zw, o1) := zw_write zw p in
  '(o2, P) ← releaseRealWriter c zw level P;
  Some (o1 ++ o2, P).

(** WriteGzipLevel and its like to a slice or a buffer, and AppendGzipBytesLevel:
    the result of the stackless call, [accepted], is not looked at. *)
Definition writeLevel (c : coding) (accepted : bool) (dst p : bytes) (level : Z) (pick : option nat) (P : poolMaps) : option (bytes * Z * poolMaps) :=
  '(out, P) ← (if accepted then nonblockingWrite c p level pick P else Some ([], P));
  Some (dst ++ out, zlen p, P).

Definition AppendBytesLevel (c : coding) (accepted : bool) (dst src : bytes) (level : Z) (pick : option nat) (P : poolMaps) : option (bytes * poolMaps) :=
  '(dst, _, P) ← writeLevel c accepted dst src level pick P;
  Some (dst, P).

(** The functions under the names of the three codings. *)
Definition acquireRealGzipWriter := acquireRealWriter Gzip.
Definition releaseRealGzipWriter := releaseRealWriter Gzip.
Definition nonblockingWriteGzip := nonblockingWrite Gzip.
Definition WriteGzipLevel := writeLevel Gzip.
Definition WriteGzip (accepted : bool) (dst p : bytes) := WriteGzipLevel accepted dst p CompressDefaultCompression.
Definition AppendGzipBytesLevel := AppendBytesLevel Gzip.
Definition AppendGzipBytes (accepted : bool) (dst src : bytes) := AppendGzipBytesLevel accepted dst src CompressDefaultCompression.
Definition acquireRealDeflateWriter := acquireRealWriter Deflate.
Definition releaseRealDeflateWriter := releaseRealWriter Deflate.
Definition nonblockingWriteDeflate := nonblockingWrite Deflate.
Definition WriteDeflateLevel := writeLevel Deflate.
Definition WriteDeflate (accepted : bool) (dst p : bytes) := WriteDeflateLevel accepted dst p CompressDefaultCompression.
Definition AppendDeflateBytesLevel := AppendBytesLevel Deflate.
Definition AppendDeflateBytes (accepted : bool) (dst src : bytes) := AppendDeflateBytesLevel accepted dst src CompressDefaultCompression.
Definition acquireRealBrotliWriter := acquireRealWriter Brotli.
Definition releaseRealBrotliWriter := releaseRealWriter Brotli.
Definition nonblockingWriteBrotli := nonblockingWrite Brotli.
Definition WriteBrotliLevel := writeLevel Brotli.
Definition WriteBrotli (accepted : bool) (dst p : bytes) := WriteBrotliLevel accepted dst p CompressBrotliDefaultCompression.
Definition AppendBrotliBytesLevel := AppendBytesLevel Brotli.
Definition AppendBrotliBytes (accepted : bool) (dst src : bytes) := AppendBrotliBytesLevel accepted dst src CompressBrotliDefaultCompression.

(** ** Decompression *)

(** WriteGunzip and its like: an error of the reader's Reset comes before anything
    is written, a later one after what could be read. *)
Definition writeDecoded (c : coding) (w p : bytes) : bytes * Z * option error :=
  match zr_open c p with
  | Some err => (w, 0, Some err)
  | None => let '(b, err) := zr_read c p in (w ++ b, zlen b, err)
  end.

Definition WriteGunzip := writeDecoded Gzip.
Definition AppendGunzipBytes (dst src : bytes) : bytes * option error := let '(w, _, err) := WriteGunzip dst src in (w, err).
Definition WriteInflate := writeDecoded Deflate.
Definition AppendInflateBytes (dst src : bytes) : bytes * option error := let '(w, _, err) := WriteInflate dst src in (w, err).
Definition WriteUnbrotli := writeDecoded Brotli.
Definition AppendUnbrotliBytes (dst src : bytes) : bytes * option error := let '(w, _, err) := WriteUnbrotli dst src in (w, err).

(** gunzipData and its like. *)
Definition decodedData (c : coding) (p : bytes) : bytes * option error :=
  let '(b, _, err) := writeDecoded c [] p in
  match err with Some _ => ([], err) | None => (b, None) end.

Definition gunzipData := decodedData Gzip.
Definition inflateData := decodedData Deflate.
Definition unBrotliData := decodedData Brotli.

(** ** The stackless writer *)

(** The compressor and what xWriter has collected. *)
Record swriter := MkSw { sw_zw : zwriter; sw_xw : bytes }.

Definition errHighLoad : error := Errorf "cannot compress data due to high load".

Inductive sop := OpWrite (p : bytes) | OpFlush | OpClose | OpReset.

Definition writerFunc (op : sop) (w : swriter) : swriter :=
  let '(zw, out) := match op with
                    | OpWrite p => zw_write (sw_zw w) p
                    | OpFlush => zw_flush (sw_zw w)
                    | OpClose => zw_close (sw_zw w)
                    | OpReset => (zw_reset (sw_zw w), [])
                    end in
  MkSw zw (sw_xw w ++ out).

(** do: the writer, what goes to the destination, the error. *)
Definition writer_do (accepted : bool) (op : sop) (w : swriter) : swriter * bytes * option error :=
  if accepted then let w := writerFunc op w in (MkSw (sw_zw w) [], sw_xw w, None)
  else (w, [], Some errHighLoad).

Definition writer_Reset (accepted : bool) (w : swriter) : swriter :=
  let '(w, _, _) := writer_do accepted OpReset (MkSw (sw_zw w) []) in w.

(** What the queue answers to the calls to come: it takes those it is not asked
    about. *)
Definition answers : Type := list bool.
Definition queueAnswer (a : answers) : bool * answers := match a with [] => (true, []) | b :: a => (b, a) end.

Definition acquireStacklessWriter (c : coding) (level : Z) (pick pick' : option nat) (a : answers) (P : poolMaps) : option (swriter * answers * poolMaps) :=
  '(v, m) ← poolGet (pm_stackless P) c level pick;
  match v with
  | Some zw => let '(b, a) := queueAnswer a in Some (writer_Reset b (MkSw zw []), a, MkPools (pm_real P) m)
  | None => '(zw, P) ← acquireRealWriter c level pick' P; Some (MkSw zw [], a, P)
  end.

Definition releaseStacklessWriter (c : coding) (sw : swriter) (level : Z) (a : answers) (P : poolMaps) : option (bytes * answers * poolMaps) :=
  let '(b, a) := queueAnswer a in
  let '(sw, out, _) := writer_do b OpClose sw in
  m ← poolPut (pm_stackless P) c level (sw_zw sw);
  Some (out, a, MkPools (pm_real P) m).

Definition acquireStacklessGzipWriter := acquireStacklessWriter Gzip.
Definition releaseStacklessGzipWriter := releaseStacklessWriter Gzip.
Definition acquireStacklessDeflateWriter := acquireStacklessWriter Deflate.
Definition releaseStacklessDeflateWriter := releaseStacklessWriter Deflate.
Definition acquireStacklessBrotliWriter := acquireStacklessWriter Brotli.
Definition releaseStacklessBrotliWriter := releaseStacklessWriter Brotli.

(** flushWriter.Write to a destination that takes everything. *)
Definition flushWriter_Write (sw : swriter) (p : bytes) (a : answers) : swriter * bytes * option error * answers :=
  let '(b1, a) := queueAnswer a in
  let '(sw, o1, err) := writer_do b1 (OpWrite p) sw in
  match err with
  | Some _ => (sw, o1, err, a)
  | None => let '(b2, a) := queueAnswer a in let '(sw, o2, err) := writer_do b2 OpFlush sw in (sw, o1 ++ o2, err, a)
  end.

(** copyZeroAlloc from the pieces of a body. *)
Fixpoint copyPieces (sw : swriter) (pieces : list bytes) (a : answers) : swriter * bytes * answers :=
  match pieces with
  | [] => (sw, [], a)
  | p :: pieces =>
      let '(sw, o, err, a) := flushWriter_Write sw p a in
      match err with
      | Some _ => (sw, o, a)
      | None => let '(sw, o', a) := copyPieces sw pieces a in (sw, o ++ o', a)
      end
  end.

(** WriteGzipLevel and its like to any other writer, which takes everything: what it
    gets and the error of Write; that of Close is not looked at. *)
Definition writeLevelTo (c : coding) (p : bytes) (level : Z) (pick pick' : option nat) (a : answers) (P : poolMaps) : option (bytes * option error * poolMaps) :=
  '(sw, a, P) ← acquireStacklessWriter c level pick pick' a P;
  let '(b, a) := queueAnswer a in
  let '(sw, out, err) := writer_do b (OpWrite p) sw in
  '(out', _, P) ← releaseStacklessWriter c sw level a P;
  Some (out ++ out', err, P).

(** The pieces a body stream is read in. *)
Definition streamPieces (st : bodyStream) : list bytes :=
  match bst_limit st with
  | None => src_chunks (bst_source st)
  | Some n => [take (Z.to_nat n) (concat (src_chunks (bst_source st)))]
  end.

(** The function given to NewStreamReader, and what the new stream reads: all that
    is written to the pipe and then io.EOF, whatever the errors were. *)
Definition compressStream (c : coding) (level : Z) (st : bodyStream) (pick pick' : option nat) (a : answers) (P : poolMaps) : option (bodyStream * poolMaps) :=
  '(sw, a, P) ← acquireStacklessWriter c level pick pick' a P;
  let '(sw, out, a) := copyPieces sw (streamPieces st) a in
  '(out', a, P) ← releaseStacklessWriter c sw level a P;
  Some (MkStream (MkSource [out ++ out'] EOF) None, P).

(** ** Responses *)

Section Response.
Context `{HttpLib}.

Definition encodingName (c : coding) : bytes := match c with Gzip => strGzip | Deflate => strDeflate | Brotli => strBr end.

(** The body of the response is a stream or bytes; what is needed of the world:
    picks and answers. *)
Record choices := MkChoices { ch_pick : option nat; ch_pick' : option nat; ch_accepted : bool; ch_answers : answers }.

(** gzipBody, deflateBody and brotliBody. *)
Definition Response_compressBody (c : coding) (level : Z) (w : choices) (x : Response) (P : poolMaps) : option (Response * poolMaps) :=
  if bool_decide (0 < length (default [] (ResponseHeader_peek (resp_Header x) strContentEncoding)))%nat then Some (x, P)
  else if negb (ResponseHeader_isCompressibleContentType (resp_Header x)) then Some (x, P)
  else
    match resp_bodyStream x with
    | Some st =>
        h ← ResponseHeader_SetContentLength (resp_Header x) (-1);
        '(st, P) ← compressStream c level st (ch_pick w) (ch_pick' w) (ch_answers w) P;
        Some (set_resp_Header (ResponseHeader_SetCanonical h strContentEncoding (encodingName c)) (set_resp_bodyStream (Some st) x), P)
    | None =>
        let bodyBytes := Response_bodyBytes x in
        if zlen bodyBytes <? minCompressLen then Some (x, P)
        else
          '(b, P) ← AppendBytesLevel c (ch_accepted w) (sl pool_Get) bodyBytes level (ch_pick w) P;
          let x := set_resp_bodyRaw None (set_resp_body (Some (bufSet pool_Get b)) x) in
          Some (set_resp_Header (ResponseHeader_SetCanonical (resp_Header x) strContentEncoding (encodingName c)) x, P)
    end.

Definition Response_gzipBody := Response_compressBody Gzip.
Definition Response_deflateBody := Response_compressBody Deflate.
Definition Response_brotliBody := Response_compressBody Brotli.

Definition Response_decodedBody (c : coding) (x : Response) : Response * (bytes * option error) := let '(x, b) := Response_Body x in (x, decodedData c b).
Definition Response_BodyGunzip := Response_decodedBody Gzip.
Definition Response_BodyInflate := Response_decodedBody Deflate.
Definition Response_BodyUnbrotli := Response_decodedBody Brotli.

Definition Request_decodedBody (c : coding) (x : Request) : Request * (bytes * option error) := let '(x, b) := Request_Body x in (x, decodedData c b).
Definition Request_BodyGunzip := Request_decodedBody Gzip.
Definition Request_BodyInflate := Request_decodedBody Deflate.
Definition Request_BodyUnbrotli := Request_decodedBody Brotli.

(** WriteGzipLevel and WriteDeflateLevel: the text. *)
Definition Response_WriteLevel (c : coding) (level : Z) (w : choices) (date : bytes) (x : Response) (out : bytes) (P : poolMaps) : option (Response * bytes * option error * poolMaps) :=
  '(x, P) ← Response_compressBody c level w x P;
  '(x, out, err) ← Response_Write date x out;
  Some (x, out, err, P).

Definition Response_WriteGzip := Response_WriteLevel Gzip CompressDefaultCompression.
Definition Response_WriteDeflate := Response_WriteLevel Deflate CompressDefaultCompression.
End Response.
End Compress.

(** ** CompressHandler *)

Section Handler.
Context `{CompressLib} `{ServerLib}.

Definition acceptsCoding (ctx : RequestCtx) (c : coding) : bool := RequestHeader_HasAcceptEncodingBytes (req_Header (cx_Request ctx)) (encodingName c).

Definition compressResponse (c : coding) (level : Z) (w : choices) (ctx : RequestCtx) (P : poolMaps) : option (RequestCtx * poolMaps) :=
  '(resp, P) ← Response_compressBody c level w (cx_Response ctx) P;
  Some (set_cx_Response resp ctx, P).

Definition CompressHandlerLevel (h : RequestCtx -> RequestCtx) (level : Z) (w : choices) (ctx : RequestCtx) (P : poolMaps) : option (RequestCtx * poolMaps) :=
  let ctx := h ctx in
  if acceptsCoding ctx Gzip then compressResponse Gzip level w ctx P
  else if acceptsCoding ctx Deflate then compressResponse Deflate level w ctx P
  else Some (ctx, P).

Definition CompressHandler (h : RequestCtx -> RequestCtx) (w : choices) (ctx : RequestCtx) (P : poolMaps) : option (RequestCtx * poolMaps) :=
  CompressHandlerLevel h CompressDefaultCompression w ctx P.

Definition CompressHandlerBrotliLevel (h : RequestCtx -> RequestCtx) (brotliLevel otherLevel : Z) (w : choices) (ctx : RequestCtx) (P : poolMaps) : option (RequestCtx * poolMaps) :=
  let ctx := h ctx in
  if acceptsCoding ctx Brotli then compressResponse Brotli brotliLevel w ctx P
  else if acceptsCoding ctx Gzip then compressResponse Gzip otherLevel w ctx P
  else if acceptsCoding ctx Deflate then compressResponse Deflate otherLevel w ctx P
  else Some (ctx, P).
End Handler.

(** ** Pools that are in order *)

Section Pools.
Context {CL : CompressLib} {CW : CompressLaws}.

(** Twelve pools of each kind; what is in the pool of a level was made for it. *)
Definition mapOk (m : coding -> list (list zwriter)) : Prop :=
  forall c, length (m c) = 12%nat /\
    forall i p zw, m c !! i = Some p -> zw ∈ p -> zw_coding zw = c /\ validLevel c (zw_level zw) = true /\ i = Z.to_nat (normalizeLevel c (zw_level zw)).

Definition poolsOk (P : poolMaps) : Prop := mapOk (pm_real P) /\ mapOk (pm_stackless P).

Lemma normalizeLevel_range c level : 0 <= normalizeLevel c level < 12.
Proof.
  destruct c; cbn; unfold normalizeCompressLevel, normalizeBrotliCompressLevel, CompressDefaultCompression, CompressBrotliDefaultCompression;
    repeat match goal with |- context [if ?b then _ else _] => destruct b eqn:? end;
    repeat match goal with H : _ || _ = false |- _ => apply orb_false_iff in H as [? ?] end; lia.
Qed.

(** Levels for which NewWriterLevel has a meaning of its own. *)
Definition ownLevel (c : coding) (level : Z) : bool :=
  match c with Brotli => (0 <=? level) && (level <=? 11) | _ => (-2 <=? level) && (level <=? 9) end.

Lemma normalizeLevel_own c l l' : ownLevel c l = true -> ownLevel c l' = true -> normalizeLevel c l = normalizeLevel c l' -> l = l'.
Proof.
  destruct c; cbn; unfold normalizeCompressLevel, normalizeBrotliCompressLevel, CompressDefaultCompression, CompressBrotliDefaultCompression;
    rewrite !andb_true_iff, !Z.leb_le; intros H1 H2;
    repeat match goal with |- context [if ?b then _ else _] => destruct b eqn:? end;
    repeat match goal with H : _ || _ = false |- _ => apply orb_false_iff in H as [? ?] | H : _ || _ = true |- _ => apply orb_true_iff in H as [?|?] end; lia.
Qed.

Lemma mapOk_get m c level pick v m' : mapOk m -> poolGet m c level pick = Some (v, m') ->
  mapOk m' /\ match v with Some zw => zw_coding zw = c /\ validLevel c (zw_level zw) = true /\ normalizeLevel c (zw_level zw) = normalizeLevel c level | None => m' = m end.
Proof.
  intros M. unfold poolGet. destruct (m c !! Z.to_nat (normalizeLevel c level)) as [p|] eqn:Ep; [cbn|done].
  destruct (pick ≫= _) as [[zw p']|] eqn:Ek; intros [= <- <-]; [|by split].
  destruct pick as [k|]; [cbn in Ek|done]. destruct (p !! k) as [z|] eqn:El; [cbn in Ek|done]. injection Ek as <- <-.
  assert (z ∈ p) as Hz by (by eapply list_elem_of_lookup_2). pose proof (proj2 (M c) _ _ _ Ep Hz) as (Hc & Hv & Hi). split.
  - intros c'. unfold setMap. destruct (decide (c' = c)) as [->|D]; [|apply M]. split; [rewrite length_insert; apply M|].
    intros i q zw Lq Hq. apply list_lookup_insert_Some in Lq as [(<- & <- & _)|(_ & Lq)]; [|by apply (proj2 (M c) i q)].
    apply (proj2 (M c) _ _ zw Ep). rewrite (delete_Permutation _ _ _ El). by right.
  - split; [done|]. split; [done|]. pose proof (normalizeLevel_range c level). pose proof (normalizeLevel_range c (zw_level z)). lia.
Qed.

Lemma poolGet_total m c level pick : mapOk m -> exists v m', poolGet m c level pick = Some (v, m').
Proof.
  intros M. unfold poolGet. destruct (lookup_lt_is_Some_2 (m c) (Z.to_nat (normalizeLevel c level))) as [p ->].
  - rewrite (proj1 (M c)). pose proof (normalizeLevel_range c level). lia.
  - cbn. destruct (pick ≫= _) as [[zw p']|]; eauto.
Qed.

Lemma mapOk_put m c level zw : mapOk m -> zw_coding zw = c -> validLevel c (zw_level zw) = true -> normalizeLevel c (zw_level zw) = normalizeLevel c level ->
  exists m', poolPut m c level zw = Some m' /\ mapOk m'.
Proof.
  intros M Hc Hv Hl. unfold poolPut. destruct (lookup_lt_is_Some_2 (m c) (Z.to_nat (normalizeLevel c level))) as [p Ep].
  { rewrite (proj1 (M c)). pose proof (normalizeLevel_range c level). lia. }
  rewrite Ep. cbn. eexists. split; [done|]. intros c'. unfold setMap. destruct (decide (c' = c)) as [->|D]; [|apply M].
  split; [rewrite length_insert; apply M|]. intros i q z Lq Hq. apply list_lookup_insert_Some in Lq as [(<- & <- & _)|(_ & Lq)]; [|by apply (proj2 (M c) i q)].
  apply elem_of_cons in Hq as [->|Hq]; [split; [done|split; [done|by rewrite Hl]]|]. by apply (proj2 (M c) _ p).
Qed.

Lemma emptyPools_ok : poolsOk emptyPools.
Proof.
  assert (mapOk (fun _ => newCompressWriterPoolMap)); [|by split]. intros c. split; [done|]. intros i p zw L Hz.
  unfold newCompressWriterPoolMap in L. apply lookup_replicate in L as [-> _]. by apply elem_of_nil in Hz.
Qed.

(** acquireRealWriter: a fresh compressor of the coding, and of the level when the
    level has a meaning. *)
Lemma acquireRealWriter_spec c level pick P :
  poolsOk P -> validLevel c level = true ->
  exists zw P', acquireRealWriter c level pick P = Some (zw, P') /\ poolsOk P' /\ zw_fresh zw /\ zw_coding zw = c /\
    validLevel c (zw_level zw) = true /\ normalizeLevel c (zw_level zw) = normalizeLevel c level.
Proof.
  intros [M S] V. unfold acquireRealWriter. destruct (poolGet_total (pm_real P) c level pick M) as (v & m' & E). rewrite E. cbn.
  destruct (mapOk_get _ _ _ _ _ _ M E) as [M' Hv]. destruct v as [zw|].
  - destruct Hv as (Hc & Hl & Hn), (zw_reset_kind zw) as [Rc Rl]. eexists _, _. split; [done|]. split; [by split|]. split; [right; eauto|]. rewrite Rc, Rl. done.
  - destruct (zw_new_ok c level V) as (zw & En & Hc & Hl). rewrite En. cbn. eexists _, _. split; [done|]. split; [by split|].
    split; [left; eauto|]. by rewrite Hl.
Qed.

Lemma releaseRealWriter_spec c zw level P :
  poolsOk P -> zw_coding zw = c -> validLevel c (zw_level zw) = true -> normalizeLevel c (zw_level zw) = normalizeLevel c level ->
  exists P', releaseRealWriter c zw level P = Some (snd (zw_close zw), P') /\ poolsOk P'.
Proof.
  intros [M S] Hc Hv Hn. unfold releaseRealWriter. destruct (zw_close_kind zw) as [Kc Kl]. destruct (zw_close zw) as [zw' out]. cbn in *.
  destruct (mapOk_put (pm_real P) c level zw' M) as (m' & E & M'); [congruence|by rewrite Kl|by rewrite Kl|]. rewrite E. cbn. eexists. split; [done|by split].
Qed.

(** Compressing a slice in one piece. *)
Lemma nonblockingWrite_spec c p level pick P :
  poolsOk P -> validLevel c level = true ->
  exists out P', nonblockingWrite c p level pick P = Some (out, P') /\ poolsOk P' /\ zr_open c out = None /\ zr_read c out = (p, None).
Proof.
  intros K V. unfold nonblockingWrite. destruct (acquireRealWriter_spec c level pick P K V) as (zw & P1 & -> & K1 & F & Hc & Hv & Hn). cbn.
  pose proof (zr_roundtrip zw [(p, false)] F) as [Ro Rr]. cbn in Ro, Rr. destruct (zw_write_kind zw p) as [Wc Wl].
  destruct (zw_write zw p) as [zw' o1]. cbn in *. destruct (releaseRealWriter_spec c zw' level P1 K1) as (P2 & E2 & K2); [congruence|by rewrite Wl|by rewrite Wl|].
  rewrite E2. cbn. destruct (zw_close zw') as [zw2 o2]. cbn in *. rewrite app_nil_r in Rr. rewrite Hc in Ro, Rr. eauto 10.
Qed.
End Pools.

(** ** Streams *)

Section Streams.
Context {CL : CompressLib} {CW : CompressLaws}.

(** A compressor that is at work for [c] and [level]. *)
Definition madeFor (c : coding) (level : Z) (zw : zwriter) : Prop :=
  zw_coding zw = c /\ validLevel c (zw_level zw) = true /\ normalizeLevel c (zw_level zw) = normalizeLevel c level.

Definition allTaken (a : answers) : Prop := Forall (fun b => b = true) a.

Lemma queueAnswer_taken a : allTaken a -> fst (queueAnswer a) = true /\ allTaken (snd (queueAnswer a)).
Proof. destruct a as [|b a]; cbn; [by repeat split|]. intros H. apply Forall_cons in H as [-> H]. by split. Qed.

Lemma flushWriter_Write_taken zw p a :
  allTaken a ->
  exists a', allTaken a' /\
    flushWriter_Write (MkSw zw []) p a = (MkSw (fst (zw_flush (fst (zw_write zw p)))) [], snd (zw_write zw p) ++ snd (zw_flush (fst (zw_write zw p))), None, a').
Proof.
  intros A. unfold flushWriter_Write. destruct (queueAnswer_taken a A) as [B A1]. destruct (queueAnswer a) as [b1 a1]. cbn in B, A1. subst b1.
  unfold writer_do, writerFunc. cbn. destruct (queueAnswer_taken a1 A1) as [B2 A2]. destruct (queueAnswer a1) as [b2 a2]. cbn in B2, A2. subst b2.
  destruct (zw_write zw p) as [zw1 o1]. cbn. destruct (zw_flush zw1) as [zw2 o2]. by exists a2.
Qed.

Lemma copyPieces_taken c level pieces zw a :
  allTaken a -> madeFor c level zw ->
  exists zw' out a', copyPieces (MkSw zw []) pieces a = (MkSw zw' [], out, a') /\ allTaken a' /\ madeFor c level zw' /\
    snd (zw_script zw (map (fun p => (p, true)) pieces)) = out ++ snd (zw_close zw').
Proof.
  revert zw a. induction pieces as [|p pieces IH]; intros zw a A F; [by exists zw, [], a|].
  cbn [copyPieces map zw_script]. destruct (flushWriter_Write_taken zw p a A) as (a1 & A1 & E1). rewrite E1. cbn [sw_zw sw_xw].
  destruct F as (Fc & Fv & Fl), (zw_write_kind zw p) as [Wc Wl]. destruct (zw_write zw p) as [zw1 o1]. cbn in *.
  destruct (zw_flush_kind zw1) as [Gc Gl]. destruct (zw_flush zw1) as [zw2 o2]. cbn in *.
  destruct (IH zw2 a1 A1) as (zw' & out & a' & E2 & A2 & F2 & S2); [unfold madeFor; rewrite Gc, Gl, Wc, Wl; done|].
  rewrite E2. destruct (zw_script zw2 (map (fun p => (p, true)) pieces)) as [z o3]. cbn in *. subst o3. eexists _, _, _. split; [done|].
  split; [done|]. split; [done|]. by rewrite <- !app_assoc.
Qed.

Lemma acquireStacklessWriter_spec c level pick pick' a P :
  poolsOk P -> validLevel c level = true -> allTaken a ->
  exists zw a' P', acquireStacklessWriter c level pick pick' a P = Some (MkSw zw [], a', P') /\ allTaken a' /\ poolsOk P' /\ zw_fresh zw /\ madeFor c level zw.
Proof.
  intros K V A. pose proof K as [M S]. unfold acquireStacklessWriter. destruct (poolGet_total (pm_stackless P) c level pick S) as (v & m' & E). rewrite E. cbn.
  destruct (mapOk_get _ _ _ _ _ _ S E) as [M' Hv]. destruct v as [zw|].
  - destruct (queueAnswer_taken a A) as [B A1]. destruct (queueAnswer a) as [b a1]. cbn in B, A1. subst b. destruct Hv as (Hc & Hl & Hn), (zw_reset_kind zw) as [Rc Rl].
    exists (zw_reset zw), a1, (MkPools (pm_real P) m'). split; [done|]. split; [done|]. split; [by split|]. split; [right; eauto|]. unfold madeFor. by rewrite Rc, Rl.
  - destruct (acquireRealWriter_spec c level pick' P K V) as (zw & P1 & -> & K1 & F & Hc & Hv' & Hn). cbn. exists zw, a, P1. done.
Qed.

(** All that the stream had comes out of the compressed one, which ends without an
    error even if the stream did not. *)
Lemma compressStream_spec c level st pick pick' a P :
  poolsOk P -> validLevel c level = true -> allTaken a ->
  exists out P', compressStream c level st pick pick' a P = Some (MkStream (MkSource [out] EOF) None, P') /\ poolsOk P' /\
    zr_open c out = None /\ zr_read c out = (concat (streamPieces st), None).
Proof.
  intros K V A. unfold compressStream. destruct (acquireStacklessWriter_spec c level pick pick' a P K V A) as (zw & a1 & P1 & -> & A1 & K1 & F & Mf). cbn.
  destruct (copyPieces_taken c level (streamPieces st) zw a1 A1 Mf) as (zw2 & out & a2 & E2 & A2 & M2 & S2). rewrite E2. unfold releaseStacklessWriter.
  destruct (queueAnswer_taken a2 A2) as [B A3]. destruct (queueAnswer a2) as [b a3]. cbn in B, A3. subst b. unfold writer_do, writerFunc. cbn [sw_zw sw_xw].
  destruct M2 as (Mc & Mv & Mn), (zw_close_kind zw2) as [Kc Kl]. pose proof (zr_roundtrip zw (map (fun p => (p, true)) (streamPieces st)) F) as [Ro Rr]. rewrite S2 in Ro, Rr.
  destruct (zw_close zw2) as [zw3 o3]. cbn in *. destruct K1 as [K1 K1'].
  destruct (mapOk_put (pm_stackless P1) c level zw3 K1') as (m' & -> & M'); [congruence|by rewrite Kl|by rewrite Kl|]. cbn.
  eexists _, _. split; [done|]. split; [by split|]. destruct Mf as (Mc0 & _). rewrite Mc0 in Ro, Rr. split; [done|].
  rewrite Rr. f_equal. f_equal. rewrite map_map. cbn. by rewrite map_id.
Qed.

Lemma streamPieces_all st : concat (streamPieces st) = fst (copyZeroAlloc st).
Proof.
  unfold streamPieces, copyZeroAlloc. destruct (bst_limit st) as [n|]; [|done]. cbn. rewrite app_nil_r. destruct (Z.leb_spec n (zlen (concat (src_chunks (bst_source st))))) as [H|H]; [done|].
  cbn. apply firstn_all2. lia.
Qed.
End Streams.

(** ** Responses *)

Section Bodies.
Context {CL : CompressLib} {CW : CompressLaws} {HL : HttpLib} {HW : HttpLaws}.

(** The bytes a response is sent with. *)
Definition bodyOf (x : Response) : bytes :=
  match resp_bodyStream x with Some st => fst (copyZeroAlloc st) | None => Response_bodyBytes x end.

Definition contentEncoding (x : Response) : bytes := default [] (ResponseHeader_peek (resp_Header x) strContentEncoding).

Lemma peek_ContentEncoding h v : ResponseHeader_peek (ResponseHeader_SetCanonical h strContentEncoding v) strContentEncoding = Some v.
Proof.
  assert (ResponseHeader_SetCanonical h strContentEncoding v = set_rs_h (setArgBytes (rs_h h) strContentEncoding v argsHasValue) h) as -> by reflexivity.
  assert (forall g, ResponseHeader_peek g strContentEncoding = peekArgBytes (live (rs_h g)) strContentEncoding) as -> by reflexivity.
  cbn [set_rs_h rs_h]. rewrite peekArgBytes_Str. unfold setArgBytes. rewrite peek_setArg. by rewrite decide_True.
Qed.

Lemma decodedData_of c out p : zr_open c out = None -> zr_read c out = (p, None) -> decodedData c out = (p, None).
Proof. intros E1 E2. unfold decodedData, writeDecoded. by rewrite E1, E2. Qed.

Lemma SetContentLength_stream h : exists h', ResponseHeader_SetContentLength h (-1) = Some h'.
Proof. unfold ResponseHeader_SetContentLength. destruct (ResponseHeader_mustSkipContentLength h); [by eexists|]. cbn. by eexists. Qed.

(** No encoding yet, a type that is worth it, and a body that is a stream or long
    enough. *)
Definition worthCompressing (x : Response) : bool :=
  bool_decide (contentEncoding x = []) && ResponseHeader_isCompressibleContentType (resp_Header x) &&
  match resp_bodyStream x with Some _ => true | None => minCompressLen <=? zlen (Response_bodyBytes x) end.

(** gzipBody, deflateBody, brotliBody: the response stays as it is, or its body is
    the same one in the coding the header names. *)
Lemma Response_compressBody_spec c level w x P :
  poolsOk P -> validLevel c level = true -> ch_accepted w = true -> allTaken (ch_answers w) ->
  exists x' P', Response_compressBody c level w x P = Some (x', P') /\ poolsOk P' /\
    if worthCompressing x then contentEncoding x' = encodingName c /\ decodedData c (bodyOf x') = (bodyOf x, None) else x' = x.
Proof.
  intros K V Ha A. unfold Response_compressBody, worthCompressing. case_bool_decide as He.
  { rewrite bool_decide_false by (intros E; unfold contentEncoding in E; rewrite E in He; cbn in He; lia). by eexists _, _. }
  assert (contentEncoding x = []) as Ce by (unfold contentEncoding; destruct (default [] _); [done|cbn in He; lia]). rewrite bool_decide_true by done.
  destruct (ResponseHeader_isCompressibleContentType (resp_Header x)); [cbn [negb andb]|by eexists _, _]. unfold bodyOf. destruct (resp_bodyStream x) as [st|] eqn:Es.
  - destruct (SetContentLength_stream (resp_Header x)) as [h ->]. cbn [mbind option_bind].
    destruct (compressStream_spec c level st (ch_pick w) (ch_pick' w) (ch_answers w) P K V A) as (out & P' & -> & K' & Ro & Rr). cbn [mbind option_bind].
    eexists _, _. split; [done|]. split; [done|]. split; [unfold contentEncoding; cbn; by rewrite peek_ContentEncoding|].
    cbn. rewrite app_nil_r. rewrite <- streamPieces_all. by apply decodedData_of.
  - destruct (Z.ltb_spec (zlen (Response_bodyBytes x)) minCompressLen) as [L|L].
    { rewrite (proj2 (Z.leb_gt _ _)) by done. by eexists _, _. }
    rewrite (proj2 (Z.leb_le _ _)) by done. unfold AppendBytesLevel, writeLevel. rewrite Ha.
    destruct (nonblockingWrite_spec c (Response_bodyBytes x) level (ch_pick w) P K V) as (out & P' & -> & K' & Ro & Rr).
    cbn [mbind option_bind]. rewrite pool_empty. eexists _, _. split; [done|]. split; [done|].
    split; [unfold contentEncoding; cbn; by rewrite peek_ContentEncoding|]. cbn [resp_bodyStream set_resp_Header set_resp_bodyRaw set_resp_body]. rewrite Es.
    unfold Response_bodyBytes at 1. cbn. by apply decodedData_of.
Qed.

(** When the queue is full the body is lost: the header says it is compressed, and
    there is nothing. *)
Lemma Response_compressBody_high_load c level w x P :
  ch_accepted w = false -> worthCompressing x = true -> resp_bodyStream x = None ->
  exists x', Response_compressBody c level w x P = Some (x', P) /\ contentEncoding x' = encodingName c /\ bodyOf x' = [].
Proof.
  intros Ha Hw Es. unfold worthCompressing in Hw. rewrite Es, !andb_true_iff, bool_decide_eq_true, Z.leb_le in Hw. destruct Hw as [[Ce Hc] Hl].
  unfold Response_compressBody. rewrite bool_decide_false by (unfold contentEncoding in Ce; rewrite Ce; cbn; lia).
  rewrite Hc, Es. cbn [negb]. rewrite (proj2 (Z.ltb_ge _ _)) by done. unfold AppendBytesLevel, writeLevel. rewrite Ha. cbn [mbind option_bind]. rewrite pool_empty.
  eexists. split; [done|]. split; [unfold contentEncoding; cbn; by rewrite peek_ContentEncoding|]. unfold bodyOf. cbn. by rewrite Es.
Qed.
End Bodies.

(** ** What is left open *)

Section Hazards.
Context {CL : CompressLib} {CW : CompressLaws}.

(** The level is normalised for the choice of a pool only: NewWriterLevel gets the
    one that came, and its error is a panic, unless the pool of the default level
    happens to have a compressor. *)
Lemma acquireRealWriter_bad_level c level pick P :
  poolsOk P -> validLevel c level = false ->
  acquireRealWriter c level pick P = None <-> exists m', poolGet (pm_real P) c level pick = Some (None, m').
Proof.
  intros [M _] V. unfold acquireRealWriter. destruct (poolGet_total (pm_real P) c level pick M) as (v & m' & E). rewrite E. cbn. destruct v as [zw|].
  - split; [done|]. intros (m & Em). congruence.
  - rewrite zw_new_bad by done. split; [by exists m'|done].
Qed.

(** When the queue is full from some write on, the stream ends there: what follows is
    left out, and the reader sees the end of the stream. *)
Lemma copyPieces_refused sw pieces a : copyPieces sw pieces (false :: a) = (sw, [], match pieces with [] => false :: a | _ => a end).
Proof. destruct pieces as [|p pieces]; [done|]. destruct sw. reflexivity. Qed.
End Hazards.

(** ** A concrete coding: the text after a byte that names the coding *)

Definition codingByte (c : coding) : byte := match c with Gzip => Byte.x01 | Deflate => Byte.x02 | Brotli => Byte.x03 end.

Record plainWriter := MkPlainWriter { pw_coding : coding; pw_level : Z; pw_started : bool }.

Definition plainStart (z : plainWriter) : plainWriter * bytes :=
  (MkPlainWriter (pw_coding z) (pw_level z) true, if pw_started z then [] else [codingByte (pw_coding z)]).

Definition plainCompress : CompressLib := {|
  zwriter := plainWriter;
  zw_coding := pw_coding;
  zw_level := pw_level;
  zw_new c l := if validLevel c l then Some (MkPlainWriter c l false) else None;
  zw_reset z := MkPlainWriter (pw_coding z) (pw_level z) false;
  zw_write z p := let '(z, o) := plainStart z in (z, o ++ p);
  zw_flush := plainStart;
  zw_close := plainStart;
  zr_open c p := match p with b :: _ => if decide (b = codingByte c) then None else Some EOF | [] => Some EOF end;
  zr_read c p := (drop 1 p, None)
|}.

Lemma plain_script z script :
  snd (@zw_script plainCompress z script) = (if pw_started z then [] else [codingByte (pw_coding z)]) ++ concat (map fst script).
Proof.
  revert z. induction script as [|[p flush] script IH]; intros z; [cbn; by rewrite app_nil_r|]. cbn [zw_script].
  specialize (IH (MkPlainWriter (pw_coding z) (pw_level z) true)).
  destruct flush; cbn; destruct (@zw_script plainCompress _ script) as [z3 o3]; cbn in *; subst o3; by destruct (pw_started z).
Qed.

Lemma plainCompress_laws : @CompressLaws plainCompress.
Proof.
  split.
  - intros c l V. cbn. rewrite V. by eexists.
  - intros c l V. cbn. by rewrite V.
  - done.
  - done.
  - done.
  - done.
  - intros z script F. assert (pw_started z = false) as E.
    { destruct F as [(c & l & N)|(z' & ->)]; [|done]. cbn in N. destruct (validLevel c l); [by injection N as <-|done]. }
    rewrite plain_script, E. cbn. by destruct (codingByte (pw_coding z)).
Qed.

(** * Properties *)

(** The coding CompressHandlerBrotliLevel takes. *)
Definition preferredCoding `{ServerLib} (ctx : RequestCtx) : option coding :=
  if acceptsCoding ctx Brotli then Some Brotli else if acceptsCoding ctx Gzip then Some Gzip else if acceptsCoding ctx Deflate then Some Deflate else None.

(** C18. CompressHandlerBrotliLevel compresses exactly the responses that are worth
    it, for clients that accept br, gzip or deflate, in this order of preference:
    the encoding is in Content-Encoding and decoding the body, bytes or stream,
    gives the body the handler has set; any other response is left as it is, and so
    is the request.  The levels are valid, the queue takes what it is given. *)
Theorem CompressHandler_keeps_body {CL : CompressLib} (CW : CompressLaws) {HL : HttpLib} (HW : HttpLaws) {SL : ServerLib} (h : RequestCtx -> RequestCtx)
    (brotliLevel otherLevel : Z) (w : choices) (ctx : RequestCtx) (P : poolMaps) :
  poolsOk P -> validLevel Gzip otherLevel = true -> ch_accepted w = true -> allTaken (ch_answers w) ->
  exists resp' P',
    CompressHandlerBrotliLevel h brotliLevel otherLevel w ctx P = Some (set_cx_Response resp' (h ctx), P') /\ poolsOk P' /\
    match preferredCoding (h ctx) with
    | Some c =>
        if worthCompressing (cx_Response (h ctx)) then contentEncoding resp' = encodingName c /\ decodedData c (bodyOf resp') = (bodyOf (cx_Response (h ctx)), None)
        else resp' = cx_Response (h ctx)
    | None => resp' = cx_Response (h ctx)
    end.
Proof.
  intros K V Ha A. unfold CompressHandlerBrotliLevel, preferredCoding, compressResponse.
  destruct (acceptsCoding (h ctx) Brotli); [|destruct (acceptsCoding (h ctx) Gzip); [|destruct (acceptsCoding (h ctx) Deflate)]].
  - destruct (Response_compressBody_spec Brotli brotliLevel w (cx_Response (h ctx)) P) as (x' & P' & -> & R); [done..|]. cbn. by exists x', P'.
  - destruct (Response_compressBody_spec Gzip otherLevel w (cx_Response (h ctx)) P) as (x' & P' & -> & R); [done..|]. cbn. by exists x', P'.
  - destruct (Response_compressBody_spec Deflate otherLevel w (cx_Response (h ctx)) P) as (x' & P' & -> & R); [done..|]. cbn. by exists x', P'.
  - exists (cx_Response (h ctx)), P. split; [by destruct (h ctx)|done].
Qed.

(** What AppendGzipBytesLevel and its like append for a valid level and a queue
    that takes the call, the reader appends the source of, whichever compressors
    the pools hand out, and the pools stay in order. *)
Lemma AppendBytes_roundtrip {CL : CompressLib} (CW : CompressLaws) (c : coding) (dst src dst' : bytes) (level : Z) (pick : option nat) (P : poolMaps) :
  poolsOk P -> validLevel c level = true ->
  exists out P', AppendBytesLevel c true dst src level pick P = Some (dst ++ out, P') /\ poolsOk P' /\
    writeDecoded c dst' out = (dst' ++ src, zlen src, None).
Proof.
  intros K V. unfold AppendBytesLevel, writeLevel. destruct (nonblockingWrite_spec c src level pick P K V) as (out & P' & -> & K' & Ro & Rr). cbn.
  exists out, P'. split; [done|]. split; [done|]. unfold writeDecoded. by rewrite Ro, Rr.
Qed.

#[local] Existing Instance plainLib.

Definition sampleHandler (ctx : @RequestCtx plainLib plainServerLib) : RequestCtx :=
  set_cx_Response (Response_SetBody (cx_Response ctx) (replicate 300 "a"%byte)) ctx.
Definition sampleAsked : @RequestCtx plainLib plainServerLib :=
  on_rqHeader (fun hdr => default hdr (RequestHeader_SetCanonical hdr strAcceptEncoding (bs "deflate, gzip"))) emptyRequestCtx.
Definition sampleChoices : choices := MkChoices (Some 0%nat) None true [true; true].

Lemma CompressHandler_keeps_body_witness :
  let ctx1 := sampleHandler sampleAsked in
  (@poolsOk plainCompress (@emptyPools plainCompress) /\ validLevel Gzip 9 = true /\ allTaken (ch_answers sampleChoices) /\
   preferredCoding ctx1 = Some Gzip /\ worthCompressing (cx_Response ctx1) = true) /\
   exists resp' P',
    @CompressHandlerBrotliLevel plainCompress _ _ sampleHandler 4 9 sampleChoices sampleAsked (@emptyPools plainCompress) = Some (set_cx_Response resp' ctx1, P') /\
   @poolsOk plainCompress P' /\ contentEncoding resp' = bs "gzip" /\ @decodedData plainCompress Gzip (bodyOf resp') = (replicate 300 "a"%byte, None).
Proof.
  pose proof (@emptyPools_ok plainCompress) as K. assert (allTaken (ch_answers sampleChoices)) as A by (constructor; [done|constructor; done]).
  assert (preferredCoding (sampleHandler sampleAsked) = Some Gzip) as Ec by (vm_compute; reflexivity).
  assert (worthCompressing (cx_Response (sampleHandler sampleAsked)) = true) as Ew by (vm_compute; reflexivity).
  assert (bodyOf (cx_Response (sampleHandler sampleAsked)) = replicate 300 "a"%byte) as Eb by (vm_compute; reflexivity).
  assert (encodingName Gzip = bs "gzip") as En by reflexivity.
  pose proof (CompressHandler_keeps_body plainCompress_laws plainLib_laws sampleHandler 4 9 sampleChoices sampleAsked (@emptyPools plainCompress) K eq_refl eq_refl A) as T.
  rewrite Ec, Ew, Eb, En in T. exact (conj (conj K (conj eq_refl (conj A (conj Ec Ew)))) T).
Defined.

Lemma AppendBytes_roundtrip_witness :
  (@poolsOk plainCompress (@emptyPools plainCompress) /\ validLevel Deflate (-2) = true) /\
   exists out P', @AppendBytesLevel plainCompress Deflate true (bs "x") (bs "hello") (-2) None (@emptyPools plainCompress) = Some (bs "x" ++ out, P') /\
   @poolsOk plainCompress P' /\ @writeDecoded plainCompress Deflate (bs "y") out = (bs "yhello", 5, None).
Proof.
  pose proof (@emptyPools_ok plainCompress) as K.
  exact (conj (conj K eq_refl) (AppendBytes_roundtrip plainCompress_laws Deflate (bs "x") (bs "hello") (bs "y") (-2) None (@emptyPools plainCompress) K eq_refl)).
Defined.

(** CompressHandlerLevel with a level outside the documented ones panics on the
    first response. *)
Lemma bad_level_panics :
  @CompressHandlerLevel plainCompress _ _ sampleHandler 10 sampleChoices sampleAsked (@emptyPools plainCompress) = None.
Proof. vm_compute. reflexivity. Qed.

(** With a full queue the client gets a header that says gzip and no body. *)
Lemma high_load_loses_body :
  match @CompressHandlerLevel plainCompress _ _ sampleHandler 6 (MkChoices None None false []) sampleAsked (@emptyPools plainCompress) with
  | Some (ctx, _) => (contentEncoding (cx_Response ctx), bodyOf (cx_Response ctx), ResponseHeader_StatusCode (resp_Header (cx_Response ctx)))
  | None => ([], [], 0)
  end = (bs "gzip", [], StatusOK).
Proof. vm_compute. reflexivity. Qed.

(** A body stream that fails in the middle is sent compressed as if it had ended
    there. *)
Lemma failing_stream_ends_well :
  match @compressStream plainCompress Gzip 6 (MkStream (MkSource [bs "one"; bs "two"] (Errorf "disk failure")) None) None None [] (@emptyPools plainCompress) with
  | Some (st, _) => snd (copyZeroAlloc st)
  | None => Some EOF
  end = None.
Proof. vm_compute. reflexivity. Qed.
