(* ===== verification/Dialer.v ===== *)
(** * tcpdialer.go: dialing with a cache of resolved addresses

    TCPDialer as a machine: any number of calls of dial with the cleaner of the
    cache and the channel that limits how many dial at once.  A step is a critical
    section of tcpAddrsLock, an atomic addition, a send or receive on concurrencyCh
    or a wait for the network; what a resolver, a timer, the clock and the network
    answer comes with the step.  net.SplitHostPort, strconv.Atoi and IP.To4 are
    written out. *)
From Stdlib Require Import Strings.String.
From stdpp Require Import gmap relations list_tactics.
From S2P Require Import Prelude BytesConv Machine.

Definition ErrDialTimeout : error := Errorf "dialing to the given TCP address timed out".
Definition errNoDNSEntries : error := Errorf "couldn't find DNS entries for the given domain. Try using DialDualStack".

(** Durations and times are in nanoseconds. *)
Definition DefaultDialTimeout : Z := 3 * 10 ^ 9.
Definition DefaultDNSCacheDuration : Z := 60 * 10 ^ 9.

(** ** Addresses *)

Record IPAddr := MkIPAddr { ia_IP : list Z; ia_Zone : bytes }.
Record TCPAddr := MkTCPAddr { ta_IP : list Z; ta_Port : Z; ta_Zone : bytes }.

#[export] Instance TCPAddr_eq_dec : EqDecision TCPAddr.
Proof. solve_decision. Defined.

(** IP.To4: the 4-byte form of an address that has one. *)
Definition To4 (ip : list Z) : option (list Z) :=
  match ip with
  | [_; _; _; _] => Some ip
  | [a0; a1; a2; a3; a4; a5; a6; a7; a8; a9; a10; a11; b0; b1; b2; b3] =>
      if decide ([a0; a1; a2; a3; a4; a5; a6; a7; a8; a9] = replicate 10 0 /\ a10 = 255 /\ a11 = 255) then Some [b0; b1; b2; b3] else None
  | _ => None
  end.

Definition SplitHostPort (hostport : bytes) : (bytes * bytes) + error :=
  match LastIndexByte hostport ":" with
  | None => inr (Errorf "missing port in address")
  | Some i =>
      let inner jk :=
        let '(host, j, k) := jk in
        if decide (IndexByte (drop j hostport) "[" <> None) then inr (Errorf "unexpected '[' in address")
        else if decide (IndexByte (drop k hostport) "]" <> None) then inr (Errorf "unexpected ']' in address")
        else inl (host, drop (i + 1) hostport) in
      match hostport with
      | "["%byte :: _ =>
          match IndexByte hostport "]" with
          | None => inr (Errorf "missing ']' in address")
          | Some e =>
              if decide (e + 1 = length hostport)%nat then inr (Errorf "missing port in address")
              else if decide (e + 1 = i)%nat then inner (take (e - 1) (drop 1 hostport), 1%nat, (e + 1)%nat)
              else if decide (hostport !! (e + 1)%nat = Some ":"%byte) then inr (Errorf "too many colons in address")
              else inr (Errorf "missing port in address")
          end
      | _ =>
          let host := take i hostport in
          if decide (IndexByte host ":" <> None) then inr (Errorf "too many colons in address") else inner (host, 0%nat, 0%nat)
      end
  end.

Fixpoint decimals (n : Z) (b : bytes) : option Z :=
  match b with
  | [] => Some n
  | c :: b => let d := bz c - 48 in if (0 <=? d) && (d <=? 9) then decimals (10 * n + d) b else None
  end.

Definition Atoi (b : bytes) : Z + error :=
  let '(neg, ds) := match b with "-"%byte :: ds => (true, ds) | "+"%byte :: ds => (false, ds) | _ => (false, b) end in
  match ds, decimals 0 ds with
  | [], _ | _, None => inr (Errorf "invalid syntax")
  | _, Some n =>
      let n := if neg : bool then - n else n in
      if (- 2 ^ 63 <=? n) && (n <? 2 ^ 63) then inl n else inr (Errorf "value out of range")
  end.

(** resolveTCPAddrs, with the answer of the resolver about a host. *)
Definition resolveTCPAddrs (LookupIPAddr : bytes -> list IPAddr + error) (addr : bytes) (dualStack : bool) : list TCPAddr + error :=
  match SplitHostPort addr with
  | inr err => inr err
  | inl (host, portS) =>
      match Atoi portS with
      | inr err => inr err
      | inl port =>
          match LookupIPAddr host with
          | inr err => inr err
          | inl ipaddrs =>
              let addrs := map (fun ip => MkTCPAddr (ia_IP ip) port (ia_Zone ip)) (List.filter (fun ip => dualStack || bool_decide (To4 (ia_IP ip) <> None)) ipaddrs) in
              match addrs with [] => inr errNoDNSEntries | _ => inl addrs end
          end
      end
  end.

(** ** The dialer *)

Record tcpAddrEntry := MkTcpAddrEntry { te_addrs : list TCPAddr; te_addrsIdx : Z; te_resolveTime : Z; te_pending : bool }.

Definition set_te_pending (v : bool) (e : tcpAddrEntry) : tcpAddrEntry := MkTcpAddrEntry (te_addrs e) (te_addrsIdx e) (te_resolveTime e) v.
Definition set_te_addrsIdx (v : Z) (e : tcpAddrEntry) : tcpAddrEntry := MkTcpAddrEntry (te_addrs e) v (te_resolveTime e) (te_pending e).

(** The loop of dial: the addresses, the index and the count that are left, the last
    error; [tl_tried]: the addresses that have been dialed, the first one first. *)
Record tries := MkTries { tl_addrs : list TCPAddr; tl_idx : Z; tl_n : Z; tl_deadline : Z; tl_err : option error; tl_tried : list TCPAddr }.

(** Where a call of dial is: before it looks into the cache, resolving, with an
    error of the resolver or addresses to store, before it takes an index, in the
    loop, waiting for concurrencyCh, dialing, finished.  [Ended c err]: the address
    of the connection, if there is one. *)
Inductive dstage :=
| DStart
| DResolve
| DFailed (err : error)
| DStore (e : tcpAddrEntry)
| DIndex (e : nat)
| DTry (l : tries)
| DWait (l : tries)
| DDial (a : TCPAddr) (l : tries)
| DEnd (c : option TCPAddr) (err : option error) (l : option tries).

Record dialCall := MkDialCall { dc_addr : bytes; dc_dualStack : bool; dc_timeout : Z; dc_stage : dstage }.

(** The entries of the map are pointers: [dl_map] has their numbers. *)
Record dialer := MkDialer { dl_map : gmap bytes nat; dl_entries : list tcpAddrEntry; dl_slots : Z; dl_calls : list dialCall }.

(** What the step is told: the time, the resolver's answer, whether the timer is
    chosen, what the network answers ([None]: connected) and whether the deadline
    has passed by then. *)
Inductive dact :=
| DCall (addr : bytes) (dualStack : bool) (timeout : Z)
| DGo (now : Z)
| DResolved (answer : bytes -> list IPAddr + error) (now : Z)
| DTimer
| DDialed (answer : option error) (expired : bool)
| DClean (now : Z).

Section Dialer.
(** TCPDialer.Concurrency and DNSCacheDuration as they are set. *)
Context (Concurrency cacheDuration : Z).

(** After once.Do. *)
Definition DNSCacheDuration : Z := if cacheDuration =? 0 then DefaultDNSCacheDuration else cacheDuration.

Definition setStage (t : nat) (pc : dstage) (s : dialer) : dialer :=
  MkDialer (dl_map s) (dl_entries s) (dl_slots s)
    match dl_calls s !! t with Some c => <[t := MkDialCall (dc_addr c) (dc_dualStack c) (dc_timeout c) pc]> (dl_calls s) | None => dl_calls s end.
Definition setEntry (i : nat) (e : tcpAddrEntry) (s : dialer) : dialer := MkDialer (dl_map s) (<[i := e]> (dl_entries s)) (dl_slots s) (dl_calls s).
Definition setSlots (v : Z) (s : dialer) : dialer := MkDialer (dl_map s) (dl_entries s) v (dl_calls s).

(** The entry of an address, with its number. *)
Definition cached (addr : bytes) (s : dialer) : option (nat * tcpAddrEntry) := i ← dl_map s !! addr; e ← dl_entries s !! i; Some (i, e).

(** getTCPAddrs up to the resolver. *)
Definition getTCPAddrs (t : nat) (addr : bytes) (now : Z) (s : dialer) : dialer :=
  match cached addr s with
  | Some (i, e) =>
      if negb (te_pending e) && (DNSCacheDuration <? now - te_resolveTime e) then setStage t DResolve (setEntry i (set_te_pending true e) s)
      else setStage t (DIndex i) s
  | None => setStage t DResolve s
  end.

(** The resolver has failed. *)
Definition resolveFailed (t : nat) (addr : bytes) (err : error) (s : dialer) : dialer :=
  let s := match cached addr s with Some (i, e) => if te_pending e then setEntry i (set_te_pending false e) s else s | None => s end in
  setStage t (DEnd None (Some err) None) s.

Definition storeEntry (t : nat) (addr : bytes) (e : tcpAddrEntry) (s : dialer) : dialer :=
  let i := length (dl_entries s) in
  setStage t (DIndex i) (MkDialer (<[addr := i]> (dl_map s)) (dl_entries s ++ [e]) (dl_slots s) (dl_calls s)).

(** One turn of the loop of dial up to the dialing. *)
Definition tryDial (t : nat) (l : tries) (now : Z) (s : dialer) : outcome dialer :=
  if tl_n l <=? 0 then To (setStage t (DEnd None (tl_err l) (Some l)) s)
  else
    match tl_addrs l !! Z.to_nat (tl_idx l mod tl_n l) with
    | None => Panics
    | Some a =>
        if - (now - tl_deadline l) <=? 0 then To (setStage t (DEnd None (Some ErrDialTimeout) (Some l)) s)
        else if Concurrency <=? 0 then To (setStage t (DDial a l) s)
        else if dl_slots s <? Concurrency then To (setStage t (DDial a l) (setSlots (dl_slots s + 1) s))
        else To (setStage t (DWait l) s)
    end.

(** A slot of concurrencyCh has become free. *)
Definition takeSlot (t : nat) (l : tries) (s : dialer) : outcome dialer :=
  if dl_slots s <? Concurrency then
    match tl_addrs l !! Z.to_nat (tl_idx l mod tl_n l) with
    | None => Panics
    | Some a => To (setStage t (DDial a l) (setSlots (dl_slots s + 1) s))
    end
  else Blocked.

(** DialContext has returned: the slot is given back, and the loop goes on. *)
Definition dialed (t : nat) (a : TCPAddr) (l : tries) (answer : option error) (expired : bool) (s : dialer) : dialer :=
  let s := if 0 <? Concurrency then setSlots (dl_slots s - 1) s else s in
  let l := MkTries (tl_addrs l) (tl_idx l) (tl_n l) (tl_deadline l) (tl_err l) (tl_tried l ++ [a]) in
  match answer with
  | None => setStage t (DEnd (Some a) None (Some l)) s
  | Some err =>
      if expired then setStage t (DEnd None (Some ErrDialTimeout) (Some l)) s
      else if decide (err = ErrDialTimeout) then setStage t (DEnd None (Some err) (Some l)) s
      else setStage t (DTry (MkTries (tl_addrs l) ((tl_idx l + 1) mod 2 ^ 32) (tl_n l - 1) (tl_deadline l) (Some err) (tl_tried l))) s
  end.

(** One round of tcpAddrsClean. *)
Definition tcpAddrsClean (now : Z) (s : dialer) : dialer :=
  let expireDuration := 2 * DNSCacheDuration in
  let expired i := match dl_entries s !! i with Some e => expireDuration <? now - te_resolveTime e | None => false end in
  MkDialer (filter (fun kv : bytes * nat => expired (snd kv) = false) (dl_map s)) (dl_entries s) (dl_slots s) (dl_calls s).

Definition stepDial (t : nat) (c : dialCall) (a : dact) (s : dialer) : outcome dialer :=
  match dc_stage c, a with
  | DStart, DGo now => To (getTCPAddrs t (dc_addr c) now s)
  | DResolve, DResolved answer now =>
      match resolveTCPAddrs answer (dc_addr c) (dc_dualStack c) with
      | inr err => To (setStage t (DFailed err) s)
      | inl addrs => To (setStage t (DStore (MkTcpAddrEntry addrs 0 now false)) s)
      end
  | DFailed err, DGo _ => To (resolveFailed t (dc_addr c) err s)
  | DStore e, DGo _ => To (storeEntry t (dc_addr c) e s)
  | DIndex i, DGo now =>
      match dl_entries s !! i with
      | None => Panics
      | Some e =>
          let idx := (te_addrsIdx e + 1) mod 2 ^ 32 in
          let n := zlen (te_addrs e) mod 2 ^ 32 in
          To (setStage t (DTry (MkTries (te_addrs e) idx n (now + dc_timeout c) None [])) (setEntry i (set_te_addrsIdx idx e) s))
      end
  | DTry l, DGo now => tryDial t l now s
  | DWait l, DGo _ => takeSlot t l s
  | DWait l, DTimer => To (setStage t (DEnd None (Some ErrDialTimeout) (Some l)) s)
  | DDial x l, DDialed answer expired => To (dialed t x l answer expired s)
  | _, _ => Blocked
  end.

#[global] Instance dial_machine : Machine dialer dact := fun t a s =>
  match a with
  | DCall addr dualStack timeout => To (MkDialer (dl_map s) (dl_entries s) (dl_slots s) (dl_calls s ++ [MkDialCall addr dualStack timeout DStart]))
  | DClean now => To (tcpAddrsClean now s)
  | _ => match dl_calls s !! t with Some c => stepDial t c a s | None => Blocked end
  end.
End Dialer.

(** The calls by their names: those of a TCPDialer, and those of the package, which
    go to [defaultDialer]. *)
Definition TCPDialer_Dial (addr : bytes) : dact := DCall addr false DefaultDialTimeout.
Definition TCPDialer_DialTimeout (addr : bytes) (timeout : Z) : dact := DCall addr false timeout.
Definition TCPDialer_DialDualStack (addr : bytes) : dact := DCall addr true DefaultDialTimeout.
Definition TCPDialer_DialDualStackTimeout (addr : bytes) (timeout : Z) : dact := DCall addr true timeout.

Definition defaultDialer : Machine dialer dact := dial_machine 1000 0.
Definition Dial := TCPDialer_Dial.
Definition DialTimeout := TCPDialer_DialTimeout.
Definition DialDualStack := TCPDialer_DialDualStack.
Definition DialDualStackTimeout := TCPDialer_DialDualStackTimeout.

Definition newDialer : dialer := MkDialer ∅ [] 0 [].

(** ** Which address is dialed *)

Definition count (addrs : list TCPAddr) : Z := zlen addrs mod 2 ^ 32.

(** The [i]-th attempt of a call that has been given the index [idx]. *)
Definition attempt (addrs : list TCPAddr) (idx i : Z) : option TCPAddr :=
  addrs !! Z.to_nat ((idx + i) mod 2 ^ 32 mod (count addrs - i)).

Lemma count_range addrs : 0 <= count addrs <= zlen addrs.
Proof. unfold count. pose proof (Z.mod_pos_bound (zlen addrs) (2 ^ 32)). pose proof (Z.mod_le (zlen addrs) (2 ^ 32)). lia. Qed.

Lemma attempt_some addrs idx i : 0 <= i < count addrs -> exists a, attempt addrs idx i = Some a.
Proof.
  intros Hi. unfold attempt. apply lookup_lt_is_Some_2. pose proof (count_range addrs).
  pose proof (Z.mod_pos_bound ((idx + i) mod 2 ^ 32) (count addrs - i)). lia.
Qed.

(** The last attempt is always made on the first address. *)
Lemma attempt_last addrs idx : 0 < count addrs -> attempt addrs idx (count addrs - 1) = addrs !! 0%nat.
Proof. intros H. unfold attempt. replace (count addrs - (count addrs - 1)) with 1 by lia. by rewrite Z.mod_1_r. Qed.

Definition triedFrom (l : tries) (idx : Z) : Prop := forall i a, tl_tried l !! i = Some a -> attempt (tl_addrs l) idx (Z.of_nat i) = Some a.

Record triesOk (l : tries) (idx : Z) : Prop := {
  tk_from : triedFrom l idx;
  tk_idx : tl_idx l = (idx + zlen (tl_tried l)) mod 2 ^ 32;
  tk_n : tl_n l = count (tl_addrs l) - zlen (tl_tried l);
  tk_nonneg : 0 <= tl_n l
}.

Lemma triesOk_next l idx : triesOk l idx -> attempt (tl_addrs l) idx (zlen (tl_tried l)) = tl_addrs l !! Z.to_nat (tl_idx l mod tl_n l).
Proof. intros [_ E1 E2 _]. unfold attempt. by rewrite E1, E2. Qed.

Lemma triedFrom_snoc l idx a n :
  triesOk l idx -> tl_addrs l !! Z.to_nat (tl_idx l mod tl_n l) = Some a ->
  triedFrom (MkTries (tl_addrs l) n (tl_n l) (tl_deadline l) (tl_err l) (tl_tried l ++ [a])) idx.
Proof.
  intros T E i x L. cbn in *. apply lookup_app_Some in L as [L|[Li L]]; [by apply (tk_from _ _ T)|].
  apply list_lookup_singleton_Some in L as [Hi <-]. replace (Z.of_nat i) with (zlen (tl_tried l)) by lia. rewrite (triesOk_next _ _ T). done.
Qed.

Lemma triesOk_step l idx a err :
  triesOk l idx -> 0 < tl_n l -> tl_addrs l !! Z.to_nat (tl_idx l mod tl_n l) = Some a ->
  triesOk (MkTries (tl_addrs l) ((tl_idx l + 1) mod 2 ^ 32) (tl_n l - 1) (tl_deadline l) err (tl_tried l ++ [a])) idx.
Proof.
  intros T Hn E. pose proof (triedFrom_snoc l idx a (tl_idx l) T E) as F. destruct T as [_ E1 E2 E3]. split; cbn; [exact F|..|lia].
  - rewrite E1, Zplus_mod_idemp_l, length_app. cbn. f_equal. lia.
  - rewrite length_app. cbn. lia.
Qed.

(** The addresses that [dial] leaves out: an attempt reaches one less than the
    attempt before it. *)
Definition triedBy (addrs tried : list TCPAddr) (idx : Z) : Prop :=
  forall i a, tried !! i = Some a -> addrs !! Z.to_nat ((idx + Z.of_nat i) mod 2 ^ 32 mod (zlen addrs - Z.of_nat i)) = Some a.

Lemma last_not_tried addrs tried idx a :
  triedBy addrs tried idx -> length tried = length addrs -> NoDup addrs -> last addrs = Some a -> head tried <> Some a -> a ∉ tried.
Proof.
  intros At El Nd La Hf [i Hi]%list_elem_of_lookup. pose proof (lookup_lt_Some _ _ _ Hi) as Hl. apply At in Hi as Hp.
  rewrite last_lookup in La. pose proof (NoDup_lookup _ _ _ _ Nd Hp La) as Ep.
  pose proof (Z.mod_pos_bound ((idx + Z.of_nat i) mod 2 ^ 32) (zlen addrs - Z.of_nat i)).
  destruct i as [|i]; [|lia]. apply Hf. by rewrite head_lookup.
Qed.

Lemma tried_ends_first addrs tried idx : triedBy addrs tried idx -> length tried = length addrs -> last tried = head addrs.
Proof.
  intros At El. rewrite last_lookup, head_lookup. destruct (tried !! pred (length tried)) as [b|] eqn:Eb.
  - pose proof (lookup_lt_Some _ _ _ Eb). apply At in Eb. rewrite El in Eb. symmetry.
    replace (zlen addrs - Z.of_nat (pred (length addrs))) with 1 in Eb by lia. by rewrite Z.mod_1_r in Eb.
  - apply lookup_ge_None in Eb. destruct addrs; [done|cbn in *; lia].
Qed.

(** ** The invariant *)

(** The port of an address. *)
Definition askedPort (addr : bytes) : option Z :=
  match SplitHostPort addr with
  | inl (_, portS) => match Atoi portS with inl port => Some port | inr _ => None end
  | inr _ => None
  end.

Definition goodFor (addr : bytes) (addrs : list TCPAddr) : Prop := addrs <> [] /\ Forall (fun a => askedPort addr = Some (ta_Port a)) addrs.

Lemma resolveTCPAddrs_good answer addr dual addrs : resolveTCPAddrs answer addr dual = inl addrs -> goodFor addr addrs.
Proof.
  unfold resolveTCPAddrs, goodFor, askedPort. destruct (SplitHostPort addr) as [[host portS]|]; [|done]. destruct (Atoi portS) as [port|]; [|done].
  destruct (answer host) as [l|]; [|done]. cbv zeta. set (f := map _ _). assert (Forall (fun a => Some port = Some (ta_Port a)) f) as F.
  { apply Forall_forall. intros a Ha. subst f. apply list_elem_of_In, in_map_iff in Ha as (x & <- & _). done. }
  destruct f; [done|]. intros [= <-]. done.
Qed.

Definition dialing (c : dialCall) : Z := match dc_stage c with DDial _ _ => 1 | _ => 0 end.

Definition resolving (c : dialCall) : bool := match dc_stage c with DResolve | DFailed _ | DStore _ => true | _ => false end.

(** The end of a call that has dialed: connected to the address tried last, out of
    time, or with the last error after [count] attempts. *)
Definition endOk (c : option TCPAddr) (err : option error) (l : tries) : Prop :=
  match c with
  | Some a => err = None /\ last (tl_tried l) = Some a
  | None => err = Some ErrDialTimeout \/ zlen (tl_tried l) = count (tl_addrs l) /\ (err = None -> tl_tried l = [])
  end.

Definition stageOk (entries : list tcpAddrEntry) (c : dialCall) : Prop :=
  match dc_stage c with
  | DStart | DResolve | DFailed _ => True
  | DStore e => goodFor (dc_addr c) (te_addrs e) /\ te_pending e = false
  | DIndex i => exists e, entries !! i = Some e /\ goodFor (dc_addr c) (te_addrs e)
  | DTry l => goodFor (dc_addr c) (tl_addrs l) /\ (exists idx, triesOk l idx) /\ (tl_err l = None -> tl_tried l = [])
  | DWait l => goodFor (dc_addr c) (tl_addrs l) /\ (exists idx, triesOk l idx) /\ 0 < tl_n l
  | DDial a l => goodFor (dc_addr c) (tl_addrs l) /\ (exists idx, triesOk l idx) /\ 0 < tl_n l /\ tl_addrs l !! Z.to_nat (tl_idx l mod tl_n l) = Some a
  | DEnd x err None => x = None /\ err <> None
  | DEnd x err (Some l) => goodFor (dc_addr c) (tl_addrs l) /\ (exists idx, triedFrom l idx) /\ zlen (tl_tried l) <= count (tl_addrs l) /\ endOk x err l
  end.

Record dialInv (C : Z) (s : dialer) : Prop := {
  dv_slots : dl_slots s = if 0 <? C then total dialing (dl_calls s) else 0;
  dv_bound : 0 < C -> dl_slots s <= C;
  dv_map : forall addr i, dl_map s !! addr = Some i -> exists e, dl_entries s !! i = Some e /\ goodFor addr (te_addrs e);
  dv_inj : forall addr addr' i, dl_map s !! addr = Some i -> dl_map s !! addr' = Some i -> addr = addr';
  dv_pending : forall addr i e, dl_map s !! addr = Some i -> dl_entries s !! i = Some e -> te_pending e = true ->
    exists t c, dl_calls s !! t = Some c /\ dc_addr c = addr /\ resolving c = true;
  dv_calls : forall t c, dl_calls s !! t = Some c -> stageOk (dl_entries s) c
}.

Section Steps.
Context (C D : Z).

Definition withStage (c : dialCall) (pc : dstage) : dialCall := MkDialCall (dc_addr c) (dc_dualStack c) (dc_timeout c) pc.

Lemma setStage_calls t pc s c : dl_calls s !! t = Some c -> dl_calls (setStage t pc s) = <[t := withStage c pc]> (dl_calls s).
Proof. intros L. unfold setStage. cbn. by rewrite L. Qed.

(** A call goes on, with or without a change of the slots. *)
Lemma dialInv_stage s t c pc v :
  dialInv C s -> dl_calls s !! t = Some c -> stageOk (dl_entries s) (withStage c pc) ->
  v = (if 0 <? C then dl_slots s - dialing c + dialing (withStage c pc) else 0) -> (0 < C -> v <= C) ->
  (resolving c = true -> resolving (withStage c pc) = true \/
     forall i e, dl_map s !! dc_addr c = Some i -> dl_entries s !! i = Some e -> te_pending e = false) ->
  dialInv C (setStage t pc (setSlots v s)).
Proof.
  intros [I1 I2 I3 I4 I5 I6] L K Ev Hv Hr. pose proof (setStage_calls t pc (setSlots v s) c L) as Ec. cbn [setSlots dl_calls] in Ec.
  split.
  - rewrite Ec. change (dl_slots (setStage t pc (setSlots v s))) with v. rewrite Ev. destruct (0 <? C) eqn:EC; [|done].
    rewrite I1, (total_insert _ _ _ c) by done. lia.
  - done.
  - done.
  - done.
  - rewrite Ec. intros addr i e Lm Le P. destruct (I5 addr i e Lm Le P) as (t' & c' & L' & Ea & R'). pose proof (lookup_lt_Some _ _ _ L) as Hl.
    destruct (decide (t' = t)) as [->|Dt].
    + assert (c' = c) as -> by congruence. destruct (Hr R') as [R|N]; [|rewrite Ea in N; by rewrite (N i e Lm Le) in P].
      exists t, (withStage c pc). by rewrite list_lookup_insert_eq.
    + exists t', c'. by rewrite list_lookup_insert_ne.
  - rewrite Ec. intros t' c' L'. apply list_lookup_insert_Some in L' as [(<- & <- & _)|[_ L']]; [done|by apply (I6 t')].
Qed.

Lemma setSlots_same s : setSlots (dl_slots s) s = s.
Proof. by destruct s. Qed.

(** A call that neither takes nor gives back a slot. *)
Lemma dialInv_goto s t c pc :
  dialInv C s -> dl_calls s !! t = Some c -> stageOk (dl_entries s) (withStage c pc) -> dialing c = dialing (withStage c pc) ->
  (resolving c = true -> resolving (withStage c pc) = true \/
     forall i e, dl_map s !! dc_addr c = Some i -> dl_entries s !! i = Some e -> te_pending e = false) ->
  dialInv C (setStage t pc s).
Proof.
  intros I L K Ed Hr. rewrite <- (setSlots_same s). apply (dialInv_stage s t c); [done..| | |done].
  - pose proof (dv_slots _ _ I). destruct (0 <? C); lia.
  - intros HC. by apply (dv_bound _ _ I).
Qed.

Lemma stageOk_entries entries entries' c :
  (forall i e, entries !! i = Some e -> exists e', entries' !! i = Some e' /\ te_addrs e' = te_addrs e) -> stageOk entries c -> stageOk entries' c.
Proof.
  intros H. unfold stageOk. destruct (dc_stage c); [done..| |done|done|done|done]. intros (x & L & G). destruct (H _ _ L) as (x' & L' & E).
  exists x'. by rewrite E.
Qed.

(** An entry keeps its addresses and is pending only with a resolver at work. *)
Lemma dialInv_entry s i e e' :
  dialInv C s -> dl_entries s !! i = Some e -> te_addrs e' = te_addrs e ->
  (te_pending e' = true -> te_pending e = true \/ forall addr, dl_map s !! addr = Some i -> exists t c, dl_calls s !! t = Some c /\ dc_addr c = addr /\ resolving c = true) ->
  dialInv C (setEntry i e' s).
Proof.
  intros [I1 I2 I3 I4 I5 I6] L Ea Hp. pose proof (lookup_lt_Some _ _ _ L) as Hl.
  assert (forall j x, dl_entries s !! j = Some x -> exists x', <[i:=e']> (dl_entries s) !! j = Some x' /\ te_addrs x' = te_addrs x) as H.
  { intros j x Lx. destruct (decide (i = j)) as [->|Dj]; [rewrite list_lookup_insert_eq by done; exists e'; split; [done|congruence]|].
    rewrite list_lookup_insert_ne by done. by exists x. }
  split; cbn; [done..| |done| |].
  - intros addr j Lm. destruct (I3 addr j Lm) as (x & Lx & G). destruct (H j x Lx) as (x' & Lx' & Ex). exists x'. by rewrite Ex.
  - intros addr j x Lm Lx P. apply list_lookup_insert_Some in Lx as [(<- & <- & _)|[_ Lx]]; [|by apply (I5 addr j x)].
    destruct (Hp P) as [P0|R]; [by apply (I5 addr i e)|by apply R].
  - intros t c Lc. by apply (stageOk_entries (dl_entries s)); [|apply (I6 t)].
Qed.

Lemma cached_Some addr s i e : cached addr s = Some (i, e) <-> dl_map s !! addr = Some i /\ dl_entries s !! i = Some e.
Proof.
  unfold cached. destruct (dl_map s !! addr) as [j|]; cbn; [|naive_solver]. destruct (dl_entries s !! j) as [x|] eqn:E; cbn; naive_solver.
Qed.

Lemma getTCPAddrs_inv s t c now :
  dialInv C s -> dl_calls s !! t = Some c -> dc_stage c = DStart -> dialInv C (getTCPAddrs D t (dc_addr c) now s).
Proof.
  intros I L Ec. unfold getTCPAddrs.
  assert (dialInv C (setStage t DResolve s)) as IR. { apply (dialInv_goto s t c); [done..| |]; unfold dialing, resolving; rewrite Ec; [done|done]. }
  destruct (cached (dc_addr c) s) as [[i e]|] eqn:E; [|done]. apply cached_Some in E as [Lm Le]. destruct (negb (te_pending e) && _).
  - change (dialInv C (setEntry i (set_te_pending true e) (setStage t DResolve s))). apply (dialInv_entry _ i e); [done..|]. intros _. right.
    intros addr La. exists t, (withStage c DResolve). rewrite (setStage_calls _ _ _ c L), list_lookup_insert_eq by (by eapply lookup_lt_Some).
    split; [done|]. split; [by apply (dv_inj _ _ I _ _ i)|done].
  - apply (dialInv_goto s t c); [done..| | |]; unfold dialing, resolving; rewrite ?Ec; [|done|done].
    destruct (dv_map _ _ I _ _ Lm) as (x & Lx & G). by exists x.
Qed.

Lemma resolveFailed_inv s t c err :
  dialInv C s -> dl_calls s !! t = Some c -> dc_stage c = DFailed err -> dialInv C (resolveFailed t (dc_addr c) err s).
Proof.
  intros I L Ec. unfold resolveFailed.
  set (s1 := match cached (dc_addr c) s with Some (i, e) => if te_pending e then setEntry i (set_te_pending false e) s else s | None => s end).
  assert (dialInv C s1 /\ dl_calls s1 = dl_calls s /\ forall i e, dl_map s1 !! dc_addr c = Some i -> dl_entries s1 !! i = Some e -> te_pending e = false) as (I1 & E1 & N).
  { subst s1. destruct (cached (dc_addr c) s) as [[i e]|] eqn:E.
    - apply cached_Some in E as [Lm Le]. destruct (te_pending e) eqn:P.
      + split; [by apply (dialInv_entry s i e)|]. split; [done|]. intros j x Lj Lx. cbn in Lj, Lx. assert (j = i) as -> by congruence.
        rewrite list_lookup_insert_eq in Lx by (by eapply lookup_lt_Some). by injection Lx as <-.
      + split; [done|]. split; [done|]. intros j x Lj Lx. congruence.
    - split; [done|]. split; [done|]. intros j x Lj Lx. exfalso. assert (cached (dc_addr c) s = Some (j, x)) by (by apply cached_Some). congruence. }
  apply (dialInv_goto s1 t c); [done|by rewrite E1|done|by unfold dialing; rewrite Ec|]. intros _. by right.
Qed.

Lemma storeEntry_inv s t c e :
  dialInv C s -> dl_calls s !! t = Some c -> dc_stage c = DStore e -> dialInv C (storeEntry t (dc_addr c) e s).
Proof.
  intros I L Ec. pose proof (dv_calls _ _ I t c L) as K. unfold stageOk in K. rewrite Ec in K. destruct K as [G Np]. unfold storeEntry.
  set (s1 := MkDialer _ _ _ _). assert (forall j x, dl_entries s !! j = Some x -> dl_entries s1 !! j = Some x) as Old.
  { intros j x Lx. cbn. by apply lookup_app_l_Some. }
  assert (dl_entries s1 !! length (dl_entries s) = Some e) as Le by (cbn; by rewrite lookup_app_r, Nat.sub_diag by done).
  assert (forall addr i, dl_map s !! addr = Some i -> i < length (dl_entries s))%nat as Fresh.
  { intros addr i Lm. destruct (dv_map _ _ I _ _ Lm) as (x & Lx & _). by eapply lookup_lt_Some. }
  assert (dialInv C s1) as I1.
  { destruct I as [I1 I2 I3 I4 I5 I6]. split; [done|done|..].
    - intros addr i Lm. cbn in Lm. apply lookup_insert_Some in Lm as [[<- <-]|[_ Lm]]; [by exists e|].
      destruct (I3 addr i Lm) as (x & Lx & Gx). exists x. split; [by apply Old|done].
    - intros a1 a2 i L1 L2. cbn in L1, L2. apply lookup_insert_Some in L1 as [[<- <-]|[_ L1]], L2 as [[<- E]|[_ L2]]; [done| | |by apply (I4 _ _ i)].
      + apply Fresh in L2. lia.
      + apply Fresh in L1. lia.
    - intros addr i x Lm Lx P. cbn in Lm. apply lookup_insert_Some in Lm as [[<- <-]|[_ Lm]]; [congruence|].
      apply (I5 addr i x Lm); [|done]. destruct (I3 addr i Lm) as (y & Ly & _). pose proof (Old _ _ Ly). congruence.
    - intros t' c' L'. apply (stageOk_entries (dl_entries s)); [|by apply (I6 t')]. intros j x Lx. exists x. split; [by apply Old|done]. }
  apply (dialInv_goto s1 t c); [done|done| |by unfold dialing; rewrite Ec|].
  - by exists e.
  - intros _. right. intros i x Lm Lx. cbn in Lm. rewrite lookup_insert_eq in Lm. injection Lm as <-. congruence.
Qed.

(** The stages of the loop are not resolving, and need no care about the cache. *)
Lemma dialInv_move s t c pc :
  dialInv C s -> dl_calls s !! t = Some c -> resolving c = false -> dialing c = dialing (withStage c pc) -> stageOk (dl_entries s) (withStage c pc) ->
  dialInv C (setStage t pc s).
Proof. intros I L R Ed K. apply (dialInv_goto s t c); [done..|]. rewrite R. done. Qed.

Lemma index_inv s t c i e now :
  dialInv C s -> dl_calls s !! t = Some c -> dc_stage c = DIndex i -> dl_entries s !! i = Some e ->
  let idx := (te_addrsIdx e + 1) mod 2 ^ 32 in
  dialInv C (setStage t (DTry (MkTries (te_addrs e) idx (zlen (te_addrs e) mod 2 ^ 32) (now + dc_timeout c) None [])) (setEntry i (set_te_addrsIdx idx e) s)).
Proof.
  intros I L Ec Le idx. pose proof (dv_calls _ _ I t c L) as K. unfold stageOk in K. rewrite Ec in K. destruct K as (x & Lx & G).
  assert (x = e) as -> by congruence. apply (dialInv_move _ t c); [|done|by unfold resolving; rewrite Ec|by unfold dialing; rewrite Ec|].
  - apply (dialInv_entry s i e); [done|done|done|]. intros P. by left.
  - split; [done|]. split; [|done]. exists idx. split; cbn.
    + intros j a Lj. by destruct j.
    + rewrite Z.add_0_r. unfold idx. by rewrite Z.mod_mod.
    + unfold count. lia.
    + pose proof (count_range (te_addrs e)). unfold count in *. lia.
Qed.

Lemma dial_slot s t c a l :
  dialInv C s -> dl_calls s !! t = Some c -> dialing c = 0 -> resolving c = false -> dl_slots s < C \/ C <= 0 ->
  stageOk (dl_entries s) (withStage c (DDial a l)) ->
  dialInv C (setStage t (DDial a l) (if 0 <? C then setSlots (dl_slots s + 1) s else s)).
Proof.
  intros I L Ed R Hs K. pose proof (dv_slots _ _ I) as E.
  assert ((if 0 <? C then setSlots (dl_slots s + 1) s else s) = setSlots (if 0 <? C then dl_slots s + 1 else 0) s) as ->.
  { destruct (0 <? C); [done|]. rewrite <- E. by rewrite setSlots_same. }
  apply (dialInv_stage s t c); [done|done|done| | |by rewrite R].
  - rewrite Ed. cbn. destruct (0 <? C); lia.
  - intros HC. destruct (Z.ltb_spec 0 C); lia.
Qed.

Lemma tryDial_inv s t c l now :
  dialInv C s -> dl_calls s !! t = Some c -> dc_stage c = DTry l -> match tryDial C t l now s with To s' => dialInv C s' | Panics => False | Blocked => True end.
Proof.
  intros I L Ec. pose proof (dv_calls _ _ I t c L) as K. unfold stageOk in K. rewrite Ec in K. destruct K as (G & (idx & T) & He).
  assert (resolving c = false /\ dialing c = 0) as [R Ed] by (unfold resolving, dialing; by rewrite Ec). destruct T as [T1 T2 T3 T4] eqn:ET. clear ET.
  assert (zlen (tl_tried l) <= count (tl_addrs l)) as Hc by lia. unfold tryDial. destruct (Z.leb_spec (tl_n l) 0) as [Hn|Hn].
  - apply (dialInv_move s t c); [done..|]. split; [done|]. split; [by exists idx|]. split; [done|]. right. split; [lia|done].
  - destruct (lookup_lt_is_Some_2 (tl_addrs l) (Z.to_nat (tl_idx l mod tl_n l))) as [a Ea].
    { pose proof (Z.mod_pos_bound (tl_idx l) (tl_n l) Hn). pose proof (count_range (tl_addrs l)). lia. }
    rewrite Ea. destruct (Z.leb_spec (- (now - tl_deadline l)) 0).
    { apply (dialInv_move s t c); [done..|]. split; [done|]. split; [by exists idx|]. split; [done|]. by left. }
    assert (stageOk (dl_entries s) (withStage c (DDial a l))) as Kd by (split; [done|]; split; [by exists idx|]; done).
    destruct (Z.leb_spec C 0) as [HC|HC].
    { pose proof (dial_slot s t c a l I L Ed R (or_intror HC) Kd) as H1. by rewrite (proj2 (Z.ltb_ge _ _)) in H1. }
    destruct (Z.ltb_spec (dl_slots s) C) as [Hs|Hs].
    { pose proof (dial_slot s t c a l I L Ed R (or_introl Hs) Kd) as H1. by rewrite (proj2 (Z.ltb_lt _ _)) in H1. }
    apply (dialInv_move s t c); [done..|]. split; [done|]. split; [by exists idx|done].
Qed.

Lemma takeSlot_inv s t c l :
  dialInv C s -> dl_calls s !! t = Some c -> dc_stage c = DWait l -> match takeSlot C t l s with To s' => dialInv C s' | Panics => False | Blocked => True end.
Proof.
  intros I L Ec. pose proof (dv_calls _ _ I t c L) as K. unfold stageOk in K. rewrite Ec in K. destruct K as (G & (idx & T) & Hn).
  unfold takeSlot. destruct (Z.ltb_spec (dl_slots s) C) as [Hs|]; [|done].
  destruct (lookup_lt_is_Some_2 (tl_addrs l) (Z.to_nat (tl_idx l mod tl_n l))) as [a Ea].
  { pose proof (Z.mod_pos_bound (tl_idx l) (tl_n l) Hn). pose proof (count_range (tl_addrs l)). destruct T. lia. }
  rewrite Ea. assert (resolving c = false /\ dialing c = 0) as [R Ed] by (unfold resolving, dialing; by rewrite Ec).
  assert (0 < C) as HC. { pose proof (dv_slots _ _ I). destruct (Z.ltb_spec 0 C); [done|lia]. }
  pose proof (dial_slot s t c a l I L Ed R (or_introl Hs)) as H1. rewrite (proj2 (Z.ltb_lt _ _)) in H1 by done. apply H1.
  split; [done|]. split; [by exists idx|]. done.
Qed.

Lemma dialed_inv s t c a l answer expired :
  dialInv C s -> dl_calls s !! t = Some c -> dc_stage c = DDial a l -> dialInv C (dialed C t a l answer expired s).
Proof.
  intros I L Ec. pose proof (dv_calls _ _ I t c L) as K. unfold stageOk in K. rewrite Ec in K. destruct K as (G & (idx & T) & Hn & Ea).
  pose proof (dv_slots _ _ I) as E. unfold dialed.
  assert ((if 0 <? C then setSlots (dl_slots s - 1) s else s) = setSlots (if 0 <? C then dl_slots s - 1 else 0) s) as ->.
  { destruct (0 <? C); [done|]. rewrite <- E. by rewrite setSlots_same. }
  assert (resolving c = false /\ dialing c = 1) as [R Ed] by (unfold resolving, dialing; by rewrite Ec).
  assert (forall pc, dialing (withStage c pc) = 0 -> stageOk (dl_entries s) (withStage c pc) -> dialInv C (setStage t pc (setSlots (if 0 <? C then dl_slots s - 1 else 0) s))) as Move.
  { intros pc E0 K. apply (dialInv_stage s t c); [done|done|done| | |by rewrite R].
    - rewrite Ed, E0. destruct (0 <? C); lia.
    - intros HC. pose proof (dv_bound _ _ I HC). destruct (Z.ltb_spec 0 C); lia. }
  pose proof (triedFrom_snoc l idx a (tl_idx l) T Ea) as F. cbv zeta. cbn [tl_addrs tl_idx tl_n tl_deadline tl_err tl_tried].
  assert (zlen (tl_tried l ++ [a]) <= count (tl_addrs l)) as Hc by (destruct T; rewrite length_app; cbn; lia).
  assert (forall err, err = Some ErrDialTimeout -> stageOk (dl_entries s) (withStage c (DEnd None err (Some (MkTries (tl_addrs l) (tl_idx l) (tl_n l) (tl_deadline l) (tl_err l) (tl_tried l ++ [a])))))) as Out.
  { intros err ->. split; [done|]. split; [by exists idx|]. split; [done|]. by left. }
  destruct answer as [err|].
  - destruct expired; [apply Move; [done|by apply Out]|]. case_decide as De; [apply Move; [done|apply Out; by rewrite De]|].
    apply Move; [done|]. split; [done|]. split; [exists idx; by apply triesOk_step|done].
  - apply Move; [done|]. split; [done|]. split; [by exists idx|]. split; [done|]. split; [done|]. cbn. apply last_snoc.
Qed.
End Steps.

Section Reach.
Context (C D : Z).

Lemma dialInv_new : dialInv C newDialer.
Proof. split; cbn; [by destruct (0 <? C)|lia|..]; intros *; try by rewrite lookup_empty. by rewrite lookup_nil. Qed.

Lemma dialInv_call s addr dual timeout :
  dialInv C s -> dialInv C (MkDialer (dl_map s) (dl_entries s) (dl_slots s) (dl_calls s ++ [MkDialCall addr dual timeout DStart])).
Proof.
  intros [I1 I2 I3 I4 I5 I6]. split; cbn; [|done|done|done|..].
  - rewrite I1, total_app. destruct (0 <? C); [cbn; lia|done].
  - intros a i e Lm Le P. destruct (I5 a i e Lm Le P) as (t & c & L & R). exists t, c. split; [by apply lookup_app_l_Some|done].
  - intros t c L. apply lookup_app_Some in L as [L|[_ L]]; [by apply (I6 t)|]. apply list_lookup_singleton_Some in L as [_ <-]. done.
Qed.

Lemma dialInv_clean s now : dialInv C s -> dialInv C (tcpAddrsClean D now s).
Proof.
  intros [I1 I2 I3 I4 I5 I6]. split; cbn; [done|done|..|done].
  - intros addr i Lm. apply map_lookup_filter_Some in Lm as [Lm _]. by apply I3.
  - intros a1 a2 i L1 L2. apply map_lookup_filter_Some in L1 as [L1 _], L2 as [L2 _]. by apply (I4 _ _ i).
  - intros addr i e Lm. apply map_lookup_filter_Some in Lm as [Lm _]. by apply I5.
Qed.

Lemma stepDial_inv s t c a :
  dialInv C s -> dl_calls s !! t = Some c -> match stepDial C D t c a s with To s' => dialInv C s' | Panics => False | Blocked => True end.
Proof.
  intros I L. unfold stepDial. pose proof (dv_calls _ _ I t c L) as K. unfold stageOk in K. destruct (dc_stage c) eqn:Ec, a; try done.
  - by apply getTCPAddrs_inv.
  - destruct (resolveTCPAddrs answer (dc_addr c) (dc_dualStack c)) as [addrs|err] eqn:Er; apply (dialInv_goto C s t c);
      try done; unfold dialing, resolving; rewrite ?Ec; try done; try (by left).
    split; [by apply (resolveTCPAddrs_good answer _ (dc_dualStack c))|done].
  - by apply (resolveFailed_inv C).
  - by apply (storeEntry_inv C).
  - destruct K as (x & Lx & G). rewrite Lx. by apply (index_inv C).
  - by apply (tryDial_inv C s t c).
  - by apply (takeSlot_inv C s t c).
  - apply (dialInv_move C s t c); [done|done|by unfold resolving; rewrite Ec|by unfold dialing; rewrite Ec|].
    destruct K as (G & (idx & T) & Hn). split; [done|]. split; [exists idx; by destruct T|]. split; [destruct T; lia|]. by left.
  - by apply (dialed_inv C s t c).
Qed.

Lemma dialInv_step s t a :
  dialInv C s -> match step (Machine := dial_machine C D) t a s with To s' => dialInv C s' | Panics => False | Blocked => True end.
Proof.
  intros I. unfold step, dial_machine.
  destruct a; try (destruct (dl_calls s !! t) as [c|] eqn:L; [by apply stepDial_inv|done]); [by apply dialInv_call|by apply dialInv_clean].
Qed.

Lemma dial_reachable s : reachable (H := dial_machine C D) newDialer s -> dialInv C s.
Proof.
  apply (reachable_invariant (H := dial_machine C D) (dialInv C)); [apply dialInv_new|].
  intros t a s1 s2 I E. pose proof (dialInv_step s1 t a I) as H. by rewrite E in H.
Qed.

(** ** Every call ends *)

(** A bound for the steps a call has left. *)
Definition stepsLeft (c : dialCall) : Z :=
  match dc_stage c with
  | DStart => 2 ^ 40 + 3
  | DResolve => 2 ^ 40 + 2
  | DFailed _ | DStore _ => 2 ^ 40 + 1
  | DIndex _ => 2 ^ 40
  | DTry l => 3 * tl_n l + 3
  | DWait l => 3 * tl_n l + 2
  | DDial _ l => 3 * tl_n l + 1
  | DEnd _ _ _ => 0
  end.

(** What to do for a step of a call: the environment answers, the timer fires. *)
Definition goOn (c : dialCall) : dact :=
  match dc_stage c with
  | DResolve => DResolved (fun _ => inr EOF) 0
  | DWait _ => DTimer
  | DDial _ _ => DDialed None false
  | _ => DGo 0
  end.

Lemma setStage_at t pc s c : dl_calls s !! t = Some c -> dl_calls (setStage t pc s) !! t = Some (withStage c pc).
Proof. intros L. rewrite (setStage_calls t pc s c L). apply list_lookup_insert_eq. by eapply lookup_lt_Some. Qed.

(** The stage that follows, in the state it is reached in. *)
Lemma stepDial_stage s s' t c a :
  dialInv C s -> dl_calls s !! t = Some c -> stepDial C D t c a s = To s' -> exists c', dl_calls s' !! t = Some c' /\ 0 <= stepsLeft c' < stepsLeft c.
Proof.
  intros I L. pose proof (dv_calls _ _ I t c L) as K. unfold stageOk in K.
  assert (forall s1 pc, dl_calls s1 = dl_calls s -> 0 <= stepsLeft (withStage c pc) < stepsLeft c ->
    exists c', dl_calls (setStage t pc s1) !! t = Some c' /\ 0 <= stepsLeft c' < stepsLeft c) as Go.
  { intros s1 pc E1 H. exists (withStage c pc). split; [apply setStage_at; by rewrite E1|done]. }
  unfold stepDial. destruct (dc_stage c) eqn:Ec, a; try done.
  - intros [= <-]. unfold getTCPAddrs. unfold stepsLeft. rewrite Ec. destruct (cached (dc_addr c) s) as [[i e]|]; [destruct (_ && _)|];
      (eexists; split; [apply setStage_at; done|cbn; lia]).
  - destruct (resolveTCPAddrs _ _ _); intros [= <-]; (apply Go; [done|unfold stepsLeft; rewrite Ec; cbn; lia]).
  - intros [= <-]. unfold resolveFailed. apply Go; [|unfold stepsLeft; rewrite Ec; cbn; lia]. destruct (cached (dc_addr c) s) as [[i x]|]; [destruct (te_pending x)|]; done.
  - intros [= <-]. unfold storeEntry. (apply Go; [done|unfold stepsLeft; rewrite Ec; cbn; lia]).
  - destruct (dl_entries s !! e) as [x|]; [|done]. intros [= <-]. apply Go; [done|]. unfold stepsLeft. rewrite Ec. cbn. pose proof (Z.mod_pos_bound (zlen (te_addrs x)) (2 ^ 32)). lia.
  - destruct K as (_ & (idx & T) & _). destruct T. unfold tryDial. destruct (tl_n l <=? 0); [intros [= <-]; (apply Go; [done|unfold stepsLeft; rewrite Ec; cbn; lia])|].
    destruct (tl_addrs _ !! _); [|done]. destruct (- (now - tl_deadline l) <=? 0); [|destruct (C <=? 0); [|destruct (_ <? C)]]; intros [= <-]; (apply Go; [done|unfold stepsLeft; rewrite Ec; cbn; lia]).
  - destruct K as (_ & (idx & T) & _). destruct T. unfold takeSlot. destruct (_ <? _); [|done]. destruct (tl_addrs _ !! _); [|done]. intros [= <-]. (apply Go; [done|unfold stepsLeft; rewrite Ec; cbn; lia]).
  - destruct K as (_ & (idx & T) & _). destruct T. intros [= <-]. (apply Go; [done|unfold stepsLeft; rewrite Ec; cbn; lia]).
  - destruct K as (_ & (idx & T) & Hn & _). destruct T. intros [= <-]. unfold dialed. destruct answer; [destruct expired; [|case_decide]|]; (apply Go; [by destruct (0 <? C)|unfold stepsLeft; rewrite Ec; cbn; lia]).
Qed.

(** The steps of others do not touch a call. *)
Lemma dial_others s s' t t' a c :
  t <> t' -> dl_calls s !! t = Some c -> step (Machine := dial_machine C D) t' a s = To s' -> dl_calls s' !! t = Some c.
Proof.
  intros Dt L. assert (forall pc s1, dl_calls s1 = dl_calls s -> dl_calls (setStage t' pc s1) !! t = Some c) as Keep.
  { intros pc s1 E1. unfold setStage. cbn. rewrite E1. destruct (dl_calls s !! t'); [by rewrite list_lookup_insert_ne|done]. }
  unfold step, dial_machine. destruct a; try (intros [= <-]; cbn; by first [done|apply lookup_app_l_Some]);
    (destruct (dl_calls s !! t') as [c'|] eqn:L'; [|done]); unfold stepDial, getTCPAddrs, resolveFailed, storeEntry, tryDial, takeSlot, dialed;
    destruct (dc_stage c'); try done; repeat case_match; try done; intros [= <-]; apply Keep; done.
Qed.

Lemma goOn_step s t c : dialInv C s -> dl_calls s !! t = Some c -> 0 < stepsLeft c -> exists s', step (Machine := dial_machine C D) t (goOn c) s = To s'.
Proof.
  intros I L H. pose proof (stepDial_inv s t c (goOn c) I L) as K.
  assert (step (Machine := dial_machine C D) t (goOn c) s = stepDial C D t c (goOn c) s) as ->.
  { unfold step, dial_machine, goOn. destruct (dc_stage c); by rewrite L. }
  destruct (stepDial C D t c (goOn c) s) as [| |s'] eqn:E; [exfalso|done|by exists s']. clear K. unfold stepDial, goOn, stepsLeft in *.
  destruct (dc_stage c) eqn:Ec; try done.
  - by destruct (resolveTCPAddrs _ _ _).
  - by destruct (dl_entries s !! e).
  - unfold tryDial in E. repeat case_match; done.
Qed.
End Reach.

(** * Properties *)

(** With a limit, the calls that are dialing at any time are at most Concurrency,
    and each of them holds one of the slots that are taken: every slot is given
    back when its dialing ends, however it ends. *)
Lemma dial_concurrency (C D : Z) (s : dialer) (HC : 0 < C) (R : reachable (H := dial_machine C D) newDialer s) :
  total dialing (dl_calls s) = dl_slots s /\ dl_slots s <= C.
Proof.
  pose proof (dial_reachable C D s R) as I. split; [|by apply (dv_bound _ _ I)].
  rewrite (dv_slots _ _ I), (proj2 (Z.ltb_lt 0 C)) by done. done.
Qed.

(** A call that has been dialing ends with a connection to the address it has
    tried last, with ErrDialTimeout, or with an error after as many attempts as
    there are addresses.  The addresses have the port that was asked for, and the
    [i]-th attempt goes to the one at [(idx + i) mod (n - i)]: which addresses that
    leaves out is [dial_misses_last] below. *)
Lemma dial_attempts (C D : Z) (s : dialer) (t : nat) (c : dialCall) (x : option TCPAddr) (err : option error) (l : tries)
    (R : reachable (H := dial_machine C D) newDialer s) (L : dl_calls s !! t = Some c) (E : dc_stage c = DEnd x err (Some l))
    (N : zlen (tl_addrs l) < 2 ^ 32) :
  (exists idx, forall i a, tl_tried l !! i = Some a -> tl_addrs l !! Z.to_nat ((idx + Z.of_nat i) mod 2 ^ 32 mod (zlen (tl_addrs l) - Z.of_nat i)) = Some a) /\
  Forall (fun a => askedPort (dc_addr c) = Some (ta_Port a)) (tl_addrs l) /\ zlen (tl_tried l) <= zlen (tl_addrs l) /\
  match x with
  | Some a => err = None /\ last (tl_tried l) = Some a
  | None => err = Some ErrDialTimeout \/ (exists e, err = Some e) /\ zlen (tl_tried l) = zlen (tl_addrs l)
  end.
Proof.
  pose proof (dv_calls _ _ (dial_reachable C D s R) t c L) as K. unfold stageOk in K. rewrite E in K. destruct K as ([Hn F] & (idx & T) & Hl & Eo).
  assert (count (tl_addrs l) = zlen (tl_addrs l)) as Ec by (unfold count; apply Z.mod_small; lia). rewrite Ec in Hl.
  split; [exists idx; intros i a Li; rewrite <- Ec; by apply T|]. split; [done|]. split; [done|].
  destruct x as [a|]; [done|]. destruct Eo as [Eo|[Eo He]]; [by left|right]. split; [|by rewrite <- Ec].
  destruct err as [e|]; [by exists e|]. rewrite (He eq_refl) in Eo. destruct (tl_addrs l); [done|cbn in *; lia].
Qed.

(** C40. The comment on Dial says that all the resolved addresses are dialed, in
    round-robin manner, until a connection is established; dial does not do so.  It
    dials the last of its addresses first or never: when a call that began with
    another address has failed in all its attempts, as many as there are addresses,
    it returns an error with the last address never dialed, some other one dialed
    twice, and the first address dialed at the end whether or not it had been
    before.  The addresses are different ones, fewer than 2^32. *)
Theorem dial_misses_last (C D : Z) (s : dialer) (t : nat) (c : dialCall) (err : error) (l : tries) (a : TCPAddr)
    (R : reachable (H := dial_machine C D) newDialer s) (L : dl_calls s !! t = Some c) (E : dc_stage c = DEnd None (Some err) (Some l))
    (Ht : err <> ErrDialTimeout) (N : zlen (tl_addrs l) < 2 ^ 32) (Nd : NoDup (tl_addrs l))
    (La : last (tl_addrs l) = Some a) (Hf : head (tl_tried l) <> Some a) :
  a ∉ tl_tried l /\ length (tl_tried l) = length (tl_addrs l) /\ ~ NoDup (tl_tried l) /\ last (tl_tried l) = head (tl_addrs l).
Proof.
  destruct (dial_attempts C D s t c None (Some err) l R L E N) as ((idx & At) & _ & _ & Eo).
  destruct Eo as [[= ->]|(_ & En)]; [done|]. assert (length (tl_tried l) = length (tl_addrs l)) as El by lia.
  assert (a ∉ tl_tried l) as Na by (by eapply last_not_tried). split_and!; [done..| |by eapply tried_ends_first].
  intros Ndt. pose proof (last_Some_elem_of _ _ La) as Ha. apply last_Some in La as [l' El']. rewrite El' in *.
  assert (tl_tried l ⊆+ l') as Hs; [|apply submseteq_length in Hs; rewrite El, length_app in Hs; cbn in Hs; lia].
  apply NoDup_submseteq; [done|]. intros b Hb. apply list_elem_of_lookup in Hb as [i Hi]. pose proof (At i b Hi) as Hb.
  apply list_elem_of_lookup_2, elem_of_app in Hb as [Hb|Hb%list_elem_of_singleton]; [done|]. subst b.
  by apply list_elem_of_lookup_2 in Hi.
Qed.

(** An entry of the cache that is marked as pending is being resolved by a call
    that will replace it or clear the mark: no entry goes on being used past its
    time with nobody at work on it. *)
Lemma pending_is_resolved (C D : Z) (s : dialer) (addr : bytes) (i : nat) (e : tcpAddrEntry)
    (R : reachable (H := dial_machine C D) newDialer s) (Lm : dl_map s !! addr = Some i) (Le : dl_entries s !! i = Some e) (P : te_pending e = true) :
  exists t c, dl_calls s !! t = Some c /\ dc_addr c = addr /\ resolving c = true.
Proof. by apply (dv_pending _ _ (dial_reachable C D s R) addr i e). Qed.

(** C16. Every call of dial ends: until then it has a step to take, whatever the
    others do, once the resolver or the network has answered or the timer has
    fired; each of its steps makes a bound smaller, which the steps of the others
    leave as it is. *)
Theorem dial_ends (C D : Z) (s : dialer) (t : nat) (c : dialCall)
    (R : reachable (H := dial_machine C D) newDialer s) (L : dl_calls s !! t = Some c) :
  (0 < stepsLeft c -> exists s', step (Machine := dial_machine C D) t (goOn c) s = To s') /\
  (stepsLeft c <= 0 -> exists x err l, dc_stage c = DEnd x err l) /\
  (forall a s', stepDial C D t c a s = To s' -> exists c', dl_calls s' !! t = Some c' /\ 0 <= stepsLeft c' < stepsLeft c) /\
  (forall t' a s', t <> t' -> step (Machine := dial_machine C D) t' a s = To s' -> dl_calls s' !! t = Some c) /\
  (forall t' a, step (Machine := dial_machine C D) t' a s <> Panics).
Proof.
  pose proof (dial_reachable C D s R) as I. split; [|split; [|split; [|split]]].
  - by apply goOn_step.
  - intros H. unfold stepsLeft in H. pose proof (dv_calls _ _ I t c L) as K. unfold stageOk in K.
    destruct (dc_stage c) as [| | | | |l|l|a l|]; try lia; [destruct K as (_ & (idx & T) & _); destruct T; lia..|by eexists _, _, _].
  - intros a s'. by apply stepDial_stage.
  - intros t' a s' Dt. by apply dial_others.
  - intros t' a E. pose proof (dialInv_step C D s t' a I) as H. by rewrite E in H.
Qed.

(** ** Runs *)

Definition loopback (n : Z) : IPAddr := MkIPAddr [127; 0; 0; n] [].
Definition threeHosts (_ : bytes) : list IPAddr + error := inl [loopback 1; loopback 2; loopback 3].

(** Two calls with one slot: the first one fails on every attempt it makes. *)
Definition dialRun : list (nat * dact) :=
  [(0, DCall (bs "h:80") false 10); (0, DGo 1); (0, DResolved threeHosts 1); (0, DGo 1); (0, DGo 1); (0, DGo 1);
   (1, DCall (bs "h:80") false 10); (1, DGo 2); (1, DGo 2); (1, DGo 2);
   (0, DDialed (Some EOF) false); (0, DGo 2); (0, DDialed (Some EOF) false); (0, DGo 2); (0, DDialed (Some EOF) false); (0, DGo 2);
   (1, DGo 3)]%nat.

Definition dialAfter : dialer := match run (H := dial_machine 1 0) dialRun newDialer with To s => s | _ => newDialer end.

Lemma dialAfter_reachable : reachable (H := dial_machine 1 0) newDialer dialAfter.
Proof. apply (run_reachable (H := dial_machine 1 0) dialRun). vm_compute. reflexivity. Qed.

Definition firstTries : tries :=
  match dl_calls dialAfter !! 0%nat with Some (MkDialCall _ _ _ (DEnd _ _ (Some l))) => l | _ => MkTries [] 0 0 0 None [] end.

(** The second and the third attempt both go to the first address, the third address
    is not dialed at all: the count is taken down while it is the modulus. *)
Lemma dial_skips_address :
  map ta_IP (tl_addrs firstTries) = [[127; 0; 0; 1]; [127; 0; 0; 2]; [127; 0; 0; 3]] /\
  map ta_IP (tl_tried firstTries) = [[127; 0; 0; 2]; [127; 0; 0; 1]; [127; 0; 0; 1]].
Proof. vm_compute. done. Qed.

Lemma dial_concurrency_witness : (0 < 1 /\ dl_slots dialAfter = 1) /\ total dialing (dl_calls dialAfter) = dl_slots dialAfter /\ dl_slots dialAfter <= 1.
Proof. split; [split; [lia|vm_compute; reflexivity]|]. apply (dial_concurrency 1 0 dialAfter ltac:(lia) dialAfter_reachable). Defined.

Lemma dial_attempts_witness :
  let c := MkDialCall (bs "h:80") false 10 (DEnd None (Some EOF) (Some firstTries)) in
  dl_calls dialAfter !! 0%nat = Some c /\
  Forall (fun a => askedPort (bs "h:80") = Some (ta_Port a)) (tl_addrs firstTries) /\
  (Some EOF = Some ErrDialTimeout \/ (exists e, Some EOF = Some e) /\ zlen (tl_tried firstTries) = zlen (tl_addrs firstTries)).
Proof.
  assert (dl_calls dialAfter !! 0%nat = Some (MkDialCall (bs "h:80") false 10 (DEnd None (Some EOF) (Some firstTries)))) as L by (vm_compute; reflexivity).
  assert (zlen (tl_addrs firstTries) < 2 ^ 32) as N by (vm_compute; reflexivity).
  pose proof (dial_attempts 1 0 dialAfter 0 _ None (Some EOF) firstTries dialAfter_reachable L eq_refl N) as T.
  exact (conj L (conj (proj1 (proj2 T)) (proj2 (proj2 (proj2 T))))).
Defined.

Lemma dial_misses_last_witness :
  (map ta_IP (tl_addrs firstTries) = [[127; 0; 0; 1]; [127; 0; 0; 2]; [127; 0; 0; 3]] /\ zlen (tl_tried firstTries) = 3) /\
  MkTCPAddr [127; 0; 0; 3] 80 [] ∉ tl_tried firstTries.
Proof.
  assert (dl_calls dialAfter !! 0%nat = Some (MkDialCall (bs "h:80") false 10 (DEnd None (Some EOF) (Some firstTries)))) as L by (vm_compute; reflexivity).
  assert (zlen (tl_addrs firstTries) < 2 ^ 32) as N by (vm_compute; reflexivity).
  assert (NoDup (tl_addrs firstTries)) as Nd by (apply (bool_decide_unpack _); vm_compute; exact I).
  assert (last (tl_addrs firstTries) = Some (MkTCPAddr [127; 0; 0; 3] 80 [])) as La by (vm_compute; reflexivity).
  assert (head (tl_tried firstTries) <> Some (MkTCPAddr [127; 0; 0; 3] 80 [])) as Hf by (vm_compute; discriminate).
  split; [split; vm_compute; reflexivity|].
  assert (EOF <> ErrDialTimeout) as Ht by discriminate.
  pose proof (dial_misses_last 1 0 dialAfter 0 _ EOF firstTries _ dialAfter_reachable L eq_refl Ht N Nd La Hf) as T. exact (proj1 T).
Defined.

(** A third call much later: the entry is out of date. *)
Definition staleRun : list (nat * dact) := (dialRun ++ [(2, DCall (bs "h:80") true 10); (2, DGo (10 ^ 12))])%nat.
Definition staleAfter : dialer := match run (H := dial_machine 1 0) staleRun newDialer with To s => s | _ => newDialer end.

Lemma staleAfter_reachable : reachable (H := dial_machine 1 0) newDialer staleAfter.
Proof. apply (run_reachable (H := dial_machine 1 0) staleRun). vm_compute. reflexivity. Qed.

Lemma pending_is_resolved_witness :
  (dl_map staleAfter !! bs "h:80" = Some 0%nat /\ te_pending <$> dl_entries staleAfter !! 0%nat = Some true) /\
  exists t c, dl_calls staleAfter !! t = Some c /\ dc_addr c = bs "h:80" /\ resolving c = true.
Proof.
  assert (dl_map staleAfter !! bs "h:80" = Some 0%nat) as Lm by (vm_compute; reflexivity).
  destruct (dl_entries staleAfter !! 0%nat) as [e|] eqn:Le; [|exfalso; vm_compute in Le; discriminate].
  assert (te_pending e = true) as P by (vm_compute in Le; injection Le as <-; reflexivity).
  split; [split; [exact Lm|cbn; rewrite P; reflexivity]|]. exact (pending_is_resolved 1 0 staleAfter (bs "h:80") 0 e staleAfter_reachable Lm Le P).
Defined.

Lemma dial_ends_witness :
  exists c1, dl_calls dialAfter !! 1%nat = Some c1 /\ 0 < stepsLeft c1 /\ exists s', step (Machine := dial_machine 1 0) 1 (goOn c1) dialAfter = To s'.
Proof.
  destruct (dl_calls dialAfter !! 1%nat) as [c1|] eqn:L; [|exfalso; vm_compute in L; discriminate]. exists c1. split; [reflexivity|].
  assert (0 < stepsLeft c1) as H by (vm_compute in L; injection L as <-; vm_compute; reflexivity).
  exact (conj H (proj1 (dial_ends 1 0 dialAfter 1 c1 dialAfter_reachable L) H)).
Defined.

(** The cache does not know which kind of addresses an entry has: a call for tcp4
    dials the IPv6 address a dual-stack call has left there. *)
Definition dualRun : list (nat * dact) :=
  [(0, DCall (bs "h:80") true 10); (0, DGo 1); (0, DResolved (fun _ : bytes => inl [MkIPAddr (replicate 15 0%Z ++ [1%Z]) []]) 1); (0, DGo 1);
   (1, DCall (bs "h:80") false 10); (1, DGo 1); (1, DGo 1); (1, DGo 1)]%nat.

Lemma cache_mixes_families :
  match run (H := dial_machine 0 0) dualRun newDialer with
  | To s => match dl_calls s !! 1%nat with Some (MkDialCall _ false _ (DDial a _)) => Some (To4 (ta_IP a)) | _ => None end
  | _ => None
  end = Some None.
Proof. vm_compute. reflexivity. Qed.
