(* ===== verification/Proxy.v ===== *)
(** * fasthttpproxy: connections through a proxy

    The dialers for HTTP proxies: the CONNECT request, with the credentials in
    base64, the answer, and what becomes of the connection.  What the network
    answers is an argument, so is the function that chooses a proxy from the
    environment, which is not in the repository.  The connection handed out is what
    is left to read of it: a bufio.Reader has been put between, and is dropped. *)
From Stdlib Require Import Strings.String.
From stdpp Require Import list_tactics.
From S2P Require Import Prelude BytesConv Consts Args HeaderScan RequestHeader ResponseHeader Bufio Body HeaderRead Http Dialer.

(** ** encoding/base64, strings.Split *)

Definition encodeStd : bytes := bs "ABCDEFGHIJKLMNOPQRSTUVWXYZabcdefghijklmnopqrstuvwxyz0123456789+/".
Definition digit64 (n : Z) : byte := nth (Z.to_nat (Z.land n 63)) encodeStd "="%byte.

Fixpoint EncodeToString (b : bytes) : bytes :=
  match b with
  | [] => []
  | [x] => let v := Z.shiftl (bz x) 16 in [digit64 (Z.shiftr v 18); digit64 (Z.shiftr v 12); "="%byte; "="%byte]
  | [x; y] => let v := Z.lor (Z.shiftl (bz x) 16) (Z.shiftl (bz y) 8) in [digit64 (Z.shiftr v 18); digit64 (Z.shiftr v 12); digit64 (Z.shiftr v 6); "="%byte]
  | x :: y :: z :: b =>
      let v := Z.lor (Z.lor (Z.shiftl (bz x) 16) (Z.shiftl (bz y) 8)) (bz z) in
      digit64 (Z.shiftr v 18) :: digit64 (Z.shiftr v 12) :: digit64 (Z.shiftr v 6) :: digit64 v :: EncodeToString b
  end.

(** The pieces between the separators. *)
Fixpoint Split (b : bytes) (sep : byte) : list bytes :=
  match b with
  | [] => [[]]
  | c :: b => if decide (c = sep) then [] :: Split b sep else match Split b sep with p :: l => (c :: p) :: l | [] => [[c]] end
  end.

(** ** Dialing *)

(** What the network does: the error of dialing, that of Write, what the proxy
    sends, the error of Close. *)
Record proxyNet := MkProxyNet { pn_dial : option error; pn_write : option error; pn_peer : source; pn_close : option error }.

(** What came of a call: what was dialed and with which timeout, the request that
    was written, what there is to read from the connection handed out, whether the
    connection was closed, the error. *)
Record proxied := MkProxied { px_dialed : option (bytes * Z); px_sent : bytes; px_conn : option source; px_closed : bool; px_err : option error }.

Definition connectRequest (addr : bytes) (auth : bytes) : bytes :=
  bs "CONNECT " ++ addr ++ bs " HTTP/1.1" ++ strCRLF ++
  (if decide (auth = []) then [] else bs "Proxy-Authorization: Basic " ++ auth ++ strCRLF) ++ strCRLF.

(** The timeout 0 stands for fasthttp.Dial. *)
Definition dialTimeout (timeout : Z) : Z := if timeout =? 0 then DefaultDialTimeout else timeout.

Section Proxy.
Context `{HttpLib}.

(** From the request on; [closeErr]: the error of Close is reported in place of
    what was found. *)
Definition connect (w : proxyNet) (dialed : bytes * Z) (req : bytes) (reportClose : bool) (refused : error) : option proxied :=
  match pn_dial w with
  | Some err => Some (MkProxied (Some dialed) [] None false (Some err))
  | None =>
      match pn_write w with
      | Some err => Some (MkProxied (Some dialed) req None false (Some err))
      | None =>
          let res := set_resp_SkipBody true emptyResponse in
          let failed err := Some (MkProxied (Some dialed) req None true (Some match pn_close w with Some e => if reportClose then e else err | None => err end)) in
          '(res, r, err) ← Response_Read res (newReader 4096 (pn_peer w));
          match err with
          | Some err => failed err
          | None =>
              if ResponseHeader_StatusCode (resp_Header res) =? 200 then Some (MkProxied (Some dialed) req (Some (r_src r)) false None)
              else failed refused
          end
      end
  end.

(** FasthttpHTTPDialerTimeout: the proxy and its credentials. *)
Definition proxyAuth (proxy : bytes) : bytes * bytes :=
  if decide ("@"%byte ∈ proxy) then
    let split := Split proxy "@" in (nth 1 split [], EncodeToString (nth 0 split []))
  else (proxy, []).

Definition FasthttpHTTPDialerTimeout (proxy : bytes) (timeout : Z) (w : proxyNet) (addr : bytes) : option proxied :=
  let '(proxy, auth) := proxyAuth proxy in
  connect w (proxy, dialTimeout timeout) (connectRequest addr auth) false (Errorf "could not connect to proxy: %s status code: %d").

Definition FasthttpHTTPDialer (proxy : bytes) := FasthttpHTTPDialerTimeout proxy 0.

(** ** Proxies from the environment *)

(** A url.URL of a proxy: its host, the string of its user. *)
Record proxyURL := MkProxyURL { pu_Host : bytes; pu_User : option bytes }.

(** The encoded credentials kept for http and https. *)
Record barriers := MkBarriers { ba_http : option bytes; ba_https : option bytes }.

(** FasthttpProxyHTTPDialerTimeout: [None] in the second place is the panic of
    the type assertion on auth, by which time the storage has been written. *)
Definition FasthttpProxyHTTPDialerTimeout (proxier : bool -> bytes -> option proxyURL + error) (timeout : Z) (st : barriers) (w : proxyNet) (addr : bytes)
  : barriers * option proxied :=
  match SplitHostPort addr with
  | inr err => (st, Some (MkProxied None [] None false (Some (Errorf "unexpected addr format: %v"))))
  | inl (port, _) =>
      let isTLS := bool_decide (port = bs "443") in
      match proxier isTLS addr with
      | inr err => (st, Some (MkProxied None [] None false (Some err)))
      | inl None =>
          (st, Some match pn_dial w with
                    | Some err => MkProxied (Some (addr, dialTimeout timeout)) [] None false (Some err)
                    | None => MkProxied (Some (addr, dialTimeout timeout)) [] (Some (pn_peer w)) false None
                    end)
      | inl (Some u) =>
          let go auth := connect w (pu_Host u, dialTimeout timeout) (connectRequest addr auth) true (Errorf "could not connect to proxy: code: %d body %s") in
          match pn_dial w, pu_User u with
          | Some err, _ => (st, go [])
          | None, None => (st, go [])
          | None, Some user =>
              match (if isTLS then ba_https st else ba_http st) with
              | Some auth => (st, go auth)
              | None =>
                  let auth := EncodeToString user in
                  ((if isTLS then MkBarriers (ba_http st) (Some auth) else MkBarriers (Some auth) (ba_https st)), None)
              end
          end
      end
  end.

Definition FasthttpProxyHTTPDialer (proxier : bool -> bytes -> option proxyURL + error) := FasthttpProxyHTTPDialerTimeout proxier 0.
End Proxy.

(** ** What is handed out *)

Section Results.
Context `{HttpLib}.

(** A connection is handed out only after a status 200, open and without an error;
    otherwise there is an error, and the connection is closed unless dialing or
    writing failed. *)
Lemma connect_result w d req reportClose refused o :
  connect w d req reportClose refused = Some o ->
  match px_conn o with
  | Some s => px_err o = None /\ px_closed o = false /\ px_sent o = req /\
      exists res r, Response_Read (set_resp_SkipBody true emptyResponse) (newReader 4096 (pn_peer w)) = Some (res, r, None) /\
        ResponseHeader_StatusCode (resp_Header res) = 200 /\ s = r_src r
  | None => px_err o <> None /\ (px_closed o = true \/ pn_dial w <> None \/ pn_write w <> None)
  end.
Proof.
  unfold connect. destruct (pn_dial w) as [err|]; [intros [= <-]; cbn; split; [done|right; by left]|].
  destruct (pn_write w) as [err|]; [intros [= <-]; cbn; split; [done|right; by right]|].
  destruct (Response_Read _ _) as [[[res r] [err|]]|] eqn:E; cbn -[Response_Read]; [|case_match|done]; intros [= <-]; cbn -[Response_Read].
  - split; [done|by left].
  - split; [done|]. split; [done|]. split; [done|]. exists res, r. split; [done|]. split; [by apply Z.eqb_eq|done].
  - split; [done|by left].
Qed.
End Results.

#[local] Existing Instance plainLib.

Definition smtpProxy : proxyNet := MkProxyNet None None (MkSource [bs "HTTP/1.1 200 OK" ++ strCRLF ++ strCRLF ++ bs "220 smtp ready"] EOF) None.

(** What comes with the answer of the proxy is in the buffer of the bufio.Reader,
    which is dropped: a server that speaks first is not heard. *)
Lemma proxy_drops_buffered :
  option_map px_conn (FasthttpHTTPDialer (bs "u:p@proxy:80") smtpProxy (bs "mail:25")) = Some (Some (MkSource [] EOF)).
Proof. vm_compute. reflexivity. Qed.

(** The credentials and the rest of an address are taken apart at every @. *)
Lemma proxyAuth_splits_password : proxyAuth (bs "user:p@ss@proxy:80") = (bs "ss", EncodeToString (bs "user:p")).
Proof. vm_compute. reflexivity. Qed.

(** The connection stays open when the request cannot be written. *)
Lemma proxy_write_error_leaks :
  option_map (fun o => (px_closed o, px_err o)) (FasthttpHTTPDialer (bs "proxy:80") (MkProxyNet None (Some EOF) (MkSource [] EOF) None) (bs "mail:25")) = Some (false, Some EOF).
Proof. vm_compute. reflexivity. Qed.

Definition envProxy (tls : bool) (_ : bytes) : option proxyURL + error :=
  inl (Some (MkProxyURL (if tls then bs "secure:80" else bs "clear:80") (Some (bs "user:pass")))).

(** With credentials the first call panics; the second one finds them stored.  The
    host is compared with 443, so the proxy for https is never asked for. *)
Lemma envProxy_first_call_panics :
  let '(st, o) := FasthttpProxyHTTPDialer envProxy (MkBarriers None None) smtpProxy (bs "example.com:443") in
  o = None /\ st = MkBarriers (Some (EncodeToString (bs "user:pass"))) None /\
  option_map px_dialed (snd (FasthttpProxyHTTPDialer envProxy st smtpProxy (bs "example.com:443"))) = Some (Some (bs "clear:80", DefaultDialTimeout)).
Proof. vm_compute. done. Qed.
