(* ===== verification/Prefork.v ===== *)
(** * prefork/prefork.go: a master process and its children

    The master started by Prefork.prefork as a machine: it starts a child for each
    processor, and another one for each that has exited, until more than
    RecoverThreshold have; every child has a goroutine that waits for it and tells
    the master.  The process numbers are chosen by the operating system, as is
    whether a process can be started. *)
From Stdlib Require Import Strings.String.
From stdpp Require Import gmap relations list_tactics.
From S2P Require Import Prelude Machine.

Definition ErrOverRecovery : error := Errorf "exceeding the value of RecoverThreshold".
Definition ErrOnlyReuseportOnWindows : error := Errorf "windows only supports Reuseport = true".

(** IsChild, of os.Args. *)
Definition preforkChildFlag : bytes := bs "-prefork-child".
Definition IsChild (args : list bytes) : bool := existsb (fun arg => bool_decide (arg = preforkChildFlag)) (drop 1 args).

(** The arguments a child is started with. *)
Definition doCommand_args (args : list bytes) : list bytes := args ++ [preforkChildFlag].

(** A child: running, killed and about to exit, exited with its goroutine about to
    send, or its end told. *)
Inductive childState := Running | Killed | Exited | Told.

#[export] Instance childState_eq_dec : EqDecision childState.
Proof. solve_decision. Defined.

Record child := MkChild { ch_pid : Z; ch_state : childState }.

(** The master: before it opens the listener, the first loop, with the number of
    children still to start, waiting for an exit, restarting, in the deferred
    functions, returned. *)
Inductive mstage :=
| MStart
| MFork (k : nat)
| MWait
| MRestart
| MKill (err : option error)
| MClose (err : option error)
| MReturned (err : option error).

(** [pf_childProcs]: the map from process numbers to commands, the numbers of the
    children; [pf_sigCh] has the process numbers. *)
Record preforkState := MkPrefork {
  pf_stage : mstage;
  pf_listening : bool;
  pf_children : list child;
  pf_childProcs : gmap Z nat;
  pf_sigCh : list Z;
  pf_exited : Z
}.

(** Steps of the master with what it is told: an error of opening the listener (and
    whether the socket is open by then), a process number or an error of Start; a
    child exits, or its goroutine sends. *)
Inductive pfact :=
| PListen (err : option error) (opened : bool)
| PStarted (answer : Z + error)
| PGo
| PExit (i : nat)
| PTell (i : nat).

Section Prefork.
(** Reuseport, RecoverThreshold and GOMAXPROCS. *)
Context (Reuseport : bool) (RecoverThreshold : Z) (goMaxProcs : nat).

Definition setMaster (pc : mstage) (s : preforkState) : preforkState :=
  MkPrefork pc (pf_listening s) (pf_children s) (pf_childProcs s) (pf_sigCh s) (pf_exited s).

(** doCommand and what follows it. *)
Definition addChild (pid : Z) (s : preforkState) : preforkState :=
  MkPrefork (pf_stage s) (pf_listening s) (pf_children s ++ [MkChild pid Running]) (<[pid := length (pf_children s)]> (pf_childProcs s)) (pf_sigCh s) (pf_exited s).

Definition kill (c : child) : child := MkChild (ch_pid c) match ch_state c with Running => Killed | st => st end.

(** The deferred loop over childProcs. *)
Definition inMap (i : nat) (s : preforkState) : bool := existsb (fun kv => bool_decide (snd kv = i)) (map_to_list (pf_childProcs s)).
Definition killAll (s : preforkState) : preforkState :=
  MkPrefork (pf_stage s) (pf_listening s) (imap (fun i c => if inMap i s then kill c else c) (pf_children s)) (pf_childProcs s) (pf_sigCh s) (pf_exited s).

(** prefork, on any system but Windows: a listener that could not be set up is not
    closed, since the deferred call comes behind. *)
Definition stepPrefork (a : pfact) (s : preforkState) : outcome preforkState :=
  match pf_stage s, a with
  | MStart, PGo => if Reuseport then To (setMaster (MFork goMaxProcs) s) else Blocked
  | MStart, PListen err opened =>
      if Reuseport then Blocked
      else match err with
           | Some _ => To (MkPrefork (MReturned err) opened (pf_children s) (pf_childProcs s) (pf_sigCh s) (pf_exited s))
           | None => To (MkPrefork (MFork goMaxProcs) true (pf_children s) (pf_childProcs s) (pf_sigCh s) (pf_exited s))
           end
  | MFork O, PGo => To (setMaster MWait s)
  | MFork (S k), PStarted (inl pid) => To (setMaster (MFork k) (addChild pid s))
  | MFork (S _), PStarted (inr err) => To (setMaster (MKill (Some err)) s)
  | MWait, PGo =>
      match pf_sigCh s with
      | [] => Blocked
      | pid :: sigCh =>
          let exitedProcs := pf_exited s + 1 in
          let s := MkPrefork (pf_stage s) (pf_listening s) (pf_children s) (delete pid (pf_childProcs s)) sigCh exitedProcs in
          To (setMaster (if RecoverThreshold <? exitedProcs then MKill (Some ErrOverRecovery) else MRestart) s)
      end
  | MRestart, PStarted (inl pid) => To (setMaster MWait (addChild pid s))
  | MRestart, PStarted (inr err) => To (setMaster (MKill (Some err)) s)
  | MKill err, PGo => To (setMaster (MClose err) (killAll s))
  | MClose err, PGo => To (MkPrefork (MReturned err) (pf_listening s && Reuseport) (pf_children s) (pf_childProcs s) (pf_sigCh s) (pf_exited s))
  | _, _ => Blocked
  end.

Definition setChild (i : nat) (c : child) (st : childState) (s : preforkState) : preforkState :=
  MkPrefork (pf_stage s) (pf_listening s) (<[i := MkChild (ch_pid c) st]> (pf_children s)) (pf_childProcs s) (pf_sigCh s) (pf_exited s).

(** The number of a running process is not given to another one. *)
Definition pidFree (pid : Z) (s : preforkState) : bool := forallb (fun c => negb (bool_decide (ch_pid c = pid /\ ch_state c = Running))) (pf_children s).

(** A child ends; the goroutine that waits for it sends its number, if the channel
    has room. *)
#[global] Instance prefork_machine : Machine preforkState pfact := fun _ a s =>
  match a with
  | PExit i => match pf_children s !! i with Some c => if decide (ch_state c = Running \/ ch_state c = Killed) then To (setChild i c Exited s) else Blocked | None => Blocked end
  | PTell i =>
      match pf_children s !! i with
      | Some c =>
          if decide (ch_state c = Exited /\ (length (pf_sigCh s) < goMaxProcs)%nat)
          then let s := setChild i c Told s in To (MkPrefork (pf_stage s) (pf_listening s) (pf_children s) (pf_childProcs s) (pf_sigCh s ++ [ch_pid c]) (pf_exited s))
          else Blocked
      | None => Blocked
      end
  | PStarted (inl pid) => if pidFree pid s then stepPrefork a s else Blocked
  | _ => stepPrefork a s
  end.

Definition newPrefork : preforkState := MkPrefork MStart false [] ∅ [] 0.

(** ** The invariant *)

Definition pids (s : preforkState) : list Z := map ch_pid (pf_children s).

(** Children whose end has not been told yet. *)
Definition untold (c : child) : Z := match ch_state c with Told => 0 | _ => 1 end.

(** The children there are, and the untold ones and signals together, by the stage
    of the master. *)
Definition stageCount (s : preforkState) : Prop :=
  let n := zlen (pf_children s) in
  let u := total untold (pf_children s) + zlen (pf_sigCh s) in
  let m := Z.of_nat goMaxProcs in
  match pf_stage s with
  | MStart => n = 0 /\ u = 0 /\ pf_exited s = 0
  | MFork k => n + Z.of_nat k = m /\ u + Z.of_nat k = m /\ pf_exited s = 0
  | MWait => n = m + pf_exited s /\ u = m /\ 0 <= pf_exited s <= Z.max 0 RecoverThreshold
  | MRestart => n = m + pf_exited s - 1 /\ u = m - 1 /\ 1 <= pf_exited s <= RecoverThreshold
  | MKill err | MClose err | MReturned err => n <= m + Z.max 0 RecoverThreshold /\ u <= m /\ err <> None
  end.

Definition stopped (s : preforkState) : bool := match pf_stage s with MClose _ | MReturned _ => true | _ => false end.

Record preforkRest (s : preforkState) : Prop := {
  pv_listening : Reuseport = false -> pf_listening s = false -> pf_stage s = MStart \/ exists err, pf_stage s = MReturned err;
  pv_closed : Reuseport = true -> pf_listening s = false;
  pv_returned : forall err, pf_stage s = MReturned err -> pf_listening s = true -> pf_children s = [];
  pv_signals : forall pid, pid ∈ pf_sigCh s -> exists i c, pf_children s !! i = Some c /\ ch_pid c = pid /\ ch_state c <> Running;
  pv_running : NoDup (pids s) -> forall i c, pf_children s !! i = Some c -> ch_state c = Running -> stopped s = false /\ pf_childProcs s !! ch_pid c = Some i
}.

Definition preforkInv (s : preforkState) : Prop := stageCount s /\ preforkRest s.

Lemma inMap_true i pid s : pf_childProcs s !! pid = Some i -> inMap i s = true.
Proof.
  intros L. unfold inMap. apply existsb_exists. exists (pid, i). split; [|by apply bool_decide_eq_true].
  apply list_elem_of_In, elem_of_map_to_list. done.
Qed.

Lemma total_pointwise {A} (f : A -> Z) (g : nat -> A -> A) l : (forall i x, f (g i x) = f x) -> total f (imap g l) = total f l.
Proof.
  revert g. induction l as [|x l IH]; intros g H; [done|]. rewrite imap_cons. cbn [total]. rewrite H, (IH (g ∘ S)); [done|]. intros i y. apply H.
Qed.

Lemma pids_setChild s i c st : pf_children s !! i = Some c -> pids (setChild i c st s) = pids s.
Proof.
  intros L. unfold pids, setChild. cbn [pf_children]. rewrite list_fmap_insert. cbn. apply list_insert_id. rewrite list_lookup_fmap, L. done.
Qed.

Lemma lookup_pids s i c : pf_children s !! i = Some c -> pids s !! i = Some (ch_pid c).
Proof. intros L. unfold pids. rewrite list_lookup_fmap, L. done. Qed.

(** A child takes its next step. *)
Lemma setChild_inv s i c st signals :
  preforkInv s -> pf_children s !! i = Some c -> st <> Running ->
  untold (MkChild (ch_pid c) st) + zlen signals = untold c -> Forall (fun pid => pid = ch_pid c) signals ->
  let s' := setChild i c st s in
  preforkInv (MkPrefork (pf_stage s') (pf_listening s') (pf_children s') (pf_childProcs s') (pf_sigCh s' ++ signals) (pf_exited s')).
Proof.
  intros [I1 [I2 I3 I4 I5 I6]] L Ns Hu Hs s'. pose proof (lookup_lt_Some _ _ _ L) as Hl. split; [|split; cbn; [done|done|..]].
  - unfold stageCount in *. cbn -[total]. rewrite length_insert, (total_insert _ _ _ c _ L), length_app.
    destruct (pf_stage s); split_and?; destruct_and?; try done; try lia.
  - intros err E Hp. specialize (I4 err E Hp). rewrite I4 in L. by rewrite lookup_nil in L.
  - intros pid Hp. apply elem_of_app in Hp as [Hp|Hp].
    + destruct (I5 pid Hp) as (j & x & Lj & Ex & Nx). destruct (decide (j = i)) as [->|Dj].
      * exists i, (MkChild (ch_pid c) st). rewrite list_lookup_insert_eq by done. split; [done|]. split; [cbn; congruence|done].
      * exists j, x. by rewrite list_lookup_insert_ne.
    + rewrite Forall_forall in Hs. exists i, (MkChild (ch_pid c) st). rewrite list_lookup_insert_eq by done. split; [done|]. split; [symmetry; by apply Hs|done].
  - intros N j x Lj Ex. change (NoDup (pids s')) in N. unfold s' in N. rewrite pids_setChild in N by done.
    apply list_lookup_insert_Some in Lj as [(_ & <- & _)|[_ Lj]]; [done|]. by apply (I6 N).
Qed.

(** The master goes on, without a change of the children. *)
Lemma setMaster_rest s pc :
  preforkRest s -> stopped s = false -> pf_stage s <> MStart -> match pc with MStart | MClose _ | MReturned _ => False | _ => True end -> preforkRest (setMaster pc s).
Proof.
  intros [I2 I3 I4 I5 I6] Ns Nm H. split; cbn; [|done| |done|].
  - intros Hr Hl. exfalso. destruct (I2 Hr Hl) as [E|[err E]]; [done|]. unfold stopped in Ns. by rewrite E in Ns.
  - intros err ->. done.
  - intros N j x Lj Ex. destruct (I6 N j x Lj Ex) as [_ Em]. split; [by destruct pc|done].
Qed.

Lemma addChild_rest s pid : preforkRest s -> stopped s = false -> preforkRest (addChild pid s).
Proof.
  intros [I2 I3 I4 I5 I6] Ns. split; cbn; [done|done| | |].
  - intros err E. unfold stopped in Ns. by rewrite E in Ns.
  - intros p Hp. destruct (I5 p Hp) as (j & x & Lj & R). exists j, x. split; [by apply lookup_app_l_Some|done].
  - intros N j x Lj Ex. split; [done|]. unfold pids, addChild in N. cbn [pf_children] in N. rewrite map_app in N. cbn in N.
    apply lookup_app_Some in Lj as [Lj|[Hj Lj]].
    + apply NoDup_app in N as (N1 & N2 & _). destruct (I6 N1 j x Lj Ex) as [_ Em]. rewrite lookup_insert_ne; [done|].
      intros ->. apply (N2 (ch_pid x)); [|by apply list_elem_of_singleton]. eapply list_elem_of_lookup_2. by apply lookup_pids.
    + apply list_lookup_singleton_Some in Lj as [Hj' <-]. cbn. rewrite lookup_insert_eq. f_equal. lia.
Qed.

Lemma takeSignal_rest s pid rest n :
  preforkRest s -> stopped s = false -> pf_sigCh s = pid :: rest ->
  preforkRest (MkPrefork (pf_stage s) (pf_listening s) (pf_children s) (delete pid (pf_childProcs s)) rest n).
Proof.
  intros [I2 I3 I4 I5 I6] Ns E. split; cbn; [done|done|done| |].
  - intros p Hp. apply I5. rewrite E. by right.
  - intros N j x Lj Ex. change (NoDup (pids s)) in N. destruct (I6 N j x Lj Ex) as [Es Em]. split; [done|]. rewrite lookup_delete_ne; [done|]. intros ->.
    destruct (I5 (ch_pid x)) as (k & y & Lk & Ey & Ny); [rewrite E; by left|]. apply Ny.
    assert (k = j) as ->; [|congruence]. apply (NoDup_lookup (pids s) k j (ch_pid x)); [done|by rewrite (lookup_pids s k y), Ey|by apply lookup_pids].
Qed.

Lemma killAll_children s i c : pf_children (killAll s) !! i = Some c ->
  exists x, pf_children s !! i = Some x /\ c = if inMap i s then kill x else x.
Proof. unfold killAll. cbn. rewrite list_lookup_imap. destruct (pf_children s !! i); [|done]. intros [= <-]. by eexists. Qed.

Lemma killAll_rest s err : preforkRest s -> stopped s = false -> pf_stage s <> MStart -> preforkRest (setMaster (MClose err) (killAll s)).
Proof.
  intros [I2 I3 I4 I5 I6] Ns Nm. split; cbn; [|done|done| |].
  - intros Hr Hl. exfalso. destruct (I2 Hr Hl) as [E|[e E]]; [done|]. unfold stopped in Ns. by rewrite E in Ns.
  - intros p Hp. destruct (I5 p Hp) as (j & x & Lj & Ex & Nx). exists j, (if inMap j s then kill x else x).
    rewrite list_lookup_imap, Lj. split; [done|]. destruct (inMap j s); [|done]. unfold kill. cbn. split; [done|]. by destruct (ch_state x).
  - intros N j x Lj Ex. exfalso. assert (NoDup (pids s)) as N0.
    { replace (pids s) with (pids (killAll s)); [done|]. unfold pids. apply list_eq. intros k. rewrite !list_lookup_fmap. unfold killAll. cbn. rewrite list_lookup_imap.
      destruct (pf_children s !! k) as [y|]; [|done]. cbn. by destruct (inMap k s). }
    destruct (killAll_children s j x Lj) as (y & Ly & ->). destruct (ch_state y) eqn:Ey.
    + destruct (I6 N0 j y Ly Ey) as [_ Em]. rewrite (inMap_true _ _ _ Em) in Ex. unfold kill in Ex. by rewrite Ey in Ex.
    + destruct (inMap j s); unfold kill in Ex; cbn in Ex; by rewrite Ey in Ex.
    + destruct (inMap j s); unfold kill in Ex; cbn in Ex; by rewrite Ey in Ex.
    + destruct (inMap j s); unfold kill in Ex; cbn in Ex; by rewrite Ey in Ex.
Qed.

Lemma total_killAll s : total untold (pf_children (killAll s)) = total untold (pf_children s).
Proof. unfold killAll. cbn. apply total_pointwise. intros i x. destruct (inMap i s); [|done]. unfold untold, kill. cbn. by destruct (ch_state x). Qed.

Lemma addChild_count s pid pc : 
  (let u := total untold (pf_children s) + 1 in forall n, n = zlen (pf_children s) + 1 -> u = total untold (pf_children (addChild pid s)) /\ n = zlen (pf_children (addChild pid s))) /\
  pf_stage (setMaster pc (addChild pid s)) = pc.
Proof. split; [|done]. intros u n ->. cbn [addChild pf_children]. rewrite total_app, length_app. cbn. lia. Qed.

Lemma stepPrefork_inv s a : preforkInv s -> match stepPrefork a s with To s' => preforkInv s' | Panics => False | Blocked => True end.
Proof.
  intros [K I]. unfold stepPrefork. unfold stageCount in K.
  assert (forall pid pc, preforkRest s -> stopped s = false -> pf_stage s <> MStart -> match pc with MStart | MClose _ | MReturned _ => False | _ => True end ->
    preforkRest (setMaster pc (addChild pid s))) as Add.
  { intros pid pc R Ns Nm H. apply setMaster_rest; [by apply addChild_rest|done..]. }
  destruct (pf_stage s) as [|[|k]| | |err|err|err] eqn:Es, a as [err' opened|[pid|e]| | |]; try done;
    assert (stopped s = match pf_stage s with MClose _ | MReturned _ => true | _ => false end) as Ns by done; rewrite Es in Ns.
  - destruct Reuseport eqn:ER; [done|]. destruct K as (K1 & K2 & K3), I as [I2 I3 I4 I5 I6].
    assert (pf_children s = []) as E0 by (destruct (pf_children s); [done|cbn in K1; lia]). destruct err' as [err|].
    + split; [unfold stageCount; cbn; split_and!; [lia|lia|done]|]. split; cbn; [intros _ _; right; by eexists|by rewrite ER|by intros|done|].
      intros N j x Lj. by rewrite E0 in Lj.
    + split; [unfold stageCount; cbn; rewrite E0 in *; cbn in *; split_and!; lia|]. split; cbn; [done|by rewrite ER|done|done|]. intros N j x Lj. by rewrite E0 in Lj.
  - destruct Reuseport eqn:ER; [|done]. destruct I as [I2 I3 I4 I5 I6].
    split; [unfold stageCount; cbn; split_and!; lia|]. split; cbn; [by rewrite ER|done|done|done|].
    intros N j x Lj Ex. split; [done|]. by apply (I6 N j x).
  - split; [unfold stageCount; cbn; split_and!; lia|]. apply setMaster_rest; [done|done|first [done|by rewrite Es]|done].
  - split; [|apply Add; [done|done|first [done|by rewrite Es]|done]]. destruct (addChild_count s pid (MFork k)) as [H _]. specialize (H _ eq_refl) as [H1 H2].
    unfold stageCount. cbn [setMaster pf_stage pf_children pf_sigCh pf_exited]. rewrite <- H1, <- H2. cbn [addChild pf_sigCh pf_exited]. split_and!; lia.
  - split; [unfold stageCount; cbn; split_and!; [lia|lia|done]|]. apply setMaster_rest; [done|done|first [done|by rewrite Es]|done].
  - destruct (pf_sigCh s) as [|pid rest] eqn:Eq; [done|]. pose proof (takeSignal_rest s pid rest (pf_exited s + 1) I Ns Eq) as R.
    set (s1 := MkPrefork (pf_stage s) (pf_listening s) (pf_children s) (delete pid (pf_childProcs s)) rest (pf_exited s + 1)) in *.
    assert (pf_stage s1 <> MStart) as Nm by (subst s1; cbn; by rewrite Es). assert (zlen (pid :: rest) = zlen rest + 1) as Ez by (cbn; lia). rewrite Ez in K.
    destruct (Z.ltb_spec RecoverThreshold (pf_exited s + 1)).
    + change (preforkInv (setMaster (MKill (Some ErrOverRecovery)) s1)). split; [unfold stageCount; cbn; split_and!; [lia|lia|done]|]. by apply setMaster_rest.
    + change (preforkInv (setMaster MRestart s1)). split; [unfold stageCount; cbn; split_and!; lia|]. by apply setMaster_rest.
  - split; [|apply Add; [done|done|first [done|by rewrite Es]|done]]. destruct (addChild_count s pid MWait) as [H _]. specialize (H _ eq_refl) as [H1 H2].
    unfold stageCount. cbn [setMaster pf_stage pf_children pf_sigCh pf_exited]. rewrite <- H1, <- H2. cbn [addChild pf_sigCh pf_exited]. split_and!; lia.
  - split; [unfold stageCount; cbn; split_and!; [lia|lia|done]|]. apply setMaster_rest; [done|done|first [done|by rewrite Es]|done].
  - split; [|apply killAll_rest; [done|done|first [done|by rewrite Es]]]. unfold stageCount. cbn [setMaster pf_stage]. change (pf_children (setMaster _ (killAll s))) with (pf_children (killAll s)).
    rewrite total_killAll. cbn. rewrite length_imap. done.
  - split; [done|]. destruct I as [I2 I3 I4 I5 I6]. split; cbn; [intros _ _; right; by eexists| |intros e E| |].
    + intros ER. rewrite I3 by done. done.
    + intros Hl. apply andb_true_iff in Hl as [Hl ER]. rewrite I3 in Hl by done. done.
    + done.
    + intros N j x Lj Ex. exfalso. destruct (I6 N j x Lj Ex) as [Ef _]. by rewrite Ns in Ef.
Qed.

Lemma prefork_step s t a : preforkInv s -> match step (Machine := prefork_machine) t a s with To s' => preforkInv s' | Panics => False | Blocked => True end.
Proof.
  intros I. unfold step, prefork_machine. destruct a as [err opened|[pid|e]| |i|i]; try by apply stepPrefork_inv.
  - destruct (pidFree pid s); [by apply stepPrefork_inv|done].
  - destruct (pf_children s !! i) as [c|] eqn:L; [|done]. case_decide as Ec; [|done].
    pose proof (setChild_inv s i c Exited [] I L) as H. cbn in H. rewrite app_nil_r in H. apply H; [done| |done].
    unfold untold. cbn. destruct Ec as [-> | ->]; done.
  - destruct (pf_children s !! i) as [c|] eqn:L; [|done]. case_decide as Ec; [|done]. destruct Ec as [Ec _].
    apply (setChild_inv s i c Told [ch_pid c] I L); [done| |by constructor]. unfold untold. cbn. by rewrite Ec.
Qed.

Lemma newPrefork_inv : preforkInv newPrefork.
Proof.
  split; [done|]. split; cbn; [by left|done|done|intros pid Hp; by apply elem_of_nil in Hp|]. intros _ j x Lj. by rewrite lookup_nil in Lj.
Qed.

Lemma prefork_reachable s : reachable (H := prefork_machine) newPrefork s -> preforkInv s.
Proof.
  apply (reachable_invariant (H := prefork_machine) preforkInv); [apply newPrefork_inv|].
  intros t a s1 s2 I E. pose proof (prefork_step s1 t a I) as H. by rewrite E in H.
Qed.
End Prefork.

(** ListenAndServe and its variants: a child serves on the listener it has been
    given, the first process is the master. *)
Inductive served := ServedBy (err : option error) | IsMaster (addr : bytes).

Definition serveChild {Ln} (args : list bytes) (addr : bytes) (listen : Ln + error) (serve : Ln -> option error) : served :=
  if IsChild args then match listen with inr err => ServedBy (Some err) | inl ln => ServedBy (serve ln) end else IsMaster addr.

Definition Prefork_ListenAndServe {Ln} (args : list bytes) (addr : bytes) (listen : Ln + error) (ServeFunc : Ln -> option error) : served :=
  serveChild args addr listen ServeFunc.
Definition Prefork_ListenAndServeTLS {Ln} (args : list bytes) (addr certKey certFile : bytes) (listen : Ln + error) (ServeTLSFunc : Ln -> bytes -> bytes -> option error) : served :=
  serveChild args addr listen (fun ln => ServeTLSFunc ln certFile certKey).
Definition Prefork_ListenAndServeTLSEmbed {Ln} (args : list bytes) (addr certData keyData : bytes) (listen : Ln + error) (ServeTLSEmbedFunc : Ln -> bytes -> bytes -> option error) : served :=
  serveChild args addr listen (fun ln => ServeTLSEmbedFunc ln certData keyData).

(** A child started by doCommand is a child. *)
Lemma doCommand_IsChild args : args <> [] -> IsChild (doCommand_args args) = true.
Proof.
  intros H. unfold IsChild, doCommand_args. destruct args as [|a args]; [done|]. cbn. apply existsb_exists. exists preforkChildFlag.
  split; [apply in_or_app; right; by left|by apply bool_decide_eq_true].
Qed.

(** * Properties *)

(** C17. When the master returns, there is an error to report, every child it has
    ever started has ended or been killed, provided no process number has been given
    out twice, no more children have been started than there are processors and
    exits to recover from, and the listener is closed unless it could not be set
    up.  Until then a child's goroutine is never kept from telling of its end. *)
Theorem prefork_stops_children (Reuseport : bool) (RecoverThreshold : Z) (goMaxProcs : nat) (s : preforkState)
    (R : reachable (H := prefork_machine Reuseport RecoverThreshold goMaxProcs) newPrefork s) :
  (forall err, pf_stage s = MReturned err ->
     err <> None /\ zlen (pf_children s) <= Z.of_nat goMaxProcs + Z.max 0 RecoverThreshold /\ (pf_listening s = true -> pf_children s = []) /\
     (NoDup (pids s) -> Forall (fun c => ch_state c <> Running) (pf_children s))) /\
  (forall i c, pf_children s !! i = Some c -> ch_state c = Exited -> (length (pf_sigCh s) < goMaxProcs)%nat).
Proof.
  destruct (prefork_reachable _ _ _ s R) as [K I]. unfold stageCount in K. split.
  - intros err E. rewrite E in K. destruct K as (K1 & _ & K3). split; [done|]. split; [done|]. split; [by apply (pv_returned _ _ I err)|].
    intros N. apply Forall_lookup. intros i c L Ec. destruct (pv_running _ _ I N i c L Ec) as [Es _]. unfold stopped in Es. by rewrite E in Es.
  - intros i c L Ec. assert (0 < total untold (pf_children s)) as H.
    { pose proof (total_insert untold (pf_children s) i c (MkChild 0 Told) L) as T. pose proof (total_nonneg untold (<[i:=MkChild 0 Told]> (pf_children s))) as P.
      assert (untold c = 1) as U1 by (unfold untold; by rewrite Ec). assert (untold (MkChild 0 Told) = 0) as U0 by done. assert (forall x, 0 <= untold x) as Nn by (intros x; unfold untold; by destruct (ch_state x)). specialize (P Nn). lia. }
    destruct (pf_stage s); destruct K as (K1 & K2 & K3); lia.
Qed.

Definition preforkRun : list (nat * pfact) :=
  [(0, PListen None true); (0, PStarted (inl 5%Z)); (0, PStarted (inl 6%Z)); (0, PGo); (0, PExit 0); (0, PTell 0); (0, PGo); (0, PStarted (inl 7%Z));
   (0, PExit 1); (0, PTell 1); (0, PGo); (0, PGo); (0, PGo)]%nat.
Definition preforkAfter : preforkState := match run (H := prefork_machine false 1 2) preforkRun newPrefork with To s => s | _ => newPrefork end.

Lemma preforkAfter_reachable : reachable (H := prefork_machine false 1 2) newPrefork preforkAfter.
Proof. apply (run_reachable (H := prefork_machine false 1 2) preforkRun). vm_compute. reflexivity. Qed.

Lemma prefork_stops_children_witness :
  (pf_stage preforkAfter = MReturned (Some ErrOverRecovery) /\ pids preforkAfter = [5; 6; 7]) /\ Forall (fun c => ch_state c <> Running) (pf_children preforkAfter).
Proof.
  assert (pf_stage preforkAfter = MReturned (Some ErrOverRecovery)) as E by (vm_compute; reflexivity).
  assert (pids preforkAfter = [5; 6; 7]) as Ep by (vm_compute; reflexivity). split; [exact (conj E Ep)|].
  apply (proj1 (prefork_stops_children false 1 2 preforkAfter preforkAfter_reachable) _ E). rewrite Ep. apply (bool_decide_unpack _). vm_compute. exact Logic.I.
Defined.

(** The number of a child that has ended is given to its successor before the master
    has heard of the end: it then forgets the wrong one, which goes on running. *)
Definition reuseRun : list (nat * pfact) :=
  [(0, PListen None true); (0, PStarted (inl 5%Z)); (0, PStarted (inl 6%Z)); (0, PGo); (0, PExit 0); (0, PTell 0); (0, PExit 1); (0, PTell 1);
   (0, PGo); (0, PStarted (inl 6%Z)); (0, PGo); (0, PStarted (inr EOF)); (0, PGo); (0, PGo)]%nat.

Lemma prefork_pid_reuse_leaves_child :
  match run (H := prefork_machine false 5 2) reuseRun newPrefork with
  | To s => Some (pf_stage s, map ch_state (pf_children s))
  | _ => None
  end = Some (MReturned (Some EOF), [Told; Told; Running]).
Proof. vm_compute. reflexivity. Qed.

(** The listener is left open when its file cannot be had. *)
Lemma prefork_leaves_listener :
  match run (H := prefork_machine false 5 2) [(0%nat, PListen (Some EOF) true)] newPrefork with To s => Some (pf_stage s, pf_listening s) | _ => None end =
  Some (MReturned (Some EOF), true).
Proof. vm_compute. reflexivity. Qed.
