(* ===== verification/Hijack.v ===== *)
(** * server.go: hijacked connections

    hijackConnHandler in any number of goroutines, with the pools of hijackConn
    objects and of bufio.Readers, which other connections of the server use, too.  A
    connection is a number; what a reader would give is the connection it reads
    from. *)
From stdpp Require Import relations list_tactics.
From S2P Require Import Prelude Machine.
#[local] Open Scope nat_scope.

(** The io.Reader of a hijackConn: the bufio.Reader with that number, or the
    connection itself. *)
Inductive hreader := FromBuf (b : nat) | FromConn (c : nat).

Record hijackConn := MkHijackConn { hj_Conn : option nat; hj_r : option hreader }.

(** A hijacked connection: before acquireHijackConn, in the handler, before
    releaseReader, before Close, before releaseHijackConn, done.  [HKept]: the
    handler has returned, and someone keeps its hijackConn. *)
Inductive hstage :=
| HAcquire (c : nat) (r : hreader)
| HRun (o c : nat) (r : hreader)
| HReader (o c : nat) (r : hreader)
| HClose (o c : nat)
| HRelease (o c : nat)
| HKept (o c : nat)
| HDone (c : nat).

Record hijackWorld := MkHijackWorld {
  hw_conns : nat;
  hw_objs : list hijackConn;
  hw_pool : list nat;
  hw_readers : list nat;
  hw_readerPool : list nat;
  hw_closed : list nat;
  hw_threads : list hstage
}.

(** A new connection is served, up to hijacking, with a bufio.Reader from the pool
    ([pick]) or with none; a goroutine goes on; the handler, or who keeps the
    object, closes it. *)
Inductive hact := HServe (pick : option nat) | HServePlain | HGo (pick : option nat) | HUserClose.

Section Hijack.
Context (KeepHijackedConns : bool).

Definition set_hw_objs v (s : hijackWorld) := MkHijackWorld (hw_conns s) v (hw_pool s) (hw_readers s) (hw_readerPool s) (hw_closed s) (hw_threads s).
Definition set_hw_pool v (s : hijackWorld) := MkHijackWorld (hw_conns s) (hw_objs s) v (hw_readers s) (hw_readerPool s) (hw_closed s) (hw_threads s).
Definition set_hw_readerPool v (s : hijackWorld) := MkHijackWorld (hw_conns s) (hw_objs s) (hw_pool s) (hw_readers s) v (hw_closed s) (hw_threads s).
Definition set_hw_closed v (s : hijackWorld) := MkHijackWorld (hw_conns s) (hw_objs s) (hw_pool s) (hw_readers s) (hw_readerPool s) v (hw_threads s).
Definition hgoto (t : nat) (pc : hstage) (s : hijackWorld) := MkHijackWorld (hw_conns s) (hw_objs s) (hw_pool s) (hw_readers s) (hw_readerPool s) (hw_closed s) (<[t := pc]> (hw_threads s)).

(** A new connection and its reader: acquireReader resets one of the pool. *)
Definition newConn (r : hreader) (s : hijackWorld) : hijackWorld :=
  MkHijackWorld (S (hw_conns s)) (hw_objs s) (hw_pool s) (hw_readers s) (hw_readerPool s) (hw_closed s) (hw_threads s ++ [HAcquire (hw_conns s) r]).

Definition serveReader (pick : option nat) (s : hijackWorld) : hijackWorld :=
  match pick ≫= fun i => b ← hw_readerPool s !! i; Some (b, delete i (hw_readerPool s)) with
  | Some (b, pool) =>
      newConn (FromBuf b) (MkHijackWorld (hw_conns s) (hw_objs s) (hw_pool s) (<[b := hw_conns s]> (hw_readers s)) pool (hw_closed s) (hw_threads s))
  | None =>
      newConn (FromBuf (length (hw_readers s))) (MkHijackWorld (hw_conns s) (hw_objs s) (hw_pool s) (hw_readers s ++ [hw_conns s]) (hw_readerPool s) (hw_closed s) (hw_threads s))
  end.

Definition acquireHijackConn (r : hreader) (c : nat) (pick : option nat) (s : hijackWorld) : nat * hijackWorld :=
  match pick ≫= fun i => o ← hw_pool s !! i; Some (o, delete i (hw_pool s)) with
  | Some (o, pool) => (o, set_hw_pool pool (set_hw_objs (<[o := MkHijackConn (Some c) (Some r)]> (hw_objs s)) s))
  | None => (length (hw_objs s), set_hw_objs (hw_objs s ++ [MkHijackConn (Some c) (Some r)]) s)
  end.

Definition releaseHijackConn (o : nat) (s : hijackWorld) : hijackWorld :=
  set_hw_pool (o :: hw_pool s) (set_hw_objs (<[o := MkHijackConn None None]> (hw_objs s)) s).

(** hijackConn.Read: the connection the bytes come from.  [None]: a nil reader. *)
Definition hijackConn_Read (o : nat) (s : hijackWorld) : option nat :=
  x ← hw_objs s !! o;
  r ← hj_r x;
  match r with FromBuf b => hw_readers s !! b | FromConn c => Some c end.

Definition hijackConn_UnsafeConn (o : nat) (s : hijackWorld) : option nat := x ← hw_objs s !! o; hj_Conn x.

(** hijackConn.Close; [None] is the nil dereference. *)
Definition hijackConn_Close (o : nat) (s : hijackWorld) : option hijackWorld :=
  if negb KeepHijackedConns then Some s
  else
    conn ← hijackConn_UnsafeConn o s;
    let s := releaseHijackConn o s in
    Some (set_hw_closed (conn :: hw_closed s) s).

Definition hijackConnHandler (t : nat) (pc : hstage) (pick : option nat) (s : hijackWorld) : outcome hijackWorld :=
  match pc with
  | HAcquire c r => let '(o, s) := acquireHijackConn r c pick s in To (hgoto t (HRun o c r) s)
  | HRun o c r => To (hgoto t (HReader o c r) s)
  | HReader o c r =>
      let s := match r with FromBuf b => set_hw_readerPool (b :: hw_readerPool s) s | FromConn _ => s end in
      To (hgoto t (if KeepHijackedConns then HKept o c else HClose o c) s)
  | HClose o c => To (hgoto t (HRelease o c) (set_hw_closed (c :: hw_closed s) s))
  | HRelease o c => To (hgoto t (HDone c) (releaseHijackConn o s))
  | _ => Blocked
  end.

#[global] Instance hijack_machine : Machine hijackWorld hact := fun t a s =>
  match a with
  | HServe pick => To (serveReader pick s)
  | HServePlain => To (newConn (FromConn (hw_conns s)) s)
  | HGo pick => match hw_threads s !! t with Some pc => hijackConnHandler t pc pick s | None => Blocked end
  | HUserClose =>
      match hw_threads s !! t with
      | Some (HRun o _ _) | Some (HKept o _) => match hijackConn_Close o s with Some s => To s | None => Panics end
      | _ => Blocked
      end
  end.
End Hijack.

Definition hijackStart : hijackWorld := MkHijackWorld 0 [] [] [] [] [] [].

(** ** What is whose, when hijacked connections are not kept *)

Definition objOf (pc : hstage) : list nat := match pc with HRun o _ _ | HReader o _ _ | HClose o _ | HRelease o _ | HKept o _ => [o] | _ => [] end.
Definition bufOf (pc : hstage) : list nat := match pc with HAcquire _ (FromBuf b) | HRun _ _ (FromBuf b) | HReader _ _ (FromBuf b) => [b] | _ => [] end.
Definition connOf (pc : hstage) : nat :=
  match pc with HAcquire c _ | HRun _ c _ | HReader _ c _ | HClose _ c | HRelease _ c | HKept _ c | HDone c => c end.
Definition closedOf (pc : hstage) : list nat := match pc with HRelease _ c | HDone c => [c] | _ => [] end.

Definition readsOwn (readers : list nat) (c : nat) (r : hreader) : Prop := match r with FromBuf b => readers !! b = Some c | FromConn c' => c' = c end.

Definition ownOk (objs : list hijackConn) (readers : list nat) (pc : hstage) : Prop :=
  match pc with
  | HAcquire c r => readsOwn readers c r
  | HRun o c r | HReader o c r => objs !! o = Some (MkHijackConn (Some c) (Some r)) /\ readsOwn readers c r
  | HKept _ _ => False
  | _ => True
  end.

Record hijackInv (s : hijackWorld) : Prop := {
  hi_objs : NoDup (held objOf (hw_threads s) ++ hw_pool s);
  hi_objs_made : Forall (fun o => o < length (hw_objs s)) (held objOf (hw_threads s) ++ hw_pool s);
  hi_bufs : NoDup (held bufOf (hw_threads s) ++ hw_readerPool s);
  hi_bufs_made : Forall (fun b => b < length (hw_readers s)) (held bufOf (hw_threads s) ++ hw_readerPool s);
  hi_own : forall t pc, hw_threads s !! t = Some pc -> ownOk (hw_objs s) (hw_readers s) pc;
  hi_conns : NoDup (map connOf (hw_threads s));
  hi_conns_made : Forall (fun c => c < hw_conns s) (map connOf (hw_threads s));
  hi_closed : hw_closed s ≡ₚ held closedOf (hw_threads s)
}.

Lemma connOf_move l t x y : l !! t = Some x -> connOf y = connOf x -> map connOf (<[t := y]> l) = map connOf l.
Proof. intros L E. rewrite list_fmap_insert. apply list_insert_id. by rewrite list_lookup_fmap, L, E. Qed.

Section Private.

(** A goroutine goes on with its connection; the others keep what they own. *)
Lemma hijack_move s s' t pc pc' :
  hijackInv s -> hw_threads s !! t = Some pc -> hw_threads s' = <[t := pc']> (hw_threads s) -> connOf pc' = connOf pc -> hw_conns s' = hw_conns s ->
  (objOf pc' ++ hw_pool s' ≡ₚ objOf pc ++ hw_pool s \/
     exists o, objOf pc' ++ hw_pool s' ≡ₚ o :: objOf pc ++ hw_pool s /\ o = length (hw_objs s) /\ o < length (hw_objs s')) ->
  length (hw_objs s) <= length (hw_objs s') -> hw_readers s' = hw_readers s -> bufOf pc' ++ hw_readerPool s' ≡ₚ bufOf pc ++ hw_readerPool s ->
  (forall u x o, u <> t -> hw_threads s !! u = Some x -> o ∈ objOf x -> hw_objs s' !! o = hw_objs s !! o) ->
  ownOk (hw_objs s') (hw_readers s) pc' -> hw_closed s' ++ closedOf pc ≡ₚ hw_closed s ++ closedOf pc' -> hijackInv s'.
Proof.
  intros I L Et Ec En Eo Hl Er Eb Keep Own Cl. destruct I as [I1 I2 I3 I4 I5 I6 I7 I8]. split.
  - rewrite Et. destruct Eo as [Eo|(o & Eo & -> & Ho)]; [by rewrite (held_exchange objOf _ t pc pc' (hw_pool s) (hw_pool s') L Eo)|].
    assert (held objOf (<[t := pc']> (hw_threads s)) ++ hw_pool s' ≡ₚ length (hw_objs s) :: held objOf (hw_threads s) ++ hw_pool s) as ->.
    { rewrite (held_exchange objOf _ t pc pc' (length (hw_objs s) :: hw_pool s) (hw_pool s') L); [by rewrite <- Permutation_middle|]. rewrite Eo. by rewrite <- Permutation_middle. }
    apply NoDup_cons. split; [|done]. intros Hi. rewrite Forall_forall in I2. specialize (I2 _ Hi). lia.
  - rewrite Et. destruct Eo as [Eo|(o & Eo & -> & Ho)].
    + rewrite (held_exchange objOf _ t pc pc' (hw_pool s) (hw_pool s') L Eo). eapply Forall_impl; [exact I2|]. cbn. lia.
    + assert (held objOf (<[t := pc']> (hw_threads s)) ++ hw_pool s' ≡ₚ length (hw_objs s) :: held objOf (hw_threads s) ++ hw_pool s) as ->.
      { rewrite (held_exchange objOf _ t pc pc' (length (hw_objs s) :: hw_pool s) (hw_pool s') L); [by rewrite <- Permutation_middle|]. rewrite Eo. by rewrite <- Permutation_middle. }
      constructor; [done|]. eapply Forall_impl; [exact I2|]. cbn. lia.
  - by rewrite Et, (held_exchange bufOf _ t pc pc' (hw_readerPool s) (hw_readerPool s') L Eb).
  - by rewrite Et, Er, (held_exchange bufOf _ t pc pc' (hw_readerPool s) (hw_readerPool s') L Eb).
  - intros u x Lu. rewrite Et in Lu. rewrite Er. apply list_lookup_insert_Some in Lu as [(<- & <- & _)|[D Lu]]; [done|].
    pose proof (I5 u x Lu) as O. pose proof (Keep u x) as K. destruct x; cbn in *; try done; (rewrite (K o); [done|congruence|done|by apply list_elem_of_singleton]).
  - by rewrite Et, (connOf_move _ t pc pc').
  - by rewrite Et, En, (connOf_move _ t pc pc').
  - rewrite Et. destruct (held_insert closedOf (hw_threads s) t pc pc' L) as (r & E1 & E2). rewrite E2. rewrite I8, E1 in Cl.
    apply (Permutation_app_inv_r (closedOf pc)). rewrite Cl. solve_Permutation.
Qed.

(** A connection that is new comes with a reader that is nobody's. *)
Lemma newConn_inv s r readers pool :
  hijackInv s -> length (hw_readers s) <= length readers ->
  bufOf (HAcquire (hw_conns s) r) ++ pool ≡ₚ hw_readerPool s \/
    (exists b, b = length (hw_readers s) /\ b < length readers /\ bufOf (HAcquire (hw_conns s) r) ++ pool ≡ₚ b :: hw_readerPool s) \/
    (bufOf (HAcquire (hw_conns s) r) = [] /\ pool = hw_readerPool s) ->
  (forall u x b, hw_threads s !! u = Some x -> b ∈ bufOf x -> readers !! b = hw_readers s !! b) -> readsOwn readers (hw_conns s) r ->
  hijackInv (newConn r (MkHijackWorld (hw_conns s) (hw_objs s) (hw_pool s) readers pool (hw_closed s) (hw_threads s))).
Proof.
  intros [I1 I2 I3 I4 I5 I6 I7 I8] Hl Hb Keep Own. split; cbn [newConn hw_conns hw_objs hw_pool hw_readers hw_readerPool hw_closed hw_threads].
  - rewrite held_snoc. cbn [objOf]. by rewrite app_nil_r.
  - rewrite held_snoc. cbn [objOf]. by rewrite app_nil_r.
  - rewrite held_snoc. assert (((held bufOf (hw_threads s) ++ bufOf (HAcquire (hw_conns s) r)) ++ pool) ≡ₚ held bufOf (hw_threads s) ++ (bufOf (HAcquire (hw_conns s) r) ++ pool)) as -> by (by rewrite app_assoc).
    destruct Hb as [->|[(b & -> & Lb & ->)|[-> ->]]]; [done| |done]. rewrite <- Permutation_middle. apply NoDup_cons. split; [|done].
    intros Hi. rewrite Forall_forall in I4. specialize (I4 _ Hi). lia.
  - rewrite held_snoc. assert (((held bufOf (hw_threads s) ++ bufOf (HAcquire (hw_conns s) r)) ++ pool) ≡ₚ held bufOf (hw_threads s) ++ (bufOf (HAcquire (hw_conns s) r) ++ pool)) as -> by (by rewrite app_assoc).
    assert (Forall (fun b => b < length readers) (held bufOf (hw_threads s) ++ hw_readerPool s)) as F by (eapply Forall_impl; [exact I4|]; cbn; lia).
    destruct Hb as [->|[(b & -> & Lb & ->)|[-> ->]]]; [done| |done]. rewrite <- Permutation_middle. by constructor.
  - intros u x Lu. apply lookup_app_Some in Lu as [Lu|[_ Lu]].
    + pose proof (I5 u x Lu) as O. pose proof (Keep u x) as K.
      assert (forall c rd, readsOwn (hw_readers s) c rd -> (forall b, rd = FromBuf b -> b ∈ bufOf x) -> readsOwn readers c rd) as Rd.
      { intros c [b|c'] Hr Hx; [|done]. cbn in *. by rewrite (K b Lu (Hx b eq_refl)). }
      destruct x; cbn in O |- *; try done; [apply Rd; [done|]|destruct O as [O1 O2]; split; [done|]; apply Rd; [done|]..]; intros b ->; by apply list_elem_of_singleton.
    + apply list_lookup_singleton_Some in Lu as [_ <-]. done.
  - rewrite map_app. apply NoDup_app. split; [done|]. split; [|apply NoDup_singleton]. intros c Hc ->%list_elem_of_singleton. rewrite Forall_forall in I7. specialize (I7 _ Hc). cbn in I7. lia.
  - rewrite map_app. apply Forall_app. split; [eapply Forall_impl; [exact I7|]; cbn; lia|]. constructor; [cbn; lia|constructor].
  - rewrite held_snoc. cbn [closedOf]. by rewrite app_nil_r.
Qed.

Lemma serveReader_inv s pick : hijackInv s -> hijackInv (serveReader pick s).
Proof.
  intros I. unfold serveReader. destruct (pick ≫= _) as [[b pool]|] eqn:Ep.
  - destruct pick as [i|]; [cbn in Ep|done]. destruct (hw_readerPool s !! i) as [b0|] eqn:Ei; [cbn in Ep|done]. injection Ep as <- <-.
    pose proof (delete_Permutation _ _ _ Ei) as P. assert (b0 ∈ hw_readerPool s) as Hb by (by eapply list_elem_of_lookup_2).
    assert (b0 < length (hw_readers s)) as Hl.
    { pose proof (hi_bufs_made _ I) as F. rewrite Forall_forall in F. apply F. apply elem_of_app. by right. }
    apply (newConn_inv s (FromBuf b0)); [done|by rewrite length_insert|left; cbn; by symmetry| |].
    + intros u x b Lu Hx. rewrite list_lookup_insert_ne; [done|]. intros ->. by apply (held_not_pool bufOf _ u x b _ (hi_bufs _ I) Lu Hx).
    + cbn. by apply list_lookup_insert_eq.
  - apply (newConn_inv s (FromBuf (length (hw_readers s)))); [done|rewrite length_app; lia| | |].
    + right. left. exists (length (hw_readers s)). split; [done|]. split; [rewrite length_app; cbn; lia|done].
    + intros u x b Lu Hx. apply lookup_app_l. pose proof (hi_bufs_made _ I) as F. rewrite Forall_forall in F. apply F. apply elem_of_app. left.
      apply elem_of_held. by exists u, x.
    + cbn. by rewrite lookup_app_r, Nat.sub_diag by done.
Qed.

Lemma acquire_inv s t c r pick :
  hijackInv s -> hw_threads s !! t = Some (HAcquire c r) -> let '(o, s1) := acquireHijackConn r c pick s in hijackInv (hgoto t (HRun o c r) s1).
Proof.
  intros I L. pose proof (hi_own _ I t _ L) as Own. cbn in Own. unfold acquireHijackConn. destruct (pick ≫= _) as [[o pool]|] eqn:Ep.
  - destruct pick as [i|]; [cbn in Ep|done]. destruct (hw_pool s !! i) as [o0|] eqn:Ei; [cbn in Ep|done]. injection Ep as <- <-.
    pose proof (delete_Permutation _ _ _ Ei) as P. assert (o0 ∈ hw_pool s) as Ho by (by eapply list_elem_of_lookup_2).
    assert (o0 < length (hw_objs s)) as Hl.
    { pose proof (hi_objs_made _ I) as F. rewrite Forall_forall in F. apply F. apply elem_of_app. by right. }
    eapply (hijack_move s _ t _ (HRun o0 c r) I L); try done; cbn.
    + left. by symmetry.
    + by rewrite length_insert.
    + intros u x o D Lu Hx. rewrite list_lookup_insert_ne; [done|]. intros ->. by apply (held_not_pool objOf _ u x o _ (hi_objs _ I) Lu Hx).
    + split; [by apply list_lookup_insert_eq|done].
  - eapply (hijack_move s _ t _ (HRun (length (hw_objs s)) c r) I L); try done; cbn.
    + right. exists (length (hw_objs s)). split; [done|]. split; [done|]. rewrite length_app. cbn. lia.
    + rewrite length_app. lia.
    + intros u x o D Lu Hx. apply lookup_app_l. pose proof (hi_objs_made _ I) as F. rewrite Forall_forall in F. apply F. apply elem_of_app. left.
      apply elem_of_held. by exists u, x.
    + split; [by rewrite lookup_app_r, Nat.sub_diag by done|done].
Qed.

Lemma hijackHandler_inv s t pc pick :
  hijackInv s -> hw_threads s !! t = Some pc -> match hijackConnHandler false t pc pick s with To s' => hijackInv s' | Panics => False | Blocked => True end.
Proof.
  intros I L. pose proof (hi_own _ I t pc L) as Own. unfold hijackConnHandler. destruct pc as [c r|o c r|o c r|o c|o c|o c|c]; try done.
  - pose proof (acquire_inv s t c r pick I L) as H. destruct (acquireHijackConn r c pick s). done.
  - eapply (hijack_move s _ t _ (HReader o c r) I L); try done. by left.
  - destruct r as [b|c']; eapply (hijack_move s _ t _ (HClose o c) I L); try done; by left.
  - eapply (hijack_move s _ t _ (HRelease o c) I L); try done; [by left|]. cbn. rewrite app_nil_r. by rewrite (Permutation_app_comm (hw_closed s)).
  - eapply (hijack_move s _ t _ (HDone c) I L); try done; cbn; [by left|by rewrite length_insert|].
    intros u x o' D Lu Hx. rewrite list_lookup_insert_ne; [done|]. intros ->.
    apply (held_apart objOf _ u t x _ o' _ (hi_objs _ I) Lu L D Hx). by apply list_elem_of_singleton.
Qed.

Lemma hijack_step s t a :
  hijackInv s -> match step (Machine := hijack_machine false) t a s with To s' => hijackInv s' | Panics => False | Blocked => True end.
Proof.
  intros I. unfold step, hijack_machine. destruct a as [pick| |pick|].
  - by apply serveReader_inv.
  - apply (newConn_inv s (FromConn (hw_conns s))); [done|done|by right; right|done|done].
  - destruct (hw_threads s !! t) as [pc|] eqn:L; [by apply hijackHandler_inv|done].
  - destruct (hw_threads s !! t) as [pc|] eqn:L; [|done]. destruct pc; done.
Qed.

Lemma hijack_reachable s : reachable (H := hijack_machine false) hijackStart s -> hijackInv s.
Proof.
  apply (reachable_invariant (H := hijack_machine false) hijackInv).
  - split; cbn; try constructor. intros t pc L. by rewrite lookup_nil in L.
  - intros t a s1 s2 I E. pose proof (hijack_step s1 t a I) as H. by rewrite E in H.
Qed.
End Private.

(** * Properties *)

(** C15. With KeepHijackedConns off, a handler that runs has a hijackConn of its own:
    it stands for the handler's connection, reads from it and not from another one,
    whichever objects and readers are used again, and the connection is open.  A
    connection is closed once, after its handler, and nothing panics. *)
Theorem hijack_private (s : hijackWorld) (R : reachable (H := hijack_machine false) hijackStart s) :
  (forall t o c r, hw_threads s !! t = Some (HRun o c r) -> hijackConn_Read o s = Some c /\ hijackConn_UnsafeConn o s = Some c /\ ~ c ∈ hw_closed s) /\
  NoDup (hw_closed s) /\ (forall t c, hw_threads s !! t = Some (HDone c) -> c ∈ hw_closed s) /\
  (forall t a, step (Machine := hijack_machine false) t a s <> Panics).
Proof.
  pose proof (hijack_reachable s R) as I. assert (forall t pc c, hw_threads s !! t = Some pc -> c ∈ closedOf pc -> connOf pc = c) as Cc.
  { intros t pc c _. by destruct pc; cbn; try (intros H; by apply elem_of_nil in H); intros ->%list_elem_of_singleton. }
  split; [|split; [|split]].
  - intros t o c r L. destruct (hi_own _ I t _ L) as [Lo Ro]. unfold hijackConn_Read, hijackConn_UnsafeConn. rewrite Lo. cbn. split; [destruct r; [done|by rewrite Ro]|].
    split; [done|]. rewrite (hi_closed _ I), elem_of_held. intros (u & x & Lu & Hx). pose proof (Cc u x c Lu Hx) as Ex.
    assert (u = t) as ->; [|rewrite L in Lu; injection Lu as <-; by apply elem_of_nil in Hx].
    apply (NoDup_lookup _ u t c (hi_conns _ I)); rewrite list_lookup_fmap; [by rewrite Lu; cbn; rewrite Ex|by rewrite L].
  - rewrite (hi_closed _ I). pose proof (hi_conns _ I) as N. clear -N Cc. revert N. generalize (hw_threads s). intros l. clear Cc. induction l as [|x l IH]; [intros; constructor|].
    cbn. intros [Hx N]%NoDup_cons. change (held closedOf (x :: l)) with (closedOf x ++ held closedOf l). apply NoDup_app. split; [|split; [|by apply IH]].
    + destruct x; cbn; try constructor; try apply not_elem_of_nil; constructor.
    + intros c Hc Hl. apply Hx. apply elem_of_held in Hl as (u & y & Lu & Hy). apply list_elem_of_fmap. exists y. split; [|by eapply list_elem_of_lookup_2].
      destruct x, y; cbn in *; try (by apply elem_of_nil in Hc); try (by apply elem_of_nil in Hy); apply list_elem_of_singleton in Hc as ->; by apply list_elem_of_singleton in Hy.
  - intros t c L. rewrite (hi_closed _ I), elem_of_held. exists t, (HDone c). split; [done|]. by apply list_elem_of_singleton.
  - intros t a E. pose proof (hijack_step s t a I) as H. by rewrite E in H.
Qed.

(** Two connections one after the other with the same reader and the same object. *)
Definition hijackRun : list (nat * hact) :=
  [(0, HServe None); (0, HGo None); (0, HGo None); (0, HGo None); (0, HGo None); (0, HGo None); (0, HServe (Some 0)); (1, HGo (Some 0))].
Definition hijackAfter : hijackWorld := match run (H := hijack_machine false) hijackRun hijackStart with To s => s | _ => hijackStart end.

Lemma hijackAfter_reachable : reachable (H := hijack_machine false) hijackStart hijackAfter.
Proof. apply (run_reachable (H := hijack_machine false) hijackRun). vm_compute. reflexivity. Qed.

Lemma hijack_private_witness :
  hw_threads hijackAfter = [HDone 0; HRun 0 1 (FromBuf 0)] /\ hijackConn_Read 0 hijackAfter = Some 1.
Proof.
  assert (hw_threads hijackAfter = [HDone 0; HRun 0 1 (FromBuf 0)]) as E by (vm_compute; reflexivity). split; [exact E|].
  apply (proj1 (hijack_private hijackAfter hijackAfter_reachable) 1 0 1 (FromBuf 0)). rewrite E. reflexivity.
Defined.

(** With KeepHijackedConns the reader goes back to the pool when the handler returns:
    the hijackConn that is kept then reads what the next connection gets. *)
Lemma kept_conn_reads_another :
  match run (H := hijack_machine true) [(0, HServe None); (0, HGo None); (0, HGo None); (0, HGo None); (0, HServe (Some 0))] hijackStart with
  | To s => (hw_threads s, hijackConn_UnsafeConn 0 s, hijackConn_Read 0 s)
  | _ => ([], None, None)
  end = ([HKept 0 0; HAcquire 1 (FromBuf 0)], Some 0, Some 1).
Proof. vm_compute. reflexivity. Qed.

(** Close of a kept hijackConn puts the object into the pool: a second Close panics,
    or closes the connection of whoever has got the object since. *)
Lemma kept_conn_closed_twice :
  run (H := hijack_machine true) [(0, HServe None); (0, HGo None); (0, HGo None); (0, HGo None); (0, HUserClose); (0, HUserClose)] hijackStart = Panics /\
  match run (H := hijack_machine true) [(0, HServe None); (0, HGo None); (0, HGo None); (0, HGo None); (0, HUserClose);
      (0, HServe None); (1, HGo (Some 0)); (0, HUserClose)] hijackStart with
  | To s => (hw_threads s, hw_closed s)
  | _ => ([], [])
  end = ([HKept 0 0; HRun 0 1 (FromBuf 1)], [1; 0]).
Proof. vm_compute. done. Qed.
