(* ===== verification/GetURL.v ===== *)
(** * client.go: GET with a deadline

    clientGetURLDeadline in any number of goroutines, with the goroutine each call
    starts, the mutex between them, the timer, and the pool of channels.  A response
    is the number of the call it answers. *)
From stdpp Require Import relations list_tactics.
From S2P Require Import Prelude Machine.
#[local] Open Scope nat_scope.

Inductive gresult := Responded (k : nat) | TimedOut.

(** The caller: before it has a channel, in the select, when the timer was chosen,
    before it puts the channel back, returned. *)
Inductive gcaller := GStart | GSelect (ch : nat) | GTimer (ch : nat) | GPut (ch : nat) (r : gresult) | GReturned (r : gresult).

(** The goroutine: not there yet, at the request, in the critical section before
    and behind the send, before ReleaseRequest, ended. *)
Inductive gworker := WNone | WRequest (ch : nat) | WLocked (ch : nat) | WSent | WRelease | WEnded.

Record gcall := MkGcall { gc_caller : gcaller; gc_worker : gworker; gc_timedout : bool; gc_responded : bool }.

(** The channels, of capacity 1, and clientURLResponseChPool. *)
Record getWorld := MkGetWorld { gw_chs : list (option nat); gw_pool : list nat; gw_calls : list gcall }.

(** A call; a step of the caller, with the time left and the choice of a channel; the
    timer fires; a step of the goroutine. *)
Inductive gact := GCall | GGo (timeout : Z) (pick : option nat) | GFire | GWork.

Definition setCall (t : nat) (c : gcall) (s : getWorld) : getWorld := MkGetWorld (gw_chs s) (gw_pool s) (<[t := c]> (gw_calls s)).
Definition setCh (ch : nat) (v : option nat) (s : getWorld) : getWorld := MkGetWorld (<[ch := v]> (gw_chs s)) (gw_pool s) (gw_calls s).

Definition getCh (pick : option nat) (s : getWorld) : nat * getWorld :=
  match pick ≫= fun i => ch ← gw_pool s !! i; Some (ch, delete i (gw_pool s)) with
  | Some (ch, pool) => (ch, MkGetWorld (gw_chs s) pool (gw_calls s))
  | None => (length (gw_chs s), MkGetWorld (gw_chs s ++ [None]) (gw_pool s) (gw_calls s))
  end.

(** The goroutine has the mutex. *)
Definition locked (c : gcall) : bool := match gc_worker c with WLocked _ | WSent => true | _ => false end.

Definition clientGetURLDeadline (t : nat) (c : gcall) (timeout : Z) (pick : option nat) (s : getWorld) : outcome getWorld :=
  let goto pc := MkGcall pc (gc_worker c) (gc_timedout c) (gc_responded c) in
  match gc_caller c with
  | GStart =>
      if (timeout <=? 0)%Z then To (setCall t (goto (GReturned TimedOut)) s)
      else let '(ch, s) := getCh pick s in To (setCall t (MkGcall (GSelect ch) (WRequest ch) false false) s)
  | GSelect ch =>
      match gw_chs s !! ch with
      | Some (Some k) => To (setCall t (goto (GPut ch (Responded k))) (setCh ch None s))
      | _ => Blocked
      end
  | GTimer ch =>
      if locked c then Blocked
      else if gc_responded c then
        match gw_chs s !! ch with
        | Some (Some k) => To (setCall t (goto (GPut ch (Responded k))) (setCh ch None s))
        | _ => Blocked
        end
      else To (setCall t (MkGcall (GPut ch TimedOut) (gc_worker c) true (gc_responded c)) s)
  | GPut ch r => To (setCall t (goto (GReturned r)) (MkGetWorld (gw_chs s) (ch :: gw_pool s) (gw_calls s)))
  | GReturned _ => Blocked
  end.

Definition stepGetWorker (t : nat) (c : gcall) (s : getWorld) : outcome getWorld :=
  let goto w := MkGcall (gc_caller c) w (gc_timedout c) (gc_responded c) in
  match gc_worker c with
  | WRequest ch => To (setCall t (goto (WLocked ch)) s)
  | WLocked ch =>
      if gc_timedout c then To (setCall t (goto WRelease) s)
      else match gw_chs s !! ch with
           | Some None => To (setCall t (goto WSent) (setCh ch (Some t) s))
           | _ => Blocked
           end
  | WSent => To (setCall t (MkGcall (gc_caller c) WRelease (gc_timedout c) true) s)
  | WRelease => To (setCall t (goto WEnded) s)
  | _ => Blocked
  end.

#[export] Instance get_machine : Machine getWorld gact := fun t a s =>
  match a with
  | GCall => To (MkGetWorld (gw_chs s) (gw_pool s) (gw_calls s ++ [MkGcall GStart WNone false false]))
  | _ =>
      match gw_calls s !! t with
      | None => Blocked
      | Some c =>
          match a, gc_caller c with
          | GFire, GSelect ch => To (setCall t (MkGcall (GTimer ch) (gc_worker c) (gc_timedout c) (gc_responded c)) s)
          | GGo timeout pick, _ => clientGetURLDeadline t c timeout pick s
          | GWork, _ => stepGetWorker t c s
          | _, _ => Blocked
          end
      end
  end.

Definition getStart : getWorld := MkGetWorld [] [] [].

(** ** Every channel is where it should be *)

Definition chanOf (c : gcall) : list nat := match gc_caller c with GSelect ch | GTimer ch | GPut ch _ => [ch] | _ => [] end.

(** What a call's parts say about each other and about its channel. *)
Definition callOk (chs : list (option nat)) (t : nat) (c : gcall) : Prop :=
  match gc_caller c with
  | GStart => c = MkGcall GStart WNone false false
  | GSelect ch | GTimer ch =>
      gc_timedout c = false /\
      match gc_worker c with
      | WRequest w | WLocked w => w = ch /\ gc_responded c = false /\ chs !! ch = Some None
      | WSent => gc_responded c = false /\ chs !! ch = Some (Some t)
      | WRelease | WEnded => gc_responded c = true /\ chs !! ch = Some (Some t)
      | WNone => False
      end
  | GPut ch r =>
      chs !! ch = Some None /\
      match r with
      | Responded k => k = t /\ gc_timedout c = false /\ match gc_worker c with WSent | WRelease | WEnded => True | _ => False end
      | TimedOut => gc_timedout c = true /\ match gc_worker c with WNone | WSent => False | _ => True end
      end
  | GReturned r =>
      match r with
      | Responded k => k = t /\ gc_timedout c = false /\ match gc_worker c with WSent | WRelease | WEnded => True | _ => False end
      | TimedOut => gc_worker c = WNone \/ gc_timedout c = true /\ match gc_worker c with WNone | WSent => False | _ => True end
      end
  end.

Record getInv (s : getWorld) : Prop := {
  gi_apart : NoDup (held chanOf (gw_calls s) ++ gw_pool s);
  gi_made : Forall (fun ch => ch < length (gw_chs s)) (held chanOf (gw_calls s) ++ gw_pool s);
  gi_empty : forall ch, ch ∈ gw_pool s -> gw_chs s !! ch = Some None;
  gi_calls : forall t c, gw_calls s !! t = Some c -> callOk (gw_chs s) t c
}.

Lemma callOk_chs chs chs' t c : (forall ch, ch ∈ chanOf c -> chs' !! ch = chs !! ch) -> callOk chs t c -> callOk chs' t c.
Proof.
  intros H. unfold callOk. unfold chanOf in H. destruct (gc_caller c) as [|ch|ch|ch r|r]; [done|..|done]; (rewrite (H ch); [done|by apply list_elem_of_singleton]).
Qed.

(** A step of a call that changes its own channel at most. *)
Lemma get_move s t c c' chs pool :
  getInv s -> gw_calls s !! t = Some c -> length chs = length (gw_chs s) ->
  (forall ch, ~ ch ∈ chanOf c -> chs !! ch = gw_chs s !! ch) -> chanOf c' ++ pool ≡ₚ chanOf c ++ gw_pool s ->
  (forall ch, ch ∈ pool -> ch ∈ gw_pool s \/ chs !! ch = Some None) -> callOk chs t c' -> getInv (MkGetWorld chs pool (<[t := c']> (gw_calls s))).
Proof.
  intros I L El Keep P E K.  pose proof (held_exchange chanOf _ t c c' (gw_pool s) pool L P) as Ep.
  split; cbn.
  - rewrite Ep. apply (gi_apart _ I).
  - rewrite Ep, El. apply (gi_made _ I).
  - intros ch Hc. destruct (E ch Hc) as [Hp|]; [|done]. rewrite Keep; [by apply (gi_empty _ I)|]. intros Hx.
    by apply (held_not_pool chanOf _ t c ch _ (gi_apart _ I) L Hx).
  - intros u d Lu. apply list_lookup_insert_Some in Lu as [(<- & <- & _)|[D Lu]]; [done|]. apply (callOk_chs (gw_chs s)); [|by apply (gi_calls _ I)].
    intros ch Hd. apply Keep. intros Hc. by apply (held_apart chanOf _ t u c d ch _ (gi_apart _ I) L Lu D Hc).
Qed.

Lemma start_inv s t c timeout pick :
  getInv s -> gw_calls s !! t = Some c -> gc_caller c = GStart ->
  match clientGetURLDeadline t c timeout pick s with To s' => getInv s' | Panics => False | Blocked => True end.
Proof.
  intros I L Ec. pose proof (gi_calls _ I t c L) as K. unfold callOk in K. rewrite Ec in K. unfold clientGetURLDeadline. rewrite Ec.
  destruct (timeout <=? 0)%Z.
  { apply (get_move s t c); [done|done|done|done|unfold chanOf; by rewrite Ec|by left|]. cbn. rewrite K. by left. }
  unfold getCh. destruct (pick ≫= _) as [[ch pool]|] eqn:Ep.
  - destruct pick as [i|]; [cbn in Ep|done]. destruct (gw_pool s !! i) as [ch0|] eqn:Ei; [cbn in Ep|done]. injection Ep as <- <-.
    pose proof (delete_Permutation _ _ _ Ei) as P. assert (ch0 ∈ gw_pool s) as Hc by (by eapply list_elem_of_lookup_2).
    apply (get_move s t c); [done|done|done|done|unfold chanOf; rewrite Ec; by symmetry| |].
    + intros x Hx. left. rewrite P. by right.
    + cbn. split; [done|]. split; [done|]. split; [done|]. by apply (gi_empty _ I).
  - set (n := length (gw_chs s)). assert (getInv (MkGetWorld (gw_chs s ++ [None]) (n :: gw_pool s) (gw_calls s))) as I1.
    { destruct I as [I1 I2 I3 I4]. assert (forall x, x ∈ held chanOf (gw_calls s) ++ gw_pool s -> x < n) as Old by (by apply Forall_forall).
      split; cbn.
      - rewrite <- Permutation_middle. apply NoDup_cons. split; [|done]. intros Hx. apply Old in Hx. lia.
      - apply Forall_forall. intros x Hx. rewrite length_app. cbn. assert (x = n \/ x ∈ held chanOf (gw_calls s) ++ gw_pool s) as [->|H] by (rewrite !elem_of_app, !elem_of_cons in *; tauto); [lia|].
        apply Old in H. lia.
      - intros x [->|Hx]%elem_of_cons; [by rewrite lookup_app_r, Nat.sub_diag by done|]. apply lookup_app_l_Some. by apply I3.
      - intros u d Lu. apply (callOk_chs (gw_chs s)); [|by apply I4]. intros x Hx. apply lookup_app_l. apply Old. apply elem_of_app. left. apply elem_of_held. by exists u, d. }
    apply (get_move (MkGetWorld (gw_chs s ++ [None]) (n :: gw_pool s) (gw_calls s)) t c); [done|done|done|done|unfold chanOf; by rewrite Ec| |].
    + intros x Hx. left. by right.
    + cbn. split; [done|]. split; [done|]. split; [done|]. by rewrite lookup_app_r, Nat.sub_diag by done.
Qed.

(** A call that changes the content of its channel, or nothing of it. *)
Lemma own_move s t c c' ch v :
  getInv s -> gw_calls s !! t = Some c -> chanOf c = [ch] -> chanOf c' = [ch] -> callOk (<[ch := v]> (gw_chs s)) t c' -> getInv (setCall t c' (setCh ch v s)).
Proof.
  intros I L Ec Ec' K. apply (get_move s t c c' (<[ch := v]> (gw_chs s)) (gw_pool s)); [done|done|by rewrite length_insert| |by rewrite Ec, Ec'|by left|done].
  intros x Hx. apply list_lookup_insert_ne. intros ->. apply Hx. rewrite Ec. by apply list_elem_of_singleton.
Qed.

Lemma still_move s t c c' : getInv s -> gw_calls s !! t = Some c -> chanOf c' = chanOf c -> callOk (gw_chs s) t c' -> getInv (setCall t c' s).
Proof. intros I L Ec K. apply (get_move s t c); [done|done|done|done|by rewrite Ec|by left|done]. Qed.

Lemma caller_inv s t c timeout pick :
  getInv s -> gw_calls s !! t = Some c -> match clientGetURLDeadline t c timeout pick s with To s' => getInv s' | Panics => False | Blocked => True end.
Proof.
  intros I L. pose proof (gi_calls _ I t c L) as K. unfold callOk in K. destruct (gc_caller c) as [|ch|ch|ch r|r] eqn:Ec; [by apply start_inv|..];
    unfold clientGetURLDeadline; rewrite Ec; [..|done].
  all: assert (forall ch0, gc_caller c = GSelect ch0 \/ gc_caller c = GTimer ch0 -> forall v k, gw_chs s !! ch0 = Some v -> <[ch0 := k]> (gw_chs s) !! ch0 = Some k) as Ins
    by (intros ? _ v k Lv; apply list_lookup_insert_eq; by eapply lookup_lt_Some).
  - destruct (gw_chs s !! ch) as [[k|]|] eqn:Lc; try done. destruct K as [T K].
    apply (own_move s t c); [done|done|unfold chanOf; by rewrite Ec|done|]. split; [apply (Ins ch (or_introl Ec) _ _ Lc)|].
    destruct (gc_worker c) eqn:Ew; cbn; rewrite ?Ew; destruct_and?; simplify_eq; try done; by naive_solver.
  - unfold locked. destruct K as [T K]. destruct (gc_worker c) eqn:Ew; try done.
    + destruct K as (-> & R & Lc). rewrite R. apply (still_move s t c); [done|done|unfold chanOf; by rewrite Ec|]. cbn. done.
    + destruct K as [R Lc]. rewrite R, Lc. apply (own_move s t c); [done|done|unfold chanOf; by rewrite Ec|done|]. split; [apply (Ins ch (or_intror Ec) _ _ Lc)|]. cbn. by rewrite ?Ew.
    + destruct K as [R Lc]. rewrite R, Lc. apply (own_move s t c); [done|done|unfold chanOf; by rewrite Ec|done|]. split; [apply (Ins ch (or_intror Ec) _ _ Lc)|]. cbn. by rewrite ?Ew.
  - destruct K as [Lc K]. apply (get_move s t c); [done|done|done|done|unfold chanOf; by rewrite Ec| |].
    + intros x [->|Hx]%elem_of_cons; [by right|by left].
    + cbn. destruct r; [done|by right].
Qed.

Lemma getWorker_inv s t c :
  getInv s -> gw_calls s !! t = Some c -> match stepGetWorker t c s with To s' => getInv s' | Panics => False | Blocked => True end.
Proof.
  intros I L. pose proof (gi_calls _ I t c L) as K. unfold callOk in K. unfold stepGetWorker.
  destruct c as [pc w to re]. cbn [gc_caller gc_worker gc_timedout gc_responded] in *. destruct w as [|ch|ch| | |]; try done.
  - apply (still_move s t _ _ I L); [done|]. unfold callOk. cbn. destruct pc as [|x|x|x r|r]; try done; destruct r; naive_solver.
  - destruct to.
    + apply (still_move s t _ _ I L); [done|]. unfold callOk. cbn. destruct pc as [|x|x|x r|r]; try done; try (by destruct K); destruct r; naive_solver.
    + destruct (gw_chs s !! ch) as [[|]|] eqn:Lc; try done. destruct pc as [|x|x|x r|r]; try done.
      * destruct K as (_ & -> & -> & _). apply (own_move s t _ _ x (Some t) I L); [done|done|]. cbn. split; [done|]. split; [done|].
        apply list_lookup_insert_eq. by eapply lookup_lt_Some.
      * destruct K as (_ & -> & -> & _). apply (own_move s t _ _ x (Some t) I L); [done|done|]. cbn. split; [done|]. split; [done|].
        apply list_lookup_insert_eq. by eapply lookup_lt_Some.
      * exfalso. destruct r; naive_solver.
      * exfalso. destruct r; naive_solver.
  - apply (still_move s t _ _ I L); [done|]. unfold callOk. cbn. destruct pc as [|x|x|x r|r]; try done; try (by destruct K as (? & ? & ?)); destruct r; naive_solver.
  - apply (still_move s t _ _ I L); [done|]. unfold callOk. cbn. destruct pc as [|x|x|x r|r]; try done; destruct r; naive_solver.
Qed.

Lemma get_step s t a : getInv s -> match step (Machine := get_machine) t a s with To s' => getInv s' | Panics => False | Blocked => True end.
Proof.
  intros I. unfold step, get_machine. destruct a.
  - destruct I as [I1 I2 I3 I4]. split; cbn.
    + rewrite held_snoc. cbn. by rewrite app_nil_r.
    + rewrite held_snoc. cbn. by rewrite app_nil_r.
    + done.
    + intros u d Lu. apply lookup_app_Some in Lu as [Lu|[_ Lu]]; [by apply I4|]. apply list_lookup_singleton_Some in Lu as [_ <-]. done.
  - destruct (gw_calls s !! t) as [c|] eqn:L; [by apply caller_inv|done].
  - destruct (gw_calls s !! t) as [c|] eqn:L; [|done]. destruct (gc_caller c) eqn:Ec; try done. apply (still_move s t c); [done|done|unfold chanOf; by rewrite Ec|].
    pose proof (gi_calls _ I t c L) as K. unfold callOk in K. rewrite Ec in K. done.
  - destruct (gw_calls s !! t) as [c|] eqn:L; [|done]. pose proof (getWorker_inv s t c I L). by destruct (gc_caller c).
Qed.

Lemma get_reachable s : reachable (H := get_machine) getStart s -> getInv s.
Proof.
  apply (reachable_invariant (H := get_machine) getInv).
  - split; cbn; [constructor|constructor|intros ch Hc; by apply elem_of_nil in Hc|]. intros t c L. by rewrite lookup_nil in L.
  - intros t a s1 s2 I E. pose proof (get_step s1 t a I) as H. by rewrite E in H.
Qed.

(** * Properties *)

(** C27. A GET with a deadline returns the response to its own request or ErrTimeout,
    never that of another call, although channels are used again; the goroutine it
    has started is never kept from going on, so it ends, and when the timer is
    chosen the caller waits at most for the goroutine to leave the critical
    section. *)
Theorem clientGetURLDeadline_own (s : getWorld) (t : nat) (c : gcall) (R : reachable (H := get_machine) getStart s) (L : gw_calls s !! t = Some c) :
  (forall k, gc_caller c = GReturned (Responded k) -> k = t) /\
  (gc_worker c <> WNone -> gc_worker c <> WEnded -> exists s', step (Machine := get_machine) t GWork s = To s') /\
  (forall ch, gc_caller c = GTimer ch -> locked c = false -> exists s', step (Machine := get_machine) t (GGo 0 None) s = To s') /\
  (forall ch, ch ∈ gw_pool s -> gw_chs s !! ch = Some None).
Proof.
  pose proof (get_reachable s R) as I. pose proof (gi_calls _ I t c L) as K. split; [|split; [|split; [|apply (gi_empty _ I)]]].
  - intros k E. unfold callOk in K. rewrite E in K. by destruct K.
  - intros N1 N2. unfold step, get_machine. rewrite L. assert (exists s', stepGetWorker t c s = To s') as [s' E].
    { unfold stepGetWorker. unfold callOk in K. destruct (gc_worker c) as [|w|w| | |] eqn:Ew; try done; try (by eexists).
      destruct (gc_timedout c) eqn:Et; [by eexists|]. destruct (gc_caller c) as [|ch|ch|ch r|r]; try (by subst c).
      - destruct K as (_ & -> & _ & ->). by eexists.
      - destruct K as (_ & -> & _ & ->). by eexists.
      - exfalso. destruct r; naive_solver.
      - exfalso. destruct r; naive_solver. }
    exists s'. by destruct (gc_caller c).
  - intros ch Ec Hl. unfold step, get_machine. rewrite L. unfold clientGetURLDeadline. unfold callOk in K. rewrite Ec, Hl in *. destruct K as [T K].
    destruct (gc_responded c) eqn:Er; [|by eexists]. unfold locked in Hl. destruct (gc_worker c); try done; destruct_and?; simplify_eq; try done;
      match goal with H : gw_chs s !! ch = Some (Some _) |- _ => rewrite H end; by eexists.
Qed.

(** One call after another with the same channel, the first one too late. *)
Definition getRun : list (nat * gact) :=
  [(0, GCall); (0, GGo 5 None); (0, GFire); (0, GGo 0 None); (0, GGo 0 None); (1, GCall); (1, GGo 5 (Some 0)); (0, GWork); (0, GWork); (1, GWork); (1, GWork);
   (1, GGo 0 None); (1, GGo 0 None)].
Definition getAfter : getWorld := match run (H := get_machine) getRun getStart with To s => s | _ => getStart end.

Lemma getAfter_reachable : reachable (H := get_machine) getStart getAfter.
Proof. apply (run_reachable (H := get_machine) getRun). vm_compute. reflexivity. Qed.

Lemma clientGetURLDeadline_own_witness :
  gw_calls getAfter !! 1 = Some (MkGcall (GReturned (Responded 1)) WSent false false) /\
  gc_caller <$> gw_calls getAfter !! 0 = Some (GReturned TimedOut) /\ (forall k, GReturned (Responded 1) = GReturned (Responded k) -> k = 1).
Proof.
  assert (gw_calls getAfter !! 1 = Some (MkGcall (GReturned (Responded 1)) WSent false false)) as L by (vm_compute; reflexivity).
  assert (gc_caller <$> gw_calls getAfter !! 0 = Some (GReturned TimedOut)) as L0 by (vm_compute; reflexivity).
  exact (conj L (conj L0 (proj1 (clientGetURLDeadline_own getAfter 1 _ getAfter_reachable L)))).
Defined.

(** After ErrTimeout the caller has its buffer back while the goroutine still reads
    the response into it. *)
Lemma dst_written_after_timeout :
  match run (H := get_machine) [(0, GCall); (0, GGo 5 None); (0, GFire); (0, GGo 0 None); (0, GGo 0 None)] getStart with To s => gw_calls s | _ => [] end =
  [MkGcall (GReturned TimedOut) (WRequest 0) true false].
Proof. vm_compute. reflexivity. Qed.
