(* ===== verification/Timers.v ===== *)
(** * timer.go, coarseTime.go and the timers of pipelineWork

    time.Timer as it is for the Go version of the module: a timer that runs or not
    and a channel of capacity 1, which Stop and Reset leave alone.  The pool of
    AcquireTimer and ReleaseTimer, and the pool of pipelineWork objects of
    PipelineClient, which keep their timers. *)
From stdpp Require Import relations list_tactics.
From S2P Require Import Prelude Machine.

(** [tr_tick]: a time is in the channel. *)
Record timer := MkTimer { tr_running : bool; tr_tick : bool }.

Definition NewTimer : timer := MkTimer true false.
(** Whether the timer had been running. *)
Definition Timer_Reset (t : timer) : timer * bool := (MkTimer true (tr_tick t), tr_running t).
Definition Timer_Stop (t : timer) : timer * bool := (MkTimer false (tr_tick t), tr_running t).

Definition Timer_fire (t : timer) : option timer := if tr_running t then Some (MkTimer false true) else None.
(** A receive from the channel. *)
Definition Timer_receive (t : timer) : option timer := if tr_tick t then Some (MkTimer (tr_running t) false) else None.

(** [None] is the panic on an active timer. *)
Definition initTimer (t : option timer) : option timer :=
  match t with
  | None => Some NewTimer
  | Some t => let '(t, active) := Timer_Reset t in if active then None else Some t
  end.

Definition stopTimer (t : timer) : timer :=
  let '(t, active) := Timer_Stop t in
  if active then t else default t (Timer_receive t).

(** CoarseTimeNow: the seconds of a time in nanoseconds. *)
Definition CoarseTimeNow (now : Z) : Z := now - now mod 10 ^ 9.

Lemma CoarseTimeNow_spec now : CoarseTimeNow now <= now < CoarseTimeNow now + 10 ^ 9 /\ CoarseTimeNow now mod 10 ^ 9 = 0.
Proof.
  unfold CoarseTimeNow. pose proof (Z.mod_pos_bound now (10 ^ 9)). split; [lia|]. rewrite Zminus_mod, Z.mod_mod by lia. by rewrite Z.sub_diag.
Qed.

(** ** AcquireTimer and ReleaseTimer *)

(** A goroutine with a timer: running its select, or done with it. *)
Inductive tholder := Holding (t : timer) (received : bool) | Released.

Record timerWorld := MkTimerWorld { tr_pool : list timer; tr_holders : list tholder }.

Inductive tact := TAcquire (pick : option nat) | TFire | TReceive | TRelease.

(** AcquireTimer; [None]: initTimer panics. *)
Definition AcquireTimer (pick : option nat) (s : timerWorld) : option (timer * timerWorld) :=
  match pick ≫= fun i => t ← tr_pool s !! i; Some (t, delete i (tr_pool s)) with
  | None => Some (NewTimer, s)
  | Some (t, pool) => t ← initTimer (Some t); Some (t, MkTimerWorld pool (tr_holders s))
  end.

Definition ReleaseTimer (t : timer) (s : timerWorld) : timerWorld := MkTimerWorld (stopTimer t :: tr_pool s) (tr_holders s).

Definition hold (i : nat) (h : tholder) (s : timerWorld) : timerWorld := MkTimerWorld (tr_pool s) (<[i := h]> (tr_holders s)).

#[export] Instance timer_machine : Machine timerWorld tact := fun i a s =>
  match a with
  | TAcquire pick =>
      match AcquireTimer pick s with
      | Some (t, s) => To (MkTimerWorld (tr_pool s) (tr_holders s ++ [Holding t false]))
      | None => Panics
      end
  | _ =>
      match tr_holders s !! i with
      | Some (Holding t received) =>
          match a with
          | TFire => match Timer_fire t with Some t => To (hold i (Holding t received) s) | None => Blocked end
          | TReceive => if received then Blocked else match Timer_receive t with Some t => To (hold i (Holding t true) s) | None => Blocked end
          | _ => To (hold i Released (ReleaseTimer t s))
          end
      | _ => Blocked
      end
  end.

Definition noTimers : timerWorld := MkTimerWorld [] [].

Definition atRest (t : timer) : Prop := t = MkTimer false false.

(** A timer in use fires once: it is running without a tick, has fired, or its tick
    has been received. *)
Definition inUse (h : tholder) : Prop :=
  match h with
  | Holding t received => t = MkTimer true false /\ received = false \/ t = MkTimer false true /\ received = false \/ t = MkTimer false false /\ received = true
  | Released => True
  end.

Definition timersOk (s : timerWorld) : Prop := Forall atRest (tr_pool s) /\ Forall inUse (tr_holders s).

Lemma stopTimer_rest t received : inUse (Holding t received) -> atRest (stopTimer t).
Proof. intros [[-> _]|[[-> _]|[-> _]]]; done. Qed.

Lemma AcquireTimer_spec s pick : timersOk s -> exists s', AcquireTimer pick s = Some (NewTimer, s') /\ Forall atRest (tr_pool s') /\ tr_holders s' = tr_holders s.
Proof.
  intros [P U]. unfold AcquireTimer. destruct (pick ≫= _) as [[t pool]|] eqn:E; [|by exists s].
  destruct pick as [i|]; [cbn in E|done]. destruct (tr_pool s !! i) as [x|] eqn:L; [cbn in E|done]. injection E as <- <-.
  assert (atRest x) as -> by (by apply (proj1 (Forall_lookup _ _) P i)). exists (MkTimerWorld (delete i (tr_pool s)) (tr_holders s)).
  split; [done|]. split; [by apply Forall_delete|done].
Qed.

Lemma timers_step s i a : timersOk s -> match step (Machine := timer_machine) i a s with To s' => timersOk s' | Panics => False | Blocked => True end.
Proof.
  intros K. pose proof K as [P U]. unfold step, timer_machine. destruct a as [pick| | |].
  - destruct (AcquireTimer_spec s pick K) as (s' & -> & P' & E). split; cbn; [done|]. rewrite E. apply Forall_app. split; [done|]. constructor; [by left|constructor].
  - destruct (tr_holders s !! i) as [[t r|]|] eqn:L; [|done..]. pose proof (proj1 (Forall_lookup _ _) U i _ L) as H.
    destruct H as [[-> ->]|[[-> ->]|[-> ->]]]; cbn; try done. split; [done|]. apply Forall_insert; [done|]. right. by left.
  - destruct (tr_holders s !! i) as [[t r|]|] eqn:L; [|done..]. pose proof (proj1 (Forall_lookup _ _) U i _ L) as H.
    destruct H as [[-> ->]|[[-> ->]|[-> ->]]]; cbn; try done. split; [done|]. apply Forall_insert; [done|]. right. by right.
  - destruct (tr_holders s !! i) as [[t r|]|] eqn:L; [|done..]. pose proof (proj1 (Forall_lookup _ _) U i _ L) as H.
    split; cbn; [constructor; [by apply (stopTimer_rest t r)|done]|]. by apply Forall_insert.
Qed.

Lemma timers_reachable s : reachable (H := timer_machine) noTimers s -> timersOk s.
Proof.
  apply (reachable_invariant (H := timer_machine) timersOk); [by split; constructor|].
  intros i a s1 s2 I E. pose proof (timers_step s1 i a I) as H. by rewrite E in H.
Qed.

(** ** The timers of pipelineWork *)

Record pipelineTimer := MkPipelineTimer { pt_t : option timer; pt_deadline : option Z }.

(** acquirePipelineWork, of a work from the pool or a new one. *)
Definition acquirePipelineWork (w : pipelineTimer) (timeout now : Z) : pipelineTimer :=
  if 0 <? timeout then
    MkPipelineTimer (Some match pt_t w with None => NewTimer | Some t => fst (Timer_Reset t) end) (Some (now + timeout))
  else MkPipelineTimer (pt_t w) None.

Definition releasePipelineWork (w : pipelineTimer) : pipelineTimer := MkPipelineTimer (option_map (fun t => fst (Timer_Stop t)) (pt_t w)) (pt_deadline w).

(** What DoDeadline's select finds: [None] is the nil dereference, [true]: the timer
    can be received from at once. *)
Definition selectTimer (w : pipelineTimer) : option bool := tr_tick <$> pt_t w.

(** A timer that fires while the response is taken leaves its tick behind: the next
    call that gets the work times out at once. *)
Lemma pipeline_stale_tick :
  let w := acquirePipelineWork (MkPipelineTimer None None) 5 0 in
  let w := MkPipelineTimer (pt_t w ≫= Timer_fire) (pt_deadline w) in
  selectTimer (acquirePipelineWork (releasePipelineWork w) 1000 7) = Some true.
Proof. vm_compute. reflexivity. Qed.

(** A deadline that is exactly now passes DoDeadline's test, and a new work has no
    timer then. *)
Lemma pipeline_deadline_now : (0 <? 0) = false /\ selectTimer (acquirePipelineWork (MkPipelineTimer None None) 0 5) = None.
Proof. vm_compute. done. Qed.

(** * Properties *)

(** AcquireTimer never panics and hands out a running timer without an old tick
    in its channel, from whichever uses the pool has been filled. *)
Lemma AcquireTimer_fresh (s : timerWorld) (pick : option nat) (R : reachable (H := timer_machine) noTimers s) :
  exists s', AcquireTimer pick s = Some (MkTimer true false, s') /\ (length (tr_pool s') <= length (tr_pool s))%nat.
Proof.
  unfold AcquireTimer. pose proof (timers_reachable s R) as [P U]. destruct (pick ≫= _) as [[t pool]|] eqn:E; [|by exists s].
  destruct pick as [i|]; [cbn in E|done]. destruct (tr_pool s !! i) as [x|] eqn:L; [cbn in E|done]. injection E as <- <-.
  assert (atRest x) as -> by (by apply (proj1 (Forall_lookup _ _) P i)). eexists. split; [done|]. cbn. rewrite length_delete by (by eexists). lia.
Qed.

Definition timersAfter : timerWorld :=
  match run (H := timer_machine) [(0, TAcquire None); (0, TFire); (0, TRelease)]%nat noTimers with To s => s | _ => noTimers end.

Lemma timersAfter_reachable : reachable (H := timer_machine) noTimers timersAfter.
Proof. apply (run_reachable (H := timer_machine) [(0, TAcquire None); (0, TFire); (0, TRelease)]%nat). vm_compute. reflexivity. Qed.

Lemma AcquireTimer_fresh_witness :
  tr_pool timersAfter = [MkTimer false false] /\ exists s', AcquireTimer (Some 0%nat) timersAfter = Some (MkTimer true false, s') /\ (length (tr_pool s') <= length (tr_pool timersAfter))%nat.
Proof. split; [vm_compute; reflexivity|]. exact (AcquireTimer_fresh timersAfter (Some 0%nat) timersAfter_reachable). Defined.
