(* ===== verification/Messages.v ===== *)
(** * http.go: messages and other writers

    What http.go does with a message besides reading it and sending it: writing the
    body alone, writing to any writer with a count of the bytes, the message as a
    string, bodies made by a writer, and multipart forms, whose writer of the
    standard library is written out.  The writers here take everything they are
    given. *)
From Stdlib Require Import Strings.String.
From stdpp Require Import list_tactics.
From S2P Require Import Prelude BytesConv Consts Args Uri Cookie HeaderScan RequestHeader ResponseHeader Bufio Body HeaderRead Http.

(** ** multipart.Writer *)

(** The text of a part's header: the lines of its fields, and the empty one. *)
Definition partHeader (h : list (bytes * list bytes)) : bytes :=
  concat (map (fun kv => concat (map (fun v => fst kv ++ bs ": " ++ v ++ strCRLF) (snd kv))) h) ++ strCRLF.

Definition dashBoundary (boundary : bytes) : bytes := bs "--" ++ boundary.
Definition delimiter (boundary : bytes) : bytes := strCRLF ++ dashBoundary boundary.

(** What has been written, and whether there has been a part. *)
Record mpWriter := MkMpWriter { mw_out : bytes; mw_boundary : bytes; mw_lastpart : bool }.

Definition boundaryChar (c : byte) : bool :=
  let n := bz c in
  (65 <=? n) && (n <=? 90) || (97 <=? n) && (n <=? 122) || (48 <=? n) && (n <=? 57) || bool_decide (c ∈ bs "'()+_,-./:=?").

Definition SetBoundary (boundary : bytes) (w : mpWriter) : mpWriter + error :=
  if (zlen boundary <? 1) || (70 <? zlen boundary) then inr (Errorf "mime: invalid boundary length")
  else
    let last := (length boundary - 1)%nat in
    if forallb (fun ic => boundaryChar (snd ic) || bool_decide (snd ic = " "%byte /\ fst ic <> last)) (imap pair boundary)
    then inl (MkMpWriter (mw_out w) boundary (mw_lastpart w)) else inr (Errorf "mime: invalid boundary character").

(** CreatePart; the keys of a header are visited in order. *)
Definition CreatePart (h : list (bytes * list bytes)) (w : mpWriter) : mpWriter :=
  let sep := if mw_lastpart w then delimiter (mw_boundary w) else dashBoundary (mw_boundary w) in
  MkMpWriter (mw_out w ++ sep ++ strCRLF ++ partHeader h) (mw_boundary w) true.

Definition mpWrite (p : bytes) (w : mpWriter) : mpWriter := MkMpWriter (mw_out w ++ p) (mw_boundary w) (mw_lastpart w).
Definition mpClose (w : mpWriter) : mpWriter := mpWrite (delimiter (mw_boundary w) ++ bs "--" ++ strCRLF) w.

Definition escapeQuotes (s : bytes) : bytes :=
  concat (map (fun c => if decide (c = "\"%byte) then bs "\\" else if decide (c = x22) then ["\"%byte; x22] else [c]) s).

Definition fieldHeader (name : bytes) : list (bytes * list bytes) :=
  [(bs "Content-Disposition", [bs "form-data; name=" ++ [x22] ++ escapeQuotes name ++ [x22]])].

Definition WriteField (name value : bytes) (w : mpWriter) : mpWriter := mpWrite value (CreatePart (fieldHeader name) w).

(** ** WriteMultipartForm *)

(** A multipart.FileHeader: its header, what opening, reading and closing it give. *)
Record formFile := MkFormFile { mf_Header : list (bytes * list bytes); mf_Open : option error; mf_content : bytes; mf_Read : option error; mf_Close : option error }.

(** A multipart.Form, in the order its maps are visited. *)
Record mform := MkMform { mp_Value : list (bytes * list bytes); mp_File : list (bytes * list formFile) }.

Definition writeValues (values : list (bytes * list bytes)) (w : mpWriter) : mpWriter :=
  fold_left (fun w kv => fold_left (fun w v => WriteField (fst kv) v w) (snd kv) w) values w.

Fixpoint writeFiles (files : list formFile) (w : mpWriter) : mpWriter * option error :=
  match files with
  | [] => (w, None)
  | fv :: files =>
      let w := CreatePart (mf_Header fv) w in
      match mf_Open fv with
      | Some _ => (w, Some (Errorf "cannot open form file %q (%q): %s"))
      | None =>
          let w := mpWrite (mf_content fv) w in
          match mf_Read fv, mf_Close fv with
          | Some _, _ => (w, Some (Errorf "error when copying form file %q (%q): %s"))
          | None, Some _ => (w, Some (Errorf "cannot close form file %q (%q): %s"))
          | None, None => writeFiles files w
          end
      end
  end.

(** [None] is the panic on an empty boundary. *)
Definition WriteMultipartForm (out : bytes) (f : mform) (boundary : bytes) : option (bytes * option error) :=
  if decide (boundary = []) then None
  else
    match SetBoundary boundary (MkMpWriter out [] false) with
    | inr _ => Some (out, Some (Errorf "cannot use form boundary %q: %s"))
    | inl w =>
        let '(w, err) := writeFiles (concat (map snd (mp_File f))) (writeValues (mp_Value f) w) in
        match err with
        | Some _ => Some (mw_out w, err)
        | None => Some (mw_out (mpClose w), None)
        end
    end.

Definition marshalMultipartForm (f : mform) (boundary : bytes) : option (bytes * option error) :=
  '(b, err) ← WriteMultipartForm [] f boundary;
  Some match err with Some _ => ([], err) | None => (b, None) end.

(** ** Bodies and messages to other writers *)

Section Writers.
Context `{HttpLib}.

Definition Request_BodyWriteTo (x : Request) (w : bytes) : Request * bytes * option error :=
  match req_bodyStream x with
  | Some st => let '(p, err) := copyZeroAlloc st in (Request_closeBodyStream x, w ++ p, err)
  | None =>
      match req_multipartForm x with
      | Some f =>
          if Request_onlyMultipartForm x then
            match multipart_Write f (req_multipartFormBoundary x) with inl b => (x, w ++ b, None) | inr err => (x, w, Some err) end
          else let '(x, b) := Request_bodyBytes x in (x, w ++ b, None)
      | None => let '(x, b) := Request_bodyBytes x in (x, w ++ b, None)
      end
  end.

Definition Response_BodyWriteTo (x : Response) (w : bytes) : Response * bytes * option error :=
  match resp_bodyStream x with
  | Some st => let '(p, err) := copyZeroAlloc st in (Response_closeBodyStream x, w ++ p, err)
  | None => (x, w ++ Response_bodyBytes x, None)
  end.

(** writeBufio: the count of the statsWriter; the buffer is flushed in any case. *)
Definition writeBufio {X} (write : bytes -> option (X * bytes * option error)) : option (X * bytes * Z * option error) :=
  '(x, out, err) ← write [];
  Some (x, out, zlen out, err).

Definition Request_WriteTo (x : Request) : option (Request * bytes * Z * option error) := writeBufio (Request_Write x).
Definition Response_WriteTo (serverDate : bytes) (x : Response) : option (Response * bytes * Z * option error) := writeBufio (Response_Write serverDate x).

Definition getHTTPString {X} (write : bytes -> option (X * bytes * option error)) : option (X * bytes) :=
  '(x, out, err) ← write [];
  Some (x, match err with Some err => errorText err | None => out end).

Definition Request_String (x : Request) : option (Request * bytes) := getHTTPString (Request_Write x).
Definition Response_String (serverDate : bytes) (x : Response) : option (Response * bytes) := getHTTPString (Response_Write serverDate x).

(** The writers of BodyWriter. *)
Definition requestBodyWriter_Write (x : Request) (p : bytes) : Request * Z := (Request_AppendBody x p, zlen p).
Definition responseBodyWriter_Write (x : Response) (p : bytes) : Response * Z := (Response_AppendBody x p, zlen p).

(** SetBodyStreamWriter: the stream has what the StreamWriter flushes, and then the
    end. *)
Definition Request_SetBodyStreamWriter (x : Request) (written : list bytes) : option Request := Request_SetBodyStream x (MkStream (MkSource written EOF) None) (-1).
Definition Response_SetBodyStreamWriter (x : Response) (written : list bytes) : option Response := Response_SetBodyStream x (MkStream (MkSource written EOF) None) (-1).

(** SendFile, of what opening the file gives and Stat: its text, size and time. *)
Definition Response_SendFile `{TimeLib} (file : (source * ((Z * Time) + error)) + error) (x : Response) : option (Response * option error) :=
  match file with
  | inr err => Some (x, Some err)
  | inl (_, inr err) => Some (x, Some err)
  | inl (f, inl (size64, modTime)) =>
      let x := set_resp_Header (ResponseHeader_SetCanonical (resp_Header x) strLastModified (AppendHTTPDate [] modTime)) x in
      x ← Response_SetBodyStream x (MkStream f None) size64;
      Some (x, None)
  end.

(** The two ends of a buffer that bufferSnippet quotes. *)
Definition bufferSnippet (b : bytes) : bytes * bytes :=
  let n := length b in
  let '(start, stop) := if (n - 200 <=? 200)%nat then (n, n) else (200%nat, (n - 200)%nat) in
  (take start b, drop stop b).
End Writers.

(** ** The layout of a form *)

Definition formParts (f : mform) : list ((list (bytes * list bytes)) * bytes) :=
  concat (map (fun kv => map (fun v => (fieldHeader (fst kv), v)) (snd kv)) (mp_Value f)) ++
  map (fun fv => (mf_Header fv, mf_content fv)) (concat (map snd (mp_File f))).

Definition partText (p : list (bytes * list bytes) * bytes) : bytes := partHeader (fst p) ++ snd p.

Definition addPart (w : mpWriter) (p : list (bytes * list bytes) * bytes) : mpWriter := mpWrite (snd p) (CreatePart (fst p) w).

Lemma writeValues_parts values w :
  writeValues values w = fold_left addPart (concat (map (fun kv => map (fun v => (fieldHeader (fst kv), v)) (snd kv)) values)) w.
Proof.
  unfold writeValues. revert w. induction values as [|[k vv] values IH]; intros w; [done|]. cbn [map concat fold_left fst snd]. rewrite fold_left_app, IH. f_equal.
  clear IH. revert w. induction vv as [|v vv IH]; intros w; [done|]. cbn [map fold_left]. by rewrite IH.
Qed.

Definition fileOk (fv : formFile) : Prop := mf_Open fv = None /\ mf_Read fv = None /\ mf_Close fv = None.

Lemma writeFiles_parts files w :
  Forall fileOk files -> writeFiles files w = (fold_left addPart (map (fun fv => (mf_Header fv, mf_content fv)) files) w, None).
Proof.
  intros F. revert w. induction F as [|fv files (E1 & E2 & E3) _ IH]; intros w; [done|]. cbn [writeFiles map fold_left]. rewrite E1, E2, E3. by rewrite IH.
Qed.

Lemma addParts_out ps w :
  mw_lastpart w = true -> let w' := fold_left addPart ps w in
  mw_out w' = mw_out w ++ concat (map (fun p => delimiter (mw_boundary w) ++ strCRLF ++ partText p) ps) /\ mw_boundary w' = mw_boundary w.
Proof.
  revert w. induction ps as [|p ps IH]; intros w L; [by rewrite app_nil_r|]. cbn [fold_left map concat]. destruct (IH (addPart w p) eq_refl) as [-> ->].
  unfold addPart, CreatePart. rewrite L. unfold mpWrite. cbn [mw_out mw_boundary fst snd]. split; [|done]. unfold partText. by rewrite <- !app_assoc.
Qed.

Definition layout (b : bytes) (ps : list (list (bytes * list bytes) * bytes)) : bytes :=
  match ps with
  | [] => delimiter b ++ bs "--" ++ strCRLF
  | p :: ps => dashBoundary b ++ strCRLF ++ partText p ++ concat (map (fun p => delimiter b ++ strCRLF ++ partText p) ps) ++ delimiter b ++ bs "--" ++ strCRLF
  end.

Lemma WriteMultipartForm_layout out f b w :
  SetBoundary b (MkMpWriter out [] false) = inl w -> Forall fileOk (concat (map snd (mp_File f))) ->
  WriteMultipartForm out f b = Some (out ++ layout b (formParts f), None).
Proof.
  intros E F. assert (w = MkMpWriter out b false) as ->.
  { unfold SetBoundary in E. destruct (_ || _); [done|]. destruct (forallb _ _); [|done]. by injection E as <-. }
  assert (b <> []) as Nb by (by intros ->). unfold WriteMultipartForm. rewrite decide_False by done. rewrite E, writeFiles_parts by done.
  rewrite writeValues_parts, <- fold_left_app. fold (formParts f). unfold mpClose, mpWrite. cbn [mw_out]. destruct (formParts f) as [|p ps]; [done|].
  cbn [fold_left]. destruct (addParts_out ps (addPart (MkMpWriter out b false) p) eq_refl) as [-> ->]. unfold layout, partText, addPart, CreatePart, mpWrite. cbn [mw_out mw_boundary mw_lastpart fst snd].
  by rewrite <- !app_assoc.
Qed.

(** ** A reader of forms *)

(** Behind a delimiter there is another part, up to the next delimiter, or the end. *)
Fixpoint readParts (fuel : nat) (delim t : bytes) : option (list bytes) :=
  match fuel with
  | O => None
  | S fuel =>
      if HasPrefix t (bs "--" ++ strCRLF) then Some []
      else if HasPrefix t strCRLF then
        let t := drop 2 t in
        n ← Index t delim;
        ps ← readParts fuel delim (drop (n + length delim) t);
        Some (take n t :: ps)
      else None
  end.

Definition readForm (b t : bytes) : option (list bytes) :=
  if HasPrefix t (dashBoundary b) then readParts (S (length t)) (delimiter b) (drop (length (dashBoundary b)) t)
  else if HasPrefix t (delimiter b) then readParts (S (length t)) (delimiter b) (drop (length (delimiter b)) t)
  else None.

(** The first delimiter is the one behind the part. *)
Lemma Index_delimiter p c d rest : ~ c ∈ d -> Index p (c :: d) = None -> Index (p ++ (c :: d) ++ rest) (c :: d) = Some (length p).
Proof.
  intros Hc. induction p as [|x p IH]; intros N.
  - pose proof (HasPrefix_app (c :: d) rest) as H. change (Index (c :: d ++ rest) (c :: d) = Some 0%nat). change (HasPrefix (c :: d ++ rest) (c :: d) = true) in H.
    cbn [Index]. by rewrite H.
  - assert (Index p (c :: d) = None) as N'. { cbn [Index] in N. destruct (HasPrefix (x :: p) (c :: d)); [done|]. by destruct (Index p (c :: d)). }
    cbn [app Index]. destruct (HasPrefix (x :: p ++ c :: d ++ rest) (c :: d)) eqn:E; [|change (c :: d ++ rest) with ((c :: d) ++ rest); by rewrite (IH N')].
    exfalso. apply HasPrefix_true in E as [l E]. change (x :: p ++ c :: d ++ rest) with ((x :: p) ++ (c :: d ++ rest)) in E.
    destruct (decide (length (c :: d) <= length (x :: p))%nat) as [H|H].
    + pose proof (proj1 (Index_None (x :: p) (c :: d)) N []) as Nn. apply (Nn (drop (length (c :: d)) (x :: p))). cbn [app].
      apply (f_equal (take (length (c :: d)))) in E. rewrite take_app_length, take_app_le in E by done. rewrite <- (take_drop (length (c :: d)) (x :: p)) at 1. by rewrite E.
    + apply (f_equal (drop (length (x :: p)))) in E. rewrite drop_app_length, drop_app_le in E by lia. cbn [length] in *.
      destruct (drop (S (length p)) (c :: d)) as [|y q] eqn:Eq; [apply (f_equal length) in Eq; rewrite length_drop in Eq; cbn in Eq; lia|].
      injection E as <- _. apply Hc. cbn [drop] in Eq. rewrite <- (take_drop (length p) d), Eq. apply elem_of_app. right. by left.
Qed.

(** What is behind the first delimiter. *)
Fixpoint afterDelimiter (delim : bytes) (ps : list (list (bytes * list bytes) * bytes)) : bytes :=
  match ps with
  | [] => bs "--" ++ strCRLF
  | p :: ps => strCRLF ++ partText p ++ delim ++ afterDelimiter delim ps
  end.

Lemma afterDelimiter_eq delim ps : concat (map (fun p => delim ++ strCRLF ++ partText p) ps) ++ delim ++ bs "--" ++ strCRLF = delim ++ afterDelimiter delim ps.
Proof. induction ps as [|p ps IH]; [done|]. cbn [map concat afterDelimiter]. rewrite <- !app_assoc. by rewrite IH. Qed.

Lemma afterDelimiter_length delim ps : (length ps <= length (afterDelimiter delim ps))%nat.
Proof. induction ps as [|p ps IH]; [cbn; lia|]. cbn [afterDelimiter length]. rewrite !length_app. cbn. lia. Qed.

Lemma readParts_after c d ps fuel :
  ~ c ∈ d -> Forall (fun p => Index (partText p) (c :: d) = None) ps -> (length ps < fuel)%nat ->
  readParts fuel (c :: d) (afterDelimiter (c :: d) ps) = Some (map partText ps).
Proof.
  intros Hc F. revert fuel. induction F as [|p ps Fp _ IH]; intros [|fuel] H; try (cbn in H; lia); [done|].
  cbn [readParts afterDelimiter]. assert (forall t, HasPrefix (strCRLF ++ t) (bs "--" ++ strCRLF) = false) as -> by done.
  rewrite HasPrefix_app. change (drop 2 (strCRLF ++ partText p ++ (c :: d) ++ afterDelimiter (c :: d) ps)) with (partText p ++ (c :: d) ++ afterDelimiter (c :: d) ps).
  rewrite Index_delimiter by done. cbn [mbind option_bind]. rewrite app_assoc, <- length_app, drop_app_length, IH by (cbn in H; lia).
  cbn [mbind option_bind map]. by rewrite <- app_assoc, take_app_length.
Qed.

Lemma boundary_no_CR b w : SetBoundary b (MkMpWriter [] [] false) = inl w -> ~ x0d ∈ b.
Proof.
  unfold SetBoundary. destruct (_ || _); [done|]. destruct (forallb _ _) eqn:E; [|done]. intros _ H. apply list_elem_of_lookup in H as [i L].
  rewrite forallb_forall in E. specialize (E (i, x0d)). cbn [fst snd] in E. assert (false = true); [|done]. rewrite <- E.
  - symmetry. change (boundaryChar x0d) with false. cbn [orb]. apply bool_decide_false. by intros [? _].
  - apply list_elem_of_In, list_elem_of_lookup. exists i. by rewrite list_lookup_imap, L.
Qed.

(** * Properties *)

(** C33. The parts of a multipart form are found again in what WriteMultipartForm has
    written, in their order: values first, each with its name, then files with
    their headers.  The boundary is a valid one that does not occur behind a line
    break in a part, and the files can be read. *)
Theorem WriteMultipartForm_roundtrip (f : mform) (b : bytes) (w : mpWriter)
    (E : SetBoundary b (MkMpWriter [] [] false) = inl w) (F : Forall fileOk (concat (map snd (mp_File f))))
    (N : Forall (fun p => Index (partText p) (delimiter b) = None) (formParts f)) :
  exists out, WriteMultipartForm [] f b = Some (out, None) /\ readForm b out = Some (map partText (formParts f)).
Proof.
  exists (layout b (formParts f)). split; [by rewrite (WriteMultipartForm_layout [] f b w)|].
  pose proof (boundary_no_CR b w E) as Hb. assert (~ x0d ∈ x0a :: dashBoundary b) as Hc.
  { unfold dashBoundary. rewrite elem_of_cons, elem_of_app. intros [?|[H|?]]; [done| |done]. apply list_elem_of_In in H as [?|[?|[]]]; done. }
  change (delimiter b) with (x0d :: x0a :: dashBoundary b) in N. unfold readForm, layout. destruct (formParts f) as [|p ps].
  - assert (forall t, HasPrefix (delimiter b ++ t) (dashBoundary b) = false) as -> by done. rewrite HasPrefix_app, drop_app_length. done.
  - rewrite HasPrefix_app, drop_app_length. change (delimiter b) with (x0d :: x0a :: dashBoundary b). rewrite afterDelimiter_eq.
    change (strCRLF ++ partText p ++ (x0d :: x0a :: dashBoundary b) ++ afterDelimiter (x0d :: x0a :: dashBoundary b) ps) with (afterDelimiter (x0d :: x0a :: dashBoundary b) (p :: ps)).
    apply readParts_after; [done|done|]. pose proof (afterDelimiter_length (x0d :: x0a :: dashBoundary b) (p :: ps)). rewrite length_app. lia.
Qed.

Definition sampleForm : mform :=
  MkMform [(bs "a", [bs "1"; bs "2"]); (bs "b" ++ [x22], [bs "x" ++ strCRLF ++ bs "--y"])]
    [(bs "f", [MkFormFile [(bs "Content-Disposition", [bs "form-data; name=f"]); (bs "Content-Type", [bs "text/plain"])] None (bs "hello") None None])].

Lemma WriteMultipartForm_roundtrip_witness :
  (Forall fileOk (concat (map snd (mp_File sampleForm))) /\ length (formParts sampleForm) = 4%nat) /\
  exists out, WriteMultipartForm [] sampleForm (bs "bound") = Some (out, None) /\ readForm (bs "bound") out = Some (map partText (formParts sampleForm)).
Proof.
  assert (Forall fileOk (concat (map snd (mp_File sampleForm)))) as F.
  { constructor; [exact (conj eq_refl (conj eq_refl eq_refl))|constructor]. }
  assert (Forall (fun p => Index (partText p) (delimiter (bs "bound")) = None) (formParts sampleForm)) as N.
  { apply (bool_decide_unpack _). vm_compute. exact Logic.I. }
  split; [exact (conj F eq_refl)|]. refine (WriteMultipartForm_roundtrip sampleForm (bs "bound") (MkMpWriter [] (bs "bound") false) _ F N). vm_compute. reflexivity.
Defined.

(** A name with a line break ends its header early: WriteField does not escape it. *)
Lemma field_name_injects_header :
  Index (partHeader (fieldHeader (bs "a" ++ strCRLF ++ bs "X-Injected: 1"))) (strCRLF ++ bs "X-Injected: 1") <> None.
Proof. vm_compute. done. Qed.
