(* ===== verification/ClientTLS.v ===== *)
(** * client.go: connecting to an address, with TLS

    The configurations for TLS and their caches in a HostClient and in a
    pipelineConnClient, over a store of tls.Config values, so that it can be said who
    shares one; dialAddr over what a dial function gives; and tlsClientHandshake in
    any number of goroutines, with the goroutine each call starts and the pool of
    unbuffered channels, as an interleaved machine.  crypto/tls is what it answers: a
    handshake ends with or without an error. *)
From Stdlib Require Import Strings.String.
From stdpp Require Import gmap relations list_tactics.
From S2P Require Import Prelude BytesConv Machine Client Dialer.
#[local] Open Scope nat_scope.

(** ** Configurations *)

(** The fields of tls.Config the code uses; Clone copies the others. *)
Record tlsConfig := MkTlsConfig { tc_ServerName : bytes; tc_InsecureSkipVerify : bool; tc_ClientSessionCache : option nat }.

(** The configurations that have been made, and how many session caches. *)
Record tlsStore := MkTlsStore { tc_configs : list tlsConfig; tc_caches : nat }.

Definition tlsServerName (addr : bytes) : bytes :=
  if negb (Contains addr (bs ":")) then addr
  else match SplitHostPort addr with inr _ => bs "*" | inl (host, _) => host end.

(** newClientTLSConfig: [c] is nil or the user's configuration.  The result is a new
    one. *)
Definition newClientTLSConfig (c : option tlsConfig) (addr : bytes) (st : tlsStore) : nat * tlsStore :=
  let c := default (MkTlsConfig [] false None) c in
  let '(cache, caches) := match tc_ClientSessionCache c with None => (Some (tc_caches st), S (tc_caches st)) | Some k => (Some k, tc_caches st) end in
  let c :=
    if decide (tc_ServerName c = []) then
      let serverName := tlsServerName addr in
      if decide (serverName = bs "*") then MkTlsConfig [] true cache else MkTlsConfig serverName (tc_InsecureSkipVerify c) cache
    else MkTlsConfig (tc_ServerName c) (tc_InsecureSkipVerify c) cache in
  (length (tc_configs st), MkTlsStore (tc_configs st ++ [c]) caches).

(** A HostClient's part in it: TLSConfig is a place in the store. *)
Record tlsClient := MkTlsClient { tc_IsTLS : bool; tc_TLSConfig : option nat; tc_tlsConfigMap : gmap bytes nat }.

Definition userConfig (c : tlsClient) (st : tlsStore) : option tlsConfig := tc_TLSConfig c ≫= fun p => tc_configs st !! p.

Definition HostClient_cachedTLSConfig (addr : bytes) (c : tlsClient) (st : tlsStore) : option nat * tlsClient * tlsStore :=
  if negb (tc_IsTLS c) then (None, c, st)
  else
    match tc_tlsConfigMap c !! addr with
    | Some cfg => (Some cfg, c, st)
    | None =>
        let '(cfg, st) := newClientTLSConfig (userConfig c st) addr st in
        (Some cfg, MkTlsClient true (tc_TLSConfig c) (<[addr := cfg]> (tc_tlsConfigMap c)), st)
    end.

(** The same of a pipelineConnClient, which has one address and one configuration. *)
Record tlsConnClient := MkTlsConnClient { tk_IsTLS : bool; tk_Addr : bytes; tk_TLSConfig : option nat; tk_tlsConfig : option nat }.

Definition pipelineConnClient_cachedTLSConfig (c : tlsConnClient) (st : tlsStore) : option nat * tlsConnClient * tlsStore :=
  if negb (tk_IsTLS c) then (None, c, st)
  else
    match tk_tlsConfig c with
    | Some cfg => (Some cfg, c, st)
    | None =>
        let '(cfg, st) := newClientTLSConfig (tk_TLSConfig c ≫= fun p => tc_configs st !! p) (tk_Addr c) st in
        (Some cfg, MkTlsConnClient true (tk_Addr c) (tk_TLSConfig c) (Some cfg), st)
    end.

(** ** The handshake *)

Definition ErrTLSHandshakeTimeout : error := Errorf "tls handshake timed out".

Inductive hresult := Established | HandshakeFailed (err : error) | HandshakeTimeout.

(** The caller: before it has a timer, before it has a channel, in the select, when
    the timer was chosen, waiting for the goroutine after closing the connection,
    with the answer of the goroutine, putting the channel back, giving the timer
    back, returned. *)
Inductive hcaller :=
| HsStart | HsChan | HsSelect (ch : nat) | HsTimer (ch : nat) | HsDrain (ch : nat) | HsAnswer (ch : nat) (err : option error)
| HsPut (ch : nat) (r : hresult) | HsRelease (r : hresult) | HsReturned (r : hresult).

(** The goroutine: not there, in Handshake, at the send, ended. *)
Inductive hworker := HwNone | HwHandshake (ch : nat) | HwSend (ch : nat) (err : option error) | HwEnded (err : option error).

Record hcall := MkHcall { hc_caller : hcaller; hc_worker : hworker; hc_rawClosed : bool }.

(** The channels made so far, timeoutErrorChPool, the timers in use, the calls.  The
    channels are unbuffered: there is nothing in them. *)
Record tlsWorld := MkTlsWorld { hs_chs : nat; hs_pool : list nat; hs_timers : Z; hs_calls : list hcall }.

(** A call; a step of the caller; its timer fires; the handshake ends; the goroutine
    meets the caller of call [u] on a channel. *)
Inductive hsact := HsCall | HsGo (pick : option nat) | HsFire | HsShake (err : option error) | HsMeet (u : nat).

Definition setHcall (t : nat) (c : hcall) (s : tlsWorld) : tlsWorld := MkTlsWorld (hs_chs s) (hs_pool s) (hs_timers s) (<[t := c]> (hs_calls s)).
Definition addTimer (d : Z) (s : tlsWorld) : tlsWorld := MkTlsWorld (hs_chs s) (hs_pool s) (hs_timers s + d) (hs_calls s).

Definition getErrorCh (pick : option nat) (s : tlsWorld) : nat * tlsWorld :=
  match pick ≫= fun i => ch ← hs_pool s !! i; Some (ch, delete i (hs_pool s)) with
  | Some (ch, pool) => (ch, MkTlsWorld (hs_chs s) pool (hs_timers s) (hs_calls s))
  | None => (hs_chs s, MkTlsWorld (S (hs_chs s)) (hs_pool s) (hs_timers s) (hs_calls s))
  end.

Definition tlsClientHandshake (t : nat) (c : hcall) (pick : option nat) (s : tlsWorld) : outcome tlsWorld :=
  let goto pc := MkHcall pc (hc_worker c) (hc_rawClosed c) in
  match hc_caller c with
  | HsStart => To (setHcall t (goto HsChan) (addTimer 1 s))
  | HsChan => let '(ch, s) := getErrorCh pick s in To (setHcall t (MkHcall (HsSelect ch) (HwHandshake ch) (hc_rawClosed c)) s)
  | HsTimer ch => To (setHcall t (MkHcall (HsDrain ch) (hc_worker c) true) s)
  | HsAnswer ch (Some err) => To (setHcall t (MkHcall (HsPut ch (HandshakeFailed err)) (hc_worker c) true) s)
  | HsAnswer ch None => To (setHcall t (goto (HsPut ch Established)) s)
  | HsPut ch r => To (setHcall t (goto (HsRelease r)) (MkTlsWorld (hs_chs s) (ch :: hs_pool s) (hs_timers s) (hs_calls s)))
  | HsRelease r => To (setHcall t (goto (HsReturned r)) (addTimer (-1) s))
  | HsSelect _ | HsDrain _ | HsReturned _ => Blocked
  end.

(** A caller that waits on [ch] takes what is sent. *)
Definition receiveErr (ch : nat) (err : option error) (c : hcall) : option hcall :=
  match hc_caller c with
  | HsSelect x => if decide (x = ch) then Some (MkHcall (HsAnswer x err) (hc_worker c) (hc_rawClosed c)) else None
  | HsDrain x => if decide (x = ch) then Some (MkHcall (HsPut x HandshakeTimeout) (hc_worker c) (hc_rawClosed c)) else None
  | _ => None
  end.

#[export] Instance handshake_machine : Machine tlsWorld hsact := fun t a s =>
  match a with
  | HsCall => To (MkTlsWorld (hs_chs s) (hs_pool s) (hs_timers s) (hs_calls s ++ [MkHcall HsStart HwNone false]))
  | _ =>
      match hs_calls s !! t with
      | None => Blocked
      | Some c =>
          match a, hc_caller c, hc_worker c with
          | HsGo pick, _, _ => tlsClientHandshake t c pick s
          | HsFire, HsSelect ch, w => To (setHcall t (MkHcall (HsTimer ch) w (hc_rawClosed c)) s)
          | HsShake err, pc, HwHandshake ch => To (setHcall t (MkHcall pc (HwSend ch err) (hc_rawClosed c)) s)
          | HsMeet u, pc, HwSend ch err =>
              let s := setHcall t (MkHcall pc (HwEnded err) (hc_rawClosed c)) s in
              match hs_calls s !! u ≫= receiveErr ch err with Some d => To (setHcall u d s) | None => Blocked end
          | _, _, _ => Blocked
          end
      end
  end.

Definition noHandshakes : tlsWorld := MkTlsWorld 0 [] 0 [].

(** What the caller of tlsClientHandshake gets. *)
Definition handshakeReturn {Conn} (tlsConn : Conn) (r : hresult) : Conn + error :=
  match r with Established => inl tlsConn | HandshakeFailed err => inr err | HandshakeTimeout => inr ErrTLSHandshakeTimeout end.

(** ** dialAddr *)

Section DialAddr.
Context {Conn : Type}.

(** What a dial function gives: [None] is nil without an error; a connection says
    whether it is a tls.Conn. *)
Definition dialFunc := bytes -> option (Conn * bool) + error.

(** dialAddr, with the package's dialers, tls.Client and the end of a handshake.
    [None] is the panic. *)
Definition dialAddr (Dial DialDualStack : dialFunc) (tlsConn : Conn -> Conn) (handshake : Conn -> hresult)
    (addr : bytes) (dial : option dialFunc) (dialDualStack isTLS : bool) (timeout : Z) : option (Conn + error) :=
  let '(dial, addr) :=
    match dial with
    | None => (if dialDualStack then DialDualStack else Dial, addMissingPort addr isTLS)
    | Some dial => (dial, addr)
    end in
  match dial addr with
  | inr err => Some (inr err)
  | inl None => None
  | inl (Some (conn, isTLSAlready)) =>
      if isTLS && negb isTLSAlready then
        if (timeout =? 0)%Z then Some (inl (tlsConn conn)) else Some (handshakeReturn (tlsConn conn) (handshake conn))
      else Some (inl conn)
  end.
End DialAddr.

(** ** What each call holds, and what its parts say about each other *)

Definition chanOfCall (c : hcall) : list nat :=
  match hc_caller c with HsSelect ch | HsTimer ch | HsDrain ch | HsAnswer ch _ | HsPut ch _ => [ch] | _ => [] end.

Definition usesTimer (c : hcall) : Z := match hc_caller c with HsStart | HsReturned _ => 0 | _ => 1 end.

(** A result, what the call's own handshake gave, and whether the connection below
    has been closed. *)
Definition resultOk (r : hresult) (err : option error) (closed : bool) : Prop :=
  match r with
  | Established => err = None /\ closed = false
  | HandshakeFailed e => err = Some e /\ closed = true
  | HandshakeTimeout => closed = true
  end.

Definition atWork (ch : nat) (w : hworker) : Prop := w = HwHandshake ch \/ exists err, w = HwSend ch err.

Definition hcallOk (c : hcall) : Prop :=
  match hc_caller c with
  | HsStart | HsChan => hc_worker c = HwNone /\ hc_rawClosed c = false
  | HsSelect ch | HsTimer ch => atWork ch (hc_worker c) /\ hc_rawClosed c = false
  | HsDrain ch => atWork ch (hc_worker c) /\ hc_rawClosed c = true
  | HsAnswer _ err => hc_worker c = HwEnded err /\ hc_rawClosed c = false
  | HsPut _ r | HsRelease r | HsReturned r => exists err, hc_worker c = HwEnded err /\ resultOk r err (hc_rawClosed c)
  end.

Record tlsInv (s : tlsWorld) : Prop := {
  ht_apart : NoDup (held chanOfCall (hs_calls s) ++ hs_pool s);
  ht_made : Forall (fun ch => ch < hs_chs s) (held chanOfCall (hs_calls s) ++ hs_pool s);
  ht_timers : hs_timers s = total usesTimer (hs_calls s);
  ht_calls : forall t c, hs_calls s !! t = Some c -> hcallOk c
}.

(** A call that moves on, and exchanges its channel with the pool at most. *)
Lemma hs_move s t c c' pool d :
  tlsInv s -> hs_calls s !! t = Some c -> chanOfCall c' ++ pool ≡ₚ chanOfCall c ++ hs_pool s -> usesTimer c' = (usesTimer c + d)%Z -> hcallOk c' ->
  tlsInv (MkTlsWorld (hs_chs s) pool (hs_timers s + d) (<[t := c']> (hs_calls s))).
Proof.
  intros [I1 I2 I3 I4] L P T K. pose proof (held_exchange chanOfCall _ t c c' (hs_pool s) pool L P) as Ep. split; cbn.
  - by rewrite Ep.
  - by rewrite Ep.
  - rewrite (total_insert usesTimer _ t c c' L), I3. lia.
  - intros u x Lu. apply list_lookup_insert_Some in Lu as [(<- & <- & _)|[_ Lu]]; [done|by eapply I4].
Qed.

Lemma hs_stay s t c c' :
  tlsInv s -> hs_calls s !! t = Some c -> chanOfCall c' = chanOfCall c -> usesTimer c' = usesTimer c -> hcallOk c' -> tlsInv (setHcall t c' s).
Proof.
  intros I L P T K. unfold setHcall. replace (hs_timers s) with (hs_timers s + 0)%Z by lia. apply (hs_move s t c); [done|done|by rewrite P|lia|done].
Qed.

(** The goroutine of a call is on the call's own channel. *)
Lemma atWork_own c ch : hcallOk c -> atWork ch (hc_worker c) -> ch ∈ chanOfCall c.
Proof.
  unfold hcallOk, chanOfCall, atWork. intros K W. destruct (hc_caller c); try apply list_elem_of_singleton; destruct W as [W|[? W]]; rewrite W in K; try (destruct K as (? & K & _); done); destruct K as [K _]; try done; destruct K as [K|[? K]]; congruence.
Qed.

Lemma tls_caller_inv s t c pick :
  tlsInv s -> hs_calls s !! t = Some c -> match tlsClientHandshake t c pick s with To s' => tlsInv s' | Panics => False | Blocked => True end.
Proof.
  intros I L. pose proof (ht_calls _ I t c L) as K. unfold hcallOk in K. unfold tlsClientHandshake. destruct (hc_caller c) as [| |ch|ch|ch|ch [err|]|ch r|r|r] eqn:Ec; try done.
  - apply (hs_move s t c); [done|done|unfold chanOfCall; by rewrite Ec|unfold usesTimer; by rewrite Ec|done].
  - unfold getErrorCh. destruct (pick ≫= _) as [[ch pool]|] eqn:Ep.
    + destruct pick as [i|]; [cbn in Ep|done]. destruct (hs_pool s !! i) as [ch0|] eqn:Ei; [cbn in Ep|done]. injection Ep as <- <-.
      pose proof (delete_Permutation _ _ _ Ei) as P. unfold setHcall. cbn. replace (hs_timers s) with (hs_timers s + 0)%Z by lia.
      apply (hs_move s t c); [done|done|unfold chanOfCall; rewrite Ec; by symmetry|unfold usesTimer; by rewrite Ec|]. destruct K. split; [by left|done].
    + assert (tlsInv (MkTlsWorld (S (hs_chs s)) (hs_chs s :: hs_pool s) (hs_timers s) (hs_calls s))) as I1.
      { destruct I as [I1 I2 I3 I4]. rewrite Forall_forall in I2. split; cbn; [| |done|done].
        - rewrite <- Permutation_middle. apply NoDup_cons. split; [|done]. intros Hx. apply I2 in Hx. lia.
        - rewrite <- Permutation_middle. constructor; [lia|]. apply Forall_forall. intros x Hx. apply I2 in Hx. lia. }
      unfold setHcall. cbn. replace (hs_timers s) with (hs_timers s + 0)%Z by lia.
      apply (hs_move (MkTlsWorld (S (hs_chs s)) (hs_chs s :: hs_pool s) (hs_timers s) (hs_calls s)) t c);
        [done|done|unfold chanOfCall; by rewrite Ec|unfold usesTimer; by rewrite Ec|]. destruct K. split; [by left|done].
  - apply (hs_stay s t c); [done|done|unfold chanOfCall; by rewrite Ec|unfold usesTimer; by rewrite Ec|]. by destruct K.
  - apply (hs_stay s t c); [done|done|unfold chanOfCall; by rewrite Ec|unfold usesTimer; by rewrite Ec|]. destruct K. by exists (Some err).
  - apply (hs_stay s t c); [done|done|unfold chanOfCall; by rewrite Ec|unfold usesTimer; by rewrite Ec|]. destruct K. by exists None.
  - unfold setHcall. cbn. replace (hs_timers s) with (hs_timers s + 0)%Z by lia.
    apply (hs_move s t c); [done|done|unfold chanOfCall; by rewrite Ec|unfold usesTimer; by rewrite Ec|done].
  - apply (hs_move s t c); [done|done|unfold chanOfCall; by rewrite Ec|unfold usesTimer; by rewrite Ec|done].
Qed.

(** A goroutine meets the caller it works for. *)
Lemma meets_own s t u c d x ch err :
  tlsInv s -> hs_calls s !! t = Some c -> hc_worker c = HwSend ch err ->
  hs_calls (setHcall t (MkHcall (hc_caller c) (HwEnded err) (hc_rawClosed c)) s) !! u = Some x -> receiveErr ch err x = Some d -> u = t.
Proof.
  intros I L W Lu E. apply list_lookup_insert_Some in Lu as [(<- & _)|[D Lu]]; [done|]. exfalso.
  pose proof (atWork_own c ch (ht_calls _ I t c L) ltac:(by right; exists err)) as Hc. apply (held_apart chanOfCall _ t u c x ch _ (ht_apart _ I) L Lu D Hc).
  unfold receiveErr in E. unfold chanOfCall. destruct (hc_caller x); try done; case_decide; try done; subst; by apply list_elem_of_singleton.
Qed.

Lemma meet_inv s t u c d x ch err :
  tlsInv s -> hs_calls s !! t = Some c -> hc_worker c = HwSend ch err ->
  let s1 := setHcall t (MkHcall (hc_caller c) (HwEnded err) (hc_rawClosed c)) s in
  hs_calls s1 !! u = Some x -> receiveErr ch err x = Some d -> tlsInv (setHcall u d s1).
Proof.
  intros I L W s1 Lu E. assert (u = t) as -> by (by apply (meets_own s t u c d x ch err)).
  unfold s1 in *. cbn in Lu. rewrite list_lookup_insert_eq in Lu by (by eapply lookup_lt_Some). injection Lu as <-.
  unfold setHcall. cbn. rewrite list_insert_insert_eq. apply (hs_stay s t c d I L).
  all: pose proof (ht_calls _ I t c L) as K; unfold hcallOk in K; unfold receiveErr in E; cbn in E.
  all: destruct (hc_caller c) eqn:Ec; try done; case_decide; try done; injection E as <-; cbn.
  all: unfold chanOfCall, usesTimer, hcallOk, atWork in *; rewrite ?Ec; cbn; naive_solver.
Qed.

Lemma tls_step s t a : tlsInv s -> match step (Machine := handshake_machine) t a s with To s' => tlsInv s' | Panics => False | Blocked => True end.
Proof.
  intros I. unfold step, handshake_machine. destruct a as [|pick| |err|u].
  - destruct I as [I1 I2 I3 I4]. split; cbn; [by rewrite held_snoc, app_nil_r|by rewrite held_snoc, app_nil_r|rewrite total_app; cbn; lia|].
    intros u d Lu. apply lookup_app_Some in Lu as [Lu|[_ Lu]]; [by eapply I4|]. by apply list_lookup_singleton_Some in Lu as [_ <-].
  - destruct (hs_calls s !! t) as [c|] eqn:L; [by apply tls_caller_inv|done].
  - destruct (hs_calls s !! t) as [c|] eqn:L; [|done]. pose proof (ht_calls _ I t c L) as K. unfold hcallOk in K.
    destruct (hc_caller c) eqn:Ec; try done. apply (hs_stay s t c); [done|done|unfold chanOfCall; by rewrite Ec|unfold usesTimer; by rewrite Ec|done].
  - destruct (hs_calls s !! t) as [c|] eqn:L; [|done]. pose proof (ht_calls _ I t c L) as K. destruct (hc_worker c) eqn:Ew; try done.
    apply (hs_stay s t c); [done|done|done|done|]. unfold hcallOk, atWork in *. cbn. rewrite Ew in K. destruct (hc_caller c); naive_solver.
  - destruct (hs_calls s !! t) as [c|] eqn:L; [|done]. destruct (hc_worker c) as [|?|ch err|?] eqn:Ew; try done.
    destruct (hs_calls _ !! u) as [x|] eqn:Lu; cbn [mbind option_bind]; [|done]. destruct (receiveErr ch err x) as [d|] eqn:E; [|done].
    by apply (meet_inv s t u c d x ch err).
Qed.

Lemma tls_reachable s : reachable (H := handshake_machine) noHandshakes s -> tlsInv s.
Proof.
  apply (reachable_invariant (H := handshake_machine) tlsInv).
  - split; cbn; [constructor|constructor|done|]. intros t c L. by rewrite lookup_nil in L.
  - intros t a s1 s2 I E. pose proof (tls_step s1 t a I) as H. by rewrite E in H.
Qed.

(** ** How far a call has to go *)

Definition callerLeft (pc : hcaller) : Z :=
  match pc with
  | HsStart => 9 | HsChan => 8 | HsSelect _ => 5 | HsTimer _ => 4 | HsDrain _ => 3 | HsAnswer _ _ => 3 | HsPut _ _ => 2 | HsRelease _ => 1 | HsReturned _ => 0
  end.
Definition workerLeft (w : hworker) : Z := match w with HwHandshake _ => 2 | HwSend _ _ => 1 | _ => 0 end.
Definition hsLeft (c : hcall) : Z := callerLeft (hc_caller c) + workerLeft (hc_worker c).

(** What call [t] can do next by itself. *)
Definition hsGoOn (t : nat) (c : hcall) : hsact :=
  match hc_caller c, hc_worker c with
  | HsSelect _, HwHandshake _ | HsDrain _, HwHandshake _ => HsShake None
  | HsSelect _, HwSend _ _ | HsDrain _, HwSend _ _ => HsMeet t
  | _, _ => HsGo None
  end.

Lemma hsGoOn_steps s t c : hs_calls s !! t = Some c -> hcallOk c -> (0 < hsLeft c)%Z -> exists s', step (Machine := handshake_machine) t (hsGoOn t c) s = To s'.
Proof.
  intros L K P. unfold hcallOk, atWork in K. unfold step, handshake_machine. rewrite L. unfold hsGoOn, hsLeft in *.
  assert (forall x ch err d, hc_caller x = hc_caller c -> receiveErr ch err (MkHcall (hc_caller c) (HwEnded err) (hc_rawClosed c)) = Some d ->
    exists s', (let s0 := setHcall t (MkHcall (hc_caller c) (HwEnded err) (hc_rawClosed c)) s in
      match hs_calls s0 !! t ≫= receiveErr ch err with Some d => To (setHcall t d s0) | None => Blocked end) = To s') as Meets.
  { intros x ch err d _ E. cbn. rewrite list_lookup_insert_eq by (by eapply lookup_lt_Some). cbn. rewrite E. by eexists. }
  unfold tlsClientHandshake, getErrorCh. destruct (hc_caller c) as [| |ch|ch|ch|ch [err|]|ch r|r|r] eqn:Ec; try (by eexists).
  - destruct K as [[W|[e W]] _]; rewrite W; [by eexists|]. eapply Meets; [done|]. unfold receiveErr. cbn. by rewrite decide_True.
  - destruct K as [[W|[e W]] _]; rewrite W; [by eexists|]. eapply Meets; [done|]. unfold receiveErr. cbn. by rewrite decide_True.
  - destruct K as (e & W & _). rewrite W in P. done.
Qed.

Lemma setHcall_same s t c x : hs_calls s !! t = Some x -> hs_calls (setHcall t c s) !! t = Some c.
Proof. intros L. cbn. apply list_lookup_insert_eq. by eapply lookup_lt_Some. Qed.

Lemma caller_lowers s t c pick s' :
  hs_calls s !! t = Some c -> hcallOk c -> tlsClientHandshake t c pick s = To s' -> exists c', hs_calls s' !! t = Some c' /\ (0 <= hsLeft c' < hsLeft c)%Z.
Proof.
  intros L K. unfold hcallOk in K. unfold tlsClientHandshake, getErrorCh. destruct (hc_caller c) as [| |ch|ch|ch|ch [err|]|ch r|r|r] eqn:Ec; try done.
  2: destruct (pick ≫= _) as [[ch pool]|].
  all: intros [= <-]; eexists; (split; [cbn; apply list_lookup_insert_eq; by eapply lookup_lt_Some|]); unfold hsLeft; cbn -[Z.add]; rewrite Ec; cbn -[Z.add].
  all: try (destruct K as [-> _] || destruct K as (? & -> & _)); cbn; try lia; destruct (hc_worker c); cbn; lia.
Qed.

Lemma step_lowers s t c a s' :
  tlsInv s -> hs_calls s !! t = Some c -> step (Machine := handshake_machine) t a s = To s' ->
  exists c', hs_calls s' !! t = Some c' /\ (a <> HsCall -> 0 <= hsLeft c' < hsLeft c)%Z /\ (a = HsCall -> c' = c).
Proof.
  intros I L. pose proof (ht_calls _ I t c L) as K. unfold step, handshake_machine. destruct a as [|pick| |err|u]; rewrite ?L.
  - intros [= <-]. exists c. split; [by apply lookup_app_l_Some|done].
  - intros E. destruct (caller_lowers s t c pick s' L K E) as (c' & ? & ?). by exists c'.
  - destruct (hc_caller c) eqn:Ec; try done. intros [= <-]. eexists. split; [by eapply setHcall_same|]. split; [|done]. intros _.
    unfold hsLeft. rewrite Ec. cbn. destruct (hc_worker c); cbn; lia.
  - destruct (hc_worker c) eqn:Ew; try done. intros [= <-]. eexists. split; [by eapply setHcall_same|]. split; [|done]. intros _.
    unfold hsLeft. rewrite Ew. cbn. destruct (hc_caller c); cbn; lia.
  - destruct (hc_worker c) as [|?|ch err|?] eqn:Ew; try done. destruct (hs_calls _ !! u) as [x|] eqn:Lu; cbn [mbind option_bind]; [|done].
    destruct (receiveErr ch err x) as [d|] eqn:E; [|done]. intros [= <-]. assert (u = t) as -> by (by apply (meets_own s t u c d x ch err)).
    rewrite (setHcall_same s t _ c L) in Lu. injection Lu as <-. exists d. split; [cbn; apply list_lookup_insert_eq; rewrite length_insert; by eapply lookup_lt_Some|].
    split; [|done]. intros _. unfold receiveErr in E. cbn in E. unfold hsLeft. rewrite Ew. destruct (hc_caller c); try done; case_decide; try done; injection E as <-; cbn; lia.
Qed.

Lemma others_keep s t u c a s' :
  tlsInv s -> hs_calls s !! t = Some c -> t <> u -> step (Machine := handshake_machine) u a s = To s' -> hs_calls s' !! t = Some c.
Proof.
  intros I L D. unfold step, handshake_machine. destruct a as [|pick| |err|v].
  { intros [= <-]. by apply lookup_app_l_Some. }
  all: destruct (hs_calls s !! u) as [x|] eqn:Lu; [|done].
  - unfold tlsClientHandshake, getErrorCh. destruct (hc_caller x) as [| |ch|ch|ch|ch [err|]|ch r|r|r]; try done.
    2: destruct (pick ≫= _) as [[ch pool]|].
    all: intros [= <-]; cbn; by rewrite list_lookup_insert_ne.
  - destruct (hc_caller x); try done. intros [= <-]. cbn. by rewrite list_lookup_insert_ne.
  - destruct (hc_worker x); try done. intros [= <-]. cbn. by rewrite list_lookup_insert_ne.
  - destruct (hc_worker x) as [|?|ch err|?] eqn:Ew; try done. destruct (hs_calls _ !! v) as [y|] eqn:Lv; cbn [mbind option_bind]; [|done].
    destruct (receiveErr ch err y) as [d|] eqn:E; [|done]. intros [= <-]. assert (v = u) as -> by (by apply (meets_own s u v x d y ch err)).
    cbn. by rewrite !list_lookup_insert_ne.
Qed.

(** ** Configurations: whose name is verified *)

(** A configuration for an address: the user's name, or the host of the address; the
    verification is off if the user says so or there is no host to take. *)
Definition configFor (user : option tlsConfig) (addr : bytes) (c : tlsConfig) : Prop :=
  let u := default (MkTlsConfig [] false None) user in
  is_Some (tc_ClientSessionCache c) /\ (forall k, tc_ClientSessionCache u = Some k -> tc_ClientSessionCache c = Some k) /\
  (tc_ServerName u <> [] -> tc_ServerName c = tc_ServerName u /\ tc_InsecureSkipVerify c = tc_InsecureSkipVerify u) /\
  (tc_ServerName u = [] -> tlsServerName addr <> bs "*" -> tc_ServerName c = tlsServerName addr /\ tc_InsecureSkipVerify c = tc_InsecureSkipVerify u) /\
  (tc_ServerName u = [] -> tlsServerName addr = bs "*" -> tc_InsecureSkipVerify c = true).

(** The user's configuration is in the store, apart from those the client has made:
    every address has one of its own. *)
Record tlsMapOk (c : tlsClient) (st : tlsStore) : Prop := {
  tm_user : forall p, tc_TLSConfig c = Some p -> p < length (tc_configs st);
  tm_made : forall addr p, tc_tlsConfigMap c !! addr = Some p ->
    tc_TLSConfig c <> Some p /\ exists cfg, tc_configs st !! p = Some cfg /\ configFor (userConfig c st) addr cfg;
  tm_own : forall a1 a2 p, tc_tlsConfigMap c !! a1 = Some p -> tc_tlsConfigMap c !! a2 = Some p -> a1 = a2
}.

Lemma newClientTLSConfig_for user addr st p st' :
  newClientTLSConfig user addr st = (p, st') ->
  p = length (tc_configs st) /\ exists cfg, tc_configs st' = tc_configs st ++ [cfg] /\ configFor user addr cfg.
Proof.
  unfold newClientTLSConfig, configFor. set (u := default _ user). destruct (tc_ClientSessionCache u) as [k|] eqn:Ek; cbn [fst snd];
    (destruct (decide (tc_ServerName u = [])) as [En|En]; [destruct (decide (tlsServerName addr = bs "*"))|]); intros [= <- <-];
    (split; [done|]); eexists; (split; [reflexivity|]); cbn; split_and!; try done; by eexists.
Qed.

(** Letters an address uses for its own structure. *)
Definition plainName (b : bytes) : Prop := ~ ":"%byte ∈ b /\ ~ "["%byte ∈ b /\ ~ "]"%byte ∈ b.

(** The host of an address with a port is the name that is verified. *)
Lemma SplitHostPort_plain host port : plainName host -> plainName port -> SplitHostPort (host ++ bs ":" ++ port) = inl (host, port).
Proof.
  intros (H1 & H2 & H3) (P1 & P2 & P3). change (bs ":" ++ port) with (":"%byte :: port). unfold SplitHostPort. rewrite LastIndexByte_app by done.
  rewrite !drop_0. assert (forall c : byte, c <> ":"%byte -> ~ c ∈ host -> ~ c ∈ port -> IndexByte (host ++ ":"%byte :: port) c = None) as N.
  { intros c Hc Hh Hp. apply IndexByte_None. rewrite elem_of_app, elem_of_cons. tauto. }
  rewrite (N "["%byte), (N "]"%byte), take_app_length, (proj2 (IndexByte_None host ":"%byte)) by done.
  replace (length host + 1) with (length (host ++ [":"%byte])) by (rewrite length_app; done).
  replace (host ++ ":"%byte :: port) with ((host ++ [":"%byte]) ++ port) by (by rewrite <- app_assoc). rewrite drop_app_length.
  destruct host as [|c host]; [done|]. cbn. destruct (decide (c = "["%byte)) as [->|D]; [exfalso; apply H2; by left|]. by destruct c.
Qed.

Lemma tlsServerName_host host port : plainName host -> plainName port -> tlsServerName (host ++ bs ":" ++ port) = host.
Proof.
  intros Hh Hp. unfold tlsServerName. rewrite SplitHostPort_plain by done. destruct (Contains _ _) eqn:C; [done|]. exfalso. revert C.
  unfold Contains. destruct (Index (host ++ bs ":" ++ port) (bs ":")) eqn:E; [done|]. intros _. apply (proj1 (Index_None _ _) E host port). done.
Qed.

Lemma cachedTLSConfig_keeps addr c st :
  tlsMapOk c st -> tc_IsTLS c = true ->
  exists p c' st', HostClient_cachedTLSConfig addr c st = (Some p, c', st') /\ tlsMapOk c' st' /\ tc_tlsConfigMap c' !! addr = Some p /\
    tc_IsTLS c' = true /\ userConfig c' st' = userConfig c st /\ (forall q cfg, tc_configs st !! q = Some cfg -> tc_configs st' !! q = Some cfg).
Proof.
  intros I T. unfold HostClient_cachedTLSConfig. rewrite T. cbn [negb]. destruct (tc_tlsConfigMap c !! addr) as [p|] eqn:E; [by exists p, c, st|].
  destruct (newClientTLSConfig (userConfig c st) addr st) as [p st'] eqn:N. destruct (newClientTLSConfig_for _ _ _ _ _ N) as (-> & cfg & Ec & F).
  assert (forall q cfg, tc_configs st !! q = Some cfg -> tc_configs st' !! q = Some cfg) as Keep by (intros q x Lq; rewrite Ec; by apply lookup_app_l_Some).
  assert (forall m, userConfig (MkTlsClient true (tc_TLSConfig c) m) st' = userConfig c st) as U.
  { intros m. unfold userConfig. cbn. destruct (tc_TLSConfig c) as [q|] eqn:Eq; [cbn|done]. rewrite Ec. apply lookup_app_l. by apply (tm_user _ _ I). }
  eexists _, _, st'. split; [done|]. split; [|split; [cbn; by rewrite lookup_insert_eq|split; [done|split; [apply U|done]]]].
  split.
  - cbn. intros q Eq. rewrite Ec, length_app. pose proof (tm_user _ _ I q Eq). lia.
  - intros a q. rewrite U. cbn. intros [[<- <-]|[D L]]%lookup_insert_Some.
    + split; [intros Eq; pose proof (tm_user _ _ I _ Eq); lia|]. exists cfg. split; [by rewrite Ec, lookup_app_r, Nat.sub_diag by done|done].
    + destruct (tm_made _ _ I a q L) as (? & x & Lx & Fx). split; [done|]. exists x. split; [by apply Keep|done].
  - cbn. assert (forall a, tc_tlsConfigMap c !! a <> Some (length (tc_configs st))) as New.
    { intros a La. destruct (tm_made _ _ I a _ La) as (_ & x & Lx & _). apply lookup_lt_Some in Lx. lia. }
    intros a1 a2 q [[<- <-]|[D1 L1]]%lookup_insert_Some [[<- E2]|[D2 L2]]%lookup_insert_Some; [done|by apply New in L2|subst; by apply New in L1|by apply (tm_own _ _ I a1 a2 q)].
Qed.

(** An address that is not host:port, which a dial function of the user may well
    understand, is connected to without verification. *)
Lemma malformed_address_unverified :
  tc_InsecureSkipVerify <$> tc_configs (snd (newClientTLSConfig None (bs "2001:db8::1") (MkTlsStore [] 0))) = [true].
Proof. vm_compute. reflexivity. Qed.

(** ** dialAddr *)

Section Dialing.
Context {Conn : Type} (Dial DialDualStack : @dialFunc Conn) (tlsConn : Conn -> Conn) (handshake : Conn -> hresult).

(** A connection that is not over TLS is returned only when TLS is not asked for, and
    with a timeout the handshake is over. *)
Lemma dialAddr_secure addr dial dualStack timeout x :
  dialAddr Dial DialDualStack tlsConn handshake addr dial dualStack true timeout = Some (inl x) ->
  (exists a (d : @dialFunc Conn), d a = inl (Some (x, true))) \/ (exists conn, x = tlsConn conn /\ (timeout <> 0%Z -> handshake conn = Established)).
Proof.
  unfold dialAddr. destruct dial as [d|]; [|destruct dualStack]; destruct (_ _) as [[[conn [|]]|]|] eqn:E; cbn; try done; try (intros [= <-]; left; by eexists _, _);
    (destruct (Z.eqb_spec timeout 0) as [|N]; [intros [= <-]; right; by exists conn|]);
    unfold handshakeReturn; destruct (handshake conn) eqn:Eh; try done; intros [= <-]; right; by exists conn.
Qed.
End Dialing.

(** Every call of tlsClientHandshake ends, once the handshake has ended or the timer
    has fired and the handshake ends on the closed connection. *)
Lemma tlsClientHandshake_ends (s : tlsWorld) (t : nat) (c : hcall) (R : reachable (H := handshake_machine) noHandshakes s) (L : hs_calls s !! t = Some c) :
  (0 < hsLeft c -> exists s', step (Machine := handshake_machine) t (hsGoOn t c) s = To s')%Z /\
  (hsLeft c <= 0 -> exists r, hc_caller c = HsReturned r)%Z /\
  (forall a s', a <> HsCall -> step (Machine := handshake_machine) t a s = To s' -> exists c', hs_calls s' !! t = Some c' /\ (0 <= hsLeft c' < hsLeft c)%Z) /\
  (forall u a s', t <> u -> step (Machine := handshake_machine) u a s = To s' -> hs_calls s' !! t = Some c).
Proof.
  pose proof (tls_reachable s R) as I. pose proof (ht_calls _ I t c L) as K. split; [|split; [|split]].
  - by apply hsGoOn_steps.
  - unfold hsLeft. intros H. destruct (hc_caller c) as [| |?|?|?|? [|]|? ?|?|r]; try (by exists r); exfalso; revert H; destruct (hc_worker c); cbn; lia.
  - intros a s' Na E. destruct (step_lowers s t c a s' I L E) as (c' & Lc & H & _). exists c'. by split; [|apply H].
  - intros u a s' D E. by apply (others_keep s t u c a s').
Qed.

(** * Properties *)

(** tlsClientHandshake returns what its own handshake has given, and never an error
    of another call, although channels are used again: a connection only after a
    handshake without an error, and the connection below is closed exactly when
    there is none.  The goroutine has ended by then, no goroutine is left on a
    channel of the pool, and as many timers are in use as calls have not returned. *)
Lemma tlsClientHandshake_own (s : tlsWorld) (R : reachable (H := handshake_machine) noHandshakes s) :
  (forall t c r, hs_calls s !! t = Some c -> hc_caller c = HsReturned r -> exists err, hc_worker c = HwEnded err /\ resultOk r err (hc_rawClosed c)) /\
  (forall t c ch, hs_calls s !! t = Some c -> ch ∈ hs_pool s -> ~ atWork ch (hc_worker c)) /\
  (forall t u s', step (Machine := handshake_machine) t (HsMeet u) s = To s' -> u = t) /\
  hs_timers s = total usesTimer (hs_calls s).
Proof.
  pose proof (tls_reachable s R) as I. split; [|split; [|split; [|apply (ht_timers _ I)]]].
  - intros t c r L E. pose proof (ht_calls _ I t c L) as K. unfold hcallOk in K. by rewrite E in K.
  - intros t c ch L Hc W. apply (held_not_pool chanOfCall _ t c ch _ (ht_apart _ I) L); [|done]. apply atWork_own; [by apply (ht_calls _ I t)|done].
  - intros t u s'. unfold step, handshake_machine. destruct (hs_calls s !! t) as [c|] eqn:L; [|done]. destruct (hc_worker c) as [|?|ch err|?] eqn:W; try done.
    destruct (hs_calls _ !! u) as [x|] eqn:Lu; cbn [mbind option_bind]; [|done]. destruct (receiveErr ch err x) as [d|] eqn:E; [|done].
    intros _. by apply (meets_own s t u c d x ch err).
Qed.

(** Two calls with one channel: the first times out, the second succeeds. *)
Definition handshakeRun : list (nat * hsact) :=
  [(0, HsCall); (0, HsGo None); (0, HsGo None); (0, HsFire); (0, HsGo None); (0, HsShake (Some (Errorf "closed"))); (0, HsMeet 0); (0, HsGo None);
   (1, HsCall); (1, HsGo None); (1, HsGo (Some 0)); (1, HsShake None); (1, HsMeet 1); (1, HsGo None); (1, HsGo None); (1, HsGo None); (0, HsGo None)].
Definition handshakesAfter : tlsWorld := match run (H := handshake_machine) handshakeRun noHandshakes with To s => s | _ => noHandshakes end.

Lemma handshakesAfter_reachable : reachable (H := handshake_machine) noHandshakes handshakesAfter.
Proof. apply (run_reachable (H := handshake_machine) handshakeRun). vm_compute. reflexivity. Qed.

Lemma tlsClientHandshake_own_witness :
  map hc_caller (hs_calls handshakesAfter) = [HsReturned HandshakeTimeout; HsReturned Established] /\ length (hs_pool handshakesAfter) = 1 /\
  hs_timers handshakesAfter = total usesTimer (hs_calls handshakesAfter).
Proof.
  assert (map hc_caller (hs_calls handshakesAfter) = [HsReturned HandshakeTimeout; HsReturned Established]) as E by (vm_compute; reflexivity).
  assert (length (hs_pool handshakesAfter) = 1) as P by (vm_compute; reflexivity).
  exact (conj E (conj P (proj2 (proj2 (proj2 (tlsClientHandshake_own handshakesAfter handshakesAfter_reachable)))))).
Defined.
