(* ===== verification/ServerStart.v ===== *)
(** * server.go: starting a server

    ListenAndServe and its variants up to Serve (ServerLife), the certificates and
    protocols of a server, tcpKeepaliveListener, SaveMultipartFile, and the contexts
    of servers of one's own (RequestCtx.Init, Done, Err).  What net.Listen, os, and
    crypto/tls answer is an argument. *)
From Stdlib Require Import Strings.String.
From stdpp Require Import gmap relations list_tactics.
From S2P Require Import Prelude BytesConv Bufio Http Machine RequestCtx PerIP ServerLife Messages.

Definition errNoCertOrKeyProvided : error := Errorf "cert or key has not provided".

(** ** Certificates and protocols *)

Section Start.
Context {Cert ServeHandler : Type}.

(** The fields of tls.Config that are set here. *)
Record serverTLS := MkServerTLS { sx_PreferServerCipherSuites : bool; sx_NextProtos : list bytes; sx_Certificates : list Cert }.

(** The fields of a Server that are used before Serve; [sx_mu]: the mutex is held. *)
Record startServer := MkStartServer {
  sx_tlsConfig : option serverTLS;
  sx_nextProtos : option (gmap bytes ServeHandler);
  sx_mu : bool;
  sx_TCPKeepalive : bool;
  sx_TCPKeepalivePeriod : Z
}.

Definition set_sx_tlsConfig v (s : startServer) : startServer := MkStartServer v (sx_nextProtos s) (sx_mu s) (sx_TCPKeepalive s) (sx_TCPKeepalivePeriod s).
Definition set_sx_mu v (s : startServer) : startServer := MkStartServer (sx_tlsConfig s) (sx_nextProtos s) v (sx_TCPKeepalive s) (sx_TCPKeepalivePeriod s).

Definition configTLS (s : startServer) : startServer :=
  match sx_tlsConfig s with None => set_sx_tlsConfig (Some (MkServerTLS true [] [])) s | Some _ => s end.

Definition tlsOf (s : startServer) : serverTLS := default (MkServerTLS false [] []) (sx_tlsConfig s).

Definition Server_NextProto (key : bytes) (nph : ServeHandler) (s : startServer) : startServer :=
  let protos := default ∅ (sx_nextProtos s) in
  let s := configTLS s in
  let c := tlsOf s in
  MkStartServer (Some (MkServerTLS (sx_PreferServerCipherSuites c) (sx_NextProtos c ++ [key]) (sx_Certificates c))) (Some (<[key := nph]> protos))
    (sx_mu s) (sx_TCPKeepalive s) (sx_TCPKeepalivePeriod s).

(** The common end of AppendCert and AppendCertEmbed, once the pair has been read. *)
Definition addCert (cert : Cert) (s : startServer) : startServer :=
  let s := configTLS s in
  let c := tlsOf s in
  set_sx_tlsConfig (Some (MkServerTLS (sx_PreferServerCipherSuites c) (sx_NextProtos c) (sx_Certificates c ++ [cert]))) s.

Definition Server_AppendCert (LoadX509KeyPair : bytes -> bytes -> Cert + error) (certFile keyFile : bytes) (s : startServer) : startServer * option error :=
  if decide (certFile = [] /\ keyFile = []) then (s, Some errNoCertOrKeyProvided)
  else match LoadX509KeyPair certFile keyFile with
       | inr _ => (s, Some (Errorf "cannot load TLS key pair from certFile=%q and keyFile=%q: %s"))
       | inl cert => (addCert cert s, None)
       end.

Definition Server_AppendCertEmbed (X509KeyPair : bytes -> bytes -> Cert + error) (certData keyData : bytes) (s : startServer) : startServer * option error :=
  if decide (certData = [] /\ keyData = []) then (s, Some errNoCertOrKeyProvided)
  else match X509KeyPair certData keyData with
       | inr _ => (s, Some (Errorf "cannot load TLS key pair from the provided certData(%d) and keyData(%d): %s"))
       | inl cert => (addCert cert s, None)
       end.

(** ** Listeners *)

Inductive listener :=
| Listener (id : nat)
| TCPKeepaliveListener (id : nat) (keepalive : bool) (keepalivePeriod : Z)
| TLSListener (inner : listener) (c : serverTLS).

(** Serve is called with a listener, or there is an error before. *)
Inductive started := Serves (ln : listener) | NotServed (err : error).

(** The listeners net.Listen has opened, and the files that have been removed. *)
Record netState := MkNetState { nt_open : list nat; nt_removed : list bytes }.

(** What net.Listen returns: a listener, and whether it is a net.TCPListener. *)
Definition listen (answer : (nat * bool) + error) (n : netState) : ((nat * bool) + error) * netState :=
  match answer with
  | inl (id, tcp) => (inl (id, tcp), MkNetState (id :: nt_open n) (nt_removed n))
  | inr err => (inr err, n)
  end.

Definition withKeepalive (id : nat) (tcp : bool) (s : startServer) : listener :=
  if tcp then TCPKeepaliveListener id (sx_TCPKeepalive s) (sx_TCPKeepalivePeriod s) else Listener id.

Definition Server_ListenAndServe (answer : (nat * bool) + error) (s : startServer) (n : netState) : started * netState :=
  match listen answer n with
  | (inr err, n) => (NotServed err, n)
  | (inl (id, tcp), n) => (Serves (withKeepalive id tcp s), n)
  end.

(** [remove]: what os.Remove gives, and whether an error says that there is no file. *)
Definition Server_ListenAndServeUNIX (remove : option (error * bool)) (answer : (nat * bool) + error) (chmod : option error) (addr : bytes) (n : netState) : started * netState :=
  match remove with
  | Some (_, false) => (NotServed (Errorf "unexpected error when trying to remove unix socket file %q: %s"), n)
  | _ =>
      let n := match remove with None => MkNetState (nt_open n) (addr :: nt_removed n) | Some _ => n end in
      match listen answer n with
      | (inr err, n) => (NotServed err, n)
      | (inl (id, _), n) =>
          match chmod with
          | Some _ => (NotServed (Errorf "cannot chmod %#o for %q: %s"), n)
          | None => (Serves (Listener id), n)
          end
      end
  end.

(** ServeTLS and ServeTLSEmbed behind the call that appends the certificate. *)
Definition serveTLS (ln : listener) (append : startServer -> startServer * option error) (s : startServer) : started * startServer :=
  let s := set_sx_mu true s in
  let '(s, err) := append s in
  match err, sx_tlsConfig s with
  | Some e, c =>
      if decide (e <> errNoCertOrKeyProvided) then (NotServed e, set_sx_mu false s)
      else (match c with None => NotServed errNoCertOrKeyProvided | Some c => Serves (TLSListener ln c) end, set_sx_mu false s)
  | None, None => (NotServed errNoCertOrKeyProvided, set_sx_mu false s)
  | None, Some c => (Serves (TLSListener ln c), set_sx_mu false s)
  end.

Definition Server_ServeTLS (load : bytes -> bytes -> Cert + error) (ln : listener) (certFile keyFile : bytes) (s : startServer) : started * startServer :=
  serveTLS ln (Server_AppendCert load certFile keyFile) s.
Definition Server_ServeTLSEmbed (pair : bytes -> bytes -> Cert + error) (ln : listener) (certData keyData : bytes) (s : startServer) : started * startServer :=
  serveTLS ln (Server_AppendCertEmbed pair certData keyData) s.

Definition Server_ListenAndServeTLS (load : bytes -> bytes -> Cert + error) (answer : (nat * bool) + error) (certFile keyFile : bytes) (s : startServer) (n : netState)
  : started * startServer * netState :=
  match listen answer n with
  | (inr err, n) => (NotServed err, s, n)
  | (inl (id, tcp), n) => (Server_ServeTLS load (withKeepalive id tcp s) certFile keyFile s, n)
  end.

Definition Server_ListenAndServeTLSEmbed (pair : bytes -> bytes -> Cert + error) (answer : (nat * bool) + error) (certData keyData : bytes) (s : startServer) (n : netState)
  : started * startServer * netState :=
  match listen answer n with
  | (inr err, n) => (NotServed err, s, n)
  | (inl (id, tcp), n) => (Server_ServeTLSEmbed pair (withKeepalive id tcp s) certData keyData s, n)
  end.

(** The functions of the package, with a server that has a handler and nothing else. *)
Definition newServer : startServer := MkStartServer None None false false 0.
Definition ListenAndServe (answer : (nat * bool) + error) (n : netState) : started * netState := Server_ListenAndServe answer newServer n.
Definition ListenAndServeUNIX (remove : option (error * bool)) (answer : (nat * bool) + error) (chmod : option error) (addr : bytes) (n : netState) : started * netState :=
  Server_ListenAndServeUNIX remove answer chmod addr n.
Definition ServeTLS (load : bytes -> bytes -> Cert + error) (ln : listener) (certFile keyFile : bytes) : started * startServer := Server_ServeTLS load ln certFile keyFile newServer.
Definition ServeTLSEmbed (pair : bytes -> bytes -> Cert + error) (ln : listener) (certData keyData : bytes) : started * startServer :=
  Server_ServeTLSEmbed pair ln certData keyData newServer.
Definition ListenAndServeTLS (load : bytes -> bytes -> Cert + error) (answer : (nat * bool) + error) (certFile keyFile : bytes) (n : netState) : started * startServer * netState :=
  Server_ListenAndServeTLS load answer certFile keyFile newServer n.
Definition ListenAndServeTLSEmbed (pair : bytes -> bytes -> Cert + error) (answer : (nat * bool) + error) (certData keyData : bytes) (n : netState) : started * startServer * netState :=
  Server_ListenAndServeTLSEmbed pair answer certData keyData newServer n.
End Start.

(** ** Accepting with keep-alive *)

(** tcpKeepaliveListener.Accept: what AcceptTCP gives, and the two calls that set
    options of the connection ([true]: a temporary error).  The second result says
    whether a connection has been accepted and closed. *)
Definition tcpKeepaliveListener_Accept (accept : acceptRes) (keepalivePeriod : Z) (setKeepAlive setPeriod : option bool) : acceptRes * bool :=
  let failed (temporary : bool) := (if temporary then AcTemporary else AcPermanent, true) in
  match accept with
  | AcConn ip =>
      match setKeepAlive with
      | Some temporary => failed temporary
      | None =>
          if 0 <? keepalivePeriod then match setPeriod with Some temporary => failed temporary | None => (AcConn ip, false) end
          else (AcConn ip, false)
      end
  | r => (r, false)
  end.

(** ** SaveMultipartFile *)

(** What the system answers: Open (whether the file is one on the disk), closing it,
    whether it can be renamed, the second Open, Create, how much is copied before an
    error, closing the copy and the source. *)
Record saveEnv := MkSaveEnv {
  sv_open : bool + error;
  sv_close : option error;
  sv_rename : bool;
  sv_reopen : option error;
  sv_create : option error;
  sv_copyError : option (nat * error);
  sv_closeCopy : option error;
  sv_closeSource : option error
}.

(** The file at the path, and the files that are open. *)
Record saveState := MkSaveState { sv_path : option bytes; sv_handles : Z }.

(** The first error, if any, is the one that is returned. *)
Definition firstError (e1 e2 : option error) : option error := match e1 with Some _ => e1 | None => e2 end.

(** From Create on, with the source open. *)
Definition copyToPath (content : bytes) (e : saveEnv) (st : saveState) : option error * saveState :=
  let closeSource r := let '(err, st) := r in (firstError err (sv_closeSource e), MkSaveState (sv_path st) (sv_handles st - 1)) in
  closeSource
    match sv_create e with
    | Some err => (Some err, st)
    | None =>
        let '(written, err) := match sv_copyError e with Some (n, err) => (take n content, Some err) | None => (content, None) end in
        (firstError err (sv_closeCopy e), MkSaveState (Some written) (sv_handles st))
    end.

Definition SaveMultipartFile (content : bytes) (e : saveEnv) (st : saveState) : option error * saveState :=
  match sv_open e with
  | inr err => (Some err, st)
  | inl onDisk =>
      if onDisk then
        match sv_close e with
        | Some err => (Some err, st)
        | None =>
            if sv_rename e then (None, MkSaveState (Some content) (sv_handles st))
            else match sv_reopen e with
                 | Some err => (Some err, st)
                 | None => copyToPath content e (MkSaveState (sv_path st) (sv_handles st + 1))
                 end
        end
      else copyToPath content e (MkSaveState (sv_path st) (sv_handles st + 1))
  end.

(** ** Contexts of servers of one's own *)

Section Init.
Context `{ServerLib}.

(** RequestCtx.Init2: [connID] is what nextConnID gives, [now] the time. *)
Definition RequestCtx_Init2 (conn : ConnInfo) (connID now : Z) (reduceMemoryUsage : bool) (ctx : RequestCtx) : RequestCtx :=
  let ctx := set_cx_connTime now (set_cx_connRequestNum 0 (set_cx_connID connID (set_cx_remoteAddr None (set_cx_c (Some conn) ctx)))) in
  let keepBodyBuffer := negb reduceMemoryUsage in
  on_Response (set_resp_keepBodyBuffer keepBodyBuffer) (on_Request (set_req_keepBodyBuffer keepBodyBuffer) ctx).

Definition RequestCtx_Init (req : Request) (remoteAddr : option Addr) (connID now : Z) (ctx : RequestCtx) : RequestCtx :=
  let c := MkConnInfo (Some (default zeroTCPAddr remoteAddr)) (Some zeroTCPAddr) false in
  on_Request (Request_CopyTo req) (RequestCtx_Init2 c connID now true ctx).

(** Deadline: no time, false. *)
Definition RequestCtx_Deadline (ctx : RequestCtx) : Z * bool := (0, false).

(** Done and Err, of a context of server [s]: the channel, and whether it is closed. *)
Definition RequestCtx_Done (s : server) : option nat := sl_done s.
Definition RequestCtx_Err (s : server) : bool := match sl_done s with Some k => default false (sl_dones s !! k) | None => false end.
End Init.

Arguments RequestCtx_Deadline {_ _} ctx.

(** ** What starting does *)

Definition certsOf {Cert ServeHandler} (s : @startServer Cert ServeHandler) : list Cert := sx_Certificates (tlsOf s).

Lemma addCert_certs {Cert ServeHandler} cert (s : @startServer Cert ServeHandler) :
  exists c, sx_tlsConfig (addCert cert s) = Some c /\ sx_Certificates c = certsOf s ++ [cert] /\ sx_mu (addCert cert s) = sx_mu s.
Proof. unfold addCert, configTLS, certsOf, tlsOf. destruct (sx_tlsConfig s) eqn:E; cbn; rewrite ?E; cbn; by eexists. Qed.

(** A server is started over TLS with the certificate that was given behind those it
    has, or, when none is given, with its configuration as it is; the mutex is free
    again in any case, and nothing changes when there is an error. *)
Lemma ServeTLS_certificates {Cert ServeHandler} (load : bytes -> bytes -> Cert + error) ln certFile keyFile (s : @startServer Cert ServeHandler) :
  (forall c k err, load c k = inr err -> err <> errNoCertOrKeyProvided) -> sx_mu s = false ->
  let '(r, s') := Server_ServeTLS load ln certFile keyFile s in
  sx_mu s' = false /\
  match r with
  | Serves l => exists c, l = TLSListener ln c /\ sx_tlsConfig s' = Some c /\
      ((certFile = [] /\ keyFile = [] /\ sx_tlsConfig s = Some c) \/ exists cert, load certFile keyFile = inl cert /\ sx_Certificates c = certsOf s ++ [cert])
  | NotServed err => certsOf s' = certsOf s /\
      (err = errNoCertOrKeyProvided /\ certFile = [] /\ keyFile = [] /\ sx_tlsConfig s = None \/ exists e, load certFile keyFile = inr e)
  end.
Proof.
  intros Hl Hm. unfold Server_ServeTLS, serveTLS, Server_AppendCert. destruct (decide (certFile = [] /\ keyFile = [])) as [[-> ->]|N]; cbn -[addCert].
  - destruct (sx_tlsConfig s) as [c|] eqn:E; cbn; (split; [done|]); [exists c; split; [done|]; split; [exact E|]; by left|]. split; [by unfold certsOf, tlsOf; cbn; rewrite E|by left].
  - destruct (load certFile keyFile) as [cert|e] eqn:E; cbn -[addCert].
    + destruct (addCert_certs cert (set_sx_mu true s)) as (c & Ec & Cc & _). rewrite Ec. split; [done|]. exists c. split; [done|]. split; [done|].
      right. by exists cert.
    + split; [done|]. split; [done|]. right. by exists e.
Qed.

(** After NextProto there is a configuration, so that a server without a certificate
    is started all the same. *)
Lemma nextProto_starts_without_certificate (load : bytes -> bytes -> nat + error) :
  fst (Server_ServeTLS load (Listener 0) [] [] (Server_NextProto (bs "h2") 7%nat newServer)) = Serves (TLSListener (Listener 0) (MkServerTLS true [bs "h2"] [])).
Proof. reflexivity. Qed.

(** When the certificate cannot be read the listener that has been opened stays open. *)
Lemma bad_certificate_leaves_listener :
  let '(r, _, n) := ListenAndServeTLS (Cert := nat) (ServeHandler := nat) (fun _ _ => inr (Errorf "no such file")) (inl (3%nat, true)) (bs "cert") (bs "key") (MkNetState [] []) in
  r = NotServed (Errorf "cannot load TLS key pair from certFile=%q and keyFile=%q: %s") /\ nt_open n = [3%nat].
Proof. vm_compute. done. Qed.

Lemma failed_chmod_leaves_listener :
  ListenAndServeUNIX (Cert := nat) None (inl (3%nat, false)) (Some (Errorf "chmod")) (bs "/s") (MkNetState [] []) =
  (NotServed (Errorf "cannot chmod %#o for %q: %s"), MkNetState [3%nat] [bs "/s"]).
Proof. vm_compute. reflexivity. Qed.

(** A connection that is gone when its options are set ends Serve, although the
    listener is well: acceptConn takes the error for one of the listener. *)
Lemma keepalive_error_ends_Serve ip period setPeriod rs :
  let '(r, closed) := tcpKeepaliveListener_Accept (AcConn ip) period (Some false) setPeriod in
  closed = true /\ acceptConn 0 (r :: rs) None = To (AcceptErr, None, [], rs).
Proof. done. Qed.

(** ** What is saved *)

(** Without an error the file at the path has the content; with one the file is as it
    was or has a part of the content; nothing stays open. *)
Lemma SaveMultipartFile_spec content e st :
  let '(err, st') := SaveMultipartFile content e st in
  sv_handles st' = sv_handles st /\
  match err with
  | None => sv_path st' = Some content
  | Some _ => sv_path st' = sv_path st \/ exists n, sv_path st' = Some (take n content)
  end.
Proof.
  assert (forall st0, let '(err, st') := copyToPath content e st0 in sv_handles st' = sv_handles st0 - 1 /\
    match err with None => sv_path st' = Some content | Some _ => sv_path st' = sv_path st0 \/ exists n, sv_path st' = Some (take n content) end) as C.
  { intros st0. unfold copyToPath. destruct (sv_create e); cbn; [split; [lia|by left]|]. destruct (sv_copyError e) as [[n err]|]; cbn; [split; [done|right; by exists n]|].
    destruct (sv_closeCopy e); cbn; [split; [done|]; right; exists (length content); by rewrite firstn_all|].
    destruct (sv_closeSource e); (split; [done|]); [|done]. right. exists (length content). by rewrite firstn_all. }
  unfold SaveMultipartFile. destruct (sv_open e) as [[|]|]; [destruct (sv_close e); [split; [done|by left]|]; destruct (sv_rename e); [done|]; destruct (sv_reopen e); [split; [done|by left]|]| |split; [done|by left]].
  all: specialize (C (MkSaveState (sv_path st) (sv_handles st + 1))); destruct (copyToPath content e _) as [err st']; destruct C as [Ch C]; cbn in Ch, C; (split; [lia|done]).
Qed.

(** ** Contexts *)

(** Init forgets the address that had been looked up. *)
Lemma Init_RemoteAddr `{ServerLib} req remoteAddr connID now ctx :
  RequestCtx_RemoteAddr (RequestCtx_Init req remoteAddr connID now ctx) = default zeroTCPAddr remoteAddr.
Proof. reflexivity. Qed.

(** Err says Canceled while Shutdown waits, and nothing again once it has returned,
    while the handler of a request that has timed out, or of a hijacked connection,
    still has its context. *)
Lemma Err_is_forgotten :
  RequestCtx_Err (serverAfter shutdownRun) = true /\
  RequestCtx_Err (serverAfter (shutdownRun ++ drainRun ++ [(3, AGo true); (3, AGo true)]%nat)) = false /\
  sl_threads (serverAfter (shutdownRun ++ drainRun ++ [(3, AGo true); (3, AGo true)]%nat)) !! 3%nat = Some (Shutdown (ShReturned false)).
Proof. vm_compute. done. Qed.
