(* ===== verification/StreamReader.v ===== *)
(** * stream.go: NewStreamReader

    A StreamWriter in a goroutine of its own writes through a bufio.Writer into one
    end of a pipe (PipeConns); what NewStreamReader returns is the other end.  Any
    number of streams run over the pipes' machine.  The bufio.Writer is written out
    as what it hands to the pipe: a Write of the pipe sends all or nothing and an
    error stays, so that after an error there are no more. *)
From Stdlib Require Import Strings.String.
From stdpp Require Import relations list_tactics.
From S2P Require Import Prelude Machine PipeConns.
#[local] Open Scope nat_scope.

(** ** bufio.Writer *)

(** What a StreamWriter does with its writer. *)
Inductive sop := SWrite (p : bytes) | SFlush.

(** Write: what goes to the pipe, and what the buffer holds then. *)
Definition bufWrite (size : nat) (buf p : bytes) : list bytes * bytes :=
  let available := size - length buf in
  if decide (available < length p) then
    if decide (buf = []) then ([p], [])
    else
      let q := drop available p in
      let full := buf ++ take available p in
      if decide (size < length q) then ([full; q], []) else ([full], q)
  else ([], buf ++ p).

Definition bufFlush (buf : bytes) : list bytes := if decide (buf = []) then [] else [buf].

Fixpoint bufRun (size : nat) (buf : bytes) (sw : list sop) : list bytes * bytes :=
  match sw with
  | [] => ([], buf)
  | SWrite p :: sw => let '(c1, buf) := bufWrite size buf p in let '(c2, buf) := bufRun size buf sw in (c1 ++ c2, buf)
  | SFlush :: sw => let '(c2, buf') := bufRun size [] sw in (bufFlush buf ++ c2, buf')
  end.

Definition defaultBufSize : nat := 4096.

(** What the goroutine hands to the pipe: sw(bw), then bw.Flush().  A writer from
    streamWriterBufPool is reset: its buffer is empty. *)
Definition streamChunks (sw : list sop) : list bytes := let '(cs, buf) := bufRun defaultBufSize [] sw in cs ++ bufFlush buf.

Definition written (sw : list sop) : bytes := concat (map (fun o => match o with SWrite p => p | SFlush => [] end) sw).

Lemma bufWrite_concat size buf p : concat (fst (bufWrite size buf p)) ++ snd (bufWrite size buf p) = buf ++ p.
Proof.
  unfold bufWrite. case_decide; [|done]. case_decide; [subst; cbn; by rewrite !app_nil_r|]. case_decide; cbn; rewrite ?app_nil_r, <- app_assoc; by rewrite take_drop.
Qed.

Lemma bufFlush_concat buf : concat (bufFlush buf) = buf.
Proof. unfold bufFlush. case_decide; [by subst|cbn; by rewrite app_nil_r]. Qed.

Lemma bufRun_concat size buf sw : concat (fst (bufRun size buf sw)) ++ snd (bufRun size buf sw) = buf ++ written sw.
Proof.
  unfold written. revert buf. induction sw as [|[p|] sw IH]; intros buf; cbn [bufRun written map concat]; [cbn; by rewrite app_nil_r|..].
  - pose proof (bufWrite_concat size buf p) as W. destruct (bufWrite size buf p) as [c1 buf1]. specialize (IH buf1). destruct (bufRun size buf1 sw) as [c2 buf2]. cbn in *.
    rewrite concat_app, <- app_assoc, IH, app_assoc, W, <- app_assoc. done.
  - specialize (IH []). destruct (bufRun size [] sw) as [c2 buf2]. cbn in *. by rewrite concat_app, bufFlush_concat, <- app_assoc, IH.
Qed.

Lemma streamChunks_concat sw : concat (streamChunks sw) = written sw.
Proof.
  unfold streamChunks. pose proof (bufRun_concat defaultBufSize [] sw) as E. destruct (bufRun defaultBufSize [] sw) as [cs buf]. cbn in E. by rewrite concat_app, bufFlush_concat.
Qed.

(** ** The machine *)

(** The goroutine: writing, with the chunks it has handed over and those it has not;
    before pw.Close(); ended. *)
Inductive sstage := SrWriting | SrClosing | SrEnded.

(** A stream: the direction it uses, what sw writes, and whether the reader has been
    closed by its user. *)
Record stream := MkStream { ss_dir : nat; ss_sw : list sop; ss_stage : sstage; ss_done : list bytes; ss_rest : list bytes; ss_readerClosed : bool }.

Record streamWorld := MkStreamWorld { sr_pipe : pworld; sr_streams : list stream }.

(** NewStreamReader with a StreamWriter; a step of its goroutine; the reader's side. *)
Inductive sact := SrNew (sw : list sop) | SrGo (pick : option nat) (choice : nat) | SrRead (n : nat) | SrGoR (choice : nat) | SrClose.

Definition onPipe (o : outcome pworld) (f : pworld -> streamWorld) : outcome streamWorld :=
  match o with To p => To (f p) | Blocked => Blocked | Panics => Panics end.

(** The goroutine of stream [t]. *)
Definition streamGoroutine (t : nat) (x : stream) (pick : option nat) (choice : nat) (s : streamWorld) : outcome streamWorld :=
  let put stage done rest p := MkStreamWorld p (<[t := MkStream (ss_dir x) (ss_sw x) stage done rest (ss_readerClosed x)]> (sr_streams s)) in
  match ss_stage x with
  | SrWriting =>
      match pi_dirs (sr_pipe s) !! ss_dir x with
      | None => Blocked
      | Some d =>
          match pd_w d, ss_rest x with
          | WReturned _ (Some _), _ | (WIdle | WReturned _ None), [] => To (put SrClosing (ss_done x) (ss_rest x) (sr_pipe s))
          | (WIdle | WReturned _ None), c :: cs => onPipe (step (ss_dir x) (PWrite c pick) (sr_pipe s)) (put SrWriting (ss_done x ++ [c]) cs)
          | _, _ => onPipe (step (ss_dir x) (PGoW choice) (sr_pipe s)) (put SrWriting (ss_done x) (ss_rest x))
          end
      end
  | SrClosing => onPipe (step (ss_dir x) PClose (sr_pipe s)) (put SrEnded (ss_done x) (ss_rest x))
  | SrEnded => Blocked
  end.

Definition NewStreamReader (sw : list sop) (s : streamWorld) : outcome streamWorld :=
  let n := length (pi_dirs (sr_pipe s)) in
  onPipe (step n PNew (sr_pipe s)) (fun p => MkStreamWorld p (sr_streams s ++ [MkStream n sw SrWriting [] (streamChunks sw) false])).

#[export] Instance stream_machine : Machine streamWorld sact := fun t a s =>
  match a with
  | SrNew sw => NewStreamReader sw s
  | _ =>
      match sr_streams s !! t with
      | None => Blocked
      | Some x =>
          match a with
          | SrNew _ => Blocked
          | SrGo pick choice => streamGoroutine t x pick choice s
          | SrRead n => onPipe (step (ss_dir x) (PRead n) (sr_pipe s)) (fun p => MkStreamWorld p (sr_streams s))
          | SrGoR choice => onPipe (step (ss_dir x) (PGoR choice) (sr_pipe s)) (fun p => MkStreamWorld p (sr_streams s))
          | SrClose =>
              onPipe (step (ss_dir x) PClose (sr_pipe s))
                (fun p => MkStreamWorld p (<[t := MkStream (ss_dir x) (ss_sw x) (ss_stage x) (ss_done x) (ss_rest x) true]> (sr_streams s)))
          end
      end
  end.

Definition noStreams : streamWorld := MkStreamWorld initPw [].

(** ** What a step of a pipe does to the writer's side *)

Definition inProgress (w : wstage) : option bytes := match w with WCheck _ c | WTry _ c | WBlocked _ c _ => Some c | _ => None end.

(** No deadline has been set for the writer. *)
Definition noDeadline (d : pdir) : Prop := pd_wdl d = DlNone /\ match pd_w d with WBlocked _ _ dl => dl = DlNone | _ => True end.

(** A step of direction [i] that is not a new pipe leaves the others as they are. *)
Definition stepOf (i : nat) (p p' : pworld) (d d' : pdir) : Prop :=
  pi_dirs p' = <[i := d']> (pi_dirs p) /\ pi_stopped p' = pi_stopped p /\ pi_dirs p !! i = Some d.

Lemma acquireByteBuffer_same pick p : let '(_, p') := acquireByteBuffer pick p in pi_dirs p' = pi_dirs p /\ pi_stopped p' = pi_stopped p.
Proof. unfold acquireByteBuffer. by destruct (pick ≫= _) as [[b pool]|]. Qed.

Lemma pipe_write_starts p p' i d c pick :
  pi_dirs p !! i = Some d -> step i (PWrite c pick) p = To p' ->
  exists b, stepOf i p p' d (set_pd_w (WCheck b c) d).
Proof.
  intros L. unfold step, pipe_machine. rewrite L. destruct (wQuiet (pd_w d)); [|done]. pose proof (acquireByteBuffer_same pick p) as A.
  destruct (acquireByteBuffer pick p) as [b p1]. intros [= <-]. exists b. destruct A as [A1 A2]. split; [cbn; by rewrite A1|]. split; [done|done].
Qed.

Lemma pipe_write_goes p p' i d choice :
  pipeInv p -> pi_dirs p !! i = Some d -> noDeadline d -> step i (PGoW choice) p = To p' ->
  exists c d', inProgress (pd_w d) = Some c /\ stepOf i p p' d d' /\ noDeadline d' /\
    (inProgress (pd_w d') = Some c /\ pd_sent d' = pd_sent d \/
     (exists n, pd_w d' = WReturned n None) /\ pd_sent d' = pd_sent d ++ c \/
     (exists n err, pd_w d' = WReturned n (Some err)) /\ pd_sent d' = pd_sent d /\ stopped i p = true).
Proof.
  intros I L [N1 N2]. pose proof (do_writer _ _ (pi_each _ I _ _ L)) as W. unfold step, pipe_machine. rewrite L. unfold stepWrite.
  assert (forall q b, pi_dirs (releaseByteBuffer b q) = pi_dirs q /\ pi_stopped (releaseByteBuffer b q) = pi_stopped q) as Rel by (by intros q []).
  assert (forall b c d', content (pi_heap p) b = c -> sendBuf (pi_heap p) b c d = Some d' ->
    stepOf i p (putDir i d' p) d d' /\ noDeadline d' /\ (exists n, pd_w d' = WReturned n None) /\ pd_sent d' = pd_sent d ++ c) as Send.
  { intros b c d' Hc. unfold sendBuf. case_decide; [|done]. intros [= <-]. rewrite Hc. split; [done|]. split; [done|]. split; [by eexists|done]. }
  assert (forall b, stopped i p = true -> exists d', stepOf i p (putDir i (set_pd_w (WReturned 0 (Some errConnectionClosed)) d) (releaseByteBuffer (Some b) p)) d d' /\ noDeadline d' /\
    (exists n err, pd_w d' = WReturned n (Some err)) /\ pd_sent d' = pd_sent d /\ stopped i p = true) as Stop.
  { intros b Hs. exists (set_pd_w (WReturned 0 (Some errConnectionClosed)) d). split; [done|]. split; [done|]. split; [by eexists _, _|done]. }
  destruct (pd_w d) as [|b c|b c|b c dl|] eqn:Ew; try done; cbn [writerOk] in W.
  - destruct (stopped i p) eqn:Es; intros [= <-].
    + destruct (Stop b eq_refl) as (d' & H1 & H2 & H3). exists c, d'. split; [done|]. split; [done|]. split; [done|]. right. by right.
    + exists c, (set_pd_w (WTry b c) d). split; [done|]. split; [done|]. split; [done|]. by left.
  - destruct (sendBuf _ b c d) as [d'|] eqn:E; intros [= <-].
    + destruct (Send b c d' W E) as (H1 & H2 & H3). exists c, d'. split; [done|]. split; [done|]. split; [done|]. right. by left.
    + exists c, (set_pd_w (WBlocked b c (pd_wdl d)) d). split; [done|]. split; [done|]. split; [done|]. by left.
  - destruct choice as [|[|]].
    + destruct (sendBuf _ b c d) as [d'|] eqn:E; [|done]. intros [= <-]. destruct (Send b c d' W E) as (H1 & H2 & H3).
      exists c, d'. split; [done|]. split; [done|]. split; [done|]. right. by left.
    + subst dl. done.
    + destruct (stopped i p) eqn:Es; [|done]. intros [= <-]. destruct (Stop b eq_refl) as (d' & H1 & H2 & H3).
      exists c, d'. split; [done|]. split; [done|]. split; [done|]. right. by right.
Qed.

(** The reader's steps leave the writer's side as it is. *)
Definition sameWriter (d d' : pdir) : Prop := pd_w d' = pd_w d /\ pd_sent d' = pd_sent d /\ pd_wdl d' = pd_wdl d.

Lemma recvBuf_writer h d d' : recvBuf h d = Some d' -> sameWriter d d'.
Proof. unfold recvBuf. destruct (pd_ch d); [done|]. by intros [= <-]. Qed.

Lemma copyOut_writer h rest acc d : sameWriter d (copyOut h rest acc d).
Proof. unfold copyOut. by destruct (pd_bb d) as [[b off] n]. Qed.

Lemma pipe_read_goes p p' i d a :
  pi_dirs p !! i = Some d -> (exists n, a = PRead n) \/ (exists choice, a = PGoR choice) -> step i a p = To p' -> exists d', stepOf i p p' d d' /\ sameWriter d d'.
Proof.
  intros L Ha. unfold step, pipe_machine. destruct Ha as [[n ->]|[choice ->]]; rewrite L.
  { destruct (rQuiet (pd_r d)); [|done]. intros [= <-]. by eexists. }
  assert (forall d', sameWriter d d' -> exists d1, stepOf i p (putDir i d' p) d d1 /\ sameWriter d d1) as Put by (intros d' H; exists d'; by split).
  unfold stepRead. destruct (pd_r d) as [|[|rest] mb acc|rest mb acc|rest acc|rest acc dl|rest acc err|acc err] eqn:Er; try done.
  - intros [= <-]. by apply Put.
  - destruct (pd_bb d) as [[b off] n]. case_decide; intros [= <-]; [|by apply Put, copyOut_writer]. destruct (releaseByteBuffer_same (pd_b d) p) as [R1 R2].
    eexists. split; [split; [cbn; by rewrite R2|by split]|done].
  - destruct (recvBuf _ d) as [d1|] eqn:E; [intros [= <-]; apply recvBuf_writer in E; by apply Put|]. destruct mb; intros [= <-]; by apply Put.
  - intros [= <-]. apply Put, copyOut_writer.
  - destruct choice as [|[|]].
    + destruct (recvBuf _ d) as [d1|] eqn:E; [|done]. intros [= <-]. apply recvBuf_writer in E. by apply Put.
    + destruct (dlFires dl); [|done]. intros [= <-]. by apply Put.
    + destruct (stopped i p); [|done]. intros [= <-]. by apply Put.
  - destruct (recvBuf _ d) as [d1|] eqn:E; intros [= <-]; [apply recvBuf_writer in E|]; by apply Put.
Qed.

(** ** The invariant of a stream *)

(** What the goroutine has handed over, as the writer's side has it. *)
Definition sentOk (x : stream) (d : pdir) : Prop :=
  match inProgress (pd_w d) with
  | Some c => ss_stage x = SrWriting /\ exists l, ss_done x = l ++ [c] /\ pd_sent d = concat l
  | None =>
      match pd_w d with
      | WReturned _ (Some _) => ss_readerClosed x = true /\ exists l c, ss_done x = l ++ [c] /\ pd_sent d = concat l
      | _ => pd_sent d = concat (ss_done x)
      end
  end.

Record streamOk (p : pworld) (x : stream) (d : pdir) : Prop := {
  so_deadline : noDeadline d;
  so_chunks : streamChunks (ss_sw x) = ss_done x ++ ss_rest x;
  so_sent : sentOk x d;
  so_open : ss_readerClosed x = false -> ss_stage x <> SrEnded -> stopped (ss_dir x) p = false;
  so_all : ss_readerClosed x = false -> ss_stage x <> SrWriting -> ss_rest x = []
}.

Record streamInv (s : streamWorld) : Prop := {
  si_pipe : reachable initPw (sr_pipe s);
  si_dirs : length (pi_dirs (sr_pipe s)) = 2 * length (sr_streams s);
  si_stops : length (pi_stopped (sr_pipe s)) = length (sr_streams s);
  si_each : forall t x, sr_streams s !! t = Some x -> ss_dir x = 2 * t /\ exists d, pi_dirs (sr_pipe s) !! ss_dir x = Some d /\ streamOk (sr_pipe s) x d
}.

Lemma even_half t : 2 * t / 2 = t.
Proof. rewrite Nat.mul_comm. by apply Nat.div_mul. Qed.

Lemma pipe_reachable_step i a p p' : reachable initPw p -> step i a p = To p' -> reachable initPw p'.
Proof. intros R E. eapply rtc_r; [done|by econstructor]. Qed.

(** A stream moves on with its direction; the others do not see it. *)
Lemma stream_move s t x x' d d' p' :
  streamInv s -> sr_streams s !! t = Some x -> reachable initPw p' -> pi_dirs p' = <[ss_dir x := d']> (pi_dirs (sr_pipe s)) ->
  pi_dirs (sr_pipe s) !! ss_dir x = Some d ->
  (pi_stopped p' = pi_stopped (sr_pipe s) \/ pi_stopped p' = <[t := true]> (pi_stopped (sr_pipe s))) -> ss_dir x' = ss_dir x -> streamOk p' x' d' ->
  streamInv (MkStreamWorld p' (<[t := x']> (sr_streams s))).
Proof.
  intros I L R Ed Ld Es Ex K. destruct (si_each _ I t x L) as [Dx _]. split; cbn; [done| | |].
  - by rewrite Ed, !length_insert, (si_dirs _ I).
  - rewrite length_insert, <- (si_stops _ I). destruct Es as [->| ->]; [done|by rewrite length_insert].
  - intros u y Lu. apply list_lookup_insert_Some in Lu as [(<- & <- & _)|[D Lu]].
    + split; [by rewrite Ex|]. exists d'. split; [|done]. rewrite Ed, Ex. apply list_lookup_insert_eq. by eapply lookup_lt_Some.
    + destruct (si_each _ I u y Lu) as (Dy & e & Le & [K1 K2 K3 K4 K5]). split; [done|]. exists e. split; [rewrite Ed, list_lookup_insert_ne by lia; done|]. split; try done.
      intros H1 H2. specialize (K4 H1 H2). unfold stopped in K4 |- *. rewrite Dy, even_half in K4 |- *. destruct Es as [->| ->]; [done|by rewrite list_lookup_insert_ne].
Qed.

(** The end of a pipe is closed by its writer or by its reader. *)
Lemma pipe_close_goes p p' i d : pi_dirs p !! i = Some d -> step i PClose p = To p' -> pi_dirs p' = pi_dirs p /\ pi_stopped p' = <[i / 2 := true]> (pi_stopped p).
Proof. unfold step, pipe_machine. intros ->. by intros [= <-]. Qed.

Lemma stream_close s t x x' d p' :
  streamInv s -> sr_streams s !! t = Some x -> pi_dirs (sr_pipe s) !! ss_dir x = Some d -> step (ss_dir x) PClose (sr_pipe s) = To p' ->
  ss_dir x' = ss_dir x -> streamOk p' x' d -> streamInv (MkStreamWorld p' (<[t := x']> (sr_streams s))).
Proof.
  intros I L Ld E Ex K. destruct (pipe_close_goes _ _ _ _ Ld E) as [E1 E2]. destruct (si_each _ I t x L) as [Dx _].
  apply (stream_move s t x x' d d p'); try done.
  - eapply pipe_reachable_step; [apply I|done].
  - rewrite E1. by rewrite list_insert_id.
  - right. by rewrite E2, Dx, even_half.
Qed.

Lemma stream_new s sw p' : streamInv s -> step (length (pi_dirs (sr_pipe s))) PNew (sr_pipe s) = To p' ->
  streamInv (MkStreamWorld p' (sr_streams s ++ [MkStream (length (pi_dirs (sr_pipe s))) sw SrWriting [] (streamChunks sw) false])).
Proof.
  intros I E. pose proof (pipe_reachable_step _ _ _ _ (si_pipe _ I) E) as R. unfold step, pipe_machine in E. injection E as <-. split; cbn; [done| | |].
  - rewrite !length_app, (si_dirs _ I). cbn. lia.
  - rewrite !length_app, (si_stops _ I). done.
  - intros u y Lu. apply lookup_app_Some in Lu as [Lu|[Hu Lu]].
    + destruct (si_each _ I u y Lu) as (Dy & e & Le & [K1 K2 K3 K4 K5]). split; [done|]. exists e. split; [by apply lookup_app_l_Some|]. split; try done.
      intros H1 H2. specialize (K4 H1 H2). unfold stopped in *. cbn [pi_stopped]. rewrite lookup_app_l; [done|]. rewrite Dy, even_half, (si_stops _ I). by eapply lookup_lt_Some.
    + apply list_lookup_singleton_Some in Lu as [Hz <-]. assert (u = length (sr_streams s)) as -> by lia. cbn. rewrite (si_dirs _ I). split; [done|].
      exists newDir. split; [rewrite lookup_app_r by (rewrite (si_dirs _ I); lia); by rewrite (si_dirs _ I), Nat.sub_diag|]. split; try done.
      intros _ _. unfold stopped. cbn [ss_dir]. rewrite even_half. cbn [pi_stopped]. rewrite lookup_app_r by (rewrite (si_stops _ I); lia). by rewrite (si_stops _ I), Nat.sub_diag.
Qed.

(** The goroutine's steps, one by one. *)
Section Goroutine.
Context (s : streamWorld) (t : nat) (x : stream) (d : pdir) (I : streamInv s) (L : sr_streams s !! t = Some x)
  (Ld : pi_dirs (sr_pipe s) !! ss_dir x = Some d) (K : streamOk (sr_pipe s) x d).

Let put stage done rest p := MkStreamWorld p (<[t := MkStream (ss_dir x) (ss_sw x) stage done rest (ss_readerClosed x)]> (sr_streams s)).

Lemma goroutine_stops :
  ss_stage x = SrWriting -> (exists n err, pd_w d = WReturned n (Some err)) \/ ((pd_w d = WIdle \/ exists n, pd_w d = WReturned n None) /\ ss_rest x = []) ->
  streamInv (put SrClosing (ss_done x) (ss_rest x) (sr_pipe s)).
Proof.
  intros Es H. destruct K as [K1 K2 K3 K4 K5]. apply (stream_move s t x _ d d (sr_pipe s)); try done; [by apply I|by rewrite list_insert_id|by left|].
  unfold sentOk in K3. split; cbn; try done.
  - unfold sentOk. cbn. destruct H as [(n & err & W)|[[W|[n W]] _]]; rewrite W in *; done.
  - intros H1 _. apply K4; [done|by rewrite Es].
  - intros H1 _. destruct H as [(n & err & W)|[_ H]]; [|done]. rewrite W in K3. destruct K3 as [K3 _]. congruence.
Qed.

Lemma goroutine_starts c cs pick p' :
  ss_stage x = SrWriting -> (pd_w d = WIdle \/ exists n, pd_w d = WReturned n None) -> ss_rest x = c :: cs -> step (ss_dir x) (PWrite c pick) (sr_pipe s) = To p' ->
  streamInv (put SrWriting (ss_done x ++ [c]) cs p').
Proof.
  intros Es H Er E. destruct K as [K1 K2 K3 K4 K5]. destruct (pipe_write_starts _ _ _ d c pick Ld E) as (b & E1 & E2 & _).
  assert (pd_sent d = concat (ss_done x)) as Sd by (unfold sentOk in K3; destruct H as [W|[n W]]; by rewrite W in K3).
  apply (stream_move s t x _ d (set_pd_w (WCheck b c) d) p'); try done; [eapply pipe_reachable_step; [apply I|done]|by left|]. split; cbn; try done.
  - by destruct K1.
  - by rewrite <- app_assoc, K2, Er.
  - unfold sentOk. cbn. split; [done|]. by exists (ss_done x).
  - intros H1 _. unfold stopped. rewrite E2. apply K4; [done|by rewrite Es].
Qed.

Lemma goroutine_goes choice p' :
  ss_stage x = SrWriting -> step (ss_dir x) (PGoW choice) (sr_pipe s) = To p' -> streamInv (put SrWriting (ss_done x) (ss_rest x) p').
Proof.
  intros Es E. destruct K as [K1 K2 K3 K4 K5]. destruct (pipe_write_goes _ _ _ d choice (pipe_reachable _ (si_pipe _ I)) Ld K1 E) as (c & d' & Hc & (E1 & E2 & _) & N & R).
  unfold sentOk in K3. rewrite Hc in K3. destruct K3 as (_ & l & Hl & Sl).
  apply (stream_move s t x _ d d' p'); try done; [eapply pipe_reachable_step; [apply I|done]|by left|]. split; cbn; try done.
  - unfold sentOk. cbn. destruct R as [[P Sd]|[[[n P] Sd]|[(n & err & P) [Sd St]]]].
    + rewrite P. split; [done|]. exists l. by rewrite Sd.
    + rewrite P. cbn. by rewrite Sd, Sl, Hl, concat_app, concat_cons, app_nil_r.
    + rewrite P. cbn. split; [|exists l, c; by rewrite Sd]. destruct (ss_readerClosed x) eqn:Ec; [done|]. rewrite (K4 eq_refl) in St by (by rewrite Es). done.
  - intros H1 _. unfold stopped. rewrite E2. apply K4; [done|by rewrite Es].
Qed.

Lemma goroutine_closes p' : ss_stage x = SrClosing -> step (ss_dir x) PClose (sr_pipe s) = To p' -> streamInv (put SrEnded (ss_done x) (ss_rest x) p').
Proof.
  intros Es E. destruct K as [K1 K2 K3 K4 K5]. apply (stream_close s t x _ d p'); try done. split; cbn; try done.
  - unfold sentOk in *. cbn. destruct (inProgress (pd_w d)); [|done]. destruct K3 as [K3 _]. congruence.
  - intros H1 _. apply K5; [done|by rewrite Es].
Qed.
End Goroutine.

(** The reader's side moves. *)
Lemma reader_moves s t x d d' p' a :
  streamInv s -> sr_streams s !! t = Some x -> streamOk (sr_pipe s) x d -> step (ss_dir x) a (sr_pipe s) = To p' -> stepOf (ss_dir x) (sr_pipe s) p' d d' -> sameWriter d d' ->
  streamInv (MkStreamWorld p' (sr_streams s)).
Proof.
  intros I L [K1 K2 K3 K4 K5] E (E1 & E2 & Ld) (W1 & W2 & W3). rewrite <- (list_insert_id (sr_streams s) t x L).
  apply (stream_move s t x x d d' p'); try done; [eapply pipe_reachable_step; [apply I|done]|by left|]. split; try done.
  - unfold noDeadline in *. by rewrite W1, W3.
  - unfold sentOk in *. by rewrite W1, W2.
  - intros H1 H2. unfold stopped. rewrite E2. by apply K4.
Qed.

Lemma stream_goroutine s t x pick choice s' :
  streamInv s -> sr_streams s !! t = Some x -> streamGoroutine t x pick choice s = To s' -> streamInv s'.
Proof.
  intros I L. destruct (si_each _ I t x L) as (Dx & d & Ld & K). unfold streamGoroutine.
  assert (forall o (f : pworld -> streamWorld), onPipe o f = To s' -> exists p', o = To p' /\ s' = f p') as On by (intros [| |p'] f; [done|done|intros [= <-]; by exists p']).
  destruct (ss_stage x) eqn:Es; [|intros E|done].
  - rewrite Ld. destruct (pd_w d) as [|b c|b c|b c dl|n [err|]] eqn:Ew.
    all: try (intros E; apply On in E as (p' & E & ->); by eapply goroutine_goes).
    + destruct (ss_rest x) as [|c cs] eqn:Er; intros E.
      * injection E as <-. rewrite <- Er. apply (goroutine_stops s t x d); try done. right. split; [by left|done].
      * apply On in E as (p' & E & ->). apply (goroutine_starts s t x d I L Ld K c cs pick); try done. by left.
    + intros [= <-]. apply (goroutine_stops s t x d); try done. left. by exists n, err.
    + destruct (ss_rest x) as [|c cs] eqn:Er; intros E.
      * injection E as <-. rewrite <- Er. apply (goroutine_stops s t x d); try done. right. split; [right; by exists n|done].
      * apply On in E as (p' & E & ->). apply (goroutine_starts s t x d I L Ld K c cs pick); try done. right. by exists n.
  - apply On in E as (p' & E & ->). by eapply goroutine_closes.
Qed.

Lemma stream_step s t a s' : streamInv s -> step (Machine := stream_machine) t a s = To s' -> streamInv s'.
Proof.
  intros I. unfold step, stream_machine.
  assert (forall o (f : pworld -> streamWorld), onPipe o f = To s' -> exists p', o = To p' /\ s' = f p') as On by (intros [| |p'] f; [done|done|intros [= <-]; by exists p']).
  destruct a as [sw|pick choice|n|choice|].
  { unfold NewStreamReader. intros E. apply On in E as (p' & E & ->). by apply stream_new. }
  all: destruct (sr_streams s !! t) as [x|] eqn:L; [|done]; destruct (si_each _ I t x L) as (Dx & d & Ld & K).
  - by apply stream_goroutine.
  - intros E. apply On in E as (p' & E & ->). destruct (pipe_read_goes _ _ _ d _ Ld (or_introl (ex_intro _ n eq_refl)) E) as (d' & E1 & W). by apply (reader_moves s t x d d' p' (PRead n)).
  - intros E. apply On in E as (p' & E & ->). destruct (pipe_read_goes _ _ _ d _ Ld (or_intror (ex_intro _ choice eq_refl)) E) as (d' & E1 & W). by apply (reader_moves s t x d d' p' (PGoR choice)).
  - intros E. apply On in E as (p' & E & ->). destruct K as [K1 K2 K3 K4 K5]. apply (stream_close s t x _ d p'); try done. split; cbn; try done.
    unfold sentOk in *. cbn. destruct (inProgress (pd_w d)); [done|]. destruct (pd_w d) as [| | | |? [|]]; try done. by destruct K3.
Qed.

Lemma stream_reachable s : reachable (H := stream_machine) noStreams s -> streamInv s.
Proof.
  apply (reachable_invariant (H := stream_machine) streamInv).
  - split; cbn; [apply rtc_refl|done|done|]. intros t x Lx. by rewrite lookup_nil in Lx.
  - intros t a s1 s2 I E. by eapply stream_step.
Qed.

(** What has been sent is a beginning of what is written, and all of it once the pipe
    has been closed by the goroutine. *)
Lemma sent_prefix p x d : streamOk p x d -> exists rest, written (ss_sw x) = pd_sent d ++ rest.
Proof.
  intros [_ K2 K3 _ _]. rewrite <- streamChunks_concat, K2, concat_app. unfold sentOk in K3.
  assert (forall l c, ss_done x = l ++ [c] -> pd_sent d = concat l -> exists rest, concat (ss_done x) ++ concat (ss_rest x) = pd_sent d ++ rest) as Last.
  { intros l c -> ->. exists (c ++ concat (ss_rest x)). by rewrite concat_app, concat_cons, app_nil_r, <- app_assoc. }
  destruct (inProgress (pd_w d)) as [c|]; [destruct K3 as (_ & l & H1 & H2); by apply (Last l c)|].
  destruct (pd_w d) as [| | | |n [err|]]; try (rewrite K3; by eexists). destruct K3 as (_ & l & c & H1 & H2). by apply (Last l c).
Qed.

Lemma sent_all p x d : streamOk p x d -> ss_readerClosed x = false -> stopped (ss_dir x) p = true -> pd_sent d = written (ss_sw x).
Proof.
  intros [_ K2 K3 K4 K5] Hc Hs. assert (ss_stage x = SrEnded) as Es.
  { destruct (ss_stage x) eqn:E; [| |done]; exfalso; rewrite (K4 Hc) in Hs by done; done. }
  rewrite <- streamChunks_concat, K2, (K5 Hc) by (by rewrite Es). rewrite app_nil_r. unfold sentOk in K3.
  destruct (inProgress (pd_w d)); [destruct K3 as [K3 _]; congruence|]. destruct (pd_w d) as [| | | |n [err|]]; try done. destruct K3 as [K3 _]. congruence.
Qed.

(** * Properties *)

(** C29. What NewStreamReader returns replays what the StreamWriter has written: under
    every interleaving of any number of streams, what has been read and what is on
    its way is a beginning of what the StreamWriter writes; and when a Read says
    io.EOF and the reader has not been closed, everything has been read. *)
Theorem NewStreamReader_replays (s : streamWorld) (t : nat) (x : stream) (d : pdir) (R : reachable (H := stream_machine) noStreams s)
    (L : sr_streams s !! t = Some x) (Ld : pi_dirs (sr_pipe s) !! ss_dir x = Some d) :
  (exists rest, written (ss_sw x) = pd_got d ++ reading (pd_r d) ++ inPipe (pi_heap (sr_pipe s)) d ++ rest) /\
  (forall choice s' d' acc, ss_readerClosed x = false -> step (Machine := stream_machine) t (SrGoR choice) s = To s' ->
     pi_dirs (sr_pipe s') !! ss_dir x = Some d' -> pd_r d' = RReturned acc (Some EOF) -> acc = [] /\ pd_got d' = written (ss_sw x)).
Proof.
  pose proof (stream_reachable s R) as I. destruct (si_each _ I t x L) as (_ & e & Le & K). rewrite Ld in Le. injection Le as <-. split.
  - pose proof (do_data _ _ (pi_each _ (pipe_reachable _ (si_pipe _ I)) _ _ Ld)) as D. destruct (sent_prefix (sr_pipe s) x d K) as [rest E].
    exists rest. rewrite E, D. by rewrite <- !app_assoc.
  - intros choice s' d' acc Hc E Ld' Hr. pose proof (stream_step s t (SrGoR choice) s' I E) as I'. unfold step, stream_machine in E. rewrite L in E.
    destruct (step (ss_dir x) (PGoR choice) (sr_pipe s)) as [| |p'] eqn:Ep; try done. injection E as <-. cbn in Ld', I'.
    destruct (Read_error_after_all _ _ _ _ d d' acc EOF (si_pipe _ I) Ld Ep Ld' Hr) as (Ha & Hg & _ & Hs). split; [done|].
    destruct (si_each _ I' t x L) as (_ & e & Le & K'). cbn in Le, K'. rewrite Ld' in Le. injection Le as <-. rewrite Hg. by apply (sent_all p' x d' K' Hc), Hs.
Qed.

(** Two writes, one of them large, and a flush between; everything is read. *)
Definition sampleWriter : list sop := [SWrite (bs "ab"); SFlush; SWrite (bs "c"); SWrite (bs "d")].

Definition streamRun : list (nat * sact) :=
  [(0, SrNew sampleWriter); (0, SrGo None 0); (0, SrGo None 0); (0, SrGo None 0); (0, SrGo None 0); (0, SrGo None 0); (0, SrGo None 0); (0, SrGo None 0); (0, SrGo None 0);
   (0, SrRead 9); (0, SrGoR 0); (0, SrGoR 0); (0, SrGoR 0); (0, SrGoR 0); (0, SrGoR 0); (0, SrGoR 0); (0, SrGoR 0); (0, SrGoR 0); (0, SrRead 9); (0, SrGoR 0); (0, SrGoR 0); (0, SrGoR 2)].

Definition streamAfter : streamWorld := match run (H := stream_machine) streamRun noStreams with To s => s | _ => noStreams end.

Lemma streamAfter_reachable : reachable (H := stream_machine) noStreams streamAfter.
Proof. apply (run_reachable (H := stream_machine) streamRun). vm_compute. reflexivity. Qed.

Definition streamLast : streamWorld := match step (Machine := stream_machine) 0 (SrGoR 0) streamAfter with To s => s | _ => noStreams end.

Lemma NewStreamReader_replays_witness :
  let x := MkStream 0 sampleWriter SrEnded [bs "ab"; bs "cd"] [] false in
  sr_streams streamAfter = [x] /\ pd_got (default newDir (pi_dirs (sr_pipe streamLast) !! 0)) = written sampleWriter.
Proof.
  intros x. assert (sr_streams streamAfter = [x]) as E by (vm_compute; reflexivity). split; [exact E|].
  assert (sr_streams streamAfter !! 0 = Some x) as L by (vm_compute; reflexivity).
  assert (pi_dirs (sr_pipe streamAfter) !! 0 = Some (default newDir (pi_dirs (sr_pipe streamAfter) !! 0))) as Ld by (vm_compute; reflexivity).
  assert (step (Machine := stream_machine) 0 (SrGoR 0) streamAfter = To streamLast) as Es by (vm_compute; reflexivity).
  assert (pi_dirs (sr_pipe streamLast) !! 0 = Some (default newDir (pi_dirs (sr_pipe streamLast) !! 0))) as Ld' by (vm_compute; reflexivity).
  assert (pd_r (default newDir (pi_dirs (sr_pipe streamLast) !! 0)) = RReturned [] (Some EOF)) as Er by (vm_compute; reflexivity).
  exact (proj2 (proj2 (NewStreamReader_replays streamAfter 0 x _ streamAfter_reachable L Ld) 0 streamLast _ [] eq_refl Es Ld' Er)).
Defined.

(** A reader that is given up without Close keeps the goroutine for ever: with a
    full pipe it waits for a Read. *)
Definition stuckRun : list (nat * sact) :=
  (0, SrNew (concat (replicate 5 [SWrite (bs "a"); SFlush]))) :: replicate 14 (0, SrGo None 0) ++ [(0, SrGo None 0)].

Lemma abandoned_reader_blocks_writer :
  match run (H := stream_machine) stuckRun noStreams with
  | To s => map (fun d => length (pd_ch d)) (pi_dirs (sr_pipe s)) = [4; 0] /\ forall pick choice, step (Machine := stream_machine) 0 (SrGo pick choice) s = Blocked
  | _ => False
  end.
Proof. vm_compute. split; [done|]. intros _ [|[|]]; done. Qed.
