(* ===== verification/ArgsMore.v ===== *)
(** * args.go and bytesconv.go: decimal fractions, sorting

    ParseUfloat down to its last multiplication: its result is the three factors of
    it, since the code's arithmetic on floats is that of the processor.  Args.Sort
    with a comparison function of the caller's; sort.SliceStable is insertion, which
    gives what every stable sort gives. *)
From Stdlib Require Import Strings.String Sorting.Permutation Sorting.Sorted.
From S2P Require Import Prelude BytesConv Args.

Definition errEmptyFloat : error := Errorf "empty float number".
Definition errDuplicateFloatPoint : error := Errorf "duplicate point found in float number".
Definition errUnexpectedFloatEnd : error := Errorf "unexpected end of float number".
Definition errInvalidFloatExponent : error := Errorf "invalid float number exponent".
Definition errUnexpectedFloatChar : error := Errorf "unexpected char found in float number".

(** ** ParseUfloat *)

(** float64([uf_v]) * offset, where offset is 1 divided by ten [uf_points] times, and
    * math.Pow10 of the exponent if there is one. *)
Record ufloat := MkUfloat { uf_v : Z; uf_points : nat; uf_Pow10 : option Z }.

Definition parseExponent (v : Z) (points : nat) (b : bytes) : ufloat + error :=
  match b with
  | [] => inr errUnexpectedFloatEnd
  | c :: rest =>
      let '(minus, b) := if decide (c = "+"%byte) then (1, rest) else if decide (c = "-"%byte) then (-1, rest) else (1, b) in
      match ParseUint b with
      | (_, Some _) => inr errInvalidFloatExponent
      | (vv, None) => inl (MkUfloat v points (Some (minus * vv)))
      end
  end.

Fixpoint parseUfloatLoop (v : Z) (pointFound : bool) (points : nat) (b : bytes) : ufloat + error :=
  match b with
  | [] => inl (MkUfloat v points None)
  | c :: b =>
      if (bz c <? bz "0") || (bz "9" <? bz c) then
        if decide (c = "."%byte) then
          if pointFound then inr errDuplicateFloatPoint else parseUfloatLoop v true points b
        else if decide (c = "e"%byte \/ c = "E"%byte) then parseExponent v points b
        else inr errUnexpectedFloatChar
      else
        parseUfloatLoop (uint64 (10 * v + (bz c - bz "0"))) pointFound (if pointFound then S points else points) b
  end.

Definition ParseUfloat (buf : bytes) : ufloat + error :=
  if decide (buf = []) then inr errEmptyFloat else parseUfloatLoop 0 false 0 buf.

Definition Args_GetUfloat (a : Args) (k : bytes) : ufloat + error :=
  let value := default [] (Args_Peek a k) in
  if decide (value = []) then inr ErrNoArgValue else ParseUfloat value.

Definition Args_GetUfloatOrZero (a : Args) (k : bytes) : ufloat :=
  match Args_GetUfloat a k with inl f => f | inr _ => MkUfloat 0 0 None end.

(** Args.WriteTo: the arguments, what has been written, and its length. *)
Definition Args_WriteTo (a : Args) (w : bytes) : Args * bytes * Z :=
  let '(a, q) := Args_QueryString a in (a, w ++ q, zlen q).

(** The digits of a number, taken up one by one. *)
Definition onDigits (v : Z) (ds : bytes) : Z := fold_left (fun v c => uint64 (10 * v + (bz c - bz "0"))) ds v.

Lemma digit_inside c : is_digit c = true -> (bz c <? bz "0") || (bz "9" <? bz c) = false.
Proof. by destruct c. Qed.

Lemma digits_loop ds rest v pf k :
  Forall (fun c => is_digit c = true) ds ->
  parseUfloatLoop v pf k (ds ++ rest) = parseUfloatLoop (onDigits v ds) pf (if pf then (k + length ds)%nat else k) rest.
Proof.
  intros F. revert v k. induction F as [|c ds Hc F IH]; intros v k.
  - cbn. destruct pf; [by rewrite Nat.add_0_r|done].
  - cbn [app parseUfloatLoop]. rewrite (digit_inside c Hc), IH. change (onDigits v (c :: ds)) with (onDigits (uint64 (10 * v + (bz c - bz "0"))) ds).
    cbn [length]. destruct pf; [|done]. by replace (S k + length ds)%nat with (k + S (length ds))%nat by lia.
Qed.

Lemma onDigits_value v ds : Forall (fun c => is_digit c = true) ds -> onDigits (uint64 v) ds = uint64 (dec_from v ds).
Proof.
  intros F. revert v. induction F as [|c ds Hc F IH]; intros v; [done|].
  change (onDigits (uint64 v) (c :: ds)) with (onDigits (uint64 (10 * uint64 v + digit_val c)) ds). change (dec_from v (c :: ds)) with (dec_from (10 * v + digit_val c) ds).
  rewrite <- IH. f_equal. unfold uint64. by rewrite Zplus_mod, Zmult_mod_idemp_r, <- Zplus_mod.
Qed.

(** The text of a number: digits, digits behind a point, an exponent with its sign. *)
Definition exponentText (e : option (bytes * bytes)) : bytes := match e with None => [] | Some (sign, ds) => "e"%byte :: sign ++ ds end.

Definition exponentValue (e : option (bytes * bytes)) : option Z :=
  match e with None => None | Some (sign, ds) => Some (if decide (sign = bs "-") then - dec_value ds else dec_value ds) end.

Definition goodExponent (e : option (bytes * bytes)) : Prop :=
  match e with
  | None => True
  | Some (sign, ds) => sign ∈ [[]; bs "+"; bs "-"] /\ ds <> [] /\ Forall (fun c => is_digit c = true) ds /\ dec_value ds <= maxInt
  end.

Lemma parseExponent_text v k sign ds :
  goodExponent (Some (sign, ds)) -> parseExponent v k (sign ++ ds) = inl (MkUfloat v k (exponentValue (Some (sign, ds)))).
Proof.
  intros (Hs & Hn & F & M). unfold exponentValue. pose proof (ParseUint_digits ds Hn F M) as P.
  assert (sign = [] \/ sign = bs "+" \/ sign = bs "-") as [->|[->| ->]] by (rewrite !elem_of_cons in Hs; destruct Hs as [?|[?|[?|Hs]]]; [tauto..|by apply elem_of_nil in Hs]).
  - destruct ds as [|c ds]; [done|]. apply Forall_cons in F as [Hc _]. cbn [app parseExponent].
    rewrite (decide_False (P := c = "+"%byte)) by (by intros ->). rewrite (decide_False (P := c = "-"%byte)) by (by intros ->). rewrite P. cbn. by rewrite Z.mul_1_l.
  - change (bs "+" ++ ds) with ("+"%byte :: ds). unfold parseExponent. rewrite decide_True by done. rewrite P. by rewrite Z.mul_1_l.
  - change (bs "-" ++ ds) with ("-"%byte :: ds). unfold parseExponent. rewrite (decide_False (P := _ = "+"%byte)) by done. rewrite decide_True by done. rewrite P.
    rewrite decide_True by done. by do 3 f_equal.
Qed.

(** A number is read as it is written: its digits without the point, modulo 2^64,
    divided by ten for each digit behind the point, with its exponent. *)
Lemma ParseUfloat_text ds1 ds2 (point : bool) e :
  Forall (fun c => is_digit c = true) ds1 -> Forall (fun c => is_digit c = true) ds2 -> goodExponent e -> (point = false -> ds2 = []) ->
  ds1 ++ (if point then [x2e] else []) ++ ds2 ++ exponentText e <> [] ->
  ParseUfloat (ds1 ++ (if point then [x2e] else []) ++ ds2 ++ exponentText e) = inl (MkUfloat (uint64 (dec_value (ds1 ++ ds2))) (length ds2) (exponentValue e)).
Proof.
  intros F1 F2 G P N. unfold ParseUfloat. rewrite decide_False by done. rewrite digits_loop by done. change 0 with (uint64 0) at 1. rewrite onDigits_value by done.
  assert (forall v pf k, parseUfloatLoop v pf k (exponentText e) = inl (MkUfloat v k (exponentValue e))) as Tail.
  { intros v pf k. destruct e as [[sign ds]|]; [|done]. cbn [exponentText parseUfloatLoop]. by rewrite <- (parseExponent_text v k sign ds). }
  unfold dec_value. rewrite dec_from_app. destruct point.
  - cbn [app parseUfloatLoop]. rewrite digits_loop by done. rewrite onDigits_value by done. apply Tail.
  - rewrite (P eq_refl). cbn. apply Tail.
Qed.

(** 2^64 is read as 0; a point alone, or an exponent without a number, is a number;
    and 0e309 is 0 times infinity. *)
Lemma ufloat_corners :
  ParseUfloat (bs "18446744073709551616") = inl (MkUfloat 0 0 None) /\ ParseUfloat (bs ".") = inl (MkUfloat 0 0 None) /\
  ParseUfloat (bs "e5") = inl (MkUfloat 0 0 (Some 5)) /\ ParseUfloat (bs "0e309") = inl (MkUfloat 0 0 (Some 309)).
Proof. vm_compute. done. Qed.

(** ** Args.Sort *)

(** The comparison of two arguments: keys, then values. *)
Definition argsLess (f : bytes -> bytes -> Z) (x y : argsKV) : bool :=
  let n := f (key x) (key y) in
  if n =? 0 then f (value x) (value y) =? -1 else n =? -1.

(** A stable sort: an element goes behind those that are not greater. *)
Fixpoint insertStable {A} (less : A -> A -> bool) (x : A) (l : list A) : list A :=
  match l with
  | [] => [x]
  | y :: l => if less x y then x :: y :: l else y :: insertStable less x l
  end.

Definition SliceStable {A} (less : A -> A -> bool) (l : list A) : list A := fold_left (fun acc x => insertStable less x acc) l [].

Definition Args_Sort (a : Args) (f : bytes -> bytes -> Z) : Args := MkArgs (Kvs (SliceStable (argsLess f) (live (args a))) (spare (args a))) (buf a).

Section Stable.
Context {A : Type} (less : A -> A -> bool) (asym : forall x y, less x y = true -> less y x = false)
  (weak : forall x y z, less x z = true -> less x y = true \/ less y z = true).

(** The elements that are neither less nor greater than [z]. *)
Definition classOf (z : A) (l : list A) : list A := filter (fun y => less y z = false /\ less z y = false) l.

Lemma insertStable_perm x l : insertStable less x l ≡ₚ x :: l.
Proof. induction l as [|y l IH]; cbn; [done|]. destruct (less x y); [done|]. rewrite IH. apply Permutation_swap. Qed.

Lemma insertStable_sorted x l : StronglySorted (fun a b => less b a = false) l -> StronglySorted (fun a b => less b a = false) (insertStable less x l).
Proof.
  induction 1 as [|y l Hl IH Hy]; cbn; [by repeat constructor|]. destruct (less x y) eqn:E.
  - constructor; [by constructor|]. constructor; [by apply asym|]. rewrite Forall_forall in *. intros z Hz. destruct (less z x) eqn:Ez; [|done].
    destruct (weak z y x Ez) as [H|H]; [by rewrite Hy in H|by rewrite (asym _ _ E) in H].
  - constructor; [done|]. apply Forall_forall. intros z Hz. rewrite (insertStable_perm x l) in Hz. apply elem_of_cons in Hz as [->|Hz]; [done|].
    rewrite Forall_forall in Hy. by apply Hy.
Qed.

(** Behind what is greater than an element there is nothing of its class. *)
Lemma greater_class x y z l :
  less x y = true -> Forall (fun w => less w y = false) l -> less x z = false -> less z x = false -> classOf z (y :: l) = [].
Proof.
  intros E F E1 E2. unfold classOf. assert (forall w, less w y = false -> less z w = true) as G.
  { intros w Hw. destruct (weak x w y E) as [H|H]; [|congruence]. destruct (weak x z w H) as [H1|H1]; [congruence|done]. }
  assert (less y y = false) as Eyy by (destruct (less y y) eqn:E0; [by rewrite (asym _ _ E0) in E0|done]).
  rewrite filter_cons_False by (intros [_ H]; by rewrite (G y Eyy) in H). induction F as [|w l Hw F IH]; [done|].
  rewrite filter_cons_False by (intros [_ H]; by rewrite (G w Hw) in H). done.
Qed.

Lemma insertStable_class x z l : StronglySorted (fun a b => less b a = false) l -> classOf z (insertStable less x l) = classOf z l ++ classOf z [x].
Proof.
  induction 1 as [|y l Hl IH Hy]; cbn [insertStable]; [done|]. destruct (less x y) eqn:E.
  - destruct (decide (less x z = false /\ less z x = false)) as [D|D].
    + rewrite (greater_class x y z l E Hy) by tauto. unfold classOf at 1. rewrite filter_cons_True by done. pose proof (greater_class x y z l E Hy) as G. unfold classOf in *.
      rewrite G by tauto. cbn [app]. by rewrite filter_cons_True, filter_nil.
    + unfold classOf. rewrite !(filter_cons_False _ x) by done. by rewrite filter_nil, app_nil_r.
  - unfold classOf in *. rewrite (filter_cons _ y (insertStable less x l)), IH, (filter_cons _ y l). by destruct (decide _).
Qed.

Lemma SliceStable_app acc l : 
  StronglySorted (fun a b => less b a = false) acc ->
  let s := fold_left (fun acc x => insertStable less x acc) l acc in
  s ≡ₚ acc ++ l /\ StronglySorted (fun a b => less b a = false) s /\ forall z, classOf z s = classOf z acc ++ classOf z l.
Proof.
  revert acc. induction l as [|x l IH]; intros acc Sa; cbn [fold_left].
  - split; [by rewrite app_nil_r|]. split; [done|]. intros z. unfold classOf. by rewrite filter_nil, app_nil_r.
  - destruct (IH _ (insertStable_sorted x acc Sa)) as (P & Ss & C). split; [|split; [done|]].
    + rewrite P, insertStable_perm. by rewrite <- Permutation_middle.
    + intros z. rewrite C, insertStable_class, <- app_assoc by done. f_equal. unfold classOf. by rewrite <- filter_app.
Qed.
End Stable.

(** A comparison function as Sort asks for: -1, 0 or 1, like bytes.Compare. *)
Record comparison (f : bytes -> bytes -> Z) : Prop := {
  cmp_range : forall x y, -1 <= f x y <= 1;
  cmp_anti : forall x y, f y x = - f x y;
  cmp_trans : forall x y z, f x y <= 0 -> f y z <= 0 -> f x z <= 0
}.

Lemma cmp_weak f x y z : comparison f -> f x z = -1 -> f x y = -1 \/ f y z = -1.
Proof.
  intros C E. destruct (Z.eq_dec (f x y) (-1)) as [|N]; [by left|]. right. pose proof (cmp_range f C) as R. pose proof (cmp_anti f C) as A.
  destruct (Z.eq_dec (f y z) (-1)) as [|N2]; [done|]. exfalso. pose proof (R x y). pose proof (R y z). pose proof (A x y). pose proof (A y z). pose proof (A x z).
  pose proof (cmp_trans f C z y x). lia.
Qed.

Lemma cmp_zero f x y z : comparison f -> f x y = 0 -> f x z = f y z.
Proof.
  intros C E. pose proof (cmp_range f C) as R. pose proof (cmp_anti f C) as A. pose proof (cmp_trans f C) as T.
  pose proof (R x z). pose proof (R y z). pose proof (A x y). pose proof (A x z). pose proof (A y z).
  pose proof (T x y z). pose proof (T y x z). pose proof (T z x y). pose proof (T z y x). lia.
Qed.

Lemma argsLess_asym f x y : comparison f -> argsLess f x y = true -> argsLess f y x = false.
Proof.
  intros C. unfold argsLess. rewrite (cmp_anti f C (key x) (key y)), (cmp_anti f C (value x) (value y)).
  destruct (Z.eqb_spec (f (key x) (key y)) 0) as [->|N]; [change (- 0 =? 0) with true; cbv iota|destruct (Z.eqb_spec (- f (key x) (key y)) 0); [lia|]]; rewrite Z.eqb_eq, Z.eqb_neq; lia.
Qed.

Lemma argsLess_weak f x y z : comparison f -> argsLess f x z = true -> argsLess f x y = true \/ argsLess f y z = true.
Proof.
  intros C. unfold argsLess. intros H. destruct (Z.eqb_spec (f (key x) (key y)) 0) as [E1|N1].
  - rewrite (cmp_zero f (key x) (key y) (key z) C E1) in H. destruct (Z.eqb_spec (f (key y) (key z)) 0) as [E2|N2]; [|by right].
    rewrite !Z.eqb_eq in *. by apply cmp_weak.
  - destruct (Z.eqb_spec (f (key y) (key z)) 0) as [E2|N2].
    + left. pose proof (cmp_zero f (key y) (key z) (key x) C E2) as E. rewrite (cmp_anti f C (key x)), (cmp_anti f C (key x) (key z)) in E.
      destruct (Z.eqb_spec (f (key x) (key z)) 0); [exfalso; lia|lia].
    + destruct (Z.eqb_spec (f (key x) (key z)) 0) as [E3|N3].
      * pose proof (cmp_zero f (key x) (key z) (key y) C E3). pose proof (cmp_anti f C (key y) (key z)).
        pose proof (cmp_range f C (key x) (key y)). pose proof (cmp_range f C (key y) (key z)). rewrite !Z.eqb_eq. lia.
      * rewrite !Z.eqb_eq in *. by apply cmp_weak.
Qed.

(** Sort sorts by keys, then values: the arguments are the same, in order, and those
    that are equal to the comparison function stay in their order. *)
Lemma Args_Sort_sorts (a : Args) (f : bytes -> bytes -> Z) :
  comparison f ->
  let l := live (args (Args_Sort a f)) in
  l ≡ₚ live (args a) /\ StronglySorted (fun x y => argsLess f y x = false) l /\
  (forall z, classOf (argsLess f) z l = classOf (argsLess f) z (live (args a))) /\ spare (args (Args_Sort a f)) = spare (args a).
Proof.
  intros C. destruct (SliceStable_app (argsLess f) (fun x y => argsLess_asym f x y C) (fun x y z => argsLess_weak f x y z C) [] (live (args a)) (SSorted_nil _)) as (P & Ss & Cl).
  split; [done|]. split; [done|]. split; [|done]. intros z. exact (Cl z).
Qed.

(** A comparison function that says how far, not only on which side, leaves things
    as they are: only -1 is less. *)
Lemma Sort_takes_minus_one_only :
  let f x y := bz (default x00 (head x)) - bz (default x00 (head y)) in
  let a := MkArgs (Kvs [ArgsKV (bs "c") [] false; ArgsKV (bs "a") [] false] []) [] in
  live (args (Args_Sort a f)) = live (args a).
Proof. vm_compute. reflexivity. Qed.
