(* ===== verification/Reuse.v ===== *)
(** * Objects that cannot be told apart

    A request or a response that is used again keeps what Reset leaves: the
    storage behind its slices, its scratch buffers, keepBodyBuffer and
    secureErrorLogMessage.  Two objects that differ in these only are equivalent,
    and every call of [reqOp] and [respOp] respects that: it gives the same answer
    on both, and leaves them equivalent.  The same holds of arguments ([argsOp]), URIs
    ([uriOp]) and cookies ([cookieOp]).  The relations are inductive, so that a
    proof takes two equivalent objects apart into the same fields and the calls
    run in step. *)
From Stdlib Require Import Strings.String.
From stdpp Require Import list_tactics option.
From S2P Require Import Prelude BytesConv Consts Args Uri Cookie HeaderScan RequestHeader ResponseHeader Bufio Body HeaderRead Http.

(** Results of calls that may panic: both or none, related. *)
Definition relO {A} (R : A -> A -> Prop) : option A -> option A -> Prop := option_Forall2 R.
Definition relP {A B} (R : A -> A -> Prop) (x y : A * B) : Prop := R (fst x) (fst y) /\ snd x = snd y.

Lemma relO_bind {A B} (R : A -> A -> Prop) (Q : B -> B -> Prop) m m' f f' :
  relO R m m' -> (forall x x', R x x' -> relO Q (f x) (f' x')) -> relO Q (m ≫= f) (m' ≫= f').
Proof. intros [x y HR|] Hf; cbn; [by apply Hf|constructor]. Qed.

(** ** Key/value slices *)

#[local] Arguments delAllArgs : simpl never.
#[local] Arguments setArg : simpl never.
#[local] Arguments appendArg : simpl never.
#[local] Arguments truncKvs : simpl never.
#[local] Arguments URI_RequestURI : simpl never.

(** The same pairs: the storage behind them, and whether an empty value was given
    without "=", which a header does not print, do not matter. *)
Definition sameKvs (a b : kvs) : Prop := visitArgs (live a) = visitArgs (live b).

#[export] Instance sameKvs_equiv : Equivalence sameKvs.
Proof. split; [by intros ?|intros ?? H; by symmetry|intros ??? H1 H2; by etransitivity]. Qed.

Lemma visitArgs_filter k l : visitArgs (filter (fun kv => key kv <> k) l) = filter (fun kv => fst kv <> k) (visitArgs l).
Proof.
  induction l as [|kv l IH]; [done|]. cbn [visitArgs map]. rewrite !filter_cons. cbn [fst]. case_decide; [cbn; f_equal|]; exact IH.
Qed.

Lemma sameKvs_trunc a b : sameKvs (truncKvs a) (truncKvs b).
Proof. done. Qed.

Lemma sameKvs_append a b k v n : sameKvs a b -> sameKvs (appendArg a k v n) (appendArg b k v n).
Proof. unfold sameKvs. intros H. by rewrite !live_appendArg, !visitArgs_app, H. Qed.

Lemma sameKvs_del a b k : sameKvs a b -> sameKvs (delAllArgs a k) (delAllArgs b k).
Proof. unfold sameKvs. intros H. by rewrite !live_delAllArgs, !visitArgs_filter, H. Qed.

Lemma setArgLoop_visit l1 l2 k v n : visitArgs l1 = visitArgs l2 -> relO (fun a b => visitArgs a = visitArgs b) (setArgLoop l1 k v n) (setArgLoop l2 k v n).
Proof.
  revert l2. induction l1 as [|kv l1 IH]; intros [|kv2 l2]; try done; [by constructor|]. cbn [visitArgs map]. intros [= Ek Ev E]. cbn [setArgLoop].
  rewrite Ek. case_decide; [constructor; cbn; by rewrite E|]. destruct (IH l2 E) as [a b Hab|]; [|constructor]. constructor. unfold visitArgs in *. cbn. by rewrite Ek, Ev, Hab.
Qed.

Lemma sameKvs_set a b k v n : sameKvs a b -> sameKvs (setArg a k v n) (setArg b k v n).
Proof.
  intros H. unfold setArg. destruct (setArgLoop_visit _ _ k v n H) as [x y E|]; [exact E|]. by apply sameKvs_append.
Qed.

Lemma sameKvs_peek a b k : sameKvs a b -> peekArgBytes (live a) k = peekArgBytes (live b) k.
Proof.
  unfold sameKvs. generalize (live a) (live b). clear a b. intros l1. induction l1 as [|kv l1 IH]; intros [|kv2 l2]; try done.
  cbn [visitArgs map peekArgBytes]. intros [= -> -> E]. case_decide; [done|by apply IH].
Qed.

Lemma sameKvs_length a b : sameKvs a b -> length (live a) = length (live b).
Proof. intros H. apply (f_equal length) in H. unfold visitArgs in H. by rewrite !length_map in H. Qed.

Lemma sameKvs_cookies a b src : sameKvs a b -> relO sameKvs (parseRequestCookies a src) (parseRequestCookies b src).
Proof.
  intros H. destruct (parseRequestCookies_spec a src) as (l & sp & -> & El), (parseRequestCookies_spec b src) as (l' & sp' & -> & El').
  constructor. unfold sameKvs in *. cbn. by rewrite !visitArgs_app, H, El, El'.
Qed.

Lemma sameKvs_requestCookies a b dst : sameKvs a b -> appendRequestCookieBytes dst (live a) = appendRequestCookieBytes dst (live b).
Proof. intros H. by rewrite !appendRequestCookieBytes_spec, H. Qed.

Create HintDb same discriminated.
#[export] Hint Resolve sameKvs_trunc sameKvs_append sameKvs_del sameKvs_set sameKvs_cookies : same.

(** ** Request headers *)

Inductive sameRqH : RequestHeader -> RequestHeader -> Prop :=
| same_rqh dn nh cc col n nb s1 s2 m u p ho ct ua h1 h2 b1 b2 c1 c2 raw :
    sameKvs h1 h2 -> sameKvs c1 c2 ->
    sameRqH (MkRequestHeader dn nh cc col n nb s1 m u p ho ct ua h1 b1 c1 raw) (MkRequestHeader dn nh cc col n nb s2 m u p ho ct ua h2 b2 c2 raw).

#[export] Hint Constructors sameRqH : same.

(** Two headers whose fields are equivalent. *)
Ltac same_header := apply same_rqh; cbn; eauto with same.

Lemma collectLoop_same pre pre' rest rest' sp sp' a b :
  visitArgs pre = visitArgs pre' -> visitArgs rest = visitArgs rest' -> sameKvs a b ->
  relO (fun x y => sameKvs (fst x) (fst y) /\ sameKvs (snd x) (snd y)) (collectLoop pre rest sp a) (collectLoop pre' rest' sp' b).
Proof.
  revert pre pre' rest' sp sp' a b. induction rest as [|kv rest IH]; intros pre pre' [|kv' rest'] sp sp' a b Hp Hr Hc; try done.
  - by constructor.
  - cbn [visitArgs map] in Hr. injection Hr as Ek Ev Er. cbn [collectLoop]. rewrite Ek. destruct (caseInsensitiveCompare (key kv') strCookie).
    + rewrite Ev. eapply relO_bind; [by apply sameKvs_cookies|]. intros x y Hxy. by apply IH.
    + apply IH; [|done..]. rewrite !visitArgs_app, Hp. cbn. by rewrite Ek, Ev.
Qed.

Lemma collectCookies_same g h : sameRqH g h -> relO sameRqH (RequestHeader_collectCookies g) (RequestHeader_collectCookies h).
Proof.
  intros []. unfold RequestHeader_collectCookies. cbn. destruct col; [constructor; eauto with same|].
  eapply relO_bind; [by apply (collectLoop_same [] [])|]. intros [x1 x2] [y1 y2] [Hx Hy]. cbn in *. constructor. eauto with same.
Qed.

Lemma rqSpecial_same g h k v :
  sameRqH g h -> relO (relP sameRqH) (RequestHeader_setSpecialHeader g k v) (RequestHeader_setSpecialHeader h k v).
Proof.
  assert (forall x y (b : bool), sameRqH x y -> relO (relP sameRqH) (Some (x, b)) (Some (y, b))) as Ret by (intros; constructor; by split).
  intros S. unfold RequestHeader_setSpecialHeader. case_decide; [by apply Ret|].
  repeat match goal with |- context [if firstIs ?c ?k then _ else _] => destruct (firstIs c k) end;
    repeat match goal with |- context [if caseInsensitiveCompare ?a ?b then _ else _] => destruct (caseInsensitiveCompare a b) end; try by apply Ret.
  - destruct S. apply Ret. cbn. eauto with same.
  - destruct (parseContentLength v) as [n' [err|]]; [by apply Ret|]. destruct S. apply Ret. cbn. eauto with same.
  - destruct S. unfold RequestHeader_ResetConnectionClose. case_decide; [apply Ret; cbn; eauto with same|].
    cbn. destruct cc; apply Ret; cbn; unfold setArgBytes, delAllArgsBytes; eauto with same.
  - eapply relO_bind; [by apply collectCookies_same|]. intros ? ? []. cbn. eapply relO_bind; [by apply sameKvs_cookies|]. intros a b Hab.
    apply Ret. eauto with same.
  - destruct S. apply Ret. cbn. eauto with same.
  - destruct S. apply Ret. cbn. eauto with same.
Qed.

Lemma rqSetCanonical_same g h k v : sameRqH g h -> relO sameRqH (RequestHeader_SetCanonical g k v) (RequestHeader_SetCanonical h k v).
Proof.
  intros S. eapply relO_bind; [by apply rqSpecial_same|]. intros [x b] [y b'] [S' E]. cbn in S', E. subst b'. destruct b; [by constructor|].
  destruct S'. constructor. cbn. unfold setArgBytes. eauto with same.
Qed.

Lemma rqBuf_same g h a b : sameRqH g h -> sameRqH (set_rq_bufKV a g) (set_rq_bufKV b h).
Proof. intros []. cbn. eauto with same. Qed.

Lemma rqNormalizing_same g h : sameRqH g h -> rq_disableNormalizing g = rq_disableNormalizing h.
Proof. by intros []. Qed.

#[export] Hint Resolve rqSetCanonical_same rqBuf_same : same.

Lemma rqSet_same g h k v : sameRqH g h -> relO sameRqH (RequestHeader_Set g k v) (RequestHeader_Set h k v).
Proof. intros S. unfold RequestHeader_Set. cbn. rewrite (rqNormalizing_same _ _ S). eauto with same. Qed.

Lemma rqSetBytesKV_same g h k v : sameRqH g h -> relO sameRqH (RequestHeader_SetBytesKV g k v) (RequestHeader_SetBytesKV h k v).
Proof. intros S. unfold RequestHeader_SetBytesKV, set_rq_bufKey. cbn. rewrite (rqNormalizing_same _ _ S). eauto with same. Qed.

Lemma rqAdd_same g h k v : sameRqH g h -> relO sameRqH (RequestHeader_Add g k v) (RequestHeader_Add h k v).
Proof.
  intros S. eapply relO_bind; [by apply rqSpecial_same|]. intros [x b] [y b'] [S' E]. cbn in S', E. subst b'. destruct b; [by constructor|].
  destruct S'. constructor. cbn. unfold appendArgBytes. eauto with same.
Qed.

Lemma rqDel_same g h k : sameRqH g h -> sameRqH (RequestHeader_Del g k) (RequestHeader_Del h k).
Proof.
  intros []. unfold RequestHeader_Del, RequestHeader_del, delAllArgsBytes. cbn. repeat case_decide; same_header.
Qed.

Lemma rqPeek_same g h k : sameRqH g h -> relP sameRqH (RequestHeader_Peek g k) (RequestHeader_Peek h k).
Proof.
  intros S. split; [unfold RequestHeader_Peek; by apply rqBuf_same|]. unfold RequestHeader_Peek. cbn. rewrite (rqNormalizing_same _ _ S).
  generalize (normalizeHeaderKey k (rq_disableNormalizing h)). intros k0. destruct S as [????????????????????? Hh Hc]. unfold RequestHeader_peek. cbn.
  rewrite (sameKvs_peek _ _ k0 Hh), (sameKvs_requestCookies _ _ [] Hc). by repeat case_decide.
Qed.

Lemma rqSetCookie_same g h k v : sameRqH g h -> relO sameRqH (RequestHeader_SetCookie g k v) (RequestHeader_SetCookie h k v).
Proof. intros S. eapply relO_bind; [by apply collectCookies_same|]. intros ? ? []. constructor. cbn. eauto with same. Qed.

Lemma rqDelCookie_same g h k : sameRqH g h -> relO sameRqH (RequestHeader_DelCookie g k) (RequestHeader_DelCookie h k).
Proof. intros S. eapply relO_bind; [by apply collectCookies_same|]. intros ? ? []. constructor. cbn. eauto with same. Qed.

Lemma rqCookie_same g h k : sameRqH g h -> relO (relP sameRqH) (RequestHeader_CookieBytes g k) (RequestHeader_CookieBytes h k).
Proof.
  intros S. eapply relO_bind; [by apply collectCookies_same|]. intros ? ? [????????????????????? Hh Hc]. constructor. split; cbn; [eauto with same|].
  by rewrite (sameKvs_peek _ _ k Hc).
Qed.

Lemma rqSetContentLength_same g h n : sameRqH g h -> relO sameRqH (RequestHeader_SetContentLength g n) (RequestHeader_SetContentLength h n).
Proof.
  intros []. unfold RequestHeader_SetContentLength, setArgBytes, delAllArgsBytes. cbn. destruct (0 <=? n); [|constructor; eauto with same].
  destruct (AppendUint [] n); constructor. eauto with same.
Qed.

Lemma rqAppendBytes_same g h dst : sameRqH g h -> RequestHeader_AppendBytes g dst = RequestHeader_AppendBytes h dst.
Proof.
  intros [????????????????????? Hh Hc]. rewrite !RequestHeader_AppendBytes_lines. unfold requestLines, headLines, cookieLine, closeLine, requestLine, printedContentType. cbn.
  by rewrite Hh, (sameKvs_length _ _ Hc), (sameKvs_requestCookies _ _ [] Hc).
Qed.

Lemma rqHeader_same g h : sameRqH g h -> relP sameRqH (RequestHeader_Header g) (RequestHeader_Header h).
Proof.
  intros S. split; [unfold RequestHeader_Header; by apply rqBuf_same|]. cbn. by rewrite (rqAppendBytes_same _ _ [] S).
Qed.

#[export] Hint Resolve rqSet_same rqSetBytesKV_same rqAdd_same rqDel_same rqSetCookie_same rqDelCookie_same rqSetContentLength_same : same.

(** ** Arguments and URIs *)

(** The same elements; a value without "=" is printed differently. *)
Definition sameArgs (a b : Args) : Prop := live (args a) = live (args b).

Inductive argsOp :=
| ArParse (s : bytes) | ArReset | ArSet (k v : bytes) | ArSetNoValue (k : bytes) | ArAdd (k v : bytes) | ArAddNoValue (k : bytes) | ArDel (k : bytes)
| ArPeek (k : bytes) | ArVisitAll | ArQueryString.

(** What a call returns: nothing, bytes or nil, pairs, an error or nil, or what has
    been written and the error. *)
Inductive reply :=
| Nothing | Got (b : option bytes) | Visited (l : list (bytes * bytes)) | Ended (err : option error) | Written (b : bytes) (err : option error).

(** A sequence of calls, from an object and the results they give; [None] is a
    panic of one of them. *)
Section Calls.
Context {A Op : Type} (call : Op -> A -> option (A * reply)).

Fixpoint calls (ops : list Op) (x : A) : option (list reply) :=
  match ops with
  | [] => Some []
  | op :: ops => '(x, r) ← call op x; rs ← calls ops x; Some (r :: rs)
  end.

(** Calls that respect an equivalence cannot tell equivalent objects apart. *)
Lemma calls_same (same : A -> A -> Prop) ops x y :
  (forall op x y, same x y -> relO (relP same) (call op x) (call op y)) -> same x y -> calls ops x = calls ops y.
Proof.
  intros C. revert x y. induction ops as [|op ops IH]; intros x y E; [done|]. cbn [calls].
  destruct (C op x y E) as [[x' r] [y' r'] [E' Er]|]; [|done]. cbn in E', Er |- *. subst. by rewrite (IH _ _ E').
Qed.
End Calls.

Definition argsCall (op : argsOp) (a : Args) : option (Args * reply) :=
  match op with
  | ArParse s => a ← Args_Parse a s; Some (a, Nothing)
  | ArReset => Some (Args_Reset a, Nothing)
  | ArSet k v => Some (Args_Set a k v, Nothing)
  | ArSetNoValue k => Some (Args_SetNoValue a k, Nothing)
  | ArAdd k v => Some (Args_Add a k v, Nothing)
  | ArAddNoValue k => Some (Args_AddNoValue a k, Nothing)
  | ArDel k => Some (Args_Del a k, Nothing)
  | ArPeek k => Some (a, Got (Args_Peek a k))
  | ArVisitAll => Some (a, Visited (Args_VisitAll a))
  | ArQueryString => let '(a, b) := Args_QueryString a in Some (a, Got (Some b))
  end.

Lemma sameArgs_set a b k v n : live a = live b -> live (setArg a k v n) = live (setArg b k v n).
Proof. intros H. unfold setArg. rewrite H. destruct (setArgLoop (live b) k v n); [done|]. by rewrite !live_appendArg, H. Qed.

Lemma ArgsParse_same a b s : relO sameArgs (Args_ParseBytes a s) (Args_ParseBytes b s).
Proof.
  destruct (Args_ParseBytes_spec a s) as (x & ->), (Args_ParseBytes_spec b s) as (y & ->). by constructor.
Qed.

Lemma argsCall_same op a b : sameArgs a b -> relO (relP sameArgs) (argsCall op a) (argsCall op b).
Proof.
  assert (forall x y (r r' : reply), sameArgs x y -> r = r' -> relO (relP sameArgs) (Some (x, r)) (Some (y, r'))) as Ret by (intros; constructor; by split).
  intros H. destruct op; cbn [argsCall]; try (apply Ret; [|done]; unfold sameArgs in *; cbn).
  - eapply relO_bind; [apply ArgsParse_same|]. intros x y Hxy. by apply Ret.
  - done.
  - by apply sameArgs_set.
  - by apply sameArgs_set.
  - by rewrite !live_appendArg, H.
  - by rewrite !live_appendArg, H.
  - by rewrite !live_delAllArgs, H.
  - apply Ret; [done|]. unfold Args_Peek. by rewrite H.
  - apply Ret; [done|]. unfold Args_VisitAll. by rewrite H.
  - apply Ret; [done|]. unfold Args_AppendBytes. by rewrite H.
Qed.

Inductive sameURI : URI -> URI -> Prop :=
| same_uri po sc pa qs ha ho q1 q2 pq dp f1 f2 r1 r2 un pw :
    sameArgs q1 q2 -> sameURI (MkURI po sc pa qs ha ho q1 pq dp f1 r1 un pw) (MkURI po sc pa qs ha ho q2 pq dp f2 r2 un pw).
#[export] Hint Constructors sameURI : same.
Ltac same_address := apply same_uri; cbn; eauto with same.

Inductive uriOp :=
| UrParse (host uri : bytes) | UrUpdate (uri : bytes) | UrReset | UrSetScheme (v : bytes) | UrSetHost (v : bytes) | UrSetPath (v : bytes) | UrSetQueryString (v : bytes) | UrSetHash (v : bytes)
| UrSetUsername (v : bytes) | UrSetPassword (v : bytes) | UrPath | UrRequestURI | UrFullURI | UrQueryArgs (op : argsOp).

Definition uriCall (op : uriOp) (u : URI) : option (URI * reply) :=
  match op with
  | UrParse host uri => let '(u, err) := URI_Parse u host uri in Some (u, Ended err)
  | UrUpdate uri => u ← URI_Update u uri; Some (u, Nothing)
  | UrReset => Some (URI_Reset u, Nothing)
  | UrSetScheme v => Some (URI_SetScheme u v, Nothing)
  | UrSetHost v => Some (URI_SetHost u v, Nothing)
  | UrSetPath v => Some (URI_SetPath u v, Nothing)
  | UrSetQueryString v => Some (URI_SetQueryString u v, Nothing)
  | UrSetHash v => Some (URI_SetHash u v, Nothing)
  | UrSetUsername v => Some (URI_SetUsername u v, Nothing)
  | UrSetPassword v => Some (URI_SetPassword u v, Nothing)
  | UrPath => Some (u, Got (Some (URI_Path u)))
  | UrRequestURI => let '(u, b) := URI_RequestURI u in Some (u, Got (Some b))
  | UrFullURI => let '(u, b) := URI_FullURI u in Some (u, Got (Some b))
  | UrQueryArgs op => '(u, a) ← URI_QueryArgs u; '(a, r) ← argsCall op a; Some (set_u_queryArgs a u, r)
  end.

Lemma printedQuery_same u v : sameURI u v -> printedQuery u = printedQuery v.
Proof. intros []. unfold printedQuery, Args_Len, Args_AppendBytes, sameArgs in *. cbn. by match goal with Hq : live _ = live _ |- _ => rewrite Hq end. Qed.

Lemma RequestURI_same u v : sameURI u v -> relP sameURI (URI_RequestURI u) (URI_RequestURI v).
Proof.
  intros S. pose proof (printedQuery_same u v S) as E. unfold URI_RequestURI. rewrite E. destruct S. split; [same_address|done].
Qed.

Lemma FullURI_same u v : sameURI u v -> relP sameURI (URI_FullURI u) (URI_FullURI v).
Proof.
  intros S. unfold URI_FullURI, URI_AppendBytes. assert (URI_appendSchemeHost u [] = URI_appendSchemeHost v []) as -> by (by destruct S).
  destruct (RequestURI_same u v S) as [S' E]. destruct (URI_RequestURI u) as [u' r], (URI_RequestURI v) as [v' r']. cbn in S', E. subst r'.
  destruct S'. split; [same_address|done].
Qed.

Lemma parseQueryArgs_same u v : sameURI u v -> relO sameURI (URI_parseQueryArgs u) (URI_parseQueryArgs v).
Proof.
  intros []. unfold URI_parseQueryArgs. cbn. destruct pq; [constructor; same_address|].
  eapply relO_bind; [apply ArgsParse_same|]. intros x y Hxy. constructor. same_address.
Qed.

Lemma QueryArgs_same u v : sameURI u v -> relO (fun x y => sameURI (fst x) (fst y) /\ sameArgs (snd x) (snd y)) (URI_QueryArgs u) (URI_QueryArgs v).
Proof.
  intros S. eapply relO_bind; [by apply parseQueryArgs_same|]. intros ? ? S'. constructor. split; [exact S'|]. by destruct S'.
Qed.

(** Parsing starts with a Reset. *)
Lemma URIparse_same u v host uri tls : relP sameURI (URI_parse u host uri tls) (URI_parse v host uri tls).
Proof.
  assert (sameURI (URI_Reset u) (URI_Reset v)) as S by (by apply same_uri).
  unfold URI_parse. destruct (stringContainsCTLByte uri); [by split|].
  assert (forall x y s, sameURI x y -> sameURI (set_u_scheme s x) (set_u_scheme s y)) as Sch by (intros ??? []; same_address).
  assert (forall x y s, sameURI x y -> sameURI (set_u_host s x) (set_u_host s y)) as Hst by (intros ??? []; same_address).
  assert (forall x y h, sameURI x y -> relP sameURI (parseAuth x h) (parseAuth y h)) as Aut.
  { intros x y h [] . unfold parseAuth. destruct (IndexByte h "@"); [|split; [same_address|done]]. cbv zeta.
    destruct (IndexByte _ ":"); (split; [same_address|done]). }
  assert (forall x y b, sameURI x y -> sameURI (parsePathQueryHash x b) (parsePathQueryHash y b)) as Pth.
  { intros x y b []. unfold parsePathQueryHash. cbv zeta. destruct (match IndexByte b "?" with Some _ => _ | None => _ end), (IndexByte b "#"); same_address. }
  assert (forall x y h r, sameURI x y -> relP sameURI
    (let x := if tls then set_u_scheme strHTTPS x else x in let '(x, h) := parseAuth x h in
     (parsePathQueryHash (set_u_host (lowercaseBytes h) x) r, @None error))
    (let y := if tls then set_u_scheme strHTTPS y else y in let '(y, h) := parseAuth y h in
     (parsePathQueryHash (set_u_host (lowercaseBytes h) y) r, @None error))) as End.
  { intros x y h r Hxy. cbv zeta. assert (sameURI (if tls then set_u_scheme strHTTPS x else x) (if tls then set_u_scheme strHTTPS y else y)) as Hs
      by (destruct tls; auto). destruct (Aut _ _ h Hs) as [S' E]. destruct (parseAuth _ h) as [x' h'] in S', E |- *. destruct (parseAuth _ h) as [y' h''] in S', E |- *.
    cbn in S', E. subst h''. split; [cbn; auto|done]. }
  destruct (bool_decide _ || _); [|by apply End]. destruct (splitHostURI host uri) as [[s h'] r]. apply End. auto.
Qed.

Lemma Update_same u v uri : sameURI u v -> relO sameURI (URI_Update u uri) (URI_Update v uri).
Proof.
  intros S0. unfold URI_Update, URI_UpdateBytes.
  assert (forall x y b b', sameURI x y -> sameURI (set_u_requestURI b x) (set_u_requestURI b' y)) as Buf by (intros ???? []; same_address).
  eapply (relO_bind (fun x y => sameURI (fst x) (fst y))); [|intros [x b] [y b'] S1; constructor; by apply Buf].
  unfold URI_updateBytes, URI_Parse. destruct uri as [|c rest]; [by constructor|].
  assert (URI_appendSchemeHost u [] = URI_appendSchemeHost v [] /\ URI_Path u = URI_Path v /\ u_scheme u = u_scheme v) as (-> & -> & ->) by (by destruct S0).
  assert (forall x y, sameURI x y -> sameURI (fst (URI_FullURI x)) (fst (URI_FullURI y))) as Full by (intros x y Hxy; apply (FullURI_same x y Hxy)).
  destruct (Index (c :: rest) strSlashSlash).
  - destruct (URIparse_same u v [] (c :: rest) false) as [S1 E]. destruct (URI_parse u _ _ _) as [x [err|]], (URI_parse v _ _ _) as [y [err'|]]; try done; [by constructor|].
    assert (u_scheme x = u_scheme y) as -> by (cbn in S1; by destruct S1). case_decide; constructor; [|exact S1]. cbn in S1 |- *. destruct S1. same_address.
  - case_decide; [|case_decide; [|case_decide]].
    + destruct (URIparse_same u v [] (URI_appendSchemeHost v [] ++ c :: rest) false) as [S1 E].
      destruct (URI_parse u _ _ _) as [x [err|]], (URI_parse v _ _ _) as [y [err'|]]; try done; by constructor.
    + assert (sameURI (URI_SetQueryString u rest) (URI_SetQueryString v rest)) as S1 by (destruct S0; same_address). apply Full in S1.
      destruct (URI_FullURI (URI_SetQueryString u rest)), (URI_FullURI (URI_SetQueryString v rest)). by constructor.
    + assert (sameURI (URI_SetHash u rest) (URI_SetHash v rest)) as S1 by (destruct S0; same_address). apply Full in S1.
      destruct (URI_FullURI (URI_SetHash u rest)), (URI_FullURI (URI_SetHash v rest)). by constructor.
    + destruct (LastIndexByte (URI_Path v) "/") as [n|]; [|constructor]. cbv zeta.
      match goal with |- context [URI_parse u [] ?b false] => destruct (URIparse_same u v [] b false) as [S1 E] end.
      destruct (URI_parse u _ _ _) as [x [err|]], (URI_parse v _ _ _) as [y [err'|]]; try done; by constructor.
Qed.

Lemma uriCall_same op u v : sameURI u v -> relO (relP sameURI) (uriCall op u) (uriCall op v).
Proof.
  intros S. destruct op; cbn [uriCall]; try solve [constructor; destruct S; split; [same_address|done]].
  - unfold URI_Parse. destruct (URIparse_same u v host uri false) as [S' E]. destruct (URI_parse u _ _ _), (URI_parse v _ _ _). cbn in S', E. subst. by constructor.
  - eapply relO_bind; [by apply Update_same|]. intros x y Hxy. by constructor.
  - constructor. split; [by apply same_uri|done].
  - destruct (RequestURI_same u v S) as [S' E]. destruct (URI_RequestURI u), (URI_RequestURI v). cbn in S', E. subst. by constructor.
  - destruct (FullURI_same u v S) as [S' E]. destruct (URI_FullURI u), (URI_FullURI v). cbn in S', E. subst. by constructor.
  - eapply relO_bind; [by apply QueryArgs_same|]. intros [u' a] [v' b] [S' A]. cbn in S', A.
    eapply relO_bind; [by apply argsCall_same|]. intros [a' r] [b' r'] [A' E]. cbn in A', E. subst. constructor. destruct S'. split; [same_address|done].
Qed.

Lemma URI_Reset_same u : sameURI (URI_Reset u) emptyURI.
Proof. by apply same_uri. Qed.

(** ** Requests *)

Definition bodyText (b : option slice) : bytes := match b with Some b => sl b | None => [] end.

Section Messages.
Context `{HL : HttpLib}.

(** What is not compared: secureErrorLogMessage, keepBodyBuffer, and whether an
    empty body has a buffer. *)
Inductive sameReq : Request -> Request -> Prop :=
| same_req h1 h2 u1 u2 a1 a2 st b1 b2 raw form bnd s1 s2 pu pp k1 k2 tls tm :
    sameRqH h1 h2 -> sameURI u1 u2 -> sameArgs a1 a2 -> bodyText b1 = bodyText b2 ->
    sameReq (MkRequest h1 u1 a1 st b1 raw form bnd s1 pu pp k1 tls tm) (MkRequest h2 u2 a2 st b2 raw form bnd s2 pu pp k2 tls tm).

Inductive reqOp :=
| RqSetMethod (v : bytes) | RqSetProtocol (v : bytes) | RqSetContentType (v : bytes) | RqSetUserAgent (v : bytes) | RqSetHeaderHost (v : bytes)
| RqSetConnectionClose | RqDisableNormalizing | RqSetMultipartFormBoundary (v : bytes)
| RqSet (k v : bytes) | RqAdd (k v : bytes) | RqDel (k : bytes) | RqPeek (k : bytes)
| RqSetCookie (k v : bytes) | RqDelCookie (k : bytes) | RqCookie (k : bytes)
| RqSetRequestURI (v : bytes) | RqRequestURI | RqSetHost (v : bytes) | RqHost | RqURI (op : uriOp)
| RqSetBody (b : bytes) | RqAppendBody (b : bytes) | RqSetBodyRaw (b : bytes) | RqSetBodyStream (st : bodyStream) (n : Z) | RqResetBody | RqBody
| RqPostArgs (op : argsOp) | RqReset
| RqWrite (w : bytes).

(** A call on the header. *)
Definition onHeader (f : RequestHeader -> RequestHeader) (x : Request) : option (Request * reply) :=
  Some (set_req_Header (f (req_Header x)) x, Nothing).
Definition onHeaderO (f : RequestHeader -> option RequestHeader) (x : Request) : option (Request * reply) :=
  h ← f (req_Header x); Some (set_req_Header h x, Nothing).

Definition reqCall (op : reqOp) (x : Request) : option (Request * reply) :=
  match op with
  | RqSetMethod v => onHeader (fun h => RequestHeader_SetMethod h v) x
  | RqSetProtocol v => onHeader (fun h => RequestHeader_SetProtocol h v) x
  | RqSetContentType v => onHeader (fun h => RequestHeader_SetContentType h v) x
  | RqSetUserAgent v => onHeader (fun h => RequestHeader_SetUserAgent h v) x
  | RqSetHeaderHost v => onHeader (fun h => RequestHeader_SetHost h v) x
  | RqSetConnectionClose => Some (Request_SetConnectionClose x, Nothing)
  | RqDisableNormalizing => onHeader RequestHeader_DisableNormalizing x
  | RqSetMultipartFormBoundary v => onHeader (fun h => RequestHeader_SetMultipartFormBoundary h v) x
  | RqSet k v => onHeaderO (fun h => RequestHeader_Set h k v) x
  | RqAdd k v => onHeaderO (fun h => RequestHeader_Add h k v) x
  | RqDel k => onHeader (fun h => RequestHeader_Del h k) x
  | RqPeek k => let '(h, v) := RequestHeader_Peek (req_Header x) k in Some (set_req_Header h x, Got v)
  | RqSetCookie k v => onHeaderO (fun h => RequestHeader_SetCookie h k v) x
  | RqDelCookie k => onHeaderO (fun h => RequestHeader_DelCookie h k) x
  | RqCookie k => '(h, v) ← RequestHeader_CookieBytes (req_Header x) k; Some (set_req_Header h x, Got v)
  | RqSetRequestURI v => Some (Request_SetRequestURI x v, Nothing)
  | RqRequestURI => let '(x, v) := Request_RequestURI x in Some (x, Got (Some v))
  | RqSetHost v => Some (Request_SetHost x v, Nothing)
  | RqHost => let '(x, v) := Request_Host x in Some (x, Got (Some v))
  | RqURI op => let '(x, u) := Request_URI x in '(u, r) ← uriCall op u; Some (set_req_uri u x, r)
  | RqSetBody b => Some (Request_SetBody x b, Nothing)
  | RqAppendBody b => Some (Request_AppendBody x b, Nothing)
  | RqSetBodyRaw b => Some (Request_SetBodyRaw x b, Nothing)
  | RqSetBodyStream st n => x ← Request_SetBodyStream x st n; Some (x, Nothing)
  | RqResetBody => Some (Request_ResetBody x, Nothing)
  | RqBody => let '(x, b) := Request_Body x in Some (x, Got (Some b))
  | RqPostArgs op => '(x, a) ← Request_PostArgs x; '(a, r) ← argsCall op a; Some (set_req_postArgs a x, r)
  | RqReset => Some (Request_Reset x, Nothing)
  | RqWrite w => '(x, b, err) ← Request_Write x w; Some (x, Written b err)
  end.

(** The results of a sequence of calls; [None] is a panic. *)
Definition reqCalls : list reqOp -> Request -> option (list reply) := calls reqCall.

(** Two requests whose fields are equivalent. *)
Ltac same_request := apply same_req; cbn; eauto with same.

Lemma setHeader_same x y g h : sameReq x y -> sameRqH g h -> sameReq (set_req_Header g x) (set_req_Header h y).
Proof. intros [] S. same_request. Qed.
Lemma setURI_same x y u v : sameReq x y -> sameURI u v -> sameReq (set_req_uri u x) (set_req_uri v y).
Proof. intros [] S. same_request. Qed.
Lemma setPostArgs_same x y a b : sameReq x y -> sameArgs a b -> sameReq (set_req_postArgs a x) (set_req_postArgs b y).
Proof. intros [] S. same_request. Qed.
Lemma getHeader_same x y : sameReq x y -> sameRqH (req_Header x) (req_Header y).
Proof. by intros []. Qed.
#[local] Hint Resolve setHeader_same setURI_same setPostArgs_same getHeader_same : same.

Lemma onHeader_same f x y : (forall g h, sameRqH g h -> sameRqH (f g) (f h)) -> sameReq x y -> relO (relP sameReq) (onHeader f x) (onHeader f y).
Proof. intros Hf S. constructor. split; [cbn; eauto with same|done]. Qed.

Lemma onHeaderO_same f x y : (forall g h, sameRqH g h -> relO sameRqH (f g) (f h)) -> sameReq x y -> relO (relP sameReq) (onHeaderO f x) (onHeaderO f y).
Proof.
  intros Hf S. unfold onHeaderO. eapply relO_bind; [by apply Hf, getHeader_same|]. intros g h Hgh. constructor. split; [cbn; eauto with same|done].
Qed.

Lemma parseURI_same x y : sameReq x y -> sameReq (fst (Request_parseURI x)) (fst (Request_parseURI y)).
Proof.
  intros S. pose proof S as S0. destruct S. unfold Request_parseURI. cbn. destruct pu; [exact S0|].
  assert (RequestHeader_Host h1 = RequestHeader_Host h2 /\ RequestHeader_RequestURI h1 = RequestHeader_RequestURI h2) as [-> ->]
    by (by match goal with Hh : sameRqH _ _ |- _ => destruct Hh end).
  pose proof (URIparse_same u1 u2 (RequestHeader_Host h2) (RequestHeader_RequestURI h2) tls) as P.
  destruct (URI_parse u1 _ _ _), (URI_parse u2 _ _ _). destruct P as [P _]. cbn in P |- *. same_request.
Qed.

Lemma URI_same x y : sameReq x y -> sameReq (fst (Request_URI x)) (fst (Request_URI y)) /\ sameURI (snd (Request_URI x)) (snd (Request_URI y)).
Proof.
  intros S. apply parseURI_same in S. unfold Request_URI. destruct (Request_parseURI x), (Request_parseURI y). cbn in *. split; [exact S|by destruct S].
Qed.

Lemma ResetBody_same x y : sameReq x y -> sameReq (Request_ResetBody x) (Request_ResetBody y).
Proof. intros []. unfold Request_ResetBody. destruct b1, b2, k1, k2; same_request. Qed.

Lemma RequestURI_req_same x y : sameReq x y -> relP sameReq (Request_RequestURI x) (Request_RequestURI y).
Proof.
  intros S. pose proof S as S0. destruct S. unfold Request_RequestURI. cbn. destruct pu.
  - match goal with Hu : sameURI _ _ |- _ => destruct (RequestURI_same _ _ Hu) as [Hu' E] end.
    destruct (URI_RequestURI u1), (URI_RequestURI u2). cbn in Hu', E |- *. subst.
    split; [|by match goal with Hh : sameRqH _ _ |- _ => destruct Hh end]. unfold Request_SetRequestURI. same_request.
    match goal with Hh : sameRqH _ _ |- _ => destruct Hh end. by apply same_rqh.
  - split; [exact S0|]. by match goal with Hh : sameRqH _ _ |- _ => destruct Hh end.
Qed.

Section Laws.
Context {Laws : HttpLaws}.

Lemma bodyBuffer_text b1 b2 : bodyText b1 = bodyText b2 -> sl (default pool_Get b1) = sl (default pool_Get b2).
Proof. destruct b1, b2; cbn; by rewrite ?pool_empty. Qed.

Lemma bodyBytes_same x y : sameReq x y -> relP sameReq (Request_bodyBytes x) (Request_bodyBytes y).
Proof.
  intros S. pose proof S as S0. destruct S as [?????????????????????? E]. unfold Request_bodyBytes. cbn. destruct raw; [by split|].
  destruct st as [st|]; [|split; [exact S0|by destruct b1, b2]].
  destruct (copyZeroAlloc st) as [p err]. split; [|done]. same_request.
Qed.

Lemma onlyForm_same x y : sameReq x y -> Request_onlyMultipartForm x = Request_onlyMultipartForm y.
Proof.
  intros []. unfold Request_onlyMultipartForm. cbn. destruct form; [|done].
  assert (forall b, match b with None => true | Some b => bool_decide (length (sl b) = O) end = bool_decide (length (bodyText b) = O)) as E by (by intros []).
  rewrite !E. by match goal with Hb : bodyText _ = bodyText _ |- _ => rewrite Hb end.
Qed.

Lemma Body_same x y : sameReq x y -> relP sameReq (Request_Body x) (Request_Body y).
Proof.
  intros S. pose proof (bodyBytes_same x y S) as B. pose proof (onlyForm_same x y S) as O. unfold Request_Body.
  assert (req_bodyRaw x = req_bodyRaw y /\ req_multipartForm x = req_multipartForm y /\ req_multipartFormBoundary x = req_multipartFormBoundary y) as (-> & -> & ->)
    by (by destruct S).
  destruct (req_bodyRaw y), (req_multipartForm y); try exact B. rewrite O. destruct (Request_onlyMultipartForm y); [|exact B].
  destruct (multipart_Write _ _); by split.
Qed.

Lemma PostArgs_same x y : sameReq x y -> relO (fun a b => sameReq (fst a) (fst b) /\ sameArgs (snd a) (snd b)) (Request_PostArgs x) (Request_PostArgs y).
Proof.
  intros S. unfold Request_PostArgs. assert (relO sameReq (Request_parsePostArgs x) (Request_parsePostArgs y)) as P.
  - unfold Request_parsePostArgs. assert (req_parsedPostArgs x = req_parsedPostArgs y /\ RequestHeader_ContentType (req_Header x) = RequestHeader_ContentType (req_Header y)) as [-> E]
      by (destruct S; split; [done|]; cbn; by match goal with Hh : sameRqH _ _ |- _ => destruct Hh end).
    destruct (req_parsedPostArgs y); [by constructor|]. cbn [set_req_parsedPostArgs req_Header]. rewrite E.
    assert (sameReq (set_req_parsedPostArgs true x) (set_req_parsedPostArgs true y)) as S' by (destruct S; same_request).
    destruct (HasPrefix _ _); [|by constructor]. destruct (bodyBytes_same _ _ S') as [S2 E2]. fold (set_req_parsedPostArgs true x) (set_req_parsedPostArgs true y).
    destruct (Request_bodyBytes (set_req_parsedPostArgs true x)), (Request_bodyBytes (set_req_parsedPostArgs true y)). cbn in S2, E2. subst.
    eapply relO_bind; [apply ArgsParse_same|]. intros a b Hab. constructor. by apply setPostArgs_same.
  - eapply relO_bind; [exact P|]. intros ? ? S'. constructor. split; [exact S'|by destruct S'].
Qed.

Lemma writeURI_same x y : sameReq x y -> relO (relP sameReq) (Request_writeURI x) (Request_writeURI y).
Proof.
  intros S. unfold Request_writeURI.
  assert (RequestHeader_Host (req_Header x) = RequestHeader_Host (req_Header y) /\ req_parsedURI x = req_parsedURI y) as [-> ->]
    by (destruct S; split; [|done]; cbn; by match goal with Hh : sameRqH _ _ |- _ => destruct Hh end).
  destruct (bool_decide _ || _); [|by repeat constructor]. destruct (URI_same x y S) as [S' U]. destruct (Request_URI x) as [x' u], (Request_URI y) as [y' v].
  cbn in S', U. assert (u_host u = u_host v) as -> by (by destruct U). case_decide; [by repeat constructor|].
  destruct (RequestURI_same u v U) as [U' E]. destruct (URI_RequestURI u) as [u' r], (URI_RequestURI v) as [v' r']. cbn in U', E. subst r'.
  assert (u_username u' = u_username v' /\ u_password u' = u_password v') as [-> ->] by (by destruct U').
  match goal with |- context [set_req_Header ?g (set_req_uri u' x')] => set (g' := g) end.
  match goal with |- context [set_req_Header ?g (set_req_uri v' y')] => set (h' := g) end.
  assert (sameRqH g' h') as H' by (subst g' h'; apply getHeader_same in S'; destruct S'; by apply same_rqh).
  assert (sameReq (set_req_Header g' (set_req_uri u' x')) (set_req_Header h' (set_req_uri v' y'))) as S2 by (apply setHeader_same; [by apply setURI_same|done]).
  case_decide; [constructor; by split|]. cbv zeta. eapply relO_bind; [apply rqSetBytesKV_same, getHeader_same, S2|].
  intros g h Hgh. constructor. split; [by apply setHeader_same|done].
Qed.


(** What a call has written, with the object it leaves. *)
Definition sameWritten (x y : Request * bytes * option error) : Prop := sameReq (fst (fst x)) (fst (fst y)) /\ snd (fst x) = snd (fst y) /\ snd x = snd y.

Lemma HeaderWrite_same x y w : sameReq x y -> relP sameReq (Request_Header_Write x w) (Request_Header_Write y w).
Proof.
  intros S. unfold Request_Header_Write. destruct (rqHeader_same _ _ (getHeader_same _ _ S)) as [S' E].
  destruct (RequestHeader_Header (req_Header x)), (RequestHeader_Header (req_Header y)). cbn in S', E. subst. split; [by apply setHeader_same|done].
Qed.

Lemma reqLength_same x y n :
  sameReq x y -> relO sameReq (h ← RequestHeader_SetContentLength (req_Header x) n; Some (set_req_Header h x)) (h ← RequestHeader_SetContentLength (req_Header y) n; Some (set_req_Header h y)).
Proof.
  intros S. eapply relO_bind; [apply rqSetContentLength_same, getHeader_same, S|]. intros g h Hgh. constructor. by apply setHeader_same.
Qed.

Lemma writeBodyStream_same x y st w : sameReq x y -> relO sameWritten (Request_writeBodyStream x st w) (Request_writeBodyStream y st w).
Proof.
  intros S. unfold Request_writeBodyStream. assert (RequestHeader_ContentLength (req_Header x) = RequestHeader_ContentLength (req_Header y)) as ->
    by (apply getHeader_same in S; by destruct S).
  assert (forall a b, sameReq a b -> sameReq (Request_closeBodyStream a) (Request_closeBodyStream b)) as Cl by (intros ?? []; same_request).
  eapply (relO_bind (relP sameReq)).
  - destruct (_ && _); [|constructor; by split]. eapply relO_bind; [apply rqSetContentLength_same, getHeader_same, S|].
    intros g h Hgh. constructor. split; [by apply setHeader_same|done].
  - intros [a n] [b n'] [Hab E]. cbn in Hab, E. subst n'. destruct (0 <=? n).
    + destruct (HeaderWrite_same a b w Hab) as [S' E]. destruct (Request_Header_Write a w), (Request_Header_Write b w). cbn in S', E. subst.
      destruct (writeBodyFixedSize _ st n). constructor. split; [by apply Cl|done].
    + eapply relO_bind; [apply rqSetContentLength_same, getHeader_same, Hab|]. intros g h Hgh.
      destruct (HeaderWrite_same _ _ w (setHeader_same _ _ _ _ Hab Hgh)) as [S' E].
      destruct (Request_Header_Write _ w), (Request_Header_Write _ w). cbn in S', E. subst. destruct (writeBodyChunked _ _) as [w' [err|]]; constructor.
      split; [by apply Cl|done].
Qed.

(** The end of Write, for a body that is in memory. *)
Definition writeBuffered (x : Request) (body w : bytes) : option (Request * bytes * option error) :=
  let '(x, body) := if decide (length body = O) then let '(a, q) := Args_QueryString (req_postArgs x) in (set_req_postArgs a x, q) else (x, body) in
  let hasBody := bool_decide (length body <> O) || negb (RequestHeader_ignoreBody (req_Header x)) in
  x ← (if hasBody then h ← RequestHeader_SetContentLength (req_Header x) (zlen body); Some (set_req_Header h x) else Some x);
  let '(x, w) := Request_Header_Write x w in Some (x, if hasBody then w ++ body else w, None).

Lemma writeBuffered_same x y body w : sameReq x y -> relO sameWritten (writeBuffered x body w) (writeBuffered y body w).
Proof.
  intros S. unfold writeBuffered.
  set (p := if decide (length body = O) then let '(a, q) := Args_QueryString (req_postArgs x) in (set_req_postArgs a x, q) else (x, body)).
  set (q := if decide (length body = O) then let '(a, q) := Args_QueryString (req_postArgs y) in (set_req_postArgs a y, q) else (y, body)).
  assert (relP sameReq p q) as [S2 E2].
  { subst p q. case_decide; [|by split]. unfold Args_QueryString, Args_AppendBytes.
    assert (live (args (req_postArgs x)) = live (args (req_postArgs y))) as A by (by destruct S). rewrite A. split; [|done]. by apply setPostArgs_same. }
  destruct p as [x2 b2], q as [y2 b2']. cbn in S2, E2. subst b2'. cbv zeta.
  assert (RequestHeader_ignoreBody (req_Header x2) = RequestHeader_ignoreBody (req_Header y2)) as -> by (apply getHeader_same in S2; by destruct S2).
  eapply (relO_bind sameReq); [destruct (_ || _); [by apply reqLength_same|by constructor]|]. intros x3 y3 S3.
  destruct (HeaderWrite_same x3 y3 w S3) as [S4 E4]. destruct (Request_Header_Write x3 w), (Request_Header_Write y3 w). cbn in S4, E4. subst.
  constructor. by split.
Qed.

Lemma Write_same x y w : sameReq x y -> relO sameWritten (Request_Write x w) (Request_Write y w).
Proof.
  intros S0. unfold Request_Write. eapply relO_bind; [by apply writeURI_same|]. clear x y S0. intros [x err] [y err'] [S E]. cbn in S, E. subst err'.
  destruct err as [err|]; [by repeat constructor|]. assert (req_bodyStream x = req_bodyStream y) as -> by (by destruct S).
  destruct (req_bodyStream y) as [st|]; [by apply writeBodyStream_same|].
  destruct (bodyBytes_same x y S) as [S1 E]. destruct (Request_bodyBytes x) as [x1 body], (Request_bodyBytes y) as [y1 body']. cbn in S1, E. subst body'.
  clear x y S. cbv zeta. rewrite (onlyForm_same x1 y1 S1).
  assert (req_multipartForm x1 = req_multipartForm y1 /\ req_multipartFormBoundary x1 = req_multipartFormBoundary y1) as [-> ->] by (by destruct S1).
  destruct (req_multipartForm y1) as [f|]; [|by apply writeBuffered_same]. destruct (Request_onlyMultipartForm y1); [|by apply writeBuffered_same].
  destruct (multipart_Write f _) as [form|err]; [|by repeat constructor]. apply writeBuffered_same, setHeader_same; [exact S1|].
  apply getHeader_same in S1. unfold RequestHeader_SetMultipartFormBoundary. destruct S1. by apply same_rqh.
Qed.

(** What Reset leaves of a body: its buffer, empty, when it is to be kept. *)
Definition keptBuffer (b : option slice) (keep : bool) : option slice := match b with Some b => if keep then Some (bufReset b) else None | None => None end.

Lemma keptBuffer_text b keep : bodyText (keptBuffer b keep) = [].
Proof. by destruct b, keep. Qed.

Lemma Request_Reset_eq h u a st b raw form bnd s pu pp k tls tm :
  Request_Reset (MkRequest h u a st b raw form bnd s pu pp k tls tm) =
  MkRequest (RequestHeader_Reset h) (URI_Reset u) (Args_Reset a) None (keptBuffer b k) None None [] s false false k false 0.
Proof. by destruct b, k. Qed.

Lemma Reset_same x y : sameReq x y -> sameReq (Request_Reset x) (Request_Reset y).
Proof.
  intros []. rewrite !Request_Reset_eq. apply same_req; [|by apply same_uri|done|by rewrite !keptBuffer_text].
  by apply same_rqh.
Qed.

(** Every call gives the same reply on equivalent requests and leaves them
    equivalent. *)
Lemma reqCall_same op x y : sameReq x y -> relO (relP sameReq) (reqCall op x) (reqCall op y).
Proof.
  intros S. pose proof (getHeader_same _ _ S) as G.
  destruct op; cbn [reqCall]; try (apply onHeader_same; [|done]; first [intros ? ? []; by apply same_rqh|intros; by apply rqDel_same]);
    try (apply onHeaderO_same; [eauto with same|done]).
  - destruct (rqPeek_same _ _ k G) as [G' E]. destruct (RequestHeader_Peek _ k), (RequestHeader_Peek _ k). cbn in G', E. subst. constructor.
    split; [by apply setHeader_same|done].
  - eapply relO_bind; [by apply rqCookie_same|]. intros [g v] [h v'] [G' E]. cbn in G', E. subst. constructor. split; [by apply setHeader_same|done].
  - constructor. split; [|done]. destruct S. unfold Request_SetRequestURI. same_request. cbn in G. destruct G. by apply same_rqh.
  - destruct (RequestURI_req_same _ _ S) as [S' E]. destruct (Request_RequestURI x), (Request_RequestURI y). cbn in S', E. subst. constructor. by split.
  - constructor. split; [|done]. unfold Request_SetHost. destruct (URI_same _ _ S) as [S' U]. destruct (Request_URI x), (Request_URI y). cbn in *.
    apply setURI_same; [done|]. destruct U. by apply same_uri.
  - unfold Request_Host. destruct (URI_same _ _ S) as [S' U]. destruct (Request_URI x), (Request_URI y). cbn in *. constructor. split; [done|]. cbn. by destruct U.
  - destruct (URI_same _ _ S) as [S' U]. destruct (Request_URI x), (Request_URI y). cbn in S', U. eapply relO_bind; [by apply uriCall_same|].
    intros [u2 res] [v2 res'] [U2 E]. cbn in U2, E. subst. constructor. split; [by apply setURI_same|done].
  - constructor. split; [|done]. destruct S. same_request.
  - constructor. split; [|done]. destruct S. same_request. f_equal. by apply bodyBuffer_text.
  - constructor. split; [|done]. apply ResetBody_same in S. unfold Request_SetBodyRaw. destruct S. same_request.
  - eapply (relO_bind sameReq); [|intros; by constructor]. apply ResetBody_same in S. unfold Request_SetBodyStream.
    assert (sameReq (set_req_bodyStream (Some st) (Request_ResetBody x)) (set_req_bodyStream (Some st) (Request_ResetBody y))) as S' by (destruct S; same_request).
    by apply reqLength_same.
  - constructor. split; [by apply ResetBody_same|done].
  - destruct (Body_same _ _ S) as [S' E]. destruct (Request_Body x), (Request_Body y). cbn in S', E. subst. constructor. by split.
  - eapply relO_bind; [by apply PostArgs_same|]. intros [x' a] [y' b] [S' A]. cbn in S', A. eapply relO_bind; [by apply argsCall_same|].
    intros [a' r] [b' r'] [A' E]. cbn in A', E. subst. constructor. split; [by apply setPostArgs_same|done].
  - constructor. split; [|done]. by apply Reset_same.
  - eapply relO_bind; [by apply Write_same|]. intros [[x' b] err] [[y' b'] err'] (S' & E1 & E2). cbn in S', E1, E2. subst. constructor. by split.
Qed.

#[export] Instance reqCalls_proper ops : Proper (sameReq ==> eq) (reqCalls ops).
Proof. intros x y S. apply (calls_same reqCall sameReq); [|exact S]. apply reqCall_same. Qed.

(** Whatever a request has been used for, Reset makes it equivalent to a new one. *)
Lemma Request_Reset_same x : sameReq (Request_Reset x) emptyRequest.
Proof.
  destruct x. rewrite Request_Reset_eq. apply same_req; [by apply same_rqh|apply URI_Reset_same|done|by apply keptBuffer_text].
Qed.

End Laws.
End Messages.

(** ** Response headers *)

Inductive sameRsH : ResponseHeader -> ResponseHeader -> Prop :=
| same_rsh dn nh cc nct nd sc n nb s1 s2 ct sv h1 h2 b1 b2 c1 c2 :
    sameKvs h1 h2 -> sameKvs c1 c2 ->
    sameRsH (MkResponseHeader dn nh cc nct nd sc n nb s1 ct sv h1 b1 c1) (MkResponseHeader dn nh cc nct nd sc n nb s2 ct sv h2 b2 c2).

Lemma appendCookieKV_same a b v : sameKvs a b -> sameKvs (appendCookieKV a v) (appendCookieKV b v).
Proof.
  unfold appendCookieKV, sameKvs. destruct (allocArg_spec a) as (kv & sp & ->), (allocArg_spec b) as (kv' & sp' & ->). intros E.
  rewrite !storeKV_last. cbn. rewrite !visitArgs_app, E. done.
Qed.
#[export] Hint Resolve appendCookieKV_same : same.

Ltac same_rsheader := apply same_rsh; cbn; unfold setArgBytes, delAllArgsBytes, appendArgBytes; eauto with same.

Lemma rsSpecial_same g h k v : sameRsH g h -> relP sameRsH (ResponseHeader_setSpecialHeader g k v) (ResponseHeader_setSpecialHeader h k v).
Proof.
  intros S. unfold ResponseHeader_setSpecialHeader. case_decide; [by split|].
  repeat match goal with |- context [if firstIs ?c ?k then _ else _] => destruct (firstIs c k) end;
    repeat match goal with |- context [if caseInsensitiveCompare ?a ?b then _ else _] => destruct (caseInsensitiveCompare a b) end; try by split.
  - split; [|done]. destruct S. same_rsheader.
  - destruct (parseContentLength v) as [n' [err|]]; [by split|]. split; [|done]. destruct S. same_rsheader.
  - case_decide; (split; [|done]); destruct S; [same_rsheader|]. unfold ResponseHeader_ResetConnectionClose. cbn. destruct cc; same_rsheader.
  - split; [|done]. destruct S. same_rsheader.
  - split; [|done]. destruct S. same_rsheader.
Qed.

Lemma rsBuf_same g h a b : sameRsH g h -> sameRsH (set_rs_bufKV a g) (set_rs_bufKV b h).
Proof. intros []. same_rsheader. Qed.

Lemma rsNormalizing_same g h : sameRsH g h -> rs_disableNormalizing g = rs_disableNormalizing h.
Proof. by intros []. Qed.

Lemma rsSetCanonical_same g h k v : sameRsH g h -> sameRsH (ResponseHeader_SetCanonical g k v) (ResponseHeader_SetCanonical h k v).
Proof.
  intros S. unfold ResponseHeader_SetCanonical. destruct (rsSpecial_same _ _ k v S) as [S' E].
  destruct (ResponseHeader_setSpecialHeader g k v) as [g' b], (ResponseHeader_setSpecialHeader h k v) as [h' b']. cbn in S', E. subst b'.
  destruct b; [done|]. destruct S'. same_rsheader.
Qed.

Lemma rsSet_same g h k v : sameRsH g h -> sameRsH (ResponseHeader_Set g k v) (ResponseHeader_Set h k v).
Proof. intros S. unfold ResponseHeader_Set. cbn. rewrite (rsNormalizing_same _ _ S). by apply rsSetCanonical_same, rsBuf_same. Qed.

Lemma rsAdd_same g h k v : sameRsH g h -> sameRsH (ResponseHeader_Add g k v) (ResponseHeader_Add h k v).
Proof.
  intros S. unfold ResponseHeader_Add, ResponseHeader_AddBytesKV. destruct (rsSpecial_same _ _ k v S) as [S' E].
  destruct (ResponseHeader_setSpecialHeader g k v) as [g' b], (ResponseHeader_setSpecialHeader h k v) as [h' b']. cbn in S', E. subst b'.
  destruct b; [done|]. destruct S'. same_rsheader.
Qed.

Lemma rsDel_same g h k : sameRsH g h -> sameRsH (ResponseHeader_Del g k) (ResponseHeader_Del h k).
Proof. intros []. unfold ResponseHeader_Del, ResponseHeader_del. cbn. repeat case_decide; same_rsheader. Qed.

Lemma responseCookies_same a b dst : sameKvs a b -> appendResponseCookieBytes dst (live a) = appendResponseCookieBytes dst (live b).
Proof.
  unfold sameKvs. generalize (live a) (live b). clear a b. intros l. revert dst. induction l as [|kv l IH]; intros dst [|kv' l']; try done.
  cbn [visitArgs map appendResponseCookieBytes]. intros [= _ -> E]. assert (match l with [] => dst ++ value kv' | _ => (dst ++ value kv') ++ [";"%byte; " "%byte] end =
    match l' with [] => dst ++ value kv' | _ => (dst ++ value kv') ++ [";"%byte; " "%byte] end) as -> by (by destruct l, l'). by apply IH.
Qed.

Lemma rsPeek_same g h k : sameRsH g h -> relP sameRsH (ResponseHeader_Peek g k) (ResponseHeader_Peek h k).
Proof.
  intros S. split; [unfold ResponseHeader_Peek; by apply rsBuf_same|]. unfold ResponseHeader_Peek. cbn. rewrite (rsNormalizing_same _ _ S).
  generalize (normalizeHeaderKey k (rs_disableNormalizing h)). intros k0. destruct S as [?????????????????? Hh Hc]. unfold ResponseHeader_peek. cbn.
  rewrite (sameKvs_peek _ _ k0 Hh), (responseCookies_same _ _ [] Hc). by repeat case_decide.
Qed.

Lemma rsSetContentLength_same g h n : sameRsH g h -> relO sameRsH (ResponseHeader_SetContentLength g n) (ResponseHeader_SetContentLength h n).
Proof.
  intros S. unfold ResponseHeader_SetContentLength. assert (ResponseHeader_mustSkipContentLength g = ResponseHeader_mustSkipContentLength h) as -> by (by destruct S).
  destruct (ResponseHeader_mustSkipContentLength h); [by constructor|]. destruct S. destruct (0 <=? n).
  - destruct (AppendUint [] n); constructor. same_rsheader.
  - destruct (n =? -2); constructor; same_rsheader.
Qed.

Lemma printedHeaders_same g h : sameRsH g h -> visitArgs (printedHeaders g) = visitArgs (printedHeaders h).
Proof.
  intros [?????????????????? Hh Hc]. unfold printedHeaders. cbn. clear Hc. revert Hh. unfold sameKvs. generalize (live h1) (live h2).
  intros l. induction l as [|kv l IH]; intros [|kv' l']; try done. cbn [visitArgs map]. intros [= Ek Ev E].
  rewrite !filter_cons, Ek. case_decide; [|by apply IH]. cbn [visitArgs map]. rewrite Ek, Ev. f_equal. by apply IH.
Qed.

Lemma cookieLines_same g h : sameRsH g h -> cookieLines g = cookieLines h.
Proof.
  assert (forall l, map (fun kv : argsKV => (strSetCookie, value kv)) l = map (fun kv => (strSetCookie, snd kv)) (visitArgs l)) as E
    by (intros l; unfold visitArgs; by rewrite map_map).
  intros [?????????????????? Hh Hc]. unfold cookieLines. cbn. by rewrite !E, Hc.
Qed.

Lemma rsAppendBytes_same d g h dst : sameRsH g h -> ResponseHeader_AppendBytes d g dst = ResponseHeader_AppendBytes d h dst.
Proof.
  intros S. rewrite !ResponseHeader_AppendBytes_lines. unfold responseLines. rewrite (printedHeaders_same _ _ S), (cookieLines_same _ _ S). by destruct S.
Qed.

Lemma rsHeader_same d g h : sameRsH g h -> relO (relP sameRsH) (ResponseHeader_Header d g) (ResponseHeader_Header d h).
Proof.
  intros S. unfold ResponseHeader_Header. rewrite (rsAppendBytes_same d g h [] S). destruct (ResponseHeader_AppendBytes d h []) as [b|]; constructor.
  split; [by apply rsBuf_same|done].
Qed.

Lemma ResponseHeader_Reset_same h : sameRsH (ResponseHeader_Reset h) emptyResponseHeader.
Proof. by apply same_rsh. Qed.

(** ** Responses *)

Section Responses.
Context `{HL : HttpLib}.

Inductive sameResp : Response -> Response -> Prop :=
| same_resp h1 h2 imm st b1 b2 raw skip k1 k2 s1 s2 ra la :
    sameRsH h1 h2 -> bodyText b1 = bodyText b2 ->
    sameResp (MkResponse h1 imm st b1 raw skip k1 s1 ra la) (MkResponse h2 imm st b2 raw skip k2 s2 ra la).

Inductive respOp :=
| RsSetStatusCode (n : Z) | RsSetContentType (v : bytes) | RsSetServer (v : bytes) | RsSetConnectionClose | RsDisableNormalizing
| RsSet (k v : bytes) | RsAdd (k v : bytes) | RsDel (k : bytes) | RsPeek (k : bytes) | RsDelCookie (k : bytes)
| RsSetSkipBody (v : bool) | RsSetImmediateHeaderFlush (v : bool)
| RsSetBody (b : bytes) | RsAppendBody (b : bytes) | RsSetBodyRaw (b : bytes) | RsSetBodyStream (st : bodyStream) (n : Z) | RsResetBody | RsBody | RsReset
| RsWrite (serverDate w : bytes).

Definition onRespHeader (f : ResponseHeader -> ResponseHeader) (x : Response) : option (Response * reply) :=
  Some (set_resp_Header (f (resp_Header x)) x, Nothing).

Definition respCall (op : respOp) (x : Response) : option (Response * reply) :=
  match op with
  | RsSetStatusCode n => Some (Response_SetStatusCode x n, Nothing)
  | RsSetContentType v => onRespHeader (fun h => ResponseHeader_SetContentType h v) x
  | RsSetServer v => onRespHeader (fun h => ResponseHeader_SetServer h v) x
  | RsSetConnectionClose => Some (Response_SetConnectionClose x, Nothing)
  | RsDisableNormalizing => onRespHeader ResponseHeader_DisableNormalizing x
  | RsSet k v => onRespHeader (fun h => ResponseHeader_Set h k v) x
  | RsAdd k v => onRespHeader (fun h => ResponseHeader_Add h k v) x
  | RsDel k => onRespHeader (fun h => ResponseHeader_Del h k) x
  | RsPeek k => let '(h, v) := ResponseHeader_Peek (resp_Header x) k in Some (set_resp_Header h x, Got v)
  | RsDelCookie k => onRespHeader (fun h => ResponseHeader_DelCookie h k) x
  | RsSetSkipBody v => Some (set_resp_SkipBody v x, Nothing)
  | RsSetImmediateHeaderFlush v => Some (set_resp_ImmediateHeaderFlush v x, Nothing)
  | RsSetBody b => Some (Response_SetBody x b, Nothing)
  | RsAppendBody b => Some (Response_AppendBody x b, Nothing)
  | RsSetBodyRaw b => Some (Response_SetBodyRaw x b, Nothing)
  | RsSetBodyStream st n => x ← Response_SetBodyStream x st n; Some (x, Nothing)
  | RsResetBody => Some (Response_ResetBody x, Nothing)
  | RsBody => let '(x, b) := Response_Body x in Some (x, Got (Some b))
  | RsReset => Some (Response_Reset x, Nothing)
  | RsWrite serverDate w => '(x, b, err) ← Response_Write serverDate x w; Some (x, Written b err)
  end.

Definition respCalls : list respOp -> Response -> option (list reply) := calls respCall.

Ltac same_response := apply same_resp; cbn; eauto with same.

Lemma setRespHeader_same x y g h : sameResp x y -> sameRsH g h -> sameResp (set_resp_Header g x) (set_resp_Header h y).
Proof. intros [] S. same_response. Qed.
Lemma getRespHeader_same x y : sameResp x y -> sameRsH (resp_Header x) (resp_Header y).
Proof. by intros []. Qed.

Lemma onRespHeader_same f x y : (forall g h, sameRsH g h -> sameRsH (f g) (f h)) -> sameResp x y -> relO (relP sameResp) (onRespHeader f x) (onRespHeader f y).
Proof. intros Hf S. constructor. split; [|done]. by apply setRespHeader_same, Hf, getRespHeader_same. Qed.

Lemma RespResetBody_same x y : sameResp x y -> sameResp (Response_ResetBody x) (Response_ResetBody y).
Proof. intros []. unfold Response_ResetBody. destruct b1, b2, k1, k2; same_response. Qed.

Lemma respLength_same x y n :
  sameResp x y -> relO sameResp (h ← ResponseHeader_SetContentLength (resp_Header x) n; Some (set_resp_Header h x)) (h ← ResponseHeader_SetContentLength (resp_Header y) n; Some (set_resp_Header h y)).
Proof.
  intros S. eapply relO_bind; [apply rsSetContentLength_same, getRespHeader_same, S|]. intros g h Hgh. constructor. by apply setRespHeader_same.
Qed.

Lemma RespHeaderWrite_same d x y w : sameResp x y -> relO (relP sameResp) (Response_Header_Write d x w) (Response_Header_Write d y w).
Proof.
  intros S. eapply relO_bind; [apply rsHeader_same, getRespHeader_same, S|]. intros [g b] [h b'] [Hgh E]. cbn in Hgh, E. subst. constructor.
  split; [by apply setRespHeader_same|done].
Qed.

Definition sameRespWritten (x y : Response * bytes * option error) : Prop := sameResp (fst (fst x)) (fst (fst y)) /\ snd (fst x) = snd (fst y) /\ snd x = snd y.

Lemma RespWriteBodyStream_same d x y st w send :
  sameResp x y -> relO sameRespWritten (Response_writeBodyStream d x st w send) (Response_writeBodyStream d y st w send).
Proof.
  intros S. unfold Response_writeBodyStream. assert (ResponseHeader_ContentLength (resp_Header x) = ResponseHeader_ContentLength (resp_Header y)) as ->
    by (apply getRespHeader_same in S; by destruct S).
  assert (forall a b, sameResp a b -> sameResp (Response_closeBodyStream a) (Response_closeBodyStream b)) as Cl by (intros ?? []; same_response).
  eapply (relO_bind (relP sameResp)).
  - destruct (_ && _); [|constructor; by split]. eapply relO_bind; [apply rsSetContentLength_same, getRespHeader_same, S|].
    intros g h Hgh. constructor. split; [by apply setRespHeader_same|done].
  - intros [a n] [b n'] [Hab E]. cbn in Hab, E. subst n'. destruct (0 <=? n).
    + eapply relO_bind; [by apply RespHeaderWrite_same|]. intros [a' w1] [b' w2] [S' E]. cbn in S', E. subst.
      destruct (if send then _ else _) as [w3 err]. constructor. split; [by apply Cl|done].
    + eapply relO_bind; [apply rsSetContentLength_same, getRespHeader_same, Hab|]. intros g h Hgh.
      eapply relO_bind; [apply RespHeaderWrite_same, setRespHeader_same; [exact Hab|exact Hgh]|]. intros [a' w1] [b' w2] [S' E]. cbn in S', E. subst.
      destruct send; [destruct (writeBodyChunked _ _) as [w' [err|]]|]; constructor; (split; [|done]); first [by apply Cl|exact S'].
Qed.

Lemma RespBodyBytes_same x y : sameResp x y -> Response_bodyBytes x = Response_bodyBytes y.
Proof. intros []. unfold Response_bodyBytes. cbn. destruct raw; [done|]. by destruct b1, b2. Qed.

Lemma RespWrite_same d x y w : sameResp x y -> relO sameRespWritten (Response_Write d x w) (Response_Write d y w).
Proof.
  intros S. unfold Response_Write. assert (Response_mustSkipBody x = Response_mustSkipBody y /\ resp_bodyStream x = resp_bodyStream y) as [-> ->].
  { destruct S as [???????????????]. split; [|done]. unfold Response_mustSkipBody. cbn. by match goal with Hh : sameRsH _ _ |- _ => destruct Hh end. }
  destruct (resp_bodyStream y) as [st|]; [by apply RespWriteBodyStream_same|]. rewrite (RespBodyBytes_same _ _ S). cbv zeta.
  eapply (relO_bind sameResp); [destruct (_ || _); [by apply respLength_same|by constructor]|]. intros x' y' S'.
  eapply relO_bind; [by apply RespHeaderWrite_same|]. intros [a w1] [b w2] [S2 E]. cbn in S2, E. subst. constructor. by split.
Qed.

Lemma Response_Reset_eq h imm st b raw skip k s ra la :
  Response_Reset (MkResponse h imm st b raw skip k s ra la) =
  MkResponse (ResponseHeader_Reset h) false None (keptBuffer b k) None false k s None None.
Proof. by destruct b, k. Qed.

Lemma RespReset_same x y : sameResp x y -> sameResp (Response_Reset x) (Response_Reset y).
Proof. intros []. rewrite !Response_Reset_eq. apply same_resp; [by apply same_rsh|by rewrite !keptBuffer_text]. Qed.

Lemma respCall_same {Laws : HttpLaws} op x y : sameResp x y -> relO (relP sameResp) (respCall op x) (respCall op y).
Proof.
  intros S. pose proof (getRespHeader_same _ _ S) as G.
  destruct op; cbn [respCall]; try (apply onRespHeader_same; [|done]; first [intros ? ? []; same_rsheader|intros; by apply rsSet_same|intros; by apply rsAdd_same|intros; by apply rsDel_same]);
    try (constructor; split; [|done]; destruct S; same_response; fail).
  - destruct (rsPeek_same _ _ k G) as [G' E]. destruct (ResponseHeader_Peek _ k), (ResponseHeader_Peek _ k). cbn in G', E. subst. constructor.
    split; [by apply setRespHeader_same|done].
  - constructor. split; [|done]. destruct S. same_response. f_equal. by apply bodyBuffer_text.
  - constructor. split; [|done]. apply RespResetBody_same in S. unfold Response_SetBodyRaw. destruct S. same_response.
  - eapply (relO_bind sameResp); [|intros; by constructor]. apply RespResetBody_same in S. unfold Response_SetBodyStream.
    assert (sameResp (set_resp_bodyStream (Some st) (Response_ResetBody x)) (set_resp_bodyStream (Some st) (Response_ResetBody y))) as S' by (destruct S; same_response).
    by apply respLength_same.
  - constructor. split; [by apply RespResetBody_same|done].
  - unfold Response_Body. assert (resp_bodyStream x = resp_bodyStream y) as -> by (by destruct S). destruct (resp_bodyStream y) as [st|].
    + destruct (Response_bodyBuffer x) as [x' b] eqn:Ex, (Response_bodyBuffer y) as [y' b'] eqn:Ey. destruct (copyZeroAlloc st) as [p err]. constructor.
      destruct S. cbn in Ex, Ey. injection Ex as <- <-. injection Ey as <- <-. split; [same_response|done].
    + constructor. split; [exact S|]. by rewrite (RespBodyBytes_same _ _ S).
  - constructor. split; [|done]. by apply RespReset_same.
  - eapply relO_bind; [by apply RespWrite_same|]. intros [[x' b] err] [[y' b'] err'] (S' & E1 & E2). cbn in S', E1, E2. subst. constructor. by split.
Qed.

#[export] Instance respCalls_proper {Laws : HttpLaws} ops : Proper (sameResp ==> eq) (respCalls ops).
Proof. intros x y S. apply (calls_same respCall sameResp); [|exact S]. apply respCall_same. Qed.

Lemma Response_Reset_same x : sameResp (Response_Reset x) emptyResponse.
Proof. destruct x. rewrite Response_Reset_eq. apply same_resp; [apply ResponseHeader_Reset_same|by apply keptBuffer_text]. Qed.
End Responses.

(** ** Cookies *)

Section Cookies.
Context `{TimeLib}.

Inductive cookieOp :=
| CkParse (src : bytes) | CkReset | CkSetKey (v : bytes) | CkSetValue (v : bytes) | CkSetPath (v : bytes) | CkSetDomain (v : bytes) | CkSetMaxAge (n : Z)
| CkSetExpire (t : Time) | CkSetHTTPOnly (v : bool) | CkSetSecure (v : bool) | CkSetSameSite (m : CookieSameSite)
| CkKey | CkValue | CkPath | CkDomain | CkCookie.

Definition cookieCall (op : cookieOp) (c : Cookie) : option (Cookie * reply) :=
  match op with
  | CkParse src => let '(c, err) := Cookie_Parse c src in Some (c, Ended err)
  | CkReset => Some (Cookie_Reset c, Nothing)
  | CkSetKey v => Some (Cookie_SetKey c v, Nothing)
  | CkSetValue v => Some (Cookie_SetValue c v, Nothing)
  | CkSetPath v => Some (Cookie_SetPath c v, Nothing)
  | CkSetDomain v => Some (Cookie_SetDomain c v, Nothing)
  | CkSetMaxAge n => Some (Cookie_SetMaxAge c n, Nothing)
  | CkSetExpire t => Some (Cookie_SetExpire c t, Nothing)
  | CkSetHTTPOnly v => Some (Cookie_SetHTTPOnly c v, Nothing)
  | CkSetSecure v => Some (Cookie_SetSecure c v, Nothing)
  | CkSetSameSite m => Some (Cookie_SetSameSite c m, Nothing)
  | CkKey => Some (c, Got (Some (ck_key c)))
  | CkValue => Some (c, Got (Some (ck_value c)))
  | CkPath => Some (c, Got (Some (ck_path c)))
  | CkDomain => Some (c, Got (Some (ck_domain c)))
  | CkCookie => '(c, b) ← Cookie_Cookie c; Some (c, Got (Some b))
  end.

(** Equivalent cookies have the same fields. *)
Ltac cookie_fields H :=
  let c := fresh "c" in let d := fresh "d" in
  match type of H with sameCookie ?x ?y => destruct x, y end; unfold sameCookie in H; cbn in H; injection H as <- <- <- <- <- <- <- <- <-.

Lemma parseAttr_same c d kv kv' :
  sameCookie c d -> key kv = key kv' -> value kv = value kv' ->
  relP sameCookie (parseCookieAttr (set_ck_bufKV kv c) kv) (parseCookieAttr (set_ck_bufKV kv' d) kv').
Proof.
  intros S Ek Ev. unfold parseCookieAttr. rewrite Ek, Ev. cookie_fields S. repeat case_match; by split.
Qed.

Lemma runAttrs_same segs c d : sameCookie c d -> relP sameCookie (runAttrs segs c) (runAttrs segs d).
Proof.
  revert c d. induction segs as [|seg segs IH]; intros c d S; [by split|]. cbn [runAttrs].
  destruct (parseCookiePair_nov (noValue (ck_bufKV c)) seg) as [K1 V1], (parseCookiePair_nov (noValue (ck_bufKV d)) seg) as [K2 V2].
  destruct (parseAttr_same c d (parseCookiePair (noValue (ck_bufKV c)) seg) (parseCookiePair (noValue (ck_bufKV d)) seg)) as [S' E]; [done|congruence..|].
  destruct (parseCookieAttr _ _) as [x err], (parseCookieAttr _ _) as [y err']. cbn in S', E. subst err'. destruct err; [by split|by apply IH].
Qed.

Lemma CookieParse_same c d src : relP sameCookie (Cookie_Parse c src) (Cookie_Parse d src).
Proof.
  unfold Cookie_Parse. rewrite !Cookie_ParseBytes_spec. destruct (cookieSegs src) as [|seg segs]; [by split|]. cbv zeta. apply runAttrs_same.
  generalize (noValue (ck_bufKV (set_ck_buf src c))), (noValue (ck_bufKV (set_ck_buf src d))). intros n1 n2.
  destruct (parseCookiePair_nov n1 seg) as [K1 V1], (parseCookiePair_nov n2 seg) as [K2 V2]. rewrite K1, V1, K2, V2. done.
Qed.

Lemma Cookie_Cookie_same c d : sameCookie c d -> relO (relP sameCookie) (Cookie_Cookie c) (Cookie_Cookie d).
Proof.
  intros S. cookie_fields S. unfold Cookie_Cookie, Cookie_AppendBytes. cbn.
  destruct (0 <? _); [destruct (AppendUint _ _); by repeat constructor|]. destruct (negb _); by repeat constructor.
Qed.

Lemma cookieCall_same op c d : sameCookie c d -> relO (relP sameCookie) (cookieCall op c) (cookieCall op d).
Proof.
  intros S. destruct op; cbn [cookieCall];
    try solve [constructor; cookie_fields S; unfold Cookie_SetSameSite; cbn; try case_decide; by split].
  - destruct (CookieParse_same c d src) as [S' E]. destruct (Cookie_Parse c src), (Cookie_Parse d src). cbn in S', E. subst. by constructor.
  - eapply relO_bind; [by apply Cookie_Cookie_same|]. intros [x b] [y b'] [S' E]. cbn in S', E. subst. by constructor.
Qed.

Lemma Cookie_Reset_same c : sameCookie (Cookie_Reset c) emptyCookie.
Proof. done. Qed.
End Cookies.
