(* ===== verification/Pools.v ===== *)
(** * Pools of objects

    AcquireRequest and ReleaseRequest, and the same for responses, arguments, URIs and
    cookies (client.go, args.go, uri.go, cookie.go): an object goes back after Reset
    and comes out as it is.  Reset leaves storage, scratch buffers, keepBodyBuffer and
    secureErrorLogMessage behind, so an object that comes out is not a new one; it
    works as one, because the calls on it do not depend on what is left (Reuse.v).
    The pools are proved once, against the class [Reusable]; each type has an
    instance.  As the comments of the source ask, nobody uses an object that has been
    released. *)
From Stdlib Require Import Strings.String.
From stdpp Require Import relations list_tactics.
From S2P Require Import Prelude Args Uri Cookie RequestHeader ResponseHeader Body Http Machine Reuse.
#[local] Open Scope nat_scope.

(** ** What a pool needs of a type *)

(** A new object, and Reset. *)
Class Pooled (X : Type) := { fresh : X; reset : X -> X }.

(** An equivalence that Reset brings every object into with a new one, and that
    every call on the objects respects. *)
Class Reusable {X Op : Type} `{Pooled X} (call : Op -> X -> option (X * reply)) (same : X -> X -> Prop) : Prop := {
  reset_same : forall x, same (reset x) fresh;
  fresh_same : same fresh fresh;
  call_same : forall op x y, same x y -> relO (relP same) (call op x) (call op y)
}.

(** ** Acquire and Release *)

Section Pool.
Context {X : Type} `{Pooled X}.

(** The pool, and the objects that are in use: those released are gone. *)
Record poolWorld := MkPoolWorld { pl_pool : list X; pl_used : list (option X) }.

(** Acquire: the pool gives one of its objects or none; a user does something with
    an object; Release. *)
Inductive plact := PlAcquire (pick : option nat) | PlUse (f : X -> X) | PlRelease.

Definition acquire (pick : option nat) (s : poolWorld) : X * list X :=
  match pick ≫= fun i => x ← pl_pool s !! i; Some (x, delete i (pl_pool s)) with
  | Some (x, pool) => (x, pool)
  | None => (fresh, pl_pool s)
  end.

Definition release (x : X) (s : poolWorld) : list X := reset x :: pl_pool s.

#[local] Instance pool_machine : Machine poolWorld plact := fun t a s =>
  match a with
  | PlAcquire pick => let '(x, pool) := acquire pick s in To (MkPoolWorld pool (pl_used s ++ [Some x]))
  | _ =>
      match pl_used s !! t with
      | Some (Some x) =>
          match a with
          | PlUse f => To (MkPoolWorld (pl_pool s) (<[t := Some (f x)]> (pl_used s)))
          | PlRelease => To (MkPoolWorld (release x s) (<[t := None]> (pl_used s)))
          | PlAcquire _ => Blocked
          end
      | _ => Blocked
      end
  end.

Definition emptyPool : poolWorld := MkPoolWorld [] [].

Lemma acquire_in pick s x pool : acquire pick s = (x, pool) -> (x = fresh \/ x ∈ pl_pool s) /\ (forall y, y ∈ pool -> y ∈ pl_pool s).
Proof.
  unfold acquire. destruct (pick ≫= _) as [[y p]|] eqn:E; intros [= <- <-]; [|split; [by left|done]].
  destruct pick as [i|]; [cbn in E|done]. destruct (pl_pool s !! i) as [z|] eqn:L; [cbn in E|done]. injection E as <- <-.
  split; [right; by eapply list_elem_of_lookup_2|]. intros w Hw. rewrite (delete_Permutation _ _ _ L). by right.
Qed.

(** What waits in a pool has been reset last of all. *)
Definition poolReset (s : poolWorld) : Prop := Forall (fun x => exists y, x = reset y) (pl_pool s).

Lemma poolReset_step s t a s' : poolReset s -> step (Machine := pool_machine) t a s = To s' -> poolReset s'.
Proof.
  unfold poolReset. intros C. unfold step, pool_machine. destruct a as [pick|f|].
  - destruct (acquire pick s) as [x pool] eqn:E. intros [= <-]. cbn. rewrite Forall_forall in *. intros y Hy. apply C. by apply (proj2 (acquire_in _ _ _ _ E)).
  - destruct (pl_used s !! t) as [[x|]|]; [|done..]. by intros [= <-].
  - destruct (pl_used s !! t) as [[x|]|]; [|done..]. intros [= <-]. cbn. constructor; [by eexists|done].
Qed.

Lemma acquired_reset s pick : reachable (H := pool_machine) emptyPool s -> fst (acquire pick s) = fresh \/ exists y, fst (acquire pick s) = reset y.
Proof.
  intros R. assert (poolReset s) as C.
  { revert R. apply (reachable_invariant (H := pool_machine) poolReset); [constructor|]. intros t a s1 s2 I E. by eapply poolReset_step. }
  destruct (acquire pick s) as [x pool] eqn:E. destruct (proj1 (acquire_in _ _ _ _ E)) as [->|Hx]; [by left|right].
  unfold poolReset in C. rewrite Forall_forall in C. by apply C.
Qed.

(** The users of an object that was acquired get what the users of a new one get. *)
Lemma acquired_calls {Op} (call : Op -> X -> option (X * reply)) same `{!Reusable call same} s pick ops :
  reachable (H := pool_machine) emptyPool s -> calls call ops (fst (acquire pick s)) = calls call ops fresh.
Proof.
  intros R. apply (calls_same call same); [apply call_same|]. destruct (acquired_reset s pick R) as [->|[y ->]]; [apply fresh_same|apply reset_same].
Qed.
End Pool.

Arguments poolWorld X : clear implicits.
Arguments plact X : clear implicits.

(** ** The types that are pooled *)

#[export] Instance Args_pooled : Pooled Args := {| fresh := emptyArgs; reset := Args_Reset |}.
#[export] Instance Args_reusable : Reusable argsCall sameArgs.
Proof. split; [done|done|apply argsCall_same]. Qed.

#[export] Instance URI_pooled : Pooled URI := {| fresh := emptyURI; reset := URI_Reset |}.
#[export] Instance URI_reusable : Reusable uriCall sameURI.
Proof. split; [apply URI_Reset_same|by apply same_uri|apply uriCall_same]. Qed.

#[export] Instance Cookie_pooled `{TimeLib} : Pooled Cookie := {| fresh := emptyCookie; reset := Cookie_Reset |}.
#[export] Instance Cookie_reusable `{TimeLib} : Reusable cookieCall sameCookie.
Proof. split; [apply Cookie_Reset_same|done|apply cookieCall_same]. Qed.

Section Messages.
Context `{HttpLib}.

#[export] Instance Request_pooled : Pooled Request := {| fresh := emptyRequest; reset := Request_Reset |}.
#[export] Instance Request_reusable {Laws : HttpLaws} : Reusable reqCall sameReq.
Proof. split; [apply Request_Reset_same|by repeat constructor|apply reqCall_same]. Qed.

#[export] Instance Response_pooled : Pooled Response := {| fresh := emptyResponse; reset := Response_Reset |}.
#[export] Instance Response_reusable {Laws : HttpLaws} : Reusable respCall sameResp.
Proof. split; [apply Response_Reset_same|by repeat constructor|apply respCall_same]. Qed.

Definition AcquireRequest (pick : option nat) (s : poolWorld Request) : Request * list Request := acquire pick s.
Definition ReleaseRequest (x : Request) (s : poolWorld Request) : list Request := release x s.
Definition AcquireResponse (pick : option nat) (s : poolWorld Response) : Response * list Response := acquire pick s.
Definition ReleaseResponse (x : Response) (s : poolWorld Response) : list Response := release x s.
End Messages.

Definition AcquireArgs (pick : option nat) (s : poolWorld Args) : Args * list Args := acquire pick s.
Definition ReleaseArgs (x : Args) (s : poolWorld Args) : list Args := release x s.
Definition AcquireURI (pick : option nat) (s : poolWorld URI) : URI * list URI := acquire pick s.
Definition ReleaseURI (x : URI) (s : poolWorld URI) : list URI := release x s.
Definition AcquireCookie `{TimeLib} (pick : option nat) (s : poolWorld Cookie) : Cookie * list Cookie := acquire pick s.
Definition ReleaseCookie `{TimeLib} (x : Cookie) (s : poolWorld Cookie) : list Cookie := release x s.

(** SecureErrorLogMessage of a client stays with the objects it has used. *)
Lemma secureErrorLogMessage_is_kept `{HttpLib} (x : Request) :
  req_secureErrorLogMessage (Request_Reset x) = req_secureErrorLogMessage x /\
  rq_secureErrorLogMessage (req_Header (Request_Reset x)) = rq_secureErrorLogMessage (req_Header x).
Proof. destruct x. by rewrite Request_Reset_eq. Qed.

(** The fields that the calls of [reqOp] and [respOp] do not show. *)
Lemma Request_Reset_rest `{HttpLib} (x : Request) : req_isTLS (Request_Reset x) = false /\ req_timeout (Request_Reset x) = 0%Z.
Proof. destruct x. by rewrite Request_Reset_eq. Qed.
Lemma Response_Reset_rest `{HttpLib} (x : Response) : resp_raddr (Response_Reset x) = None /\ resp_laddr (Response_Reset x) = None.
Proof. destruct x. by rewrite Response_Reset_eq. Qed.

(** * Properties *)

(** C14. What comes from a pool works as a new object.  Whatever has been done with
    the objects before they were released, under every interleaving of their users:
    every sequence of calls on a request that is acquired (setters, lookups, the URI
    and the form arguments, the body, Reset, Write) gives the results it gives on a new
    request, panics included, and the same for responses, arguments, URIs and
    cookies; isTLS and the timeout of a request and the addresses of a response,
    which these calls do not show, are those of a new one.  The calls do not include
    Read.  secureErrorLogMessage, which Reset keeps, chooses the text of the errors of
    Read; keepBodyBuffer and the storage choose what is allocated. *)
Theorem acquired_works_as_new `{HL : HttpLib} {Laws : HttpLaws} `{TL : TimeLib} (pick : option nat) :
  (forall s, reachable (H := pool_machine) emptyPool s ->
    (forall ops, reqCalls ops (fst (AcquireRequest pick s)) = reqCalls ops emptyRequest) /\
    req_isTLS (fst (AcquireRequest pick s)) = false /\ req_timeout (fst (AcquireRequest pick s)) = 0%Z) /\
  (forall s, reachable (H := pool_machine) emptyPool s ->
    (forall ops, respCalls ops (fst (AcquireResponse pick s)) = respCalls ops emptyResponse) /\
    resp_raddr (fst (AcquireResponse pick s)) = None /\ resp_laddr (fst (AcquireResponse pick s)) = None) /\
  (forall s ops, reachable (H := pool_machine) emptyPool s -> calls argsCall ops (fst (AcquireArgs pick s)) = calls argsCall ops emptyArgs) /\
  (forall s ops, reachable (H := pool_machine) emptyPool s -> calls uriCall ops (fst (AcquireURI pick s)) = calls uriCall ops emptyURI) /\
  (forall s ops, reachable (H := pool_machine) emptyPool s -> calls cookieCall ops (fst (AcquireCookie pick s)) = calls cookieCall ops emptyCookie).
Proof.
  split_and!.
  - intros s R. split; [intros ops; exact (acquired_calls reqCall sameReq s pick ops R)|]. unfold AcquireRequest.
    destruct (acquired_reset s pick R) as [->|[y ->]]; [done|apply Request_Reset_rest].
  - intros s R. split; [intros ops; exact (acquired_calls respCall sameResp s pick ops R)|]. unfold AcquireResponse.
    destruct (acquired_reset s pick R) as [->|[y ->]]; [done|apply Response_Reset_rest].
  - intros s ops R. exact (acquired_calls argsCall sameArgs s pick ops R).
  - intros s ops R. exact (acquired_calls uriCall sameURI s pick ops R).
  - intros s ops R. exact (acquired_calls cookieCall sameCookie s pick ops R).
Qed.

#[local] Existing Instance plainLib.

(** A request with a body, a host, a parsed URI and a deadline is used, released and
    acquired; the next user posts to another place. *)
Definition dirtyRequest (x : Request) : Request :=
  let x := Request_SetBody (set_req_Header (RequestHeader_SetHost (req_Header x) (bs "h")) x) (bs "secret") in
  fst (Request_URI (set_req_secureErrorLogMessage true (set_req_isTLS true (set_req_timeout 7 x)))).
Definition poolRun : list (nat * plact Request) := [(0, PlAcquire None); (0, PlUse dirtyRequest); (0, PlRelease)].
Definition poolAfter : poolWorld Request := match run (H := pool_machine) poolRun emptyPool with To s => s | _ => emptyPool end.

Definition nextUse : list reqOp :=
  [RqSetMethod (bs "POST"); RqSetRequestURI (bs "http://example.com/a?b=c"); RqPostArgs (ArSet (bs "d") (bs "e")); RqBody; RqURI UrFullURI; RqWrite []].

Lemma poolAfter_reachable : reachable (H := pool_machine) emptyPool poolAfter.
Proof. apply (run_reachable (H := pool_machine) poolRun). vm_compute. reflexivity. Qed.

Lemma acquired_works_as_new_witness :
  length (pl_pool poolAfter) = 1 /\ (fst (AcquireRequest (Some 0) poolAfter) <> emptyRequest) /\
  (take 5 <$> reqCalls nextUse emptyRequest) = Some [Nothing; Nothing; Nothing; Got (Some []); Got (Some (bs "http://example.com/a?b=c"))] /\
  reqCalls nextUse (fst (AcquireRequest (Some 0) poolAfter)) = reqCalls nextUse emptyRequest.
Proof.
  assert (length (pl_pool poolAfter) = 1) as E by (vm_compute; reflexivity).
  assert (fst (AcquireRequest (Some 0) poolAfter) <> emptyRequest) as N by (intros X; apply (f_equal req_secureErrorLogMessage) in X; vm_compute in X; discriminate X).
  assert ((take 5 <$> reqCalls nextUse emptyRequest) = Some [Nothing; Nothing; Nothing; Got (Some []); Got (Some (bs "http://example.com/a?b=c"))]) as F
    by (vm_compute; reflexivity).
  exact (conj E (conj N (conj F (proj1 (proj1 (acquired_works_as_new (Laws := plainLib_laws) (TL := unixTime) (Some 0)) poolAfter poolAfter_reachable) nextUse)))).
Defined.
